(* ===== verification/_CoqProject ===== *)
-Q . S2P
Prelude.v
Fixtures.v
Preflight.v
LoadPlan.v
Payload.v
LinkManifest.v
ImportResolver.v
DataLink.v
GuestMemory.v
Startup.v
KernelClock.v
Rtc.v
RtcText.v
KernelErrors.v
Semaphore.v
PosixSem.v
EventFlag.v
Alignment.v
OrdMap.v
PhysMemory.v
VirtMemory.v
Repaint.v
MemoryManager.v
Unmapping.v
Mapping.v
KernelMemory.v
BitArray.v
PageManager.v
MemoryTracker.v
Loops.v
SlotVector.v
LruCache.v
BufferCache.v
Psf.v
IrOpcodes.v
ShaderIr.v
IrEditing.v
IrSemantics.v
ConstantPropagation.v
FoldValues.v
FoldSteps.v
FoldKinds.v
Propagation.v
CleanupPasses.v
ShaderPasses.v
FoldLimits.v
BlockGraph.v
SharedBarriers.v
SharedMutex.v
BoundedQueue.v
ManyQueues.v
