(* ===== verification/Prelude.v ===== *)
(** * A verification of the guest-loading core of shadPS4

    The program is a console emulator. This development models the parts of it that are
    ordinary algorithms over bytes, integers and queues, as executable definitions that follow
    the C++ line by line, and proves what makes each of them correct.

    ** The parts and how they interact

    The loading pipeline of src/src/core/uwp (each step calls the one before):

    - [Preflight]: [InspectGuestPrefix] (guest_preflight.h) reads the ELF or SELF header from a
      bounded prefix of the file.
    - [LoadPlan]: [PlanGuestLoads] and [StageRawGuest] (guest_load_plan.h) lay the loadable
      segments out in an image and copy a raw ELF into it.
    - [Payload]: [PlanGuestPayloadFile] and [StageGuestPayload] (guest_payload.h) find the bytes
      of each segment in a SELF container and stage them.
    - [LinkManifest]: [InspectGuestLinkManifest] (guest_link_manifest.h) reads the dynamic
      tables: names, symbols, relocations, thread-local storage.
    - [ImportResolver]: [ResolveGuestImports] (guest_import_resolver.h) decodes the import names
      and looks them up in a registry of exports.
    - [DataLink]: [StageGuestDataLink] (guest_data_link.h) applies the relocations it can to the
      staged image, verifies every byte and rolls back otherwise.
    - [GuestMemory] (guest_memory.h), [Startup] (guest_startup.h, runtime_layout.h) and
      [KernelClock] (kernel_clock.h): the memory services, the initial stack, thread block and
      page permissions, and the clock services of the loaded guest.
    - [Fixtures]: the files the program builds for its self tests (guest_loader_fixture.h and
      its siblings); the witnesses run the pipeline on them.

    The kernel and system libraries the guest calls:

    - [Rtc] and [RtcText]: dates, ticks and their texts (libraries/rtc/rtc.cpp).
    - [KernelErrors]: the codes the kernel calls return (kernel/orbis_error.h).
    - [Semaphore]: counting semaphores with a queue of threads (class [OrbisSem] and the
      [sceKernel*Sema] calls of kernel/threads/semaphore.cpp).
    - [PosixSem]: the atomic POSIX semaphores of the same file.
    - [EventFlag]: bit patterns that threads wait for (kernel/threads/event_flag.cpp).

    The three are transition systems: a method that runs under the mutex is one step, a wait
    that blocks is a step that queues the thread and one that resumes it, and the waiter
    records, which live on the stacks of the blocked threads, are a map from threads. A POSIX
    wait is cut at its atomic operations, so that every interleaving of a post with a wait is
    a run of the model.

    The locks and queues between threads of the program (src/src/common), cut finer, at each access
    to shared memory, so that every interleaving of the threads is a run of the model:

    - [SharedMutex]: [SharedFirstMutex] (shared_first_mutex.h), the mutex of the memory manager,
      with its inner mutex and condition variable.
    - [BoundedQueue]: [SPSCQueue] (bounded_threadsafe_queue.h), a ring of slots with two atomic
      indices and no lock around the data. [ManyQueues]: [MPSCQueue] and [MPMCQueue], which put a
      mutex before its sides.

    The memory manager of the kernel (src/src/core/memory.h and memory.cpp):

    - [Alignment]: [AlignUp] and [AlignDown] (common/alignment.h).
    - [OrdMap]: the ordered maps, as sorted lists, and what both maps of the manager do with
      their areas ([Split], the carving, [MergeAdjacent]); an area is an instance of the class
      [Area], and the class [AreaLaws] is what an area promises to the map: cutting and joining
      areas does not change what is said of any address ([view]). The lemmas of [OrdMap] are
      proved against the class.
    - [PhysMemory]: who uses each physical address: the allocator, the pools, the queries.
    - [VirtMemory]: the areas of the virtual map with the physical pieces behind them, the
      validity of ranges, the search for free addresses and the queries.
    - [Repaint]: carving, writing and merging a range of a physical map as one operation.
    - [MemoryManager]: the state of the class [MemoryManager] and its operations that change the
      maps together, from the constructor to [MapMemory], [UnmapMemory], [Free], [Protect] and
      the pools; what it asks of the host and of the GPU tracker is recorded in order.
    - [Unmapping], [Mapping]: what [UnmapMemory] and [MapMemory] do, page by page, and the
      consistency of the three maps ([mm_ok]) that they keep.
    - [KernelMemory]: the calls of the guest (libraries/kernel/memory.cpp): the checks of the
      arguments, the codes, the batches and the memory pools, on top of [MemoryManager].

    The memory of the GPU (src/src/video_core):

    - [BitArray]: the arrays of bits with their ranges and runs (common/bit_array.h), with and
      without the AVX loops; a word is a [Z], and [bit] is what an array stands for.
    - [PageManager] (page_manager.cpp): who watches the writes and reads of each page, and the
      protection that the host is asked for.
    - [MemoryTracker] (buffer_cache/region_manager.h, memory_tracker.h, and the reading back of
      buffer_cache.cpp): which pages the CPU and the GPU changed. It works on [PageManager]:
      [view] is the pair of bits of a page, and [tracked] the life of a tracker next to other
      users of the page manager.
    - [SlotVector] (common/slot_vector.h) and [LruCache] (common/lru_cache.h): the containers of
      the buffers; the first stands for a map from slots, the second, a pool of linked items,
      for a list.
    - [Loops]: loops with a long bound that are cheap to evaluate.
    - [BufferCache] (buffer_cache/buffer_cache.cpp, multi_level_page_table.h): which buffer
      backs which memory; buffers that overlap a new one are joined into it. Its search loop has
      [2 ^ 28] turns of fuel: the address space has [2 ^ 26] pages, each looked at once before the
      range leaps and once after.

    The parameter files of the guest: [Psf] (file_format/psf.cpp): the named values that describe a
    title or saved data, the file they are written to and read from.

    The shader recompiler (src/src/shader_recompiler):

    - [IrOpcodes]: the opcodes with their types and operands (ir/opcodes.inc, opcodes.h, type.h).
    - [ShaderIr]: values, instructions with the lists of their uses, and blocks (ir/value.h,
      microinstruction.cpp, basic_block.cpp). A pointer to an instruction is a key of a map, the
      lists of uses are part of the state; [wf] says what they have to hold. Recursions through
      identities have fuel for every instruction, enough since no identity leads to itself.
    - [IrEditing]: the edits of a program as one type of operations, and the programs that any
      allowed edits lead to.
    - [IrSemantics]: a specification, not a translation: the values that opcodes mean, the runs of a
      program ([running]) and what a pass has to keep of them ([keeps]). How the host packs and
      converts floats is a parameter, [conv].
    - [ConstantPropagation] (ir/passes/constant_propagation_pass.cpp): the pass. [FoldValues],
      [FoldSteps], [FoldKinds] and [Propagation] prove it, from the bits of the folds to the loop
      over the blocks: each kind of fold is a [steps], and steps compose.
    - [CleanupPasses] (identity_removal_pass.cpp, dead_code_elimination_pass.cpp): the passes and
      their proofs. [ShaderPasses]: the passes as [TranslateProgram] calls them (recompiler.cpp).
    - [FoldLimits]: the operands for which folding differs from the operation.
    - [BlockGraph]: the edges between blocks and the order of the passes (ir/basic_block.cpp,
      post_order.cpp). Its search has two turns of fuel for each block, one that pushes it and one that
      finishes it.
    - [SharedBarriers] (ir/passes/shared_memory_barrier_pass.cpp, breadth_first_search.h): the barriers
      around shared memory. The search enters each instruction once, and the first one twice.

    ** How the code is modelled

    A fixed-width integer is a [Z]; every operation that can leave its width is written with its
    wrap-around ([+64], [wrap32], [s16], ...), and signed arithmetic on an [int] that may overflow,
    which is undefined, is [int_result], an option (signed 64-bit products are taken modulo 2^64).
    A byte is a [Byte.byte], a span or a vector a
    list, a [std::map] a [gmap]. [l.[i]] is an access that C++ leaves undefined out of range:
    the functions that fill a result object run in the monad [M] below, where such an access is
    the outcome [Ub], and their theorems say that it never happens ([finish m s = Some r]). An
    early [return fail("...")] is the outcome [Fail]. Loops over a container are [forM] and
    [foldM], so that no fuel is needed; the loops that are not over a container are structural
    recursions ([decimal] in [RtcText] has ten digits of fuel, enough for an [int]).

    A pointer parameter that may be null is an option. What a kernel call answers from the host
    (clock, time zone, SDK version) is an argument of the model.

    ** What the theorems show

    The properties are numbered C1 to C40. For each function of the pipeline, one theorem says
    that it makes no access out of range on any input, gives the conditions under which it
    succeeds as a specification independent of the control flow, and says what the result then
    is. [LinkManifest] ties what it reports to the bytes of the file: the tables are those that the
    program headers and the tags of the dynamic entries name. The theorems of [Rtc] and [RtcText]
    compare the calendar with counting days and are the round trips of ticks, dates and texts, for
    the minutes below 36: from there on [sceRtcGetTick] overflows an [int], which they state too.
    Those of [Semaphore], [PosixSem] and [EventFlag] are about every reachable state of the kernel
    objects: the invariants of the queues (nobody sleeps who could be served), what a signal, a
    post and a [Set] do, which codes a wait ends with, that a released thread does resume, and
    that deleting an event flag does not hang. [WaitBegin_negative] and [Set_wakes_again] state
    two behaviours that look unintended: negative semaphore counts, and bits that an event flag
    consumes twice.

    Those of [SharedMutex], [BoundedQueue] and [ManyQueues] hold for any interleaving of any calls:
    the mutex is a lock with one writer or many readers, and readers go first; the queues are bounded
    lists, the two sides never touch one slot at once, also when the indices wrap around; no wake-up
    is lost, and every run of steps ends, with all calls returned but those that have to wait. A
    measure of the steps left takes the place of fairness. [TryEmplace_waits] shows a push that waits
    although it should not.

    Those of [PhysMemory] and [VirtMemory] compare the maps with what they stand for, the use of each
    address: the allocators give the first aligned free range, [Free] releases what it is asked
    to (the checked one) or more (the unchecked one), a search gives the first free place, a
    range is valid when the map holds it, or when it begins inside a gap.

    Those of [Unmapping] and [Mapping] are about the memory manager as a whole: the constructor makes
    consistent maps, mapping and unmapping keep them so, succeed whenever there is place and
    memory (the loops end and no assertion fails), change the pages and the memory of the range
    and nothing else, and unmapping undoes a mapping that replaced nothing. Consistency says that no physical memory is mapped
    twice; the code allows it for direct memory, which the theorems leave out. Those of
    [KernelMemory] give the result of an allocation for any arguments that do not wrap around
    ([AllocateDirectMemory_wraps] has some that do, where the allocator asserts), and say that a
    batch is the sequence of its entries up to the first that does not succeed.

    Those of [PageManager] and [MemoryTracker] are about the protection the host has after any
    sequence of calls: it lets a page be written exactly when the CPU changed it already and
    nobody else watches it, however the calls were merged, so that no change is missed; an upload
    reports each changed page once, and an invalidation reads back what the GPU changed before the
    CPU writes to it. That a page the GPU changed has bytes to read back is an assumption of the
    model: the set of modified bytes of the buffer cache is not in it. Those of [SlotVector] and
    [LruCache] are refinements of a map with fresh keys and of a list ordered by the last use; the
    loop of the cache over its oldest items drops the answer of its callback and never stops early,
    as the code is compiled. Those of [BufferCache] say that buffers never
    overlap, that the page table leads to them, and that the buffer found for a range covers it
    and takes in everything it touches. The theorem on [LastRangeFrom] also shows where the AVX
    form differs from the portable one.

    Those of [Psf]: the file that is written reads back as the same parameters, and the calls that add
    and look up parameters are a map from keys.

    Those of [IrEditing] and [ShaderPasses]: the lists of uses agree with the operands after any edits;
    constant propagation, identity removal and dead code elimination end, and keep what a shader
    computes and does, one by one and one after the other. The folds are exact for the operands
    that [faithful] names; [FoldLimits] shows what happens to the others. Those of [BlockGraph] and
    [SharedBarriers]: the post-order holds each reachable block once and successors first but for loops;
    a load and a write of shared memory in a block are separated by a barrier, and no barrier is put
    where the threads of a group may be apart.

    ** Not modelled

    The report strings ([Details]) of the pipeline; the machine-code fixtures and the Windows
    bridge of src/src/core/uwp; of the shader recompiler the decoding of the guest's code, the
    control flow, the passes that rewrite registers and resources and the emission of SPIR-V;
    the renderer and the remaining HLE libraries, which are larger than what is here or are calls into the
    host; the texture cache and the device side of the buffer cache; the locks of the page
    manager and the tracker, whose methods are single steps here; vendored and generated code. *)
From Stdlib Require Import ZArith Lia Sorting.Sorted.
From Stdlib Require Import Strings.Byte.
From stdpp Require Import base gmap list list_numbers strings.

#[global] Open Scope Z_scope.

Declare Scope guest_scope.
Delimit Scope guest_scope with guest.

(** * Fixed-width unsigned integers

    Every unsigned integer of the program is a [Z]; the operations that can leave
    the range are written with the wrap-around of their width. *)

Definition U8_MAX : Z := 255.
Definition U16_MAX : Z := 65535.
Definition U32_MAX : Z := 4294967295.
Definition U64_MAX : Z := 18446744073709551615.

Definition wrap8 (x : Z) : Z := x mod 256.
Definition wrap16 (x : Z) : Z := x mod 65536.
Definition wrap32 (x : Z) : Z := x mod 4294967296.
Definition wrap64 (x : Z) : Z := x mod 18446744073709551616.

Notation "x +64 y" := (wrap64 (x + y)) (at level 50, left associativity) : guest_scope.
Notation "x -64 y" := (wrap64 (x - y)) (at level 50, left associativity) : guest_scope.
Notation "x *64 y" := (wrap64 (x * y)) (at level 40, left associativity) : guest_scope.
#[global] Open Scope guest_scope.

(** The two's-complement value of the low bits: the conversions to [int16_t], [int32_t] and
    [int64_t]. *)
Definition s16 (x : Z) : Z := (x + 32768) mod 65536 - 32768.
Definition s32 (x : Z) : Z := (x + 2147483648) mod 4294967296 - 2147483648.
Definition s64 (x : Z) : Z := (x + 9223372036854775808) mod 18446744073709551616 - 9223372036854775808.

(** [is_u64 x]: [x] is the value of a [std::uint64_t]. *)
Definition is_u64 (x : Z) : Prop := 0 <= x <= U64_MAX.

(** [u64_lia] is [lia] with the width constants unfolded. *)
Ltac u64_unfold := unfold is_u64, U8_MAX, U16_MAX, U32_MAX, U64_MAX in *.
Ltac u64_lia := u64_unfold; lia.

Create HintDb guest.
Create Rewrite HintDb guest.

Lemma wrap64_small x : is_u64 x -> wrap64 x = x.
Proof. unfold wrap64. intros ?; apply Z.mod_small; u64_lia. Qed.

Lemma wrap64_range x : is_u64 (wrap64 x).
Proof. unfold wrap64. pose proof (Z.mod_pos_bound x 18446744073709551616); u64_lia. Qed.

Lemma wrap32_range x : 0 <= wrap32 x <= U32_MAX.
Proof. unfold wrap32. pose proof (Z.mod_pos_bound x 4294967296); u64_lia. Qed.

Lemma wrap16_range x : 0 <= wrap16 x <= U16_MAX.
Proof. unfold wrap16. pose proof (Z.mod_pos_bound x 65536); u64_lia. Qed.

Lemma wrap8_range x : 0 <= wrap8 x <= U8_MAX.
Proof. unfold wrap8. pose proof (Z.mod_pos_bound x 256); u64_lia. Qed.

Lemma wrap32_small x : 0 <= x <= U32_MAX -> wrap32 x = x.
Proof. unfold wrap32. intros ?; apply Z.mod_small; u64_lia. Qed.

Lemma wrap16_small x : 0 <= x <= U16_MAX -> wrap16 x = x.
Proof. unfold wrap16. intros ?; apply Z.mod_small; u64_lia. Qed.

Lemma wrap64_sub_borrow a b :
  is_u64 a -> is_u64 b -> a < b -> a -64 b = a - b + 18446744073709551616.
Proof.
  intros Ha Hb Hlt. unfold wrap64.
  rewrite <- (Z.mod_add _ 1) by lia. rewrite Z.mul_1_l.
  apply Z.mod_small. u64_lia.
Qed.

Lemma s16_small x : -32768 <= x <= 32767 -> s16 x = x.
Proof. intros ?. unfold s16. rewrite Z.mod_small; lia. Qed.
Lemma s32_small x : -2147483648 <= x <= 2147483647 -> s32 x = x.
Proof. intros ?. unfold s32. rewrite Z.mod_small; lia. Qed.

(** The result of signed arithmetic on an [int]; overflow is undefined. *)
Definition int_result (x : Z) : option Z := if s32 x =? x then Some x else None.
Lemma int_result_Some x y : int_result x = Some y -> y = x.
Proof. unfold int_result. by destruct (_ =? _); intros [= <-]. Qed.
Lemma int_result_small x : -2147483648 <= x <= 2147483647 -> int_result x = Some x.
Proof. intros Hx. unfold int_result. by rewrite s32_small, Z.eqb_refl. Qed.
Lemma int_result_big x : 2147483647 < x -> int_result x = None.
Proof.
  intros Hx. unfold int_result, s32. destruct (Z.eqb_spec ((x + 2147483648) mod 4294967296 - 2147483648) x); [|done].
  pose proof (Z.mod_pos_bound (x + 2147483648) 4294967296 ltac:(done)). lia.
Qed.
Lemma s64_small x : -9223372036854775808 <= x <= 9223372036854775807 -> s64 x = x.
Proof. intros ?. unfold s64. rewrite Z.mod_small; lia. Qed.

#[export] Hint Resolve wrap64_range wrap32_range wrap16_range wrap8_range : guest.

(** Removes every wrap-around whose operand is provably in range. *)
Ltac unwrap :=
  repeat match goal with
  | |- context [wrap64 ?x] => rewrite (wrap64_small x) by u64_lia
  | |- context [wrap32 ?x] => rewrite (wrap32_small x) by u64_lia
  | |- context [wrap16 ?x] => rewrite (wrap16_small x) by u64_lia
  end.
Ltac unwrap_all :=
  unwrap;
  repeat match goal with
  | H : context [wrap64 ?x] |- _ => rewrite (wrap64_small x) in H by u64_lia
  | H : context [wrap32 ?x] |- _ => rewrite (wrap32_small x) in H by u64_lia
  | H : context [wrap16 ?x] |- _ => rewrite (wrap16_small x) in H by u64_lia
  end.

(** * Bytes and little-endian reads *)

Definition u8 (b : byte) : Z := Z.of_N (Byte.to_N b).

(** [static_cast<std::uint8_t>(x)] *)
Definition to_u8 (x : Z) : byte :=
  default Byte.x00 (Byte.of_N (Z.to_N (wrap8 x))).

Lemma u8_range b : 0 <= u8 b <= U8_MAX.
Proof. destruct b; vm_compute; split; discriminate. Qed.
#[export] Hint Resolve u8_range : guest.

Lemma u8_to_u8 x : u8 (to_u8 x) = wrap8 x.
Proof.
  unfold to_u8, u8. pose proof (wrap8_range x) as Hr.
  destruct (Byte.of_N (Z.to_N (wrap8 x))) eqn:E; simpl.
  - apply Byte.to_of_N in E. rewrite E. u64_lia.
  - apply Byte.of_N_None_iff in E. u64_lia.
Qed.

Lemma u8_inj a b : u8 a = u8 b -> a = b.
Proof.
  unfold u8. intros H%N2Z.inj.
  pose proof (Byte.of_to_N a) as Ha. rewrite H, Byte.of_to_N in Ha. congruence.
Qed.

Lemma to_u8_u8 b : to_u8 (u8 b) = b.
Proof.
  apply u8_inj. rewrite u8_to_u8. unfold wrap8. apply Z.mod_small.
  pose proof (u8_range b); u64_lia.
Qed.
#[export] Hint Rewrite u8_to_u8 to_u8_u8 : guest.

#[export] Instance byte_eq_dec : EqDecision byte := Byte.byte_eq_dec.
#[export, refine] Instance byte_countable : Countable byte :=
  inj_countable Byte.to_N Byte.of_N _.
Proof. intros b. apply Byte.of_to_N. Defined.

(** The size of a container, as the program's 64-bit [size()]. *)
Definition zlen {A} (l : list A) : Z := Z.of_nat (length l).

Lemma zlen_nonneg {A} (l : list A) : 0 <= zlen l.
Proof. unfold zlen; lia. Qed.
#[export] Hint Resolve zlen_nonneg : guest.

Lemma zlen_app {A} (l k : list A) : zlen (l ++ k) = zlen l + zlen k.
Proof. unfold zlen. rewrite length_app. lia. Qed.
Lemma zlen_take {A} (l : list A) n : zlen (take n l) = Z.min (Z.of_nat n) (zlen l).
Proof. unfold zlen. rewrite length_take. lia. Qed.
Lemma zlen_drop {A} (l : list A) n : zlen (drop n l) = Z.max 0 (zlen l - Z.of_nat n).
Proof. unfold zlen. rewrite length_drop. lia. Qed.
#[export] Hint Rewrite @zlen_app @zlen_take @zlen_drop : guest.

(** [l[i]] of a span or a vector. [None] is an access out of range, which C++
    leaves undefined. *)
Definition at_index {A} (l : list A) (i : Z) : option A :=
  if decide (0 <= i) then l !! Z.to_nat i else None.
Notation "l .[ i ]" := (at_index l i) (at level 1, left associativity, format "l .[ i ]")
  : guest_scope.

Lemma at_index_Some {A} (l : list A) i : 0 <= i < zlen l -> exists x, l.[i] = Some x.
Proof.
  intros H. unfold at_index. rewrite decide_True by lia.
  apply lookup_lt_is_Some. unfold zlen in H. lia.
Qed.

Lemma at_index_range {A} (l : list A) i x : l.[i] = Some x -> 0 <= i < zlen l.
Proof.
  unfold at_index, zlen. case_decide; [|done].
  intros ?%lookup_lt_Some. lia.
Qed.

Lemma at_index_elem {A} (l : list A) i x : l.[i] = Some x -> x ∈ l.
Proof. unfold at_index. case_decide; [|done]. apply list_elem_of_lookup_2. Qed.

Lemma at_index_nat {A} (l : list A) n : l.[Z.of_nat n] = l !! n.
Proof. unfold at_index. rewrite decide_True by lia. by rewrite Nat2Z.id. Qed.

(** The program's [read(offset, count)] lambdas:
    [value |= uint64_t(bytes[offset + i]) << (8 * i)] for [i] below [count]. *)
Fixpoint read_from (bytes : list byte) (offset i : Z) (count : nat) (value : Z) : option Z :=
  match count with
  | O => Some value
  | S n =>
      b ← bytes.[offset +64 i];
      read_from bytes offset (i + 1) n (Z.lor value (Z.shiftl (u8 b) (8 * i)))
  end.
Definition read (bytes : list byte) (offset : Z) (count : nat) : option Z :=
  read_from bytes offset 0 count 0.

(** Reference value of a little-endian byte string. *)
Fixpoint le_value (l : list byte) : Z :=
  match l with
  | [] => 0
  | b :: r => u8 b + 256 * le_value r
  end.

Lemma le_value_bound l : 0 <= le_value l < 2 ^ (8 * zlen l).
Proof.
  induction l as [|b r IH]; [vm_compute; split; congruence|].
  unfold zlen in *. cbn [le_value length].
  replace (8 * Z.of_nat (S (length r))) with (8 + 8 * Z.of_nat (length r)) by lia.
  rewrite Z.pow_add_r by lia. change (2 ^ 8) with 256.
  pose proof (u8_range b). u64_lia.
Qed.

Lemma land_shiftl_low a b k : 0 <= k -> 0 <= a < 2 ^ k -> Z.land a (Z.shiftl b k) = 0.
Proof.
  intros Hk Ha. destruct (decide (a = 0)) as [->|]; [done|].
  apply Z.bits_inj'; intros i Hi.
  rewrite Z.land_spec, Z.bits_0, Z.shiftl_spec by lia.
  destruct (Z_lt_le_dec i k) as [Hlt|Hge].
  - rewrite (Z.testbit_neg_r b) by lia. apply andb_false_r.
  - rewrite (Z.bits_above_log2 a i); [done|lia|].
    apply Z.lt_le_trans with k; [|lia]. apply Z.log2_lt_pow2; lia.
Qed.

Lemma lor_shiftl_add a b k : 0 <= k -> 0 <= a < 2 ^ k -> Z.lor a (Z.shiftl b k) = a + b * 2 ^ k.
Proof.
  intros Hk Ha. pose proof (land_shiftl_low a b k Hk Ha) as Hl.
  rewrite <- Z.lxor_lor, <- Z.add_nocarry_lxor by done.
  by rewrite Z.shiftl_mul_pow2.
Qed.

Lemma read_from_value bytes offset n i value :
  0 <= offset -> 0 <= i -> offset + i + Z.of_nat n <= zlen bytes -> zlen bytes <= U64_MAX ->
  0 <= value < 2 ^ (8 * i) ->
  read_from bytes offset i n value =
  Some (value + 2 ^ (8 * i) * le_value (take n (drop (Z.to_nat (offset + i)) bytes))).
Proof.
  revert i value. induction n as [|n IH]; intros i value Ho Hi Hb Hl Hv; cbn [read_from].
  - rewrite take_0. cbn [le_value]. f_equal. lia.
  - rewrite wrap64_small by u64_lia.
    destruct (at_index_Some bytes (offset + i)) as [b Hbt]; [lia|].
    rewrite Hbt. cbn.
    unfold at_index in Hbt. rewrite decide_True in Hbt by lia.
    rewrite (drop_S _ _ _ Hbt). cbn [take firstn le_value].
    pose proof (u8_range b) as Hr.
    assert (2 ^ (8 * (i + 1)) = 2 ^ (8 * i) * 256) as Hp.
    { replace (8 * (i + 1)) with (8 * i + 8) by lia. rewrite Z.pow_add_r by lia. done. }
    rewrite lor_shiftl_add by lia.
    rewrite IH; [|try lia..].
    + replace (Z.to_nat (offset + (i + 1))) with (S (Z.to_nat (offset + i))) by lia.
      rewrite Hp. f_equal. ring.
    + rewrite Hp. revert Hv Hr. generalize (2 ^ (8 * i)). unfold U8_MAX. intros; nia.
Qed.

(** [read] is the little-endian value of the slice it covers. *)
Lemma read_value bytes offset n :
  0 <= offset -> offset + Z.of_nat n <= zlen bytes -> zlen bytes <= U64_MAX ->
  read bytes offset n = Some (le_value (take n (drop (Z.to_nat offset) bytes))).
Proof.
  intros ???. unfold read. rewrite read_from_value; try (simpl; lia).
  rewrite Z.add_0_r. f_equal. lia.
Qed.

Lemma read_Some bytes offset n :
  0 <= offset -> offset + Z.of_nat n <= zlen bytes -> zlen bytes <= U64_MAX ->
  exists v, read bytes offset n = Some v /\ 0 <= v < 2 ^ (8 * Z.of_nat n).
Proof.
  intros ???. eexists. split; [by apply read_value|].
  pose proof (le_value_bound (take n (drop (Z.to_nat offset) bytes))) as Hb.
  revert Hb. unfold zlen in *. rewrite length_take, length_drop.
  replace (n `min` (length bytes - Z.to_nat offset))%nat with n by lia. done.
Qed.

(** * Record update

    [r <| field := v |>] and [r <| field ::= f |>]. A record becomes updatable by
    giving its eta expansion as an instance of [Eta]. *)
Class Eta (R : Type) := eta_of : R -> R.
Class Upd {R T : Type} (proj : R -> T) := upd : (T -> T) -> R -> R.
Arguments upd {R T} proj {_} f r.

Ltac derive_upd R proj :=
  let inst := constr:(_ : Eta R) in
  let body := eval hnf in inst in
  exact (fun f r =>
    ltac:(let e := eval cbv beta in (body r) in
          lazymatch e with
          | context C [proj r] => let e' := context C [f (proj r)] in exact e'
          end)).
#[global] Hint Extern 1 (@Upd ?R ?T ?proj) => derive_upd R proj : typeclass_instances.

Notation "r <| proj := v |>" := (upd proj (fun _ => v) r)
  (at level 1, left associativity, proj at level 9, format "r <| proj  :=  v |>") : guest_scope.
Notation "r <| proj ::= f |>" := (upd proj f r)
  (at level 1, left associativity, proj at level 9, format "r <| proj  ::=  f |>") : guest_scope.

(** * Checked computations

    The parsers fill a result object field by field and leave early with
    [return fail("...")]. [M S A] is such a computation over the object [S]: [Done]
    is normal completion, [Fail e] an early return whose [error] field will be [e],
    and [Ub] an access out of the range of a span or a vector, which the program
    must never make. *)
Inductive outcome (A : Type) : Type :=
| Done (a : A)
| Fail (e : string)
| Ub.
Arguments Done {A} a.
Arguments Fail {A} e.
Arguments Ub {A}.

Definition M (S A : Type) : Type := S -> S * outcome A.

Section Monad.
Context {S : Type}.

Definition ret {A} (a : A) : M S A := fun s => (s, Done a).
Definition bind {A B} (m : M S A) (k : A -> M S B) : M S B := fun s =>
  match m s with
  | (s', Done a) => k a s'
  | (s', Fail e) => (s', Fail e)
  | (s', Ub) => (s', Ub)
  end.
(** [return fail(e)] *)
Definition fail {A} (e : string) : M S A := fun s => (s, Fail e).
(** [if (c) return fail(e);] *)
Definition fail_if (c : bool) (e : string) : M S unit := fun s =>
  if c then (s, Fail e) else (s, Done tt).
Definition gets {A} (f : S -> A) : M S A := fun s => (s, Done (f s)).
Definition modify (f : S -> S) : M S unit := fun s => (f s, Done tt).
(** An access that is out of range when [o] is [None]. *)
Definition need {A} (o : option A) : M S A := fun s =>
  match o with Some a => (s, Done a) | None => (s, Ub) end.
(** [if (c) { body }] *)
Definition when (c : bool) (body : M S unit) : M S unit := if c then body else ret tt.

(** [for (x : l) locals = body(locals, x);] *)
Fixpoint foldM {A L} (body : L -> A -> M S L) (locals : L) (l : list A) : M S L :=
  match l with
  | [] => ret locals
  | x :: r => bind (body locals x) (fun locals' => foldM body locals' r)
  end.
Definition forM {A} (l : list A) (body : A -> M S unit) : M S unit :=
  foldM (fun _ x => body x) tt l.

(** The object the caller sees: the fields filled so far and the error, or
    [None] after an access out of range. *)
Definition finish (set_error : string -> S -> S) (m : M S unit) (s : S) : option S :=
  match m s with
  | (s', Done _) => Some s'
  | (s', Fail e) => Some (set_error e s')
  | (_, Ub) => None
  end.
End Monad.

Declare Scope checked_scope.
Notation "x <- m ;; k" := (bind m (fun x => k))
  (at level 60, m at next level, right associativity) : checked_scope.
Notation "m ;;; k" := (bind m (fun _ => k)) (at level 60, right associativity) : checked_scope.
#[global] Open Scope checked_scope.

(** ** Program logic

    [wp m Q E s]: run from [s], [m] makes no access out of range, a normal
    completion satisfies [Q] and an early return satisfies [E]. *)
Definition wp {S A} (m : M S A) (Q : A -> S -> Prop) (E : string -> S -> Prop) (s : S) : Prop :=
  match m s with
  | (s', Done a) => Q a s'
  | (s', Fail e) => E e s'
  | (_, Ub) => False
  end.

Section Wp.
Context {S : Type}.
Implicit Types (E : string -> S -> Prop) (s : S).

Lemma wp_conseq {A} (m : M S A) (Q Q' : A -> S -> Prop) E E' s :
  wp m Q E s -> (forall a t, Q a t -> Q' a t) -> (forall e t, E e t -> E' e t) ->
  wp m Q' E' s.
Proof. unfold wp. destruct (m s) as [t [a|e|]]; auto. Qed.

Lemma wp_ret {A} (a : A) (Q : A -> S -> Prop) E s : Q a s -> wp (ret a) Q E s.
Proof. done. Qed.

Lemma wp_bind {A B} (m : M S A) (k : A -> M S B) (Q : B -> S -> Prop) E s :
  wp m (fun a t => wp (k a) Q E t) E s -> wp (bind m k) Q E s.
Proof. unfold wp, bind. destruct (m s) as [t [a|e|]]; auto. Qed.

Lemma wp_fail {A} e (Q : A -> S -> Prop) E s : E e s -> wp (fail e) Q E s.
Proof. done. Qed.

Lemma wp_fail_if c e (Q : unit -> S -> Prop) E s :
  (c = true -> E e s) -> (c = false -> Q tt s) -> wp (fail_if c e) Q E s.
Proof. unfold wp, fail_if. destruct c; auto. Qed.

Lemma wp_gets {A} (f : S -> A) (Q : A -> S -> Prop) E s : Q (f s) s -> wp (gets f) Q E s.
Proof. done. Qed.

Lemma wp_modify f (Q : unit -> S -> Prop) E s : Q tt (f s) -> wp (modify f) Q E s.
Proof. done. Qed.

Lemma wp_need {A} (o : option A) (Q : A -> S -> Prop) E s a :
  o = Some a -> Q a s -> wp (need o) Q E s.
Proof. intros ->. done. Qed.

Lemma wp_when c body (Q : unit -> S -> Prop) E s :
  (c = true -> wp body Q E s) -> (c = false -> Q tt s) -> wp (when c body) Q E s.
Proof. destruct c; simpl; intros ??; [auto|]. apply wp_ret. auto. Qed.

(** Loop rule: the invariant [Inv done locals s] speaks of the items done. *)
Lemma wp_foldM {A L} (Inv : list A -> L -> S -> Prop) (body : L -> A -> M S L) l0 l
    (Q : L -> S -> Prop) E s :
  Inv [] l0 s ->
  (forall pre x post locals t, l = pre ++ x :: post -> Inv pre locals t ->
     wp (body locals x) (Inv (pre ++ [x])) E t) ->
  (forall locals t, Inv l locals t -> Q locals t) ->
  wp (foldM body l0 l) Q E s.
Proof.
  intros H0 Hstep Hend.
  enough (forall post pre locals t, l = pre ++ post -> Inv pre locals t ->
            wp (foldM body locals post) Q E t) as Hgen by (apply (Hgen l []); auto).
  induction post as [|x post IH]; intros pre locals t Heq Hinv; simpl.
  - apply wp_ret, Hend. rewrite Heq, app_nil_r. done.
  - apply wp_bind. eapply wp_conseq; [by eapply Hstep| |done].
    intros locals' t' Hinv'. simpl. apply (IH (pre ++ [x])); [|done].
    by rewrite <- app_assoc.
Qed.

Lemma wp_forM {A} (Inv : list A -> S -> Prop) (body : A -> M S unit) l
    (Q : unit -> S -> Prop) E s :
  Inv [] s ->
  (forall pre x post t, l = pre ++ x :: post -> Inv pre t ->
     wp (body x) (fun _ => Inv (pre ++ [x])) E t) ->
  (forall t, Inv l t -> Q tt t) ->
  wp (forM l body) Q E s.
Proof.
  intros H0 Hstep Hend. unfold forM.
  apply wp_foldM with (Inv := fun pre _ t => Inv pre t); [done| |].
  - intros; by eapply Hstep.
  - intros [] t; auto.
Qed.

(** What the caller gets from a verified body. *)
Lemma finish_wp (set_error : string -> S -> S) (m : M S unit) s (R : S -> Prop) :
  wp m (fun _ t => R t) (fun e t => R (set_error e t)) s ->
  exists r, finish set_error m s = Some r /\ R r.
Proof.
  unfold wp, finish. destruct (m s) as [t [a|e|]]; [eauto|eauto|done].
Qed.
End Wp.

(** Accesses in range. *)
Lemma wp_at_index {S A} (l : list A) i (Q : A -> S -> Prop) E s :
  0 <= i < zlen l -> (forall x, l.[i] = Some x -> Q x s) -> wp (need (l.[i])) Q E s.
Proof. intros Hi HQ. destruct (at_index_Some l i Hi) as [x Hx]. eapply wp_need; eauto. Qed.

Lemma wp_read {S} bytes off n (Q : Z -> S -> Prop) E s :
  0 <= off -> off + Z.of_nat n <= zlen bytes -> zlen bytes <= U64_MAX ->
  (forall v, read bytes off n = Some v -> 0 <= v < 2 ^ (8 * Z.of_nat n) -> Q v s) ->
  wp (need (read bytes off n)) Q E s.
Proof.
  intros H0 Hb Hl HQ. destruct (read_Some bytes off n H0 Hb Hl) as (v & Hv & Hr).
  eapply wp_need; eauto.
Qed.

Lemma read_from_range bytes off n : forall i value v,
  0 <= i -> 0 <= value < 2 ^ (8 * i) -> read_from bytes off i n value = Some v ->
  0 <= v < 2 ^ (8 * (i + Z.of_nat n)).
Proof.
  induction n as [|n IH]; intros i value v Hi Hv; cbn [read_from].
  - intros [= <-]. by rewrite Z.add_0_r.
  - destruct (bytes.[off +64 i]) as [b|]; [|done]. cbn.
    intros Hr. apply IH in Hr; [|lia|].
    + replace (i + Z.of_nat (S n)) with (i + 1 + Z.of_nat n) by lia. done.
    + pose proof (u8_range b). rewrite lor_shiftl_add by lia.
      replace (8 * (i + 1)) with (8 * i + 8) by lia. rewrite Z.pow_add_r by lia.
      revert Hv. generalize (2 ^ (8 * i)). unfold U8_MAX in *. intros; nia.
Qed.

(** Total views of the reads, for specifications. *)
Definition rd (bytes : list byte) (off : Z) (n : nat) : Z := default 0 (read bytes off n).
Definition byte_at (bytes : list byte) (i : Z) : Z := default 0 (u8 <$> bytes.[i]).

Lemma rd_read bytes off n v : read bytes off n = Some v -> rd bytes off n = v.
Proof. unfold rd. by intros ->. Qed.
Lemma rd_range bytes off n : 0 <= rd bytes off n < 2 ^ (8 * Z.of_nat n).
Proof.
  unfold rd. destruct (read bytes off n) eqn:E; simpl.
  - unfold read in E. apply read_from_range in E; [by rewrite Z.add_0_l in E|lia|simpl; lia].
  - split; [done|]. apply Z.pow_pos_nonneg; lia.
Qed.
Lemma rd_nonneg bytes off n : 0 <= rd bytes off n.
Proof. apply rd_range. Qed.
Lemma byte_at_Some bytes i b : bytes.[i] = Some b -> u8 b = byte_at bytes i.
Proof. unfold byte_at. by intros ->. Qed.
Lemma byte_at_range bytes i : 0 <= byte_at bytes i <= U8_MAX.
Proof.
  unfold byte_at. destruct (bytes.[i]); simpl; [apply u8_range|u64_lia].
Qed.

#[global] Arguments read : simpl never.
#[global] Arguments rd : simpl never.
#[global] Arguments byte_at : simpl never.
#[global] Arguments at_index : simpl never.
#[global] Arguments zlen : simpl never.
#[global] Arguments u8 : simpl never.
#[global] Arguments wrap64 : simpl never.
#[global] Arguments wrap32 : simpl never.
#[global] Arguments wrap16 : simpl never.
#[global] Arguments wrap8 : simpl never.

#[global] Arguments wp : simpl never.
#[global] Arguments ret : simpl never.
#[global] Arguments bind : simpl never.
#[global] Arguments fail : simpl never.
#[global] Arguments fail_if : simpl never.
#[global] Arguments gets : simpl never.
#[global] Arguments modify : simpl never.
#[global] Arguments need : simpl never.
#[global] Arguments when : simpl never.
#[global] Arguments foldM : simpl never.
#[global] Arguments forM : simpl never.
#[global] Arguments finish : simpl never.

(** Names the values read by their total views. *)
Ltac name_reads :=
  repeat match goal with
  | H : read _ _ _ = Some ?v |- _ => apply rd_read in H; try subst v
  | H : at_index _ _ = Some ?b |- _ =>
      apply byte_at_Some in H; rewrite ?H in *; clear H; try clear b
  end.

(** One step of symbolic execution; [wp_go] runs until a loop, an access
    whose bounds need more than arithmetic, or the postcondition. *)
Ltac wp_step :=
  lazymatch goal with
  | |- wp (bind _ _) _ _ _ => apply wp_bind
  | |- wp (ret _) _ _ _ => apply wp_ret
  | |- wp (fail _) _ _ _ => apply wp_fail
  | |- wp (fail_if _ _) _ _ _ => apply wp_fail_if; intros ?
  | |- wp (gets _) _ _ _ => apply wp_gets; cbn
  | |- wp (modify _) _ _ _ => apply wp_modify; cbn
  | |- wp (when _ _) _ _ _ => apply wp_when; intros ?
  | |- wp (if ?c then _ else _) _ _ _ => destruct c eqn:?
  end.

(** An access whose bounds follow from the context by arithmetic. *)
Ltac wp_access :=
  unwrap;
  lazymatch goal with
  | |- wp (need (at_index _ _)) _ _ _ =>
      apply wp_at_index; [u64_lia|intros ? ?]
  | |- wp (need (read _ _ _)) _ _ _ =>
      apply wp_read; [u64_lia|u64_lia|u64_lia|intros ? ? ?]
  end; cbn beta.

Ltac wp_go := repeat ((wp_step || wp_access); cbn beta iota).

(** Turns boolean tests of the code into propositions. *)
Ltac reflect_bools :=
  repeat match goal with
  | H : (_ || _)%bool = false |- _ => apply orb_false_elim in H; destruct H
  | H : (_ && _)%bool = true |- _ => apply andb_prop in H; destruct H
  | H : negb _ = false |- _ => apply negb_false_iff in H
  | H : negb _ = true |- _ => apply negb_true_iff in H
  | H : (_ =? _) = true |- _ => apply Z.eqb_eq in H
  | H : (_ =? _) = false |- _ => apply Z.eqb_neq in H
  | H : (_ <? _) = true |- _ => apply Z.ltb_lt in H
  | H : (_ <? _) = false |- _ => apply Z.ltb_ge in H
  | H : (_ <=? _) = true |- _ => apply Z.leb_le in H
  | H : (_ <=? _) = false |- _ => apply Z.leb_gt in H
  end.

(** The indices [0 .. n-1] of a counted loop. *)
Definition indices (n : Z) : list Z := Z.of_nat <$> seq 0 (Z.to_nat n).

Lemma elem_of_indices n i : i ∈ indices n <-> 0 <= i < n.
Proof.
  unfold indices. rewrite list_elem_of_fmap. setoid_rewrite elem_of_seq. split.
  - intros (k & -> & ?). lia.
  - intros ?. exists (Z.to_nat i). lia.
Qed.

Lemma indices_split n pre x post :
  indices n = pre ++ x :: post -> x = zlen pre /\ 0 <= x < n /\ pre = indices x.
Proof.
  intros H. unfold indices in H.
  apply fmap_app_inv in H as (l1 & l2 & Hp & H2 & Hs).
  symmetry in H2. apply fmap_cons_inv in H2 as (k & l3 & Hx & Hpost & Hl2). subst.
  assert (Hk : seq 0 (Z.to_nat n) !! length l1 = Some k) by (rewrite Hs; by apply list_lookup_middle).
  apply lookup_seq in Hk as [Hk Hlt]. simpl in Hk. subst k.
  unfold zlen. rewrite length_fmap. split; [done|]. split; [lia|].
  unfold indices. f_equal. rewrite Nat2Z.id.
  apply (f_equal (take (length l1))) in Hs.
  rewrite take_app_length, take_seq in Hs. rewrite <- Hs at 1. f_equal. lia.
Qed.
#[global] Arguments indices : simpl never.

(** * Slices of spans and vectors *)

(** [l.subspan(off, n)], or the source of a [std::copy_n]. *)
Definition slice {A} (l : list A) (off n : Z) : option (list A) :=
  if decide (0 <= off /\ 0 <= n /\ off + n <= zlen l)
  then Some (take (Z.to_nat n) (drop (Z.to_nat off) l)) else None.

(** [std::copy(src.begin(), src.end(), dst.begin() + off)] *)
Definition splice {A} (dst : list A) (off : Z) (src : list A) : option (list A) :=
  if decide (0 <= off /\ off + zlen src <= zlen dst)
  then Some (take (Z.to_nat off) dst ++ src ++ drop (Z.to_nat (off + zlen src)) dst) else None.

Lemma slice_Some {A} (l : list A) off n :
  0 <= off -> 0 <= n -> off + n <= zlen l ->
  exists k, slice l off n = Some k /\ zlen k = n /\
    (forall i, 0 <= i < n -> k.[i] = l.[off + i]).
Proof.
  intros ???. unfold slice. rewrite decide_True by lia. eexists. split; [done|]. split.
  - unfold zlen in *. rewrite length_take, length_drop. lia.
  - intros i Hi. unfold at_index. rewrite !decide_True by lia.
    rewrite lookup_take_lt, lookup_drop by lia. f_equal. lia.
Qed.

Lemma splice_Some {A} (dst : list A) off src :
  0 <= off -> off + zlen src <= zlen dst ->
  exists k, splice dst off src = Some k /\ zlen k = zlen dst /\
    (forall i, 0 <= i -> k.[i] =
       if decide (off <= i < off + zlen src) then src.[i - off] else dst.[i]).
Proof.
  intros ??. unfold splice. rewrite decide_True by lia. eexists. split; [done|].
  unfold zlen in *. split.
  - rewrite !length_app, length_take, length_drop. lia.
  - intros i Hi. unfold at_index. rewrite (decide_True (P := 0 <= i)) by lia.
    case_decide as Hin.
    + rewrite decide_True by lia.
      rewrite lookup_app_r by (rewrite length_take; lia).
      rewrite lookup_app_l by (rewrite length_take; lia).
      rewrite length_take. f_equal. lia.
    + destruct (decide (i < off)).
      * rewrite lookup_app_l by (rewrite length_take; lia). rewrite lookup_take_lt by lia. by rewrite decide_True by lia.
      * rewrite !lookup_app_r by (rewrite ?length_take; lia).
        rewrite lookup_drop, length_take, (decide_True (P := 0 <= i)) by lia. f_equal. lia.
Qed.

Lemma wp_slice {S A} (l : list A) off n (Q : list A -> S -> Prop) E s :
  0 <= off -> 0 <= n -> off + n <= zlen l ->
  (forall k, slice l off n = Some k -> zlen k = n ->
     (forall i, 0 <= i < n -> k.[i] = l.[off + i]) -> Q k s) ->
  wp (need (slice l off n)) Q E s.
Proof.
  intros H1 H2 H3 HQ. destruct (slice_Some l off n H1 H2 H3) as (k & Hk & Hl & Hi).
  eapply wp_need; eauto.
Qed.

Lemma wp_splice {S A} (dst : list A) off src (Q : list A -> S -> Prop) E s :
  0 <= off -> off + zlen src <= zlen dst ->
  (forall k, splice dst off src = Some k -> zlen k = zlen dst ->
     (forall i, 0 <= i -> k.[i] =
        if decide (off <= i < off + zlen src) then src.[i - off] else dst.[i]) -> Q k s) ->
  wp (need (splice dst off src)) Q E s.
Proof.
  intros H1 H2 HQ. destruct (splice_Some dst off src H1 H2) as (k & Hk & Hl & Hi).
  eapply wp_need; eauto.
Qed.

(** [std::vector<T>(n, x)] *)
Definition filled {A} (n : Z) (x : A) : list A := replicate (Z.to_nat n) x.

Lemma zlen_filled {A} n (x : A) : 0 <= n -> zlen (filled n x) = n.
Proof. intros ?. unfold zlen, filled. rewrite length_replicate. lia. Qed.

Lemma filled_at {A} n (x : A) i : 0 <= i < n -> (filled n x).[i] = Some x.
Proof.
  intros ?. unfold at_index, filled. rewrite decide_True by lia.
  apply lookup_replicate_2. lia.
Qed.
#[global] Arguments slice : simpl never.
#[global] Arguments splice : simpl never.
#[global] Arguments filled : simpl never.

(** * Ordered pairs of a list *)

Lemma ForallOrdPairs_snoc {A} (R : A -> A -> Prop) l x :
  List.ForallOrdPairs R (l ++ [x]) <-> List.ForallOrdPairs R l /\ Forall (fun a => R a x) l.
Proof.
  induction l as [|a l IH]; simpl.
  - split; [intros _; split; constructor|intros _; repeat constructor].
  - split.
    + inversion 1 as [|? ? Ha Hl]; subst. apply IH in Hl as [Hl Hx].
      apply Forall_app in Ha as [Ha Hax]. split; constructor; auto.
      by inversion Hax.
    + intros [Hl Hx]. inversion Hl; inversion Hx; subst. constructor; [|by apply IH].
      apply Forall_app; auto.
Qed.


Lemma ForallOrdPairs_app_l {A} (R : A -> A -> Prop) l k :
  List.ForallOrdPairs R (l ++ k) -> List.ForallOrdPairs R l.
Proof.
  induction l as [|a l IH]; simpl; [constructor|].
  inversion 1 as [|? ? Ha Hl]; subst. apply Forall_app in Ha as [Ha _]. constructor; auto.
Qed.

Lemma ForallOrdPairs_mid {A} (R : A -> A -> Prop) l x k :
  List.ForallOrdPairs R (l ++ x :: k) -> Forall (fun a => R a x) l.
Proof.
  intros H. replace (l ++ x :: k) with ((l ++ [x]) ++ k) in H by (by rewrite <- app_assoc).
  apply ForallOrdPairs_app_l, ForallOrdPairs_snoc in H. apply H.
Qed.

Lemma ForallOrdPairs_mid_r {A} (R : A -> A -> Prop) l x k :
  List.ForallOrdPairs R (l ++ x :: k) -> Forall (R x) k.
Proof.
  induction l as [|a l IH]; simpl; inversion 1; subst; auto.
Qed.

(** A check of the result of a concrete run. *)
Lemma checked_result {A} (f : A -> bool) (o : option A) x :
  o = Some x -> match o with Some y => f y | None => false end = true -> f x = true.
Proof. by intros ->. Qed.

Lemma is_u64_dec x : (0 <=? x) && (x <=? U64_MAX) = true -> is_u64 x.
Proof. unfold is_u64. lia. Qed.

(** * Queues of threads

    A queue is a list of keys into a store of thread records. *)

(** Insert [x] where the walk past the elements that satisfy [past] stops. *)
Fixpoint insert_before {A} (past : A -> bool) (x : A) (l : list A) : list A :=
  match l with
  | [] => [x]
  | y :: r => if past y then y :: insert_before past x r else x :: y :: r
  end.

Lemma insert_before_perm {A} (past : A -> bool) x l : insert_before past x l ≡ₚ x :: l.
Proof.
  induction l as [|y r IH]; [done|]. cbn. destruct (past y); [|done]. rewrite IH. apply Permutation_swap.
Qed.

Lemma insert_before_sorted {A} (R : A -> A -> Prop) (past : A -> bool) x l :
  (forall a b c, R a b -> R b c -> R a c) ->
  (forall y, y ∈ l -> if past y then R y x else R x y) ->
  StronglySorted R l -> StronglySorted R (insert_before past x l).
Proof.
  intros HR Hp Hs. induction Hs as [|y r Hs IH Hy]; cbn; [by repeat constructor|].
  pose proof (Hp y ltac:(by left)) as Hyx. destruct (past y).
  - constructor; [by apply IH; intros; apply Hp; right|]. apply Forall_forall. intros b.
    rewrite insert_before_perm. intros [->|Hb]%elem_of_cons; [done|]. rewrite Forall_forall in Hy. by apply Hy.
  - constructor; [by constructor|]. constructor; [done|]. eapply Forall_impl; [exact Hy|]. intros b. by apply HR.
Qed.

Lemma filter_removed (l : list Z) x y : x ∈ List.filter (fun z => negb (z =? y)) l <-> x ∈ l /\ x <> y.
Proof. rewrite !list_elem_of_In, List.filter_In, negb_true_iff, Z.eqb_neq. done. Qed.

Lemma sorted_filter {A} (R : A -> A -> Prop) f l : StronglySorted R l -> StronglySorted R (List.filter f l).
Proof.
  induction 1 as [|x l Hs IH Hx]; cbn; [constructor|]. destruct (f x); [|done]. constructor; [done|].
  rewrite Forall_forall in *. intros y Hy. apply Hx. rewrite list_elem_of_In, List.filter_In, <- list_elem_of_In in Hy. tauto.
Qed.

Lemma filter_absent (l : list Z) y : y ∉ l -> List.filter (fun z => negb (z =? y)) l = l.
Proof.
  induction l as [|x l IH]; [done|]. intros [Hne Hl]%not_elem_of_cons. cbn.
  destruct (Z.eqb_spec x y); [congruence|]. cbn. by rewrite IH.
Qed.

Lemma sorted_weaken {A} (R R' : A -> A -> Prop) l :
  (forall a b, a ∈ l -> b ∈ l -> R a b -> R' a b) -> StronglySorted R l -> StronglySorted R' l.
Proof.
  intros HR Hs. induction Hs as [|x l Hs IH Hx]; [constructor|]. constructor.
  - apply IH. intros a b Ha Hb. apply HR; by right.
  - rewrite Forall_forall in *. intros y Hy. apply HR; [by left|by right|by apply Hx].
Qed.

Lemma sorted_sublist {A} (R : A -> A -> Prop) l k : k `sublist_of` l -> StronglySorted R l -> StronglySorted R k.
Proof.
  induction 1 as [|x k l Hs IH|x k l Hs IH]; intros H; [constructor| |]; apply StronglySorted_inv in H as [H Hx].
  - constructor; [by apply IH|]. rewrite Forall_forall in *. intros y Hy. apply Hx. by eapply elem_of_sublist.
  - by apply IH.
Qed.


(** Update the records of the listed keys. *)
Definition alter_each {A} (f : A -> A) (l : list Z) (m : gmap Z A) : gmap Z A :=
  fold_left (fun m k => alter f k m) l m.

Lemma alter_each_lookup {A} (f : A -> A) (l : list Z) (m : gmap Z A) k : NoDup l ->
  alter_each f l m !! k = if decide (k ∈ l) then f <$> m !! k else m !! k.
Proof.
  unfold alter_each. revert m. induction l as [|x l IH]; intros m Hn; cbn.
  { by rewrite decide_False by by apply not_elem_of_nil. }
  apply NoDup_cons in Hn as [Hx Hn]. rewrite IH by done. destruct (decide (k ∈ l)) as [Hin|Hin].
  - rewrite decide_True by by right. rewrite lookup_alter_ne; [done|]. by intros ->.
  - destruct (decide (k = x)) as [->|Hne].
    + rewrite decide_True by by left. by rewrite lookup_alter_eq.
    + rewrite decide_False; [by rewrite lookup_alter_ne|]. by intros [?|?]%elem_of_cons.
Qed.
