(* ===== verification/Fixtures.v ===== *)
(** The authored guest images of src/src/core/uwp/guest_*_fixture.h.

    Each fixture is the byte image the program builds to test its own loader; here
    they are the concrete inputs of the examples and witnesses of the components. *)
From Stdlib Require Import ZArith Lia.
From Stdlib Require Import Strings.Byte.
From stdpp Require Import base gmap list list_numbers strings.
From S2P Require Import Prelude.

(** [file[offset] = value] *)
Definition set_byte (offset value : Z) (file : list byte) : list byte :=
  <[Z.to_nat offset := to_u8 value]> file.

(** The fixtures' [put(offset, value, count)]:
    [file[offset + i] = uint8_t(value >> (8 * i))]. *)
Definition put (offset value : Z) (count : nat) (file : list byte) : list byte :=
  foldl (fun f i => set_byte (offset + i) (Z.shiftr value (8 * i)) f) file
    (indices (Z.of_nat count)).

(** [std::copy_n(src.begin() + from, n, dst.begin() + to)] between fixture images. *)
Definition copy_n (src : list byte) (from n : Z) (to : Z) (dst : list byte) : list byte :=
  default dst (k ← slice src from n; splice dst to k).

Definition text_bytes (s : string) : list byte := String.list_byte_of_string s.

Notation "f |>> g" := (g f) (at level 50, left associativity, only parsing).

Definition fixture_program_header (i : Z) (file : list byte) : list byte :=
  let offset := 64 + i * 56 in
  file |>> put offset 1 4
       |>> put (offset + 4) (if i =? 0 then 5 else 6) 4
       |>> put (offset + 8) (if i =? 0 then 0x100 else 0x200) 8
       |>> put (offset + 16) (if i =? 0 then 0x400100 else 0x404200) 8
       |>> put (offset + 32) 4 8
       |>> put (offset + 40) (if i =? 0 then 4 else 16) 8
       |>> put (offset + 48) 0x100 8.

Definition MakeGuestLoaderFixture : list byte :=
  filled 0x204 Byte.x00
    |>> put 0 0x464c457f 4
    |>> set_byte 4 2 |>> set_byte 5 1 |>> set_byte 6 1 |>> set_byte 7 9
    |>> put 16 0xfe10 2 |>> put 18 62 2 |>> put 20 1 4 |>> put 24 0x400100 8
    |>> put 32 64 8 |>> put 52 64 2 |>> put 54 56 2 |>> put 56 2 2
    |>> fixture_program_header 0 |>> fixture_program_header 1
    |>> set_byte 0x100 0x11 |>> set_byte 0x101 0x22 |>> set_byte 0x102 0x33 |>> set_byte 0x103 0x44
    |>> set_byte 0x200 0xaa |>> set_byte 0x201 0xbb |>> set_byte 0x202 0xcc |>> set_byte 0x203 0xdd.

(** A SELF container holding the loader fixture's two segments out of order. *)
Definition MakeGuestPayloadFixture : list byte :=
  let elf := MakeGuestLoaderFixture in
  let file := filled 0x194 Byte.x00 in
  file
    |>> put 0 0x1d3d154f 4
    |>> set_byte 5 1 |>> set_byte 6 1 |>> set_byte 8 1 |>> set_byte 9 1 |>> set_byte 7 0x12
    |>> put 12 0x120 2 |>> put 16 (zlen file) 4 |>> put 24 2 2
    |>> put 32 (Z.lor (Z.shiftl 1 20) 0x800) 8 |>> put 40 0x190 8 |>> put 48 4 8 |>> put 56 4 8
    |>> put 64 0x800 8 |>> put 72 0x180 8 |>> put 80 4 8 |>> put 88 4 8
    |>> copy_n elf 0 176 96
    |>> copy_n elf 0x100 4 0x180
    |>> copy_n elf 0x200 4 0x190.

Definition link_program_header (index type flags offset address size memory alignment : Z)
    (elf : list byte) : list byte :=
  let start := 64 + index * 56 in
  elf |>> put start type 4 |>> put (start + 4) flags 4 |>> put (start + 8) offset 8
      |>> put (start + 16) address 8 |>> put (start + 32) size 8
      |>> put (start + 40) memory 8 |>> put (start + 48) alignment 8.

Definition link_text (offset : Z) (value : string) (elf : list byte) : list byte :=
  let bytes := text_bytes value in copy_n bytes 0 (zlen bytes) (0x600 + offset) elf.

Definition link_fixture_tags : list (Z * Z) :=
  [(0x61000035, 0); (0x61000037, 64); (0x61000039, 0x80); (0x6100003f, 72);
   (0x6100003b, 24); (0x6100002f, 0x100); (0x61000031, 24); (0x61000033, 24);
   (0x61000029, 0x118); (0x6100002d, 24); (0x6100002b, 7); (1, 1);
   (0x6100000f, Z.lor 16 (Z.shiftl 1 48)); (0x61000015, 16)].

Definition link_fixture_elf : list byte :=
  let original := MakeGuestLoaderFixture in
  let elf := filled 0xa00 Byte.x00
    |>> copy_n original 0 64 0
    |>> put 56 5 2
    |>> link_program_header 0 1 5 0x400 0x400100 4 4 0x100
    |>> link_program_header 1 1 6 0x500 0x404200 4 16 0x100
    |>> link_program_header 2 0x61000000 4 0x600 0 0x400 0 16
    |>> link_program_header 3 2 6 0x800 0 240 240 8
    |>> link_program_header 4 7 4 0 0x404208 0 8 8
    |>> copy_n original 0x100 4 0x400
    |>> copy_n original 0x200 4 0x500
    |>> link_text 1 "libFixture.prx" |>> link_text 16 "libFixture"
    |>> link_text 32 "fixture#A#B" |>> link_text 48 "object#A#B"
    |>> put (0x680 + 24) 32 4 |>> set_byte (0x680 + 24 + 4) 0x12
    |>> put (0x680 + 48) 48 4 |>> set_byte (0x680 + 48 + 4) 0x21
    |>> put 0x700 0x404208 8 |>> put 0x708 8 8 |>> put 0x710 0x400100 8
    |>> put 0x718 0x404200 8 |>> put 0x720 (Z.lor (Z.shiftl 1 32) 7) 8 in
  foldl (fun elf '(i, (tag, value)) =>
           elf |>> put (0x800 + i * 16) tag 8 |>> put (0x808 + i * 16) value 8)
    elf (zip (indices (zlen link_fixture_tags)) link_fixture_tags).

Definition link_fixture_self_header (i : Z) (file : list byte) : list byte :=
  let index := if i =? 0 then 2 else i - 1 in
  let size := if index =? 2 then 0x400 else 4 in
  file |>> put (32 + i * 32) (Z.lor (Z.shiftl index 20) 0x800) 8
       |>> put (40 + i * 32) (0x1000 + index * 0x100) 8
       |>> put (48 + i * 32) size 8
       |>> put (56 + i * 32) size 8.

(** The link fixture as a raw ELF, or wrapped in a SELF container. *)
Definition MakeGuestLinkFixture (self : bool) : list byte :=
  let elf := link_fixture_elf in
  if negb self then elf else
  let file := filled 0x1600 Byte.x00 in
  file
    |>> put 0 0x1d3d154f 4
    |>> set_byte 5 1 |>> set_byte 6 1 |>> set_byte 8 1 |>> set_byte 9 1 |>> set_byte 7 0x12
    |>> put 12 0x200 2 |>> put 16 (zlen file) 4 |>> put 24 3 2
    |>> link_fixture_self_header 0 |>> link_fixture_self_header 1 |>> link_fixture_self_header 2
    |>> copy_n elf 0 344 128
    |>> copy_n elf 0x400 4 0x1000
    |>> copy_n elf 0x500 4 0x1100
    |>> copy_n elf 0x600 0x400 0x1200.
