(* ===== verification/Preflight.v ===== *)
(** Guest header preflight: [InspectGuestPrefix] of
    src/src/core/uwp/guest_preflight.h.

    The bounded, read-only inspection of an ELF or SELF header. [None] is an access
    outside [bytes]; an early return carries its [error] and the fields filled so
    far. Conditions joined by [||] in the code evaluate their reads in order here;
    [inspect_wp] shows that none of those reads can leave the span, so evaluating all
    of them is the code's short-circuit evaluation. *)
From Stdlib Require Import ZArith Lia.
From Stdlib Require Import Strings.Byte.
From stdpp Require Import base gmap list list_numbers strings.
From S2P Require Import Prelude.
From S2P Require Import Fixtures.

Definition GuestPrefixLimit : Z := 16384.

Record GuestPreflight := mkGuestPreflight {
  header_valid : bool;
  self_container : bool;
  orbis_identity : bool;
  encrypted_segments : bool;
  compressed_segments : bool;
  type : Z;
  program_headers : Z;
  entry : Z;
  elf_offset : Z;
  error : string
}.

#[export] Instance eta_GuestPreflight : Eta GuestPreflight := fun r =>
  mkGuestPreflight (header_valid r) (self_container r) (orbis_identity r)
    (encrypted_segments r) (compressed_segments r) (type r) (program_headers r)
    (entry r) (elf_offset r) (error r).

(** [GuestPreflight result;] *)
Definition preflight_init : GuestPreflight :=
  mkGuestPreflight false false false false false 0 0 0 0 "".

Definition preflight_error (e : string) (r : GuestPreflight) : GuestPreflight := r <| error := e |>.

(** One SELF segment header of the loop: [flags & 2] encrypted, [flags & 8] compressed. *)
Definition inspect_self_segment (bytes : list byte) (i : Z) : M GuestPreflight unit :=
  flags <- need (read bytes (32 +64 i *64 32) 8) ;;
  modify (fun r => r <| encrypted_segments ::= fun e => e || negb (Z.land flags 2 =? 0) |>
                     <| compressed_segments ::= fun c => c || negb (Z.land flags 8 =? 0) |>).

Definition inspect_self_header (bytes : list byte) : M GuestPreflight unit :=
  fail_if (zlen bytes <? 32) "truncated_self_header" ;;;
  b4 <- need (bytes.[4]) ;; b5 <- need (bytes.[5]) ;; b6 <- need (bytes.[6]) ;;
  b7 <- need (bytes.[7]) ;; b8 <- need (bytes.[8]) ;; b9 <- need (bytes.[9]) ;;
  fail_if (negb (u8 b4 =? 0) || negb (u8 b5 =? 1) || negb (u8 b6 =? 1) ||
           negb (u8 b7 =? 0x12) || negb (u8 b8 =? 1) || negb (u8 b9 =? 1))
    "unsupported_self_identity" ;;;
  segments <- need (read bytes 24 2) ;;
  modify (fun r => r <| elf_offset := 32 +64 segments *64 32 |>) ;;;
  off <- gets elf_offset ;;
  fail_if ((zlen bytes <? off) || (zlen bytes -64 off <? 64)) "self_elf_outside_prefix" ;;;
  forM (indices segments) (inspect_self_segment bytes).

Definition supported_elf_type (t : Z) : bool :=
  (t =? 2) || (t =? 3) || (t =? 0xfe00) || (t =? 0xfe10) || (t =? 0xfe18).

Definition inspect_elf_header (bytes : list byte) (file_size : Z) : M GuestPreflight unit :=
  offset <- gets elf_offset ;;
  fail_if (zlen bytes -64 offset <? 64) "truncated_elf_header" ;;;
  magic <- need (read bytes offset 4) ;;
  fail_if (negb (magic =? 0x464c457f)) "invalid_elf_magic" ;;;
  class <- need (bytes.[offset +64 4]) ;;
  data <- need (bytes.[offset +64 5]) ;;
  ident <- need (bytes.[offset +64 6]) ;;
  machine <- need (read bytes (offset +64 18) 2) ;;
  version <- need (read bytes (offset +64 20) 4) ;;
  fail_if (negb (u8 class =? 2) || negb (u8 data =? 1) || negb (u8 ident =? 1) ||
           negb (machine =? 62) || negb (version =? 1))
    "requires_elf64_little_endian_x86_64" ;;;
  header_size <- need (read bytes (offset +64 52) 2) ;;
  self <- gets self_container ;;
  fail_if ((header_size <? 64) || (file_size <? header_size) ||
           (negb self && negb (header_size =? 64)))
    "invalid_elf_header_size" ;;;
  ty <- need (read bytes (offset +64 16) 2) ;;
  modify (fun r => r <| type := wrap16 ty |>) ;;;
  t <- gets type ;;
  fail_if (negb (supported_elf_type t)) "unsupported_elf_type" ;;;
  ent <- need (read bytes (offset +64 24) 8) ;;
  modify (fun r => r <| entry := ent |>) ;;;
  phnum <- need (read bytes (offset +64 56) 2) ;;
  modify (fun r => r <| program_headers := wrap16 phnum |>) ;;;
  n <- gets program_headers ;;
  phentsize <- need (read bytes (offset +64 54) 2) ;;
  fail_if ((n =? 0) || (n =? 0xffff) || negb (phentsize =? 56))
    "unsupported_program_header_layout" ;;;
  phoff <- need (read bytes (offset +64 32) 8) ;;
  let available := file_size -64 offset in
  fail_if ((phoff <? 64) || (available <? phoff) || (available -64 phoff <? n *64 56))
    "program_header_table_outside_file" ;;;
  b7 <- need (bytes.[offset +64 7]) ;;
  b8 <- need (bytes.[offset +64 8]) ;;
  modify (fun r => r <| orbis_identity := (u8 b7 =? 9) && (u8 b8 =? 0) && (0xfe00 <=? type r) |>) ;;;
  modify (fun r => r <| header_valid := true |>).

Definition inspect (bytes : list byte) (file_size : Z) : M GuestPreflight unit :=
  fail_if ((GuestPrefixLimit <? zlen bytes) || (file_size <? zlen bytes) || (zlen bytes <? 4))
    "invalid_prefix_size" ;;;
  container <- need (read bytes 0 4) ;;
  modify (fun r => r <| self_container := container =? 0x1d3d154f |>) ;;;
  self <- gets self_container ;;
  when self (inspect_self_header bytes) ;;;
  inspect_elf_header bytes file_size.

Definition InspectGuestPrefix (bytes : list byte) (file_size : Z) : option GuestPreflight :=
  finish preflight_error (inspect bytes file_size) preflight_init.

(** * Specification: the accepted headers, in exact arithmetic *)

Definition is_self (bytes : list byte) : bool := rd bytes 0 4 =? 0x1d3d154f.
Definition elf_offset_of (bytes : list byte) : Z :=
  if is_self bytes then 32 + rd bytes 24 2 * 32 else 0.

Record self_header_ok (bytes : list byte) : Prop := {
  sh_size : 32 <= zlen bytes;
  sh_ident : byte_at bytes 4 = 0 /\ byte_at bytes 5 = 1 /\ byte_at bytes 6 = 1 /\
             byte_at bytes 7 = 0x12 /\ byte_at bytes 8 = 1 /\ byte_at bytes 9 = 1
}.

Record elf_header_ok (bytes : list byte) (file_size off : Z) : Prop := {
  eh_fits : off + 64 <= zlen bytes;
  eh_magic : rd bytes off 4 = 0x464c457f;
  eh_ident : byte_at bytes (off + 4) = 2 /\ byte_at bytes (off + 5) = 1 /\
             byte_at bytes (off + 6) = 1;
  eh_machine : rd bytes (off + 18) 2 = 62 /\ rd bytes (off + 20) 4 = 1;
  eh_size : 64 <= rd bytes (off + 52) 2 <= file_size;
  eh_size_elf : is_self bytes = false -> rd bytes (off + 52) 2 = 64;
  eh_type : supported_elf_type (rd bytes (off + 16) 2) = true;
  eh_phnum : 1 <= rd bytes (off + 56) 2 < 0xffff;
  eh_phentsize : rd bytes (off + 54) 2 = 56;
  eh_phoff : 64 <= rd bytes (off + 32) 8;
  eh_table : off + rd bytes (off + 32) 8 + rd bytes (off + 56) 2 * 56 <= file_size
}.

Record header_ok (bytes : list byte) (file_size : Z) : Prop := {
  ho_prefix : 4 <= zlen bytes <= GuestPrefixLimit /\ zlen bytes <= file_size;
  ho_self : is_self bytes = true -> self_header_ok bytes;
  ho_elf : elf_header_ok bytes file_size (elf_offset_of bytes)
}.

(** The fields an accepted header is reported with. *)
Definition self_segment_flag (bytes : list byte) (mask : Z) : bool :=
  is_self bytes &&
  existsb (fun i => negb (Z.land (rd bytes (32 + i * 32) 8) mask =? 0)) (indices (rd bytes 24 2)).

Definition accepted_header (bytes : list byte) : GuestPreflight :=
  let off := elf_offset_of bytes in
  {| header_valid := true;
     self_container := is_self bytes;
     orbis_identity := (byte_at bytes (off + 7) =? 9) && (byte_at bytes (off + 8) =? 0) &&
                       (0xfe00 <=? rd bytes (off + 16) 2);
     encrypted_segments := self_segment_flag bytes 2;
     compressed_segments := self_segment_flag bytes 8;
     type := rd bytes (off + 16) 2;
     program_headers := rd bytes (off + 56) 2;
     entry := rd bytes (off + 24) 8;
     elf_offset := off;
     error := "" |}.

(** * Correctness *)

Lemma elf_offset_of_nonneg bytes : 0 <= elf_offset_of bytes.
Proof. unfold elf_offset_of. pose proof (rd_nonneg bytes 24 2). case_match; lia. Qed.

Section Inspect.
Context (bytes : list byte) (file_size : Z).
Hypothesis Hsize : is_u64 file_size.

(** What an early return establishes. *)
Definition rejected (e : string) (r : GuestPreflight) : Prop :=
  ~ header_ok bytes file_size /\ header_valid r = false /\ e <> "".

Lemma reject e r :
  header_valid r = false -> e <> "" -> (header_ok bytes file_size -> False) -> rejected e r.
Proof. unfold rejected; auto. Qed.

Definition segment_flag (mask i : Z) : bool :=
  negb (Z.land (rd bytes (32 + i * 32) 8) mask =? 0).

Definition self_result (segments : list Z) : GuestPreflight :=
  preflight_init <| self_container := true |> <| elf_offset := elf_offset_of bytes |>
    <| encrypted_segments := existsb (segment_flag 2) segments |>
    <| compressed_segments := existsb (segment_flag 8) segments |>.

Lemma inspect_self_wp :
  is_self bytes = true -> 4 <= zlen bytes <= GuestPrefixLimit -> zlen bytes <= file_size ->
  wp (inspect_self_header bytes)
    (fun _ t => self_header_ok bytes /\ elf_offset_of bytes + 64 <= zlen bytes /\
                t = self_result (indices (rd bytes 24 2)))
    rejected (preflight_init <| self_container := true |>).
Proof.
  intros Hself Hlen Hfs. unfold inspect_self_header, GuestPrefixLimit in *.
  assert (Hoff : elf_offset_of bytes = 32 + rd bytes 24 2 * 32)
    by (unfold elf_offset_of; by rewrite Hself).
  wp_go. all: name_reads; unwrap_all.
  - apply reject; [done..|]. intros [_ [] _]; [done|lia].
  - apply reject; [done..|]. intros [_ [] _]; [done|lia].
  - apply reject; [done..|]. intros [_ _ [Hf]]. rewrite Hoff in Hf.
    cbn in *. unwrap_all. lia.
  - cbn in *. unwrap_all. reflect_bools.
    apply wp_forM with (Inv := fun pre t => t = self_result pre).
    + unfold self_result. by rewrite Hoff.
    + intros pre i post t (Hi & Hb & _)%indices_split ->. unfold inspect_self_segment.
      wp_go. name_reads. unfold self_result, segment_flag. rewrite !existsb_app. cbn.
      by rewrite !orb_false_r.
    + intros t ->. split; [split; lia|]. split; [lia|done].
Qed.

(** The header once the container has been inspected. *)
Definition before_elf : GuestPreflight :=
  (accepted_header bytes)
    <| header_valid := false |> <| orbis_identity := false |>
    <| type := 0 |> <| program_headers := 0 |> <| entry := 0 |>.

Lemma before_elf_self : is_self bytes = true -> before_elf = self_result (indices (rd bytes 24 2)).
Proof.
  intros Hself. unfold before_elf, accepted_header, self_result, self_segment_flag.
  rewrite Hself. reflexivity.
Qed.

Lemma before_elf_raw :
  is_self bytes = false -> before_elf = preflight_init <| self_container := false |>.
Proof.
  intros Hself. unfold before_elf, accepted_header, self_segment_flag, elf_offset_of.
  rewrite Hself. reflexivity.
Qed.

Lemma inspect_elf_wp :
  4 <= zlen bytes <= GuestPrefixLimit -> zlen bytes <= file_size ->
  (is_self bytes = true -> self_header_ok bytes) ->
  0 <= elf_offset_of bytes <= zlen bytes ->
  wp (inspect_elf_header bytes file_size)
    (fun _ t => header_ok bytes file_size /\ t = accepted_header bytes) rejected before_elf.
Proof.
  intros Hlen Hfs Hself Hoff. unfold inspect_elf_header, GuestPrefixLimit in *.
  remember before_elf as r eqn:Hr.
  assert (elf_offset r = elf_offset_of bytes) as Ho by (by subst).
  assert (self_container r = is_self bytes) as Hs by (by subst).
  assert (header_valid r = false) as Hv by (by subst).
  do 2 wp_step. cbn beta. rewrite Ho. unwrap.
  wp_go. all: rewrite ?Hs in *; name_reads; unwrap_all.
  all: try (apply reject; [done..|]; intros [_ _ []]; unwrap_all; reflect_bools;
            destruct (is_self bytes); lia || congruence).
  reflect_bools. split; [|by subst r].
  constructor; [done..|constructor; try done; try lia].
  intros Hf. rewrite Hf in *. lia.
Qed.
End Inspect.

(** [InspectGuestPrefix] never reads outside [bytes], on any input, and accepts
    exactly the well-formed headers. *)
Lemma InspectGuestPrefix_spec bytes file_size :
  is_u64 file_size ->
  exists r, InspectGuestPrefix bytes file_size = Some r /\
    ((header_ok bytes file_size /\ r = accepted_header bytes) \/
     (~ header_ok bytes file_size /\ header_valid r = false /\ error r <> "")).
Proof.
  intros Hsize. unfold InspectGuestPrefix. apply finish_wp.
  apply wp_conseq with
    (Q := fun _ t => header_ok bytes file_size /\ t = accepted_header bytes)
    (E := rejected bytes file_size);
    [|intros; by left|intros e t (? & ? & ?); by right].
  unfold inspect, GuestPrefixLimit. wp_go.
  - apply reject; [done..|]. intros [[??] _ _]. unfold GuestPrefixLimit in *. lia.
  - name_reads. fold (is_self bytes) in *.
    match goal with H : is_self bytes = true |- _ => rename H into Hself end. rewrite Hself.
    reflect_bools.
    eapply wp_conseq; [apply (inspect_self_wp bytes file_size)|..]; unfold GuestPrefixLimit; try assumption; try lia.
    + intros _ t (Hok & Hoff & ->). rewrite <- before_elf_self by done.
      apply inspect_elf_wp; unfold GuestPrefixLimit; try done; try lia.
      pose proof (elf_offset_of_nonneg bytes). lia.
    + done.
  - name_reads. fold (is_self bytes) in *.
    match goal with H : is_self bytes = false |- _ => rename H into Hself end. rewrite Hself.
    reflect_bools. rewrite <- (before_elf_raw bytes) by done.
    assert (elf_offset_of bytes = 0) by (unfold elf_offset_of; by rewrite Hself).
    apply inspect_elf_wp; unfold GuestPrefixLimit; try assumption; try lia; congruence.
Qed.

(** C1. [InspectGuestPrefix] terminates without reading outside [bytes] on every
    input of any length and content; it accepts exactly the well-formed headers,
    reports an accepted header's fields faithfully, and sets [error] exactly when it
    rejects. *)
Theorem InspectGuestPrefix_exact bytes file_size :
  is_u64 file_size ->
  exists r, InspectGuestPrefix bytes file_size = Some r /\
    (header_valid r = true <-> header_ok bytes file_size) /\
    (header_valid r = true -> r = accepted_header bytes) /\
    (error r = "" <-> header_valid r = true).
Proof.
  intros Hs. destruct (InspectGuestPrefix_spec bytes file_size Hs) as
    (r & Hr & [[Hok ->]|(Hno & Hv & He)]); eexists; (split; [exact Hr|]).
  - split; [|split]; done.
  - rewrite Hv. split; [|split]; [done|done|]. split; congruence.
Qed.

(** The program's own loader fixture is inspected and accepted. *)
Lemma InspectGuestPrefix_exact_witness :
  is_u64 0x204 /\
  exists r, InspectGuestPrefix MakeGuestLoaderFixture 0x204 = Some r /\ header_valid r = true /\
    (header_valid r = true <-> header_ok MakeGuestLoaderFixture 0x204).
Proof.
  assert (Hs : is_u64 0x204) by (apply is_u64_dec; vm_compute; reflexivity).
  split; [exact Hs|].
  destruct (InspectGuestPrefix_exact MakeGuestLoaderFixture 0x204 Hs) as (r & Hr & Hok & _).
  exists r. split; [exact Hr|]. split; [|exact Hok].
  apply (checked_result header_valid _ _ Hr). vm_compute. reflexivity.
Defined.
