(* ===== verification/LoadPlan.v ===== *)
(** Load planning and staging of a raw image: [PlanGuestLoads] and [StageRawGuest] of
    src/src/core/uwp/guest_load_plan.h.

    [PlanGuestLoads] selects the loadable program headers of an inspected image and
    accepts them only when they are well formed, pairwise disjoint and within the
    image budget; [StageRawGuest] copies the file-backed bytes into a zeroed image. *)
From Stdlib Require Import ZArith Lia.
From Stdlib Require Import Strings.Byte.
From stdpp Require Import base gmap list list_numbers strings.
From S2P Require Import Prelude.
From S2P Require Import Fixtures.
From S2P Require Import Preflight.

Definition GuestImageLimit : Z := 16777216.
Definition GuestPageSize : Z := 16384.
(** PT_SCE_RELRO *)
Definition SceRelro : Z := 0x61000010.

Record GuestLoadSegment := mkGuestLoadSegment {
  seg_file_offset : Z;
  seg_address : Z;
  seg_file_size : Z;
  seg_memory_size : Z;
  seg_flags : Z;
  seg_program_index : Z;
  seg_type : Z
}.

#[export] Instance GuestLoadSegment_eq_dec : EqDecision GuestLoadSegment.
Proof. solve_decision. Defined.

Record GuestLoadPlan := mkGuestLoadPlan {
  plan_valid : bool;
  raw_elf : bool;
  base : Z;
  image_size : Z;
  entry_offset : Z;
  segments : list GuestLoadSegment;
  plan_error : string
}.

#[export] Instance eta_GuestLoadPlan : Eta GuestLoadPlan := fun p =>
  mkGuestLoadPlan (plan_valid p) (raw_elf p) (base p) (image_size p) (entry_offset p)
    (segments p) (plan_error p).

(** [GuestLoadPlan plan;] *)
Definition plan_init : GuestLoadPlan := mkGuestLoadPlan false false 0 0 0 [] "".
Definition set_plan_error (e : string) (p : GuestLoadPlan) : GuestLoadPlan := p <| plan_error := e |>.

(** The loop's local variables. *)
Record PlanBounds := mkPlanBounds { low : Z; high : Z; executable_entry : bool }.

Definition overlaps (a b : GuestLoadSegment) : bool :=
  (seg_address a <? seg_address b +64 seg_memory_size b) &&
  (seg_address b <? seg_address a +64 seg_memory_size a).

(** The checks and the bookkeeping of a header with a nonzero memory size. *)
Definition plan_segment (header : GuestPreflight) (file_size : Z) (segment : GuestLoadSegment)
    (locals : PlanBounds) : M GuestLoadPlan PlanBounds :=
  fail_if ((GuestImageLimit <? seg_memory_size segment) ||
           (U64_MAX -64 seg_memory_size segment <? seg_address segment))
    "segment_address_overflow_or_budget" ;;;
  raw <- gets raw_elf ;;
  fail_if (raw && ((file_size <? seg_file_offset segment) ||
                   (file_size -64 seg_file_offset segment <? seg_file_size segment)))
    "segment_outside_file" ;;;
  let end_ := seg_address segment +64 seg_memory_size segment in
  previous <- gets segments ;;
  forM previous (fun p => fail_if (overlaps segment p) "overlapping_load_segments") ;;;
  modify (fun p => p <| segments ::= fun l => l ++ [segment] |>) ;;;
  ret {| low := Z.min (low locals) (seg_address segment);
         high := Z.max (high locals) end_;
         executable_entry := executable_entry locals ||
           ((seg_type segment =? 1) && negb (Z.land (seg_flags segment) 1 =? 0) &&
            (seg_address segment <=? entry header) &&
            (entry header -64 seg_address segment <? seg_file_size segment)) |}.

(** One iteration over the program headers. *)
Definition plan_header (prefix : list byte) (file_size : Z) (include_sce_relro : bool)
    (header : GuestPreflight) (phoff : Z) (locals : PlanBounds) (i : Z) : M GuestLoadPlan PlanBounds :=
  let offset := elf_offset header +64 phoff +64 i *64 56 in
  ty <- need (read prefix offset 4) ;;
  let type := wrap32 ty in
  if negb (type =? 1) && negb (include_sce_relro && (type =? SceRelro)) then ret locals else
  file_offset <- need (read prefix (offset +64 8) 8) ;;
  address <- need (read prefix (offset +64 16) 8) ;;
  filesz <- need (read prefix (offset +64 32) 8) ;;
  memsz <- need (read prefix (offset +64 40) 8) ;;
  flags <- need (read prefix (offset +64 4) 4) ;;
  let segment := {| seg_file_offset := file_offset; seg_address := address;
                    seg_file_size := filesz; seg_memory_size := memsz;
                    seg_flags := wrap32 flags; seg_program_index := wrap32 i;
                    seg_type := type |} in
  fail_if ((type =? SceRelro) && negb (Z.land (seg_flags segment) 1 =? 0))
    "unsupported_relro_permissions" ;;;
  alignment <- need (read prefix (offset +64 48) 8) ;;
  fail_if (negb (Z.land (seg_flags segment) 0xfffffff8 =? 0) ||
           (Z.land (seg_flags segment) 3 =? 3))
    "unsupported_segment_permissions" ;;;
  fail_if (memsz <? filesz) "file_size_exceeds_memory" ;;;
  fail_if ((1 <? alignment) &&
           (negb (Z.land alignment (alignment -64 1) =? 0) ||
            negb (address mod alignment =? file_offset mod alignment)))
    "invalid_segment_alignment" ;;;
  if memsz =? 0 then ret locals else plan_segment header file_size segment locals.

(** After the loop: the image must have a segment, cover the entry and fit the budget. *)
Definition plan_finish (header : GuestPreflight) (locals : PlanBounds) : M GuestLoadPlan unit :=
  segs <- gets segments ;;
  fail_if (match segs with [] => true | _ => false end) "no_load_segments" ;;;
  fail_if (negb (executable_entry locals)) "entry_outside_file_backed_executable_segment" ;;;
  let start := low locals -64 low locals mod GuestPageSize in
  modify (fun p => p <| base := start |>) ;;;
  let span := high locals -64 start in
  fail_if (GuestImageLimit <? span) "image_budget_exceeded" ;;;
  modify (fun p => p <| image_size := (span +64 GuestPageSize -64 1) / GuestPageSize *64 GuestPageSize |>) ;;;
  modify (fun p => p <| entry_offset := entry header -64 start |>) ;;;
  modify (fun p => p <| plan_valid := true |>).

Definition plan_loads (prefix : list byte) (file_size : Z) (include_sce_relro : bool)
    : M GuestLoadPlan unit :=
  header <- need (InspectGuestPrefix prefix file_size) ;;
  fail_if (negb (header_valid header)) "header_invalid" ;;;
  modify (fun p => p <| raw_elf := negb (self_container header) |>) ;;;
  phoff <- need (read prefix (elf_offset header +64 32) 8) ;;
  fail_if (128 <? program_headers header) "program_header_limit" ;;;
  let available := zlen prefix -64 elf_offset header in
  fail_if ((available <? phoff) || (available -64 phoff <? program_headers header *64 56))
    "program_headers_outside_prefix" ;;;
  locals <- foldM (plan_header prefix file_size include_sce_relro header phoff)
              {| low := U64_MAX; high := 0; executable_entry := false |}
              (indices (program_headers header)) ;;
  plan_finish header locals.

Definition PlanGuestLoads (prefix : list byte) (file_size : Z) (include_sce_relro : bool)
    : option GuestLoadPlan :=
  finish set_plan_error (plan_loads prefix file_size include_sce_relro) plan_init.

(** ** Staging *)

Record GuestStagedImage := mkGuestStagedImage {
  img_plan : GuestLoadPlan;
  img_bytes : list byte;
  img_error : string
}.
#[export] Instance eta_GuestStagedImage : Eta GuestStagedImage := fun i =>
  mkGuestStagedImage (img_plan i) (img_bytes i) (img_error i).

(** [std::copy_n(file.begin() + from, size, image.begin() + (address - base))] *)
Definition stage_segment (file : list byte) (image_base : Z) (bytes : list byte)
    (from : Z) (segment : GuestLoadSegment) : option (list byte) :=
  src ← slice file from (seg_file_size segment);
  splice bytes (seg_address segment -64 image_base) src.

(** [file.first(std::min(file.size(), GuestPrefixLimit))] *)
Definition prefix_of (file : list byte) : list byte :=
  take (Z.to_nat (Z.min (zlen file) GuestPrefixLimit)) file.

Definition stage_raw (file : list byte) : M GuestStagedImage unit :=
  plan <- need (PlanGuestLoads (prefix_of file) (zlen file) false) ;;
  modify (fun i => i <| img_plan := plan |>) ;;;
  fail_if (negb (plan_valid plan)) (plan_error plan) ;;;
  fail_if (negb (raw_elf plan)) "self_payload_adapter_required" ;;;
  modify (fun i => i <| img_bytes := filled (image_size plan) Byte.x00 |>) ;;;
  forM (segments plan) (fun segment =>
    bytes <- gets img_bytes ;;
    bytes' <- need (stage_segment file (base plan) bytes (seg_file_offset segment) segment) ;;
    modify (fun i => i <| img_bytes := bytes' |>)).

Definition StageRawGuest (file : list byte) : option GuestStagedImage :=
  finish (fun e i => i <| img_error := e |>) (stage_raw file)
    {| img_plan := plan_init; img_bytes := []; img_error := "" |}.

(** * Specification of an acceptable image, in exact arithmetic *)

Section Spec.
Context (prefix : list byte) (file_size : Z) (include_sce_relro : bool).

Definition header_entry : Z := rd prefix (elf_offset_of prefix + 24) 8.
Definition header_phoff : Z := rd prefix (elf_offset_of prefix + 32) 8.
Definition header_phnum : Z := rd prefix (elf_offset_of prefix + 56) 2.

(** Offset of program header [i] in the prefix. *)
Definition ph (i : Z) : Z := elf_offset_of prefix + header_phoff + i * 56.

Definition segment_of (i : Z) : GuestLoadSegment :=
  {| seg_file_offset := rd prefix (ph i + 8) 8;
     seg_address := rd prefix (ph i + 16) 8;
     seg_file_size := rd prefix (ph i + 32) 8;
     seg_memory_size := rd prefix (ph i + 40) 8;
     seg_flags := rd prefix (ph i + 4) 4;
     seg_program_index := i;
     seg_type := rd prefix (ph i) 4 |}.

Definition loadable (s : GuestLoadSegment) : bool :=
  (seg_type s =? 1) || (include_sce_relro && (seg_type s =? SceRelro)).
Definition planned (s : GuestLoadSegment) : bool := loadable s && negb (seg_memory_size s =? 0).

(** The segments of the plan: every loadable header that occupies memory, in order. *)
Definition planned_segments (hs : list Z) : list GuestLoadSegment :=
  List.filter planned (List.map segment_of hs).

Definition seg_end (s : GuestLoadSegment) : Z := seg_address s + seg_memory_size s.

Definition disjoint_segments (a b : GuestLoadSegment) : Prop :=
  seg_end a <= seg_address b \/ seg_end b <= seg_address a.

(** What a header that occupies memory must satisfy. *)
Record header_mapped (s : GuestLoadSegment) : Prop := {
  hm_budget : seg_memory_size s <> 0 ->
    seg_memory_size s <= GuestImageLimit /\ seg_end s <= U64_MAX;
  hm_file : seg_memory_size s <> 0 -> is_self prefix = false ->
    seg_file_offset s + seg_file_size s <= file_size
}.

(** What a loadable header must satisfy. *)
Record header_acceptable (i : Z) (s : GuestLoadSegment) : Prop := {
  ha_relro : seg_type s = SceRelro -> Z.land (seg_flags s) 1 = 0;
  ha_flags : Z.land (seg_flags s) 0xfffffff8 = 0;
  ha_wx : Z.land (seg_flags s) 3 <> 3;
  ha_sizes : seg_file_size s <= seg_memory_size s;
  ha_align : forall a, a = rd prefix (ph i + 48) 8 -> 1 < a ->
    Z.land a (a - 1) = 0 /\ seg_address s mod a = seg_file_offset s mod a;
  ha_mapped : header_mapped s
}.

(** The entry point lies in the file-backed bytes of an executable PT_LOAD. *)
Definition covers_entry (s : GuestLoadSegment) : bool :=
  (seg_type s =? 1) && negb (Z.land (seg_flags s) 1 =? 0) &&
  (seg_address s <=? header_entry) && (header_entry <? seg_address s + seg_file_size s).

Definition lowest (l : list GuestLoadSegment) : Z :=
  fold_left (fun m s => Z.min m (seg_address s)) l U64_MAX.
Definition highest (l : list GuestLoadSegment) : Z :=
  fold_left (fun m s => Z.max m (seg_end s)) l 0.

Definition page_floor (x : Z) : Z := x - x mod GuestPageSize.

Record plan_acceptable : Prop := {
  pa_header : header_ok prefix file_size;
  pa_count : header_phnum <= 128;
  pa_table : elf_offset_of prefix + header_phoff + header_phnum * 56 <= zlen prefix;
  pa_headers : forall i, 0 <= i < header_phnum -> loadable (segment_of i) = true ->
    header_acceptable i (segment_of i);
  pa_disjoint : List.ForallOrdPairs disjoint_segments (planned_segments (indices header_phnum));
  pa_some : planned_segments (indices header_phnum) <> [];
  pa_entry : existsb covers_entry (planned_segments (indices header_phnum)) = true;
  pa_budget : let l := planned_segments (indices header_phnum) in
    highest l - page_floor (lowest l) <= GuestImageLimit
}.

(** The plan of an acceptable image. *)
Definition accepted_plan : GuestLoadPlan :=
  let l := planned_segments (indices header_phnum) in
  let start := page_floor (lowest l) in
  {| plan_valid := true;
     raw_elf := negb (is_self prefix);
     base := start;
     image_size := (highest l - start + GuestPageSize - 1) / GuestPageSize * GuestPageSize;
     entry_offset := header_entry - start;
     segments := l;
     plan_error := "" |}.

(** * Correctness of the planner *)

Hypothesis Hsize : is_u64 file_size.

Definition plan_rejected (e : string) (p : GuestLoadPlan) : Prop :=
  ~ plan_acceptable /\ plan_valid p = false /\ e <> "".

Lemma plan_reject e p :
  plan_valid p = false -> e <> "" -> (plan_acceptable -> False) -> plan_rejected e p.
Proof. unfold plan_rejected; auto. Qed.

(** Every planned segment of the headers done so far is acceptable. *)
Definition headers_done (hs : list Z) : Prop :=
  forall i, i ∈ hs -> loadable (segment_of i) = true -> header_acceptable i (segment_of i).

Definition bounds_of (l : list GuestLoadSegment) : PlanBounds :=
  {| low := lowest l; high := highest l; executable_entry := existsb covers_entry l |}.

Definition plan_partial (l : list GuestLoadSegment) : GuestLoadPlan :=
  plan_init <| raw_elf := negb (is_self prefix) |> <| segments := l |>.

Record loop_inv (pre : list Z) (locals : PlanBounds) (p : GuestLoadPlan) : Prop := {
  li_locals : locals = bounds_of (planned_segments pre);
  li_plan : p = plan_partial (planned_segments pre);
  li_headers : headers_done pre;
  li_disjoint : List.ForallOrdPairs disjoint_segments (planned_segments pre)
}.

Lemma planned_segments_app l k :
  planned_segments (l ++ k) = planned_segments l ++ planned_segments k.
Proof. unfold planned_segments. rewrite List.map_app. apply List.filter_app. Qed.

Lemma planned_segments_In s hs :
  In s (planned_segments hs) -> exists i, In i hs /\ s = segment_of i /\ planned s = true.
Proof.
  unfold planned_segments. rewrite List.filter_In, List.in_map_iff. intros ((i & <- & ?) & ?). eauto.
Qed.

Lemma lowest_snoc l s : lowest (l ++ [s]) = Z.min (lowest l) (seg_address s).
Proof. unfold lowest. by rewrite fold_left_app. Qed.
Lemma highest_snoc l s : highest (l ++ [s]) = Z.max (highest l) (seg_end s).
Proof. unfold highest. by rewrite fold_left_app. Qed.

Lemma segment_of_range i :
  let s := segment_of i in
  is_u64 (seg_file_offset s) /\ is_u64 (seg_address s) /\ is_u64 (seg_file_size s) /\
  is_u64 (seg_memory_size s) /\ 0 <= seg_flags s <= U32_MAX /\ 0 <= seg_type s <= U32_MAX.
Proof.
  cbn zeta. unfold segment_of. cbn [seg_file_offset seg_address seg_file_size seg_memory_size seg_flags seg_type].
  pose proof (rd_range prefix (ph i + 8) 8). pose proof (rd_range prefix (ph i + 16) 8).
  pose proof (rd_range prefix (ph i + 32) 8). pose proof (rd_range prefix (ph i + 40) 8).
  pose proof (rd_range prefix (ph i + 4) 4). pose proof (rd_range prefix (ph i) 4).
  u64_unfold. lia.
Qed.

Definition in_u64 (s : GuestLoadSegment) : Prop :=
  is_u64 (seg_address s) /\ 0 <= seg_memory_size s /\ seg_end s <= U64_MAX.

Lemma overlaps_disjoint a b :
  in_u64 a -> in_u64 b -> overlaps a b = false <-> disjoint_segments b a.
Proof.
  intros (? & ? & Ha) (? & ? & Hb). unfold overlaps, disjoint_segments, seg_end in *.
  unwrap. lia.
Qed.

Lemma plan_segment_wp header i l s :
  s = segment_of i ->
  entry header = header_entry -> 0 < seg_memory_size s ->
  (plan_acceptable -> header_acceptable i s) ->
  (plan_acceptable -> Forall (fun a => disjoint_segments a s) l) ->
  Forall in_u64 l ->
  wp (plan_segment header file_size s (bounds_of l))
    (fun locals p => locals = bounds_of (l ++ [s]) /\ p = plan_partial (l ++ [s]) /\
       seg_memory_size s <= GuestImageLimit /\ seg_end s <= U64_MAX /\
       (is_self prefix = false -> seg_file_offset s + seg_file_size s <= file_size) /\
       Forall (fun a => disjoint_segments a s) l)
    plan_rejected (plan_partial l).
Proof.
  intros Hs Hent Hmem Hacc Hdis Hl. unfold plan_segment.
  pose proof (segment_of_range i) as (Ro & Ra & Rf & Rm & _). rewrite <- Hs in Ro, Ra, Rf, Rm.
  pose proof (rd_range prefix (elf_offset_of prefix + 24) 8) as Re. fold header_entry in Re.
  wp_go.
  - apply plan_reject; [done..|]. intros Hp. destruct (Hacc Hp).
    destruct ha_mapped0 as [[? ?] _]; [lia|]. unfold seg_end in *. unwrap_all. lia.
  - apply plan_reject; [done..|]. intros Hp. destruct (Hacc Hp) as [_ _ _ _ _ [_ Hf]].
    reflect_bools. destruct (is_self prefix); [done|].
    specialize (Hf ltac:(lia) eq_refl). unwrap_all. u64_lia.
  - assert (Hin : in_u64 s).
    { unfold in_u64, seg_end. reflect_bools. unwrap_all. u64_lia. }
    apply wp_forM with (Inv := fun pre p => p = plan_partial l /\ Forall (fun a => disjoint_segments a s) pre).
    + done.
    + intros pre x post p -> [-> Hpre]. apply Forall_app in Hl as [_ Hl].
      apply Forall_cons in Hl as [Hx _]. wp_go.
      * apply plan_reject; [done..|]. intros Hp. specialize (Hdis Hp).
        apply Forall_app in Hdis as [_ Hd]. apply Forall_cons in Hd as [Hxd _].
        apply (overlaps_disjoint s x) in Hxd; auto. congruence.
      * split; [done|]. apply Forall_app. split; [done|]. constructor; [|done].
        by apply overlaps_disjoint.
    + intros p [-> Hall]. wp_go. rewrite Hent.
      assert (Hse : seg_address s +64 seg_memory_size s = seg_end s) by (destruct Hin as (? & ? & ?); unfold seg_end in *; by unwrap).
      assert (Hm : seg_memory_size s <= GuestImageLimit) by lia.
      split; [|split; [done|]].
      * unfold bounds_of. rewrite lowest_snoc, highest_snoc, existsb_app, Hse. cbn. f_equal.
        rewrite orb_false_r. f_equal. unfold covers_entry.
        destruct (seg_address s <=? header_entry) eqn:E; [|by rewrite !andb_false_r].
        apply Z.leb_le in E. unwrap. f_equal. lia.
      * destruct Hin as (? & ? & ?). split; [done|]. split; [done|]. split; [|done].
        intros Hraw. rewrite Hraw in *. cbn in *. reflect_bools. unwrap_all. lia.
Qed.

Lemma planned_segments_snoc pre i :
  planned_segments (pre ++ [i]) =
  planned_segments pre ++ (if planned (segment_of i) then [segment_of i] else []).
Proof.
  rewrite planned_segments_app. unfold planned_segments. simpl.
  by destruct (planned (segment_of i)).
Qed.

Lemma headers_done_snoc pre i :
  headers_done pre ->
  (loadable (segment_of i) = true -> header_acceptable i (segment_of i)) ->
  headers_done (pre ++ [i]).
Proof.
  intros Hpre Hi j Hj Hl. apply elem_of_app in Hj as [Hj|Hj]; [by apply Hpre|].
  apply list_elem_of_singleton in Hj as ->. auto.
Qed.

Lemma planned_in_u64 pre :
  headers_done pre -> Forall in_u64 (planned_segments pre).
Proof.
  intros Hd. apply List.Forall_forall. intros s (i & Hi & -> & Hp)%planned_segments_In.
  unfold planned in Hp. apply andb_prop in Hp as [Hl Hm].
  apply negb_true_iff, Z.eqb_neq in Hm.
  apply list_elem_of_In in Hi. destruct (Hd i Hi Hl) as [_ _ _ _ _ [Hb _]].
  pose proof (segment_of_range i) as (_ & Ra & _ & Rm & _).
  split; [done|]. split; [apply Rm|]. by apply Hb.
Qed.

(** A header the plan skips leaves the loop's state alone. *)
Lemma loop_inv_skip pre i locals p :
  loop_inv pre locals p -> planned (segment_of i) = false ->
  (loadable (segment_of i) = true -> header_acceptable i (segment_of i)) ->
  loop_inv (pre ++ [i]) locals p.
Proof.
  intros [Hl Hp Hh Hd] Hn Hi.
  assert (planned_segments (pre ++ [i]) = planned_segments pre) as He
    by (rewrite planned_segments_snoc, Hn; apply app_nil_r).
  split; rewrite ?He; auto. by apply headers_done_snoc.
Qed.

(** A header that occupies memory extends the plan by its segment. *)
Lemma plan_mapped_wp pre i post locals p :
  indices header_phnum = pre ++ i :: post -> loop_inv pre locals p ->
  planned (segment_of i) = true ->
  (header_mapped (segment_of i) -> header_acceptable i (segment_of i)) ->
  wp (plan_segment (accepted_header prefix) file_size (segment_of i) locals)
    (loop_inv (pre ++ [i])) plan_rejected p.
Proof.
  intros Hidx [-> -> Hh Hd] Hpl Hchk.
  destruct (indices_split _ _ _ _ Hidx) as (_ & Hi & _).
  pose proof Hpl as Hpl'. unfold planned in Hpl'. apply andb_prop in Hpl' as [Hld Hm].
  apply negb_true_iff, Z.eqb_neq in Hm.
  pose proof (segment_of_range i) as (_ & _ & _ & Rm & _).
  eapply wp_conseq; [eapply (plan_segment_wp _ i); [done|done| | | |]|..]; auto.
  - destruct Rm; lia.
  - intros Hp. by apply (pa_headers Hp).
  - intros Hp. pose proof (pa_disjoint Hp) as Hall. rewrite Hidx in Hall.
    change (i :: post) with ([i] ++ post) in Hall.
    rewrite app_assoc, planned_segments_app, planned_segments_snoc, Hpl in Hall.
    apply ForallOrdPairs_app_l, ForallOrdPairs_snoc in Hall. apply Hall.
  - by apply planned_in_u64.
  - intros locals p (-> & -> & Hb & He & Hf & Hx).
    split; rewrite ?planned_segments_snoc, ?Hpl; auto.
    + apply headers_done_snoc; [done|]. intros _. apply Hchk. split; auto.
    + by apply ForallOrdPairs_snoc.
Qed.

Lemma plan_header_wp pre i post locals p :
  header_ok prefix file_size -> 
  elf_offset_of prefix + header_phoff + header_phnum * 56 <= zlen prefix ->
  indices header_phnum = pre ++ i :: post -> loop_inv pre locals p ->
  wp (plan_header prefix file_size include_sce_relro (accepted_header prefix) header_phoff locals i)
    (loop_inv (pre ++ [i])) plan_rejected p.
Proof.
  intros Hok Htab Hidx Hinv. unfold plan_header.
  destruct (indices_split _ _ _ _ Hidx) as (_ & Hi & _).
  pose proof (elf_offset_of_nonneg prefix). pose proof (rd_range prefix (elf_offset_of prefix + 32) 8) as Ro.
  pose proof (rd_range prefix (elf_offset_of prefix + 56) 2) as Rn.
  fold header_phoff in Ro. fold header_phnum in Rn.
  destruct (ho_prefix _ _ Hok) as [Hlen _]. unfold GuestPrefixLimit in Hlen.
  change (elf_offset (accepted_header prefix)) with (elf_offset_of prefix).
  assert (Hph : elf_offset_of prefix +64 header_phoff +64 i *64 56 = ph i)
    by (unfold ph; by unwrap).
  rewrite Hph. assert (0 <= ph i /\ ph i + 56 <= zlen prefix) as [??] by (unfold ph; lia).
  assert (Hld : loadable (segment_of i) =
    negb (negb (rd prefix (ph i) 4 =? 1) && negb (include_sce_relro && (rd prefix (ph i) 4 =? SceRelro))))
    by (unfold loadable; cbn [seg_type segment_of]; by rewrite negb_andb, !negb_involutive).
  pose proof (segment_of_range i) as (Rfo & Ra & Rf & Rm & Rfl & Rt).
  assert (Hv : plan_valid p = false) by (destruct Hinv as [_ -> _ _]; done).
  cbn [seg_file_offset seg_address seg_file_size seg_memory_size seg_flags seg_type segment_of] in *.
  wp_go. all: name_reads; unwrap_all.
  { apply loop_inv_skip; [done| |intros Hl]; unfold planned in *; rewrite Hld in *.
    - by rewrite Heqb.
    - by rewrite Heqb in Hl. }
  all: rewrite Heqb in Hld; cbn in Hld.
  1-4: apply plan_reject; [done..|]; intros Hp; destruct (pa_headers Hp i Hi Hld);
       cbn [seg_file_offset seg_address seg_file_size seg_memory_size seg_flags seg_type segment_of] in *;
       reflect_bools; try lia.
  { destruct (ha_align0 _ eq_refl) as [E1 E2]; [done|]. rewrite E1, E2, !Z.eqb_refl in *. done. }
  all: assert (Hchk : header_mapped (segment_of i) -> header_acceptable i (segment_of i)).
  1, 3: intros [??]; reflect_bools; constructor; try done;
        [cbn [seg_type seg_flags segment_of]; lia|]; intros a -> Ha;
        rewrite (proj2 (Z.ltb_lt _ _) Ha) in *; cbn [andb] in *; reflect_bools; unwrap_all; done.
  - apply loop_inv_skip; [done|unfold planned; cbn [seg_memory_size segment_of]|].
    + rewrite Heqb0. by rewrite andb_false_r.
    + intros _. apply Hchk. split; cbn [seg_memory_size segment_of]; lia.
  - apply (plan_mapped_wp pre i post); auto. unfold planned. cbn [seg_memory_size segment_of].
    by rewrite Hld, Heqb0.
Qed.

Lemma plan_loop_wp :
  header_ok prefix file_size -> header_phnum <= 128 ->
  elf_offset_of prefix + header_phoff + header_phnum * 56 <= zlen prefix ->
  wp (foldM (plan_header prefix file_size include_sce_relro (accepted_header prefix) header_phoff)
        {| low := U64_MAX; high := 0; executable_entry := false |} (indices header_phnum))
    (loop_inv (indices header_phnum)) plan_rejected
    (plan_init <| raw_elf := negb (is_self prefix) |>).
Proof.
  intros Hok Hn Htab. apply wp_foldM with (Inv := loop_inv); [|intros; by eapply plan_header_wp|done].
  split; [done..| |constructor]. intros i Hi. by apply not_elem_of_nil in Hi.
Qed.

Lemma fold_min_range l m :
  0 <= m <= U64_MAX -> Forall in_u64 l ->
  0 <= fold_left (fun m s => Z.min m (seg_address s)) l m <= U64_MAX.
Proof.
  revert m. induction l as [|s l IH]; intros m Hm Hl; simpl; [done|].
  apply Forall_cons in Hl as [(? & ? & ?) Hl]. apply IH; [u64_lia|done].
Qed.
Lemma fold_max_range l m :
  0 <= m <= U64_MAX -> Forall in_u64 l ->
  0 <= fold_left (fun m s => Z.max m (seg_end s)) l m <= U64_MAX.
Proof.
  revert m. induction l as [|s l IH]; intros m Hm Hl; simpl; [done|].
  apply Forall_cons in Hl as [(? & ? & ?) Hl]. apply IH; [unfold seg_end in *; u64_lia|done].
Qed.

Lemma lowest_range l : Forall in_u64 l -> is_u64 (lowest l).
Proof. apply fold_min_range. u64_lia. Qed.
Lemma highest_range l : Forall in_u64 l -> is_u64 (highest l).
Proof. apply fold_max_range. u64_lia. Qed.

Lemma fold_min_le l m : fold_left (fun m s => Z.min m (seg_address s)) l m <= m.
Proof. revert m. induction l as [|s l IH]; intros m; simpl; [lia|]. specialize (IH (Z.min m (seg_address s))). lia. Qed.
Lemma fold_max_ge l m : m <= fold_left (fun m s => Z.max m (seg_end s)) l m.
Proof. revert m. induction l as [|s l IH]; intros m; simpl; [lia|]. specialize (IH (Z.max m (seg_end s))). lia. Qed.

Lemma lowest_le l s : In s l -> lowest l <= seg_address s.
Proof.
  unfold lowest. generalize U64_MAX. induction l as [|a l IH]; intros m Hin; [done|].
  destruct Hin as [->|Hin]; simpl; [|by apply IH].
  pose proof (fold_min_le l (Z.min m (seg_address s))). lia.
Qed.
Lemma highest_ge l s : In s l -> seg_end s <= highest l.
Proof.
  unfold highest. generalize 0. induction l as [|a l IH]; intros m Hin; [done|].
  destruct Hin as [->|Hin]; simpl; [|by apply IH].
  pose proof (fold_max_ge l (Z.max m (seg_end s))). lia.
Qed.

Lemma page_floor_bounds x : 0 <= x -> 0 <= page_floor x <= x /\ x - page_floor x < GuestPageSize.
Proof. intros. unfold page_floor, GuestPageSize. pose proof (Z.mod_pos_bound x 16384). pose proof (Z.mod_le x 16384). lia. Qed.

Lemma entry_bounds hs :
  headers_done hs -> existsb covers_entry (planned_segments hs) = true ->
  lowest (planned_segments hs) <= header_entry < highest (planned_segments hs).
Proof.
  intros Hdone (s & Hin & Hs)%existsb_exists.
  pose proof (lowest_le _ _ Hin). pose proof (highest_ge _ _ Hin).
  apply planned_segments_In in Hin as (i & Hi & -> & Hp).
  unfold planned in Hp. apply andb_prop in Hp as [Hl _].
  apply list_elem_of_In in Hi. pose proof (ha_sizes _ _ (Hdone i Hi Hl)).
  unfold covers_entry, seg_end in *. reflect_bools. lia.
Qed.

Lemma page_ceil_bounds x :
  0 <= x -> x <= (x + 16384 - 1) / 16384 * 16384 < x + 16384.
Proof.
  intros Hx. pose proof (Z.div_mod (x + 16384 - 1) 16384 ltac:(lia)).
  pose proof (Z.mod_pos_bound (x + 16384 - 1) 16384 ltac:(lia)). lia.
Qed.

Lemma plan_finish_wp hs :
  let l := planned_segments hs in
  headers_done hs -> hs = indices header_phnum ->
  header_ok prefix file_size -> header_phnum <= 128 ->
  elf_offset_of prefix + header_phoff + header_phnum * 56 <= zlen prefix ->
  List.ForallOrdPairs disjoint_segments l ->
  wp (plan_finish (accepted_header prefix) (bounds_of l))
    (fun _ p => plan_acceptable /\ p = accepted_plan) plan_rejected (plan_partial l).
Proof.
  intros l Hdone Hhs Hok Hn Htab Hdis. unfold plan_finish.
  pose proof (planned_in_u64 hs Hdone) as Hin. fold l in Hin.
  pose proof (lowest_range l Hin) as Rl. pose proof (highest_range l Hin) as Rh.
  pose proof (page_floor_bounds (lowest l) (proj1 Rl)) as [Rp1 Rp2].
  pose proof (rd_range prefix (elf_offset_of prefix + 24) 8) as Re. fold header_entry in Re.
  apply wp_bind, wp_gets. cbn [segments plan_partial upd].
  assert (Hfl : lowest l -64 lowest l mod GuestPageSize = page_floor (lowest l))
    by (apply wrap64_small; unfold page_floor in *; u64_lia).
  wp_step; wp_step; [|wp_step; wp_step].
  - apply plan_reject; [done..|]. intros Hp. apply (pa_some Hp). rewrite <- Hhs. fold l. by destruct l.
  - apply plan_reject; [done..|]. intros Hp. pose proof (pa_entry Hp) as He.
    rewrite <- Hhs in He. fold l in He. cbn in *. by rewrite He in *.
  - reflect_bools. cbn [executable_entry bounds_of] in *.
    pose proof (entry_bounds hs Hdone ltac:(done)) as Hent. fold l in Hent.
    wp_go; rewrite Hfl in *; unfold GuestPageSize, GuestImageLimit in *; unwrap_all.
    + apply plan_reject; [done..|]. intros Hp. pose proof (pa_budget Hp) as Hb. cbn zeta in Hb.
      rewrite <- Hhs in Hb. fold l in Hb. unfold GuestImageLimit in *. lia.
    + reflect_bools. pose proof (page_ceil_bounds (highest l - page_floor (lowest l)) ltac:(lia)).
      fold header_entry. unwrap.
      split.
      * constructor; rewrite <- ?Hhs; try done. 
        -- intros i Hi Hl. apply Hdone; [|done]. rewrite Hhs. by apply elem_of_indices.
        -- intros Hnil. fold l in Hnil. by rewrite Hnil in *.
      * unfold accepted_plan. rewrite <- Hhs. fold l. reflexivity.
Qed.

Lemma page_floor_mod x : page_floor x mod 16384 = 0.
Proof.
  unfold page_floor, GuestPageSize. rewrite Zminus_mod_idemp_r, Z.sub_diag. done.
Qed.

Lemma plan_loads_wp :
  wp (plan_loads prefix file_size include_sce_relro)
    (fun _ p => plan_acceptable /\ p = accepted_plan) plan_rejected plan_init.
Proof.
  unfold plan_loads. apply wp_bind.
  destruct (InspectGuestPrefix_spec prefix file_size Hsize) as (header & Hr & Hcase).
  eapply wp_need; [exact Hr|]. cbn beta.
  destruct Hcase as [[Hok ->]|(Hno & Hv & _)]; cycle 1.
  { apply wp_bind, wp_fail_if; rewrite Hv; [|done]. intros _. apply plan_reject; [done..|].
    by intros [? ?]. }
  destruct (ho_prefix _ _ Hok) as [Hlen Hfs]. pose proof (eh_fits _ _ _ (ho_elf _ _ Hok)).
  pose proof (elf_offset_of_nonneg prefix). unfold GuestPrefixLimit in Hlen.
  pose proof (rd_range prefix (elf_offset_of prefix + 56) 2) as Rn.
  apply wp_bind, wp_fail_if; [done|intros _].
  wp_go. all: name_reads; fold header_phoff header_phnum in *; unwrap_all.
  - apply plan_reject; [done..|]. intros []. lia.
  - apply plan_reject; [done..|]. intros []. unwrap_all. lia.
  - reflect_bools. unwrap_all. eapply wp_conseq; [apply plan_loop_wp|..]; [done|lia..| |done].
    intros locals p [-> -> Hdone Hdis]. eapply plan_finish_wp; try done; lia.
Qed.

Lemma PlanGuestLoads_spec :
  exists p, PlanGuestLoads prefix file_size include_sce_relro = Some p /\
    ((plan_acceptable /\ p = accepted_plan) \/
     (~ plan_acceptable /\ plan_valid p = false /\ plan_error p <> "")).
Proof.
  unfold PlanGuestLoads. apply finish_wp.
  eapply wp_conseq; [apply plan_loads_wp|intros; by left|intros e p (? & ? & ?); by right].
Qed.

(** ** What an accepted plan guarantees to the stager and the linker *)
Record plan_layout (p : GuestLoadPlan) : Prop := {
  pl_base : 0 <= base p /\ base p mod GuestPageSize = 0;
  pl_size : 0 < image_size p <= GuestImageLimit /\ image_size p mod GuestPageSize = 0;
  pl_segment : forall s, In s (segments p) ->
    base p <= seg_address s /\ seg_end s <= base p + image_size p /\
    0 <= seg_file_size s <= seg_memory_size s /\ 0 < seg_memory_size s /\
    seg_end s <= U64_MAX /\ is_u64 (seg_file_offset s) /\
    Z.land (seg_flags s) 3 <> 3 /\ 0 <= seg_flags s <= U32_MAX /\
    Z.land (seg_flags s) 0xfffffff8 = 0 /\
    (seg_type s = 1 \/ seg_type s = SceRelro /\ Z.land (seg_flags s) 1 = 0);
  pl_file : raw_elf p = true -> forall s, In s (segments p) ->
    seg_file_offset s + seg_file_size s <= file_size;
  pl_disjoint : List.ForallOrdPairs disjoint_segments (segments p);
  pl_entry : exists s, In s (segments p) /\ seg_type s = 1 /\ Z.land (seg_flags s) 1 <> 0 /\
    seg_address s <= base p + entry_offset p < seg_address s + seg_file_size s
}.

Lemma accepted_plan_segment s :
  plan_acceptable -> In s (segments accepted_plan) ->
  exists i, 0 <= i < header_phnum /\ s = segment_of i /\ planned s = true /\ header_acceptable i s.
Proof.
  intros Hp (i & Hi & -> & Hs)%planned_segments_In.
  exists i. apply list_elem_of_In, elem_of_indices in Hi.
  split; [done|]. split; [done|]. split; [done|].
  apply (pa_headers Hp); [done|]. unfold planned in Hs. by apply andb_prop in Hs as [? _].
Qed.

Lemma accepted_plan_layout : plan_acceptable -> plan_layout accepted_plan.
Proof.
  intros Hp. assert (Hdone : headers_done (indices header_phnum)).
  { intros i Hi. apply (pa_headers Hp). by apply elem_of_indices. }
  pose proof (planned_in_u64 _ Hdone) as Hin.
  pose proof (pa_entry Hp) as He. pose proof (entry_bounds _ Hdone He) as Hent.
  pose proof (pa_budget Hp) as Hb. cbn zeta in Hb.
  pose proof (lowest_range _ Hin) as Rl. pose proof (highest_range _ Hin) as Rh.
  set (l := planned_segments (indices header_phnum)) in *.
  pose proof (page_floor_bounds (lowest l) (proj1 Rl)) as [Rp1 Rp2].
  pose proof (page_ceil_bounds (highest l - page_floor (lowest l)) ltac:(lia)) as Rc.
  unfold accepted_plan. fold l. unfold GuestPageSize, GuestImageLimit in *.
  constructor; cbn [base image_size segments raw_elf entry_offset]; unfold GuestPageSize, GuestImageLimit.
  - split; [lia|apply page_floor_mod].
  - split; [lia|apply Z.mod_mul; lia].
  - intros s Hs. pose proof (lowest_le _ _ Hs). pose proof (highest_ge _ _ Hs).
    destruct (accepted_plan_segment s Hp Hs) as (i & Hi & -> & Hpl & Hacc).
    pose proof (segment_of_range i) as (? & ? & ? & ? & ? & ?).
    destruct Hacc as [Hre ? ? ? ? [Hbu _]]. unfold planned, loadable in Hpl. reflect_bools.
    destruct Hbu as [_ Hend]; [done|].
    assert (seg_type (segment_of i) = 1 \/ seg_type (segment_of i) = SceRelro) as Ht by lia.
    split_and!; try done; u64_unfold; lia.
  - intros Hraw s Hs. destruct (accepted_plan_segment s Hp Hs) as (i & Hi & -> & Hpl & Hacc).
    destruct Hacc as [_ _ _ _ _ [_ Hf]]. unfold planned in Hpl. reflect_bools. auto.
  - apply (pa_disjoint Hp).
  - apply existsb_exists in He as (s & Hs & Hc). exists s. split; [done|].
    unfold covers_entry in Hc. reflect_bools. split_and!; try done; lia.
Qed.

End Spec.

(** * Correctness of the stager *)

(** The file offset backing byte [k] of the image, for segments paired with the file
    offset of their payload; [None] is BSS or padding. *)
Fixpoint backing (image_base : Z) (l : list (Z * GuestLoadSegment)) (k : Z) : option Z :=
  match l with
  | [] => None
  | (from, s) :: r =>
      let d := seg_address s - image_base in
      if (d <=? k) && (k <? d + seg_file_size s) then Some (from + (k - d))
      else backing image_base r k
  end.

(** The image a plan denotes: file bytes where a segment is file-backed, zero elsewhere. *)
Definition staged (file : list byte) (image_base size : Z) (l : list (Z * GuestLoadSegment))
    (bytes : list byte) : Prop :=
  zlen bytes = size /\
  forall k, 0 <= k < size ->
    bytes.[k] = match backing image_base l k with Some j => file.[j] | None => Some Byte.x00 end.

Lemma staged_init file image_base size :
  0 <= size -> staged file image_base size [] (filled size Byte.x00).
Proof. intros Hs. split; [by apply zlen_filled|]. intros k Hk. cbn. by apply filled_at. Qed.

Lemma backing_snoc image_base l from s k :
  backing image_base (l ++ [(from, s)]) k =
  match backing image_base l k with
  | Some j => Some j
  | None => backing image_base [(from, s)] k
  end.
Proof.
  induction l as [|[f a] l IH]; [done|]. cbn [backing app]. destruct (_ && _); [done|apply IH].
Qed.

Lemma backing_disjoint image_base l s k :
  Forall (fun '(_, a) => disjoint_segments a s /\ seg_file_size a <= seg_memory_size a) l ->
  seg_address s <= image_base + k < seg_end s -> backing image_base l k = None.
Proof.
  intros Hl Hk. induction l as [|[f a] l IH]; [done|].
  apply Forall_cons in Hl as [[Hd Hm] Hl]. cbn [backing].
  destruct (_ && _) eqn:E; [|by apply IH]. reflect_bools.
  unfold disjoint_segments, seg_end in *. lia.
Qed.

(** Where a segment's payload lies, in the file and in the image. *)
Record payload_fits (file : list byte) (image_base size from : Z) (s : GuestLoadSegment) : Prop := {
  pf_base : 0 <= image_base <= seg_address s;
  pf_end : seg_end s <= image_base + size;
  pf_sizes : 0 <= seg_file_size s <= seg_memory_size s;
  pf_u64 : seg_end s <= U64_MAX;
  pf_from : 0 <= from;
  pf_file : from + seg_file_size s <= zlen file
}.

(** One copy of the staging loops. *)
Lemma stage_segment_staged file image_base size l bytes from s :
  staged file image_base size l bytes -> payload_fits file image_base size from s ->
  Forall (fun '(_, a) => disjoint_segments a s /\ seg_file_size a <= seg_memory_size a) l ->
  exists bytes', stage_segment file image_base bytes from s = Some bytes' /\
    staged file image_base size (l ++ [(from, s)]) bytes'.
Proof.
  intros [Hlen Hb] [? He ? Hu ? ?] Hd. unfold stage_segment, seg_end in *.
  destruct (slice_Some file from (seg_file_size s)) as (src & Hsrc & Hsl & Hsi); [lia..|].
  rewrite Hsrc. cbn. unwrap.
  destruct (splice_Some bytes (seg_address s - image_base) src) as (k & Hk & Hkl & Hki); [lia..|].
  rewrite Hk. eexists. split; [done|]. split; [lia|]. intros j Hj.
  rewrite Hki, backing_snoc by lia. cbn [backing]. case_decide as Hin.
  - rewrite (backing_disjoint image_base l s) by (done || unfold seg_end; lia).
    rewrite (proj2 (Z.leb_le _ _)), (proj2 (Z.ltb_lt _ _)) by lia. cbn.
    by rewrite Hsi by lia.
  - rewrite Hb by lia. destruct (backing image_base l j); [done|].
    destruct (_ && _) eqn:E; [|done]. reflect_bools. lia.
Qed.

Definition raw_payloads (l : list GuestLoadSegment) : list (Z * GuestLoadSegment) :=
  List.map (fun s => (seg_file_offset s, s)) l.

Lemma zlen_prefix_of file : zlen (prefix_of file) <= zlen file.
Proof. unfold prefix_of. rewrite zlen_take. lia. Qed.

(** The payloads of a plan are disjoint from a later segment of it. *)
Lemma earlier_payloads file_size p pre s post (from : GuestLoadSegment -> Z) :
  plan_layout file_size p -> segments p = pre ++ s :: post ->
  Forall (fun '(_, a) => disjoint_segments a s /\ seg_file_size a <= seg_memory_size a)
    (List.map (fun a => (from a, a)) pre).
Proof.
  intros Hlay Hseg. pose proof (pl_disjoint _ _ Hlay) as Hd. rewrite Hseg in Hd.
  apply ForallOrdPairs_mid in Hd. apply List.Forall_map.
  apply List.Forall_forall. intros a Ha.
  split; [by eapply List.Forall_forall in Hd|].
  apply (pl_segment _ _ Hlay). rewrite Hseg. apply List.in_or_app. by left.
Qed.

Lemma stage_raw_wp file :
  zlen file <= U64_MAX ->
  wp (stage_raw file)
    (fun _ i => img_error i = "" /\ plan_layout (zlen file) (img_plan i) /\ raw_elf (img_plan i) = true /\
       plan_valid (img_plan i) = true /\
       staged file (base (img_plan i)) (image_size (img_plan i))
         (raw_payloads (segments (img_plan i))) (img_bytes i))
    (fun e i => e <> "" /\ img_bytes i = [])
    {| img_plan := plan_init; img_bytes := []; img_error := "" |}.
Proof.
  intros Hsz. unfold stage_raw. apply wp_bind.
  assert (Hu : is_u64 (zlen file)) by (pose proof (zlen_nonneg file); u64_lia).
  destruct (PlanGuestLoads_spec (prefix_of file) (zlen file) false Hu) as (p & Hp & Hcase).
  eapply wp_need; [exact Hp|]. cbn beta.
  destruct Hcase as [[Hok ->]|(_ & Hv & He)]; cycle 1.
  { wp_step; wp_step. wp_step; wp_step; [done|]. by rewrite Hv in *. }
  pose proof (accepted_plan_layout _ _ _ Hok) as Hlay.
  remember (accepted_plan (prefix_of file) false) as p eqn:Heq.
  assert (plan_valid p = true) as Hv by (by subst).
  wp_step; wp_step. wp_step; wp_step; [by rewrite Hv in *|]. wp_step; wp_step; [done|].
  wp_step; wp_step. reflect_bools.
  destruct (pl_base _ _ Hlay) as [Hb _]. destruct (pl_size _ _ Hlay) as [Hs _].
  apply wp_forM with (Inv := fun pre i => img_plan i = p /\ img_error i = "" /\
    staged file (base p) (image_size p) (raw_payloads pre) (img_bytes i)).
  - split_and!; [done..|]. apply staged_init. lia.
  - intros pre s post i Hseg (Hip & Hie & Hst). wp_step; wp_step. wp_step.
    destruct (stage_segment_staged file (base p) (image_size p) (raw_payloads pre) (img_bytes i)
                (seg_file_offset s) s Hst) as (bytes' & Hbs & Hst').
    + destruct (pl_segment _ _ Hlay s) as (?&?&?&?&?&[??]&_); [rewrite Hseg; apply List.in_or_app; right; by left|].
      constructor; try done; try lia. apply (pl_file _ _ Hlay); [done|].
      rewrite Hseg. apply List.in_or_app. right. by left.
    + by eapply earlier_payloads.
    + eapply wp_need; [exact Hbs|]. wp_step. cbn.
      split_and!; [done..|]. unfold raw_payloads. rewrite List.map_app. exact Hst'.
  - intros i (Hip & Hie & Hst). rewrite Hip. split_and!; done.
Qed.

(** C2. [PlanGuestLoads] accepts exactly the acceptable images, builds the plan they
    denote, and never reads outside the prefix whatever the bytes are. *)
Theorem PlanGuestLoads_exact prefix file_size include_sce_relro :
  is_u64 file_size ->
  exists p, PlanGuestLoads prefix file_size include_sce_relro = Some p /\
    (plan_valid p = true <-> plan_acceptable prefix file_size include_sce_relro) /\
    (plan_valid p = true -> p = accepted_plan prefix include_sce_relro) /\
    (plan_error p = "" <-> plan_valid p = true).
Proof.
  intros Hs. destruct (PlanGuestLoads_spec prefix file_size include_sce_relro Hs) as
    (p & Hp & [[Hok ->]|(Hno & Hv & He)]); eexists; (split; [exact Hp|]).
  - split; [|split]; done.
  - rewrite Hv. split; [|split]; [done|done|]. split; congruence.
Qed.

(** C3. A valid plan is page aligned and within the image budget, its segments lie in
    the image pairwise disjoint, none is both writable and executable, raw payloads lie
    in the file, and the entry point is in file-backed executable bytes. *)
Theorem PlanGuestLoads_layout prefix file_size include_sce_relro p :
  is_u64 file_size -> PlanGuestLoads prefix file_size include_sce_relro = Some p ->
  plan_valid p = true -> plan_layout file_size p.
Proof.
  intros Hs Hp Hv. destruct (PlanGuestLoads_spec prefix file_size include_sce_relro Hs) as
    (p' & Hp' & [[Hok ->]|(Hno & Hv' & He)]); rewrite Hp in Hp'; simplify_eq;
    [by apply accepted_plan_layout|congruence].
Qed.

(** Staging a raw image never leaves the file or the image buffer; on success every
    byte of the image is the file byte backing it, and zero where no segment is
    file-backed; on failure no image is left. *)
Theorem StageRawGuest_image file :
  zlen file <= U64_MAX ->
  exists i, StageRawGuest file = Some i /\
    (img_error i = "" ->
       plan_valid (img_plan i) = true /\ raw_elf (img_plan i) = true /\
       plan_layout (zlen file) (img_plan i) /\
       staged file (base (img_plan i)) (image_size (img_plan i))
         (raw_payloads (segments (img_plan i))) (img_bytes i)) /\
    (img_error i <> "" -> img_bytes i = []).
Proof.
  intros Hsz. unfold StageRawGuest. apply finish_wp.
  eapply wp_conseq; [by apply stage_raw_wp|..].
  - intros [] i (He & Hl & Hr & Hv & Hst). split; [done|]. by rewrite He.
  - intros e i [He Hb]. cbn. by split.
Qed.

(** ** The loader fixture, end to end *)

(** [for (i = from; i < from + l.size(); ++i) if (!f(i, l[i])) return false;] *)
Fixpoint forallb_from {A} (f : Z -> A -> bool) (i : Z) (l : list A) : bool :=
  match l with
  | [] => true
  | x :: r => f i x && forallb_from f (i + 1) r
  end.

(** [VerifyGuestLoaderFixture] of guest_loader_fixture.h, on the staged fixture. *)
Definition VerifyGuestLoaderFixture (image : GuestStagedImage) : bool :=
  let file := MakeGuestLoaderFixture in
  let expected i :=
    if (0x100 <=? i) && (i <? 0x104) then byte_at file i
    else if (0x4200 <=? i) && (i <? 0x4204) then byte_at file (i - 0x4000) else 0 in
  String.eqb (img_error image) "" && plan_valid (img_plan image) &&
  (base (img_plan image) =? 0x400000) && (entry_offset (img_plan image) =? 0x100) &&
  (zlen (img_bytes image) =? 32768) && (zlen (segments (img_plan image)) =? 2) &&
  forallb (fun '(s, f) => seg_flags s =? f) (zip (segments (img_plan image)) [5; 6]) &&
  forallb_from (fun i b => u8 b =? expected i) 0 (img_bytes image).

Lemma PlanGuestLoads_exact_witness :
  is_u64 0x204 /\
  exists p, PlanGuestLoads MakeGuestLoaderFixture 0x204 false = Some p /\ plan_valid p = true.
Proof.
  assert (Hs : is_u64 0x204) by (apply is_u64_dec; vm_compute; reflexivity).
  split; [exact Hs|].
  destruct (PlanGuestLoads_exact MakeGuestLoaderFixture 0x204 false Hs) as (p & Hp & _).
  exists p. split; [exact Hp|].
  apply (checked_result plan_valid _ _ Hp). vm_compute. reflexivity.
Defined.

Lemma PlanGuestLoads_layout_witness :
  exists p, PlanGuestLoads MakeGuestLoaderFixture 0x204 false = Some p /\ plan_layout 0x204 p.
Proof.
  assert (Hs : is_u64 0x204) by (apply is_u64_dec; vm_compute; reflexivity).
  destruct (PlanGuestLoads_spec MakeGuestLoaderFixture 0x204 false Hs) as (p & Hp & _).
  exists p. split; [exact Hp|].
  apply (PlanGuestLoads_layout MakeGuestLoaderFixture 0x204 false p Hs Hp).
  apply (checked_result plan_valid _ _ Hp). vm_compute. reflexivity.
Defined.

Lemma StageRawGuest_image_witness :
  zlen MakeGuestLoaderFixture <= U64_MAX /\
  exists i, StageRawGuest MakeGuestLoaderFixture = Some i /\ VerifyGuestLoaderFixture i = true.
Proof.
  assert (Hs : zlen MakeGuestLoaderFixture <= U64_MAX) by (vm_compute; congruence).
  split; [exact Hs|].
  destruct (StageRawGuest_image MakeGuestLoaderFixture Hs) as (i & Hi & _).
  exists i. split; [exact Hi|].
  apply (checked_result VerifyGuestLoaderFixture _ _ Hi). vm_compute. reflexivity.
Defined.
