(* ===== verification/Payload.v ===== *)
(** Payload layout and staging: [PlanGuestPayloadFile] and [StageGuestPayload] of
    src/src/core/uwp/guest_payload.h.

    A raw ELF is read at its own offsets; a SELF container is read through its blocked
    segments, which map logical ELF offsets to file offsets. *)
From Stdlib Require Import ZArith Lia.
From Stdlib Require Import Strings.Byte.
From stdpp Require Import base gmap list list_numbers strings.
From S2P Require Import Prelude.
From S2P Require Import Fixtures.
From S2P Require Import Preflight.
From S2P Require Import LoadPlan.

Definition GuestPayloadFileLimit : Z := 33554432.

Record GuestFileRange := mkGuestFileRange {
  logical_offset : Z;
  physical_offset : Z;
  range_size : Z
}.

Record GuestPayload := mkGuestPayload {
  image : GuestStagedImage;
  copied_bytes : Z;
  bss_bytes : Z;
  checksum : Z;
  bss_verified : bool;
  file_ranges : list GuestFileRange;
  load_offsets : list Z
}.
#[export] Instance eta_GuestPayload : Eta GuestPayload := fun p =>
  mkGuestPayload (image p) (copied_bytes p) (bss_bytes p) (checksum p) (bss_verified p)
    (file_ranges p) (load_offsets p).

Definition payload_plan (p : GuestPayload) : GuestLoadPlan := img_plan (image p).

(** [GuestPayload::Ready] *)
Definition Ready (p : GuestPayload) : bool :=
  plan_valid (payload_plan p) && String.eqb (img_error (image p)) "" &&
  negb (match img_bytes (image p) with [] => true | _ => false end) && bss_verified p.

Definition payload_init : GuestPayload :=
  mkGuestPayload (mkGuestStagedImage plan_init [] "") 0 0 0 false [] [].

(** [fail]: sets the error and drops the image bytes. *)
Definition payload_fail (e : string) (p : GuestPayload) : GuestPayload :=
  p <| image ::= fun i => i <| img_error := e |> <| img_bytes := [] |> |>.

(** A SELF block, and the file region it occupies. *)
Record Block := mkBlock { blk_offset : Z; blk_size : Z; present : bool }.

Definition regions_overlap (a_offset a_size b_offset b_size : Z) : bool :=
  negb (a_size =? 0) && negb (b_size =? 0) &&
  (a_offset <? b_offset +64 b_size) && (b_offset <? a_offset +64 a_size).

(** One entry of the SELF segment table: the blocks by program header index and the
    file regions seen so far. *)
Definition self_block (file : list byte) (metadata_end : Z)
    (locals : list Block * list Block) (i : Z) : M GuestPayload (list Block * list Block) :=
  let '(blocks, ranges) := locals in
  flags <- need (read file (32 +64 i *64 32) 8) ;;
  offset <- need (read file (40 +64 i *64 32) 8) ;;
  size <- need (read file (48 +64 i *64 32) 8) ;;
  memory_size <- need (read file (56 +64 i *64 32) 8) ;;
  fail_if ((offset <? metadata_end) || (zlen file <? offset) || (zlen file -64 offset <? size))
    "self_payload_outside_file" ;;;
  forM ranges (fun range =>
    fail_if (regions_overlap offset size (blk_offset range) (blk_size range))
      "overlapping_self_payloads") ;;;
  let block := {| blk_offset := offset; blk_size := size; present := true |} in
  let ranges' := ranges ++ [block] in
  if Z.land flags 0x800 =? 0 then ret (blocks, ranges') else
  let index := Z.land (Z.shiftr flags 20) 0xfff in
  fail_if (zlen blocks <=? index) "self_program_index_outside_table" ;;;
  old <- need (blocks.[index]) ;;
  fail_if (present old) "duplicate_self_program_block" ;;;
  fail_if (negb (size =? memory_size)) "unsupported_self_block_size" ;;;
  ret (<[Z.to_nat index := block]> blocks, ranges').

(** The logical range a present block adds. *)
Definition self_logical_range (file : list byte) (header : GuestPreflight) (phoff : Z)
    (blocks : list Block) (i : Z) : M GuestPayload unit :=
  block <- need (blocks.[i]) ;;
  if negb (present block) then ret tt else
  let ph := elf_offset header +64 phoff +64 i *64 56 in
  logical <- need (read file (ph +64 8) 8) ;;
  size <- need (read file (ph +64 32) 8) ;;
  fail_if ((U64_MAX -64 size <? logical) || negb (size =? blk_size block))
    "self_logical_range_or_size_invalid" ;;;
  known <- gets file_ranges ;;
  forM known (fun range =>
    fail_if (regions_overlap logical size (logical_offset range) (range_size range))
      "overlapping_self_logical_ranges") ;;;
  modify (fun p => p <| file_ranges ::= fun l =>
    l ++ [{| logical_offset := logical; physical_offset := blk_offset block; range_size := size |}] |>).

(** The file offset of one planned segment's payload. *)
Definition self_load_offset (blocks : list Block) (segment : GuestLoadSegment) : M GuestPayload unit :=
  if seg_file_size segment =? 0 then modify (fun p => p <| load_offsets ::= fun l => l ++ [0] |>) else
  block <- need (blocks.[seg_program_index segment]) ;;
  fail_if (negb (present block)) "missing_self_load_block" ;;;
  fail_if (negb (blk_size block =? seg_file_size segment)) "self_load_size_mismatch" ;;;
  modify (fun p => p <| load_offsets ::= fun l => l ++ [blk_offset block] |>).

Definition self_payload (file : list byte) (header : GuestPreflight) (plan : GuestLoadPlan)
    : M GuestPayload unit :=
  fail_if (encrypted_segments header || compressed_segments header)
    "encrypted_or_compressed_self_unsupported" ;;;
  phoff <- need (read file (elf_offset header +64 32) 8) ;;
  let table_end := elf_offset header +64 phoff +64 program_headers header *64 56 in
  m1 <- need (read file 12 2) ;;
  m2 <- need (read file 14 2) ;;
  let metadata_end := m1 +64 m2 in
  fail_if ((metadata_end <? table_end) || (zlen file <? metadata_end))
    "invalid_self_metadata_range" ;;;
  n <- need (read file 24 2) ;;
  locals <- foldM (self_block file metadata_end)
              (filled (program_headers header) {| blk_offset := 0; blk_size := 0; present := false |}, [])
              (indices n) ;;
  forM (indices (zlen (fst locals))) (self_logical_range file header phoff (fst locals)) ;;;
  forM (segments plan) (self_load_offset (fst locals)).

Definition plan_payload (file : list byte) : M GuestPayload unit :=
  fail_if (GuestPayloadFileLimit <? zlen file) "payload_file_budget_exceeded" ;;;
  plan <- need (PlanGuestLoads (prefix_of file) (zlen file) true) ;;
  modify (fun p => p <| image ::= fun i => i <| img_plan := plan |> |>) ;;;
  fail_if (negb (plan_valid plan)) (plan_error plan) ;;;
  header <- need (InspectGuestPrefix (prefix_of file) (zlen file)) ;;
  if raw_elf plan then
    modify (fun p => p <| file_ranges ::= fun l =>
      l ++ [{| logical_offset := 0; physical_offset := 0; range_size := zlen file |}] |>) ;;;
    forM (segments plan) (fun segment =>
      modify (fun p => p <| load_offsets ::= fun l => l ++ [seg_file_offset segment] |>))
  else self_payload file header plan.

Definition PlanGuestPayloadFile (file : list byte) : option GuestPayload :=
  finish payload_fail (plan_payload file) payload_init.

(** ** Staging *)

Definition FnvOffset : Z := 14695981039346656037.
Definition FnvPrime : Z := 1099511628211.
(** The 64-bit FNV-1a fold of the payload's fingerprint. *)
Definition fnv1a (bytes : list byte) : Z :=
  fold_left (fun h b => Z.lxor h (u8 b) *64 FnvPrime) bytes FnvOffset.

Definition stage_payload_segment (file : list byte) (plan : GuestLoadPlan)
    (x : Z * GuestLoadSegment) : M GuestPayload unit :=
  let '(offset, segment) := x in
  bytes <- gets (fun p => img_bytes (image p)) ;;
  bytes' <- need (stage_segment file (base plan) bytes offset segment) ;;
  modify (fun p => p <| image ::= fun i => i <| img_bytes := bytes' |> |>
                     <| copied_bytes ::= fun c => c +64 seg_file_size segment |>
                     <| bss_bytes ::= fun c => c +64 (seg_memory_size segment -64 seg_file_size segment) |>).

(** [std::all_of] over the segment's BSS bytes. *)
Definition verify_bss (plan : GuestLoadPlan) (segment : GuestLoadSegment) : M GuestPayload unit :=
  bytes <- gets (fun p => img_bytes (image p)) ;;
  let start := seg_address segment -64 base plan +64 seg_file_size segment in
  let end_ := seg_address segment -64 base plan +64 seg_memory_size segment in
  bss <- need (slice bytes start (end_ - start)) ;;
  modify (fun p => p <| bss_verified ::= fun v => v && forallb (fun b => u8 b =? 0) bss |>).

Definition stage_payload (payload : GuestPayload) (file : list byte) : M GuestPayload unit :=
  let plan := payload_plan payload in
  modify (fun p => p <| image ::= fun i => i <| img_bytes := filled (image_size plan) Byte.x00 |> |>) ;;;
  forM (indices (zlen (load_offsets payload))) (fun i =>
    segment <- need ((segments plan).[i]) ;;
    offset <- need ((load_offsets payload).[i]) ;;
    stage_payload_segment file plan (offset, segment)) ;;;
  modify (fun p => p <| bss_verified := true |>) ;;;
  forM (segments plan) (verify_bss plan) ;;;
  modify (fun p => p <| checksum := fnv1a (img_bytes (image p)) |>).

Definition StageGuestPayload (file : list byte) : option GuestPayload :=
  match PlanGuestPayloadFile file with
  | None => None
  | Some payload =>
      if negb (plan_valid (payload_plan payload)) || negb (String.eqb (img_error (image payload)) "")
      then Some payload
      else finish payload_fail (stage_payload payload file) payload
  end.

(** * What a payload plan guarantees *)

Section Plan.
Context (file : list byte).
Hypothesis Hlimit : zlen file <= GuestPayloadFileLimit.
Let prefix := prefix_of file.

Lemma prefix_is_take : prefix = take (Z.to_nat (zlen prefix)) file.
Proof.
  unfold prefix, prefix_of at 1. f_equal. unfold prefix_of. rewrite zlen_take.
  pose proof (zlen_nonneg file). unfold GuestPrefixLimit. lia.
Qed.

Lemma zlen_prefix : zlen prefix = Z.min (zlen file) GuestPrefixLimit.
Proof.
  unfold prefix, prefix_of. rewrite zlen_take. pose proof (zlen_nonneg file).
  unfold GuestPrefixLimit. lia.
Qed.

(** Inside the prefix, the file and the prefix hold the same values. *)
Lemma rd_prefix off n :
  0 <= off -> off + Z.of_nat n <= zlen prefix -> rd prefix off n = rd file off n.
Proof.
  intros Ho Hn. pose proof zlen_prefix as Hz. unfold GuestPayloadFileLimit in *.
  unfold rd. rewrite !read_value by u64_lia. cbn. f_equal.
  rewrite prefix_is_take. rewrite skipn_firstn_comm, take_take. f_equal. lia.
Qed.

(** A file region, and two that share no byte. *)
Definition region_in_file (offset size : Z) : Prop :=
  0 <= offset /\ 0 <= size /\ offset + size <= zlen file.

Definition apart (a_offset a_size b_offset b_size : Z) : Prop :=
  a_size = 0 \/ b_size = 0 \/ b_offset + b_size <= a_offset \/ a_offset + a_size <= b_offset.

Lemma regions_overlap_apart ao az bo bz :
  0 <= ao -> 0 <= az -> ao + az <= U64_MAX -> 0 <= bo -> 0 <= bz -> bo + bz <= U64_MAX ->
  regions_overlap ao az bo bz = false -> apart bo bz ao az.
Proof. intros. unfold regions_overlap, apart in *. unwrap_all. lia. Qed.

Definition blocks_apart (a b : Block) : Prop :=
  apart (blk_offset a) (blk_size a) (blk_offset b) (blk_size b).
Definition ranges_apart (a b : GuestFileRange) : Prop :=
  apart (logical_offset a) (range_size a) (logical_offset b) (range_size b).

Definition range_ok (r : GuestFileRange) : Prop :=
  0 <= logical_offset r /\ logical_offset r + range_size r <= U64_MAX /\
  region_in_file (physical_offset r) (range_size r).

(** [offset] is where the file holds the payload of [s], as the ranges map it. *)
Definition payload_source (ranges : list GuestFileRange) (offset : Z) (s : GuestLoadSegment) : Prop :=
  region_in_file offset (seg_file_size s) /\
  (seg_file_size s <> 0 -> exists r, In r ranges /\
     logical_offset r <= seg_file_offset s /\
     seg_file_offset s + seg_file_size s <= logical_offset r + range_size r /\
     offset = physical_offset r + (seg_file_offset s - logical_offset r)).

Record payload_planned (p : GuestPayload) : Prop := {
  pp_error : img_error (image p) = "";
  pp_plan : payload_plan p = accepted_plan prefix true;
  pp_acceptable : plan_acceptable prefix (zlen file) true;
  pp_start : img_bytes (image p) = [] /\ copied_bytes p = 0 /\ bss_bytes p = 0;
  pp_ranges : Forall range_ok (file_ranges p);
  pp_apart : List.ForallOrdPairs ranges_apart (file_ranges p);
  pp_offsets : Forall2 (payload_source (file_ranges p)) (load_offsets p) (segments (payload_plan p))
}.

Definition payload_rejected (e : string) (p : GuestPayload) : Prop :=
  e <> "".

(** ** The SELF block table *)

Section Self.
Hypothesis Hok : plan_acceptable prefix (zlen file) true.
Hypothesis Hself : is_self prefix = true.
Let phnum := header_phnum prefix.
Let p0 : GuestPayload :=
  payload_init <| image ::= fun i => i <| img_plan := accepted_plan prefix true |> |>.

Record blocks_inv (metadata_end : Z) (blocks ranges : list Block) : Prop := {
  bi_length : zlen blocks = phnum;
  bi_present : forall b, In b blocks -> present b = true -> region_in_file (blk_offset b) (blk_size b);
  bi_ranges : forall b, In b ranges ->
    region_in_file (blk_offset b) (blk_size b) /\ metadata_end <= blk_offset b;
  bi_apart : List.ForallOrdPairs blocks_apart ranges
}.

Lemma self_geometry :
  header_phnum prefix = rd file (elf_offset_of prefix + 56) 2 /\
  header_phoff prefix = rd file (elf_offset_of prefix + 32) 8 /\
  elf_offset_of prefix = 32 + rd file 24 2 * 32 /\
  elf_offset_of prefix + 64 <= zlen prefix <= zlen file /\
  0 <= header_phnum prefix <= 65535 /\ 0 <= header_phoff prefix /\
  elf_offset_of prefix + header_phoff prefix + header_phnum prefix * 56 <= zlen prefix.
Proof.
  pose proof (eh_fits _ _ _ (ho_elf _ _ (pa_header _ _ _ Hok))) as Hfit.
  pose proof (pa_table _ _ _ Hok) as Ht. pose proof (elf_offset_of_nonneg prefix) as Hn.
  pose proof (sh_size _ (ho_self _ _ (pa_header _ _ _ Hok) Hself)) as Hsz.
  pose proof (rd_range prefix (elf_offset_of prefix + 56) 2) as R1.
  pose proof (rd_nonneg prefix (elf_offset_of prefix + 32) 8) as R2.
  pose proof (zlen_prefix_of file) as Hp. fold prefix in Hp.
  unfold header_phnum, header_phoff in *.
  split_and!; try lia; try (apply rd_prefix; lia).
  unfold elf_offset_of at 1. rewrite Hself, rd_prefix by lia. done.
Qed.

Lemma self_block_wp metadata_end blocks ranges i :
  0 <= metadata_end <= zlen file -> 0 <= i < rd file 24 2 -> blocks_inv metadata_end blocks ranges ->
  wp (self_block file metadata_end (blocks, ranges) i)
    (fun l p => p = p0 /\ blocks_inv metadata_end (fst l) (snd l)) payload_rejected p0.
Proof.
  intros Hm Hi [Hlen Hpres Hrng Hap]. unfold self_block.
  destruct self_geometry as (Hpn & Hpo & Heo & Hfit & Hpnr & Hpor & Htab).
  pose proof (zlen_nonneg file). unfold GuestPayloadFileLimit in *.

  wp_step; wp_access. wp_step; wp_access. wp_step; wp_access. wp_step; wp_access. name_reads. unwrap_all.
  wp_step; wp_step; [done|]. reflect_bools.
  pose proof (rd_nonneg file (40 + i * 32) 8) as Ro. pose proof (rd_nonneg file (48 + i * 32) 8) as Rs.
  set (o := rd file (40 + i * 32) 8) in *. set (sz := rd file (48 + i * 32) 8) in *. unwrap_all.
  assert (Hreg : region_in_file o sz) by (split; lia).
  apply wp_bind.
  apply wp_forM with (Inv := fun pre p => p = p0 /\ Forall (fun a => apart (blk_offset a) (blk_size a) o sz) pre); [done| |].
  { intros pre b post p Hp [-> Hpre].
    destruct (Hrng b) as [(?&?&?) _]; [rewrite Hp; apply in_elt|].
    wp_go; [done|]. split; [done|]. apply Forall_app. split; [done|]. constructor; [|done].
    apply regions_overlap_apart; try assumption; u64_lia. }
  intros p [-> Hall].
  assert (Hinv' : forall blocks', zlen blocks' = phnum ->
    (forall b, In b blocks' -> present b = true -> region_in_file (blk_offset b) (blk_size b)) ->
    blocks_inv metadata_end blocks' (ranges ++ [mkBlock o sz true])).
  { intros blocks' Hl Hp. split; [done..| |].
    - intros b [Hb|[<-|[]]]%List.in_app_iff; [by apply Hrng|]. split; [done|]. cbn. lia.
    - by apply ForallOrdPairs_snoc. }
  wp_step; [wp_step; split; [done|by apply Hinv']|].
  wp_step; wp_step; [done|]. reflect_bools.
  assert (0 <= Z.land (Z.shiftr (rd file (32 + i * 32) 8) 20) 0xfff) by (apply Z.land_nonneg; right; lia).
  wp_go; try done.
  split; [done|]. apply Hinv'.
  - unfold zlen in *. cbn [fst]. by rewrite length_insert.
  - cbn [fst]. intros b Hb%list_elem_of_In Hbp.
    apply list_elem_of_lookup in Hb as (k & Hk).
    apply list_lookup_insert_Some in Hk as [(_ & <- & _)|(_ & Hk)]; [done|].
    apply Hpres; [|done]. apply list_elem_of_In. by eapply list_elem_of_lookup_2.
Qed.

(** The ranges of the blocks up to an index, and what they say of the headers. *)
Record logical_inv (blocks : list Block) (pre : list Z) (p : GuestPayload) : Prop := {
  lv_frame : p = p0 <| file_ranges := file_ranges p |>;
  lv_ranges : Forall range_ok (file_ranges p);
  lv_apart : List.ForallOrdPairs ranges_apart (file_ranges p);
  lv_mapped : forall i b, i ∈ pre -> blocks.[i] = Some b -> present b = true ->
    blk_size b = seg_file_size (segment_of prefix i) /\ In (mkGuestFileRange (seg_file_offset (segment_of prefix i)) (blk_offset b) (blk_size b)) (file_ranges p)
}.

Lemma self_ph i :
  0 <= i < phnum ->
  elf_offset (accepted_header prefix) +64 header_phoff prefix +64 i *64 56 = ph prefix i /\ 0 <= ph prefix i /\ ph prefix i + 56 <= zlen prefix.
Proof.
  intros Hi. destruct self_geometry as (Hpn & Hpo & Heo & Hfit & Hpnr & Hpor & Htab).
  unfold phnum in *. pose proof (elf_offset_of_nonneg prefix). unfold GuestPayloadFileLimit in *.
  change (elf_offset (accepted_header prefix)) with (elf_offset_of prefix).
  unfold ph. unwrap. split; [done|lia].
Qed.

Lemma self_logical_range_wp metadata_end blocks ranges i pre p :
  blocks_inv metadata_end blocks ranges -> 0 <= i < phnum -> logical_inv blocks pre p ->
  wp (self_logical_range file (accepted_header prefix) (header_phoff prefix) blocks i)
    (fun _ => logical_inv blocks (pre ++ [i])) payload_rejected p.
Proof.
  intros [Hlen Hpres _ _] Hi Hinv. unfold self_logical_range.
  destruct self_geometry as (_ & _ & _ & Hfit & _).
  destruct (self_ph i Hi) as (-> & Hph & Hpe). unfold GuestPayloadFileLimit in *.
  destruct Hinv as [Hp Hr Ha Hmap].
  wp_step. wp_access. wp_step.
  { wp_step. split; try done. intros j b [Hj|Hj%list_elem_of_singleton]%elem_of_app; [by apply Hmap|subst j].
    intros ?. simplify_eq. intros Hb. by rewrite Hb in *. }
  wp_step. wp_access. wp_step. wp_access. name_reads. unwrap_all.
  assert (E8 : rd file (ph prefix i + 8) 8 = seg_file_offset (segment_of prefix i)).
  { unfold segment_of; cbn [seg_file_offset]. symmetry. apply rd_prefix; lia. }
  assert (E32 : rd file (ph prefix i + 32) 8 = seg_file_size (segment_of prefix i)).
  { unfold segment_of; cbn [seg_file_size]. symmetry. apply rd_prefix; lia. }
  rewrite E8, E32 in *. pose proof (segment_of_range prefix i) as (? & _ & ? & _).
  wp_step; wp_step; [done|]. wp_step; wp_step. reflect_bools. unwrap_all.
  destruct (Hpres x) as (?&?&?); [by apply list_elem_of_In; eapply at_index_elem|done|].
  apply wp_bind.
  apply wp_forM with (Inv := fun pre t => t = p /\
    Forall (fun a => apart (logical_offset a) (range_size a) (seg_file_offset (segment_of prefix i)) (seg_file_size (segment_of prefix i))) pre); [done| |].
  { intros pre' r post t Hpr [-> Hpre].
    destruct (proj1 (List.Forall_forall _ _) Hr r) as (?&?&?&?&?); [rewrite Hpr; apply in_elt|].
    wp_go; [done|]. split; [done|]. apply Forall_app. split; [done|]. constructor; [|done].
    apply regions_overlap_apart; try assumption; u64_lia. }
  intros t [-> Hall]. wp_step.
  change (rd prefix (ph prefix i + 8) 8) with (seg_file_offset (segment_of prefix i)).
  change (rd prefix (ph prefix i + 32) 8) with (seg_file_size (segment_of prefix i)).
  destruct p as [pi pc pb pch pv pr po]. cbn [file_ranges] in *. split; cbn [file_ranges].
  - injection Hp as -> -> -> -> -> ->. reflexivity.
  - apply Forall_app. split; [done|]. constructor; [|done]. unfold range_ok, region_in_file; cbn [logical_offset physical_offset range_size]. u64_lia.
  - apply ForallOrdPairs_snoc. done.
  - intros j b [Hj|Hj%list_elem_of_singleton]%elem_of_app Hb Hpb.
    + destruct (Hmap j b Hj Hb Hpb). split; [done|]. apply List.in_app_iff. by left.
    + subst j. simplify_eq. split; [done|]. apply List.in_app_iff. right. left. f_equal. done.
Qed.

(** The offsets of the segments done. *)
Record offsets_inv (p1 : GuestPayload) (pre : list GuestLoadSegment) (p : GuestPayload) : Prop := {
  ov_frame : p = p1 <| load_offsets := load_offsets p |>;
  ov_offsets : Forall2 (payload_source (file_ranges p1)) (load_offsets p) pre
}.

Lemma self_load_offset_wp metadata_end blocks ranges p1 s pre p :
  blocks_inv metadata_end blocks ranges -> logical_inv blocks (indices phnum) p1 ->
  In s (segments (accepted_plan prefix true)) -> offsets_inv p1 pre p ->
  wp (self_load_offset blocks s) (fun _ => offsets_inv p1 (pre ++ [s])) payload_rejected p.
Proof.
  intros [Hlen Hpres _ _] Hlog Hs [Hp Hoff]. unfold self_load_offset.
  destruct (accepted_plan_segment _ _ _ s Hok Hs) as (i & Hi & Hsi & _).
  pose proof (segment_of_range prefix i) as (_ & _ & Rf & _). rewrite <- Hsi in Rf.
  pose proof (zlen_nonneg file).
  assert (Hadd : forall o, payload_source (file_ranges p1) o s ->
    offsets_inv p1 (pre ++ [s]) (p <| load_offsets ::= fun l => l ++ [o] |>)).
  { intros o Ho. destruct p as [pi pc pb pch pv pr po]. cbn in *. split; cbn.
    - injection Hp as -> -> -> -> -> ->. reflexivity.
    - apply Forall2_app; [exact Hoff|]. constructor; [exact Ho|constructor]. }
  wp_step; [wp_step; apply Hadd; split; [split; lia|lia]|].
  assert (Hidx : seg_program_index s = i) by (by subst s). rewrite Hidx.
  wp_go; [discriminate|discriminate|]. reflect_bools.
  apply Hadd. destruct (lv_mapped _ _ _ Hlog i x) as [Hx Hin]; [by apply elem_of_indices|done..|].
  rewrite <- Hsi in Hx, Hin. rewrite Hx in Hin.
  destruct (Hpres x) as (?&?&?); [by apply list_elem_of_In; eapply at_index_elem|done|].
  split; [split; lia|]. intros _. eexists. split; [exact Hin|]. cbn. lia.
Qed.

Lemma self_payload_wp :
  wp (self_payload file (accepted_header prefix) (accepted_plan prefix true))
    (fun _ => payload_planned) payload_rejected p0.
Proof.
  unfold self_payload. destruct self_geometry as (Hpn & Hpo & Heo & Hfit & Hpnr & Hpor & Htab).
  pose proof (elf_offset_of_nonneg prefix). unfold GuestPayloadFileLimit in *.
  change (elf_offset (accepted_header prefix)) with (elf_offset_of prefix).
  change (program_headers (accepted_header prefix)) with phnum.
  pose proof (rd_range file 12 2). pose proof (rd_range file 14 2).
  wp_step; wp_step; [done|]. wp_step; wp_access. wp_step; wp_access. wp_step; wp_access.
  name_reads. unwrap_all. rewrite <- Hpo in *.
  wp_step; wp_step; [done|]. unwrap_all. wp_step; wp_access. name_reads. reflect_bools.
  set (me := rd file 12 2 + rd file 14 2) in *.
  apply wp_bind. apply wp_foldM with (Inv := fun _ l p => p = p0 /\ blocks_inv me (fst l) (snd l)).
  - split; [done|]. split; cbn.
    + apply zlen_filled. unfold phnum. lia.
    + intros b Hb. unfold filled in Hb.
      apply list_elem_of_In, elem_of_replicate in Hb as [-> _]. done.
    + done.
    + constructor.
  - intros pre j post [blocks ranges] p Hj [-> Hinv]. apply indices_split in Hj as (_ & Hj & _).
    apply self_block_wp; [lia|lia|done].
  - intros [blocks ranges] p [-> Hinv]. cbn [fst snd] in *.
    apply wp_bind. rewrite (bi_length _ _ _ Hinv).
    apply wp_forM with (Inv := logical_inv blocks).
    + split; cbn; [done|constructor|constructor|]. intros j b Hj. by apply not_elem_of_nil in Hj.
    + intros pre j post p Hj Hl. apply indices_split in Hj as (_ & Hj & _).
      by eapply self_logical_range_wp.
    + intros p1 Hl. apply wp_forM with (Inv := offsets_inv p1).
      * split; [|destruct Hl as [-> _ _ _]; constructor]. destruct Hl as [-> _ _ _]. reflexivity.
      * intros pre s post p Hs Ho. eapply self_load_offset_wp; [exact Hinv|exact Hl| |exact Ho]. rewrite Hs. apply in_elt.
      * intros p [Hp Ho]. destruct Hl as [Hp1 Hr Ha _].
        rewrite Hp. rewrite Hp1 in *. split; try done. 
Qed.
End Self.

Lemma plan_payload_wp : wp (plan_payload file) (fun _ => payload_planned) payload_rejected payload_init.
Proof.
  unfold plan_payload. pose proof (zlen_nonneg file).
  assert (Hu : is_u64 (zlen file)) by (unfold GuestPayloadFileLimit in *; u64_lia).
  wp_step; wp_step; [discriminate|]. apply wp_bind.
  destruct (PlanGuestLoads_spec prefix (zlen file) true Hu) as (plan & Hp & Hcase).
  eapply wp_need; [exact Hp|]. cbn beta. wp_step; wp_step.
  destruct Hcase as [[Hok Hplan]|(_ & Hv & He)]; cycle 1.
  { wp_step; wp_step; [exact He|]. by rewrite Hv in *. }
  assert (Hv : plan_valid plan = true) by (by subst plan).
  wp_step; wp_step; [by rewrite Hv in *|]. apply wp_bind.
  destruct (InspectGuestPrefix_spec prefix (zlen file) Hu) as (header & Hh & [[_ ->]|(Hno & _)]);
    [|destruct (Hno (pa_header _ _ _ Hok))].
  eapply wp_need; [exact Hh|]. cbn beta.
  destruct (raw_elf plan) eqn:Hraw; cycle 1.
  { subst plan. apply self_payload_wp; [exact Hok|]. by apply negb_false_iff. }
  pose proof (accepted_plan_layout _ _ _ Hok) as Hlay. rewrite <- Hplan in Hlay.
  wp_step; wp_step.
  apply wp_forM with (Inv := offsets_inv
    (payload_init <| image ::= fun i => i <| img_plan := plan |> |>
                  <| file_ranges := [mkGuestFileRange 0 0 (zlen file)] |>)).
  - split; [reflexivity|constructor].
  - intros pre s post p Hs [Hpp Ho]. wp_step.
    assert (Hin : In s (segments plan)) by (rewrite Hs; apply in_elt).
    destruct (pl_segment _ _ Hlay s Hin) as (_&_&Hsz&_&_&Hfo&_).
    pose proof (pl_file _ _ Hlay Hraw s Hin) as Hf. u64_unfold.
    rewrite Hpp. split; [reflexivity|]. cbn. apply Forall2_app; [exact Ho|]. constructor; [|constructor].
    split; [split; lia|]. intros _. eexists. split; [by left|]. cbn. lia.
  - intros p [-> Ho]. split; cbn; try done.
    + constructor; [|constructor]. unfold range_ok, region_in_file. cbn. u64_lia.
    + repeat constructor.
Qed.
End Plan.

Lemma PlanGuestPayloadFile_spec file :
  exists p, PlanGuestPayloadFile file = Some p /\
    ((zlen file <= GuestPayloadFileLimit /\ payload_planned file p) \/
     (img_error (image p) <> "" /\ img_bytes (image p) = [])).
Proof.
  unfold PlanGuestPayloadFile. apply finish_wp.
  destruct (decide (zlen file <= GuestPayloadFileLimit)).
  - eapply wp_conseq; [by apply plan_payload_wp|by left|by right].
  - unfold plan_payload. wp_step. wp_step; [right; done|]. reflect_bools. lia.
Qed.

(** * Correctness of the payload stager *)

(** The payloads of a plan, paired with their file offsets. *)
Definition payloads (p : GuestPayload) : list (Z * GuestLoadSegment) :=
  zip (load_offsets p) (segments (payload_plan p)).

Definition total (f : GuestLoadSegment -> Z) (l : list (Z * GuestLoadSegment)) : Z :=
  fold_right (fun x acc => f (snd x) + acc) 0 l.
Definition bss_size (s : GuestLoadSegment) : Z := seg_memory_size s - seg_file_size s.

Lemma total_snoc f l x : total f (l ++ [x]) = total f l + f (snd x).
Proof. unfold total. induction l as [|y l IH]; simpl; lia. Qed.

Record payload_staged (file : list byte) (p : GuestPayload) : Prop := {
  ps_error : img_error (image p) = "";
  ps_limit : zlen file <= GuestPayloadFileLimit;
  ps_plan : payload_plan p = accepted_plan (prefix_of file) true;
  ps_valid : plan_valid (payload_plan p) = true;
  ps_layout : plan_layout (zlen file) (payload_plan p);
  ps_sources : Forall2 (payload_source file (file_ranges p)) (load_offsets p) (segments (payload_plan p));
  ps_image : staged file (base (payload_plan p)) (image_size (payload_plan p)) (payloads p)
               (img_bytes (image p));
  ps_counts : copied_bytes p = total seg_file_size (payloads p) /\ bss_bytes p = total bss_size (payloads p);
  ps_bss : bss_verified p = true;
  ps_checksum : checksum p = fnv1a (img_bytes (image p))
}.

(** Bytes of a segment past its payload are backed by no payload of the plan. *)
Lemma backing_bss image_base l f s k :
  List.ForallOrdPairs disjoint_segments (List.map snd l) ->
  Forall (fun x => seg_file_size (snd x) <= seg_memory_size (snd x)) l -> In (f, s) l ->
  0 <= seg_file_size s ->
  seg_address s + seg_file_size s <= image_base + k < seg_end s -> backing image_base l k = None.
Proof.
  intros Hd Hsz Hin Hf Hk.
  assert (Hall : forall x, In x l -> snd x = s \/ disjoint_segments (snd x) s \/ disjoint_segments s (snd x)).
  { intros x Hx. apply (List.ForallOrdPairs_In Hd).
    - by apply List.in_map.
    - apply List.in_map_iff. by exists (f, s). }
  clear Hd Hin. induction l as [|[g a] l IH]; [done|]. cbn [backing].
  apply Forall_cons in Hsz as [Ha Hsz]. cbn [snd] in Ha.
  rewrite IH; [|done|intros; apply Hall; by right].
  destruct (_ && _) eqn:E; [|done]. reflect_bools.
  destruct (Hall (g, a)) as [Heq|Hdis]; [by left| |]; cbn [snd] in *; [subst; lia|].
  unfold disjoint_segments, seg_end in *. lia.
Qed.

Section Stage.
Context (file : list byte) (p0 : GuestPayload).
Hypothesis Hlimit : zlen file <= GuestPayloadFileLimit.
Hypothesis Hplanned : payload_planned file p0.
Let plan := payload_plan p0.
Let xs := payloads p0.

Lemma staged_layout : plan_valid plan = true /\ plan_layout (zlen file) plan.
Proof.
  unfold plan. rewrite (pp_plan _ _ Hplanned). split; [done|].
  apply accepted_plan_layout, (pp_acceptable _ _ Hplanned).
Qed.

Lemma planned_count : zlen (segments plan) <= 128.
Proof.
  unfold plan. rewrite (pp_plan _ _ Hplanned). pose proof (pa_count _ _ _ (pp_acceptable _ _ Hplanned)) as Hn.
  unfold accepted_plan, planned_segments, zlen. cbn [segments].
  pose proof (List.filter_length_le (planned true) (List.map (segment_of (prefix_of file)) (indices (header_phnum (prefix_of file))))) as Hf.
  rewrite List.length_map in Hf. unfold indices in Hf at 2. rewrite length_fmap, length_seq in Hf. lia.
Qed.

Lemma payloads_snd : List.map snd xs = segments plan.
Proof.
  pose proof (Forall2_length _ _ _ (pp_offsets _ _ Hplanned)) as Hl.
  unfold xs, payloads, plan. transitivity (snd <$> zip (load_offsets p0) (segments (payload_plan p0))).
  - reflexivity.
  - apply snd_zip. lia.
Qed.

Lemma payloads_length : zlen xs = zlen (load_offsets p0) /\ zlen xs = zlen (segments plan).
Proof.
  pose proof (Forall2_length _ _ _ (pp_offsets _ _ Hplanned)) as Hl.
  unfold xs, payloads, plan, zlen. rewrite length_zip_with. lia.
Qed.

Lemma payloads_source o s : In (o, s) xs -> payload_source file (file_ranges p0) o s.
Proof.
  intros Hin. unfold xs, payloads in Hin. apply list_elem_of_In, list_elem_of_lookup in Hin as (k & Hk).
  apply lookup_zip_with_Some in Hk as (o' & s' & [= -> ->] & Ho & Hs).
  pose proof (pp_offsets _ _ Hplanned) as Hf. rewrite Forall2_lookup in Hf. specialize (Hf k).
  rewrite Ho, Hs in Hf. by inversion Hf.
Qed.

Lemma payloads_segment o s : In (o, s) xs -> In s (segments plan).
Proof. intros H. rewrite <- payloads_snd. apply List.in_map_iff. by exists (o, s). Qed.

Lemma payloads_sizes : Forall (fun x => seg_file_size (snd x) <= seg_memory_size (snd x)) xs.
Proof.
  apply List.Forall_forall. intros [o s] Hin%payloads_segment.
  apply (pl_segment _ _ (proj2 staged_layout)) in Hin as (_&_&?&_). cbn. lia.
Qed.

Record stage_inv (pre : list (Z * GuestLoadSegment)) (p : GuestPayload) : Prop := {
  si_frame : img_plan (image p) = plan /\ img_error (image p) = "" /\ load_offsets p = load_offsets p0 /\
             file_ranges p = file_ranges p0;
  si_image : staged file (base plan) (image_size plan) pre (img_bytes (image p));
  si_counts : copied_bytes p = total seg_file_size pre /\ bss_bytes p = total bss_size pre
}.

Lemma totals_bound pre post :
  xs = pre ++ post ->
  0 <= total seg_file_size pre <= zlen pre * GuestImageLimit /\
  0 <= total bss_size pre <= zlen pre * GuestImageLimit /\ zlen pre <= 128.
Proof.
  intros Hx. assert (zlen pre <= 128).
  { pose proof planned_count. pose proof (proj2 payloads_length) as Hl.
    rewrite Hx, zlen_app in Hl. pose proof (zlen_nonneg post). lia. }
  split_and!; try lia.
  all: assert (Hin : forall x, In x pre -> In x xs) by (intros; rewrite Hx; apply List.in_or_app; by left).
  all: clear Hx H; induction pre as [|[o s] pre IH]; [done|..]; try (cbn; lia).
  all: assert (In s (segments plan)) as Hs by (apply (payloads_segment o), Hin; by left).
  all: apply (pl_segment _ _ (proj2 staged_layout)) in Hs as (?&?&?&_).
  all: pose proof (pl_size _ _ (proj2 staged_layout)) as [? _].
  all: specialize (IH ltac:(intros; apply Hin; by right)).
  all: unfold total, zlen, bss_size, seg_end in *; cbn [fold_right snd length]; lia.
Qed.

(** The payloads copied so far are disjoint from the next one. *)
Lemma payloads_before pre o s post :
  xs = pre ++ (o, s) :: post ->
  Forall (fun '(_, a) => disjoint_segments a s /\ seg_file_size a <= seg_memory_size a) pre.
Proof.
  intros Hx. pose proof (pl_disjoint _ _ (proj2 staged_layout)) as Hd.
  rewrite <- payloads_snd, Hx, List.map_app in Hd. cbn in Hd. apply ForallOrdPairs_mid in Hd.
  apply List.Forall_forall. intros [o' a] Ha. split.
  - eapply List.Forall_forall in Hd; [exact Hd|]. apply List.in_map_iff. by exists (o', a).
  - apply (proj1 (List.Forall_forall _ _) payloads_sizes (o', a)).
    rewrite Hx. apply List.in_or_app. by left.
Qed.

Lemma payloads_fit o s : In (o, s) xs -> payload_fits file (base plan) (image_size plan) o s.
Proof.
  intros Hin. destruct (payloads_source _ _ Hin) as [(?&?&?) _].
  apply payloads_segment in Hin. pose proof (pl_base _ _ (proj2 staged_layout)) as [? _].
  destruct (pl_segment _ _ (proj2 staged_layout) s Hin) as (?&?&?&?&?&_). constructor; lia.
Qed.

Lemma stage_payload_segment_wp pre x post p :
  xs = pre ++ x :: post -> stage_inv pre p ->
  wp (stage_payload_segment file plan x) (fun _ => stage_inv (pre ++ [x]))
    (fun _ _ => False) p.
Proof.
  intros Hx [Hf Hst [Hc Hb]]. destruct x as [o s]. unfold stage_payload_segment.
  assert (Hin : In (o, s) xs) by (rewrite Hx; apply in_elt).
  pose proof (payloads_fit _ _ Hin) as Hfit.
  destruct (totals_bound pre ((o, s) :: post) Hx) as (Rc & Rb & Hn).
  destruct (stage_segment_staged file (base plan) (image_size plan) pre (img_bytes (image p)) o s)
    as (bytes' & Hbytes & Hst'); [done..|by eapply payloads_before|].
  wp_step; wp_step. wp_step. eapply wp_need; [exact Hbytes|]. wp_step.
  apply payloads_segment in Hin. pose proof (pl_size _ _ (proj2 staged_layout)) as [? _].
  destruct (pl_segment _ _ (proj2 staged_layout) s Hin) as (?&?&?&?&?&_).
  destruct p as [[pp pbytes pe] pc pb pch pv pr po]. cbn in *. unfold seg_end, GuestImageLimit in *.
  split; cbn; [done|exact Hst'|].
  rewrite !total_snoc, Hc, Hb. cbn [snd].
  change (bss_size s) with (seg_memory_size s - seg_file_size s). unwrap. split; lia.
Qed.

Lemma verify_bss_wp o s p :
  In (o, s) xs -> stage_inv xs p -> bss_verified p = true ->
  wp (verify_bss plan s) (fun _ q => stage_inv xs q /\ bss_verified q = true) (fun _ _ => False) p.
Proof.
  intros Hin [Hf [Hlen Hst] Hc] Hv. unfold verify_bss. pose proof Hin as Hs.
  apply payloads_segment in Hs. pose proof (pl_base _ _ (proj2 staged_layout)) as [? _].
  pose proof (pl_size _ _ (proj2 staged_layout)) as [? _].
  destruct (pl_segment _ _ (proj2 staged_layout) s Hs) as (?&?&?&?&?&_).
  unfold seg_end, GuestImageLimit in *. wp_step; wp_step. unwrap. wp_step.
  apply wp_slice; [lia..|]. intros bss _ Hbl Hbs. wp_step.
  split; [|destruct p as [[pp pbytes pe] pc pb pch pv pr po]; cbn in *; rewrite Hv; cbn].
  - destruct p as [[pp pbytes pe] pc pb pch pv pr po]. cbn in *. by split.
  - apply forallb_forall. intros b Hb%list_elem_of_In.
    apply list_elem_of_lookup in Hb as (k & Hk). rewrite <- at_index_nat in Hk.
    pose proof (at_index_range _ _ _ Hk) as Rk.
    rewrite Hbs in Hk by lia. rewrite Hst in Hk by lia.
    rewrite (backing_bss (base plan) xs o s) in Hk; [by injection Hk as <-| | |done|lia|unfold seg_end; lia].
    + rewrite payloads_snd. apply (pl_disjoint _ _ (proj2 staged_layout)).
    + apply payloads_sizes.
Qed.

Lemma stage_payload_wp :
  wp (stage_payload p0 file)
    (fun _ p => payload_staged file p /\ img_bytes (image p) <> []) (fun _ _ => False) p0.
Proof.
  unfold stage_payload. fold plan.
  destruct payloads_length as [Hl1 Hl2]. pose proof (pl_size _ _ (proj2 staged_layout)) as [? _].
  destruct (pp_start _ _ Hplanned) as (Hb & Hc & Hbs). pose proof (pp_error _ _ Hplanned) as He.
  wp_step; wp_step. wp_step. rewrite <- Hl1.
  apply wp_forM with (Inv := fun pre p => stage_inv (take (length pre) xs) p).
  { split; cbn; [done| |done].
    apply staged_init. lia. }
  { intros pre i post p Hi Hinv. apply indices_split in Hi as (-> & Hi & _).
    unfold zlen in Hi. destruct (lookup_lt_is_Some_2 xs (length pre)) as [[o s] Hx]; [lia|].
    assert (Hsplit : xs = take (length pre) xs ++ (o, s) :: drop (S (length pre)) xs)
      by (by rewrite take_drop_middle).
    pose proof Hx as Hx'. apply lookup_zip_with_Some in Hx' as (o' & s' & [= <- <-] & Ho & Hs).
    wp_step. eapply wp_need; [unfold zlen; rewrite at_index_nat; exact Hs|].
    wp_step. eapply wp_need; [unfold zlen; rewrite at_index_nat; exact Ho|].
    eapply wp_conseq; [exact (stage_payload_segment_wp _ (o, s) _ p Hsplit Hinv)| |done].
    intros [] t Ht. rewrite length_app, Nat.add_1_r. by erewrite take_S_r. }
  intros p Hinv. unfold indices in Hinv. rewrite length_fmap, length_seq in Hinv.
  rewrite firstn_all2 in Hinv by (unfold zlen; lia).
  wp_step; wp_step. wp_step.
  apply wp_forM with (Inv := fun _ q => stage_inv xs q /\ bss_verified q = true).
  { destruct p as [pi pc pb pch pv pr po]. cbn in *. by destruct Hinv as [? ? ?]. }
  { intros pre s post q Hs [Hq Hv].
    assert (Hin : In s (List.map snd xs)) by (rewrite payloads_snd, Hs; apply in_elt).
    apply List.in_map_iff in Hin as ([o s'] & <- & Hin). by eapply verify_bss_wp. }
  intros q [[(Hqp & Hqe & Hqo & Hqr) Hst Hct] Hqv]. wp_step.
  destruct staged_layout as [Hv Hlay].
  destruct q as [[qp qbytes qe] qc qb qch qv qr qo]. cbn in *. subst qp qo qr. split.
  - split; cbn; try done; [apply (pp_plan _ _ Hplanned)|apply (pp_offsets _ _ Hplanned)].
  - intros ->. destruct Hst as [Hz _]. unfold zlen in Hz. cbn in Hz. lia.
Qed.
End Stage.

Lemma StageGuestPayload_spec file :
  exists p, StageGuestPayload file = Some p /\
    ((payload_staged file p /\ img_bytes (image p) <> []) \/
     (img_error (image p) <> "" /\ img_bytes (image p) = [])).
Proof.
  unfold StageGuestPayload.
  destruct (PlanGuestPayloadFile_spec file) as (p & -> & [[Hlim Hp]|[He Hb]]).
  - rewrite (proj1 (staged_layout file p Hp)), (pp_error _ _ Hp). cbn [negb orb String.eqb].
    apply finish_wp. eapply wp_conseq; [by apply stage_payload_wp|by left|done].
  - rewrite (proj2 (String.eqb_neq _ _) He), orb_true_r. eauto.
Qed.

(** Planning a payload file never reads outside it; a plan without error is the
    plan of an acceptable image, gives every segment the file offset its logical range
    maps it to, inside the file, and keeps the logical ranges apart. *)
Theorem PlanGuestPayloadFile_sources file :
  exists p, PlanGuestPayloadFile file = Some p /\
    (img_error (image p) = "" -> payload_planned file p) /\
    (img_error (image p) <> "" -> img_bytes (image p) = []).
Proof.
  destruct (PlanGuestPayloadFile_spec file) as (p & Hp & [[_ Hok]|[He Hb]]); exists p;
    (split; [exact Hp|]).
  - by rewrite (pp_error _ _ Hok).
  - done.
Qed.

(** C4. Staging a payload never leaves the file or the image: without error the image
    holds exactly the segments' file bytes over zeroes, the byte counts are the exact
    sums, the BSS check succeeds and the checksum is that of the image; [Ready] holds
    exactly when there is no error, and an error leaves no image. *)
Theorem StageGuestPayload_staged file :
  exists p, StageGuestPayload file = Some p /\
    (Ready p = true <-> img_error (image p) = "") /\
    (Ready p = true -> payload_staged file p) /\
    (Ready p = false -> img_bytes (image p) = []).
Proof.
  destruct (StageGuestPayload_spec file) as (p & Hp & [[Hok Hne]|[He Hb]]); exists p;
    (split; [exact Hp|]).
  - assert (Hr : Ready p = true).
    { unfold Ready. rewrite (ps_valid _ _ Hok), (ps_error _ _ Hok), (ps_bss _ _ Hok).
      by destruct (img_bytes (image p)). }
    rewrite Hr, (ps_error _ _ Hok). done.
  - assert (Hr : Ready p = false).
    { unfold Ready. rewrite Hb. cbn. by rewrite andb_false_r. }
    rewrite Hr. done.
Qed.

(** The fixture of guest_payload_fixture.h, a SELF container, is planned and staged. *)
Lemma PlanGuestPayloadFile_sources_witness :
  exists p, PlanGuestPayloadFile MakeGuestPayloadFixture = Some p /\
    payload_planned MakeGuestPayloadFixture p.
Proof.
  destruct (PlanGuestPayloadFile_sources MakeGuestPayloadFixture) as (p & Hp & Hok & _).
  exists p. split; [exact Hp|]. apply Hok, String.eqb_eq.
  apply (checked_result (fun q => String.eqb (img_error (image q)) "") _ _ Hp).
  vm_compute. reflexivity.
Defined.

Lemma StageGuestPayload_staged_witness :
  exists p, StageGuestPayload MakeGuestPayloadFixture = Some p /\
    payload_staged MakeGuestPayloadFixture p.
Proof.
  destruct (StageGuestPayload_staged MakeGuestPayloadFixture) as (p & Hp & _ & Hok & _).
  exists p. split; [exact Hp|]. apply Hok.
  apply (checked_result Ready _ _ Hp). vm_compute. reflexivity.
Defined.
