(* ===== verification/LinkManifest.v ===== *)
(** The link manifest: [InspectGuestLinkManifest] of
    src/src/core/uwp/guest_link_manifest.h.

    An inventory of the dynamic tables of a planned payload: dependency names,
    symbols, imports and relocations. It neither links nor executes anything. *)
From Stdlib Require Import ZArith Lia.
From Stdlib Require Import Strings.Byte.
From stdpp Require Import base gmap list list_numbers strings.
From S2P Require Import Prelude.
From S2P Require Import Fixtures.
From S2P Require Import Preflight.
From S2P Require Import LoadPlan.
From S2P Require Import Payload.

Record GuestLinkSymbol := mkGuestLinkSymbol {
  sym_address : Z;
  sym_size : Z;
  sym_section : Z;
  sym_binding : Z;
  sym_type : Z
}.
Record GuestLinkRelocation := mkGuestLinkRelocation {
  rel_address : Z;
  rel_addend_bits : Z;
  rel_type : Z;
  rel_symbol : Z
}.
(** Names are byte strings. *)
Record GuestLinkDependency := mkGuestLinkDependency { dep_name : list byte; dep_packed : Z }.

Record GuestLinkManifest := mkGuestLinkManifest {
  man_valid : bool;
  man_error : string;
  dynamic_entries : Z;
  man_symbols : Z;
  relocations : Z;
  relative : Z;
  jump_slots : Z;
  symbol_relocations : Z;
  tls_relocations : Z;
  other_relocations : Z;
  target_checks : Z;
  undefined_functions : Z;
  undefined_objects : Z;
  undefined_other : Z;
  tls_segments : Z;
  tls_address : Z;
  tls_file_bytes : Z;
  tls_memory_bytes : Z;
  tls_alignment : Z;
  needed : list (list byte);
  modules : list (list byte);
  libraries : list (list byte);
  man_imports : list (list byte);
  symbol_records : list GuestLinkSymbol;
  relocation_records : list GuestLinkRelocation;
  module_records : list GuestLinkDependency;
  library_records : list GuestLinkDependency;
  import_symbol_indices : list Z
}.
#[export] Instance eta_GuestLinkManifest : Eta GuestLinkManifest := fun r =>
  mkGuestLinkManifest (man_valid r) (man_error r) (dynamic_entries r) (man_symbols r)
    (relocations r) (relative r) (jump_slots r) (symbol_relocations r) (tls_relocations r)
    (other_relocations r) (target_checks r) (undefined_functions r) (undefined_objects r)
    (undefined_other r) (tls_segments r) (tls_address r) (tls_file_bytes r)
    (tls_memory_bytes r) (tls_alignment r) (needed r) (modules r) (libraries r)
    (man_imports r) (symbol_records r) (relocation_records r) (module_records r)
    (library_records r) (import_symbol_indices r).

(** [GuestLinkManifest result;] *)
Definition manifest_init : GuestLinkManifest :=
  mkGuestLinkManifest false "" 0 0 0 0 0 0 0 0 0 0 0 0 0 0 0 0 0 [] [] [] [] [] [] [] [] [].
Definition manifest_fail (e : string) (r : GuestLinkManifest) : GuestLinkManifest :=
  r <| man_error := e |>.

(** The offsets of [for (offset = 0; offset < size; offset += step)]. *)
Definition strided (size step : Z) : list Z :=
  List.map (fun i => i * step) (indices ((size + step - 1) / step)).

(** ** Address and offset domains *)

(** [mapped(address, size)]: the range lies in one planned segment. *)
Definition mapped (segs : list GuestLoadSegment) (address size : Z) : bool :=
  existsb (fun segment =>
    (seg_address segment <=? address) &&
    (address -64 seg_address segment <=? seg_memory_size segment) &&
    (size <=? seg_memory_size segment -64 (address -64 seg_address segment))) segs.

(** [logical_slice(offset, size)]: the file bytes of a range of the ELF's logical file
    domain, empty unless exactly one file range holds it. *)
Definition logical_slice_step (file : list byte) (offset size : Z)
    (acc : option (list byte * Z)) (range : GuestFileRange) : option (list byte * Z) :=
  '(found, matches) ← acc;
  if (offset <? logical_offset range) ||
     (range_size range <? offset -64 logical_offset range) ||
     (range_size range -64 (offset -64 logical_offset range) <? size)
  then Some (found, matches) else
  let physical := physical_offset range +64 (offset -64 logical_offset range) in
  if (zlen file <? physical) || (zlen file -64 physical <? size)
  then Some (found, matches) else
  span ← slice file physical size;
  Some (span, wrap32 (matches + 1)).

Definition logical_slice (file : list byte) (ranges : list GuestFileRange) (offset size : Z)
    : option (list byte) :=
  '(found, matches) ← fold_left (logical_slice_step file offset size) ranges (Some ([], 0));
  Some (if matches =? 1 then found else []).

(** ** Program headers: the dynamic tables and the TLS template *)

Record DynamicTables := mkDynamicTables {
  dynamic : list byte;
  dynlib : list byte;
  have_dynamic : bool;
  have_dynlib : bool
}.

Section Inspect.
Context (file : list byte) (layout : GuestPayload) (header : GuestPreflight) (collect_records : bool).
Let prefix := prefix_of file.
Let segs := segments (payload_plan layout).

Definition link_dynamic (type offset size : Z) (tables : DynamicTables) : M GuestLinkManifest DynamicTables :=
  fail_if (if type =? 2 then have_dynamic tables else have_dynlib tables)
    "duplicate_dynamic_program_header" ;;;
  fail_if ((size =? 0) || ((if type =? 2 then 65536 else 8388608) <? size))
    "dynamic_data_budget_or_size" ;;;
  bytes <- need (logical_slice file (file_ranges layout) offset size) ;;
  fail_if (negb (zlen bytes =? size)) "dynamic_data_unmapped" ;;;
  ret (if type =? 2
       then mkDynamicTables bytes (dynlib tables) true (have_dynlib tables)
       else mkDynamicTables (dynamic tables) bytes (have_dynamic tables) true).

Definition link_tls (ph offset address size memory : Z) : M GuestLinkManifest unit :=
  modify (fun r => r <| tls_segments ::= fun n => n +64 1 |>) ;;;
  count <- gets tls_segments ;;
  fail_if (1 <? count) "multiple_tls_segments_unsupported" ;;;
  alignment <- need (read prefix (ph +64 48) 8) ;;
  fail_if ((memory <? size) || (GuestImageLimit <? memory) ||
           ((1 <? alignment) && (negb (Z.land alignment (alignment -64 1) =? 0) || (65536 <? alignment))))
    "invalid_tls_layout" ;;;
  template <- (if size =? 0 then ret [] else need (logical_slice file (file_ranges layout) offset size)) ;;
  fail_if ((negb (memory =? 0) && negb (mapped segs address memory)) ||
           (negb (size =? 0) && negb (zlen template =? size)))
    "tls_image_unmapped" ;;;
  modify (fun r => r <| tls_address := address |> <| tls_file_bytes := size |>
                     <| tls_memory_bytes := memory |> <| tls_alignment := alignment |>).

Definition link_header (phoff : Z) (tables : DynamicTables) (i : Z) : M GuestLinkManifest DynamicTables :=
  let ph := elf_offset header +64 phoff +64 i *64 56 in
  type <- need (read prefix ph 4) ;;
  offset <- need (read prefix (ph +64 8) 8) ;;
  address <- need (read prefix (ph +64 16) 8) ;;
  size <- need (read prefix (ph +64 32) 8) ;;
  memory <- need (read prefix (ph +64 40) 8) ;;
  if (type =? 2) || (type =? 0x61000000) then link_dynamic type offset size tables
  else if type =? 7 then (link_tls ph offset address size memory ;;; ret tables)
  else ret tables.

(** ** Dynamic entries *)

Record Tags := mkTags {
  tags : gmap Z Z;
  names : list (Z * Z);
  terminated : bool
}.

(** One entry; nothing happens after the terminator, where the loop breaks. *)
Definition link_tag (bytes : list byte) (locals : Tags) (offset : Z) : M GuestLinkManifest Tags :=
  if terminated locals then ret locals else
  tag <- need (read bytes offset 8) ;;
  value <- need (read bytes (offset +64 8) 8) ;;
  if tag =? 0 then ret (mkTags (tags locals) (names locals) true) else
  modify (fun r => r <| dynamic_entries ::= fun n => n +64 1 |>) ;;;
  if (tag =? 1) || (tag =? 0x6100000f) || (tag =? 0x61000015) then
    fail_if (512 <=? zlen (names locals)) "dependency_budget_exceeded" ;;;
    ret (mkTags (tags locals) (names locals ++ [(tag, value)]) false)
  else if (0x61000029 <=? tag) && (tag <=? 0x6100003f) && negb (Z.land tag 1 =? 0) then
    fail_if (bool_decide (is_Some (tags locals !! tag))) "duplicate_link_table_tag" ;;;
    ret (mkTags (<[tag := value]> (tags locals)) (names locals) false)
  else ret locals.

Definition contains (m : gmap Z Z) (tag : Z) : bool := bool_decide (is_Some (m !! tag)).
(** [tags.at(tag)], used after [contains]. *)
Definition at_tag (m : gmap Z Z) (tag : Z) : Z := default 0 (m !! tag).

(** [table(offset_tag, size_tag)] *)
Definition table (m : gmap Z Z) (bytes : list byte) (offset_tag size_tag : Z) : option (list byte) :=
  if negb (contains m offset_tag) || negb (contains m size_tag) then Some [] else
  let offset := at_tag m offset_tag in
  let size := at_tag m size_tag in
  if (zlen bytes <? offset) || (zlen bytes -64 offset <? size) then Some [] else
  slice bytes offset size.

(** ** Names *)

(** A byte a name must not hold. *)
Definition bad_name_byte (b : Z) : bool :=
  (b <? 32) || (126 <? b) || (b =? 59) || (b =? 44).

(** The loop of [string_at] over the bytes from [offset]; [Some output] at the
    terminating zero, [None] when it returns [false] before it. *)
Fixpoint scan_name (rest output : list byte) : option (list byte) :=
  match rest with
  | [] => None
  | byte :: rest' =>
      if u8 byte =? 0 then Some output
      else if (256 <=? zlen output) || bad_name_byte (u8 byte) then None
      else scan_name rest' (output ++ [byte])
  end.

(** [string_at(offset, output)]: the name, if accepted, and the new [name_bytes]. *)
Definition string_at (strings : list byte) (name_bytes offset : Z) : option (list byte) * Z :=
  if zlen strings <=? offset then (None, name_bytes) else
  match scan_name (drop (Z.to_nat offset) strings) [] with
  | None => (None, name_bytes)
  | Some output =>
      let name_bytes' := name_bytes +64 zlen output in
      (if negb (match output with [] => true | _ => false end) && (name_bytes' <=? 1048576)
       then Some output else None, name_bytes')
  end.

(** One dependency name. *)
Definition link_name (strings : list byte) (name_bytes : Z) (entry : Z * Z) : M GuestLinkManifest Z :=
  let '(tag, value) := entry in
  match string_at strings name_bytes (if tag =? 1 then value else Z.land value 0xffffffff) with
  | (None, _) => fail "invalid_dependency_name"
  | (Some name, name_bytes') =>
      when (collect_records && negb (tag =? 1))
        (modify (fun r =>
           if tag =? 0x6100000f
           then r <| module_records ::= fun l => l ++ [mkGuestLinkDependency name value] |>
           else r <| library_records ::= fun l => l ++ [mkGuestLinkDependency name value] |>)) ;;;
      modify (fun r =>
        if tag =? 1 then r <| needed ::= fun l => l ++ [name] |>
        else if tag =? 0x6100000f then r <| modules ::= fun l => l ++ [name] |>
        else r <| libraries ::= fun l => l ++ [name] |>) ;;;
      ret name_bytes'
  end.

(** ** Symbols and imports *)

Definition link_symbol (strings symbols : list byte) (name_bytes offset : Z) : M GuestLinkManifest Z :=
  info <- need (symbols.[offset +64 4]) ;;
  let bind := Z.shiftr (u8 info) 4 in
  let type := Z.land (u8 info) 15 in
  section <- need (read symbols (offset +64 6) 2) ;;
  address <- need (read symbols (offset +64 8) 8) ;;
  size <- need (read symbols (offset +64 16) 8) ;;
  when collect_records
    (modify (fun r => r <| symbol_records ::= fun l =>
       l ++ [mkGuestLinkSymbol address size (wrap16 section) (wrap8 bind) (wrap8 type)] |>)) ;;;
  if negb (section =? 0) || (negb (bind =? 1) && negb (bind =? 2)) then ret name_bytes else
  imports <- gets man_imports ;;
  fail_if (8192 <=? zlen imports) "import_budget_exceeded" ;;;
  name_offset <- need (read symbols offset 4) ;;
  match string_at strings name_bytes name_offset with
  | (None, _) => fail "invalid_import_name"
  | (Some name, name_bytes') =>
      modify (fun r => r <| man_imports ::= fun l => l ++ [name] |>) ;;;
      when collect_records
        (modify (fun r => r <| import_symbol_indices ::= fun l => l ++ [wrap32 (offset / 24)] |>)) ;;;
      modify (fun r =>
        if type =? 2 then r <| undefined_functions ::= fun n => n +64 1 |>
        else if type =? 1 then r <| undefined_objects ::= fun n => n +64 1 |>
        else r <| undefined_other ::= fun n => n +64 1 |>) ;;;
      ret name_bytes'
  end.

(** ** Relocations *)

(** The bytes a relocation of a known type writes; 0 for the others. *)
Definition relocation_width (type : Z) : Z :=
  if type =? 8 then 8
  else if type =? 7 then 8
  else if (type =? 1) || (type =? 6) || (type =? 2) || (type =? 10) || (type =? 11) then
    (if (type =? 2) || (type =? 10) || (type =? 11) then 4 else 8)
  else if (type =? 16) || (type =? 17) || (type =? 18) || (type =? 36) then
    (if type =? 36 then 16 else 8)
  else 0.

(** The counter of the relocation's kind. *)
Definition count_relocation (type : Z) (r : GuestLinkManifest) : GuestLinkManifest :=
  if type =? 8 then r <| relative ::= fun n => n +64 1 |>
  else if type =? 7 then r <| jump_slots ::= fun n => n +64 1 |>
  else if (type =? 1) || (type =? 6) || (type =? 2) || (type =? 10) || (type =? 11) then
    r <| symbol_relocations ::= fun n => n +64 1 |>
  else if (type =? 16) || (type =? 17) || (type =? 18) || (type =? 36) then
    r <| tls_relocations ::= fun n => n +64 1 |>
  else if negb (type =? 0) then r <| other_relocations ::= fun n => n +64 1 |>
  else r.

Definition link_relocation (bytes : list byte) (offset : Z) : M GuestLinkManifest unit :=
  address <- need (read bytes offset 8) ;;
  info <- need (read bytes (offset +64 8) 8) ;;
  let type := wrap32 info in
  let symbol := Z.shiftr info 32 in
  count <- gets man_symbols ;;
  fail_if ((count <=? symbol) || ((type =? 8) && negb (symbol =? 0))) "invalid_relocation_symbol" ;;;
  addend <- need (read bytes (offset +64 16) 8) ;;
  when collect_records
    (modify (fun r => r <| relocation_records ::= fun l =>
       l ++ [mkGuestLinkRelocation address addend type (wrap32 symbol)] |>)) ;;;
  modify (fun r => r <| relocations ::= fun n => n +64 1 |>) ;;;
  modify (count_relocation type) ;;;
  let width := relocation_width type in
  when (negb (width =? 0))
    (fail_if (negb (mapped segs address width)) "relocation_target_outside_mapped_segment" ;;;
     modify (fun r => r <| target_checks ::= fun n => n +64 1 |>)).

Definition link_relocation_table (m : gmap Z Z) (library : list byte) (jump_table : bool)
    : M GuestLinkManifest unit :=
  let offset_tag := if jump_table then 0x61000029 else 0x6100002f in
  let size_tag := if jump_table then 0x6100002d else 0x61000031 in
  if negb (contains m offset_tag) && negb (contains m size_tag) then ret tt else
  bytes <- need (table m library offset_tag size_tag) ;;
  fail_if (negb (contains m offset_tag) || negb (contains m size_tag) ||
           (zlen library <? at_tag m offset_tag) ||
           (zlen library -64 at_tag m offset_tag <? at_tag m size_tag) ||
           negb (zlen bytes =? at_tag m size_tag) || negb (zlen bytes mod 24 =? 0) ||
           (262144 <? zlen bytes / 24) ||
           (jump_table && (negb (contains m 0x6100002b) || negb (at_tag m 0x6100002b =? 7))) ||
           (negb jump_table && (negb (contains m 0x61000033) || negb (at_tag m 0x61000033 =? 24))))
    "invalid_relocation_table_layout" ;;;
  forM (strided (zlen bytes) 24) (link_relocation bytes).

(** ** The whole inspection, once the payload is planned *)

Definition link_tables (tables : DynamicTables) : M GuestLinkManifest unit :=
  fail_if (negb (have_dynamic tables) || negb (have_dynlib tables) ||
           negb (zlen (dynamic tables) mod 16 =? 0))
    "missing_or_invalid_orbis_dynamic_tables" ;;;
  locals <- foldM (link_tag (dynamic tables)) (mkTags ∅ [] false) (strided (zlen (dynamic tables)) 16) ;;
  fail_if (negb (terminated locals)) "unterminated_dynamic_table" ;;;
  let m := tags locals in
  strings <- need (table m (dynlib tables) 0x61000035 0x61000037) ;;
  symbols <- need (table m (dynlib tables) 0x61000039 0x6100003f) ;;
  fail_if ((zlen strings =? 0) || (4194304 <? zlen strings) || (zlen symbols =? 0) ||
           negb (zlen symbols mod 24 =? 0) || (131072 <? zlen symbols / 24) ||
           negb (contains m 0x6100003b) || negb (at_tag m 0x6100003b =? 24))
    "invalid_or_missing_string_symbol_tables" ;;;
  name_bytes <- foldM (link_name strings) 0 (names locals) ;;
  modify (fun r => r <| man_symbols := zlen symbols / 24 |>) ;;;
  foldM (link_symbol strings symbols) name_bytes (strided (zlen symbols) 24) ;;;
  forM [false; true] (link_relocation_table m (dynlib tables)) ;;;
  modify (fun r => r <| man_valid := true |>).

Definition link_inspect : M GuestLinkManifest unit :=
  fail_if (negb (orbis_identity header)) "requires_orbis_dynamic_profile" ;;;
  phoff <- need (read prefix (elf_offset header +64 32) 8) ;;
  tables <- foldM (link_header phoff) (mkDynamicTables [] [] false false) (indices (program_headers header)) ;;
  link_tables tables.
End Inspect.

Definition inspect_link (file : list byte) (collect_records : bool) : M GuestLinkManifest unit :=
  layout <- need (PlanGuestPayloadFile file) ;;
  fail_if (negb (plan_valid (payload_plan layout)) || negb (String.eqb (img_error (image layout)) ""))
    "payload_layout_invalid" ;;;
  header <- need (InspectGuestPrefix (prefix_of file) (zlen file)) ;;
  link_inspect file layout header collect_records.

Definition InspectGuestLinkManifest (file : list byte) (collect_records : bool)
    : option GuestLinkManifest :=
  finish manifest_fail (inspect_link file collect_records) manifest_init.

(** * Specification *)

(** [name] is the zero-terminated string at [offset] of the string table. *)
Record name_at (strings : list byte) (offset : Z) (name : list byte) : Prop := {
  na_bytes : slice strings offset (zlen name) = Some name;
  na_end : strings.[offset + zlen name] = Some Byte.x00
}.

(** What every accepted name satisfies. *)
Definition name_ok (name : list byte) : Prop :=
  name <> [] /\ zlen name <= 256 /\
  Forall (fun b => bad_name_byte (u8 b) = false /\ u8 b <> 0) name.

Lemma scan_name_spec rest output name :
  scan_name rest output = Some name -> zlen output <= 256 ->
  exists k, name = output ++ k /\ zlen name <= 256 /\
    Forall (fun b => bad_name_byte (u8 b) = false /\ u8 b <> 0) k /\
    take (length k) rest = k /\ rest !! length k = Some Byte.x00.
Proof.
  revert output. induction rest as [|b rest IH]; intros output; cbn [scan_name]; [done|].
  destruct (u8 b =? 0) eqn:E0.
  - intros [= <-] Ho. exists []. rewrite app_nil_r. split_and!; try done.
    cbn. f_equal. apply u8_inj. reflect_bools. done.
  - destruct (_ || _) eqn:E; [done|]. reflect_bools. intros Hs Ho.
    destruct (IH _ Hs) as (k & -> & Hl & Hk & Ht & He).
    { rewrite zlen_app. unfold zlen at 2. cbn. lia. }
    exists (b :: k). split_and!; try done.
    + by rewrite <- app_assoc.
    + constructor; [|done]. done.
    + cbn. by rewrite Ht.
Qed.

Lemma string_at_spec strings name_bytes offset name name_bytes' :
  0 <= offset -> zlen strings <= U64_MAX -> 0 <= name_bytes <= 1048576 ->
  string_at strings name_bytes offset = (Some name, name_bytes') ->
  name_ok name /\ name_at strings offset name /\ name_bytes' = name_bytes + zlen name /\
  name_bytes' <= 1048576.
Proof.
  intros Ho Hs Hn. unfold string_at. destruct (_ <=? _) eqn:E; [done|]. reflect_bools.
  destruct (scan_name _ _) as [output|] eqn:Hscan; [|done].
  apply scan_name_spec in Hscan as (k & -> & Hl & Hk & Ht & He); [|done]. cbn [app].
  pose proof (zlen_nonneg k). cbn [app] in *. intros [=]. destruct (_ && _) eqn:Eb; [|done].
  simplify_eq. unwrap_all. reflect_bools. unfold name_ok.
  assert (Hend : strings.[offset + zlen name] = Some Byte.x00).
  { rewrite lookup_drop in He. unfold at_index. rewrite decide_True by lia. rewrite <- He. f_equal. unfold zlen. lia. }
  split_and!; try done; [by intros ->|].
  split; [|done]. unfold slice. rewrite decide_True.
  - f_equal. rewrite <- Ht at 2. f_equal. unfold zlen. lia.
  - apply at_index_range in Hend. lia.
Qed.

Section Domains.
Context (file : list byte) (layout : GuestPayload).
Hypothesis Hlimit : zlen file <= GuestPayloadFileLimit.
Hypothesis Hplanned : payload_planned file layout.

Definition range_holds (offset size : Z) (r : GuestFileRange) : Prop :=
  logical_offset r <= offset /\ offset + size <= logical_offset r + range_size r.

(** The file bytes [r] maps the range to. *)
Definition range_bytes (offset size : Z) (r : GuestFileRange) : option (list byte) :=
  slice file (physical_offset r + (offset - logical_offset r)) size.

(** [bytes] are the bytes of the file at a range of the logical file domain. *)
Definition file_bytes (offset size : Z) (bytes : list byte) : Prop :=
  exists r, In r (file_ranges layout) /\ range_holds offset size r /\ range_bytes offset size r = Some bytes.

Lemma logical_step offset size r found matches :
  is_u64 offset -> 0 <= size <= U64_MAX -> range_ok file r ->
  (range_holds offset size r /\ exists span, range_bytes offset size r = Some span /\ zlen span = size /\
     logical_slice_step file offset size (Some (found, matches)) r = Some (span, wrap32 (matches + 1))) \/
  (~ range_holds offset size r /\
     logical_slice_step file offset size (Some (found, matches)) r = Some (found, matches)).
Proof.
  intros Ho Hs (Hl & Hlr & Hp & Hrs & Hpf). unfold logical_slice_step. cbn [mbind option_bind].
  unfold GuestPayloadFileLimit in *. pose proof (zlen_nonneg file).
  destruct (offset <? logical_offset r) eqn:E1; cbn [orb].
  { right. unfold range_holds. split; [lia|done]. }
  reflect_bools. unwrap.
  destruct (range_size r <? offset - logical_offset r) eqn:E2; cbn [orb].
  { right. unfold range_holds. split; [lia|done]. }
  reflect_bools. unwrap.
  destruct (_ <? size) eqn:E3; [right; unfold range_holds; split; [lia|done]|].
  left. reflect_bools. split; [unfold range_holds; lia|].
  destruct (slice_Some file (physical_offset r + (offset - logical_offset r)) size) as (span & Hsp & Hz & _); [lia..|].
  exists span. split; [done|]. split; [done|].
  rewrite (proj2 (Z.ltb_ge _ _)) by lia. cbn [orb]. unwrap.
  rewrite (proj2 (Z.ltb_ge _ _)) by lia. by rewrite Hsp.
Qed.

Lemma logical_fold offset size ranges :
  is_u64 offset -> 0 <= size <= U64_MAX -> Forall (range_ok file) ranges ->
  forall found matches, (found = [] \/ zlen found = size /\ file_bytes offset size found) ->
  (forall r, In r ranges -> In r (file_ranges layout)) ->
  exists found' matches', fold_left (logical_slice_step file offset size) ranges (Some (found, matches)) =
    Some (found', matches') /\ (found' = [] \/ zlen found' = size /\ file_bytes offset size found').
Proof.
  intros Ho Hs. induction ranges as [|r ranges IH]; intros Hr found matches Hf Hin; cbn [fold_left].
  - eauto.
  - apply Forall_cons in Hr as [Hr Hrs].
    destruct (logical_step offset size r found matches Ho Hs Hr) as [(Hh & span & Hb & Hz & ->)|[_ ->]];
      apply IH; auto using in_cons.
    right. split; [done|]. exists r. split; [by apply Hin; left|done].
Qed.

(** [logical_slice] never leaves the file, and finds the whole range or nothing. *)
Lemma logical_slice_total offset size :
  is_u64 offset -> 0 <= size <= U64_MAX ->
  exists l, logical_slice file (file_ranges layout) offset size = Some l /\
    (l = [] \/ zlen l = size /\ file_bytes offset size l).
Proof.
  intros Ho Hs.
  destruct (logical_fold offset size (file_ranges layout) Ho Hs (pp_ranges _ _ Hplanned) [] 0)
    as (f & m & Hf & Hz); [by left|done|].
  unfold logical_slice. rewrite Hf. cbn. destruct (m =? 1); eauto.
Qed.

Lemma logical_fold_none offset size ranges found matches :
  is_u64 offset -> 0 <= size <= U64_MAX -> Forall (range_ok file) ranges ->
  Forall (fun r => ~ range_holds offset size r) ranges ->
  fold_left (logical_slice_step file offset size) ranges (Some (found, matches)) = Some (found, matches).
Proof.
  intros Ho Hs Hr Hn. induction ranges as [|r ranges IH]; [done|]. cbn [fold_left].
  apply Forall_cons in Hr as [Hr Hrs]. apply Forall_cons in Hn as [Hn Hns].
  destruct (logical_step offset size r found matches Ho Hs Hr) as [[? _]|[_ ->]]; [done|auto].
Qed.

Lemma apart_exclusive offset size a b :
  0 < size -> ranges_apart a b -> range_holds offset size a -> ~ range_holds offset size b.
Proof. unfold ranges_apart, apart, range_holds. lia. Qed.

Lemma logical_slice_spec offset size r :
  is_u64 offset -> 0 < size <= U64_MAX -> In r (file_ranges layout) -> range_holds offset size r ->
  logical_slice file (file_ranges layout) offset size = range_bytes offset size r.
Proof.
  intros Ho Hs (l1 & l2 & Hr)%List.in_split Hh. unfold logical_slice.
  pose proof (pp_ranges _ _ Hplanned) as Hok. pose proof (pp_apart _ _ Hplanned) as Hap.
  rewrite Hr in *. rewrite fold_left_app. apply Forall_app in Hok as [Hok1 Hok2].
  apply Forall_cons in Hok2 as [Hokr Hok2].
  rewrite logical_fold_none; [|done|lia|done|].
  - cbn [fold_left].
    destruct (logical_step offset size r [] 0 Ho ltac:(lia) Hokr) as [(_ & span & Hb & Hz & ->)|[Hn _]]; [|done].
    rewrite logical_fold_none; [by rewrite Hb|done|lia|done|].
    apply ForallOrdPairs_mid_r in Hap. apply (Forall_impl _ _ _ Hap).
    intros b Hab. by apply (apart_exclusive offset size r b ltac:(lia)).
  - apply ForallOrdPairs_mid in Hap. apply (Forall_impl _ _ _ Hap).
    intros b Hab Hb. by apply (apart_exclusive offset size b r ltac:(lia) Hab Hb).
Qed.

Lemma mapped_spec address size :
  is_u64 address -> is_u64 size ->
  mapped (segments (payload_plan layout)) address size = true <->
  exists s, In s (segments (payload_plan layout)) /\ seg_address s <= address /\ address + size <= seg_end s.
Proof.
  intros Ha Hs. unfold mapped. rewrite existsb_exists. apply exist_proper. intros s.
  split; intros [Hin H]; (split; [done|]);
    destruct (pl_segment _ _ (proj2 (staged_layout file layout Hplanned)) s Hin) as (?&?&?&?&?&_);
    pose proof (pl_base _ _ (proj2 (staged_layout file layout Hplanned))) as [? _]; unfold seg_end in *.
  - reflect_bools. unwrap_all. lia.
  - unwrap. u64_lia.
Qed.
End Domains.

(** ** What the file's dynamic tables hold *)

Section FileTables.
Context (file : list byte) (layout : GuestPayload).
Let prefix := prefix_of file.

(** The program headers of a type among the first [k], and the ranges they name. *)
Definition headers_of (type k : Z) : list Z :=
  List.filter (fun i => rd prefix (ph prefix i) 4 =? type) (indices k).
Definition header_offset (i : Z) : Z := rd prefix (ph prefix i + 8) 8.
Definition header_size (i : Z) : Z := rd prefix (ph prefix i + 32) 8.

(** [bytes] are those of the only header of the type. *)
Definition only_header (type k : Z) (bytes : list byte) : Prop :=
  exists i, headers_of type k = [i] /\ zlen bytes = header_size i /\ 0 < header_size i /\
    file_bytes file layout (header_offset i) (header_size i) bytes.

Definition tls_fields (r : GuestLinkManifest) : Z * Z * Z * Z * Z :=
  (tls_segments r, tls_address r, tls_file_bytes r, tls_memory_bytes r, tls_alignment r).
(** The TLS fields are those of the only header of type 7, or zero without one. *)
Definition tls_read (k : Z) (fields : Z * Z * Z * Z * Z) : Prop :=
  match headers_of 7 k with
  | [] => fields = (0, 0, 0, 0, 0)
  | [i] => fields = (1, rd prefix (ph prefix i + 16) 8, header_size i, rd prefix (ph prefix i + 40) 8,
                     rd prefix (ph prefix i + 48) 8) /\
           (header_size i <> 0 -> exists bytes, zlen bytes = header_size i /\
              file_bytes file layout (header_offset i) (header_size i) bytes)
  | _ => False
  end.

Lemma rd_u64 bytes off : is_u64 (rd bytes off 8).
Proof. pose proof (rd_range bytes off 8). u64_lia. Qed.
Lemma header_offset_u64 i : is_u64 (header_offset i).
Proof. apply rd_u64. Qed.
Lemma header_size_u64 i : is_u64 (header_size i).
Proof. apply rd_u64. Qed.
End FileTables.

Definition tagged (tag : Z) (entries : list (Z * Z)) : list (Z * Z) :=
  List.filter (fun e => fst e =? tag) entries.

(** The pairs of a dynamic table up to the first with a zero tag. *)
Definition entry_at (bytes : list byte) (i : Z) : Z * Z := (rd bytes (i * 16) 8, rd bytes (i * 16 + 8) 8).
Fixpoint before_end (l : list (Z * Z)) : list (Z * Z) :=
  match l with [] => [] | e :: l => if fst e =? 0 then [] else e :: before_end l end.
Definition entries_of (bytes : list byte) (k : Z) : list (Z * Z) :=
  before_end (List.map (entry_at bytes) (indices k)).
Definition ends (bytes : list byte) (k : Z) : bool :=
  existsb (fun e => fst e =? 0) (List.map (entry_at bytes) (indices k)).

Definition names_a_dependency (tag : Z) : bool := (tag =? 1) || (tag =? 0x6100000f) || (tag =? 0x61000015).
(** The odd tags of the link tables. *)
Definition names_a_table (tag : Z) : bool := (0x61000029 <=? tag) && (tag <=? 0x6100003f) && Z.odd tag.
Definition dependencies (entries : list (Z * Z)) : list (Z * Z) :=
  List.filter (fun e => names_a_dependency (fst e)) entries.

(** The bytes of the library's data that the entries of two tags, offset and size, name. *)
Definition linked_table (library : list byte) (entries : list (Z * Z)) (offset_tag size_tag : Z)
    (bytes : list byte) : Prop :=
  exists offset size, tagged offset_tag entries = [(offset_tag, offset)] /\
    tagged size_tag entries = [(size_tag, size)] /\ zlen bytes = size /\ slice library offset size = Some bytes.

(** The records of a relocation table, and the table two tags name if the file has it. *)
Definition relocation_at (bytes : list byte) (i : Z) : GuestLinkRelocation :=
  mkGuestLinkRelocation (rd bytes (i * 24) 8) (rd bytes (i * 24 + 16) 8)
    (rd bytes (i * 24 + 8) 8 mod 4294967296) (rd bytes (i * 24 + 8) 8 / 4294967296).
Definition relocations_in (bytes : list byte) (k : Z) : list GuestLinkRelocation :=
  List.map (relocation_at bytes) (indices k).
Definition relocation_table (library : list byte) (entries : list (Z * Z)) (offset_tag size_tag : Z)
    (l : list GuestLinkRelocation) : Prop :=
  (tagged offset_tag entries = [] /\ tagged size_tag entries = [] /\ l = []) \/
  exists bytes, linked_table library entries offset_tag size_tag bytes /\ zlen bytes mod 24 = 0 /\
    l = relocations_in bytes (zlen bytes / 24).

Lemma before_end_snoc l e :
  before_end (l ++ [e]) =
    before_end l ++ (if existsb (fun e => fst e =? 0) l || (fst e =? 0) then [] else [e]).
Proof.
  induction l as [|a l IH]; cbn [before_end app existsb orb]; [by destruct (fst e =? 0)|].
  destruct (fst a =? 0); [done|]. cbn. by rewrite IH.
Qed.

Lemma tagged_snoc tag entries e :
  tagged tag (entries ++ [e]) = tagged tag entries ++ (if fst e =? tag then [e] else []).
Proof. unfold tagged. rewrite List.filter_app. simpl. by destruct (_ =? _). Qed.

Lemma tagged_dependencies tag entries :
  names_a_dependency tag = true -> tagged tag (dependencies entries) = tagged tag entries.
Proof.
  intros Ht. unfold tagged, dependencies. induction entries as [|e l IH]; [done|]. cbn [List.filter].
  destruct (Z.eqb_spec (fst e) tag) as [He|Hne].
  - rewrite He, Ht. cbn [List.filter]. by rewrite (proj2 (Z.eqb_eq _ _) He), IH.
  - destruct (names_a_dependency (fst e)); cbn [List.filter]; [|done].
    by rewrite (proj2 (Z.eqb_neq _ _) Hne).
Qed.

Lemma strided_split size step pre x post :
  0 < step -> 0 <= size -> size mod step = 0 -> strided size step = pre ++ x :: post ->
  x = zlen pre * step /\ x + step <= size.
Proof.
  intros Hst Hs Hm Hx. unfold strided in Hx.
  assert (Hn : (size + step - 1) / step = size / step).
  { pose proof (Z.div_mod size step ltac:(lia)) as Hd. rewrite Hm in Hd.
    replace (size + step - 1) with (step - 1 + (size / step) * step) by lia.
    rewrite Z.div_add, (Z.div_small (step - 1)) by lia. lia. }
  rewrite Hn in Hx. apply List.map_eq_app in Hx as (l1 & l2 & Hi & Hp & Hx).
  symmetry in Hx. apply eq_sym, List.map_eq_cons in Hx as (i & l3 & -> & Hx & _).
  apply indices_split in Hi as (-> & Hi & _). subst pre. unfold zlen in *. rewrite List.length_map.
  split; [lia|]. pose proof (Z.div_mod size step ltac:(lia)) as Hd. rewrite Hm in Hd. nia.
Qed.

Lemma zlen_strided size step : 0 < step -> 0 <= size -> size mod step = 0 -> zlen (strided size step) = size / step.
Proof.
  intros Hst Hs Hm. unfold strided, indices, zlen. rewrite List.length_map, length_fmap, length_seq.
  pose proof (Z.div_mod size step ltac:(lia)) as Hd. rewrite Hm in Hd.
  replace (size + step - 1) with (step - 1 + (size / step) * step) by lia.
  rewrite Z.div_add, (Z.div_small (step - 1)) by lia.
  pose proof (Z.div_pos size step). lia.
Qed.

Lemma indices_snoc n : 0 <= n -> indices (n + 1) = indices n ++ [n].
Proof.
  intros Hn. unfold indices. replace (Z.to_nat (n + 1)) with (S (Z.to_nat n)) by lia.
  rewrite seq_S, fmap_app. cbn. f_equal. f_equal. lia.
Qed.

(** ** What a manifest reports *)

Section Report.
Context (segs : list GuestLoadSegment) (collect : bool).

Record tls_template_ok (r : GuestLinkManifest) : Prop := {
  tt_sizes : 0 <= tls_file_bytes r <= tls_memory_bytes r /\ tls_memory_bytes r <= GuestImageLimit;
  tt_align : 1 < tls_alignment r ->
    Z.land (tls_alignment r) (tls_alignment r - 1) = 0 /\ tls_alignment r <= 65536;
  tt_mapped : tls_memory_bytes r <> 0 -> mapped segs (tls_address r) (tls_memory_bytes r) = true
}.
Definition tls_ok (r : GuestLinkManifest) : Prop :=
  tls_segments r = 0 \/ tls_segments r = 1 /\ tls_template_ok r.

Definition dependency_ok (strings : list byte) (e : Z * Z) (name : list byte) : Prop :=
  name_ok name /\
  name_at strings (if fst e =? 1 then snd e else Z.land (snd e) 0xffffffff) name.

Definition records_of (names : list (list byte)) (entries : list (Z * Z)) : list GuestLinkDependency :=
  if collect then zip_with mkGuestLinkDependency names (List.map snd entries) else [].

(** The dependency names of the entries, in order, with their packed values. *)
Record names_done (strings : list byte) (entries : list (Z * Z)) (r : GuestLinkManifest) : Prop := {
  nd_needed : Forall2 (dependency_ok strings) (tagged 1 entries) (needed r);
  nd_modules : Forall2 (dependency_ok strings) (tagged 0x6100000f entries) (modules r);
  nd_libraries : Forall2 (dependency_ok strings) (tagged 0x61000015 entries) (libraries r);
  nd_module_records : module_records r = records_of (modules r) (tagged 0x6100000f entries);
  nd_library_records : library_records r = records_of (libraries r) (tagged 0x61000015 entries)
}.

(** Symbol [i] of the table, and whether it is an import. *)
Definition symbol_at (symbols : list byte) (i : Z) : GuestLinkSymbol :=
  mkGuestLinkSymbol (rd symbols (i * 24 + 8) 8) (rd symbols (i * 24 + 16) 8) (rd symbols (i * 24 + 6) 2)
    (Z.shiftr (byte_at symbols (i * 24 + 4)) 4) (Z.land (byte_at symbols (i * 24 + 4)) 15).
Definition undefined (s : GuestLinkSymbol) : bool :=
  (sym_section s =? 0) && ((sym_binding s =? 1) || (sym_binding s =? 2)).
Definition imported (symbols : list byte) (k : Z) : list Z :=
  List.filter (fun i => undefined (symbol_at symbols i)) (indices k).
Definition imported_of_type (symbols : list byte) (k : Z) (p : Z -> bool) : Z :=
  zlen (List.filter (fun i => p (sym_type (symbol_at symbols i))) (imported symbols k)).

(** The first [k] symbols, and the imports among them. *)
Record symbols_done (strings symbols : list byte) (k : Z) (r : GuestLinkManifest) : Prop := {
  sd_records : symbol_records r = if collect then List.map (symbol_at symbols) (indices k) else [];
  sd_imports : Forall2 (fun i name => name_ok name /\ name_at strings (rd symbols (i * 24) 4) name)
                 (imported symbols k) (man_imports r);
  sd_budget : zlen (man_imports r) <= 8192;
  sd_indices : import_symbol_indices r = if collect then imported symbols k else [];
  sd_functions : undefined_functions r = imported_of_type symbols k (fun t => t =? 2);
  sd_objects : undefined_objects r = imported_of_type symbols k (fun t => t =? 1);
  sd_other : undefined_other r = imported_of_type symbols k (fun t => negb (t =? 2) && negb (t =? 1))
}.

Record relocation_ok (symbols : Z) (x : GuestLinkRelocation) : Prop := {
  ro_symbol : 0 <= rel_symbol x < symbols;
  ro_relative : rel_type x = 8 -> rel_symbol x = 0;
  ro_u64 : is_u64 (rel_address x) /\ is_u64 (rel_addend_bits x);
  ro_type : 0 <= rel_type x <= U32_MAX;
  ro_mapped : relocation_width (rel_type x) <> 0 ->
    mapped segs (rel_address x) (relocation_width (rel_type x)) = true
}.

Definition counted (p : Z -> bool) (l : list GuestLinkRelocation) : Z :=
  zlen (List.filter (fun x => p (rel_type x)) l).
Definition is_symbol_type (t : Z) : bool := (t =? 1) || (t =? 6) || (t =? 2) || (t =? 10) || (t =? 11).
Definition is_tls_type (t : Z) : bool := (t =? 16) || (t =? 17) || (t =? 18) || (t =? 36).

(** [l] are the relocations seen so far. *)
Record relocations_done (l : list GuestLinkRelocation) (r : GuestLinkManifest) : Prop := {
  rd_all : Forall (relocation_ok (man_symbols r)) l;
  rd_records : relocation_records r = if collect then l else [];
  rd_count : relocations r = zlen l;
  rd_relative : relative r = counted (fun t => t =? 8) l;
  rd_jump_slots : jump_slots r = counted (fun t => t =? 7) l;
  rd_symbolic : symbol_relocations r = counted is_symbol_type l;
  rd_tls : tls_relocations r = counted is_tls_type l;
  rd_targets : target_checks r = counted (fun t => negb (relocation_width t =? 0)) l;
  rd_other : other_relocations r = counted (fun t => (relocation_width t =? 0) && negb (t =? 0)) l
}.

(** The fields that the program headers and the dynamic table decide. *)
Definition heading (r : GuestLinkManifest) : Z * (Z * Z * Z * Z * Z) := (dynamic_entries r, tls_fields r).

Record link_inv (strings symbols : list byte) (entries : list (Z * Z)) (k : Z)
    (l : list GuestLinkRelocation) (h : Z * (Z * Z * Z * Z * Z)) (r : GuestLinkManifest) : Prop := {
  lk_error : man_error r = "";
  lk_valid : man_valid r = false;
  lk_tls : tls_ok r;
  lk_names : names_done strings entries r;
  lk_symbols : symbols_done strings symbols k r;
  lk_relocations : relocations_done l r;
  lk_heading : heading r = h
}.

Lemma imported_snoc symbols k :
  0 <= k -> imported symbols (k + 1) = imported symbols k ++ (if undefined (symbol_at symbols k) then [k] else []).
Proof.
  intros Hk. unfold imported. rewrite indices_snoc, List.filter_app by done. simpl. by destruct (undefined _).
Qed.

Lemma imported_of_type_snoc symbols k p :
  0 <= k -> imported_of_type symbols (k + 1) p = imported_of_type symbols k p +
    (if undefined (symbol_at symbols k) && p (sym_type (symbol_at symbols k)) then 1 else 0).
Proof.
  intros Hk. unfold imported_of_type. rewrite imported_snoc, List.filter_app, zlen_app by done.
  f_equal. destruct (undefined _); [|done]. simpl. by destruct (p _).
Qed.

Lemma counted_snoc p l x : counted p (l ++ [x]) = counted p l + (if p (rel_type x) then 1 else 0).
Proof. unfold counted. rewrite List.filter_app, zlen_app. f_equal. simpl. by destruct (p _). Qed.

Lemma counted_bound p l : 0 <= counted p l <= zlen l.
Proof.
  unfold counted, zlen. pose proof (List.filter_length_le (fun x => p (rel_type x)) l). lia.
Qed.

Lemma filter_zlen {A} (p : A -> bool) (l : list A) : 0 <= zlen (List.filter p l) <= zlen l.
Proof. unfold zlen. pose proof (List.filter_length_le p l). lia. Qed.

Lemma records_snoc names entries name e :
  length names = length entries ->
  records_of (names ++ [name]) (entries ++ [e]) =
  records_of names entries ++ (if collect then [mkGuestLinkDependency name (snd e)] else []).
Proof.
  intros Hl. unfold records_of. destruct collect; [|done].
  rewrite List.map_app. rewrite zip_with_app by (by rewrite List.length_map). done.
Qed.
End Report.

(** * Correctness *)

Definition link_rejected (e : string) (r : GuestLinkManifest) : Prop := e <> "" /\ man_valid r = false.

(** A manifest predicate carries over to a record that agrees on its fields. *)
Ltac frame_manifest :=
  lazymatch goal with
  | H : tls_ok _ ?r |- tls_ok _ _ =>
      destruct H as [H|[H []]]; [left; exact H|right; split; [exact H|split; assumption]]
  | H : names_done _ _ _ _ |- names_done _ _ _ _ => destruct H; split; assumption
  | H : symbols_done _ _ _ _ _ |- symbols_done _ _ _ _ _ => destruct H; split; assumption
  | H : relocations_done _ _ _ _ |- relocations_done _ _ _ _ => destruct H; split; assumption
  | H : heading ?r = ?h |- heading _ = ?h => exact H
  end.

Section Wp.
Context (file : list byte) (layout : GuestPayload) (collect : bool).
Hypothesis Hlimit : zlen file <= GuestPayloadFileLimit.
Hypothesis Hplanned : payload_planned file layout.
Let prefix := prefix_of file.
Let segs := segments (payload_plan layout).

Record tables_ok (t : DynamicTables) : Prop := {
  to_dynamic : zlen (dynamic t) <= 65536;
  to_dynlib : zlen (dynlib t) <= 8388608
}.

(** The tables are those of the first [k] program headers. *)
Record tables_of (k : Z) (t : DynamicTables) : Prop := {
  tf_dynamic : if have_dynamic t then only_header file layout 2 k (dynamic t) else headers_of file 2 k = [];
  tf_dynlib :
    if have_dynlib t then only_header file layout 0x61000000 k (dynlib t) else headers_of file 0x61000000 k = []
}.

Lemma headers_of_snoc type k : 0 <= k ->
  headers_of file type (k + 1) =
    headers_of file type k ++ (if rd prefix (ph prefix k) 4 =? type then [k] else []).
Proof.
  intros Hk. unfold headers_of. rewrite indices_snoc, List.filter_app by done. cbn [List.filter].
  fold prefix. by destruct (_ =? _).
Qed.

Lemma only_header_skip type k bytes : 0 <= k -> rd prefix (ph prefix k) 4 <> type ->
  only_header file layout type k bytes -> only_header file layout type (k + 1) bytes.
Proof.
  intros Hk Ht (i & Hi & H). exists i. split; [|exact H].
  by rewrite headers_of_snoc, Hi, (proj2 (Z.eqb_neq _ _) Ht).
Qed.

Lemma headers_of_skip type k : 0 <= k -> rd prefix (ph prefix k) 4 <> type ->
  headers_of file type (k + 1) = headers_of file type k.
Proof. intros Hk Ht. by rewrite headers_of_snoc, (proj2 (Z.eqb_neq _ _) Ht), app_nil_r. Qed.

Lemma table_skip type k (have : bool) bytes : 0 <= k -> rd prefix (ph prefix k) 4 <> type ->
  (if have then only_header file layout type k bytes else headers_of file type k = []) ->
  if have then only_header file layout type (k + 1) bytes else headers_of file type (k + 1) = [].
Proof. intros Hk Ht. destruct have; [by apply only_header_skip|]. by rewrite headers_of_skip. Qed.

Lemma tables_of_skip k t : 0 <= k -> rd prefix (ph prefix k) 4 <> 2 -> rd prefix (ph prefix k) 4 <> 0x61000000 ->
  tables_of k t -> tables_of (k + 1) t.
Proof.
  intros Hk H2 H6 [T1 T2]. split; by apply table_skip.
Qed.

Lemma tls_read_skip k f : 0 <= k -> rd prefix (ph prefix k) 4 <> 7 ->
  tls_read file layout k f -> tls_read file layout (k + 1) f.
Proof. intros Hk Ht. unfold tls_read. by rewrite headers_of_skip. Qed.

(** One more table. *)
Lemma only_header_new type k bytes : 0 <= k -> rd prefix (ph prefix k) 4 = type -> headers_of file type k = [] ->
  zlen bytes = header_size file k -> 0 < header_size file k ->
  file_bytes file layout (header_offset file k) (header_size file k) bytes ->
  only_header file layout type (k + 1) bytes.
Proof.
  intros Hk Ht Hn Hz Hs Hb. exists k. split; [|done].
  by rewrite headers_of_snoc, Hn, (proj2 (Z.eqb_eq _ _) Ht).
Qed.

Lemma link_dynamic_wp i tables r (P : GuestLinkManifest -> Prop) :
  let type := rd prefix (ph prefix i) 4 in
  0 <= i -> type = 2 \/ type = 0x61000000 -> tables_ok tables -> tables_of i tables -> man_valid r = false -> P r ->
  wp (link_dynamic file layout type (header_offset file i) (header_size file i) tables)
    (fun t r => tables_ok t /\ tables_of (i + 1) t /\ P r) link_rejected r.
Proof.
  intros type Hi Htype [Ht1 Ht2] [Hf1 Hf2] Hv HP. unfold link_dynamic.
  assert (Ho : is_u64 (header_offset file i)) by apply header_offset_u64.
  assert (Hs : is_u64 (header_size file i)) by apply header_size_u64.
  wp_step; wp_step; [done|]. wp_step; wp_step; [done|]. wp_step.
  destruct (logical_slice_total file layout Hlimit Hplanned _ _ Ho Hs) as (l & Hl & Hsrc).
  eapply wp_need; [exact Hl|]. wp_step; wp_step; [done|]. wp_step. reflect_bools.
  assert (Hb : zlen l = header_size file i /\ file_bytes file layout (header_offset file i) (header_size file i) l).
  { destruct Hsrc as [->|?]; [|done]. unfold zlen in *. cbn in *. lia. }
  destruct Hb as [Hz Hb].
  assert (0 < header_size file i) by u64_lia.
  split; [destruct (type =? 2); split; cbn; lia|]. split; [|done].
  destruct Htype as [E|E].
  - assert (Hne : rd prefix (ph prefix i) 4 <> 0x61000000) by (fold type; lia).
    rewrite (proj2 (Z.eqb_eq type 2) E) in *. split; cbn; [|by apply table_skip].
    apply only_header_new; try done. by destruct (have_dynamic tables).
  - assert (Hne : rd prefix (ph prefix i) 4 <> 2) by (fold type; lia).
    rewrite (proj2 (Z.eqb_neq type 2)) in * by lia. split; cbn; [by apply table_skip|].
    apply only_header_new; try done. by destruct (have_dynlib tables).
Qed.

Lemma link_tls_wp i strings symbols entries k l f r :
  0 <= i -> rd prefix (ph prefix i) 4 = 7 -> tls_read file layout i f ->
  0 <= ph prefix i -> ph prefix i + 56 <= zlen prefix -> link_inv segs collect strings symbols entries k l (0, f) r ->
  wp (link_tls file layout (ph prefix i) (header_offset file i) (rd prefix (ph prefix i + 16) 8)
        (header_size file i) (rd prefix (ph prefix i + 40) 8))
    (fun _ r => exists f, tls_read file layout (i + 1) f /\
       link_inv segs collect strings symbols entries k l (0, f) r) link_rejected r.
Proof.
  intros Hi Htype Hread H0 Hph [He Hv Ht Hn Hy Hr Hh]. unfold link_tls. fold prefix segs.
  assert (Ho : is_u64 (header_offset file i)) by apply header_offset_u64.
  assert (Hs : is_u64 (header_size file i)) by apply header_size_u64.
  set (address := rd prefix (ph prefix i + 16) 8). set (memory := rd prefix (ph prefix i + 40) 8).
  assert (Ha : is_u64 address) by apply rd_u64.
  assert (Hm : is_u64 memory) by apply rd_u64.
  pose proof (zlen_prefix_of file) as Hz. fold prefix in Hz. unfold GuestPayloadFileLimit in *.
  wp_step; wp_step. wp_step; wp_step. wp_step; wp_step; [done|]. reflect_bools.
  assert (Hz0 : tls_segments r = 0).
  { destruct Ht as [?|[Heq _]]; [done|]. rewrite Heq in *. unwrap_all. lia. }
  assert (Hnone : headers_of file 7 i = []).
  { unfold tls_read in Hread. destruct (headers_of file 7 i) as [|i0 [|]]; [done| |done].
    destruct Hread as [-> _]. unfold heading, tls_fields in Hh. injection Hh as _ Hseg. lia. }
  wp_step; wp_access. name_reads. wp_step; wp_step; [done|]. unwrap_all.
  set (size := header_size file i) in *.
  assert (Htm : exists t, wp (if size =? 0 then ret [] else need (logical_slice file (file_ranges layout) (header_offset file i) size))
     (fun x r' => x = t /\ r' = r <| tls_segments ::= fun n => n +64 1 |>)
     link_rejected (r <| tls_segments ::= fun n => n +64 1 |>) /\
     (size <> 0 -> t = [] \/ file_bytes file layout (header_offset file i) size t)).
  { destruct (size =? 0) eqn:E; [exists []; split; [by apply wp_ret|lia]|].
    destruct (logical_slice_total file layout Hlimit Hplanned (header_offset file i) size Ho Hs) as (t & Htt & Hsrc).
    exists t. split; [eapply wp_need; [exact Htt|done]|]. intros _. destruct Hsrc as [?|[_ ?]]; [by left|by right]. }
  destruct Htm as (t & Htm & Hsrc). wp_step. eapply wp_conseq; [exact Htm| |done].
  intros x r' [-> ->]. wp_step; wp_step; [done|]. wp_step. reflect_bools.
  eexists. split; cycle 1.
  { split; try assumption; [|frame_manifest..|].
    - right. cbn. rewrite Hz0. split; [done|]. split; cbn.
      + split; [u64_lia|done].
      + intros Hal. rewrite (proj2 (Z.ltb_lt _ _) Hal) in *. cbn [andb] in *. reflect_bools.
        pose proof (rd_range prefix (ph prefix i + 48) 8). unwrap_all. done.
      + intros Hne. destruct (mapped segs address memory); [done|].
        rewrite (proj2 (Z.eqb_neq _ _) Hne) in *. done.
    - unfold heading, tls_fields. cbn. unfold heading in Hh. injection Hh as -> _. rewrite Hz0. reflexivity. }
  unfold tls_read. rewrite headers_of_snoc, Hnone, Htype by done. cbn [Z.eqb Pos.eqb app]. split; [done|].
  intros Hne. exists t. fold size.
  assert (zlen t = size) by (rewrite (proj2 (Z.eqb_neq size 0) Hne) in *; cbn [negb andb] in *; reflect_bools; done).
  split; [done|]. destruct (Hsrc Hne) as [->|?]; [|done]. unfold zlen in *. cbn in *. lia.
Qed.

Lemma link_header_wp phoff tables i strings symbols entries k l r :
  phoff = header_phoff prefix -> 0 <= i < header_phnum prefix -> tables_ok tables -> tables_of i tables ->
  (exists f, tls_read file layout i f /\ link_inv segs collect strings symbols entries k l (0, f) r) ->
  wp (link_header file layout (accepted_header prefix) phoff tables i)
    (fun t r => tables_ok t /\ tables_of (i + 1) t /\
       exists f, tls_read file layout (i + 1) f /\ link_inv segs collect strings symbols entries k l (0, f) r)
    link_rejected r.
Proof.
  intros -> Hi Ht Hof (f & Hread & Hinv). unfold link_header. fold prefix.
  pose proof (pp_acceptable _ _ Hplanned) as Hok. fold prefix in Hok.
  pose proof (pa_table _ _ _ Hok) as Htab. pose proof (elf_offset_of_nonneg prefix).
  pose proof (rd_nonneg prefix (elf_offset_of prefix + 32) 8) as Rp. fold (header_phoff prefix) in Rp.
  pose proof (pa_count _ _ _ Hok) as Hcnt.
  pose proof (zlen_prefix_of file) as Hz. fold prefix in Hz. unfold GuestPayloadFileLimit in *.
  change (elf_offset (accepted_header prefix)) with (elf_offset_of prefix).
  assert (Hph : elf_offset_of prefix +64 header_phoff prefix +64 i *64 56 = ph prefix i)
    by (unfold ph; by unwrap).
  rewrite Hph. assert (0 <= ph prefix i /\ ph prefix i + 56 <= zlen prefix) as [??] by (unfold ph; lia).
  wp_go; name_reads; unwrap_all.
  - fold (header_offset file i) (header_size file i).
    apply (link_dynamic_wp i tables r (fun r => exists f, tls_read file layout (i + 1) f /\
       link_inv segs collect strings symbols entries k l (0, f) r)); try done; try lia; [by destruct Hinv|].
    exists f. split; [|done]. apply tls_read_skip; [lia|lia|done].
  - fold (header_offset file i) (header_size file i).
    eapply wp_conseq; [eapply link_tls_wp; try exact Hinv; try assumption; lia| |done].
    intros [] r' Hr'. cbn beta. apply wp_ret. split; [done|]. split; [|done]. apply tables_of_skip; [lia..|done].
  - split; [done|]. split; [apply tables_of_skip; [lia..|done]|]. exists f. split; [|done].
    apply tls_read_skip; [lia|lia|done].
Qed.

(** ** The dynamic entries *)

Record tags_ok (t : Tags) : Prop := {
  to_values : map_Forall (fun _ v => is_u64 v) (tags t);
  to_names : Forall (fun e => (fst e = 1 \/ fst e = 0x6100000f \/ fst e = 0x61000015) /\ is_u64 (snd e)) (names t);
  to_count : zlen (names t) <= 512
}.

(** The value of a tag that an entry list has at most once. *)
Definition the_tag (m : gmap Z Z) (entries : list (Z * Z)) (tag : Z) : Prop :=
  tagged tag entries = match m !! tag with Some v => [(tag, v)] | None => [] end.

(** The tags are those of the first [k] entries. *)
Record tags_of (bytes : list byte) (k : Z) (t : Tags) : Prop := {
  ta_end : terminated t = ends bytes k;
  ta_names : names t = dependencies (entries_of bytes k);
  ta_tags : forall tag, names_a_table tag = true -> the_tag (tags t) (entries_of bytes k) tag
}.

Lemma entries_of_snoc bytes k : 0 <= k ->
  entries_of bytes (k + 1) =
    entries_of bytes k ++ (if ends bytes k || (fst (entry_at bytes k) =? 0) then [] else [entry_at bytes k]) /\
  ends bytes (k + 1) = ends bytes k || (fst (entry_at bytes k) =? 0).
Proof.
  intros Hk. unfold entries_of, ends. rewrite indices_snoc, List.map_app by done. cbn [List.map].
  rewrite before_end_snoc, existsb_app. cbn [existsb]. by rewrite orb_false_r.
Qed.

Lemma the_tag_other m entries e tag : fst e <> tag -> the_tag m entries tag -> the_tag m (entries ++ [e]) tag.
Proof. intros Hne H. unfold the_tag. by rewrite tagged_snoc, (proj2 (Z.eqb_neq _ _) Hne), app_nil_r. Qed.

Lemma the_tag_insert m entries tag value tag' : m !! tag = None -> the_tag m entries tag' ->
  the_tag (<[tag := value]> m) (entries ++ [(tag, value)]) tag'.
Proof.
  intros Hn H. destruct (decide (tag = tag')) as [<-|Hne].
  - unfold the_tag in *. rewrite Hn in H. by rewrite lookup_insert_eq, tagged_snoc, H, Z.eqb_refl.
  - apply the_tag_other; [done|]. unfold the_tag. by rewrite lookup_insert_ne.
Qed.

Lemma dependencies_snoc l e :
  dependencies (l ++ [e]) = dependencies l ++ (if names_a_dependency (fst e) then [e] else []).
Proof. unfold dependencies. rewrite List.filter_app. cbn. by destruct (names_a_dependency _). Qed.

Lemma land_odd x : negb (Z.land x 1 =? 0) = Z.odd x.
Proof.
  change (Z.land x 1) with (Z.land x (Z.ones 1)). rewrite Z.land_ones by done. change (2 ^ 1) with 2.
  rewrite Zmod_odd. by destruct (Z.odd x).
Qed.

Lemma zlen_entries_of bytes k : 0 <= k -> 0 <= zlen (entries_of bytes k) <= k.
Proof.
  intros Hk. unfold entries_of. split; [apply zlen_nonneg|].
  assert (H : forall l, zlen (before_end l) <= zlen l).
  { induction l as [|e l IH]; [done|]. unfold zlen in *. cbn [before_end length]. destruct (fst e =? 0); cbn [length]; lia. }
  etrans; [apply H|]. unfold zlen, indices. rewrite List.length_map, length_fmap, length_seq. lia.
Qed.

(** What one entry does to the tags. *)
Lemma link_tag_wp bytes locals j strings symbols k l f r :
  zlen bytes <= 65536 -> 0 <= j -> j * 16 + 16 <= zlen bytes -> tags_ok locals -> tags_of bytes j locals ->
  link_inv segs collect strings symbols [] k l (zlen (entries_of bytes j), f) r ->
  wp (link_tag bytes locals (j * 16))
    (fun t r => tags_ok t /\ tags_of bytes (j + 1) t /\
       link_inv segs collect strings symbols [] k l (zlen (entries_of bytes (j + 1)), f) r) link_rejected r.
Proof.
  intros Hb H0 Ho Htags [T1 T2 T3] Hinv. pose proof Hinv as [He Hv Ht Hn Hy Hr Hh]. unfold link_tag.
  destruct (entries_of_snoc bytes j H0) as [Es Et]. pose proof (zlen_entries_of bytes j H0).
  wp_step.
  { apply wp_ret. rewrite <- T1 in Es, Et. cbn [orb] in *. rewrite Es, app_nil_r. split; [done|]. split; [|done].
    split; [congruence|by rewrite Es, app_nil_r|by rewrite Es, app_nil_r]. }
  rewrite <- T1 in Es, Et. cbn [orb] in Es, Et.
  wp_step; wp_access. wp_step; wp_access. name_reads. unwrap_all.
  change (rd bytes (j * 16) 8) with (fst (entry_at bytes j)).
  change (rd bytes (j * 16 + 8) 8) with (snd (entry_at bytes j)).
  assert (Hu : is_u64 (fst (entry_at bytes j)) /\ is_u64 (snd (entry_at bytes j))) by (split; apply rd_u64).
  destruct (entry_at bytes j) as [tag value] eqn:Ee. cbn [fst snd] in *.
  destruct Htags as [Hval Hnames Hcount].
  wp_step.
  { apply wp_ret. rewrite Es, app_nil_r. split; [done|]. split; [|done].
    split; cbn; [done|by rewrite Es, app_nil_r|by rewrite Es, app_nil_r]. }
  wp_step; wp_step.
  assert (Hinv' : link_inv segs collect strings symbols [] k l (zlen (entries_of bytes (j + 1)), f)
                    (r <| dynamic_entries ::= fun n => n +64 1 |>)).
  { split; [done|done|frame_manifest..|]. unfold heading in *. cbn. injection Hh as Hd <-. rewrite Hd, Es.
    rewrite zlen_app. unfold zlen at 3. cbn [length]. f_equal. by unwrap. }
  destruct ((tag =? 1) || (tag =? 0x6100000f) || (tag =? 0x61000015)) eqn:Edep.
  - wp_step; wp_step; [done|]. wp_step. split; [|split; [|exact Hinv']].
    + split; cbn; [done| |].
      * apply Forall_app. split; [done|]. constructor; [|done]. cbn. split; [lia|apply Hu].
      * rewrite zlen_app. unfold zlen at 2. cbn. lia.
    + split; cbn; [done| |].
      * rewrite Es, dependencies_snoc, T2. unfold names_a_dependency. cbn [fst]. by rewrite Edep.
      * intros t Htab. rewrite Es. apply the_tag_other; [|by apply T3]. cbn. unfold names_a_table in Htab.
        intros ->. rewrite !orb_true_iff, !Z.eqb_eq in Edep. by destruct Edep as [[-> | ->]| ->].
  - change (names_a_dependency tag = false) in Edep. rewrite <- andb_assoc, land_odd. destruct ((0x61000029 <=? tag) && ((tag <=? 0x6100003f) && Z.odd tag)) eqn:Etab.
    + wp_step; wp_step; [done|]. wp_step. split; [|split; [|exact Hinv']].
      * split; cbn; try done. apply map_Forall_insert_2; [apply Hu|done].
      * assert (Hn0 : tags locals !! tag = None).
        { match goal with H : bool_decide (is_Some _) = false |- _ => apply bool_decide_eq_false in H end.
          by apply eq_None_not_Some. }
        split; cbn; [done|rewrite Es, dependencies_snoc; cbn [fst]; by rewrite Edep, app_nil_r|].
        intros t Htt. rewrite Es. apply the_tag_insert; [done|by apply T3].
    + wp_step. split; [by split|split; [|exact Hinv']].
      split; cbn; [congruence| |].
      * rewrite Es, dependencies_snoc. cbn [fst]. by rewrite Edep, app_nil_r.
      * intros t Htt. rewrite Es. apply the_tag_other; [|by apply T3]. cbn. intros ->. unfold names_a_table in Htt.
        rewrite <- andb_assoc in Htt. congruence.
Qed.

Lemma table_total m bytes offset_tag size_tag :
  map_Forall (fun _ v => is_u64 v) m -> zlen bytes <= U64_MAX ->
  exists l, table m bytes offset_tag size_tag = Some l /\ zlen l <= zlen bytes.
Proof.
  intros Hm Hb. pose proof (zlen_nonneg bytes).
  assert (Hz : zlen (@nil byte) <= zlen bytes) by (unfold zlen at 1; cbn; lia).
  assert (Hat : forall t, is_u64 (at_tag m t)).
  { intros t. unfold at_tag. destruct (m !! t) eqn:E; cbn; [by eapply Hm|u64_lia]. }
  pose proof (Hat offset_tag). pose proof (Hat size_tag).
  unfold table. destruct (_ || _); [by eexists|]. destruct (_ || _) eqn:E; [by eexists|].
  reflect_bools. unwrap_all.
  destruct (slice_Some bytes (at_tag m offset_tag) (at_tag m size_tag)) as (s & Hs & Hl & _); [u64_lia..|].
  exists s. split; [done|u64_lia].
Qed.

(** ** The dependency names *)

Lemma link_name_wp strings symbols nb entries e k l h r :
  zlen strings <= 4194304 -> 0 <= nb <= 1048576 ->
  (fst e = 1 \/ fst e = 0x6100000f \/ fst e = 0x61000015) -> is_u64 (snd e) ->
  link_inv segs collect strings symbols entries k l h r ->
  wp (link_name collect strings nb e)
    (fun nb' r => 0 <= nb' <= 1048576 /\ link_inv segs collect strings symbols (entries ++ [e]) k l h r)
    link_rejected r.
Proof.
  intros Hs Hnb Htag Hval [He Hv Ht [N1 N2 N3 N4 N5] Hy Hr Hh]. destruct e as [tag value]. unfold link_name.
  cbn [fst snd] in *.
  destruct (string_at strings nb _) as [[name|] nb'] eqn:Hstr; [|by apply wp_fail].
  apply string_at_spec in Hstr as (Hok & Hat & Hnb' & Hle);
    [|destruct (tag =? 1); [u64_lia|apply Z.land_nonneg; right; lia]|u64_lia|done].
  assert (Hdep : dependency_ok strings (tag, value) name) by (split; done).
  pose proof (zlen_nonneg name).
  assert (Hl1 : forall t (ns : list (list byte)), Forall2 (dependency_ok strings) (tagged t entries) ns ->
    length ns = length (tagged t entries)) by (intros ?? H2; symmetry; by eapply Forall2_length).
  assert (Hgoal : forall r', 
    r' = (let r1 := if collect && negb (tag =? 1) then
             (if tag =? 0x6100000f
              then r <| module_records ::= fun l => l ++ [mkGuestLinkDependency name value] |>
              else r <| library_records ::= fun l => l ++ [mkGuestLinkDependency name value] |>) else r in
          if tag =? 1 then r1 <| needed ::= fun l => l ++ [name] |>
          else if tag =? 0x6100000f then r1 <| modules ::= fun l => l ++ [name] |>
          else r1 <| libraries ::= fun l => l ++ [name] |>) ->
    link_inv segs collect strings symbols (entries ++ [(tag, value)]) k l h r').
  { intros r' ->.
    destruct Htag as [->|[->| ->]]; cbn [Z.eqb Pos.eqb negb]; destruct collect eqn:Ec; cbn [andb];
      (split; [done|done|frame_manifest| |frame_manifest..]);
      (split; cbn -[tagged records_of]; rewrite !tagged_snoc; cbn [fst Z.eqb Pos.eqb]; rewrite ?app_nil_r; try assumption;
       try (apply Forall2_app; [assumption|by constructor]);
       rewrite ?N4, ?N5; rewrite records_snoc by (by apply Hl1); cbn; rewrite ?app_nil_r; done). }
  apply wp_bind. apply wp_when; intros Hc; [apply wp_modify|]; apply wp_bind, wp_modify, wp_ret;
    (split; [lia|apply Hgoal; cbv zeta; by rewrite Hc]).
Qed.

(** ** The symbols *)

Lemma symbol_info_bits b : 0 <= b <= 255 -> 0 <= Z.shiftr b 4 <= 15 /\ 0 <= Z.land b 15 <= 15.
Proof.
  intros Hb. pose proof (Z.land_ones b 4 ltac:(lia)) as Hl. change (Z.ones 4) with 15 in Hl.
  rewrite Hl, Z.shiftr_div_pow2 by lia. change (2 ^ 4) with 16.
  pose proof (Z.mod_pos_bound b 16). pose proof (Z.div_pos b 16).
  pose proof (Z.div_lt_upper_bound b 16 16). lia.
Qed.

Lemma imported_bound symbols k : 0 <= k -> zlen (imported symbols k) <= k.
Proof.
  intros Hk. pose proof (filter_zlen (fun i => undefined (symbol_at symbols i)) (indices k)).
  unfold indices in H at 3. unfold zlen at 3 in H. rewrite length_fmap, length_seq in H.
  unfold imported. lia.
Qed.

Lemma imported_of_type_bound symbols k p : 0 <= k -> 0 <= imported_of_type symbols k p <= k.
Proof.
  intros Hk. pose proof (imported_bound symbols k Hk).
  pose proof (filter_zlen (fun i => p (sym_type (symbol_at symbols i))) (imported symbols k)).
  unfold imported_of_type. lia.
Qed.

Lemma symbols_done_skip strings symbols k r :
  0 <= k -> symbols_done collect strings symbols k r -> undefined (symbol_at symbols k) = false ->
  symbols_done collect strings symbols (k + 1)
    (if collect then r <| symbol_records ::= fun l => l ++ [symbol_at symbols k] |> else r).
Proof.
  intros Hk [S1 S2 S3 S4 S5 S6 S7] Hu.
  assert (Hi : imported symbols (k + 1) = imported symbols k)
    by (rewrite imported_snoc, Hu, app_nil_r by done; done).
  destruct collect; split; cbn -[imported imported_of_type symbol_at]; rewrite ?imported_of_type_snoc, ?Hi, ?Hu by done;
    try assumption; try (cbn [andb]; lia).
  rewrite indices_snoc, List.map_app, S1 by done. done.
Qed.

Lemma symbols_done_import strings symbols k name r r' :
  0 <= k <= 131072 -> symbols_done collect strings symbols k r -> undefined (symbol_at symbols k) = true ->
  name_ok name -> name_at strings (rd symbols (k * 24) 4) name -> zlen (man_imports r) < 8192 ->
  r' = (let r1 := (if collect then r <| symbol_records ::= fun l => l ++ [symbol_at symbols k] |> else r)
                    <| man_imports ::= fun l => l ++ [name] |> in
        let r2 := if collect then r1 <| import_symbol_indices ::= fun l => l ++ [k] |> else r1 in
        if sym_type (symbol_at symbols k) =? 2 then r2 <| undefined_functions ::= fun n => n +64 1 |>
        else if sym_type (symbol_at symbols k) =? 1 then r2 <| undefined_objects ::= fun n => n +64 1 |>
        else r2 <| undefined_other ::= fun n => n +64 1 |>) ->
  symbols_done collect strings symbols (k + 1) r'.
Proof.
  intros Hk [S1 S2 S3 S4 S5 S6 S7] Hu Hok Hat Hb ->.
  pose proof (imported_of_type_bound symbols k (fun t => t =? 2) ltac:(lia)).
  pose proof (imported_of_type_bound symbols k (fun t => t =? 1) ltac:(lia)).
  pose proof (imported_of_type_bound symbols k (fun t => negb (t =? 2) && negb (t =? 1)) ltac:(lia)).
  assert (Hi : imported symbols (k + 1) = imported symbols k ++ [k])
    by (rewrite imported_snoc, Hu by lia; done).
  cbv zeta. destruct (sym_type (symbol_at symbols k) =? 2) eqn:E2;
    [assert (E1 : (sym_type (symbol_at symbols k) =? 1) = false) by lia
    |destruct (sym_type (symbol_at symbols k) =? 1) eqn:E1]; destruct collect;
    split; cbn -[imported imported_of_type symbol_at];
    rewrite ?imported_of_type_snoc, ?Hi, ?Hu, ?E2, ?E1, ?S5, ?S6, ?S7 by lia; cbn [negb andb]; unwrap;
    try (rewrite zlen_app; unfold zlen at 2; cbn [length]);
    try (rewrite S4; reflexivity); try assumption; try lia;
    try (apply Forall2_app; [assumption|constructor; [split; assumption|constructor]]);
    try (rewrite indices_snoc, List.map_app, S1 by lia; reflexivity).
Qed.

Lemma link_symbol_wp strings symbols nb k entries l h r :
  zlen strings <= 4194304 -> zlen symbols <= 131072 * 24 -> 0 <= nb <= 1048576 ->
  0 <= k -> k * 24 + 24 <= zlen symbols ->
  link_inv segs collect strings symbols entries k l h r ->
  wp (link_symbol collect strings symbols nb (k * 24))
    (fun nb' r' => 0 <= nb' <= 1048576 /\ man_symbols r' = man_symbols r /\
       link_inv segs collect strings symbols entries (k + 1) l h r')
    link_rejected r.
Proof.
  intros Hs Hsy Hnb Hk Hend [He Hv Ht Hn Hy Hr Hh]. unfold link_symbol.
  wp_step; wp_access. wp_step; wp_access. wp_step; wp_access. wp_step; wp_access.
  pose proof (byte_at_range symbols (k * 24 + 4)) as Rb. name_reads. unwrap_all.
  pose proof (symbol_info_bits _ Rb) as [Rbind Rtype].
  set (bind := Z.shiftr (byte_at symbols (k * 24 + 4)) 4) in *.
  set (type := Z.land (byte_at symbols (k * 24 + 4)) 15) in *.
  assert (Hsym : mkGuestLinkSymbol (rd symbols (k * 24 + 8) 8) (rd symbols (k * 24 + 16) 8)
     (rd symbols (k * 24 + 6) 2) (wrap8 bind) (wrap8 type) = symbol_at symbols k).
  { unfold symbol_at. fold bind type. unfold wrap8. rewrite !Z.mod_small by lia. done. }
  rewrite Hsym.
  assert (Hund : undefined (symbol_at symbols k) =
    negb (negb (rd symbols (k * 24 + 6) 2 =? 0) || (negb (bind =? 1) && negb (bind =? 2)))).
  { unfold undefined, symbol_at. cbn [sym_section sym_binding]. fold bind.
    by rewrite negb_orb, negb_andb, !negb_involutive. }
  set (r1 := if collect then r <| symbol_records ::= fun l => l ++ [symbol_at symbols k] |> else r).
  assert (Hr1 : man_valid r1 = false /\ man_imports r1 = man_imports r /\ man_symbols r1 = man_symbols r /\ man_error r1 = "" /\ tls_ok segs r1 /\
                names_done collect strings entries r1 /\ relocations_done segs collect l r1 /\ heading r1 = h).
  { unfold r1. destruct collect; split_and!; try done; frame_manifest. }
  destruct Hr1 as (Hv1 & Hi1 & Hm1 & He1 & Ht1 & Hn1 & Hr1 & Hh1).
  apply wp_bind. apply wp_conseq with (Q := fun _ r' => r' = r1) (E := link_rejected); [|intros [] r' ->|done].
  { unfold r1. apply wp_when; intros ->; [by apply wp_modify|done]. }
  destruct (negb (rd symbols (k * 24 + 6) 2 =? 0) || _) eqn:Eu; cbn [negb] in Hund.
  { apply wp_ret. split; [done|]. split; [done|]. split; try assumption. by apply symbols_done_skip. }
  wp_step; wp_step. wp_step; wp_step; [done|]. wp_step; wp_access. name_reads. reflect_bools.
  rewrite Hi1 in *.
  destruct (string_at strings nb _) as [[name|] nb'] eqn:Hstr; [|by apply wp_fail].
  apply string_at_spec in Hstr as (Hok & Hat & Hnb' & Hle); [|apply rd_nonneg|u64_lia|done].
  pose proof (zlen_nonneg name).
  assert (Hdiv : wrap32 (k * 24 / 24) = k) by (rewrite Z.div_mul by lia; unwrap; done).
  rewrite Hdiv. unfold type.
  pose proof (symbols_done_import strings symbols k name r _ ltac:(lia) Hy Hund Hok Hat ltac:(lia) eq_refl) as Hy'.
  cbv zeta in Hy'. fold r1 in Hy'.
  wp_step; wp_step. apply wp_bind. apply wp_when; intros Hc; rewrite Hc in Hy'; [apply wp_modify|];
    apply wp_bind, wp_modify, wp_ret; (split; [lia|]);
    (split; [by repeat case_match|]);
    change (Z.land (byte_at symbols (k * 24 + 4)) 15) with (sym_type (symbol_at symbols k));
    (destruct (sym_type (symbol_at symbols k) =? 2); [|destruct (sym_type (symbol_at symbols k) =? 1)];
     (split; [exact He1|exact Hv1|frame_manifest|frame_manifest|rewrite Hc; exact Hy'|frame_manifest|exact Hh1])).
Qed.

(** ** The relocations *)

Lemma relocation_width_cases t :
  relocation_width t = if (t =? 8) || (t =? 7) then 8
    else if is_symbol_type t then (if (t =? 2) || (t =? 10) || (t =? 11) then 4 else 8)
    else if is_tls_type t then (if t =? 36 then 16 else 8) else 0.
Proof. unfold relocation_width, is_symbol_type, is_tls_type. by destruct (t =? 8). Qed.

Lemma relocation_width_nonneg t : 0 <= relocation_width t <= 16.
Proof. rewrite relocation_width_cases. repeat case_match; lia. Qed.

(** Counting one more relocation. *)
Lemma relocations_done_snoc l x r r' :
  relocations_done segs collect l r -> relocation_ok segs (man_symbols r) x -> zlen l <= 1048576 ->
  r' = (let r1 := (if collect then r <| relocation_records ::= fun l => l ++ [x] |> else r)
                    <| relocations ::= fun n => n +64 1 |> in
        let r2 := count_relocation (rel_type x) r1 in
        if negb (relocation_width (rel_type x) =? 0)
        then r2 <| target_checks ::= fun n => n +64 1 |> else r2) ->
  relocations_done segs collect (l ++ [x]) r'.
Proof.
  intros [R1 R2 R3 R4 R5 R6 R7 R8 R9] Hx Hb ->. cbv zeta.
  pose proof (fun p => counted_bound p l) as Hc.
  pose proof (Hc (fun t => t =? 8)). pose proof (Hc (fun t => t =? 7)). pose proof (Hc is_symbol_type).
  pose proof (Hc is_tls_type). pose proof (Hc (fun t => negb (relocation_width t =? 0))).
  pose proof (Hc (fun t => (relocation_width t =? 0) && negb (t =? 0))). clear Hc.
  pose proof (zlen_nonneg l). rewrite relocation_width_cases.
  assert (Hsnoc : forall p, counted p (l ++ [x]) = counted p l + (if p (rel_type x) then 1 else 0))
    by (intros; apply counted_snoc).
  assert (Hs : zlen (l ++ [x]) = zlen l + 1) by (rewrite zlen_app; done).
  unfold count_relocation. fold (is_symbol_type (rel_type x)). fold (is_tls_type (rel_type x)).
  assert (Hw := relocation_width_cases (rel_type x)).
  destruct (rel_type x =? 8) eqn:E8; [|destruct (rel_type x =? 7) eqn:E7;
    [|destruct (is_symbol_type (rel_type x)) eqn:Es; [|destruct (is_tls_type (rel_type x)) eqn:Et;
      [|destruct (rel_type x =? 0) eqn:E0]]]]; cbn [orb] in *.
  all: assert (Hk : (rel_type x =? 7) = false \/ (rel_type x =? 8) = false) by lia.
  all: try (assert ((rel_type x =? 7) = false) by (clear Hk; lia)).
  all: try (assert (is_symbol_type (rel_type x) = false) by (unfold is_symbol_type; lia)).
  all: try (assert (is_tls_type (rel_type x) = false) by (unfold is_symbol_type, is_tls_type in *; lia)).
  all: try (destruct ((rel_type x =? 2) || (rel_type x =? 10) || (rel_type x =? 11))).
  all: try (destruct (rel_type x =? 36)).
  all: destruct collect; cbn [negb Z.eqb]; split;
      cbn -[counted is_symbol_type is_tls_type relocation_width];
      try (apply Forall_app; split; [assumption|constructor; [exact Hx|constructor]]);
      rewrite ?Hsnoc, ?Hs, ?Hw, ?R2, ?R3, ?R4, ?R5, ?R6, ?R7, ?R8, ?R9, ?E8, ?E7, ?Es, ?Et; cbn [negb andb Z.eqb]; unwrap.
  all: try reflexivity.
  all: repeat match goal with H : ?b = _ |- context [if negb ?b then _ else _] => rewrite H | H : ?b = false |- context [?b] => rewrite H end; cbn [negb andb]; try lia.
Qed.

Lemma count_relocation_frame t r :
  man_error (count_relocation t r) = man_error r /\ man_valid (count_relocation t r) = man_valid r /\
  man_symbols (count_relocation t r) = man_symbols r /\ heading (count_relocation t r) = heading r.
Proof. unfold count_relocation. repeat case_match; done. Qed.

Lemma count_relocation_names strings entries t r :
  names_done collect strings entries r -> names_done collect strings entries (count_relocation t r).
Proof. intros H. unfold count_relocation. repeat case_match; frame_manifest. Qed.
Lemma count_relocation_symbols strings symbols k t r :
  symbols_done collect strings symbols k r -> symbols_done collect strings symbols k (count_relocation t r).
Proof. intros H. unfold count_relocation. repeat case_match; frame_manifest. Qed.
Lemma count_relocation_tls t r : tls_ok segs r -> tls_ok segs (count_relocation t r).
Proof. intros H. unfold count_relocation. repeat case_match; frame_manifest. Qed.

(** The symbols are counted and the relocations [l] seen. *)
Definition with_relocations (strings symbols : list byte) (entries : list (Z * Z)) (k n : Z)
    (h : Z * (Z * Z * Z * Z * Z)) (l : list GuestLinkRelocation) (r : GuestLinkManifest) : Prop :=
  man_symbols r = n /\ link_inv segs collect strings symbols entries k l h r.

Lemma link_relocation_wp bytes i strings symbols entries k n h l r :
  zlen bytes <= U64_MAX -> 0 <= i -> i * 24 + 24 <= zlen bytes -> 0 <= n <= 131072 ->
  zlen l <= 1048576 -> with_relocations strings symbols entries k n h l r ->
  wp (link_relocation layout collect bytes (i * 24))
    (fun _ => with_relocations strings symbols entries k n h (l ++ [relocation_at bytes i])) link_rejected r.
Proof.
  intros Hb Hi He Hn Hbud [Hm [Her Hv Ht Hnm Hy Hr Hh]]. unfold link_relocation. fold segs.
  set (offset := i * 24) in *.
  wp_step; wp_access. wp_step; wp_access. name_reads. unwrap_all.
  wp_step; wp_step. wp_step; wp_step; [done|]. wp_step; wp_access. name_reads. unwrap_all. reflect_bools.
  set (info := rd bytes (offset + 8) 8) in *. set (a := rd bytes offset 8) in *.
  set (d := rd bytes (offset + 16) 8) in *. rewrite Hm in *.
  assert (Hsym : 0 <= Z.shiftr info 32) by (apply Z.shiftr_nonneg; lia).
  assert (Hw : wrap32 (Z.shiftr info 32) = Z.shiftr info 32) by (apply wrap32_small; u64_lia). rewrite Hw.
  set (x := mkGuestLinkRelocation a d (wrap32 info) (Z.shiftr info 32)).
  assert (Ex : relocation_at bytes i = x).
  { unfold relocation_at, x. fold offset. fold a d info. by rewrite Z.shiftr_div_pow2. }
  rewrite Ex.
  set (r1 := if collect then r <| relocation_records ::= fun l => l ++ [x] |> else r).
  apply wp_bind. apply wp_conseq with (Q := fun _ r' => r' = r1) (E := link_rejected); [|intros [] r' ->|done].
  { unfold r1. apply wp_when; intros ->; [by apply wp_modify|done]. }
  wp_step; wp_step. wp_step; wp_step.
  set (r2 := count_relocation (wrap32 info) (r1 <| relocations ::= fun n => n +64 1 |>)).
  assert (Hx : (relocation_width (wrap32 info) <> 0 -> mapped segs a (relocation_width (wrap32 info)) = true) ->
    relocation_ok segs (man_symbols r) x).
  { intros Hmap. unfold x. pose proof (wrap32_range info). split; cbn; [lia|lia|u64_lia|done|done]. }
  assert (Hdone : forall r', 
    r' = (if negb (relocation_width (wrap32 info) =? 0) then r2 <| target_checks ::= fun n => n +64 1 |> else r2) ->
    relocation_ok segs (man_symbols r) x -> with_relocations strings symbols entries k n h (l ++ [x]) r').
  { intros r' Hr' Hok.
    pose proof (relocations_done_snoc l x r r' Hr Hok ltac:(lia) Hr') as Hd.
    assert (Hf : man_symbols r2 = n /\ man_error r2 = "" /\ man_valid r2 = false /\ tls_ok segs r2 /\
      names_done collect strings entries r2 /\ symbols_done collect strings symbols k r2 /\ heading r2 = h).
    { destruct (count_relocation_frame (wrap32 info) (r1 <| relocations ::= fun n => n +64 1 |>)) as (F1 & F2 & F3 & F4).
      fold r2 in F1, F2, F3, F4. rewrite F1, F2, F3, F4. unfold r2, r1 in *.
      split_and!; try (by destruct collect); try (destruct collect; exact Hh);
        [apply count_relocation_tls|apply count_relocation_names|apply count_relocation_symbols];
        destruct collect; frame_manifest. }
    destruct Hf as (F1 & F2 & F3 & F4 & F5 & F6 & F7).
    split; [subst r'; destruct (negb (relocation_width (wrap32 info) =? 0)); exact F1|].
    subst r'. destruct (negb (relocation_width (wrap32 info) =? 0)); (split; [exact F2|exact F3|frame_manifest|frame_manifest|frame_manifest|exact Hd|exact F7]). }
  apply wp_when; intros Hwd.
  - wp_step; wp_step; [split; [done|] |].
    { destruct (count_relocation_frame (wrap32 info) (r1 <| relocations ::= fun n => n +64 1 |>)) as (_ & F & _).
      fold r2 in F. rewrite F. unfold r1. by destruct collect. }
    wp_step. reflect_bools. apply Hdone; [by rewrite (proj2 (Z.eqb_neq _ _) Hwd)|auto].
  - reflect_bools. apply Hdone; [by rewrite Hwd|]. apply Hx. by rewrite Hwd.
Qed.

Lemma contains_tag m entries tag : names_a_table tag = true ->
  (forall tag, names_a_table tag = true -> the_tag m entries tag) ->
  tagged tag entries = if contains m tag then [(tag, at_tag m tag)] else [].
Proof.
  intros Htab H. rewrite (H tag Htab). unfold contains, at_tag.
  destruct (m !! tag) as [v|]; [by rewrite bool_decide_eq_true_2|rewrite bool_decide_eq_false_2; [done|by intros []]].
Qed.

(** A table found by its two tags. *)
Lemma table_linked m library entries offset_tag size_tag bytes :
  map_Forall (fun _ v => is_u64 v) m -> zlen library <= U64_MAX ->
  (forall tag, names_a_table tag = true -> the_tag m entries tag) ->
  names_a_table offset_tag = true -> names_a_table size_tag = true ->
  table m library offset_tag size_tag = Some bytes ->
  bytes <> [] \/ (contains m offset_tag = true /\ contains m size_tag = true /\
    at_tag m offset_tag <= zlen library /\ at_tag m size_tag <= zlen library -64 at_tag m offset_tag) ->
  linked_table library entries offset_tag size_tag bytes.
Proof.
  intros Hm Hb Htags Hot Hst. unfold table.
  assert (Hat : forall t, is_u64 (at_tag m t)).
  { intros t. unfold at_tag. destruct (m !! t) eqn:E; cbn; [by eapply Hm|u64_lia]. }
  pose proof (Hat offset_tag). pose proof (Hat size_tag).
  destruct (contains m offset_tag) eqn:Eo; cbn [negb orb]; [|intros [= <-] [?|[? _]]; done].
  destruct (contains m size_tag) eqn:Es; cbn [negb orb]; [|intros [= <-] [?|(_ & ? & _)]; done].
  destruct (_ || _) eqn:E.
  { intros [= <-] [?|(_ & _ & H1 & H2)]; [done|]. rewrite (proj2 (Z.ltb_ge _ _) H1), (proj2 (Z.ltb_ge _ _) H2) in E. done. }
  intros Hs _. reflect_bools. unwrap_all.
  exists (at_tag m offset_tag), (at_tag m size_tag).
  rewrite !(contains_tag m) by done. rewrite Eo, Es. split_and!; try done.
  destruct (slice_Some library (at_tag m offset_tag) (at_tag m size_tag)) as (x & Hx & Hl & _); [u64_lia..|].
  rewrite Hs in Hx. by injection Hx as <-.
Qed.

Lemma link_relocation_table_wp m library (jump_table : bool) strings symbols entries named k n h l r :
  let offset_tag := if jump_table then 0x61000029 else 0x6100002f in
  let size_tag := if jump_table then 0x6100002d else 0x61000031 in
  map_Forall (fun _ v => is_u64 v) m -> zlen library <= 8388608 -> 0 <= n <= 131072 ->
  (forall tag, names_a_table tag = true -> the_tag m entries tag) ->
  zlen l <= 262144 -> with_relocations strings symbols named k n h l r ->
  wp (link_relocation_table layout collect m library jump_table)
    (fun _ r => exists l', zlen l' <= 262144 /\ relocation_table library entries offset_tag size_tag l' /\
       with_relocations strings symbols named k n h (l ++ l') r) link_rejected r.
Proof.
  intros ot st Hm Hlib Hn Htags Hbud Hinv. unfold link_relocation_table. fold ot st.
  assert (Hot : names_a_table ot = true) by (unfold ot; by destruct jump_table).
  assert (Hst : names_a_table st = true) by (unfold st; by destruct jump_table).
  assert (Hv : man_valid r = false) by (by destruct Hinv as [_ []]).
  wp_step.
  { wp_step. exists []. rewrite app_nil_r. split; [done|]. split; [|done]. left. reflect_bools.
    rewrite !(contains_tag m) by done.
    match goal with H1 : contains m ot = false, H2 : contains m st = false |- _ => by rewrite H1, H2 end. }
  destruct (table_total m library ot st Hm ltac:(u64_lia)) as (bytes & Hbytes & Hbl).
  wp_step. eapply wp_need; [exact Hbytes|]. wp_step; wp_step; [done|].
  repeat match goal with H : (_ || _)%bool = false |- _ => apply orb_false_elim in H; destruct H end.
  reflect_bools. pose proof (zlen_nonneg bytes).
  assert (Hlink : linked_table library entries ot st bytes).
  { apply (table_linked m); try done; [u64_lia|]. right. done. }
  apply wp_forM with (Inv := fun pre =>
    with_relocations strings symbols named k n h (l ++ relocations_in bytes (zlen pre))).
  - unfold relocations_in. cbn. by rewrite app_nil_r.
  - intros pre x post r' Hx Hr'.
    assert (Hpre : zlen pre <= 262144).
    { pose proof (zlen_strided (zlen bytes) 24 ltac:(lia) ltac:(lia) ltac:(done)) as Hz.
      rewrite Hx, zlen_app in Hz. pose proof (zlen_nonneg (x :: post)). lia. }
    apply strided_split in Hx as [-> Hx]; [|lia|lia|done].
    pose proof (zlen_nonneg pre).
    assert (Hsn : relocations_in bytes (zlen (pre ++ [zlen pre * 24])) =
      relocations_in bytes (zlen pre) ++ [relocation_at bytes (zlen pre)]).
    { rewrite zlen_app. unfold zlen at 2. cbn [length]. unfold relocations_in.
      by rewrite indices_snoc, List.map_app by done. }
    rewrite Hsn, app_assoc. apply link_relocation_wp; try done; try u64_lia.
    rewrite zlen_app. unfold relocations_in. unfold zlen at 2. rewrite List.length_map. unfold indices.
    rewrite length_fmap, length_seq. lia.
  - intros r' Hr'. rewrite zlen_strided in Hr' by (lia || done).
    exists (relocations_in bytes (zlen bytes / 24)). split; [|split; [|done]].
    + unfold relocations_in, zlen at 1. rewrite List.length_map. unfold indices. rewrite length_fmap, length_seq. lia.
    + right. by exists bytes.
Qed.

(** ** The whole inspection *)

(** The dynamic data and the library data of the program headers, and the tables that the
    dynamic entries name in the library data. *)
Record tables_read (dynamic dynlib strings symbols : list byte) (plain jumps : list GuestLinkRelocation)
    (entries : list (Z * Z)) : Prop := {
  tr_dynamic : only_header file layout 2 (header_phnum prefix) dynamic;
  tr_dynlib : only_header file layout 0x61000000 (header_phnum prefix) dynlib;
  tr_whole : zlen dynamic mod 16 = 0;
  tr_entries : entries = entries_of dynamic (zlen dynamic / 16);
  tr_end : ends dynamic (zlen dynamic / 16) = true;
  tr_once : forall tag, names_a_table tag = true -> zlen (tagged tag entries) <= 1;
  tr_strings : linked_table dynlib entries 0x61000035 0x61000037 strings;
  tr_symbols : linked_table dynlib entries 0x61000039 0x6100003f symbols;
  tr_symbol_size : tagged 0x6100003b entries = [(0x6100003b, 24)];
  tr_plain : relocation_table dynlib entries 0x6100002f 0x61000031 plain;
  tr_jumps : relocation_table dynlib entries 0x61000029 0x6100002d jumps
}.

(** What a valid manifest reports of the file it was read from. *)
Record manifest_reports (r : GuestLinkManifest) : Prop := {
  mr_error : man_error r = "";
  mr_tls : tls_ok segs r;
  mr_tls_read : tls_read file layout (header_phnum prefix) (tls_fields r);
  mr_tables : exists dynamic dynlib strings symbols plain jumps entries,
    tables_read dynamic dynlib strings symbols plain jumps entries /\
    dynamic_entries r = zlen entries /\
    zlen (dependencies entries) <= 512 /\
    names_done collect strings (dependencies entries) r /\
    zlen symbols = man_symbols r * 24 /\
    symbols_done collect strings symbols (man_symbols r) r /\
    zlen (plain ++ jumps) <= 524288 /\
    relocations_done segs collect (plain ++ jumps) r;
  mr_symbols : 0 < man_symbols r <= 131072
}.

Lemma entries_of_u64 bytes k : Forall (fun e => is_u64 (snd e)) (entries_of bytes k).
Proof.
  unfold entries_of. induction (indices k) as [|i l IH]; cbn [List.map before_end]; [done|].
  destruct (fst _ =? 0); [done|]. constructor; [apply rd_u64|exact IH].
Qed.

Lemma link_inv_init strings symbols :
  link_inv segs collect strings symbols [] 0 [] (0, (0, 0, 0, 0, 0)) manifest_init.
Proof.
  split; try done.
  - by left.
  - split; cbn; try constructor; unfold records_of; by destruct collect.
  - split; try done; try (by destruct collect).
  - split; try done; by destruct collect.
Qed.

Lemma link_inv_rebase strings symbols strings' symbols' h r :
  link_inv segs collect strings symbols [] 0 [] h r -> link_inv segs collect strings' symbols' [] 0 [] h r.
Proof.
  intros [? ? ? [N1 N2 N3 N4 N5] [S1 S2 S3 S4 S5 S6 S7] ? ?].
  change (imported symbols 0) with (@nil Z) in *.
  apply Forall2_nil_inv_l in N1, N2, N3, S2.
  split; try done; split; try done; cbn [tagged List.filter]; rewrite ?N1, ?N2, ?N3; try constructor.
  change (imported symbols' 0) with (@nil Z). rewrite S2. constructor.
Qed.

Lemma the_tag_once m entries tag : the_tag m entries tag -> zlen (tagged tag entries) <= 1.
Proof. unfold the_tag. intros ->. by destruct (m !! tag). Qed.

(** The dynamic entries. *)
Lemma link_entries_wp dyn f r :
  zlen dyn <= 65536 -> zlen dyn mod 16 = 0 -> link_inv segs collect [] [] [] 0 [] (0, f) r ->
  wp (foldM (link_tag dyn) (mkTags ∅ [] false) (strided (zlen dyn) 16))
    (fun t r => tags_ok t /\ tags_of dyn (zlen dyn / 16) t /\
       link_inv segs collect [] [] [] 0 [] (zlen (entries_of dyn (zlen dyn / 16)), f) r) link_rejected r.
Proof.
  intros Hd Hmod Hinv. pose proof (zlen_nonneg dyn).
  apply wp_foldM with (Inv := fun pre t r => tags_ok t /\ tags_of dyn (zlen pre) t /\
    link_inv segs collect [] [] [] 0 [] (zlen (entries_of dyn (zlen pre)), f) r).
  - split; [|split; [|done]]; [split; [done|constructor|cbn; unfold zlen; cbn; lia]|split; done].
  - intros pre x post t r' Hx (Ht & Hof & Hr'). pose proof (zlen_nonneg pre).
    apply strided_split in Hx as [-> Hx]; [|lia|lia|done].
    rewrite zlen_app. apply link_tag_wp; try done; lia.
  - intros t r' H'. by rewrite zlen_strided in H' by (lia || done).
Qed.

(** The dependency names, after the dynamic entries. *)
Lemma link_names_wp strings symbols named h r :
  zlen strings <= 4194304 ->
  Forall (fun e => (fst e = 1 \/ fst e = 0x6100000f \/ fst e = 0x61000015) /\ is_u64 (snd e)) named ->
  link_inv segs collect [] [] [] 0 [] h r ->
  wp (foldM (link_name collect strings) 0 named)
    (fun nb r => 0 <= nb <= 1048576 /\ link_inv segs collect strings symbols named 0 [] h r) link_rejected r.
Proof.
  intros Hs Hnamed Hr. apply wp_foldM with (Inv := fun pre nb r =>
    0 <= nb <= 1048576 /\ link_inv segs collect strings symbols pre 0 [] h r).
  - split; [lia|]. by eapply link_inv_rebase.
  - intros pre e post nb r1 He [Hnb Hr1]. rewrite He in Hnamed.
    apply Forall_app in Hnamed as [_ Hnamed]. apply Forall_cons in Hnamed as [[Htag Hval] _].
    apply link_name_wp; try done; lia.
  - done.
Qed.

(** The symbols, after the names. *)
Lemma link_symbols_wp strings symbols nb named h r :
  zlen strings <= 4194304 -> zlen symbols <= 131072 * 24 -> zlen symbols mod 24 = 0 -> 0 <= nb <= 1048576 ->
  man_symbols r = zlen symbols / 24 ->
  link_inv segs collect strings symbols named 0 [] h r ->
  wp (foldM (link_symbol collect strings symbols) nb (strided (zlen symbols) 24))
    (fun _ => with_relocations strings symbols named (zlen symbols / 24) (zlen symbols / 24) h [])
    link_rejected r.
Proof.
  intros Hs Hsy Hmod Hnb Hm Hr. pose proof (zlen_nonneg symbols). set (n := zlen symbols / 24) in *.
  apply wp_foldM with (Inv := fun pre nb r => man_symbols r = n /\ 0 <= nb <= 1048576 /\
    link_inv segs collect strings symbols named (zlen pre) [] h r).
  - by split.
  - intros pre x post nb2 r2 Hx (Hm2 & Hnb2 & Hr2). pose proof (zlen_nonneg pre).
    apply strided_split in Hx as [-> Hx]; [|lia|lia|done].
    eapply wp_conseq; [apply (link_symbol_wp strings symbols nb2 (zlen pre) named [] h r2); try done; lia| |done].
    intros nb' r4 (? & ? & ?). rewrite zlen_app. split_and!; try done; lia.
  - intros nb2 r2 (Hm2 & _ & Hr2). rewrite zlen_strided in Hr2 by (lia || done). by split.
Qed.

(** The two relocation tables, after the symbols. *)
Lemma link_relocations_wp m library strings symbols entries named k n h r :
  map_Forall (fun _ v => is_u64 v) m -> zlen library <= 8388608 -> 0 <= n <= 131072 ->
  (forall tag, names_a_table tag = true -> the_tag m entries tag) ->
  with_relocations strings symbols named k n h [] r ->
  wp (forM [false; true] (link_relocation_table layout collect m library))
    (fun _ r => exists plain jumps, zlen (plain ++ jumps) <= 524288 /\
       relocation_table library entries 0x6100002f 0x61000031 plain /\
       relocation_table library entries 0x61000029 0x6100002d jumps /\
       with_relocations strings symbols named k n h (plain ++ jumps) r) link_rejected r.
Proof.
  intros Hm Hlib Hn Htags Hr. unfold forM. cbn [foldM]. apply wp_bind.
  eapply wp_conseq; [apply (link_relocation_table_wp m library false strings symbols entries named k n h [] r);
    [done|done|done|done|unfold zlen; cbn; lia|done]| |done].
  intros [] r3 (plain & Hpl & Hplain & Hr3). cbn [app] in Hr3. apply wp_bind.
  eapply wp_conseq; [apply (link_relocation_table_wp m library true strings symbols entries named k n h plain r3);
    [done|done|done|done|done|done]| |done].
  intros [] r4 (jumps & Hjl & Hjumps & Hr4). apply wp_ret. exists plain, jumps. rewrite zlen_app.
  split_and!; [lia|done..].
Qed.

Lemma link_tables_wp tables f r :
  tables_ok tables -> tables_of (header_phnum prefix) tables -> tls_read file layout (header_phnum prefix) f ->
  link_inv segs collect [] [] [] 0 [] (0, f) r ->
  wp (link_tables layout collect tables)
    (fun _ r => man_valid r = true /\ manifest_reports r) link_rejected r.
Proof.
  intros [Hd Hl] [Hf1 Hf2] Hread Hinv. unfold link_tables.
  assert (Hv : man_valid r = false) by (by destruct Hinv).
  wp_step; wp_step; [done|]. reflect_bools. pose proof (zlen_nonneg (dynamic tables)).
  repeat match goal with H : have_dynamic tables = true |- _ => rewrite H in Hf1; clear H
    | H : have_dynlib tables = true |- _ => rewrite H in Hf2; clear H end.
  set (dyn := dynamic tables) in *. set (lib := dynlib tables) in *.
  apply wp_bind. eapply wp_conseq; [by apply (link_entries_wp dyn f)| |done].
  intros t r' ([Hvals Hnames Hcount] & [T1 T2 T3] & Hr'). clear Hinv Hv.
  set (entries := entries_of dyn (zlen dyn / 16)) in *.
  assert (Hv : man_valid r' = false) by (by destruct Hr').
  wp_step; wp_step; [done|].
  destruct (table_total (tags t) lib 0x61000035 0x61000037 Hvals ltac:(u64_lia)) as (strings & Hst & Hsl).
  destruct (table_total (tags t) lib 0x61000039 0x6100003f Hvals ltac:(u64_lia)) as (symbols & Hsy & Hyl).
  wp_step. eapply wp_need; [exact Hst|]. wp_step. eapply wp_need; [exact Hsy|].
  wp_step; wp_step; [done|].
  repeat match goal with H : (_ || _)%bool = false |- _ => apply orb_false_elim in H; destruct H end.
  reflect_bools. pose proof (zlen_nonneg symbols).
  assert (Hn : zlen symbols = zlen symbols / 24 * 24) by (pose proof (Z.div_mod (zlen symbols) 24); lia).
  assert (Hls : linked_table lib entries 0x61000035 0x61000037 strings).
  { apply (table_linked (tags t)); try done; [u64_lia|]. left. by intros ->. }
  assert (Hly : linked_table lib entries 0x61000039 0x6100003f symbols).
  { apply (table_linked (tags t)); try done; [u64_lia|]. left. by intros ->. }
  assert (Hsize : tagged 0x6100003b entries = [(0x6100003b, 24)]).
  { rewrite (contains_tag (tags t)) by done.
    match goal with H : contains _ 0x6100003b = true, H' : at_tag _ 0x6100003b = 24 |- _ => by rewrite H, H' end. }
  apply wp_bind. eapply wp_conseq; [apply (link_names_wp strings symbols (names t)); [lia|done|exact Hr']| |done].
  intros nb r1 [Hnb [He1 Hv1 Ht1 Hn1 Hy1 Hr1 Hh1]]. wp_step; wp_step. apply wp_bind.
  eapply wp_conseq; [apply (link_symbols_wp strings symbols nb (names t) (zlen entries, f));
    [lia|lia|done|done|reflexivity|]| |done].
  { split; [done|done|frame_manifest|frame_manifest|frame_manifest| |exact Hh1].
    destruct Hr1 as [? ? ? ? ? ? ? ? ?]. split; try done. }
  intros nb2 r2 Hr2. set (n := zlen symbols / 24) in *. cbn beta.
  apply wp_bind. eapply wp_conseq; [apply (link_relocations_wp (tags t) lib strings symbols entries (names t) n n (zlen entries, f));
    [exact Hvals|lia|lia|exact T3|exact Hr2]| |done].
  intros [] r4 (plain & jumps & Hlen & Hplain & Hjumps & [Hm4 [He4 Hv4 Ht4 Hn4 Hy4 Hr4 Hh4]]). wp_step. split; [done|].
  unfold heading in Hh4. injection Hh4 as Hd4 Hf4.
  split; [done|frame_manifest| | |].
  - change (tls_fields _) with (tls_fields r4). unfold tls_fields. by rewrite <- Hf4 in Hread.
  - exists dyn, lib, strings, symbols, plain, jumps, entries. rewrite <- T2. cbn [man_symbols dynamic_entries upd].
    rewrite Hm4. split_and!; [|exact Hd4|exact Hcount|frame_manifest|exact Hn|frame_manifest|exact Hlen|frame_manifest].
    split; [exact Hf1|exact Hf2|assumption|reflexivity|congruence| |exact Hls|exact Hly|exact Hsize|exact Hplain|exact Hjumps].
    intros tag Htag. by eapply the_tag_once, T3.
  - cbn. rewrite Hm4. lia.
Qed.
End Wp.

Lemma InspectGuestLinkManifest_spec file collect :
  exists r, InspectGuestLinkManifest file collect = Some r /\
    ((man_valid r = true /\ zlen file <= GuestPayloadFileLimit /\
      exists layout, PlanGuestPayloadFile file = Some layout /\ payload_planned file layout /\
        manifest_reports file layout collect r) \/
     (man_valid r = false /\ man_error r <> "")).
Proof.
  unfold InspectGuestLinkManifest. apply finish_wp.
  apply wp_conseq with (E := link_rejected) (Q := fun _ r => man_valid r = true /\
      zlen file <= GuestPayloadFileLimit /\
      exists layout, PlanGuestPayloadFile file = Some layout /\ payload_planned file layout /\
        manifest_reports file layout collect r);
    [|intros; by left|intros e r [? ?]; right; by split].
  unfold inspect_link.
  destruct (PlanGuestPayloadFile_spec file) as (layout & Hl & [[Hlim Hp]|[He _]]);
    (wp_step; eapply wp_need; [exact Hl|]; cbn beta); wp_step; wp_step; try done.
  - assert (Hu : is_u64 (zlen file)) by (pose proof (zlen_nonneg file); unfold GuestPayloadFileLimit in *; u64_lia).
    pose proof (pp_acceptable _ _ Hp) as Hok.
    destruct (InspectGuestPrefix_spec (prefix_of file) (zlen file) Hu) as (h & Hh & [[_ ->]|(Hno & _)]);
      [|destruct (Hno (pa_header _ _ _ Hok))].
    wp_step. eapply wp_need; [exact Hh|]. cbn beta. unfold link_inspect.
    pose proof (eh_fits _ _ _ (ho_elf _ _ (pa_header _ _ _ Hok))). pose proof (elf_offset_of_nonneg (prefix_of file)).
    pose proof (zlen_prefix_of file). unfold GuestPayloadFileLimit in *.
    change (elf_offset (accepted_header (prefix_of file))) with (elf_offset_of (prefix_of file)).
    change (program_headers (accepted_header (prefix_of file))) with (header_phnum (prefix_of file)).
    wp_step; wp_step; [done|]. wp_step; wp_access. name_reads. unwrap.
    fold (header_phoff (prefix_of file)). apply wp_bind.
    pose proof (rd_nonneg (prefix_of file) (elf_offset_of (prefix_of file) + 56) 2) as Hnn.
    fold (header_phnum (prefix_of file)) in Hnn.
    apply wp_foldM with (Inv := fun pre t r => tables_ok t /\ tables_of file layout (zlen pre) t /\
      exists f, tls_read file layout (zlen pre) f /\
        link_inv (segments (payload_plan layout)) collect [] [] [] 0 [] (0, f) r).
    + split; [split; cbn; unfold zlen; cbn; lia|]. split; [done|].
      exists (0, 0, 0, 0, 0). split; [done|]. apply link_inv_init.
    + intros pre i post t r Hi (Ht & Hof & Hr). apply indices_split in Hi as (-> & Hi & _).
      rewrite zlen_app. change (zlen [zlen pre]) with 1. by apply (link_header_wp file layout collect Hlim Hp).
    + intros t r (Ht & Hof & f & Hf & Hr).
      assert (Hz : zlen (indices (header_phnum (prefix_of file))) = header_phnum (prefix_of file)).
      { unfold zlen, indices. rewrite length_fmap, length_seq. lia. }
      rewrite Hz in *. eapply wp_conseq; [by apply (link_tables_wp file layout collect t f)| |done].
      intros [] r' [Hv Hm]. cbn. split; [done|]. split; [done|]. exists layout. done.
  - rewrite (proj2 (String.eqb_neq _ _) He), orb_true_r in *. done.
Qed.

(** ** What the resolver and the data linker rely on *)

Record manifest_records (layout : GuestPayload) (r : GuestLinkManifest) : Prop := {
  mc_symbols : 0 < man_symbols r <= 131072 /\ zlen (symbol_records r) = man_symbols r;
  mc_imports : zlen (man_imports r) <= 8192 /\ zlen (import_symbol_indices r) = zlen (man_imports r);
  mc_indices : NoDup (import_symbol_indices r) /\
    forall i, i ∈ import_symbol_indices r ->
      exists s, (symbol_records r).[i] = Some s /\ undefined s = true;
  mc_names : Forall name_ok (man_imports r) /\
    Forall (fun d => name_ok (dep_name d) /\ is_u64 (dep_packed d)) (module_records r ++ library_records r);
  mc_dependencies : zlen (module_records r) = zlen (modules r) /\
    zlen (library_records r) = zlen (libraries r) /\
    zlen (module_records r) + zlen (library_records r) <= 512;
  mc_symbol_values : Forall (fun s => is_u64 (sym_address s) /\ is_u64 (sym_size s) /\
    0 <= sym_section s <= U16_MAX /\ 0 <= sym_binding s <= 15 /\ 0 <= sym_type s <= 15) (symbol_records r);
  mc_relocations : zlen (relocation_records r) <= 524288 /\
    Forall (relocation_ok (segments (payload_plan layout)) (man_symbols r)) (relocation_records r)
}.

Lemma indices_NoDup n : NoDup (indices n).
Proof. unfold indices. apply NoDup_fmap; [intros ? ?; lia|apply NoDup_seq]. Qed.

Lemma indices_at n i : 0 <= i < n -> (indices n).[i] = Some i.
Proof.
  intros Hi. unfold at_index, indices. rewrite decide_True, list_lookup_fmap by lia.
  rewrite (lookup_seq_lt _ _ (Z.to_nat i)) by lia. cbn. f_equal. lia.
Qed.

Lemma map_at {A B} (f : A -> B) l i : (List.map f l).[i] = f <$> l.[i].
Proof.
  unfold at_index. case_decide; [|done]. change (List.map f l) with (f <$> l). by rewrite list_lookup_fmap.
Qed.

Lemma tagged_disjoint_length entries :
  zlen (tagged 0x6100000f entries) + zlen (tagged 0x61000015 entries) <= zlen entries.
Proof.
  unfold zlen. induction entries as [|e entries IH]; [cbn; lia|]. unfold tagged in *. cbn [List.filter length].
  destruct (fst e =? 0x6100000f) eqn:E1, (fst e =? 0x61000015) eqn:E2; cbn [length]; lia.
Qed.

Lemma symbol_at_range symbols i :
  let s := symbol_at symbols i in
  is_u64 (sym_address s) /\ is_u64 (sym_size s) /\ 0 <= sym_section s <= U16_MAX /\
  0 <= sym_binding s <= 15 /\ 0 <= sym_type s <= 15.
Proof.
  cbn zeta. unfold symbol_at. cbn [sym_address sym_size sym_section sym_binding sym_type].
  pose proof (rd_range symbols (i * 24 + 8) 8). pose proof (rd_range symbols (i * 24 + 16) 8).
  pose proof (rd_range symbols (i * 24 + 6) 2). pose proof (byte_at_range symbols (i * 24 + 4)) as Hb.
  apply symbol_info_bits in Hb. u64_unfold. lia.
Qed.

Lemma records_of_ok strings names entries :
  Forall2 (dependency_ok strings) entries names -> Forall (fun e => is_u64 (snd e)) entries ->
  Forall (fun d => name_ok (dep_name d) /\ is_u64 (dep_packed d)) (records_of true names entries) /\
  zlen (records_of true names entries) = zlen names.
Proof.
  induction 1 as [|e n entries names [Hok _] _ IH]; intros He; [by split|].
  apply Forall_cons in He as [He Hes]. destruct (IH Hes) as [IH1 IH2]. split.
  - constructor; [done|exact IH1].
  - unfold zlen in *. cbn [records_of List.map zip_with length] in *. lia.
Qed.

Lemma manifest_records_of file layout r : manifest_reports file layout true r -> manifest_records layout r.
Proof.
  intros [_ _ _ (dyn & lib & strings & symbols & plain & jumps & all & Htr & _ & Hcount & Hnames & Hsz &
    [S1 S2 S3 S4 _ _ _] & Hl & [R1 R2 _ _ _ _ _ _ _]) Hn].
  assert (Hvals : Forall (fun e => is_u64 (snd e)) (dependencies all)).
  { rewrite (tr_entries _ _ _ _ _ _ _ _ _ Htr). apply List.Forall_forall. intros e [He _]%List.filter_In.
    revert e He. apply List.Forall_forall. apply entries_of_u64. }
  clear Htr. destruct Hnames as [_ N2 N3 N4 N5]. set (entries := dependencies all) in *.
  assert (Hv : forall t, Forall (fun e => is_u64 (snd e)) (tagged t entries)).
  { intros t. apply List.Forall_forall. intros e [He _]%List.filter_In.
    by eapply List.Forall_forall in Hvals. }
  destruct (records_of_ok _ _ _ N2 (Hv _)) as [M1 M2]. destruct (records_of_ok _ _ _ N3 (Hv _)) as [L1 L2].
  rewrite <- N4 in M1, M2. rewrite <- N5 in L1, L2.
  pose proof (Forall2_length _ _ _ N2) as E2. pose proof (Forall2_length _ _ _ N3) as E3.
  split.
  - split; [done|]. rewrite S1. unfold zlen. rewrite List.length_map. unfold indices.
    rewrite length_fmap, length_seq. lia.
  - split; [done|]. rewrite S4. unfold zlen. f_equal. by eapply Forall2_length.
  - rewrite S4. split.
    + apply NoDup_ListNoDup. apply List.NoDup_filter, NoDup_ListNoDup, indices_NoDup.
    + intros i [Hi Hu]%list_elem_of_In%List.filter_In. apply list_elem_of_In, elem_of_indices in Hi.
      exists (symbol_at symbols i). split; [|done]. rewrite S1, map_at, indices_at by done. done.
  - split; [|by apply Forall_app].
    clear -S2. induction S2 as [|? ? ? ? [? _] _ IH]; constructor; done.
  - split; [done|]. split; [done|]. rewrite M2, L2. pose proof (tagged_disjoint_length entries).
    unfold zlen in *. lia.
  - rewrite S1. apply List.Forall_forall. intros s (i & <- & _)%List.in_map_iff. apply symbol_at_range.
  - by rewrite R2.
Qed.

(** C5. Inspecting the link manifest never reads outside the file or its tables, whatever
    they hold, and a valid manifest reports what the file's dynamic tables say. The dynamic data
    and the library data are the file bytes of the only program headers of their types; the
    entries are the pairs before the terminator, and their count is reported; the string, symbol
    and relocation tables are the bytes of the library data that the entries' tags name, each
    tag given once. The names are the bounded, printable strings that the dependency entries and
    the undefined symbols name, in order, with every symbol and relocation of the tables decoded
    in order and each counter exact; every relocation names a symbol of the table and writes
    inside a mapped segment. The TLS fields are those of the only TLS header, mapped, or zero. *)
Theorem InspectGuestLinkManifest_reports file collect :
  exists r, InspectGuestLinkManifest file collect = Some r /\
    (man_valid r = true <-> man_error r = "") /\
    (man_valid r = true -> exists layout,
       PlanGuestPayloadFile file = Some layout /\ payload_planned file layout /\
       manifest_reports file layout collect r).
Proof.
  destruct (InspectGuestLinkManifest_spec file collect) as (r & Hr & [(Hv & _ & layout & ? & ? & Hm)|[Hv He]]);
    exists r; (split; [exact Hr|]); rewrite Hv.
  - split; [split; [intros _; apply Hm|done]|]. intros _. by exists layout.
  - done.
Qed.

(** A range of the ELF's logical file domain is read from the file bytes that the
    one file range holding it maps it to. *)
Theorem logical_slice_exact file layout offset size range :
  zlen file <= GuestPayloadFileLimit -> payload_planned file layout ->
  is_u64 offset -> 0 < size <= U64_MAX -> In range (file_ranges layout) ->
  range_holds offset size range ->
  logical_slice file (file_ranges layout) offset size = range_bytes file offset size range /\
  range_bytes file offset size range <> None.
Proof.
  intros Hl Hp Ho Hs Hin Hh. split; [by apply logical_slice_spec|].
  destruct (logical_step file Hl offset size range [] 0 Ho ltac:(lia)) as [(_ & span & -> & _)|[? _]]; try done.
  pose proof (pp_ranges _ _ Hp) as Hr. by eapply List.Forall_forall in Hr.
Qed.

(** [VerifyGuestLinkFixture] of guest_link_fixture.h. *)
Definition VerifyGuestLinkFixture (manifest : GuestLinkManifest) : bool :=
  let text s := String.list_byte_of_string s in
  let same (a b : list (list byte)) := bool_decide (a = b) in
  man_valid manifest && (dynamic_entries manifest =? 14) && (man_symbols manifest =? 3) &&
  (undefined_functions manifest =? 1) && (undefined_objects manifest =? 1) &&
  (relocations manifest =? 2) && (relative manifest =? 1) && (jump_slots manifest =? 1) &&
  (target_checks manifest =? 2) && (tls_segments manifest =? 1) &&
  (tls_memory_bytes manifest =? 8) && (tls_file_bytes manifest =? 0) &&
  same (needed manifest) [text "libFixture.prx"] &&
  same (modules manifest) [text "libFixture"] &&
  same (libraries manifest) [text "libFixture"] &&
  same (man_imports manifest) [text "fixture#A#B"; text "object#A#B"].

Lemma InspectGuestLinkManifest_reports_witness :
  exists r, InspectGuestLinkManifest (MakeGuestLinkFixture true) true = Some r /\
    VerifyGuestLinkFixture r = true /\
    exists layout, manifest_reports (MakeGuestLinkFixture true) layout true r.
Proof.
  destruct (InspectGuestLinkManifest_reports (MakeGuestLinkFixture true) true) as (r & Hr & _ & Hok).
  exists r. split; [exact Hr|]. split.
  - apply (checked_result VerifyGuestLinkFixture _ _ Hr). vm_compute. reflexivity.
  - destruct Hok as (layout & _ & _ & Hm); [|by exists layout].
    apply (checked_result man_valid _ _ Hr). vm_compute. reflexivity.
Defined.

Lemma logical_slice_exact_witness :
  exists layout range,
    PlanGuestPayloadFile (MakeGuestLinkFixture true) = Some layout /\
    In range (file_ranges layout) /\
    logical_slice (MakeGuestLinkFixture true) (file_ranges layout) (logical_offset range) 4 =
      range_bytes (MakeGuestLinkFixture true) (logical_offset range) 4 range.
Proof.
  destruct (PlanGuestPayloadFile_spec (MakeGuestLinkFixture true)) as (layout & Hl & [[Hlim Hp]|[He _]]).
  - set (o := match file_ranges layout with r :: _ => r | [] => mkGuestFileRange 0 0 0 end).
    assert (Hc : match file_ranges layout with
                 | r :: _ => (0 <=? logical_offset r) && (logical_offset r <=? U64_MAX) && (4 <=? range_size r)
                 | [] => false end = true).
    { apply (checked_result (fun p => match file_ranges p with
        | r :: _ => (0 <=? logical_offset r) && (logical_offset r <=? U64_MAX) && (4 <=? range_size r)
        | [] => false end) _ _ Hl). vm_compute. reflexivity. }
    destruct (file_ranges layout) as [|range rest] eqn:Er; [discriminate|].
    exists layout, range. split; [exact Hl|]. rewrite Er. split; [by left|].
    rewrite <- Er. apply andb_prop in Hc as [Hc1 Hc3]. apply is_u64_dec in Hc1. apply Z.leb_le in Hc3.
    apply (logical_slice_exact (MakeGuestLinkFixture true) layout (logical_offset range) 4 range);
      [exact Hlim|exact Hp|exact Hc1|unfold U64_MAX; lia|rewrite Er; by left|unfold range_holds; lia].
  - exfalso. apply He, String.eqb_eq.
    apply (checked_result (fun q => String.eqb (img_error (image q)) "") _ _ Hl). vm_compute. reflexivity.
Defined.
