(* ===== verification/ImportResolver.v ===== *)
(** Import resolution: src/src/core/uwp/guest_import_resolver.h.

    The NID namespace of import names, and the exact lookup of every import of a link
    manifest in a registry of numeric data exports. *)
From Stdlib Require Import ZArith Lia.
From Stdlib Require Import Strings.Byte.
From stdpp Require Import base gmap list list_numbers strings.
From S2P Require Import Prelude.
From S2P Require Import Fixtures.
From S2P Require Import Preflight.
From S2P Require Import LoadPlan.
From S2P Require Import Payload.
From S2P Require Import LinkManifest.

Definition text (s : string) : list byte := String.list_byte_of_string s.

Definition GuestIdAlphabet : list byte :=
  text "ABCDEFGHIJKLMNOPQRSTUVWXYZabcdefghijklmnopqrstuvwxyz0123456789+-".

(** [GuestIdAlphabet[d]], for a [d] masked to six bits. *)
Definition id_char (d : Z) : byte := default Byte.x00 (GuestIdAlphabet.[d]).

Definition EncodeGuestId (id : Z) : list byte :=
  (if 4096 <=? id then [id_char (Z.land (Z.shiftr id 12) 63)] else []) ++
  (if 64 <=? id then [id_char (Z.land (Z.shiftr id 6) 63)] else []) ++
  [id_char (Z.land id 63)].

(** [text.find(c, pos)]; [None] is [npos]. *)
Definition find_from (l : list byte) (c : byte) (pos : Z) : option Z :=
  match list_find (fun b => b = c) (drop (Z.to_nat pos) l) with
  | Some (k, _) => Some (pos + Z.of_nat k)
  | None => None
  end.

(** The digits' loop of [DecodeGuestId]. *)
Fixpoint decode_digits (encoded : list byte) (value : Z) : option Z :=
  match encoded with
  | [] => Some value
  | c :: rest =>
      match find_from GuestIdAlphabet c 0 with
      | None => None
      | Some digit => decode_digits rest (wrap32 (wrap32 (value * 64) + digit))
      end
  end.

(** [None] is a refusal, [Some id] success with the decoded id. *)
Definition DecodeGuestId (encoded : list byte) : option Z :=
  if (zlen encoded =? 0) || (3 <? zlen encoded) then None else
  value ← decode_digits encoded 0;
  if (U16_MAX <? value) || negb (bool_decide (EncodeGuestId (wrap16 value) = encoded)) then None
  else Some (wrap16 value).

Record GuestImportKey := mkGuestImportKey {
  key_nid : list byte;
  key_library : list byte;
  key_module : list byte;
  key_library_version : Z;
  key_module_major : Z;
  key_module_minor : Z;
  key_type : Z
}.
#[export] Instance GuestImportKey_eq_dec : EqDecision GuestImportKey.
Proof. solve_decision. Defined.
#[export, refine] Instance GuestImportKey_countable : Countable GuestImportKey :=
  inj_countable
    (fun k => (key_nid k, key_library k, key_module k, key_library_version k, key_module_major k,
               key_module_minor k, key_type k))
    (fun '(n, l, m, v, a, b, t) => Some (mkGuestImportKey n l m v a b t)) _.
Proof. by intros []. Defined.

Record GuestDataExport := mkGuestDataExport { exp_key : GuestImportKey; exp_address : Z }.

Record GuestImportBinding := mkGuestImportBinding {
  bnd_symbol : Z;
  library_id : Z;
  module_id : Z;
  bnd_key : GuestImportKey;
  numeric_address : Z
}.

Record GuestImportPlan := mkGuestImportPlan {
  imp_valid : bool;
  imp_error : string;
  exports_count : Z;
  matched : Z;
  unresolved : Z;
  bindings : list GuestImportBinding;
  addresses_by_symbol : list Z
}.
#[export] Instance eta_GuestImportPlan : Eta GuestImportPlan := fun r =>
  mkGuestImportPlan (imp_valid r) (imp_error r) (exports_count r) (matched r) (unresolved r)
    (bindings r) (addresses_by_symbol r).
Definition import_init : GuestImportPlan := mkGuestImportPlan false "" 0 0 0 [] [].

(** [fail]: the error, with the partial results dropped. *)
Definition import_fail (e : string) (r : GuestImportPlan) : GuestImportPlan :=
  r <| imp_error := e |> <| matched := 0 |> <| unresolved := 0 |>
    <| bindings := [] |> <| addresses_by_symbol := [] |>.

Definition ValidGuestKeyPart (l : list byte) : bool :=
  negb (zlen l =? 0) && (zlen l <=? 256) &&
  forallb (fun b => (33 <=? u8 b) && (u8 b <=? 126) && negb (u8 b =? 35) && negb (u8 b =? 124) &&
                    negb (u8 b =? 59) && negb (u8 b =? 44)) l.

(** [m.emplace(k, v)]: the new map, and whether the key was absent. *)
Definition emplace {K V} `{Countable K} (m : gmap K V) (k : K) (v : V) : gmap K V * bool :=
  match m !! k with
  | Some _ => (m, false)
  | None => (<[k := v]> m, true)
  end.

Definition register_export (registry : gmap GuestImportKey Z) (entry : GuestDataExport)
    : M GuestImportPlan (gmap GuestImportKey Z) :=
  fail_if (negb (ValidGuestKeyPart (key_nid (exp_key entry))) ||
           negb (ValidGuestKeyPart (key_library (exp_key entry))) ||
           negb (ValidGuestKeyPart (key_module (exp_key entry))) ||
           (2 <? key_type (exp_key entry)) || (exp_address entry =? 0))
    "invalid_data_export" ;;;
  let '(registry', fresh) := emplace registry (exp_key entry) (exp_address entry) in
  fail_if (negb fresh) "duplicate_export_key" ;;;
  ret registry'.

(** [static_cast<std::uint16_t>(entry.packed >> 48)] *)
Definition dependency_id (d : GuestLinkDependency) : Z := wrap16 (Z.shiftr (dep_packed d) 48).

Definition register_dependency (invalid_name duplicate_id : string) (m : gmap Z GuestLinkDependency)
    (entry : GuestLinkDependency) : M GuestImportPlan (gmap Z GuestLinkDependency) :=
  fail_if (negb (ValidGuestKeyPart (dep_name entry))) invalid_name ;;;
  let '(m', fresh) := emplace m (dependency_id entry) entry in
  fail_if (negb fresh) duplicate_id ;;;
  ret m'.

(** [name.substr(pos, count)], for a [pos] inside the name. *)
Definition substr (l : list byte) (pos count : Z) : list byte :=
  take (Z.to_nat count) (drop (Z.to_nat pos) l).

Definition hash : byte := to_u8 35.

(** The three parts of [nid#library#module], or [None]. *)
Definition split_import (name : list byte) : option (list byte * list byte * list byte) :=
  first ← find_from name hash 0;
  second ← find_from name hash (first + 1);
  match find_from name hash (second + 1) with
  | Some _ => None
  | None =>
      if ValidGuestKeyPart (substr name 0 first)
      then Some (substr name 0 first, substr name (first + 1) (second - first - 1),
                 drop (Z.to_nat (second + 1)) name)
      else None
  end.

Section Resolve.
Context (manifest : GuestLinkManifest).

(** One import. [seen] are the symbols already bound. *)
Definition resolve_import (registry : gmap GuestImportKey Z)
    (libs mods : gmap Z GuestLinkDependency) (seen : list bool) (i : Z) : M GuestImportPlan (list bool) :=
  symbol <- need ((import_symbol_indices manifest).[i]) ;;
  fail_if (man_symbols manifest <=? symbol) "invalid_or_duplicate_import_symbol" ;;;
  was <- need (seen.[symbol]) ;;
  fail_if was "invalid_or_duplicate_import_symbol" ;;;
  let seen' := <[Z.to_nat symbol := true]> seen in
  info <- need ((symbol_records manifest).[symbol]) ;;
  fail_if (negb (sym_section info =? 0) || (negb (sym_binding info =? 1) && negb (sym_binding info =? 2)))
    "invalid_import_symbol_binding" ;;;
  name <- need ((man_imports manifest).[i]) ;;
  match split_import name with
  | None => fail "invalid_nid_namespace_shape"
  | Some (nid, lib_text, mod_text) =>
      match DecodeGuestId lib_text, DecodeGuestId mod_text with
      | Some lib_id, Some mod_id =>
          match libs !! lib_id with
          | None => fail "unknown_import_library_id"
          | Some library =>
              match mods !! mod_id with
              | None => fail "unknown_import_module_id"
              | Some module =>
                  let key := {| key_nid := nid; key_library := dep_name library;
                                key_module := dep_name module;
                                key_library_version := wrap16 (Z.shiftr (dep_packed library) 32);
                                key_module_major := wrap8 (Z.shiftr (dep_packed module) 40);
                                key_module_minor := wrap8 (Z.shiftr (dep_packed module) 32);
                                key_type := sym_type info |} in
                  let binding address := mkGuestImportBinding symbol lib_id mod_id key address in
                  match registry !! key with
                  | None =>
                      modify (fun r => r <| unresolved ::= fun n => n +64 1 |>) ;;;
                      modify (fun r => r <| bindings ::= fun l => l ++ [binding 0] |>) ;;;
                      ret seen'
                  | Some address =>
                      table <- gets addresses_by_symbol ;;
                      need (table.[symbol]) ;;;
                      modify (fun r => r <| addresses_by_symbol ::= fun l => <[Z.to_nat symbol := address]> l |>) ;;;
                      modify (fun r => r <| matched ::= fun n => n +64 1 |>) ;;;
                      modify (fun r => r <| bindings ::= fun l => l ++ [binding address] |>) ;;;
                      ret seen'
                  end
              end
          end
      | _, _ => fail "invalid_encoded_import_id"
      end
  end.

Definition resolve_imports (exports : list GuestDataExport) : M GuestImportPlan unit :=
  fail_if (negb (man_valid manifest) || (131072 <? man_symbols manifest) ||
           negb (zlen (symbol_records manifest) =? man_symbols manifest) ||
           (8192 <? zlen (man_imports manifest)) ||
           negb (zlen (import_symbol_indices manifest) =? zlen (man_imports manifest)) ||
           negb (zlen (module_records manifest) =? zlen (modules manifest)) ||
           negb (zlen (library_records manifest) =? zlen (libraries manifest)) ||
           (512 <? zlen (module_records manifest) +64 zlen (library_records manifest)))
    "manifest_records_unavailable_or_budget" ;;;
  fail_if (4096 <? zlen exports) "export_registry_budget" ;;;
  registry <- foldM register_export ∅ exports ;;
  modify (fun r => r <| exports_count := Z.of_nat (size registry) |>) ;;;
  mods <- foldM (register_dependency "invalid_module_name" "duplicate_module_id") ∅ (module_records manifest) ;;
  libs <- foldM (register_dependency "invalid_library_name" "duplicate_library_id") ∅ (library_records manifest) ;;
  modify (fun r => r <| addresses_by_symbol := filled (man_symbols manifest) 0 |>) ;;;
  foldM (resolve_import registry libs mods) (filled (man_symbols manifest) false)
    (indices (zlen (man_imports manifest))) ;;;
  modify (fun r => r <| imp_valid := true |>).
End Resolve.

Definition ResolveGuestImports (manifest : GuestLinkManifest) (exports : list GuestDataExport)
    : option GuestImportPlan :=
  finish import_fail (resolve_imports manifest exports) import_init.

(** * The identifier encoding *)

Lemma id_char_find d : 0 <= d < 64 -> find_from GuestIdAlphabet (id_char d) 0 = Some d.
Proof.
  intros Hd.
  assert (Hall : forallb (fun d => bool_decide (find_from GuestIdAlphabet (id_char d) 0 = Some d)) (indices 64) = true)
    by (vm_compute; reflexivity).
  rewrite forallb_forall in Hall. eapply bool_decide_eq_true, Hall.
  apply list_elem_of_In, elem_of_indices. done.
Qed.

Lemma six_bits x : 0 <= x -> Z.land x 63 = x mod 64.
Proof. intros. change 63 with (Z.ones 6). by rewrite Z.land_ones. Qed.

Lemma shift_6 x : Z.shiftr x 6 = x / 64.
Proof. by rewrite Z.shiftr_div_pow2. Qed.
Lemma shift_12 x : Z.shiftr x 12 = x / 4096.
Proof. by rewrite Z.shiftr_div_pow2. Qed.

Lemma decode_digits_cons d rest value :
  0 <= d < 64 -> 0 <= value < 65536 ->
  decode_digits (id_char d :: rest) value = decode_digits rest (value * 64 + d).
Proof. intros Hd Hv. cbn [decode_digits]. rewrite id_char_find by done. by unwrap. Qed.

Lemma encode_digits id :
  0 <= id <= U16_MAX ->
  decode_digits (EncodeGuestId id) 0 = Some id /\ 1 <= zlen (EncodeGuestId id) <= 3.
Proof.
  intros Hid. unfold EncodeGuestId, U16_MAX in *.
  rewrite !shift_6, !shift_12, !six_bits by (try apply Z.div_pos; lia).
  pose proof (Z.mod_pos_bound id 64). pose proof (Z.mod_pos_bound (id / 64) 64).
  pose proof (Z.mod_pos_bound (id / 4096) 64). pose proof (Z.div_mod id 64).
  pose proof (Z.div_mod (id / 64) 64). rewrite Z.div_div in * by lia. change (64 * 64) with 4096 in *.
  assert (0 <= id / 4096 < 16) by (split; [apply Z.div_pos; lia|apply Z.div_lt_upper_bound; lia]).
  rewrite (Z.mod_small (id / 4096)) by lia.
  destruct (4096 <=? id) eqn:E1; reflect_bools; cbn [app].
  - rewrite (proj2 (Z.leb_le 64 id)) by lia. cbn [app].
    rewrite !decode_digits_cons by lia. cbn [decode_digits]. split; [f_equal; lia|done].
  - assert (id / 4096 = 0) by (apply Z.div_small; lia).
    destruct (64 <=? id) eqn:E2; reflect_bools; cbn [app].
    + rewrite !decode_digits_cons by lia. cbn [decode_digits]. split; [f_equal; lia|done].
    + rewrite decode_digits_cons by lia. cbn [decode_digits].
      assert (id / 64 = 0) by (apply Z.div_small; lia). split; [f_equal; lia|done].
Qed.

Lemma DecodeGuestId_Some encoded id :
  DecodeGuestId encoded = Some id -> 0 <= id <= U16_MAX /\ encoded = EncodeGuestId id.
Proof.
  unfold DecodeGuestId. destruct (_ || _); [done|].
  destruct (decode_digits encoded 0) as [v|]; [|done]. cbn.
  destruct (_ || _) eqn:E; [done|]. apply orb_false_elim in E as [_ E]. intros [= <-].
  apply negb_false_iff, bool_decide_eq_true in E. split; [apply wrap16_range|done].
Qed.

Lemma DecodeGuestId_Encode id : 0 <= id <= U16_MAX -> DecodeGuestId (EncodeGuestId id) = Some id.
Proof.
  intros Hid. destruct (encode_digits id Hid) as [Hd Hl]. unfold DecodeGuestId.
  rewrite (proj2 (Z.eqb_neq _ _)), (proj2 (Z.ltb_ge 3 _)) by lia. cbn [orb]. rewrite Hd. cbn [mbind option_bind].
  rewrite (proj2 (Z.ltb_ge _ _)) by lia. rewrite wrap16_small by done. by rewrite bool_decide_true.
Qed.

(** * The shape of import names *)

Lemma find_from_Some l c pos k :
  0 <= pos -> find_from l c pos = Some k ->
  pos <= k < zlen l /\
  (take (Z.to_nat (k - pos)) (drop (Z.to_nat pos) l) ++ (c :: drop (Z.to_nat (k + 1)) l)) =
    drop (Z.to_nat pos) l /\
  c ∉ take (Z.to_nat (k - pos)) (drop (Z.to_nat pos) l).
Proof.
  intros Hp. unfold find_from. destruct (list_find _ _) as [[j x]|] eqn:E; [|done]. intros [= <-].
  apply list_find_Some in E as (Hx & -> & Hj).
  replace (Z.to_nat (pos + Z.of_nat j - pos)) with j by lia.
  replace (Z.to_nat (pos + Z.of_nat j + 1)) with (Z.to_nat pos + S j)%nat by lia.
  pose proof (lookup_lt_Some _ _ _ Hx) as Hlt. rewrite length_drop in Hlt. split; [unfold zlen; lia|]. split.
  - rewrite <- drop_drop. by apply take_drop_middle.
  - intros Hin. apply list_elem_of_lookup in Hin as (m & Hm).
    apply lookup_take_Some in Hm as [Hm Hmj]. by eapply Hj.
Qed.

Lemma find_from_None l c pos : find_from l c pos = None -> c ∉ drop (Z.to_nat pos) l.
Proof.
  unfold find_from. destruct (list_find _ _) as [[j x]|] eqn:E; [done|]. intros _ Hin.
  apply list_find_None in E. rewrite Forall_forall in E. by apply (E c).
Qed.

Lemma split_import_Some name nid lib mod_text :
  split_import name = Some (nid, lib, mod_text) ->
  name = nid ++ hash :: lib ++ hash :: mod_text /\ ValidGuestKeyPart nid = true /\
  (hash ∉ nid) /\ (hash ∉ lib) /\ (hash ∉ mod_text).
Proof.
  unfold split_import. destruct (find_from name hash 0) as [first|] eqn:E1; [|done]. cbn [mbind option_bind].
  apply find_from_Some in E1 as (R1 & Hs1 & N1); [|done].
  destruct (find_from name hash (first + 1)) as [second|] eqn:E2; [|done]. cbn [mbind option_bind].
  apply find_from_Some in E2 as (R2 & Hs2 & N2); [|lia].
  destruct (find_from name hash (second + 1)) eqn:E3; [done|]. apply find_from_None in E3.
  destruct (ValidGuestKeyPart _) eqn:Ev; [|done]. intros [= <- <- <-].
  unfold substr in *. rewrite Z.sub_0_r in *. cbn [Z.to_nat] in *. rewrite drop_0 in *.
  replace (second - first - 1) with (second - (first + 1)) by lia.
  split_and!; try done. by rewrite Hs2, Hs1.
Qed.

(** * Correctness of the resolver *)

Definition import_rejected (e : string) (r : GuestImportPlan) : Prop := e <> "" /\ imp_valid r = false.

Lemma emplace_spec {K V} `{Countable K} (m m' : gmap K V) k v fresh :
  emplace m k v = (m', fresh) -> negb fresh = false -> m !! k = None /\ m' = <[k := v]> m.
Proof. unfold emplace. destruct (m !! k); intros [= <- <-]; done. Qed.

(** The registry holds exactly the exports seen. *)
Record registry_ok (l : list GuestDataExport) (m : gmap GuestImportKey Z) : Prop := {
  rg_lookup : forall k a, m !! k = Some a <-> exists e, e ∈ l /\ exp_key e = k /\ exp_address e = a;
  rg_size : size m = length l;
  rg_address : Forall (fun e => exp_address e <> 0) l
}.

Lemma register_export_wp pre e m r :
  registry_ok pre m -> imp_valid r = false ->
  wp (register_export m e) (fun m' r' => registry_ok (pre ++ [e]) m' /\ r' = r) import_rejected r.
Proof.
  intros [Hl Hs Ha] Hv. unfold register_export. wp_step; wp_step; [done|]. reflect_bools.
  destruct (emplace m (exp_key e) (exp_address e)) as [m' fresh] eqn:E.
  wp_step; wp_step; [done|]. wp_step. split; [|done].
  apply emplace_spec in E as [Hk ->]; [|done]. split.
  - intros k a. rewrite lookup_insert_Some, Hl. setoid_rewrite elem_of_app. setoid_rewrite list_elem_of_singleton.
    split.
    + intros [[<- <-]|[_ (x & ? & ?)]]; [by exists e; auto|exists x; auto].
    + intros (x & [Hx| ->] & <- & <-); [|by left]. right. split; [|by exists x].
      intros Heq. assert (m !! exp_key x = Some (exp_address x)) as Hc by (apply Hl; by exists x).
      rewrite <- Heq, Hk in Hc. done.
  - rewrite map_size_insert_None, length_app by done. cbn. lia.
  - apply Forall_app. split; [done|]. by constructor.
Qed.

(** A dependency map holds exactly the records seen, by id. *)
Definition dependencies_ok (l : list GuestLinkDependency) (m : gmap Z GuestLinkDependency) : Prop :=
  forall id d, m !! id = Some d <-> d ∈ l /\ dependency_id d = id.

Lemma register_dependency_wp n d pre e m r :
  n <> "" -> d <> "" -> dependencies_ok pre m -> imp_valid r = false ->
  wp (register_dependency n d m e) (fun m' r' => dependencies_ok (pre ++ [e]) m' /\ r' = r) import_rejected r.
Proof.
  intros Hn Hd Hl Hv. unfold register_dependency. wp_step; wp_step; [done|].
  destruct (emplace m (dependency_id e) e) as [m' fresh] eqn:E.
  wp_step; wp_step; [done|]. wp_step. split; [|done].
  apply emplace_spec in E as [Hk ->]; [|done].
  intros id x. rewrite lookup_insert_Some, (Hl id x), elem_of_app, list_elem_of_singleton. split.
  - intros [[<- <-]|[_ [Hx Hi]]]; [split; [by right|done]|split; [by left|done]].
  - intros [[Hx| ->] <-]; [|by left]. right. split; [|done]. intros Heq.
    assert (m !! dependency_id x = Some x) as Hc by (by apply Hl). rewrite <- Heq, Hk in Hc. done.
Qed.

Section Correct.
Context (manifest : GuestLinkManifest) (exports : list GuestDataExport).

(** The exact address an import key resolves to, and the address of an unmatched one. *)
Definition exported (key : GuestImportKey) (address : Z) : Prop :=
  (address <> 0 /\ exists e, e ∈ exports /\ exp_key e = key /\ exp_address e = address) \/
  (address = 0 /\ forall e, e ∈ exports -> exp_key e <> key).

(** Binding [b] is that of import [i]. *)
Record binding_ok (i : Z) (b : GuestImportBinding) : Prop := {
  bo_symbol : (import_symbol_indices manifest).[i] = Some (bnd_symbol b);
  bo_info : exists info, (symbol_records manifest).[bnd_symbol b] = Some info /\ undefined info = true /\
    key_type (bnd_key b) = sym_type info;
  bo_name : (man_imports manifest).[i] =
    Some (key_nid (bnd_key b) ++ hash :: EncodeGuestId (library_id b) ++ hash :: EncodeGuestId (module_id b));
  bo_nid : ValidGuestKeyPart (key_nid (bnd_key b)) = true;
  bo_library : exists d, d ∈ library_records manifest /\ dependency_id d = library_id b /\
    key_library (bnd_key b) = dep_name d /\
    key_library_version (bnd_key b) = wrap16 (Z.shiftr (dep_packed d) 32);
  bo_module : exists d, d ∈ module_records manifest /\ dependency_id d = module_id b /\
    key_module (bnd_key b) = dep_name d /\
    key_module_major (bnd_key b) = wrap8 (Z.shiftr (dep_packed d) 40) /\
    key_module_minor (bnd_key b) = wrap8 (Z.shiftr (dep_packed d) 32);
  bo_address : exported (bnd_key b) (numeric_address b)
}.

Definition bound_count (p : Z -> bool) (l : list GuestImportBinding) : Z :=
  zlen (List.filter (fun b => p (numeric_address b)) l).

Record resolve_inv (k : Z) (seen : list bool) (r : GuestImportPlan) : Prop := {
  rv_valid : imp_valid r = false;
  rv_error : imp_error r = "";
  rv_exports : exports_count r = zlen exports;
  rv_bindings : Forall2 binding_ok (indices k) (bindings r);
  rv_length : zlen seen = man_symbols manifest /\ zlen (addresses_by_symbol r) = man_symbols manifest;
  rv_seen : forall s, seen.[s] = Some true <-> s ∈ List.map bnd_symbol (bindings r);
  rv_distinct : NoDup (List.map bnd_symbol (bindings r));
  rv_bound : forall b, b ∈ bindings r -> (addresses_by_symbol r).[bnd_symbol b] = Some (numeric_address b);
  rv_unbound : forall s a, (addresses_by_symbol r).[s] = Some a -> s ∉ List.map bnd_symbol (bindings r) -> a = 0;
  rv_matched : matched r = bound_count (fun a => negb (a =? 0)) (bindings r);
  rv_unresolved : unresolved r = bound_count (fun a => a =? 0) (bindings r)
}.

Lemma insert_at {A} (l : list A) (i : Z) (x : A) j :
  0 <= i < zlen l -> (<[Z.to_nat i := x]> l).[j] = if decide (j = i) then Some x else l.[j].
Proof.
  intros Hi. unfold zlen in Hi. unfold at_index. case_decide; case_decide; subst; try done; try lia.
  - by rewrite list_lookup_insert_eq by lia.
  - rewrite list_lookup_insert_ne by lia. done.
Qed.

Lemma insert_zlen {A} (l : list A) i x : zlen (<[i := x]> l) = zlen l.
Proof. unfold zlen. by rewrite length_insert. Qed.

(** One more binding. *)
Lemma resolve_inv_snoc k seen b r r' :
  0 <= k -> resolve_inv k seen r -> binding_ok k b -> 0 <= bnd_symbol b < man_symbols manifest ->
  seen.[bnd_symbol b] = Some false -> zlen (bindings r) <= 8192 ->
  r' = (if numeric_address b =? 0 then r <| unresolved ::= fun n => n +64 1 |>
        else r <| addresses_by_symbol ::= fun l => <[Z.to_nat (bnd_symbol b) := numeric_address b]> l |>
               <| matched ::= fun n => n +64 1 |>) <| bindings ::= fun l => l ++ [b] |> ->
  resolve_inv (k + 1) (<[Z.to_nat (bnd_symbol b) := true]> seen) r'.
Proof.
  intros Hk [V E X B [L1 L2] S D BD U M1 M2] Hb Hs Hf Hbud ->.
  assert (Hnew : bnd_symbol b ∉ List.map bnd_symbol (bindings r)) by (intros Hin; apply S in Hin; congruence).
  assert (Hz : (addresses_by_symbol r).[bnd_symbol b] = Some 0).
  { destruct (at_index_Some (addresses_by_symbol r) (bnd_symbol b)) as [a Ha]; [lia|].
    by rewrite (U _ _ Ha Hnew) in Ha. }
  assert (Rc : forall p, 0 <= bound_count p (bindings r) <= zlen (bindings r))
    by (intros; apply filter_zlen).
  pose proof (Rc (fun a => negb (a =? 0))). pose proof (Rc (fun a => a =? 0)).
  assert (Hsnd : forall r', bindings r' = bindings r ++ [b] ->
    (forall s, (<[Z.to_nat (bnd_symbol b) := true]> seen).[s] = Some true <->
       s ∈ List.map bnd_symbol (bindings r')) /\ NoDup (List.map bnd_symbol (bindings r'))).
  { intros r' ->. rewrite List.map_app. cbn [List.map]. split.
    - intros s. rewrite insert_at, elem_of_app, list_elem_of_singleton, <- S by lia.
      case_decide as Hsb; [split; [by right|done]|]. split; [by left|by intros [?|?]].
    - apply NoDup_app. split; [done|]. split; [|apply NoDup_singleton].
      intros x Hx ->%list_elem_of_singleton. done. }
  assert (Hadd : forall l, zlen l = man_symbols manifest -> (forall s, l.[s] = if decide (s = bnd_symbol b) then Some (numeric_address b) else (addresses_by_symbol r).[s]) ->
    (forall b', b' ∈ bindings r ++ [b] -> l.[bnd_symbol b'] = Some (numeric_address b')) /\
    (forall s a, l.[s] = Some a -> s ∉ List.map bnd_symbol (bindings r ++ [b]) -> a = 0)).
  { intros l _ Hl. split.
    - intros b' [Hb'|Hb'%list_elem_of_singleton]%elem_of_app; rewrite Hl; [|subst; by rewrite decide_True].
      rewrite decide_False; [by apply BD|]. intros Heq. apply Hnew. rewrite <- Heq.
      apply list_elem_of_In, List.in_map, list_elem_of_In. done.
    - intros s a Ha Hns. rewrite List.map_app, elem_of_app in Hns. cbn [List.map] in Hns. rewrite list_elem_of_singleton in Hns.
      rewrite Hl, decide_False in Ha by (intros ->; apply Hns; by right). eapply U; [exact Ha|]. intros ?. apply Hns. by left. }
  assert (Hcount : forall p, bound_count p (bindings r ++ [b]) =
    bound_count p (bindings r) + (if p (numeric_address b) then 1 else 0)).
  { intros p. unfold bound_count. rewrite List.filter_app, zlen_app. f_equal. cbn [List.filter]. by destruct (p _). }
  destruct (numeric_address b =? 0) eqn:E0.
  - reflect_bools. destruct (Hadd (addresses_by_symbol r) L2) as [HA1 HA2].
    { intros s. case_decide; [subst; by rewrite Hz, E0|done]. }
    destruct (Hsnd (mkGuestImportPlan false "" 0 0 0 (bindings r ++ [b]) []) eq_refl) as [HS1 HS2].
    split; cbn -[bound_count]; try done.
    + rewrite indices_snoc by done. apply Forall2_app; [done|by constructor].
    + by rewrite insert_zlen.
    + rewrite M1, Hcount, E0. cbn [negb Z.eqb]. lia.
    + rewrite M2, Hcount, E0. cbn [negb Z.eqb]. unwrap. done.
  - destruct (Hadd (<[Z.to_nat (bnd_symbol b) := numeric_address b]> (addresses_by_symbol r))) as [HA1 HA2];
      [by rewrite insert_zlen|intros s; apply insert_at; lia|].
    destruct (Hsnd (mkGuestImportPlan false "" 0 0 0 (bindings r ++ [b]) []) eq_refl) as [HS1 HS2].
    split; cbn -[bound_count]; try done.
    + rewrite indices_snoc by done. apply Forall2_app; [done|by constructor].
    + by rewrite !insert_zlen.
    + rewrite M1, Hcount, E0. cbn [negb Z.eqb]. unwrap. done.
    + rewrite M2, Hcount, E0. cbn [negb Z.eqb]. lia.
Qed.

(** The maps the loop looks names up in. *)
Record tables_agree (registry : gmap GuestImportKey Z) (libs mods : gmap Z GuestLinkDependency) : Prop := {
  ta_registry : registry_ok exports registry;
  ta_libs : dependencies_ok (library_records manifest) libs;
  ta_mods : dependencies_ok (module_records manifest) mods
}.

Lemma registry_exported registry key :
  registry_ok exports registry ->
  exported key (default 0 (registry !! key)) /\ (registry !! key = Some 0 -> False).
Proof.
  intros [Hl _ Ha]. assert (Hne : forall a, registry !! key = Some a -> a <> 0).
  { intros a (e & He & _ & <-)%Hl. by eapply Forall_forall in Ha. }
  split; [|intros H0; by apply (Hne 0)].
  destruct (registry !! key) as [a|] eqn:E; cbn.
  - left. split; [by apply Hne|]. by apply Hl.
  - right. split; [done|]. intros e He Hk.
    assert (registry !! key = Some (exp_address e)) as Hc by (apply Hl; by exists e). congruence.
Qed.

Lemma resolve_import_wp registry libs mods seen k r :
  tables_agree registry libs mods -> 0 <= man_symbols manifest <= 131072 -> zlen (symbol_records manifest) = man_symbols manifest ->
  Forall (fun i => 0 <= i) (import_symbol_indices manifest) ->
  zlen (import_symbol_indices manifest) = zlen (man_imports manifest) -> zlen (man_imports manifest) <= 8192 ->
  0 <= k < zlen (man_imports manifest) -> resolve_inv k seen r ->
  wp (resolve_import manifest registry libs mods seen k)
    (fun seen' r' => resolve_inv (k + 1) seen' r') import_rejected r.
Proof.
  intros [Tr Tl Tm] Hn Hrec Hnn Hidx Hbud Hk Hinv. pose proof (rv_valid _ _ _ Hinv) as Hv.
  destruct (rv_length _ _ _ Hinv) as [Hl1 Hl2].
  unfold resolve_import. wp_step. apply wp_at_index; [lia|]. intros symbol Hsym.
  assert (0 <= symbol) by (eapply Forall_forall in Hnn; [exact Hnn|by eapply at_index_elem]).
  wp_step; wp_step; [done|]. reflect_bools.
  wp_step. apply wp_at_index; [lia|]. intros was Hwas.
  wp_step; wp_step; [done|]. subst was. wp_step. apply wp_at_index; [lia|]. intros info Hinfo.
  wp_step; wp_step; [done|]. wp_step. apply wp_at_index; [lia|]. intros name Hname.
  assert (Hu : undefined info = true).
  { unfold undefined. reflect_bools. apply andb_true_intro. split; [by apply Z.eqb_eq|].
    destruct (sym_binding info =? 1); [done|]. cbn in *. by apply negb_false_iff. }
  destruct (split_import name) as [[[nid lib] mod_text]|] eqn:Es; [|by wp_step].
  apply split_import_Some in Es as (-> & Hnid & _).
  destruct (DecodeGuestId lib) as [lib_id|] eqn:El; [|by wp_step].
  destruct (DecodeGuestId mod_text) as [mod_id|] eqn:Em; [|by wp_step].
  apply DecodeGuestId_Some in El as [_ ->]. apply DecodeGuestId_Some in Em as [_ ->].
  destruct (libs !! lib_id) as [library|] eqn:Elib; [|by wp_step]. apply Tl in Elib as [Hlib Hlibid].
  destruct (mods !! mod_id) as [module|] eqn:Emod; [|by wp_step]. apply Tm in Emod as [Hmod Hmodid].
  set (key := mkGuestImportKey _ _ _ _ _ _ _).
  destruct (registry_exported registry key Tr) as [Hexp Hnz].
  pose proof (Forall2_length _ _ _ (rv_bindings _ _ _ Hinv)) as Hlen.
  unfold indices in Hlen. rewrite length_fmap, length_seq in Hlen.
  set (b := mkGuestImportBinding symbol lib_id mod_id key (default 0 (registry !! key))).
  assert (Hb : binding_ok k b).
  { split; cbn; try done; [by exists info|by exists library|by exists module]. }
  assert (Hnext : forall r', _ -> resolve_inv (k + 1) (<[Z.to_nat symbol := true]> seen) r') by
    (intros r'; exact (resolve_inv_snoc k seen b r r' ltac:(lia) Hinv Hb ltac:(cbn; lia) Hwas ltac:(unfold zlen; lia))).
  unfold b in Hnext. cbn [numeric_address bnd_symbol] in Hnext.
  destruct (registry !! key) as [address|] eqn:Er; cbn [default] in Hnext.
  - assert (address <> 0) by (intros ->; auto).
    wp_step; wp_step. wp_step. apply wp_at_index; [lia|]. intros ? _.
    wp_step; wp_step. wp_step; wp_step. wp_step; wp_step. wp_step. apply Hnext.
    rewrite (proj2 (Z.eqb_neq _ _)) by done. reflexivity.
  - wp_step; wp_step. wp_step; wp_step. wp_step. apply Hnext. reflexivity.
Qed.

(** What a resolved plan reports of the manifest and the registry. *)
Record imports_resolved (r : GuestImportPlan) : Prop := {
  ir_error : imp_error r = "";
  ir_exports : exports_count r = zlen exports;
  ir_bindings : Forall2 binding_ok (indices (zlen (man_imports manifest))) (bindings r);
  ir_distinct : NoDup (List.map bnd_symbol (bindings r));
  ir_length : zlen (addresses_by_symbol r) = man_symbols manifest;
  ir_bound : forall b, b ∈ bindings r -> (addresses_by_symbol r).[bnd_symbol b] = Some (numeric_address b);
  ir_unbound : forall s a, (addresses_by_symbol r).[s] = Some a ->
    s ∉ List.map bnd_symbol (bindings r) -> a = 0;
  ir_matched : matched r = bound_count (fun a => negb (a =? 0)) (bindings r);
  ir_unresolved : unresolved r = bound_count (fun a => a =? 0) (bindings r)
}.

Lemma resolve_imports_wp :
  Forall (fun i => 0 <= i) (import_symbol_indices manifest) -> 0 <= man_symbols manifest ->
  wp (resolve_imports manifest exports)
    (fun _ r => imp_valid r = true /\ imports_resolved r) import_rejected import_init.
Proof.
  intros Hnn Hn0. unfold resolve_imports. wp_step; wp_step; [done|]. wp_step; wp_step; [done|].
  repeat match goal with H : (_ || _)%bool = false |- _ => apply orb_false_elim in H; destruct H end.
  reflect_bools. apply wp_bind.
  apply wp_foldM with (Inv := fun pre m r => registry_ok pre m /\ r = import_init).
  { split; [|done]. split; [|done|constructor]. intros k a. rewrite lookup_empty. split; [done|].
    intros (e & He & _). by apply not_elem_of_nil in He. }
  { intros pre e post m r _ [Hm ->]. by apply register_export_wp. }
  intros registry r [Hreg ->]. wp_step; wp_step. apply wp_bind.
  match goal with |- wp _ _ _ ?r => set (r0 := r) end.
  assert (Hinit : dependencies_ok [] ∅).
  { intros id d. rewrite lookup_empty. split; [done|]. intros [He _]. by apply not_elem_of_nil in He. }
  apply wp_foldM with (Inv := fun pre m r => dependencies_ok pre m /\ r = r0); [done| |].
  { intros pre e post m r _ [Hm ->]. by apply register_dependency_wp. }
  intros mods r [Hmods ->]. apply wp_bind.
  apply wp_foldM with (Inv := fun pre m r => dependencies_ok pre m /\ r = r0); [done| |].
  { intros pre e post m r _ [Hm ->]. by apply register_dependency_wp. }
  intros libs r [Hlibs ->]. wp_step; wp_step. apply wp_bind.
  apply wp_foldM with (Inv := fun pre seen r => resolve_inv (zlen pre) seen r).
  { unfold r0. split; cbn; try done.
    - rewrite (rg_size _ _ Hreg). done.
    - split; by apply zlen_filled.
    - intros s. split; [|intros Hs; by apply not_elem_of_nil in Hs]. intros Hs.
      pose proof (at_index_range _ _ _ Hs) as Hr. rewrite zlen_filled in Hr by lia.
      rewrite filled_at in Hs by done. done.
    - constructor.
    - intros b Hb. by apply not_elem_of_nil in Hb.
    - intros s a Hs _. pose proof (at_index_range _ _ _ Hs) as Hr. rewrite zlen_filled in Hr by lia.
      rewrite filled_at in Hs by done. by injection Hs. }
  { intros pre i post seen r Hi Hinv. apply indices_split in Hi as (-> & Hi & _).
    rewrite zlen_app. by apply resolve_import_wp. }
  intros seen r Hinv. wp_step. unfold indices in Hinv. unfold zlen at 1 in Hinv.
  rewrite length_fmap, length_seq, Z2Nat.id in Hinv by (unfold zlen; lia).
  destruct Hinv as [? ? ? ? [? ?] ? ? ? ? ? ?]. split; [done|]. split; try done.
Qed.
End Correct.

Lemma ResolveGuestImports_spec manifest exports :
  Forall (fun i => 0 <= i) (import_symbol_indices manifest) -> 0 <= man_symbols manifest ->
  exists r, ResolveGuestImports manifest exports = Some r /\
    ((imp_valid r = true /\ imports_resolved manifest exports r) \/
     (imp_valid r = false /\ imp_error r <> "" /\ bindings r = [] /\ addresses_by_symbol r = [])).
Proof.
  intros Hn H0. unfold ResolveGuestImports. apply finish_wp.
  eapply wp_conseq; [by apply resolve_imports_wp|intros; by left|].
  intros e r [He Hv]. right. by split_and!.
Qed.

(** The identifier encoding of import names is canonical: a text decodes to [id]
    exactly when it is the encoding of the 16-bit [id]. *)
Theorem DecodeGuestId_exact encoded id :
  DecodeGuestId encoded = Some id <-> 0 <= id <= U16_MAX /\ encoded = EncodeGuestId id.
Proof.
  split; [apply DecodeGuestId_Some|]. intros [Hid ->]. by apply DecodeGuestId_Encode.
Qed.

(** C6. Resolving never indexes outside the manifest's tables. A valid plan binds every
    import, in order, to the key its name, its library and its module denote; a binding
    carries the address of the one export with exactly that key, or zero when no export
    has it; the address table holds the bindings' addresses and zero elsewhere, and the
    counters are exact. A refused plan is empty. *)
Theorem ResolveGuestImports_exact manifest exports :
  Forall (fun i => 0 <= i) (import_symbol_indices manifest) -> 0 <= man_symbols manifest ->
  exists r, ResolveGuestImports manifest exports = Some r /\
    (imp_valid r = true -> imports_resolved manifest exports r /\
       matched r + unresolved r = zlen (man_imports manifest)) /\
    (imp_valid r = false -> imp_error r <> "" /\ bindings r = [] /\ addresses_by_symbol r = []).
Proof.
  intros Hn H0. destruct (ResolveGuestImports_spec manifest exports Hn H0) as
    (r & Hr & [[Hv Hok]|(Hv & He & Hb & Ha)]); exists r; (split; [exact Hr|]); rewrite Hv; [|done].
  split; [|done]. intros _. split; [exact Hok|].
  rewrite (ir_matched _ _ _ Hok), (ir_unresolved _ _ _ Hok).
  pose proof (Forall2_length _ _ _ (ir_bindings _ _ _ Hok)) as Hlen.
  unfold indices in Hlen. rewrite length_fmap, length_seq in Hlen.
  transitivity (zlen (bindings r)); [|unfold zlen in *; lia].
  clear. unfold bound_count, zlen. induction (bindings r) as [|b l IH]; [done|]. cbn [List.filter].
  destruct (numeric_address b =? 0); cbn [negb length]; lia.
Qed.

(** [MakeGuestImportFixtureExports] of guest_import_fixture.h. *)
Definition MakeGuestImportFixtureExports : list GuestDataExport :=
  [mkGuestDataExport (mkGuestImportKey (text "fixture") (text "libFixture") (text "libFixture") 0 0 0 2) 0x200001000;
   mkGuestDataExport (mkGuestImportKey (text "object") (text "libFixture") (text "libFixture") 0 0 0 1) 0x200002000].

Definition fixture_manifest : GuestLinkManifest :=
  default manifest_init (InspectGuestLinkManifest (MakeGuestLinkFixture true) true).

Lemma ResolveGuestImports_exact_witness :
  exists r, ResolveGuestImports fixture_manifest MakeGuestImportFixtureExports = Some r /\
    imports_resolved fixture_manifest MakeGuestImportFixtureExports r /\ matched r = 2.
Proof.
  assert (Hn : Forall (fun i => 0 <= i) (import_symbol_indices fixture_manifest)).
  { apply List.Forall_forall. intros i Hi. apply Z.leb_le.
    revert i Hi. apply forallb_forall. vm_compute. reflexivity. }
  assert (H0 : 0 <= man_symbols fixture_manifest) by (apply Z.leb_le; vm_compute; reflexivity).
  destruct (ResolveGuestImports_exact fixture_manifest MakeGuestImportFixtureExports Hn H0) as (r & Hr & Hok & _).
  exists r. split; [exact Hr|]. split.
  - apply Hok. apply (checked_result imp_valid _ _ Hr). vm_compute. reflexivity.
  - apply Z.eqb_eq. apply (checked_result (fun r => matched r =? 2) _ _ Hr). vm_compute. reflexivity.
Defined.
