(* ===== verification/DataLink.v ===== *)
(** Data relocation: [StageGuestDataLink] of src/src/core/uwp/guest_data_link.h.

    Applies the numeric relocations of a staged payload: every value is computed and
    every target checked before the first byte is written, and the written image is
    verified against the file afterwards. *)
From Stdlib Require Import ZArith Lia.
From Stdlib Require Import Strings.Byte.
From stdpp Require Import base gmap list list_numbers strings sorting.
From S2P Require Import Prelude.
From S2P Require Import Fixtures.
From S2P Require Import Preflight.
From S2P Require Import LoadPlan.
From S2P Require Import Payload.
From S2P Require Import LinkManifest.
From S2P Require Import ImportResolver.

Definition GuestDiagnosticLoadBias : Z := 0x100000000.

Record GuestDataLink := mkGuestDataLink {
  dl_payload : GuestPayload;
  dl_manifest : GuestLinkManifest;
  dl_imports : GuestImportPlan;
  dl_valid : bool;
  dl_complete : bool;
  writes_verified : bool;
  untouched_verified : bool;
  dl_bias : Z;
  relative_applied : Z;
  local_applied : Z;
  pending_imports : Z;
  pending_bindings : Z;
  pending_types : Z;
  none : Z;
  checksum_after : Z;
  data_import_applied : Z;
  dl_error : string
}.
#[export] Instance eta_GuestDataLink : Eta GuestDataLink := fun r =>
  mkGuestDataLink (dl_payload r) (dl_manifest r) (dl_imports r) (dl_valid r) (dl_complete r)
    (writes_verified r) (untouched_verified r) (dl_bias r) (relative_applied r) (local_applied r)
    (pending_imports r) (pending_bindings r) (pending_types r) (none r) (checksum_after r)
    (data_import_applied r) (dl_error r).
Definition link_init : GuestDataLink :=
  mkGuestDataLink payload_init manifest_init import_init false false false false 0 0 0 0 0 0 0 0 0 "".
(** [fail] *)
Definition link_fail (e : string) (r : GuestDataLink) : GuestDataLink :=
  r <| dl_error := e |> <| dl_valid := false |> <| dl_complete := false |>.

(** [AddGuestSigned]: base plus the two's complement [bits], or [None] when the sum
    leaves the range. *)
Definition AddGuestSigned (base bits : Z) : option Z :=
  if negb (Z.shiftr bits 63 =? 0) then
    let magnitude := wrap64 (Z.lnot bits) +64 1 in
    if base <? magnitude then None else Some (base -64 magnitude)
  else if U64_MAX -64 bits <? base then None else Some (base +64 bits).

(** [mapped(address, size, writable)]: decided by the first segment that holds the range. *)
Fixpoint mapped_as (segs : list GuestLoadSegment) (address size : Z) (writable : bool) : bool :=
  match segs with
  | [] => false
  | segment :: rest =>
      if (address <? seg_address segment) ||
         (seg_memory_size segment <? address -64 seg_address segment) ||
         (seg_memory_size segment -64 (address -64 seg_address segment) <? size)
      then mapped_as rest address size writable
      else negb writable ||
           ((Z.land (seg_flags segment) 1 =? 0) &&
            (negb (Z.land (seg_flags segment) 2 =? 0) || (seg_type segment =? SceRelro)))
  end.

Record Patch := mkPatch { patch_offset : Z; patch_value : Z; patch_original : Z }.
Record Range := mkRange { range_start : Z; range_end : Z }.
Record ExpectedRange := mkExpectedRange { exp_start : Z; exp_end : Z; exp_physical : Z }.

(** The loop's local variables. *)
Record LinkLocals := mkLinkLocals {
  patches : list Patch;
  ranges : list Range;
  relative_count : Z;
  local_count : Z;
  import_count : Z
}.
#[export] Instance eta_LinkLocals : Eta LinkLocals := fun l =>
  mkLinkLocals (patches l) (ranges l) (relative_count l) (local_count l) (import_count l).

Definition write_width (type : Z) : Z :=
  if type =? 36 then 16
  else if (type =? 2) || (type =? 10) || (type =? 11) then 4 else 8.

Definition supported_relocation (type : Z) : bool :=
  (type =? 1) || (type =? 2) || (type =? 6) || (type =? 7) || (type =? 8) || (type =? 10) ||
  (type =? 11) || (type =? 16) || (type =? 17) || (type =? 18) || (type =? 36).

(** The end of an iteration that selects a write. *)
Definition select_write (segs : list GuestLoadSegment) (image_base address value : Z) (locals : LinkLocals)
    : M GuestDataLink LinkLocals :=
  fail_if (negb (mapped_as segs address 8 true)) "selected_write_not_allowed" ;;;
  ret (locals <| patches ::= fun l => l ++ [mkPatch (address -64 image_base) value 0] |>).

Definition link_step (bias : Z) (manifest : GuestLinkManifest) (imports : GuestImportPlan)
    (plan : GuestLoadPlan) (locals : LinkLocals) (relocation : GuestLinkRelocation)
    : M GuestDataLink LinkLocals :=
  let type := rel_type relocation in
  if type =? 0 then modify (fun r => r <| none ::= fun n => n +64 1 |>) ;;; ret locals else
  let width := write_width type in
  fail_if (negb (supported_relocation type)) "unsupported_relocation_type" ;;;
  let locals := locals <| ranges ::= fun l =>
    l ++ [mkRange (rel_address relocation) (rel_address relocation +64 width)] |> in
  if type =? 8 then
    match AddGuestSigned bias (rel_addend_bits relocation) with
    | None => fail "relative_value_overflow"
    | Some value =>
        select_write (segments plan) (base plan) (rel_address relocation) value
          (locals <| relative_count ::= fun n => n +64 1 |>)
    end
  else if (type =? 1) || (type =? 6) || (type =? 7) then
    symbol <- need ((symbol_records manifest).[rel_symbol relocation]) ;;
    let addend := if type =? 1 then rel_addend_bits relocation else 0 in
    if sym_section symbol =? 0 then
      address <- need ((addresses_by_symbol imports).[rel_symbol relocation]) ;;
      if address =? 0 then
        modify (fun r => r <| pending_imports ::= fun n => n +64 1 |>) ;;; ret locals
      else
        match AddGuestSigned address addend with
        | None => fail "data_import_value_overflow"
        | Some value =>
            select_write (segments plan) (base plan) (rel_address relocation) value
              (locals <| import_count ::= fun n => n +64 1 |>)
        end
    else if negb (sym_binding symbol =? 0) || (0xff00 <=? sym_section symbol) || (2 <? sym_type symbol) then
      modify (fun r => r <| pending_bindings ::= fun n => n +64 1 |>) ;;; ret locals
    else
      fail_if (negb (mapped_as (segments plan) (sym_address symbol) (Z.max 1 (sym_size symbol)) false) ||
               (U64_MAX -64 sym_address symbol <? bias))
        "local_symbol_outside_image_or_overflow" ;;;
      match AddGuestSigned (bias +64 sym_address symbol) addend with
      | None => fail "local_symbol_value_overflow"
      | Some value =>
          select_write (segments plan) (base plan) (rel_address relocation) value
            (locals <| local_count ::= fun n => n +64 1 |>)
      end
  else modify (fun r => r <| pending_types ::= fun n => n +64 1 |>) ;;; ret locals.

(** [std::sort] by the given key. The sorted sequence is the same for every sorting
    algorithm when no two keys are equal, which the theorems establish where it matters. *)
Definition by_start (a b : Range) : Prop := range_start a <= range_start b.
Definition by_offset (a b : Patch) : Prop := patch_offset a <= patch_offset b.
Definition by_exp_start (a b : ExpectedRange) : Prop := exp_start a <= exp_start b.
#[export] Instance by_start_dec a b : Decision (by_start a b) := Z_le_dec _ _.
#[export] Instance by_offset_dec a b : Decision (by_offset a b) := Z_le_dec _ _.
#[export] Instance by_exp_start_dec a b : Decision (by_exp_start a b) := Z_le_dec _ _.

(** [ranges[i].start < ranges[i - 1].end] for some adjacent pair. *)
Fixpoint overlapping (l : list Range) : bool :=
  match l with
  | a :: (b :: _) as rest => (range_start b <? range_end a) || overlapping rest
  | _ => false
  end.

(** [write(offset, value)]: eight bytes, least significant first. *)
Fixpoint write_from (image : list byte) (offset i : Z) (count : nat) (value : Z) : option (list byte) :=
  match count with
  | O => Some image
  | S n =>
      if decide (0 <= offset + i < zlen image)
      then write_from (<[Z.to_nat (offset + i) := to_u8 (Z.shiftr value (i * 8))]> image) offset (i + 1) n value
      else None
  end.
Definition write (image : list byte) (offset value : Z) : option (list byte) :=
  write_from image offset 0 8 value.

(** The cursor [backing]: the expected ranges not ended by [i]. *)
Fixpoint skip_ended (expected : list ExpectedRange) (i : Z) : list ExpectedRange :=
  match expected with
  | e :: rest => if exp_end e <=? i then skip_ended rest i else expected
  | [] => []
  end.

(** [verify_untouched]: walks the bytes of the image still ahead of [i], of which the
    next [skip] belong to a patch ([i += 7]); the cursors [next] and [backing] are the
    patches and the expected ranges still ahead. [None] is a read outside [file]. *)
Fixpoint verify_untouched (file : list byte) (ahead : list byte) (skip : nat) (i : Z)
    (next : list Patch) (backing : list ExpectedRange) : option bool :=
  match ahead with
  | [] => Some true
  | actual :: rest =>
      match skip with
      | S skip => verify_untouched file rest skip (i + 1) next backing
      | O =>
          if match next with p :: _ => i =? patch_offset p | [] => false end
          then verify_untouched file rest 7 (i + 1) (tail next) backing
          else
            let backing' := skip_ended backing i in
            byte ← match backing' with
                   | e :: _ => if exp_start e <=? i then file.[exp_physical e + i - exp_start e] else Some Byte.x00
                   | [] => Some Byte.x00
                   end;
            if negb (u8 actual =? u8 byte) then Some false
            else verify_untouched file rest 0 (i + 1) next backing'
      end
  end.

(** [std::all_of(patches, read(offset) == value)] *)
Fixpoint verify_writes (image : list byte) (l : list Patch) : option bool :=
  match l with
  | [] => Some true
  | p :: rest =>
      v ← read image (patch_offset p) 8;
      if v =? patch_value p then verify_writes image rest else Some false
  end.

Definition image_bytes (r : GuestDataLink) : list byte := img_bytes (image (dl_payload r)).
Definition set_image_bytes (b : list byte) (r : GuestDataLink) : GuestDataLink :=
  r <| dl_payload ::= fun p => p <| image ::= fun i => i <| img_bytes := b |> |> |>.

(** [patch.original = read(patch.offset); write(patch.offset, patch.value);] *)
Definition apply_patch (done : list Patch) (p : Patch) : M GuestDataLink (list Patch) :=
  img <- gets image_bytes ;;
  original <- need (read img (patch_offset p) 8) ;;
  img' <- need (write img (patch_offset p) (patch_value p)) ;;
  modify (set_image_bytes img') ;;;
  ret (done ++ [mkPatch (patch_offset p) (patch_value p) original]).

Definition rollback_patch (p : Patch) : M GuestDataLink unit :=
  img <- gets image_bytes ;;
  img' <- need (write img (patch_offset p) (patch_original p)) ;;
  modify (set_image_bytes img').

Definition expected_ranges (plan : GuestLoadPlan) (offsets : list Z) : M GuestDataLink (list ExpectedRange) :=
  foldM (fun l i =>
    segment <- need ((segments plan).[i]) ;;
    physical <- need (offsets.[i]) ;;
    let start := seg_address segment -64 base plan in
    ret (l ++ [mkExpectedRange start (start +64 seg_file_size segment) physical]))
    [] (indices (zlen (segments plan))).

(** From the selected patches to the verified image. *)
Definition link_commit (file : list byte) (plan : GuestLoadPlan) (offsets : list Z) (require_complete : bool)
    (locals : LinkLocals) : M GuestDataLink unit :=
  fail_if (overlapping (merge_sort by_start (ranges locals))) "overlapping_relocation_targets" ;;;
  pi <- gets pending_imports ;; pb <- gets pending_bindings ;; pt <- gets pending_types ;;
  let pending := pi +64 pb +64 pt in
  fail_if (require_complete && negb (pending =? 0)) "pending_relocations_require_resolver" ;;;
  let sorted := merge_sort by_offset (patches locals) in
  expected <- expected_ranges plan offsets ;;
  let expected := merge_sort by_exp_start expected in
  sorted <- foldM apply_patch [] sorted ;;
  img <- gets image_bytes ;;
  wv <- need (verify_writes img sorted) ;;
  modify (fun r => r <| writes_verified := wv |>) ;;;
  uv <- need (verify_untouched file img 0 0 sorted expected) ;;
  modify (fun r => r <| untouched_verified := uv |>) ;;;
  when (negb wv || negb uv)
    (forM sorted rollback_patch ;;; fail "post_write_verification_failed") ;;;
  modify (fun r => r <| relative_applied := relative_count locals |>
                     <| local_applied := local_count locals |>
                     <| data_import_applied := import_count locals |>
                     <| checksum_after := fnv1a (image_bytes r) |>
                     <| dl_complete := pending =? 0 |>
                     <| dl_valid := true |>).

Definition data_link (file : list byte) (bias : Z) (require_complete : bool)
    (exports : list GuestDataExport) : M GuestDataLink unit :=
  modify (fun r => r <| dl_bias := bias |>) ;;;
  payload <- need (StageGuestPayload file) ;;
  modify (fun r => r <| dl_payload := payload |>) ;;;
  manifest <- need (InspectGuestLinkManifest file true) ;;
  modify (fun r => r <| dl_manifest := manifest |>) ;;;
  fail_if (negb (Ready payload) || negb (man_valid manifest)) "payload_or_manifest_invalid" ;;;
  imports <- need (ResolveGuestImports manifest exports) ;;
  modify (fun r => r <| dl_imports := imports |>) ;;;
  fail_if (negb (imp_valid imports)) "import_namespace_or_registry_invalid" ;;;
  let plan := payload_plan payload in
  fail_if ((U64_MAX -64 base plan <? bias) || (U64_MAX -64 image_size plan <? bias +64 base plan))
    "biased_image_range_overflow" ;;;
  locals <- foldM (link_step bias manifest imports plan) (mkLinkLocals [] [] 0 0 0) (relocation_records manifest) ;;
  link_commit file plan (load_offsets payload) require_complete locals.

Definition StageGuestDataLink (file : list byte) (bias : Z) (require_complete : bool)
    (exports : list GuestDataExport) : option GuestDataLink :=
  finish link_fail (data_link file bias require_complete exports) link_init.

(** * The signed addition *)

(** The two's complement value of 64 bits. *)
Definition signed64 (bits : Z) : Z := if bits <? 2 ^ 63 then bits else bits - 2 ^ 64.

(** The exact sum, when it is an address. *)
Definition in_range (x : Z) : option Z := if (0 <=? x) && (x <=? U64_MAX) then Some x else None.

Lemma AddGuestSigned_spec base bits :
  is_u64 base -> is_u64 bits -> AddGuestSigned base bits = in_range (base + signed64 bits).
Proof.
  intros Hb Hs. unfold AddGuestSigned, in_range, signed64. rewrite Z.shiftr_div_pow2 by lia.
  change (2 ^ 63) with 9223372036854775808 in *. change (2 ^ 64) with 18446744073709551616. u64_unfold.
  destruct (bits <? 9223372036854775808) eqn:E; reflect_bools.
  - rewrite Z.div_small by lia. cbn [Z.eqb negb]. unwrap.
    repeat case_match; first [lia|reflexivity|reflect_bools; unwrap; f_equal; lia].
  - assert (bits / 9223372036854775808 = 1) as ->
      by (symmetry; apply (Z.div_unique _ _ 1 (bits - 9223372036854775808)); lia).
    cbn [Z.eqb Pos.eqb negb].
    assert (wrap64 (Z.lnot bits) = 18446744073709551615 - bits) as ->.
    { unfold wrap64, Z.lnot. symmetry. apply (Z.mod_unique _ _ (-1)); lia. }
    unwrap. repeat case_match; first [lia|reflexivity|reflect_bools; unwrap; f_equal; lia].
Qed.

(** * Writing and reading back *)

Lemma write_from_spec count : forall image offset i value,
  0 <= offset + i -> offset + i + Z.of_nat count <= zlen image ->
  exists image', write_from image offset i count value = Some image' /\ zlen image' = zlen image /\
    forall k, image'.[k] = if decide (offset + i <= k < offset + i + Z.of_nat count)
                           then Some (to_u8 (Z.shiftr value ((k - offset) * 8))) else image.[k].
Proof.
  induction count as [|n IH]; intros image offset i value H0 Hn; cbn [write_from].
  - exists image. split; [done|]. split; [done|]. intros k. rewrite decide_False by lia. done.
  - rewrite decide_True by lia.
    destruct (IH (<[Z.to_nat (offset + i) := to_u8 (Z.shiftr value (i * 8))]> image) offset (i + 1) value)
      as (im & -> & Hz & Hk); [lia|rewrite insert_zlen; lia|].
    exists im. split; [done|]. split; [by rewrite Hz, insert_zlen|]. intros k. rewrite Hk.
    destruct (decide (k = offset + i)) as [->|Hne].
    + rewrite decide_False by lia. rewrite insert_at, !decide_True by lia. f_equal. f_equal. f_equal. lia.
    + rewrite insert_at, (decide_False (P := k = offset + i)) by lia. repeat case_decide; lia || done.
Qed.

Lemma write_spec image offset value :
  0 <= offset -> offset + 8 <= zlen image ->
  exists image', write image offset value = Some image' /\ zlen image' = zlen image /\
    forall k, image'.[k] = if decide (offset <= k < offset + 8)
                           then Some (to_u8 (Z.shiftr value ((k - offset) * 8))) else image.[k].
Proof.
  intros H0 H8. destruct (write_from_spec 8 image offset 0 value) as (im & Him & Hz & Hk); [lia..|].
  exists im. split; [exact Him|]. split; [done|]. intros k. rewrite Hk, !Z.add_0_r. done.
Qed.

Lemma read_from_bytes bytes offset v n : forall i,
  0 <= offset -> 0 <= i -> offset + i + Z.of_nat n <= U64_MAX ->
  (forall j, i <= j < i + Z.of_nat n -> bytes.[offset + j] = Some (to_u8 (Z.shiftr v (j * 8)))) ->
  read_from bytes offset i n (v mod 2 ^ (8 * i)) = Some (v mod 2 ^ (8 * (i + Z.of_nat n))).
Proof.
  induction n as [|n IH]; intros i H0 Hi Hb Hv; cbn [read_from].
  - by rewrite Z.add_0_r.
  - rewrite wrap64_small by u64_lia. rewrite (Hv i) by lia. cbn.
    rewrite u8_to_u8. assert (0 < 2 ^ (8 * i)) by (apply Z.pow_pos_nonneg; lia).
    rewrite lor_shiftl_add; [|lia|apply Z.mod_pos_bound; lia].
    assert (Hstep : v mod 2 ^ (8 * i) + wrap8 (Z.shiftr v (i * 8)) * 2 ^ (8 * i) = v mod 2 ^ (8 * (i + 1))).
    { unfold wrap8. rewrite Z.shiftr_div_pow2 by lia.
      replace (8 * (i + 1)) with (8 * i + 8) by lia. rewrite Z.pow_add_r by lia. change (2 ^ 8) with 256.
      rewrite Z.rem_mul_r by lia. replace (i * 8) with (8 * i) by lia. lia. }
    rewrite Hstep, IH; [|lia|lia|lia|intros; apply Hv; lia]. f_equal. f_equal. f_equal. lia.
Qed.

Lemma read_bytes bytes offset v :
  0 <= offset -> offset + 8 <= U64_MAX -> is_u64 v ->
  (forall j, 0 <= j < 8 -> bytes.[offset + j] = Some (to_u8 (Z.shiftr v (j * 8)))) ->
  read bytes offset 8 = Some v.
Proof.
  intros H0 H8 Hv Hj. unfold read.
  pose proof (read_from_bytes bytes offset v 8 0 ltac:(lia) ltac:(lia) ltac:(lia)) as Hr.
  change (8 * 0) with 0 in Hr. rewrite Z.mod_1_r in Hr. rewrite Hr by (intros; apply Hj; lia).
  f_equal. apply Z.mod_small. u64_lia.
Qed.

(** * Patches *)

Definition covers (p : Patch) (k : Z) : bool := (patch_offset p <=? k) && (k <? patch_offset p + 8).

(** The patch of [l] that covers byte [k]. *)
Definition covering (l : list Patch) (k : Z) : option Patch := List.find (fun p => covers p k) l.

(** [img] is [img0] with the patches of [l] written. *)
Record patched (img0 : list byte) (l : list Patch) (img : list byte) : Prop := {
  pt_length : zlen img = zlen img0;
  pt_bytes : forall k, img.[k] = match covering l k with
    | Some p => Some (to_u8 (Z.shiftr (patch_value p) ((k - patch_offset p) * 8)))
    | None => img0.[k]
    end
}.

Definition patches_apart (a b : Patch) : Prop :=
  patch_offset a + 8 <= patch_offset b \/ patch_offset b + 8 <= patch_offset a.

Lemma covering_None l k : covering l k = None -> forall p, In p l -> covers p k = false.
Proof. unfold covering. intros H p Hp. by apply (List.find_none _ _ H). Qed.

Lemma covering_Some l k p : covering l k = Some p -> In p l /\ patch_offset p <= k < patch_offset p + 8.
Proof. unfold covering, covers. intros [H1 H2]%List.find_some. reflect_bools. done. Qed.

Lemma covering_unique l k p :
  List.ForallOrdPairs patches_apart l -> In p l -> patch_offset p <= k < patch_offset p + 8 ->
  covering l k = Some p.
Proof.
  intros Hd Hin Hk. destruct (covering l k) as [q|] eqn:E.
  - apply covering_Some in E as [Hq Hqk]. destruct (List.ForallOrdPairs_In Hd _ _ Hin Hq) as [->|[H|H]]; [done|..];
      unfold patches_apart in H; lia.
  - pose proof (covering_None _ _ E p Hin) as H. unfold covers in H. lia.
Qed.

Lemma covering_snoc l p k :
  covering (l ++ [p]) k = match covering l k with Some q => Some q | None => if covers p k then Some p else None end.
Proof.
  unfold covering. induction l as [|q l IH]; [done|]. cbn [app List.find]. destruct (covers q k); [done|apply IH].
Qed.

Lemma patched_snoc img0 l img p :
  patched img0 l img -> Forall (fun q => patches_apart q p) l ->
  0 <= patch_offset p -> patch_offset p + 8 <= zlen img0 ->
  exists img', write img (patch_offset p) (patch_value p) = Some img' /\ patched img0 (l ++ [p]) img'.
Proof.
  intros [Hz Hb] Hd H0 H8.
  destruct (write_spec img (patch_offset p) (patch_value p)) as (img' & Hw & Hz' & Hk); [lia..|].
  exists img'. split; [done|]. split; [lia|]. intros k. rewrite Hk, covering_snoc. case_decide as Hin.
  - assert (covering l k = None) as ->.
    { destruct (covering l k) as [q|] eqn:E; [|done]. apply covering_Some in E as [Hq Hqk].
      eapply List.Forall_forall in Hd; [|exact Hq]. unfold patches_apart in Hd. lia. }
    unfold covers. rewrite (proj2 (Z.leb_le _ _)), (proj2 (Z.ltb_lt _ _)) by lia. done.
  - rewrite Hb. destruct (covering l k); [done|]. unfold covers. destruct (_ && _) eqn:E; [|done].
    reflect_bools. lia.
Qed.

Lemma patched_read img0 l img p :
  patched img0 l img -> List.ForallOrdPairs patches_apart l -> In p l ->
  0 <= patch_offset p -> patch_offset p + 8 <= U64_MAX -> is_u64 (patch_value p) ->
  read img (patch_offset p) 8 = Some (patch_value p).
Proof.
  intros [Hz Hb] Hd Hin H0 H8 Hv. apply read_bytes; try done. intros j Hj.
  rewrite Hb, (covering_unique l _ p) by (done || lia). f_equal. f_equal. f_equal. lia.
Qed.

Lemma verify_writes_ok img0 l img :
  patched img0 l img -> List.ForallOrdPairs patches_apart l -> zlen img0 <= U64_MAX ->
  Forall (fun p => 0 <= patch_offset p /\ patch_offset p + 8 <= zlen img0 /\ is_u64 (patch_value p)) l ->
  verify_writes img l = Some true.
Proof.
  intros Hp Hd Hz Hall.
  assert (Hgen : forall k, (forall p, In p k -> In p l) -> verify_writes img k = Some true).
  { induction k as [|p k IH]; intros Hk; [done|]. cbn [verify_writes].
    pose proof (Hk p (or_introl eq_refl)) as Hin. pose proof Hall as Hf. eapply List.Forall_forall in Hf as (?&?&?); [|exact Hin].
    rewrite (patched_read img0 l img p) by (done || lia). cbn. rewrite Z.eqb_refl. apply IH. intros; apply Hk; by right. }
  by apply Hgen.
Qed.

(** * The verification of the bytes no patch covers *)

Definition patches_ordered (a b : Patch) : Prop := patch_offset a + 8 <= patch_offset b.
Definition expected_holds (e : ExpectedRange) (k : Z) : Prop := exp_start e <= k < exp_end e.

(** [img] agrees with the file at byte [k], as the expected ranges say. *)
Definition agrees (file img : list byte) (expected : list ExpectedRange) (k : Z) : Prop :=
  (forall e, In e expected -> expected_holds e k -> file.[exp_physical e + k - exp_start e] = img.[k]) /\
  ((forall e, In e expected -> ~ expected_holds e k) -> img.[k] = Some Byte.x00).

Lemma skip_ended_spec backing i :
  exists gone, backing = gone ++ skip_ended backing i /\ (forall e, In e gone -> exp_end e <= i) /\
    match skip_ended backing i with e :: _ => i < exp_end e | [] => True end.
Proof.
  induction backing as [|e backing (gone & Hb & Hg & Hh)]; cbn [skip_ended].
  - by exists [].
  - destruct (exp_end e <=? i) eqn:E; reflect_bools.
    + exists (e :: gone). split; [cbn; by rewrite <- Hb|]. split; [|exact Hh].
      intros x [<-|Hx]; [done|by apply Hg].
    + exists []. split; [done|]. split; [done|lia].
Qed.

Lemma drop_cons_inv {A} (l : list A) i a rest :
  0 <= i -> drop (Z.to_nat i) l = a :: rest ->
  l.[i] = Some a /\ rest = drop (Z.to_nat (i + 1)) l /\ 0 <= i < zlen l.
Proof.
  intros Hi Hd. assert (Hl : l !! Z.to_nat i = Some a).
  { rewrite <- (Nat.add_0_r (Z.to_nat i)), <- lookup_drop, Hd. done. }
  unfold at_index. rewrite decide_True by lia. split; [done|].
  replace (Z.to_nat (i + 1)) with (S (Z.to_nat i)) by lia.
  rewrite (drop_S _ _ _ Hl) in Hd. split; [congruence|].
  apply lookup_lt_Some in Hl. unfold zlen. lia.
Qed.

Section Untouched.
Context (file img : list byte) (patches : list Patch) (expected : list ExpectedRange).
Hypothesis Hordered : List.ForallOrdPairs patches_ordered patches.
Hypothesis Hsorted : List.ForallOrdPairs by_exp_start expected.
Hypothesis Hagrees : forall k, 0 <= k < zlen img -> covering patches k = None -> agrees file img expected k.

(** The expected byte is read from the first range not ended. *)
Lemma expected_byte i gone ahead a :
  expected = gone ++ ahead -> (forall e, In e gone -> exp_end e <= i) ->
  match ahead with e :: _ => i < exp_end e | [] => True end ->
  img.[i] = Some a -> 0 <= i < zlen img -> covering patches i = None ->
  match ahead with
  | e :: _ => if exp_start e <=? i then file.[exp_physical e + i - exp_start e] else Some Byte.x00
  | [] => Some Byte.x00
  end = Some a.
Proof.
  intros He Hg Hh Ha Hi Hc. destruct (Hagrees i Hi Hc) as [H1 H2].
  assert (Hnone : (forall e, In e ahead -> ~ expected_holds e i) -> Some Byte.x00 = Some a).
  { intros Hn. rewrite <- Ha. symmetry. apply H2. rewrite He. intros e [Hin|Hin]%List.in_app_iff.
    - specialize (Hg e Hin). unfold expected_holds. lia.
    - by apply Hn. }
  destruct ahead as [|e rest]; [apply Hnone; intros ? []|].
  destruct (exp_start e <=? i) eqn:E; reflect_bools.
  - rewrite <- Ha. apply H1; [rewrite He; apply List.in_or_app; right; by left|unfold expected_holds; lia].
  - apply Hnone. intros x [<-|Hx]; unfold expected_holds; [lia|].
    rewrite He in Hsorted. apply ForallOrdPairs_mid_r in Hsorted. eapply List.Forall_forall in Hsorted; [|exact Hx].
    unfold by_exp_start in Hsorted. lia.
Qed.

Lemma verify_untouched_ok : forall ahead skip i next backing passed gone,
  0 <= i -> ahead = drop (Z.to_nat i) img -> patches = passed ++ next -> expected = gone ++ backing ->
  (forall p, In p passed -> patch_offset p + 8 <= i + Z.of_nat skip) ->
  (forall p, In p next -> i + Z.of_nat skip <= patch_offset p) ->
  (forall e, In e gone -> exp_end e <= i) ->
  verify_untouched file ahead skip i next backing = Some true.
Proof.
  induction ahead as [|a rest IH]; intros skip i next backing passed gone Hi Ha Hp He Hd Hn Hg; [done|].
  symmetry in Ha. apply drop_cons_inv in Ha as (Ha & Hr & Hi2); [|done].
  cbn [verify_untouched]. destruct skip as [|skip].
  - destruct next as [|p next]; cbn [tail].
    + destruct (skip_ended_spec backing i) as (g & Hb & Hg' & Hh).
      assert (Hgg : forall e, In e (gone ++ g) -> exp_end e <= i)
        by (intros e [?|?]%List.in_app_iff; auto).
      rewrite (expected_byte i (gone ++ g) (skip_ended backing i) a); try done; cycle 1.
      { by rewrite <- app_assoc, <- Hb. }
      { destruct (covering patches i) as [q|] eqn:E; [|done]. apply covering_Some in E as [Hq Hqi].
        rewrite Hp, app_nil_r in Hq. apply Hd in Hq. lia. }
      cbn [mbind option_bind]. rewrite Z.eqb_refl. cbn [negb].
      apply (IH 0%nat (i + 1) [] _ passed (gone ++ g)); try done; try lia.
      * by rewrite <- app_assoc, <- Hb.
      * intros q Hq. apply Hd in Hq. lia.
      * intros e Hin. apply Hgg in Hin. lia.
    + destruct (i =? patch_offset p) eqn:Ep; reflect_bools.
      * apply (IH 7%nat (i + 1) next backing (passed ++ [p]) gone); try done; try lia.
        -- by rewrite <- app_assoc.
        -- intros q [Hq|[<-|[]]]%List.in_app_iff; [apply Hd in Hq|]; lia.
        -- intros q Hq. rewrite Hp in Hordered. apply ForallOrdPairs_mid_r in Hordered.
           eapply List.Forall_forall in Hordered; [|exact Hq]. unfold patches_ordered in Hordered. lia.
        -- intros e Hin. apply Hg in Hin. lia.
      * destruct (skip_ended_spec backing i) as (g & Hb & Hg' & Hh).
        assert (Hgg : forall e, In e (gone ++ g) -> exp_end e <= i)
          by (intros e [?|?]%List.in_app_iff; auto).
        assert (Hpi : i < patch_offset p) by (specialize (Hn p (or_introl eq_refl)); lia).
        assert (Hnext : forall q, In q (p :: next) -> i + 1 <= patch_offset q).
        { intros q [<-|Hq]; [lia|]. rewrite Hp in Hordered. apply ForallOrdPairs_mid_r in Hordered.
          eapply List.Forall_forall in Hordered; [|exact Hq]. unfold patches_ordered in Hordered. lia. }
        rewrite (expected_byte i (gone ++ g) (skip_ended backing i) a); try done; cycle 1.
        { by rewrite <- app_assoc, <- Hb. }
        { destruct (covering patches i) as [q|] eqn:E; [|done]. apply covering_Some in E as [Hq Hqi].
          rewrite Hp in Hq. apply List.in_app_iff in Hq as [Hq|Hq]; [apply Hd in Hq|apply Hnext in Hq]; lia. }
        cbn [mbind option_bind]. rewrite Z.eqb_refl. cbn [negb].
        apply (IH 0%nat (i + 1) (p :: next) _ passed (gone ++ g)); try done; try lia.
        -- by rewrite <- app_assoc, <- Hb.
        -- intros q Hq. apply Hd in Hq. lia.
        -- intros q Hq. apply Hnext in Hq. lia.
        -- intros e Hin. apply Hgg in Hin. lia.
  - apply (IH skip (i + 1) next backing passed gone); try done; try lia.
    + intros q Hq. apply Hd in Hq. lia.
    + intros q Hq. apply Hn in Hq. lia.
    + intros e Hin. apply Hg in Hin. lia.
Qed.
End Untouched.

(** * Sorting and disjointness *)

Lemma ForallOrdPairs_perm {A} (R : A -> A -> Prop) l k :
  (forall a b, R a b -> R b a) -> l ≡ₚ k -> List.ForallOrdPairs R l -> List.ForallOrdPairs R k.
Proof.
  intros Hsym. induction 1 as [|x l k Hp IH|x y l|l k m _ IH1 _ IH2]; intros Hl.
  - constructor.
  - inversion Hl as [|? ? Hx Hl']; subst. constructor; [|by apply IH].
    by rewrite <- Hp.
  - inversion Hl as [|? ? Hx Hl']; subst. inversion Hl' as [|? ? Hy Hl'']; subst.
    apply Forall_cons in Hx as [Hxy Hx]. constructor; [constructor; auto|]. by constructor.
  - auto.
Qed.

Lemma StronglySorted_pairs {A} (R : A -> A -> Prop) l : StronglySorted R l -> List.ForallOrdPairs R l.
Proof. induction 1; constructor; auto. Qed.

Lemma ForallOrdPairs_combine {A} (R S T : A -> A -> Prop) l :
  (forall a b, R a b -> S a b -> T a b) -> List.ForallOrdPairs R l -> List.ForallOrdPairs S l ->
  List.ForallOrdPairs T l.
Proof.
  intros H. induction 1 as [|a l Ha Hl IH]; inversion 1 as [|? ? Hb Hl']; subst; constructor; [|auto].
  rewrite Forall_forall in *. eauto.
Qed.

#[export] Instance by_start_total : Total by_start.
Proof. intros a b. unfold by_start. lia. Qed.
#[export] Instance by_start_trans : Transitive by_start.
Proof. intros a b c. unfold by_start. lia. Qed.
#[export] Instance by_offset_total : Total by_offset.
Proof. intros a b. unfold by_offset. lia. Qed.
#[export] Instance by_offset_trans : Transitive by_offset.
Proof. intros a b c. unfold by_offset. lia. Qed.
#[export] Instance by_exp_start_total : Total by_exp_start.
Proof. intros a b. unfold by_exp_start. lia. Qed.
#[export] Instance by_exp_start_trans : Transitive by_exp_start.
Proof. intros a b c. unfold by_exp_start. lia. Qed.

Lemma merge_sort_pairs {A} (R : A -> A -> Prop) `{!Total R, !Transitive R} `{forall a b, Decision (R a b)} l :
  List.ForallOrdPairs R (merge_sort R l).
Proof. apply StronglySorted_pairs. apply StronglySorted_merge_sort; apply _. Qed.

Definition ranges_disjoint (a b : Range) : Prop := range_end a <= range_start b \/ range_end b <= range_start a.

(** Checking adjacent pairs of the sorted ranges rules out every overlap. *)
Lemma overlapping_false l :
  Forall (fun r => range_start r < range_end r) l -> overlapping l = false ->
  List.ForallOrdPairs (fun a b => range_end a <= range_start b) l.
Proof.
  induction l as [|a [|b l] IH]; intros Hne Ho; [repeat constructor..|].
  cbn [overlapping] in Ho. apply orb_false_elim in Ho as [Hab Ho]. reflect_bools.
  apply Forall_cons in Hne as [Ha Hne]. specialize (IH Hne Ho). constructor; [|done].
  inversion IH as [|? ? Hb _]; subst. apply Forall_cons in Hne as [Hb' _].
  constructor; [done|]. apply (Forall_impl _ _ _ Hb). intros c Hc. cbn in *. lia.
Qed.

Lemma overlap_check l :
  Forall (fun r => range_start r < range_end r) l ->
  overlapping (merge_sort by_start l) = false -> List.ForallOrdPairs ranges_disjoint l.
Proof.
  intros Hne Ho. apply (ForallOrdPairs_perm _ (merge_sort by_start l)).
  - intros a b. unfold ranges_disjoint. lia.
  - apply merge_sort_Permutation.
  - apply overlapping_false in Ho; [|by rewrite merge_sort_Permutation].
    eapply ForallOrdPairs_combine; [|exact Ho|exact Ho]. intros a b Hab _. by left.
Qed.

(** * What each relocation asks for, in exact arithmetic *)

Inductive action :=
| Skip
| Relative (value : Z)
| Imported (value : Z)
| Local (value : Z)
| PendingImport
| PendingBinding
| PendingType.

Definition action_value (a : action) : option Z :=
  match a with Relative v | Imported v | Local v => Some v | _ => None end.

Section Spec.
Context (bias : Z) (manifest : GuestLinkManifest) (imports : GuestImportPlan) (plan : GuestLoadPlan).

Definition addend_of (x : GuestLinkRelocation) : Z :=
  if rel_type x =? 1 then signed64 (rel_addend_bits x) else 0.

(** B + A for the relative ones, S + A for the exported symbols, B + S + A for the
    local symbols; the others are left to later stages. *)
Definition relocation_action (x : GuestLinkRelocation) : option action :=
  let type := rel_type x in
  if type =? 0 then Some Skip
  else if type =? 8 then Some (Relative (bias + signed64 (rel_addend_bits x)))
  else if (type =? 1) || (type =? 6) || (type =? 7) then
    symbol ← (symbol_records manifest).[rel_symbol x];
    if sym_section symbol =? 0 then
      address ← (addresses_by_symbol imports).[rel_symbol x];
      Some (if address =? 0 then PendingImport else Imported (address + addend_of x))
    else if negb (sym_binding symbol =? 0) || (0xff00 <=? sym_section symbol) || (2 <? sym_type symbol)
    then Some PendingBinding
    else Some (Local (bias + sym_address symbol + addend_of x))
  else Some PendingType.

Definition applied_value (x : GuestLinkRelocation) : option Z := a ← relocation_action x; action_value a.

(** The segment a write may go to: writable or relro, never executable. *)
Definition writable_target (address : Z) : Prop :=
  exists s, In s (segments plan) /\ seg_address s <= address /\ address + 8 <= seg_end s /\
    Z.land (seg_flags s) 1 = 0 /\ (Z.land (seg_flags s) 2 <> 0 \/ seg_type s = SceRelro).

Definition patch_of (x : GuestLinkRelocation) : option Patch :=
  v ← applied_value x; Some (mkPatch (rel_address x - base plan) v 0).
Definition range_of (x : GuestLinkRelocation) : Range :=
  mkRange (rel_address x) (rel_address x + write_width (rel_type x)).
Definition real (x : GuestLinkRelocation) : bool := negb (rel_type x =? 0).

Definition action_is (f : action -> bool) (x : GuestLinkRelocation) : bool :=
  match relocation_action x with Some a => f a | None => false end.
Definition count_actions (f : action -> bool) (l : list GuestLinkRelocation) : Z :=
  zlen (List.filter (action_is f) l).

Definition is_relative (a : action) : bool := match a with Relative _ => true | _ => false end.
Definition is_imported (a : action) : bool := match a with Imported _ => true | _ => false end.
Definition is_local (a : action) : bool := match a with Local _ => true | _ => false end.
Definition is_skip (a : action) : bool := match a with Skip => true | _ => false end.
Definition is_pending_import (a : action) : bool := match a with PendingImport => true | _ => false end.
Definition is_pending_binding (a : action) : bool := match a with PendingBinding => true | _ => false end.
Definition is_pending_type (a : action) : bool := match a with PendingType => true | _ => false end.

(** The relocations of [pre] have been inspected; nothing is written yet. *)
Record step_inv (payload : GuestPayload) (pre : list GuestLinkRelocation) (locals : LinkLocals)
    (r : GuestDataLink) : Prop := {
  sv_frame : dl_payload r = payload /\ dl_manifest r = manifest /\ dl_imports r = imports /\
             dl_bias r = bias /\ dl_error r = "" /\ dl_valid r = false /\ dl_complete r = false;
  sv_patches : patches locals = omap patch_of pre;
  sv_ranges : ranges locals = List.map range_of (List.filter real pre);
  sv_supported : Forall (fun x => real x = true -> supported_relocation (rel_type x) = true) pre;
  sv_targets : Forall (fun x => forall v, applied_value x = Some v ->
    is_u64 v /\ writable_target (rel_address x)) pre;
  sv_locals : relative_count locals = count_actions is_relative pre /\
              local_count locals = count_actions is_local pre /\
              import_count locals = count_actions is_imported pre;
  sv_pending : pending_imports r = count_actions is_pending_import pre /\
               pending_bindings r = count_actions is_pending_binding pre /\
               pending_types r = count_actions is_pending_type pre /\
               none r = count_actions is_skip pre
}.

Lemma count_actions_snoc f pre x :
  count_actions f (pre ++ [x]) = count_actions f pre + (if action_is f x then 1 else 0).
Proof. unfold count_actions. rewrite List.filter_app, zlen_app. f_equal. cbn. by destruct (action_is f x). Qed.

Lemma count_actions_bound f pre : 0 <= count_actions f pre <= zlen pre.
Proof. apply filter_zlen. Qed.

Lemma omap_snoc {A B} (f : A -> option B) l x :
  omap f (l ++ [x]) = omap f l ++ match f x with Some y => [y] | None => [] end.
Proof.
  induction l as [|y l IH]; cbn; [by destruct (f x)|]. destruct (f y); cbn; by rewrite <- IH.
Qed.

(** The effect of an accepted action on the locals and on the result. *)
Definition extend (x : GuestLinkRelocation) (a : action) (l : LinkLocals) : LinkLocals :=
  let l := if real x then l <| ranges ::= fun k => k ++ [range_of x] |> else l in
  let l := match a with
           | Relative _ => l <| relative_count ::= fun n => n +64 1 |>
           | Imported _ => l <| import_count ::= fun n => n +64 1 |>
           | Local _ => l <| local_count ::= fun n => n +64 1 |>
           | _ => l
           end in
  match action_value a with
  | Some v => l <| patches ::= fun k => k ++ [mkPatch (rel_address x - base plan) v 0] |>
  | None => l
  end.
Definition bump (a : action) (r : GuestDataLink) : GuestDataLink :=
  match a with
  | Skip => r <| none ::= fun n => n +64 1 |>
  | PendingImport => r <| pending_imports ::= fun n => n +64 1 |>
  | PendingBinding => r <| pending_bindings ::= fun n => n +64 1 |>
  | PendingType => r <| pending_types ::= fun n => n +64 1 |>
  | _ => r
  end.

Lemma step_inv_snoc payload pre x a locals r :
  step_inv payload pre locals r -> zlen pre <= 524288 -> relocation_action x = Some a ->
  (real x = true -> supported_relocation (rel_type x) = true) ->
  (forall v, action_value a = Some v -> is_u64 v /\ writable_target (rel_address x)) ->
  step_inv payload (pre ++ [x]) (extend x a locals) (bump a r).
Proof.
  intros [Hf Hp Hr Hs Ht (L1 & L2 & L3) (P1 & P2 & P3 & P4)] Hlen Ha Hsup Htar.
  assert (Hval : applied_value x = action_value a) by (unfold applied_value; by rewrite Ha).
  assert (Hcnt : forall f, count_actions f (pre ++ [x]) = count_actions f pre + (if f a then 1 else 0))
    by (intros f; rewrite count_actions_snoc; unfold action_is; by rewrite Ha).
  assert (Hpatch : patch_of x = match action_value a with
    | Some v => Some (mkPatch (rel_address x - base plan) v 0) | None => None end)
    by (unfold patch_of; rewrite Hval; by destruct (action_value a)).
  pose proof (fun f => count_actions_bound f pre) as Hb.
  pose proof (Hb is_relative). pose proof (Hb is_imported). pose proof (Hb is_local). pose proof (Hb is_skip).
  pose proof (Hb is_pending_import). pose proof (Hb is_pending_binding). pose proof (Hb is_pending_type).
  split.
  - by destruct a.
  - rewrite omap_snoc, Hpatch, <- Hp. unfold extend.
    destruct a, (real x); cbn; rewrite ?app_nil_r; reflexivity.
  - rewrite List.filter_app, List.map_app, <- Hr. unfold extend.
    destruct a; cbn; destruct (real x); cbn; rewrite ?app_nil_r; reflexivity.
  - apply Forall_app. split; [done|]. by constructor.
  - apply Forall_app. split; [done|]. constructor; [|done]. intros v. rewrite Hval. apply Htar.
  - rewrite !Hcnt. unfold extend. destruct a, (real x); cbn -[count_actions is_relative is_local is_imported];
      rewrite ?L1, ?L2, ?L3; cbn [is_relative is_local is_imported]; unwrap; split_and!; lia.
  - rewrite !Hcnt. destruct a; cbn -[count_actions is_skip is_pending_import is_pending_binding is_pending_type];
      rewrite ?P1, ?P2, ?P3, ?P4; cbn [is_skip is_pending_import is_pending_binding is_pending_type];
      unwrap; split_and!; lia.
Qed.
End Spec.

(** What a rejected link leaves: an error other than the verification's, the staged
    payload untouched, and no claim of success. *)
Definition data_rejected (payload : GuestPayload) (e : string) (r : GuestDataLink) : Prop :=
  e <> "" /\ e <> "post_write_verification_failed" /\ dl_payload r = payload.

Section Step.
Context (bias : Z) (manifest : GuestLinkManifest) (imports : GuestImportPlan) (plan : GuestLoadPlan)
  (payload : GuestPayload) (file_size : Z).
Hypothesis Hlayout : plan_layout file_size plan.
Hypothesis Hbias : is_u64 bias.
Hypothesis Hsymbols : zlen (symbol_records manifest) = man_symbols manifest /\
  zlen (addresses_by_symbol imports) = man_symbols manifest.
Hypothesis Hsymbol_values : Forall (fun s => is_u64 (sym_address s) /\ is_u64 (sym_size s)) (symbol_records manifest).
Hypothesis Haddresses : Forall is_u64 (addresses_by_symbol imports).
Hypothesis Hpayload : payload_plan payload = plan.

Lemma supported_width t : supported_relocation t = true -> write_width t = relocation_width t /\ 4 <= write_width t <= 16.
Proof.
  unfold supported_relocation, write_width. rewrite relocation_width_cases. unfold is_symbol_type, is_tls_type.
  intros H. repeat case_match; lia.
Qed.

Lemma segment_range s : In s (segments plan) ->
  0 <= seg_address s /\ 0 < seg_memory_size s /\ seg_address s + seg_memory_size s <= U64_MAX /\
  base plan <= seg_address s /\ seg_end s <= base plan + image_size plan.
Proof.
  intros Hs. pose proof (pl_base _ _ Hlayout) as [? _].
  destruct (pl_segment _ _ Hlayout s Hs) as (?&?&?&?&?&_). unfold seg_end in *. lia.
Qed.

Lemma mapped_as_spec address size w :
  is_u64 address -> is_u64 size -> mapped_as (segments plan) address size w = true ->
  exists s, In s (segments plan) /\ seg_address s <= address /\ address + size <= seg_end s /\
    (w = true -> Z.land (seg_flags s) 1 = 0 /\ (Z.land (seg_flags s) 2 <> 0 \/ seg_type s = SceRelro)).
Proof.
  intros Ha Hs.
  assert (Hgen : forall l, (forall s, In s l -> In s (segments plan)) -> mapped_as l address size w = true ->
    exists s, In s l /\ seg_address s <= address /\ address + size <= seg_end s /\
      (w = true -> Z.land (seg_flags s) 1 = 0 /\ (Z.land (seg_flags s) 2 <> 0 \/ seg_type s = SceRelro))).
  { induction l as [|s l IH]; intros Hl; cbn [mapped_as]; [done|].
    destruct (segment_range s (Hl s (or_introl eq_refl))) as (?&?&?&?&?).
    destruct (address <? seg_address s) eqn:E1; cbn [orb].
    { intros H'. destruct IH as (x & ? & ?); [intros; apply Hl; by right|done|]. exists x. split; [by right|done]. }
    reflect_bools. unwrap. destruct (_ || _) eqn:E2.
    { intros H'. destruct IH as (x & ? & ?); [intros; apply Hl; by right|done|]. exists x. split; [by right|done]. }
    intros Hw. exists s. split; [by left|]. apply orb_false_elim in E2 as [E2 E3]. reflect_bools. unwrap_all.
    unfold seg_end. split; [lia|]. split; [lia|]. intros ->. cbn [negb orb] in Hw. reflect_bools.
    split; [done|]. apply orb_prop in H5 as [?|?]; [left|right]; reflect_bools; done. }
  intros Hm. by apply (Hgen (segments plan)).
Qed.

Lemma in_range_Some x v : in_range x = Some v -> v = x /\ is_u64 x.
Proof. unfold in_range. case_match; intros [= <-]. split; [done|]. u64_lia. Qed.

Lemma select_write_wp pre x a v locals r :
  relocation_ok (segments plan) (man_symbols manifest) x -> real x = true ->
  supported_relocation (rel_type x) = true -> relocation_action bias manifest imports x = Some a ->
  action_value a = Some v -> is_u64 v -> zlen pre <= 524288 ->
  step_inv bias manifest imports plan payload pre locals r ->
  wp (select_write (segments plan) (base plan) (rel_address x) v
        (match a with
         | Relative _ => (locals <| ranges ::= fun k => k ++ [range_of x] |>) <| relative_count ::= fun n => n +64 1 |>
         | Imported _ => (locals <| ranges ::= fun k => k ++ [range_of x] |>) <| import_count ::= fun n => n +64 1 |>
         | Local _ => (locals <| ranges ::= fun k => k ++ [range_of x] |>) <| local_count ::= fun n => n +64 1 |>
         | _ => locals
         end))
    (step_inv bias manifest imports plan payload (pre ++ [x])) (data_rejected payload) r.
Proof.
  intros Hx Hreal Hsup Ha Hv Huv Hlen Hinv. unfold select_write.
  destruct (sv_frame _ _ _ _ _ _ _ _ Hinv) as (Hp & _).
  wp_step; wp_step; [split_and!; done|]. reflect_bools.
  destruct (ro_u64 _ _ _ Hx) as [Hxa _].
  apply mapped_as_spec in H as (s & Hs & H1 & H2 & H3); [|done|u64_lia].
  destruct (H3 eq_refl) as [H4 H5]. destruct (segment_range s Hs) as (?&?&?&?&?).
  assert (Hoff : rel_address x -64 base plan = rel_address x - base plan)
    by (pose proof (pl_base _ _ Hlayout) as [? _]; apply wrap64_small; u64_lia).
  rewrite Hoff. wp_step.
  pose proof (step_inv_snoc bias manifest imports plan payload pre x a locals r Hinv Hlen Ha (fun _ => Hsup)) as Hnext.
  assert (Ht : forall v', action_value a = Some v' -> is_u64 v' /\ writable_target plan (rel_address x)).
  { intros v' Hv'. assert (v' = v) as -> by congruence. split; [done|]. exists s. by split_and!. }
  specialize (Hnext Ht). unfold extend in Hnext. rewrite Hreal, Hv in Hnext.
  destruct a; cbn [bump] in Hnext; try done; exact Hnext.
Qed.

Lemma link_step_wp pre x locals r :
  relocation_ok (segments plan) (man_symbols manifest) x -> zlen pre <= 524288 ->
  step_inv bias manifest imports plan payload pre locals r ->
  wp (link_step bias manifest imports plan locals x)
    (step_inv bias manifest imports plan payload (pre ++ [x])) (data_rejected payload) r.
Proof.
  intros Hx Hlen Hinv. unfold link_step.
  destruct (sv_frame _ _ _ _ _ _ _ _ Hinv) as (Hp & _).
  destruct (ro_u64 _ _ _ Hx) as [Hxa Hxd]. pose proof (ro_symbol _ _ _ Hx) as Hsym.
  pose proof (ro_type _ _ _ Hx) as Hty.
  assert (Hskip : forall a, action_value a = None -> relocation_action bias manifest imports x = Some a ->
    (real x = true -> supported_relocation (rel_type x) = true) ->
    step_inv bias manifest imports plan payload (pre ++ [x])
      (if real x then locals <| ranges ::= fun k => k ++ [range_of x] |> else locals) (bump a r)).
  { intros a Hn Ha Hs. pose proof (step_inv_snoc bias manifest imports plan payload pre x a locals r Hinv Hlen Ha Hs) as Hnext.
    unfold extend in Hnext. rewrite Hn in Hnext. destruct a; try done; apply Hnext; done. }
  destruct (rel_type x =? 0) eqn:E0.
  { wp_step; wp_step. wp_step. specialize (Hskip Skip eq_refl). unfold real in Hskip. rewrite E0 in Hskip.
    apply Hskip; [unfold relocation_action; by rewrite E0|done]. }
  assert (Hreal : real x = true) by (unfold real; by rewrite E0).
  wp_step; wp_step; [split_and!; done|]. apply negb_false_iff in H.
  destruct (supported_width _ H) as [Hw Hwr].
  assert (Hm : exists s, In s (segments plan) /\ seg_address s <= rel_address x /\
                 rel_address x + write_width (rel_type x) <= seg_end s).
  { rewrite Hw. pose proof (ro_mapped _ _ _ Hx ltac:(lia)) as Hmap. unfold mapped in Hmap.
    apply existsb_exists in Hmap as (s & Hs & Hmap). exists s. split; [done|].
    destruct (segment_range s Hs) as (?&?&?&?&?). reflect_bools. unwrap_all. unfold seg_end. lia. }
  destruct Hm as (sg & Hsg & Hm1 & Hm2). destruct (segment_range sg Hsg) as (?&?&?&?&?).
  assert (Hrng : mkRange (rel_address x) (rel_address x +64 write_width (rel_type x)) = range_of x)
    by (unfold range_of; f_equal; apply wrap64_small; unfold seg_end in *; u64_lia).
  rewrite Hrng. rewrite Hreal in Hskip.
  assert (Hact : relocation_action bias manifest imports x =
    (let type := rel_type x in
     if type =? 8 then Some (Relative (bias + signed64 (rel_addend_bits x)))
     else if (type =? 1) || (type =? 6) || (type =? 7) then
       symbol ← (symbol_records manifest).[rel_symbol x];
       if sym_section symbol =? 0 then
         address ← (addresses_by_symbol imports).[rel_symbol x];
         Some (if address =? 0 then PendingImport else Imported (address + addend_of x))
       else if negb (sym_binding symbol =? 0) || (0xff00 <=? sym_section symbol) || (2 <? sym_type symbol)
       then Some PendingBinding
       else Some (Local (bias + sym_address symbol + addend_of x))
     else Some PendingType)) by (unfold relocation_action; by rewrite E0).
  cbv zeta in Hact.
  assert (Hadd : forall y, is_u64 y ->
    AddGuestSigned y (if rel_type x =? 1 then rel_addend_bits x else 0) = in_range (y + addend_of x)).
  { intros y Hy. unfold addend_of. destruct (rel_type x =? 1); [by apply AddGuestSigned_spec|].
    rewrite AddGuestSigned_spec by (done || u64_lia). done. }
  destruct (rel_type x =? 8) eqn:E8.
  { rewrite AddGuestSigned_spec by done. destruct (in_range _) as [v|] eqn:Ev; [|by wp_step].
    apply in_range_Some in Ev as [-> Hv].
    eapply (select_write_wp pre x (Relative (bias + signed64 (rel_addend_bits x)))); try done. }
  destruct ((rel_type x =? 1) || (rel_type x =? 6) || (rel_type x =? 7)) eqn:Es; cycle 1.
  { wp_step; wp_step. wp_step. by apply (Hskip PendingType). }
  destruct Hsymbols as [Hz1 Hz2].
  wp_step. apply wp_at_index; [lia|]. intros symbol Hsymb. rewrite Hsymb in Hact. cbn [mbind option_bind] in Hact.
  destruct (sym_section symbol =? 0) eqn:Esec.
  { wp_step. apply wp_at_index; [lia|]. intros address Haddr. rewrite Haddr in Hact. cbn [mbind option_bind] in Hact.
    destruct (address =? 0) eqn:Eadr.
    { wp_step; wp_step. wp_step. by apply (Hskip PendingImport). }
    rewrite Hadd by (eapply List.Forall_forall in Haddresses; [exact Haddresses|]; apply list_elem_of_In; by eapply at_index_elem).
    destruct (in_range _) as [v|] eqn:Ev; [|by wp_step]. apply in_range_Some in Ev as [-> Hv].
    eapply (select_write_wp pre x (Imported (address + addend_of x))); try done. }
  destruct (negb (sym_binding symbol =? 0) || (0xff00 <=? sym_section symbol) || (2 <? sym_type symbol)) eqn:Eb.
  { wp_step; wp_step. wp_step. by apply (Hskip PendingBinding). }
  wp_step; wp_step; [split_and!; done|].
  assert (Hsv : is_u64 (sym_address symbol) /\ is_u64 (sym_size symbol))
    by (eapply List.Forall_forall in Hsymbol_values; [exact Hsymbol_values|]; apply list_elem_of_In; by eapply at_index_elem).
  destruct Hsv as [Hsa Hss]. apply orb_false_elim in H5 as [_ H5]. reflect_bools. unwrap_all. unwrap.
  rewrite Hadd by u64_lia.
  destruct (in_range _) as [v|] eqn:Ev; [|by wp_step]. apply in_range_Some in Ev as [-> Hv].
  eapply (select_write_wp pre x (Local (bias + sym_address symbol + addend_of x))); try done.
Qed.
End Step.

(** * The linked image *)

Lemma ForallOrdPairs_map {A B} (f : A -> B) (R : B -> B -> Prop) l :
  List.ForallOrdPairs R (List.map f l) -> List.ForallOrdPairs (fun a b => R (f a) (f b)) l.
Proof.
  induction l as [|a l IH]; cbn; [constructor|]. inversion 1 as [|? ? Ha Hl]; subst.
  constructor; [exact (proj1 (List.Forall_map _ _ _) Ha)|auto].
Qed.

Lemma ForallOrdPairs_omap {A B C} (f : A -> C) (g : A -> bool) (h : A -> option B)
    (R : C -> C -> Prop) (S : B -> B -> Prop) l :
  (forall x y, h x = Some y -> g x = true) ->
  (forall x x' y y', h x = Some y -> h x' = Some y' -> R (f x) (f x') -> S y y') ->
  List.ForallOrdPairs R (List.map f (List.filter g l)) -> List.ForallOrdPairs S (omap h l).
Proof.
  intros Hg HRS. induction l as [|a l IH]; cbn; [constructor|].
  destruct (h a) as [b|] eqn:Ha; cycle 1.
  { intros Hl. apply IH. destruct (g a); [by inversion Hl|done]. }
  rewrite (Hg _ _ Ha). cbn. inversion 1 as [|? ? Hfa Hl]; subst. constructor; [|by apply IH].
  apply Forall_forall. intros y Hy. apply list_elem_of_omap in Hy as (x & Hx & Hxy).
  eapply HRS; [exact Ha|exact Hxy|]. eapply List.Forall_forall in Hfa; [exact Hfa|]. apply List.in_map, List.filter_In.
  split; [by apply list_elem_of_In|by eapply Hg].
Qed.

Section Image.
Context (file : list byte) (payload : GuestPayload).
Hypothesis Hstaged : payload_staged file payload.
Let plan := payload_plan payload.

Definition expected_of (x : Z * GuestLoadSegment) : ExpectedRange :=
  let start := seg_address (snd x) - base plan in
  mkExpectedRange start (start + seg_file_size (snd x)) (fst x).

Lemma staged_pairs :
  List.map snd (payloads payload) = segments plan /\ zlen (load_offsets payload) = zlen (segments plan).
Proof.
  pose proof (Forall2_length _ _ _ (ps_sources _ _ Hstaged)) as Hl. fold plan in Hl.
  split; [|unfold zlen; lia]. unfold payloads. fold plan.
  transitivity (snd <$> zip (load_offsets payload) (segments plan)); [reflexivity|].
  apply snd_zip. lia.
Qed.

Lemma backing_hit k o s :
  In (o, s) (payloads payload) ->
  seg_address s - base plan <= k < seg_address s - base plan + seg_file_size s ->
  backing (base plan) (payloads payload) k = Some (o + (k - (seg_address s - base plan))).
Proof.
  pose proof (pl_disjoint _ _ (ps_layout _ _ Hstaged)) as Hd. fold plan in Hd.
  rewrite <- (proj1 staged_pairs) in Hd. apply ForallOrdPairs_map in Hd.
  assert (Hsz : forall x, In x (payloads payload) -> seg_file_size (snd x) <= seg_memory_size (snd x)).
  { intros x Hx. apply (in_map snd) in Hx. rewrite (proj1 staged_pairs) in Hx.
    apply (pl_segment _ _ (ps_layout _ _ Hstaged)) in Hx. lia. }
  revert Hd Hsz. induction (payloads payload) as [|[f a] l IH]; intros Hd Hsz Hin Hk; [done|].
  inversion Hd as [|? ? Ha Hl]; subst. cbn [backing].
  destruct Hin as [[= -> ->]|Hin].
  - rewrite (proj2 (Z.leb_le _ _)), (proj2 (Z.ltb_lt _ _)) by lia. done.
  - eapply List.Forall_forall in Ha; [|exact Hin]. cbn in Ha.
    pose proof (Hsz (f, a) (or_introl eq_refl)). pose proof (Hsz (o, s) (or_intror Hin)). cbn in *.
    destruct (_ && _) eqn:E; [|apply IH; auto]. reflect_bools.
    unfold disjoint_segments, seg_end in Ha. lia.
Qed.

Lemma backing_miss k :
  (forall o s, In (o, s) (payloads payload) ->
     ~ (seg_address s - base plan <= k < seg_address s - base plan + seg_file_size s)) ->
  backing (base plan) (payloads payload) k = None.
Proof.
  induction (payloads payload) as [|[f a] l IH]; intros Hn; [done|]. cbn [backing].
  destruct (_ && _) eqn:E; [|apply IH; intros o s Hin; apply (Hn o s); by right].
  exfalso. reflect_bools. apply (Hn f a); [by left|lia].
Qed.

Lemma staged_agrees img l expected k :
  patched (img_bytes (image payload)) l img -> expected ≡ₚ List.map expected_of (payloads payload) ->
  0 <= k < zlen img -> covering l k = None -> agrees file img expected k.
Proof.
  intros [Hz Hb] Hp Hk Hc. rewrite Hz in Hk. destruct (ps_image _ _ Hstaged) as [Hlen Himg]. fold plan in Hlen, Himg.
  assert (Hin : forall e, In e expected <-> exists o s, In (o, s) (payloads payload) /\ e = expected_of (o, s)).
  { intros e. rewrite <- list_elem_of_In, Hp, list_elem_of_In, List.in_map_iff. split.
    - intros ([o s] & <- & Hx). by exists o, s.
    - intros (o & s & Hx & ->). by exists (o, s). }
  split.
  - intros e He Hh. apply Hin in He as (o & s & Hos & ->). unfold expected_holds in Hh. cbn in Hh |- *.
    rewrite Hb, Hc, Himg by lia. rewrite (backing_hit k o s) by done. f_equal. lia.
  - intros Hn. rewrite Hb, Hc, Himg by lia. rewrite backing_miss; [done|].
    intros o s Hos Hks. apply (Hn (expected_of (o, s))); [apply Hin; by exists o, s|].
    unfold expected_holds. cbn. done.
Qed.

Lemma expected_ranges_wp r E :
  wp (expected_ranges plan (load_offsets payload))
    (fun l r' => l = List.map expected_of (payloads payload) /\ r' = r) E r.
Proof.
  unfold expected_ranges. destruct staged_pairs as [Hsnd Hl].
  assert (Hpl : length (payloads payload) = length (segments plan)) by (rewrite <- Hsnd; by rewrite List.length_map).
  apply wp_foldM with (Inv := fun pre l r' =>
    l = List.map expected_of (take (length pre) (payloads payload)) /\ r' = r).
  - done.
  - intros pre i post l t Hi [-> ->]. apply indices_split in Hi as (-> & Hi & _).
    destruct (lookup_lt_is_Some_2 (payloads payload) (length pre)) as [[o s] Hx]; [unfold zlen in *; lia|].
    pose proof Hx as Hx'. apply lookup_zip_with_Some in Hx' as (o' & s' & [= <- <-] & Ho & Hs). fold plan in Hs.
    wp_step. eapply wp_need; [unfold zlen; rewrite at_index_nat; exact Hs|].
    wp_step. eapply wp_need; [unfold zlen; rewrite at_index_nat; exact Ho|]. wp_step. split; [|done].
    rewrite length_app, Nat.add_1_r. erewrite take_S_r by exact Hx. rewrite List.map_app. f_equal. cbn.
    apply list_elem_of_lookup_2, list_elem_of_In in Hs.
    pose proof (pl_base _ _ (ps_layout _ _ Hstaged)) as [Hb _]. fold plan in Hb.
    destruct (pl_segment _ _ (ps_layout _ _ Hstaged) s Hs) as (Hs1&Hs2&?&?&Hs5&_). fold plan in Hs1, Hs2.
    unfold expected_of, seg_end in *. cbn. unwrap. done.
  - intros l t [-> ->]. split; [|done]. unfold indices. rewrite length_fmap, length_seq, firstn_all2; [done|].
    unfold zlen. lia.
Qed.
End Image.

Definition pending_count (r : GuestDataLink) : Z := pending_imports r + pending_bindings r + pending_types r.

(** What a valid link establishes about the staged payload it started from. *)
Record data_linked (bias : Z) (payload : GuestPayload) (require_complete : bool) (r : GuestDataLink) : Prop := {
  dk_frame : dl_payload r =
    payload <| image ::= fun i => i <| img_bytes := image_bytes r |> |>;
  dk_error : dl_error r = "" /\ dl_bias r = bias;
  dk_verified : writes_verified r = true /\ untouched_verified r = true;
  dk_written : forall x v, In x (relocation_records (dl_manifest r)) ->
    applied_value bias (dl_manifest r) (dl_imports r) x = Some v ->
    is_u64 v /\ writable_target (payload_plan payload) (rel_address x) /\
    read (image_bytes r) (rel_address x - base (payload_plan payload)) 8 = Some v;
  dk_untouched : forall k, 
    (forall x v, In x (relocation_records (dl_manifest r)) ->
       applied_value bias (dl_manifest r) (dl_imports r) x = Some v ->
       ~ (rel_address x <= base (payload_plan payload) + k < rel_address x + 8)) ->
    (image_bytes r).[k] = (img_bytes (image payload)).[k];
  dk_disjoint : List.ForallOrdPairs ranges_disjoint
    (List.map range_of (List.filter real (relocation_records (dl_manifest r))));
  dk_counts : let count f := count_actions bias (dl_manifest r) (dl_imports r) f
                               (relocation_records (dl_manifest r)) in
    relative_applied r = count is_relative /\ local_applied r = count is_local /\
    data_import_applied r = count is_imported /\ pending_imports r = count is_pending_import /\
    pending_bindings r = count is_pending_binding /\ pending_types r = count is_pending_type;
  dk_complete : dl_complete r = (pending_count r =? 0) /\ (require_complete = true -> dl_complete r = true);
  dk_checksum : checksum_after r = fnv1a (image_bytes r)
}.

Section Commit.
Context (file : list byte) (bias : Z) (payload : GuestPayload) (manifest : GuestLinkManifest)
  (imports : GuestImportPlan) (require_complete : bool).
Hypothesis Hstaged : payload_staged file payload.
Hypothesis Hcount : zlen (relocation_records manifest) <= 524288.
Let plan := payload_plan payload.
Let img0 := img_bytes (image payload).

Lemma applied_width x v :
  applied_value bias manifest imports x = Some v -> real x = true /\ write_width (rel_type x) = 8.
Proof.
  unfold applied_value, relocation_action, real, write_width.
  destruct (rel_type x =? 0) eqn:E0; [done|]. destruct (rel_type x =? 8) eqn:E8.
  { intros _. split; [done|]. repeat case_match; lia. }
  destruct ((rel_type x =? 1) || (rel_type x =? 6) || (rel_type x =? 7)) eqn:Es; [|done].
  intros _. split; [done|]. repeat case_match; lia.
Qed.

Lemma patch_of_Some x p :
  patch_of bias manifest imports plan x = Some p ->
  exists v, applied_value bias manifest imports x = Some v /\ p = mkPatch (rel_address x - base plan) v 0.
Proof. unfold patch_of. destruct (applied_value _ _ _ x) as [v|]; [|done]. intros [= <-]. by exists v. Qed.

Lemma ranges_positive (l : list GuestLinkRelocation) :
  Forall (fun r => range_start r < range_end r) (List.map range_of l).
Proof.
  apply List.Forall_map, List.Forall_forall. intros x _. unfold range_of, write_width. cbn.
  repeat case_match; lia.
Qed.

Lemma selected_apart l :
  List.ForallOrdPairs ranges_disjoint (List.map range_of (List.filter real l)) ->
  List.ForallOrdPairs patches_apart (omap (patch_of bias manifest imports plan) l).
Proof.
  apply ForallOrdPairs_omap.
  - intros x p (v & Hv & _)%patch_of_Some. exact (proj1 (applied_width _ _ Hv)).
  - intros x x' p p' (v & Hv & ->)%patch_of_Some (v' & Hv' & ->)%patch_of_Some.
    apply applied_width in Hv as [_ Hw]. apply applied_width in Hv' as [_ Hw'].
    unfold ranges_disjoint, patches_apart, range_of. cbn. rewrite Hw, Hw'. lia.
Qed.

Definition patch_fits (p : Patch) : Prop :=
  0 <= patch_offset p /\ patch_offset p + 8 <= zlen img0 /\ is_u64 (patch_value p).

Lemma selected_fit l :
  Forall (fun x => forall v, applied_value bias manifest imports x = Some v ->
    is_u64 v /\ writable_target plan (rel_address x)) l ->
  Forall patch_fits (omap (patch_of bias manifest imports plan) l).
Proof.
  intros Hl. apply Forall_forall. intros p Hp. apply list_elem_of_omap in Hp as (x & Hx & Hxp).
  rewrite Forall_forall in Hl. apply patch_of_Some in Hxp as (v & Hv & ->).
  destruct (Hl x Hx v Hv) as [Hu (s & Hs & H1 & H2 & _)].
  destruct (pl_segment _ _ (ps_layout _ _ Hstaged) s Hs) as (?&?&?&?&?&_).
  destruct (ps_image _ _ Hstaged) as [Hz _]. unfold patch_fits, img0, plan. cbn. unfold seg_end in *.
  split_and!; [lia|lia|apply Hu..].
Qed.

(** The patches written so far: the same offsets and values, with their originals. *)
Definition same_patch (a b : Patch) : Prop := patch_offset a = patch_offset b /\ patch_value a = patch_value b.

Record apply_inv (r0 : GuestDataLink) (pre : list Patch) (l : list Patch) (r : GuestDataLink) : Prop := {
  av_same : Forall2 same_patch pre l;
  av_frame : r = set_image_bytes (image_bytes r) r0;
  av_patched : patched img0 l (image_bytes r)
}.

Lemma set_image_twice b r r0 :
  r = set_image_bytes (image_bytes r) r0 -> set_image_bytes b r = set_image_bytes b r0.
Proof. intros ->. reflexivity. Qed.

Lemma image_bytes_set b r : image_bytes (set_image_bytes b r) = b.
Proof. reflexivity. Qed.

Lemma apply_patch_wp r0 pre p post l r E :
  List.ForallOrdPairs patches_ordered (pre ++ p :: post) -> patch_fits p -> zlen img0 <= U64_MAX ->
  apply_inv r0 pre l r ->
  wp (apply_patch l p) (apply_inv r0 (pre ++ [p])) E r.
Proof.
  intros Hord (H0 & H8 & Hv) Hz [Hs Hf Hp]. unfold apply_patch. wp_step; wp_step.
  pose proof (pt_length _ _ _ Hp) as Hl.
  wp_step. apply wp_read; [lia|lia|lia|]. intros original _ _.
  destruct (patched_snoc img0 l (image_bytes r) (mkPatch (patch_offset p) (patch_value p) original) Hp)
    as (img' & Hw & Hp'); [|cbn; lia..|].
  { apply ForallOrdPairs_mid in Hord. clear -Hord Hs. rewrite Forall_forall. intros q Hq.
    apply list_elem_of_lookup in Hq as (i & Hi). rewrite Forall2_lookup in Hs. specialize (Hs i).
    rewrite Hi in Hs. inversion Hs as [a ? [Ha _] Ea|]; subst. rewrite Forall_forall in Hord.
    symmetry in Ea. apply list_elem_of_lookup_2, Hord in Ea. unfold patches_ordered, patches_apart in *. cbn. lia. }
  cbn [patch_offset patch_value] in Hw. wp_step. eapply wp_need; [exact Hw|]. wp_step; apply wp_modify. wp_step.
  split.
  - apply Forall2_app; [done|]. by repeat constructor.
  - rewrite image_bytes_set. by apply set_image_twice.
  - rewrite image_bytes_set. exact Hp'.
Qed.

Lemma apply_all_wp r0 sorted E :
  List.ForallOrdPairs patches_ordered sorted -> Forall patch_fits sorted -> zlen img0 <= U64_MAX ->
  image_bytes r0 = img0 ->
  wp (foldM apply_patch [] sorted) (apply_inv r0 sorted) E r0.
Proof.
  intros Hord Hfit Hz Hr0. apply wp_foldM with (Inv := apply_inv r0).
  - split; [constructor| |].
    + unfold set_image_bytes, image_bytes. by destruct r0 as [[[] ? ? ? ? ? ?] ? ? ? ? ? ? ? ? ? ? ? ? ? ? ? ?].
    + split; [by rewrite Hr0|]. intros k. by rewrite Hr0.
  - intros pre p post l r Hs Hinv. eapply apply_patch_wp; [by rewrite <- Hs| |done|done].
    rewrite Hs in Hfit. apply Forall_app in Hfit as [_ Hfit]. by apply Forall_cons in Hfit as [? _].
  - done.
Qed.

Lemma sorted_patches l :
  List.ForallOrdPairs patches_apart l -> List.ForallOrdPairs patches_ordered (merge_sort by_offset l).
Proof.
  intros Hl. apply (ForallOrdPairs_combine by_offset patches_apart).
  - intros a b. unfold by_offset, patches_apart, patches_ordered. lia.
  - apply merge_sort_pairs; apply _.
  - apply (ForallOrdPairs_perm patches_apart l); [|symmetry; apply merge_sort_Permutation|done].
    intros a b. unfold patches_apart. lia.
Qed.

Lemma same_patches_ordered l k :
  Forall2 same_patch l k -> List.ForallOrdPairs patches_ordered l -> List.ForallOrdPairs patches_ordered k.
Proof.
  induction 1 as [|a b l k [Ha1 Ha2] Hlk IH]; [done|]. inversion 1 as [|? ? Hx Hl]; subst.
  constructor; [|by apply IH]. clear -Ha1 Hlk Hx. induction Hlk as [|c d l k [Hc _] _ IH]; [constructor|].
  apply Forall_cons in Hx as [Hx Hxs]. constructor; [|by apply IH]. unfold patches_ordered in *. lia.
Qed.

Lemma same_patches_fit l k : Forall2 same_patch l k -> Forall patch_fits l -> Forall patch_fits k.
Proof.
  induction 1 as [|a b l k [Ha1 Ha2] _ IH]; [done|]. intros [[? [? ?]] Hl]%Forall_cons.
  constructor; [|by apply IH]. unfold patch_fits. by rewrite <- Ha1, <- Ha2.
Qed.

Lemma ordered_apart l : List.ForallOrdPairs patches_ordered l -> List.ForallOrdPairs patches_apart l.
Proof.
  intros H. eapply ForallOrdPairs_combine; [|exact H|exact H]. intros a b Hab _. by left.
Qed.

(** The image is written, and both verifications succeed. *)
Lemma link_commit_wp locals r :
  step_inv bias manifest imports plan payload (relocation_records manifest) locals r ->
  wp (link_commit file plan (load_offsets payload) require_complete locals)
    (fun _ r => dl_valid r = true /\ dl_manifest r = manifest /\ dl_imports r = imports /\
                data_linked bias payload require_complete r)
    (data_rejected payload) r.
Proof.
  intros [(F1 & F2 & F3 & F4 & F5 & F6 & F7) Hp Hr Hs Ht (L1 & L2 & L3) (P1 & P2 & P3 & P4)].
  unfold link_commit. wp_step; wp_step; [split_and!; done|].
  rewrite Hr in H. apply overlap_check in H; [|apply ranges_positive]. rename H into Hdisj.
  do 6 wp_step.
  assert (Hpend : pending_imports r +64 pending_bindings r +64 pending_types r = pending_count r).
  { pose proof (fun f => count_actions_bound bias manifest imports f (relocation_records manifest)) as Hb.
    pose proof (Hb is_pending_import). pose proof (Hb is_pending_binding). pose proof (Hb is_pending_type).
    unfold pending_count. rewrite P1, P2, P3. unwrap. done. }
  rewrite Hpend. wp_step; wp_step; [split_and!; done|].
  apply wp_bind. eapply wp_conseq; [apply (expected_ranges_wp file payload Hstaged r (data_rejected payload))| |done].
  intros expected r' [-> ->].
  assert (Hz : zlen img0 <= U64_MAX).
  { destruct (ps_image _ _ Hstaged) as [Hz _]. fold img0 in Hz.
    pose proof (pl_size _ _ (ps_layout _ _ Hstaged)) as [? _]. unfold GuestImageLimit in *. u64_lia. }
  set (sorted := merge_sort by_offset (patches locals)).
  assert (Hperm : sorted ≡ₚ omap (patch_of bias manifest imports plan) (relocation_records manifest))
    by (unfold sorted; rewrite merge_sort_Permutation, Hp; done).
  assert (Hord : List.ForallOrdPairs patches_ordered sorted)
    by (unfold sorted; apply sorted_patches; rewrite Hp; by apply selected_apart).
  assert (Hfit : Forall patch_fits sorted) by (rewrite Hperm; by apply selected_fit).
  assert (Hr0 : image_bytes r = img0) by (unfold image_bytes, img0; by rewrite F1).
  apply wp_bind. eapply wp_conseq; [apply (apply_all_wp r sorted (data_rejected payload)); done| |done].
  intros done_ r1 [Hsame Hframe Hpatched].
  pose proof (same_patches_ordered _ _ Hsame Hord) as Hord'. pose proof (same_patches_fit _ _ Hsame Hfit) as Hfit'.
  pose proof (ordered_apart _ Hord') as Hapart.
  set (img := image_bytes r1) in *. wp_step; wp_step. fold img.
  wp_step. eapply wp_need; [by eapply verify_writes_ok|]. wp_step; wp_step.
  assert (Huntouched : verify_untouched file img 0 0 done_
    (merge_sort by_exp_start (List.map (expected_of payload) (payloads payload))) = Some true).
  { apply (verify_untouched_ok file img done_
      (merge_sort by_exp_start (List.map (expected_of payload) (payloads payload)))) with (passed := []) (gone := []);
      try done.
    - apply merge_sort_pairs; apply _.
    - intros k Hk Hc. eapply staged_agrees; [exact Hstaged|exact Hpatched|apply merge_sort_Permutation|done|done].
    - intros p Hpin. eapply List.Forall_forall in Hfit' as [? _]; [|exact Hpin]. lia. }
  wp_step. eapply wp_need; [exact Huntouched|]. wp_step; wp_step. cbn [negb orb].
  wp_step. apply wp_when; [done|]. intros _. wp_step.
  assert (Hin : forall p, In p done_ -> exists x v, In x (relocation_records manifest) /\
    applied_value bias manifest imports x = Some v /\ patch_offset p = rel_address x - base plan /\ patch_value p = v).
  { intros p Hpin. apply list_elem_of_In, list_elem_of_lookup in Hpin as (i & Hi).
    destruct (Forall2_lookup_r _ _ _ _ _ Hsame Hi) as (a & Ea & Ha1 & Ha2). apply list_elem_of_lookup_2 in Ea.
    rewrite Hperm in Ea. apply list_elem_of_omap in Ea as (x & Hx & (v & Hv & ->)%patch_of_Some).
    exists x, v. apply list_elem_of_In in Hx. cbn in *. done. }
  assert (Hout : forall x v, In x (relocation_records manifest) ->
    applied_value bias manifest imports x = Some v -> exists p, In p done_ /\
      patch_offset p = rel_address x - base plan /\ patch_value p = v).
  { intros x v Hx Hv. assert (Ha : mkPatch (rel_address x - base plan) v 0 ∈ sorted).
    { rewrite Hperm. apply list_elem_of_omap. exists x. split; [by apply list_elem_of_In|].
      unfold patch_of. by rewrite Hv. }
    apply list_elem_of_lookup in Ha as (i & Hi).
    destruct (Forall2_lookup_l _ _ _ _ _ Hsame Hi) as (p & Ep & Hp1 & Hp2). exists p.
    split; [|done]. apply list_elem_of_In. by eapply list_elem_of_lookup_2. }
  subst img. destruct r1 as [[[? b1 ?] ? ? ? ? ? ?] ? ? ? ? ? ? ? ? ? ? ? ? ? ? ? ?].
  rewrite Hframe. unfold image_bytes, set_image_bytes in *. cbn [dl_payload image img_bytes upd] in *.
  cbn -[fnv1a]. rewrite F2, F3. split; [done|]. split; [done|]. split; [done|].
  split; cbn -[fnv1a]; rewrite ?F2, ?F3; try done.
  - by rewrite F1.
  - intros x v Hx Hv. split; [|split].
    + eapply List.Forall_forall in Ht; [|exact Hx]. by apply Ht.
    + eapply List.Forall_forall in Ht; [|exact Hx]. by apply (Ht v).
    + destruct (Hout x v Hx Hv) as (p & Hpin & Ho & <-). pose proof Hfit' as Hf.
      eapply List.Forall_forall in Hf as (?&?&?); [|exact Hpin].
      match goal with |- read _ ?o _ = _ => replace o with (patch_offset p) by exact Ho end.
      eapply patched_read; [exact Hpatched|done|done|lia|lia|done].
  - intros k Hk. rewrite (pt_bytes _ _ _ Hpatched). destruct (covering done_ k) as [p|] eqn:E; [|done].
    exfalso. apply covering_Some in E as [Hpin Hpk]. destruct (Hin p Hpin) as (x & v & Hx & Hv & Ho & _).
    apply (Hk x v Hx Hv). change (base (payload_plan payload)) with (base plan). lia.
  - split; [reflexivity|]. intros ->. cbn [andb] in *. by apply negb_false_iff.
Qed.
End Commit.

Lemma addresses_u64 manifest exports r :
  Forall (fun e => is_u64 (exp_address e)) exports -> imports_resolved manifest exports r ->
  Forall is_u64 (addresses_by_symbol r).
Proof.
  intros He Hr. apply Forall_forall. intros a Ha. apply list_elem_of_lookup in Ha as (s & Hs).
  rewrite <- at_index_nat in Hs.
  destruct (decide (Z.of_nat s ∈ List.map bnd_symbol (bindings r))) as [Hin|Hout].
  - apply list_elem_of_In, List.in_map_iff in Hin as (b & Hb & Hbin). apply list_elem_of_In in Hbin.
    pose proof (ir_bound _ _ _ Hr b Hbin) as Hbound. rewrite Hb, Hs in Hbound. injection Hbound as ->.
    apply list_elem_of_lookup in Hbin as (i & Hi).
    destruct (Forall2_lookup_r _ _ _ _ _ (ir_bindings _ _ _ Hr) Hi) as (j & _ & Hbo).
    destruct (bo_address _ _ _ _ Hbo) as [[_ (e & Hein & _ & <-)]|[-> _]]; [|u64_lia].
    by eapply Forall_forall in He.
  - rewrite (ir_unbound _ _ _ Hr _ _ Hs Hout). u64_lia.
Qed.

Lemma planned_plan file layout : payload_planned file layout -> payload_plan layout = accepted_plan (prefix_of file) true.
Proof. apply pp_plan. Qed.

Lemma data_link_wp file bias require_complete exports :
  is_u64 bias -> Forall (fun e => is_u64 (exp_address e)) exports ->
  wp (data_link file bias require_complete exports)
    (fun _ r => dl_valid r = true /\ exists payload, StageGuestPayload file = Some payload /\
       payload_staged file payload /\ InspectGuestLinkManifest file true = Some (dl_manifest r) /\
       imports_resolved (dl_manifest r) exports (dl_imports r) /\
       data_linked bias payload require_complete r)
    (fun e r => e <> "" /\ e <> "post_write_verification_failed" /\
       StageGuestPayload file = Some (dl_payload r)) link_init.
Proof.
  intros Hb Hexp. unfold data_link. wp_step; wp_step.
  destruct (StageGuestPayload_spec file) as (payload & Hp & Hcase).
  destruct (InspectGuestLinkManifest_spec file true) as (manifest & Hm & Hman).
  wp_step. eapply wp_need; [exact Hp|]. wp_step; wp_step.
  wp_step. eapply wp_need; [exact Hm|]. wp_step; wp_step.
  wp_step; wp_step; [split_and!; done|]. reflect_bools.
  destruct Hcase as [[Hst _]|[He Hbytes]]; cycle 1.
  { exfalso. match goal with H : Ready payload = true |- _ => revert H end.
    unfold Ready. apply String.eqb_neq in He. rewrite He, andb_false_r. done. }
  destruct Hman as [(_ & Hlim & layout & Hl & Hpl & Hrep)|[Hv _]]; [|congruence].
  pose proof (manifest_records_of _ _ _ Hrep) as Hrec.
  assert (Hplan : payload_plan layout = payload_plan payload)
    by (rewrite (planned_plan _ _ Hpl); symmetry; apply (ps_plan _ _ Hst)).
  destruct (ResolveGuestImports_spec manifest exports) as (imports & Hi & Himp).
  { apply Forall_forall. intros i Hin. destruct (mc_indices _ _ Hrec) as [_ Hix].
    destruct (Hix i Hin) as (s & Hs & _). apply at_index_range in Hs. lia. }
  { pose proof (mc_symbols _ _ Hrec). lia. }
  wp_step. eapply wp_need; [exact Hi|]. wp_step; wp_step.
  wp_step; wp_step; [split_and!; done|]. reflect_bools.
  destruct Himp as [[_ Hres]|[Hv _]]; [|congruence].
  wp_step; wp_step; [split_and!; done|].
  destruct (mc_relocations _ _ Hrec) as [Hcount Hrel]. rewrite Hplan in Hrel.
  assert (Hsym : zlen (symbol_records manifest) = man_symbols manifest /\
                 zlen (addresses_by_symbol imports) = man_symbols manifest).
  { split; [apply (mc_symbols _ _ Hrec)|apply (ir_length _ _ _ Hres)]. }
  assert (Hvals : Forall (fun s => is_u64 (sym_address s) /\ is_u64 (sym_size s)) (symbol_records manifest)).
  { eapply Forall_impl; [apply (mc_symbol_values _ _ Hrec)|]. intros s (?&?&_). done. }
  pose proof (addresses_u64 _ _ _ Hexp Hres) as Haddr.
  apply wp_bind. apply wp_foldM with (Inv := step_inv bias manifest imports (payload_plan payload) payload).
  - split; cbn; try done; constructor.
  - intros pre x post locals r Hx Hinv. rewrite Hx in Hrel, Hcount. apply Forall_app in Hrel as [_ Hrel].
    apply Forall_cons in Hrel as [Hx' _]. rewrite zlen_app in Hcount. pose proof (zlen_nonneg (x :: post)).
    eapply wp_conseq; [eapply (link_step_wp bias manifest imports (payload_plan payload) payload (zlen file)
                                  (ps_layout _ _ Hst)); try done; lia|done|].
    intros e t (? & ? & ->). done.
  - intros locals r Hinv.
    eapply wp_conseq; [by apply (link_commit_wp file bias payload manifest imports require_complete Hst Hcount locals r)| |].
    + intros [] t (Hv & Hman & Himps & Hlinked). split; [done|]. exists payload. rewrite Hman, Himps. done.
    + intros e t (? & ? & ->). done.
Qed.

(** [AddGuestSigned] is the exact sum of the base and the two's complement addend,
    refused exactly when the sum is not an address. *)
Theorem AddGuestSigned_exact base bits :
  is_u64 base -> is_u64 bits ->
  AddGuestSigned base bits = in_range (base + signed64 bits).
Proof. intros Hb Hs. by rewrite AddGuestSigned_spec. Qed.

(** C7. Linking the data of any file never leaves the file, the image or a table, and
    its post-write verification never fails. A valid link has written, for every
    relocation selected, exactly the value its type denotes (B + A, S + A or B + S + A),
    into a writable or relro segment that is not executable; no two targets overlap; every
    other byte of the staged image is unchanged; the counters are exact. A refused link
    leaves the staged image untouched. *)
Theorem StageGuestDataLink_exact file bias require_complete exports :
  is_u64 bias -> Forall (fun e => is_u64 (exp_address e)) exports ->
  exists r, StageGuestDataLink file bias require_complete exports = Some r /\
    dl_error r <> "post_write_verification_failed" /\
    (dl_valid r = true -> exists payload,
       StageGuestPayload file = Some payload /\ payload_staged file payload /\
       InspectGuestLinkManifest file true = Some (dl_manifest r) /\
       imports_resolved (dl_manifest r) exports (dl_imports r) /\
       data_linked bias payload require_complete r) /\
    (dl_valid r = false -> dl_error r <> "" /\ dl_complete r = false /\
       StageGuestPayload file = Some (dl_payload r)).
Proof.
  intros Hb Hexp. unfold StageGuestDataLink.
  apply (finish_wp link_fail _ _ (fun r => dl_error r <> "post_write_verification_failed" /\
    (dl_valid r = true -> exists payload, StageGuestPayload file = Some payload /\ payload_staged file payload /\
       InspectGuestLinkManifest file true = Some (dl_manifest r) /\
       imports_resolved (dl_manifest r) exports (dl_imports r) /\
       data_linked bias payload require_complete r) /\
    (dl_valid r = false -> dl_error r <> "" /\ dl_complete r = false /\ StageGuestPayload file = Some (dl_payload r)))).
  eapply wp_conseq; [by apply data_link_wp| |].
  - intros [] r (Hv & payload & H1 & H2 & H3 & H4 & H5). rewrite Hv. split; [|split; [|done]].
    + rewrite (proj1 (dk_error _ _ _ _ H5)). done.
    + intros _. by exists payload.
  - intros e r (He & Hp & Hst). cbn. split; [done|]. split; done.
Qed.

Lemma AddGuestSigned_exact_witness :
  is_u64 0x100000000 /\ is_u64 0xfffffffffffffff8 /\
  AddGuestSigned 0x100000000 0xfffffffffffffff8 = Some 0xfffffff8.
Proof.
  assert (H1 : is_u64 0x100000000) by (apply is_u64_dec; vm_compute; reflexivity).
  assert (H2 : is_u64 0xfffffffffffffff8) by (apply is_u64_dec; vm_compute; reflexivity).
  split; [exact H1|]. split; [exact H2|].
  rewrite (AddGuestSigned_exact 0x100000000 0xfffffffffffffff8 H1 H2). vm_compute. reflexivity.
Defined.

(** The fixture with its imports registered links completely. *)
Lemma StageGuestDataLink_exact_witness :
  exists r payload,
    StageGuestDataLink (MakeGuestLinkFixture true) GuestDiagnosticLoadBias true MakeGuestImportFixtureExports = Some r /\
    data_linked GuestDiagnosticLoadBias payload true r.
Proof.
  assert (Hb : is_u64 GuestDiagnosticLoadBias) by (apply is_u64_dec; vm_compute; reflexivity).
  assert (He : Forall (fun e => is_u64 (exp_address e)) MakeGuestImportFixtureExports).
  { apply List.Forall_forall. intros e Hin. apply is_u64_dec. revert e Hin.
    apply (proj1 (forallb_forall (fun e => (0 <=? exp_address e) && (exp_address e <=? U64_MAX)) _)).
    vm_compute. reflexivity. }
  destruct (StageGuestDataLink_exact (MakeGuestLinkFixture true) GuestDiagnosticLoadBias true
              MakeGuestImportFixtureExports Hb He) as (r & Hr & _ & Hok & _).
  destruct Hok as (payload & _ & _ & _ & _ & Hlinked).
  - apply (checked_result dl_valid _ _ Hr). vm_compute. reflexivity.
  - exists r, payload. split; [exact Hr|exact Hlinked].
Defined.
