(* ===== verification/GuestMemory.v ===== *)
(** The guest memory services: [GuestMemory] of src/src/core/uwp/guest_memory.h.

    Copy, set and compare over the ranges the harness authorizes. The ranges and their
    bytes are explicit state; a pointer is a host address. *)
From Stdlib Require Import ZArith Lia.
From Stdlib Require Import Strings.Byte.
From stdpp Require Import base gmap list list_numbers strings.
From S2P Require Import Prelude.
From S2P Require Import Fixtures.
From S2P Require Import Preflight.
From S2P Require Import LoadPlan.
From S2P Require Import Payload.
From S2P Require Import LinkManifest.
From S2P Require Import ImportResolver.

(** [enum class GuestMemoryService]; any other value can be stored in it. *)
Definition Copy : Z := 0.
Definition Set_ : Z := 1.
Definition Compare : Z := 2.

Definition GuestMemoryNids : list (list byte) :=
  [text "Q3VBxCXhUHs"; text "8zTFvBIAIN8"; text "DfivPArhucg"].
Definition empty_key : GuestImportKey := mkGuestImportKey [] [] [] 0 0 0 0.
Definition GuestMemoryKey (service : Z) : GuestImportKey :=
  match GuestMemoryNids.[service] with
  | None => empty_key
  | Some nid => mkGuestImportKey nid (text "libSceLibcInternal") (text "libSceLibcInternal") 1 1 1 2
  end.

(** A range: the host address of its first byte ([Address]), its bytes, its permission. *)
Record GuestMemoryRange := mkGuestMemoryRange {
  rng_address : Z;
  rng_bytes : list byte;
  rng_writable : bool
}.

Record GuestMemoryResult := mkGuestMemoryResult { res_valid : bool; res_value : Z }.
Definition refused : GuestMemoryResult := mkGuestMemoryResult false 0.

Definition MaxTransfer : Z := 1048576.

Definition rng_size (r : GuestMemoryRange) : Z := zlen (rng_bytes r).

(** [begin < other + other_size && other < begin + size] *)
Definition ranges_meet (a b : GuestMemoryRange) : bool :=
  (rng_address a <? rng_address b +64 rng_size b) && (rng_address b <? rng_address a +64 rng_size a).

(** The loop of [Valid] over the ranges, [seen] being those before. *)
Fixpoint valid_from (seen rest : list GuestMemoryRange) : bool :=
  match rest with
  | [] => true
  | r :: rest' =>
      negb ((rng_address r =? 0) || (rng_size r =? 0) || (U64_MAX -64 rng_address r <? rng_size r)) &&
      forallb (fun other => negb (ranges_meet r other)) seen &&
      valid_from (seen ++ [r]) rest'
  end.
Definition Valid (ranges : list GuestMemoryRange) : bool :=
  negb ((zlen ranges =? 0) || (64 <? zlen ranges)) && valid_from [] ranges.

(** A pointer into the ranges: the index of a range and an offset in it. *)
Record Pointer := mkPointer { ptr_range : nat; ptr_offset : Z }.

(** The first loop of [Find]: the range that contains the pointer decides. [Some None] is
    [nullptr], [None] that no range contains it. *)
Fixpoint find_containing (ranges : list GuestMemoryRange) (index : nat) (pointer count : Z) (write : bool)
    : option (option Pointer) :=
  match ranges with
  | [] => None
  | range :: rest =>
      let begin := rng_address range in
      if (begin <=? pointer) && (pointer -64 begin <? rng_size range) then
        if (write && negb (rng_writable range)) || (rng_size range -64 (pointer -64 begin) <? count)
        then Some None
        else Some (Some (mkPointer index (pointer -64 begin)))
      else find_containing rest (S index) pointer count write
  end.

(** The second loop, for a zero count: a pointer one past the end of a range. *)
Fixpoint find_end (ranges : list GuestMemoryRange) (index : nat) (pointer : Z) (write : bool) : option Pointer :=
  match ranges with
  | [] => None
  | range :: rest =>
      if (negb write || rng_writable range) && (pointer =? rng_address range +64 rng_size range)
      then Some (mkPointer index (rng_size range))
      else find_end rest (S index) pointer write
  end.

Definition Find (ranges : list GuestMemoryRange) (pointer count : Z) (write : bool) : option Pointer :=
  match find_containing ranges 0 pointer count write with
  | Some p => p
  | None => if count =? 0 then find_end ranges 0 pointer write else None
  end.

(** The bytes at a pointer, and their replacement; [None] is an access out of range. *)
Definition load (ranges : list GuestMemoryRange) (p : Pointer) (count : Z) : option (list byte) :=
  r ← ranges !! ptr_range p; slice (rng_bytes r) (ptr_offset p) count.
Definition store (ranges : list GuestMemoryRange) (p : Pointer) (src : list byte)
    : option (list GuestMemoryRange) :=
  r ← ranges !! ptr_range p;
  bytes ← splice (rng_bytes r) (ptr_offset p) src;
  Some (<[ptr_range p := mkGuestMemoryRange (rng_address r) bytes (rng_writable r)]> ranges).

(** The sign of [memcmp]. *)
Fixpoint compare_bytes (a b : list byte) : Z :=
  match a, b with
  | x :: a', y :: b' => if u8 x <? u8 y then -1 else if u8 y <? u8 x then 1 else compare_bytes a' b'
  | _, _ => 0
  end.

(** [Invoke]: the result and the ranges afterwards. *)
Definition Invoke (ranges : list GuestMemoryRange) (service first second count : Z)
    : option (GuestMemoryResult * list GuestMemoryRange) :=
  if negb (Valid ranges) || (MaxTransfer <? count) ||
     (negb (service =? Copy) && negb (service =? Set_) && negb (service =? Compare))
  then Some (refused, ranges) else
  let destination := Find ranges first count (negb (service =? Compare)) in
  let source := if service =? Set_ then None else Find ranges second count false in
  match destination with
  | None => Some (refused, ranges)
  | Some dst =>
      if negb (service =? Set_) && match source with None => true | Some _ => false end
      then Some (refused, ranges) else
      if (service =? Copy) && negb (count =? 0) && (first <? second +64 count) && (second <? first +64 count)
      then Some (refused, ranges) else
      if count =? 0 then Some (mkGuestMemoryResult true (if service =? Compare then 0 else first), ranges) else
      if service =? Set_ then
        ranges' ← store ranges dst (filled count (to_u8 second));
        Some (mkGuestMemoryResult true first, ranges')
      else
        src ← source;
        if service =? Copy then
          bytes ← load ranges src count;
          ranges' ← store ranges dst bytes;
          Some (mkGuestMemoryResult true first, ranges')
        else
          a ← load ranges dst count;
          b ← load ranges src count;
          Some (mkGuestMemoryResult true (wrap64 (compare_bytes a b)), ranges)
  end.

(** * The authorized memory *)

Definition holds (r : GuestMemoryRange) (a : Z) : Prop := rng_address r <= a < rng_address r + rng_size r.
Definition holdsb (a : Z) (r : GuestMemoryRange) : bool :=
  (rng_address r <=? a) && (a <? rng_address r + rng_size r).

(** The byte at a host address, if a range holds it. *)
Definition mem_at (ranges : list GuestMemoryRange) (a : Z) : option byte :=
  match List.find (holdsb a) ranges with
  | Some r => (rng_bytes r).[a - rng_address r]
  | None => None
  end.

Definition apart_ranges (a b : GuestMemoryRange) : Prop :=
  rng_address a + rng_size a <= rng_address b \/ rng_address b + rng_size b <= rng_address a.

(** Non-empty ranges, in the address space, pairwise disjoint. *)
Record ranges_ok (ranges : list GuestMemoryRange) : Prop := {
  gr_range : forall r, In r ranges -> 0 < rng_address r /\ 0 < rng_size r /\
    rng_address r + rng_size r <= U64_MAX;
  gr_apart : List.ForallOrdPairs apart_ranges ranges
}.

(** One range holds the [count] bytes at [a], with the permission asked for. *)
Definition authorized (ranges : list GuestMemoryRange) (a count : Z) (write : bool) : Prop :=
  exists r, In r ranges /\ rng_address r <= a /\ a + count <= rng_address r + rng_size r /\
    (write = true -> rng_writable r = true).

Lemma holdsb_spec a r : holdsb a r = true <-> holds r a.
Proof. unfold holdsb, holds. lia. Qed.

Lemma valid_from_ok rest : forall seen,
  Forall (fun r => is_u64 (rng_address r)) (seen ++ rest) -> ranges_ok seen ->
  valid_from seen rest = true <-> ranges_ok (seen ++ rest).
Proof.
  induction rest as [|r rest IH]; intros seen Hu Hs; cbn [valid_from].
  - by rewrite app_nil_r.
  - replace (seen ++ r :: rest) with ((seen ++ [r]) ++ rest) in * by (by rewrite <- app_assoc).
    assert (Hr : is_u64 (rng_address r)).
    { apply Forall_app in Hu as [Hu _]. apply Forall_app in Hu as [_ Hu]. by apply Forall_cons in Hu as [? _]. }
    pose proof (zlen_nonneg (rng_bytes r)) as Hz. fold (rng_size r) in Hz.
    assert (Hstep : negb ((rng_address r =? 0) || (rng_size r =? 0) || (U64_MAX -64 rng_address r <? rng_size r)) &&
                    forallb (fun other => negb (ranges_meet r other)) seen = true <-> ranges_ok (seen ++ [r])).
    { unwrap. rewrite andb_true_iff, forallb_forall. split.
      - intros [H1 H2]. split.
        + intros x [Hx|[<-|[]]]%List.in_app_iff; [by apply (gr_range _ Hs)|]. u64_lia.
        + apply ForallOrdPairs_snoc. split; [apply (gr_apart _ Hs)|]. apply List.Forall_forall. intros x Hx.
          specialize (H2 x Hx). destruct (gr_range _ Hs x Hx) as (?&?&?).
          unfold ranges_meet, apart_ranges in *. revert H2. unwrap. u64_lia.
      - intros [H1 H2]. destruct (H1 r) as (?&?&?); [apply List.in_or_app; right; by left|].
        split; [lia|]. intros x Hx. destruct (gr_range _ Hs x Hx) as (?&?&?).
        apply ForallOrdPairs_snoc in H2 as [_ H2]. eapply List.Forall_forall in H2; [|exact Hx].
        unfold ranges_meet, apart_ranges in *. unwrap. lia. }
    rewrite andb_true_iff, Hstep. split.
    + intros [Hok Hv]. by apply IH.
    + intros Hok. assert (Hok1 : ranges_ok (seen ++ [r])).
      { destruct Hok as [H1 H2]. split; [|by eapply ForallOrdPairs_app_l].
        intros x Hx. apply H1. apply List.in_or_app. by left. }
      split; [done|]. by apply IH.
Qed.

Lemma Valid_ok ranges :
  Forall (fun r => is_u64 (rng_address r)) ranges ->
  Valid ranges = true <-> ranges_ok ranges /\ 1 <= zlen ranges <= 64.
Proof.
  intros Hu. unfold Valid. rewrite andb_true_iff.
  rewrite (valid_from_ok ranges []); [|done|split; [done|constructor]]. cbn [app].
  pose proof (zlen_nonneg ranges). split; intros [? ?]; (split; [|done || lia]); try done; lia.
Qed.

Section Memory.
Context (ranges : list GuestMemoryRange).
Hypothesis Hok : ranges_ok ranges.

Lemma holder_unique i j r s a :
  ranges !! i = Some r -> ranges !! j = Some s -> holds r a -> holds s a -> r = s /\ i = j.
Proof.
  intros Hi Hj Hr Hs. pose proof (gr_apart _ Hok) as Hap.
  enough (i = j) by (subst; split; congruence).
  assert (Hgen : forall l i j r s, List.ForallOrdPairs apart_ranges l -> l !! i = Some r -> l !! j = Some s ->
    holds r a -> holds s a -> (i < j)%nat -> False).
  { clear. induction l as [|x l IH]; intros i j r s Hl Hi Hj Hr Hs Hlt; [done|].
    inversion Hl as [|? ? Hx Hl']; subst. destruct i as [|i], j as [|j]; try lia; cbn in *.
    - injection Hi as ->. rewrite Forall_forall in Hx. apply list_elem_of_lookup_2, Hx in Hj.
      unfold apart_ranges, holds in *. lia.
    - eapply (IH i j); eauto. lia. }
  destruct (lt_eq_lt_dec i j) as [[Hlt|?]|Hlt]; [exfalso; by eapply (Hgen ranges i j)|done|exfalso; by eapply (Hgen ranges j i)].
Qed.

Lemma mem_at_in i r a : ranges !! i = Some r -> holds r a -> mem_at ranges a = (rng_bytes r).[a - rng_address r].
Proof.
  intros Hi Hr. unfold mem_at. destruct (List.find _ _) as [s|] eqn:E.
  - apply List.find_some in E as [Hs Hsa]. apply holdsb_spec in Hsa.
    apply list_elem_of_In, list_elem_of_lookup in Hs as (j & Hj).
    by destruct (holder_unique i j r s a Hi Hj Hr Hsa) as [-> _].
  - apply list_elem_of_lookup_2, list_elem_of_In in Hi.
    pose proof (List.find_none _ _ E _ Hi) as Hn. apply holdsb_spec in Hr. congruence.
Qed.

Lemma mem_at_out a : (forall r, In r ranges -> ~ holds r a) -> mem_at ranges a = None.
Proof.
  intros Hn. unfold mem_at. destruct (List.find _ _) as [s|] eqn:E; [|done].
  apply List.find_some in E as [Hs Hsa]. apply holdsb_spec in Hsa. by apply Hn in Hs.
Qed.

Lemma holder_or_none a : (exists i r, ranges !! i = Some r /\ holds r a) \/ (forall r, In r ranges -> ~ holds r a).
Proof.
  destruct (List.find (holdsb a) ranges) as [s|] eqn:E.
  - apply List.find_some in E as [Hs Hsa]. apply holdsb_spec in Hsa.
    apply list_elem_of_In, list_elem_of_lookup in Hs as (j & Hj). left. by exists j, s.
  - right. intros r Hr Hh. pose proof (List.find_none _ _ E _ Hr). apply holdsb_spec in Hh. congruence.
Qed.

(** ** Find *)

Definition points_to (q : Pointer) (a count : Z) (write : bool) : Prop :=
  exists r, ranges !! ptr_range q = Some r /\ ptr_offset q = a - rng_address r /\
    rng_address r <= a /\ a + count <= rng_address r + rng_size r /\ (write = true -> rng_writable r = true).

Lemma find_containing_spec a count write : forall rest seen index,
  is_u64 a -> 0 < count -> ranges = seen ++ rest -> index = length seen ->
  match find_containing rest index a count write with
  | Some (Some q) => points_to q a count write
  | Some None => ~ authorized ranges a count write
  | None => forall r, In r rest -> ~ holds r a
  end.
Proof.
  induction rest as [|r rest IH]; intros seen index Ha Hc Hr Hi; cbn [find_containing]; [by intros r []|].
  assert (Hin : In r ranges) by (rewrite Hr; apply in_elt).
  destruct (gr_range _ Hok r Hin) as (?&?&?).
  assert (Hidx : ranges !! index = Some r) by (subst index; rewrite Hr; by apply list_lookup_middle).
  destruct (rng_address r <=? a) eqn:E1; cbn [andb]; cycle 1.
  { specialize (IH (seen ++ [r]) (S index) Ha Hc). rewrite <- app_assoc, length_app, Nat.add_1_r in IH.
    specialize (IH Hr ltac:(lia)). destruct (find_containing rest _ _ _ _) as [[q|]|]; try done.
    intros x [<-|Hx]; [unfold holds; lia|by apply IH]. }
  reflect_bools. unwrap. destruct (a - rng_address r <? rng_size r) eqn:E2; cycle 1.
  { specialize (IH (seen ++ [r]) (S index) Ha Hc). rewrite <- app_assoc, length_app, Nat.add_1_r in IH.
    specialize (IH Hr ltac:(lia)). destruct (find_containing rest _ _ _ _) as [[q|]|]; try done.
    intros x [<-|Hx]; [unfold holds; lia|by apply IH]. }
  reflect_bools. unwrap. destruct (_ || _) eqn:E3.
  - intros (s & Hs & H1' & H2' & H3'). apply list_elem_of_In, list_elem_of_lookup in Hs as (j & Hj).
    assert (Hh : holds s a) by (unfold holds; lia).
    destruct (holder_unique index j r s a Hidx Hj) as [-> _]; [unfold holds; lia|done|].
    destruct write; [rewrite H3' in E3 by done|]; cbn in E3; lia.
  - exists r. cbn. split_and!; try done; try lia. intros ->. cbn in E3.
    apply orb_false_elim in E3 as [E3 _]. by apply negb_false_iff.
Qed.

Lemma Find_spec a count write :
  is_u64 a -> 0 < count ->
  match Find ranges a count write with
  | Some q => points_to q a count write
  | None => ~ authorized ranges a count write
  end.
Proof.
  intros Ha Hc. unfold Find.
  pose proof (find_containing_spec a count write ranges [] 0%nat Ha Hc eq_refl eq_refl) as Hf.
  destruct (find_containing _ _ _ _ _) as [[q|]|]; [done|done|].
  rewrite (proj2 (Z.eqb_neq _ _)) by lia. intros (s & Hs & H1 & H2 & _). apply (Hf s Hs). unfold holds. lia.
Qed.

Lemma points_to_authorized q a count write : points_to q a count write -> authorized ranges a count write.
Proof.
  intros (r & Hr & _ & H1 & H2 & H3). exists r. split; [|done].
  apply list_elem_of_In. by eapply list_elem_of_lookup_2.
Qed.

(** ** Loads and stores *)

Lemma load_spec q a count write :
  0 <= count -> points_to q a count write ->
  exists bytes, load ranges q count = Some bytes /\ zlen bytes = count /\
    forall i, 0 <= i < count -> bytes.[i] = mem_at ranges (a + i).
Proof.
  intros Hc (r & Hr & Ho & H1 & H2 & _). unfold load. rewrite Hr. cbn.
  destruct (slice_Some (rng_bytes r) (ptr_offset q) count) as (k & Hk & Hl & Hi);
    [lia|lia|unfold rng_size in *; lia|].
  exists k. split; [done|]. split; [done|]. intros i Hii. rewrite Hi by done.
  rewrite (mem_at_in _ r) by (done || unfold holds; lia). f_equal. lia.
Qed.

Definition same_range (a b : GuestMemoryRange) : Prop :=
  rng_address a = rng_address b /\ rng_size a = rng_size b /\ rng_writable a = rng_writable b.
End Memory.

Lemma same_ranges_ok l k : Forall2 same_range l k -> ranges_ok l -> ranges_ok k.
Proof.
  induction 1 as [|a b l k (E1 & E2 & E3) Hlk IH]; [done|]. intros [Hr Hap].
  inversion Hap as [|? ? Ha Hl]; subst.
  destruct IH as [IH1 IH2]; [split; [intros; apply Hr; by right|done]|]. split.
  - intros r [<-|Hin]; [|by apply IH1]. rewrite <- E1, <- E2. apply Hr. by left.
  - constructor; [|done]. clear -Ha Hlk E1 E2. induction Hlk as [|c d l k (F1 & F2 & _) _ IH]; [constructor|].
    apply Forall_cons in Ha as [Hc Ha]. constructor; [|by apply IH]. unfold apart_ranges in *. lia.
Qed.

Lemma store_spec ranges q a count src :
  ranges_ok ranges -> points_to ranges q a count true -> zlen src = count ->
  exists ranges', store ranges q src = Some ranges' /\ Forall2 same_range ranges ranges' /\
    forall b, mem_at ranges' b = if decide (a <= b < a + count) then src.[b - a] else mem_at ranges b.
Proof.
  intros Hok (r & Hr & Ho & H1 & H2 & Hw) Hz. unfold store. rewrite Hr. cbn.
  destruct (splice_Some (rng_bytes r) (ptr_offset q) src) as (k & Hk & Hl & Hi);
    [lia|unfold rng_size in *; lia|].
  rewrite Hk. cbn. set (r' := mkGuestMemoryRange (rng_address r) k (rng_writable r)).
  set (ranges' := <[ptr_range q := r']> ranges).
  assert (Hlt : (ptr_range q < length ranges)%nat) by (by eapply lookup_lt_Some).
  assert (Hsz : rng_size r' = rng_size r) by (unfold rng_size, r'; cbn; lia).
  assert (Hsame : Forall2 same_range ranges ranges').
  { apply Forall2_lookup. intros i. unfold ranges'. destruct (decide (i = ptr_range q)) as [->|Hne].
    - rewrite list_lookup_insert_eq, Hr by done. constructor. by split_and!.
    - rewrite list_lookup_insert_ne by done. destruct (ranges !! i); constructor. by split_and!. }
  pose proof (same_ranges_ok _ _ Hsame Hok) as Hok'.
  exists ranges'. split; [done|]. split; [done|]. intros b.
  assert (Hr' : ranges' !! ptr_range q = Some r') by (by apply list_lookup_insert_eq).
  destruct (holder_or_none ranges b) as [(i & s & Hs & Hsb)|Hn].
  - destruct (decide (i = ptr_range q)) as [->|Hne].
    + rewrite Hr in Hs. injection Hs as <-.
      assert (Hb' : holds r' b) by (unfold holds in *; rewrite Hsz; done).
      rewrite (mem_at_in ranges' Hok' _ r' b Hr' Hb'), (mem_at_in ranges Hok _ r b Hr Hsb). unfold r'. cbn [rng_bytes rng_address].
      unfold holds in *. rewrite Hi, Hz by lia. repeat case_decide; try lia; [f_equal; lia|done].
    + assert (Hs' : ranges' !! i = Some s) by (unfold ranges'; by rewrite list_lookup_insert_ne).
      rewrite (mem_at_in ranges' Hok' _ s b Hs' Hsb), (mem_at_in ranges Hok _ s b Hs Hsb).
      rewrite decide_False; [done|]. intros Hab.
      assert (Hrb : holds r b) by (unfold holds; lia).
      by destruct (holder_unique ranges Hok i _ s r b Hs Hr Hsb Hrb) as [_ ?].
  - rewrite (mem_at_out ranges b Hn), decide_False.
    + apply (mem_at_out ranges'). intros s Hs Hsb.
      apply list_elem_of_In, list_elem_of_lookup in Hs as (i & Hsi).
      destruct (Forall2_lookup_r _ _ _ _ _ Hsame Hsi) as (s0 & Hs0 & E1 & E2 & _).
      apply (Hn s0); [apply list_elem_of_In; by eapply list_elem_of_lookup_2|]. unfold holds in *. lia.
    + intros Hab. apply (Hn r); [apply list_elem_of_In; by eapply list_elem_of_lookup_2|]. unfold holds. lia.
Qed.

(** * The services *)

Record permitted (ranges : list GuestMemoryRange) (service first second count : Z) : Prop := {
  pm_ranges : ranges_ok ranges /\ 1 <= zlen ranges <= 64;
  pm_count : count <= MaxTransfer;
  pm_service : service = Copy \/ service = Set_ \/ service = Compare;
  pm_first : authorized ranges first count (negb (service =? Compare));
  pm_second : service <> Set_ -> authorized ranges second count false;
  pm_overlap : service = Copy -> first + count <= second \/ second + count <= first
}.

Definition bytes_at (ranges : list GuestMemoryRange) (a count : Z) (bytes : list byte) : Prop :=
  zlen bytes = count /\ forall i, 0 <= i < count -> bytes.[i] = mem_at ranges (a + i).

(** What a performed service does to the memory, byte by byte, and returns. *)
Record effect (service first second count : Z) (ranges ranges' : list GuestMemoryRange) (value : Z) : Prop := {
  ef_shape : Forall2 same_range ranges ranges';
  ef_copy : service = Copy -> value = first /\ forall b, mem_at ranges' b =
    if decide (first <= b < first + count) then mem_at ranges (second + (b - first)) else mem_at ranges b;
  ef_set : service = Set_ -> value = first /\ forall b, mem_at ranges' b =
    if decide (first <= b < first + count) then Some (to_u8 second) else mem_at ranges b;
  ef_compare : service = Compare -> ranges' = ranges /\ exists x y,
    bytes_at ranges first count x /\ bytes_at ranges second count y /\ value = wrap64 (compare_bytes x y)
}.

Lemma same_range_refl l : Forall2 same_range l l.
Proof. induction l; constructor; [by split_and!|done]. Qed.

Lemma effect_empty service first second ranges :
  service = Copy \/ service = Set_ \/ service = Compare ->
  effect service first second 0 ranges ranges (if service =? Compare then 0 else first).
Proof.
  intros Hs. split; [apply same_range_refl|..]; intros ->; cbn.
  - split; [done|]. intros b. by rewrite decide_False by lia.
  - split; [done|]. intros b. by rewrite decide_False by lia.
  - split; [done|]. exists [], [].
    split; [split; [done|intros; lia]|]. split; [split; [done|intros; lia]|done].
Qed.

(** The three services with a non-zero count, once their pointers are found. *)
Lemma performed ranges service first second count dst src :
  ranges_ok ranges -> service = Copy \/ service = Set_ \/ service = Compare -> 0 < count ->
  points_to ranges dst first count (negb (service =? Compare)) ->
  (service <> Set_ -> points_to ranges src second count false) ->
  exists value ranges',
    (if service =? Set_ then
       ranges' ← store ranges dst (filled count (to_u8 second));
       Some (mkGuestMemoryResult true first, ranges')
     else if service =? Copy then
       bytes ← load ranges src count;
       ranges' ← store ranges dst bytes;
       Some (mkGuestMemoryResult true first, ranges')
     else
       a ← load ranges dst count;
       b ← load ranges src count;
       Some (mkGuestMemoryResult true (wrap64 (compare_bytes a b)), ranges)) =
    Some (mkGuestMemoryResult true value, ranges') /\
    effect service first second count ranges ranges' value.
Proof.
  intros Hok Hs Hc Hd Hsrc.
  destruct Hs as [->|[->| ->]]; cbn in Hd |- *.
  - destruct (load_spec ranges Hok src second count false ltac:(lia) (Hsrc ltac:(done))) as (bytes & -> & Hl & Hb). cbn.
    destruct (store_spec ranges dst first count bytes Hok Hd Hl) as (ranges' & -> & Hsh & Hm). cbn.
    exists first, ranges'. split; [done|]. split; try done. intros _. split; [done|]. intros b. rewrite Hm.
    case_decide; [|done]. by rewrite Hb by lia.
  - destruct (store_spec ranges dst first count (filled count (to_u8 second)) Hok Hd) as (ranges' & -> & Hsh & Hm);
      [by apply zlen_filled; lia|]. cbn.
    exists first, ranges'. split; [done|]. split; try done. intros _. split; [done|]. intros b. rewrite Hm.
    case_decide; [|done]. by rewrite filled_at by lia.
  - destruct (load_spec ranges Hok dst first count false ltac:(lia) Hd) as (a & -> & Hla & Ha). cbn.
    destruct (load_spec ranges Hok src second count false ltac:(lia) (Hsrc ltac:(done))) as (b & -> & Hlb & Hb). cbn.
    eexists _, ranges. split; [done|]. split; try done; [apply same_range_refl|]. intros _. split; [done|].
    exists a, b. done.
Qed.

Lemma Invoke_spec ranges service first second count :
  Forall (fun r => is_u64 (rng_address r)) ranges -> is_u64 first -> is_u64 second -> is_u64 count ->
  exists res ranges', Invoke ranges service first second count = Some (res, ranges') /\
    (0 < count -> (res_valid res = true <-> permitted ranges service first second count)) /\
    (res_valid res = true -> effect service first second count ranges ranges' (res_value res)) /\
    (res_valid res = false -> res_value res = 0 /\ ranges' = ranges).
Proof.
  intros Hu Hf Hs Hc. unfold Invoke.
  assert (Hrefuse : ~ permitted ranges service first second count \/ count = 0 ->
    exists res ranges', Some (refused, ranges) = Some (res, ranges') /\
    (0 < count -> (res_valid res = true <-> permitted ranges service first second count)) /\
    (res_valid res = true -> effect service first second count ranges ranges' (res_value res)) /\
    (res_valid res = false -> res_value res = 0 /\ ranges' = ranges)).
  { intros Hno. exists refused, ranges. split; [done|]. split; [|done]. intros Hpos. cbn.
    split; [done|]. destruct Hno; [done|lia]. }
  match goal with |- context [if ?c then Some (refused, _) else _] => destruct c eqn:E1 end.
  { apply Hrefuse. left. intros [Hr Hcnt Hsv _ _ _]. apply Valid_ok in Hr; [|done]. rewrite Hr in E1. cbn in E1.
    unfold MaxTransfer, Copy, Set_, Compare in *. lia. }
  apply orb_false_elim in E1 as [E1 E3]. apply orb_false_elim in E1 as [E1 E2].
  apply negb_false_iff in E1. apply Valid_ok in E1 as [Hok Hlen]; [|done]. reflect_bools.
  assert (Hsv : service = Copy \/ service = Set_ \/ service = Compare)
    by (unfold Copy, Set_, Compare in *; lia).
  destruct (decide (count = 0)) as [->|Hne].
  { cbn [Z.eqb negb andb]. rewrite !andb_false_r. cbn [andb].
    destruct (Find _ first _ _); [|apply Hrefuse; by right].
    match goal with |- context [if ?c then Some (refused, _) else _] => destruct c end; [apply Hrefuse; by right|].
    exists (mkGuestMemoryResult true (if service =? Compare then 0 else first)), ranges. split; [done|].
    split; [lia|]. split; [|done]. intros _. by apply effect_empty. }
  assert (Hpos : 0 < count) by u64_lia.
  rewrite (proj2 (Z.eqb_neq count 0)) by done. cbn [negb]. rewrite andb_true_r.
  pose proof (Find_spec ranges Hok first count (negb (service =? Compare)) Hf Hpos) as Hd.
  pose proof (Find_spec ranges Hok second count false Hs Hpos) as Hsrc.
  destruct (Find ranges first count _) as [dst|]; [|apply Hrefuse; left; by intros [_ _ _ ? _ _]].
  assert (Hcase : (negb (service =? Set_) && match (if service =? Set_ then None else Find ranges second count false) with None => true | Some _ => false end = true /\
      ~ permitted ranges service first second count) \/
    (negb (service =? Set_) && match (if service =? Set_ then None else Find ranges second count false) with None => true | Some _ => false end = false /\
      exists src, (service <> Set_ -> Find ranges second count false = Some src /\ points_to ranges src second count false))).
  { destruct (service =? Set_) eqn:Es; cbn [negb andb]; reflect_bools.
    - right. split; [done|]. exists dst. done.
    - destruct (Find ranges second count false) as [src|].
      + right. split; [done|]. by exists src.
      + left. split; [done|]. intros [_ _ _ _ Hsec _]. by apply Hsrc, Hsec. }
  destruct Hcase as [[-> Hno]|[-> (src & Hptr)]]; [apply Hrefuse; by left|].
  assert (Hov : (service =? Copy) && (first <? second +64 count) && (second <? first +64 count) =
    ((service =? Copy) && (first <? second + count) && (second <? first + count))).
  { destruct (service =? Copy) eqn:Ec; [|done]. reflect_bools. subst service.
    destruct (Hptr ltac:(done)) as [_ (r & Hr & _ & R1 & R2 & _)]. destruct Hd as (s & Hs' & _ & S1 & S2 & _).
    apply list_elem_of_lookup_2, list_elem_of_In in Hr, Hs'.
    destruct (gr_range _ Hok r Hr) as (?&?&?). destruct (gr_range _ Hok s Hs') as (?&?&?). by unwrap. }
  rewrite Hov. destruct ((service =? Copy) && (first <? second + count) && (second <? first + count)) eqn:Eo.
  { apply Hrefuse. left. intros [_ _ _ _ _ Hapart]. unfold Copy in *. lia. }
  destruct (performed ranges service first second count dst src Hok Hsv Hpos Hd) as (value & ranges' & Heq & Heff);
    [intros Hns; by apply Hptr|].
  exists (mkGuestMemoryResult true value), ranges'. split.
  { rewrite <- Heq. destruct (service =? Set_) eqn:Es; [done|]. reflect_bools.
    destruct (Hptr Es) as [-> _]. done. }
  split; [|done]. intros _. split; [|done]. intros _. split; try done.
  - by apply (points_to_authorized ranges) in Hd.
  - intros Hns. apply Hptr in Hns as [_ Hp]. by apply (points_to_authorized ranges) in Hp.
  - unfold Copy in *. lia.
Qed.

(** C8. A memory service never touches memory outside the authorized ranges, on any
    pointers and count. With a non-zero count it is performed exactly when it is
    permitted (disjoint ranges, authorized spans, no overlapping copy); performed, it
    changes exactly the destination bytes to exactly the bytes C prescribes and returns
    the destination (or the sign of the comparison); refused, it changes nothing. *)
Theorem Invoke_exact ranges service first second count :
  Forall (fun r => is_u64 (rng_address r)) ranges -> is_u64 first -> is_u64 second -> is_u64 count ->
  exists res ranges', Invoke ranges service first second count = Some (res, ranges') /\
    (0 < count -> (res_valid res = true <-> permitted ranges service first second count)) /\
    (res_valid res = true -> effect service first second count ranges ranges' (res_value res)) /\
    (res_valid res = false -> res_value res = 0 /\ ranges' = ranges).
Proof. apply Invoke_spec. Qed.

(** Two ranges, the second read-only. *)
Definition example_ranges : list GuestMemoryRange :=
  [mkGuestMemoryRange 0x1000 (filled 16 Byte.x00) true; mkGuestMemoryRange 0x2000 (filled 8 Byte.x41) false].

Lemma Invoke_exact_witness :
  exists res ranges', Invoke example_ranges Copy 0x1004 0x2000 8 = Some (res, ranges') /\
    res_valid res = true /\ effect Copy 0x1004 0x2000 8 example_ranges ranges' 0x1004.
Proof.
  assert (Hu : Forall (fun r => is_u64 (rng_address r)) example_ranges).
  { apply List.Forall_forall. intros r Hr. apply is_u64_dec. revert r Hr.
    apply (proj1 (forallb_forall (fun r => (0 <=? rng_address r) && (rng_address r <=? U64_MAX)) _)).
    vm_compute. reflexivity. }
  assert (H1 : is_u64 0x1004) by (apply is_u64_dec; vm_compute; reflexivity).
  assert (H2 : is_u64 0x2000) by (apply is_u64_dec; vm_compute; reflexivity).
  assert (H3 : is_u64 8) by (apply is_u64_dec; vm_compute; reflexivity).
  destruct (Invoke_exact example_ranges Copy 0x1004 0x2000 8 Hu H1 H2 H3) as (res & ranges' & Hr & _ & Hok & _).
  assert (Hv : res_valid res = true)
    by (apply (checked_result (fun x => res_valid (fst x)) _ _ Hr); vm_compute; reflexivity).
  assert (Hx : res_value res = 0x1004)
    by (apply Z.eqb_eq; apply (checked_result (fun x => res_value (fst x) =? 0x1004) _ _ Hr); vm_compute; reflexivity).
  exists res, ranges'. split; [exact Hr|]. split; [exact Hv|]. rewrite <- Hx at 2. exact (Hok Hv).
Defined.
