(* ===== verification/Startup.v ===== *)
(** Guest startup data: [PrepareGuestStartup] and [StartupPageFlags] of
    src/src/core/uwp/guest_startup.h, with the ABI layouts of src/src/core/runtime_layout.h.

    The backings are explicit state: a span is its host address and its bytes. *)
From Stdlib Require Import ZArith Lia.
From Stdlib Require Import Strings.Byte.
From stdpp Require Import base gmap list list_numbers strings.
From S2P Require Import Prelude.
From S2P Require Import Fixtures.
From S2P Require Import Preflight.
From S2P Require Import LoadPlan.
From S2P Require Import Payload.
From S2P Require Import LinkManifest.
From S2P Require Import ImportResolver.
From S2P Require Import DataLink.

(** ** The ABI layouts *)

(** The [n] little-endian bytes of a value. *)
Definition le_bytes (n v : Z) : list byte := List.map (fun i => to_u8 (Z.shiftr v (i * 8))) (indices n).

Record EntryParams := mkEntryParams { argc : Z; padding : Z; argv : list Z; entry_addr : Z }.
(** [EntryParams params{};] *)
Definition entry_params_init : EntryParams := mkEntryParams 0 0 (filled 33 0) 0.
#[export] Instance eta_EntryParams : Eta EntryParams := fun p =>
  mkEntryParams (argc p) (padding p) (argv p) (entry_addr p).
Definition entry_params_bytes (p : EntryParams) : list byte :=
  le_bytes 4 (argc p) ++ le_bytes 4 (padding p) ++ List.concat (List.map (le_bytes 8) (argv p)) ++
  le_bytes 8 (entry_addr p).

Record Tcb := mkTcb {
  tcb_self : Z; tcb_dtv : Z; tcb_thread : Z; tcb_spare : list Z; tcb_canary : Z; tcb_fiber : Z
}.
Definition tcb_bytes (t : Tcb) : list byte :=
  le_bytes 8 (tcb_self t) ++ le_bytes 8 (tcb_dtv t) ++ le_bytes 8 (tcb_thread t) ++
  List.concat (List.map (le_bytes 8) (tcb_spare t)) ++ le_bytes 8 (tcb_canary t) ++ le_bytes 8 (tcb_fiber t).

(** [DtvEntry]: a counter or a pointer, eight bytes either way. *)
Inductive DtvEntry := Counter (counter : Z) | PointerTo (pointer : Z).
Definition dtv_bytes (e : DtvEntry) : list byte :=
  match e with Counter n => le_bytes 8 n | PointerTo p => le_bytes 8 p end.

Definition sizeof_DtvEntry : Z := 8.

(** ** The startup image *)

Definition GuestStartupStackSize : Z := 131072.

Record GuestStartupLayout := mkGuestStartupLayout {
  st_valid : bool;
  params : Z;
  initial_rsp : Z;
  st_tcb : Z;
  st_dtv : Z;
  st_tls : Z;
  st_error : string
}.

(** A span: where its bytes are, and the bytes. *)
Record Span := mkSpan { span_address : Z; span_bytes : list byte }.
Definition span_size (s : Span) : Z := zlen (span_bytes s).

(** The two backings and the result. *)
Record StartupState := mkStartupState {
  layout_ : GuestStartupLayout;
  stack_bytes : list byte;
  tls_bytes : list byte
}.
#[export] Instance eta_GuestStartupLayout : Eta GuestStartupLayout := fun l =>
  mkGuestStartupLayout (st_valid l) (params l) (initial_rsp l) (st_tcb l) (st_dtv l) (st_tls l) (st_error l).
#[export] Instance eta_StartupState : Eta StartupState := fun s =>
  mkStartupState (layout_ s) (stack_bytes s) (tls_bytes s).

Definition spans_overlap (a size b other_size : Z) : bool :=
  negb (size =? 0) && negb (other_size =? 0) && (a <? b +64 other_size) && (b <? a +64 size).

(** [std::memcpy(stack.data() + offset, src, n)], and the same into the TLS backing. *)
Definition write_stack (offset : Z) (src : list byte) : M StartupState unit :=
  b <- gets stack_bytes ;;
  b' <- need (splice b offset src) ;;
  modify (fun s => s <| stack_bytes := b' |>).
Definition write_tls (offset : Z) (src : list byte) : M StartupState unit :=
  b <- gets tls_bytes ;;
  b' <- need (splice b offset src) ;;
  modify (fun s => s <| tls_bytes := b' |>).

(** [(tls_memory + 31) & ~std::size_t{31}] *)
Definition tls_align (tls_memory : Z) : Z := Z.land (tls_memory +64 31) (U64_MAX - 31).

Section Prepare.
Context (stack tls_backing tls_initial : Span) (tls_memory tls_alignment entry : Z) (argv0 : Span).

Definition prepare : M StartupState unit :=
  let stack_base := span_address stack in
  let tls_base := span_address tls_backing in
  fail_if (negb (span_size stack =? GuestStartupStackSize) || (stack_base =? 0) ||
           negb (stack_base mod 16 =? 0) || (U64_MAX -64 stack_base <? span_size stack) ||
           (tls_base =? 0) || negb (tls_base mod 32 =? 0) || (U64_MAX -64 tls_base <? span_size tls_backing) ||
           (entry =? 0) || (span_size argv0 =? 0) || (256 <? span_size argv0) ||
           existsb (fun b => u8 b =? 0) (span_bytes argv0) ||
           (16777216 <? tls_memory) || (tls_memory <? span_size tls_initial) || (tls_alignment =? 0) ||
           (32 <? tls_alignment) || negb (Z.land tls_alignment (tls_alignment -64 1) =? 0))
    "startup_layout_or_budget_invalid" ;;;
  let tls_aligned := tls_align tls_memory in
  fail_if (span_size tls_backing <? tls_aligned +64 64 +64 3 * sizeof_DtvEntry) "tls_backing_too_small" ;;;
  let input := span_address tls_initial in
  let argument := span_address argv0 in
  fail_if ((U64_MAX -64 input <? span_size tls_initial) || (U64_MAX -64 argument <? span_size argv0) ||
           spans_overlap stack_base (span_size stack) tls_base (span_size tls_backing) ||
           spans_overlap input (span_size tls_initial) stack_base (span_size stack) ||
           spans_overlap input (span_size tls_initial) tls_base (span_size tls_backing) ||
           spans_overlap argument (span_size argv0) stack_base (span_size stack) ||
           spans_overlap argument (span_size argv0) tls_base (span_size tls_backing))
    "startup_input_output_overlap" ;;;
  modify (fun s => s <| stack_bytes := filled (span_size stack) Byte.x00 |>) ;;;
  modify (fun s => s <| tls_bytes := filled (span_size tls_backing) Byte.x00 |>) ;;;
  when (negb (span_size tls_initial =? 0)) (write_tls 0 (span_bytes tls_initial)) ;;;
  modify (fun s => s <| layout_ ::= fun l =>
    l <| params := stack_base +64 0x100 |>
      <| initial_rsp := stack_base +64 span_size stack -64 24 |>
      <| st_tls := tls_base |>
      <| st_tcb := tls_base +64 tls_aligned |>
      <| st_dtv := tls_base +64 tls_aligned +64 64 |> |>) ;;;
  let params := entry_params_init
    <| argc := 1 |>
    <| argv ::= fun l => <[0%nat := stack_base +64 0x400]> l |>
    <| entry_addr := entry |> in
  write_stack 0x100 (entry_params_bytes params) ;;;
  write_stack 0x400 (span_bytes argv0) ;;;
  write_stack (span_size stack - 24) (take 16 (entry_params_bytes params)) ;;;
  tcb_address <- gets (fun s => st_tcb (layout_ s)) ;;
  dtv_address <- gets (fun s => st_dtv (layout_ s)) ;;
  let tcb := mkTcb tcb_address dtv_address 0 [0; 0] 0 0 in
  write_tls tls_aligned (tcb_bytes tcb) ;;;
  let dtv := [Counter 1; Counter 1; PointerTo (if tls_memory =? 0 then 0 else tls_base)] in
  write_tls (tls_aligned + 64) (List.concat (List.map dtv_bytes dtv)) ;;;
  modify (fun s => s <| layout_ ::= fun l => l <| st_valid := true |> |>).

(** The layout and the contents of the two backings afterwards. *)
Definition PrepareGuestStartup : option StartupState :=
  finish (fun e s => s <| layout_ ::= fun l => l <| st_error := e |> |>) prepare
    (mkStartupState (mkGuestStartupLayout false 0 0 0 0 0 "") (span_bytes stack) (span_bytes tls_backing)).
End Prepare.

(** ** Page permissions *)

(** [for (page = first; page <= last; ++page)] *)
Definition page_range (first last : Z) : list Z := List.map (fun i => first + i) (indices (last - first + 1)).

Definition page_step (flags page : Z) : M (list Z) unit :=
  pages <- gets id ;;
  old <- need (pages.[page]) ;;
  let new := wrap8 (Z.lor old (wrap8 flags)) in
  modify (fun pages => <[Z.to_nat page := new]> pages) ;;;
  fail_if (Z.land new 3 =? 3) "".

Definition page_segment (plan : GuestLoadPlan) (segment : GuestLoadSegment) : M (list Z) unit :=
  fail_if ((seg_memory_size segment =? 0) || (seg_address segment <? base plan) ||
           negb (Z.land (seg_flags segment) (U32_MAX - 7) =? 0) || (Z.land (seg_flags segment) 4 =? 0) ||
           (image_size plan <? seg_address segment -64 base plan) ||
           (image_size plan -64 (seg_address segment -64 base plan) <? seg_memory_size segment)) "" ;;;
  let offset := seg_address segment -64 base plan in
  let first := offset / 4096 in
  let last := (offset +64 seg_memory_size segment -64 1) / 4096 in
  forM (page_range first last) (page_step (seg_flags segment)).

Definition page_flags (plan : GuestLoadPlan) : M (list Z) unit :=
  fail_if (negb (plan_valid plan) || (image_size plan =? 0) || (GuestImageLimit <? image_size plan) ||
           negb (image_size plan mod 4096 =? 0) || (U64_MAX -64 image_size plan <? base plan)) "" ;;;
  modify (fun _ => filled (image_size plan / 4096) 0) ;;;
  forM (segments plan) (page_segment plan).

(** Every early return is [return {}]. *)
Definition StartupPageFlags (plan : GuestLoadPlan) : option (list Z) :=
  finish (fun _ _ => []) (page_flags plan) [].

(** * Regions of a buffer *)

(** [l] holds [src] at [off]. *)
Definition region (l : list byte) (off : Z) (src : list byte) : Prop :=
  forall j, 0 <= j < zlen src -> l.[off + j] = src.[j].

Lemma at_app_l {A} (l k : list A) i : i < zlen l -> (l ++ k).[i] = l.[i].
Proof.
  intros Hi. unfold at_index, zlen in *. case_decide; [|done]. rewrite lookup_app_l by lia. done.
Qed.
Lemma at_app_r {A} (l k : list A) i : 0 <= i -> (l ++ k).[zlen l + i] = k.[i].
Proof.
  intros Hi. unfold at_index, zlen in *. rewrite !decide_True by lia. rewrite lookup_app_r by lia. f_equal. lia.
Qed.

Lemma region_app l off a b : region l off (a ++ b) <-> region l off a /\ region l (off + zlen a) b.
Proof.
  unfold region. rewrite zlen_app. pose proof (zlen_nonneg a). pose proof (zlen_nonneg b). split.
  - intros Hab. split; intros j Hj.
    + rewrite Hab by lia. apply at_app_l; lia.
    + rewrite <- Z.add_assoc, Hab by lia. apply at_app_r; lia.
  - intros [Ha Hb] j Hj. destruct (decide (j < zlen a)).
    + rewrite Ha by lia. symmetry. apply at_app_l; lia.
    + replace (off + j) with (off + zlen a + (j - zlen a)) by lia. rewrite Hb by lia.
      rewrite <- (at_app_r a b) by lia. f_equal. lia.
Qed.

Lemma region_filled n (x : byte) off m : 0 <= off -> 0 <= m -> off + m <= n -> region (filled n x) off (filled m x).
Proof. intros ??? j Hj. rewrite zlen_filled in Hj by lia. rewrite !filled_at by lia. done. Qed.

Lemma region_shorter l off n m (x : byte) : 0 <= m <= n -> region l off (filled n x) -> region l off (filled m x).
Proof.
  intros Hm Hr j Hj. rewrite zlen_filled in Hj by lia. rewrite filled_at by lia.
  rewrite Hr by (rewrite zlen_filled by lia; lia). by rewrite filled_at by lia.
Qed.

(** A write holds what it wrote, and keeps the regions it does not meet. *)
Lemma splice_region dst off src k :
  (forall i, 0 <= i -> k.[i] = if decide (off <= i < off + zlen src) then src.[i - off] else dst.[i]) ->
  0 <= off ->
  region k off src /\
  forall o s, 0 <= o -> o + zlen s <= off \/ off + zlen src <= o -> region dst o s -> region k o s.
Proof.
  intros Hk Ho. split.
  - intros j Hj. rewrite Hk, decide_True by lia. f_equal. lia.
  - intros o s H0 Hd Hs j Hj. rewrite Hk, decide_False by lia. by apply Hs.
Qed.

Lemma zlen_le_bytes n v : 0 <= n -> zlen (le_bytes n v) = n.
Proof.
  intros Hn. unfold le_bytes, indices, zlen. rewrite List.length_map, length_fmap, length_seq. lia.
Qed.

Lemma le_bytes_at n v i : 0 <= i < n -> (le_bytes n v).[i] = Some (to_u8 (Z.shiftr v (i * 8))).
Proof. intros Hi. unfold le_bytes. by rewrite map_at, indices_at. Qed.

(** Reading back a value a region holds. *)
Lemma region_read l off n v :
  0 <= off -> off + Z.of_nat n <= U64_MAX -> 0 <= v < 2 ^ (8 * Z.of_nat n) ->
  region l off (le_bytes (Z.of_nat n) v) -> read l off n = Some v.
Proof.
  intros Ho Hn Hv Hr. unfold read.
  pose proof (read_from_bytes l off v n 0 Ho ltac:(lia) ltac:(lia)) as Hread.
  change (8 * 0) with 0 in Hread. rewrite Z.mod_1_r in Hread. rewrite Hread.
  - f_equal. apply Z.mod_small. exact Hv.
  - intros j Hj. rewrite Hr by (rewrite zlen_le_bytes by lia; lia). by rewrite le_bytes_at by lia.
Qed.

Lemma zlen_concat_words l : zlen (List.concat (List.map (le_bytes 8) l)) = 8 * zlen l.
Proof.
  induction l as [|x l IH]; [done|]. cbn [List.map List.concat]. rewrite zlen_app, IH, zlen_le_bytes by lia.
  unfold zlen. cbn [length]. lia.
Qed.

Lemma zlen_entry_params p : zlen (argv p) = 33 -> zlen (entry_params_bytes p) = 280.
Proof.
  intros Ha. unfold entry_params_bytes. rewrite !zlen_app, zlen_concat_words, !zlen_le_bytes by lia. lia.
Qed.
Lemma zlen_tcb t : zlen (tcb_spare t) = 2 -> zlen (tcb_bytes t) = 56.
Proof.
  intros Ha. unfold tcb_bytes. rewrite !zlen_app, zlen_concat_words, !zlen_le_bytes by lia. lia.
Qed.

(** Rounding up to 32 bytes. *)
Lemma tls_align_spec n :
  0 <= n <= 16777216 -> tls_align n mod 32 = 0 /\ n <= tls_align n < n + 32.
Proof.
  intros Hn. unfold tls_align. unwrap.
  assert (Hmask : U64_MAX - 31 = Z.land (Z.ones 64) (Z.lnot (Z.ones 5))) by (vm_compute; reflexivity).
  rewrite Hmask, Z.land_assoc, Z.land_ones by lia.
  change (2 ^ 64) with 18446744073709551616. rewrite (Z.mod_small (n + 31) 18446744073709551616) by lia.
  rewrite <- Z.ldiff_land, Z.ldiff_ones_r, Z.shiftr_div_pow2, Z.shiftl_mul_pow2 by lia.
  change (2 ^ 5) with 32. split; [apply Z.mod_mul; lia|].
  pose proof (Z.div_mod (n + 31) 32 ltac:(lia)). pose proof (Z.mod_pos_bound (n + 31) 32 ltac:(lia)). lia.
Qed.

(** * The prepared startup data *)

Section Spec.
Context (stack tls_backing tls_initial : Span) (tls_memory tls_alignment entry : Z) (argv0 : Span).

Definition meet (a size b other_size : Z) : Prop :=
  0 < size /\ 0 < other_size /\ a < b + other_size /\ b < a + size.

(** What the inputs must satisfy. *)
Record startup_inputs_ok : Prop := {
  si_stack : span_size stack = GuestStartupStackSize /\ span_address stack <> 0 /\
    span_address stack mod 16 = 0 /\ span_address stack + span_size stack <= U64_MAX;
  si_tls : span_address tls_backing <> 0 /\ span_address tls_backing mod 32 = 0 /\
    span_address tls_backing + span_size tls_backing <= U64_MAX;
  si_entry : entry <> 0;
  si_argv0 : 1 <= span_size argv0 <= 256 /\ Forall (fun b => u8 b <> 0) (span_bytes argv0) /\
    span_address argv0 + span_size argv0 <= U64_MAX;
  si_template : span_size tls_initial <= tls_memory <= 16777216 /\
    span_address tls_initial + span_size tls_initial <= U64_MAX;
  si_alignment : 1 <= tls_alignment <= 32 /\ Z.land tls_alignment (tls_alignment - 1) = 0;
  si_room : tls_align tls_memory + 64 + 24 <= span_size tls_backing;
  si_apart : ~ meet (span_address stack) (span_size stack) (span_address tls_backing) (span_size tls_backing) /\
    ~ meet (span_address tls_initial) (span_size tls_initial) (span_address stack) (span_size stack) /\
    ~ meet (span_address tls_initial) (span_size tls_initial) (span_address tls_backing) (span_size tls_backing) /\
    ~ meet (span_address argv0) (span_size argv0) (span_address stack) (span_size stack) /\
    ~ meet (span_address argv0) (span_size argv0) (span_address tls_backing) (span_size tls_backing)
}.

Definition main_params : EntryParams :=
  mkEntryParams 1 0 ((span_address stack + 0x400) :: filled 32 0) entry.
Definition tcb_offset : Z := tls_align tls_memory.
Definition tcb_value : Z := span_address tls_backing + tcb_offset.

(** The two backings of a prepared startup, region by region. *)
Record startup_ready (s : StartupState) : Prop := {
  sr_sizes : zlen (stack_bytes s) = span_size stack /\ zlen (tls_bytes s) = span_size tls_backing;
  sr_params : params (layout_ s) = span_address stack + 0x100 /\
    region (stack_bytes s) 0x100 (entry_params_bytes main_params);
  sr_argv0 : region (stack_bytes s) 0x400 (span_bytes argv0 ++ [Byte.x00]);
  sr_rsp : initial_rsp (layout_ s) = span_address stack + span_size stack - 24 /\
    initial_rsp (layout_ s) mod 16 = 8 /\
    read (stack_bytes s) (initial_rsp (layout_ s) - span_address stack) 4 = Some 1 /\
    read (stack_bytes s) (initial_rsp (layout_ s) - span_address stack + 8) 8 = Some (span_address stack + 0x400);
  sr_tls : st_tls (layout_ s) = span_address tls_backing /\
    region (tls_bytes s) 0 (span_bytes tls_initial ++ filled (tls_memory - span_size tls_initial) Byte.x00);
  sr_tcb : st_tcb (layout_ s) = tcb_value /\ st_tcb (layout_ s) mod 32 = 0 /\
    tls_memory <= tcb_offset /\
    read (tls_bytes s) tcb_offset 8 = Some tcb_value /\
    read (tls_bytes s) (tcb_offset + 8) 8 = Some (tcb_value + 64) /\
    region (tls_bytes s) tcb_offset (tcb_bytes (mkTcb tcb_value (tcb_value + 64) 0 [0; 0] 0 0));
  sr_dtv : st_dtv (layout_ s) = tcb_value + 64 /\
    read (tls_bytes s) (tcb_offset + 64) 8 = Some 1 /\
    read (tls_bytes s) (tcb_offset + 72) 8 = Some 1 /\
    read (tls_bytes s) (tcb_offset + 80) 8 =
      Some (if tls_memory =? 0 then 0 else span_address tls_backing)
}.

(** * Correctness of the preparation *)

Hypothesis Hu64 : Forall is_u64 [span_address stack; span_address tls_backing; span_address tls_initial;
  span_address argv0; tls_memory; tls_alignment; entry].
Hypothesis Hsizes : Forall (fun s => span_size s <= U64_MAX) [stack; tls_backing; tls_initial; argv0].

Definition unwritten (s : StartupState) : Prop :=
  st_valid (layout_ s) = false /\ stack_bytes s = span_bytes stack /\ tls_bytes s = span_bytes tls_backing.

Lemma spans_overlap_spec a size b other :
  is_u64 a -> 0 <= size -> a + size <= U64_MAX -> is_u64 b -> 0 <= other -> b + other <= U64_MAX ->
  spans_overlap a size b other = true <-> meet a size b other.
Proof. intros. unfold spans_overlap, meet. unwrap. lia. Qed.

Lemma write_stack_wp off src (Q : unit -> StartupState -> Prop) E s :
  0 <= off -> off + zlen src <= zlen (stack_bytes s) ->
  (forall k, zlen k = zlen (stack_bytes s) -> region k off src ->
     (forall o r, 0 <= o -> o + zlen r <= off \/ off + zlen src <= o -> region (stack_bytes s) o r -> region k o r) ->
     Q tt (s <| stack_bytes := k |>)) ->
  wp (write_stack off src) Q E s.
Proof.
  intros H0 H1 HQ. unfold write_stack. wp_step; wp_step. wp_step. apply wp_splice; [lia|lia|].
  intros k _ Hz Hk. wp_step. destruct (splice_region _ _ _ _ Hk H0) as [Hr1 Hr2]. by apply HQ.
Qed.

Lemma write_tls_wp off src (Q : unit -> StartupState -> Prop) E s :
  0 <= off -> off + zlen src <= zlen (tls_bytes s) ->
  (forall k, zlen k = zlen (tls_bytes s) -> region k off src ->
     (forall o r, 0 <= o -> o + zlen r <= off \/ off + zlen src <= o -> region (tls_bytes s) o r -> region k o r) ->
     Q tt (s <| tls_bytes := k |>)) ->
  wp (write_tls off src) Q E s.
Proof.
  intros H0 H1 HQ. unfold write_tls. wp_step; wp_step. wp_step. apply wp_splice; [lia|lia|].
  intros k _ Hz Hk. wp_step. destruct (splice_region _ _ _ _ Hk H0) as [Hr1 Hr2]. by apply HQ.
Qed.

(** The first two words of the parameters, which also lie at the initial stack pointer. *)
Lemma take16_params p :
  argv p <> [] ->
  take 16 (entry_params_bytes p) = le_bytes 4 (argc p) ++ le_bytes 4 (padding p) ++ le_bytes 8 (hd 0 (argv p)).
Proof.
  intros Ha. unfold entry_params_bytes. destruct (argv p) as [|x r]; [done|]. cbn [List.map List.concat hd].
  rewrite <- !app_assoc, !app_assoc. rewrite <- (app_assoc _ (List.concat _)).
  rewrite take_app_length'; [done|].
  pose proof (zlen_le_bytes 4 (argc p)). pose proof (zlen_le_bytes 4 (padding p)).
  pose proof (zlen_le_bytes 8 x). unfold zlen in *. rewrite !length_app. lia.
Qed.

Lemma aligned_sub base size : base mod 16 = 0 -> size mod 16 = 0 -> (base + size - 24) mod 16 = 8.
Proof. intros. pose proof (Z.div_mod base 16). pose proof (Z.div_mod size 16). 
  symmetry. apply (Z.mod_unique _ _ (base / 16 + size / 16 - 2)); lia. Qed.

Lemma aligned_add base n : base mod 32 = 0 -> n mod 32 = 0 -> (base + n) mod 32 = 0.
Proof. intros. pose proof (Z.div_mod base 32). pose proof (Z.div_mod n 32).
  symmetry. apply (Z.mod_unique _ _ (base / 32 + n / 32)); lia. Qed.

Lemma prepare_wp :
  wp (prepare stack tls_backing tls_initial tls_memory tls_alignment entry argv0)
    (fun _ s => startup_inputs_ok /\ st_error (layout_ s) = "" /\ st_valid (layout_ s) = true /\ startup_ready s)
    (fun e s => e <> "" /\ ~ startup_inputs_ok /\ unwritten s)
    (mkStartupState (mkGuestStartupLayout false 0 0 0 0 0 "") (span_bytes stack) (span_bytes tls_backing)).
Proof.
  rewrite !Forall_cons in Hu64. destruct Hu64 as (U1 & U2 & U3 & U4 & U5 & U6 & U7 & _).
  rewrite !Forall_cons in Hsizes. destruct Hsizes as (S1 & S2 & S3 & S4 & _).
  assert (P1 : 0 <= span_size stack) by apply zlen_nonneg. assert (P2 : 0 <= span_size tls_backing) by apply zlen_nonneg.
  assert (P3 : 0 <= span_size tls_initial) by apply zlen_nonneg. assert (P4 : 0 <= span_size argv0) by apply zlen_nonneg.
  assert (Hargv : existsb (fun b => u8 b =? 0) (span_bytes argv0) = false <-> Forall (fun b => u8 b <> 0) (span_bytes argv0)).
  { rewrite <- not_true_iff_false, existsb_exists, List.Forall_forall. split.
    - intros Hn b Hb Hz. apply Hn. exists b. split; [done|by apply Z.eqb_eq].
    - intros Hf (b & Hb & Hz). apply (Hf b Hb). by apply Z.eqb_eq. }
  unfold prepare. wp_step; wp_step.
  { split; [done|]. split; [|done]. intros [(?&?&?&?) (?&?&?) ? (?&Ha&?) ([??]&?) ([??]&Hal) _ _].
    apply Hargv in Ha. revert H. rewrite Ha. unwrap. rewrite Hal. u64_lia. }
  repeat match goal with H : (_ || _)%bool = false |- _ => apply orb_false_elim in H; destruct H end.
  reflect_bools. unwrap_all. rewrite Hargv in *.
  match goal with H : Forall (fun b => u8 b <> 0) _ |- _ => rename H into Hname end.
  destruct (tls_align_spec tls_memory ltac:(u64_lia)) as [Hal1 Hal2]. set (al := tls_align tls_memory) in *.
  unfold sizeof_DtvEntry, GuestStartupStackSize in *.
  wp_step; apply wp_fail_if; intros Hroom.
  { split; [done|]. split; [|done]. intros [_ _ _ _ _ _ Hroom' _]. fold al in Hroom'. revert Hroom. unwrap. lia. }
  revert Hroom. unwrap. intros Hroom. reflect_bools.
  wp_step; apply wp_fail_if; intros Hov.
  { split; [done|]. split; [|done]. intros [_ _ _ (_&_&?) (_&?) _ _ (N1&N2&N3&N4&N5)].
    rewrite <- spans_overlap_spec, not_true_iff_false in N1, N2, N3, N4, N5 by u64_lia.
    revert Hov. rewrite N1, N2, N3, N4, N5. unwrap. u64_lia. }
  repeat match goal with H : (_ || _)%bool = false |- _ => apply orb_false_elim in H; destruct H end.
  reflect_bools. unwrap_all.
  assert (Hin : startup_inputs_ok).
  { split; fold al; try (split_and!; done || lia); try done; try lia.
    - split; [u64_lia|done].
    - rewrite <- !spans_overlap_spec by u64_lia. split_and!; by apply not_true_iff_false. }
  wp_step; wp_step. wp_step; wp_step.
  set (L := mkGuestStartupLayout _ _ _ _ _ _ _).
  assert (Ztls : zlen (filled (span_size tls_backing) Byte.x00) = span_size tls_backing) by (by apply zlen_filled).
  assert (Zst : zlen (filled (span_size stack) Byte.x00) = span_size stack) by (by apply zlen_filled).
  apply wp_bind. apply wp_conseq with (E := fun e s => e <> "" /\ ~ startup_inputs_ok /\ unwritten s)
    (Q := fun _ s => exists t, s = mkStartupState L (filled (span_size stack) Byte.x00) t /\
      zlen t = span_size tls_backing /\
      region t 0 (span_bytes tls_initial ++ filled (span_size tls_backing - span_size tls_initial) Byte.x00));
    [|intros [] s (t & -> & Ht & Rt)|done].
  { apply wp_when; intros Hne; reflect_bools.
    - apply write_tls_wp; [lia|cbn; rewrite Ztls; unfold span_size in *; lia|]. cbn. intros k Hz Hr Hk.
      exists k. split; [done|]. split; [lia|]. apply region_app. split; [done|]. rewrite Z.add_0_l.
      apply Hk; [apply zlen_nonneg|right; lia|]. apply region_filled; unfold span_size in *; lia.
    - eexists. split; [reflexivity|]. split; [done|]. destruct (span_bytes tls_initial) as [|b r] eqn:Eb.
      + rewrite Hne, Z.sub_0_r. apply region_filled; lia.
      + unfold span_size, zlen in Hne. rewrite Eb in Hne. cbn in Hne. lia. }
  wp_step; wp_step. unwrap.
  assert (Zp : zlen (entry_params_bytes main_params) = 280) by (by apply zlen_entry_params).
  assert (Zz : zlen (@nil byte) = 0) by done.
  match goal with |- context [entry_params_bytes ?p] => change p with main_params end.
  wp_step. apply write_stack_wp; [lia|cbn; lia|]. cbn. intros k1 Hz1 R1 K1.
  wp_step. apply write_stack_wp; [lia|cbn; unfold span_size in *; lia|]. cbn. intros k2 Hz2 R2 K2.
  rewrite take16_params by done. cbn [argc padding argv hd main_params].
  set (head := le_bytes 4 1 ++ le_bytes 4 0 ++ le_bytes 8 (span_address stack + 1024)).
  assert (Zh : zlen head = 16) by (unfold head; rewrite !zlen_app, !zlen_le_bytes by lia; done).
  wp_step. apply write_stack_wp; [lia|cbn; lia|]. cbn. intros k3 Hz3 R3 K3.
  wp_step; wp_step. wp_step; wp_step.
  set (tcb := mkTcb _ _ _ _ _ _).
  assert (Zt : zlen (tcb_bytes tcb) = 56) by (by apply zlen_tcb).
  wp_step. apply write_tls_wp; [lia|cbn; lia|]. cbn. intros t1 Hzt1 T1 Kt1.
  set (dtv := le_bytes 8 1 ++ le_bytes 8 1 ++ le_bytes 8 (if tls_memory =? 0 then 0 else span_address tls_backing) ++ []).
  assert (Zd : zlen dtv = 24) by (unfold dtv; rewrite !zlen_app, !zlen_le_bytes by lia; done).
  wp_step. apply write_tls_wp; [lia|cbn; lia|]. cbn. intros t2 Hzt2 T2 Kt2. wp_step.
  split; [done|]. split; [done|]. split; [done|].
  assert (Hstack : zlen k3 = span_size stack) by lia. assert (Htls : zlen t2 = span_size tls_backing) by lia.
  apply region_app in Rt as [Rt1 Rt2]. rewrite Z.add_0_l in Rt2. fold (span_size tls_initial) in Rt2.
  assert (T1' : region t2 al (tcb_bytes tcb)) by (apply Kt2; [lia|left; lia|exact T1]).
  pose proof T1' as T1w. unfold tcb_bytes in T1w. rewrite !region_app, !zlen_le_bytes in T1w by lia.
  pose proof T2 as T2w. unfold dtv in T2w. rewrite !region_app, !zlen_le_bytes in T2w by lia.
  pose proof R3 as R3w. unfold head in R3w. rewrite !region_app, !zlen_le_bytes in R3w by lia.
  split; cbn.
  - done.
  - split; [done|]. apply K3; [lia|lia|]. apply K2; [lia|lia|]. exact R1.
  - apply region_app. fold (span_size argv0). split.
    + apply K3; [lia|unfold span_size in *; lia|]. exact R2.
    + change [Byte.x00] with (filled 1 Byte.x00).
      apply K3; [lia|rewrite zlen_filled by lia; lia|]. apply K2; [lia|right; unfold span_size; lia|].
      apply K1; [lia|right; lia|]. apply region_filled; lia.
  - split; [done|]. split; [apply aligned_sub; [done|rewrite H; done]|].
    replace (span_address stack + span_size stack - 24 - span_address stack) with (span_size stack - 24) by lia.
    split; apply (region_read k3); try (u64_lia || done); [apply R3w|].
    replace (span_size stack - 24 + 8) with (span_size stack - 24 + 4 + 4) by lia. apply R3w.
  - split; [done|]. apply region_app. fold (span_size tls_initial). rewrite Z.add_0_l. split.
    + apply Kt2; [lia|left; unfold span_size in *; lia|]. apply Kt1; [lia|left; unfold span_size in *; lia|]. exact Rt1.
    + apply Kt2; [lia|rewrite zlen_filled by lia; lia|]. apply Kt1; [lia|rewrite zlen_filled by lia; lia|].
      eapply region_shorter; [|exact Rt2]. lia.
  - unfold tcb_value, tcb_offset. fold al. split; [done|]. split; [by apply aligned_add|]. split; [lia|].
    split; [|split]; [apply (region_read t2); try u64_lia; apply T1w| |exact T1'].
    apply (region_read t2); try u64_lia. apply T1w.
  - unfold tcb_value, tcb_offset. fold al. split; [done|]. split; [|split].
    + apply (region_read t2); try u64_lia. apply T2w.
    + apply (region_read t2); try u64_lia. replace (al + 72) with (al + 64 + 8) by lia. apply T2w.
    + apply (region_read t2); try u64_lia; [case_match; u64_lia|].
      replace (al + 80) with (al + 64 + 8 + 8) by lia. apply T2w.
Qed.
End Spec.

(** C9. Preparing the startup data never writes outside the two backings. It succeeds
    exactly on well-formed inputs, and then the stack holds the entry parameters, the
    terminated argument and, at an initial stack pointer congruent to 8 modulo 16, the
    two words the entry sequence expects; the TLS block holds the template followed by
    zeroes, with the thread control block and its vector aligned behind it. Refused, it
    writes nothing. *)
Theorem PrepareGuestStartup_exact stack tls_backing tls_initial tls_memory tls_alignment entry argv0 :
  Forall is_u64 [span_address stack; span_address tls_backing; span_address tls_initial;
    span_address argv0; tls_memory; tls_alignment; entry] ->
  Forall (fun s => span_size s <= U64_MAX) [stack; tls_backing; tls_initial; argv0] ->
  exists s, PrepareGuestStartup stack tls_backing tls_initial tls_memory tls_alignment entry argv0 = Some s /\
    (st_valid (layout_ s) = true <->
       startup_inputs_ok stack tls_backing tls_initial tls_memory tls_alignment entry argv0) /\
    (st_valid (layout_ s) = true -> st_error (layout_ s) = "" /\
       startup_ready stack tls_backing tls_initial tls_memory entry argv0 s) /\
    (st_valid (layout_ s) = false -> st_error (layout_ s) <> "" /\
       stack_bytes s = span_bytes stack /\ tls_bytes s = span_bytes tls_backing).
Proof.
  intros Hu Hs. unfold PrepareGuestStartup. apply finish_wp.
  eapply wp_conseq; [by apply prepare_wp| |].
  - intros [] s (Hok & He & Hv & Hr). rewrite Hv. done.
  - intros e s (He & Hno & Hv & H1 & H2). cbn. rewrite Hv. done.
Qed.

(** * Page permissions *)

Section Pages.
Context (plan : GuestLoadPlan).

Definition first_page (s : GuestLoadSegment) : Z := (seg_address s - base plan) / 4096.
Definition last_page (s : GuestLoadSegment) : Z := (seg_address s - base plan + seg_memory_size s - 1) / 4096.
Definition on_page (s : GuestLoadSegment) (page : Z) : bool := (first_page s <=? page) && (page <=? last_page s).

(** The union of the permissions of the segments that touch a page. *)
Definition flags_of (l : list GuestLoadSegment) (page : Z) : Z :=
  fold_left (fun acc s => if on_page s page then Z.lor acc (seg_flags s) else acc) l 0.

Record page_segment_ok (s : GuestLoadSegment) : Prop := {
  pg_size : 0 < seg_memory_size s;
  pg_range : base plan <= seg_address s /\ seg_address s - base plan + seg_memory_size s <= image_size plan;
  pg_flags : Z.land (seg_flags s) (U32_MAX - 7) = 0 /\ Z.land (seg_flags s) 4 <> 0
}.

Record pages_acceptable : Prop := {
  pc_plan : plan_valid plan = true /\ 0 < image_size plan <= GuestImageLimit /\ image_size plan mod 4096 = 0 /\
    base plan + image_size plan <= U64_MAX;
  pc_segments : Forall page_segment_ok (segments plan);
  pc_pages : forall i, 0 <= i < image_size plan / 4096 -> Z.land (flags_of (segments plan) i) 3 <> 3
}.

Hypothesis Hplan : is_u64 (base plan) /\ is_u64 (image_size plan).
Hypothesis Hsegments : Forall (fun s => is_u64 (seg_address s) /\ is_u64 (seg_memory_size s) /\
  0 <= seg_flags s <= U32_MAX) (segments plan).

Lemma small_flags f : 0 <= f <= U32_MAX -> Z.land f (U32_MAX - 7) = 0 -> 0 <= f <= 7.
Proof.
  intros Hf Hl.
  assert (Hmask : U32_MAX - 7 = Z.land (Z.ones 32) (Z.lnot (Z.ones 3))) by (vm_compute; reflexivity).
  rewrite Hmask, Z.land_assoc, Z.land_ones in Hl by lia. change (2 ^ 32) with 4294967296 in Hl.
  rewrite (Z.mod_small f 4294967296) in Hl by u64_lia.
  rewrite <- Z.ldiff_land, Z.ldiff_ones_r, Z.shiftr_div_pow2, Z.shiftl_mul_pow2 in Hl by lia.
  change (2 ^ 3) with 8 in Hl. pose proof (Z.div_mod f 8). pose proof (Z.mod_pos_bound f 8). lia.
Qed.

Lemma low3 x : 0 <= x <= 7 -> Z.land x 7 = x.
Proof. intros Hx. change 7 with (Z.ones 3). rewrite Z.land_ones by lia. apply Z.mod_small. lia. Qed.

Lemma lor_small a b : 0 <= a <= 7 -> 0 <= b <= 7 -> 0 <= Z.lor a b <= 7.
Proof.
  intros Ha Hb. assert (H : Z.land (Z.lor a b) 7 = Z.lor a b) by (by rewrite Z.land_lor_distr_l, !low3).
  pose proof (Z.land_ones (Z.lor a b) 3 ltac:(lia)) as Ho. change (Z.ones 3) with 7 in Ho. rewrite H in Ho.
  change (2 ^ 3) with 8 in Ho. pose proof (Z.mod_pos_bound (Z.lor a b) 8 ltac:(lia)). lia.
Qed.

(** Once a page is both writable and executable, it stays so. *)
Lemma lor_wx a b : Z.land a 3 = 3 -> Z.land (Z.lor a b) 3 = 3.
Proof.
  intros Ha. rewrite Z.land_lor_distr_l, Ha. apply Z.bits_inj'. intros i Hi.
  rewrite Z.lor_spec, Z.land_spec. destruct (Z.testbit 3 i); [done|by rewrite andb_false_r].
Qed.

Lemma flags_of_snoc l s i : flags_of (l ++ [s]) i = if on_page s i then Z.lor (flags_of l i) (seg_flags s) else flags_of l i.
Proof. unfold flags_of. by rewrite fold_left_app. Qed.

Lemma flags_of_wx l k i : Z.land (flags_of l i) 3 = 3 -> Z.land (flags_of (l ++ k) i) 3 = 3.
Proof.
  revert l. induction k as [|s k IH]; intros l Hl; [by rewrite app_nil_r|].
  replace (l ++ s :: k) with ((l ++ [s]) ++ k) by (by rewrite <- app_assoc). apply IH.
  rewrite flags_of_snoc. destruct (on_page s i); [by apply lor_wx|done].
Qed.

Definition segment_small (s : GuestLoadSegment) : Prop := 0 <= seg_flags s <= 7.

Lemma flags_of_small l i : Forall segment_small l -> 0 <= flags_of l i <= 7.
Proof.
  intros Hl. unfold flags_of. cut (forall a, 0 <= a <= 7 ->
    0 <= fold_left (fun acc s => if on_page s i then Z.lor acc (seg_flags s) else acc) l a <= 7); [intros H; by apply H|].
  revert Hl. induction l as [|s l IH]; intros Hl a Ha; cbn; [done|]. apply Forall_cons in Hl as [Hs Hl].
  destruct (on_page s i); [|auto]. apply IH; [done|by apply lor_small].
Qed.

Let npages := image_size plan / 4096.

(** The pages after the segments of [l], and the first [k] pages of [s]. *)
Definition pages_done (l : list GuestLoadSegment) (pages : list Z) : Prop :=
  pages = List.map (flags_of l) (indices npages) /\
  forall i, 0 <= i < npages -> Z.land (flags_of l i) 3 <> 3.

Definition page_partial (l : list GuestLoadSegment) (s : GuestLoadSegment) (k : Z) (pages : list Z) : Prop :=
  zlen pages = npages /\
  forall i, 0 <= i < npages ->
    pages.[i] = Some (if i <? first_page s + k then flags_of (l ++ [s]) i else flags_of l i) /\
    (i < first_page s + k -> Z.land (flags_of (l ++ [s]) i) 3 <> 3).

Definition pages_rejected (e : string) (pages : list Z) : Prop := ~ pages_acceptable.

Lemma zlen_indices n : 0 <= n -> zlen (indices n) = n.
Proof. intros. unfold indices, zlen. rewrite length_fmap, length_seq. lia. Qed.

Lemma list_eq_at {A} (l k : list A) : zlen l = zlen k -> (forall i, 0 <= i < zlen l -> l.[i] = k.[i]) -> l = k.
Proof.
  intros Hz H. apply list_eq_same_length with (n := length l); [unfold zlen in Hz; lia|done|].
  intros i x y Hi Hx Hy. specialize (H (Z.of_nat i) ltac:(unfold zlen; lia)).
  rewrite !at_index_nat in H. congruence.
Qed.

Lemma page_step_wp l s post k pages :
  segments plan = l ++ s :: post -> Forall segment_small (l ++ [s]) -> page_segment_ok s ->
  0 <= k -> first_page s + k <= last_page s -> last_page s < npages -> page_partial l s k pages ->
  wp (page_step (seg_flags s) (first_page s + k)) (fun _ => page_partial l s (k + 1)) pages_rejected pages.
Proof.
  intros Hseg Hsm Hs Hk Hl Hn [Hz Hp]. unfold page_step.
  assert (H0 : 0 <= first_page s) by (apply Z.div_pos; [destruct (pg_range _ Hs)|]; lia).
  wp_step; wp_step. wp_step. apply wp_at_index; [unfold id; lia|]. intros old Hold. unfold id in Hold.
  destruct (Hp (first_page s + k) ltac:(lia)) as [Hat _]. rewrite Hat in Hold.
  rewrite (proj2 (Z.ltb_ge _ _)) in Hold by lia. injection Hold as <-.
  apply Forall_app in Hsm as [Hsl Hss]. apply Forall_cons in Hss as [Hss _]. unfold segment_small in Hss.
  pose proof (flags_of_small l (first_page s + k) Hsl) as Hfl.
  pose proof (lor_small _ _ Hfl Hss) as Hlor.
  assert (Hnew : wrap8 (Z.lor (flags_of l (first_page s + k)) (wrap8 (seg_flags s))) =
                 flags_of (l ++ [s]) (first_page s + k)).
  { rewrite flags_of_snoc. unfold on_page. rewrite (proj2 (Z.leb_le _ _)), (proj2 (Z.leb_le _ _)) by lia. cbn.
    unfold wrap8. rewrite (Z.mod_small (seg_flags s)) by lia. apply Z.mod_small. lia. }
  rewrite Hnew. wp_step; wp_step. wp_step; reflect_bools.
  - intros Hacc. destruct (pc_pages Hacc (first_page s + k) ltac:(lia)). rewrite Hseg.
    replace (l ++ s :: post) with ((l ++ [s]) ++ post) by (by rewrite <- app_assoc). by apply flags_of_wx.
  - split; [by rewrite insert_zlen|]. intros i Hi. rewrite insert_at by lia. destruct (Hp i Hi) as [Hi1 Hi2].
    case_decide as Heq; [subst i|].
    + rewrite (proj2 (Z.ltb_lt _ _)) by lia. split; [done|]. by intros _.
    + rewrite Hi1. split.
      * destruct (i <? first_page s + k) eqn:E1; destruct (i <? first_page s + (k + 1)) eqn:E2; try done; lia.
      * intros Hlt. apply Hi2. lia.
Qed.

Lemma page_segment_wp l s post pages :
  segments plan = l ++ s :: post -> Forall segment_small l ->
  0 < image_size plan <= GuestImageLimit -> image_size plan mod 4096 = 0 -> base plan + image_size plan <= U64_MAX ->
  pages_done l pages ->
  wp (page_segment plan s) (fun _ p => pages_done (l ++ [s]) p /\ Forall segment_small (l ++ [s]) /\ page_segment_ok s)
    pages_rejected pages.
Proof.
  intros Hseg Hsm Himg Hmod Hbase [Hp Hwx]. unfold page_segment.
  assert (Hu : is_u64 (seg_address s) /\ is_u64 (seg_memory_size s) /\ 0 <= seg_flags s <= U32_MAX).
  { rewrite Hseg in Hsegments. apply Forall_app in Hsegments as [_ H]. by apply Forall_cons in H as [? _]. }
  destruct Hu as (U1 & U2 & U3). destruct Hplan as [U4 U5].
  wp_step; apply wp_fail_if; intros Hf.
  { intros Hacc. pose proof (pc_segments Hacc) as Hs. rewrite Hseg in Hs. apply Forall_app in Hs as [_ Hs].
    apply Forall_cons in Hs as [[? [? ?] [Hf1 ?]] _]. revert Hf. rewrite Hf1. unwrap. lia. }
  repeat match goal with H : (_ || _)%bool = false |- _ => apply orb_false_elim in H; destruct H end.
  reflect_bools. unwrap_all.
  assert (Hs : page_segment_ok s) by (split; [u64_lia|lia|done]).
  assert (Hsm' : Forall segment_small (l ++ [s])).
  { apply Forall_app. split; [done|]. constructor; [|done]. by apply small_flags. }
  unfold GuestImageLimit in *. unwrap.
  change ((seg_address s - base plan) / 4096) with (first_page s).
  change ((seg_address s - base plan + seg_memory_size s - 1) / 4096) with (last_page s).
  assert (Hfp : 0 <= first_page s) by (apply Z.div_pos; lia).
  assert (Hfl : first_page s <= last_page s) by (apply Z.div_le_mono; [lia|]; pose proof (pg_size _ Hs); lia).
  assert (Hn : last_page s < npages).
  { unfold last_page, npages. apply Z.div_lt_upper_bound; [lia|].
    pose proof (Z.div_mod (image_size plan) 4096 ltac:(lia)). lia. }
  apply wp_forM with (Inv := fun pre p => page_partial l s (zlen pre) p).
  - split; [subst pages; unfold zlen; rewrite List.length_map; apply zlen_indices; lia|].
    intros i Hi. subst pages. rewrite map_at, indices_at by done. cbn. rewrite flags_of_snoc. unfold on_page.
    change (zlen []) with 0. rewrite Z.add_0_r. destruct (i <? first_page s) eqn:E.
    + rewrite (proj2 (Z.leb_gt _ _)) by lia. cbn. split; [done|]. intros _. by apply Hwx.
    + split; [done|lia].
  - intros pre x post' p Hx Hpp. unfold page_range in Hx.
    apply List.map_eq_app in Hx as (l1 & l2 & Hi & Hpre & Hx).
    symmetry in Hx. apply eq_sym, List.map_eq_cons in Hx as (j & l3 & -> & Hx & _).
    apply indices_split in Hi as (-> & Hi & _). subst x.
    assert (Hzz : zlen l1 = zlen pre) by (subst pre; unfold zlen; by rewrite List.length_map).
    rewrite Hzz in *. rewrite zlen_app. change (zlen [first_page s + zlen pre]) with 1.
    eapply page_step_wp; [exact Hseg|done|done|lia|lia|done|done].
  - intros p [Hz Hpp]. split; [|done].
    assert (Hlen : zlen (page_range (first_page s) (last_page s)) = last_page s - first_page s + 1).
    { unfold page_range, zlen. rewrite List.length_map. fold (zlen (indices (last_page s - first_page s + 1))).
      rewrite zlen_indices; lia. }
    rewrite Hlen in Hpp. replace (first_page s + (last_page s - first_page s + 1)) with (last_page s + 1) in Hpp by lia.
    assert (Hall : forall i, 0 <= i < npages -> p.[i] = Some (flags_of (l ++ [s]) i) /\ Z.land (flags_of (l ++ [s]) i) 3 <> 3).
    { intros i Hi. destruct (Hpp i Hi) as [H1' H2']. rewrite H1'. destruct (i <? last_page s + 1) eqn:E.
      - split; [done|]. apply H2'. lia.
      - rewrite flags_of_snoc. unfold on_page. rewrite (proj2 (Z.leb_gt i _)) by lia. rewrite andb_false_r.
        split; [done|by apply Hwx]. }
    split; [|intros i Hi; by apply Hall].
    apply list_eq_at.
    + rewrite Hz. unfold zlen. rewrite List.length_map. fold (zlen (indices npages)). rewrite zlen_indices; lia.
    + intros i Hi. rewrite Hz in Hi. rewrite map_at, indices_at by done. by apply Hall.
Qed.

Lemma page_flags_wp :
  wp (page_flags plan) (fun _ p => pages_acceptable /\ pages_done (segments plan) p /\ p <> []) pages_rejected [].
Proof.
  unfold page_flags. destruct Hplan as [U4 U5]. wp_step; apply wp_fail_if; intros Hf.
  { intros [(Hv & ? & ? & ?) _ _]. revert Hf. rewrite Hv. unwrap. lia. }
  repeat match goal with H : (_ || _)%bool = false |- _ => apply orb_false_elim in H; destruct H end.
  reflect_bools. unwrap_all.
  assert (Hn : 0 < npages).
  { unfold npages. apply Z.div_str_pos. pose proof (Z.div_mod (image_size plan) 4096). u64_lia. }
  wp_step; wp_step.
  apply wp_forM with (Inv := fun pre p => pages_done pre p /\ Forall segment_small pre /\ Forall page_segment_ok pre).
  - split; [|done]. split; [|by intros i _]. apply list_eq_at.
    + fold npages. rewrite zlen_filled by lia. unfold zlen. rewrite List.length_map. fold (zlen (indices npages)).
      rewrite zlen_indices; lia.
    + fold npages. intros i Hi. rewrite zlen_filled in Hi by lia. by rewrite filled_at, map_at, indices_at by lia.
  - intros pre s post p Hs (Hp & Hsm & Hok).
    eapply wp_conseq; [eapply page_segment_wp; [exact Hs|done|u64_lia|done|lia|done]| |done].
    intros [] p' (Hp' & Hsm' & Hs'). split; [done|]. split; [done|]. apply Forall_app. split; [done|by constructor].
  - intros p ([-> Hwx] & _ & Hok). split; [|split; [done|]].
    + split; [split_and!; u64_lia || done|done|done].
    + intros Hnil. apply (f_equal zlen) in Hnil. unfold zlen in Hnil. rewrite List.length_map in Hnil.
      fold (zlen (indices npages)) in Hnil. rewrite zlen_indices in Hnil by lia. cbn in Hnil. lia.
Qed.
End Pages.

(** The page plan is computed without leaving the page table. It is produced exactly
    for acceptable plans (segments in the image, with permissions, no page both writable
    and executable); then every page carries exactly the union of the permissions of the
    segments that touch it, and none is both writable and executable. *)
Theorem StartupPageFlags_exact plan :
  is_u64 (base plan) /\ is_u64 (image_size plan) ->
  Forall (fun s => is_u64 (seg_address s) /\ is_u64 (seg_memory_size s) /\ 0 <= seg_flags s <= U32_MAX)
    (segments plan) ->
  exists r, StartupPageFlags plan = Some r /\
    (r <> [] <-> pages_acceptable plan) /\
    (r <> [] -> r = List.map (flags_of plan (segments plan)) (indices (image_size plan / 4096)) /\
       forall i f, r.[i] = Some f -> Z.land f 3 <> 3).
Proof.
  intros Hp Hs. unfold StartupPageFlags. apply finish_wp.
  eapply wp_conseq; [by apply page_flags_wp| |].
  - intros [] r (Hok & [Hr Hwx] & Hne). split; [done|]. intros _. split; [exact Hr|]. intros i f Hf.
    rewrite Hr, map_at in Hf. pose proof Hf as Hf'. destruct ((indices (image_size plan / 4096)).[i]) as [j|] eqn:E; [|done].
    cbn in Hf'. injection Hf' as <-. apply Hwx. apply at_index_elem in E. by apply elem_of_indices in E.
  - intros e r Hno. split; [|done]. split; [done|]. intros Hok. by apply Hno in Hok.
Qed.

(** ** Concrete runs *)

Definition example_stack : Span := mkSpan 0x10000 (filled 131072 Byte.xff).
Definition example_tls : Span := mkSpan 0x100000 (filled 256 Byte.xff).
Definition example_template : Span := mkSpan 0x200000 [Byte.x01; Byte.x02; Byte.x03].
Definition example_argv0 : Span := mkSpan 0x300000 (text "eboot.bin").

Lemma PrepareGuestStartup_exact_witness :
  exists s, PrepareGuestStartup example_stack example_tls example_template 40 8 0x400100 example_argv0 = Some s /\
    startup_ready example_stack example_tls example_template 40 0x400100 example_argv0 s.
Proof.
  assert (Hu : Forall is_u64 [span_address example_stack; span_address example_tls; span_address example_template;
    span_address example_argv0; 40; 8; 0x400100]).
  { apply List.Forall_forall. intros x Hx. apply is_u64_dec. revert x Hx.
    apply (proj1 (forallb_forall (fun x => (0 <=? x) && (x <=? U64_MAX)) _)). vm_compute. reflexivity. }
  assert (Hz : Forall (fun s => span_size s <= U64_MAX) [example_stack; example_tls; example_template; example_argv0]).
  { apply List.Forall_forall. intros s Hx. apply Z.leb_le. revert s Hx.
    apply (proj1 (forallb_forall (fun s => span_size s <=? U64_MAX) _)). vm_compute. reflexivity. }
  destruct (PrepareGuestStartup_exact example_stack example_tls example_template 40 8 0x400100 example_argv0 Hu Hz)
    as (s & Hs & _ & Hok & _).
  exists s. split; [exact Hs|]. apply Hok.
  apply (checked_result (fun s => st_valid (layout_ s)) _ _ Hs). vm_compute. reflexivity.
Defined.

Definition example_plan : GuestLoadPlan :=
  mkGuestLoadPlan true true 0x400000 32768 0x100
    [mkGuestLoadSegment 0x100 0x400100 4 0x20 5 0 1; mkGuestLoadSegment 0x200 0x404200 4 0x40 6 1 1] "".

Lemma StartupPageFlags_exact_witness :
  StartupPageFlags example_plan = Some [5; 0; 0; 0; 6; 0; 0; 0] /\ pages_acceptable example_plan.
Proof.
  assert (Hp : is_u64 (base example_plan) /\ is_u64 (image_size example_plan))
    by (split; apply is_u64_dec; vm_compute; reflexivity).
  assert (Hs : Forall (fun s => is_u64 (seg_address s) /\ is_u64 (seg_memory_size s) /\ 0 <= seg_flags s <= U32_MAX)
    (segments example_plan)).
  { repeat constructor; unfold is_u64, U64_MAX, U32_MAX; cbn; lia. }
  assert (Hr : StartupPageFlags example_plan = Some [5; 0; 0; 0; 6; 0; 0; 0]) by (vm_compute; reflexivity).
  split; [exact Hr|].
  destruct (StartupPageFlags_exact example_plan Hp Hs) as (r & Hr' & Hok & _).
  apply Hok. rewrite Hr in Hr'. injection Hr' as <-. discriminate.
Defined.
