(* ===== verification/KernelClock.v ===== *)
(** The kernel clock services: src/src/core/uwp/kernel_clock.h.

    A clock is a tick frequency and the tick it counts from; [Read] converts the current
    tick for one of the three services. *)
From Stdlib Require Import ZArith Lia.
From stdpp Require Import base gmap list list_numbers strings.
From S2P Require Import Prelude.
From S2P Require Import ImportResolver.
From S2P Require Import GuestMemory.

(** [enum class KernelClockService]; any other value can be stored in it. *)
Definition Microseconds : Z := 0.
Definition Counter : Z := 1.
Definition Frequency : Z := 2.

Definition KernelClockNids : list (list Byte.byte) :=
  [text "4J2sUJmuHZQ"; text "fgxnMeTNUtY"; text "BNowx2l588E"].
Definition KernelClockKey (service : Z) : GuestImportKey :=
  match KernelClockNids.[service] with
  | None => empty_key
  | Some nid => mkGuestImportKey nid (text "libkernel") (text "libkernel") 1 1 1 2
  end.

Record KernelClock := mkKernelClock { frequency : Z; epoch : Z }.

Definition Valid (c : KernelClock) : bool := (0 <? frequency c) && (frequency c <=? U64_MAX / 1000000).

(** [Read]: [Some v] is [true] with [value] set to [v], [None] is [false]. *)
Definition Read (c : KernelClock) (now service : Z) : option Z :=
  if negb (Valid c) then None else
  if service =? Frequency then Some (frequency c) else
  if now <? epoch c then None else
  let ticks := now -64 epoch c in
  if service =? Counter then Some ticks else
  if negb (service =? Microseconds) then None else
  let seconds := ticks / frequency c in
  let fractional := ((ticks mod frequency c) *64 1000000) / frequency c in
  if (U64_MAX -64 fractional) / 1000000 <? seconds then None else
  Some (seconds *64 1000000 +64 fractional).

(** * The time of a clock *)

(** The microseconds in [ticks] ticks, rounded down. *)
Definition micros_of (frequency ticks : Z) : Z := ticks * 1000000 / frequency.

Section Micros.
Context (f t : Z).
Hypothesis Hf : 0 < f <= U64_MAX / 1000000.
Hypothesis Ht : is_u64 t.

Lemma micros_split : micros_of f t = t / f * 1000000 + (t mod f) * 1000000 / f.
Proof.
  unfold micros_of. rewrite <- Z.div_add_l by lia. f_equal.
  rewrite (Z.div_mod t f) at 1 by lia. ring.
Qed.

Lemma micros_fraction : 0 <= (t mod f) * 1000000 / f < 1000000.
Proof.
  pose proof (Z.mod_pos_bound t f ltac:(lia)). split; [apply Z.div_pos; nia|].
  apply Z.div_lt_upper_bound; nia.
Qed.

(** The multiplication by a million does not wrap. *)
Lemma micros_product : is_u64 ((t mod f) * 1000000).
Proof.
  pose proof (Z.mod_pos_bound t f ltac:(lia)).
  assert (U64_MAX / 1000000 * 1000000 <= U64_MAX) by (vm_compute; discriminate). u64_lia.
Qed.

Lemma micros_fits : (U64_MAX - (t mod f) * 1000000 / f) / 1000000 < t / f <-> U64_MAX < micros_of f t.
Proof.
  rewrite micros_split. pose proof micros_fraction as Hfr. revert Hfr.
  generalize ((t mod f) * 1000000 / f) (t / f). intros a b Ha.
  pose proof (Z.div_mod (U64_MAX - a) 1000000 ltac:(lia)).
  pose proof (Z.mod_pos_bound (U64_MAX - a) 1000000 ltac:(lia)). split; intros ?; nia.
Qed.
End Micros.

(** A clock reads its frequency at any time, the ticks since its epoch from the epoch
    on, and the microseconds since its epoch rounded down, exactly when that number fits in
    64 bits: no intermediate product wraps. It reads nothing before the epoch (but the
    frequency), for another service, or with a frequency of zero or above the budget. *)
Theorem Read_exact c now service :
  is_u64 (frequency c) -> is_u64 (epoch c) -> is_u64 now ->
  Read c now service =
    if decide (0 < frequency c <= U64_MAX / 1000000) then
      if decide (service = Frequency) then Some (frequency c)
      else if decide (now < epoch c) then None
      else if decide (service = Counter) then Some (now - epoch c)
      else if decide (service = Microseconds /\ micros_of (frequency c) (now - epoch c) <= U64_MAX)
      then Some (micros_of (frequency c) (now - epoch c)) else None
    else None.
Proof.
  intros Hf He Hn. unfold Read, Valid.
  destruct ((0 <? frequency c) && (frequency c <=? U64_MAX / 1000000)) eqn:Hv; reflect_bools;
    [rewrite decide_True by lia|by rewrite decide_False by lia]. cbn [negb].
  destruct (Z.eqb_spec service Frequency); [by rewrite decide_True|rewrite (decide_False (P := _ = Frequency)) by done].
  destruct (Z.ltb_spec now (epoch c)); [by rewrite decide_True|rewrite (decide_False (P := _ < _)) by lia].
  unwrap. destruct (Z.eqb_spec service Counter); [by rewrite decide_True|rewrite (decide_False (P := _ = Counter)) by done].
  destruct (Z.eqb_spec service Microseconds) as [Hm|Hm]; cbn [negb]; [|by rewrite decide_False by tauto].
  set (t := now - epoch c). assert (Ht : is_u64 t) by u64_lia. clearbody t.
  assert (Hr : 0 < frequency c <= U64_MAX / 1000000) by lia.
  rewrite (wrap64_small (t mod _ * _)) by by apply micros_product.
  pose proof (micros_fraction (frequency c) t Hr) as Hfr. pose proof (micros_fits (frequency c) t Hr) as Hfit.
  pose proof (micros_split (frequency c) t Hr) as Hsp.
  rewrite (wrap64_small (U64_MAX - _)) by u64_lia.
  destruct (Z.ltb_spec ((U64_MAX - t mod frequency c * 1000000 / frequency c) / 1000000) (t / frequency c)) as [Hlt|Hlt].
  - rewrite decide_False; [done|]. apply Hfit in Hlt. lia.
  - assert (Hle : micros_of (frequency c) t <= U64_MAX) by (destruct (Z.le_gt_cases (micros_of (frequency c) t) U64_MAX) as [|Hgt]; [done|apply Hfit in Hgt; lia]).
    rewrite decide_True by done. f_equal. assert (0 <= t / frequency c) by (apply Z.div_pos; u64_lia).
    rewrite Hsp in *. rewrite (wrap64_small (_ * _)) by u64_lia. apply wrap64_small. u64_lia.
Qed.

Lemma Read_exact_witness :
  Read (mkKernelClock 1593844360 5) 1593844360000005 Microseconds = Some 1000000000000 /\
  Read (mkKernelClock 1 0) 18446744073710 Microseconds = None.
Proof.
  split; (rewrite Read_exact; [|apply is_u64_dec; vm_compute; reflexivity..]); vm_compute; reflexivity.
Defined.
