(* ===== verification/Rtc.v ===== *)
(** The real-time clock library: src/src/core/libraries/rtc/rtc.cpp.

    Dates, ticks (microseconds since 0001-01-01) and the conversions between them. A pointer
    parameter is [None] when it is null and the pointee otherwise; a function returns its
    [int] and the pointees it may write. The kernel calls read the host clock, the time zone
    and the SDK version; their results are a [Kernel] record. *)
From Stdlib Require Import ZArith Lia.
From stdpp Require Import base gmap list list_numbers strings.
From S2P Require Import Prelude.

(** ** Data and constants (rtc.h, rtc_error.h) *)

Definition UNIX_EPOCH_TICKS : Z := 0xdcbffeff2bc000.
Definition WIN32_FILETIME_EPOCH_TICKS : Z := 0xb36168b6a58000.
Definition ORBIS_OK : Z := 0.
Definition ORBIS_RTC_ERROR_DATETIME_UNINITIALIZED : Z := s32 0x7FFEF9FE.
Definition ORBIS_RTC_ERROR_NOT_INITIALIZED : Z := s32 0x80B50001.
Definition ORBIS_RTC_ERROR_INVALID_POINTER : Z := s32 0x80B50002.
Definition ORBIS_RTC_ERROR_INVALID_VALUE : Z := s32 0x80B50003.
Definition ORBIS_RTC_ERROR_INVALID_YEAR : Z := s32 0x80B50008.
Definition ORBIS_RTC_ERROR_INVALID_MONTH : Z := s32 0x80B50009.
Definition ORBIS_RTC_ERROR_INVALID_DAY : Z := s32 0x80B5000A.
Definition ORBIS_RTC_ERROR_INVALID_HOUR : Z := s32 0x80B5000B.
Definition ORBIS_RTC_ERROR_INVALID_MINUTE : Z := s32 0x80B5000C.
Definition ORBIS_RTC_ERROR_INVALID_SECOND : Z := s32 0x80B5000D.
Definition ORBIS_RTC_ERROR_INVALID_MICROSECOND : Z := s32 0x80B5000E.

Record OrbisRtcDateTime := mkDateTime {
  year : Z; month : Z; day : Z; hour : Z; minute : Z; second : Z; microsecond : Z
}.
#[export] Instance eta_OrbisRtcDateTime : Eta OrbisRtcDateTime := fun t =>
  mkDateTime (year t) (month t) (day t) (hour t) (minute t) (second t) (microsecond t).
#[export] Instance OrbisRtcDateTime_eq_dec : EqDecision OrbisRtcDateTime.
Proof. solve_decision. Defined.

Record OrbisKernelTimezone := mkTimezone { tz_minuteswest : Z; tz_dsttime : Z }.
Record OrbisKernelTimespec := mkTimespec { tv_sec : Z; tv_nsec : Z }.

(** What the kernel calls answer: [sceKernelClockGettime], [sceKernelGettimezone] and
    [sceKernelGetCompiledSdkVersion], each with its return value. *)
Record Kernel := mkKernel {
  clock_gettime : Z * OrbisKernelTimespec;
  gettimezone : Z * OrbisKernelTimezone;
  compiled_sdk_version : Z * Z
}.

(** ** [std::chrono] calendar *)

(** [std::chrono::year(int)] holds a [short]. *)
Definition chrono_year (y : Z) : Z := s16 y.
Definition is_leap (y : Z) : bool := (y mod 4 =? 0) && (negb (y mod 100 =? 0) || (y mod 400 =? 0)).
(** [unsigned(year_month_day_last{y / m / last}.day())] *)
Definition last_day (y m : Z) : Z :=
  if m =? 2 then (if is_leap y then 29 else 28)
  else if (m =? 4) || (m =? 6) || (m =? 9) || (m =? 11) then 30 else 31.
(** Days before a month of a common year. *)
Definition month_starts : list Z := [0; 31; 59; 90; 120; 151; 181; 212; 243; 273; 304; 334].
(** Days from 0001-01-01 in the proleptic Gregorian calendar. *)
Definition civil_days (y m d : Z) : Z :=
  365 * (y - 1) + (y - 1) / 4 - (y - 1) / 100 + (y - 1) / 400 +
  default 0 (month_starts.[m - 1]) + (if (2 <? m) && is_leap y then 1 else 0) + (d - 1).
(** [sys_days] counts from 1970-01-01. *)
Definition sys_days (y m d : Z) : Z := civil_days y m d - 719162.
(** [weekday{sys_days}.c_encoding()]: 1970-01-01 was a Thursday. *)
Definition weekday (days : Z) : Z := (days + 4) mod 7.

(** ** Validity and calendar queries *)

Definition sceRtcCheckValid (pTime : option OrbisRtcDateTime) : Z :=
  match pTime with
  | None => ORBIS_RTC_ERROR_INVALID_POINTER
  | Some t =>
      if (year t =? 0) || (9999 <? year t) then ORBIS_RTC_ERROR_INVALID_YEAR
      else if (month t =? 0) || (12 <? month t) then ORBIS_RTC_ERROR_INVALID_MONTH
      else if day t =? 0 then ORBIS_RTC_ERROR_INVALID_DAY
      else if last_day (chrono_year (year t)) (month t) <? day t then ORBIS_RTC_ERROR_INVALID_DAY
      else if 24 <=? hour t then ORBIS_RTC_ERROR_INVALID_HOUR
      else if 60 <=? minute t then ORBIS_RTC_ERROR_INVALID_MINUTE
      else if 60 <=? second t then ORBIS_RTC_ERROR_INVALID_SECOND
      else if 1000000 <=? microsecond t then ORBIS_RTC_ERROR_INVALID_MICROSECOND
      else ORBIS_OK
  end.

Definition sceRtcCompareTick (pTick1 pTick2 : option Z) : Z :=
  match pTick1, pTick2 with
  | Some a, Some b => if a <=? b then 1 else 0
  | _, _ => ORBIS_RTC_ERROR_INVALID_POINTER
  end.

Definition sceRtcGetDaysInMonth (y m : Z) : Z :=
  if y <=? 0 then ORBIS_RTC_ERROR_INVALID_YEAR
  else if (m <=? 0) || (12 <? m) then ORBIS_RTC_ERROR_INVALID_MONTH
  else last_day (chrono_year y) m.

Definition sceRtcIsLeapYear (yearInt : Z) : Z :=
  if yearInt <? 1 then ORBIS_RTC_ERROR_INVALID_YEAR
  else if last_day (chrono_year yearInt) 2 =? 29 then 1 else 0.

(** The SDK version, 0 when the call fails. *)
Definition sdk_version (k : Kernel) : Z :=
  if fst (compiled_sdk_version k) =? ORBIS_OK then snd (compiled_sdk_version k) else 0.

Definition sceRtcGetDayOfWeek (k : Kernel) (y m d : Z) : Z :=
  if negb (sdk_version k <? 0x3000000) && ((9999 <? y) || (y <? 1)) then ORBIS_RTC_ERROR_INVALID_YEAR
  else if (sdk_version k <? 0x3000000) && (y <? 1) then ORBIS_RTC_ERROR_INVALID_YEAR
  else if (12 <? m) || (m <=? 0) then ORBIS_RTC_ERROR_INVALID_MONTH
  else
    let daysInMonth := sceRtcGetDaysInMonth y m in
    if (d <=? 0) || (daysInMonth <? d) then ORBIS_RTC_ERROR_INVALID_DAY
    else weekday (sys_days (chrono_year y) m d).

(** ** Dates and ticks *)

(** [sceRtcGetTick]: the code, [*pTime] (which the function changes) and [*pTick]; [None]
    where the behaviour is undefined. [minute * 60000000] and [second * 1000000] are products
    of two [int]s; [hour * 3600000000] is a [long]. *)
Definition sceRtcGetTick (pTime : option OrbisRtcDateTime) (pTick : option Z)
    : option (Z * option OrbisRtcDateTime * option Z) :=
  match pTime, pTick with
  | Some t, Some _ =>
      let isTimeValid := sceRtcCheckValid pTime in
      if negb (isTimeValid =? 0) then Some (isTimeValid, pTime, pTick) else
      let t := if 2 <? month t
               then t <| month := wrap16 (month t - 3) |>
               else t <| month := wrap16 (month t + 9) |> <| year := wrap16 (year t - 1) |> in
      let c := Z.quot (year t) 100 in
      let ya := year t - 100 * c in
      let days := wrap64 (Z.shiftr (146097 * c) 2 + Z.shiftr (1461 * ya) 2 +
                          Z.quot (153 * month t + 2) 5 + day t) in
      let days := days -64 307 in
      let days := days *64 86400000000 in
      minutes ← int_result (minute t * 60000000);
      seconds ← int_result (second t * 1000000);
      let msec := wrap64 (hour t * 3600000000 + minutes + seconds + microsecond t) in
      Some (ORBIS_OK, Some t, Some (days +64 msec))
  | _, _ => Some (ORBIS_RTC_ERROR_INVALID_POINTER, pTime, pTick)
  end.

(** The date of a tick, the body of [sceRtcSetTick]. *)
Definition date_of_tick (tick : Z) : OrbisRtcDateTime :=
  let days := tick / 86400000000 in
  let msec := tick mod 86400000000 in
  let days := days +64 307 in
  let j := wrap32 (wrap64 (Z.shiftl days 2) -64 1) in
  let ly := j / 146097 in
  let j := wrap32 (j - wrap32 (146097 * ly)) in
  let ld := Z.shiftr j 2 in
  let j := wrap32 (wrap32 (Z.shiftl ld 2) + 3) / 1461 in
  let ld := Z.shiftr (wrap32 (wrap32 (wrap32 (Z.shiftl ld 2) + 7) - wrap32 (1461 * j))) 2 in
  let lm := wrap32 (wrap32 (5 * ld) - 3) / 153 in
  let ld := wrap32 (wrap32 (wrap32 (5 * ld) + 2) - wrap32 (153 * lm)) / 5 in
  let ly := wrap32 (wrap32 (100 * ly) + j) in
  let '(lm, ly) := if lm <? 10 then (wrap32 (lm + 3), ly) else (wrap32 (lm - 9), wrap32 (ly + 1)) in
  let h := msec / 3600000000 in
  let msec := msec mod 3600000000 in
  let mi := msec / 60000000 in
  let msec := msec mod 60000000 in
  let se := msec / 1000000 in
  let msec := msec mod 1000000 in
  mkDateTime (wrap16 ly) (wrap16 lm) (wrap16 ld) (wrap16 h) (wrap16 mi) (wrap16 se) (wrap32 msec).

(** [sceRtcSetTick]: the code and [*pTime]. *)
Definition sceRtcSetTick (pTime : option OrbisRtcDateTime) (pTick : option Z) : Z * option OrbisRtcDateTime :=
  match pTime, pTick with
  | Some _, Some tick => (ORBIS_OK, Some (date_of_tick tick))
  | _, _ => (ORBIS_RTC_ERROR_INVALID_POINTER, pTime)
  end.

Definition sceRtcGetTickResolution : Z := 1000000.

(** ** Tick arithmetic *)

(** The common shape of the [sceRtcTickAdd] functions: [*pTick1 = amount + *pTick2]. The amounts
    are 64-bit; they are taken modulo 2^64, also where the product of a 64-bit count of minutes
    or seconds overflows, which C++ leaves undefined. *)
Definition tick_add (pTick1 pTick2 : option Z) (amount : Z) : Z * option Z :=
  match pTick1, pTick2 with
  | Some _, Some tick2 => (ORBIS_OK, Some (amount +64 tick2))
  | _, _ => (ORBIS_RTC_ERROR_INVALID_POINTER, pTick1)
  end.
Definition sceRtcTickAddDays (pTick1 pTick2 : option Z) (lAdd : Z) := tick_add pTick1 pTick2 (lAdd * 86400000000).
Definition sceRtcTickAddHours (pTick1 pTick2 : option Z) (lAdd : Z) := tick_add pTick1 pTick2 (lAdd * 3600000000).
Definition sceRtcTickAddMicroseconds (pTick1 pTick2 : option Z) (lAdd : Z) := tick_add pTick1 pTick2 lAdd.
Definition sceRtcTickAddMinutes (pTick1 pTick2 : option Z) (lAdd : Z) := tick_add pTick1 pTick2 (lAdd * 60000000).
Definition sceRtcTickAddSeconds (pTick1 pTick2 : option Z) (lAdd : Z) := tick_add pTick1 pTick2 (lAdd * 1000000).
Definition sceRtcTickAddTicks (pTick1 pTick2 : option Z) (lAdd : Z) := tick_add pTick1 pTick2 lAdd.
Definition sceRtcTickAddWeeks (pTick1 pTick2 : option Z) (lAdd : Z) := tick_add pTick1 pTick2 (lAdd * 604800000000).

(** [if (CheckValid(&time) == ORBIS_OK) GetTick(&time, pTick1); else return timeIsValid;] *)
Definition store_date (time : OrbisRtcDateTime) (pTick1 : option Z) : option (Z * option Z) :=
  let timeIsValid := sceRtcCheckValid (Some time) in
  if timeIsValid =? ORBIS_OK then '(_, _, pTick1) ← sceRtcGetTick (Some time) pTick1; Some (ORBIS_OK, pTick1)
  else Some (timeIsValid, pTick1).

(** [sceRtcTickAddMonths] starts from [*pTick1], whatever [*pTick2] is. *)
Definition sceRtcTickAddMonths (pTick1 pTick2 : option Z) (lAdd : Z) : option (Z * option Z) :=
  match pTick1, pTick2 with
  | Some tick1, Some tick2 =>
      if lAdd =? 0 then Some (ORBIS_OK, Some tick2) else
      let time := date_of_tick tick1 in
      let s := if 0 <=? lAdd then 1 else -1 in
      let time := time <| year ::= fun y => wrap16 (y + Z.quot lAdd 12) |> in
      let tempMonth := month time + Z.rem lAdd 12 - 1 in
      let '(tempMonth, time) :=
        if (11 <? tempMonth) || (tempMonth <? 0)
        then (tempMonth - s * 12, time <| year ::= fun y => wrap16 (y + s) |>)
        else (tempMonth, time) in
      let time := time <| month := wrap16 (tempMonth + 1) |> in
      let lastDay := last_day (chrono_year (year time)) (month time) in
      let time := if lastDay <? day time then time <| day := wrap16 lastDay |> else time in
      store_date time pTick1
  | _, _ => Some (ORBIS_RTC_ERROR_INVALID_POINTER, pTick1)
  end.

Definition sceRtcTickAddYears (pTick1 pTick2 : option Z) (lAdd : Z) : option (Z * option Z) :=
  match pTick1, pTick2 with
  | Some tick1, Some tick2 =>
      if lAdd =? 0 then Some (ORBIS_OK, Some tick2) else
      let time := (date_of_tick tick1) <| year ::= fun y => wrap16 (y + lAdd) |> in
      store_date time pTick1
  | _, _ => Some (ORBIS_RTC_ERROR_INVALID_POINTER, pTick1)
  end.

(** ** The host clock *)

(** [clocktime.tv_nsec / 1000 + clocktime.tv_sec * 1000000 + UNIX_EPOCH_TICKS] *)
Definition ticks_of (t : OrbisKernelTimespec) : Z :=
  wrap64 (Z.quot (tv_nsec t) 1000 + tv_sec t * 1000000 + UNIX_EPOCH_TICKS).

Definition sceRtcGetCurrentTick (k : Kernel) (pTick : option Z) : Z * option Z :=
  match pTick with
  | None => (ORBIS_RTC_ERROR_DATETIME_UNINITIALIZED, None)
  | Some _ =>
      let '(returnValue, clocktime) := clock_gettime k in
      (ORBIS_OK, if 0 <=? returnValue then Some (ticks_of clocktime) else pTick)
  end.

(** [sceRtcGetCurrentNetworkTick]; the Ad, Debug and Raw variants have the same body. *)
Definition sceRtcGetCurrentNetworkTick (k : Kernel) (pTick : option Z) : Z * option Z :=
  match pTick with
  | None => (ORBIS_RTC_ERROR_INVALID_POINTER, None)
  | Some _ =>
      let '(returnValue, clocktime) := clock_gettime k in
      if returnValue =? ORBIS_OK then (ORBIS_OK, Some (ticks_of clocktime))
      else (ORBIS_RTC_ERROR_NOT_INITIALIZED, pTick)
  end.
Definition sceRtcGetCurrentAdNetworkTick := sceRtcGetCurrentNetworkTick.
Definition sceRtcGetCurrentDebugNetworkTick := sceRtcGetCurrentNetworkTick.
Definition sceRtcGetCurrentRawNetworkTick := sceRtcGetCurrentNetworkTick.

Definition sceRtcGetCurrentClock (k : Kernel) (pTime : option OrbisRtcDateTime) (timeZone : Z)
    : Z * option OrbisRtcDateTime :=
  match pTime with
  | None => (ORBIS_RTC_ERROR_DATETIME_UNINITIALIZED, None)
  | Some _ =>
      let '(returnValue, clocktime) := clock_gettime k in
      if returnValue =? ORBIS_OK then
        let clockTick := Some (ticks_of clocktime) in
        let '(_, clockTick) := sceRtcTickAddMinutes clockTick clockTick timeZone in
        (returnValue, snd (sceRtcSetTick pTime clockTick))
      else (returnValue, pTime)
  end.

(** [-(timeZone.tz_minuteswest - (timeZone.tz_dsttime * 60))] *)
Definition local_offset (tz : OrbisKernelTimezone) : Z := - (tz_minuteswest tz - tz_dsttime tz * 60).

(** [stack] is the value of the local [newTick] before the clock is read. *)
Definition sceRtcGetCurrentClockLocalTime (k : Kernel) (stack : Z) (pTime : option OrbisRtcDateTime)
    : Z * option OrbisRtcDateTime :=
  match pTime with
  | None => (ORBIS_RTC_ERROR_DATETIME_UNINITIALIZED, None)
  | Some _ =>
      let '(returnValue, timeZone) := gettimezone k in
      if 0 <=? returnValue then
        let tzOffset := wrap64 (local_offset timeZone) in
        let '(_, newTick) := sceRtcGetCurrentTick k (Some stack) in
        let '(_, newTick) := sceRtcTickAddMinutes newTick newTick (s64 tzOffset) in
        (returnValue, snd (sceRtcSetTick pTime newTick))
      else (returnValue, pTime)
  end.

(** [sceKernelConvertLocaltimeToUtc] with a time zone and without [dst_seconds]: its value and
    the time zone. *)
Definition sceKernelConvertLocaltimeToUtc (k : Kernel) : Z * OrbisKernelTimezone := (ORBIS_OK, snd (gettimezone k)).

(** The code and [*pTickUtc]. *)
Definition sceRtcConvertLocalTimeToUtc (k : Kernel) (pTickLocal pTickUtc : option Z) : Z * option Z :=
  match pTickLocal with
  | None => (ORBIS_RTC_ERROR_INVALID_POINTER, pTickUtc)
  | Some _ =>
      let '(convertValue, timezone) := sceKernelConvertLocaltimeToUtc k in
      if 0 <=? convertValue
      then sceRtcTickAddMinutes pTickUtc pTickLocal (- (tz_dsttime timezone * 60 - tz_minuteswest timezone))
      else (convertValue, pTickUtc)
  end.

(** The code and [*pTickLocal]. *)
Definition sceRtcConvertUtcToLocalTime (k : Kernel) (pTickUtc pTickLocal : option Z) : Z * option Z :=
  match pTickUtc with
  | None => (ORBIS_RTC_ERROR_INVALID_POINTER, pTickLocal)
  | Some _ => (0, snd (sceRtcTickAddMinutes pTickLocal pTickUtc (local_offset (snd (gettimezone k)))))
  end.

(** [posix_clock_settime] and [sceKernelSettimeofday] are stubs that answer [ORBIS_OK]. *)
Definition posix_clock_settime (clock_id : Z) (tp : option OrbisKernelTimespec) : Z := ORBIS_OK.
Definition sceKernelSettimeofday (tv : option (Z * Z)) (tz : option OrbisKernelTimezone) : Z := ORBIS_OK.

(** [sceRtcSetCurrentNetworkTick] and its Ad and Debug variants read [*pTick] first: [None]
    is the dereference of a null pointer. The code of a failed [posix_clock_settime] is
    [errno] as an Orbis error, [errno_error]. *)
Definition set_network_tick (clock_id errno_error : Z) (pTick : option Z) : option Z :=
  tick ← pTick;
  Some (
    if tick <=? UNIX_EPOCH_TICKS then ORBIS_RTC_ERROR_INVALID_VALUE else
    let temp := tick -64 UNIX_EPOCH_TICKS in
    let ret := posix_clock_settime clock_id (Some (mkTimespec (temp / 1000000) (temp mod 1000000))) in
    if ret <? 0 then errno_error else ret).
Definition sceRtcSetCurrentNetworkTick := set_network_tick 0x10.
Definition sceRtcSetCurrentDebugNetworkTick := set_network_tick 0x11.
Definition sceRtcSetCurrentAdNetworkTick := set_network_tick 0x12.

Definition sceRtcSetCurrentTick (pTick : option Z) : Z :=
  match pTick with
  | None => ORBIS_RTC_ERROR_INVALID_POINTER
  | Some tick =>
      if tick <=? UNIX_EPOCH_TICKS then ORBIS_RTC_ERROR_INVALID_VALUE else
      let temp := s64 (tick -64 UNIX_EPOCH_TICKS) in
      sceKernelSettimeofday (Some (Z.quot temp 1000000, Z.rem temp 1000000)) None
  end.

(** ** Other time formats *)

(** The code and [*dosTime], into which the fields are or-ed. *)
Definition sceRtcGetDosTime (pTime : option OrbisRtcDateTime) (dosTime : option Z) : Z * option Z :=
  match pTime, dosTime with
  | Some t, Some old =>
      let isValid := sceRtcCheckValid pTime in
      if negb (isValid =? ORBIS_OK) then (isValid, dosTime) else
      let dos := Z.lor old (Z.land (Z.quot (second t) 2) 0x1F) in
      let dos := Z.lor dos (Z.shiftl (Z.land (minute t) 0x3F) 5) in
      let dos := Z.lor dos (Z.shiftl (Z.land (hour t) 0x1F) 11) in
      let dos := Z.lor dos (Z.shiftl (Z.land (day t) 0x1F) 16) in
      let dos := Z.lor dos (Z.shiftl (Z.land (month t) 0x0F) 21) in
      let dos := Z.lor dos (Z.shiftl (Z.land (year t - 1980) 0x7F) 25) in
      (ORBIS_OK, Some (wrap32 dos))
  | _, _ => (ORBIS_RTC_ERROR_INVALID_POINTER, dosTime)
  end.

Definition sceRtcSetDosTime (pTime : option OrbisRtcDateTime) (dosTime : Z) : Z * option OrbisRtcDateTime :=
  match pTime with
  | None => (ORBIS_RTC_ERROR_INVALID_POINTER, None)
  | Some _ =>
      let days := s16 (Z.shiftr dosTime 16) in
      (ORBIS_OK, Some (mkDateTime
         (wrap16 (Z.shiftr days 9 + 1980))
         (Z.land (Z.shiftr days 5) 0x0f)
         (Z.land days 0x1f)
         (Z.shiftr (Z.land dosTime 0xf800) 11)
         (Z.land (Z.shiftr dosTime 5) 0x3f)
         (Z.land (wrap32 (Z.shiftl dosTime 1)) 0x3e)
         0))
  end.

(** The code, [*pTime] (changed by [sceRtcGetTick]) and [*llTime]. [stack] is the value of the
    local [timeTick] before the call. *)
Definition sceRtcGetTime_t (stack : Z) (pTime : option OrbisRtcDateTime) (llTime : option Z)
    : option (Z * option OrbisRtcDateTime * option Z) :=
  match pTime, llTime with
  | Some _, Some _ =>
      let isValid := sceRtcCheckValid pTime in
      if negb (isValid =? ORBIS_OK) then Some (isValid, pTime, llTime) else
      '(_, pTime, timeTick) ← sceRtcGetTick pTime (Some stack);
      let tick := default stack timeTick in
      Some (ORBIS_OK, pTime,
       Some (if tick <? UNIX_EPOCH_TICKS then 0 else (tick -64 UNIX_EPOCH_TICKS) / 1000000))
  | _, _ => Some (ORBIS_RTC_ERROR_INVALID_POINTER, pTime, llTime)
  end.

Definition sceRtcGetWin32FileTime (stack : Z) (pTime : option OrbisRtcDateTime) (ulWin32Time : option Z)
    : option (Z * option OrbisRtcDateTime * option Z) :=
  match pTime, ulWin32Time with
  | Some _, Some _ =>
      let isValid := sceRtcCheckValid pTime in
      if negb (isValid =? ORBIS_OK) then Some (isValid, pTime, ulWin32Time) else
      '(_, pTime, timeTick) ← sceRtcGetTick pTime (Some stack);
      let tick := default stack timeTick in
      Some (ORBIS_OK, pTime,
       Some (if tick <? WIN32_FILETIME_EPOCH_TICKS then 0 else (tick -64 WIN32_FILETIME_EPOCH_TICKS) *64 10))
  | _, _ => Some (ORBIS_RTC_ERROR_INVALID_POINTER, pTime, ulWin32Time)
  end.

Definition sceRtcSetTime_t (k : Kernel) (pTime : option OrbisRtcDateTime) (llTime : Z)
    : Z * option OrbisRtcDateTime :=
  match pTime with
  | None => (ORBIS_RTC_ERROR_INVALID_POINTER, None)
  | Some _ =>
      if negb (sdk_version k <? 0x3000000) && (llTime <? 0) then (ORBIS_RTC_ERROR_INVALID_VALUE, pTime) else
      let newTick := wrap64 ((if sdk_version k <? 0x3000000 then Z.land llTime 0xffffffff else llTime) * 1000000) in
      let newTick := newTick +64 UNIX_EPOCH_TICKS in
      (ORBIS_OK, snd (sceRtcSetTick pTime (Some newTick)))
  end.

Definition sceRtcSetWin32FileTime (pTime : option OrbisRtcDateTime) (ulWin32Time : Z) : Z * option OrbisRtcDateTime :=
  match pTime with
  | None => (ORBIS_RTC_ERROR_INVALID_POINTER, None)
  | Some _ =>
      let convertedTime := wrap64 (Z.quot ulWin32Time 10 + WIN32_FILETIME_EPOCH_TICKS) in
      (ORBIS_OK, snd (sceRtcSetTick pTime (Some convertedTime)))
  end.
#[local] Ltac Zify.zify_post_hook ::= Z.to_euclidean_division_equations.

(** * The calendar

    Years that start in March: the leap day is the last day of the year. *)

Definition march_days (c ya m d : Z) : Z := (146097 * c) / 4 + (1461 * ya) / 4 + (153 * m + 2) / 5 + d.

(** The last day of month [m] (0 is March) of the year [100 * c + ya]. *)
Definition march_last (c ya m : Z) : Z :=
  if m =? 11 then (if is_leap (100 * c + ya + 1) then 29 else 28)
  else (153 * (m + 1) + 2) / 5 - (153 * m + 2) / 5.

Record march_ok (c ya m d : Z) : Prop := {
  mo_century : 0 <= c;
  mo_year : 0 <= ya <= 99;
  mo_month : 0 <= m <= 11;
  mo_day : 1 <= d <= march_last c ya m
}.

(** The steps of [sceRtcSetTick] from the days, without the widths. *)
Definition decode (n : Z) : Z * Z * Z * Z :=
  let c := (4 * n - 1) / 146097 in
  let ld := (4 * n - 1 - 146097 * c) / 4 in
  let j := (4 * ld + 3) / 1461 in
  let ld := (4 * ld + 7 - 1461 * j) / 4 in
  let lm := (5 * ld - 3) / 153 in
  (c, j, lm, (5 * ld + 2 - 153 * lm) / 5).

Lemma leap_parts c ya : 0 <= c -> 0 <= ya <= 99 ->
  ((100 * c + ya + 1) mod 4 = 0 <-> ya mod 4 = 3) /\
  ((100 * c + ya + 1) mod 100 = 0 <-> ya = 99) /\
  (ya = 99 -> ((100 * c + ya + 1) mod 400 = 0 <-> c mod 4 = 3)).
Proof.
  intros Hc Hy. split; [|split].
  - replace (100 * c + ya + 1) with (ya + 1 + 25 * c * 4) by ring. rewrite Z.mod_add by done. lia.
  - replace (100 * c + ya + 1) with (ya + 1 + c * 100) by ring. rewrite Z.mod_add by done.
    destruct (decide (ya = 99)) as [->|]; [done|]. rewrite Z.mod_small; lia.
  - intros ->. replace (100 * c + 99 + 1) with ((c + 1) * 100) by ring.
    change 400 with (4 * 100). rewrite Z.mul_mod_distr_r by done. lia.
Qed.

(** A century has a leap day in its last year only when it is the fourth of a cycle. *)
Lemma leap_march c ya : 0 <= c -> 0 <= ya <= 99 ->
  is_leap (100 * c + ya + 1) = true -> ya mod 4 = 3 /\ (ya = 99 -> c mod 4 = 3).
Proof.
  intros Hc Hy H. pose proof (leap_parts c ya Hc Hy) as (H4 & H1 & H2). unfold is_leap in H.
  apply andb_prop in H as [Ha Hb]. apply orb_prop in Hb. split; [apply H4; lia|]. intros ->.
  destruct Hb as [Hb|Hb]; [|apply H2; lia]. apply negb_true_iff in Hb. lia.
Qed.

Lemma leap_march_inv c ya : 0 <= c -> 0 <= ya <= 99 ->
  ya mod 4 = 3 -> (ya = 99 -> c mod 4 = 3) -> is_leap (100 * c + ya + 1) = true.
Proof.
  intros Hc Hy Ha Hb. pose proof (leap_parts c ya Hc Hy) as (H4 & H1 & H2). unfold is_leap.
  apply andb_true_intro. split; [apply Z.eqb_eq, H4, Ha|]. apply orb_true_intro.
  destruct (decide (ya = 99)) as [->|]; [right; apply Z.eqb_eq, H2; auto|].
  left. apply negb_true_iff, Z.eqb_neq. rewrite H1. lia.
Qed.

(** The bounds on the day of the year and the day of the century. *)
Lemma march_month c ya m d : march_ok c ya m d ->
  let e := (153 * m + 2) / 5 + d in
  1 <= e <= 366 /\ (e = 366 -> ya mod 4 = 3 /\ (ya = 99 -> c mod 4 = 3)) /\
  (5 * e - 3) / 153 = m /\ (5 * e + 2 - 153 * m) / 5 = d.
Proof.
  intros [Hc Hy Hm Hd]. unfold march_last in Hd. pose proof (leap_march c ya Hc Hy) as Hl.
  destruct (is_leap (100 * c + ya + 1)); destruct (Z.eqb_spec m 11); cbn; (split_and!; [lia|lia| |lia|lia]);
    intros; try lia; destruct (Hl eq_refl); lia.
Qed.

Lemma march_decode c ya m d : march_ok c ya m d -> decode (march_days c ya m d) = (c, ya, m, d).
Proof.
  intros H. pose proof (march_month _ _ _ _ H) as (He & Hl & Hm & Hd). destruct H as [Hc Hy _ _].
  unfold march_days. rewrite <- Z.add_assoc. revert He Hl Hm Hd. generalize ((153 * m + 2) / 5 + d). intros e He Hl Hm Hd.
  unfold decode.
  assert (H1 : (4 * ((146097 * c) / 4 + (1461 * ya) / 4 + e) - 1) / 146097 = c) by lia.
  rewrite H1.
  assert (H2 : (4 * ((146097 * c) / 4 + (1461 * ya) / 4 + e) - 1 - 146097 * c) / 4 = (1461 * ya) / 4 + e - 1) by lia.
  rewrite H2.
  assert (H3 : (4 * ((1461 * ya) / 4 + e - 1) + 3) / 1461 = ya) by lia. rewrite H3.
  assert (H4 : (4 * ((1461 * ya) / 4 + e - 1) + 7 - 1461 * ya) / 4 = e) by lia. rewrite H4.
  by rewrite Hm, Hd.
Qed.

Lemma march_encode n c ya m d : 1 <= n -> decode n = (c, ya, m, d) ->
  march_ok c ya m d /\ march_days c ya m d = n.
Proof.
  intros Hn H. unfold decode in H.
  remember ((4 * n - 1) / 146097) as c0 eqn:Ec.
  remember ((4 * n - 1 - 146097 * c0) / 4) as ld eqn:El.
  remember ((4 * ld + 3) / 1461) as ya0 eqn:Ey.
  remember ((4 * ld + 7 - 1461 * ya0) / 4) as e eqn:Ee.
  remember ((5 * e - 3) / 153) as m0 eqn:Em.
  injection H as <- <- <- <-.
  assert (Hld : 0 <= ld <= 36524) by lia.
  assert (Hld4 : ld = 36524 -> c0 mod 4 = 3) by lia.
  assert (H1 : n = (146097 * c0) / 4 + ld + 1) by lia.
  assert (Hya : 0 <= ya0 <= 99) by lia.
  assert (H2 : ld + 1 = (1461 * ya0) / 4 + e) by lia.
  assert (He : 1 <= e <= 366) by lia.
  assert (He4 : e = 366 -> ya0 mod 4 = 3 /\ (ya0 = 99 -> c0 mod 4 = 3)) by lia.
  assert (Hm0 : 0 <= m0 <= 11) by lia.
  split; [|unfold march_days; lia]. split; [lia..|]. unfold march_last.
  destruct (Z.eqb_spec m0 11); [|lia].
  destruct (is_leap (100 * c0 + ya0 + 1)) eqn:Hleap; [lia|].
  assert (e <> 366); [|lia]. intros ->. destruct He4 as [H3 H4]; [done|].
  rewrite leap_march_inv in Hleap; [done|lia..|exact H4].
Qed.

(** ** Valid dates *)

Record date_ok (t : OrbisRtcDateTime) : Prop := {
  do_year : 1 <= year t <= 9999;
  do_month : 1 <= month t <= 12;
  do_day : 1 <= day t <= last_day (year t) (month t);
  do_hour : 0 <= hour t < 24;
  do_minute : 0 <= minute t < 60;
  do_second : 0 <= second t < 60;
  do_microsecond : 0 <= microsecond t < 1000000
}.

(** The fields hold unsigned values. *)
Definition date_unsigned (t : OrbisRtcDateTime) : Prop :=
  Forall (fun x => 0 <= x) [year t; month t; day t; hour t; minute t; second t; microsecond t].

Lemma date_ok_unsigned t : date_ok t -> date_unsigned t.
Proof. intros []. unfold date_unsigned. repeat constructor; lia. Qed.

Lemma check_valid_ok t : date_unsigned t -> sceRtcCheckValid (Some t) = ORBIS_OK <-> date_ok t.
Proof.
  intros Hu. unfold date_unsigned in Hu. repeat (apply Forall_cons in Hu as [? Hu]). unfold sceRtcCheckValid, chrono_year.
  repeat match goal with |- context [if ?c then _ else _] => destruct c eqn:? end; reflect_bools;
    (split; intros Ht; [try (vm_compute in Ht; discriminate Ht)|
       try (exfalso; destruct Ht; rewrite ?s16_small in * by lia; lia); try reflexivity]).
  rewrite s16_small in * by lia. split; lia.
Qed.

(** The microseconds of the day. *)
Definition time_of_day (t : OrbisRtcDateTime) : Z :=
  hour t * 3600000000 + minute t * 60000000 + second t * 1000000 + microsecond t.
(** The microseconds from 0001-01-01 to a date. *)
Definition ticks (t : OrbisRtcDateTime) : Z := civil_days (year t) (month t) (day t) * 86400000000 + time_of_day t.

(** 10000-01-01. *)
Definition end_of_days : Z := 3652059.
Definition end_of_ticks : Z := end_of_days * 86400000000.

Lemma time_of_day_bounds t : date_ok t -> 0 <= time_of_day t < 86400000000.
Proof. intros []. unfold time_of_day. lia. Qed.

(** ** March years and civil years *)

Definition march_year (y m : Z) : Z := if 2 <? m then y else y - 1.
Definition march_month_of (m : Z) : Z := if 2 <? m then m - 3 else m + 9.

Ltac month_cases m :=
  let H := fresh in
  assert (H : m = 1 \/ m = 2 \/ m = 3 \/ m = 4 \/ m = 5 \/ m = 6 \/ m = 7 \/ m = 8 \/ m = 9 \/ m = 10 \/
    m = 11 \/ m = 12) by lia;
  repeat destruct H as [->|H]; [..|subst m].

Lemma is_leap_parts y : is_leap y = true <-> y mod 4 = 0 /\ (y mod 100 <> 0 \/ y mod 400 = 0).
Proof. unfold is_leap. lia. Qed.

(** The leap days up to a year. *)
Definition leaps (y : Z) : Z := y / 4 - y / 100 + y / 400.
Lemma leaps_step y : leaps y = leaps (y - 1) + (if is_leap y then 1 else 0).
Proof.
  unfold leaps. assert (H : forall k, 0 < k -> y / k = (y - 1) / k + (if y mod k =? 0 then 1 else 0)).
  { intros k Hk. destruct (Z.eqb_spec (y mod k) 0); nia. }
  rewrite !H by lia. unfold is_leap.
  destruct (Z.eqb_spec (y mod 4) 0), (Z.eqb_spec (y mod 100) 0), (Z.eqb_spec (y mod 400) 0); cbn; lia.
Qed.

Lemma march_leaps y : 0 <= y -> (146097 * (y / 100)) / 4 + (1461 * (y mod 100)) / 4 = 365 * y + leaps y.
Proof.
  intros Hy. unfold leaps.
  pose proof (Z.div_mod y 100 ltac:(done)) as Hd. pose proof (Z.mod_pos_bound y 100 ltac:(done)) as Hm.
  revert Hd Hm. generalize (y / 100) (y mod 100). intros c ya Hd Hm.
  assert (H4 : y / 4 = 25 * c + ya / 4) by lia. assert (H400 : y / 400 = c / 4) by lia. lia.
Qed.

Lemma civil_march y m d : 1 <= y -> 1 <= m <= 12 ->
  march_days (march_year y m / 100) (march_year y m mod 100) (march_month_of m) d - 307 = civil_days y m d.
Proof.
  intros Hy Hm. unfold march_days, civil_days. rewrite march_leaps by (unfold march_year; destruct (2 <? m); lia).
  pose proof (leaps_step y) as Hl. unfold march_year, march_month_of.
  assert (Hc : forall s, 365 * (y - 1) + (y - 1) / 4 - (y - 1) / 100 + (y - 1) / 400 + s = 365 * (y - 1) + leaps (y - 1) + s)
    by (intros; unfold leaps; lia).
  rewrite <- !Z.add_assoc, !Z.add_assoc, Hc. revert Hl. clear Hc.
  month_cases m; cbn [Z.ltb Z.compare Pos.compare Pos.compare_cont andb]; generalize (leaps y) (leaps (y - 1));
    intros l1 l2 Hl; destruct (is_leap y); vm_compute (default _ _); lia.
Qed.

Lemma last_day_march y m : 1 <= y -> 1 <= m <= 12 ->
  march_last (march_year y m / 100) (march_year y m mod 100) (march_month_of m) = last_day y m.
Proof.
  intros Hy Hm. unfold march_last, last_day.
  pose proof (Z.div_mod (march_year y m) 100 ltac:(done)) as Hd. rewrite <- Hd. unfold march_year, march_month_of in *.
  month_cases m; cbn [Z.ltb Z.compare Pos.compare Pos.compare_cont] in *; try (vm_compute; reflexivity).
  replace (y - 1 + 1) with y by lia. by destruct (is_leap y).
Qed.

Lemma date_march t : date_ok t ->
  march_ok (march_year (year t) (month t) / 100) (march_year (year t) (month t) mod 100)
    (march_month_of (month t)) (day t).
Proof.
  intros [Hy Hm Hd _ _ _ _]. split.
  - unfold march_year. destruct (2 <? month t); lia.
  - lia.
  - unfold march_month_of. destruct (Z.ltb_spec 2 (month t)); lia.
  - by rewrite last_day_march by lia.
Qed.

(** A day of the year: 365 or 366 of them. *)
Lemma year_day_bounds y m d : 1 <= m <= 12 -> 1 <= d <= last_day y m ->
  0 <= default 0 (month_starts.[m - 1]) + (if (2 <? m) && is_leap y then 1 else 0) + (d - 1) <
    (if is_leap y then 366 else 365).
Proof.
  intros Hm Hd. unfold last_day in Hd. destruct (is_leap y);
  month_cases m; cbn in Hd; cbn [Z.ltb Z.compare Pos.compare Pos.compare_cont andb]; vm_compute (default _ _); lia.
Qed.

Lemma civil_days_mono_year y m d : 1 <= y <= 9999 -> 1 <= m <= 12 -> 1 <= d <= last_day y m ->
  0 <= civil_days y m d < end_of_days.
Proof.
  intros Hy Hm Hd. unfold civil_days, end_of_days. pose proof (year_day_bounds y m d Hm Hd) as H.
  assert (Hl : is_leap y = true -> y mod 4 = 0) by (unfold is_leap; lia).
  destruct (is_leap y); lia.
Qed.

Lemma ticks_bounds t : date_ok t -> 0 <= ticks t < end_of_ticks.
Proof.
  intros H. pose proof (time_of_day_bounds t H). destruct H as [Hy Hm Hd _ _ _ _].
  pose proof (civil_days_mono_year _ _ _ Hy Hm Hd). unfold ticks, end_of_ticks. lia.
Qed.

(** ** [sceRtcGetTick] and [sceRtcSetTick] *)

(** What [sceRtcGetTick] leaves in [*pTime]. *)
Definition march_date (t : OrbisRtcDateTime) : OrbisRtcDateTime :=
  mkDateTime (march_year (year t) (month t)) (march_month_of (month t)) (day t) (hour t) (minute t) (second t)
    (microsecond t).

Lemma get_tick_spec t old : date_ok t ->
  sceRtcGetTick (Some t) (Some old) =
    if minute t <? 36 then Some (ORBIS_OK, Some (march_date t), Some (ticks t)) else None.
Proof.
  intros H. pose proof (check_valid_ok t (date_ok_unsigned t H)) as Hv. unfold sceRtcGetTick.
  rewrite (proj2 Hv H). cbn [negb Z.eqb ORBIS_OK].
  pose proof (ticks_bounds t H) as Hb. pose proof (time_of_day_bounds t H) as Ht. pose proof (date_march t H) as Hm.
  destruct H as [Hy Hmo Hd Hh Hmi Hs Hu].
  set (t' := if 2 <? month t then _ else _). assert (E : t' = march_date t).
  { unfold t', march_date, march_year, march_month_of. destruct (Z.ltb_spec 2 (month t)); cbn;
      repeat (rewrite wrap16_small by u64_lia); reflexivity. }
  rewrite E. cbn [year month day hour minute second microsecond march_date]. clear t' E.
  assert (H0 : 0 <= march_year (year t) (month t)) by (unfold march_year; destruct (2 <? month t); lia).
  rewrite Z.quot_div_nonneg by lia. rewrite !Z.shiftr_div_pow2 by lia. change (2 ^ 2) with 4.
  replace (march_year (year t) (month t) - 100 * (march_year (year t) (month t) / 100)) with
    (march_year (year t) (month t) mod 100) by (rewrite Z.mod_eq; lia).
  pose proof (mo_month _ _ _ _ Hm) as Hm1. rewrite Z.quot_div_nonneg by lia.
  change (146097 * _ / 4 + 1461 * _ / 4 + _ / 5 + day t) with
    (march_days (march_year (year t) (month t) / 100) (march_year (year t) (month t) mod 100)
      (march_month_of (month t)) (day t)).
  destruct (Z.ltb_spec (minute t) 36) as [H36|H36]; [|by rewrite (int_result_big (minute t * _)) by lia].
  rewrite !int_result_small by lia. cbn [mbind option_bind].
  change (hour t * 3600000000 + minute t * 60000000 + second t * 1000000 + microsecond t) with (time_of_day t).
  pose proof (civil_march (year t) (month t) (day t) ltac:(lia) Hmo) as Hc.
  pose proof (civil_days_mono_year _ _ _ Hy Hmo Hd) as Hcb. unfold ticks in *. rewrite <- Hc in *.
  revert Hcb Hb. generalize (march_days (march_year (year t) (month t) / 100) (march_year (year t) (month t) mod 100)
    (march_month_of (month t)) (day t)). unfold end_of_days, end_of_ticks, end_of_days. intros n Hcb Hb.
  rewrite (wrap64_small n), (wrap64_small (n - 307)) by u64_lia.
  rewrite (wrap64_small (time_of_day t)) by u64_lia. rewrite (wrap64_small ((n - 307) * _)) by u64_lia.
  rewrite wrap64_small by u64_lia. reflexivity.
Qed.

(** The steps of [sceRtcSetTick] do not wrap before the year 10000. *)
Definition civil_of (n : Z) : Z * Z * Z :=
  let '(c, ya, m, d) := decode n in
  if m <? 10 then (100 * c + ya, m + 3, d) else (100 * c + ya + 1, m - 9, d).

Lemma date_of_tick_decode tick : 0 <= tick < end_of_ticks ->
  date_of_tick tick =
    let '(y, m, d) := civil_of (tick / 86400000000 + 307) in
    let r := tick mod 86400000000 in
    mkDateTime y m d (r / 3600000000) (r mod 3600000000 / 60000000)
      (r mod 3600000000 mod 60000000 / 1000000) (r mod 3600000000 mod 60000000 mod 1000000).
Proof.
  unfold end_of_ticks, end_of_days. intros Ht.
  assert (Hn : 307 <= tick / 86400000000 + 307 < 3652059 + 307) by lia.
  assert (Hr : 0 <= tick mod 86400000000 < 86400000000) by lia.
  unfold date_of_tick, civil_of. revert Hn Hr.
  generalize (tick / 86400000000) (tick mod 86400000000). intros n r Hn Hr.
  rewrite (wrap64_small (n + 307)) by u64_lia. rewrite !Z.shiftl_mul_pow2 by lia. change (2 ^ 2) with 4.
  unfold decode. rewrite !(Z.mul_comm _ 4).
  rewrite (wrap64_small (4 * _)) by u64_lia. rewrite (wrap64_small (_ - 1)) by u64_lia.
  rewrite (wrap32_small (_ - 1)) by u64_lia.
  rewrite !Z.shiftr_div_pow2 by lia. change (2 ^ 2) with 4.
  remember ((4 * (n + 307) - 1) / 146097) as c eqn:Ec. assert (Hc : 0 <= c <= 99) by lia.
  rewrite (wrap32_small (146097 * c)) by u64_lia. rewrite (wrap32_small (4 * (n + 307) - 1 - _)) by u64_lia.
  remember ((4 * (n + 307) - 1 - 146097 * c) / 4) as ld eqn:El. assert (Hld : 0 <= ld <= 36524) by lia.
  rewrite (wrap32_small (4 * ld)) by u64_lia. rewrite (wrap32_small (4 * ld + 3)) by u64_lia.
  remember ((4 * ld + 3) / 1461) as ya eqn:Ey. assert (Hya : 0 <= ya <= 99) by lia.
  rewrite (wrap32_small (1461 * ya)) by u64_lia. rewrite (wrap32_small (4 * ld + 7)) by u64_lia.
  rewrite (wrap32_small (4 * ld + 7 - _)) by u64_lia.
  remember ((4 * ld + 7 - 1461 * ya) / 4) as e eqn:Ee. assert (He : 1 <= e <= 366) by lia.
  rewrite (wrap32_small (5 * e)) by u64_lia. rewrite (wrap32_small (5 * e - 3)) by u64_lia.
  remember ((5 * e - 3) / 153) as m eqn:Em. assert (Hm : 0 <= m <= 11) by lia.
  rewrite (wrap32_small (5 * e + 2)) by u64_lia. rewrite (wrap32_small (153 * m)) by u64_lia.
  rewrite (wrap32_small (5 * e + 2 - _)) by u64_lia.
  remember ((5 * e + 2 - 153 * m) / 5) as d eqn:Ed. assert (Hd : 0 <= d <= 31) by lia.
  rewrite (wrap32_small (100 * c)) by u64_lia. rewrite (wrap32_small (100 * c + ya)) by u64_lia.
  assert (Hr1 : 0 <= r / 3600000000 < 24) by lia.
  assert (Hr2 : 0 <= r mod 3600000000 < 3600000000) by lia. revert Hr2. generalize (r mod 3600000000). intros q Hq.
  assert (Hq1 : 0 <= q / 60000000 < 60) by lia.
  assert (Hq2 : 0 <= q mod 60000000 < 60000000) by lia. revert Hq2. generalize (q mod 60000000). intros w Hw.
  assert (Hw1 : 0 <= w / 1000000 < 60) by lia.
  assert (Hw2 : 0 <= w mod 1000000 < 1000000) by lia. clear - Hc Hya Hm Hd Hr1 Hq1 Hw1 Hw2.
  destruct (Z.ltb_spec m 10); repeat first [rewrite wrap16_small by u64_lia|rewrite wrap32_small by u64_lia]; reflexivity.
Qed.

Lemma time_split q : 0 <= q < 86400000000 ->
  let h := q / 3600000000 in
  let mi := q mod 3600000000 / 60000000 in
  let s := q mod 3600000000 mod 60000000 / 1000000 in
  let u := q mod 3600000000 mod 60000000 mod 1000000 in
  h * 3600000000 + mi * 60000000 + s * 1000000 + u = q /\
  0 <= h < 24 /\ 0 <= mi < 60 /\ 0 <= s < 60 /\ 0 <= u < 1000000.
Proof.
  intros Hq. cbn zeta. assert (H2 : 0 <= q mod 3600000000 < 3600000000) by lia.
  assert (Hq1 : q = 3600000000 * (q / 3600000000) + q mod 3600000000) by lia.
  assert (Hh : 0 <= q / 3600000000 < 24) by lia. revert H2 Hq1 Hh. generalize (q / 3600000000) (q mod 3600000000).
  intros h r Hr Hq1 Hh. assert (H3 : 0 <= r mod 60000000 < 60000000) by lia.
  assert (Hr1 : r = 60000000 * (r / 60000000) + r mod 60000000) by lia.
  assert (Hm : 0 <= r / 60000000 < 60) by lia. revert H3 Hr1 Hm. generalize (r / 60000000) (r mod 60000000).
  intros m w Hw Hr1 Hm. lia.
Qed.

Lemma civil_of_spec n y m d : 307 <= n < end_of_days + 307 -> civil_of n = (y, m, d) ->
  1 <= y <= 9999 /\ 1 <= m <= 12 /\ 1 <= d <= last_day y m /\ civil_days y m d = n - 307.
Proof.
  intros Hn H. unfold civil_of in H. destruct (decode n) as [[[c ya] m'] d'] eqn:E.
  apply march_encode in E as [Hok Hd]; [|lia]. destruct Hok as [H1 H2 H3 H4].
  assert (Hy : march_year y m = 100 * c + ya /\ march_month_of m = m' /\ d' = d /\ 1 <= m <= 12 /\ 0 <= y).
  { unfold march_year, march_month_of. destruct (Z.ltb_spec m' 10); injection H as <- <- <-.
    - rewrite (proj2 (Z.ltb_lt 2 _)) by lia. lia.
    - rewrite (proj2 (Z.ltb_ge 2 _)) by lia. lia. }
  destruct Hy as (Hy & Hm & -> & Hm12 & Hy0).
  assert (Hy1 : 1 <= y).
  { unfold march_days in Hd. unfold march_year, march_month_of in *. destruct (Z.ltb_spec 2 m); [|lia].
    destruct (decide (y = 0)) as [->|]; [|lia]. assert (c = 0) as -> by lia. assert (ya = 0) as -> by lia.
    unfold march_last in H4. destruct (Z.eqb_spec m' 11); [lia|]. assert (Hm9 : m' <= 9) by lia. clear - Hn Hd H4 Hm9. lia. }
  pose proof (civil_march y m d Hy1 Hm12) as Hc. pose proof (last_day_march y m Hy1 Hm12) as Hl.
  rewrite Hy, Hm in Hc, Hl. replace ((100 * c + ya) / 100) with c in * by lia.
  replace ((100 * c + ya) mod 100) with ya in * by lia. rewrite Hl in H4.
  split; [|split; [lia|split; [lia|lia]]]. split; [lia|]. rewrite Hd in Hc.
  clear - Hc Hn H4 Hm12 Hy1. unfold civil_days, end_of_days in *.
  assert (Hs : 0 <= default 0 month_starts.[m - 1]) by (month_cases m; vm_compute; discriminate).
  destruct ((2 <? m) && is_leap y); lia.
Qed.

(** The date of a tick, for every tick before the year 10000. *)
Lemma date_of_tick_spec tick : 0 <= tick < end_of_ticks ->
  date_ok (date_of_tick tick) /\ ticks (date_of_tick tick) = tick.
Proof.
  intros Ht. rewrite date_of_tick_decode by done. unfold end_of_ticks, end_of_days in Ht.
  destruct (civil_of (tick / 86400000000 + 307)) as [[y m] d] eqn:E.
  apply civil_of_spec in E as (Hy & Hm & Hd & Hc); [|unfold end_of_days; lia].
  pose proof (time_split (tick mod 86400000000) ltac:(lia)) as (Hs & Hr). cbn zeta in *.
  split; [split; cbn; lia|]. unfold ticks, time_of_day. cbn [year month day hour minute second microsecond].
  rewrite Hc, Hs. lia.
Qed.

Lemma date_of_ticks t : date_ok t -> date_of_tick (ticks t) = t.
Proof.
  intros H. rewrite date_of_tick_decode by by apply ticks_bounds.
  pose proof (time_of_day_bounds t H) as Ht. pose proof (date_march t H) as Hm. destruct H as [Hy Hmo Hd Hh Hmi Hs Hu].
  unfold ticks. rewrite Z.div_add_l, (Z.div_small (time_of_day t)), Z.add_0_r by lia.
  rewrite Z.add_comm, (Z.add_comm (_ * _)), Z.mod_add, Z.mod_small by lia.
  rewrite <- (civil_march (year t)) by lia. rewrite Z.add_comm, Z.sub_add.
  unfold civil_of. rewrite march_decode by done.
  assert (E : (if march_month_of (month t) <? 10
     then (100 * (march_year (year t) (month t) / 100) + march_year (year t) (month t) mod 100,
           march_month_of (month t) + 3, day t)
     else (100 * (march_year (year t) (month t) / 100) + march_year (year t) (month t) mod 100 + 1,
           march_month_of (month t) - 9, day t)) = (year t, month t, day t)).
  { rewrite <- Z.div_mod by done. unfold march_year, march_month_of. destruct (Z.ltb_spec 2 (month t)).
    - rewrite (proj2 (Z.ltb_lt _ 10)) by lia. repeat f_equal; lia.
    - rewrite (proj2 (Z.ltb_ge _ 10)) by lia. repeat f_equal; lia. }
  rewrite E. unfold time_of_day. destruct t as [y m d h mi s u]; cbn in *.
  f_equal; clear - Hh Hmi Hs Hu; lia.
Qed.

(** ** Counting days

    The calendar by counting: the days of the years before, of the months before and of the
    month. *)

Definition year_days (y : Z) : Z := if is_leap y then 366 else 365.
Fixpoint days_of_years (n : nat) : Z :=
  match n with O => 0 | S n' => days_of_years n' + year_days (Z.of_nat n) end.
Fixpoint days_of_months (y : Z) (n : nat) : Z :=
  match n with O => 0 | S n' => days_of_months y n' + last_day y (Z.of_nat n) end.
Definition count_days (y m d : Z) : Z :=
  days_of_years (Z.to_nat (y - 1)) + days_of_months y (Z.to_nat (m - 1)) + (d - 1).

Lemma days_of_years_closed n : days_of_years n = 365 * Z.of_nat n + leaps (Z.of_nat n).
Proof.
  induction n as [|n IH]; [done|]. cbn [days_of_years]. rewrite IH, (leaps_step (Z.of_nat (S n))).
  replace (Z.of_nat (S n) - 1) with (Z.of_nat n) by lia. unfold year_days. destruct (is_leap _); lia.
Qed.

Lemma count_civil y m d : 1 <= y -> 1 <= m <= 12 -> count_days y m d = civil_days y m d.
Proof.
  intros Hy Hm. unfold count_days, civil_days. rewrite days_of_years_closed, Z2Nat.id by lia. unfold leaps.
  assert (Hd : days_of_months y (Z.to_nat (m - 1)) = default 0 month_starts.[m - 1] + (if (2 <? m) && is_leap y then 1 else 0)).
  { month_cases m; unfold days_of_months, last_day; vm_compute (Z.to_nat _); vm_compute (default _ _); cbn;
      destruct (is_leap y); reflexivity. }
  rewrite Hd. lia.
Qed.

Lemma ticks_count t : date_ok t -> ticks t = count_days (year t) (month t) (day t) * 86400000000 + time_of_day t.
Proof. intros []. unfold ticks. by rewrite count_civil by lia. Qed.

(** Decidable validity, for the statements. *)
Definition date_okb (t : OrbisRtcDateTime) : bool :=
  (1 <=? year t) && (year t <=? 9999) && (1 <=? month t) && (month t <=? 12) && (1 <=? day t) &&
  (day t <=? last_day (year t) (month t)) && (0 <=? hour t) && (hour t <? 24) && (0 <=? minute t) &&
  (minute t <? 60) && (0 <=? second t) && (second t <? 60) && (0 <=? microsecond t) && (microsecond t <? 1000000).
Lemma date_okb_ok t : date_okb t = true <-> date_ok t.
Proof.
  unfold date_okb. split; intros H.
  - reflect_bools. split; lia.
  - destruct H. repeat (apply andb_true_intro; split); lia.
Qed.
#[export] Instance date_ok_dec t : Decision (date_ok t).
Proof. refine (cast_if (decide (date_okb t = true))); by rewrite <- date_okb_ok. Defined.

(** C10. [sceRtcGetTick] rejects an invalid date with the code of [sceRtcCheckValid] and
    changes nothing. For a valid date whose minute is below 36 the tick is the number of
    microseconds from 0001-01-01, by counting the days of the years and months before; no
    intermediate value wraps, and the caller's structure is left with the month renumbered from
    March. From minute 36 on the product of the minutes, an [int], overflows: the behaviour is
    undefined. *)
Theorem sceRtcGetTick_exact t old :
  date_unsigned t ->
  sceRtcGetTick (Some t) (Some old) =
    if decide (date_ok t) then
      if minute t <? 36 then
        Some (ORBIS_OK, Some (march_date t),
              Some (count_days (year t) (month t) (day t) * 86400000000 + time_of_day t))
      else None
    else Some (sceRtcCheckValid (Some t), Some t, Some old).
Proof.
  intros Hu. case_decide as H; [by rewrite get_tick_spec, ticks_count by done|].
  unfold sceRtcGetTick. destruct (Z.eqb_spec (sceRtcCheckValid (Some t)) 0) as [E|E]; [|done].
  destruct H. by apply check_valid_ok.
Qed.

(** The date of the tick of a valid date is that date, for the minutes that have a tick. *)
Theorem SetTick_GetTick t junk old : date_ok t -> minute t < 36 ->
  exists tick, sceRtcGetTick (Some t) (Some old) = Some (ORBIS_OK, Some (march_date t), Some tick) /\
    sceRtcSetTick (Some junk) (Some tick) = (ORBIS_OK, Some t).
Proof.
  intros H Hm. exists (ticks t). rewrite get_tick_spec, (proj2 (Z.ltb_lt _ _) Hm) by done. cbn.
  by rewrite date_of_ticks.
Qed.

(** Every tick before the year 10000 has a valid date, and the tick of that date is the
    tick, or undefined from minute 36 on. *)
Theorem GetTick_SetTick tick junk old : 0 <= tick < end_of_ticks ->
  exists t, sceRtcSetTick (Some junk) (Some tick) = (ORBIS_OK, Some t) /\ date_ok t /\
    sceRtcGetTick (Some t) (Some old) =
      if minute t <? 36 then Some (ORBIS_OK, Some (march_date t), Some tick) else None.
Proof.
  intros Ht. destruct (date_of_tick_spec tick Ht) as [Hok Hti]. exists (date_of_tick tick).
  split; [done|]. split; [done|]. by rewrite get_tick_spec, Hti.
Qed.

Lemma day_of_week_spec k t : date_ok t ->
  sceRtcGetDayOfWeek k (year t) (month t) (day t) = (count_days (year t) (month t) (day t) + 1) mod 7.
Proof.
  intros [Hy Hm Hd _ _ _ _]. unfold sceRtcGetDayOfWeek, sceRtcGetDaysInMonth.
  rewrite (proj2 (Z.leb_gt (year t) 0)), (proj2 (Z.leb_gt (month t) 0)), (proj2 (Z.ltb_ge 12 (month t))),
    (proj2 (Z.ltb_ge 9999 (year t))), (proj2 (Z.ltb_ge (year t) 1)), (proj2 (Z.leb_gt (day t) 0)) by lia.
  unfold chrono_year. rewrite s16_small, !andb_false_r by lia. cbn [orb].
  rewrite (proj2 (Z.ltb_ge (last_day _ _) _)) by lia. rewrite count_civil by lia. unfold weekday, sys_days.
  replace (civil_days (year t) (month t) (day t) - 719162 + 4) with
    (civil_days (year t) (month t) (day t) + 1 + (-102737) * 7) by ring. apply Z.mod_add. done.
Qed.

(** The day of the week of a valid date, for every SDK version: the days since Monday
    0001-01-01, modulo seven (0 is Sunday). *)
Theorem sceRtcGetDayOfWeek_exact k t : date_ok t ->
  sceRtcGetDayOfWeek k (year t) (month t) (day t) = (count_days (year t) (month t) (day t) + 1) mod 7.
Proof. apply day_of_week_spec. Qed.

(** ** Adding months and years *)

(** The date [n] months from [t], the day clamped to its month. *)
Definition month_index (t : OrbisRtcDateTime) (n : Z) : Z := 12 * year t + (month t - 1) + n.
Definition add_months (t : OrbisRtcDateTime) (n : Z) : OrbisRtcDateTime :=
  let y := month_index t n / 12 in
  let m := month_index t n mod 12 + 1 in
  mkDateTime y m (Z.min (day t) (last_day y m)) (hour t) (minute t) (second t) (microsecond t).

(** The tick of a valid date, stored: undefined from minute 36 on. *)
Definition stored (t : OrbisRtcDateTime) : option (Z * option Z) :=
  if minute t <? 36 then Some (ORBIS_OK, Some (ticks t)) else None.

Lemma store_date_spec t tick1 : date_unsigned t ->
  store_date t (Some tick1) =
    if decide (date_ok t) then stored t else Some (sceRtcCheckValid (Some t), Some tick1).
Proof.
  intros Hu. unfold store_date. pose proof (check_valid_ok t Hu) as Hv. case_decide as H.
  - rewrite (proj2 Hv H), Z.eqb_refl, get_tick_spec by done. unfold stored. by destruct (_ <? 36).
  - destruct (Z.eqb_spec (sceRtcCheckValid (Some t)) ORBIS_OK); [|done]. destruct H. by apply Hv.
Qed.

Lemma last_day_range y m : 28 <= last_day y m <= 31.
Proof. unfold last_day. repeat case_match; lia. Qed.

(** The two-step division of the month count. *)
Lemma month_split t n : 1 <= month t <= 12 -> -2147483648 <= n <= 2147483647 -> 1 <= year t <= 9999 ->
  let s := if 0 <=? n then 1 else -1 in
  let tm := month t + Z.rem n 12 - 1 in
  let y := wrap16 (year t + Z.quot n 12) in
  if (11 <? tm) || (tm <? 0)
  then wrap16 (y + s) = wrap16 (month_index t n / 12) /\ tm - s * 12 = month_index t n mod 12
  else y = wrap16 (month_index t n / 12) /\ tm = month_index t n mod 12.
Proof.
  intros Hm Hn Hy. cbn zeta. unfold month_index.
  pose proof (Z.quot_rem n 12 ltac:(done)) as Hq.
  assert (Hr : (0 <= n /\ 0 <= Z.rem n 12 < 12) \/ (n < 0 /\ -12 < Z.rem n 12 <= 0)).
  { destruct (Z_lt_le_dec n 0) as [Hneg|]; [right|left; split; [done|apply Z.rem_bound_pos; lia]].
    split; [done|]. rewrite <- (Z.opp_involutive n), Z.rem_opp_l by done.
    pose proof (Z.rem_bound_pos (- n) 12 ltac:(lia)). lia. }
  revert Hq Hr. generalize (Z.quot n 12) (Z.rem n 12). intros q r Hq Hr. unfold wrap16.
  destruct (Z.leb_spec 0 n) as [H0|H0], (Z.ltb_spec 11 (month t + r - 1)) as [H1|H1]; cbn [orb]; rewrite Hq.
  all: try destruct (Z.ltb_spec (month t + r - 1) 0) as [H2|H2]; try rewrite Z.add_mod_idemp_l by done;
    (split; [f_equal; lia|lia]).
Qed.

Lemma year_code t : date_unsigned t -> ~ 1 <= year t <= 9999 ->
  sceRtcCheckValid (Some t) = ORBIS_RTC_ERROR_INVALID_YEAR.
Proof.
  intros Hu Hy. unfold date_unsigned in Hu. apply Forall_cons in Hu as [? _]. unfold sceRtcCheckValid.
  by destruct (Z.eqb_spec (year t) 0), (Z.ltb_spec 9999 (year t)); try lia.
Qed.

Lemma add_months_ok t n : date_ok t -> 1 <= month_index t n / 12 <= 9999 -> date_ok (add_months t n).
Proof.
  intros [Hy Hm Hd Hh Hmi Hs Hu] Hr. pose proof (last_day_range (month_index t n / 12) (month_index t n mod 12 + 1)).
  unfold add_months. split; cbn; [lia| |lia..]. pose proof (Z.mod_pos_bound (month_index t n) 12 ltac:(done)). lia.
Qed.

#[local] Arguments last_day : simpl never.

Lemma finish_month t y m tick1 : date_ok t -> 0 <= y <= 65535 -> 0 <= m < 12 ->
  let time := mkDateTime y (wrap16 (m + 1)) (day t) (hour t) (minute t) (second t) (microsecond t) in
  let lastDay := last_day (chrono_year y) (wrap16 (m + 1)) in
  store_date (if lastDay <? day t then time <| day := wrap16 lastDay |> else time) (Some tick1) =
    if decide (1 <= y <= 9999)
    then stored (mkDateTime y (m + 1) (Z.min (day t) (last_day y (m + 1))) (hour t) (minute t)
                   (second t) (microsecond t))
    else Some (ORBIS_RTC_ERROR_INVALID_YEAR, Some tick1).
Proof.
  intros [Hy Hm Hd Hh Hmi Hs Hu] Hyr Hmr. cbn zeta. rewrite (wrap16_small (m + 1)) by u64_lia.
  pose proof (last_day_range (chrono_year y) (m + 1)) as Hl. pose proof (last_day_range y (m + 1)) as Hl'.
  rewrite (wrap16_small (last_day _ _)) by u64_lia.
  rewrite store_date_spec by (destruct (_ <? _); unfold date_unsigned; cbn; repeat constructor; lia).
  destruct (decide (1 <= y <= 9999)) as [Hin|Hout].
  - unfold chrono_year in *. rewrite s16_small in * by lia.
    set (t' := if last_day y (m + 1) <? day t then _ else _). assert (Hok : date_ok t').
    { unfold t'. destruct (Z.ltb_spec (last_day y (m + 1)) (day t)); split;
        cbn; lia. }
    rewrite decide_True by exact Hok. unfold t'.
    f_equal. destruct (Z.ltb_spec (last_day y (m + 1)) (day t)); unfold upd; cbn; f_equal; lia.
  - rewrite decide_False; [do 2 f_equal; apply year_code|]; destruct (_ <? _); cbn; try (intros []; cbn in *; lia); try done;
      unfold date_unsigned; cbn; repeat constructor; lia.
Qed.

Lemma add_months_spec tick1 tick2 n : 0 <= tick1 < end_of_ticks -> -2147483648 <= n <= 2147483647 -> n <> 0 ->
  let t := date_of_tick tick1 in
  0 <= month_index t n / 12 <= 65535 ->
  sceRtcTickAddMonths (Some tick1) (Some tick2) n =
    if decide (1 <= month_index t n / 12 <= 9999) then stored (add_months t n)
    else Some (ORBIS_RTC_ERROR_INVALID_YEAR, Some tick1).
Proof.
  intros Ht Hn H0 t Hy. unfold sceRtcTickAddMonths. rewrite (proj2 (Z.eqb_neq n 0)) by done.
  pose proof (date_of_tick_spec tick1 Ht) as [Hok _]. fold t in Hok |- *. clearbody t.
  pose proof (month_split t n (do_month _ Hok) Hn (do_year _ Hok)) as Hs. cbn zeta in Hs.
  rewrite (wrap16_small (month_index t n / 12)) in Hs by u64_lia.
  assert (Hm : 0 <= month_index t n mod 12 < 12) by (by apply Z.mod_pos_bound).
  pose proof (finish_month t _ _ tick1 Hok Hy Hm) as Hf. cbn zeta in Hf. unfold add_months. cbn zeta. rewrite <- Hf. clear Hf.
  destruct t as [yy mm dd hh mi se us]; cbn in *.
  match goal with |- context [if ?c then (_, _) else _] => destruct c eqn:E end; cbn in *;
    destruct Hs as [Hs1 Hs2]; rewrite <- Hs1, <- Hs2; reflexivity.
Qed.

(** [sceRtcTickAddMonths] with a non-zero month count, for any [*pTick2]: [*pTick1] moves
    by that many months from its own date, the day clamped to the length of the new month
    (from minute 36 on that is undefined);
    when the year leaves 1..9999 the code is [ORBIS_RTC_ERROR_INVALID_YEAR] and [*pTick1] is
    unchanged. The second argument, the tick to add to, is never read. *)
Theorem sceRtcTickAddMonths_exact tick1 tick2 lAdd :
  0 <= tick1 < end_of_ticks -> -2147483648 <= lAdd <= 2147483647 -> lAdd <> 0 ->
  let t := date_of_tick tick1 in
  0 <= month_index t lAdd / 12 <= 65535 ->
  sceRtcTickAddMonths (Some tick1) (Some tick2) lAdd =
    if decide (1 <= month_index t lAdd / 12 <= 9999) then stored (add_months t lAdd)
    else Some (ORBIS_RTC_ERROR_INVALID_YEAR, Some tick1).
Proof. apply add_months_spec. Qed.

(** [sceRtcTickAddYears] with a non-zero count, for any [*pTick2]: [*pTick1] moves by that
    many years from its own date. A year outside 1..9999 and the 29th of February of a common
    year are errors, and then [*pTick1] is unchanged. *)
Theorem sceRtcTickAddYears_exact tick1 tick2 lAdd :
  0 <= tick1 < end_of_ticks -> lAdd <> 0 ->
  let t := date_of_tick tick1 in
  let y := year t + lAdd in
  0 <= y <= 65535 ->
  sceRtcTickAddYears (Some tick1) (Some tick2) lAdd =
    if decide (1 <= y <= 9999) then
      if decide (day t <= last_day y (month t)) then stored (t <| year := y |>)
      else Some (ORBIS_RTC_ERROR_INVALID_DAY, Some tick1)
    else Some (ORBIS_RTC_ERROR_INVALID_YEAR, Some tick1).
Proof.
  intros Ht H0 t y Hy. unfold sceRtcTickAddYears. rewrite (proj2 (Z.eqb_neq lAdd 0)) by done. cbn zeta.
  pose proof (date_of_tick_spec tick1 Ht) as [Hok _]. fold t in Hok |- *. clearbody t.
  replace (t <| year ::= fun z => wrap16 (z + lAdd) |>) with (t <| year := y |>)
    by (unfold upd; cbn; fold y; by rewrite (wrap16_small y) by u64_lia).
  destruct Hok as [Hyt Hm Hd Hh Hmi Hs Hu].
  assert (Hun : date_unsigned (t <| year := y |>)) by (unfold date_unsigned; cbn; repeat constructor; lia).
  rewrite store_date_spec by done.
  destruct (decide (1 <= y <= 9999)) as [Hin|Hout].
  - destruct (decide (day t <= last_day y (month t))).
    + rewrite decide_True; [done|]. split; cbn; lia.
    + rewrite decide_False by (intros []; cbn in *; lia). do 2 f_equal. unfold sceRtcCheckValid. cbn.
      unfold chrono_year. rewrite s16_small by lia.
      destruct (Z.eqb_spec y 0), (Z.ltb_spec 9999 y), (Z.eqb_spec (month t) 0), (Z.ltb_spec 12 (month t)),
        (Z.eqb_spec (day t) 0), (Z.ltb_spec (last_day y (month t)) (day t)); cbn; try reflexivity; lia.
  - rewrite decide_False by (intros []; cbn in *; lia). do 2 f_equal. by apply year_code.
Qed.

(** ** Other time formats *)

Lemma land_low x k : 0 <= k -> Z.land x (Z.ones k) = x mod 2 ^ k.
Proof. intros. by apply Z.land_ones. Qed.

Lemma lor_add a b k p : 0 <= k -> p = 2 ^ k -> 0 <= a < p -> Z.lor a (Z.shiftl b k) = a + b * p.
Proof. intros Hk -> Ha. by apply lor_shiftl_add. Qed.

Lemma dos_time_fields t : date_ok t ->
  sceRtcGetDosTime (Some t) (Some 0) =
    (ORBIS_OK, Some (second t / 2 + minute t * 32 + hour t * 2048 + day t * 65536 + month t * 2097152 +
                     (year t - 1980) mod 128 * 33554432)).
Proof.
  intros H. unfold sceRtcGetDosTime.
  rewrite (proj2 (check_valid_ok t (date_ok_unsigned t H)) H). cbn [Z.eqb ORBIS_OK negb].
  destruct H as [Hy Hm Hd Hh Hmi Hs Hu]. pose proof (last_day_range (year t) (month t)) as Hl.
  rewrite Z.quot_div_nonneg by lia. change 0x1F with (Z.ones 5). change 0x3F with (Z.ones 6).
  change 0x0F with (Z.ones 4). change 0x7F with (Z.ones 7). rewrite !land_low, Z.lor_0_l by lia.
  change (2 ^ 5) with 32. change (2 ^ 6) with 64. change (2 ^ 4) with 16. change (2 ^ 7) with 128.
  assert (Hs2 : 0 <= second t / 2 < 30) by lia. rewrite (Z.mod_small (second t / 2)) by lia.
  rewrite (Z.mod_small (minute t)), (Z.mod_small (hour t)), (Z.mod_small (day t)), (Z.mod_small (month t)) by lia.
  pose proof (Z.mod_pos_bound (year t - 1980) 128 ltac:(done)) as Hy7.
  rewrite (lor_add _ _ 5 32 ltac:(lia) eq_refl), (lor_add _ _ 11 2048 ltac:(lia) eq_refl),
    (lor_add _ _ 16 65536 ltac:(lia) eq_refl), (lor_add _ _ 21 2097152 ltac:(lia) eq_refl),
    (lor_add _ _ 25 33554432 ltac:(lia) eq_refl) by lia.
  rewrite wrap32_small by u64_lia. reflexivity.
Qed.

Lemma set_dos_time_fields junk s mi h d m y :
  0 <= s < 32 -> 0 <= mi < 64 -> 0 <= h < 32 -> 0 <= d < 32 -> 0 <= m < 16 -> 0 <= y < 128 ->
  sceRtcSetDosTime (Some junk) (s + mi * 32 + h * 2048 + d * 65536 + m * 2097152 + y * 33554432) =
    (ORBIS_OK, Some (mkDateTime (1980 + (if y <? 64 then y else y - 128)) m d h mi (s * 2) 0)).
Proof.
  intros Hs Hmi Hh Hd Hm Hy. unfold sceRtcSetDosTime.
  set (v := s + mi * 32 + h * 2048 + d * 65536 + m * 2097152 + y * 33554432).
  change 0xf800 with (Z.shiftl (Z.ones 5) 11). change 0x3e with (Z.shiftl (Z.ones 5) 1).
  change 0x1f with (Z.ones 5). change 0x3f with (Z.ones 6). change 0x0f with (Z.ones 4).
  assert (E1 : Z.land v (Z.shiftl (Z.ones 5) 11) = h * 2048).
  { replace v with (Z.shiftl (h + d * 32 + m * 1024 + y * 16384) 11 + (s + mi * 32))
      by (unfold v; rewrite Z.shiftl_mul_pow2 by lia; change (2 ^ 11) with 2048; ring).
    rewrite Z.add_comm, Z.shiftl_mul_pow2, <- lor_shiftl_add by (change (2 ^ 11) with 2048; lia).
    rewrite Z.land_lor_distr_l, land_shiftl_low, Z.lor_0_l, <- Z.shiftl_land, land_low by (change (2 ^ 11) with 2048; lia).
    rewrite Z.shiftl_mul_pow2 by lia. change (2 ^ 11) with 2048. change (2 ^ 5) with 32. lia. }
  rewrite E1.
  assert (E2 : Z.land (wrap32 (Z.shiftl v 1)) (Z.shiftl (Z.ones 5) 1) = s * 2).
  { unfold wrap32. change 4294967296 with (2 ^ 32). rewrite <- land_low, <- Z.land_assoc by lia.
    change (Z.land (Z.ones 32) (Z.shiftl (Z.ones 5) 1)) with (Z.shiftl (Z.ones 5) 1).
    rewrite <- Z.shiftl_land, land_low, Z.shiftl_mul_pow2 by lia. unfold v. change (2 ^ 5) with 32. lia. }
  rewrite E2, !land_low, !Z.shiftr_div_pow2 by lia.
  change (2 ^ 16) with 65536. change (2 ^ 9) with 512. change (2 ^ 5) with 32. change (2 ^ 11) with 2048.
  change (2 ^ 6) with 64. change (2 ^ 4) with 16.
  assert (Ev : v / 65536 = d + m * 32 + y * 512) by (unfold v; lia). rewrite Ev.
  assert (E16 : s16 (d + m * 32 + y * 512) = d + m * 32 + (if y <? 64 then y else y - 128) * 512).
  { unfold s16. destruct (Z.ltb_spec y 64); lia. }
  rewrite E16. assert (Hyb : - 64 <= (if y <? 64 then y else y - 128) < 64) by (destruct (Z.ltb_spec y 64); lia).
  revert Hyb. generalize (if y <? 64 then y else y - 128). intros z Hz.
  assert (E9 : (d + m * 32 + z * 512) / 512 = z) by lia. rewrite E9.
  assert (E5 : (d + m * 32 + z * 512) / 32 mod 16 = m) by lia. rewrite E5.
  assert (Ed : (d + m * 32 + z * 512) mod 32 = d) by lia. rewrite Ed.
  assert (Emi : v / 32 mod 64 = mi) by (unfold v; lia). rewrite Emi.
  rewrite wrap16_small by u64_lia. rewrite Z.div_mul by done. do 2 f_equal. f_equal. lia.
Qed.

(** The DOS time of a valid date from 1980 to 2107 (or-ed into a zero word) reads back
    with the seconds rounded down to even and without microseconds. The year reads back up to
    2043; from 2044 on the sign of the 16-bit intermediate makes it 128 years too small. *)
Theorem SetDosTime_GetDosTime t junk : date_ok t -> 1980 <= year t <= 2107 ->
  exists dos, sceRtcGetDosTime (Some t) (Some 0) = (ORBIS_OK, Some dos) /\
    sceRtcSetDosTime (Some junk) dos =
      (ORBIS_OK, Some (mkDateTime (if year t <=? 2043 then year t else year t - 128) (month t) (day t) (hour t)
                         (minute t) (second t / 2 * 2) 0)).
Proof.
  intros H Hyr. eexists. split; [by apply dos_time_fields|].
  destruct H as [Hy Hm Hd Hh Hmi Hs Hu]. pose proof (last_day_range (year t) (month t)) as Hl.
  rewrite set_dos_time_fields by lia. do 2 f_equal. f_equal.
  rewrite Z.mod_small by lia. destruct (Z.ltb_spec (year t - 1980) 64), (Z.leb_spec (year t) 2043); lia.
Qed.

(** Converting a tick to local time and back gives the tick, for any time zone: the two
    offsets are opposite, modulo 2^64. *)
Theorem ConvertLocalTimeToUtc_inverse k utc old old' : is_u64 utc ->
  exists local, sceRtcConvertUtcToLocalTime k (Some utc) (Some old) = (0, Some local) /\
    sceRtcConvertLocalTimeToUtc k (Some local) (Some old') = (ORBIS_OK, Some utc).
Proof.
  intros Hu. eexists. split; [reflexivity|]. cbn. do 2 f_equal. unfold local_offset.
  destruct (snd (gettimezone k)) as [w d]. cbn. unfold wrap64. rewrite Z.add_mod_idemp_r by done.
  rewrite <- (wrap64_small utc Hu) at 2. unfold wrap64. f_equal. ring.
Qed.

(** [sceRtcSetTime_t] and [sceRtcSetWin32FileTime] give the valid date of their argument
    and [sceRtcGetTime_t] and [sceRtcGetWin32FileTime] read it back: the seconds since 1970
    (below 2^32 for an SDK before 3.0) up to the year 10000, and the tenths of microseconds
    since 1601 rounded down to a microsecond; reading back is undefined from minute 36 on. *)
Theorem time_t_roundtrip k stack junk old seconds tenths :
  0 <= seconds < (end_of_ticks - UNIX_EPOCH_TICKS) / 1000000 ->
  (sdk_version k < 0x3000000 -> seconds <= U32_MAX) ->
  0 <= tenths < (end_of_ticks - WIN32_FILETIME_EPOCH_TICKS) * 10 ->
  (exists t, sceRtcSetTime_t k (Some junk) seconds = (ORBIS_OK, Some t) /\ date_ok t /\
     sceRtcGetTime_t stack (Some t) (Some old) =
       if minute t <? 36 then Some (ORBIS_OK, Some (march_date t), Some seconds) else None) /\
  (exists t, sceRtcSetWin32FileTime (Some junk) tenths = (ORBIS_OK, Some t) /\ date_ok t /\
     sceRtcGetWin32FileTime stack (Some t) (Some old) =
       if minute t <? 36 then Some (ORBIS_OK, Some (march_date t), Some (tenths - tenths mod 10)) else None).
Proof.
  unfold end_of_ticks, end_of_days. intros Hs Hsdk Ht. split.
  - exists (date_of_tick (seconds * 1000000 + UNIX_EPOCH_TICKS)). unfold UNIX_EPOCH_TICKS in *.
    assert (Hr : 0 <= seconds * 1000000 + 0xdcbffeff2bc000 < end_of_ticks) by (unfold end_of_ticks, end_of_days; lia).
    destruct (date_of_tick_spec _ Hr) as [Hok Hti]. split; [|split; [done|]].
    + unfold sceRtcSetTime_t. rewrite (proj2 (Z.ltb_ge seconds 0)), andb_false_r by lia. cbn zeta.
      assert (E : (if sdk_version k <? 0x3000000 then Z.land seconds 0xffffffff else seconds) = seconds).
      { destruct (Z.ltb_spec (sdk_version k) 0x3000000) as [Hl|]; [|done]. change 0xffffffff with (Z.ones 32).
        rewrite land_low by lia. apply Z.mod_small. specialize (Hsdk Hl). u64_lia. }
      rewrite E, (wrap64_small (_ * _)) by u64_lia. unfold UNIX_EPOCH_TICKS. by rewrite wrap64_small by u64_lia.
    + unfold sceRtcGetTime_t. rewrite (proj2 (check_valid_ok _ (date_ok_unsigned _ Hok)) Hok), get_tick_spec by done.
      destruct (_ <? 36); [|done]. cbn [Z.eqb ORBIS_OK negb default id mbind option_bind]. rewrite Hti. unfold UNIX_EPOCH_TICKS. rewrite (proj2 (Z.ltb_ge _ _)) by lia.
      rewrite wrap64_small by u64_lia. do 3 f_equal. lia.
  - exists (date_of_tick (tenths / 10 + WIN32_FILETIME_EPOCH_TICKS)). unfold WIN32_FILETIME_EPOCH_TICKS in *.
    assert (Hr : 0 <= tenths / 10 + 0xb36168b6a58000 < end_of_ticks) by (unfold end_of_ticks, end_of_days; lia).
    destruct (date_of_tick_spec _ Hr) as [Hok Hti]. split; [|split; [done|]].
    + unfold sceRtcSetWin32FileTime, WIN32_FILETIME_EPOCH_TICKS. rewrite Z.quot_div_nonneg by lia. unfold end_of_ticks, end_of_days in Hr.
      by rewrite wrap64_small by u64_lia.
    + unfold sceRtcGetWin32FileTime. rewrite (proj2 (check_valid_ok _ (date_ok_unsigned _ Hok)) Hok), get_tick_spec by done.
      destruct (_ <? 36); [|done]. cbn [Z.eqb ORBIS_OK negb default id mbind option_bind]. rewrite Hti. unfold WIN32_FILETIME_EPOCH_TICKS, end_of_ticks, end_of_days in *.
      rewrite (proj2 (Z.ltb_ge _ _)) by lia. rewrite (wrap64_small (_ - _)) by u64_lia. rewrite wrap64_small by u64_lia.
      do 3 f_equal. lia.
Qed.

(** ** Concrete dates *)

Definition leap_day : OrbisRtcDateTime := mkDateTime 2024 2 29 13 14 15 123456.

Lemma sceRtcGetTick_exact_witness :
  sceRtcGetTick (Some leap_day) (Some 0) =
    Some (ORBIS_OK, Some (mkDateTime 2023 11 29 13 14 15 123456), Some 63844809255123456).
Proof.
  rewrite sceRtcGetTick_exact by (unfold date_unsigned; repeat constructor; discriminate). vm_compute. reflexivity.
Defined.

Lemma SetTick_GetTick_witness :
  exists tick, sceRtcGetTick (Some leap_day) (Some 0) = Some (ORBIS_OK, Some (march_date leap_day), Some tick) /\
    sceRtcSetTick (Some leap_day) (Some tick) = (ORBIS_OK, Some leap_day).
Proof.
  apply (SetTick_GetTick leap_day leap_day 0); [apply date_okb_ok; vm_compute; reflexivity|reflexivity].
Defined.

Lemma GetTick_SetTick_witness :
  exists t, sceRtcSetTick (Some leap_day) (Some UNIX_EPOCH_TICKS) = (ORBIS_OK, Some t) /\ date_ok t /\
    sceRtcGetTick (Some t) (Some 0) =
      if minute t <? 36 then Some (ORBIS_OK, Some (march_date t), Some UNIX_EPOCH_TICKS) else None.
Proof. apply (GetTick_SetTick UNIX_EPOCH_TICKS leap_day 0). unfold UNIX_EPOCH_TICKS, end_of_ticks, end_of_days. lia. Defined.

Definition example_kernel : Kernel := mkKernel (0, mkTimespec 0 0) (0, mkTimezone (-60) 1) (0, 0x4000000).

Lemma sceRtcGetDayOfWeek_exact_witness : sceRtcGetDayOfWeek example_kernel 2024 2 29 = 4.
Proof.
  apply (sceRtcGetDayOfWeek_exact example_kernel leap_day). apply date_okb_ok. vm_compute. reflexivity.
Defined.

(** The 31st of January 2024 and a month: whatever the second tick, the 29th of February. *)
Lemma sceRtcTickAddMonths_exact_witness :
  sceRtcTickAddMonths (Some (ticks (mkDateTime 2024 1 31 0 0 0 0))) (Some 5) 1 =
    Some (ORBIS_OK, Some (ticks (mkDateTime 2024 2 29 0 0 0 0))).
Proof.
  rewrite (sceRtcTickAddMonths_exact (ticks (mkDateTime 2024 1 31 0 0 0 0)) 5 1);
    [vm_compute; reflexivity|vm_compute; split; [discriminate|reflexivity]|lia|lia|vm_compute; split; discriminate].
Defined.

Lemma sceRtcTickAddYears_exact_witness :
  sceRtcTickAddYears (Some (ticks leap_day)) (Some 5) 1 = Some (ORBIS_RTC_ERROR_INVALID_DAY, Some (ticks leap_day)).
Proof.
  rewrite (sceRtcTickAddYears_exact (ticks leap_day) 5 1);
    [vm_compute; reflexivity|vm_compute; split; [discriminate|reflexivity]|lia|vm_compute; split; discriminate].
Defined.

Lemma SetDosTime_GetDosTime_witness :
  exists dos, sceRtcGetDosTime (Some leap_day) (Some 0) = (ORBIS_OK, Some dos) /\
    sceRtcSetDosTime (Some leap_day) dos = (ORBIS_OK, Some (mkDateTime 2024 2 29 13 14 14 0)).
Proof.
  apply (SetDosTime_GetDosTime leap_day leap_day); [apply date_okb_ok; vm_compute; reflexivity|cbn; lia].
Defined.

Lemma ConvertLocalTimeToUtc_inverse_witness :
  exists local, sceRtcConvertUtcToLocalTime example_kernel (Some 1000) (Some 0) = (0, Some local) /\
    sceRtcConvertLocalTimeToUtc example_kernel (Some local) (Some 0) = (ORBIS_OK, Some 1000).
Proof. apply (ConvertLocalTimeToUtc_inverse example_kernel 1000 0 0). apply is_u64_dec. vm_compute. reflexivity. Defined.

Lemma time_t_roundtrip_witness :
  (exists t, sceRtcSetTime_t example_kernel (Some leap_day) 5000000000 = (ORBIS_OK, Some t) /\ date_ok t /\
     sceRtcGetTime_t 7 (Some t) (Some 0) =
       if minute t <? 36 then Some (ORBIS_OK, Some (march_date t), Some 5000000000) else None) /\
  (exists t, sceRtcSetWin32FileTime (Some leap_day) 123456789 = (ORBIS_OK, Some t) /\ date_ok t /\
     sceRtcGetWin32FileTime 7 (Some t) (Some 0) =
       if minute t <? 36 then Some (ORBIS_OK, Some (march_date t), Some 123456780) else None).
Proof.
  apply (time_t_roundtrip example_kernel 7 leap_day 0 5000000000 123456789); vm_compute;
    [split; [discriminate|reflexivity]|discriminate|split; [discriminate|reflexivity]].
Defined.
