(* ===== verification/RtcText.v ===== *)
(** Dates as text: the formatting and parsing functions of
    src/src/core/libraries/rtc/rtc.cpp.

    A text is its bytes without the final zero. Parsing runs in the checked monad over
    [*pTickUtc]: [Fail] is a C++ exception of [std::stoi] or [substr], [Ub] an index past the
    end of the text or the overflow in [sceRtcGetTick]. *)
From Stdlib Require Import ZArith Lia.
From Stdlib Require Import Strings.Byte.
From stdpp Require Import base gmap list list_numbers strings.
From S2P Require Import Prelude.
From S2P Require Import ImportResolver.
From S2P Require Import Rtc.

#[local] Ltac Zify.zify_post_hook ::= Z.to_euclidean_division_equations.

(** ** [std::to_string], [std::stoi], [substr] *)

Definition digit (n : Z) : byte := to_u8 (48 + n).

(** The decimal digits of a number below [10 ^ (fuel + 1)], before [tail]. *)
Fixpoint decimal (fuel : nat) (n : Z) (tail : list byte) : list byte :=
  let tail := digit (n mod 10) :: tail in
  match fuel with
  | S f => if n / 10 =? 0 then tail else decimal f (n / 10) tail
  | O => tail
  end.
(** [std::to_string] of a non-negative [int] or [u32], of at most ten digits. *)
Definition to_string (n : Z) : list byte := decimal 9 n [].

(** A number of at least two digits: [if (n < 10) "0" + to_string(n) else to_string(n)]. *)
Definition two_digits (n : Z) : list byte := if n <? 10 then text "0" ++ to_string n else to_string n.

Definition is_space (b : byte) : bool := (u8 b =? 32) || ((9 <=? u8 b) && (u8 b <=? 13)).
Definition is_digit (b : byte) : bool := (48 <=? u8 b) && (u8 b <=? 57).
Fixpoint skip_spaces (s : list byte) : list byte :=
  match s with b :: r => if is_space b then skip_spaces r else s | [] => [] end.
Fixpoint digits_value (value : Z) (s : list byte) : Z :=
  match s with
  | b :: r => if is_digit b then digits_value (10 * value + (u8 b - 48)) r else value
  | [] => value
  end.
(** [std::stoi] of a text of at most four characters; [None] is [std::invalid_argument]. *)
Definition stoi (s : list byte) : option Z :=
  let s := skip_spaces s in
  let '(sign, s) :=
    match s with
    | b :: r => if u8 b =? 45 then (-1, r) else if u8 b =? 43 then (1, r) else (1, s)
    | [] => (1, [])
    end in
  match s with
  | b :: _ => if is_digit b then Some (sign * digits_value 0 s) else None
  | [] => None
  end.

Section Parse.
Context (s : list byte).
(** [dateTimeString[i]]: the terminator at the end. *)
Definition char_at (i : Z) : M Z byte :=
  if i =? zlen s then ret Byte.x00 else need (s.[i]).
Definition throw {A} (o : option A) (e : string) : M Z A := match o with Some a => ret a | None => fail e end.
(** [dateTimeString.substr(pos, count)] *)
Definition substr (pos count : Z) : M Z (list byte) :=
  throw (if pos <=? zlen s then Some (take (Z.to_nat count) (drop (Z.to_nat pos) s)) else None) "out_of_range".
(** [std::stoi(dateTimeString.substr(pos, count))] *)
Definition number (pos count : Z) : M Z Z := t <- substr pos count ;; throw (stoi t) "invalid_argument".
End Parse.

(** ** Parsing *)

Definition month_names : list (list byte) :=
  [text "Jan"; text "Feb"; text "Mar"; text "Apr"; text "May"; text "Jun";
   text "Jul"; text "Aug"; text "Sep"; text "Oct"; text "Nov"; text "Dec"].
Definition GetMonthFromString (monthStr : list byte) : Z :=
  match list_find (fun name => name = monthStr) month_names with
  | Some (i, _) => Z.of_nat i + 1
  | None => 1
  end.

(** [sceRtcGetTick(&dateTime, pTickUtc)], its code dropped. *)
Definition get_tick (t : OrbisRtcDateTime) : M Z unit :=
  tick <- gets id ;;
  result <- need (sceRtcGetTick (Some t) (Some tick)) ;;
  modify (fun tick => default tick (snd result)).
(** [sceRtcTickAddMinutes(pTickUtc, pTickUtc, offset)] *)
Definition add_minutes (offset : Z) : M Z unit :=
  modify (fun tick => default tick (snd (sceRtcTickAddMinutes (Some tick) (Some tick) offset))).

Definition parse_rfc3339 (s : list byte) : M Z unit :=
  y <- number s 0 4 ;;
  m <- number s 5 2 ;;
  d <- number s 8 2 ;;
  h <- number s 11 2 ;;
  mi <- number s 14 2 ;;
  se <- number s 17 2 ;;
  c <- char_at s 19 ;;
  micro <- (if u8 c =? 46 then number s 20 2 else ret 0) ;;
  let timezone_pos := if u8 c =? 46 then 22 else 19 in
  get_tick (mkDateTime (wrap16 y) (wrap16 m) (wrap16 d) (wrap16 h) (wrap16 mi) (wrap16 se) (wrap32 micro)) ;;;
  z <- char_at s timezone_pos ;;
  when (negb (u8 z =? 90)) (
    if u8 z =? 45 then
      hours <- number s (timezone_pos + 1) 2 ;;
      minutes <- number s (timezone_pos + 4) 2 ;;
      add_minutes ((hours * 60 + minutes) * -1)
    else if u8 z =? 43 then
      hours <- number s (timezone_pos + 1) 2 ;;
      minutes <- number s (timezone_pos + 4) 2 ;;
      add_minutes (hours * 60 + minutes)
    else ret tt).

Definition parse_rfc2822 (s : list byte) : M Z unit :=
  d <- number s 5 2 ;;
  name <- substr s 8 3 ;;
  y <- number s 12 4 ;;
  h <- number s 17 2 ;;
  mi <- number s 20 2 ;;
  se <- number s 23 2 ;;
  get_tick (mkDateTime (wrap16 y) (GetMonthFromString name) (wrap16 d) (wrap16 h) (wrap16 mi) (wrap16 se) 0) ;;;
  z <- char_at s 26 ;;
  if u8 z =? 43 then
    hours <- number s 27 2 ;;
    minutes <- number s 29 2 ;;
    add_minutes (hours * 60 + minutes)
  else if u8 z =? 45 then
    hours <- number s 27 2 ;;
    minutes <- number s 29 2 ;;
    add_minutes ((hours * 60 + minutes) * -1)
  else ret tt.

Definition parse_asctime (s : list byte) : M Z unit :=
  name <- substr s 4 3 ;;
  d <- number s 8 2 ;;
  h <- number s 11 2 ;;
  mi <- number s 14 2 ;;
  se <- number s 17 2 ;;
  y <- number s 20 4 ;;
  get_tick (mkDateTime (wrap16 y) (GetMonthFromString name) (wrap16 d) (wrap16 h) (wrap16 mi) (wrap16 se) 0).

(** The format is told by the twentieth character. *)
Definition parse_date_time (s : list byte) : M Z unit :=
  formatKey <- char_at s 19 ;;
  if (u8 formatKey =? 90) || (u8 formatKey =? 45) || (u8 formatKey =? 43) || (u8 formatKey =? 46)
  then parse_rfc3339 s
  else if u8 formatKey =? 58 then parse_rfc2822 s
  else parse_asctime s.

(** The code and [*pTickUtc], or how the call ends otherwise. *)
Definition run_parse (parse : list byte -> M Z unit) (pTickUtc : option Z) (pszDateTime : option (list byte))
    : outcome (Z * option Z) :=
  match pTickUtc, pszDateTime with
  | Some tick, Some s =>
      match parse s tick with
      | (tick', Done _) => Done (ORBIS_OK, Some tick')
      | (_, Fail e) => Fail e
      | (_, Ub) => Ub
      end
  | _, _ => Done (ORBIS_RTC_ERROR_INVALID_POINTER, pTickUtc)
  end.
Definition sceRtcParseDateTime := run_parse parse_date_time.
Definition sceRtcParseRFC3339 := run_parse parse_rfc3339.

(** ** Formatting *)

Definition weekday_names : list (list byte) :=
  [text "Sun, "; text "Mon, "; text "Tue, "; text "Wed, "; text "Thu, "; text "Fri, "; text "Sat, "].

(** The date to format: the tick, or the current one, moved by the time zone. [stack] is the
    value of the local [formatTick] before it is set. *)
Definition format_time (k : Kernel) (stack : Z) (pTickUtc : option Z) (iTimeZoneMinutes : Z) : OrbisRtcDateTime :=
  let formatTick := match pTickUtc with None => snd (sceRtcGetCurrentTick k (Some stack)) | Some t => Some t end in
  let formatTick := snd (sceRtcTickAddMinutes formatTick formatTick iTimeZoneMinutes) in
  date_of_tick (default stack formatTick).

(** The sign and the hours of a time zone, then the minutes after [separator]. *)
Definition format_zone (separator zero : list byte) (iTimeZoneMinutes : Z) : list byte :=
  if iTimeZoneMinutes =? 0 then zero else
  let timeZoneHours := Z.quot iTimeZoneMinutes 60 in
  let timeZoneRemainder := Z.rem iTimeZoneMinutes 60 in
  (if timeZoneHours <? 0 then text "-" else text "+") ++
  two_digits (Z.abs timeZoneHours) ++ separator ++
  (if timeZoneRemainder =? 0 then text "00" else to_string (Z.abs timeZoneRemainder)).

Definition rfc2822_text (k : Kernel) (t : OrbisRtcDateTime) (iTimeZoneMinutes : Z) : list byte :=
  let weekDay := sceRtcGetDayOfWeek k (year t) (month t) (day t) in
  default [] (weekday_names.[weekDay]) ++
  two_digits (day t) ++ text " " ++
  match month_names.[month t - 1] with Some name => name ++ text " " | None => [] end ++
  to_string (year t) ++ text " " ++
  two_digits (hour t) ++ text ":" ++
  two_digits (minute t) ++ text ":" ++
  two_digits (second t) ++ text " " ++
  format_zone [] (text "+0000") iTimeZoneMinutes.

(** The code and the text written to [pszDateTime], followed by a zero. *)
Definition sceRtcFormatRFC2822 (k : Kernel) (stack : Z) (pszDateTime : bool) (pTickUtc : option Z)
    (iTimeZoneMinutes : Z) : Z * option (list byte) :=
  if negb pszDateTime then (ORBIS_RTC_ERROR_INVALID_POINTER, None) else
  let formatTime := format_time k stack pTickUtc iTimeZoneMinutes in
  let validTime := sceRtcCheckValid (Some formatTime) in
  (ORBIS_OK, if 0 <=? validTime then Some (rfc2822_text k formatTime iTimeZoneMinutes) else None).

Definition rfc3339_text (t : OrbisRtcDateTime) (iTimeZoneMinutes : Z) : list byte :=
  to_string (year t) ++ text "-" ++
  two_digits (month t) ++ text "-" ++
  two_digits (day t) ++ text "T" ++
  two_digits (hour t) ++ text ":" ++
  two_digits (minute t) ++ text ":" ++
  two_digits (second t) ++
  (if negb (microsecond t =? 0) then text "." ++ take 2 (to_string (microsecond t / 1000)) else text ".00") ++
  format_zone (text ":") (text "Z") iTimeZoneMinutes.

Definition sceRtcFormatRFC3339Precise (k : Kernel) (stack : Z) (pszDateTime : bool) (pTickUtc : option Z)
    (iTimeZoneMinutes : Z) : Z * option (list byte) :=
  if negb pszDateTime then (ORBIS_RTC_ERROR_INVALID_POINTER, None) else
  (ORBIS_OK, Some (rfc3339_text (format_time k stack pTickUtc iTimeZoneMinutes) iTimeZoneMinutes)).
Definition sceRtcFormatRFC3339 := sceRtcFormatRFC3339Precise.

(** The local variants use the time zone of the host. *)
Definition sceRtcFormatRFC2822LocalTime (k : Kernel) (stack : Z) (pszDateTime : bool) (pTickUtc : option Z) :=
  sceRtcFormatRFC2822 k stack pszDateTime pTickUtc (local_offset (snd (gettimezone k))).
Definition sceRtcFormatRFC3339LocalTime (k : Kernel) (stack : Z) (pszDateTime : bool) (pTickUtc : option Z) :=
  sceRtcFormatRFC3339 k stack pszDateTime pTickUtc (local_offset (snd (gettimezone k))).
Definition sceRtcFormatRFC3339PreciseLocalTime (k : Kernel) (stack : Z) (pszDateTime : bool) (pTickUtc : option Z) :=
  sceRtcFormatRFC3339Precise k stack pszDateTime pTickUtc (local_offset (snd (gettimezone k))).

(** * Round trips *)

Lemma digit_u8 n : 0 <= n <= 9 -> u8 (digit n) = 48 + n.
Proof. intros. unfold digit. rewrite u8_to_u8. unfold wrap8. apply Z.mod_small. lia. Qed.

Lemma digit_kind n : 0 <= n <= 9 ->
  is_space (digit n) = false /\ is_digit (digit n) = true /\
  (u8 (digit n) =? 45) = false /\ (u8 (digit n) =? 43) = false.
Proof. intros. unfold is_space, is_digit. rewrite digit_u8 by done. lia. Qed.

(** The digits of a text, read. *)
Lemma digits_value_digits v l : Forall (fun n => 0 <= n <= 9) l ->
  digits_value v (List.map digit l) = fold_left (fun v n => 10 * v + n) l v.
Proof.
  intros Hl. revert v. induction Hl as [|n l Hn _ IH]; intros v; [done|]. cbn.
  destruct (digit_kind n Hn) as (_ & -> & _). rewrite digit_u8, IH by done. f_equal. lia.
Qed.

Lemma stoi_digits n l : Forall (fun n => 0 <= n <= 9) (n :: l) ->
  stoi (List.map digit (n :: l)) = Some (fold_left (fun v n => 10 * v + n) (n :: l) 0).
Proof.
  intros Hl. pose proof (digits_value_digits 0 _ Hl) as Hv. pose proof Hl as Hn. apply Forall_cons in Hn as [Hn _].
  unfold stoi. cbn [List.map skip_spaces]. destruct (digit_kind n Hn) as (-> & Hd & -> & ->). rewrite Hd.
  cbn [List.map] in Hv. rewrite Hv. f_equal. lia.
Qed.

(** Two and four decimal digits, as written and as read. *)
Lemma two_spec n : 0 <= n < 100 -> exists x y, two_digits n = [x; y] /\ stoi [x; y] = Some n.
Proof.
  intros Hn. exists (digit (n / 10)), (digit (n mod 10)). split.
  - unfold two_digits, to_string. cbn [decimal]. destruct (Z.ltb_spec n 10).
    + rewrite (Z.div_small n 10), Z.eqb_refl by lia. reflexivity.
    + rewrite (proj2 (Z.eqb_neq (n / 10) 0)), (Z.div_small (n / 10) 10), Z.eqb_refl, (Z.mod_small (n / 10)) by lia. done.
  - etrans; [apply (stoi_digits (n / 10) [n mod 10]); repeat constructor; lia|]. cbn [fold_left]. f_equal. lia.
Qed.

Lemma to_string_two n : 10 <= n -> to_string n = two_digits n.
Proof. intros. unfold two_digits. by rewrite (proj2 (Z.ltb_ge n 10)). Qed.

Lemma four_spec n : 1000 <= n < 10000 -> exists a b c d, to_string n = [a; b; c; d] /\ stoi [a; b; c; d] = Some n.
Proof.
  intros Hn. set (n1 := n / 10). set (n2 := n1 / 10). set (n3 := n2 / 10).
  assert (H1 : 100 <= n1 < 1000 /\ n = 10 * n1 + n mod 10) by (unfold n1; lia).
  assert (H2 : 10 <= n2 < 100 /\ n1 = 10 * n2 + n1 mod 10) by (unfold n2; lia).
  assert (H3 : 1 <= n3 < 10 /\ n2 = 10 * n3 + n2 mod 10) by (unfold n3; lia).
  exists (digit n3), (digit (n2 mod 10)), (digit (n1 mod 10)), (digit (n mod 10)). split.
  - unfold to_string. cbn [decimal]. fold n1. rewrite (proj2 (Z.eqb_neq n1 0)) by lia.
    fold n2. rewrite (proj2 (Z.eqb_neq n2 0)) by lia. fold n3. rewrite (proj2 (Z.eqb_neq n3 0)) by lia.
    by rewrite (Z.div_small n3), Z.eqb_refl, (Z.mod_small n3) by lia.
  - etrans; [apply (stoi_digits n3 [n2 mod 10; n1 mod 10; n mod 10]); repeat constructor; lia|].
    cbn [fold_left]. f_equal. lia.
Qed.

(** A time zone the texts can hold: up to 99 hours, minutes written with two digits, and a
    sign that survives. *)
Definition zone_ok (m : Z) : bool :=
  (-6000 <? m) && (m <? 6000) && ((Z.rem m 60 =? 0) || (10 <=? Z.abs (Z.rem m 60))) && ((0 <=? m) || (m <=? -60)).

Definition parsed_zone (sign hours minutes : Z) : Z :=
  if sign =? 43 then hours * 60 + minutes else if sign =? 45 then (hours * 60 + minutes) * -1 else 0.

Lemma quot_rem_60 m : m = 60 * Z.quot m 60 + Z.rem m 60 /\
  ((0 <= m /\ 0 <= Z.rem m 60 < 60) \/ (m < 0 /\ -60 < Z.rem m 60 <= 0)).
Proof.
  split; [by apply Z.quot_rem|]. destruct (Z_lt_le_dec m 0) as [H|H]; [right|left].
  - split; [done|]. rewrite <- (Z.opp_involutive m), Z.rem_opp_l by done.
    pose proof (Z.rem_bound_pos (- m) 60 ltac:(lia) ltac:(lia)). lia.
  - split; [done|]. apply Z.rem_bound_pos; lia.
Qed.

(** The parts of a written time zone read back. *)
Lemma zone_spec m : zone_ok m = true -> exists s a b c d h mi,
  format_zone [] (text "+0000") m = [s; a; b; c; d] /\ stoi [a; b] = Some h /\ stoi [c; d] = Some mi /\
  parsed_zone (u8 s) h mi = m /\ (u8 s = 43 \/ u8 s = 45) /\
  format_zone (text ":") (text "Z") m = (if m =? 0 then text "Z" else [s; a; b; Byte.x3a; c; d]).
Proof.
  intros Hm. unfold zone_ok in Hm. destruct (quot_rem_60 m) as [Hq Hr].
  destruct (two_spec (Z.abs (Z.quot m 60))) as (a & b & Ha & Hab); [lia|].
  destruct (two_spec (Z.abs (Z.rem m 60))) as (c & d & Hc & Hcd); [lia|].
  assert (Hmin : (if Z.rem m 60 =? 0 then text "00" else to_string (Z.abs (Z.rem m 60))) = [c; d]).
  { rewrite <- Hc. destruct (Z.eqb_spec (Z.rem m 60) 0) as [->|]; [reflexivity|]. apply to_string_two. lia. }
  exists (if Z.quot m 60 <? 0 then Byte.x2d else Byte.x2b), a, b, c, d, (Z.abs (Z.quot m 60)), (Z.abs (Z.rem m 60)).
  unfold format_zone. rewrite Hmin, Ha. split_and!; try done.
  - destruct (Z.eqb_spec m 0) as [->|]; [|by destruct (Z.quot m 60 <? 0)].
    revert Ha Hc. change (two_digits (Z.abs (Z.quot 0 60))) with [Byte.x30; Byte.x30].
    change (two_digits (Z.abs (Z.rem 0 60))) with [Byte.x30; Byte.x30]. intros [= <- <-] [= <- <-]. reflexivity.
  - unfold parsed_zone. destruct (Z.ltb_spec (Z.quot m 60) 0);
      [change (u8 Byte.x2d) with 45|change (u8 Byte.x2b) with 43]; cbn [Z.eqb Pos.eqb]; lia.
  - destruct (Z.quot m 60 <? 0); [right|left]; reflexivity.
  - destruct (Z.eqb_spec m 0); [done|]. by destruct (Z.quot m 60 <? 0).
Qed.

Lemma month_spec m : 1 <= m <= 12 -> exists a b c, month_names.[m - 1] = Some [a; b; c] /\ GetMonthFromString [a; b; c] = m.
Proof. intros Hm. month_cases m; (do 3 eexists; split; [reflexivity|vm_compute; reflexivity]). Qed.

Lemma weekday_spec w : 0 <= w < 7 -> exists a b c d e, default [] (weekday_names.[w]) = [a; b; c; d; e].
Proof.
  intros Hw. assert (H : w = 0 \/ w = 1 \/ w = 2 \/ w = 3 \/ w = 4 \/ w = 5 \/ w = 6) by lia.
  repeat destruct H as [->|H]; [..|subst w]; (do 5 eexists; reflexivity).
Qed.

#[local] Arguments stoi : simpl never.

(** ** Running the parser *)

Lemma run_number s pos count t v (k : Z -> M Z unit) st :
  take (Z.to_nat count) (drop (Z.to_nat pos) s) = t -> (pos <=? zlen s) = true -> stoi t = Some v ->
  bind (number s pos count) k st = k v st.
Proof. intros Ht Hp Hv. unfold number, substr, throw, bind. rewrite Hp, Ht. unfold ret at 1. by rewrite Hv. Qed.

Lemma run_substr s pos count t (k : list byte -> M Z unit) st :
  take (Z.to_nat count) (drop (Z.to_nat pos) s) = t -> (pos <=? zlen s) = true ->
  bind (substr s pos count) k st = k t st.
Proof. intros Ht Hp. unfold substr, throw, bind. by rewrite Hp, Ht. Qed.

Lemma run_char s i b (k : byte -> M Z unit) st :
  (i =? zlen s) = false -> s.[i] = Some b -> bind (char_at s i) k st = k b st.
Proof. intros Hi Hb. unfold char_at, bind. rewrite Hi. unfold need. by rewrite Hb. Qed.

Lemma run_get_tick t (k : unit -> M Z unit) st : date_ok t ->
  bind (get_tick t) k st = if minute t <? 36 then k tt (ticks t) else (st, Ub).
Proof.
  intros H. unfold get_tick, bind, gets, need, modify. cbn [id]. rewrite get_tick_spec by done.
  by destruct (_ <? 36).
Qed.

(** One step of a run over a text of known shape. *)
Ltac run_step :=
  first [ erewrite run_number; [|reflexivity|reflexivity|eassumption]
        | erewrite run_substr; [|reflexivity|reflexivity]
        | erewrite run_char; [|reflexivity|reflexivity] ]; cbv beta iota zeta.

Ltac open_texts :=
  change (text "-") with [Byte.x2d]; change (text "T") with [Byte.x54]; change (text ":") with [Byte.x3a];
  change (text " ") with [Byte.x20]; change (text ".00") with [Byte.x2e; Byte.x30; Byte.x30];
  change (text "Z") with [Byte.x5a]; cbn [app].

Section RoundTrip.
Context (k : Kernel) (stack old tick m : Z).
Let local : Z := tick + m * 60000000.
Let t : OrbisRtcDateTime := date_of_tick local.
Hypothesis Hlocal : 0 <= local < end_of_ticks.
Hypothesis Hyear : 1000 <= year t.
Hypothesis Hmicro : microsecond t = 0.
Hypothesis Hzone : zone_ok m = true.

Lemma local_date : date_ok t /\ ticks t = local.
Proof. by apply date_of_tick_spec. Qed.

Lemma format_time_local : format_time k stack (Some tick) m = t.
Proof.
  unfold format_time, sceRtcTickAddMinutes, tick_add. cbn [snd default].
  replace (m * 60000000 + tick) with local by (unfold local; ring). unfold id.
  rewrite wrap64_small; [done|]. unfold end_of_ticks, end_of_days in Hlocal. u64_lia.
Qed.

Lemma local_record : mkDateTime (wrap16 (year t)) (wrap16 (month t)) (wrap16 (day t)) (wrap16 (hour t))
  (wrap16 (minute t)) (wrap16 (second t)) 0 = t.
Proof.
  destruct local_date as [[] _]. pose proof (last_day_range (year t) (month t)).
  rewrite !wrap16_small by u64_lia. rewrite <- Hmicro. by destruct t.
Qed.

Lemma add_minutes_local off : off = m ->
  add_minutes off (ticks t) = (wrap64 (tick + 2 * (m * 60000000)), Done tt).
Proof.
  intros ->. unfold add_minutes, modify, sceRtcTickAddMinutes, tick_add. cbn [snd default]. unfold id.
  rewrite (proj2 local_date). unfold local. do 2 f_equal. ring.
Qed.

(** How parsing the text of [t] ends. *)
Definition parsed : Z * outcome unit :=
  if minute t <? 36 then (wrap64 (tick + 2 * (m * 60000000)), Done tt) else (old, Ub).

Lemma parse_rfc3339_text : parse_date_time (rfc3339_text t m) old = parsed.
Proof.
  destruct local_date as [Hok Hti]. pose proof (last_day_range (year t) (month t)) as Hld.
  pose proof local_record as Hrec. unfold rfc3339_text. rewrite Hmicro, Z.eqb_refl. cbn [negb].
  destruct Hok as [Hy Hmo Hd Hh Hmi Hs Hu].
  destruct (four_spec (year t)) as (y1 & y2 & y3 & y4 & -> & Ey); [lia|].
  destruct (two_spec (month t)) as (m1 & m2 & -> & Em); [lia|].
  destruct (two_spec (day t)) as (d1 & d2 & -> & Ed); [lia|].
  destruct (two_spec (hour t)) as (h1 & h2 & -> & Eh); [lia|].
  destruct (two_spec (minute t)) as (i1 & i2 & -> & Ei); [lia|].
  destruct (two_spec (second t)) as (s1 & s2 & -> & Es); [lia|].
  destruct (zone_spec m Hzone) as (z & a & b & c & d & zh & zm & _ & Ezh & Ezm & Ez & Hz & ->).
  assert (E0 : stoi [Byte.x30; Byte.x30] = Some 0) by reflexivity.
  assert (Hok : date_ok t) by (split; lia).
  destruct (Z.eqb_spec m 0) as [H0|H0]; open_texts; unfold parse_date_time; run_step;
    change (u8 Byte.x2e) with 46; cbn [Z.eqb Pos.eqb orb]; unfold parse_rfc3339; do 7 run_step;
    change (u8 Byte.x2e) with 46; cbn [Z.eqb Pos.eqb]; run_step;
    rewrite (wrap32_small 0), Hrec by u64_lia; rewrite run_get_tick by done; unfold parsed;
    (destruct (minute t <? 36); [|done]); run_step.
  - change (u8 Byte.x5a) with 90. cbn [Z.eqb Pos.eqb negb]. unfold when, ret. rewrite Hti. unfold local, end_of_ticks, end_of_days in *.
    rewrite H0 in *. rewrite wrap64_small by u64_lia. f_equal; lia.
  - unfold parsed_zone in Ez. destruct Hz as [Hz|Hz]; rewrite Hz in *; cbn [Z.eqb Pos.eqb negb]; unfold when; do 2 run_step;
      by apply add_minutes_local.
Qed.

Lemma day_of_week_names : exists a b c d e,
  default [] (weekday_names.[sceRtcGetDayOfWeek k (year t) (month t) (day t)]) = [a; b; c; d; e].
Proof.
  apply weekday_spec. rewrite day_of_week_spec by apply local_date. by apply Z.mod_pos_bound.
Qed.

Lemma parse_rfc2822_text : parse_date_time (rfc2822_text k t m) old = parsed.
Proof.
  destruct local_date as [Hok Hti]. pose proof (last_day_range (year t) (month t)) as Hld.
  pose proof local_record as Hrec. unfold rfc2822_text.
  destruct day_of_week_names as (w1 & w2 & w3 & w4 & w5 & ->).
  destruct Hok as [Hy Hmo Hd Hh Hmi Hs Hu].
  destruct (four_spec (year t)) as (y1 & y2 & y3 & y4 & -> & Ey); [lia|].
  destruct (month_spec (month t)) as (m1 & m2 & m3 & -> & Em); [lia|].
  destruct (two_spec (day t)) as (d1 & d2 & -> & Ed); [lia|].
  destruct (two_spec (hour t)) as (h1 & h2 & -> & Eh); [lia|].
  destruct (two_spec (minute t)) as (i1 & i2 & -> & Ei); [lia|].
  destruct (two_spec (second t)) as (s1 & s2 & -> & Es); [lia|].
  destruct (zone_spec m Hzone) as (z & a & b & c & d & zh & zm & -> & Ezh & Ezm & Ez & Hz & _).
  assert (Hok : date_ok t) by (split; lia). rewrite (wrap16_small (month t)) in Hrec by u64_lia.
  open_texts. unfold parse_date_time. run_step. change (u8 Byte.x3a) with 58. cbn [Z.eqb Pos.eqb orb].
  unfold parse_rfc2822. do 6 run_step.
  change (GetMonthFromString _) with (GetMonthFromString [m1; m2; m3]). rewrite Em, Hrec. rewrite run_get_tick by done.
  unfold parsed. destruct (minute t <? 36); [|done]. run_step.
  unfold parsed_zone in Ez. destruct Hz as [Hz|Hz]; rewrite Hz in *; cbn [Z.eqb Pos.eqb]; do 2 run_step;
    by apply add_minutes_local.
Qed.
End RoundTrip.

Section Zones.
Context (k : Kernel) (stack old tick m : Z).
Let t : OrbisRtcDateTime := date_of_tick (tick + m * 60000000).
Hypothesis Hlocal : 0 <= tick + m * 60000000 < end_of_ticks.
Hypothesis Hyear : 1000 <= year t.
Hypothesis Hmicro : microsecond t = 0.
Hypothesis Hzone : zone_ok m = true.

(** C11. The RFC 3339 text of a whole second (of a year of four digits, with a time zone the
    text can hold) is accepted when the minute of the local date is below 36: the tick read
    back is the one formatted plus twice the time zone, so it is the one formatted exactly for
    UTC. The parser adds the zone it should subtract. From minute 36 on the tick of the date
    read is undefined. *)
Theorem ParseDateTime_RFC3339 :
  exists s, sceRtcFormatRFC3339Precise k stack true (Some tick) m = (ORBIS_OK, Some s) /\
    sceRtcParseDateTime (Some old) (Some s) =
      if minute t <? 36 then Done (ORBIS_OK, Some (wrap64 (tick + 2 * (m * 60000000)))) else Ub.
Proof.
  eexists. split; [reflexivity|]. rewrite (format_time_local k stack tick m Hlocal).
  unfold sceRtcParseDateTime, run_parse. rewrite (parse_rfc3339_text old tick m) by done. unfold parsed.
  fold t. by destruct (minute t <? 36).
Qed.

(** The same for the RFC 2822 text, for every SDK version. *)
Theorem ParseDateTime_RFC2822 :
  exists s, sceRtcFormatRFC2822 k stack true (Some tick) m = (ORBIS_OK, Some s) /\
    sceRtcParseDateTime (Some old) (Some s) =
      if minute t <? 36 then Done (ORBIS_OK, Some (wrap64 (tick + 2 * (m * 60000000)))) else Ub.
Proof.
  unfold sceRtcFormatRFC2822. cbn [negb]. rewrite (format_time_local k stack tick m Hlocal).
  destruct (local_date tick m Hlocal) as [Hok _].
  rewrite (proj2 (check_valid_ok _ (date_ok_unsigned _ Hok)) Hok). eexists. split; [reflexivity|].
  unfold sceRtcParseDateTime, run_parse. rewrite (parse_rfc2822_text k old tick m) by done. unfold parsed.
  fold t. by destruct (minute t <? 36).
Qed.
End Zones.

Definition example_tick : Z := ticks (mkDateTime 2024 2 29 13 14 15 0).

Lemma ParseDateTime_RFC3339_witness :
  exists s, sceRtcFormatRFC3339Precise example_kernel 7 true (Some example_tick) 70 = (ORBIS_OK, Some s) /\
    sceRtcParseDateTime (Some 0) (Some s) = Done (ORBIS_OK, Some (example_tick + 8400000000)).
Proof.
  destruct (ParseDateTime_RFC3339 example_kernel 7 0 example_tick 70) as (s & Hs & Hp);
    [vm_compute; split; [discriminate|reflexivity]|vm_compute; discriminate|vm_compute; reflexivity|vm_compute; reflexivity|].
  exists s. split; [exact Hs|]. rewrite Hp. vm_compute. reflexivity.
Defined.

Lemma ParseDateTime_RFC2822_witness :
  exists s, sceRtcFormatRFC2822 example_kernel 7 true (Some example_tick) 0 = (ORBIS_OK, Some s) /\
    sceRtcParseDateTime (Some 0) (Some s) = Done (ORBIS_OK, Some example_tick).
Proof.
  destruct (ParseDateTime_RFC2822 example_kernel 7 0 example_tick 0) as (s & Hs & Hp);
    [vm_compute; split; [discriminate|reflexivity]|vm_compute; discriminate|vm_compute; reflexivity|vm_compute; reflexivity|].
  exists s. split; [exact Hs|]. rewrite Hp. vm_compute. reflexivity.
Defined.
