(* ===== verification/KernelErrors.v ===== *)
(** The result codes of the kernel calls: src/src/core/libraries/kernel/orbis_error.h. An error
    is an unsigned literal kept in an [int]. *)
From Stdlib Require Import ZArith.
From S2P Require Import Prelude.

Definition ORBIS_OK : Z := 0.
Definition ORBIS_KERNEL_ERROR_UNKNOWN : Z := s32 0x80020000.
Definition ORBIS_KERNEL_ERROR_EPERM : Z := s32 0x80020001.
Definition ORBIS_KERNEL_ERROR_ENOENT : Z := s32 0x80020002.
Definition ORBIS_KERNEL_ERROR_ESRCH : Z := s32 0x80020003.
Definition ORBIS_KERNEL_ERROR_EBADF : Z := s32 0x80020009.
Definition ORBIS_KERNEL_ERROR_ENOMEM : Z := s32 0x8002000C.
Definition ORBIS_KERNEL_ERROR_EACCES : Z := s32 0x8002000D.
Definition ORBIS_KERNEL_ERROR_EFAULT : Z := s32 0x8002000E.
Definition ORBIS_KERNEL_ERROR_EBUSY : Z := s32 0x80020010.
Definition ORBIS_KERNEL_ERROR_EINVAL : Z := s32 0x80020016.
Definition ORBIS_KERNEL_ERROR_EAGAIN : Z := s32 0x80020023.
Definition ORBIS_KERNEL_ERROR_ETIMEDOUT : Z := s32 0x8002003C.
Definition ORBIS_KERNEL_ERROR_ENAMETOOLONG : Z := s32 0x8002003F.
Definition ORBIS_KERNEL_ERROR_ECANCELED : Z := s32 0x80020055.
