(* ===== verification/Semaphore.v ===== *)
(** The kernel semaphores: src/src/core/libraries/kernel/threads/semaphore.cpp.

    [OrbisSem] is a counting semaphore with a queue of waiting threads. A method runs under
    the mutex and is one step; a blocking wait is two steps, the one that queues the thread and
    the one that resumes it. The [WaitingThread] objects live on the stacks of the blocked
    threads: they are a store keyed by thread, and the queue is a list of threads, so that a
    thread that left the queue but has not resumed is represented. *)
From Stdlib Require Import ZArith Lia Sorting.Sorted.
From stdpp Require Import base gmap list list_numbers strings.
From S2P Require Import Prelude.
From S2P Require Import KernelErrors.

Definition S32_MAX : Z := 2147483647.

(** ** [OrbisSem] *)

(** [timeout] is what the [timeout] pointer of the call pointed to. *)
Record WaitingThread := mkWaitingThread {
  priority : Z;
  need_count : Z;
  timeout : option Z;
  was_signaled : bool;
  was_deleted : bool;
  was_canceled : bool
}.
#[export] Instance eta_WaitingThread : Eta WaitingThread := fun w =>
  mkWaitingThread (priority w) (need_count w) (timeout w) (was_signaled w) (was_deleted w) (was_canceled w).

Record OrbisSem := mkOrbisSem {
  token_count : Z;
  max_count : Z;
  init_count : Z;
  is_fifo : bool;
  wait_list : list Z;
  waiting : gmap Z WaitingThread
}.
#[export] Instance eta_OrbisSem : Eta OrbisSem := fun s =>
  mkOrbisSem (token_count s) (max_count s) (init_count s) (is_fifo s) (wait_list s) (waiting s).

(** The constructor. *)
Definition new_sem (init max : Z) (fifo : bool) : OrbisSem := mkOrbisSem init max init fifo [] ∅.

Definition GetResult (w : WaitingThread) : Z :=
  if was_signaled w then ORBIS_OK
  else if was_deleted w then ORBIS_KERNEL_ERROR_EACCES
  else if was_canceled w then ORBIS_KERNEL_ERROR_ECANCELED
  else ORBIS_KERNEL_ERROR_ETIMEDOUT.

(** The thread's binary semaphore has been released. *)
Definition released (w : WaitingThread) : bool := was_signaled w || was_deleted w || was_canceled w.

Definition priority_of (threads : gmap Z WaitingThread) (id : Z) : Z :=
  match threads !! id with Some w => priority w | None => 0 end.

(** Before the first waiter of a greater priority number. *)
Definition AddWaiter (s : OrbisSem) (id p : Z) : list Z :=
  if is_fifo s then wait_list s ++ [id] else insert_before (fun x => priority_of (waiting s) x <=? p) id (wait_list s).

Inductive WaitOutcome := Returned (result : Z) | Blocked.

(** [Wait] up to the point where the thread sleeps. *)
Definition WaitBegin (s : OrbisSem) (thread prio : Z) (can_block : bool) (need : Z) (timeout : option Z)
    : WaitOutcome * OrbisSem :=
  if need <=? token_count s then (Returned ORBIS_OK, s <| token_count ::= fun t => s32 (t - need) |>)
  else if negb can_block then (Returned ORBIS_KERNEL_ERROR_EBUSY, s)
  else if match timeout with Some t => t =? 0 | None => false end then (Returned ORBIS_KERNEL_ERROR_ETIMEDOUT, s)
  else
    let p := if is_fifo s then 0 else prio in
    let waiter := mkWaitingThread p need timeout false false false in
    (Blocked, s <| wait_list := AddWaiter s thread p |> <| waiting ::= <[thread := waiter]> |>).

(** [WaitingThread::Wait], [elapsed] microseconds later: the result and [*timeout]. [None] when
    the thread still sleeps: it has not been released, and has no timeout or one that is not
    over. *)
Definition waiter_wait (w : WaitingThread) (elapsed : Z) : option (Z * option Z) :=
  if negb (released w) && match timeout w with None => true | Some t => elapsed <? t end then None
  else Some (GetResult w, match timeout w with
                          | None => None
                          | Some t => Some (if was_signaled w then wrap32 (t - elapsed) else 0)
                          end).

(** The rest of [Wait]: the result, [*timeout] and the semaphore. *)
Definition WaitEnd (s : OrbisSem) (thread elapsed : Z) : option (Z * option Z * OrbisSem) :=
  w ← waiting s !! thread;
  '(result, remaining) ← waiter_wait w elapsed;
  let s := s <| waiting ::= delete thread |> in
  Some (result, remaining,
        if result =? ORBIS_KERNEL_ERROR_ETIMEDOUT
        then s <| wait_list ::= fun l => List.filter (fun x => negb (x =? thread)) l |> else s).

(** The loop of [Signal] over the queue: the tokens left, the threads, the queue left. [None]
    is a queued thread that is gone. *)
Fixpoint signal_loop (token : Z) (threads : gmap Z WaitingThread) (l : list Z)
    : option (Z * gmap Z WaitingThread * list Z) :=
  match l with
  | [] => Some (token, threads, [])
  | id :: r =>
      w ← threads !! id;
      if token <? need_count w then
        '(token', threads', kept) ← signal_loop token threads r;
        Some (token', threads', id :: kept)
      else
        signal_loop (s32 (token - need_count w)) (<[id := w <| was_signaled := true |>]> threads) r
  end.

Definition Signal (s : OrbisSem) (signal_count : Z) : option (bool * OrbisSem) :=
  if max_count s <? s32 (token_count s + signal_count) then Some (false, s) else
  '(token, threads, kept) ← signal_loop (s32 (token_count s + signal_count)) (waiting s) (wait_list s);
  Some (true, s <| token_count := token |> <| waiting := threads |> <| wait_list := kept |>).

(** [for (auto* waiter : wait_list)]: a flag is set in every queued thread. *)
Definition flag_all (flag : WaitingThread -> WaitingThread) (s : OrbisSem) : gmap Z WaitingThread :=
  alter_each flag (wait_list s) (waiting s).

(** [Cancel]: the number of waiters and the semaphore. *)
Definition Cancel (s : OrbisSem) (set_count : Z) : Z * OrbisSem :=
  (s32 (zlen (wait_list s)),
   s <| waiting := flag_all (fun w => w <| was_canceled := true |>) s |> <| wait_list := [] |>
     <| token_count := if set_count <? 0 then init_count s else set_count |>).

Definition Delete (s : OrbisSem) : OrbisSem :=
  s <| waiting := flag_all (fun w => w <| was_deleted := true |>) s |> <| wait_list := [] |>.

(** ** The semaphore table *)

(** [orbis_sems]: the allocated slots. *)
Definition Table := gmap Z OrbisSem.

(** [slot] is the free slot that [insert] picks. *)
Definition sceKernelCreateSema (t : Table) (slot : Z) (has_name : bool) (attr initCount maxCount : Z) : Z * Table :=
  if negb has_name || (2 <? attr) || (initCount <? 0) || (maxCount <=? 0) || (maxCount <? initCount)
  then (ORBIS_KERNEL_ERROR_EINVAL, t)
  else (ORBIS_OK, <[slot := new_sem initCount maxCount (attr =? 1)]> t).

Definition sceKernelWaitSema (t : Table) (sem thread prio needCount : Z) (pTimeout : option Z) : WaitOutcome * Table :=
  match t !! sem with
  | None => (Returned ORBIS_KERNEL_ERROR_ESRCH, t)
  | Some s => let '(r, s') := WaitBegin s thread prio true needCount pTimeout in (r, <[sem := s']> t)
  end.

Definition sceKernelSignalSema (t : Table) (sem signalCount : Z) : option (Z * Table) :=
  match t !! sem with
  | None => Some (ORBIS_KERNEL_ERROR_ESRCH, t)
  | Some s =>
      '(ok, s') ← Signal s signalCount;
      Some (if (ok : bool) then ORBIS_OK else ORBIS_KERNEL_ERROR_EINVAL, <[sem := s']> t)
  end.

Definition sceKernelPollSema (t : Table) (sem thread prio needCount : Z) : WaitOutcome * Table :=
  match t !! sem with
  | None => (Returned ORBIS_KERNEL_ERROR_ESRCH, t)
  | Some s => let '(r, s') := WaitBegin s thread prio false needCount None in (r, <[sem := s']> t)
  end.

(** The code, the number of waiters and the table. *)
Definition sceKernelCancelSema (t : Table) (sem setCount : Z) : Z * option Z * Table :=
  match t !! sem with
  | None => (ORBIS_KERNEL_ERROR_ESRCH, None, t)
  | Some s => let '(n, s') := Cancel s setCount in (ORBIS_OK, Some n, <[sem := s']> t)
  end.

(** The code, the semaphore after [Delete], whose threads resume with it, and the table. *)
Definition sceKernelDeleteSema (t : Table) (sem : Z) : Z * option OrbisSem * Table :=
  match t !! sem with
  | None => (ORBIS_KERNEL_ERROR_ESRCH, None, t)
  | Some s => (ORBIS_OK, Some (Delete s), delete sem t)
  end.

(** * The semaphore as a transition system *)

Inductive event :=
| EWait (thread prio : Z) (can_block : bool) (need : Z) (timeout : option Z) (o : WaitOutcome)
| EResume (thread elapsed result : Z)
| ESignal (count : Z) (ok : bool)
| ECancel (count : Z)
| EDelete.

(** A call and what it does; a thread calls [Wait] only when it is not blocked. *)
Inductive step : OrbisSem -> event -> OrbisSem -> Prop :=
| StepWait s thread prio can_block need timeout o s' :
    waiting s !! thread = None ->
    WaitBegin s thread prio can_block need timeout = (o, s') ->
    step s (EWait thread prio can_block need timeout o) s'
| StepResume s thread elapsed result remaining s' :
    WaitEnd s thread elapsed = Some (result, remaining, s') ->
    step s (EResume thread elapsed result) s'
| StepSignal s count ok s' : Signal s count = Some (ok, s') -> step s (ESignal count ok) s'
| StepCancel s count n s' : Cancel s count = (n, s') -> step s (ECancel count) s'
| StepDelete s : step s EDelete (Delete s).

Inductive steps : OrbisSem -> list event -> OrbisSem -> Prop :=
| StepsNil s : steps s [] s
| StepsSnoc s l s' e s'' : steps s l s' -> step s' e s'' -> steps s (l ++ [e]) s''.

(** Arguments that keep the count in range: counts are not negative, a signal does not
    overflow an [s32], and [Cancel] sets at most the maximum. *)
Definition disciplined (max : Z) (e : event) : Prop :=
  match e with
  | EWait _ _ _ need _ _ => 0 <= need
  | ESignal count _ => 0 <= count <= S32_MAX - max
  | ECancel count => count <= max
  | _ => True
  end.

(** Queued in the order of the priority numbers. *)
Definition ordered (s : OrbisSem) : Prop :=
  StronglySorted (fun a b => priority_of (waiting s) a <= priority_of (waiting s) b) (wait_list s).

(** The state of a semaphore in use: the count is between zero and the maximum; the queue
    holds, once each, the blocked threads that nothing released; none of them could be served
    with the tokens there are; and unless the queue is a FIFO it is ordered by priority. *)
Record sem_ok (s : OrbisSem) : Prop := {
  so_count : 0 <= token_count s <= max_count s;
  so_limits : 0 <= init_count s <= max_count s /\ max_count s <= S32_MAX;
  so_nodup : NoDup (wait_list s);
  so_queued : forall id, id ∈ wait_list s ->
    exists w, waiting s !! id = Some w /\ released w = false /\ token_count s < need_count w;
  so_released : forall id w, waiting s !! id = Some w -> id ∉ wait_list s -> released w = true;
  so_order : is_fifo s = false -> ordered s
}.

Lemma add_waiter_perm s id p : AddWaiter s id p ≡ₚ id :: wait_list s.
Proof.
  unfold AddWaiter. destruct (is_fifo s); [|apply insert_before_perm]. symmetry. apply Permutation_cons_append.
Qed.

Lemma priority_insert_ne threads id w x : x <> id -> priority_of (<[id := w]> threads) x = priority_of threads x.
Proof. intros. unfold priority_of. by rewrite lookup_insert_ne. Qed.

Lemma insert_by_priority threads l id w : id ∉ l ->
  StronglySorted (fun a b => priority_of threads a <= priority_of threads b) l ->
  StronglySorted (fun a b => priority_of (<[id := w]> threads) a <= priority_of (<[id := w]> threads) b)
    (insert_before (fun x => priority_of threads x <=? priority w) id l).
Proof.
  intros Hid Hs. assert (Hne : forall x, x ∈ l -> priority_of (<[id := w]> threads) x = priority_of threads x)
    by (intros x Hx; apply priority_insert_ne; by intros ->).
  apply insert_before_sorted; [lia| |eapply sorted_weaken; [|exact Hs]; intros a b Ha Hb; by rewrite !Hne].
  intros y Hy. rewrite Hne by done.
  assert (priority_of (<[id := w]> threads) id = priority w) as -> by (unfold priority_of; by rewrite lookup_insert_eq).
  destruct (Z.leb_spec (priority_of threads y) (priority w)); lia.
Qed.

(** ** Waiting *)

Lemma new_sem_ok init max fifo : 0 <= init <= max -> max <= S32_MAX -> sem_ok (new_sem init max fifo).
Proof.
  intros ??. split; cbn.
  - done.
  - done.
  - constructor.
  - by intros id ?%not_elem_of_nil.
  - intros id w Hw. by rewrite lookup_empty in Hw.
  - intros _. constructor.
Qed.

Lemma wait_begin_ok s thread prio can_block need timeout o s' :
  sem_ok s -> waiting s !! thread = None -> 0 <= need ->
  WaitBegin s thread prio can_block need timeout = (o, s') -> sem_ok s'.
Proof.
  intros [Hc Hl Hn Hq Hr Ho] Hth Hneed H. unfold WaitBegin in H.
  destruct (Z.leb_spec need (token_count s)) as [Hle|Hgt].
  { injection H as <- <-. assert (Ht : s32 (token_count s - need) = token_count s - need) by (apply s32_small; unfold S32_MAX in *; lia).
    split; cbn; rewrite ?Ht; try done; [lia|]. intros id Hid. destruct (Hq id Hid) as (w & ? & ? & ?). exists w. split_and!; [done..|lia]. }
  destruct (negb can_block); [by injection H as <- <-|].
  destruct (match timeout with Some t => t =? 0 | None => false end); [by injection H as <- <-|].
  injection H as <- <-. set (p := if is_fifo s then 0 else prio).
  assert (Hid : thread ∉ wait_list s) by (intros Hin; destruct (Hq _ Hin) as (w & Hw & _); congruence).
  split; cbn; try done.
  - rewrite add_waiter_perm. by constructor.
  - intros id. rewrite add_waiter_perm. intros [->|Hin]%elem_of_cons.
    + rewrite lookup_insert_eq. eexists. split; [done|]. split; [done|]. cbn. lia.
    + assert (id <> thread) by (by intros ->). rewrite lookup_insert_ne by done. by apply Hq.
  - intros id w. rewrite add_waiter_perm. intros Hw [Hne Hnin]%not_elem_of_cons.
    rewrite lookup_insert_ne in Hw by done. by eapply Hr.
  - intros Hf. unfold ordered, AddWaiter. cbn. rewrite Hf.
    apply (insert_by_priority _ _ _ (mkWaitingThread p need timeout false false false)); [done|by apply Ho].
Qed.

(** A released thread is not in the queue. *)
Lemma released_not_queued s id w : sem_ok s -> waiting s !! id = Some w -> released w = true -> id ∉ wait_list s.
Proof. intros Hok Hw Hr Hin. destruct (so_queued _ Hok id Hin) as (w' & Hw' & Hr' & _). congruence. Qed.

Lemma timed_out_code w : GetResult w = ORBIS_KERNEL_ERROR_ETIMEDOUT <-> released w = false.
Proof. unfold GetResult, released. destruct (was_signaled w), (was_deleted w), (was_canceled w); split; vm_compute; congruence. Qed.

Lemma wait_end_ok s thread elapsed result remaining s' :
  sem_ok s -> WaitEnd s thread elapsed = Some (result, remaining, s') -> sem_ok s'.
Proof.
  intros Hok H. pose proof Hok as [Hc Hl Hn Hq Hr Ho]. unfold WaitEnd, waiter_wait in H.
  destruct (waiting s !! thread) as [w|] eqn:Hw; [|done]. cbn in H.
  destruct (negb (released w) && _); [done|]. cbn in H.
  assert (Hs' : s' = s <| waiting ::= delete thread |> <| wait_list ::= fun l => List.filter (fun x => negb (x =? thread)) l |>).
  { destruct (GetResult w =? ORBIS_KERNEL_ERROR_ETIMEDOUT) eqn:E; injection H as _ _ <-; [done|].
    apply Z.eqb_neq in E. rewrite timed_out_code, not_false_iff_true in E.
    pose proof (released_not_queued s thread w Hok Hw E) as Hnin. unfold upd. cbn.
    by rewrite (filter_absent _ _ Hnin). }
  subst s'. clear H. split; cbn; try done.
  - apply base.NoDup_ListNoDup, List.NoDup_filter. by apply base.NoDup_ListNoDup.
  - intros id [Hin Hne]%filter_removed. rewrite lookup_delete_ne by done. by apply Hq.
  - intros id v Hv Hnin. apply lookup_delete_Some in Hv as [Hne Hv]. apply (Hr id v Hv).
    intros Hin. apply Hnin. by apply filter_removed.
  - intros Hf. unfold ordered. cbn. eapply sorted_weaken; [|by apply sorted_filter, Ho].
    intros a b [_ Ha]%filter_removed [_ Hb]%filter_removed. unfold priority_of. by rewrite !lookup_delete_ne.
Qed.

(** ** Signalling *)

Definition need_of (threads : gmap Z WaitingThread) (id : Z) : Z :=
  match threads !! id with Some w => need_count w | None => 0 end.
Definition needs (threads : gmap Z WaitingThread) (l : list Z) : Z := foldr Z.add 0 (List.map (need_of threads) l).

(** What one pass over the queue does: it serves some of the threads and keeps the others, in
    order; the tokens pay for the served; no kept thread could be served with the rest. *)
Record granted (token : Z) (threads : gmap Z WaitingThread) (l served kept : list Z)
    (token' : Z) (threads' : gmap Z WaitingThread) : Prop := {
  gr_split : l ≡ₚ served ++ kept;
  gr_kept : kept `sublist_of` l;
  gr_served : served `sublist_of` l;
  gr_pay : token' + needs threads served = token;
  gr_token : 0 <= token' <= token;
  gr_short : forall id, id ∈ kept -> token' < need_of threads id;
  gr_signaled : forall id w, id ∈ served -> threads !! id = Some w -> threads' !! id = Some (w <| was_signaled := true |>);
  gr_others : forall id, id ∉ served -> threads' !! id = threads !! id;
  gr_first : forall id r, l = id :: r -> need_of threads id <= token -> id ∈ served
}.

Lemma needs_insert threads id w l : id ∉ l -> needs (<[id := w]> threads) l = needs threads l.
Proof.
  induction l as [|x l IH]; [done|]. intros [Hne Hl]%not_elem_of_cons. unfold needs in *. cbn. rewrite IH by done.
  unfold need_of at 1. by rewrite lookup_insert_ne by congruence.
Qed.

Lemma signal_loop_spec token threads l :
  0 <= token <= S32_MAX -> NoDup l ->
  (forall id, id ∈ l -> exists w, threads !! id = Some w /\ 0 <= need_count w) ->
  exists served kept token' threads',
    signal_loop token threads l = Some (token', threads', kept) /\ granted token threads l served kept token' threads'.
Proof.
  revert token threads. induction l as [|id r IH]; intros token threads Ht Hn Hw.
  { exists [], [], token, threads. split; [done|]. split; unfold needs; cbn; try done; try lia.
    all: first [by intros id Hin%not_elem_of_nil|by intros id w Hin%not_elem_of_nil]. }
  apply NoDup_cons in Hn as [Hid Hn]. destruct (Hw id ltac:(by left)) as (w & Hwi & Hneed). cbn. rewrite Hwi. cbn.
  destruct (Z.ltb_spec token (need_count w)) as [Hlt|Hge].
  - destruct (IH token threads Ht Hn) as (served & kept & token' & threads' & -> & G); [intros; apply Hw; by right|].
    destruct G. exists served, (id :: kept), token', threads'. split; [done|]. split; try done.
    + rewrite gr_split0. apply Permutation_middle.
    + by constructor.
    + by apply sublist_cons.
    + intros x [->|Hx]%elem_of_cons; [|by apply gr_short0]. unfold need_of. rewrite Hwi. lia.
    + intros x k [= <- <-]. unfold need_of. rewrite Hwi. lia.
  - rewrite s32_small by (unfold S32_MAX in *; lia).
    destruct (IH (token - need_count w) (<[id:=w <| was_signaled := true |>]> threads)) as (served & kept & token' & threads' & -> & G);
      [lia|done| |].
    { intros x Hx. assert (x <> id) by (by intros ->). rewrite lookup_insert_ne by done. apply Hw. by right. }
    destruct G. exists (id :: served), kept, token', threads'. split; [done|].
    assert (Hs : id ∉ served) by (intros Hin; apply Hid; by eapply elem_of_sublist).
    assert (Hk : id ∉ kept) by (intros Hin; apply Hid; by eapply elem_of_sublist).
    split; try done.
    + by rewrite gr_split0.
    + by apply sublist_cons.
    + by constructor.
    + rewrite needs_insert in gr_pay0 by done. unfold needs in *. cbn. unfold need_of at 1. rewrite Hwi. lia.
    + lia.
    + intros x Hx. specialize (gr_short0 x Hx). unfold need_of in *. by rewrite lookup_insert_ne in gr_short0 by congruence.
    + intros x v [->|Hx]%elem_of_cons Hv.
      * rewrite Hwi in Hv. injection Hv as <-. rewrite gr_others0 by done. by rewrite lookup_insert_eq.
      * apply gr_signaled0; [done|]. by rewrite lookup_insert_ne by congruence.
    + intros x [Hne Hx]%not_elem_of_cons. rewrite gr_others0 by done. by rewrite lookup_insert_ne.
    + intros x k [= <- <-] _. by left.
Qed.

Lemma queued_needs s : sem_ok s -> forall id, id ∈ wait_list s -> exists w, waiting s !! id = Some w /\ 0 <= need_count w.
Proof. intros [Hc _ _ Hq _ _] id Hin. destruct (Hq id Hin) as (w & Hw & _ & Hn). exists w. split; [done|lia]. Qed.

(** [Signal] on a semaphore in use: refused, or a pass over the queue. *)
Lemma signal_spec s count : sem_ok s -> 0 <= count <= S32_MAX - max_count s ->
  if max_count s <? token_count s + count then Signal s count = Some (false, s)
  else exists served kept token threads,
    Signal s count = Some (true, s <| token_count := token |> <| waiting := threads |> <| wait_list := kept |>) /\
    granted (token_count s + count) (waiting s) (wait_list s) served kept token threads.
Proof.
  intros Hok Hc. pose proof (so_count _ Hok) as Ht. destruct (so_limits _ Hok) as [_ Hm]. unfold Signal.
  rewrite s32_small by (unfold S32_MAX in *; lia). destruct (Z.ltb_spec (max_count s) (token_count s + count)); [done|].
  destruct (signal_loop_spec (token_count s + count) (waiting s) (wait_list s)) as (served & kept & token & threads & -> & G);
    [lia|apply (so_nodup _ Hok)|by apply queued_needs|].
  by exists served, kept, token, threads.
Qed.

Lemma signal_ok s count ok s' : sem_ok s -> 0 <= count <= S32_MAX - max_count s ->
  Signal s count = Some (ok, s') -> sem_ok s'.
Proof.
  intros Hok Hc H. pose proof (signal_spec s count Hok Hc) as Hs.
  destruct (Z.ltb_spec (max_count s) (token_count s + count)) as [|Hle]; [rewrite Hs in H; by injection H as _ <-|].
  destruct Hs as (served & kept & token & threads & Hs & G). rewrite Hs in H. injection H as _ <-. clear Hs.
  destruct Hok as [Ht Hl Hn Hq Hr Ho]. destruct G.
  assert (Hd : forall id, id ∈ served -> id ∉ kept).
  { intros id Hi Hk. rewrite gr_split0 in Hn. apply NoDup_app in Hn as (_ & Hn & _). by apply (Hn id). }
  split; cbn.
  - lia.
  - done.
  - by eapply sublist_NoDup.
  - intros id Hin. assert (Hl' : id ∈ wait_list s) by by eapply elem_of_sublist.
    destruct (Hq id Hl') as (w & Hw & Hrel & _). exists w. split_and!; [|done|].
    + rewrite gr_others0; [done|]. intros Hs. by apply (Hd id).
    + specialize (gr_short0 id Hin). unfold need_of in gr_short0. by rewrite Hw in gr_short0.
  - intros id w Hw Hnin. destruct (decide (id ∈ served)) as [Hs|Hs].
    + assert (Hl' : id ∈ wait_list s) by by eapply elem_of_sublist. destruct (Hq id Hl') as (v & Hv & _ & _).
      rewrite (gr_signaled0 id v Hs Hv) in Hw. by injection Hw as <-.
    + rewrite gr_others0 in Hw by done. apply (Hr id w Hw). rewrite gr_split0, elem_of_app. tauto.
  - intros Hf. unfold ordered. cbn. eapply sorted_weaken; [|eapply sorted_sublist; [exact gr_kept0|by apply Ho]].
    intros a b Ha Hb. unfold priority_of. rewrite !gr_others0; [done|intros Hs; by apply (Hd b)|intros Hs; by apply (Hd a)].
Qed.

(** ** Cancelling and deleting *)

(** Emptying the queue after releasing its threads. *)
Lemma release_all_ok s flag token : sem_ok s -> (forall w, released (flag w) = true) -> 0 <= token <= max_count s ->
  sem_ok (s <| waiting := flag_all flag s |> <| wait_list := [] |> <| token_count := token |>).
Proof.
  intros [Hc Hl Hn Hq Hr Ho] Hf Ht. split; cbn; try done.
  - constructor.
  - by intros id Hin%not_elem_of_nil.
  - intros id w. unfold flag_all. rewrite alter_each_lookup by done. destruct (decide (id ∈ wait_list s)) as [Hin|Hin].
    + intros (v & _ & ->)%fmap_Some _. apply Hf.
    + intros Hw _. by apply (Hr id).
  - intros _. constructor.
Qed.

Lemma cancel_ok s count : sem_ok s -> count <= max_count s -> sem_ok (snd (Cancel s count)).
Proof.
  intros Hok Hc. apply release_all_ok; [done|by intros [? ? ? [] [] ?]|]. destruct (so_limits _ Hok). destruct (Z.ltb_spec count 0); lia.
Qed.

Lemma delete_ok s : sem_ok s -> sem_ok (Delete s).
Proof.
  intros Hok. pose proof (so_count _ Hok) as Hc.
  replace (Delete s) with (s <| waiting := flag_all (fun w => w <| was_deleted := true |>) s |> <| wait_list := [] |>
    <| token_count := token_count s |>) by (unfold Delete; by destruct s).
  apply release_all_ok; [done|by intros [? ? ? [] ? ?]|done].
Qed.

Lemma step_max s e s' : step s e s' -> max_count s' = max_count s.
Proof.
  destruct 1 as [s thread prio cb need timeout o s' _ H|s thread elapsed result remaining s' H|s count ok s' H|s count n s' H|s];
    [..|done].
  - unfold WaitBegin in H. repeat case_match; by injection H as _ <-.
  - unfold WaitEnd, waiter_wait in H. destruct (waiting s !! thread); [|done]. cbn in H. destruct (negb _ && _); [done|].
    injection H as _ _ <-. by destruct (_ =? _).
  - unfold Signal in H. destruct (_ <? _); [by injection H as _ <-|].
    destruct (signal_loop _ _ _) as [[[? ?] ?]|]; [|done]. by injection H as _ <-.
  - by injection H as _ <-.
Qed.

Lemma step_ok s e s' : sem_ok s -> disciplined (max_count s) e -> step s e s' -> sem_ok s'.
Proof.
  intros Hok Hd H. destruct H; cbn in Hd.
  - by eapply wait_begin_ok.
  - by eapply wait_end_ok.
  - by eapply signal_ok.
  - match goal with H : Cancel _ _ = _ |- _ => pose proof (cancel_ok s count Hok Hd) as Hc; by rewrite H in Hc end.
  - by apply delete_ok.
Qed.

Lemma steps_ok s l s' : sem_ok s -> Forall (disciplined (max_count s)) l -> steps s l s' ->
  sem_ok s' /\ max_count s' = max_count s.
Proof.
  intros Hok Hd H. induction H as [|s l s' e s'' H IH He]; [done|]. apply Forall_app in Hd as [Hl He'].
  apply Forall_cons in He' as [He' _]. destruct (IH Hok Hl) as [Hok' Hm]. split.
  - eapply step_ok; [exact Hok'|by rewrite Hm|exact He].
  - by rewrite (step_max _ _ _ He), Hm.
Qed.

(** C12. Every state of a semaphore that its calls can reach is in order: the count stays
    between zero and the maximum; the queue holds exactly the blocked threads that nothing
    released, once each, ordered by priority unless it is a FIFO; and no queued thread could
    be served with the tokens there are. The callers must not pass negative counts, overflow
    the count of a signal or set more than the maximum (the code does not check it). *)
Theorem sem_reachable init max fifo l s :
  0 <= init <= max -> max <= S32_MAX -> Forall (disciplined max) l ->
  steps (new_sem init max fifo) l s -> sem_ok s.
Proof.
  intros Hi Hm Hl Hs. by destruct (steps_ok _ _ _ (new_sem_ok init max fifo Hi Hm) Hl Hs).
Qed.

(** A signal that would exceed the maximum changes nothing. Otherwise it serves part of
    the queue and keeps the rest in order: the served pay exactly what they need, each is
    marked as signaled, no other thread changes, no kept thread could be served with the
    tokens left, and the first of the queue is served whenever the tokens allow it. *)
Theorem Signal_grants s count : sem_ok s -> 0 <= count <= S32_MAX - max_count s ->
  if decide (token_count s + count <= max_count s) then
    exists served kept token threads,
      Signal s count = Some (true, s <| token_count := token |> <| waiting := threads |> <| wait_list := kept |>) /\
      granted (token_count s + count) (waiting s) (wait_list s) served kept token threads
  else Signal s count = Some (false, s).
Proof.
  intros Hok Hc. pose proof (signal_spec s count Hok Hc) as H.
  destruct (Z.ltb_spec (max_count s) (token_count s + count)); [by rewrite decide_False by lia|by rewrite decide_True by lia].
Qed.

(** No wake-up is lost. A blocked thread that left the queue resumes at once, with the
    code of what released it and never a timeout. A queued thread resumes only when its
    timeout is over, with [ORBIS_KERNEL_ERROR_ETIMEDOUT], and then leaves the queue. *)
Theorem WaitEnd_resumes s id w elapsed : sem_ok s -> waiting s !! id = Some w ->
  if decide (id ∈ wait_list s) then
    WaitEnd s id elapsed =
      match timeout w with
      | Some t =>
          if decide (t <= elapsed) then
            Some (ORBIS_KERNEL_ERROR_ETIMEDOUT, Some 0,
                  s <| waiting ::= delete id |> <| wait_list ::= List.filter (fun x => negb (x =? id)) |>)
          else None
      | None => None
      end
  else
    GetResult w <> ORBIS_KERNEL_ERROR_ETIMEDOUT /\
    exists remaining, WaitEnd s id elapsed = Some (GetResult w, remaining, s <| waiting ::= delete id |>).
Proof.
  intros Hok Hw. unfold WaitEnd, waiter_wait. rewrite Hw. cbn. case_decide as Hin.
  - destruct (so_queued _ Hok id Hin) as (v & Hv & Hr & _). rewrite Hw in Hv. injection Hv as <-.
    rewrite Hr. cbn. pose proof (proj2 (timed_out_code w) Hr) as Hcode.
    assert (Hs : was_signaled w = false) by (unfold released in Hr; by destruct (was_signaled w)).
    destruct (timeout w) as [t|]; [|done]. rewrite Hs, Hcode.
    destruct (Z.ltb_spec elapsed t); [by rewrite decide_False by lia|rewrite decide_True by lia].
    cbn [mbind option_bind]. by rewrite Z.eqb_refl.
  - pose proof (so_released _ Hok id w Hw Hin) as Hr. rewrite Hr. cbn.
    assert (Hne : GetResult w <> ORBIS_KERNEL_ERROR_ETIMEDOUT) by (rewrite timed_out_code; congruence).
    split; [done|]. rewrite (proj2 (Z.eqb_neq _ _) Hne). by eexists.
Qed.

(** The counts are not checked: waiting for a negative count succeeds at once and takes
    the semaphore above its maximum, from any state, whenever the arithmetic does not wrap. *)
Theorem WaitBegin_negative s thread prio can_block need timeout :
  sem_ok s -> need < token_count s - max_count s -> token_count s - need <= S32_MAX ->
  exists s', WaitBegin s thread prio can_block need timeout = (Returned ORBIS_OK, s') /\ max_count s' < token_count s'.
Proof.
  intros Hok Hn Hm. pose proof (so_count _ Hok). unfold WaitBegin. rewrite (proj2 (Z.leb_le _ _)) by lia.
  eexists. split; [done|]. cbn. rewrite s32_small by (unfold S32_MAX in *; lia). lia.
Qed.

(** ** A concrete run *)

(** Two threads queue by priority on an empty semaphore, a signal serves the urgent one. *)
Definition example_events : list event :=
  [EWait 1 700 true 2 None Blocked; EWait 2 256 true 1 (Some 50) Blocked; ESignal 1 true; EResume 2 10 ORBIS_OK].
Definition queue_1 : OrbisSem := snd (WaitBegin (new_sem 0 5 false) 1 700 true 2 None).
Definition queue_2 : OrbisSem := snd (WaitBegin queue_1 2 256 true 1 (Some 50)).
Definition after_signal : OrbisSem := match Signal queue_2 1 with Some (_, s) => s | None => queue_2 end.
Definition after_resume : OrbisSem := match WaitEnd after_signal 2 10 with Some (_, _, s) => s | None => queue_2 end.

Lemma example_run : steps (new_sem 0 5 false) example_events after_resume.
Proof.
  apply (StepsSnoc _ [EWait 1 700 true 2 None Blocked; EWait 2 256 true 1 (Some 50) Blocked; ESignal 1 true] after_signal).
  - apply (StepsSnoc _ [EWait 1 700 true 2 None Blocked; EWait 2 256 true 1 (Some 50) Blocked] queue_2).
    + apply (StepsSnoc _ [EWait 1 700 true 2 None Blocked] queue_1).
      * apply (StepsSnoc _ [] (new_sem 0 5 false)); [constructor|]. by apply StepWait.
      * by apply StepWait.
    + by apply StepSignal.
  - eapply StepResume. vm_compute. reflexivity.
Qed.

Lemma queue_2_ok : sem_ok queue_2.
Proof.
  apply (steps_ok (new_sem 0 5 false) [EWait 1 700 true 2 None Blocked; EWait 2 256 true 1 (Some 50) Blocked]).
  - apply new_sem_ok; [lia|vm_compute; discriminate].
  - repeat constructor; cbn; lia.
  - apply (StepsSnoc _ [EWait 1 700 true 2 None Blocked] queue_1); [|by apply StepWait].
    apply (StepsSnoc _ [] (new_sem 0 5 false)); [constructor|by apply StepWait].
Qed.

Lemma sem_reachable_witness : sem_ok after_resume /\ wait_list after_resume = [1] /\ token_count after_resume = 0.
Proof.
  split_and!; [|vm_compute; reflexivity|vm_compute; reflexivity].
  apply (sem_reachable 0 5 false example_events after_resume); [lia|vm_compute; discriminate| |exact example_run].
  repeat constructor; cbn; unfold S32_MAX; lia.
Defined.

Lemma Signal_grants_witness : exists served kept token threads,
  Signal queue_2 3 = Some (true, queue_2 <| token_count := token |> <| waiting := threads |> <| wait_list := kept |>) /\
  granted 3 (waiting queue_2) (wait_list queue_2) served kept token threads.
Proof. apply (Signal_grants queue_2 3 queue_2_ok). vm_compute. split; discriminate. Defined.

Lemma WaitEnd_resumes_witness :
  WaitEnd queue_2 2 60 =
    Some (ORBIS_KERNEL_ERROR_ETIMEDOUT, Some 0,
          queue_2 <| waiting ::= delete 2 |> <| wait_list ::= List.filter (fun x => negb (x =? 2)) |>) /\
  wait_list (queue_2 <| wait_list ::= List.filter (fun x => negb (x =? 2)) |>) = [1].
Proof.
  split; [|vm_compute; reflexivity].
  apply (WaitEnd_resumes queue_2 2 (mkWaitingThread 256 1 (Some 50) false false false) 60 queue_2_ok). vm_compute. reflexivity.
Defined.

Lemma WaitBegin_negative_witness :
  exists s', WaitBegin (new_sem 1 2 true) 9 0 false (-7) None = (Returned ORBIS_OK, s') /\ max_count s' < token_count s'.
Proof.
  apply (WaitBegin_negative (new_sem 1 2 true) 9 0 false (-7) None); [|vm_compute; reflexivity|vm_compute; discriminate].
  apply new_sem_ok; [lia|vm_compute; discriminate].
Defined.
