(* ===== verification/PosixSem.v ===== *)
(** The POSIX semaphores: [PthreadSem] and the [posix_sem] and [scePthreadSem] functions of
    src/src/core/libraries/kernel/threads/semaphore.cpp.

    The value is an atomic, the list of sleeping threads has its own mutex. A wait goes through
    the phases between its atomic actions (the compare-and-swap of [PthreadSemTryAcquire] and
    the two critical sections); a post is two actions, the increment and the notification; a
    cancellation wakes the thread like a post. The
    phases of the threads, the released wake-up semaphores and the posts between their two
    actions are the state of the transition system. *)
From Stdlib Require Import ZArith Lia.
From stdpp Require Import base gmap list list_numbers strings.
From S2P Require Import Prelude.
From S2P Require Import KernelErrors.

Definition ORBIS_KERNEL_SEM_VALUE_MAX : Z := 0x7FFFFFFF.
Definition POSIX_EINVAL : Z := 22.
Definition POSIX_EAGAIN : Z := 35.
Definition POSIX_ETIMEDOUT : Z := 60.
Definition POSIX_EOVERFLOW : Z := 84.

Record PthreadSem := mkPthreadSem { value : Z; waiters : list Z }.
#[export] Instance eta_PthreadSem : Eta PthreadSem := fun s => mkPthreadSem (value s) (waiters s).

(** ** The atomic actions *)

(** [PthreadSemTryAcquire]: the loop ends with the swap that succeeds or a value of zero. *)
Definition PthreadSemTryAcquire (s : PthreadSem) : bool * PthreadSem :=
  if 0 <? value s then (true, s <| value ::= fun v => v - 1 |>) else (false, s).

(** The first critical section of [PthreadSemWait]. *)
Definition wait_publish (s : PthreadSem) (thread : Z) : bool * PthreadSem :=
  match PthreadSemTryAcquire s with
  | (true, s') => (true, s')
  | (false, s') => (false, s' <| waiters ::= fun l => l ++ [thread] |>)
  end.

(** The second one: [waiters.remove(curthread)]. *)
Definition wait_remove (s : PthreadSem) (thread : Z) : PthreadSem :=
  s <| waiters ::= List.filter (fun t => negb (t =? thread)) |>.

(** The increment of [posix_sem_post]; [None] is [POSIX_EOVERFLOW]. *)
Definition post_increment (s : PthreadSem) : option PthreadSem :=
  if value s =? ORBIS_KERNEL_SEM_VALUE_MAX then None else Some (s <| value ::= fun v => v + 1 |>).

(** The critical section of [posix_sem_post]: the threads it wakes. *)
Definition post_notify (s : PthreadSem) : list Z * PthreadSem := (waiters s, s <| waiters := [] |>).

(** ** The calls

    A semaphore argument is a pointer to a pointer, either of which may be null. A result is
    the return value and [errno] when it is set. *)

Definition Ref := option (option PthreadSem).
Definition deref (sem : Ref) : option PthreadSem := match sem with Some (Some s) => Some s | _ => None end.

(** The new [*sem] when there is one. *)
Definition posix_sem_init (sem : Ref) (v : Z) : Z * option Z * Ref :=
  if ORBIS_KERNEL_SEM_VALUE_MAX <? v then (-1, Some POSIX_EINVAL, sem)
  else (0, None, match sem with None => None | Some _ => Some (Some (mkPthreadSem (s32 v) [])) end).

Definition posix_sem_destroy (sem : Ref) : Z * option Z * Ref :=
  match deref sem with None => (-1, Some POSIX_EINVAL, sem) | Some _ => (0, None, Some None) end.

Definition posix_sem_trywait (sem : Ref) : Z * option Z * Ref :=
  match deref sem with
  | None => (-1, Some POSIX_EINVAL, sem)
  | Some s =>
      match PthreadSemTryAcquire s with
      | (false, s') => (-1, Some POSIX_EAGAIN, Some (Some s'))
      | (true, s') => (0, None, Some (Some s'))
      end
  end.

(** With the threads it wakes. *)
Definition posix_sem_post (sem : Ref) : Z * option Z * list Z * Ref :=
  match deref sem with
  | None => (-1, Some POSIX_EINVAL, [], sem)
  | Some s =>
      match post_increment s with
      | None => (-1, Some POSIX_EOVERFLOW, [], sem)
      | Some s' => let '(woken, s'') := post_notify s' in (0, None, woken, Some (Some s''))
      end
  end.

(** [sval] tells whether the output pointer is not null. *)
Definition posix_sem_getvalue (sem : Ref) (sval : bool) : Z * option Z * option Z :=
  match deref sem with
  | None => (-1, Some POSIX_EINVAL, None)
  | Some s => (0, None, if sval then Some (value s) else None)
  end.

Definition ErrnoToSceKernelError (error : Z) : Z := s32 (error + ORBIS_KERNEL_ERROR_UNKNOWN).
(** The body of the [scePthreadSem] functions: the POSIX result as an Orbis code. *)
Definition sce_result (ret : Z) (errno : option Z) : Z :=
  if negb (ret =? 0) then ErrnoToSceKernelError (default 0 errno) else ORBIS_OK.

Definition scePthreadSemInit (sem : Ref) (flag v : Z) : Z * Ref :=
  if negb (flag =? 0) then (ORBIS_KERNEL_ERROR_EINVAL, sem)
  else let '(ret, errno, sem') := posix_sem_init sem v in (sce_result ret errno, sem').
Definition scePthreadSemDestroy (sem : Ref) : Z * Ref :=
  let '(ret, errno, sem') := posix_sem_destroy sem in (sce_result ret errno, sem').
Definition scePthreadSemTrywait (sem : Ref) : Z * Ref :=
  let '(ret, errno, sem') := posix_sem_trywait sem in (sce_result ret errno, sem').
Definition scePthreadSemPost (sem : Ref) : Z * list Z * Ref :=
  let '(ret, errno, woken, sem') := posix_sem_post sem in (sce_result ret errno, woken, sem').
Definition scePthreadSemGetvalue (sem : Ref) (sval : bool) : Z * option Z :=
  let '(ret, errno, v) := posix_sem_getvalue sem sval in (sce_result ret errno, v).

(** The waits that block: [run bad timed] is what [PthreadSemWait] returns, below, when the
    nanoseconds of its absolute time are out of range and when it has a timeout. *)
Definition posix_sem_wait (sem : Ref) (run : bool -> bool -> Z * option Z) : Z * option Z :=
  match deref sem with None => (-1, Some POSIX_EINVAL) | Some _ => run false false end.
Definition posix_sem_timedwait (sem : Ref) (tv_nsec : option Z) (run : bool -> bool -> Z * option Z) : Z * option Z :=
  match deref sem with
  | None => (-1, Some POSIX_EINVAL)
  | Some _ =>
      match tv_nsec with
      | None => run false false
      | Some n => run ((n <? 0) || (1000000000 <=? n)) true
      end
  end.
Definition posix_sem_reltimedwait_np (sem : Ref) (run : bool -> bool -> Z * option Z) : Z * option Z :=
  match deref sem with None => (-1, Some POSIX_EINVAL) | Some _ => run false true end.
Definition scePthreadSemWait (sem : Ref) (run : bool -> bool -> Z * option Z) : Z :=
  let '(ret, errno) := posix_sem_wait sem run in sce_result ret errno.
Definition scePthreadSemTimedwait (sem : Ref) (run : bool -> bool -> Z * option Z) : Z :=
  let '(ret, errno) := posix_sem_reltimedwait_np sem run in sce_result ret errno.

(** ** [PthreadSemWait] as a transition system *)

(** Where a thread is in [PthreadSemWait]. [Trying] is the top of the loop, [Sleeping] is in
    [Sleep], [Waking] before the second critical section, [Rechecking] after it. *)
Inductive phase :=
| Trying
| Publishing
| Sleeping
| Waking (woke : bool)
| Rechecking (woke : bool)
| Finished (ret : Z) (errno : option Z)
| Cancelled.

(** [awake] are the threads whose [wake_sema] is released; [notifying] counts the posts
    between their two actions. [posted] and [acquired] count the increments and decrements:
    nothing in the code depends on them. *)
Record State := mkState {
  sem : PthreadSem;
  phases : gmap Z phase;
  awake : gset Z;
  notifying : nat;
  posted : Z;
  acquired : Z
}.
#[export] Instance eta_State : Eta State := fun s =>
  mkState (sem s) (phases s) (awake s) (notifying s) (posted s) (acquired s).

Definition init_state (v : Z) : State := mkState (mkPthreadSem v []) ∅ ∅ 0 0 0.

(** A thread moves to a phase, with the semaphore as an action left it. *)
Definition move (s : State) (x : PthreadSem) (thread : Z) (p : phase) : State :=
  s <| sem := x |> <| phases ::= <[thread := p]> |>.
(** It took a token. *)
Definition acquire (s : State) (x : PthreadSem) (thread : Z) : State :=
  (move s x thread (Finished 0 None)) <| acquired ::= fun n => n + 1 |>.

(** One step of a waiting thread. [bad] says that the absolute timeout is not a valid time,
    [timed] that the wait has a timeout; a step may also cancel the thread. *)
Inductive wait_step (bad timed : bool) (t : Z) (s : State) : State -> Prop :=
| Enter : phases s !! t = None -> wait_step bad timed t s (s <| phases ::= <[t := Trying]> |>)
| TryHit x : phases s !! t = Some Trying -> PthreadSemTryAcquire (sem s) = (true, x) ->
    wait_step bad timed t s (acquire s x t)
| TryBad x : phases s !! t = Some Trying -> PthreadSemTryAcquire (sem s) = (false, x) -> bad = true ->
    wait_step bad timed t s (move s x t (Finished (-1) (Some POSIX_EINVAL)))
| TryMiss x : phases s !! t = Some Trying -> PthreadSemTryAcquire (sem s) = (false, x) -> bad = false ->
    wait_step bad timed t s (move s x t Publishing)
| TryCancel : phases s !! t = Some Publishing -> wait_step bad timed t s (move s (sem s) t Cancelled)
| PublishHit x : phases s !! t = Some Publishing -> wait_publish (sem s) t = (true, x) ->
    wait_step bad timed t s (acquire s x t)
| PublishMiss x : phases s !! t = Some Publishing -> wait_publish (sem s) t = (false, x) ->
    wait_step bad timed t s ((move s x t Sleeping) <| awake ::= fun a => a ∖ {[t]} |>)
| Woken : phases s !! t = Some Sleeping -> t ∈ awake s ->
    wait_step bad timed t s ((move s (sem s) t (Waking true)) <| awake ::= fun a => a ∖ {[t]} |>)
| TimedOut : phases s !! t = Some Sleeping -> timed = true ->
    wait_step bad timed t s (move s (sem s) t (Waking false))
| Removed woke : phases s !! t = Some (Waking woke) ->
    wait_step bad timed t s (move s (wait_remove (sem s) t) t (Rechecking woke))
| RecheckHit woke x : phases s !! t = Some (Rechecking woke) -> PthreadSemTryAcquire (sem s) = (true, x) ->
    wait_step bad timed t s (acquire s x t)
| RecheckCancel woke x : phases s !! t = Some (Rechecking woke) -> PthreadSemTryAcquire (sem s) = (false, x) ->
    wait_step bad timed t s (move s x t Cancelled)
| RecheckTimeout x : phases s !! t = Some (Rechecking false) -> PthreadSemTryAcquire (sem s) = (false, x) ->
    wait_step bad timed t s (move s x t (Finished (-1) (Some POSIX_ETIMEDOUT)))
| RecheckLoop x : phases s !! t = Some (Rechecking true) -> PthreadSemTryAcquire (sem s) = (false, x) ->
    wait_step bad timed t s (move s x t Trying)
| Leave ret errno : phases s !! t = Some (Finished ret errno) -> wait_step bad timed t s (s <| phases ::= delete t |>).

Inductive sem_step : State -> State -> Prop :=
| StepWait bad timed t s s' : wait_step bad timed t s s' -> sem_step s s'
| StepTrywait s x : PthreadSemTryAcquire (sem s) = (true, x) ->
    sem_step s (s <| sem := x |> <| acquired ::= fun n => n + 1 |>)
| StepIncrement s x : post_increment (sem s) = Some x ->
    sem_step s (s <| sem := x |> <| notifying ::= S |> <| posted ::= fun n => n + 1 |>)
| StepNotify s woken x n : notifying s = S n -> post_notify (sem s) = (woken, x) ->
    sem_step s (s <| sem := x |> <| notifying := n |> <| awake ::= fun a => a ∪ list_to_set woken |>)
(** [posix_pthread_cancel] (pthread.cpp) releases the wake-up semaphore of the thread it cancels,
    wherever that thread is; a sleeping one then goes on as if it was woken. *)
| StepCancelWake s t : sem_step s (s <| awake ::= fun a => a ∪ {[t]} |>).

Inductive reachable (v : Z) : State -> Prop :=
| ReachInit : reachable v (init_state v)
| ReachStep s s' : reachable v s -> sem_step s s' -> reachable v s'.

(** * No wake-up is lost *)

(** The value is in range; every increment is either still in the value or was acquired once;
    the list holds only threads in the section between publishing and removal; a thread that
    sleeps without a released wake-up is in the list, and if there is a token for it a post is
    about to notify. *)
Record sem_inv (v : Z) (s : State) : Prop := {
  si_value : 0 <= value (sem s) <= ORBIS_KERNEL_SEM_VALUE_MAX;
  si_count : value (sem s) + acquired s = v + posted s;
  si_listed : forall t, t ∈ waiters (sem s) -> phases s !! t = Some Sleeping \/ exists woke, phases s !! t = Some (Waking woke);
  si_sleeping : forall t, phases s !! t = Some Sleeping -> t ∉ awake s ->
    t ∈ waiters (sem s) /\ (0 < value (sem s) -> (0 < notifying s)%nat)
}.

Lemma try_acquire_cases x b y : PthreadSemTryAcquire x = (b, y) ->
  (b = true /\ 0 < value x /\ value y = value x - 1 /\ waiters y = waiters x) \/ (b = false /\ value x <= 0 /\ y = x).
Proof. unfold PthreadSemTryAcquire. destruct (Z.ltb_spec 0 (value x)); intros [= <- <-]; [left|right]; cbn; split_and!; done || lia. Qed.

(** A thread moves between phases outside of the published section. *)
Lemma move_inv v s x t p p0 :
  sem_inv v s -> phases s !! t = Some p0 \/ phases s !! t = None -> value x = value (sem s) -> waiters x = waiters (sem s) ->
  t ∉ waiters (sem s) -> p <> Sleeping -> sem_inv v (move s x t p).
Proof.
  intros [Hv Hc Hl Hs] _ Ev Ew Hnin Hp. split; cbn; rewrite ?Ev, ?Ew; try done.
  - intros u Hu. assert (u <> t) by (by intros ->). rewrite lookup_insert_ne by done. by apply Hl.
  - intros u. destruct (decide (u = t)) as [->|]; [rewrite lookup_insert_eq; congruence|].
    rewrite lookup_insert_ne by done. apply Hs.
Qed.

Lemma acquire_inv v s x t :
  sem_inv v s -> 0 < value (sem s) -> value x = value (sem s) - 1 -> waiters x = waiters (sem s) ->
  t ∉ waiters (sem s) -> sem_inv v (acquire s x t).
Proof.
  intros [Hv Hc Hl Hs] H0 Ev Ew Hnin. split; cbn; rewrite ?Ev, ?Ew; try lia.
  - intros u Hu. assert (u <> t) by (by intros ->). rewrite lookup_insert_ne by done. by apply Hl.
  - intros u. destruct (decide (u = t)) as [->|]; [rewrite lookup_insert_eq; congruence|].
    rewrite lookup_insert_ne by done. intros Hu Ha. destruct (Hs u Hu Ha). split; [done|]. intros _. auto.
Qed.

Lemma not_listed v s t p : sem_inv v s -> phases s !! t = Some p -> p <> Sleeping -> (forall w, p <> Waking w) -> t ∉ waiters (sem s).
Proof. intros H Hp H1 H2 Hin. destruct (si_listed _ _ H t Hin) as [Hx|[w Hx]]; rewrite Hp in Hx; [congruence|]. injection Hx as ->. by destruct (H2 w). Qed.

Lemma wait_publish_cases s t b x : wait_publish s t = (b, x) ->
  (b = true /\ PthreadSemTryAcquire s = (true, x)) \/
  (b = false /\ value s <= 0 /\ value x = value s /\ waiters x = waiters s ++ [t]).
Proof.
  unfold wait_publish. destruct (PthreadSemTryAcquire s) as [[] y] eqn:E; intros [= <- <-]; [by left|].
  right. apply try_acquire_cases in E as [(? & _)|(_ & ? & ->)]; [done|]. done.
Qed.

Ltac acquire_step H := 
  apply try_acquire_cases in H as [(? & ? & ? & ?)|(? & ? & ?)]; [|done].

Lemma wait_step_inv v bad timed t s s' : sem_inv v s -> wait_step bad timed t s s' -> sem_inv v s'.
Proof.
  intros Hi Hst. pose proof Hi as [Hv Hc Hl Hs].
  destruct Hst as [Hp|x Hp H|x Hp H Hb|x Hp H Hb|Hp|x Hp H|x Hp H|Hp Ha|Hp Ht|woke Hp|woke x Hp H|woke x Hp H|x Hp H|x Hp H|ret errno Hp].
  - assert (Hn : t ∉ waiters (sem s)) by (intros Hin; destruct (Hl t Hin) as [?|[? ?]]; congruence).
    replace (s <| phases ::= <[t:=Trying]> |>) with (move s (sem s) t Trying) by by destruct s.
    by eapply (move_inv _ _ _ _ _ Trying); eauto.
  - pose proof (not_listed _ _ _ _ Hi Hp ltac:(done) ltac:(done)). acquire_step H. by apply acquire_inv.
  - pose proof (not_listed _ _ _ _ Hi Hp ltac:(done) ltac:(done)). apply try_acquire_cases in H as [(? & _)|(_ & ? & ->)]; [done|].
    eapply move_inv; eauto; done.
  - pose proof (not_listed _ _ _ _ Hi Hp ltac:(done) ltac:(done)). apply try_acquire_cases in H as [(? & _)|(_ & ? & ->)]; [done|].
    eapply move_inv; eauto; done.
  - pose proof (not_listed _ _ _ _ Hi Hp ltac:(done) ltac:(done)). eapply move_inv; eauto; done.
  - pose proof (not_listed _ _ _ _ Hi Hp ltac:(done) ltac:(done)).
    apply wait_publish_cases in H as [(_ & H)|(? & _)]; [|done]. acquire_step H. by apply acquire_inv.
  - apply wait_publish_cases in H as [(? & _)|(_ & H0 & Ev & Ew)]; [done|]. split; cbn; rewrite ?Ev, ?Ew; try done.
    + intros u [Hu|Hu%list_elem_of_singleton]%elem_of_app; [|subst u; rewrite lookup_insert_eq; by left].
      destruct (decide (u = t)) as [->|]; [rewrite lookup_insert_eq; by left|]. rewrite lookup_insert_ne by done. by apply Hl.
    + intros u. destruct (decide (u = t)) as [->|].
      * intros _ _. split; [|lia]. apply elem_of_app. right. by left.
      * rewrite lookup_insert_ne by done. intros Hu Ha. destruct (Hs u Hu) as [? ?]; [set_solver|]. split; [|done].
        apply elem_of_app. by left.
  - split; cbn; try done.
    + intros u Hu. destruct (decide (u = t)) as [->|]; [rewrite lookup_insert_eq; right; by eexists|].
      rewrite lookup_insert_ne by done. by apply Hl.
    + intros u. destruct (decide (u = t)) as [->|]; [rewrite lookup_insert_eq; congruence|].
      rewrite lookup_insert_ne by done. intros Hu Hna. apply Hs; [done|set_solver].
  - split; cbn; try done.
    + intros u Hu. destruct (decide (u = t)) as [->|]; [rewrite lookup_insert_eq; right; by eexists|].
      rewrite lookup_insert_ne by done. by apply Hl.
    + intros u. destruct (decide (u = t)) as [->|]; [rewrite lookup_insert_eq; congruence|].
      rewrite lookup_insert_ne by done. by apply Hs.
  - split; cbn; try done.
    + intros u [Hu Hne]%filter_removed. rewrite lookup_insert_ne by done. by apply Hl.
    + intros u. destruct (decide (u = t)) as [->|]; [rewrite lookup_insert_eq; congruence|].
      rewrite lookup_insert_ne by done. intros Hu Ha. destruct (Hs u Hu Ha). split; [by apply filter_removed|done].
  - pose proof (not_listed _ _ _ _ Hi Hp ltac:(done) ltac:(done)). acquire_step H. by apply acquire_inv.
  - pose proof (not_listed _ _ _ _ Hi Hp ltac:(done) ltac:(done)). apply try_acquire_cases in H as [(? & _)|(_ & ? & ->)]; [done|].
    eapply move_inv; eauto; done.
  - pose proof (not_listed _ _ _ _ Hi Hp ltac:(done) ltac:(done)). apply try_acquire_cases in H as [(? & _)|(_ & ? & ->)]; [done|].
    eapply move_inv; eauto; done.
  - pose proof (not_listed _ _ _ _ Hi Hp ltac:(done) ltac:(done)). apply try_acquire_cases in H as [(? & _)|(_ & ? & ->)]; [done|].
    eapply move_inv; eauto; done.
  - pose proof (not_listed _ _ _ _ Hi Hp ltac:(done) ltac:(done)). split; cbn; try done.
    + intros u Hu. assert (u <> t) by (by intros ->). rewrite lookup_delete_ne by done. by apply Hl.
    + intros u. destruct (decide (u = t)) as [->|]; [by rewrite lookup_delete_eq|].
      rewrite lookup_delete_ne by done. by apply Hs.
Qed.

Lemma sem_step_inv v s s' : sem_inv v s -> sem_step s s' -> sem_inv v s'.
Proof.
  intros Hi H. destruct H as [bad timed t s s' H|s x H|s x H|s woken x n Hn H|s t0].
  - by eapply wait_step_inv.
  - acquire_step H. destruct Hi as [Hv Hc Hl Hs]. split; cbn; try lia.
    + intros t. match goal with E : waiters x = _ |- _ => rewrite E end. apply Hl.
    + intros t Ht Ha. match goal with E : waiters x = _ |- _ => rewrite E end. destruct (Hs t Ht Ha). split; [done|]. lia.
  - unfold post_increment in H. destruct (Z.eqb_spec (value (sem s)) ORBIS_KERNEL_SEM_VALUE_MAX); [done|]. injection H as <-.
    destruct Hi as [Hv Hc Hl Hs]. split; cbn; try lia; [done|]. intros t Ht Ha. split; [by apply Hs|lia].
  - injection H as <- <-. destruct Hi as [Hv Hc Hl Hs]. split; cbn; try done.
    + by intros t Hin%not_elem_of_nil.
    + intros t Ht [Ha Hw]%not_elem_of_union. destruct (Hs t Ht Ha) as [Hin _].
      destruct Hw. by apply elem_of_list_to_set.
  - destruct Hi as [Hv Hc Hl Hs]. split; cbn; try done. intros t Ht [Ha _]%not_elem_of_union. by apply Hs.
Qed.

Lemma reachable_inv v s : 0 <= v <= ORBIS_KERNEL_SEM_VALUE_MAX -> reachable v s -> sem_inv v s.
Proof.
  intros Hv H. induction H as [|s s' _ IH H]; [|by eapply sem_step_inv].
  split; cbn; try done; by intros t Hin%not_elem_of_nil.
Qed.

(** C13. However the threads interleave, the value stays in range, every increment is still in
    the value or was acquired exactly once, and the list of waiters holds only threads between
    their two critical sections. *)
Theorem posix_sem_safe v s : 0 <= v <= ORBIS_KERNEL_SEM_VALUE_MAX -> reachable v s ->
  0 <= value (sem s) <= ORBIS_KERNEL_SEM_VALUE_MAX /\ value (sem s) + acquired s = v + posted s /\
  forall t, t ∈ waiters (sem s) -> phases s !! t = Some Sleeping \/ exists woke, phases s !! t = Some (Waking woke).
Proof. intros Hv H. by destruct (reachable_inv v s Hv H). Qed.

(** C14. No wake-up is lost: when no post is between its increment and its notification and
    there is a token, every sleeping thread has been woken and can leave [Sleep]; it will then
    check the value again. *)
Theorem posix_sem_wakes v s t bad timed : 0 <= v <= ORBIS_KERNEL_SEM_VALUE_MAX -> reachable v s ->
  notifying s = 0%nat -> 0 < value (sem s) -> phases s !! t = Some Sleeping ->
  t ∈ awake s /\ exists s', wait_step bad timed t s s' /\ phases s' !! t = Some (Waking true).
Proof.
  intros Hv H Hn H0 Hp. pose proof (reachable_inv v s Hv H) as Hi.
  assert (Ha : t ∈ awake s).
  { destruct (decide (t ∈ awake s)) as [|Ha]; [done|]. destruct (si_sleeping _ _ Hi t Hp Ha) as [_ Hw]. specialize (Hw H0). lia. }
  split; [done|]. eexists. split; [by apply Woken|]. cbn. by rewrite lookup_insert_eq.
Qed.

(** A post and a try-wait on the same semaphore: a post makes the next try-wait succeed
    and give the value back, unless the value is at its maximum, when the post fails with
    [POSIX_EOVERFLOW] and changes nothing; a try-wait on an empty semaphore fails with
    [POSIX_EAGAIN]; both fail with [POSIX_EINVAL] on a null semaphore. *)
Theorem post_trywait r :
  match deref r with
  | None =>
      posix_sem_post r = (-1, Some POSIX_EINVAL, [], r) /\ posix_sem_trywait r = (-1, Some POSIX_EINVAL, r)
  | Some s =>
      (value s = ORBIS_KERNEL_SEM_VALUE_MAX -> posix_sem_post r = (-1, Some POSIX_EOVERFLOW, [], r)) /\
      (0 <= value s < ORBIS_KERNEL_SEM_VALUE_MAX ->
        exists r', posix_sem_post r = (0, None, waiters s, r') /\
          posix_sem_trywait r' = (0, None, Some (Some (mkPthreadSem (value s) [])))) /\
      (value s = 0 -> posix_sem_trywait r = (-1, Some POSIX_EAGAIN, r))
  end.
Proof.
  unfold posix_sem_post, posix_sem_trywait. destruct r as [[s|]|]; cbn; [|done|done]. split_and!.
  - intros E. unfold post_increment. by rewrite E.
  - intros Hv. unfold post_increment. rewrite (proj2 (Z.eqb_neq _ _)) by lia. cbn. eexists. split; [done|]. cbn.
    unfold PthreadSemTryAcquire. cbn. rewrite (proj2 (Z.ltb_lt _ _)) by lia. unfold upd. cbn. by replace (value s + 1 - 1) with (value s) by lia.
  - intros E. unfold PthreadSemTryAcquire. by rewrite E.
Qed.

(** ** A concrete run *)

(** A thread sleeps on an empty semaphore; a post increments and notifies. *)
Definition run_1 : State := (init_state 0) <| phases ::= <[1 := Trying]> |>.
Definition run_2 : State := move run_1 (sem run_1) 1 Publishing.
Definition run_3 : State :=
  (move run_2 (snd (wait_publish (sem run_2) 1)) 1 Sleeping) <| awake ::= fun a => a ∖ {[1]} |>.
Definition run_4 : State :=
  run_3 <| sem := (sem run_3) <| value ::= fun v => v + 1 |> |> <| notifying ::= S |> <| posted ::= fun n => n + 1 |>.
Definition run_5 : State :=
  run_4 <| sem := snd (post_notify (sem run_4)) |> <| notifying := 0%nat |>
        <| awake ::= fun a => a ∪ list_to_set (fst (post_notify (sem run_4))) |>.

Lemma run_reachable : reachable 0 run_5.
Proof.
  apply (ReachStep _ run_4); [|by eapply StepNotify].
  apply (ReachStep _ run_3); [|by apply StepIncrement].
  apply (ReachStep _ run_2); [|eapply (StepWait false false 1), PublishMiss; [reflexivity|vm_compute; reflexivity]].
  apply (ReachStep _ run_1); [|by apply (StepWait false false 1), TryMiss].
  apply (ReachStep _ (init_state 0)); [constructor|]. by apply (StepWait false false 1), Enter.
Qed.

Lemma posix_sem_safe_witness : value (sem run_5) + acquired run_5 = 0 + posted run_5.
Proof. apply (posix_sem_safe 0 run_5); [unfold ORBIS_KERNEL_SEM_VALUE_MAX; lia|exact run_reachable]. Defined.

Lemma posix_sem_wakes_witness : 1 ∈ awake run_5 /\ exists s', wait_step false false 1 run_5 s' /\ phases s' !! 1 = Some (Waking true).
Proof.
  apply (posix_sem_wakes 0 run_5 1 false false); [unfold ORBIS_KERNEL_SEM_VALUE_MAX; lia|exact run_reachable|..];
    vm_compute; reflexivity.
Defined.

Lemma post_trywait_witness :
  exists r', posix_sem_post (Some (Some (mkPthreadSem 3 [7]))) = (0, None, [7], r') /\
    posix_sem_trywait r' = (0, None, Some (Some (mkPthreadSem 3 []))).
Proof. apply (post_trywait (Some (Some (mkPthreadSem 3 [7])))). cbn. unfold ORBIS_KERNEL_SEM_VALUE_MAX. lia. Defined.
