(* ===== verification/EventFlag.v ===== *)
(** The kernel event flags: src/src/core/libraries/kernel/threads/event_flag.cpp.

    An event flag is a 64-bit pattern and a list of waiting threads. A method runs under the
    mutex and is one step; a blocking wait is two, as in [Semaphore]. A [Waiter] lives on the
    stack of its thread and stays in the list until the thread resumes. *)
From Stdlib Require Import ZArith Lia Sorting.Sorted.
From stdpp Require Import base gmap list list_numbers strings.
From S2P Require Import Prelude.
From S2P Require Import KernelErrors.

(** ** [EventFlagInternal] *)

Inductive ClearMode := ClearNone | ClearAll | ClearBits.
Inductive WaitMode := And | Or.
Inductive ThreadMode := Single | Multi.
Inductive QueueMode := Fifo | ThreadPrio.

(** [micros] is what the timeout pointer pointed to. *)
Record Waiter := mkWaiter {
  bits : Z;
  wait_mode : WaitMode;
  clear_mode : ClearMode;
  result : Z;
  ready : bool;
  canceled : bool;
  deleted : bool;
  priority : Z;
  micros : option Z
}.
#[export] Instance eta_Waiter : Eta Waiter := fun w =>
  mkWaiter (bits w) (wait_mode w) (clear_mode w) (result w) (ready w) (canceled w) (deleted w) (priority w) (micros w).

Record EventFlag := mkEventFlag {
  m_thread_mode : ThreadMode;
  m_queue_mode : QueueMode;
  m_deleted : bool;
  m_bits : Z;
  m_waiters : list Z;
  threads : gmap Z Waiter
}.
#[export] Instance eta_EventFlag : Eta EventFlag := fun f =>
  mkEventFlag (m_thread_mode f) (m_queue_mode f) (m_deleted f) (m_bits f) (m_waiters f) (threads f).

Definition new_flag (thread_mode : ThreadMode) (queue_mode : QueueMode) (pattern : Z) : EventFlag :=
  mkEventFlag thread_mode queue_mode false pattern [] ∅.

Definition ConditionMet (pattern : Z) (w : Waiter) : bool :=
  match wait_mode w with
  | And => Z.land pattern (bits w) =? bits w
  | Or => negb (Z.land pattern (bits w) =? 0)
  end.

Definition ApplyClear (pattern : Z) (w : Waiter) : Z :=
  match clear_mode w with
  | ClearNone => pattern
  | ClearAll => 0
  | ClearBits => Z.ldiff pattern (bits w)
  end.

Definition priority_of (threads : gmap Z Waiter) (id : Z) : Z :=
  match threads !! id with Some w => priority w | None => 0 end.

(** Before the first waiter of a smaller priority number. *)
Definition AddWaiter (f : EventFlag) (id p : Z) : list Z :=
  match m_queue_mode f with
  | Fifo => m_waiters f ++ [id]
  | ThreadPrio => insert_before (fun x => p <=? priority_of (threads f) x) id (m_waiters f)
  end.

Definition RemoveWaiter (f : EventFlag) (id : Z) : EventFlag :=
  f <| m_waiters ::= List.filter (fun x => negb (x =? id)) |> <| threads ::= delete id |>.

(** The code and [*result] when it is written, or the thread sleeps. *)
Inductive WaitOutcome := Returned (code : Z) (pattern : option Z) | Blocked.

(** [Wait] up to the point where the thread sleeps. *)
Definition WaitBegin (f : EventFlag) (thread prio pattern : Z) (mode : WaitMode) (clear : ClearMode)
    (ptr_micros : option Z) : WaitOutcome * EventFlag :=
  if m_deleted f then (Returned ORBIS_KERNEL_ERROR_EACCES None, f)
  else if match m_thread_mode f with Single => negb (zlen (m_waiters f) =? 0) | Multi => false end
  then (Returned ORBIS_KERNEL_ERROR_EPERM None, f)
  else
    let waiter := mkWaiter pattern mode clear 0 false false false prio ptr_micros in
    if ConditionMet (m_bits f) waiter then
      (Returned ORBIS_OK (Some (m_bits f)), f <| m_bits := ApplyClear (m_bits f) waiter |>)
    else (Blocked, f <| m_waiters := AddWaiter f thread prio |> <| threads ::= <[thread := waiter]> |>).

(** The predicate [wake]; the code never sets [timed_out]. *)
Definition wake (w : Waiter) : bool := ready w || canceled w || deleted w.

(** The rest of [Wait], [elapsed] microseconds later: the code, [*result], [*ptr_micros] and
    the flag. [None] when the thread still sleeps. *)
Definition WaitEnd (f : EventFlag) (thread elapsed : Z) : option (Z * Z * option Z * EventFlag) :=
  w ← threads f !! thread;
  if wake w then
    let code := if canceled w then ORBIS_KERNEL_ERROR_ECANCELED
                else if deleted w then ORBIS_KERNEL_ERROR_EACCES else ORBIS_OK in
    Some (code, result w, micros w, RemoveWaiter f thread)
  else
    match micros w with
    | Some t => if t <=? elapsed
                then Some (ORBIS_KERNEL_ERROR_ETIMEDOUT, m_bits f, Some 0, RemoveWaiter f thread) else None
    | None => None
    end.

(** [Poll]: a wait with a zero timeout. When it blocks it ends at once; [None] does not occur. *)
Definition poll_code (code : Z) : Z :=
  if code =? ORBIS_KERNEL_ERROR_ETIMEDOUT then ORBIS_KERNEL_ERROR_EBUSY else code.
Definition Poll (f : EventFlag) (thread prio pattern : Z) (mode : WaitMode) (clear : ClearMode)
    : option (Z * option Z * EventFlag) :=
  match WaitBegin f thread prio pattern mode clear (Some 0) with
  | (Returned code result, f') => Some (poll_code code, result, f')
  | (Blocked, f') =>
      '(code, result, _, f'') ← WaitEnd f' thread 0;
      Some (poll_code code, Some result, f'')
  end.

(** The loop of [Set] over the list: the pattern left and the threads. [None] is a listed
    thread that is gone. *)
Fixpoint set_loop (pattern : Z) (threads : gmap Z Waiter) (l : list Z) : option (Z * gmap Z Waiter) :=
  match l with
  | [] => Some (pattern, threads)
  | id :: r =>
      w ← threads !! id;
      if ConditionMet pattern w
      then set_loop (ApplyClear pattern w) (<[id := w <| result := pattern |> <| ready := true |>]> threads) r
      else set_loop pattern threads r
  end.
Definition Set_ (f : EventFlag) (pattern : Z) : option EventFlag :=
  '(rest, threads') ← set_loop (Z.lor (m_bits f) pattern) (threads f) (m_waiters f);
  Some (f <| m_bits := rest |> <| threads := threads' |>).

Definition Clear (f : EventFlag) (pattern : Z) : EventFlag := f <| m_bits ::= fun b => Z.land b pattern |>.

(** [for (Waiter* waiter : m_waiters)] *)
Definition each_waiter (update : Waiter -> Waiter) (f : EventFlag) : gmap Z Waiter :=
  alter_each update (m_waiters f) (threads f).

(** [Cancel]: the number of waiters and the flag. *)
Definition Cancel (f : EventFlag) (pattern : Z) : Z * EventFlag :=
  (s32 (zlen (m_waiters f)),
   f <| m_bits := pattern |>
     <| threads := each_waiter (fun w => w <| result := pattern |> <| canceled := true |>) f |>).

(** The destructor, up to its wait for the list to be empty. *)
Definition Delete (f : EventFlag) : EventFlag :=
  f <| m_deleted := true |> <| threads := each_waiter (fun w => w <| deleted := true |>) f |>.
(** The wait is over, and the destructor and [sceKernelDeleteEventFlag] return. *)
Definition destroyed (f : EventFlag) : bool := m_deleted f && (zlen (m_waiters f) =? 0).

(** ** The calls

    [None] is the [UNREACHABLE] of an attribute or a mode that the code does not know. *)

Definition sceKernelCreateEventFlag (ef has_name has_param : bool) (name_length attr initPattern : Z)
    : option (Z * option EventFlag) :=
  if negb ef || negb has_name then Some (ORBIS_KERNEL_ERROR_EINVAL, None)
  else if has_param || (Z.lor 0x20 0x02 <? attr) then Some (ORBIS_KERNEL_ERROR_EINVAL, None)
  else if 32 <=? name_length then Some (ORBIS_KERNEL_ERROR_ENAMETOOLONG, None)
  else
    let queue := Z.land attr 0xf in
    queue_mode ← (if (queue =? 1) || (queue =? 0) then Some Fifo else if queue =? 2 then Some ThreadPrio else None);
    let thread := Z.land attr 0xf0 in
    thread_mode ← (if (thread =? 0x10) || (thread =? 0) then Some Single else if thread =? 0x20 then Some Multi else None);
    Some (ORBIS_OK, Some (new_flag thread_mode queue_mode initPattern)).

Definition decode_wait (waitMode : Z) : option (WaitMode * ClearMode) :=
  let w := Z.land waitMode 0xf in
  wait ← (if w =? 1 then Some And else if w =? 2 then Some Or else None);
  let c := Z.land waitMode 0xf0 in
  clear ← (if c =? 0 then Some ClearNone else if c =? 0x10 then Some ClearAll
           else if c =? 0x20 then Some ClearBits else None);
  Some (wait, clear).

Definition sceKernelWaitEventFlag (ef : option EventFlag) (thread prio bitPattern waitMode : Z) (pTimeout : option Z)
    : option (WaitOutcome * option EventFlag) :=
  match ef with
  | None => Some (Returned ORBIS_KERNEL_ERROR_ESRCH None, ef)
  | Some f =>
      if bitPattern =? 0 then Some (Returned ORBIS_KERNEL_ERROR_EINVAL None, ef) else
      '(wait, clear) ← decode_wait waitMode;
      let '(o, f') := WaitBegin f thread prio bitPattern wait clear pTimeout in
      Some (o, Some f')
  end.

Definition sceKernelPollEventFlag (ef : option EventFlag) (thread prio bitPattern waitMode : Z)
    : option (Z * option Z * option EventFlag) :=
  match ef with
  | None => Some (ORBIS_KERNEL_ERROR_ESRCH, None, ef)
  | Some f =>
      if bitPattern =? 0 then Some (ORBIS_KERNEL_ERROR_EINVAL, None, ef) else
      '(wait, clear) ← decode_wait waitMode;
      '(code, result, f') ← Poll f thread prio bitPattern wait clear;
      Some (code, result, Some f')
  end.

Definition sceKernelSetEventFlag (ef : option EventFlag) (bitPattern : Z) : option (Z * option EventFlag) :=
  match ef with
  | None => Some (ORBIS_KERNEL_ERROR_ESRCH, None)
  | Some f => f' ← Set_ f bitPattern; Some (ORBIS_OK, Some f')
  end.
Definition sceKernelClearEventFlag (ef : option EventFlag) (bitPattern : Z) : Z * option EventFlag :=
  match ef with
  | None => (ORBIS_KERNEL_ERROR_ESRCH, None)
  | Some f => (ORBIS_OK, Some (Clear f bitPattern))
  end.
Definition sceKernelCancelEventFlag (ef : option EventFlag) (setPattern : Z) : Z * option Z * option EventFlag :=
  match ef with
  | None => (ORBIS_KERNEL_ERROR_ESRCH, None, None)
  | Some f => let '(n, f') := Cancel f setPattern in (ORBIS_OK, Some n, Some f')
  end.
Definition sceKernelDeleteEventFlag (ef : option EventFlag) : Z * option EventFlag :=
  match ef with
  | None => (ORBIS_KERNEL_ERROR_ESRCH, None)
  | Some f => (ORBIS_OK, Some (Delete f))
  end.
Definition sceKernelOpenEventFlag : Z := ORBIS_OK.
Definition sceKernelCloseEventFlag : Z := ORBIS_OK.

(** * Bit patterns *)

(** Every bit of [p] is one of [q]. *)
Definition sub_bits (p q : Z) : Prop := Z.land p q = p.

Lemma sub_bits_refl p : sub_bits p p.
Proof. apply Z.land_diag. Qed.
Lemma sub_bits_trans p q r : sub_bits p q -> sub_bits q r -> sub_bits p r.
Proof. unfold sub_bits. intros Hpq Hqr. rewrite <- Hpq at 1. by rewrite <- Z.land_assoc, Hqr. Qed.
#[export] Instance sub_bits_preorder : PreOrder sub_bits.
Proof. split; [exact sub_bits_refl|exact sub_bits_trans]. Qed.
Lemma sub_bits_land p q : sub_bits (Z.land p q) p.
Proof. unfold sub_bits. by rewrite (Z.land_comm p q), <- Z.land_assoc, Z.land_diag. Qed.

Lemma apply_clear_sub p w : sub_bits (ApplyClear p w) p.
Proof.
  unfold ApplyClear. destruct (clear_mode w); [reflexivity|done|]. apply Z.bits_inj'. intros n Hn.
  rewrite Z.land_spec, Z.ldiff_spec. by destruct (Z.testbit p n), (Z.testbit _ n).
Qed.

Lemma condition_mono p q w : sub_bits p q -> ConditionMet p w = true -> ConditionMet q w = true.
Proof.
  unfold sub_bits, ConditionMet. intros Hs. destruct (wait_mode w).
  - intros Hp%Z.eqb_eq. apply Z.eqb_eq. rewrite <- Hp at 2. rewrite <- Hs, <- Z.land_assoc, (Z.land_comm q).
    rewrite Z.land_assoc, Hp. by rewrite Z.land_comm.
  - rewrite !negb_true_iff, !Z.eqb_neq. intros Hp Hq. apply Hp. by rewrite <- Hs, <- Z.land_assoc, Hq, Z.land_0_r.
Qed.

Lemma condition_unmet p q w : sub_bits p q -> ConditionMet q w = false -> ConditionMet p w = false.
Proof. intros Hs Hq. destruct (ConditionMet p w) eqn:Hp; [|done]. by rewrite (condition_mono p q w Hs Hp) in Hq. Qed.

(** The bits left of [p] after the listed threads cleared theirs, in that order. *)
Definition after_clears (threads : gmap Z Waiter) (p : Z) (l : list Z) : Z :=
  fold_left (fun q id => match threads !! id with Some w => ApplyClear q w | None => q end) l p.

Lemma after_clears_sub threads p l : sub_bits (after_clears threads p l) p.
Proof.
  revert p. induction l as [|id l IH]; intros p; cbn; [reflexivity|]. etrans; [apply IH|].
  destruct (threads !! id); [apply apply_clear_sub|reflexivity].
Qed.

Lemma after_clears_insert threads p l id w : id ∉ l -> after_clears (<[id := w]> threads) p l = after_clears threads p l.
Proof.
  revert p. induction l as [|x l IH]; intros p; [done|]. intros [Hne Hl]%not_elem_of_cons. cbn.
  rewrite lookup_insert_ne by done. by apply IH.
Qed.

(** * The pass of [Set] over the waiters *)

(** Some of the waiters are woken, in the order of the list: each sees the bits that those
    before it left, which satisfy its condition, and takes away what it clears. The others do
    not change, and the bits left satisfy none of them. *)
Record passed (p : Z) (threads : gmap Z Waiter) (l woken : list Z) (p' : Z) (threads' : gmap Z Waiter) : Prop := {
  pa_woken : woken `sublist_of` l;
  pa_left : p' = after_clears threads p woken;
  pa_seen : forall a id b w, woken = a ++ id :: b -> threads !! id = Some w ->
    ConditionMet (after_clears threads p a) w = true /\
    threads' !! id = Some (w <| result := after_clears threads p a |> <| ready := true |>);
  pa_unmet : forall id w, id ∈ l -> id ∉ woken -> threads !! id = Some w -> ConditionMet p' w = false;
  pa_others : forall id, id ∉ woken -> threads' !! id = threads !! id;
  pa_first : forall id r w, l = id :: r -> threads !! id = Some w -> ConditionMet p w = true -> id ∈ woken
}.

Lemma set_loop_spec p threads l :
  NoDup l -> (forall id, id ∈ l -> is_Some (threads !! id)) ->
  exists woken p' threads', set_loop p threads l = Some (p', threads') /\ passed p threads l woken p' threads'.
Proof.
  revert p threads. induction l as [|id r IH]; intros p threads Hn Hl.
  { exists [], p, threads. split; [done|]. split; try done. by intros [|? ?]. }
  apply NoDup_cons in Hn as [Hid Hn]. destruct (Hl id ltac:(by left)) as [w Hw]. cbn. rewrite Hw. cbn.
  destruct (ConditionMet p w) eqn:Hc.
  - destruct (IH (ApplyClear p w) (<[id := w <| result := p |> <| ready := true |>]> threads) Hn) as (woken & p' & threads' & -> & G).
    { intros x Hx. rewrite lookup_insert_ne by (by intros ->). apply Hl. by right. }
    destruct G. exists (id :: woken), p', threads'. split; [done|].
    assert (Hid' : id ∉ woken) by (intros Hin; apply Hid; by eapply elem_of_sublist).
    split.
    + by constructor.
    + cbn. rewrite Hw, pa_left0. by rewrite after_clears_insert.
    + intros [|y a] x b v E Hv; injection E as <- E.
      * rewrite Hw in Hv. injection Hv as <-. split; [done|]. rewrite pa_others0 by done. by rewrite lookup_insert_eq.
      * assert (Hx : x ∈ woken) by (subst woken; apply elem_of_app; right; by left).
        assert (Ha : id ∉ a) by (intros Ha; apply Hid'; subst woken; apply elem_of_app; by left).
        assert (after_clears threads p (id :: a) =
                after_clears (<[id := w <| result := p |> <| ready := true |>]> threads) (ApplyClear p w) a) as ->
          by (rewrite after_clears_insert by done; unfold after_clears; cbn; by rewrite Hw).
        apply (pa_seen0 a x b v E). rewrite lookup_insert_ne; [done|]. by intros ->.
    + intros x v [->|Hx]%elem_of_cons Hnin Hv; [by destruct Hnin; left|]. apply not_elem_of_cons in Hnin as [Hne Hnin].
      apply (pa_unmet0 x v Hx Hnin). by rewrite lookup_insert_ne.
    + intros x [Hne Hx]%not_elem_of_cons. rewrite pa_others0 by done. by rewrite lookup_insert_ne.
    + intros x k v [= <- <-] _ _. by left.
  - destruct (IH p threads Hn) as (woken & p' & threads' & -> & G); [intros; apply Hl; by right|].
    destruct G. exists woken, p', threads'. split; [done|]. split; try done.
    + by apply sublist_cons.
    + intros x v [->|Hx]%elem_of_cons Hnin Hv; [|by eapply pa_unmet0]. rewrite Hw in Hv. injection Hv as <-.
      apply (condition_unmet _ p); [subst p'; apply after_clears_sub|done].
    + intros x k v [= <- <-] Hv Hm. rewrite Hw in Hv. injection Hv as <-. congruence.
Qed.

(** * The flag as a transition system *)

Inductive event :=
| EWait (thread prio pattern : Z) (mode : WaitMode) (clear : ClearMode) (timeout : option Z) (o : WaitOutcome)
| EResume (thread elapsed code pattern : Z)
| ESet (pattern : Z)
| EClear (pattern : Z)
| ECancel (pattern : Z)
| EDelete.

(** A call and what it does; a thread calls [Wait] only when it is not blocked. *)
Inductive step : EventFlag -> event -> EventFlag -> Prop :=
| StepWait f thread prio pattern mode clear timeout o f' :
    threads f !! thread = None ->
    WaitBegin f thread prio pattern mode clear timeout = (o, f') ->
    step f (EWait thread prio pattern mode clear timeout o) f'
| StepResume f thread elapsed code pattern remaining f' :
    WaitEnd f thread elapsed = Some (code, pattern, remaining, f') ->
    step f (EResume thread elapsed code pattern) f'
| StepSet f pattern f' : Set_ f pattern = Some f' -> step f (ESet pattern) f'
| StepClear f pattern : step f (EClear pattern) (Clear f pattern)
| StepCancel f pattern n f' : Cancel f pattern = (n, f') -> step f (ECancel pattern) f'
| StepDelete f : step f EDelete (Delete f).

Inductive steps : EventFlag -> list event -> EventFlag -> Prop :=
| StepsNil f : steps f [] f
| StepsCons f e f' l f'' : step f e f' -> steps f' l f'' -> steps f (e :: l) f''.

(** Queued in the order of falling priority numbers. *)
Definition ordered (f : EventFlag) : Prop :=
  StronglySorted (fun a b => priority_of (threads f) b <= priority_of (threads f) a) (m_waiters f).

(** The state of a flag in use: the list holds each blocked thread once, one at most when the
    flag is for a single thread, ordered by priority unless it is a FIFO. The bits satisfy no
    sleeping thread; a thread that was woken by its bits saw bits that satisfy it; and a
    deleted flag has told every waiter. *)
Record ev_ok (f : EventFlag) : Prop := {
  eo_nodup : NoDup (m_waiters f);
  eo_listed : forall id, id ∈ m_waiters f <-> is_Some (threads f !! id);
  eo_unmet : forall id w, threads f !! id = Some w -> wake w = false -> ConditionMet (m_bits f) w = false;
  eo_result : forall id w, threads f !! id = Some w -> ready w = true -> canceled w = false ->
    ConditionMet (result w) w = true;
  eo_deleted : forall id w, m_deleted f = true -> threads f !! id = Some w -> deleted w = true;
  eo_single : m_thread_mode f = Single -> (length (m_waiters f) <= 1)%nat;
  eo_order : m_queue_mode f = ThreadPrio -> ordered f
}.

Lemma new_flag_ok mode queue pattern : ev_ok (new_flag mode queue pattern).
Proof.
  split; cbn.
  - constructor.
  - intros id. rewrite lookup_empty. split; [by intros ?%not_elem_of_nil|by intros [? ?]].
  - intros id w Hw. by rewrite lookup_empty in Hw.
  - intros id w Hw. by rewrite lookup_empty in Hw.
  - done.
  - lia.
  - constructor.
Qed.

Lemma ev_add_waiter_perm f id p : AddWaiter f id p ≡ₚ id :: m_waiters f.
Proof.
  unfold AddWaiter. destruct (m_queue_mode f); [|apply insert_before_perm]. symmetry. apply Permutation_cons_append.
Qed.

Lemma fresh_not_listed f id : ev_ok f -> threads f !! id = None -> id ∉ m_waiters f.
Proof. intros Hok Hid Hin. apply (eo_listed _ Hok) in Hin as [w Hw]. congruence. Qed.

(** Ordering only depends on the priorities. *)
Lemma order_weaken (threads threads' : gmap Z Waiter) l :
  (forall id, id ∈ l -> priority_of threads' id = priority_of threads id) ->
  StronglySorted (fun a b => priority_of threads b <= priority_of threads a) l ->
  StronglySorted (fun a b => priority_of threads' b <= priority_of threads' a) l.
Proof. intros Hp. apply sorted_weaken. intros a b Ha Hb. by rewrite !Hp. Qed.

Lemma add_waiter_order f id w : threads f !! id = None -> id ∉ m_waiters f -> m_queue_mode f = ThreadPrio -> ordered f ->
  StronglySorted (fun a b => priority_of (<[id := w]> (threads f)) b <= priority_of (<[id := w]> (threads f)) a)
    (AddWaiter f id (priority w)).
Proof.
  intros Hf Hid Hq Ho. unfold AddWaiter. rewrite Hq.
  assert (Hne : forall x, x ∈ m_waiters f -> priority_of (<[id := w]> (threads f)) x = priority_of (threads f) x)
    by (intros x Hx; unfold priority_of; rewrite lookup_insert_ne; [done|by intros ->]).
  apply insert_before_sorted; [lia| |by apply (order_weaken (threads f))].
  intros y Hy. rewrite (Hne y Hy).
  assert (priority_of (<[id := w]> (threads f)) id = priority w) as -> by (unfold priority_of; by rewrite lookup_insert_eq).
  destruct (Z.leb_spec (priority w) (priority_of (threads f) y)); lia.
Qed.

Lemma ev_wait_begin_ok f thread prio pattern mode clear timeout o f' :
  ev_ok f -> threads f !! thread = None ->
  WaitBegin f thread prio pattern mode clear timeout = (o, f') -> ev_ok f'.
Proof.
  intros Hok Hth H. pose proof Hok as [Hn Hl Hu Hr Hd Hs Ho]. unfold WaitBegin in H.
  destruct (m_deleted f) eqn:Hdel; [by injection H as <- <-|].
  destruct (match m_thread_mode f with Single => _ | Multi => false end) eqn:Hsingle; [by injection H as <- <-|].
  set (waiter := mkWaiter pattern mode clear 0 false false false prio timeout) in *.
  destruct (ConditionMet (m_bits f) waiter) eqn:Hc; injection H as <- <-.
  { split; cbn; rewrite ?Hdel; try done. intros id w Hw Hwake. apply (condition_unmet _ (m_bits f)); [apply apply_clear_sub|by eapply Hu]. }
  pose proof (fresh_not_listed f thread Hok Hth) as Hid. split; cbn; rewrite ?Hdel; try done.
  - rewrite ev_add_waiter_perm. by constructor.
  - intros id. rewrite ev_add_waiter_perm, elem_of_cons, lookup_insert_is_Some, Hl.
    destruct (decide (thread = id)) as [->|Hne]; [tauto|]. assert (id <> thread) by done. tauto.
  - intros id w [[<- <-]|[Hne Hw]]%lookup_insert_Some Hwake; [done|]. by eapply Hu.
  - intros id w [[<- <-]|[Hne Hw]]%lookup_insert_Some; [done|]. by eapply Hr.
  - intros Hm. rewrite Hm in Hsingle. rewrite ev_add_waiter_perm. cbn. unfold zlen in Hsingle.
    destruct (m_waiters f); [cbn; lia|]. cbn in Hsingle. apply negb_false_iff, Z.eqb_eq in Hsingle. lia.
  - intros Hq. unfold ordered. cbn. apply (add_waiter_order f thread waiter); auto.
Qed.

Lemma remove_waiter_ok f id : ev_ok f -> ev_ok (RemoveWaiter f id).
Proof.
  intros [Hn Hl Hu Hr Hd Hs Ho]. split; cbn.
  - apply base.NoDup_ListNoDup, List.NoDup_filter. by apply base.NoDup_ListNoDup.
  - intros x. rewrite filter_removed, lookup_delete_is_Some, Hl. split; intros [??]; by split.
  - intros x w [Hne Hw]%lookup_delete_Some. by apply Hu with x.
  - intros x w [Hne Hw]%lookup_delete_Some. by apply Hr with x.
  - intros x w Hx [Hne Hw]%lookup_delete_Some. by apply Hd with x.
  - intros Hm. specialize (Hs Hm). pose proof (List.filter_length_le (fun x => negb (x =? id)) (m_waiters f)). lia.
  - intros Hq. unfold ordered. cbn. apply (order_weaken (threads f)); [|by apply sorted_filter, Ho].
    intros x [_ Hx]%filter_removed. unfold priority_of. by rewrite lookup_delete_ne.
Qed.

Lemma wait_end_removes f thread elapsed code pattern remaining f' :
  WaitEnd f thread elapsed = Some (code, pattern, remaining, f') -> f' = RemoveWaiter f thread.
Proof.
  unfold WaitEnd. destruct (threads f !! thread) as [w|]; [|done]. cbn. destruct (wake w); [by injection 1|].
  destruct (micros w) as [t|]; [|done]. destruct (t <=? elapsed); [|done]. by injection 1.
Qed.

(** [Set] on a flag in use. *)
Lemma set_spec f pattern : ev_ok f ->
  exists woken p' threads',
    Set_ f pattern = Some (f <| m_bits := p' |> <| threads := threads' |>) /\
    passed (Z.lor (m_bits f) pattern) (threads f) (m_waiters f) woken p' threads'.
Proof.
  intros Hok. unfold Set_.
  destruct (set_loop_spec (Z.lor (m_bits f) pattern) (threads f) (m_waiters f)) as (woken & p' & threads' & -> & G);
    [apply Hok|intros id; apply (eo_listed _ Hok)|]. by exists woken, p', threads'.
Qed.

(** A woken waiter differs in what the pass writes only. *)
Lemma passed_lookup p threads l woken p' threads' id w' :
  passed p threads l woken p' threads' -> (forall id, id ∈ l -> is_Some (threads !! id)) -> threads' !! id = Some w' ->
  ((id ∉ woken) /\ threads !! id = Some w') \/
  (id ∈ woken /\ exists w q, threads !! id = Some w /\ ConditionMet q w = true /\ w' = w <| result := q |> <| ready := true |>).
Proof.
  intros G Hl Hw'. destruct (decide (id ∈ woken)) as [Hin|Hnin]; [right|left].
  - split; [done|]. destruct (Hl id) as [w Hw]; [eapply elem_of_sublist; [exact Hin|apply G]|].
    apply list_elem_of_split in Hin as (a & b & E). destruct (pa_seen _ _ _ _ _ _ G a id b w E Hw) as [Hc Ht].
    exists w, (after_clears threads p a). rewrite Ht in Hw'. by injection Hw' as <-.
  - split; [done|]. by rewrite <- (pa_others _ _ _ _ _ _ G).
Qed.

Lemma set_ok f pattern f' : ev_ok f -> Set_ f pattern = Some f' -> ev_ok f'.
Proof.
  intros Hok H. destruct (set_spec f pattern Hok) as (woken & p' & threads' & E & G). rewrite E in H. injection H as <-. clear E.
  pose proof Hok as [Hn Hl Hu Hr Hd Hs Ho]. assert (Hlst : forall id, id ∈ m_waiters f -> is_Some (threads f !! id)) by (intros; by apply Hl).
  pose proof (fun id w => passed_lookup _ _ _ _ _ _ id w G Hlst) as Hlook. split; cbn; try done.
  - intros id. rewrite Hl. destruct (decide (id ∈ woken)) as [Hin|Hnin].
    + assert (Hid : id ∈ m_waiters f) by (eapply elem_of_sublist; [exact Hin|apply G]). destruct (Hlst id Hid) as [w Hw].
      apply list_elem_of_split in Hin as (a & b & E). destruct (pa_seen _ _ _ _ _ _ G a id b w E Hw) as [_ ->]. by rewrite Hw; split; intros _; eexists.
    + by rewrite (pa_others _ _ _ _ _ _ G).
  - intros id w' [[Hnin Hw]|(_ & w & q & Hw & Hc & ->)]%Hlook Hwake; [|done].
    apply (pa_unmet _ _ _ _ _ _ G id); [apply Hl; by eexists|done|done].
  - intros id w' [[Hnin Hw]|(_ & w & q & Hw & Hc & ->)]%Hlook Hready Hcancel; [by eapply Hr|done].
  - intros id w' Hdel [[Hnin Hw]|(_ & w & q & Hw & Hc & ->)]%Hlook; by eapply Hd in Hw.
  - intros Hq. unfold ordered. cbn. apply (order_weaken (threads f)); [|by apply Ho]. intros id Hid.
    destruct (Hlst id Hid) as [w Hw]. unfold priority_of. rewrite Hw. destruct (decide (id ∈ woken)) as [Hin|Hnin].
    + apply list_elem_of_split in Hin as (a & b & E). by destruct (pa_seen _ _ _ _ _ _ G a id b w E Hw) as [_ ->].
    + by rewrite (pa_others _ _ _ _ _ _ G), Hw.
Qed.

Lemma clear_ok f pattern : ev_ok f -> ev_ok (Clear f pattern).
Proof.
  intros [Hn Hl Hu Hr Hd Hs Ho]. split; cbn; try done.
  intros id w Hw Hwake. apply (condition_unmet _ (m_bits f)); [apply sub_bits_land|by eapply Hu].
Qed.

(** Telling every waiter. *)
Lemma tell_all_ok f update p del : ev_ok f ->
  (forall w, wake (update w) = true /\ priority (update w) = priority w) ->
  (forall w, deleted (update w) = deleted w || del) ->
  (forall w, (ready w = true -> canceled w = false -> ConditionMet (result w) w = true) ->
     ready (update w) = true -> canceled (update w) = false -> ConditionMet (result (update w)) (update w) = true) ->
  ev_ok (f <| m_deleted := m_deleted f || del |> <| m_bits := p |> <| threads := each_waiter update f |>).
Proof.
  intros [Hn Hl Hu Hr Hd Hs Ho] Hup Hdel Hres.
  assert (Hlook : forall id, each_waiter update f !! id = update <$> threads f !! id).
  { intros id. unfold each_waiter. rewrite alter_each_lookup by done. case_decide as Hin; [done|].
    rewrite Hl in Hin. destruct (threads f !! id) as [w|]; [|done]. destruct Hin. by eexists. }
  split; cbn; try done.
  - intros id. by rewrite Hlook, fmap_is_Some.
  - intros id w'. rewrite Hlook. intros (w & Hw & ->)%fmap_Some. by rewrite (proj1 (Hup w)).
  - intros id w'. rewrite Hlook. intros (w & Hw & ->)%fmap_Some. apply Hres. by eapply Hr.
  - intros id w' Hd'. rewrite Hlook. intros (w & Hw & ->)%fmap_Some. rewrite Hdel.
    apply orb_true_iff in Hd' as [Hd'| ->]; [|apply orb_true_r]. by rewrite (Hd id w Hd' Hw).
  - intros Hq. unfold ordered. cbn. apply (order_weaken (threads f)); [|by apply Ho]. intros id _. unfold priority_of.
    rewrite Hlook. destruct (threads f !! id); [|done]. cbn. apply Hup.
Qed.

Lemma ev_cancel_ok f pattern : ev_ok f -> ev_ok (snd (Cancel f pattern)).
Proof.
  intros Hok. replace (snd (Cancel f pattern)) with
    (f <| m_deleted := m_deleted f || false |> <| m_bits := pattern |>
       <| threads := each_waiter (fun w => w <| result := pattern |> <| canceled := true |>) f |>)
    by (unfold Cancel, upd; cbn; by rewrite orb_false_r).
  apply tell_all_ok; [done|intros w; split; [unfold wake; cbn; by rewrite orb_true_r|done]|intros w; by rewrite orb_false_r|done].
Qed.

Lemma ev_delete_ok f : ev_ok f -> ev_ok (Delete f).
Proof.
  intros Hok. replace (Delete f) with
    (f <| m_deleted := m_deleted f || true |> <| m_bits := m_bits f |> <| threads := each_waiter (fun w => w <| deleted := true |>) f |>)
    by (unfold Delete, upd; cbn; by rewrite orb_true_r).
  apply tell_all_ok; [done| |intros w; by rewrite orb_true_r|done].
  intros w. split; [|done]. unfold wake. cbn. by rewrite !orb_true_r.
Qed.

Lemma ev_step_ok f e f' : ev_ok f -> step f e f' -> ev_ok f'.
Proof.
  intros Hok H. destruct H as [| | | |f pattern n f' H|].
  - by eapply ev_wait_begin_ok.
  - match goal with H : WaitEnd _ _ _ = _ |- _ => apply wait_end_removes in H as -> end. by apply remove_waiter_ok.
  - by eapply set_ok.
  - by apply clear_ok.
  - pose proof (ev_cancel_ok f pattern Hok) as Hc. by rewrite H in Hc.
  - by apply ev_delete_ok.
Qed.

Lemma ev_steps_ok f l f' : ev_ok f -> steps f l f' -> ev_ok f'.
Proof. intros Hok H. induction H as [|f e f' l f'' He H IH]; [done|]. apply IH. by eapply ev_step_ok. Qed.

(** ** Resuming *)

Lemma wait_end_cases f id w elapsed : threads f !! id = Some w ->
  WaitEnd f id elapsed =
    if wake w then
      Some (if canceled w then ORBIS_KERNEL_ERROR_ECANCELED
            else if deleted w then ORBIS_KERNEL_ERROR_EACCES else ORBIS_OK, result w, micros w, RemoveWaiter f id)
    else match micros w with
         | Some t => if t <=? elapsed then Some (ORBIS_KERNEL_ERROR_ETIMEDOUT, m_bits f, Some 0, RemoveWaiter f id) else None
         | None => None
         end.
Proof. unfold WaitEnd. by intros ->. Qed.

(** Why a wait ends, and what the caller gets. *)
Inductive wait_result (f : EventFlag) (w : Waiter) (elapsed : Z) : Z -> Z -> option Z -> Prop :=
| WaitSatisfied : ready w = true -> ConditionMet (result w) w = true ->
    wait_result f w elapsed ORBIS_OK (result w) (micros w)
| WaitCanceled : canceled w = true -> wait_result f w elapsed ORBIS_KERNEL_ERROR_ECANCELED (result w) (micros w)
| WaitDeleted : canceled w = false -> deleted w = true ->
    wait_result f w elapsed ORBIS_KERNEL_ERROR_EACCES (result w) (micros w)
| WaitTimedOut t : micros w = Some t -> t <= elapsed -> ConditionMet (m_bits f) w = false ->
    wait_result f w elapsed ORBIS_KERNEL_ERROR_ETIMEDOUT (m_bits f) (Some 0).

(** C15. Every state of an event flag that its calls can reach, in any order and with any
    arguments, is in order: the waiters are exactly the blocked threads, once each, at most one
    when the flag is for a single thread, by falling priority number unless it is a FIFO; no
    sleeping thread is satisfied by the bits of the flag; a thread that [Set] woke was given
    bits that satisfy it; a deleted flag has told all its waiters. *)
Theorem ev_reachable mode queue pattern l f : steps (new_flag mode queue pattern) l f -> ev_ok f.
Proof. apply ev_steps_ok, new_flag_ok. Qed.

(** A blocked thread sleeps on only while nothing woke it and its timeout is not over.
    When it resumes it leaves the list, and its code is right: [ORBIS_OK] comes with bits that
    satisfy its condition, a timeout with the current bits, which do not. *)
Theorem Wait_ends f id w elapsed : ev_ok f -> threads f !! id = Some w ->
  match WaitEnd f id elapsed with
  | Some (code, pattern, remaining, f') =>
      wait_result f w elapsed code pattern remaining /\ ev_ok f' /\
      m_waiters f ≡ₚ id :: m_waiters f' /\ threads f' = delete id (threads f) /\ m_bits f' = m_bits f
  | None => wake w = false /\ match micros w with Some t => elapsed < t | None => True end
  end.
Proof.
  intros Hok Hw. rewrite (wait_end_cases f id w elapsed Hw).
  assert (Hperm : m_waiters f ≡ₚ id :: List.filter (fun x => negb (x =? id)) (m_waiters f)).
  { apply NoDup_Permutation; [apply Hok| |].
    - constructor; [by intros [_ ?]%filter_removed|].
      apply base.NoDup_ListNoDup, List.NoDup_filter. apply base.NoDup_ListNoDup, Hok.
    - intros x. rewrite elem_of_cons, filter_removed. destruct (decide (x = id)) as [->|]; [|tauto].
      split; [by left|]. intros _. apply (eo_listed _ Hok). by eexists. }
  pose proof (remove_waiter_ok f id Hok) as Hok'. destruct (wake w) eqn:Hwake.
  - split; [|done]. destruct (canceled w) eqn:Hc; [by constructor|]. destruct (deleted w) eqn:Hd; [by constructor|].
    assert (ready w = true) by (unfold wake in Hwake; rewrite Hc, Hd in Hwake; by destruct (ready w)).
    constructor; [done|]. by eapply (eo_result _ Hok).
  - destruct (micros w) as [t|] eqn:Ht; [|done]. destruct (Z.leb_spec t elapsed); [|done].
    split; [|done]. apply (WaitTimedOut f w elapsed t); [done|done|]. by eapply (eo_unmet _ Hok).
Qed.

(** [Set] adds its bits and passes once over the waiters: each sees the bits the woken
    before it left; a woken one gets them as its result and takes away what it clears; the
    others do not change, and the bits left satisfy none of them. *)
Theorem Set_wakes f pattern : ev_ok f ->
  exists woken p' threads',
    Set_ f pattern = Some (f <| m_bits := p' |> <| threads := threads' |>) /\
    passed (Z.lor (m_bits f) pattern) (threads f) (m_waiters f) woken p' threads'.
Proof. apply set_spec. Qed.

(** [Set] does not skip a waiter that an earlier [Set] woke and that has not resumed: it
    overwrites the result of such a thread at the head of the list, and what it clears is
    taken away a second time, so that nobody else sees those bits. *)
Theorem Set_wakes_again f pattern id r w : ev_ok f ->
  m_waiters f = id :: r -> threads f !! id = Some w -> ready w = true ->
  ConditionMet (Z.lor (m_bits f) pattern) w = true ->
  exists f', Set_ f pattern = Some f' /\ sub_bits (m_bits f') (ApplyClear (Z.lor (m_bits f) pattern) w) /\
    threads f' !! id = Some (w <| result := Z.lor (m_bits f) pattern |>).
Proof.
  intros Hok Hl Hw Hready Hc. destruct (set_spec f pattern Hok) as (woken & p' & threads' & E & G).
  eexists. split; [exact E|]. cbn. pose proof (pa_first _ _ _ _ _ _ G id r w Hl Hw Hc) as Hin.
  pose proof (pa_woken _ _ _ _ _ _ G) as Hsub. rewrite Hl in Hsub.
  assert (exists b, woken = id :: b) as [b Hb].
  { apply sublist_cons_r in Hsub as [Hsub|(b & -> & _)]; [|by eexists]. pose proof (eo_nodup _ Hok) as Hn. rewrite Hl in Hn.
    apply NoDup_cons in Hn as [Hid _]. destruct Hid. by eapply elem_of_sublist. }
  split.
  - rewrite (pa_left _ _ _ _ _ _ G), Hb. cbn. rewrite Hw. apply after_clears_sub.
  - destruct (pa_seen _ _ _ _ _ _ G [] id b w Hb Hw) as [_ ->]. unfold upd. cbn. by rewrite <- Hready.
Qed.

(** No call makes the list of a deleted flag longer. *)
Lemma deleted_shrinks f e f' : m_deleted f = true -> step f e f' ->
  m_deleted f' = true /\ m_waiters f' `sublist_of` m_waiters f.
Proof.
  intros Hd H. destruct H as [f thread prio pattern mode clear timeout o f' _ H|f thread elapsed code pattern remaining f' H|f pattern f' H| |f pattern n f' H|].
  - unfold WaitBegin in H. rewrite Hd in H. by injection H as _ <-.
  - apply wait_end_removes in H as ->. split; [done|]. cbn. clear. induction (m_waiters f) as [|x l IH]; cbn; [constructor|].
    destruct (negb _); by constructor.
  - unfold Set_ in H. destruct (set_loop _ _ _) as [[? ?]|]; [|done]. by injection H as <-.
  - done.
  - by injection H as _ <-.
  - done.
Qed.

Lemma deleted_resumes f l : ev_ok f -> m_deleted f = true -> l ≡ₚ m_waiters f ->
  exists events f', steps f events f' /\ destroyed f' = true /\
    Forall2 (fun id e => exists code pattern, e = EResume id 0 code pattern /\
      (code = ORBIS_KERNEL_ERROR_ECANCELED \/ code = ORBIS_KERNEL_ERROR_EACCES)) l events.
Proof.
  revert f. induction l as [|id l IH]; intros f Hok Hd Hl.
  { exists [], f. split_and!; [constructor| |constructor]. apply Permutation_nil in Hl. unfold destroyed. by rewrite Hd, Hl. }
  assert (Hid : id ∈ m_waiters f) by (rewrite <- Hl; by left). apply (eo_listed _ Hok) in Hid as [w Hw].
  pose proof (wait_end_cases f id w 0 Hw) as E. pose proof (eo_deleted _ Hok id w Hd Hw) as Hdel.
  assert (Hwake : wake w = true) by (unfold wake; rewrite Hdel; apply orb_true_r). rewrite Hwake, Hdel in E.
  destruct (IH (RemoveWaiter f id)) as (events & f' & Hs & Hf & Hev); [by apply remove_waiter_ok|done| |].
  { pose proof (eo_nodup _ Hok) as Hn. apply NoDup_Permutation.
    - rewrite <- Hl in Hn. by apply NoDup_cons in Hn as [_ Hn].
    - cbn. apply base.NoDup_ListNoDup, List.NoDup_filter. by apply base.NoDup_ListNoDup.
    - intros x. cbn. rewrite filter_removed, <- Hl, elem_of_cons. rewrite <- Hl in Hn. apply NoDup_cons in Hn as [Hnid _].
      split; [intros Hx; split; [by right|by intros ->]|tauto]. }
  eexists (EResume id 0 _ _ :: events), f'. split_and!; [|done|].
  - eapply StepsCons; [|exact Hs]. eapply StepResume. exact E.
  - constructor; [|done]. eexists _, _. split; [reflexivity|]. destruct (canceled w); auto.
Qed.

(** The destructor does not wait forever: whatever is called meanwhile, a deleted flag
    stays deleted and its list never grows; the waiters can resume at once, in any order, with
    a cancellation or [ORBIS_KERNEL_ERROR_EACCES], and when they have the flag is destroyed. *)
Theorem Delete_completes f l : ev_ok f -> m_deleted f = true -> l ≡ₚ m_waiters f ->
  (forall e f', step f e f' -> m_deleted f' = true /\ m_waiters f' `sublist_of` m_waiters f) /\
  exists events f', steps f events f' /\ destroyed f' = true /\
    Forall2 (fun id e => exists code pattern, e = EResume id 0 code pattern /\
      (code = ORBIS_KERNEL_ERROR_ECANCELED \/ code = ORBIS_KERNEL_ERROR_EACCES)) l events.
Proof. intros Hok Hd Hl. split; [intros e f'; by apply deleted_shrinks|by apply deleted_resumes]. Qed.

(** ** A concrete run *)

(** Two threads wait, a [Set] wakes the first, which has not resumed. *)
Definition example_flag : EventFlag := new_flag Multi ThreadPrio 0.
Definition flag_1 : EventFlag := snd (WaitBegin example_flag 1 700 1 Or ClearAll None).
Definition flag_2 : EventFlag := snd (WaitBegin flag_1 2 256 3 And ClearNone (Some 50)).
Definition flag_set : EventFlag := match Set_ flag_2 1 with Some f => f | None => flag_2 end.
Definition waiter_1 : Waiter := mkWaiter 1 Or ClearAll 1 true false false 700 None.
Definition waiter_2 : Waiter := mkWaiter 3 And ClearNone 0 false false false 256 (Some 50).
Definition example_events : list event :=
  [EWait 1 700 1 Or ClearAll None Blocked; EWait 2 256 3 And ClearNone (Some 50) Blocked; ESet 1].

Lemma ev_example_run : steps example_flag example_events flag_set.
Proof.
  eapply (StepsCons _ _ flag_1); [by apply StepWait|]. eapply (StepsCons _ _ flag_2); [by apply StepWait|].
  eapply (StepsCons _ _ flag_set); [|constructor]. apply StepSet. vm_compute. reflexivity.
Qed.

Lemma flag_set_ok : ev_ok flag_set.
Proof. eapply ev_steps_ok; [apply (new_flag_ok Multi ThreadPrio 0)|exact ev_example_run]. Qed.

Lemma ev_reachable_witness : ev_ok flag_set /\ m_waiters flag_set = [1; 2] /\ m_bits flag_set = 0.
Proof.
  split_and!; [|vm_compute; reflexivity|vm_compute; reflexivity].
  apply (ev_reachable Multi ThreadPrio 0 example_events flag_set ev_example_run).
Defined.

Lemma Wait_ends_witness :
  wait_result flag_set waiter_1 0 ORBIS_OK 1 None /\ wait_result flag_set waiter_2 60 ORBIS_KERNEL_ERROR_ETIMEDOUT 0 (Some 0).
Proof.
  split.
  - pose proof (Wait_ends flag_set 1 waiter_1 0 flag_set_ok) as H. vm_compute in H. vm_compute. apply H. reflexivity.
  - pose proof (Wait_ends flag_set 2 waiter_2 60 flag_set_ok) as H. vm_compute in H. vm_compute. apply H. reflexivity.
Defined.

Lemma Set_wakes_witness : exists woken p' threads',
  Set_ flag_set 2 = Some (flag_set <| m_bits := p' |> <| threads := threads' |>) /\
  passed 2 (threads flag_set) (m_waiters flag_set) woken p' threads'.
Proof. apply (Set_wakes flag_set 2 flag_set_ok). Defined.

(** The second [Set] has what the second thread waits for, and the first thread, already
    awake, takes it. *)
Lemma Set_wakes_again_witness : exists f', Set_ flag_set 3 = Some f' /\ sub_bits (m_bits f') 0 /\
  threads f' !! 1 = Some (waiter_1 <| result := 3 |>).
Proof. apply (Set_wakes_again flag_set 3 1 [2] waiter_1 flag_set_ok); vm_compute; reflexivity. Defined.

Lemma Delete_completes_witness : exists events f', steps (Delete flag_set) events f' /\ destroyed f' = true /\
  Forall2 (fun id e => exists code pattern, e = EResume id 0 code pattern /\
      (code = ORBIS_KERNEL_ERROR_ECANCELED \/ code = ORBIS_KERNEL_ERROR_EACCES)) [2; 1] events.
Proof.
  apply (Delete_completes (Delete flag_set) [2; 1]); [apply ev_delete_ok, flag_set_ok|vm_compute; reflexivity|].
  apply Permutation_swap.
Defined.
