(* ===== verification/Alignment.v ===== *)
(** Alignment of addresses: src/src/common/alignment.h. *)
From Stdlib Require Import ZArith Lia.
From stdpp Require Import base tactics.
From S2P Require Import Prelude.

Definition KB16 : Z := 16384.
Definition KB64 : Z := 65536.

Definition AlignUp (value size : Z) : Z :=
  let mod_ := value mod size in
  let value := value -64 mod_ in
  if mod_ =? 0 then value else value +64 size.

Definition AlignDown (value size : Z) : Z := value -64 value mod size.

Definition Is16KBAligned (value : Z) : bool := Z.land value 0x3FFF =? 0.
Definition Is64KBAligned (value : Z) : bool := Z.land value 0xFFFF =? 0.
Definition Is2MBAligned (value : Z) : bool := Z.land value 0x1FFFFF =? 0.

(** [std::has_single_bit] *)
Definition has_single_bit (x : Z) : bool := (0 <? x) && (Z.land x (x - 1) =? 0).

(** [(size | x)] as the code of a caller sees it. *)
Definition aligned (size x : Z) : Prop := x mod size = 0.

(** The least multiple of [size] from [value] on, when it is a [u64]. *)
Lemma AlignUp_spec value size : 0 <= value -> 0 < size -> value + size <= U64_MAX ->
  aligned size (AlignUp value size) /\ value <= AlignUp value size < value + size /\
  (forall x, aligned size x -> value <= x -> AlignUp value size <= x).
Proof.
  intros Hv Hs Hm. unfold AlignUp, aligned. pose proof (Z.mod_pos_bound value size Hs) as Hb.
  pose proof (Z.div_mod value size ltac:(lia)) as Hd. pose proof (Z.mod_le value size Hv Hs) as Hle.
  rewrite (wrap64_small (value - value mod size)) by u64_lia.
  destruct (Z.eqb_spec (value mod size) 0) as [E|E].
  - split_and!; try lia. by rewrite E, Z.sub_0_r.
  - rewrite wrap64_small by u64_lia. replace (value - value mod size + size) with ((value / size + 1) * size) by lia. split_and!.
    + apply Z.mod_mul. lia.
    + lia.
    + lia.
    + intros x Hx Hvx. pose proof (Z.div_mod x size ltac:(lia)) as Hdx. rewrite Hx in Hdx.
      assert (value / size < x / size) by nia. nia.
Qed.

Lemma AlignDown_spec value size : 0 <= value <= U64_MAX -> 0 < size ->
  aligned size (AlignDown value size) /\ value - size < AlignDown value size <= value /\ 0 <= AlignDown value size.
Proof.
  intros Hv Hs. unfold AlignDown, aligned. pose proof (Z.mod_pos_bound value size Hs) as Hb.
  pose proof (Z.div_mod value size ltac:(lia)) as Hd. pose proof (Z.mod_le value size ltac:(lia) Hs) as Hle.
  rewrite wrap64_small by u64_lia. split_and!; try lia.
  replace (value - value mod size) with ((value / size) * size) by lia. apply Z.mod_mul. lia.
Qed.

(** The masks are alignment to a power of two. *)
Lemma mask_aligned k x : 0 <= k -> (Z.land x (Z.ones k) =? 0) = true <-> aligned (2 ^ k) x.
Proof. intros Hk. rewrite Z.land_ones, Z.eqb_eq by done. done. Qed.

Lemma Is16KBAligned_spec x : Is16KBAligned x = true <-> aligned KB16 x.
Proof. exact (mask_aligned 14 x ltac:(done)). Qed.
Lemma Is64KBAligned_spec x : Is64KBAligned x = true <-> aligned KB64 x.
Proof. exact (mask_aligned 16 x ltac:(done)). Qed.
