(* ===== verification/OrdMap.v ===== *)
(** Ordered maps of areas: [std::map] from an address, and layouts of disjoint areas.

    The memory manager keeps its areas in [std::map]s from their first address and walks them
    with iterators. A map is the list of its entries in the order of the keys, an iterator is a
    key. The first part is the map; the second, for areas with a base and a size, is the
    relation between such a list and the function from addresses that it stands for. *)
From Stdlib Require Import ZArith Lia.
From stdpp Require Import base gmap list list_numbers strings.
From S2P Require Import Prelude.

(** * [std::map] *)

Section ordered_map.
Context {A : Type}.
Implicit Types (m l r : list (Z * A)) (k : Z) (a b : A).

(** [find] *)
Fixpoint get m k : option A :=
  match m with
  | [] => None
  | (k', a) :: r => if k =? k' then Some a else get r k
  end.

(** [upper_bound(k)], and [std::next] of the iterator at [k]. *)
Fixpoint upper_bound m k : option (Z * A) :=
  match m with
  | [] => None
  | (k', a) :: r => if k <? k' then Some (k', a) else upper_bound r k
  end.

(** [std::prev(upper_bound(k))]; [None] when that is the iterator before the first. *)
Fixpoint floor m k : option (Z * A) :=
  match m with
  | [] => None
  | (k', a) :: r => if k <? k' then None else match floor r k with Some e => Some e | None => Some (k', a) end
  end.

(** [std::prev] of the iterator at [k]. *)
Definition prev m k : option (Z * A) := floor m (k - 1).

(** [m[k] = a] *)
Fixpoint put m k a : list (Z * A) :=
  match m with
  | [] => [(k, a)]
  | (k', b) :: r => if k <? k' then (k, a) :: m else if k =? k' then (k, a) :: r else (k', b) :: put r k a
  end.

(** [emplace] and [emplace_hint] *)
Definition emplace m k a : list (Z * A) := match get m k with Some _ => m | None => put m k a end.

Definition erase m k : list (Z * A) := List.filter (fun e => negb (fst e =? k)) m.

(** The entries from the iterator at [k] to [end()]. *)
Definition from m k : list (Z * A) := List.filter (fun e => k <=? fst e) m.

(** Keys in order, all of them in [lo, hi). *)
Fixpoint ordered lo m hi : Prop :=
  match m with
  | [] => lo <= hi
  | (k, _) :: r => lo <= k /\ k < hi /\ ordered (k + 1) r hi
  end.

Lemma ordered_weaken lo lo' m hi : lo' <= lo -> ordered lo m hi -> ordered lo' m hi.
Proof. destruct m as [|[k a] m]; cbn; [lia|]. intros ? (? & ? & ?). split_and!; [lia|done|done]. Qed.

Lemma ordered_le lo m hi : ordered lo m hi -> lo <= hi.
Proof. revert lo. induction m as [|[k a] m IH]; intros lo; cbn; [done|]. intros (? & ? & _). lia. Qed.

Lemma ordered_app lo l k a r hi : ordered lo (l ++ (k, a) :: r) hi <-> ordered lo l k /\ k < hi /\ ordered (k + 1) r hi.
Proof.
  revert lo. induction l as [|[k' b] l IH]; intros lo; cbn; [done|]. rewrite IH. split.
  - intros (? & ? & Ho & ? & ?). pose proof (ordered_le _ _ _ Ho). split_and!; auto; lia.
  - intros ((? & ? & ?) & ? & ?). split_and!; auto; lia.
Qed.

Lemma ordered_before lo l hi k a : ordered lo l hi -> (k, a) ∈ l -> lo <= k < hi.
Proof.
  revert lo. induction l as [|[k' b] l IH]; intros lo; cbn; [by intros _ ?%not_elem_of_nil|].
  intros (? & ? & Ho) [[= -> ->]|Hin]%elem_of_cons; [lia|]. specialize (IH _ Ho Hin). lia.
Qed.

Lemma get_app lo l k a r hi : ordered lo (l ++ (k, a) :: r) hi -> get (l ++ (k, a) :: r) k = Some a.
Proof.
  revert lo. induction l as [|[k' b] l IH]; intros lo; cbn; [by rewrite Z.eqb_refl|].
  intros (_ & _ & Ho). pose proof Ho as (Hl & _)%ordered_app. apply ordered_le in Hl.
  destruct (Z.eqb_spec k k'); [lia|]. by eapply IH.
Qed.

Lemma get_absent lo m hi k : ordered lo m hi -> k < lo \/ hi <= k -> get m k = None.
Proof.
  revert lo. induction m as [|[k' b] m IH]; intros lo; [done|]. cbn. intros (? & ? & Ho) Hk.
  destruct (Z.eqb_spec k k'); [lia|]. apply (IH _ Ho). lia.
Qed.

Lemma put_app lo l k a b r hi : ordered lo (l ++ (k, a) :: r) hi -> put (l ++ (k, a) :: r) k b = l ++ (k, b) :: r.
Proof.
  revert lo. induction l as [|[k' c] l IH]; intros lo; cbn; [by rewrite Z.ltb_irrefl, Z.eqb_refl|].
  intros (_ & _ & Ho). pose proof Ho as (Hl & _)%ordered_app. apply ordered_le in Hl.
  destruct (Z.ltb_spec k k'); [lia|]. destruct (Z.eqb_spec k k'); [lia|]. by rewrite (IH _ Ho).
Qed.

Lemma put_between lo l k a r hi : ordered lo l k -> ordered (k + 1) r hi -> put (l ++ r) k a = l ++ (k, a) :: r.
Proof.
  revert lo. induction l as [|[k' c] l IH]; intros lo; cbn.
  - intros _. destruct r as [|[k' b] r]; cbn; [done|]. intros (? & _). destruct (Z.ltb_spec k k'); [done|lia].
  - intros (? & ? & Ho) Hr. destruct (Z.ltb_spec k k'); [lia|]. destruct (Z.eqb_spec k k'); [lia|]. by rewrite (IH _ Ho).
Qed.

Lemma get_between lo l k r hi : ordered lo l k -> ordered (k + 1) r hi -> get (l ++ r) k = None.
Proof.
  revert lo. induction l as [|[k' c] l IH]; intros lo; cbn.
  - intros _ Hr. apply (get_absent _ _ _ _ Hr). lia.
  - intros (? & ? & Ho) Hr. destruct (Z.eqb_spec k k'); [lia|]. by eapply IH.
Qed.

Lemma emplace_between lo l k a r hi : ordered lo l k -> ordered (k + 1) r hi -> emplace (l ++ r) k a = l ++ (k, a) :: r.
Proof. intros Hl Hr. unfold emplace. rewrite (get_between _ _ _ _ _ Hl Hr). by eapply put_between. Qed.

Lemma erase_absent lo m hi k : ordered lo m hi -> k < lo \/ hi <= k -> erase m k = m.
Proof.
  revert lo. induction m as [|[k' b] m IH]; intros lo; [done|]. cbn. intros (? & ? & Ho) Hk.
  destruct (Z.eqb_spec k' k); [lia|]. cbn. f_equal. apply (IH _ Ho). lia.
Qed.

Lemma erase_app lo l k a r hi : ordered lo (l ++ (k, a) :: r) hi -> erase (l ++ (k, a) :: r) k = l ++ r.
Proof.
  intros (Hl & ? & Hr)%ordered_app. unfold erase. rewrite List.filter_app. cbn. rewrite Z.eqb_refl. cbn.
  f_equal; [apply (erase_absent _ _ _ _ Hl); lia|apply (erase_absent _ _ _ _ Hr); lia].
Qed.

Lemma upper_bound_head lo m hi k : ordered lo m hi -> k < lo -> upper_bound m k = head m.
Proof. destruct m as [|[k' b] m]; [done|]. cbn. intros (? & _) ?. destruct (Z.ltb_spec k k'); [done|lia]. Qed.

Lemma upper_bound_app lo l k a r hi : ordered lo (l ++ (k, a) :: r) hi -> upper_bound (l ++ (k, a) :: r) k = head r.
Proof.
  revert lo. induction l as [|[k' c] l IH]; intros lo; cbn.
  - intros (_ & _ & Hr). rewrite Z.ltb_irrefl. apply (upper_bound_head _ _ _ _ Hr). lia.
  - intros (_ & _ & Ho). pose proof Ho as (Hl & _)%ordered_app. apply ordered_le in Hl.
    destruct (Z.ltb_spec k k'); [lia|]. by eapply IH.
Qed.

Lemma floor_low lo m hi k : ordered lo m hi -> k < lo -> floor m k = None.
Proof. destruct m as [|[k' b] m]; [done|]. cbn. intros (? & _) ?. destruct (Z.ltb_spec k k'); [done|lia]. Qed.

(** The entry whose key is the last one not above [x]. *)
Lemma floor_app lo l k a r hi x : ordered lo (l ++ (k, a) :: r) hi -> k <= x ->
  match r with (k', _) :: _ => x < k' | [] => True end -> floor (l ++ (k, a) :: r) x = Some (k, a).
Proof.
  revert lo. induction l as [|[k' c] l IH]; intros lo; cbn.
  - intros (_ & _ & Hr) Hx Hn. destruct (Z.ltb_spec x k); [lia|]. destruct r as [|[k' b] r]; [done|]. cbn.
    destruct (Z.ltb_spec x k'); [done|lia].
  - intros (_ & _ & Ho) Hx Hn. pose proof Ho as (Hl & _)%ordered_app. apply ordered_le in Hl.
    destruct (Z.ltb_spec x k'); [lia|]. by rewrite (IH _ Ho).
Qed.

Lemma prev_app lo l k a r hi : ordered lo (l ++ (k, a) :: r) hi -> prev (l ++ (k, a) :: r) k = last l.
Proof.
  intros (Hl & Hk & Hr)%ordered_app. unfold prev. destruct l as [|e l' _] using rev_ind.
  - cbn. destruct (Z.ltb_spec (k - 1) k); [done|lia].
  - destruct e as [k' b]. rewrite last_snoc. apply ordered_app in Hl as (Hl & Hk' & _).
    rewrite <- app_assoc. apply (floor_app lo _ _ _ _ hi); [|lia|cbn; lia].
    apply ordered_app. split_and!; [done|lia|]. cbn. split_and!; [lia|done|done].
Qed.

Lemma from_absent lo m hi k : ordered lo m hi -> hi <= k -> from m k = [].
Proof.
  revert lo. induction m as [|[k' b] m IH]; intros lo; [done|]. cbn. intros (? & ? & Ho) Hk.
  destruct (Z.leb_spec k k'); [lia|]. by apply (IH _ Ho).
Qed.

Lemma from_all lo m hi k : ordered lo m hi -> k <= lo -> from m k = m.
Proof.
  revert lo. induction m as [|[k' b] m IH]; intros lo; [done|]. cbn. intros (? & ? & Ho) Hk.
  destruct (Z.leb_spec k k'); [|lia]. f_equal. apply (IH _ Ho). lia.
Qed.

Lemma from_app lo l k a r hi : ordered lo (l ++ (k, a) :: r) hi -> from (l ++ (k, a) :: r) k = (k, a) :: r.
Proof.
  intros (Hl & ? & Hr)%ordered_app. unfold from. rewrite List.filter_app. cbn. rewrite Z.leb_refl.
  change (List.filter (fun e => k <=? fst e)) with (fun m => from m k). cbn.
  rewrite (from_absent _ _ _ _ Hl) by lia. by rewrite (from_all _ _ _ _ Hr) by lia.
Qed.
End ordered_map.

(** * Areas

    What the two maps of the memory manager need of their areas: [cut_low] and [cut_high] are
    the two parts that [Split] makes, [can_merge] is [CanMergeWith], [join] is the area that
    [MergeAdjacent] makes of two. *)

Class Area (A : Type) := {
  area_base : A -> Z;
  area_size : A -> Z;
  cut_low : A -> Z -> A;
  cut_high : A -> Z -> A;
  can_merge : A -> A -> bool;
  join : A -> A -> A
}.

Section area_ops.
Context {A : Type} `{Area A}.
Implicit Types (m : list (Z * A)) (k : Z) (a b : A).

(** [Split]: the map and the handle of the second part; [None] is a failed assertion. *)
Definition Split m k (offset : Z) : option (list (Z * A) * Z) :=
  a ← get m k;
  if (offset <? area_size a) && (0 <? offset) then
    let b := cut_high a offset in
    Some (emplace (put m k (cut_low a offset)) (area_base b) b, area_base b)
  else None.

(** The common end of [CarveVMA] and [CarvePhysArea], for the part of [a] between two offsets. *)
Definition carve_within m k a (start end_ : Z) : option (list (Z * A) * Z) :=
  m1 ← (if end_ =? area_size a then Some m else '(m1, _) ← Split m k end_; Some m1);
  if start =? 0 then Some (m1, k) else Split m1 k start.

(** [MergeAdjacent]: the map and the handle of the area that holds the given one. *)
Definition MergeAdjacent m k : option (list (Z * A) * Z) :=
  a ← get m k;
  let '(m1, a1) :=
    match upper_bound m k with
    | Some (k2, b) => if can_merge a b then (erase (put m k (join a b)) k2, join a b) else (m, a)
    | None => (m, a)
    end in
  match prev m1 k with
  | Some (k0, p) => if can_merge p a1 then Some (erase (put m1 k0 (join p a1)) k, k0) else Some (m1, k)
  | None => Some (m1, k)
  end.

Definition area_end a : Z := area_base a + area_size a.
Definition inside a (x : Z) : bool := (area_base a <=? x) && (x <? area_end a).

(** The area that holds an address. *)
Fixpoint area_at m (x : Z) : option A :=
  match m with
  | [] => None
  | (_, a) :: r => if inside a x then Some a else area_at r x
  end.
End area_ops.

(** The promise of the areas of a kind to the maps: [view a x] is what the area says of the
    address [x], [area_ok] what makes it well-formed. Cutting and joining preserve both. *)
Class AreaLaws (A V : Type) `{Area A} := {
  view : A -> Z -> V;
  area_ok : A -> Prop;
  cut_bounds a o : 0 <= area_base a -> 0 < o < area_size a -> area_end a <= U64_MAX ->
    area_base (cut_low a o) = area_base a /\ area_size (cut_low a o) = o /\
    area_base (cut_high a o) = area_base a + o /\ area_size (cut_high a o) = area_size a - o;
  cut_ok a o : area_ok a -> 0 <= area_base a -> 0 < o < area_size a -> area_end a <= U64_MAX ->
    area_ok (cut_low a o) /\ area_ok (cut_high a o) /\
    (forall x, area_base a <= x < area_base a + o -> view (cut_low a o) x = view a x) /\
    (forall x, area_base a + o <= x < area_end a -> view (cut_high a o) x = view a x);
  join_bounds a b : 0 <= area_base a -> 0 < area_size a -> 0 < area_size b -> area_end b <= U64_MAX ->
    area_end a <= area_base b -> can_merge a b = true ->
    area_end a = area_base b /\ area_base (join a b) = area_base a /\ area_size (join a b) = area_size a + area_size b;
  join_ok a b : area_ok a -> area_ok b -> 0 <= area_base a -> 0 < area_size a -> 0 < area_size b -> area_end b <= U64_MAX ->
    area_end a <= area_base b -> can_merge a b = true ->
    area_ok (join a b) /\
    (forall x, area_base a <= x < area_end a -> view (join a b) x = view a x) /\
    (forall x, area_base b <= x < area_end b -> view (join a b) x = view b x)
}.

Section layout.
Context {A V : Type} `{AreaLaws A V}.
Implicit Types (m l r : list (Z * A)) (k : Z) (a b : A).

(** Areas in order between two addresses, disjoint, not empty and well-formed, each under its
    base; gaps are allowed. *)
Fixpoint laid lo m hi : Prop :=
  match m with
  | [] => lo <= hi
  | (k, a) :: r => (lo <= k /\ area_base a = k /\ 0 < area_size a /\ area_ok a) /\ laid (area_end a) r hi
  end.

(** What a map says of each address. *)
Definition view_at m (x : Z) : option V := (fun a => view a x) <$> area_at m x.

Lemma inside_spec a x : inside a x = true <-> area_base a <= x < area_end a.
Proof. unfold inside. lia. Qed.

Lemma laid_weaken lo lo' m hi : lo' <= lo -> laid lo m hi -> laid lo' m hi.
Proof. destruct m as [|[k a] m]; cbn; [lia|]. intros ? ((? & ? & ? & ?) & ?). split_and!; try done. lia. Qed.

Lemma laid_le lo m hi : laid lo m hi -> lo <= hi.
Proof.
  revert lo. induction m as [|[k a] m IH]; intros lo; cbn; [done|]. intros ((? & ? & ? & ?) & Hl).
  specialize (IH _ Hl). unfold area_end in IH. lia.
Qed.

Lemma laid_ordered lo m hi : laid lo m hi -> ordered lo m hi.
Proof.
  revert lo. induction m as [|[k a] m IH]; intros lo; cbn; [done|]. intros ((? & ? & ? & ?) & Hl).
  pose proof (laid_le _ _ _ Hl). unfold area_end in *. split_and!; [lia|lia|]. apply (ordered_weaken (area_base a + area_size a)); [lia|by apply IH].
Qed.

Lemma laid_app lo l k a r hi : laid lo (l ++ (k, a) :: r) hi <->
  laid lo l k /\ area_base a = k /\ 0 < area_size a /\ area_ok a /\ laid (area_end a) r hi.
Proof. revert lo. induction l as [|[k' b] l IH]; intros lo; cbn; [tauto|]. rewrite IH. tauto. Qed.

Lemma laid_app_inv lo l r hi : laid lo (l ++ r) hi -> exists mid, laid lo l mid /\ laid mid r hi.
Proof.
  revert lo. induction l as [|[k b] l IH]; intros lo; cbn; [intros ?; exists lo; split; [lia|done]|].
  intros (Hb & (mid & Hl & Hr)%IH). by exists mid.
Qed.

Lemma laid_extend lo l mid hi : laid lo l mid -> mid <= hi -> laid lo l hi.
Proof. revert lo. induction l as [|[k b] l IH]; intros lo; cbn; [lia|]. intros (? & ?) ?. split; [done|]. by apply IH. Qed.

Lemma laid_drop lo l k a r hi : laid lo (l ++ (k, a) :: r) hi -> laid lo (l ++ r) hi.
Proof.
  revert lo. induction l as [|[k' b] l IH]; intros lo; cbn.
  - intros ((? & ? & ? & ?) & Hr). eapply laid_weaken; [|exact Hr]. unfold area_end. lia.
  - intros (? & ?). split; [done|]. by apply IH.
Qed.

Lemma area_at_app l r x : area_at (l ++ r) x = match area_at l x with Some a => Some a | None => area_at r x end.
Proof. induction l as [|[k a] l IH]; cbn; [done|]. by destruct (inside a x). Qed.

Lemma area_at_out lo m hi x : laid lo m hi -> x < lo \/ hi <= x -> area_at m x = None.
Proof.
  revert lo. induction m as [|[k a] m IH]; intros lo; cbn; [done|]. intros ((? & ? & ? & ?) & Hl) Hx.
  pose proof (laid_le _ _ _ Hl) as Hle. destruct (inside a x) eqn:E.
  - apply inside_spec in E. lia.
  - apply (IH _ Hl). unfold area_end in *. lia.
Qed.

Lemma area_at_mid lo l k a r hi x : laid lo (l ++ (k, a) :: r) hi ->
  area_at (l ++ (k, a) :: r) x = if inside a x then Some a else if x <? k then area_at l x else area_at r x.
Proof.
  intros (Hl & Hk & Hs & _ & Hr)%laid_app. rewrite area_at_app. cbn.
  destruct (inside a x) eqn:E.
  - apply inside_spec in E. by rewrite (area_at_out _ _ _ _ Hl) by lia.
  - destruct (Z.ltb_spec x k).
    + rewrite (area_at_out _ _ _ _ Hr) by (unfold area_end; lia). by destruct (area_at l x).
    + by rewrite (area_at_out _ _ _ _ Hl) by lia.
Qed.

Lemma area_at_in m x a : area_at m x = Some a -> exists l k r, m = l ++ (k, a) :: r /\ area_base a <= x < area_end a.
Proof.
  induction m as [|[k b] m IH]; cbn; [done|]. destruct (inside b x) eqn:E.
  - intros [= ->]. apply inside_spec in E. by exists [], k, m.
  - intros (l & k' & r & -> & Hx)%IH. by exists ((k, b) :: l), k', r.
Qed.

(** The area of an address is the one [std::prev(upper_bound(x))] finds. *)
Lemma locate lo m hi x a : laid lo m hi -> area_at m x = Some a ->
  exists l r, m = l ++ (area_base a, a) :: r /\ area_base a <= x < area_end a /\ floor m x = Some (area_base a, a).
Proof.
  intros Hm (l & k & r & -> & Hx)%area_at_in. pose proof Hm as (Hl & Hk & Hs & Hok & Hr)%laid_app.
  exists l, r. subst k. split_and!; [done|lia|lia|]. apply (floor_app lo _ _ _ _ hi); [by eapply laid_ordered|lia|].
  destruct r as [|[k' b] r]; [done|]. cbn in Hr. lia.
Qed.

(** Conversely, what [std::prev(upper_bound(x))] finds is the entry before [x]. *)
Lemma floor_Some lo m hi x k a : laid lo m hi -> floor m x = Some (k, a) ->
  exists l r, m = l ++ (k, a) :: r /\ area_base a = k /\ k <= x /\ match r with (k', _) :: _ => x < k' | [] => True end.
Proof.
  revert lo. induction m as [|[k' b] m IH]; intros lo; cbn; [done|]. intros ((? & ? & ? & ?) & Hl).
  destruct (Z.ltb_spec x k') as [|Hx]; [done|]. destruct (floor m x) as [e|] eqn:E.
  - intros [= ->]. destruct (IH _ Hl eq_refl) as (l & r & -> & ? & ? & ?). by exists ((k', b) :: l), r.
  - intros [= -> ->]. exists [], m. split_and!; try done. destruct m as [|[k2 c] m]; [done|]. cbn in E.
    destruct (Z.ltb_spec x k2); [done|]. by destruct (floor m x).
Qed.
End layout.

Section layout_ops.
Context {A V : Type} `{AreaLaws A V}.
Implicit Types (m l r : list (Z * A)) (k : Z) (a b : A).

Lemma view_at_app l r x : view_at (l ++ r) x = match view_at l x with Some v => Some v | None => view_at r x end.
Proof. unfold view_at. rewrite area_at_app. by destruct (area_at l x). Qed.

Lemma view_at_cons k a r x : view_at ((k, a) :: r) x = if inside a x then Some (view a x) else view_at r x.
Proof. unfold view_at. cbn. by destruct (inside a x). Qed.

Lemma laid_area lo m hi k a : laid lo m hi -> (k, a) ∈ m -> area_base a = k /\ lo <= k /\ 0 < area_size a /\ area_ok a /\ area_end a <= hi.
Proof.
  intros Hm (l & r & ->)%list_elem_of_split. apply laid_app in Hm as (Hl & Hk & Hs & Hok & Hr).
  apply laid_le in Hl, Hr. by split_and!.
Qed.

(** An area stands for the two parts of a cut. *)
Lemma view_at_cut k a b c r x : area_base b = area_base a -> area_base c = area_end b -> area_end c = area_end a ->
  0 < area_size b -> 0 < area_size c ->
  (forall y, area_base b <= y < area_end b -> view b y = view a y) ->
  (forall y, area_base c <= y < area_end c -> view c y = view a y) ->
  view_at ((k, b) :: (area_base c, c) :: r) x = view_at ((k, a) :: r) x.
Proof.
  intros Hb Hc Hce Hsb Hsc Hvb Hvc. rewrite !view_at_cons.
  pose proof (inside_spec a x) as Ia. pose proof (inside_spec b x) as Ib. pose proof (inside_spec c x) as Ic.
  unfold area_end in *. destruct (inside b x).
  - rewrite Hvb by (by apply Ib). replace (inside a x) with true; [done|]. symmetry. apply Ia. destruct Ib as [Ib _]. specialize (Ib eq_refl). lia.
  - destruct (inside c x).
    + rewrite Hvc by (by apply Ic). replace (inside a x) with true; [done|]. symmetry. apply Ia. destruct Ic as [Ic _]. specialize (Ic eq_refl). lia.
    + destruct (inside a x); [|done]. destruct Ia as [Ia _]. specialize (Ia eq_refl).
      destruct (Z.lt_ge_cases x (area_base b + area_size b)).
      * destruct Ib as [_ Ib]. discriminate Ib. lia.
      * destruct Ic as [_ Ic]. discriminate Ic. lia.
Qed.

Lemma split_spec lo l k a r hi o : 0 <= lo -> hi <= U64_MAX -> laid lo (l ++ (k, a) :: r) hi -> 0 < o < area_size a ->
  let m' := l ++ (k, cut_low a o) :: (k + o, cut_high a o) :: r in
  Split (l ++ (k, a) :: r) k o = Some (m', k + o) /\ laid lo m' hi /\
  (forall x, view_at m' x = view_at (l ++ (k, a) :: r) x).
Proof.
  intros Hlo Hhi Hm Ho m'. pose proof Hm as (Hl & Hk & Hs & Hok & Hr)%laid_app.
  pose proof (laid_le _ _ _ Hl) as Hlk. pose proof (laid_le _ _ _ Hr) as Hrk.
  destruct (cut_bounds a o) as (Bl & Sl & Bh & Sh); [lia|done|lia|].
  destruct (cut_ok a o Hok) as (Okl & Okh & Vl & Vh); [lia|done|lia|].
  assert (Hm' : laid lo m' hi).
  { apply laid_app. split_and!; [done|lia|lia|done|]. cbn. unfold area_end in *. split_and!; [lia|lia|lia|done|].
    rewrite Bh, Sh. by replace (area_base a + o + (area_size a - o)) with (area_base a + area_size a) by lia. }
  split_and!; [|done|].
  - unfold Split. rewrite (get_app lo _ _ _ _ hi) by (by eapply laid_ordered). cbn.
    destruct (Z.ltb_spec o (area_size a)), (Z.ltb_spec 0 o); try lia. cbn.
    rewrite (put_app lo _ _ _ _ _ hi) by (by eapply laid_ordered). rewrite Bh, Hk. f_equal. f_equal.
    change (l ++ (k, cut_low a o) :: r) with (l ++ ([(k, cut_low a o)] ++ r)). rewrite app_assoc.
    apply laid_ordered in Hm'. unfold m' in Hm'. change ((k, cut_low a o) :: (k + o, cut_high a o) :: r) with
      ([(k, cut_low a o)] ++ (k + o, cut_high a o) :: r) in Hm'. rewrite app_assoc in Hm'.
    apply ordered_app in Hm' as (Ho1 & _ & Ho2). rewrite (emplace_between lo _ _ _ _ hi) by done. by rewrite <- app_assoc.
  - intros x. unfold m'. rewrite !view_at_app. destruct (view_at l x); [done|].
    replace (k + o) with (area_base (cut_high a o)) by lia.
    apply view_at_cut; unfold area_end in *; rewrite ?Bl, ?Sl, ?Bh, ?Sh; try lia; auto.
    intros y Hy. apply Vh. lia.
Qed.

(** What carving the part of [a] at an offset makes: the areas before, at and after it. *)
Record carved (a : A) (k start size : Z) (low : list (Z * A)) (mid : A) (high : list (Z * A)) : Prop := {
  cv_base : area_base mid = k + start;
  cv_size : area_size mid = size;
  cv_view : forall x, inside mid x = true -> view mid x = view a x;
  cv_low : low = [] /\ start = 0 \/ exists p, low = [(k, p)] /\ area_base p = k /\ area_size p = start /\
    (forall x, inside p x = true -> view p x = view a x);
  cv_high : high = [] /\ start + size = area_size a \/ exists q, high = [(k + start + size, q)] /\
    area_base q = k + start + size /\ area_end q = area_end a /\ (forall x, inside q x = true -> view q x = view a x)
}.

Lemma carve_spec lo l k a r hi start size : 0 <= lo -> hi <= U64_MAX -> laid lo (l ++ (k, a) :: r) hi ->
  0 <= start -> 0 < size -> start + size <= area_size a ->
  exists low mid high, carved a k start size low mid high /\
    let m' := l ++ low ++ (k + start, mid) :: high ++ r in
    carve_within (l ++ (k, a) :: r) k a start (start + size) = Some (m', k + start) /\
    laid lo m' hi /\ (forall x, view_at m' x = view_at (l ++ (k, a) :: r) x).
Proof.
  intros Hlo Hhi Hm Hst Hsz Hfit. pose proof Hm as (Hl & Hk & Hs & Hok & Hr)%laid_app.
  pose proof (laid_le _ _ _ Hl) as Hlk. pose proof (laid_le _ _ _ Hr) as Hrk.
  assert (Hend : exists a1 high m1, (if start + size =? area_size a then Some (l ++ (k, a) :: r)
      else '(m1, _) ← Split (l ++ (k, a) :: r) k (start + size); Some m1) = Some m1 /\
      m1 = l ++ (k, a1) :: high ++ r /\ laid lo m1 hi /\ (forall x, view_at m1 x = view_at (l ++ (k, a) :: r) x) /\
      area_base a1 = k /\ area_size a1 = start + size /\ (forall x, inside a1 x = true -> view a1 x = view a x) /\
      (high = [] /\ start + size = area_size a \/ exists q, high = [(k + start + size, q)] /\
        area_base q = k + start + size /\ area_end q = area_end a /\ (forall x, inside q x = true -> view q x = view a x))).
  { destruct (Z.eqb_spec (start + size) (area_size a)) as [E|E].
    - exists a, [], (l ++ (k, a) :: r). split_and!; try done. by left.
    - destruct (split_spec lo l k a r hi (start + size)) as (Hsp & Hl' & Hv'); [done..|lia|].
      destruct (cut_bounds a (start + size)) as (Bl & Sl & Bh & Sh); [lia|lia|lia|].
      destruct (cut_ok a (start + size) Hok) as (Okl & Okh & Vl & Vh); [lia|lia|lia|].
      eexists (cut_low a (start + size)), [(k + (start + size), cut_high a (start + size))], _.
      split_and!; [by rewrite Hsp|done|done|done|lia|lia| |].
      + intros x Hx%inside_spec. unfold area_end in *. apply Vl. lia.
      + right. eexists. rewrite Z.add_assoc. unfold area_end in *. split_and!; [done|lia|lia|].
        intros x Hx%inside_spec. unfold area_end in *. apply Vh. lia. }
  destruct Hend as (a1 & high & m1 & E & -> & Hl1 & Hv1 & B1 & S1 & V1 & Hhigh). unfold carve_within. rewrite E. cbn.
  pose proof Hl1 as (_ & _ & _ & Hok1 & Hr1)%laid_app. pose proof (laid_le _ _ _ Hr1) as Hrk1.
  destruct (Z.eqb_spec start 0) as [->|Hne].
  - exists [], a1, high. rewrite Z.add_0_r. split; [|by split_and!]. split; rewrite ?Z.add_0_r in *; try done; by left.
  - destruct (split_spec lo l k a1 (high ++ r) hi start) as (Hsp & Hl' & Hv'); [done..|lia|].
    destruct (cut_bounds a1 start) as (Bl & Sl & Bh & Sh); [lia|lia|lia|].
    destruct (cut_ok a1 start Hok1) as (Okl & Okh & Vl & Vh); [lia|lia|lia|].
    exists [(k, cut_low a1 start)], (cut_high a1 start), high. split.
    + split; [lia|lia| | |done].
      * intros x Hx%inside_spec. unfold area_end in *. rewrite Vh by lia. apply V1, inside_spec. unfold area_end. lia.
      * right. eexists. split_and!; [done|lia|lia|]. intros x Hx%inside_spec. unfold area_end in *.
        rewrite Vl by lia. apply V1, inside_spec. unfold area_end. lia.
    + split_and!; [exact Hsp|done|]. intros x. rewrite <- Hv1. apply Hv'.
Qed.
End layout_ops.

Section layout_merge.
Context {A V : Type} `{AreaLaws A V}.
Implicit Types (m l r : list (Z * A)) (k : Z) (a b : A).

(** What merging [a], with [l] before it and [r] after it, makes. *)
Record merged l k a r l' (k' : Z) (a' : A) r' : Prop := {
  mg_parts : exists a1,
    ((a1 = a /\ r' = r /\ (forall k2 b r2, r = (k2, b) :: r2 -> can_merge a b = false)) \/
     (exists k2 b, r = (k2, b) :: r' /\ can_merge a b = true /\ a1 = join a b)) /\
    ((a' = a1 /\ l' = l /\ k' = k /\ (forall l0 k0 p, l = l0 ++ [(k0, p)] -> can_merge p a1 = false)) \/
     (exists p, l = l' ++ [(k', p)] /\ can_merge p a1 = true /\ a' = join p a1))
}.

(** Joining two neighbours. *)
Lemma join_spec lo l k a k2 b r hi : 0 <= lo -> hi <= U64_MAX -> laid lo (l ++ (k, a) :: (k2, b) :: r) hi -> can_merge a b = true ->
  laid lo (l ++ (k, join a b) :: r) hi /\
  (forall x, view_at (l ++ (k, join a b) :: r) x = view_at (l ++ (k, a) :: (k2, b) :: r) x) /\
  erase (put (l ++ (k, a) :: (k2, b) :: r) k (join a b)) k2 = l ++ (k, join a b) :: r.
Proof.
  intros Hlo Hhi Hm Hc. pose proof Hm as (Hl & Hk & Hs & Hok & Hr)%laid_app. cbn in Hr. destruct Hr as ((Hk2 & Hb & Hsb & Hokb) & Hr).
  pose proof (laid_le _ _ _ Hl) as Hlk. pose proof (laid_le _ _ _ Hr) as Hrk.
  destruct (join_bounds a b) as (Bm & B & S); [lia|lia|lia|lia|lia|done|].
  destruct (join_ok a b) as (Okj & Va & Vb); [done|done|lia|lia|lia|lia|lia|done|].
  split_and!.
  - apply laid_app. split_and!; [done|lia|lia|done|]. eapply laid_weaken; [|exact Hr]. unfold area_end in *. lia.
  - intros x. rewrite !view_at_app. destruct (view_at l x); [done|]. symmetry. replace k2 with (area_base b) by lia.
    apply view_at_cut; unfold area_end in *; rewrite ?B, ?S; try lia; intros y Hy; symmetry; [apply Va|apply Vb]; lia.
  - rewrite (put_app lo _ _ _ _ _ hi) by (by eapply laid_ordered).
    change (l ++ (k, join a b) :: (k2, b) :: r) with (l ++ [(k, join a b)] ++ (k2, b) :: r). rewrite app_assoc.
    rewrite (erase_app lo _ _ _ _ hi); [by rewrite <- app_assoc|]. rewrite <- app_assoc. apply laid_ordered in Hm.
    apply ordered_app. apply ordered_app in Hm. cbn in *. tauto.
Qed.

Lemma merge_spec lo l k a r hi : 0 <= lo -> hi <= U64_MAX -> laid lo (l ++ (k, a) :: r) hi ->
  exists l' k' a' r', merged l k a r l' k' a' r' /\
    let m' := l' ++ (k', a') :: r' in
    MergeAdjacent (l ++ (k, a) :: r) k = Some (m', k') /\ laid lo m' hi /\
    (forall x, view_at m' x = view_at (l ++ (k, a) :: r) x).
Proof.
  intros Hlo Hhi Hm.
  assert (Hright : exists a1 r', ((a1 = a /\ r' = r /\ (forall k2 b r2, r = (k2, b) :: r2 -> can_merge a b = false)) \/
     (exists k2 b, r = (k2, b) :: r' /\ can_merge a b = true /\ a1 = join a b)) /\
     match upper_bound (l ++ (k, a) :: r) k with
     | Some (k2, b) => if can_merge a b then (erase (put (l ++ (k, a) :: r) k (join a b)) k2, join a b) else (l ++ (k, a) :: r, a)
     | None => (l ++ (k, a) :: r, a)
     end = (l ++ (k, a1) :: r', a1) /\ laid lo (l ++ (k, a1) :: r') hi /\
     (forall x, view_at (l ++ (k, a1) :: r') x = view_at (l ++ (k, a) :: r) x)).
  { rewrite (upper_bound_app lo _ _ _ _ hi) by (by eapply laid_ordered). destruct r as [|[k2 b] r]; cbn.
    - exists a, []. split_and!; try done. left. by split_and!.
    - destruct (can_merge a b) eqn:Hc.
      + destruct (join_spec lo l k a k2 b r hi) as (Hj & Hv & E); [done..|].
        exists (join a b), r. split_and!; [right; by eexists _, _|by rewrite E|done|done].
      + exists a, ((k2, b) :: r). split_and!; try done. left. split_and!; [done..|]. by intros ? ? ? [= <- <- <-]. }
  destruct Hright as (a1 & r' & Hr1 & E & Hl1 & Hv1). unfold MergeAdjacent.
  rewrite (get_app lo _ _ _ _ hi) by (by eapply laid_ordered). cbn. rewrite E.
  rewrite (prev_app lo _ _ _ _ hi) by (by eapply laid_ordered).
  destruct l as [|[k0 p] l0 _] using rev_ind.
  { exists [], k, a1, r'. split; [|by split_and!]. split. exists a1. split; [done|]. left. split_and!; try done. by intros [|? ?]. }
  rewrite last_snoc. destruct (can_merge p a1) eqn:Hc.
  - rewrite <- app_assoc in Hl1. destruct (join_spec lo l0 k0 p k a1 r' hi) as (Hj & Hv & E2); [done..|].
    exists l0, k0, (join p a1), r'. split.
    + split. exists a1. split; [done|]. right. by eexists.
    + split_and!; [rewrite <- app_assoc; cbn; by rewrite E2|done|].
      intros x. rewrite Hv, <- Hv1. by rewrite <- app_assoc.
  - eexists (l0 ++ [(k0, p)]), k, a1, r'. split; [|by split_and!]. split. exists a1. split; [done|]. left. split_and!; try done.
    intros ? ? ? [? [= <- <-]]%app_inj_tail. done.
Qed.

(** ** Changing an area in place *)

Lemma edit_spec lo l k a b r hi : laid lo (l ++ (k, a) :: r) hi -> area_base b = k -> area_size b = area_size a -> area_ok b ->
  laid lo (l ++ (k, b) :: r) hi /\ put (l ++ (k, a) :: r) k b = l ++ (k, b) :: r /\
  (forall x, view_at (l ++ (k, b) :: r) x = if inside a x then Some (view b x) else view_at (l ++ (k, a) :: r) x).
Proof.
  intros Hm Hb Hs Hok. pose proof Hm as (Hl & Hk & Hsa & _ & Hr)%laid_app. split_and!.
  - apply laid_app. unfold area_end in *. rewrite Hb, Hs, <- Hk. rewrite <- Hk in Hl. split_and!; try done.
  - apply (put_app lo _ _ _ _ _ hi). by eapply laid_ordered.
  - intros x. rewrite !view_at_app, !view_at_cons. replace (inside b x) with (inside a x) by (unfold inside, area_end; by rewrite Hk, Hb, Hs).
    destruct (inside a x) eqn:E; [|done]. apply inside_spec in E. unfold view_at.
    by rewrite (area_at_out _ _ _ _ Hl) by lia.
Qed.
End layout_merge.
#[global] Arguments Split : simpl never.
#[global] Arguments MergeAdjacent : simpl never.
#[global] Arguments carve_within : simpl never.
