(* ===== verification/PhysMemory.v ===== *)
(** Physical memory: the maps of physical areas of src/src/core/memory.cpp and memory.h.

    [dmem_map] and [fmem_map] say, for each physical address, what it is used for and its memory
    type. The functions that carve, retype and merge areas, the allocator and the queries are
    here; what also concerns virtual memory is in [MemoryManager]. [None] is a failed assertion
    or the dereference of an iterator outside of the map. *)
From Stdlib Require Import ZArith Lia.
From stdpp Require Import base gmap list list_numbers strings.
From S2P Require Import Prelude.
From S2P Require Import KernelErrors.
From S2P Require Import Alignment.
From S2P Require Import OrdMap.

Module PhysicalMemoryType.
Inductive t := Free | Allocated | Mapped | Pooled | Committed | Flexible.
#[global] Instance eq_dec : EqDecision t.
Proof. solve_decision. Defined.
End PhysicalMemoryType.

Record PhysicalMemoryArea := mkPhys {
  pa_base : Z;
  pa_size : Z;
  memory_type : Z;
  dma_type : PhysicalMemoryType.t
}.
#[export] Instance eta_PhysicalMemoryArea : Eta PhysicalMemoryArea := fun a =>
  mkPhys (pa_base a) (pa_size a) (memory_type a) (dma_type a).

Definition GetEnd (a : PhysicalMemoryArea) : Z := pa_base a +64 pa_size a.

Definition CanMergeWith (a next : PhysicalMemoryArea) : bool :=
  (pa_base a +64 pa_size a =? pa_base next) && (memory_type a =? memory_type next) &&
  bool_decide (dma_type a = dma_type next).

(** The parts of [Split] and the sum of [MergeAdjacent]. *)
#[export] Instance phys_area : Area PhysicalMemoryArea := {|
  area_base := pa_base;
  area_size := pa_size;
  cut_low a offset := a <| pa_size := offset |>;
  cut_high a offset := a <| pa_base ::= fun b => b +64 offset |> <| pa_size ::= fun s => s -64 offset |>;
  can_merge := CanMergeWith;
  join a next := a <| pa_size ::= fun s => s +64 pa_size next |>
|}.

Definition PhysMap := list (Z * PhysicalMemoryArea).

Definition CarvePhysArea (m : PhysMap) (addr size : Z) : option (PhysMap * Z) :=
  '(handle, area) ← floor m addr;
  if negb (addr <=? GetEnd area) then None
  else if negb (pa_base area <=? addr) then None
  else
    let start_in_area := addr -64 pa_base area in
    let end_in_vma := start_in_area +64 size in
    if negb (end_in_vma <=? pa_size area) then None
    else carve_within m handle area start_in_area end_in_vma.

Definition is_free (a : PhysicalMemoryArea) : bool := bool_decide (dma_type a = PhysicalMemoryType.Free).

(** Carve a range and write the fields of the carved area. *)
Definition retype (m : PhysMap) (addr size : Z) (edit : PhysicalMemoryArea -> PhysicalMemoryArea)
    : option (PhysMap * Z) :=
  '(m, handle) ← CarvePhysArea m addr size;
  area ← get m handle;
  Some (put m handle (edit area), handle).

(** What the failed searches return: [-1]. *)
Definition NoAddr : Z := U64_MAX.

(** The loop of [Allocate] and [PoolExpand]: the first free area, from an iterator on, that is
    large enough, and the address in it. *)
Fixpoint find_free (l : PhysMap) (mapping_start size alignment : Z) : option (Z * Z) :=
  match l with
  | [] => None
  | (handle, area) :: r =>
      if negb (is_free area) || (GetEnd area <? mapping_start +64 size) then
        find_free r match r with (_, next) :: _ => AlignUp (pa_base next) alignment | [] => mapping_start end
          size alignment
      else Some (handle, mapping_start)
  end.

(** The address, the map and the pool budget. *)
Definition PoolExpand (m : PhysMap) (pool_budget search_start search_end size alignment : Z)
    : option (Z * PhysMap * Z) :=
  let alignment := if 0 <? alignment then alignment else KB64 in
  '(handle, area) ← floor m search_start;
  let mapping_start := if pa_base area <? search_start then AlignUp search_start alignment
                       else AlignUp (pa_base area) alignment in
  match find_free (from m handle) mapping_start size alignment with
  | None => Some (NoAddr, m, pool_budget)
  | Some (_, mapping_start) =>
      '(m, _) ← retype m mapping_start size
        (fun a => a <| dma_type := PhysicalMemoryType.Pooled |> <| memory_type := 3 |>);
      Some (mapping_start, m, pool_budget +64 size)
  end.

Definition Allocate (m : PhysMap) (search_start search_end size alignment type : Z) : option (Z * PhysMap) :=
  let alignment := if 0 <? alignment then alignment else KB16 in
  '(handle, area) ← floor m search_start;
  let mapping_start := AlignUp (Z.max search_start (pa_base area)) alignment in
  match find_free (from m handle) mapping_start size alignment with
  | None => Some (NoAddr, m)
  | Some (dmem_area, mapping_start) =>
      if search_end <? mapping_start +64 size then Some (NoAddr, m) else
      '(m, _) ← retype m mapping_start size
        (fun a => a <| memory_type := type |> <| dma_type := PhysicalMemoryType.Allocated |>);
      '(m, _) ← MergeAdjacent m dmem_area;
      Some (mapping_start, m)
  end.

(** The first loop of [Free]: the ranges to release; [None] is [ORBIS_KERNEL_ERROR_ENOENT]. *)
Fixpoint free_list (l : PhysMap) (phys_addr remaining_size : Z) (is_checked : bool) : option (list (Z * Z)) :=
  match l with
  | [] => Some []
  | (base, area) :: r =>
      if remaining_size =? 0 then Some []
      else if is_free area then (if is_checked then None else free_list r phys_addr remaining_size is_checked)
      else
        let current_phys_addr := Z.max phys_addr base in
        let start_in_dma := current_phys_addr -64 base in
        let size_in_dma := Z.min remaining_size (pa_size area -64 start_in_dma) in
        rest ← free_list r phys_addr (remaining_size -64 size_in_dma) is_checked;
        Some ((current_phys_addr, size_in_dma) :: rest)
  end.

(** A step of the last loop of [Free]. *)
Definition release (m : PhysMap) (range : Z * Z) : option PhysMap :=
  '(m, handle) ← retype m (fst range) (snd range)
    (fun a => a <| dma_type := PhysicalMemoryType.Free |> <| memory_type := 0 |>);
  '(m, _) ← MergeAdjacent m handle;
  Some m.

(** ** The queries *)

Record OrbisQueryInfo := mkQueryInfo { start : Z; end_ : Z; memoryType : Z }.

Fixpoint skip_free (l : PhysMap) : PhysMap :=
  match l with (_, a) :: r => if is_free a then skip_free r else l | [] => [] end.

(** The last loop of [DirectMemoryQuery]. *)
Fixpoint sequential_end (l : PhysMap) (type end_ : Z) : Z :=
  match l with
  | (_, a) :: r =>
      if (memory_type a =? type) && (bool_decide (dma_type a = PhysicalMemoryType.Mapped) ||
                                     bool_decide (dma_type a = PhysicalMemoryType.Allocated))
      then sequential_end r type (GetEnd a) else end_
  | [] => end_
  end.

(** [end_] is the value of the field before the call. *)
Definition DirectMemoryQuery (total_direct_size : Z) (m : PhysMap) (addr : Z) (find_next : bool) (end_ : Z)
    : option (Z * option OrbisQueryInfo) :=
  if total_direct_size <=? addr then Some (ORBIS_KERNEL_ERROR_EACCES, None) else
  '(handle, _) ← floor m addr;
  let l := if find_next then skip_free (from m handle) else from m handle in
  match l with
  | (_, a) :: _ =>
      if is_free a then Some (ORBIS_KERNEL_ERROR_EACCES, None)
      else Some (ORBIS_OK, Some (mkQueryInfo (pa_base a) (sequential_end l (memory_type a) end_) (memory_type a)))
  | [] => Some (ORBIS_KERNEL_ERROR_EACCES, None)
  end.

(** One free area of [DirectQueryAvailable]: the address and the size it offers. *)
Definition available (a : PhysicalMemoryArea) (search_start search_end alignment : Z) : Z * Z :=
  let aligned_base := if 0 <? alignment then AlignUp (pa_base a) alignment else pa_base a in
  let alignment_size := aligned_base -64 pa_base a in
  let remaining_size := if alignment_size <=? pa_size a then pa_size a -64 alignment_size else 0 in
  let '(aligned_base, remaining_size) :=
    if pa_base a <? search_start then
      (if 0 <? alignment then AlignUp search_start alignment else search_start,
       if search_start -64 pa_base a <? remaining_size then remaining_size -64 (search_start -64 pa_base a) else 0)
    else (aligned_base, remaining_size) in
  let remaining_size :=
    if search_end <? GetEnd a then
      if GetEnd a -64 search_end <? remaining_size then remaining_size -64 (GetEnd a -64 search_end) else 0
    else remaining_size in
  (aligned_base, remaining_size).

(** One turn of its loop, on the address and the size found so far. *)
Definition best_offer (search_start search_end alignment : Z) (best : Z * Z) (e : Z * PhysicalMemoryArea) : Z * Z :=
  if is_free (snd e) then
    let offer := available (snd e) search_start search_end alignment in
    if snd best <? snd offer then offer else best
  else best.

Definition DirectQueryAvailable (m : PhysMap) (search_start search_end alignment : Z) : option (Z * Z) :=
  '(handle, _) ← floor m search_start;
  Some (fold_left (best_offer search_start search_end alignment) (from m handle) (0, 0)).

(** The code, the type, the start and the end. *)
Definition GetDirectMemoryType (total_direct_size : Z) (m : PhysMap) (addr : Z) : option (Z * option (Z * Z * Z)) :=
  if total_direct_size <=? addr then Some (ORBIS_KERNEL_ERROR_ENOENT, None) else
  '(_, a) ← floor m addr;
  if is_free a then Some (ORBIS_KERNEL_ERROR_ENOENT, None)
  else Some (ORBIS_OK, Some (memory_type a, pa_base a, GetEnd a)).

Record OrbisKernelMemoryPoolBlockStats := mkPoolStats {
  available_flushed_blocks : Z;
  available_cached_blocks : Z;
  allocated_flushed_blocks : Z;
  allocated_cached_blocks : Z
}.

Definition GetMemoryPoolStats (m : PhysMap) : OrbisKernelMemoryPoolBlockStats :=
  let committed_size := fold_left (fun n e =>
    if bool_decide (dma_type (snd e) = PhysicalMemoryType.Committed) then n +64 pa_size (snd e) else n) m 0 in
  mkPoolStats (s32 (committed_size / KB64)) 0 (s32 (committed_size / KB64)) 0.

(** * What the maps stand for *)

#[export] Instance phys_laws : AreaLaws PhysicalMemoryArea (PhysicalMemoryType.t * Z).
Proof.
  refine {| view a x := (dma_type a, memory_type a); area_ok a := True |}.
  - intros [b s t d] o. unfold area_end. cbn. intros Hb Ho He. unwrap. split_and!; lia.
  - done.
  - intros a b. unfold area_end. cbn. unfold CanMergeWith. intros Ha Hsa Hsb He Hab Hc.
    rewrite !andb_true_iff in Hc. destruct Hc as ((Hc%Z.eqb_eq & _) & _).
    rewrite wrap64_small in Hc by u64_lia. cbn. unwrap. split_and!; lia.
  - intros a b _ _ Ha Hsa Hsb He Hab. cbn. unfold CanMergeWith. rewrite !andb_true_iff.
    intros ((_ & Ht%Z.eqb_eq) & Hd%bool_decide_eq_true). split_and!; [done|done|]. intros x _. by rewrite Ht, Hd.
Defined.

(** The use and the memory type of each physical address. *)
Definition phys_at (m : PhysMap) (x : Z) : option (PhysicalMemoryType.t * Z) := view_at m x.
Definition free_at (m : PhysMap) (x : Z) : Prop := exists t, phys_at m x = Some (PhysicalMemoryType.Free, t).

(** The map of a memory in use: it covers the addresses below [total] with areas that do not
    overlap, free areas have the memory type zero, and no free area touches another. *)
Record phys_ok (total : Z) (m : PhysMap) : Prop := {
  po_total : total <= U64_MAX;
  po_laid : laid 0 m total;
  po_covers : forall x, 0 <= x < total -> is_Some (phys_at m x);
  po_zero : forall x t, phys_at m x = Some (PhysicalMemoryType.Free, t) -> t = 0;
  po_apart : forall k a, (k, a) ∈ m -> is_free a = true -> ~ free_at m (k - 1) /\ ~ free_at m (area_end a)
}.

(** [map[x]] after a range took a new use. *)
Definition painted (m m' : PhysMap) (addr size : Z) (use : PhysicalMemoryType.t * Z) : Prop :=
  forall x, phys_at m' x = if (addr <=? x) && (x <? addr + size) then Some use else phys_at m x.

Lemma is_free_spec a : is_free a = true <-> dma_type a = PhysicalMemoryType.Free.
Proof. apply bool_decide_eq_true. Qed.

Lemma free_at_area m x a : area_at m x = Some a -> free_at m x <-> is_free a = true.
Proof.
  unfold free_at, phys_at, view_at. intros ->. cbn. rewrite is_free_spec. split; [by intros [t [= ->]]|].
  intros ->. by eexists.
Qed.

Lemma covered_area total m x : phys_ok total m -> 0 <= x < total -> exists a, area_at m x = Some a.
Proof.
  intros Hok Hx. destruct (po_covers _ _ Hok x Hx) as [v Hv]. unfold phys_at, view_at in Hv.
  destruct (area_at m x) as [a|]; [by exists a|done].
Qed.

Lemma entry_at lo m hi k a : laid lo m hi -> (k, a) ∈ m -> forall x, area_base a <= x < area_end a -> area_at m x = Some a.
Proof.
  intros Hm (l & r & ->)%list_elem_of_split x Hx. rewrite (area_at_mid _ _ _ _ _ _ _ Hm).
  apply inside_spec in Hx. by rewrite Hx.
Qed.

Lemma area_of_entry lo m hi k a : laid lo m hi -> (k, a) ∈ m -> area_at m k = Some a.
Proof.
  intros Hm Hin. apply (entry_at _ _ _ _ _ Hm Hin). destruct (laid_area _ _ _ _ _ Hm Hin) as (Hb & _ & Hs & _). unfold area_end. lia.
Qed.

(** A run of free addresses lies within one area. *)
Lemma free_run total m q size : phys_ok total m -> 0 <= q -> 0 < size -> (forall x, q <= x < q + size -> free_at m x) ->
  exists a, area_at m q = Some a /\ is_free a = true /\ q + size <= area_end a.
Proof.
  intros Hok Hq Hs Hf. assert (Hq' : free_at m q) by (apply Hf; lia). destruct (area_at m q) as [a|] eqn:Ha.
  2: { destruct Hq' as [t Hq']. unfold phys_at, view_at in Hq'. by rewrite Ha in Hq'. }
  exists a. assert (Hfr : is_free a = true) by by apply (free_at_area m q). split_and!; [done|done|].
  destruct (area_at_in _ _ _ Ha) as (l & k & r & E & Hx). destruct (Z.le_gt_cases (q + size) (area_end a)); [done|].
  exfalso. apply (po_apart _ _ Hok k a); [rewrite E; apply elem_of_app; right; by left|done|]. apply Hf. lia.
Qed.

(** ** Carving and retyping *)

Lemma carve_phys_spec total m addr size a :
  0 <= addr -> total <= U64_MAX -> laid 0 m total -> area_at m addr = Some a -> 0 < size -> addr + size <= area_end a ->
  exists l r low mid high, m = l ++ (pa_base a, a) :: r /\ carved a (pa_base a) (addr - pa_base a) size low mid high /\
    let m' := l ++ low ++ (addr, mid) :: high ++ r in
    CarvePhysArea m addr size = Some (m', addr) /\ laid 0 m' total /\ (forall x, phys_at m' x = phys_at m x).
Proof.
  intros Haddr Ht Hm Ha Hs Hfit. destruct (locate _ _ _ _ _ Hm Ha) as (l & r & -> & Hx & Hfl).
  pose proof Hm as (Hl & _ & _ & _ & Hr)%laid_app. apply laid_le in Hl, Hr. unfold area_end in *. cbn in Hl, Hr, Hx, Hfit, Hfl.
  destruct (carve_spec 0 l (pa_base a) a r total (addr - pa_base a) size) as (low & mid & high & Hc & E & Hl' & Hv);
    [lia|done|done|lia|done|cbn; lia|].
  exists l, r, low, mid, high. split; [done|]. split; [done|].
  replace (pa_base a + (addr - pa_base a)) with addr in * by lia. cbn. split_and!; [|done|done].
  unfold CarvePhysArea. rewrite Hfl. cbn. unfold GetEnd. unwrap.
  destruct (Z.leb_spec addr (pa_base a + pa_size a)), (Z.leb_spec (pa_base a) addr); try lia. cbn.
  destruct (Z.leb_spec (addr - pa_base a + size) (pa_size a)); [|lia]. cbn. exact E.
Qed.

(** [retype] paints its range; neither it nor a use that is not free joins free areas. *)
Lemma retype_spec total m addr size a edit :
  0 <= addr -> total <= U64_MAX -> laid 0 m total -> area_at m addr = Some a -> 0 < size -> addr + size <= area_end a ->
  (forall b, pa_base (edit b) = pa_base b /\ pa_size (edit b) = pa_size b) ->
  exists l r low mid high, m = l ++ (pa_base a, a) :: r /\ carved a (pa_base a) (addr - pa_base a) size low mid high /\
    let m' := l ++ low ++ (addr, edit mid) :: high ++ r in
    dma_type mid = dma_type a /\ memory_type mid = memory_type a /\
    retype m addr size edit = Some (m', addr) /\ laid 0 m' total /\
    painted m m' addr size (dma_type (edit mid), memory_type (edit mid)).
Proof.
  intros Haddr Ht Hm Ha Hs Hfit Hed.
  destruct (carve_phys_spec total m addr size a) as (l & r & low & mid & high & E & Hc & Hcarve & Hl & Hv); [done..|].
  exists l, r, low, mid, high. split; [done|]. split; [done|]. destruct (Hed mid) as [Hb Hsz].
  pose proof (cv_base _ _ _ _ _ _ _ Hc) as Hmb. pose proof (cv_size _ _ _ _ _ _ _ Hc) as Hms. cbn in Hmb, Hms.
  assert (Hview : (dma_type mid, memory_type mid) = (dma_type a, memory_type a)).
  { apply (cv_view _ _ _ _ _ _ _ Hc addr). apply inside_spec. unfold area_end. cbn. lia. }
  injection Hview as Hd Hty. rewrite app_assoc in Hl.
  destruct (edit_spec 0 (l ++ low) addr mid (edit mid) (high ++ r) total) as (Hl' & Hput & Hv'); [done|cbn; lia|cbn; lia|done|].
  rewrite <- !app_assoc in *. split_and!; [done|done| |done|].
  - unfold retype. rewrite Hcarve. cbn. rewrite app_assoc, (get_app 0 _ _ _ _ total) by (by eapply laid_ordered; rewrite <- app_assoc).
    cbn. rewrite <- app_assoc, Hput. done.
  - intros x. unfold phys_at in *. rewrite Hv', Hv. unfold inside, area_end. cbn. rewrite Hmb, Hms.
    by replace (pa_base a + (addr - pa_base a)) with addr by lia.
Qed.

Lemma entry_view lo m hi k a : laid lo m hi -> (k, a) ∈ m -> phys_at m k = Some (dma_type a, memory_type a).
Proof. intros Hm Hin. unfold phys_at, view_at. by rewrite (area_of_entry _ _ _ _ _ Hm Hin). Qed.

(** What carving leaves of an area, on either side, has the same use. *)
Lemma carved_piece total (l r : PhysMap) a addr size low mid high mid' k b :
  carved a (pa_base a) (addr - pa_base a) size low mid high ->
  laid 0 ((l ++ low) ++ (addr, mid') :: high ++ r) total -> (k, b) ∈ low \/ (k, b) ∈ high ->
  dma_type b = dma_type a /\ (k = pa_base a /\ area_end b = addr \/ k = addr + size /\ area_end b = area_end a).
Proof.
  intros Hcv Hl Hin. assert (Hinm : (k, b) ∈ (l ++ low) ++ (addr, mid') :: high ++ r) by (rewrite !elem_of_app, elem_of_cons, elem_of_app; tauto).
  destruct (laid_area _ _ _ _ _ Hl Hinm) as (Hb & _ & Hsb & _ & _). cbn in Hb, Hsb.
  assert (Hib : inside b k = true) by (apply inside_spec; unfold area_end; cbn; lia). destruct Hin as [Hin|Hin].
  - destruct (cv_low _ _ _ _ _ _ _ Hcv) as [[-> _]|(p & -> & Bp & Sp & Vp)]; [by apply not_elem_of_nil in Hin|].
    apply list_elem_of_singleton in Hin as [= -> ->]. specialize (Vp _ Hib). injection Vp as Vp _.
    split; [done|]. left. unfold area_end. cbn in *. lia.
  - destruct (cv_high _ _ _ _ _ _ _ Hcv) as [[-> _]|(q & -> & Bq & Eq & Vq)]; [by apply not_elem_of_nil in Hin|].
    apply list_elem_of_singleton in Hin as [= -> ->]. specialize (Vq _ Hib). injection Vq as Vq _.
    split; [done|]. right. split; [lia|done].
Qed.

Lemma carved_entry total (l r : PhysMap) a addr size low mid high mid' k b :
  carved a (pa_base a) (addr - pa_base a) size low mid high ->
  laid 0 (l ++ low ++ (addr, mid') :: high ++ r) total -> (k, b) ∈ l ++ low ++ (addr, mid') :: high ++ r ->
  (k, b) ∈ l ++ (pa_base a, a) :: r \/ b = mid' \/
  (dma_type b = dma_type a /\ (k = pa_base a /\ area_end b = addr \/ k = addr + size /\ area_end b = area_end a)).
Proof.
  rewrite (app_assoc l low). intros Hcv Hl Hin. pose proof (carved_piece _ _ _ _ _ _ _ _ _ _ k b Hcv Hl) as Hp.
  rewrite !elem_of_app, elem_of_cons, elem_of_app in Hin. rewrite elem_of_app, elem_of_cons.
  destruct Hin as [[?|Hin]|[[= _ ->]|[Hin|?]]]; tauto.
Qed.

(** Painting part of an area with a use that is not free. *)
Lemma retype_used total m addr size a edit :
  phys_ok total m -> 0 <= addr -> area_at m addr = Some a -> 0 < size -> addr + size <= area_end a ->
  (forall b, pa_base (edit b) = pa_base b /\ pa_size (edit b) = pa_size b) ->
  (forall b, dma_type (edit b) <> PhysicalMemoryType.Free) ->
  exists m' mid, retype m addr size edit = Some (m', addr) /\ phys_ok total m' /\
    dma_type mid = dma_type a /\ memory_type mid = memory_type a /\
    painted m m' addr size (dma_type (edit mid), memory_type (edit mid)) /\ (addr, edit mid) ∈ m' /\
    (exists p, (pa_base a, p) ∈ m').
Proof.
  intros Hok Haddr Ha Hs Hfit Hed Hused. pose proof Hok as [Ht Hl Hc Hz Hap].
  destruct (retype_spec total m addr size a edit) as (l & r & low & mid & high & E & Hcv & Hd & Hty & Hre & Hl' & Hp); [done..|].
  set (m' := l ++ low ++ (addr, edit mid) :: high ++ r) in *.
  assert (Hfree : forall x, free_at m' x -> free_at m x /\ (x < addr \/ addr + size <= x)).
  { intros x [t Hx]. rewrite Hp in Hx. destruct (Z.leb_spec addr x), (Z.ltb_spec x (addr + size)); cbn in Hx;
      try (injection Hx as Hx _; by destruct (Hused mid)); (split; [by exists t|lia]). }
  assert (Hina : (pa_base a, a) ∈ m) by (rewrite E; apply elem_of_app; right; by left).
  exists m', mid. split_and!; try done.
  - split; try done.
    + intros x Hx. rewrite Hp. destruct (_ && _); [by eexists|by apply Hc].
    + intros x t Hx. destruct (Hfree x ltac:(by exists t)) as [_ Hx']. rewrite Hp in Hx.
      destruct (Z.leb_spec addr x), (Z.ltb_spec x (addr + size)); try lia; by apply (Hz x).
    + intros k b Hin Hb. destruct (carved_entry _ _ _ _ _ _ _ _ _ _ _ _ Hcv Hl' Hin) as [Hin'|[->|(Hda & Hk)]].
      * rewrite <- E in Hin'. destruct (Hap k b Hin' Hb) as [Ha1 Ha2]. by split; intros [Hf _]%Hfree.
      * apply is_free_spec in Hb. by destruct (Hused mid).
      * assert (Hfa : is_free a = true) by (apply is_free_spec; rewrite <- Hda; by apply is_free_spec).
        destruct (Hap _ _ Hina Hfa) as [Ha1 Ha2].
        destruct Hk as [[-> Hk]|[-> Hk]]; rewrite Hk; split; intros [Hf Hr]%Hfree; (done || lia).
  - unfold m'. rewrite !elem_of_app, elem_of_cons. tauto.
  - destruct (cv_low _ _ _ _ _ _ _ Hcv) as [[_ E0]|(p & El & _)].
    + exists (edit mid). replace (pa_base a) with addr by lia. unfold m'. rewrite !elem_of_app, elem_of_cons. tauto.
    + exists p. unfold m'. rewrite El, !elem_of_app. right. left. by left.
Qed.

(** The entries after merging: entries of before, or an area that absorbed its neighbour. *)
Lemma merged_entry lo (l r l' r' : PhysMap) k a k' a' hi k2 b :
  merged l k a r l' k' a' r' -> laid lo (l ++ (k, a) :: r) hi -> (k2, b) ∈ l' ++ (k', a') :: r' ->
  (k2, b) ∈ l ++ (k, a) :: r \/
  exists c n, (k2, c) ∈ l ++ (k, a) :: r /\ (pa_base n, n) ∈ l ++ (k, a) :: r /\ is_free b = is_free c /\
    can_merge c n = true /\ area_end c <= pa_base n.
Proof.
  intros [(a1 & Hr & Hl2)] Hl Hin. pose proof Hl as (_ & Hk & _ & _ & Hlr)%laid_app. cbn in Hk.
  rewrite elem_of_app, elem_of_cons in Hin.
  destruct Hl2 as [(-> & -> & -> & _)|(p & -> & Hcm2 & ->)].
  - destruct Hr as [(-> & -> & _)|(k3 & c & -> & Hcm & ->)].
    + left. rewrite elem_of_app, elem_of_cons. tauto.
    + destruct Hin as [?|[[= -> ->]|?]]; [left; rewrite !elem_of_app; tauto| |left; rewrite elem_of_app, !elem_of_cons; tauto].
      cbn in Hlr. destruct Hlr as ((? & Bc & _) & _). right. exists a, c. cbn in Bc. rewrite !elem_of_app, !elem_of_cons, Bc.
      split_and!; auto.
  - rewrite <- app_assoc in Hl. pose proof Hl as (_ & Bp & _ & _ & (Hle & _))%laid_app. cbn in Bp, Hle.
    assert (Hcm : can_merge p a = true) by (by destruct Hr as [(-> & _)|(k3 & c & _ & _ & ->)]).
    destruct Hin as [?|[[= -> ->]|?]].
    + left. rewrite !elem_of_app. tauto.
    + right. exists p, a. rewrite Hk, !elem_of_app, !elem_of_cons. split_and!; auto. by destruct Hle.
    + left. rewrite !elem_of_app, !elem_of_cons. destruct Hr as [(_ & -> & _)|(k3 & c & -> & _)]; rewrite ?elem_of_cons; tauto.
Qed.

(** Merging changes no address, and joins no free areas where none touch. *)
Lemma merge_phys total m k a : phys_ok total m -> (k, a) ∈ m ->
  exists m' k', MergeAdjacent m k = Some (m', k') /\ phys_ok total m' /\ (forall x, phys_at m' x = phys_at m x).
Proof.
  intros Hok (l & r & ->)%list_elem_of_split. pose proof Hok as [Ht Hl Hc Hz Hap].
  destruct (merge_spec 0 l k a r total) as (l' & k' & a' & r' & Hmg & E & Hl' & Hv); [lia|done|done|].
  exists (l' ++ (k', a') :: r'), k'. split_and!; [done| |done]. split; try done.
  - intros x Hx. unfold phys_at. rewrite Hv. by apply Hc.
  - intros x t. unfold phys_at. rewrite Hv. apply Hz.
  - assert (Hfree : forall x, free_at (l' ++ (k', a') :: r') x <-> free_at (l ++ (k, a) :: r) x)
      by (intros x; unfold free_at, phys_at; by rewrite Hv).
    intros k2 b Hin Hb. rewrite !Hfree.
    destruct (merged_entry _ _ _ _ _ _ _ _ _ _ _ _ Hmg Hl Hin) as [Hin'|(c & n & Hc' & Hn' & Hbc & Hcm & Hle)]; [by apply (Hap k2 b)|].
    exfalso. rewrite Hb in Hbc. destruct (laid_area _ _ _ _ _ Hl Hc') as (Bc & ? & ? & _ & ?).
    destruct (laid_area _ _ _ _ _ Hl Hn') as (_ & ? & ? & _ & ?). unfold area_end in *. cbn in *.
    unfold CanMergeWith in Hcm. rewrite !andb_true_iff in Hcm. destruct Hcm as ((Hend%Z.eqb_eq & _) & Hdd%bool_decide_eq_true).
    rewrite wrap64_small in Hend by u64_lia. apply (Hap k2 c Hc'); [done|]. unfold area_end. cbn. rewrite Hend. eexists.
    rewrite (entry_view _ _ _ _ _ Hl Hn'), <- Hdd. symmetry in Hbc. apply is_free_spec in Hbc. by rewrite Hbc.
Qed.

(** * The allocator *)

(** [p] is an aligned address from [start] on where [size] free bytes begin. *)
Record fits (m : PhysMap) (start size alignment p : Z) : Prop := {
  ft_aligned : aligned alignment p;
  ft_start : start <= p;
  ft_free : forall x, p <= x < p + size -> free_at m x
}.

(** The address an area offers. *)
Definition candidate (a : PhysicalMemoryArea) (start alignment : Z) : Z := AlignUp (Z.max start (pa_base a)) alignment.
Definition suits (a : PhysicalMemoryArea) (start size alignment : Z) : Prop :=
  is_free a = true /\ candidate a start alignment + size <= area_end a.

Lemma find_free_spec l lo total start size alignment mapping_start :
  laid lo l total -> 0 <= lo -> 0 <= start < total -> 0 < alignment -> 0 < size -> total + alignment + size <= U64_MAX ->
  match l with
  | (_, a) :: r => mapping_start = candidate a start alignment /\ Forall (fun e => start <= fst e) r
  | [] => True
  end ->
  match find_free l mapping_start size alignment with
  | Some (k, p) => exists l1 a l2, l = l1 ++ (k, a) :: l2 /\ suits a start size alignment /\ p = candidate a start alignment /\
      Forall (fun e => ~ suits (snd e) start size alignment) l1
  | None => Forall (fun e => ~ suits (snd e) start size alignment) l
  end.
Proof.
  revert lo mapping_start. induction l as [|[k a] r IH]; intros lo ms Hl Hlo Hst Hal Hs Hm Hc; [by constructor|]. destruct Hc as [-> Hr].
  destruct Hl as ((Hk & Hb & Hsz & _) & Hl). pose proof (laid_le _ _ _ Hl) as Hle. cbn in Hb, Hsz. unfold area_end in Hle. cbn in Hle. cbn [find_free].
  pose proof (AlignUp_spec (Z.max start (pa_base a)) alignment) as (_ & Hup & _); [lia|done|lia|]. fold (candidate a start alignment) in Hup.
  unfold GetEnd. rewrite !wrap64_small by u64_lia.
  assert (Hsuit : negb (is_free a) || (pa_base a + pa_size a <? candidate a start alignment + size) = false <-> suits a start size alignment).
  { unfold suits, area_end. cbn. rewrite orb_false_iff, negb_false_iff, Z.ltb_ge. tauto. }
  destruct (negb (is_free a) || _) eqn:E.
  - assert (Hns : ~ suits a start size alignment) by (rewrite <- Hsuit; congruence).
    specialize (IH (area_end a)). unfold area_end in IH. cbn in IH.
    specialize (IH (match r with (_, next) :: _ => AlignUp (pa_base next) alignment | [] => candidate a start alignment end)).
    destruct (find_free r _ _ _) as [[k' p]|].
    + destruct IH as (l1 & b & l2 & -> & Hsb & -> & Hf); [done|lia|lia|lia|lia|lia| |].
      * destruct r as [|[k2 b] r]; [done|]. cbn in Hl. apply Forall_cons in Hr as [Hk2 Hr]. cbn in Hk2. split; [|done].
        unfold candidate. f_equal. lia.
      * exists ((k, a) :: l1), b, l2. split_and!; [done|done|done|by constructor].
    + constructor; [done|]. apply IH; [done|lia|lia|lia|lia|lia|].
      destruct r as [|[k2 b] r]; [done|]. cbn in Hl. apply Forall_cons in Hr as [Hk2 Hr]. cbn in Hk2. split; [|done].
      unfold candidate. f_equal. lia.
  - exists [], a, r. split_and!; [done|by apply Hsuit|done|constructor].
Qed.

Lemma candidate_spec a start alignment total :
  0 <= start < total -> 0 < alignment -> total + alignment <= U64_MAX -> 0 <= pa_base a < total ->
  let p := candidate a start alignment in
  aligned alignment p /\ start <= p /\ pa_base a <= p /\
  (forall q, aligned alignment q -> start <= q -> pa_base a <= q -> p <= q).
Proof.
  intros ????. cbn. destruct (AlignUp_spec (Z.max start (pa_base a)) alignment) as (Hal & Hup & Hleast); [lia|done|lia|].
  unfold candidate. split_and!; [done|lia|lia|]. intros q Hq Hsq Hbq. apply Hleast; [done|lia].
Qed.

(** What the search of an allocation returns, from the area that holds [start]: the first
    address that fits, when there is one. *)
Lemma search_spec total m start size alignment :
  phys_ok total m -> 0 <= start < total -> 0 < alignment -> 0 < size -> total + alignment + size <= U64_MAX ->
  exists k a, floor m start = Some (k, a) /\ k = pa_base a /\
  match find_free (from m k) (candidate a start alignment) size alignment with
  | Some (k', p) => fits m start size alignment p /\ (forall q, fits m start size alignment q -> p <= q) /\ p + size <= total /\
      exists b, area_at m p = Some b /\ k' = pa_base b /\ is_free b = true /\ p + size <= area_end b
  | None => forall q, ~ fits m start size alignment q
  end.
Proof.
  intros Hok Hst Hal Hs Hm. pose proof Hok as [Ht Hl Hc Hz Hap].
  destruct (covered_area _ _ _ Hok Hst) as [a Ha]. destruct (locate _ _ _ _ _ Hl Ha) as (l & r & E & Hx & Hfl).
  exists (pa_base a), a. split_and!; [exact Hfl|done|]. cbn in E, Hx.
  assert (Hfrom : from m (pa_base a) = (pa_base a, a) :: r) by (rewrite E; apply (from_app 0 _ _ _ _ total); rewrite <- E; by eapply laid_ordered).
  pose proof Hl as Hl'. rewrite E in Hl'. apply laid_app in Hl' as (Hll & _ & Hsa & _ & Hlr). cbn in Hsa.
  pose proof (laid_le _ _ _ Hll) as Hle0. pose proof (laid_le _ _ _ Hlr) as Hle1. unfold area_end in *. cbn in Hx, Hlr, Hle1.
  assert (Hlate : forall k b, (k, b) ∈ r -> start < k).
  { intros k b Hin. pose proof (laid_ordered _ _ _ Hlr) as Hor. apply (ordered_before _ _ _ _ _ Hor) in Hin. lia. }
  assert (Hlar : laid (pa_base a) ((pa_base a, a) :: r) total) by (split; [split_and!; [lia|done|done|done]|done]).
  assert (Hstarts : Forall (fun e : Z * PhysicalMemoryArea => start <= fst e) r).
  { apply Forall_forall. intros [k b] Hin. cbn. specialize (Hlate k b Hin). lia. }
  rewrite Hfrom. pose proof (find_free_spec ((pa_base a, a) :: r) (pa_base a) total start size alignment
    (candidate a start alignment) Hlar ltac:(lia) Hst Hal Hs Hm (conj eq_refl Hstarts)) as Hf.
  (* a place that fits is in an area that suits, and not before what it offers *)
  assert (Hplace : forall q, fits m start size alignment q -> exists k b, (k, b) ∈ (pa_base a, a) :: r /\
    suits b start size alignment /\ candidate b start alignment <= q /\ pa_base b <= q).
  { intros q [Hqa Hqs Hqf]. destruct (free_run total m q size Hok) as (b & Hb & Hfb & Hend); [lia|done|done|].
    destruct (locate _ _ _ _ _ Hl Hb) as (l2 & r2 & E2 & Hxb & _). cbn in E2, Hxb. unfold area_end in *. cbn in Hend, Hxb.
    assert (Hin : (pa_base b, b) ∈ m) by (rewrite E2; apply elem_of_app; right; by left).
    destruct (laid_area _ _ _ _ _ Hl Hin) as (_ & Hb0 & Hbs & _ & Hbe). unfold area_end in Hbe. cbn in Hb0, Hbs, Hbe.
    destruct (candidate_spec b start alignment total) as (_ & _ & _ & Hleast); [lia..|]. specialize (Hleast q Hqa Hqs ltac:(lia)).
    exists (pa_base b), b. split_and!; [|split; [done|unfold area_end; cbn; lia]|done|lia].
    rewrite E in Hin. apply elem_of_app in Hin as [Hin|Hin]; [|done].
    destruct (laid_area _ _ _ _ _ Hll Hin) as (_ & _ & _ & _ & He). unfold area_end in He. cbn in He. lia. }
  destruct (find_free _ _ _ _) as [[k' p]|].
  - destruct Hf as (l1 & b & l2 & E2 & [Hfb Hsb] & -> & Hn).
    assert (Hin : (k', b) ∈ m) by (rewrite E, E2; rewrite !elem_of_app; right; right; by left).
    destruct (laid_area _ _ _ _ _ Hl Hin) as (Hkb & Hb0 & Hbs & _ & Hbe). unfold area_end in *. cbn in Hkb, Hb0, Hbs, Hbe, Hsb.
    destruct (candidate_spec b start alignment total) as (Hpa & Hps & Hpb & Hleast); [lia..|].
    pose proof (entry_at _ _ _ _ _ Hl Hin) as Hat. unfold area_end in Hat. cbn in Hat.
    split_and!; [split; [done|done|]| |lia|exists b; split_and!; [apply Hat; lia|done..]].
    + intros x Hxx. apply (free_at_area m x b); [apply Hat; lia|done].
    + intros q Hq. destruct (Hplace q Hq) as (kq & bq & Hinq & Hsq & Hcq & Hbq). rewrite E2 in Hinq.
      apply elem_of_app in Hinq as [Hinq|[[= -> ->]|Hinq]%elem_of_cons]; [| done |].
      * rewrite Forall_forall in Hn. by destruct (Hn _ Hinq).
      * assert (Hlb : laid 0 (l ++ l1 ++ (k', b) :: l2) total) by (by rewrite <- E2, <- E). rewrite app_assoc in Hlb.
        apply laid_app in Hlb as (_ & _ & _ & _ & Hlb). destruct (laid_area _ _ _ _ _ Hlb Hinq) as (Hbk & Hlt & _).
        unfold area_end in Hlt. cbn in Hbk, Hlt. lia.
  - intros q Hq. destruct (Hplace q Hq) as (kq & bq & Hinq & Hsq & _).
    rewrite Forall_forall in Hf. by destruct (Hf _ Hinq).
Qed.

Definition alignment_or (alignment default_ : Z) : Z := if 0 <? alignment then alignment else default_.

Lemma allocate_spec total m search_start search_end size alignment type :
  phys_ok total m -> 0 <= search_start < total -> 0 < size ->
  total + alignment_or alignment KB16 + size <= U64_MAX ->
  exists p m', Allocate m search_start search_end size alignment type = Some (p, m') /\ phys_ok total m' /\
    (fits m search_start size (alignment_or alignment KB16) p /\ p + size <= search_end /\
     (forall q, fits m search_start size (alignment_or alignment KB16) q -> p <= q) /\
     painted m m' p size (PhysicalMemoryType.Allocated, type)
     \/ p = NoAddr /\ m' = m /\ forall q, fits m search_start size (alignment_or alignment KB16) q -> search_end < q + size).
Proof.
  intros Hok Hst Hs Hm. unfold Allocate. fold (alignment_or alignment KB16) in *. set (al := alignment_or alignment KB16) in *.
  assert (Hal : 0 < al) by (unfold al, alignment_or, KB16; destruct (Z.ltb_spec 0 alignment); lia).
  destruct (search_spec total m search_start size al Hok Hst Hal Hs Hm) as (k & a & -> & -> & Hf). cbn.
  fold (candidate a search_start al). destruct (find_free _ _ _ _) as [[k' p]|].
  - destruct Hf as (Hp & Hleast & Hpt & b & Hb & -> & Hfb & Hfit). pose proof (ft_start _ _ _ _ _ Hp).
    rewrite wrap64_small by u64_lia. destruct (Z.ltb_spec search_end (p + size)).
    { exists NoAddr, m. split_and!; [done..|]. right. split_and!; try done. intros q Hq. specialize (Hleast q Hq). lia. }
    destruct (retype_used total m p size b (fun a => a <| memory_type := type |> <| dma_type := PhysicalMemoryType.Allocated |>))
      as (m1 & mid & -> & Hok1 & _ & _ & Hpaint & _ & (c & Hc)); [done|lia|done..|].
    cbn. destruct (merge_phys total m1 _ _ Hok1 Hc) as (m2 & k2 & -> & Hok2 & Hv). cbn.
    exists p, m2. split_and!; [done..|]. left. split_and!; try done. intros x. rewrite Hv. apply Hpaint.
  - exists NoAddr, m. split_and!; [done..|]. right. split_and!; try done. intros q Hq. by destruct (Hf q).
Qed.

(** [Allocate] takes the first place: the least aligned address from the start of the
    search on where [size] bytes are free. It succeeds exactly when that place ends before the
    end of the search, and then only the use and the type of those bytes change; otherwise
    nothing does, and nothing else in the range was large enough. *)
Theorem Allocate_exact total m search_start search_end size alignment type :
  phys_ok total m -> 0 <= search_start < total -> 0 < size ->
  total + alignment_or alignment KB16 + size <= U64_MAX ->
  exists p m', Allocate m search_start search_end size alignment type = Some (p, m') /\ phys_ok total m' /\
    (fits m search_start size (alignment_or alignment KB16) p /\ p + size <= search_end /\
     (forall q, fits m search_start size (alignment_or alignment KB16) q -> p <= q) /\
     painted m m' p size (PhysicalMemoryType.Allocated, type)
     \/ p = NoAddr /\ m' = m /\ forall q, fits m search_start size (alignment_or alignment KB16) q -> search_end < q + size).
Proof. apply allocate_spec. Qed.

(** [PoolExpand] takes the same place for the pool and adds it to the budget, but it does not look at
    the end of the search: the place may lie beyond it. *)
Theorem PoolExpand_exact total m budget search_start search_end size alignment :
  phys_ok total m -> 0 <= search_start < total -> 0 < size ->
  total + alignment_or alignment KB64 + size <= U64_MAX ->
  exists p m' budget', PoolExpand m budget search_start search_end size alignment = Some (p, m', budget') /\ phys_ok total m' /\
    (fits m search_start size (alignment_or alignment KB64) p /\
     (forall q, fits m search_start size (alignment_or alignment KB64) q -> p <= q) /\
     painted m m' p size (PhysicalMemoryType.Pooled, 3) /\ budget' = budget +64 size
     \/ p = NoAddr /\ m' = m /\ budget' = budget /\ forall q, ~ fits m search_start size (alignment_or alignment KB64) q).
Proof.
  intros Hok Hst Hs Hm. unfold PoolExpand. fold (alignment_or alignment KB64) in *. set (al := alignment_or alignment KB64) in *.
  assert (Hal : 0 < al) by (unfold al, alignment_or, KB64; destruct (Z.ltb_spec 0 alignment); lia).
  destruct (search_spec total m search_start size al Hok Hst Hal Hs Hm) as (k & a & -> & -> & Hf). cbn.
  replace (if pa_base a <? search_start then AlignUp search_start al else AlignUp (pa_base a) al) with (candidate a search_start al)
    by (unfold candidate; destruct (Z.ltb_spec (pa_base a) search_start); f_equal; lia).
  destruct (find_free _ _ _ _) as [[k' p]|].
  - destruct Hf as (Hp & Hleast & Hpt & b & Hb & -> & Hfb & Hfit). pose proof (ft_start _ _ _ _ _ Hp).
    destruct (retype_used total m p size b (fun a => a <| dma_type := PhysicalMemoryType.Pooled |> <| memory_type := 3 |>))
      as (m1 & mid & -> & Hok1 & _ & _ & Hpaint & _); [done|lia|done..|].
    cbn. exists p, m1, (budget +64 size). split_and!; [done..|]. left. by split_and!.
  - exists NoAddr, m, budget. split_and!; [done..|]. right. by split_and!.
Qed.

(** ** Releasing *)

(** Consecutive areas touch. *)
Lemma contiguous total m l k a k2 b r : laid 0 m total -> (forall x, 0 <= x < total -> is_Some (phys_at m x)) ->
  m = l ++ (k, a) :: (k2, b) :: r -> area_end a = k2.
Proof.
  intros Hl Hc E. pose proof Hl as Hl'. rewrite E in Hl'.
  pose proof Hl' as (Hll & Hk & Hs & _ & ((Hk2 & Hb2 & Hsb & _) & Hlr))%laid_app.
  pose proof (laid_le _ _ _ Hlr) as Hle. pose proof (laid_le _ _ _ Hll) as Hle0. unfold area_end in *. cbn in *.
  destruct (Z.eq_dec (pa_base a + pa_size a) k2) as [|E2]; [done|]. destruct (Hc (pa_base a + pa_size a)) as [v Hv]; [lia|].
  unfold phys_at, view_at in Hv. rewrite E, (area_at_mid _ _ _ _ _ _ _ Hl') in Hv. unfold inside at 1, area_end in Hv. cbn [area_base area_size phys_area] in Hv.
  rewrite Z.ltb_irrefl, andb_false_r in Hv. destruct (Z.ltb_spec (pa_base a + pa_size a) k); [lia|].
  rewrite (area_at_out k2 ((k2, b) :: r) total) in Hv; [done| |lia]. split; [|done]. cbn. split_and!; (done || lia).
Qed.

(** No two consecutive areas are free: the map as a list of areas. *)
Fixpoint apart (m : PhysMap) : Prop :=
  match m with
  | (_, a) :: (((_, b) :: _) as r) => (is_free a = true -> is_free b = true -> False) /\ apart r
  | _ => True
  end.

Lemma apart_app l k a r : apart (l ++ (k, a) :: r) <-> apart (l ++ [(k, a)]) /\ apart ((k, a) :: r).
Proof.
  induction l as [|[k1 b] l IH]; [cbn; tauto|]. destruct l as [|[k2 c] l]; [cbn; tauto|].
  change (apart (((k1, b) :: (k2, c) :: l) ++ (k, a) :: r)) with
    ((is_free b = true -> is_free c = true -> False) /\ apart (((k2, c) :: l) ++ (k, a) :: r)).
  change (apart (((k1, b) :: (k2, c) :: l) ++ [(k, a)])) with
    ((is_free b = true -> is_free c = true -> False) /\ apart (((k2, c) :: l) ++ [(k, a)])). rewrite IH. tauto.
Qed.

Lemma apart_snoc l k a k2 b : apart (l ++ [(k, a)] ++ [(k2, b)]) <-> apart (l ++ [(k, a)]) /\ (is_free a = true -> is_free b = true -> False).
Proof. cbn. rewrite apart_app. cbn. tauto. Qed.

Lemma apart_prefix l r : apart (l ++ r) -> apart l.
Proof.
  revert l. induction r as [|[k a] r IH]; intros l; [by rewrite app_nil_r|]. rewrite apart_app. intros [Ha _].
  destruct l as [|e l _] using rev_ind; [done|]. destruct e as [k2 b]. rewrite <- app_assoc, apart_snoc in Ha. tauto.
Qed.

Lemma apart_suffix l r : apart (l ++ r) -> apart r.
Proof. destruct r as [|[k a] r]; [done|]. rewrite apart_app. tauto. Qed.

(** Only whether the areas are free matters. *)
Lemma apart_same l k a k2 b r : is_free a = is_free b -> apart (l ++ (k, a) :: r) <-> apart (l ++ (k2, b) :: r).
Proof.
  intros E. rewrite (apart_app l k), (apart_app l k2). destruct l as [|e l _] using rev_ind.
  - destruct r as [|[? ?] ?]; cbn; by rewrite ?E.
  - destruct e as [k3 c]. rewrite <- !app_assoc, !apart_snoc, E. destruct r as [|[? ?] ?]; cbn; by rewrite ?E.
Qed.

Lemma apart_ok total m : phys_ok total m -> apart m.
Proof.
  intros [Ht Hl Hc Hz Hap]. enough (forall l r, m = l ++ r -> apart r) as H by (by apply (H [])).
  intros l r. revert l. induction r as [|[k a] r IH]; intros l E; [done|]. destruct r as [|[k2 b] r]; [done|].
  split; [|apply (IH (l ++ [(k, a)])); by rewrite <- app_assoc]. intros Ha Hb.
  pose proof (contiguous _ _ _ _ _ _ _ _ Hl Hc E) as E2. apply (Hap k a); [rewrite E, elem_of_app, elem_of_cons; tauto|done|].
  rewrite E2. eexists. rewrite (entry_view _ _ _ _ b Hl) by (rewrite E, elem_of_app, !elem_of_cons; tauto).
  apply is_free_spec in Hb. by rewrite Hb.
Qed.

Lemma ok_of_apart total m : laid 0 m total -> apart m ->
  forall k a, (k, a) ∈ m -> is_free a = true -> ~ free_at m (k - 1) /\ ~ free_at m (area_end a).
Proof.
  intros Hl Hapart k a Hin Ha.
  (* the area that ends where a free area begins *)
  assert (Hpair : forall c d, (pa_base c, c) ∈ m -> (pa_base d, d) ∈ m -> area_end c = pa_base d -> is_free c = true -> is_free d = true -> False).
  { intros c d Hinc Hind Hend Hfc Hfd. destruct (laid_area _ _ _ _ _ Hl Hind) as (_ & Hd0 & Hsd & _ & Hed).
    apply list_elem_of_split in Hinc as (l & r & E). pose proof Hl as Hl'. rewrite E in Hl'.
    pose proof Hl' as (Hll & _ & Hsc & _ & Hlr)%laid_app. rewrite E in Hind. unfold area_end in *. cbn in *.
    apply elem_of_app in Hind as [Hind|[[= Eb _]|Hind]%elem_of_cons].
    - destruct (laid_area _ _ _ _ _ Hll Hind) as (_ & _ & Hs & _ & He). unfold area_end in He. cbn in *. lia.
    - lia.
    - destruct r as [|[k2 b] r]; [by apply not_elem_of_nil in Hind|]. destruct Hlr as ((Hk2 & Hb2 & Hsb & _) & Hlr). cbn in *.
      apply elem_of_cons in Hind as [[= <- <-]|Hind]; [rewrite E in Hapart; apply apart_suffix in Hapart; by apply Hapart|].
      destruct (laid_area _ _ _ _ _ Hlr Hind) as (_ & Hlo & _). unfold area_end in Hlo. cbn in Hlo. lia. }
  destruct (laid_area _ _ _ _ _ Hl Hin) as (Hk & Hk0 & Hs & _ & He). unfold area_end in He. cbn in Hk, Hs, He. subst k. split.
  - intros [t Hf]. unfold phys_at, view_at in Hf. destruct (area_at m (pa_base a - 1)) as [c|] eqn:Hat; [|done].
    destruct (locate _ _ _ _ _ Hl Hat) as (l & r & E & Hx & _). cbn in E, Hx. unfold area_end in Hx. cbn in Hx.
    assert (Hinc : (pa_base c, c) ∈ m) by (rewrite E, elem_of_app, elem_of_cons; tauto).
    assert (Hfc : is_free c = true) by (apply is_free_spec; cbn in Hf; by injection Hf).
    apply (Hpair c a Hinc Hin); [|done|done].
    unfold area_end. cbn. destruct (Z.lt_ge_cases (pa_base a) (pa_base c + pa_size c)) as [Hlt|]; [|lia].
    pose proof (area_of_entry _ _ _ _ _ Hl Hin) as Ea.
    rewrite (entry_at _ _ _ _ _ Hl Hinc) in Ea by (unfold area_end; cbn; lia). injection Ea as ->. lia.
  - intros [t Hf]. unfold phys_at, view_at in Hf. destruct (area_at m (area_end a)) as [c|] eqn:Hat; [|done].
    destruct (locate _ _ _ _ _ Hl Hat) as (l & r & E & Hx & _). unfold area_end in Hx. cbn in E, Hx.
    assert (Hinc : (pa_base c, c) ∈ m) by (rewrite E, elem_of_app, elem_of_cons; tauto).
    assert (Hfc : is_free c = true) by (apply is_free_spec; cbn in Hf; by injection Hf).
    apply (Hpair a c Hin Hinc); [|done|done].
    unfold area_end. cbn. destruct (Z.lt_ge_cases (pa_base c) (pa_base a + pa_size a)) as [Hlt|]; [|lia].
    pose proof (area_of_entry _ _ _ _ _ Hl Hinc) as Ec. destruct (Z.lt_ge_cases (pa_base c) (pa_base a)).
    + pose proof (area_of_entry _ _ _ _ _ Hl Hin) as Ea. rewrite (entry_at _ _ _ _ _ Hl Hinc) in Ea by (unfold area_end; cbn; lia).
      injection Ea as ->. lia.
    + rewrite (entry_at _ _ _ _ _ Hl Hin) in Ec by (unfold area_end; cbn; lia). injection Ec as ->. lia.
Qed.

Lemma apart_cons_same k a k2 b r : is_free a = is_free b -> apart ((k, a) :: r) <-> apart ((k2, b) :: r).
Proof. apply (apart_same []). Qed.

(** Free areas that touch can be merged. *)
Lemma free_merge total m l k a k2 b r : total <= U64_MAX -> laid 0 m total -> (forall x, 0 <= x < total -> is_Some (phys_at m x)) ->
  (forall x t, phys_at m x = Some (PhysicalMemoryType.Free, t) -> t = 0) ->
  m = l ++ (k, a) :: (k2, b) :: r -> is_free a = true -> is_free b = true -> can_merge a b = true.
Proof.
  intros Ht Hl Hc Hz E Ha Hb. pose proof (contiguous _ _ _ _ _ _ _ _ Hl Hc E) as E2. unfold area_end in E2. cbn in E2.
  assert (Hina : (k, a) ∈ m) by (rewrite E, elem_of_app, elem_of_cons; tauto).
  assert (Hinb : (k2, b) ∈ m) by (rewrite E, elem_of_app, !elem_of_cons; tauto).
  destruct (laid_area _ _ _ _ _ Hl Hina) as (Hka & ? & ? & _ & He). destruct (laid_area _ _ _ _ _ Hl Hinb) as (Hkb & _).
  unfold area_end in He. cbn in *. apply is_free_spec in Ha, Hb.
  pose proof (entry_view _ _ _ _ _ Hl Hina) as Va. pose proof (entry_view _ _ _ _ _ Hl Hinb) as Vb. rewrite Ha in Va. rewrite Hb in Vb.
  apply Hz in Va, Vb. unfold CanMergeWith. rewrite Ha, Hb, Va, Vb, wrap64_small by u64_lia.
  rewrite E2, Hkb, !Z.eqb_refl. cbn. by apply bool_decide_eq_true.
Qed.

(** Merging a free area between neighbours of which no two consecutive ones are free. *)
Lemma merge_apart total (L R l' r' : PhysMap) k F k' B : total <= U64_MAX -> laid 0 (L ++ (k, F) :: R) total ->
  (forall x, 0 <= x < total -> is_Some (phys_at (L ++ (k, F) :: R) x)) ->
  (forall x t, phys_at (L ++ (k, F) :: R) x = Some (PhysicalMemoryType.Free, t) -> t = 0) ->
  merged L k F R l' k' B r' -> is_free F = true -> apart L -> apart R -> apart (l' ++ (k', B) :: r').
Proof.
  intros Ht Hl Hc Hz [(a1 & Hr & Hl2)] HF HL HR.
  assert (Ha1 : is_free a1 = true) by (destruct Hr as [(-> & _)|(? & ? & _ & _ & ->)]; done).
  assert (HB : is_free B = true).
  { destruct Hl2 as [(-> & _)|(p & _ & Hcm & ->)]; [done|]. cbn in Hcm. unfold CanMergeWith in Hcm.
    rewrite !andb_true_iff in Hcm. destruct Hcm as (_ & Hd%bool_decide_eq_true). apply is_free_spec. cbn. rewrite Hd.
    by apply is_free_spec. }
  apply apart_app. split.
  - destruct Hl2 as [(-> & -> & -> & Hno)|(p & -> & Hcm & ->)].
    + destruct L as [|e L _] using rev_ind; [done|]. destruct e as [k0 p]. rewrite <- app_assoc, apart_snoc. split; [done|].
      intros Hp _. specialize (Hno L k0 p eq_refl). enough (can_merge p a1 = true) by congruence.
      assert (can_merge p a1 = can_merge p F) as -> by (by destruct Hr as [(-> & _)|(? & ? & _ & _ & ->)]).
      rewrite <- app_assoc in *. by eapply (free_merge total).
    + by rewrite (apart_same l' k' (join p a1) k' p) by done.
  - rewrite (apart_cons_same _ _ k F) by by rewrite HF. destruct Hr as [(-> & -> & Hno)|(k3 & c & -> & Hcm & ->)].
    + destruct R as [|[k2 b] R]; [done|]. split; [|done]. intros _ Hb. specialize (Hno k2 b R eq_refl).
      by rewrite (free_merge _ _ _ _ _ _ _ _ Ht Hl Hc Hz eq_refl HF Hb) in Hno.
    + rewrite (apart_cons_same _ _ k3 c); [done|]. rewrite HF. symmetry. apply is_free_spec. cbn in Hcm. unfold CanMergeWith in Hcm.
      rewrite !andb_true_iff in Hcm. destruct Hcm as (_ & Hd%bool_decide_eq_true). rewrite <- Hd. by apply is_free_spec.
Qed.

(** Merging a free area does not touch the others. *)
Lemma merged_keeps (l r l' r' : PhysMap) k F k' B : merged l k F r l' k' B r' -> is_free F = true ->
  forall k2 b, is_free b = false -> (k2, b) ∈ l ++ r -> (k2, b) ∈ l' ++ (k', B) :: r'.
Proof.
  intros [(a1 & Hr & Hl2)] HF k2 b Hb Hin.
  assert (Hmf : forall c d, can_merge c d = true -> is_free c = is_free d).
  { intros c d Hcm. cbn in Hcm. unfold CanMergeWith in Hcm. rewrite !andb_true_iff in Hcm. destruct Hcm as (_ & Hd%bool_decide_eq_true).
    unfold is_free. by rewrite Hd. }
  assert (Ha1 : is_free a1 = true) by (destruct Hr as [(-> & _)|(? & ? & _ & _ & ->)]; done).
  rewrite elem_of_app in Hin. rewrite elem_of_app, elem_of_cons. destruct Hin as [Hin|Hin].
  - left. destruct Hl2 as [(_ & -> & _)|(p & -> & Hcm & _)]; [done|]. apply elem_of_app in Hin as [?|Hin]; [done|].
    apply list_elem_of_singleton in Hin as [= -> ->]. apply Hmf in Hcm. congruence.
  - right. right. destruct Hr as [(_ & -> & _)|(k3 & c & -> & Hcm & _)]; [done|]. apply elem_of_cons in Hin as [[= -> ->]|?]; [|done].
    apply Hmf in Hcm. congruence.
Qed.

(** Releasing a range of a used area: it becomes free, and free areas are joined. *)
Lemma release_spec total m addr size a :
  phys_ok total m -> 0 <= addr -> area_at m addr = Some a -> is_free a = false -> 0 < size -> addr + size <= area_end a ->
  exists m', release m (addr, size) = Some m' /\ phys_ok total m' /\ painted m m' addr size (PhysicalMemoryType.Free, 0) /\
    (forall k b, (k, b) ∈ m -> is_free b = false -> k <> pa_base a -> (k, b) ∈ m').
Proof.
  intros Hok Haddr Ha Hfa Hs Hfit. pose proof (apart_ok _ _ Hok) as Hapm. pose proof Hok as [Ht Hl Hc Hz Hap].
  destruct (retype_spec total m addr size a (fun b => b <| dma_type := PhysicalMemoryType.Free |> <| memory_type := 0 |>))
    as (l & r & low & mid & high & E & Hcv & _ & _ & Hre & Hl1 & Hp); [done..|]. cbn in Hp.
  set (F := mid <| dma_type := PhysicalMemoryType.Free |> <| memory_type := 0 |>) in *.
  set (m1 := l ++ low ++ (addr, F) :: high ++ r) in *. assert (Hm1 : m1 = (l ++ low) ++ (addr, F) :: (high ++ r)) by (by unfold m1; rewrite <- app_assoc).
  assert (Hc1 : forall x, 0 <= x < total -> is_Some (phys_at m1 x)) by (intros x Hx; rewrite Hp; destruct (_ && _); [by eexists|by apply Hc]).
  assert (Hz1 : forall x t, phys_at m1 x = Some (PhysicalMemoryType.Free, t) -> t = 0)
    by (intros x t; rewrite Hp; destruct (_ && _); [by intros [= <-]|by apply Hz]).
  rewrite Hm1 in Hl1, Hc1, Hz1, Hp, Hre.
  destruct (merge_spec 0 (l ++ low) addr F (high ++ r) total) as (l' & k' & B & r' & Hmg & E2 & Hl' & Hv); [lia|done|done|].
  assert (Hpiece : forall k b, (k, b) ∈ low \/ (k, b) ∈ high -> is_free b = false).
  { intros k b Hin. destruct (carved_piece _ _ _ _ _ _ _ _ _ _ _ _ Hcv Hl1 Hin) as [Hd _].
    unfold is_free in *. by rewrite Hd. }
  assert (HL : apart (l ++ low)).
  { rewrite E in Hapm. apply apart_prefix in Hapm.
    destruct (cv_low _ _ _ _ _ _ _ Hcv) as [[El _]|(p & El & _)]; rewrite El; [by rewrite app_nil_r|].
    destruct l as [|e l _] using rev_ind; [done|]. destruct e as [k0 c]. rewrite <- app_assoc, apart_snoc. split; [done|].
    intros _ Hpf. rewrite (Hpiece (pa_base a) p) in Hpf; [done|]. left. rewrite El. by left. }
  assert (HR : apart (high ++ r)).
  { rewrite E in Hapm. change (l ++ (pa_base a, a) :: r) with (l ++ [(pa_base a, a)] ++ r) in Hapm. rewrite app_assoc in Hapm.
    apply apart_suffix in Hapm. destruct (cv_high _ _ _ _ _ _ _ Hcv) as [[Eh _]|(q & Eh & _)]; rewrite Eh; [done|].
    cbn. destruct r as [|[k0 c] r]; [done|]. split; [|done]. intros Hqf.
    rewrite (Hpiece (pa_base a + (addr - pa_base a) + size) q) in Hqf; [done|]. right. rewrite Eh. by left. }
  assert (Hv' : forall x, phys_at (l' ++ (k', B) :: r') x = phys_at ((l ++ low) ++ (addr, F) :: high ++ r) x) by exact Hv.
  exists (l' ++ (k', B) :: r'). split_and!.
  - unfold release. cbn [fst snd]. rewrite Hre. cbn. by rewrite E2.
  - split; [done|done|intros x Hx; rewrite Hv'; by apply Hc1|intros x t; rewrite Hv'; apply Hz1|].
    apply (ok_of_apart total); [done|]. by apply (merge_apart total _ _ _ _ _ _ _ _ Ht Hl1 Hc1 Hz1 Hmg).
  - intros x. rewrite Hv'. apply Hp.
  - intros k b Hin Hb Hne. rewrite E in Hin. apply (merged_keeps _ _ _ _ _ _ _ _ Hmg); [done|done|].
    rewrite !elem_of_app. rewrite elem_of_app, elem_of_cons in Hin. destruct Hin as [?|[[= -> _]|?]]; tauto.
Qed.

(** ** The ranges to release *)

(** The ranges follow each other from [lo] to [hi], each within a used area of the map, which
    the entries below [k] do not concern. *)
Fixpoint tiles (m : PhysMap) (k : Z) (ranges : list (Z * Z)) (lo hi : Z) : Prop :=
  match ranges with
  | [] => lo = hi
  | (addr, size) :: rest => addr = lo /\ 0 < size /\
      exists b, (pa_base b, b) ∈ m /\ k <= pa_base b <= addr /\ addr + size <= area_end b /\ is_free b = false /\
        tiles m (pa_base b + 1) rest (lo + size) hi
  end.

Lemma tiles_weaken m k k2 ranges lo hi : k2 <= k -> tiles m k ranges lo hi -> tiles m k2 ranges lo hi.
Proof.
  destruct ranges as [|[addr size] rest]; [done|]. intros Hk (-> & Hs & b & Hb & ? & ? & ? & ?). split_and!; [done|done|].
  exists b. split_and!; (done || lia).
Qed.

Lemma last_area total m pre k b : phys_ok total m -> m = pre ++ [(k, b)] -> area_end b = total.
Proof.
  intros [Ht Hl Hc _ _] E. pose proof Hl as Hl'. rewrite E in Hl'. pose proof Hl' as (Hll & Hk & Hs & _ & Hle)%laid_app.
  pose proof (laid_le _ _ _ Hll). unfold area_end in *. cbn in *.
  destruct (Z.eq_dec (pa_base b + pa_size b) total) as [|Hne]; [done|]. destruct (Hc (pa_base b + pa_size b)) as [v Hv]; [lia|].
  unfold phys_at, view_at in Hv. rewrite E, (area_at_mid _ _ _ _ _ _ _ Hl') in Hv. unfold inside, area_end in Hv. cbn in Hv.
  rewrite Z.ltb_irrefl, andb_false_r in Hv. by destruct (Z.ltb_spec (pa_base b + pa_size b) k); [lia|].
Qed.

Lemma free_list_cons k a r phys_addr remaining checked :
  free_list ((k, a) :: r) phys_addr remaining checked =
    if remaining =? 0 then Some []
    else if is_free a then (if checked then None else free_list r phys_addr remaining checked)
    else
      let current := Z.max phys_addr k in
      let size := Z.min remaining (pa_size a -64 (current -64 k)) in
      rest ← free_list r phys_addr (remaining -64 size) checked; Some ((current, size) :: rest).
Proof. done. Qed.

Lemma free_list_zero l phys_addr checked : free_list l phys_addr 0 checked = Some [].
Proof. by destruct l as [|[? ?] ?]. Qed.

Lemma free_list_loop total m pre k b r phys_addr cur remaining : phys_ok total m -> 0 <= phys_addr ->
  m = pre ++ (k, b) :: r -> k <= cur < area_end b -> Z.max phys_addr k = cur -> 0 < remaining -> cur + remaining <= total ->
  match free_list ((k, b) :: r) phys_addr remaining true with
  | Some ranges => tiles m k ranges cur (cur + remaining) /\ forall x, cur <= x < cur + remaining -> ~ free_at m x
  | None => exists x, cur <= x < cur + remaining /\ free_at m x
  end.
Proof.
  intros Hok Hp0. pose proof Hok as [Ht Hl Hc _ _]. revert pre k b cur remaining.
  induction r as [|e r IH]; intros pre k b cur remaining E Hcur Hmax Hrem Hfit.
  all: assert (Hin : (k, b) ∈ m) by (rewrite E, elem_of_app, elem_of_cons; tauto).
  all: destruct (laid_area _ _ _ _ _ Hl Hin) as (Hkb & Hk0 & Hsb & _ & Heb).
  all: pose proof (entry_at _ _ _ _ _ Hl Hin) as Hat; unfold area_end in *; cbn [area_base area_size phys_area] in *.
  all: assert (Hff : forall x, pa_base b <= x < pa_base b + pa_size b -> free_at m x <-> is_free b = true)
    by (intros x Hx; apply (free_at_area m x b); by apply Hat).
  all: rewrite free_list_cons; destruct (Z.eqb_spec remaining 0); [lia|]; cbv zeta; rewrite Hmax; destruct (is_free b) eqn:Hfb;
    [exists cur; split; [lia|apply Hff; [lia|done]]|].
  all: rewrite (wrap64_small (cur - k)) by u64_lia; rewrite (wrap64_small (pa_size b - (cur - k))) by u64_lia.
  all: set (s := Z.min remaining (pa_size b - (cur - k))); rewrite (wrap64_small (remaining - s)) by u64_lia.
  all: assert (Hused : forall x, cur <= x < cur + s -> ~ free_at m x) by (intros x Hx Hf; apply Hff in Hf; [congruence|lia]).
  all: assert (Htile : forall rest hi, tiles m (pa_base b + 1) rest (cur + s) hi -> tiles m k ((cur, s) :: rest) cur hi)
    by (intros rest hi Hrest; split_and!; [done|lia|]; exists b; rewrite Hkb in *; unfold area_end; cbn; split_and!; (done || lia)).
  - pose proof (last_area _ _ _ _ _ Hok E) as Hend. unfold area_end in Hend. cbn in Hend. assert (s = remaining) as Es by lia.
    rewrite Es in *. split; [by apply Htile|done].
  - destruct e as [k2 c]. assert (E2 : m = (pre ++ [(k, b)]) ++ (k2, c) :: r) by (by rewrite <- app_assoc).
    pose proof (contiguous _ _ _ _ _ _ _ _ Hl Hc E) as Hk2. unfold area_end in Hk2. cbn in Hk2.
    destruct (Z.eq_dec s remaining) as [Es|Es]; [rewrite Es in *; rewrite Z.sub_diag, free_list_zero; split; [by apply Htile|done]|].
    assert (Hin2 : (k2, c) ∈ m) by (rewrite E2, elem_of_app, elem_of_cons; tauto).
    destruct (laid_area _ _ _ _ _ Hl Hin2) as (Hkc & _ & Hsc & _ & Hec). unfold area_end in Hec. cbn in Hkc, Hsc, Hec.
    specialize (IH (pre ++ [(k, b)]) k2 c (cur + s) (remaining - s) E2). unfold area_end in IH. cbn [area_base area_size phys_area] in IH.
    specialize (IH ltac:(lia) ltac:(lia) ltac:(lia) ltac:(lia)). replace (cur + s + (remaining - s)) with (cur + remaining) in IH by lia.
    destruct (free_list ((k2, c) :: r) phys_addr (remaining - s) true) as [ranges|]; cbn [mbind option_bind].
    + destruct IH as [IHt IHf]. split; [apply Htile; eapply tiles_weaken; [|exact IHt]; lia|].
      intros x Hx. destruct (Z.lt_ge_cases x (cur + s)); [apply Hused|apply IHf]; lia.
    + destruct IH as (x & Hx & Hf). exists x. split; [lia|done].
Qed.

(** Every range of a list that was made for a map can be released, one after the other. *)
Lemma release_tiles total k ranges lo hi m : phys_ok total m -> 0 <= lo -> tiles m k ranges lo hi ->
  exists m', foldl (fun o range => m ← o; release m range) (Some m) ranges = Some m' /\ phys_ok total m' /\
    painted m m' lo (hi - lo) (PhysicalMemoryType.Free, 0).
Proof.
  revert k lo m. induction ranges as [|[addr size] rest IH]; intros k lo m Hok Hlo Htl.
  - cbn in Htl. subst. exists m. split_and!; [done|done|]. intros x. destruct (Z.leb_spec hi x), (Z.ltb_spec x (hi + (hi - hi))); (done || lia).
  - destruct Htl as (-> & Hs & b & Hb & Hbk & Hend & Hfb & Hrest). pose proof Hok as [Ht Hl _ _ _].
    pose proof (entry_at _ _ _ _ _ Hl Hb) as Hat. specialize (Hat lo). unfold area_end in Hat, Hend. cbn in Hat, Hend.
    destruct (release_spec total m lo size b) as (m1 & E & Hok1 & Hp1 & Hkeep); [done|done|apply Hat; lia|done|done|unfold area_end; cbn; lia|].
    assert (Hrest' : tiles m1 (pa_base b + 1) rest (lo + size) hi).
    { clear - Hrest Hkeep. revert Hrest. generalize (lo + size) as lo'. assert (Hge : pa_base b + 1 <= pa_base b + 1) by lia.
      revert Hge. generalize (pa_base b + 1) at 2 3 4 as k'. induction rest as [|[q s] rest IH]; intros k' Hk' lo'; [done|]. cbn.
      intros (-> & ? & c & Hc & ? & ? & Hfc & Hr). split_and!; [done|done|]. exists c. split_and!; try done; [apply Hkeep; (done || lia)|lia|lia|].
      apply IH; [lia|done]. }
    assert (Hle : lo + size <= hi).
    { clear - Hrest. revert Hrest. generalize (lo + size) as lo', (pa_base b + 1) as k'. induction rest as [|[q s] rest IH]; intros lo' k'; cbn; [lia|].
      intros (-> & ? & c & _ & _ & _ & _ & Hr). specialize (IH _ _ Hr). lia. }
    destruct (IH _ (lo + size) m1 Hok1 ltac:(lia) Hrest') as (m' & E' & Hok' & Hp'). exists m'. cbn [foldl]. cbn [mbind option_bind]. rewrite E.
    split_and!; [done|done|]. intros x. rewrite Hp', Hp1.
    destruct (Z.leb_spec (lo + size) x), (Z.ltb_spec x (lo + size + (hi - (lo + size)))), (Z.leb_spec lo x), (Z.ltb_spec x (lo + size)), (Z.ltb_spec x (lo + (hi - lo)));
      cbn; (done || lia).
Qed.

(** A checked [Free] of a range first looks whether all of it is in use: it gives up when
    a byte is free, and otherwise releasing the ranges it made, one after the other, frees
    exactly the bytes of the range and nothing else. *)
Theorem free_checked total m phys_addr size :
  phys_ok total m -> 0 <= phys_addr -> 0 < size -> phys_addr + size <= total ->
  exists k a, floor m phys_addr = Some (k, a) /\
  match free_list (from m k) phys_addr size true with
  | Some ranges => (forall x, phys_addr <= x < phys_addr + size -> ~ free_at m x) /\
      exists m', foldl (fun o range => m ← o; release m range) (Some m) ranges = Some m' /\ phys_ok total m' /\
        painted m m' phys_addr size (PhysicalMemoryType.Free, 0)
  | None => exists x, phys_addr <= x < phys_addr + size /\ free_at m x
  end.
Proof.
  intros Hok Hp Hs Hfit. pose proof Hok as [Ht Hl _ _ _]. destruct (covered_area _ _ phys_addr Hok) as [a Ha]; [lia|].
  destruct (locate _ _ _ _ _ Hl Ha) as (l & r & E & Hx & Hfl). cbn in E, Hx, Hfl. exists (pa_base a), a. split; [done|].
  assert (from m (pa_base a) = (pa_base a, a) :: r) as -> by (rewrite E; apply (from_app 0 _ _ _ _ total); rewrite <- E; by eapply laid_ordered).
  pose proof (free_list_loop total m l (pa_base a) a r phys_addr phys_addr size Hok Hp E ltac:(lia) ltac:(lia) Hs Hfit) as Hf.
  destruct (free_list _ _ _ _) as [ranges|]; [|done]. destruct Hf as [Htl Hused]. split; [done|].
  destruct (release_tiles total _ _ _ _ _ Hok Hp Htl) as (m' & ? & ? & Hpaint). exists m'. split_and!; [done|done|].
  by replace (phys_addr + size - phys_addr) with size in Hpaint by lia.
Qed.

(** An unchecked [Free] runs past its range: when the range is within a free area, the first range it
    releases is in the area after it. *)
Theorem free_unchecked_overruns total m l k a k2 b r phys_addr size :
  phys_ok total m -> m = l ++ (k, a) :: (k2, b) :: r -> is_free a = true ->
  k <= phys_addr -> 0 < size -> phys_addr + size <= area_end a ->
  floor m phys_addr = Some (k, a) /\ phys_addr + size <= k2 /\
  exists rest, free_list (from m k) phys_addr size false = Some ((k2, Z.min size (pa_size b)) :: rest).
Proof.
  intros Hok E Ha Hk Hs Hfit. pose proof Hok as [Ht Hl Hc _ _].
  pose proof (contiguous _ _ _ _ _ _ _ _ Hl Hc E) as Hk2. assert (Hin : (k2, b) ∈ m) by (rewrite E, elem_of_app, !elem_of_cons; tauto).
  destruct (laid_area _ _ _ _ _ Hl Hin) as (Hb & Hb0 & Hsb & _ & Heb). unfold area_end in *. cbn in *.
  split_and!; [|lia|].
  - rewrite E. apply (floor_app 0 _ _ _ _ total); [rewrite <- E; by eapply laid_ordered|done|lia].
  - assert (from m k = (k, a) :: (k2, b) :: r) as -> by (rewrite E; apply (from_app 0 _ _ _ _ total); rewrite <- E; by eapply laid_ordered).
    assert (Hfb : is_free b = false).
    { apply not_true_iff_false. intros Hb'. pose proof (apart_ok _ _ Hok) as Hap. rewrite E in Hap. apply apart_suffix in Hap. by apply Hap. }
    rewrite free_list_cons. destruct (Z.eqb_spec size 0); [lia|]. rewrite Ha, free_list_cons. destruct (Z.eqb_spec size 0); [lia|].
    rewrite Hfb. cbv zeta. replace (Z.max phys_addr k2) with k2 by lia. rewrite (wrap64_small (k2 - k2)) by u64_lia.
    rewrite Z.sub_diag, Z.sub_0_r, (wrap64_small (pa_size b)) by u64_lia.
    assert (Hsome : forall l' n, exists rest, free_list l' phys_addr n false = Some rest).
    { induction l' as [|[k' c] l' IH]; intros rem; [by eexists|]. rewrite free_list_cons. destruct (rem =? 0); [by eexists|].
      destruct (is_free c); [apply IH|]. cbv zeta. destruct (IH (rem -64 Z.min rem (pa_size c -64 (Z.max phys_addr k' -64 k')))) as [rest ->]. by eexists. }
    destruct (Hsome r (size -64 Z.min size (pa_size b))) as [rest ->]. by eexists.
Qed.

(** ** The largest free range *)

(** What an area offers when no alignment is asked for. *)
Lemma available_spec a search_start search_end : 0 <= pa_base a -> 0 <= pa_size a -> pa_base a + pa_size a <= U64_MAX ->
  0 <= search_start <= search_end -> search_end <= U64_MAX ->
  let low := Z.max search_start (pa_base a) in
  let high := Z.min search_end (pa_base a + pa_size a) in
  available a search_start search_end 0 = (low, Z.max 0 (high - low)).
Proof.
  intros Hb Hs He Hse Hse64. unfold available, GetEnd. cbn [Z.ltb Z.compare]. rewrite Z.sub_diag.
  rewrite !(wrap64_small 0), !(wrap64_small (pa_base a + pa_size a)) by u64_lia. rewrite Z.sub_0_r, !(wrap64_small (pa_size a)) by u64_lia.
  destruct (Z.leb_spec 0 (pa_size a)); [|lia].
  destruct (Z.ltb_spec (pa_base a) search_start).
  1: rewrite (wrap64_small (search_start - pa_base a)) by u64_lia.
  1: destruct (Z.ltb_spec (search_start - pa_base a) (pa_size a)); [rewrite (wrap64_small (pa_size a - (search_start - pa_base a))) by u64_lia|].
  all: destruct (Z.ltb_spec search_end (pa_base a + pa_size a)); [|f_equal; lia].
  all: rewrite (wrap64_small (pa_base a + pa_size a - search_end)) by u64_lia.
  all: match goal with |- context [?x <? ?y] => destruct (Z.ltb_spec x y) end; unwrap; f_equal; lia.
Qed.

Definition between (m : PhysMap) (search_start search_end : Z) (offer : Z * Z) : Prop :=
  0 < snd offer -> search_start <= fst offer /\ fst offer + snd offer <= search_end /\
    forall x, fst offer <= x < fst offer + snd offer -> free_at m x.

(** The loop keeps the largest of the offers. *)
Lemma best_offers total m search_start search_end s best : phys_ok total m -> 0 <= search_start <= search_end -> search_end <= U64_MAX ->
  (forall e, e ∈ s -> e ∈ m) -> between m search_start search_end best ->
  let res := fold_left (best_offer search_start search_end 0) s best in
  between m search_start search_end res /\ snd best <= snd res /\
  (forall k b, (k, b) ∈ s -> is_free b = true -> Z.min search_end (area_end b) - Z.max search_start (pa_base b) <= snd res).
Proof.
  intros Hok Hse Hse64. pose proof Hok as [Ht Hl _ _ _]. revert best. induction s as [|[k b] s IH]; intros best Hm Hbest; cbn zeta; cbn [fold_left].
  { split_and!; [done|lia|]. by intros ? ? ?%not_elem_of_nil. }
  assert (Hin : (k, b) ∈ m) by (apply Hm; by left). destruct (laid_area _ _ _ _ _ Hl Hin) as (Hkb & Hk0 & Hs & _ & He).
  pose proof (entry_at _ _ _ _ _ Hl Hin) as Hat. unfold area_end in *. cbn [area_base area_size phys_area] in *.
  pose proof (available_spec b search_start search_end) as Hav. cbn zeta in Hav.
  set (best' := best_offer search_start search_end 0 best (k, b)).
  assert (Hstep : between m search_start search_end best' /\ snd best <= snd best' /\
    (is_free b = true -> Z.min search_end (pa_base b + pa_size b) - Z.max search_start (pa_base b) <= snd best')).
  { unfold best', best_offer. cbn [snd]. destruct (is_free b) eqn:Hfb; [|by split_and!].
    rewrite Hav by u64_lia. cbn [snd]. destruct (Z.ltb_spec (snd best) (Z.max 0 (Z.min search_end (pa_base b + pa_size b) - Z.max search_start (pa_base b)))).
    - split_and!; cbn [fst snd]; [|lia|lia]. intros Hpos. cbn [fst snd] in *. split_and!; [lia|lia|].
      intros x Hx. apply (free_at_area m x b); [apply Hat; lia|done].
    - split_and!; [done|lia|lia]. }
  destruct Hstep as (Hbet & Hle & Hoff). destruct (IH best') as (IHb & IHl & IHo); [intros e He'; apply Hm; by right|done|].
  split_and!; [done|lia|]. intros k2 c [[= -> ->]|Hc]%elem_of_cons Hfc; [specialize (Hoff Hfc); lia|by apply (IHo k2)].
Qed.

(** [DirectQueryAvailable] without an alignment finds the largest free range between two
    addresses: what it returns is free and between them, and no free range there is larger. *)
Theorem DirectQueryAvailable_largest total m search_start search_end :
  phys_ok total m -> 0 <= search_start < total -> search_start <= search_end <= U64_MAX ->
  exists offer, DirectQueryAvailable m search_start search_end 0 = Some offer /\ between m search_start search_end offer /\
    (forall q n, 0 < n -> search_start <= q -> q + n <= search_end -> (forall x, q <= x < q + n -> free_at m x) -> n <= snd offer).
Proof.
  intros Hok Hst Hse. pose proof Hok as [Ht Hl _ _ _]. destruct (covered_area _ _ search_start Hok) as [a Ha]; [lia|].
  destruct (locate _ _ _ _ _ Hl Ha) as (l & r & E & Hx & Hfl). unfold area_end in Hx. cbn in E, Hx, Hfl.
  assert (from m (pa_base a) = (pa_base a, a) :: r) as Hfrom by (rewrite E; apply (from_app 0 _ _ _ _ total); rewrite <- E; by eapply laid_ordered).
  destruct (best_offers total m search_start search_end ((pa_base a, a) :: r) (0, 0) Hok) as (Hbet & _ & Hbest);
    [lia|lia|intros e He; rewrite E, elem_of_app; by right|unfold between; cbn; lia|].
  unfold DirectQueryAvailable. rewrite Hfl. cbn [mbind option_bind]. rewrite Hfrom. eexists. split_and!; [done|done|].
  intros q n Hn Hq Hend Hfree. destruct (free_run total m q n Hok) as (b & Hb & Hfb & Hfit); [lia|done|done|].
  destruct (locate _ _ _ _ _ Hl Hb) as (l2 & r2 & E2 & Hxb & _). unfold area_end in *. cbn in E2, Hxb, Hfit.
  assert (Hin : (pa_base b, b) ∈ (pa_base a, a) :: r).
  { assert (Hin : (pa_base b, b) ∈ m) by (rewrite E2, elem_of_app, elem_of_cons; tauto). rewrite E in Hin. apply elem_of_app in Hin as [Hin|]; [|done].
    rewrite E in Hl. apply laid_app in Hl as (Hll & _). destruct (laid_area _ _ _ _ _ Hll Hin) as (_ & _ & _ & _ & He).
    unfold area_end in He. cbn in He. lia. }
  specialize (Hbest _ _ Hin Hfb). cbn [area_base area_size phys_area] in Hbest. lia.
Qed.

(** ** A concrete memory *)

Definition memory_0 : PhysMap := [(0, mkPhys 0 0x100000 0 PhysicalMemoryType.Free)].
Definition after_allocate (m : PhysMap) (start size type : Z) : PhysMap :=
  match Allocate m start 0x100000 size 0 type with Some (_, m') => m' | None => m end.
(** Free to 0x8000, in use to 0x20000, free to the end. *)
Definition memory_1 : PhysMap := after_allocate (after_allocate memory_0 0x8000 0x8000 10) 0x8000 0x10000 3.

Lemma memory_0_ok : phys_ok 0x100000 memory_0.
Proof.
  split; [vm_compute; discriminate|vm_compute; split_and!; (done || discriminate)| | |].
  - intros x Hx. unfold phys_at, view_at, memory_0. cbn -[Z.leb Z.ltb Z.add]. unfold inside, area_end. cbn -[Z.leb Z.ltb].
    destruct (Z.leb_spec 0 x), (Z.ltb_spec x (0 + 1048576)); try lia. by eexists.
  - intros x t. unfold phys_at, view_at, memory_0. cbn. destruct (inside _ x); [by intros [= <-]|done].
  - intros k a [= -> ->]%list_elem_of_singleton _. split; intros [t Ht]; vm_compute in Ht; discriminate.
Qed.

Lemma memory_1_ok : phys_ok 0x100000 memory_1.
Proof.
  assert (H1 : phys_ok 0x100000 (after_allocate memory_0 0x8000 0x8000 10)).
  { destruct (allocate_spec 0x100000 memory_0 0x8000 0x100000 0x8000 0 10 memory_0_ok) as (p & m' & E & Hok & _); [lia|lia|vm_compute; discriminate|].
    unfold after_allocate. by rewrite E. }
  destruct (allocate_spec 0x100000 (after_allocate memory_0 0x8000 0x8000 10) 0x8000 0x100000 0x10000 0 3 H1) as (p & m' & E & Hok & _);
    [lia|lia|vm_compute; discriminate|]. unfold memory_1. unfold after_allocate at 1. by rewrite E.
Qed.

Lemma Allocate_exact_witness : exists p m', Allocate memory_1 0 0x100000 0x9000 0x10000 5 = Some (p, m') /\ phys_ok 0x100000 m' /\ p = 0x20000.
Proof.
  destruct (Allocate_exact 0x100000 memory_1 0 0x100000 0x9000 0x10000 5 memory_1_ok) as (p & m' & E & Hok & _);
    [lia|lia|vm_compute; discriminate|]. exists p, m'. split_and!; [exact E|exact Hok|].
  vm_compute in E. by injection E as <- _.
Defined.

(** The end of the search is 0x10000, the place is beyond it. *)
Lemma PoolExpand_exact_witness : exists m', PoolExpand memory_1 0 0x8000 0x10000 0x10000 0 = Some (0x20000, m', 0x10000).
Proof.
  destruct (PoolExpand_exact 0x100000 memory_1 0 0x8000 0x10000 0x10000 0 memory_1_ok) as (p & m' & n & E & _);
    [lia|lia|vm_compute; discriminate|]. exists m'. rewrite E. vm_compute in E. injection E as <- _ <-. reflexivity.
Defined.

Lemma free_checked_witness : exists k a, floor memory_1 0xc000 = Some (k, a) /\
  match free_list (from memory_1 k) 0xc000 0x8000 true with
  | Some ranges => (forall x, 0xc000 <= x < 0xc000 + 0x8000 -> ~ free_at memory_1 x) /\
      exists m', foldl (fun o range => m ← o; release m range) (Some memory_1) ranges = Some m' /\ phys_ok 0x100000 m' /\
        painted memory_1 m' 0xc000 0x8000 (PhysicalMemoryType.Free, 0)
  | None => exists x, 0xc000 <= x < 0xc000 + 0x8000 /\ free_at memory_1 x
  end.
Proof. apply (free_checked 0x100000 memory_1 0xc000 0x8000 memory_1_ok); lia. Defined.

Lemma free_unchecked_overruns_witness :
  exists rest, free_list (from memory_1 0) 0 0x4000 false = Some ((0x8000, 0x4000) :: rest).
Proof.
  apply (free_unchecked_overruns 0x100000 memory_1 [] 0 (mkPhys 0 0x8000 0 PhysicalMemoryType.Free) 0x8000
    (mkPhys 0x8000 0x8000 10 PhysicalMemoryType.Allocated)
    [(0x10000, mkPhys 0x10000 0x10000 3 PhysicalMemoryType.Allocated); (0x20000, mkPhys 0x20000 0xe0000 0 PhysicalMemoryType.Free)] 0 0x4000 memory_1_ok);
    [vm_compute; reflexivity|reflexivity|lia|lia|vm_compute; discriminate].
Defined.

Lemma DirectQueryAvailable_largest_witness :
  exists offer, DirectQueryAvailable memory_1 0x4000 0x90000 0 = Some offer /\ between memory_1 0x4000 0x90000 offer /\ offer = (0x20000, 0x70000).
Proof.
  destruct (DirectQueryAvailable_largest 0x100000 memory_1 0x4000 0x90000 memory_1_ok) as (offer & E & Hb & _);
    [lia|vm_compute; split; discriminate|]. exists offer. split_and!; [exact E|exact Hb|]. vm_compute in E. by injection E as <-.
Defined.
