(* ===== verification/VirtMemory.v ===== *)
(** Virtual memory: the areas of src/src/core/memory.h and memory.cpp, and what reads them.

    [vma_map] says of each virtual address what is mapped there, with which protection, and at
    which physical address. An area has the pieces of physical memory behind it in a map from
    the offset in the area. What changes the map together with physical memory is in
    [MemoryManager]. *)
From Stdlib Require Import ZArith Lia.
From stdpp Require Import base gmap list list_numbers strings.
From S2P Require Import Prelude.
From S2P Require Import KernelErrors.
From S2P Require Import Alignment.
From S2P Require Import OrdMap.
From S2P Require Import PhysMemory.

Module VMAType.
Inductive t := Free | Reserved | Direct | Flexible | Pooled | PoolReserved | Stack | Code | File | System.
#[global] Instance eq_dec : EqDecision t.
Proof. solve_decision. Defined.
End VMAType.

(** [MemoryProt] and [MemoryMapFlags] are sets of bits. *)
Definition NoAccess : Z := 0.
Definition CpuRead : Z := 1.
Definition CpuWrite : Z := 2.
Definition CpuReadWrite : Z := 3.
Definition CpuExec : Z := 4.
Definition GpuRead : Z := 16.
Definition GpuWrite : Z := 32.
Definition GpuReadWrite : Z := 48.
Definition Fixed : Z := 0x10.
Definition NoOverwrite : Z := 0x80.
Definition NoCoalesce : Z := 0x400000.
(** [True(flags & bits)] *)
Definition has (flags bits : Z) : bool := negb (Z.land flags bits =? 0).

Record VirtualMemoryArea := mkVMA {
  vma_base : Z;
  vma_size : Z;
  phys_areas : PhysMap;
  vma_type : VMAType.t;
  prot : Z;
  vma_name : string;
  fd : Z;
  disallow_merge : bool
}.
#[export] Instance eta_VirtualMemoryArea : Eta VirtualMemoryArea := fun v =>
  mkVMA (vma_base v) (vma_size v) (phys_areas v) (vma_type v) (prot v) (vma_name v) (fd v) (disallow_merge v).

Definition Contains (v : VirtualMemoryArea) (addr size : Z) : bool :=
  (vma_base v <=? addr) && (addr +64 size <=? vma_base v +64 vma_size v).
Definition Overlaps (v : VirtualMemoryArea) (addr size : Z) : bool :=
  (addr <? vma_base v +64 vma_size v) && (vma_base v <? addr +64 size).
Definition is_type (v : VirtualMemoryArea) (t : VMAType.t) : bool := bool_decide (vma_type v = t).
Definition IsFree (v : VirtualMemoryArea) : bool := is_type v VMAType.Free.
Definition IsMapped (v : VirtualMemoryArea) : bool :=
  negb (is_type v VMAType.Free) && negb (is_type v VMAType.Reserved) && negb (is_type v VMAType.PoolReserved).
Definition HasPhysicalBacking (v : VirtualMemoryArea) : bool :=
  is_type v VMAType.Direct || is_type v VMAType.Flexible || is_type v VMAType.Pooled.

(** Two direct areas without physical pieces do not occur ([vma_ok]): the code dereferences
    their first and last piece. *)
Definition CanMergeVMA (v next : VirtualMemoryArea) : bool :=
  if disallow_merge v || disallow_merge next then false
  else if negb (vma_base v +64 vma_size v =? vma_base next) then false
  else if is_type v VMAType.Direct && is_type next VMAType.Direct &&
          match last (phys_areas v), head (phys_areas next) with
          | Some (_, last_phys), Some (_, first_next_phys) =>
              negb (pa_base last_phys +64 pa_size last_phys =? pa_base first_next_phys) ||
              negb (memory_type last_phys =? memory_type first_next_phys)
          | _, _ => true
          end then false
  else if negb (prot v =? prot next) || negb (bool_decide (vma_type v = vma_type next)) then false
  else bool_decide (vma_name v = vma_name next).

(** The two loops of [Split] over the physical pieces: the pieces before an offset, and those
    after it, from their new offset. *)
Definition split_low (areas : PhysMap) (offset_in_vma : Z) : PhysMap :=
  fold_left (fun old e =>
    let '(offset, region) := e in
    if offset +64 pa_size region <=? offset_in_vma then put old offset region
    else if offset <? offset_in_vma then put old offset (region <| pa_size := offset_in_vma -64 offset |>)
    else old) areas [].
Definition split_high (areas : PhysMap) (offset_in_vma : Z) : PhysMap :=
  fold_left (fun new e =>
    let '(offset, region) := e in
    let new := if (offset <? offset_in_vma) && (offset_in_vma <? offset +64 pa_size region) then
                 let size_in_old := offset_in_vma -64 offset in
                 put new 0 (region <| pa_base ::= fun b => b +64 size_in_old |> <| pa_size ::= fun s => s -64 size_in_old |>)
               else new in
    if offset_in_vma <=? offset then put new (offset -64 offset_in_vma) region else new) areas [].

(** The loop of [MergeAdjacent] over the pieces of the second area. *)
Definition join_areas (areas : PhysMap) (base_offset : Z) (next : PhysMap) : PhysMap :=
  fold_left (fun areas e => put areas (base_offset +64 fst e) (snd e)) next areas.

#[export] Instance virt_area : Area VirtualMemoryArea := {|
  area_base := vma_base;
  area_size := vma_size;
  cut_low v offset :=
    let old := v <| vma_size := offset |> in
    if HasPhysicalBacking v then old <| phys_areas := split_low (phys_areas v) offset |> else old;
  cut_high v offset :=
    let new := v <| vma_base ::= fun b => b +64 offset |> <| vma_size ::= fun s => s -64 offset |> in
    if HasPhysicalBacking v then new <| phys_areas := split_high (phys_areas v) offset |> else new;
  can_merge := CanMergeVMA;
  join v next := v <| vma_size ::= fun s => s +64 vma_size next |>
                   <| phys_areas ::= fun areas => join_areas areas (vma_size v) (phys_areas next) |>
|}.

Definition VMAMap := list (Z * VirtualMemoryArea).

Definition CarveVMA (m : VMAMap) (virtual_addr size : Z) : option (VMAMap * Z) :=
  '(vma_handle, vma) ← floor m virtual_addr;
  if negb (vma_base vma <=? virtual_addr) then None
  else
    let start_in_vma := virtual_addr -64 vma_base vma in
    let end_in_vma := start_in_vma +64 size in
    if (start_in_vma =? 0) && (size =? vma_size vma) then Some (m, vma_handle)
    else if negb (end_in_vma <=? vma_size vma) then None
    else carve_within m vma_handle vma start_in_vma end_in_vma.

(** ** What reads the map *)

Definition IsValidGpuMapping (virtual_addr size : Z) : bool := virtual_addr +64 size <? 0x10000000000.

(** The loop of [IsValidMapping] from an iterator on: what is left to validate, or [None] at a
    gap. *)
Fixpoint validate (l : VMAMap) (addr_to_check size_to_validate : Z) : option Z :=
  match l with
  | [] => Some size_to_validate
  | (_, v) :: r =>
      if size_to_validate =? 0 then Some 0
      else
        let offset_in_vma := addr_to_check -64 vma_base v in
        let size_in_vma := Z.min (vma_size v -64 offset_in_vma) size_to_validate in
        let size_to_validate := size_to_validate -64 size_in_vma in
        let addr_to_check := addr_to_check +64 size_in_vma in
        if (0 <? size_to_validate) && match r with (_, next) :: _ => negb (addr_to_check =? vma_base next) | [] => false end
        then None
        else validate r addr_to_check size_to_validate
  end.

Definition IsValidMapping (m : VMAMap) (virtual_addr size : Z) : option bool :=
  '(end_key, end_vma) ← last m;
  '(begin_key, _) ← head m;
  if (virtual_addr <? begin_key) || (end_key +64 vma_size end_vma <=? virtual_addr) then Some false
  else if size =? 0 then Some true
  else
    '(handle, _) ← floor m virtual_addr;
    Some match validate (from m handle) virtual_addr size with Some rest => rest =? 0 | None => false end.

Definition GB1 : Z := 0x40000000.

Fixpoint clamp_loop (l : VMAMap) (clamped_size size : Z) : Z :=
  match l with
  | (_, v) :: r => if IsMapped v && (clamped_size <? size) then clamp_loop r (clamped_size +64 vma_size v) size else clamped_size
  | [] => clamped_size
  end.
Definition ClampRangeSize (m : VMAMap) (virtual_addr size : Z) : option Z :=
  if size <? GB1 then Some size else
  valid ← IsValidMapping m virtual_addr 0;
  if negb valid then None else
  '(handle, v) ← floor m virtual_addr;
  Some (Z.min (clamp_loop (List.tl (from m handle)) (vma_base v +64 vma_size v -64 virtual_addr) size) size).

(** The addresses that [impl] reports. *)
Record Space := mkSpace { SystemManagedVirtualBase : Z; UserVirtualBase : Z; UserVirtualSize : Z }.

Fixpoint search_loop (space : Space) (l : VMAMap) (size alignment : Z) : Z :=
  match l with
  | [] => NoAddr
  | (_, v) :: r =>
      if negb (IsFree v) then search_loop space r size alignment
      else
        let virtual_addr := AlignUp (vma_base v) alignment in
        if vma_base v +64 vma_size v <? virtual_addr then search_loop space r size alignment
        else if UserVirtualBase space +64 UserVirtualSize space <=? virtual_addr then NoAddr
        else if size <=? (vma_base v +64 vma_size v) -64 virtual_addr then virtual_addr
        else search_loop space r size alignment
  end.
Definition SearchFree (space : Space) (m : VMAMap) (virtual_addr size alignment : Z) : option Z :=
  let virtual_addr := Z.max virtual_addr (SystemManagedVirtualBase space) in
  valid ← IsValidMapping m virtual_addr 0;
  if negb valid then Some NoAddr else
  let virtual_addr := AlignUp virtual_addr alignment in
  '(handle, v) ← floor m virtual_addr;
  if IsFree v && Contains v virtual_addr size then Some virtual_addr
  else Some (search_loop space (List.tl (from m handle)) size alignment).

(** The code, the start, the end and the protection. *)
Definition QueryProtection (space : Space) (m : VMAMap) (addr : Z) : option (Z * option (Z * Z * Z)) :=
  if addr <? SystemManagedVirtualBase space then Some (ORBIS_KERNEL_ERROR_EACCES, None) else
  '(_, v) ← floor m addr;
  if IsFree v then Some (ORBIS_KERNEL_ERROR_EACCES, None)
  else Some (ORBIS_OK, Some (vma_base v, vma_base v +64 vma_size v, prot v)).

Definition ORBIS_KERNEL_MAXIMUM_NAME_LENGTH : nat := 32.

Record OrbisVirtualQueryInfo := mkVirtualQueryInfo {
  vq_start : Z;
  vq_end : Z;
  vq_offset : Z;
  vq_protection : Z;
  vq_memory_type : Z;
  is_flexible : bool;
  is_direct : bool;
  is_stack : bool;
  is_pooled : bool;
  is_committed : bool;
  vq_name : string
}.

Fixpoint skip_free_vmas (l : VMAMap) : VMAMap :=
  match l with (_, v) :: r => if IsFree v then skip_free_vmas r else l | [] => [] end.

(** [None] is also the failed assertion of a direct area without physical pieces. *)
Definition VirtualQuery (space : Space) (m : VMAMap) (addr flags : Z) : option (Z * option OrbisVirtualQueryInfo) :=
  let query_addr := if addr <? SystemManagedVirtualBase space then SystemManagedVirtualBase space else addr in
  if (addr <? query_addr) && (flags =? 0) then Some (ORBIS_KERNEL_ERROR_EACCES, None) else
  '(handle, _) ← floor m query_addr;
  match (if flags =? 1 then skip_free_vmas (from m handle) else from m handle) with
  | [] => Some (ORBIS_KERNEL_ERROR_EACCES, None)
  | (_, v) :: _ =>
      if IsFree v then Some (ORBIS_KERNEL_ERROR_EACCES, None) else
      '(offset, type) ← (if is_type v VMAType.Direct then
                           '(_, a) ← head (phys_areas v); Some (pa_base a, memory_type a)
                         else Some (0, 0));
      Some (ORBIS_OK, Some (mkVirtualQueryInfo (vma_base v) (vma_base v +64 vma_size v) offset
        (if is_type v VMAType.Reserved || is_type v VMAType.PoolReserved then 0 else prot v) type
        (is_type v VMAType.Flexible) (is_type v VMAType.Direct) (is_type v VMAType.Stack)
        (is_type v VMAType.PoolReserved || is_type v VMAType.Pooled) (IsMapped v)
        (String.substring 0 ORBIS_KERNEL_MAXIMUM_NAME_LENGTH (vma_name v))))
  end.

(** The code, the start and the end. *)
Definition IsStack (m : VMAMap) (addr : Z) : option (Z * option (Z * Z)) :=
  valid ← IsValidMapping m addr 0;
  if negb valid then None else
  '(_, v) ← floor m addr;
  if IsFree v then Some (ORBIS_KERNEL_ERROR_EACCES, None)
  else Some (ORBIS_OK, Some (if is_type v VMAType.Stack then (vma_base v, vma_base v +64 vma_size v) else (0, 0))).

(** * The physical pieces of an area *)

(** The physical address and attributes behind an offset. *)
Fixpoint backing (areas : PhysMap) (offset : Z) : option (Z * Z * PhysicalMemoryType.t) :=
  match areas with
  | [] => None
  | (o, a) :: r =>
      if (o <=? offset) && (offset <? o + pa_size a) then Some (pa_base a + (offset - o), memory_type a, dma_type a)
      else backing r offset
  end.

(** The pieces follow each other from one offset to another. *)
Fixpoint tiled lo (areas : PhysMap) hi : Prop :=
  match areas with
  | [] => lo = hi
  | (o, a) :: r => (o = lo /\ 0 < pa_size a /\ 0 <= pa_base a /\ pa_base a + pa_size a <= U64_MAX) /\ tiled (lo + pa_size a) r hi
  end.

Lemma tiled_le lo areas hi : tiled lo areas hi -> lo <= hi.
Proof. revert lo. induction areas as [|[o a] r IH]; intros lo; cbn; [lia|]. intros ((? & ? & ?) & Hr%IH). lia. Qed.

Lemma tiled_app lo l r hi : tiled lo (l ++ r) hi <-> exists mid, tiled lo l mid /\ tiled mid r hi.
Proof.
  revert lo. induction l as [|[o a] l IH]; intros lo; cbn.
  - split; [by exists lo|]. by intros (mid & -> & ?).
  - rewrite IH. split; [intros (Ha & mid & ? & ?); by exists mid|intros (mid & (Ha & ?) & ?)]. split; [done|]. by exists mid.
Qed.

Lemma backing_app l r x : backing (l ++ r) x = match backing l x with Some p => Some p | None => backing r x end.
Proof. induction l as [|[o a] l IH]; cbn; [done|]. by destruct (_ && _). Qed.

Lemma backing_out lo areas hi x : tiled lo areas hi -> x < lo \/ hi <= x -> backing areas x = None.
Proof.
  revert lo. induction areas as [|[o a] r IH]; intros lo; cbn; [done|]. intros ((-> & ? & ?) & Hr) Hx.
  pose proof (tiled_le _ _ _ Hr). destruct (Z.leb_spec lo x), (Z.ltb_spec x (lo + pa_size a)); cbn; try lia; apply (IH _ Hr); lia.
Qed.

Lemma tiled_last lo l o a hi : tiled lo (l ++ [(o, a)]) hi -> tiled lo l o /\ 0 < pa_size a /\ o + pa_size a = hi.
Proof. intros (mid & Hl & Ha)%tiled_app. cbn in Ha. destruct Ha as ((-> & ? & _) & <-). by split_and!. Qed.

(** Writing at the end. *)
Lemma put_tiled lo areas hi a : tiled lo areas hi -> put areas hi a = areas ++ [(hi, a)].
Proof.
  revert lo. induction areas as [|[o b] r IH]; intros lo; cbn; [done|]. intros ((-> & ? & ?) & Hr).
  pose proof (tiled_le _ _ _ Hr). destruct (Z.ltb_spec hi lo); [lia|]. destruct (Z.eqb_spec hi lo); [lia|]. by rewrite (IH _ Hr).
Qed.

(** The parts of one piece before and after an offset. *)
Lemma split_low_tiled areas hi cut : tiled 0 areas hi -> hi <= U64_MAX -> 0 <= cut <= hi ->
  tiled 0 (split_low areas cut) cut /\ (forall x, x < cut -> backing (split_low areas cut) x = backing areas x).
Proof.
  intros Ht Hhi Hcut. unfold split_low.
  match goal with |- context [fold_left ?f areas []] => set (step := f) end.
  assert (Hgen : forall l acc lo, tiled 0 acc (Z.min lo cut) -> tiled lo l hi -> 0 <= lo ->
    let res := fold_left step l acc in tiled 0 res cut /\ (forall x, x < cut -> backing res x = backing (acc ++ l) x)); [|by apply (Hgen areas [] 0); [cbn; lia|..]].
  induction l as [|[o a] l IH]; intros acc lo Hacc Hl Hlo.
  { cbn in Hl. subst lo. replace (Z.min hi cut) with cut in Hacc by lia. cbn. by rewrite app_nil_r. }
  destruct Hl as ((-> & Hs & Hb & He) & Hl). pose proof (tiled_le _ _ _ Hl). cbn [fold_left].
  assert (Hstep : tiled 0 (step acc (lo, a)) (Z.min (lo + pa_size a) cut) /\
    (forall x, x < cut -> backing (step acc (lo, a)) x = backing (acc ++ [(lo, a)]) x)).
  { unfold step. rewrite wrap64_small by u64_lia. destruct (Z.leb_spec (lo + pa_size a) cut).
    - replace (Z.min lo cut) with lo in Hacc by lia. rewrite (put_tiled _ _ _ _ Hacc). split; [|done]. apply tiled_app.
      exists lo. split; [done|]. cbn. split_and!; (done || lia).
    - destruct (Z.ltb_spec lo cut).
      + replace (Z.min lo cut) with lo in Hacc by lia. rewrite wrap64_small by u64_lia. rewrite (put_tiled _ _ _ _ Hacc). split.
        * apply tiled_app. exists lo. split; [done|]. cbn. split_and!; (done || lia).
        * intros x Hx. rewrite !backing_app. destruct (backing acc x); [done|]. cbn.
          replace (lo + (cut - lo)) with cut by lia. by destruct (Z.leb_spec lo x), (Z.ltb_spec x cut), (Z.ltb_spec x (lo + pa_size a)); try lia.
      + split; [by replace (Z.min (lo + pa_size a) cut) with (Z.min lo cut) by lia|]. intros x Hx. rewrite backing_app.
        destruct (backing acc x); [done|]. cbn. by destruct (Z.leb_spec lo x); [lia|]. }
  destruct Hstep as [Hst Hsb]. destruct (IH (step acc (lo, a)) (lo + pa_size a)) as [IHt IHb]; [done|done|lia|]. split; [done|].
  intros x Hx. rewrite IHb, !backing_app, Hsb, backing_app by done. cbn. destruct (backing acc x); [done|]. by destruct (_ && _).
Qed.

Lemma split_high_tiled areas hi cut : tiled 0 areas hi -> hi <= U64_MAX -> 0 <= cut <= hi ->
  tiled 0 (split_high areas cut) (hi - cut) /\ (forall x, cut <= x -> backing (split_high areas cut) (x - cut) = backing areas x).
Proof.
  intros Ht Hhi Hcut. unfold split_high.
  match goal with |- context [fold_left ?f areas []] => set (step := f) end.
  assert (Hgen : forall l acc lo done_, tiled 0 acc (Z.max 0 (lo - cut)) -> tiled lo l hi -> 0 <= lo ->
    (forall x, cut <= x -> backing acc (x - cut) = backing done_ x) ->
    let res := fold_left step l acc in tiled 0 res (hi - cut) /\ (forall x, cut <= x -> backing res (x - cut) = backing (done_ ++ l) x));
    [|by apply (Hgen areas [] 0 []); [cbn; lia|..]].
  induction l as [|[o a] l IH]; intros acc lo d Hacc Hl Hlo Hd.
  { cbn in Hl. subst lo. replace (Z.max 0 (hi - cut)) with (hi - cut) in Hacc by lia. cbn. by rewrite app_nil_r. }
  destruct Hl as ((-> & Hs & Hb & He) & Hl). pose proof (tiled_le _ _ _ Hl). cbn [fold_left].
  assert (Hstep : tiled 0 (step acc (lo, a)) (Z.max 0 (lo + pa_size a - cut)) /\
    (forall x, cut <= x -> backing (step acc (lo, a)) (x - cut) = backing (d ++ [(lo, a)]) x)).
  { unfold step. rewrite (wrap64_small (lo + pa_size a)) by u64_lia. destruct (Z.ltb_spec lo cut), (Z.leb_spec cut lo); try lia.
    - cbn [andb]. replace (Z.max 0 (lo - cut)) with 0 in Hacc by lia. destruct (Z.ltb_spec cut (lo + pa_size a)).
      + rewrite !(wrap64_small (cut - lo)) by u64_lia. rewrite (put_tiled _ _ _ _ Hacc). split.
        * apply tiled_app. exists 0. split; [done|]. cbn. rewrite !wrap64_small by u64_lia. split_and!; (done || lia).
        * intros x Hx. rewrite !backing_app, Hd by done. destruct (backing d x); [done|]. cbn. rewrite !wrap64_small by u64_lia.
          destruct (Z.leb_spec 0 (x - cut)), (Z.ltb_spec (x - cut) (0 + (pa_size a - (cut - lo)))), (Z.leb_spec lo x), (Z.ltb_spec x (lo + pa_size a)); try lia; cbn; [|done].
          do 3 f_equal. lia.
      + split; [by replace (Z.max 0 (lo + pa_size a - cut)) with 0 by lia|]. intros x Hx. rewrite Hd, backing_app by done.
        destruct (backing d x); [done|]. cbn. by destruct (Z.leb_spec lo x), (Z.ltb_spec x (lo + pa_size a)); try lia.
    - cbn [andb]. replace (Z.max 0 (lo - cut)) with (lo - cut) in Hacc by lia. rewrite wrap64_small by u64_lia. rewrite (put_tiled _ _ _ _ Hacc). split.
      + apply tiled_app. exists (lo - cut). split; [done|]. cbn. split_and!; (done || lia).
      + intros x Hx. rewrite !backing_app, Hd by done. destruct (backing d x); [done|]. cbn.
        destruct (Z.leb_spec (lo - cut) (x - cut)), (Z.ltb_spec (x - cut) (lo - cut + pa_size a)), (Z.leb_spec lo x), (Z.ltb_spec x (lo + pa_size a)); try lia; cbn; [|done..].
        do 3 f_equal. lia. }
  destruct Hstep as [Hst Hsb]. destruct (IH (step acc (lo, a)) (lo + pa_size a) (d ++ [(lo, a)])) as [IHt IHb]; [done|done|lia|done|]. split; [done|].
  intros x Hx. by rewrite IHb, <- app_assoc by done.
Qed.

Lemma join_areas_tiled areas mid next hi : tiled 0 areas mid -> tiled 0 next (hi - mid) -> hi <= U64_MAX ->
  tiled 0 (join_areas areas mid next) hi /\
  (forall x, x < mid -> backing (join_areas areas mid next) x = backing areas x) /\
  (forall x, mid <= x -> backing (join_areas areas mid next) x = backing next (x - mid)).
Proof.
  intros Ha Hn Hhi. unfold join_areas. pose proof (tiled_le _ _ _ Ha) as Hm0. pose proof (tiled_le _ _ _ Hn) as Hnm.
  match goal with |- context [fold_left ?f next areas] => set (step := f) end.
  assert (Hgen : forall l acc lo d, tiled 0 acc (mid + lo) -> tiled lo l (hi - mid) -> 0 <= lo ->
    (forall x, x < mid -> backing acc x = backing areas x) -> (forall x, mid <= x -> backing acc x = backing d (x - mid)) ->
    let res := fold_left step l acc in tiled 0 res hi /\ (forall x, x < mid -> backing res x = backing areas x) /\
      (forall x, mid <= x -> backing res x = backing (d ++ l) (x - mid))).
  - induction l as [|[o a] l IH]; intros acc lo d Hacc Hl Hlo Hlow Hd; cbn zeta; cbn [fold_left].
    { cbn in Hl. subst lo. replace (mid + (hi - mid)) with hi in Hacc by lia. by rewrite app_nil_r. }
    destruct Hl as ((-> & Hs & Hb & He) & Hl). pose proof (tiled_le _ _ _ Hl).
    assert (step acc (lo, a) = acc ++ [(mid + lo, a)]) as -> by (unfold step; cbn; rewrite wrap64_small by u64_lia; by eapply put_tiled).
    replace (d ++ (lo, a) :: l) with ((d ++ [(lo, a)]) ++ l) by (by rewrite <- app_assoc). apply (IH _ (lo + pa_size a)); [|done|lia| |].
    + apply tiled_app. exists (mid + lo). split; [done|]. cbn. split_and!; (done || lia).
    + intros x Hx. rewrite backing_app, Hlow by done. destruct (backing areas x); [done|]. cbn. by destruct (Z.leb_spec (mid + lo) x); [lia|].
    + intros x Hx. rewrite !backing_app, Hd by done. destruct (backing d (x - mid)); [done|]. cbn.
      destruct (Z.leb_spec (mid + lo) x), (Z.ltb_spec x (mid + lo + pa_size a)), (Z.leb_spec lo (x - mid)), (Z.ltb_spec (x - mid) (lo + pa_size a)); try lia; cbn; [|done..].
      do 3 f_equal. lia.
  - apply (Hgen next areas 0 []); [by rewrite Z.add_0_r|done|lia|done|].
    intros x Hx. cbn. by apply (backing_out _ _ _ _ Ha); right.
Qed.

(** * What the map stands for *)

(** What is at an address: the use, the protection, the name, whether it may be merged, and the
    physical memory behind it. *)
Record page := mkPage {
  pg_type : VMAType.t;
  pg_prot : Z;
  pg_name : string;
  pg_apart : bool;
  pg_backing : option (Z * Z * PhysicalMemoryType.t)
}.

(** The pieces cover an area that has physical memory; others have none. *)
Definition vma_ok (v : VirtualMemoryArea) : Prop :=
  if HasPhysicalBacking v then tiled 0 (phys_areas v) (vma_size v) else phys_areas v = [].

Definition page_of (v : VirtualMemoryArea) (x : Z) : page :=
  mkPage (vma_type v) (prot v) (vma_name v) (disallow_merge v) (backing (phys_areas v) (x - vma_base v)).

Lemma can_merge_vma v w : CanMergeVMA v w = true ->
  vma_base v +64 vma_size v = vma_base w /\ prot v = prot w /\ vma_type v = vma_type w /\ vma_name v = vma_name w /\
  disallow_merge v = false /\ disallow_merge w = false.
Proof.
  unfold CanMergeVMA. destruct (disallow_merge v), (disallow_merge w); try done. cbn.
  destruct (Z.eqb_spec (vma_base v +64 vma_size v) (vma_base w)); [|done]. cbn. destruct (_ && _ && _); [done|].
  destruct (Z.eqb_spec (prot v) (prot w)); [|done]. cbn. case_bool_decide; [|done]. cbn. rewrite bool_decide_eq_true. done.
Qed.

#[export] Instance virt_laws : AreaLaws VirtualMemoryArea page.
Proof.
  refine {| view := page_of; area_ok := vma_ok |}.
  - intros v o. unfold area_end. cbn. intros Hb Ho He. destruct (HasPhysicalBacking v); cbn; unwrap; split_and!; lia.
  - intros v o. unfold vma_ok, area_end. cbn. intros Hok Hb Ho He. destruct (HasPhysicalBacking v) eqn:Hpb.
    + destruct (split_low_tiled (phys_areas v) (vma_size v) o Hok) as [Tl Bl]; [u64_lia|lia|].
      destruct (split_high_tiled (phys_areas v) (vma_size v) o Hok) as [Th Bh]; [u64_lia|lia|].
      assert (HasPhysicalBacking (v <| vma_size := o |> <| phys_areas := split_low (phys_areas v) o |>) = true) as -> by done.
      match goal with |- context [if HasPhysicalBacking ?w then tiled 0 (phys_areas ?w) _ else _] =>
        replace (HasPhysicalBacking w) with true by done end.
      unfold page_of. cbn. unwrap. split_and!; [done|done| |].
      * intros x Hx. f_equal. apply Bl. lia.
      * intros x Hx. f_equal. rewrite <- (Bh (x - vma_base v)) by lia. f_equal. lia.
    + assert (HasPhysicalBacking (v <| vma_size := o |>) = false) as -> by done.
      match goal with |- context [if HasPhysicalBacking ?w then _ else _] => replace (HasPhysicalBacking w) with false by done end.
      unfold page_of. cbn. rewrite Hok. by split_and!.
  - intros v w. unfold area_end. cbn. intros Hv Hsv Hsw He Hvw (Hb & _)%can_merge_vma. rewrite wrap64_small in Hb by u64_lia. unwrap. split_and!; lia.
  - intros v w. unfold vma_ok, area_end. cbn. intros Hok Hokw Hv Hsv Hsw He Hvw Hm. destruct (can_merge_vma v w Hm) as (Hb & Hp & Ht & Hn & Hd & Hd').
    rewrite wrap64_small in Hb by u64_lia.
    assert (Hpb : HasPhysicalBacking w = HasPhysicalBacking v) by (unfold HasPhysicalBacking, is_type; by rewrite Ht).
    set (j := v <| vma_size ::= _ |> <| phys_areas ::= _ |>). assert (Hpj : HasPhysicalBacking j = HasPhysicalBacking v) by done.
    rewrite Hpj, (wrap64_small (vma_size v + vma_size w)) by u64_lia. rewrite Hpb in Hokw. unfold page_of. change (vma_base j) with (vma_base v). change (vma_type j) with (vma_type v).
    change (prot j) with (prot v). change (vma_name j) with (vma_name v). change (disallow_merge j) with (disallow_merge v).
    change (phys_areas j) with (join_areas (phys_areas v) (vma_size v) (phys_areas w)). rewrite <- Ht, <- Hp, <- Hn, Hd, Hd'.
    destruct (HasPhysicalBacking v).
    + destruct (join_areas_tiled (phys_areas v) (vma_size v) (phys_areas w) (vma_size v + vma_size w) Hok) as (Tj & Bl & Bh);
        [by replace (vma_size v + vma_size w - vma_size v) with (vma_size w) by lia|u64_lia|].
      split_and!; [done| |].
      * intros x Hx. f_equal. apply Bl. lia.
      * intros x Hx. f_equal. rewrite Bh by lia. f_equal. lia.
    + rewrite Hok, Hokw. done.
Defined.

Definition page_at (m : VMAMap) (x : Z) : option page := view_at m x.
Definition type_at (m : VMAMap) (x : Z) : option VMAType.t := pg_type <$> page_at m x.
Definition mapped_free (m : VMAMap) (x : Z) : Prop := type_at m x = Some VMAType.Free.

(** A map in use: areas in order below [hi], disjoint, well-formed. *)
Definition virt_ok (hi : Z) (m : VMAMap) : Prop := hi <= U64_MAX /\ laid 0 m hi.

Lemma carve_vma_spec hi m addr size v : virt_ok hi m -> 0 <= addr -> area_at m addr = Some v -> 0 < size -> addr + size <= area_end v ->
  exists l r low mid high, m = l ++ (vma_base v, v) :: r /\ carved v (vma_base v) (addr - vma_base v) size low mid high /\
    let m' := l ++ low ++ (addr, mid) :: high ++ r in
    CarveVMA m addr size = Some (m', addr) /\ virt_ok hi m' /\ (forall x, page_at m' x = page_at m x).
Proof.
  intros [Hhi Hm] Haddr Hv Hs Hfit. destruct (locate _ _ _ _ _ Hm Hv) as (l & r & -> & Hx & Hfl).
  pose proof Hm as (Hl & _ & Hsv & _ & Hr)%laid_app. apply laid_le in Hl, Hr. unfold area_end in *. cbn in Hl, Hr, Hx, Hfit, Hfl, Hsv.
  destruct (carve_spec 0 l (vma_base v) v r hi (addr - vma_base v) size) as (low & mid & high & Hc & E & Hl' & Hv');
    [lia|done|done|lia|done|cbn; lia|].
  exists l, r, low, mid, high. split; [done|]. split; [done|].
  replace (vma_base v + (addr - vma_base v)) with addr in * by lia. cbn. split_and!; [|by split|done].
  unfold CarveVMA. rewrite Hfl. cbn [mbind option_bind]. unwrap. destruct (Z.leb_spec (vma_base v) addr); [|lia]. cbn [negb].
  destruct (Z.eqb_spec (addr - vma_base v) 0) as [E0|E0], (Z.eqb_spec size (vma_size v)) as [Es|Es]; cbn [andb].
  - (* the whole area *)
    rewrite <- E. unfold carve_within. cbn [area_size virt_area]. by rewrite E0, Es, Z.add_0_l, !Z.eqb_refl.
  - destruct (Z.leb_spec (addr - vma_base v + size) (vma_size v)); [|lia]. exact E.
  - destruct (Z.leb_spec (addr - vma_base v + size) (vma_size v)); [|lia]. exact E.
  - destruct (Z.leb_spec (addr - vma_base v + size) (vma_size v)); [|lia]. exact E.
Qed.

(** ** Valid ranges *)

Definition covered (m : VMAMap) (addr size : Z) : Prop := forall x, addr <= x < addr + size -> is_Some (area_at m x).

(** An address strictly inside a gap: it and the one before are in no area, but there are areas
    on both sides. *)
Definition in_gap (m : VMAMap) (addr : Z) : Prop :=
  area_at m addr = None /\ area_at m (addr - 1) = None /\
  exists x y, x < addr < y /\ is_Some (area_at m x) /\ is_Some (area_at m y).

Lemma validate_zero l addr : validate l addr 0 = Some 0.
Proof. by destruct l as [|[? ?] ?]. Qed.

Lemma validate_cons k v r addr size : validate ((k, v) :: r) addr size =
  if size =? 0 then Some 0
  else
    let s := Z.min (vma_size v -64 (addr -64 vma_base v)) size in
    if (0 <? size -64 s) && match r with (_, next) :: _ => negb (addr +64 s =? vma_base next) | [] => false end
    then None else validate r (addr +64 s) (size -64 s).
Proof. done. Qed.

Lemma validate_spec l lo hi k v r cur rem : hi <= U64_MAX -> 0 <= lo -> l = (k, v) :: r -> laid lo l hi ->
  vma_base v <= cur < area_end v -> 0 < rem -> cur + rem <= U64_MAX ->
  validate l cur rem = Some 0 <-> covered l cur rem.
Proof.
  intros Hhi Hlo -> Hl. revert lo k v cur rem Hlo Hl. induction r as [|[k2 n] r IH]; intros lo k v cur rem Hlo Hl Hcur Hrem Hfit.
  all: pose proof Hl as ((Hk & Hb & Hs & _) & Hr); pose proof (laid_le _ _ _ Hr) as Hend; unfold area_end in *; cbn [area_base area_size virt_area] in *.
  all: assert (Hat : forall x, vma_base v <= x < vma_base v + vma_size v -> forall q, area_at ((k, v) :: q) x = Some v)
    by (intros x Hx q; cbn [area_at]; replace (inside v x) with true; [done|symmetry; apply inside_spec; unfold area_end; cbn; lia]).
  all: rewrite validate_cons; destruct (Z.eqb_spec rem 0); [lia|]; cbn zeta; rewrite (wrap64_small (cur - vma_base v)) by u64_lia;
    rewrite (wrap64_small (vma_size v - (cur - vma_base v))) by u64_lia.
  all: set (s := Z.min (vma_size v - (cur - vma_base v)) rem); rewrite ?(wrap64_small (rem - s)), ?(wrap64_small (cur + s)) by u64_lia.
  all: destruct (Z.ltb_spec 0 (rem - s)) as [Hmore|Hdone]; cbn [andb].
  2, 4: replace (rem - s) with 0 by lia; rewrite ?validate_zero; split; [intros _ x Hx; rewrite Hat by lia; by eexists|done].
  - split; [intros [= ?]; lia|]. intros Hcov. destruct (Hcov (vma_base v + vma_size v)) as [w Hw]; [lia|].
    cbn [area_at] in Hw. unfold inside, area_end in Hw. cbn [area_base area_size virt_area] in Hw. by rewrite Z.ltb_irrefl, andb_false_r in Hw.
  - pose proof Hr as ((Hk2 & Hb2 & Hs2 & Hok2) & Hr2). cbn [area_base area_size virt_area] in Hb2, Hs2, Hk2.
    assert (Hout : forall x, vma_base v + vma_size v <= x -> area_at ((k, v) :: (k2, n) :: r) x = area_at ((k2, n) :: r) x).
    { intros x Hx. cbn [area_at]. unfold inside at 1, area_end. cbn [area_base area_size virt_area].
      destruct (Z.ltb_spec x (vma_base v + vma_size v)); [lia|]. by rewrite andb_false_r. }
    replace (cur + s) with (vma_base v + vma_size v) by lia. destruct (Z.eqb_spec (vma_base v + vma_size v) (vma_base n)) as [E|E]; cbn [negb].
    + rewrite (IH (vma_base v + vma_size v) k2 n) by (done || lia). unfold covered. split; intros Hcov x Hx.
      * destruct (Z.lt_ge_cases x (vma_base v + vma_size v)); [rewrite Hat by lia; by eexists|]. rewrite Hout by done. apply Hcov. lia.
      * rewrite <- Hout by lia. apply Hcov. lia.
    + split; [done|]. intros Hcov. destruct (Hcov (vma_base v + vma_size v)) as [w Hw]; [lia|].
      rewrite Hout in Hw by lia. rewrite (area_at_out (vma_base n) ((k2, n) :: r) hi) in Hw; [done| |lia].
      split; [|done]. cbn. split_and!; (done || lia).
Qed.

Lemma last_area_end lo m hi k v : laid lo m hi -> last m = Some (k, v) -> laid lo m (area_end v).
Proof.
  intros Hl Hlast. apply last_Some in Hlast as [l ->]. apply laid_app in Hl as (Hll & Hk & Hs & Hok & _).
  apply laid_app. split_and!; try done. cbn. lia.
Qed.

Lemma laid_head lo k v r hi : laid lo ((k, v) :: r) hi -> laid k ((k, v) :: r) hi /\ vma_base v = k /\ lo <= k.
Proof. intros ((? & ? & ? & ?) & ?). split_and!; (done || lia). Qed.

(** The first and the last area, and the range they span. *)
Lemma map_span hi m : virt_ok hi m -> m <> [] -> exists vb ve,
  head m = Some (vma_base vb, vb) /\ last m = Some (vma_base ve, ve) /\ (vma_base ve, ve) ∈ m /\
  0 <= vma_base vb /\ vma_base vb <= vma_base ve /\ 0 < vma_size ve /\ vma_base ve + vma_size ve <= hi /\
  laid (vma_base vb) m (vma_base ve + vma_size ve).
Proof.
  intros [Hhi Hm] Hne. destruct (last m) as [[ke ve]|] eqn:Hlast; [|by apply last_None in Hlast].
  pose proof (last_area_end _ _ _ _ _ Hm Hlast) as Hme. pose proof Hlast as [l E]%last_Some.
  assert (Hin : (ke, ve) ∈ m) by (rewrite E, elem_of_app, list_elem_of_singleton; by right).
  destruct (laid_area _ _ _ _ _ Hm Hin) as (<- & ? & ? & _ & ?). destruct m as [|[kb vb] m']; [done|].
  apply laid_head in Hme as (Hme & <- & Hb). destruct (laid_area _ _ _ _ _ Hme Hin) as (_ & Hle & _).
  exists vb, ve. by split_and!.
Qed.

Lemma entry_covers m lo hi v x : laid lo m hi -> (vma_base v, v) ∈ m -> vma_base v <= x < vma_base v + vma_size v -> area_at m x = Some v.
Proof.
  intros Hm (l & r & ->)%list_elem_of_split Hx. rewrite (area_at_mid _ _ _ _ _ _ _ Hm).
  by replace (inside v x) with true by (symmetry; by apply inside_spec).
Qed.

(** The area the search starts from, the areas after it, and what they say of the addresses from
    it on. *)
Lemma floor_suffix hi m addr vb : virt_ok hi m -> head m = Some (vma_base vb, vb) -> vma_base vb <= addr ->
  exists v r, floor m addr = Some (vma_base v, v) /\ from m (vma_base v) = (vma_base v, v) :: r /\ (vma_base v, v) ∈ m /\
    0 <= vma_base v <= addr /\ 0 < vma_size v /\ vma_base v + vma_size v <= hi /\ laid (vma_base v) ((vma_base v, v) :: r) hi /\
    (forall x, vma_base v <= x -> area_at m x = area_at ((vma_base v, v) :: r) x) /\
    (forall x, vma_base v + vma_size v <= x <= addr -> area_at m x = None).
Proof.
  intros [Hhi Hm] Hhead Haddr. destruct (floor m addr) as [[k v]|] eqn:Hfl.
  2: { destruct m as [|[? ?] m']; [done|]. injection Hhead as -> ->. cbn in Hfl. destruct (Z.ltb_spec addr (vma_base vb)); [lia|]. by destruct (floor m' addr). }
  destruct (floor_Some _ _ _ _ _ _ Hm Hfl) as (l & r & E2 & <- & Hka & Hnext). cbn [area_base virt_area] in *.
  assert (Hin : (vma_base v, v) ∈ m) by (rewrite E2, elem_of_app, elem_of_cons; tauto).
  destruct (laid_area _ _ _ _ _ Hm Hin) as (_ & Hv0 & Hvs & Hvok & Hve). unfold area_end in Hve. cbn in Hvs, Hve.
  pose proof Hm as Hm2. rewrite E2 in Hm2. pose proof Hm2 as (_ & _ & _ & _ & Hr)%laid_app.
  assert (Hsuffix : forall x, vma_base v <= x -> area_at m x = area_at ((vma_base v, v) :: r) x).
  { intros x Hx. rewrite E2, (area_at_mid _ _ _ _ _ _ _ Hm2). cbn [area_at]. destruct (inside v x); [done|]. by destruct (Z.ltb_spec x (vma_base v)); [lia|]. }
  exists v, r. split_and!; try done; try lia.
  - rewrite E2. apply (from_app 0 _ _ _ _ hi). rewrite <- E2. by apply laid_ordered.
  - intros x Hx. rewrite Hsuffix by lia. cbn [area_at]. unfold inside, area_end. cbn [area_base area_size virt_area].
    destruct (Z.ltb_spec x (vma_base v + vma_size v)); [lia|]. rewrite andb_false_r. destruct r as [|[k2 n] r]; [done|].
    apply laid_head in Hr as (Hr & _). apply (area_at_out _ _ _ _ Hr). lia.
Qed.

(** From an area that ends at or before the address, the search stops at once, unless the address
    is strictly past the end. *)
Lemma validate_past v r hi addr size : laid (vma_base v) ((vma_base v, v) :: r) hi -> 0 <= vma_base v -> hi <= U64_MAX ->
  vma_base v + vma_size v <= addr -> 0 < size -> addr + size <= U64_MAX ->
  match validate ((vma_base v, v) :: r) addr size with Some rest => rest =? 0 | None => false end =
    negb (addr =? vma_base v + vma_size v) \/ exists w, area_at r addr = Some w.
Proof.
  intros ((_ & _ & Hs & _) & Hr) Hv0 Hhi Hgap Hsz Hfit. pose proof (laid_le _ _ _ Hr) as Hle. unfold area_end in *. cbn [area_base area_size virt_area] in *.
  rewrite validate_cons. destruct (Z.eqb_spec size 0); [lia|]. cbn zeta. rewrite (wrap64_small (addr - vma_base v)) by u64_lia.
  destruct (Z.eqb_spec addr (vma_base v + vma_size v)) as [->|Ea].
  - replace (vma_size v - (vma_base v + vma_size v - vma_base v)) with 0 by lia. change (wrap64 0) with 0. replace (Z.min 0 size) with 0 by lia.
    rewrite Z.sub_0_r, Z.add_0_r, (wrap64_small size), (wrap64_small (vma_base v + vma_size v)) by u64_lia. destruct (Z.ltb_spec 0 size); [|lia].
    cbn [andb]. destruct r as [|[k2 w] r]; [left; cbn; by destruct (Z.eqb_spec size 0); [lia|]|].
    destruct Hr as ((_ & Hk & Hw & _) & _). cbn in Hk, Hw. destruct (Z.eqb_spec (vma_base v + vma_size v) (vma_base w)) as [E|]; [|by left].
    right. exists w. cbn. replace (inside w _) with true; [done|]. symmetry. apply inside_spec. unfold area_end. cbn. lia.
  - left. rewrite (wrap64_sub_borrow (vma_size v) (addr - vma_base v)) by u64_lia. replace (Z.min _ size) with size by u64_lia. rewrite Z.sub_diag.
    change (wrap64 0) with 0. cbn [Z.ltb Z.compare andb]. by rewrite validate_zero.
Qed.

Lemma IsValidMapping_spec hi m addr size : virt_ok hi m -> m <> [] -> 0 <= addr -> 0 < size -> addr + size <= U64_MAX ->
  exists b, IsValidMapping m addr size = Some b /\ (b = true <-> covered m addr size \/ in_gap m addr).
Proof.
  intros Hok Hne Haddr Hs Hfit. destruct (map_span _ _ Hok Hne) as (vb & ve & Hhead & Hlast & Hin & Hb0 & Hbe & Hse & Hehi & Hspan).
  pose proof Hok as [Hhi Hm]. unfold IsValidMapping. rewrite Hlast, Hhead. cbn [mbind option_bind]. rewrite (wrap64_small (_ + _)) by u64_lia.
  assert (Hout : forall x, x < vma_base vb \/ vma_base ve + vma_size ve <= x -> area_at m x = None) by (intros x Hx; by apply (area_at_out _ _ _ _ Hspan)).
  assert (Hfirst : covered m addr size -> exists w, area_at m addr = Some w) by (intros Hc; apply Hc; lia).
  destruct (Z.ltb_spec addr (vma_base vb)) as [Hlow|Hlow]; cbn [orb].
  { exists false. do 2 (split; [done|]). intros [[w Hw]%Hfirst|(_ & _ & x & y & Hxy & [w Hw] & _)]; rewrite Hout in Hw by lia; done. }
  destruct (Z.leb_spec (vma_base ve + vma_size ve) addr) as [Hhigh|Hhigh].
  { exists false. do 2 (split; [done|]). intros [[w Hw]%Hfirst|(_ & _ & x & y & Hxy & _ & [w Hw])]; rewrite Hout in Hw by lia; done. }
  destruct (Z.eqb_spec size 0); [lia|]. destruct (floor_suffix _ _ _ _ Hok Hhead Hlow) as (v & r & -> & Hfrom & Hvin & Hv & Hvs & Hvhi & Hl & Hsuf & Hgap).
  cbn [mbind option_bind]. rewrite Hfrom. eexists. split; [done|].
  assert (Hcs : covered m addr size <-> covered ((vma_base v, v) :: r) addr size)
    by (unfold covered; split; intros Hc x Hx; [rewrite <- Hsuf by lia|rewrite Hsuf by lia]; by apply Hc).
  destruct (Z.lt_ge_cases addr (vma_base v + vma_size v)) as [Hinside|Hpast].
  - pose proof (validate_spec _ _ hi _ v r addr size Hhi (proj1 Hv) eq_refl Hl) as Hval. unfold area_end in Hval. cbn [area_base area_size virt_area] in Hval.
    rewrite Hcs, <- Hval by lia. assert (Hng : ~ in_gap m addr) by (intros (Hn & _); by rewrite (entry_covers _ _ _ v _ Hm Hvin) in Hn by lia).
    destruct (validate _ _ _) as [rest|]; [rewrite Z.eqb_eq|]; split; [by intros ->; left|by intros [[= ?]|?]|done|by intros [?|?]].
  - assert (Hnone : area_at m addr = None) by (apply Hgap; lia).
    destruct (validate_past v r hi addr size Hl (proj1 Hv) Hhi Hpast Hs Hfit) as [->|[w Hw]].
    2: { rewrite Hsuf in Hnone by lia. cbn in Hnone. destruct (inside v addr); [done|]. by rewrite Hw in Hnone. }
    rewrite negb_true_iff, Z.eqb_neq. split.
    + intros Hne2. right. split_and!; [done|apply Hgap; lia|]. exists (vma_base v), (vma_base ve). split_and!.
      * lia.
      * destruct (Z.lt_ge_cases addr (vma_base ve)); [done|]. exfalso. by rewrite (entry_covers _ _ _ ve _ Hm Hin) in Hnone by lia.
      * exists v. apply (entry_covers _ _ _ _ _ Hm Hvin). lia.
      * exists ve. apply (entry_covers _ _ _ _ _ Hm Hin). lia.
    + intros [[w Hw]%Hfirst|(_ & Hn & _)] ->; [by rewrite Hnone in Hw|]. by rewrite (entry_covers _ _ _ v _ Hm Hvin) in Hn by lia.
Qed.

(** C21. [IsValidMapping] says whether the map holds every address of a range, with one exception: a
    range that begins strictly inside a gap of the map is always valid. *)
Theorem IsValidMapping_exact hi m addr size : virt_ok hi m -> m <> [] -> 0 <= addr -> 0 < size -> addr + size <= U64_MAX ->
  exists b, IsValidMapping m addr size = Some b /\ (b = true <-> covered m addr size \/ in_gap m addr).
Proof. apply IsValidMapping_spec. Qed.

Lemma valid_address hi m addr vb ve : virt_ok hi m -> head m = Some (vma_base vb, vb) -> last m = Some (vma_base ve, ve) ->
  vma_base ve + vma_size ve <= hi -> 0 <= vma_base ve -> 0 < vma_size ve ->
  IsValidMapping m addr 0 = Some (bool_decide (vma_base vb <= addr < vma_base ve + vma_size ve)).
Proof.
  intros [Hhi _] Hhead Hlast ? ? ?. unfold IsValidMapping. rewrite Hhead, Hlast. cbn [mbind option_bind].
  rewrite wrap64_small by u64_lia.
  destruct (Z.ltb_spec addr (vma_base vb)), (Z.leb_spec (vma_base ve + vma_size ve) addr); cbn [orb]; case_bool_decide; (done || lia).
Qed.

(** A free area with place for [size] bytes at an address. *)
Definition room (m : VMAMap) (addr size : Z) : Prop :=
  exists v, (vma_base v, v) ∈ m /\ vma_type v = VMAType.Free /\ vma_base v <= addr /\ addr + size <= vma_base v + vma_size v.

(** What a search from an address on promises: the first aligned place, or none below [top]. *)
Definition first_place (l : VMAMap) (lo top size alignment a : Z) : Prop :=
  (aligned alignment a /\ lo <= a /\ room l a size /\ forall b, aligned alignment b -> lo <= b < a -> ~ room l b size) \/
  (a = NoAddr /\ forall b, aligned alignment b -> lo <= b < top -> ~ room l b size).

(** An area that does not serve can be left out. *)
Lemma first_place_skip lo k v r hi top size alignment a : laid lo ((k, v) :: r) hi ->
  (forall b, aligned alignment b -> vma_type v = VMAType.Free -> vma_base v <= b -> b + size <= vma_base v + vma_size v -> False) ->
  first_place r (vma_base v + vma_size v) top size alignment a -> first_place ((k, v) :: r) lo top size alignment a.
Proof.
  intros ((Hk & Hb & Hv & _) & Hr) Hno Hcase. unfold area_end in *. cbn [area_base area_size virt_area] in *.
  assert (Hroom : forall b, aligned alignment b -> room ((k, v) :: r) b size -> vma_base v + vma_size v <= b /\ room r b size).
  { intros b Hab (w & [[= Ek ->]|Hw]%elem_of_cons & Hfr & Hlow & Hup); [by destruct (Hno b)|].
    destruct (laid_area _ _ _ _ _ Hr Hw) as (_ & Hge & _). split; [lia|by exists w]. }
  destruct Hcase as [(Hal & Hge & (w & Hw & Hrest) & Hmin)|(-> & Hnone)]; [left|right].
  - split_and!; [done|lia| |]; [exists w; split; [by right|done]|]. intros b Hab Hlt [Hlow Hrm]%Hroom; [|done]. apply (Hmin b Hab); [lia|done].
  - split; [done|]. intros b Hab Hlt [Hlow Hrm]%Hroom; [|done]. apply (Hnone b Hab); [lia|done].
Qed.

Lemma search_loop_spec space lo l hi size alignment : laid lo l hi -> 0 <= lo -> 0 < size -> 0 < alignment -> hi + alignment <= U64_MAX ->
  first_place l lo (UserVirtualBase space +64 UserVirtualSize space) size alignment (search_loop space l size alignment).
Proof.
  intros Hl Hlo Hs Ha Hhi. set (top := UserVirtualBase space +64 UserVirtualSize space). revert lo Hl Hlo.
  induction l as [|[k v] r IH]; intros lo Hl Hlo.
  { right. split; [done|]. intros b _ _ (v & []%not_elem_of_nil & _). }
  pose proof Hl as ((Hk & Hb & Hv & _) & Hr). pose proof (laid_le _ _ _ Hr) as Hve. unfold area_end in *. cbn [area_base area_size virt_area] in *.
  pose proof (fun H => first_place_skip lo k v r hi top size alignment _ Hl H (IH _ Hr ltac:(lia))) as Hskip.
  cbn [search_loop]. destruct (IsFree v) eqn:Hfree; cbn [negb].
  2: { apply Hskip. intros b _ Ht. unfold IsFree, is_type in Hfree. by rewrite Ht in Hfree. }
  unfold IsFree, is_type in Hfree. apply bool_decide_eq_true in Hfree.
  destruct (AlignUp_spec (vma_base v) alignment) as (Hal & Hau & Hleast); [lia..|]. set (a := AlignUp (vma_base v) alignment) in *.
  rewrite wrap64_small by u64_lia. destruct (Z.ltb_spec (vma_base v + vma_size v) a).
  { apply Hskip. intros b Hab _ Hlow Hup. specialize (Hleast b Hab Hlow). lia. }
  assert (Hfirst : forall b, aligned alignment b -> room ((k, v) :: r) b size -> a <= b).
  { intros b Hab (w & [[= Ek ->]|Hw]%elem_of_cons & _ & Hlow & Hup); [by apply Hleast|]. destruct (laid_area _ _ _ _ _ Hr Hw) as (_ & Hge & _). lia. }
  fold top. destruct (Z.leb_spec top a).
  { right. split; [done|]. intros b Hab Hlt Hrm%Hfirst; [lia|done]. }
  rewrite wrap64_small by u64_lia. destruct (Z.leb_spec size (vma_base v + vma_size v - a)).
  - left. split_and!; [done|lia| |]; [exists v; subst k; split_and!; [left|done|lia..]|]. intros b Hab Hlt Hrm%Hfirst; [lia|done].
  - apply Hskip. intros b Hab _ Hlow Hup. specialize (Hleast b Hab Hlow). lia.
Qed.

(** An address between the first and the last of the map. *)
Definition within (m : VMAMap) (addr : Z) : Prop :=
  exists y z, y <= addr <= z /\ is_Some (area_at m y) /\ is_Some (area_at m z).

(** The start is in the map just when [IsValidMapping] of it says so. *)
Lemma within_span m vb ve start : laid (vma_base vb) m (vma_base ve + vma_size ve) -> within m start -> vma_base vb <= start < vma_base ve + vma_size ve.
Proof.
  intros Hspan (y & z & Hyz & [w Hw] & [w' Hw']).
  destruct (Z.lt_ge_cases y (vma_base vb)); [by rewrite (area_at_out _ _ _ _ Hspan) in Hw by lia|].
  destruct (Z.lt_ge_cases z (vma_base ve + vma_size ve)); [lia|by rewrite (area_at_out _ _ _ _ Hspan) in Hw' by lia].
Qed.

(** A place from an address on is in the suffix the search begins with. *)
Lemma room_suffix hi m v r b size : virt_ok hi m -> laid (vma_base v) ((vma_base v, v) :: r) hi ->
  (forall x, vma_base v <= x -> area_at m x = area_at ((vma_base v, v) :: r) x) -> vma_base v <= b -> 0 < size ->
  room m b size -> room ((vma_base v, v) :: r) b size.
Proof.
  intros [_ Hm] Hl Hsuf Hb Hs (w & Hw & Hfr & Hlow & Hup). exists w. split; [|done].
  assert (Hat : area_at m b = Some w) by (apply (entry_covers _ _ _ _ _ Hm Hw); lia). rewrite Hsuf in Hat by lia.
  destruct (locate _ _ _ _ _ Hl Hat) as (l' & r' & -> & _). rewrite elem_of_app, elem_of_cons. tauto.
Qed.

Lemma SearchFree_spec hi space m virtual_addr size alignment : virt_ok hi m -> m <> [] -> 0 < size -> 0 < alignment ->
  hi + alignment + size <= U64_MAX -> UserVirtualBase space + UserVirtualSize space <= U64_MAX -> 0 <= UserVirtualBase space + UserVirtualSize space ->
  0 <= SystemManagedVirtualBase space ->
  let start := Z.max virtual_addr (SystemManagedVirtualBase space) in
  exists a, SearchFree space m virtual_addr size alignment = Some a /\
    (first_place m start (UserVirtualBase space + UserVirtualSize space) size alignment a \/ a = NoAddr /\ ~ within m start).
Proof.
  intros Hok Hne Hs Hal Hfit Htop Htop0 Hsys start. destruct (map_span _ _ Hok Hne) as (vb & ve & Hhead & Hlast & Hin & Hb0 & Hbe & Hse & Hehi & Hspan).
  pose proof Hok as [Hhi Hm]. unfold SearchFree. fold start. rewrite (valid_address _ _ _ _ _ Hok Hhead Hlast) by lia. cbn [mbind option_bind].
  case_bool_decide as Hin0; cbn [negb].
  2: { exists NoAddr. split; [done|]. right. split; [done|]. intros ?. by apply Hin0, (within_span m). }
  destruct (AlignUp_spec start alignment) as (Ha & Hau & Hleast); [lia..|]. set (s := AlignUp start alignment) in *.
  destruct (floor_suffix _ _ s _ Hok Hhead) as (v & r & Hfl & Hfrom & Hvin & Hv & Hvs & Hvhi & Hl & Hsuf & Hgap); [lia|].
  rewrite Hfl. cbn [mbind option_bind]. rewrite Hfrom. cbn [List.tl].
  (* a place from there on is in the suffix *)
  assert (Hroom : forall b, aligned alignment b -> start <= b -> room m b size -> room ((vma_base v, v) :: r) b size /\ s <= b).
  { intros b Hab Hsb Hrm. pose proof (Hleast b Hab Hsb). split; [apply (room_suffix hi m); (done || lia)|done]. }
  assert (Hback : forall b, room r b size -> room m b size).
  { intros b (w & Hw & Hrest). exists w. split; [|done]. assert (Hw' : (vma_base w, w) ∈ from m (vma_base v)) by (rewrite Hfrom; by right).
    apply list_elem_of_In, List.filter_In in Hw' as [Hw' _]. by apply list_elem_of_In. }
  pose proof Hl as (_ & Hr). pose proof (laid_le _ _ _ Hr) as Hle.
  assert (Hc : Contains v s size = true <-> s + size <= vma_base v + vma_size v).
  { unfold Contains. rewrite !wrap64_small by u64_lia. rewrite andb_true_iff, !Z.leb_le. lia. }
  destruct (IsFree v && Contains v s size) eqn:Hfc.
  - apply andb_true_iff in Hfc as [Hfr%bool_decide_eq_true Hcon%Hc]. exists s. split; [done|]. left. left.
    split_and!; [done|lia|exists v; split_and!; (done || lia)|]. intros b Hab Hlt _. specialize (Hleast b Hab). lia.
  - eexists. split; [done|]. left. rewrite <- (wrap64_small (UserVirtualBase space + UserVirtualSize space)) by u64_lia.
    unfold area_end in *. cbn [area_base area_size virt_area] in *.
    assert (Hnot : forall b, aligned alignment b -> start <= b -> room m b size -> vma_base v + vma_size v <= b /\ room r b size).
    { intros b Hab Hsb [(w & [[= Ek ->]|Hw]%elem_of_cons & Hfr & Hlow & Hup) Hsb']%Hroom; [| |done..].
      - exfalso. assert (IsFree v && Contains v s size = true); [|congruence]. apply andb_true_iff.
        split; [unfold IsFree, is_type; by rewrite bool_decide_eq_true|apply Hc; lia].
      - destruct (laid_area _ _ _ _ _ Hr Hw) as (_ & Hge & _). split; [lia|by exists w]. }
    destruct (search_loop_spec space _ r hi size alignment Hr) as [(Hal' & Hge & Hrm & Hmin)|(Hnone & Hno)]; [lia|lia|done|lia| |].
    + left. split_and!; [done| |by apply Hback|].
      * destruct (Hback _ Hrm) as (w & Hw & _ & Hlow & Hup). destruct (Z.le_gt_cases start (search_loop space r size alignment)); [done|].
        assert (Hat : area_at m (search_loop space r size alignment) = Some w) by (apply (entry_covers _ _ _ _ _ Hm Hw); lia).
        by rewrite Hgap in Hat by lia.
      * intros b Hab Hlt [Hge' Hrm']%Hnot; [|done|lia]. apply (Hmin b Hab); [lia|done].
    + right. split; [done|]. intros b Hab Hlt [Hge' Hrm']%Hnot; [|done|lia]. apply (Hno b Hab); [lia|done].
Qed.

(** C22. [SearchFree] returns the first aligned address, from the one asked for or the lowest managed one on,
    at which a free area has place for the size. It gives none only when the start is outside the
    map or there is no such place below the end of the user region. *)
Theorem SearchFree_first_fit hi space m virtual_addr size alignment : virt_ok hi m -> m <> [] -> 0 < size -> 0 < alignment ->
  hi + alignment + size <= U64_MAX -> UserVirtualBase space + UserVirtualSize space <= U64_MAX -> 0 <= UserVirtualBase space + UserVirtualSize space ->
  0 <= SystemManagedVirtualBase space ->
  let start := Z.max virtual_addr (SystemManagedVirtualBase space) in
  exists a, SearchFree space m virtual_addr size alignment = Some a /\
    (first_place m start (UserVirtualBase space + UserVirtualSize space) size alignment a \/ a = NoAddr /\ ~ within m start).
Proof. apply SearchFree_spec. Qed.

(** ** Witnesses *)

Definition vma_of (t : VMAType.t) (base size : Z) : VirtualMemoryArea := mkVMA base size [] t NoAccess "" (-1) false.
(** Two free regions with a gap between them, and a reserved area in the second. *)
Definition vmas_0 : VMAMap :=
  [(0x1000000, vma_of VMAType.Free 0x1000000 0x10000); (0x2000000, vma_of VMAType.Reserved 0x2000000 0x4000);
   (0x2004000, vma_of VMAType.Free 0x2004000 0x100000)].
Definition space_0 : Space := mkSpace 0x1000000 0x2000000 0x1000000.

Lemma vmas_0_ok : virt_ok 0x2104000 vmas_0.
Proof. split; [done|]. cbn. split_and!; done. Qed.

(** A range that begins inside the gap and ends beyond the map is valid. *)
Lemma IsValidMapping_exact_witness : IsValidMapping vmas_0 0x1800000 0x80000000 = Some true /\
  exists b, IsValidMapping vmas_0 0x1800000 0x80000000 = Some b /\ (b = true <-> covered vmas_0 0x1800000 0x80000000 \/ in_gap vmas_0 0x1800000).
Proof. split; [reflexivity|]. apply (IsValidMapping_exact 0x2104000); [exact vmas_0_ok|done..]. Defined.

Lemma SearchFree_first_fit_witness : SearchFree space_0 vmas_0 0x100 0x20000 0x10000 = Some 0x2010000 /\
  exists a, SearchFree space_0 vmas_0 0x100 0x20000 0x10000 = Some a /\
    (first_place vmas_0 0x1000000 0x3000000 0x20000 0x10000 a \/ a = NoAddr /\ ~ within vmas_0 0x1000000).
Proof. split; [reflexivity|]. apply (SearchFree_first_fit 0x2104000 space_0 vmas_0 0x100 0x20000 0x10000); [exact vmas_0_ok|done..]. Defined.
