(* ===== verification/Repaint.v ===== *)
(** Painting the physical maps.

    The memory manager changes the use of physical memory by one sequence of calls: carve a
    range out of its area, write the fields of the carved area, merge it with its neighbours.
    [repaint_spec] says what the sequence does to the use of each address, and that it keeps the
    areas of a use maximal ([coalesced]), so that a range of one use is always in one area. *)
From Stdlib Require Import ZArith Lia.
From stdpp Require Import base gmap list list_numbers.
From S2P Require Import Prelude.
From S2P Require Import OrdMap.
From S2P Require Import PhysMemory.

Definition repaint (m : PhysMap) (addr size : Z) (edit : PhysicalMemoryArea -> PhysicalMemoryArea) : option PhysMap :=
  '(m, handle) ← retype m addr size edit;
  '(m, _) ← MergeAdjacent m handle;
  Some m.

Definition use_of (a : PhysicalMemoryArea) : PhysicalMemoryType.t * Z := (dma_type a, memory_type a).

(** Neighbouring addresses of one use [d] and one memory type are in one area. *)
Definition coalesced (d : PhysicalMemoryType.t) (m : PhysMap) : Prop :=
  forall x t, phys_at m (x - 1) = Some (d, t) -> phys_at m x = Some (d, t) -> area_at m (x - 1) = area_at m x.

Lemma phys_at_area m x u : phys_at m x = Some u <-> exists a, area_at m x = Some a /\ use_of a = u.
Proof.
  unfold phys_at, view_at. destruct (area_at m x) as [a|]; cbn; [|split; [done|by intros (? & ? & _)]].
  split; [intros [= <-]; by exists a|by intros (? & [= ->] & <-)].
Qed.

(** A run of one use lies within one area. *)
Lemma use_run total m d t q size : laid 0 m total -> coalesced d m -> 0 < size ->
  (forall x, q <= x < q + size -> phys_at m x = Some (d, t)) ->
  exists a, area_at m q = Some a /\ use_of a = (d, t) /\ area_base a <= q /\ q + size <= area_end a.
Proof.
  intros Hl Hc Hs Hrun. destruct (proj1 (phys_at_area m q (d, t))) as (a & Ha & Hu); [apply Hrun; lia|].
  destruct (area_at_in _ _ _ Ha) as (l & k & r & E & Hx). exists a. split_and!; [done|done|lia|].
  destruct (Z.le_gt_cases (q + size) (area_end a)); [done|]. exfalso.
  assert (Hin : (k, a) ∈ m) by (rewrite E, elem_of_app, elem_of_cons; tauto).
  assert (Hprev : area_at m (area_end a - 1) = Some a) by (apply (entry_at _ _ _ _ _ Hl Hin); lia).
  rewrite (Hc (area_end a) t) in Hprev by (apply Hrun; lia).
  destruct (area_at_in _ _ _ Hprev) as (_ & _ & _ & _ & Hx'). lia.
Qed.

Section merging.
Context {A V : Type} `{AreaLaws A V}.
Implicit Types (l r : list (Z * A)) (a b : A).

(** What joining does: one area in the place of two that touch. *)
Lemma join_at lo l k a k2 b r hi : 0 <= lo -> hi <= U64_MAX -> laid lo (l ++ (k, a) :: (k2, b) :: r) hi -> can_merge a b = true ->
  area_end a = area_base b /\ area_base (join a b) = area_base a /\ area_end (join a b) = area_end b /\
  (forall y, area_at (l ++ (k, join a b) :: r) y =
     if inside (join a b) y then Some (join a b) else area_at (l ++ (k, a) :: (k2, b) :: r) y).
Proof.
  intros Hlo Hhi Hm Hc. destruct (join_spec lo l k a k2 b r hi) as (Hj & _ & _); [done..|].
  pose proof Hm as (Hl & Hk & Hs & Hok & Hr)%laid_app. cbn in Hr. destruct Hr as ((Hk2 & Hb & Hsb & Hokb) & Hr).
  pose proof (laid_le _ _ _ Hl) as Hlk. pose proof (laid_le _ _ _ Hr) as Hrk.
  destruct (join_bounds a b) as (Bm & B & S); [lia|lia|lia|lia|lia|done|].
  assert (He : area_end (join a b) = area_end b) by (unfold area_end in *; lia). split_and!; [done|done|done|].
  intros y. rewrite (area_at_mid _ _ _ _ _ _ _ Hj), (area_at_mid _ _ _ _ _ _ _ Hm). destruct (inside (join a b) y) eqn:Hin; [done|].
  pose proof (inside_spec (join a b) y) as Ij. pose proof (inside_spec a y) as Ia. cbn [area_at]. pose proof (inside_spec b y) as Ib.
  rewrite Hin, B, He in Ij. unfold area_end in *. destruct (inside a y); [destruct Ia as [Ia _]; specialize (Ia eq_refl); destruct Ij as [_ Ij]; discriminate Ij; lia|].
  destruct (Z.ltb_spec y k); [done|]. destruct (inside b y); [|done]. destruct Ib as [Ib _]; specialize (Ib eq_refl). destruct Ij as [_ Ij]; discriminate Ij; lia.
Qed.

(** The areas after merging: the merged one holds the given one, the others stay. *)
Lemma merged_at lo l k a r hi l' k' a' r' : 0 <= lo -> hi <= U64_MAX -> laid lo (l ++ (k, a) :: r) hi -> merged l k a r l' k' a' r' ->
  area_base a' <= k /\ area_end a <= area_end a' /\
  (forall y, area_at (l' ++ (k', a') :: r') y = if inside a' y then Some a' else area_at (l ++ (k, a) :: r) y).
Proof.
  intros Hlo Hhi Hm [(a1 & Hright & Hleft)].
  assert (H1 : laid lo (l ++ (k, a1) :: r') hi /\ area_base a1 = k /\ area_end a <= area_end a1 /\
    (forall y, area_at (l ++ (k, a1) :: r') y = if inside a1 y then Some a1 else area_at (l ++ (k, a) :: r) y)).
  { pose proof Hm as (_ & Hk & _)%laid_app. destruct Hright as [(-> & -> & _)|(k2 & b & -> & Hc & ->)].
    - split_and!; [done|done|lia|]. intros y. rewrite (area_at_mid _ _ _ _ _ _ _ Hm). by destruct (inside a y).
    - destruct (join_at lo l k a k2 b r' hi) as (Ht & Hb & He & Hat); [done..|]. destruct (join_spec lo l k a k2 b r' hi) as (Hj & _); [done..|].
      pose proof Hm as (_ & _ & _ & _ & ((_ & _ & Hsb & _) & _))%laid_app. split_and!; [done|lia|unfold area_end in *; lia|done]. }
  destruct H1 as (Hl1 & Hb1 & He1 & Hat1). destruct Hleft as [(-> & -> & -> & _)|(p & -> & Hc & ->)]; [by split_and!; [lia|..]|].
  rewrite <- app_assoc in Hl1, Hat1. cbn [app] in Hl1, Hat1.
  destruct (join_at lo l' k' p k a1 r' hi) as (Ht & Hb & He & Hat); [done..|]. split_and!.
  - pose proof Hl1 as (_ & _ & Hsp & _ & _)%laid_app. unfold area_end in *. lia.
  - lia.
  - intros y. rewrite Hat. destruct (inside (join p a1) y) eqn:Hin; [done|]. rewrite Hat1. destruct (inside a1 y) eqn:Hin1; [|by rewrite <- app_assoc].
    apply inside_spec in Hin1. pose proof Hl1 as (_ & _ & Hsp & _ & _)%laid_app.
    assert (inside (join p a1) y = true); [|congruence]. apply inside_spec. unfold area_end in *. lia.
Qed.
End merging.

(** ** What is left of a walk over a map *)

Section walking.
Context {A V : Type} `{AreaLaws A V}.
Implicit Types (m l r : list (Z * A)) (a b : A).

(** The number of areas that end past an address. *)
Definition past m (x : Z) : nat := length (List.filter (fun e => x <? area_end (snd e)) m).

Lemma past_app l r x : past (l ++ r) x = (past l x + past r x)%nat.
Proof. unfold past. by rewrite List.filter_app, length_app. Qed.

Lemma past_cons k a r x : past ((k, a) :: r) x = ((if (x <? area_end a)%Z then 1 else 0) + past r x)%nat.
Proof. unfold past. cbn. by destruct (x <? area_end a). Qed.

Lemma past_le m x y : x <= y -> (past m y <= past m x)%nat.
Proof.
  intros Hxy. induction m as [|[k a] r IH]; [done|]. rewrite !past_cons. destruct (Z.ltb_spec y (area_end a)), (Z.ltb_spec x (area_end a)); lia.
Qed.

Lemma past_length m x : (past m x <= length m)%nat.
Proof. unfold past. apply List.filter_length_le. Qed.

(** Leaving an area behind. *)
Lemma past_step m x y a : area_at m x = Some a -> x <= y -> area_end a <= y -> (past m y < past m x)%nat.
Proof.
  intros (l & k & r & -> & Hx)%area_at_in Hxy Hy. rewrite !past_app, !past_cons. pose proof (past_le l x y Hxy). pose proof (past_le r x y Hxy).
  destruct (Z.ltb_spec y (area_end a)), (Z.ltb_spec x (area_end a)); lia.
Qed.

Lemma merged_past lo hi l r l' r' k a k' a' x : 0 <= lo -> hi <= U64_MAX -> laid lo (l ++ (k, a) :: r) hi ->
  merged l k a r l' k' a' r' -> (past (l' ++ (k', a') :: r') x <= past (l ++ (k, a) :: r) x)%nat.
Proof.
  intros Hlo Hhi Hm [(a1 & Hright & Hleft)].
  assert (Hr1 : (past (l ++ (k, a1) :: r') x <= past (l ++ (k, a) :: r) x)%nat /\ laid lo (l ++ (k, a1) :: r') hi).
  { destruct Hright as [(-> & -> & _)|(k2 & b & -> & Hc & ->)]; [done|].
    destruct (join_spec lo l k a k2 b r' hi) as (Hj & _); [done..|]. destruct (join_at lo l k a k2 b r' hi) as (_ & _ & He & _); [done..|].
    split; [|done]. rewrite !past_app, !past_cons, He. destruct (Z.ltb_spec x (area_end b)); lia. }
  destruct Hr1 as [Hp Hl1]. destruct Hleft as [(-> & -> & -> & _)|(p & -> & Hc & ->)]; [done|].
  rewrite <- app_assoc in Hl1, Hp |- *. destruct (join_at lo l' k' p k a1 r' hi) as (_ & _ & He & _); [done..|].
  rewrite !past_app in *. cbn [app] in *. rewrite !past_cons in *. rewrite He. destruct (Z.ltb_spec x (area_end a1)); lia.
Qed.

(** Carving leaves as much as before past the end of the range. *)
Lemma carved_past l r a start size low mid high mid' : carved a (area_base a) start size low mid high -> 0 <= start -> 0 < size ->
  start + size <= area_size a -> area_base mid' = area_base mid -> area_size mid' = size ->
  past ((l ++ low) ++ (area_base a + start, mid') :: high ++ r) (area_base a + start + size) =
    past (l ++ (area_base a, a) :: r) (area_base a + start + size).
Proof.
  intros Hcv Hst Hs Hfit Hb Hsz. rewrite <- app_assoc. rewrite !past_app, !past_cons, !past_app. pose proof (cv_base _ _ _ _ _ _ _ Hcv) as Hmb.
  unfold area_end at 1. rewrite Hb, Hsz, Hmb. destruct (Z.ltb_spec (area_base a + start + size) (area_base a + start + size)); [lia|].
  assert (past low (area_base a + start + size) = 0%nat) as ->.
  { destruct (cv_low _ _ _ _ _ _ _ Hcv) as [[-> _]|(p & -> & Bp & Sp & _)]; [done|]. rewrite past_cons. unfold area_end. rewrite Bp, Sp.
    by destruct (Z.ltb_spec (area_base a + start + size) (area_base a + start)); [lia|]. }
  destruct (cv_high _ _ _ _ _ _ _ Hcv) as [[-> Eh]|(q & -> & Bq & Eq & _)]; [|rewrite past_cons, Eq].
  - change (past [] (area_base a + start + size)) with 0%nat. unfold area_end. destruct (Z.ltb_spec (area_base a + start + size) (area_base a + area_size a)); lia.
  - change (past [] (area_base a + start + size)) with 0%nat. lia.
Qed.
End walking.

(** ** Merging physical areas *)

Lemma can_merge_phys a b : area_end a = area_base b -> area_end b <= U64_MAX -> 0 < pa_size b -> 0 <= pa_base b -> use_of a = use_of b ->
  CanMergeWith a b = true.
Proof.
  unfold area_end. cbn. intros He Hb Hs Ha [= Hd Ht]. unfold CanMergeWith. rewrite wrap64_small by u64_lia.
  rewrite He, Ht, !Z.eqb_refl, bool_decide_true by done. done.
Qed.

Lemma can_merge_use a b : CanMergeWith a b = true -> use_of a = use_of b.
Proof. unfold CanMergeWith, use_of. rewrite !andb_true_iff. intros ((_ & ->%Z.eqb_eq) & ->%bool_decide_eq_true). done. Qed.

(** The area before another, when one touches it. *)
Lemma area_before (l : PhysMap) lo k b : laid lo l k -> area_at l (k - 1) = Some b -> exists l0, l = l0 ++ [(area_base b, b)] /\ area_end b = k.
Proof.
  intros Hl Hb. destruct l as [|[k0 p] l0 _] using rev_ind; [done|]. apply laid_app in Hl as Hl0. destruct Hl0 as (Hl0 & Hk & Hs & _ & He). cbn in He.
  destruct (area_at_in _ _ _ Hb) as (l1 & k1 & r1 & E & Hx). assert (Hin : (k1, b) ∈ l0 ++ [(k0, p)]) by (rewrite E, elem_of_app, elem_of_cons; tauto).
  apply elem_of_app in Hin as [Hin|[= -> ->]%list_elem_of_singleton].
  - destruct (laid_area _ _ _ _ _ Hl0 Hin) as (_ & _ & _ & _ & Hend). unfold area_end in *. lia.
  - exists l0. split; [by rewrite Hk|lia].
Qed.

Lemma area_after (r : PhysMap) lo hi b : laid lo r hi -> area_at r lo = Some b -> exists r0, r = (lo, b) :: r0 /\ area_base b = lo.
Proof.
  intros Hr Hb. destruct r as [|[k0 p] r0]; [done|]. cbn in Hr, Hb. destruct Hr as ((Hk & Hp & Hs & _) & Hr).
  destruct (inside p lo) eqn:Hin.
  - injection Hb as ->. apply inside_spec in Hin. exists r0. cbn in Hp. split; [f_equal; f_equal; cbn in *; lia|cbn in *; lia].
  - rewrite (area_at_out _ _ _ _ Hr) in Hb; [done|]. unfold area_end. cbn in *. lia.
Qed.

(** A merged area holds the neighbours of the same use. *)
Lemma merged_maximal (l r l' r' : PhysMap) k a k' a' hi : hi <= U64_MAX -> laid 0 (l ++ (k, a) :: r) hi -> merged l k a r l' k' a' r' ->
  use_of a' = use_of a /\
  (phys_at (l ++ (k, a) :: r) (k - 1) = Some (use_of a) -> inside a' (k - 1) = true) /\
  (phys_at (l ++ (k, a) :: r) (area_end a) = Some (use_of a) -> inside a' (area_end a) = true).
Proof.
  intros Hhi Hm Hmg. destruct (merged_at 0 l k a r hi l' k' a' r') as (Hb & He & _); [lia|done..|].
  destruct Hmg as [(a1 & Hright & Hleft)]. pose proof Hm as (Hl & Hk & Hs & _ & Hr)%laid_app. cbn in Hk, Hs.
  pose proof (laid_le _ _ _ Hl) as Hk0. pose proof (laid_le _ _ _ Hr) as Hrhi.
  assert (Hu1 : use_of a1 = use_of a /\ area_base a1 = k /\ 0 < pa_size a1 /\ area_end a1 <= hi).
  { destruct Hright as [(-> & _)|(k2 & b & -> & Hc & ->)]; [by split_and!|].
    destruct (join_at 0 l k a k2 b r' hi) as (Ht & B & E & _); [lia|done..|]. cbn [can_merge phys_area join] in *. cbn in Hr. destruct Hr as ((_ & _ & Hsb & _) & Hr). apply laid_le in Hr.
    split_and!; [done|cbn; lia|unfold area_end in *; cbn in *; lia|lia]. }
  destruct Hu1 as (Hu1 & Hb1 & Hs1 & He1). split_and!.
  - destruct Hleft as [(-> & _)|(p & -> & Hc & ->)]; [done|]. rewrite <- Hu1. change (use_of p = use_of a1). by apply can_merge_use.
  - intros (b & Hat & Hub)%phys_at_area. rewrite (area_at_mid _ _ _ _ _ _ _ Hm) in Hat. destruct (inside a (k - 1)) eqn:Hi.
    { apply inside_spec in Hi. cbn in Hi. lia. }
    destruct (Z.ltb_spec (k - 1) k) as [_|]; [|lia]. destruct (area_before l 0 k b Hl Hat) as (l0 & El & Heb).
    destruct Hleft as [(-> & -> & -> & Hno)|(p & E2 & Hc & ->)].
    + exfalso. rewrite El in Hl. pose proof Hl as (Hl00 & _ & _ & _ & _)%laid_app. apply laid_le in Hl00. cbn in Hl00.
      specialize (Hno l0 (area_base b) b El). cbn [can_merge phys_area] in Hno. rewrite can_merge_phys in Hno; [done|congruence|lia|done|cbn in *; lia|congruence].
    + rewrite El in E2. apply app_inj_tail in E2 as [-> [= <- ->]]. apply inside_spec.
      assert (k < area_end a) by (unfold area_end; cbn; lia). destruct (area_at_in _ _ _ Hat) as (_ & _ & _ & _ & Hx). split; [|lia]. rewrite El in Hl. pose proof Hl as (_ & Hkk & _)%laid_app. cbn in *. lia.
  - intros (b & Hat & Hub)%phys_at_area. rewrite (area_at_mid _ _ _ _ _ _ _ Hm) in Hat. destruct (inside a (area_end a)) eqn:Hi.
    { apply inside_spec in Hi. cbn in Hi. lia. }
    destruct (Z.ltb_spec (area_end a) k) as [|_]; [unfold area_end in *; cbn in *; lia|]. destruct (area_after r _ hi b Hr Hat) as (r0 & Er & Heb).
    pose proof Hr as Hr2. rewrite Er in Hr2. destruct Hr2 as ((_ & _ & Hsb & _) & Hr2%laid_le). cbn in Hsb.
    destruct Hright as [(-> & -> & Hno)|(k2 & b2 & E2 & Hc & ->)].
    + exfalso. specialize (Hno _ b r0 Er). cbn [can_merge phys_area] in Hno. rewrite can_merge_phys in Hno; [done|congruence|lia|done|unfold area_end in *; cbn in *; lia|congruence].
    + rewrite Er in E2. injection E2 as <- -> ->. rewrite Er in Hm. destruct (join_at 0 l k a (area_end a) b2 r' hi) as (Ht & B & E & _); [lia|done..|].
      apply inside_spec. split; [unfold area_end in *; cbn in *; lia|]. assert (area_end (join a b2) <= area_end a'); [|unfold area_end in *; cbn in *; lia].
      destruct Hleft as [(-> & _)|(p & -> & Hc2 & ->)]; [done|]. destruct (join_spec 0 (l' ++ [(k', p)]) k a (area_end a) b2 r' hi) as (Hj & _); [lia|done..|].
      rewrite <- app_assoc in Hj. destruct (join_at 0 l' k' p k (join a b2) r' hi) as (_ & _ & E3 & _); [lia|done..|]. by rewrite E3.
Qed.

(** ** Carving physical areas *)

Lemma area_at_inside (m : PhysMap) x b : area_at m x = Some b -> inside b x = true.
Proof. intros (_ & _ & _ & _ & Hx)%area_at_in. by apply inside_spec. Qed.

Lemma area_at_same lo (m : PhysMap) hi x y b : laid lo m hi -> area_at m x = Some b -> inside b y = true -> area_at m y = Some b.
Proof.
  intros Hl (l & k & r & E & _)%area_at_in Hy%inside_spec. apply (entry_at _ _ _ k _ Hl); [|done]. rewrite E, elem_of_app, elem_of_cons. tauto.
Qed.

(** The areas after carving: at the carved range, on both sides of it, and elsewhere. *)
Lemma carved_at total (l r : PhysMap) a addr size low mid high mid' y :
  carved a (pa_base a) (addr - pa_base a) size low mid high -> laid 0 (l ++ (pa_base a, a) :: r) total ->
  laid 0 (l ++ low ++ (addr, mid') :: high ++ r) total -> pa_base mid' = addr -> pa_size mid' = size -> 0 < size -> pa_base a <= addr -> addr + size <= area_end a ->
  area_at (l ++ low ++ (addr, mid') :: high ++ r) y =
    if (addr <=? y) && (y <? addr + size) then Some mid'
    else if inside a y then (if y <? addr then snd <$> head low else snd <$> head high) else area_at (l ++ (pa_base a, a) :: r) y.
Proof.
  intros Hcv Hm Hm' Hb Hs Hs0 Ha0 Hfit. rewrite (area_at_mid _ _ _ _ _ _ _ Hm). rewrite app_assoc in Hm' |- *. rewrite (area_at_mid _ _ _ _ _ _ _ Hm').
  replace (inside mid' y) with ((addr <=? y) && (y <? addr + size)) by (unfold inside, area_end; cbn; by rewrite Hb, Hs).
  destruct ((addr <=? y) && (y <? addr + size)) eqn:Hin; [done|]. pose proof Hm as (Hl & _ & Hsa & _ & Hr)%laid_app.
  pose proof Hm' as (Hl' & _ & _ & _ & Hr')%laid_app. unfold area_end in *. cbn in Hsa, Hr, Hr'. rewrite Hb, Hs in Hr'.
  destruct (Z.ltb_spec y addr) as [Hy|Hy].
  - rewrite area_at_app. destruct (cv_low _ _ _ _ _ _ _ Hcv) as [[-> E]|(p & -> & Bp & Sp & _)]; cbn [area_at head fmap option_fmap option_map snd].
    + replace (inside a y) with false by (symmetry; unfold inside, area_end; cbn; lia). destruct (Z.ltb_spec y (pa_base a)); [|lia]. by destruct (area_at l y).
    + destruct (inside a y) eqn:Hi.
      * apply inside_spec in Hi. cbn in Hi. rewrite (area_at_out _ _ _ _ Hl) by lia. replace (inside p y) with true; [done|].
        symmetry. apply inside_spec. unfold area_end. cbn in *. lia.
      * destruct (Z.ltb_spec y (pa_base a)) as [|Hge].
        -- replace (inside p y) with false; [by destruct (area_at l y)|]. symmetry. unfold inside. cbn in *. destruct (Z.leb_spec (pa_base p) y); [lia|done].
        -- exfalso. unfold inside, area_end in *. cbn in *. lia.
  - destruct (cv_high _ _ _ _ _ _ _ Hcv) as [[-> E]|(q & -> & Bq & Eq & _)]; cbn [app area_at head fmap option_fmap option_map snd].
    + cbn in E. replace (inside a y) with false; [destruct (Z.ltb_spec y (pa_base a)); [lia|done]|]. symmetry. unfold inside, area_end. cbn. lia.
    + unfold area_end in *. cbn in *. destruct (inside a y) eqn:Hi.
      * apply inside_spec in Hi. unfold area_end in Hi. cbn in Hi. replace (inside q y) with true; [done|]. symmetry. apply inside_spec. unfold area_end. cbn. lia.
      * replace (inside q y) with false; [destruct (Z.ltb_spec y (pa_base a)); [lia|done]|]. symmetry. unfold inside, area_end in *. cbn in *. lia.
Qed.

(** ** How much memory has a use *)

Fixpoint used (d : PhysicalMemoryType.t) (m : PhysMap) : Z :=
  match m with
  | [] => 0
  | (_, a) :: r => (if bool_decide (dma_type a = d) then pa_size a else 0) + used d r
  end.

Lemma used_app d l r : used d (l ++ r) = used d l + used d r.
Proof. induction l as [|[k a] l IH]; cbn; [done|]. rewrite IH. lia. Qed.

Lemma used_nonneg d lo m hi : laid lo m hi -> 0 <= used d m <= hi - lo.
Proof.
  revert lo. induction m as [|[k a] m IH]; intros lo; cbn; [lia|]. intros ((? & Hb & Hs & _) & Hr).
  specialize (IH _ Hr). unfold area_end in IH. cbn in *. case_bool_decide; lia.
Qed.

Lemma merged_used d total (l r l' r' : PhysMap) k a k' a' : total <= U64_MAX -> laid 0 (l ++ (k, a) :: r) total ->
  merged l k a r l' k' a' r' -> used d (l' ++ (k', a') :: r') = used d (l ++ (k, a) :: r).
Proof.
  intros Ht Hm [(a1 & Hright & Hleft)].
  assert (Hr1 : used d (l ++ (k, a1) :: r') = used d (l ++ (k, a) :: r) /\ laid 0 (l ++ (k, a1) :: r') total).
  { destruct Hright as [(-> & -> & _)|(k2 & b & -> & Hc & ->)]; [done|].
    destruct (join_spec 0 l k a k2 b r' total) as (Hj & _); [lia|done..|]. split; [|done].
    destruct (join_at 0 l k a k2 b r' total) as (_ & Hb & He & _); [lia|done..|]. pose proof Hj as (_ & Hkj & _)%laid_app.
    pose proof Hm as (_ & Hk & _ & _ & ((_ & Hbb & _) & _))%laid_app. destruct (join_at 0 l k a k2 b r' total) as (Htouch & _); [lia|done..|].
    cbn [can_merge phys_area] in Hc. apply can_merge_use in Hc as [= Hd _]. rewrite !used_app. cbn [used].
    assert (pa_size (join a b) = pa_size a + pa_size b) as -> by (unfold area_end in *; cbn [area_base area_size phys_area] in *; lia).
    change (dma_type (join a b)) with (dma_type a). rewrite Hd. case_bool_decide; lia. }
  destruct Hr1 as [<- Hl1]. destruct Hleft as [(-> & -> & -> & _)|(p & -> & Hc & ->)]; [done|].
  rewrite <- app_assoc in Hl1 |- *. destruct (join_at 0 l' k' p k a1 r' total) as (Htouch & Hb & He & _); [lia|done..|].
  cbn [can_merge phys_area] in Hc. apply can_merge_use in Hc as [= Hd _]. rewrite !used_app. cbn [used app].
  assert (pa_size (join p a1) = pa_size p + pa_size a1) as -> by (unfold area_end in *; cbn [area_base area_size phys_area] in *; lia).
  change (dma_type (join p a1)) with (dma_type p). rewrite Hd. case_bool_decide; lia.
Qed.

Definition used_part (d d' : PhysicalMemoryType.t) (size : Z) : Z := if bool_decide (d' = d) then size else 0.

Lemma carved_used d total (l r : PhysMap) a addr size low mid high mid' :
  carved a (pa_base a) (addr - pa_base a) size low mid high -> laid 0 (l ++ (pa_base a, a) :: r) total ->
  laid 0 (l ++ low ++ (addr, mid') :: high ++ r) total -> pa_size mid' = size ->
  used d (l ++ low ++ (addr, mid') :: high ++ r) =
    used d (l ++ (pa_base a, a) :: r) - used_part d (dma_type a) size + used_part d (dma_type mid') size.
Proof.
  intros Hcv Hm Hm' Hs. rewrite (app_assoc l low) in Hm'.
  assert (Hlow : used d low = used_part d (dma_type a) (addr - pa_base a)).
  { destruct (cv_low _ _ _ _ _ _ _ Hcv) as [[-> E]|(p & El & Bp & Sp & _)]; [cbn; unfold used_part; case_bool_decide; lia|].
    destruct (carved_piece total l r a addr size low mid high mid' (pa_base a) p Hcv Hm') as [Hd _]; [rewrite El; left; by left|].
    rewrite El. cbn. unfold used_part. rewrite Hd. cbn in Sp. case_bool_decide; lia. }
  assert (Hhigh : used d high = used_part d (dma_type a) (area_end a - (addr + size))).
  { destruct (cv_high _ _ _ _ _ _ _ Hcv) as [[-> E]|(q & Eh & Bq & Eq & _)]; [cbn in *; unfold used_part, area_end; cbn; case_bool_decide; lia|].
    destruct (carved_piece total l r a addr size low mid high mid' (pa_base a + (addr - pa_base a) + size) q Hcv Hm') as [Hd _]; [rewrite Eh; right; by left|].
    rewrite Eh. unfold area_end in *. cbn in *. unfold used_part. rewrite Hd. case_bool_decide; lia. }
  rewrite !used_app. cbn [used app]. rewrite !used_app, Hlow, Hhigh, Hs. unfold used_part, area_end. cbn. repeat case_bool_decide; lia.
Qed.

(** Carving and writing breaks maximality at the ends of the range only, and merging mends it. *)
Definition coalesced_but (d : PhysicalMemoryType.t) (x1 x2 : Z) (m : PhysMap) : Prop :=
  forall x t, x <> x1 -> x <> x2 -> phys_at m (x - 1) = Some (d, t) -> phys_at m x = Some (d, t) -> area_at m (x - 1) = area_at m x.

Lemma carved_coalesced d total (m l r : PhysMap) a addr size low mid high mid' :
  laid 0 m total -> area_at m addr = Some a -> 0 < size -> addr + size <= area_end a -> m = l ++ (pa_base a, a) :: r ->
  carved a (pa_base a) (addr - pa_base a) size low mid high -> pa_base mid' = addr -> pa_size mid' = size ->
  let m1 := (l ++ low) ++ (addr, mid') :: high ++ r in
  laid 0 m1 total -> painted m m1 addr size (use_of mid') -> coalesced d m -> coalesced_but d addr (addr + size) m1.
Proof.
  intros Hm Ha Hs Hfit E Hcv Hb Hsz m1 Hl Hp Hc x t Hne1 Hne2 Hx1 Hx2.
  assert (Ha0 : pa_base a <= addr) by (destruct (area_at_in _ _ _ Ha) as (_ & _ & _ & _ & Hx); cbn in Hx; lia).
  assert (Hat : forall y, area_at m1 y = if (addr <=? y) && (y <? addr + size) then Some mid'
    else if inside a y then (if y <? addr then snd <$> head low else snd <$> head high) else area_at m y).
  { intros y. unfold m1 in *. rewrite <- app_assoc in *. rewrite E. apply (carved_at total _ _ _ _ _ _ mid); (done || by rewrite <- E). }
  assert (Hina : forall y, area_at m y = Some a <-> inside a y = true).
  { intros y. rewrite inside_spec. split; [by intros (_ & _ & _ & _ & ?)%area_at_in|]. apply (entry_at _ _ _ (pa_base a) _ Hm). rewrite E, elem_of_app, elem_of_cons. tauto. }
  rewrite !Hat. rewrite Hp in Hx1, Hx2. revert Hx1 Hx2.
  destruct (Z.leb_spec addr (x - 1)), (Z.ltb_spec (x - 1) (addr + size)), (Z.leb_spec addr x), (Z.ltb_spec x (addr + size)); try lia; cbn [andb]; try done; intros Hx1 Hx2.
  all: specialize (Hc x t Hx1 Hx2); destruct (inside a (x - 1)) eqn:I1, (inside a x) eqn:I2; try done.
  all: try (destruct (Z.ltb_spec (x - 1) addr), (Z.ltb_spec x addr); try lia; done).
  all: exfalso; pose proof (proj2 (Hina (x - 1))) as J1; pose proof (proj2 (Hina x)) as J2; pose proof (proj1 (Hina (x - 1))) as K1; pose proof (proj1 (Hina x)) as K2.
  all: rewrite ?I1, ?I2 in *; first [rewrite Hc in J1; specialize (K2 (J1 eq_refl)); done|rewrite <- Hc in J2; specialize (K1 (J2 eq_refl)); done].
Qed.

Lemma merged_coalesced d total (l r l' r' : PhysMap) k a k' a' : total <= U64_MAX -> laid 0 (l ++ (k, a) :: r) total ->
  merged l k a r l' k' a' r' -> laid 0 (l' ++ (k', a') :: r') total ->
  (forall x, phys_at (l' ++ (k', a') :: r') x = phys_at (l ++ (k, a) :: r) x) ->
  coalesced_but d k (area_end a) (l ++ (k, a) :: r) -> coalesced d (l' ++ (k', a') :: r').
Proof.
  intros Ht Hm Hmg Hl' Hv Hc x t Hx1 Hx2. rewrite Hv in Hx1, Hx2.
  destruct (merged_at 0 l k a r total l' k' a' r') as (Hb' & He' & Hat'); [lia|done..|].
  destruct (merged_maximal l r l' r' k a k' a' total) as (_ & Hmaxl & Hmaxr); [done..|].
  pose proof Hm as (_ & Hk & Hs & _)%laid_app. assert (Hka : k < area_end a) by (unfold area_end; lia).
  assert (Hina : forall y, inside a y = true -> phys_at (l ++ (k, a) :: r) y = Some (use_of a)).
  { intros y Hy. apply phys_at_area. exists a. split; [|done]. rewrite (area_at_mid _ _ _ _ _ _ _ Hm). by rewrite Hy. }
  destruct (Z.eq_dec x k) as [->|Hne1]; [|destruct (Z.eq_dec x (area_end a)) as [->|Hne2]].
  - rewrite Hina in Hx2 by (apply inside_spec; lia). rewrite <- Hx2 in Hx1. specialize (Hmaxl Hx1).
    rewrite !Hat', Hmaxl. replace (inside a' k) with true; [done|]. symmetry. apply inside_spec. apply inside_spec in Hmaxl. lia.
  - rewrite Hina in Hx1 by (apply inside_spec; lia). rewrite <- Hx1 in Hx2. specialize (Hmaxr Hx2).
    rewrite !Hat', Hmaxr. replace (inside a' (area_end a - 1)) with true; [done|]. symmetry. apply inside_spec. apply inside_spec in Hmaxr.
    lia.
  - specialize (Hc x t Hne1 Hne2 Hx1 Hx2). apply phys_at_area in Hx1 as (b & Hb1 & _). pose proof Hb1 as Hb2. rewrite Hc in Hb2.
    pose proof (area_at_inside _ _ _ Hb1) as Ib1. pose proof (area_at_inside _ _ _ Hb2) as Ib2.
    destruct (inside a' (x - 1)) eqn:I1, (inside a' x) eqn:I2.
    + by rewrite !Hat', I1, I2.
    + assert (Hx : area_at (l' ++ (k', a') :: r') x = Some b) by (by rewrite Hat', I2).
      eapply area_at_same in Ib1; [|exact Hl'|exact Hx]. rewrite Hat', I1 in Ib1. congruence.
    + assert (Hx : area_at (l' ++ (k', a') :: r') (x - 1) = Some b) by (by rewrite Hat', I1).
      eapply area_at_same in Ib2; [|exact Hl'|exact Hx]. rewrite Hat', I2 in Ib2. congruence.
    + by rewrite !Hat', I1, I2.
Qed.

(** ** The whole sequence *)

(** The parts that carving and merging make, and the maps in between. *)
Lemma repaint_parts total m addr size a edit :
  0 <= addr -> total <= U64_MAX -> laid 0 m total -> area_at m addr = Some a -> 0 < size -> addr + size <= area_end a ->
  (forall b, pa_base (edit b) = pa_base b /\ pa_size (edit b) = pa_size b) ->
  exists l r low mid high l' k' a' r', let m1 := (l ++ low) ++ (addr, edit mid) :: high ++ r in let m' := l' ++ (k', a') :: r' in
    m = l ++ (pa_base a, a) :: r /\ carved a (pa_base a) (addr - pa_base a) size low mid high /\
    pa_base (edit mid) = addr /\ pa_size (edit mid) = size /\ use_of mid = use_of a /\
    laid 0 m1 total /\ painted m m1 addr size (use_of (edit mid)) /\ merged (l ++ low) addr (edit mid) (high ++ r) l' k' a' r' /\
    retype m addr size edit = Some (m1, addr) /\ get m1 addr = Some (edit mid) /\ MergeAdjacent m1 addr = Some (m', k') /\
    laid 0 m' total /\ (forall x, phys_at m' x = phys_at m1 x).
Proof.
  intros Haddr Ht Hm Ha Hs Hfit Hed.
  destruct (retype_spec total m addr size a edit) as (l & r & low & mid & high & E & Hcv & Hd & Hty & Hre & Hl & Hp); [done..|].
  rewrite app_assoc in Hre, Hl, Hp. destruct (Hed mid) as [Hb Hsz].
  pose proof (cv_base _ _ _ _ _ _ _ Hcv) as Hmb. pose proof (cv_size _ _ _ _ _ _ _ Hcv) as Hms. cbn in Hmb, Hms.
  destruct (merge_spec 0 (l ++ low) addr (edit mid) (high ++ r) total) as (l' & k' & a' & r' & Hmg & Emg & Hl' & Hv); [lia|done..|].
  exists l, r, low, mid, high, l', k', a', r'. cbn zeta. split_and!; try done; try lia; [unfold use_of; by rewrite Hd, Hty|].
  by apply (get_app 0 _ _ _ _ total), laid_ordered.
Qed.

(** What painting a range of [a] makes of a map: the parts, the use of each address, how much
    memory has a use; the areas of a use stay maximal. *)
Record painting (total : Z) (m : PhysMap) (addr size : Z) (a mid' : PhysicalMemoryArea)
    (l r low high l' : PhysMap) (k' : Z) (a' : PhysicalMemoryArea) (r' : PhysMap) : Prop := {
  pt_before : m = l ++ (pa_base a, a) :: r;
  pt_low : low = [] \/ pa_base a < addr;
  pt_high : high = [] \/ addr + size < area_end a;
  pt_merged : merged (l ++ low) addr mid' (high ++ r) l' k' a' r';
  pt_use : use_of a' = use_of mid';
  pt_laid : laid 0 (l' ++ (k', a') :: r') total;
  pt_painted : painted m (l' ++ (k', a') :: r') addr size (use_of mid');
  pt_coalesced : forall d, coalesced d m -> coalesced d (l' ++ (k', a') :: r');
  pt_used : forall d, used d (l' ++ (k', a') :: r') = used d m - used_part d (dma_type a) size + used_part d (dma_type mid') size;
  pt_past : (past (l' ++ (k', a') :: r') (addr + size) <= past m (addr + size))%nat
}.

Lemma carved_sides total (l r : PhysMap) a addr size low mid high mid' : carved a (pa_base a) (addr - pa_base a) size low mid high ->
  laid 0 ((l ++ low) ++ (addr, mid') :: high ++ r) total ->
  (low = [] \/ pa_base a < addr) /\ (high = [] \/ addr + size < area_end a).
Proof.
  intros Hcv Hl. split.
  - destruct (cv_low _ _ _ _ _ _ _ Hcv) as [[-> _]|(p & Hp & Bp & Sp & _)]; [by left|right].
    assert (Hin : (pa_base a, p) ∈ (l ++ low) ++ (addr, mid') :: high ++ r) by (rewrite Hp, !elem_of_app, list_elem_of_singleton; tauto).
    destruct (laid_area _ _ _ _ _ Hl Hin) as (_ & _ & Hs & _). cbn in *. lia.
  - destruct (cv_high _ _ _ _ _ _ _ Hcv) as [[-> _]|(q & Hq & Bq & Eq & _)]; [by left|right].
    assert (Hin : (pa_base a + (addr - pa_base a) + size, q) ∈ (l ++ low) ++ (addr, mid') :: high ++ r)
      by (rewrite Hq, !elem_of_app, elem_of_cons; right; right; by left).
    destruct (laid_area _ _ _ _ _ Hl Hin) as (_ & _ & Hs & _). unfold area_end in *. cbn in *. lia.
Qed.

Lemma paint_full total m addr size a edit :
  0 <= addr -> total <= U64_MAX -> laid 0 m total -> area_at m addr = Some a -> 0 < size -> addr + size <= area_end a ->
  (forall b, pa_base (edit b) = pa_base b /\ pa_size (edit b) = pa_size b) ->
  exists l r low mid high l' k' a' r' m1, retype m addr size edit = Some (m1, addr) /\ get m1 addr = Some (edit mid) /\
    MergeAdjacent m1 addr = Some (l' ++ (k', a') :: r', k') /\ pa_base (edit mid) = addr /\ pa_size (edit mid) = size /\ use_of mid = use_of a /\
    painting total m addr size a (edit mid) l r low high l' k' a' r'.
Proof.
  intros Haddr Ht Hm Ha Hs Hfit Hed.
  destruct (repaint_parts total m addr size a edit) as (l & r & low & mid & high & l' & k' & a' & r' & E & Hcv & Hb & Hsz & Hu & Hl & Hp & Hmg & Hre & Hget & Emg & Hl' & Hv); [done..|].
  assert (He : area_end (edit mid) = addr + size) by (unfold area_end; cbn; lia). destruct (Hed mid) as [Hb' Hsz'].
  assert (Ha0 : pa_base a <= addr) by (destruct (area_at_in _ _ _ Ha) as (_ & _ & _ & _ & Hx); cbn in Hx; lia).
  destruct (carved_sides _ _ _ _ _ _ _ _ _ _ Hcv Hl) as [Hlow Hhigh].
  exists l, r, low, mid, high, l', k', a', r', ((l ++ low) ++ (addr, edit mid) :: high ++ r). split_and!; try done. split; try done.
  - by destruct (merged_maximal (l ++ low) (high ++ r) l' r' addr (edit mid) k' a' total) as (? & _).
  - intros x. rewrite Hv. apply Hp.
  - intros d Hc. eapply merged_coalesced; [exact Ht|exact Hl|exact Hmg|done|done|]. rewrite He. by apply (carved_coalesced d total m l r a addr size low mid high (edit mid)).
  - intros d. rewrite (merged_used d total _ _ _ _ _ _ _ _ Ht Hl Hmg). rewrite E in Hm |- *. rewrite <- app_assoc in Hl |- *.
    by apply (carved_used d total _ _ _ _ _ _ mid).
  - pose proof (carved_past l r a (addr - pa_base a) size low mid high (edit mid) Hcv) as Hpast. unfold area_end in Hfit.
    cbn [area_base area_size phys_area] in *. replace (pa_base a + (addr - pa_base a)) with addr in Hpast by lia.
    rewrite E, <- Hpast by lia. by apply (merged_past 0 total).
Qed.

Lemma paint_step total m addr size a edit :
  0 <= addr -> total <= U64_MAX -> laid 0 m total -> area_at m addr = Some a -> 0 < size -> addr + size <= area_end a ->
  (forall b, pa_base (edit b) = pa_base b /\ pa_size (edit b) = pa_size b) ->
  exists m1 mid m' k', retype m addr size edit = Some (m1, addr) /\ get m1 addr = Some (edit mid) /\ MergeAdjacent m1 addr = Some (m', k') /\
    pa_base (edit mid) = addr /\ pa_size (edit mid) = size /\ use_of mid = use_of a /\ laid 0 m' total /\
    painted m m' addr size (use_of (edit mid)) /\ (forall d, coalesced d m -> coalesced d m') /\
    (forall d, used d m' = used d m - used_part d (dma_type a) size + used_part d (dma_type (edit mid)) size) /\
    (past m' (addr + size) <= past m (addr + size))%nat.
Proof.
  intros Haddr Ht Hm Ha Hs Hfit Hed.
  destruct (paint_full total m addr size a edit) as (l & r & low & mid & high & l' & k' & a' & r' & m1 & Hre & Hget & Emg & Hb & Hsz & Hu & Hpt); [done..|].
  exists m1, mid, (l' ++ (k', a') :: r'), k'. destruct Hpt. by split_and!.
Qed.

Lemma repaint_spec total m addr size a edit :
  0 <= addr -> total <= U64_MAX -> laid 0 m total -> area_at m addr = Some a -> 0 < size -> addr + size <= area_end a ->
  (forall b, pa_base (edit b) = pa_base b /\ pa_size (edit b) = pa_size b) ->
  exists m' mid, repaint m addr size edit = Some m' /\ laid 0 m' total /\ use_of mid = use_of a /\
    painted m m' addr size (use_of (edit mid)) /\ (forall d, coalesced d m -> coalesced d m') /\
    (forall d, used d m' = used d m - used_part d (dma_type a) size + used_part d (dma_type (edit mid)) size).
Proof.
  intros Haddr Ht Hm Ha Hs Hfit Hed.
  destruct (paint_step total m addr size a edit) as (m1 & mid & m' & k' & Hre & _ & Emg & _ & _ & Hu & Hl & Hp & Hc & Hus & _); [done..|].
  exists m', mid. split_and!; try done. unfold repaint. rewrite Hre. cbn. by rewrite Emg.
Qed.
