(* ===== verification/MemoryManager.v ===== *)
(** The operations of the memory manager (src/src/core/memory.h and memory.cpp) that change its
    maps: mapping, unmapping, protecting, the pools, freeing.

    The state is the class [MemoryManager]; what the code asks of the address space of the host
    and of the tracker of GPU memory is recorded in [calls], newest first. An operation returns
    [None] where the code fails an assertion, dereferences an iterator that is not valid, or
    does not return. The loops over the maps change them while they run, so they have fuel: the
    number of areas and one, since each turn finishes an area. The mutexes are left out. *)
From Stdlib Require Import ZArith Lia.
From stdpp Require Import base gmap list list_numbers strings.
From S2P Require Import Prelude.
From S2P Require Import KernelErrors.
From S2P Require Import Alignment.
From S2P Require Import OrdMap.
From S2P Require Import PhysMemory.
From S2P Require Import Repaint.
From S2P Require Import VirtMemory.

Inductive Call :=
| ImplMap (virtual_addr size phys_addr : Z) (is_exec : bool)
| FileMap (virtual_addr size offset prot : Z)
| ImplUnmap (virtual_addr size : Z)
| ImplProtect (virtual_addr size perms : Z)
| ZeroBacking (phys_addr size : Z)
| GpuMap (virtual_addr size : Z)
| GpuUnmap (virtual_addr size : Z)
| GpuInvalidate (virtual_addr size : Z).

Record PrtArea := mkPrtArea { prt_start : Z; prt_end : Z; mapped : bool }.

Record Memory := mkMemory {
  vma_map : VMAMap;
  dmem_map : PhysMap;
  fmem_map : PhysMap;
  total_direct_size : Z;
  total_flexible_size : Z;
  flexible_usage : Z;
  pool_budget : Z;
  sdk_version : Z;
  prt_areas : list PrtArea;
  calls : list Call
}.
#[export] Instance eta_Memory : Eta Memory := fun s =>
  mkMemory (vma_map s) (dmem_map s) (fmem_map s) (total_direct_size s) (total_flexible_size s)
    (flexible_usage s) (pool_budget s) (sdk_version s) (prt_areas s) (calls s).

Definition call (c : Call) (s : Memory) : Memory := s <| calls ::= cons c |>.

Definition GetAvailableFlexibleSize (s : Memory) : Z := total_flexible_size s -64 flexible_usage s.

(** A call to the tracker for a range that the GPU can address. *)
Definition gpu_call (c : Z -> Z -> Call) (virtual_addr size : Z) (s : Memory) : Memory :=
  if IsValidGpuMapping virtual_addr size then call (c virtual_addr size) s else s.

(** Carve a range of a map of areas, write the fields of the carved area. *)
Definition rewrite_vma (m : VMAMap) (addr size : Z) (edit : VirtualMemoryArea -> VirtualMemoryArea)
    : option (VMAMap * Z) :=
  '(m, handle) ← CarveVMA m addr size;
  v ← get m handle;
  Some (put m handle (edit v), handle).

(** On PS4, read is appended to write mappings. *)
Definition with_read (prot : Z) : Z := if has prot CpuWrite then Z.lor prot CpuRead else prot.

(** ** The physical pieces behind a part of an area

    [UnmapBytesFromEntry] and [PoolDecommit] walk over the pieces behind the part of an area
    that begins at [start_in_vma]: [f] is what they do with the physical address and the size
    of each. *)
Section each_piece.
Context {State : Type} (f : Z -> Z -> State -> option State).

Fixpoint each_piece (l : PhysMap) (start_in_vma size_to_free : Z) (s : State) : option State :=
  match l with
  | [] => if size_to_free =? 0 then Some s else None
  | (offset, area) :: r =>
      if size_to_free =? 0 then Some s else
      let dma_offset := Z.max offset start_in_vma -64 offset in
      let phys_addr := pa_base area +64 dma_offset in
      let size_in_dma := Z.min size_to_free (pa_size area -64 dma_offset) in
      s ← f phys_addr size_in_dma s;
      each_piece r start_in_vma (size_to_free -64 size_in_dma) s
  end.

Definition pieces_behind (areas : PhysMap) (start_in_vma size : Z) (s : State) : option State :=
  '(handle, _) ← floor areas start_in_vma;
  each_piece (from areas handle) start_in_vma size s.
End each_piece.

(** ** Unmapping *)

Definition give_back (type : VMAType.t) (phys_addr size : Z) (s : Memory) : option Memory :=
  match type with
  | VMAType.Direct =>
      m ← repaint (dmem_map s) phys_addr size (fun a => a <| dma_type := PhysicalMemoryType.Allocated |>);
      Some (s <| dmem_map := m |>)
  | VMAType.Flexible =>
      m ← repaint (fmem_map s) phys_addr size (fun a => a <| dma_type := PhysicalMemoryType.Free |>);
      Some (call (ZeroBacking phys_addr size) (s <| fmem_map := m |> <| flexible_usage ::= fun n => n -64 size |>))
  | _ => Some s
  end.

Definition freed (v : VirtualMemoryArea) : VirtualMemoryArea :=
  v <| vma_type := VMAType.Free |> <| prot := NoAccess |> <| phys_areas := [] |> <| disallow_merge := false |>
    <| vma_name := ""%string |>.

(** The state and the number of bytes that are done. *)
Definition UnmapBytesFromEntry (virtual_addr : Z) (v : VirtualMemoryArea) (size : Z) (s : Memory) : option (Memory * Z) :=
  let start_in_vma := virtual_addr -64 vma_base v in
  let size_in_vma := Z.min (vma_size v -64 start_in_vma) size in
  if is_type v VMAType.Free || is_type v VMAType.Pooled then Some (s, size_in_vma) else
  s ← match phys_areas v with
      | [] => Some s
      | areas => pieces_behind (give_back (vma_type v)) areas start_in_vma size_in_vma s
      end;
  '(m, new_it) ← rewrite_vma (vma_map s) virtual_addr size_in_vma freed;
  '(m, _) ← MergeAdjacent m new_it;
  let s := s <| vma_map := m |> in
  Some (if is_type v VMAType.Reserved || is_type v VMAType.PoolReserved then s
        else call (ImplUnmap virtual_addr size_in_vma) s, size_in_vma).

(** The loop of [UnmapMemoryImpl]. *)
Fixpoint unmap_loop (fuel : nat) (virtual_addr size unmapped_bytes : Z) (s : Memory) : option Memory :=
  match fuel with
  | O => None
  | S fuel =>
      '(_, v) ← floor (vma_map s) (virtual_addr +64 unmapped_bytes);
      '(s, unmapped) ← UnmapBytesFromEntry (virtual_addr +64 unmapped_bytes) v (size -64 unmapped_bytes) s;
      if unmapped =? 0 then None else
      let unmapped_bytes := unmapped_bytes +64 unmapped in
      if unmapped_bytes <? size then unmap_loop fuel virtual_addr size unmapped_bytes s else Some s
  end.
Definition UnmapMemoryImpl (virtual_addr size : Z) (s : Memory) : option Memory :=
  unmap_loop (S (length (vma_map s))) virtual_addr size 0 s.

(** The state and the code. *)
Definition UnmapMemory (virtual_addr size : Z) (s : Memory) : option (Memory * Z) :=
  if size =? 0 then Some (s, ORBIS_OK) else
  let virtual_addr := AlignDown virtual_addr KB16 in
  let size := AlignUp size KB16 in
  valid ← IsValidMapping (vma_map s) virtual_addr size;
  if negb valid then Some (s, ORBIS_KERNEL_ERROR_EINVAL) else
  let s := gpu_call GpuUnmap virtual_addr size s in
  s ← UnmapMemoryImpl virtual_addr size s;
  Some (s, ORBIS_OK).

(** The last two loops of [Free]: the mappings of the physical range, then the areas. *)
Definition remove_list (phys_addr size : Z) (m : VMAMap) : list (Z * Z) :=
  flat_map (fun e =>
    let mapping := snd e in
    if negb (is_type mapping VMAType.Direct) then [] else
    flat_map (fun p =>
      let '(offset_in_vma, phys_mapping) := p in
      if (pa_base phys_mapping <? phys_addr +64 size) && (phys_addr <? pa_base phys_mapping +64 pa_size phys_mapping) then
        let phys_offset := Z.max (pa_base phys_mapping) phys_addr -64 pa_base phys_mapping in
        [(vma_base mapping +64 offset_in_vma +64 phys_offset, Z.min (pa_size phys_mapping -64 phys_offset) size)]
      else []) (phys_areas mapping)) m.

Definition Free (phys_addr size : Z) (is_checked : bool) (s : Memory) : option (Memory * Z) :=
  if (total_direct_size s <? phys_addr) || (is_checked && (total_direct_size s <? phys_addr +64 size))
  then Some (s, if is_checked then ORBIS_KERNEL_ERROR_ENOENT else ORBIS_OK) else
  '(handle, _) ← floor (dmem_map s) phys_addr;
  match free_list (from (dmem_map s) handle) phys_addr size is_checked with
  | None => Some (s, ORBIS_KERNEL_ERROR_ENOENT)
  | Some ranges =>
      let removed := remove_list phys_addr size (vma_map s) in
      let s := fold_left (fun s r => gpu_call GpuUnmap (fst r) (snd r) s) removed s in
      s ← foldl (fun s r => s ← s; UnmapMemoryImpl (fst r) (snd r) s) (Some s) removed;
      m ← foldl (fun m r => m ← m; release m r) (Some (dmem_map s)) ranges;
      Some (s <| dmem_map := m |>, ORBIS_OK)
  end.

(** ** Mapping *)

(** The loop of [CreateArea] that clears a fixed range. *)
Fixpoint clear_loop (fuel : nat) (unmap_addr : Z) (v : VirtualMemoryArea) (unmap_size : Z) (s : Memory) : option Memory :=
  if unmap_size =? 0 then Some s else
  match fuel with
  | O => None
  | S fuel =>
      '(s, unmapped) ← UnmapBytesFromEntry unmap_addr v unmap_size s;
      let unmap_addr := unmap_addr +64 unmapped in
      '(_, v) ← floor (vma_map s) unmap_addr;
      clear_loop fuel unmap_addr v (unmap_size -64 unmapped) s
  end.

Definition created (prot_ flags : Z) (type : VMAType.t) (name : string) (v : VirtualMemoryArea) : VirtualMemoryArea :=
  v <| disallow_merge := has flags NoCoalesce |> <| prot := with_read prot_ |> <| vma_name := name |>
    <| vma_type := type |> <| phys_areas := [] |>.

(** The state and the handle of the new area. *)
Definition CreateArea (virtual_addr size prot flags : Z) (type : VMAType.t) (name : string) (s : Memory)
    : option (Memory * Z) :=
  '(_, v) ← floor (vma_map s) virtual_addr;
  s ← (if has flags Fixed then clear_loop (S (length (vma_map s))) virtual_addr v size s else Some s);
  '(_, v) ← floor (vma_map s) virtual_addr;
  if negb (IsFree v) then None else
  '(m, new_vma_handle) ← rewrite_vma (vma_map s) virtual_addr size (created prot flags type name);
  Some (s <| vma_map := m |>, new_vma_handle).

Section back_loop.
Context (wanted : PhysicalMemoryType.t) (edit : PhysicalMemoryArea -> PhysicalMemoryArea).
Context (on_map : Z -> Z -> Z -> Memory -> Memory).

(** The loop of [MapMemory] and [PoolCommit] that takes physical memory for an area, from a
    handle of the physical map on: the physical map, the pieces of the area and the state.
    [on_map] is what is done with the address, the size and the physical address of a piece. *)
Fixpoint back_loop (fuel : nat) (mapped_addr : Z) (handle : option Z) (m areas : PhysMap)
    (current_addr remaining_size : Z) (s : Memory) : option (PhysMap * PhysMap * Memory) :=
  match handle with
  | Some h =>
      if remaining_size =? 0 then Some (m, areas, s) else
      match fuel with
      | O => None
      | S fuel =>
          area ← get m h;
          if negb (bool_decide (dma_type area = wanted)) then
            back_loop fuel mapped_addr (fst <$> upper_bound m h) m areas current_addr remaining_size s
          else
            let size_to_map := Z.min remaining_size (pa_size area) in
            '(m, new_handle) ← retype m (pa_base area) size_to_map edit;
            new_area ← get m new_handle;
            let offset := current_addr -64 mapped_addr in
            '(areas, _) ← MergeAdjacent (put areas offset new_area) offset;
            let s := on_map current_addr size_to_map (pa_base new_area) s in
            '(m, handle) ← MergeAdjacent m new_handle;
            back_loop fuel mapped_addr (fst <$> upper_bound m handle) m areas
              (current_addr +64 size_to_map) (remaining_size -64 size_to_map) s
      end
  | None => if remaining_size =? 0 then Some (m, areas, s) else None
  end.
Definition back (mapped_addr : Z) (m : PhysMap) (size : Z) (s : Memory) : option (PhysMap * PhysMap * Memory) :=
  back_loop (S (length m)) mapped_addr (fst <$> head m) m [] mapped_addr size s.
End back_loop.

(** The loop of [MapMemory] over the physical areas of a direct mapping. *)
Fixpoint direct_loop (fuel : nat) (phys_addr : Z) (m areas : PhysMap) (current_phys_addr remaining_size : Z)
    : option (PhysMap * PhysMap) :=
  if remaining_size =? 0 then Some (m, areas) else
  match fuel with
  | O => None
  | S fuel =>
      '(_, dmem_area) ← floor m current_phys_addr;
      let start_phys_addr := Z.max current_phys_addr (pa_base dmem_area) in
      let offset_in_dma := start_phys_addr -64 pa_base dmem_area in
      let size_in_dma := Z.min (pa_size dmem_area -64 offset_in_dma) remaining_size in
      '(m, dmem_handle) ← retype m start_phys_addr size_in_dma (fun a => a <| dma_type := PhysicalMemoryType.Mapped |>);
      new_dmem_area ← get m dmem_handle;
      let offset_in_vma := current_phys_addr -64 phys_addr in
      '(areas, _) ← MergeAdjacent (put areas offset_in_vma new_dmem_area) offset_in_vma;
      '(m, _) ← MergeAdjacent m dmem_handle;
      direct_loop fuel phys_addr m areas (current_phys_addr +64 size_in_dma) (remaining_size -64 size_in_dma)
  end.

(** The check of the direct memory areas involved in a mapping. *)
Fixpoint check_dmem (l : PhysMap) (end_ : Z) (validate_dmem : bool) : Z :=
  match l with
  | (_, a) :: r =>
      if end_ <=? pa_base a then ORBIS_OK
      else if negb (bool_decide (dma_type a = PhysicalMemoryType.Allocated)) &&
              negb (bool_decide (dma_type a = PhysicalMemoryType.Mapped)) then ORBIS_KERNEL_ERROR_ENOMEM
      else if validate_dmem && bool_decide (dma_type a = PhysicalMemoryType.Mapped) then ORBIS_KERNEL_ERROR_EBUSY
      else check_dmem r end_ validate_dmem
  | [] => ORBIS_OK
  end.

Definition DEFAULT_MAPPING_BASE : Z := 0x200000000.
Definition FW_200 : Z := 0x2000000.

(** Where a new mapping goes: the address, or the code of an error. The alignment is passed to
    [SearchFree] as a [u32]; one that is zero there is a division by zero. *)
Definition place (space : Space) (m : VMAMap) (virtual_addr size flags alignment : Z) : option (Z + Z) :=
  if has flags Fixed && has flags NoOverwrite then
    valid ← IsValidMapping m virtual_addr size;
    if negb valid then Some (inr ORBIS_KERNEL_ERROR_ENOMEM) else
    '(_, v) ← floor m virtual_addr;
    let remaining_size := vma_base v +64 vma_size v -64 virtual_addr in
    if negb (IsFree v) || (remaining_size <? size) then Some (inr ORBIS_KERNEL_ERROR_ENOMEM)
    else Some (inl virtual_addr)
  else if negb (has flags Fixed) then
    let virtual_addr := if virtual_addr =? 0 then DEFAULT_MAPPING_BASE else virtual_addr in
    if wrap32 alignment =? 0 then None else
    virtual_addr ← SearchFree space m virtual_addr size (wrap32 alignment);
    Some (if virtual_addr =? NoAddr then inr ORBIS_KERNEL_ERROR_ENOMEM else inl virtual_addr)
  else Some (inl virtual_addr).

(** The physical memory of a new area: its pieces. *)
Definition map_backing (type : VMAType.t) (mapped_addr size phys_addr : Z) (is_exec : bool) (s : Memory)
    : option (PhysMap * Memory) :=
  match type with
  | VMAType.Flexible =>
      '(m, areas, s) ← back PhysicalMemoryType.Free (fun a => a <| dma_type := PhysicalMemoryType.Flexible |>)
        (fun addr n base s => call (ImplMap addr n base is_exec) s <| flexible_usage ::= fun u => u +64 n |>)
        mapped_addr (fmem_map s) size s;
      Some (areas, s <| fmem_map := m |>)
  | VMAType.Direct =>
      '(m, areas) ← direct_loop (S (length (dmem_map s))) phys_addr (dmem_map s) [] phys_addr size;
      Some (areas, s <| dmem_map := m |>)
  | _ => Some ([], s)
  end.

Definition MapMemory (space : Space) (virtual_addr size prot flags : Z) (type : VMAType.t) (name : string)
    (validate_dmem : bool) (phys_addr alignment : Z) (s : Memory) : option (Memory * (Z + Z)) :=
  if bool_decide (type = VMAType.Flexible) && (total_flexible_size s <? flexible_usage s +64 size)
  then Some (s, inr ORBIS_KERNEL_ERROR_EINVAL) else
  code ← (if phys_addr =? NoAddr then Some ORBIS_OK
          else if total_direct_size s <? phys_addr +64 size then Some ORBIS_KERNEL_ERROR_ENOMEM
          else '(handle, _) ← floor (dmem_map s) phys_addr;
               Some (check_dmem (from (dmem_map s) handle) (phys_addr +64 size) validate_dmem));
  if negb (code =? ORBIS_OK) then Some (s, inr code) else
  placed ← place space (vma_map s) virtual_addr size flags (if 0 <? alignment then alignment else KB16);
  match placed with
  | inr code => Some (s, inr code)
  | inl virtual_addr =>
      let s := gpu_call GpuUnmap virtual_addr size s in
      '(s, new_vma_handle) ← CreateArea virtual_addr size prot flags type name s;
      new_vma ← get (vma_map s) new_vma_handle;
      let mapped_addr := vma_base new_vma in
      let is_exec := has prot CpuExec in
      '(areas, s) ← map_backing type mapped_addr size phys_addr is_exec s;
      let m := put (vma_map s) new_vma_handle (new_vma <| phys_areas := areas |>) in
      m ← (if negb (bool_decide (type = VMAType.Direct)) || (FW_200 <=? wrap32 (sdk_version s))
           then '(m, _) ← MergeAdjacent m new_vma_handle; Some m else Some m);
      let s := s <| vma_map := m |> in
      if bool_decide (type = VMAType.Reserved) || bool_decide (type = VMAType.PoolReserved)
      then Some (s, inl mapped_addr)
      else
        let s := if bool_decide (type = VMAType.Flexible) then s else call (ImplMap mapped_addr size phys_addr is_exec) s in
        Some (gpu_call GpuMap mapped_addr size s, inl mapped_addr)
  end.

(** What [MapFile] asks of the file of a descriptor: whether it is a regular file, and of its
    handle, if it has one, whether the host file behind it, if there is one, may be written. *)
Record OpenFile := mkOpenFile { is_regular : bool; host_file : option (option bool) }.

(** [file] is what the handle table answers for [fd_]. A handle that is null is dereferenced. *)
Definition MapFile (space : Space) (file : option OpenFile) (virtual_addr size prot_ flags fd_ phys_addr : Z) (s : Memory)
    : option (Memory * (Z + Z)) :=
  match file with
  | None => Some (s, inr ORBIS_KERNEL_ERROR_EBADF)
  | Some file =>
      if negb (is_regular file) then Some (s, inr ORBIS_KERNEL_ERROR_EBADF) else
      let prot := with_read prot_ in
      host ← host_file file;
      let prot := match host with Some true => prot | _ => Z.ldiff prot CpuWrite end in
      if GpuRead <=? prot then None else
      let prot := Z.ldiff prot CpuExec in
      placed ← place space (vma_map s) virtual_addr size flags KB16;
      match placed with
      | inr code => Some (s, inr code)
      | inl virtual_addr =>
          let s := gpu_call GpuUnmap virtual_addr size s in
          '(s, new_vma_handle) ← CreateArea virtual_addr size prot flags VMAType.File "anon" s;
          new_vma ← get (vma_map s) new_vma_handle;
          let s := s <| vma_map := put (vma_map s) new_vma_handle (new_vma <| fd := fd_ |>) |> in
          Some (call (FileMap (vma_base new_vma) size phys_addr prot) s, inl (vma_base new_vma))
      end
  end.

(** ** Pools *)

Definition PoolCommit (virtual_addr size prot_ mtype : Z) (s : Memory) : option (Memory * Z) :=
  valid ← IsValidMapping (vma_map s) virtual_addr size;
  if negb valid then None else
  let mapped_addr := AlignUp virtual_addr KB64 in
  '(_, v) ← floor (vma_map s) mapped_addr;
  if negb (is_type v VMAType.PoolReserved) then Some (s, ORBIS_KERNEL_ERROR_EINVAL)
  else if negb (Contains v mapped_addr size) then Some (s, ORBIS_KERNEL_ERROR_EINVAL)
  else if pool_budget s <=? size then Some (s, ORBIS_KERNEL_ERROR_ENOMEM)
  else
    let s := s <| pool_budget ::= fun b => b -64 size |> in
    '(m, new_vma_handle) ← rewrite_vma (vma_map s) virtual_addr size (fun v =>
      v <| disallow_merge := false |> <| prot := with_read prot_ |> <| vma_name := "anon"%string |>
        <| vma_type := VMAType.Pooled |> <| phys_areas := [] |>);
    '(dmem, areas, s) ← back PhysicalMemoryType.Pooled
      (fun a => a <| dma_type := PhysicalMemoryType.Committed |> <| memory_type := mtype |>)
      (fun addr n base s => call (ImplMap addr n base false) s) mapped_addr (dmem_map s) size s;
    new_vma ← get m new_vma_handle;
    '(m, _) ← MergeAdjacent (put m new_vma_handle (new_vma <| phys_areas := areas |>)) new_vma_handle;
    Some (gpu_call GpuMap mapped_addr size (s <| vma_map := m |> <| dmem_map := dmem |>), ORBIS_OK).

(** The first loop of [PoolDecommit], from an iterator on. *)
Fixpoint all_pooled (l : VMAMap) (end_ : Z) : bool :=
  match l with
  | (_, v) :: r =>
      if end_ <? vma_base v +64 vma_size v then true
      else if negb (is_type v VMAType.PoolReserved) && negb (is_type v VMAType.Pooled) then false
      else all_pooled r end_
  | [] => true
  end.

Definition decommitted (v : VirtualMemoryArea) : VirtualMemoryArea :=
  v <| vma_type := VMAType.PoolReserved |> <| prot := NoAccess |> <| disallow_merge := false |>
    <| vma_name := "anon"%string |> <| phys_areas := [] |>.

Fixpoint decommit_loop (fuel : nat) (current_addr remaining_size : Z) (s : Memory) : option Memory :=
  if remaining_size =? 0 then Some s else
  match fuel with
  | O => None
  | S fuel =>
      '(_, v) ← floor (vma_map s) current_addr;
      let start_in_vma := current_addr -64 vma_base v in
      let size_in_vma := Z.min remaining_size (vma_size v -64 start_in_vma) in
      s ← (if is_type v VMAType.Pooled then
             pieces_behind (fun phys_addr n s =>
               m ← repaint (dmem_map s) phys_addr n (fun a => a <| dma_type := PhysicalMemoryType.Pooled |>);
               Some (s <| dmem_map := m |>)) (phys_areas v) start_in_vma size_in_vma
               (s <| pool_budget ::= fun b => b +64 size_in_vma |>)
           else Some s);
      '(m, new_it) ← rewrite_vma (vma_map s) current_addr size_in_vma decommitted;
      '(m, _) ← MergeAdjacent m new_it;
      decommit_loop fuel (current_addr +64 size_in_vma) (remaining_size -64 size_in_vma) (s <| vma_map := m |>)
  end.

Definition PoolDecommit (virtual_addr size : Z) (s : Memory) : option (Memory * Z) :=
  valid ← IsValidMapping (vma_map s) virtual_addr size;
  if negb valid then None else
  '(handle, _) ← floor (vma_map s) virtual_addr;
  if negb (all_pooled (from (vma_map s) handle) (virtual_addr +64 size)) then Some (s, ORBIS_KERNEL_ERROR_EINVAL) else
  let s := gpu_call GpuUnmap virtual_addr size s in
  s ← decommit_loop (S (length (vma_map s))) virtual_addr size s;
  Some (call (ImplUnmap virtual_addr size) s, ORBIS_OK).

(** ** Protection *)

(** [MemoryPermission]: read 1, write 2, execute 4. *)
Definition permissions (prot : Z) : Z :=
  let perms := 0 in
  let perms := if has prot CpuRead then Z.lor perms 1 else perms in
  let perms := if has prot CpuReadWrite then Z.lor perms 3 else perms in
  let perms := if has prot CpuExec then Z.lor perms 4 else perms in
  let perms := if has prot GpuRead then Z.lor perms 1 else perms in
  let perms := if has prot GpuWrite then Z.lor perms 2 else perms in
  if has prot GpuReadWrite then Z.lor perms 3 else perms.

(** The state and the result. The code reads the type of the area through a reference after
    merging, which may have erased it. *)
Definition ProtectBytes (addr : Z) (v : VirtualMemoryArea) (size prot_ : Z) (s : Memory) : option (Memory * Z) :=
  let start_in_vma := addr -64 vma_base v in
  let adjusted_size := Z.min (vma_size v -64 start_in_vma) size in
  if is_type v VMAType.Free || is_type v VMAType.PoolReserved then Some (s, s64 adjusted_size) else
  let prot1 := with_read prot_ in
  let perms := permissions prot1 in
  let prot2 := if is_type v VMAType.Direct || is_type v VMAType.Pooled || is_type v VMAType.File
               then Z.ldiff prot1 CpuExec else prot1 in
  '(m, new_it) ← rewrite_vma (vma_map s) addr adjusted_size (fun v => v <| prot := prot2 |>);
  '(m, _) ← MergeAdjacent m new_it;
  let s := s <| vma_map := m |> in
  read_after ← get m (vma_base v);
  if is_type read_after VMAType.Reserved then Some (s, s64 adjusted_size)
  else Some (if negb (prot_ =? prot v) then call (ImplProtect addr adjusted_size perms) s else s, s64 adjusted_size).

Fixpoint protect_loop (fuel : nat) (addr size prot_ protected_bytes : Z) (s : Memory) : option (Memory * Z) :=
  if negb (protected_bytes <? size) then Some (s, ORBIS_OK) else
  match fuel with
  | O => None
  | S fuel =>
      '(_, v) ← floor (vma_map s) (addr +64 protected_bytes);
      let protected_bytes := if addr +64 protected_bytes <? vma_base v
        then protected_bytes +64 (vma_base v -64 (addr +64 protected_bytes)) else protected_bytes in
      '(s, result) ← ProtectBytes (addr +64 protected_bytes) v (size -64 protected_bytes) prot_ s;
      if result <? 0 then Some (s, s32 result)
      else protect_loop fuel addr size prot_ (protected_bytes +64 result) s
  end.
Definition Protect (addr size prot_ : Z) (s : Memory) : option (Memory * Z) :=
  if size =? 0 then Some (s, ORBIS_OK) else
  valid ← IsValidMapping (vma_map s) addr size;
  if negb valid then None else
  protect_loop (S (length (vma_map s))) addr size prot_ 0 s.

(** ** Memory types and names *)

(** After an area was changed: merge it, and go to the next when it is done. *)
Definition next_vma (m : VMAMap) (handle current_addr : Z) : option (VMAMap * option Z) :=
  '(m, handle) ← MergeAdjacent m handle;
  v ← get m handle;
  Some (m, if vma_base v +64 vma_size v <=? current_addr then fst <$> upper_bound m handle else Some handle).

(** The state and the pieces with the new type. *)
Fixpoint set_types (areas : PhysMap) (type : Z) (m : PhysMap) : option (PhysMap * PhysMap) :=
  match areas with
  | [] => Some (m, [])
  | (offset, a) :: r =>
      '(m, _) ← retype m (pa_base a) (pa_size a) (fun a => a <| memory_type := type |>);
      '(m, r) ← set_types r type m;
      Some (m, (offset, a <| memory_type := type |>) :: r)
  end.

Fixpoint type_loop (fuel : nat) (vma_handle : option Z) (current_addr remaining_size type : Z) (s : Memory) : option Memory :=
  match vma_handle with
  | Some handle =>
      if remaining_size =? 0 then Some s else
      match fuel with
      | O => None
      | S fuel =>
          v ← get (vma_map s) handle;
          let start_in_vma := current_addr -64 vma_base v in
          let size_in_vma := Z.min remaining_size (vma_size v -64 start_in_vma) in
          '(s, handle) ← (if is_type v VMAType.Direct || is_type v VMAType.Pooled then
             '(m, handle) ← CarveVMA (vma_map s) current_addr size_in_vma;
             v ← get m handle;
             '(dmem, areas) ← set_types (phys_areas v) type (dmem_map s);
             Some (s <| vma_map := put m handle (v <| phys_areas := areas |>) |> <| dmem_map := dmem |>, handle)
           else Some (s, handle));
          let current_addr := current_addr +64 size_in_vma in
          '(m, next) ← next_vma (vma_map s) handle current_addr;
          type_loop fuel next current_addr (remaining_size -64 size_in_vma) type (s <| vma_map := m |>)
      end
  | None => Some s
  end.
Definition SetDirectMemoryType (addr size type : Z) (s : Memory) : option (Memory * Z) :=
  valid ← IsValidMapping (vma_map s) addr size;
  if negb valid then None else
  '(handle, _) ← floor (vma_map s) addr;
  s ← type_loop (S (length (vma_map s))) (Some handle) addr size type s;
  Some (s, ORBIS_OK).

Fixpoint name_loop (fuel : nat) (it : option Z) (current_addr remaining_size : Z) (name : string) (m : VMAMap) : option VMAMap :=
  match it with
  | Some handle =>
      if remaining_size =? 0 then Some m else
      match fuel with
      | O => None
      | S fuel =>
          v ← get m handle;
          let start_in_vma := current_addr -64 vma_base v in
          let size_in_vma := Z.min remaining_size (vma_size v -64 start_in_vma) in
          '(m, handle) ← (if IsFree v then Some (m, handle)
             else if size_in_vma <? vma_size v then rewrite_vma m current_addr size_in_vma (fun v => v <| vma_name := name |>)
             else Some (put m handle (v <| vma_name := name |>), handle));
          let current_addr := current_addr +64 size_in_vma in
          '(m, next) ← next_vma m handle current_addr;
          name_loop fuel next current_addr (remaining_size -64 size_in_vma) name m
      end
  | None => Some m
  end.
Definition NameVirtualRange (virtual_addr size : Z) (name : string) (s : Memory) : option Memory :=
  let aligned_size := AlignUp size KB16 in
  let aligned_addr := AlignDown virtual_addr KB16 in
  valid ← IsValidMapping (vma_map s) aligned_addr aligned_size;
  if negb valid then None else
  '(handle, _) ← floor (vma_map s) aligned_addr;
  m ← name_loop (S (length (vma_map s))) (Some handle) aligned_addr aligned_size name (vma_map s);
  Some (s <| vma_map := m |>).

(** ** Set-up *)

Definition MB1 : Z := 0x100000.
Definition ORBIS_KERNEL_TOTAL_MEM : Z := 5248 * MB1.
Definition ORBIS_KERNEL_TOTAL_MEM_PRO : Z := 5888 * MB1.
Definition ORBIS_KERNEL_TOTAL_MEM_DEV : Z := 6656 * MB1.
Definition ORBIS_KERNEL_TOTAL_MEM_DEV_PRO : Z := 7936 * MB1.
Definition ORBIS_KERNEL_FLEXIBLE_MEMORY_BASE : Z := 64 * MB1.
Definition ORBIS_KERNEL_FLEXIBLE_MEMORY_SIZE : Z := 512 * MB1.

(** What the set-up asks of the settings of the emulator. *)
Record Settings := mkSettings { is_neo : bool; is_dev_kit : bool; extra_dmem : Z; extra_fmem : Z }.

(** The constructor: [regions] are the bounds that the address space reports. *)
Definition new_memory (regions : list (Z * Z)) (set : Settings) (version : Z) : Memory :=
  let vma_map := fold_left (fun m r =>
    emplace m (fst r) (mkVMA (fst r) (snd r -64 fst r) [] VMAType.Free NoAccess "" 0 false)) regions [] in
  let total_size := ORBIS_KERNEL_TOTAL_MEM_DEV_PRO in
  let total_size := if negb (extra_dmem set =? 0) then total_size +64 wrap64 (extra_dmem set * MB1) else total_size in
  let total_size := if negb (extra_fmem set =? 0) then total_size +64 wrap64 (extra_fmem set * MB1) else total_size in
  let flexible := ORBIS_KERNEL_FLEXIBLE_MEMORY_SIZE +64 wrap64 (extra_fmem set) in
  mkMemory vma_map [(0, mkPhys 0 total_size 0 PhysicalMemoryType.Free)]
    [(total_size, mkPhys total_size flexible 0 PhysicalMemoryType.Free)]
    total_size flexible 0 0 version (replicate 3 (mkPrtArea 0 0 false)) [].

Definition SetupMemoryRegions (set : Settings) (flexible_size : Z) (use_extended_mem1 use_extended_mem2 : bool) (s : Memory)
    : option Memory :=
  let total_size := if is_neo set then ORBIS_KERNEL_TOTAL_MEM_PRO else ORBIS_KERNEL_TOTAL_MEM in
  let total_size := if is_dev_kit set
    then (if is_neo set then ORBIS_KERNEL_TOTAL_MEM_DEV_PRO else ORBIS_KERNEL_TOTAL_MEM_DEV) else total_size in
  let total_size := if negb (extra_dmem set =? 0) then total_size +64 wrap64 (extra_dmem set * MB1) else total_size in
  let '(total_size, flexible_size) := if negb (extra_fmem set =? 0)
    then (total_size +64 wrap64 (extra_fmem set * MB1), flexible_size +64 wrap64 (extra_fmem set * MB1))
    else (total_size, flexible_size) in
  let total_size := if negb use_extended_mem1 && is_neo set then total_size -64 256 * MB1 else total_size in
  let total_size := if negb use_extended_mem2 && negb (is_neo set) then total_size -64 128 * MB1 else total_size in
  let s := s <| total_flexible_size := flexible_size -64 ORBIS_KERNEL_FLEXIBLE_MEMORY_BASE |> in
  if negb (flexible_usage s <=? total_flexible_size s) then None else
  let old_direct_size := total_direct_size s in
  let s := s <| total_direct_size := total_size -64 flexible_size |> in
  let cut := old_direct_size -64 total_direct_size s in
  '(handle, a) ← floor (dmem_map s) (total_direct_size s);
  if negb (is_free a && (cut <=? pa_size a)) then None
  else Some (s <| dmem_map ::= fun m => put m handle (a <| pa_size ::= fun n => n -64 cut |>) |>).

(** ** Access to the memory *)

Definition SetPrtArea (id address size : Z) (s : Memory) : option Memory :=
  area ← (if (0 <=? id) && (id <? 3) then prt_areas s !! Z.to_nat id else None);
  let s := if mapped area then call (GpuUnmap (prt_start area) (prt_end area -64 prt_start area)) s else s in
  let s := s <| prt_areas ::= <[Z.to_nat id := mkPrtArea address (address +64 size) true]> |> in
  Some (call (GpuMap address size) s).

(** The parts of the destination in order: copied from an address, or zero. *)
Inductive Chunk := Copied (virtual_addr size : Z) | Zeroes (size : Z).

Fixpoint copy_loop (l : VMAMap) (virtual_addr size : Z) : option (list Chunk) :=
  if size =? 0 then Some [] else
  match l with
  | [] => None
  | (first, v) :: r =>
      let copy_size := Z.min (vma_size v -64 (virtual_addr -64 first)) size in
      rest ← copy_loop r (virtual_addr +64 copy_size) (size -64 copy_size);
      Some ((if IsMapped v then Copied virtual_addr copy_size else Zeroes copy_size) :: rest)
  end.
Definition CopySparseMemory (m : VMAMap) (virtual_addr size : Z) : option (list Chunk) :=
  valid ← IsValidMapping m virtual_addr 0;
  if negb valid then None else
  '(handle, _) ← floor m virtual_addr;
  copy_loop (from m handle) virtual_addr size.

(** A [memcpy] to the backing memory: the physical address, the offset in the data and the size. *)
Record BackingWrite := mkWrite { bw_phys : Z; bw_offset : Z; bw_size : Z }.

Fixpoint vmas_to_write (l : VMAMap) (virtual_addr size : Z) : option (list VirtualMemoryArea) :=
  match l with
  | [] => None
  | (_, v) :: r =>
      if Overlaps v virtual_addr size && HasPhysicalBacking v
      then rest ← vmas_to_write r virtual_addr size; Some (v :: rest) else Some []
  end.

(** The writes behind one area, and what is left to write. The source pointer is not advanced. *)
Fixpoint write_pieces (l : PhysMap) (start_in_vma size : Z) : list BackingWrite * Z :=
  match l with
  | [] => ([], size)
  | (first, a) :: r =>
      if size =? 0 then ([], size) else
      let start_in_dma := Z.max start_in_vma first -64 first in
      let copy_size := Z.min size (pa_size a -64 start_in_dma) in
      let '(rest, size) := write_pieces r start_in_vma (size -64 copy_size) in
      (mkWrite (pa_base a +64 start_in_dma) 0 copy_size :: rest, size)
  end.
Fixpoint write_vmas (l : list VirtualMemoryArea) (virtual_addr size : Z) : option (list BackingWrite) :=
  match l with
  | [] => Some []
  | v :: r =>
      let start_in_vma := Z.max virtual_addr (vma_base v) -64 vma_base v in
      '(handle, _) ← floor (phys_areas v) start_in_vma;
      let '(writes, size) := write_pieces (from (phys_areas v) handle) start_in_vma size in
      rest ← write_vmas r virtual_addr size;
      Some (writes ++ rest)
  end.
(** Whether it succeeds, and the writes. *)
Definition TryWriteBacking (m : VMAMap) (virtual_addr size : Z) : option (bool * list BackingWrite) :=
  valid ← IsValidMapping m virtual_addr size;
  if negb valid then None else
  '(handle, _) ← floor m virtual_addr;
  vmas ← vmas_to_write (from m handle) virtual_addr size;
  match vmas with
  | [] => Some (false, [])
  | _ => writes ← write_vmas vmas virtual_addr size; Some (true, writes)
  end.
