(* ===== verification/Unmapping.v ===== *)
(** Unmapping: what [UnmapMemory] does to the virtual and the physical maps.

    [mm_ok] is the consistency of the maps when no physical memory is mapped twice: what is
    behind a direct page is mapped direct memory, what is behind a flexible page is flexible
    memory, and the count of flexible memory is right. *)
From Stdlib Require Import ZArith Lia.
From stdpp Require Import base gmap list list_numbers strings.
From S2P Require Import Prelude.
From S2P Require Import KernelErrors.
From S2P Require Import Alignment.
From S2P Require Import OrdMap.
From S2P Require Import PhysMemory.
From S2P Require Import VirtMemory.
From S2P Require Import Repaint.
From S2P Require Import MemoryManager.

(** * The physical ranges behind a part of an area *)

(** Ranges that follow each other from an offset to another, each the memory behind its part,
    of one use. *)
Fixpoint runs (areas : PhysMap) (lo : Z) (ranges : list (Z * Z)) (hi : Z) : Prop :=
  match ranges with
  | [] => lo = hi
  | (p, n) :: r =>
      0 < n /\ 0 <= p /\ p + n <= U64_MAX /\ (exists t d, forall x, lo <= x < lo + n -> backing areas x = Some (p + (x - lo), t, d)) /\ runs areas (lo + n) r hi
  end.

Fixpoint each_range {State} (f : Z -> Z -> State -> option State) (ranges : list (Z * Z)) (s : State) : option State :=
  match ranges with
  | [] => Some s
  | (p, n) :: r => s ← f p n s; each_range f r s
  end.

Lemma runs_weaken areas areas' lo ranges hi : runs areas lo ranges hi -> (forall x, lo <= x < hi -> backing areas' x = backing areas x) ->
  runs areas' lo ranges hi.
Proof.
  revert lo. induction ranges as [|[p n] r IH]; intros lo; cbn; [done|]. intros (Hn & Hp & Hm & (t & d & Hb) & Hr) Heq.
  assert (Hle : forall lo, runs areas lo r hi -> lo <= hi).
  { clear. induction r as [|[p n] r IH]; intros lo; cbn; [lia|]. intros (? & _ & _ & _ & ?%IH). lia. }
  specialize (Hle _ Hr). split_and!; try done.
  - exists t, d. intros x Hx. rewrite Heq by lia. by apply Hb.
  - apply IH; [done|]. intros x Hx. apply Heq. lia.
Qed.

Lemma each_piece_zero {State} (f : Z -> Z -> State -> option State) l start s : each_piece f l start 0 s = Some s.
Proof. by destruct l as [|[? ?] ?]. Qed.

Lemma each_piece_cons {State} (f : Z -> Z -> State -> option State) o a r start size s : size <> 0 ->
  each_piece f ((o, a) :: r) start size s =
    let dma_offset := Z.max o start -64 o in
    let n := Z.min size (pa_size a -64 dma_offset) in
    s ← f (pa_base a +64 dma_offset) n s; each_piece f r start (size -64 n) s.
Proof. cbn. by destruct (Z.eqb_spec size 0). Qed.

(** The walk over the pieces of an area calls [f] on such ranges. *)
Lemma each_piece_runs {State} (f : Z -> Z -> State -> option State) l lo hi start c size : tiled lo l hi -> 0 <= lo -> hi <= U64_MAX ->
  0 <= start -> c = Z.max start lo -> match l with (o, a) :: _ => c < o + pa_size a | [] => True end -> 0 <= size -> c + size <= hi ->
  exists ranges, runs l c ranges (c + size) /\ forall s, each_piece f l start size s = each_range f ranges s.
Proof.
  revert lo c size. induction l as [|[o a] r IH]; intros lo c size Ht Hlo Hhi Hst Hc Hfirst Hs Hfit.
  { cbn in Ht. exists []. cbn. split; [lia|]. intros s. destruct (Z.eqb_spec size 0); [done|lia]. }
  destruct Ht as ((-> & Ha & Hb & He) & Hr). pose proof (tiled_le _ _ _ Hr) as Hle. destruct (Z.eq_dec size 0) as [->|Hne].
  { exists []. cbn [runs]. split; [lia|]. intros s. by rewrite each_piece_zero. }
  set (n := Z.min size (pa_size a - (c - lo))).
  assert (Hback : forall x, c <= x < c + n -> backing ((lo, a) :: r) x = Some (pa_base a + (c - lo) + (x - c), memory_type a, dma_type a)).
  { intros x Hx. cbn. destruct (Z.leb_spec lo x), (Z.ltb_spec x (lo + pa_size a)); try lia. cbn. do 3 f_equal. lia. }
  assert (Hstep : forall s, each_piece f ((lo, a) :: r) start size s = s ← f (pa_base a + (c - lo)) n s; each_piece f r start (size - n) s).
  { intros s. rewrite each_piece_cons by done. cbn zeta. replace (Z.max lo start) with c by lia.
    rewrite !(wrap64_small (c - lo)), (wrap64_small (pa_base a + (c - lo))), (wrap64_small (pa_size a - (c - lo))) by u64_lia. fold n.
    by rewrite (wrap64_small (size - n)) by u64_lia. }
  destruct (Z.eq_dec (size - n) 0) as [E|E].
  - exists [(pa_base a + (c - lo), n)]. split; [|intros s; rewrite Hstep, E; cbn [each_range]; destruct (f _ _ s) as [s'|]; [exact (each_piece_zero f r start s')|done]].
    cbn [runs]. split_and!; [lia|lia|lia|by eexists _, _|lia].
  - destruct (IH (lo + pa_size a) (c + n) (size - n)) as (ranges & Hruns & Heach); [done|lia|done|done|lia| |lia|lia|].
    { destruct r as [|[o2 a2] r2]; [done|]. destruct Hr as ((-> & ? & _) & _). lia. }
    exists ((pa_base a + (c - lo), n) :: ranges). replace (c + size) with (c + n + (size - n)) by lia. split.
    + cbn [runs]. split_and!; [lia|lia|lia|by eexists _, _|]. apply (runs_weaken r); [done|]. intros x Hx. cbn.
      destruct (Z.ltb_spec x (lo + pa_size a)); [lia|]. by rewrite andb_false_r.
    + intros s. rewrite Hstep. cbn. destruct (f _ _ s); [|done]. cbn. apply Heach.
Qed.

Lemma tiled_from lo areas hi k : tiled lo areas hi -> k <= lo -> from areas k = areas.
Proof.
  revert lo. induction areas as [|[o a] r IH]; intros lo; cbn; [done|]. intros ((-> & ? & _) & Hr) Hk. unfold from in *. cbn.
  destruct (Z.leb_spec k lo); [|lia]. f_equal. apply (IH _ Hr). lia.
Qed.

(** The pieces of an area from the one that holds an offset on. *)
Lemma tiled_floor lo areas hi start : tiled lo areas hi -> lo <= start < hi ->
  exists o a r, floor areas start = Some (o, a) /\ from areas o = (o, a) :: r /\ tiled o ((o, a) :: r) hi /\
    lo <= o <= start /\ start < o + pa_size a /\ (forall x, o <= x -> backing areas x = backing ((o, a) :: r) x).
Proof.
  revert lo. induction areas as [|[o a] r IH]; intros lo Ht Hst; [cbn in Ht; lia|]. pose proof Ht as ((Ho & Hs & _) & Hr). subst o.
  destruct (Z.lt_ge_cases start (lo + pa_size a)) as [Hin|Hout].
  - exists lo, a, r. split_and!; try done; try lia.
    + cbn. destruct (Z.ltb_spec start lo); [lia|]. destruct r as [|[o2 a2] r2]; [done|]. destruct Hr as ((-> & _) & _). cbn.
      by destruct (Z.ltb_spec start (lo + pa_size a)); [|lia].
    + by apply (tiled_from lo _ hi).
  - destruct (IH _ Hr) as (o & b & r2 & Hfl & Hfrom & Ht2 & Ho & Hb & Hback); [lia|]. exists o, b, r2. split_and!; try done; try lia.
    + cbn. destruct (Z.ltb_spec start lo); [lia|]. by rewrite Hfl.
    + unfold from in *. cbn. destruct (Z.leb_spec o lo); [lia|done].
    + intros x Hx. cbn [backing]. destruct (Z.ltb_spec x (lo + pa_size a)); [lia|]. rewrite andb_false_r. by apply Hback.
Qed.

Lemma pieces_behind_runs {State} (f : Z -> Z -> State -> option State) areas hi start size : tiled 0 areas hi -> hi <= U64_MAX ->
  0 <= start < hi -> 0 <= size -> start + size <= hi ->
  exists ranges, runs areas start ranges (start + size) /\ forall s, pieces_behind f areas start size s = each_range f ranges s.
Proof.
  intros Ht Hhi Hst Hs Hfit. destruct (tiled_floor 0 areas hi start Ht Hst) as (o & a & r & Hfl & Hfrom & Ht2 & Ho & Ha & Hback).
  destruct (each_piece_runs f ((o, a) :: r) o hi start start size) as (ranges & Hruns & Heach); [done|lia|lia|lia|lia|done|done|done|].
  exists ranges. split.
  - apply (runs_weaken _ _ _ _ _ Hruns). intros x Hx. apply Hback. lia.
  - intros s. unfold pieces_behind. rewrite Hfl. cbn [mbind option_bind]. rewrite Hfrom. apply Heach.
Qed.

Definition in_ranges (ranges : list (Z * Z)) (x : Z) : Prop := exists p n, (p, n) ∈ ranges /\ p <= x < p + n.

Lemma in_ranges_cons p n r x : in_ranges ((p, n) :: r) x <-> p <= x < p + n \/ in_ranges r x.
Proof.
  unfold in_ranges. split.
  - intros (q & k & [[= -> ->]|Hin]%elem_of_cons & Hx); [by left|right; by exists q, k].
  - intros [Hx|(q & k & Hin & Hx)]; [exists p, n|exists q, k]; rewrite elem_of_cons; tauto.
Qed.

Lemma runs_le areas lo ranges hi : runs areas lo ranges hi -> lo <= hi.
Proof. revert lo. induction ranges as [|[p n] r IH]; intros lo; cbn; [lia|]. intros (? & _ & _ & _ & ?%IH). lia. Qed.

Lemma runs_in areas lo ranges hi p : runs areas lo ranges hi ->
  in_ranges ranges p <-> exists x t d, lo <= x < hi /\ backing areas x = Some (p, t, d).
Proof.
  revert lo. induction ranges as [|[q n] r IH]; intros lo; cbn.
  - intros ->. split; [by intros (? & ? & []%not_elem_of_nil & _)|]. intros (x & _ & _ & Hx & _). lia.
  - intros (Hn & _ & _ & (t & d & Hb) & Hr). pose proof (runs_le _ _ _ _ Hr) as Hle. rewrite in_ranges_cons, (IH _ Hr). split.
    + intros [Hp|(x & t' & d' & Hx & Hbx)]; [|exists x, t', d'; split; [lia|done]].
      exists (lo + (p - q)), t, d. split; [lia|]. rewrite Hb by lia. do 3 f_equal. lia.
    + intros (x & t' & d' & Hx & Hbx). destruct (Z.lt_ge_cases x (lo + n)) as [Hlt|Hge]; [|right; exists x, t', d'; split; [lia|done]].
      left. rewrite Hb in Hbx by lia. injection Hbx as <- _ _. lia.
Qed.

Fixpoint separate (ranges : list (Z * Z)) : Prop :=
  match ranges with
  | [] => True
  | (p, n) :: r => (forall x, p <= x < p + n -> ~ in_ranges r x) /\ separate r
  end.

Lemma runs_separate areas lo ranges hi : runs areas lo ranges hi ->
  (forall x y p t d t' d', lo <= x < hi -> lo <= y < hi -> backing areas x = Some (p, t, d) -> backing areas y = Some (p, t', d') -> x = y) ->
  separate ranges.
Proof.
  revert lo. induction ranges as [|[q n] r IH]; intros lo; cbn; [done|]. intros (Hn & _ & _ & (t & d & Hb) & Hr) Hinj.
  pose proof (runs_le _ _ _ _ Hr) as Hle. split.
  - intros x Hx (y & t' & d' & Hy & Hby)%(runs_in _ _ _ _ _ Hr).
    assert (lo + (x - q) = y); [|lia]. apply (Hinj _ _ x t d t' d'); [lia|lia| |done]. rewrite Hb by lia. do 3 f_equal. lia.
  - apply (IH _ Hr). intros x y p t1 d1 t2 d2 Hx Hy. apply Hinj; lia.
Qed.

(** * Repainting ranges of one use *)

Definition total_of (ranges : list (Z * Z)) : Z := foldr (fun r n => snd r + n) 0 ranges.

Lemma runs_total areas lo ranges hi : runs areas lo ranges hi -> total_of ranges = hi - lo.
Proof. revert lo. induction ranges as [|[q n] r IH]; intros lo; cbn; [lia|]. intros (_ & _ & _ & _ & Hr%IH). unfold total_of in Hr. lia. Qed.

(** What repainting ranges of the use [d1] with [d2] leaves. *)
Record repainted (d1 d2 : PhysicalMemoryType.t) (ranges : list (Z * Z)) (total : Z) (m m' : PhysMap) : Prop := {
  rp_laid : laid 0 m' total;
  rp_coalesced : forall d, coalesced d m -> coalesced d m';
  rp_in : forall x t, in_ranges ranges x -> phys_at m x = Some (d1, t) -> phys_at m' x = Some (d2, t);
  rp_out : forall x, ~ in_ranges ranges x -> phys_at m' x = phys_at m x;
  rp_used : used d1 m' = used d1 m - total_of ranges /\ used d2 m' = used d2 m + total_of ranges
}.

Lemma repaint_ranges d1 d2 total ranges m : d1 <> d2 -> total <= U64_MAX -> laid 0 m total -> coalesced d1 m -> separate ranges ->
  (forall p n, (p, n) ∈ ranges -> 0 < n /\ 0 <= p /\ exists t, forall x, p <= x < p + n -> phys_at m x = Some (d1, t)) ->
  exists m', each_range (fun p n m => repaint m p n (fun a => a <| dma_type := d2 |>)) ranges m = Some m' /\ repainted d1 d2 ranges total m m'.
Proof.
  intros Hd Ht. revert m. induction ranges as [|[p n] r IH]; intros m Hl Hc Hsep Hr.
  { exists m. split; [done|]. split; try done; [by intros x t (? & ? & []%not_elem_of_nil & _)|cbn; lia]. }
  destruct Hsep as [Hfirst Hsep]. destruct (Hr p n) as (Hn & Hp & t & Hrun); [by left|].
  destruct (use_run total m d1 t p n Hl Hc Hn Hrun) as (a & Ha & Hu & Hab & Hfit).
  destruct (repaint_spec total m p n a (fun a => a <| dma_type := d2 |>)) as (m1 & mid & E & Hl1 & Humid & Hpaint & Hc1 & Hused); [done..|].
  assert (Huse : use_of (mid <| dma_type := d2 |>) = (d2, t)) by (unfold use_of in *; cbn; congruence). rewrite Huse in Hpaint.
  assert (Hkeep : forall x, ~ (p <= x < p + n) -> phys_at m1 x = phys_at m x).
  { intros x Hx. rewrite Hpaint. by destruct (Z.leb_spec p x), (Z.ltb_spec x (p + n)); try lia. }
  destruct (IH m1) as (m' & E' & [Hl' Hc' Hin' Hout' [Hus1 Hus2]]); [done|by apply Hc1|done| |].
  { intros q k Hq. destruct (Hr q k) as (Hk & Hq0 & t' & Hrun'); [by right|]. split_and!; [done|done|]. exists t'. intros x Hx.
    rewrite Hkeep; [by apply Hrun'|]. intros Hx2. apply (Hfirst x Hx2). by exists q, k. }
  exists m'. split; [cbn; by rewrite E|]. assert (Hda : dma_type a = d1) by (unfold use_of in Hu; congruence).
  split; [done|by auto| | |].
  - intros x t' Hx Hxm. apply in_ranges_cons in Hx as [Hx|Hx].
    + rewrite Hout' by (by apply Hfirst). rewrite Hrun in Hxm by done. rewrite Hpaint.
      destruct (Z.leb_spec p x), (Z.ltb_spec x (p + n)); try lia. cbn. congruence.
    + apply Hin'; [done|]. rewrite Hkeep; [done|]. intros Hx2. by apply (Hfirst x Hx2).
  - intros x Hx. rewrite in_ranges_cons in Hx. rewrite Hout', Hkeep; [done|tauto..].
  - rewrite Hus1, Hus2, !Hused, Hda. unfold used_part, total_of. cbn. repeat case_bool_decide; (done || lia).
Qed.

(** * Changing a range of the virtual map *)

(** Carving, writing and merging: what the map says of each address. *)
Lemma repage_spec hi m addr size v edit : virt_ok hi m -> 0 <= addr -> area_at m addr = Some v -> 0 < size -> addr + size <= area_end v ->
  (forall w, vma_base (edit w) = vma_base w /\ vma_size (edit w) = vma_size w) -> (forall w, vma_ok w -> vma_ok (edit w)) ->
  exists m1 m2 k mid, rewrite_vma m addr size edit = Some (m1, addr) /\ MergeAdjacent m1 addr = Some (m2, k) /\
    virt_ok hi m1 /\ virt_ok hi m2 /\ get m1 addr = Some (edit mid) /\ vma_base mid = addr /\ vma_size mid = size /\ vma_ok mid /\
    (forall x, addr <= x < addr + size -> page_of mid x = page_of v x) /\
    (forall x, page_at m1 x = if (addr <=? x) && (x <? addr + size) then Some (page_of (edit mid) x) else page_at m x) /\
    (forall x, page_at m2 x = page_at m1 x) /\ (past m2 (addr + size) <= past m (addr + size))%nat.
Proof.
  intros Hok Haddr Hv Hs Hfit Hed Hkeep.
  destruct (carve_vma_spec hi m addr size v Hok Haddr Hv Hs Hfit) as (l & r & low & mid & high & E & Hcv & Hcarve & [Hhi Hl] & Hpage).
  pose proof (cv_base _ _ _ _ _ _ _ Hcv) as Hmb. pose proof (cv_size _ _ _ _ _ _ _ Hcv) as Hms. cbn in Hmb, Hms.
  destruct (Hed mid) as [Heb Hes]. rewrite app_assoc in Hcarve, Hl, Hpage. pose proof Hl as (_ & _ & _ & Hmok & _)%laid_app.
  destruct (edit_spec 0 (l ++ low) addr mid (edit mid) (high ++ r) hi) as (Hl1 & Hput & Hv1); [done|cbn; lia|cbn; lia|by apply Hkeep|].
  destruct (merge_spec 0 (l ++ low) addr (edit mid) (high ++ r) hi) as (l' & k' & a' & r' & Hmg & Emg & Hl2 & Hv2); [lia|done|done|].
  set (m1 := (l ++ low) ++ (addr, edit mid) :: high ++ r) in *.
  exists m1, (l' ++ (k', a') :: r'), k', mid. split_and!; try done.
  - unfold rewrite_vma. rewrite Hcarve. cbn [mbind option_bind]. rewrite (get_app 0 _ _ _ _ hi) by (by eapply laid_ordered).
    cbn [mbind option_bind]. by rewrite Hput.
  - by apply (get_app 0 _ _ _ _ hi), laid_ordered.
  - lia.
  - intros x Hx. apply (cv_view _ _ _ _ _ _ _ Hcv). apply inside_spec. unfold area_end. cbn. lia.
  - intros x. unfold page_at in *. rewrite Hv1, Hpage. unfold inside, area_end. cbn. rewrite Hmb, Hms.
    by replace (vma_base v + (addr - vma_base v)) with addr by lia.
  - assert (Hpos : vma_base v <= addr) by (destruct (area_at_in _ _ _ Hv) as (_ & _ & _ & _ & Hx); cbn in Hx; lia).
    assert (Hp1 : past m1 (addr + size) = past m (addr + size)).
    { unfold m1. rewrite E. pose proof (carved_past l r v (addr - vma_base v) size low mid high (edit mid) Hcv) as Hp. unfold area_end in Hfit.
      cbn [area_base area_size virt_area] in *. replace (vma_base v + (addr - vma_base v)) with addr in Hp by lia. apply Hp; lia. }
    rewrite <- Hp1. apply (merged_past 0 hi); (done || lia).
Qed.

(** * Consistency of the maps *)

(** The physical memory behind a page of a type. *)
Definition backed (s : Memory) (ty : VMAType.t) (x p t : Z) : Prop :=
  exists pg d, page_at (vma_map s) x = Some pg /\ pg_type pg = ty /\ pg_backing pg = Some (p, t, d).

Record mm_ok (hi dtotal ftotal : Z) (s : Memory) : Prop := {
  mk_virt : virt_ok hi (vma_map s);
  mk_dmem : dtotal <= U64_MAX /\ laid 0 (dmem_map s) dtotal /\ coalesced PhysicalMemoryType.Mapped (dmem_map s);
  mk_fmem : ftotal <= U64_MAX /\ laid 0 (fmem_map s) ftotal /\ coalesced PhysicalMemoryType.Flexible (fmem_map s);
  mk_direct : forall x p t, backed s VMAType.Direct x p t -> phys_at (dmem_map s) p = Some (PhysicalMemoryType.Mapped, t);
  mk_flexible : forall x p t, backed s VMAType.Flexible x p t -> phys_at (fmem_map s) p = Some (PhysicalMemoryType.Flexible, t);
  mk_alone : forall ty x y p t t', ty = VMAType.Direct \/ ty = VMAType.Flexible -> backed s ty x p t -> backed s ty y p t' -> x = y;
  mk_usage : flexible_usage s = used PhysicalMemoryType.Flexible (fmem_map s)
}.

Definition free_page : page := mkPage VMAType.Free NoAccess "" false None.

(** Unmapping leaves free and pooled pages as they are. *)
Definition unmapped_page (pg : page) : page :=
  if bool_decide (pg_type pg = VMAType.Free) || bool_decide (pg_type pg = VMAType.Pooled) then pg else free_page.

(** What unmapping a range does. *)
Record unmapped (addr size : Z) (s s' : Memory) : Prop := {
  um_page : forall x, page_at (vma_map s') x =
    if (addr <=? x) && (x <? addr + size) then unmapped_page <$> page_at (vma_map s) x else page_at (vma_map s) x;
  um_direct : forall x p t, addr <= x < addr + size -> backed s VMAType.Direct x p t ->
    phys_at (dmem_map s') p = Some (PhysicalMemoryType.Allocated, t);
  um_dmem : forall p, (forall x t, addr <= x < addr + size -> ~ backed s VMAType.Direct x p t) -> phys_at (dmem_map s') p = phys_at (dmem_map s) p;
  um_flexible : forall x p t, addr <= x < addr + size -> backed s VMAType.Flexible x p t ->
    phys_at (fmem_map s') p = Some (PhysicalMemoryType.Free, t);
  um_fmem : forall p, (forall x t, addr <= x < addr + size -> ~ backed s VMAType.Flexible x p t) -> phys_at (fmem_map s') p = phys_at (fmem_map s) p;
  um_rest : total_direct_size s' = total_direct_size s /\ total_flexible_size s' = total_flexible_size s /\
    pool_budget s' = pool_budget s /\ sdk_version s' = sdk_version s /\ prt_areas s' = prt_areas s
}.

(** ** Giving physical memory back *)

Lemma give_back_direct ranges s :
  each_range (give_back VMAType.Direct) ranges s =
    m ← each_range (fun p n m => repaint m p n (fun a => a <| dma_type := PhysicalMemoryType.Allocated |>)) ranges (dmem_map s);
    Some (s <| dmem_map := m |>).
Proof.
  revert s. induction ranges as [|[p n] r IH]; intros s; cbn [each_range]; [by destruct s|]. cbn [give_back].
  destruct (repaint (dmem_map s) p n _) as [m|]; [|done]. cbn [mbind option_bind]. rewrite IH. cbn [dmem_map upd]. by destruct (each_range _ r m).
Qed.

Definition same_but_fmem (s s' : Memory) : Prop :=
  vma_map s' = vma_map s /\ dmem_map s' = dmem_map s /\ total_direct_size s' = total_direct_size s /\
  total_flexible_size s' = total_flexible_size s /\ pool_budget s' = pool_budget s /\ sdk_version s' = sdk_version s /\ prt_areas s' = prt_areas s.

Lemma give_back_flexible ranges s m :
  each_range (fun p n m => repaint m p n (fun a => a <| dma_type := PhysicalMemoryType.Free |>)) ranges (fmem_map s) = Some m ->
  (forall p n, (p, n) ∈ ranges -> 0 < n) -> total_of ranges <= flexible_usage s <= U64_MAX ->
  exists s', each_range (give_back VMAType.Flexible) ranges s = Some s' /\ same_but_fmem s s' /\ fmem_map s' = m /\
    flexible_usage s' = flexible_usage s - total_of ranges.
Proof.
  revert s. induction ranges as [|[p n] r IH]; intros s; cbn [each_range].
  { intros [= <-] _ _. exists s. cbn. split_and!; (done || lia). }
  cbn [give_back]. destruct (repaint (fmem_map s) p n _) as [m1|]; [|done]. cbn [mbind option_bind]. intros Hr Hpos Hu.
  assert (Hn : 0 < n) by (by apply (Hpos p); left). assert (Hr0 : 0 <= total_of r).
  { assert (Hr' : forall p n, (p, n) ∈ r -> 0 < n) by (intros q k Hq; apply (Hpos q); by right). clear -Hr'.
    unfold total_of. induction r as [|[q k] r IH]; cbn; [lia|]. assert (0 < k) by (by apply (Hr' q); left).
    assert (0 <= foldr (fun r n => snd r + n) 0 r) by (apply IH; intros q' k' Hq; apply (Hr' q'); by right). lia. }
  assert (Htot : total_of ((p, n) :: r) = n + total_of r) by done.
  destruct (IH (call (ZeroBacking p n) (s <| fmem_map := m1 |> <| flexible_usage ::= fun u => u -64 n |>))) as (s' & E & Hsame & Hm & Hus).
  - exact Hr.
  - intros q k Hq. apply (Hpos q). by right.
  - unfold call, upd. cbn. rewrite wrap64_small by u64_lia. lia.
  - exists s'. split; [exact E|]. split; [exact Hsame|]. split; [done|]. rewrite Hus, Htot. unfold call, upd. cbn. rewrite wrap64_small by u64_lia. lia.
Qed.

Lemma runs_use m d1 areas lo ranges hi : runs areas lo ranges hi ->
  (forall x p t d, lo <= x < hi -> backing areas x = Some (p, t, d) -> phys_at m p = Some (d1, t)) ->
  forall p n, (p, n) ∈ ranges -> 0 < n /\ 0 <= p /\ exists t, forall x, p <= x < p + n -> phys_at m x = Some (d1, t).
Proof.
  revert lo. induction ranges as [|[q k] r IH]; intros lo; cbn; [by intros _ _ p n []%not_elem_of_nil|].
  intros (Hk & Hq & _ & (t & d & Hb) & Hr) Huse p n. pose proof (runs_le _ _ _ _ Hr) as Hle. intros [[= -> ->]|Hin]%elem_of_cons.
  - split_and!; [done|done|]. exists t. intros x Hx. apply (Huse (lo + (x - q)) x t d); [lia|]. rewrite Hb by lia. do 3 f_equal. lia.
  - apply (IH _ Hr); [|done]. intros x p' t' d' Hx. apply Huse. lia.
Qed.

(** What giving back the physical memory of a range does. *)
Record returned (dtotal ftotal addr size : Z) (s s' : Memory) : Prop := {
  rt_vma : vma_map s' = vma_map s;
  rt_dmem_ok : laid 0 (dmem_map s') dtotal /\ coalesced PhysicalMemoryType.Mapped (dmem_map s');
  rt_fmem_ok : laid 0 (fmem_map s') ftotal /\ coalesced PhysicalMemoryType.Flexible (fmem_map s');
  rt_direct : forall x p t, addr <= x < addr + size -> backed s VMAType.Direct x p t ->
    phys_at (dmem_map s') p = Some (PhysicalMemoryType.Allocated, t);
  rt_dmem : forall p, (forall x t, addr <= x < addr + size -> ~ backed s VMAType.Direct x p t) -> phys_at (dmem_map s') p = phys_at (dmem_map s) p;
  rt_flexible : forall x p t, addr <= x < addr + size -> backed s VMAType.Flexible x p t ->
    phys_at (fmem_map s') p = Some (PhysicalMemoryType.Free, t);
  rt_fmem : forall p, (forall x t, addr <= x < addr + size -> ~ backed s VMAType.Flexible x p t) -> phys_at (fmem_map s') p = phys_at (fmem_map s) p;
  rt_usage : flexible_usage s' = used PhysicalMemoryType.Flexible (fmem_map s');
  rt_rest : total_direct_size s' = total_direct_size s /\ total_flexible_size s' = total_flexible_size s /\
    pool_budget s' = pool_budget s /\ sdk_version s' = sdk_version s /\ prt_areas s' = prt_areas s
}.

Section in_area.
Context (hi dtotal ftotal : Z) (s : Memory) (v : VirtualMemoryArea) (addr size : Z).
Hypothesis (Hok : mm_ok hi dtotal ftotal s) (Haddr : 0 <= addr) (Hv : area_at (vma_map s) addr = Some v).
Hypothesis (Hs : 0 < size) (Hfit : addr + size <= area_end v).

Lemma area_of x : addr <= x < addr + size -> area_at (vma_map s) x = Some v.
Proof using Hok Hv Hfit.
  destruct (mk_virt _ _ _ _ Hok) as [_ Hl]. intros Hx. destruct (locate _ _ _ _ _ Hl Hv) as (l & r & E & Hin & _).
  rewrite E, (area_at_mid 0 l _ v r hi) by (by rewrite <- E). replace (inside v x) with true; [done|].
  symmetry. apply inside_spec. lia.
Qed.

Lemma backed_in ty x p t : addr <= x < addr + size ->
  backed s ty x p t <-> vma_type v = ty /\ exists d, backing (phys_areas v) (x - vma_base v) = Some (p, t, d).
Proof using Hok Hv Hfit.
  intros Hx. unfold backed, page_at, view_at. rewrite (area_of x Hx). cbn. split.
  - intros (pg & d & [= <-] & Hty & Hb). cbn in Hty, Hb. split; [done|by exists d].
  - intros [Hty [d Hb]]. eexists _, d. split_and!; done.
Qed.

Lemma start_bounds : vma_base v <= addr /\ 0 <= vma_base v /\ vma_base v + vma_size v <= hi /\ hi <= U64_MAX /\ vma_ok v.
Proof using Hok Hv.
  destruct (mk_virt _ _ _ _ Hok) as [Hhi Hl]. destruct (locate _ _ _ _ _ Hl Hv) as (l & r & E & Hin & _).
  assert (Hv' : (vma_base v, v) ∈ vma_map s) by (rewrite E, elem_of_app, elem_of_cons; tauto).
  destruct (laid_area _ _ _ _ _ Hl Hv') as (_ & ? & ? & ? & He). unfold area_end in *. cbn in *. split_and!; (done || lia).
Qed.

(** The physical ranges behind the range. *)
Lemma ranges_behind {State} (f : Z -> Z -> State -> option State) : HasPhysicalBacking v = true ->
  vma_type v = VMAType.Direct \/ vma_type v = VMAType.Flexible ->
  let start := addr - vma_base v in
  exists ranges, runs (phys_areas v) start ranges (start + size) /\ separate ranges /\ total_of ranges = size /\
    (forall s, pieces_behind f (phys_areas v) start size s = each_range f ranges s) /\
    (forall p, in_ranges ranges p <-> exists x t, addr <= x < addr + size /\ backed s (vma_type v) x p t).
Proof using Hok Haddr Hv Hs Hfit.
  intros Hpb Hty start. destruct start_bounds as (Hb & Hb0 & He & Hhi & Hvok). unfold vma_ok in Hvok. rewrite Hpb in Hvok.
  unfold area_end in Hfit. cbn in Hfit.
  destruct (pieces_behind_runs f (phys_areas v) (vma_size v) start size) as (ranges & Hruns & Heach); [done|lia|lia|lia|lia|].
  exists ranges. split_and!; [done| | |done|].
  - apply (runs_separate _ _ _ _ Hruns). intros x y p t d t' d' Hx Hy Hbx Hby.
    assert (x + vma_base v = y + vma_base v); [|lia]. apply (mk_alone _ _ _ _ Hok (vma_type v) _ _ p t t' Hty); apply backed_in; try lia.
    + split; [done|]. exists d. by replace (x + vma_base v - vma_base v) with x by lia.
    + split; [done|]. exists d'. by replace (y + vma_base v - vma_base v) with y by lia.
  - rewrite (runs_total _ _ _ _ Hruns). lia.
  - intros p. rewrite (runs_in _ _ _ _ _ Hruns). split.
    + intros (x & t & d & Hx & Hbx). exists (x + vma_base v), t. split; [lia|]. apply backed_in; [lia|]. split; [done|].
      exists d. by replace (x + vma_base v - vma_base v) with x by lia.
    + intros (x & t & Hx & [_ [d Hbx]]%backed_in); [|done]. exists (x - vma_base v), t, d. split; [lia|done].
Qed.
End in_area.

Lemma returned_refl hi dtotal ftotal s addr size : mm_ok hi dtotal ftotal s ->
  (forall x p t ty, addr <= x < addr + size -> ty = VMAType.Direct \/ ty = VMAType.Flexible -> ~ backed s ty x p t) ->
  returned dtotal ftotal addr size s s.
Proof.
  intros [_ (_ & Hd) (_ & Hf) _ _ _ Hu] Hno. split; try done; intros x p t Hx Hb; exfalso; by (apply (Hno x p t _ Hx) in Hb; auto).
Qed.

Section in_area_back.
Context (hi dtotal ftotal : Z) (s : Memory) (v : VirtualMemoryArea) (addr size : Z).
Hypothesis (Hok : mm_ok hi dtotal ftotal s) (Haddr : 0 <= addr) (Hv : area_at (vma_map s) addr = Some v).
Hypothesis (Hs : 0 < size) (Hfit : addr + size <= area_end v).

Lemma direct_returned : vma_type v = VMAType.Direct ->
  exists s1, pieces_behind (give_back VMAType.Direct) (phys_areas v) (addr - vma_base v) size s = Some s1 /\ returned dtotal ftotal addr size s s1.
Proof using Hok Haddr Hv Hs Hfit.
  intros Hty. assert (Hpb : HasPhysicalBacking v = true) by (unfold HasPhysicalBacking, is_type; by rewrite Hty).
  destruct (ranges_behind hi dtotal ftotal s v addr size Hok Haddr Hv Hs Hfit (give_back VMAType.Direct)) as (ranges & Hruns & Hsep & Htot & Hwalk & Hin); [done|by left|].
  destruct (mk_dmem _ _ _ _ Hok) as (Ht & Hl & Hc). rewrite Hty in Hin.
  assert (Hback : forall x p t d, addr - vma_base v <= x < addr - vma_base v + size -> backing (phys_areas v) x = Some (p, t, d) -> backed s VMAType.Direct (x + vma_base v) p t).
  { intros x p t d Hx Hb. apply (backed_in hi dtotal ftotal s v addr size Hok Hv Hfit); [lia|]. split; [done|]. exists d. by replace (x + vma_base v - vma_base v) with x by lia. }
  destruct (repaint_ranges PhysicalMemoryType.Mapped PhysicalMemoryType.Allocated dtotal ranges (dmem_map s)) as (m' & Em & [Hl' Hc' Hpin Hpout _]); [done|done|done|done|done| |].
  { apply (runs_use _ _ _ _ _ _ Hruns). intros x p t d Hx Hb. apply (mk_direct _ _ _ _ Hok (x + vma_base v)). by apply (Hback _ _ _ d). }
  exists (s <| dmem_map := m' |>). split; [rewrite Hwalk, give_back_direct, Em; done|].
  assert (Hnf : forall x p t, addr <= x < addr + size -> ~ backed s VMAType.Flexible x p t).
  { intros x p t Hx Hb. apply (backed_in hi dtotal ftotal s v addr size Hok Hv Hfit) in Hb as [Hb _]; [congruence|done]. }
  split; cbn; try done.
  - split; [done|]. by apply Hc'.
  - apply (mk_fmem _ _ _ _ Hok).
  - intros x p t Hx Hb. apply Hpin; [apply Hin; by exists x, t|]. by apply (mk_direct _ _ _ _ Hok x).
  - intros p Hno. apply Hpout. intros (x & t & Hx & Hb)%Hin. by apply (Hno x t).
  - intros x p t Hx Hb. by destruct (Hnf x p t).
  - apply (mk_usage _ _ _ _ Hok).
Qed.

Lemma flexible_returned : vma_type v = VMAType.Flexible ->
  exists s1, pieces_behind (give_back VMAType.Flexible) (phys_areas v) (addr - vma_base v) size s = Some s1 /\ returned dtotal ftotal addr size s s1.
Proof using Hok Haddr Hv Hs Hfit.
  intros Hty. assert (Hpb : HasPhysicalBacking v = true) by (unfold HasPhysicalBacking, is_type; by rewrite Hty).
  destruct (ranges_behind hi dtotal ftotal s v addr size Hok Haddr Hv Hs Hfit (give_back VMAType.Flexible)) as (ranges & Hruns & Hsep & Htot & Hwalk & Hin); [done|by right|].
  destruct (mk_fmem _ _ _ _ Hok) as (Ht & Hl & Hc). rewrite Hty in Hin.
  assert (Hback : forall x p t d, addr - vma_base v <= x < addr - vma_base v + size -> backing (phys_areas v) x = Some (p, t, d) -> backed s VMAType.Flexible (x + vma_base v) p t).
  { intros x p t d Hx Hb. apply (backed_in hi dtotal ftotal s v addr size Hok Hv Hfit); [lia|]. split; [done|]. exists d. by replace (x + vma_base v - vma_base v) with x by lia. }
  assert (Huse := runs_use (fmem_map s) PhysicalMemoryType.Flexible _ _ _ _ Hruns).
  destruct (repaint_ranges PhysicalMemoryType.Flexible PhysicalMemoryType.Free ftotal ranges (fmem_map s)) as (m' & Em & [Hl' Hc' Hpin Hpout [Hu1 Hu2]]); [done|done|done|done|done| |].
  { apply Huse. intros x p t d Hx Hb. apply (mk_flexible _ _ _ _ Hok (x + vma_base v)). by apply (Hback _ _ _ d). }
  pose proof (used_nonneg PhysicalMemoryType.Flexible _ _ _ Hl') as Hun'. pose proof (used_nonneg PhysicalMemoryType.Flexible _ _ _ Hl) as Hun. pose proof (mk_usage _ _ _ _ Hok) as Hus.
  destruct (give_back_flexible ranges s m' Em) as (s1 & E1 & (F1 & F2 & F3 & F4 & F5 & F6 & F7) & Fm & Fu).
  { intros p n Hpn. eapply Huse; [|exact Hpn]. intros x q t d Hx Hb. apply (mk_flexible _ _ _ _ Hok (x + vma_base v)). by apply (Hback _ _ _ d). }
  { lia. }
  exists s1. split; [by rewrite Hwalk|].
  assert (Hnd : forall x p t, addr <= x < addr + size -> ~ backed s VMAType.Direct x p t).
  { intros x p t Hx Hb. apply (backed_in hi dtotal ftotal s v addr size Hok Hv Hfit) in Hb as [Hb _]; [congruence|done]. }
  split; rewrite ?F1, ?F2, ?F3, ?F4, ?F5, ?F6, ?F7, ?Fm; try done.
  - destruct (mk_dmem _ _ _ _ Hok) as (_ & ?). done.
  - split; [done|]. by apply Hc'.
  - intros x p t Hx Hb. by destruct (Hnd x p t).
  - intros x p t Hx Hb. apply Hpin; [apply Hin; by exists x, t|]. by apply (mk_flexible _ _ _ _ Hok x).
  - intros p Hno. apply Hpout. intros (x & t & Hx & Hb)%Hin. by apply (Hno x t).
  - lia.
Qed.

(** The first part of [UnmapBytesFromEntry]. *)
Lemma unback_spec : vma_type v <> VMAType.Pooled ->
  exists s1, match phys_areas v with [] => Some s | areas => pieces_behind (give_back (vma_type v)) areas (addr - vma_base v) size s end = Some s1 /\
    returned dtotal ftotal addr size s s1.
Proof using Hok Haddr Hv Hs Hfit.
  intros Hnp. destruct (start_bounds hi dtotal ftotal s v addr Hok Hv) as (Hb & _ & _ & _ & Hvok).
  assert (Hne : HasPhysicalBacking v = true -> phys_areas v <> []).
  { intros Hpb Hnil. unfold vma_ok in Hvok. rewrite Hpb, Hnil in Hvok. cbn in Hvok. unfold area_end in Hfit. cbn in Hfit. lia. }
  destruct (decide (vma_type v = VMAType.Direct)) as [Hty|Hnd]; [|destruct (decide (vma_type v = VMAType.Flexible)) as [Hty|Hnf]].
  - destruct (direct_returned Hty) as (s1 & E & Hr). exists s1. split; [|done]. rewrite Hty. destruct (phys_areas v) eqn:Ea; [|done].
    by destruct (Hne ltac:(unfold HasPhysicalBacking, is_type; by rewrite Hty)).
  - destruct (flexible_returned Hty) as (s1 & E & Hr). exists s1. split; [|done]. rewrite Hty. destruct (phys_areas v) eqn:Ea; [|done].
    by destruct (Hne ltac:(unfold HasPhysicalBacking, is_type; by rewrite Hty)).
  - exists s. assert (phys_areas v = []) as ->.
    { unfold vma_ok, HasPhysicalBacking, is_type in Hvok. rewrite !bool_decide_false in Hvok by done. done. }
    split; [done|]. apply (returned_refl hi); [done|]. intros x p t ty Hx Hty Hbk.
    apply (backed_in hi dtotal ftotal s v addr size Hok Hv Hfit) in Hbk as [Hb' _]; [|done]. by destruct Hty; subst ty.
Qed.
End in_area_back.

(** * One entry *)

(** The maps stay consistent when the pages of a range become free and their memory is given
    back. *)
Lemma mm_ok_unmapped hi dtotal ftotal addr size s s1 m c : mm_ok hi dtotal ftotal s -> returned dtotal ftotal addr size s s1 -> virt_ok hi m ->
  (forall x, page_at m x = if (addr <=? x) && (x <? addr + size) then Some free_page else page_at (vma_map s) x) ->
  mm_ok hi dtotal ftotal (s1 <| vma_map := m |> <| calls := c |>).
Proof.
  intros Hok Hr Hm Hpage. set (s' := s1 <| vma_map := m |> <| calls := c |>).
  assert (Hback : forall ty x p t, ty <> VMAType.Free -> backed s' ty x p t -> backed s ty x p t /\ ~ (addr <= x < addr + size)).
  { intros ty x p t Hty (pg & d & Hpg & Ht & Hb). change (vma_map s') with m in Hpg. rewrite Hpage in Hpg.
    destruct (Z.leb_spec addr x), (Z.ltb_spec x (addr + size)); cbn [andb] in Hpg; [injection Hpg as <-; by rewrite <- Ht in Hty|..];
      (split; [by exists pg, d|lia]). }
  split; change (vma_map s') with m; change (dmem_map s') with (dmem_map s1); change (fmem_map s') with (fmem_map s1);
    change (flexible_usage s') with (flexible_usage s1); try done.
  - split; [apply (mk_dmem _ _ _ _ Hok)|apply (rt_dmem_ok _ _ _ _ _ _ Hr)].
  - split; [apply (mk_fmem _ _ _ _ Hok)|apply (rt_fmem_ok _ _ _ _ _ _ Hr)].
  - intros x p t [Hb Hx]%Hback; [|done]. rewrite (rt_dmem _ _ _ _ _ _ Hr); [by apply (mk_direct _ _ _ _ Hok x)|].
    intros y t' Hy Hby. assert (x = y) by (apply (mk_alone _ _ _ _ Hok VMAType.Direct x y p t t'); (done || by left)). lia.
  - intros x p t [Hb Hx]%Hback; [|done]. rewrite (rt_fmem _ _ _ _ _ _ Hr); [by apply (mk_flexible _ _ _ _ Hok x)|].
    intros y t' Hy Hby. assert (x = y) by (apply (mk_alone _ _ _ _ Hok VMAType.Flexible x y p t t'); (done || by right)). lia.
  - intros ty x y p t t' Hty Hbx Hby. apply Hback in Hbx as [Hbx _]; [|by destruct Hty; subst ty]. apply Hback in Hby as [Hby _]; [|by destruct Hty; subst ty].
    by apply (mk_alone _ _ _ _ Hok ty x y p t t').
  - apply (rt_usage _ _ _ _ _ _ Hr).
Qed.

Lemma page_in (s : Memory) v x : area_at (vma_map s) x = Some v -> page_at (vma_map s) x = Some (page_of v x).
Proof. unfold page_at, view_at. by intros ->. Qed.

Lemma freed_page w x : page_of (freed w) x = free_page.
Proof. done. Qed.

Lemma unmapped_kept hi dtotal ftotal s v addr n : mm_ok hi dtotal ftotal s -> 0 <= addr -> area_at (vma_map s) addr = Some v ->
  addr + n <= area_end v -> vma_type v = VMAType.Free \/ vma_type v = VMAType.Pooled -> unmapped addr n s s.
Proof.
  intros Hok Haddr Hv Hfit Hty. assert (Hno : forall ty x p t, ty = VMAType.Direct \/ ty = VMAType.Flexible -> addr <= x < addr + n -> ~ backed s ty x p t).
  { intros ty x p t Ht Hx Hb. apply (backed_in hi dtotal ftotal s v addr n Hok Hv Hfit) in Hb as [Hb _]; [|done]. destruct Ht, Hty; congruence. }
  split; try done.
  - intros x. destruct (Z.leb_spec addr x), (Z.ltb_spec x (addr + n)); cbn; try done.
    rewrite (page_in s v) by (apply (area_of hi dtotal ftotal s v addr n); (done || lia)). cbn. f_equal. unfold unmapped_page. cbn.
    destruct Hty as [E|E]; by rewrite E.
  - intros x p t Hx Hb. by destruct (Hno VMAType.Direct x p t); [left|..].
  - intros x p t Hx Hb. by destruct (Hno VMAType.Flexible x p t); [right|..].
Qed.

(** [UnmapBytesFromEntry] frees the part of the range in the area and leaves the maps consistent. *)
Lemma unmap_entry_spec hi dtotal ftotal s v addr size : mm_ok hi dtotal ftotal s -> 0 <= addr -> area_at (vma_map s) addr = Some v ->
  0 < size -> addr + size <= U64_MAX ->
  let n := Z.min (area_end v - addr) size in
  exists s', UnmapBytesFromEntry addr v size s = Some (s', n) /\ 0 < n /\ mm_ok hi dtotal ftotal s' /\ unmapped addr n s s' /\
    (past (vma_map s') (addr + n) <= past (vma_map s) (addr + n))%nat.
Proof.
  intros Hok Haddr Hv Hs Hfit n. destruct (start_bounds hi dtotal ftotal s v addr Hok Hv) as (Hb & Hb0 & He & Hhi & _).
  assert (Hvend : addr < area_end v) by (destruct (area_at_in _ _ _ Hv) as (_ & _ & _ & _ & Hx); lia).
  assert (Hn : 0 < n /\ addr + n <= area_end v) by lia. destruct Hn as [Hn Hne].
  assert (En : Z.min (vma_size v -64 (addr -64 vma_base v)) size = n).
  { unfold area_end in *. cbn in *. rewrite (wrap64_small (addr - vma_base v)), wrap64_small by u64_lia. unfold n. lia. }
  unfold UnmapBytesFromEntry. rewrite En, wrap64_small by u64_lia. destruct (is_type v VMAType.Free || is_type v VMAType.Pooled) eqn:Hkeep.
  { exists s. split_and!; try done. apply (unmapped_kept hi dtotal ftotal s v); try done.
    apply orb_true_iff in Hkeep as [H%bool_decide_eq_true|H%bool_decide_eq_true]; auto. }
  apply orb_false_iff in Hkeep as [Hnf%bool_decide_eq_false Hnp%bool_decide_eq_false].
  destruct (unback_spec hi dtotal ftotal s v addr n Hok Haddr Hv Hn Hne Hnp) as (s1 & -> & Hr). cbn [mbind option_bind].
  destruct (repage_spec hi (vma_map s) addr n v freed (mk_virt _ _ _ _ Hok) Haddr Hv Hn Hne) as
    (m1 & m2 & k & mid & E1 & E2 & Hm1 & Hm2 & _ & Hmb & Hms & _ & _ & Hp1 & Hp2 & Hpast); [done|done|].
  rewrite (rt_vma _ _ _ _ _ _ Hr), E1. cbn [mbind option_bind]. rewrite E2. cbn [mbind option_bind].
  assert (Hpage : forall x, page_at m2 x = if (addr <=? x) && (x <? addr + n) then Some free_page else page_at (vma_map s) x)
    by (intros x; rewrite Hp2, Hp1; done).
  set (s2 := if is_type v VMAType.Reserved || is_type v VMAType.PoolReserved then s1 <| vma_map := m2 |> else call (ImplUnmap addr n) (s1 <| vma_map := m2 |>)).
  assert (Es2 : s2 = s1 <| vma_map := m2 |> <| calls := calls s2 |>) by (unfold s2; by destruct (_ || _)).
  exists s2. rewrite Es2. set (s3 := s1 <| vma_map := m2 |> <| calls := calls s2 |>).
  split_and!; [done|done|by apply (mm_ok_unmapped _ _ _ addr n s)| |done].
  split; change (vma_map s3) with m2; change (dmem_map s3) with (dmem_map s1); change (fmem_map s3) with (fmem_map s1).
  - intros x. rewrite Hpage. destruct (Z.leb_spec addr x), (Z.ltb_spec x (addr + n)); cbn; try done.
    rewrite (page_in s v) by (apply (area_of hi dtotal ftotal s v addr n); (done || lia)). cbn. f_equal. unfold unmapped_page. cbn.
    by rewrite !bool_decide_false by done.
  - apply (rt_direct _ _ _ _ _ _ Hr).
  - apply (rt_dmem _ _ _ _ _ _ Hr).
  - apply (rt_flexible _ _ _ _ _ _ Hr).
  - apply (rt_fmem _ _ _ _ _ _ Hr).
  - apply (rt_rest _ _ _ _ _ _ Hr).
Qed.

(** * The whole range *)

Lemma backed_outside addr n s s' ty x p t : unmapped addr n s s' -> ~ (addr <= x < addr + n) -> backed s' ty x p t <-> backed s ty x p t.
Proof.
  intros Hu Hx. unfold backed. rewrite (um_page _ _ _ _ Hu). by destruct (Z.leb_spec addr x), (Z.ltb_spec x (addr + n)); try lia.
Qed.

Lemma unmapped_app addr n k s s1 s2 : 0 < n -> 0 <= k -> unmapped addr n s s1 -> unmapped (addr + n) k s1 s2 ->
  (forall ty x y p t t', ty = VMAType.Direct \/ ty = VMAType.Flexible -> backed s ty x p t -> backed s ty y p t' -> x = y) ->
  unmapped addr (n + k) s s2.
Proof.
  intros Hn Hk H1 H2 Halone.
  assert (Hlast : forall ty x p t, addr + n <= x -> backed s1 ty x p t <-> backed s ty x p t) by (intros; apply (backed_outside addr n); (done || lia)).
  split.
  - intros x. rewrite (um_page _ _ _ _ H2), (um_page _ _ _ _ H1).
    by destruct (Z.leb_spec addr x), (Z.ltb_spec x (addr + n)), (Z.leb_spec (addr + n) x), (Z.ltb_spec x (addr + n + k)), (Z.ltb_spec x (addr + (n + k))); try lia.
  - intros x p t Hx Hb. destruct (Z.lt_ge_cases x (addr + n)) as [Hlt|Hge].
    + rewrite (um_dmem _ _ _ _ H2); [apply (um_direct _ _ _ _ H1 x); (done || lia)|]. intros y t' Hy Hby%Hlast; [|lia].
      assert (x = y) by (apply (Halone VMAType.Direct x y p t t'); (done || by left)). lia.
    + apply (um_direct _ _ _ _ H2 x); [lia|]. by apply Hlast.
  - intros p Hno. rewrite (um_dmem _ _ _ _ H2), (um_dmem _ _ _ _ H1); [done| |]; intros y t' Hy; [apply Hno; lia|].
    intros Hby%Hlast; [|lia]. apply (Hno y t'); [lia|done].
  - intros x p t Hx Hb. destruct (Z.lt_ge_cases x (addr + n)) as [Hlt|Hge].
    + rewrite (um_fmem _ _ _ _ H2); [apply (um_flexible _ _ _ _ H1 x); (done || lia)|]. intros y t' Hy Hby%Hlast; [|lia].
      assert (x = y) by (apply (Halone VMAType.Flexible x y p t t'); (done || by right)). lia.
    + apply (um_flexible _ _ _ _ H2 x); [lia|]. by apply Hlast.
  - intros p Hno. rewrite (um_fmem _ _ _ _ H2), (um_fmem _ _ _ _ H1); [done| |]; intros y t' Hy; [apply Hno; lia|].
    intros Hby%Hlast; [|lia]. apply (Hno y t'); [lia|done].
  - destruct (um_rest _ _ _ _ H1) as (? & ? & ? & ? & ?), (um_rest _ _ _ _ H2) as (? & ? & ? & ? & ?). split_and!; congruence.
Qed.

Lemma is_page m x : is_Some (area_at m x) <-> is_Some (page_at m x).
Proof. unfold page_at, view_at. destruct (area_at m x); cbn; split; by intros [? ?]. Qed.

Lemma covered_after addr n k s s' : unmapped addr n s s' -> 0 <= n -> covered (vma_map s) (addr + n) k -> covered (vma_map s') (addr + n) k.
Proof.
  intros Hu Hn Hc x Hx. apply is_page. rewrite (um_page _ _ _ _ Hu). destruct (Z.leb_spec addr x), (Z.ltb_spec x (addr + n)); cbn; try lia.
  apply is_page. by apply Hc.
Qed.

Lemma unmap_loop_spec hi dtotal ftotal fuel addr size past_bytes s : mm_ok hi dtotal ftotal s -> 0 <= addr -> addr + size <= U64_MAX ->
  0 <= past_bytes < size -> covered (vma_map s) (addr + past_bytes) (size - past_bytes) -> (past (vma_map s) (addr + past_bytes) < fuel)%nat ->
  exists s', unmap_loop fuel addr size past_bytes s = Some s' /\ mm_ok hi dtotal ftotal s' /\ unmapped (addr + past_bytes) (size - past_bytes) s s'.
Proof.
  intros Hok Haddr Hfit. revert past_bytes s Hok. induction fuel as [|fuel IH]; intros b s Hok Hb Hc Hfuel; [lia|].
  destruct (Hc (addr + b)) as [v Hv]; [lia|]. destruct (mk_virt _ _ _ _ Hok) as [Hhi Hl].
  destruct (locate _ _ _ _ _ Hl Hv) as (l & r & E & Hin & Hfl). cbn [unmap_loop].
  rewrite !(wrap64_small (addr + b)), (wrap64_small (size - b)) by u64_lia. rewrite Hfl. cbn [mbind option_bind].
  destruct (unmap_entry_spec hi dtotal ftotal s v (addr + b) (size - b) Hok) as (s1 & E1 & Hn & Hok1 & Hu1 & Hp1); [lia|done|lia|lia|].
  set (n := Z.min (area_end v - (addr + b)) (size - b)) in *. rewrite E1. cbn [mbind option_bind].
  destruct (Z.eqb_spec n 0); [lia|]. rewrite (wrap64_small (b + n)) by u64_lia. destruct (Z.ltb_spec (b + n) size) as [Hmore|Hdone].
  - destruct (IH (b + n) s1 Hok1) as (s2 & E2 & Hok2 & Hu2); [lia| | |].
    + replace (addr + (b + n)) with (addr + b + n) by lia. apply (covered_after _ _ _ s); [done|lia|]. intros x Hx. apply Hc. lia.
    + replace (addr + (b + n)) with (addr + b + n) by lia. assert (past (vma_map s) (addr + b + n) < past (vma_map s) (addr + b))%nat; [|lia].
      apply (past_step _ _ _ v Hv); lia.
    + exists s2. split_and!; [done|done|]. replace (size - b) with (n + (size - (b + n))) by lia.
      apply (unmapped_app _ _ _ _ s1); [lia|lia|done|by replace (addr + b + n) with (addr + (b + n)) by lia|]. apply (mk_alone _ _ _ _ Hok).
  - exists s1. split_and!; [done|done|]. by replace (size - b) with n by lia.
Qed.

Lemma UnmapMemoryImpl_spec hi dtotal ftotal addr size s : mm_ok hi dtotal ftotal s -> 0 <= addr -> 0 < size -> addr + size <= U64_MAX ->
  covered (vma_map s) addr size ->
  exists s', UnmapMemoryImpl addr size s = Some s' /\ mm_ok hi dtotal ftotal s' /\ unmapped addr size s s'.
Proof.
  intros Hok Haddr Hs Hfit Hc. unfold UnmapMemoryImpl.
  destruct (unmap_loop_spec hi dtotal ftotal (S (length (vma_map s))) addr size 0 s) as (s' & E & Hok' & Hu); [done|done|done|lia| | |].
  - by rewrite Z.add_0_r, Z.sub_0_r.
  - pose proof (past_length (vma_map s) (addr + 0)). lia.
  - rewrite Z.add_0_r, Z.sub_0_r in Hu. by exists s'.
Qed.

Lemma gpu_call_frame hi dtotal ftotal c addr size s : mm_ok hi dtotal ftotal s -> mm_ok hi dtotal ftotal (gpu_call c addr size s).
Proof. unfold gpu_call. destruct (IsValidGpuMapping addr size); [|done]. by intros [? ? ? ? ? ? ?]. Qed.

Lemma unmapped_gpu c a n addr size s s' : unmapped addr size (gpu_call c a n s) s' -> unmapped addr size s s'.
Proof. unfold gpu_call. destruct (IsValidGpuMapping a n); [|done]. by intros [? ? ? ? ? ?]. Qed.

Lemma UnmapMemory_spec hi dtotal ftotal virtual_addr size s : mm_ok hi dtotal ftotal s -> vma_map s <> [] ->
  0 <= virtual_addr -> 0 < size -> virtual_addr + size + KB16 <= U64_MAX ->
  let addr := AlignDown virtual_addr KB16 in let n := AlignUp size KB16 in
  (covered (vma_map s) addr n -> exists s', UnmapMemory virtual_addr size s = Some (s', ORBIS_OK) /\
     mm_ok hi dtotal ftotal s' /\ unmapped addr n s s') /\
  (~ covered (vma_map s) addr n -> ~ in_gap (vma_map s) addr -> UnmapMemory virtual_addr size s = Some (s, ORBIS_KERNEL_ERROR_EINVAL)).
Proof.
  intros Hok Hne Haddr Hs Hfit addr n.
  destruct (AlignDown_spec virtual_addr KB16) as (_ & Ha & Ha0); [unfold KB16 in *; lia|done|].
  destruct (AlignUp_spec size KB16) as (_ & Hn & _); [lia|done|lia|]. fold addr in Ha, Ha0. fold n in Hn.
  destruct (IsValidMapping_spec hi (vma_map s) addr n (mk_virt _ _ _ _ Hok) Hne) as (b & Hvalid & Hb); [lia|lia|unfold KB16 in *; lia|].
  unfold UnmapMemory. destruct (Z.eqb_spec size 0); [lia|]. fold addr n. rewrite Hvalid. cbn [mbind option_bind]. split.
  - intros Hc. assert (b = true) as -> by (apply Hb; by left). cbn [negb].
    destruct (UnmapMemoryImpl_spec hi dtotal ftotal addr n (gpu_call GpuUnmap addr n s)) as (s' & E & Hok' & Hu);
      [by apply gpu_call_frame|lia|lia|unfold KB16 in *; lia|by unfold gpu_call; destruct (IsValidGpuMapping addr n)|].
    exists s'. rewrite E. split_and!; [done|done|by eapply unmapped_gpu].
  - intros Hnc Hng. destruct b; [|done]. by destruct (proj1 Hb eq_refl).
Qed.

(** C23. Unmapping a range of the map (page aligned) succeeds in any consistent state: every page of the range becomes
    free, except the pooled ones, which stay; the direct memory behind it is allocated again and
    the flexible memory free, with the count of what is in use; no other page and no other
    memory changes, and the maps stay consistent. A range that the map does not hold is refused
    and nothing changes (but one that begins inside a gap). *)
Theorem UnmapMemory_exact hi dtotal ftotal virtual_addr size s : mm_ok hi dtotal ftotal s -> vma_map s <> [] ->
  0 <= virtual_addr -> 0 < size -> virtual_addr + size + KB16 <= U64_MAX ->
  let addr := AlignDown virtual_addr KB16 in let n := AlignUp size KB16 in
  (covered (vma_map s) addr n -> exists s', UnmapMemory virtual_addr size s = Some (s', ORBIS_OK) /\
     mm_ok hi dtotal ftotal s' /\ unmapped addr n s s') /\
  (~ covered (vma_map s) addr n -> ~ in_gap (vma_map s) addr -> UnmapMemory virtual_addr size s = Some (s, ORBIS_KERNEL_ERROR_EINVAL)).
Proof. apply UnmapMemory_spec. Qed.
