(* ===== verification/Mapping.v ===== *)
(** Mapping: what [MapMemory] does to the virtual and the physical maps. *)
From Stdlib Require Import ZArith Lia.
From stdpp Require Import base gmap list list_numbers strings.
From S2P Require Import Prelude.
From S2P Require Import KernelErrors.
From S2P Require Import Alignment.
From S2P Require Import OrdMap.
From S2P Require Import PhysMemory.
From S2P Require Import VirtMemory.
From S2P Require Import Repaint.
From S2P Require Import MemoryManager.
From S2P Require Import Unmapping.

(** * The pieces of a new area *)

Lemma tiled_ordered lo areas hi : tiled lo areas hi -> ordered lo areas hi.
Proof.
  revert lo. induction areas as [|[o a] r IH]; intros lo; cbn; [lia|]. intros ((-> & Hs & _) & Hr). pose proof (tiled_le _ _ _ Hr).
  split_and!; [lia|lia|]. apply (ordered_weaken (lo + pa_size a)); [lia|by apply IH].
Qed.

(** A piece at the end, which may join the last one. *)
Lemma push_piece areas off new : tiled 0 areas off -> 0 < pa_size new -> 0 <= pa_base new -> pa_base new + pa_size new <= U64_MAX ->
  off + pa_size new <= U64_MAX ->
  exists areas' k, MergeAdjacent (put areas off new) off = Some (areas', k) /\ tiled 0 areas' (off + pa_size new) /\
    (forall x, backing areas' x = if x <? off then backing areas x
                                  else if x <? off + pa_size new then Some (pa_base new + (x - off), memory_type new, dma_type new) else None).
Proof.
  intros Ht Hs Hb He Hfit. rewrite (put_tiled _ _ _ _ Ht). pose proof (tiled_le _ _ _ Ht) as Hoff.
  assert (Hpush : tiled 0 (areas ++ [(off, new)]) (off + pa_size new)) by (apply tiled_app; exists off; split; [done|cbn; split_and!; (done || lia)]).
  assert (Hback : forall x, backing (areas ++ [(off, new)]) x = if x <? off then backing areas x
      else if x <? off + pa_size new then Some (pa_base new + (x - off), memory_type new, dma_type new) else None).
  { intros x. rewrite backing_app. cbn. destruct (Z.ltb_spec x off).
    - destruct (Z.leb_spec off x); [lia|]. cbn. by destruct (backing areas x).
    - rewrite (backing_out _ _ _ _ Ht) by lia. destruct (Z.leb_spec off x); [|lia]. cbn. by destruct (x <? off + pa_size new). }
  unfold MergeAdjacent. rewrite (get_app 0 _ _ _ _ (off + pa_size new)) by (by apply tiled_ordered). cbn [mbind option_bind].
  rewrite (upper_bound_app 0 _ _ _ _ (off + pa_size new)) by (by apply tiled_ordered). cbn [head].
  rewrite (prev_app 0 _ _ _ _ (off + pa_size new)) by (by apply tiled_ordered).
  destruct areas as [|[k0 p] l0 _] using rev_ind; [by exists [(off, new)], off|]. rewrite last_snoc. cbn [can_merge phys_area].
  destruct (CanMergeWith p new) eqn:Hc; [|by eexists _, off].
  destruct (tiled_last _ _ _ _ _ Ht) as (Hl0 & Hsp & Hkp). pose proof (tiled_le _ _ _ Hl0) as Hk0.
  pose proof Ht as (mid & Hl0' & Hp)%tiled_app. cbn in Hp. destruct Hp as ((Emid & _ & Hbp & Hep) & _). subst mid.
  assert (Hc' := Hc). unfold CanMergeWith in Hc'. rewrite !andb_true_iff in Hc'. destruct Hc' as ((Hend%Z.eqb_eq & Hty%Z.eqb_eq) & Hdm%bool_decide_eq_true).
  rewrite wrap64_small in Hend by u64_lia. set (j := join p new).
  assert (Hj : pa_base j = pa_base p /\ pa_size j = pa_size p + pa_size new /\ memory_type j = memory_type p /\ dma_type j = dma_type p).
  { unfold j. cbn. rewrite wrap64_small by u64_lia. done. }
  destruct Hj as (Jb & Js & Jt & Jd). exists (l0 ++ [(k0, j)]), k0.
  clearbody j. assert (Htj : tiled 0 (l0 ++ [(k0, j)]) (off + pa_size new)) by (apply tiled_app; exists k0; split; [done|cbn; rewrite Jb, Js; split_and!; (done || lia)]).
  split_and!; [|done|].
  - f_equal. f_equal. rewrite <- app_assoc. cbn [app]. rewrite <- app_assoc in Hpush. cbn [app] in Hpush.
    rewrite (put_app 0 _ _ _ _ _ (off + pa_size new)) by (by apply tiled_ordered).
    change (l0 ++ [(k0, j); (off, new)]) with (l0 ++ ([(k0, j)] ++ (off, new) :: [])). rewrite app_assoc.
    rewrite (erase_app 0 _ _ _ _ (off + pa_size new)), app_nil_r; [done|]. apply ordered_app.
    apply tiled_ordered in Htj. apply ordered_app in Htj as (Ho1 & Ho2 & _). split_and!; [|lia|cbn; lia]. apply ordered_app. split_and!; [done|lia|cbn; lia].
  - intros x. rewrite <- Hback. rewrite <- app_assoc, !backing_app. destruct (backing l0 x); [done|]. cbn. rewrite Jb, Js, Jt, Jd.
    destruct (Z.leb_spec k0 x), (Z.ltb_spec x (k0 + (pa_size p + pa_size new))), (Z.ltb_spec x (k0 + pa_size p)), (Z.leb_spec off x), (Z.ltb_spec x (off + pa_size new)); cbn; try lia; try done.
    rewrite Hty, Hdm. do 3 f_equal. lia.
Qed.

Lemma tiled_backing lo areas hi x : tiled lo areas hi -> lo <= x < hi -> is_Some (backing areas x).
Proof.
  revert lo. induction areas as [|[o a] r IH]; intros lo; cbn; [lia|]. intros ((-> & Hs & _) & Hr) Hx.
  destruct (Z.leb_spec lo x), (Z.ltb_spec x (lo + pa_size a)); try lia; cbn; [by eexists|apply (IH _ Hr); lia].
Qed.

Lemma backing_in lo areas hi x u : tiled lo areas hi -> backing areas x = Some u -> lo <= x < hi.
Proof.
  intros Ht Hb. destruct (Z.lt_ge_cases x lo) as [|]; [by rewrite (backing_out _ _ _ _ Ht) in Hb by lia|].
  destruct (Z.lt_ge_cases x hi); [lia|by rewrite (backing_out _ _ _ _ Ht) in Hb by lia].
Qed.

(** * Direct memory *)

(** [m] is [m0] after the direct memory between two addresses was mapped. *)
Definition mapped_over (m0 m : PhysMap) (lo hi : Z) : Prop :=
  forall p, phys_at m p = if (lo <=? p) && (p <? hi) then (fun u => (PhysicalMemoryType.Mapped, snd u)) <$> phys_at m0 p else phys_at m0 p.

(** The pieces of the mapping so far. *)
Definition direct_pieces (m0 : PhysMap) (areas : PhysMap) (phys_addr n : Z) : Prop :=
  tiled 0 areas n /\ forall x, 0 <= x < n ->
    exists u, phys_at m0 (phys_addr + x) = Some u /\ backing areas x = Some (phys_addr + x, snd u, PhysicalMemoryType.Mapped).

Lemma phys_at_locate total m p u : laid 0 m total -> phys_at m p = Some u ->
  exists a, floor m p = Some (pa_base a, a) /\ area_at m p = Some a /\ use_of a = u /\ pa_base a <= p < area_end a /\ 0 <= pa_base a /\ 0 < pa_size a /\ area_end a <= total.
Proof.
  intros Hl (a & Ha & Hu)%phys_at_area. destruct (locate _ _ _ _ _ Hl Ha) as (l & r & E & Hx & Hfl).
  assert (Hin : (pa_base a, a) ∈ m) by (rewrite E, elem_of_app, elem_of_cons; tauto).
  destruct (laid_area _ _ _ _ _ Hl Hin) as (_ & ? & ? & _ & ?). by exists a.
Qed.

Lemma direct_loop_cons fuel phys_addr m areas cur rem : rem <> 0 ->
  direct_loop (S fuel) phys_addr m areas cur rem =
    '(_, a) ← floor m cur;
    let start := Z.max cur (pa_base a) in
    let n := Z.min (pa_size a -64 (start -64 pa_base a)) rem in
    '(m, h) ← retype m start n (fun a => a <| dma_type := PhysicalMemoryType.Mapped |>);
    new ← get m h;
    '(areas, _) ← MergeAdjacent (put areas (cur -64 phys_addr) new) (cur -64 phys_addr);
    '(m, _) ← MergeAdjacent m h;
    direct_loop fuel phys_addr m areas (cur +64 n) (rem -64 n).
Proof. intros Hne. cbn [direct_loop]. by destruct (Z.eqb_spec rem 0). Qed.

Lemma direct_loop_spec total m0 phys_addr size fuel m areas cur : total <= U64_MAX -> 0 <= phys_addr -> phys_addr + size <= total ->
  (forall p, phys_addr <= p < phys_addr + size -> is_Some (phys_at m0 p)) ->
  laid 0 m total -> phys_addr <= cur <= phys_addr + size -> mapped_over m0 m phys_addr cur -> direct_pieces m0 areas phys_addr (cur - phys_addr) ->
  (cur < phys_addr + size -> (past m cur < fuel)%nat) ->
  exists m' areas', direct_loop fuel phys_addr m areas cur (phys_addr + size - cur) = Some (m', areas') /\
    laid 0 m' total /\ mapped_over m0 m' phys_addr (phys_addr + size) /\ direct_pieces m0 areas' phys_addr size /\
    (coalesced PhysicalMemoryType.Mapped m -> coalesced PhysicalMemoryType.Mapped m').
Proof.
  intros Htot Hp0 Hfit Hsome. revert m areas cur. induction fuel as [|fuel IH]; intros m areas cur Hl Hcur Hm [Ht Hb] Hfuel;
    (destruct (Z.eq_dec (phys_addr + size - cur) 0) as [E|E];
      [exists m, areas; rewrite E; assert (cur = phys_addr + size) as -> by lia; replace (phys_addr + size - phys_addr) with size in * by lia; by split_and!|]); [lia|].
  destruct (Hsome cur) as [u0 Hu0]; [lia|].
  assert (Hu : phys_at m cur = Some u0) by (rewrite Hm; destruct (Z.leb_spec phys_addr cur), (Z.ltb_spec cur cur); try lia; done).
  destruct (phys_at_locate _ _ _ _ Hl Hu) as (a & Hfl & Ha & Hua & Hin & Hab & Has & Hae). unfold area_end in Hin, Hae. cbn in Hin, Hae.
  rewrite direct_loop_cons by done. rewrite Hfl. cbn [mbind option_bind]. cbn zeta. replace (Z.max cur (pa_base a)) with cur by lia.
  rewrite (wrap64_small (cur - pa_base a)), (wrap64_small (pa_size a - (cur - pa_base a))), (wrap64_small (cur - phys_addr)) by u64_lia.
  set (n := Z.min (pa_size a - (cur - pa_base a)) (phys_addr + size - cur)).
  destruct (paint_step total m cur n a (fun a => a <| dma_type := PhysicalMemoryType.Mapped |>)) as
    (m1 & mid & m2 & k & Hre & Hget & Hmg & Hnb & Hns & Hum & Hl2 & Hpaint & Hco & _ & Hpast); [lia|done|done|done|lia|unfold area_end; cbn; lia|done|].
  set (new := mid <| dma_type := PhysicalMemoryType.Mapped |>) in *. rewrite Hre. cbn [mbind option_bind]. rewrite Hget. cbn [mbind option_bind].
  destruct (push_piece areas (cur - phys_addr) new) as (areas' & k' & Hpush & Ht' & Hb'); [done|lia|lia|lia|lia|].
  rewrite Hpush. cbn [mbind option_bind]. rewrite Hmg. cbn [mbind option_bind]. rewrite (wrap64_small (cur + n)), (wrap64_small (phys_addr + size - cur - n)) by u64_lia.
  assert (Hnew : use_of new = (PhysicalMemoryType.Mapped, memory_type a)) by (unfold use_of in *; cbn; congruence).
  (* the memory of the piece, in the map at the beginning *)
  assert (Hrun : forall p, cur <= p < cur + n -> exists u, phys_at m0 p = Some u /\ snd u = memory_type a).
  { intros p Hp. destruct (Hsome p) as [u Hup]; [lia|]. exists u. split; [done|].
    assert (Hpm : phys_at m p = Some u) by (rewrite Hm; destruct (Z.leb_spec phys_addr p), (Z.ltb_spec p cur); try lia; done).
    assert (Hpa : area_at m p = Some a) by (apply (area_at_same 0 m total cur p a Hl Ha), inside_spec; unfold area_end; cbn; lia).
    apply phys_at_area in Hpm as (b & Hpb & <-). rewrite Hpa in Hpb. by injection Hpb as <-. }
  replace (phys_addr + size - cur - n) with (phys_addr + size - (cur + n)) by lia.
  destruct (IH m2 areas' (cur + n)) as (m' & areas2 & E' & Hl' & Hm' & Hp' & Hco'); [done|lia| | | |].
  - intros p. rewrite Hpaint, Hnew, Hm. destruct (Z.leb_spec cur p), (Z.ltb_spec p (cur + n)), (Z.leb_spec phys_addr p), (Z.ltb_spec p cur); try lia; cbn; try done.
    destruct (Hrun p) as (u & -> & Hsnd); [lia|]. cbn. by rewrite Hsnd.
  - replace (cur + n - phys_addr) with (cur - phys_addr + pa_size new) by lia. split; [done|]. intros x Hx. rewrite Hb'.
    destruct (Z.ltb_spec x (cur - phys_addr)); [apply Hb; lia|]. destruct (Z.ltb_spec x (cur - phys_addr + pa_size new)); [|lia].
    destruct (Hrun (phys_addr + x)) as (u & Hpu & Hsnd); [lia|]. exists u. split; [done|]. rewrite Hnb, Hsnd. assert (memory_type new = memory_type a) as -> by (unfold use_of in Hnew; congruence).
    do 3 f_equal. lia.
  - intros Hmore. assert (past m (cur + n) < past m cur)%nat; [|lia]. apply (past_step _ _ _ a Ha); [lia|unfold area_end; cbn; lia].
  - exists m', areas2. split_and!; try done. auto.
Qed.

(** * Taking memory of a use *)

Lemma laid_unique lo hi (m l r l' r' : PhysMap) k a : laid lo m hi -> m = l ++ (k, a) :: r -> m = l' ++ (k, a) :: r' -> l = l' /\ r = r'.
Proof.
  intros Hm E E'. pose proof (laid_ordered _ _ _ Hm) as Ho. pose proof Ho as Ho'. rewrite E in Ho. rewrite E' in Ho'.
  pose proof (from_app _ _ _ _ _ _ Ho) as F. pose proof (from_app _ _ _ _ _ _ Ho') as F'. rewrite <- E in F. rewrite <- E' in F'.
  rewrite F in F'. injection F' as ->. split; [|done]. rewrite E in E'. by apply app_inv_tail in E'.
Qed.

Lemma used_none d l : Forall (fun e => dma_type (snd e) <> d) l -> used d l = 0.
Proof. induction 1 as [|[k a] l Ha _ IH]; [done|]. cbn in *. rewrite bool_decide_false, IH by done. done. Qed.

Section taking.
Context (d1 d2 : PhysicalMemoryType.t) (g : Z -> Z) (edit : PhysicalMemoryArea -> PhysicalMemoryArea).
Context (on_map : Z -> Z -> Z -> Memory -> Memory) (R : Z -> Memory -> Prop).
Context (total mapped_addr size : Z) (m0 : PhysMap).
Hypothesis (Hd : d1 <> d2) (Htot : total <= U64_MAX) (Hmap : 0 <= mapped_addr) (Hsize : mapped_addr + size <= U64_MAX).
Hypothesis (Hedit : forall b, pa_base (edit b) = pa_base b /\ pa_size (edit b) = pa_size b /\ use_of (edit b) = (d2, g (memory_type b))).
Hypothesis (HR : forall k n base s, 0 <= k -> 0 < n -> k + n <= size -> R k s -> R (k + n) (on_map (mapped_addr + k) n base s)).

(** The pieces are memory of the use [d1], now of the use [d2]; nothing else changed. *)
Record taken (m areas : PhysMap) (n : Z) : Prop := {
  tk_laid : laid 0 m total;
  tk_tiled : tiled 0 areas n;
  tk_pieces : forall x p t d, backing areas x = Some (p, t, d) -> d = d2 /\
    (exists t0, phys_at m0 p = Some (d1, t0) /\ t = g t0) /\ phys_at m p = Some (d2, t);
  tk_others : forall p, (forall x t d, backing areas x <> Some (p, t, d)) -> phys_at m p = phys_at m0 p;
  tk_alone : forall x y p t d t' d', backing areas x = Some (p, t, d) -> backing areas y = Some (p, t', d') -> x = y;
  tk_coalesced : forall d, coalesced d m0 -> coalesced d m;
  tk_used : used d1 m = used d1 m0 - n /\ used d2 m = used d2 m0 + n
}.

(** One more piece. *)
Lemma taken_step m areas k n a new l r low high l' k' a' r' areas' : taken m areas k -> 0 <= k -> 0 < n -> dma_type a = d1 ->
  phys_at m (pa_base a) = Some (use_of a) -> pa_base new = pa_base a -> pa_size new = n -> use_of new = (d2, g (memory_type a)) ->
  pa_base a + n <= area_end a -> area_at m (pa_base a) = Some a ->
  painting total m (pa_base a) n a new l r low high l' k' a' r' -> tiled 0 areas' (k + n) ->
  (forall x, backing areas' x = if x <? k then backing areas x
                                else if x <? k + n then Some (pa_base new + (x - k), memory_type new, dma_type new) else None) ->
  taken (l' ++ (k', a') :: r') areas' (k + n).
Proof.
  intros [Hl Ht Hp Ho Hal Hc [Hu1 Hu2]] Hk Hn Hda Hat Hnb Hns Hnu Hfit Haa Hpt Ht' Hb'. destruct Hpt as [_ _ _ _ _ Hl' Hpaint Hc' Hus _].
  injection Hnu as Hnd Hnt. assert (Hrun : forall p, pa_base a <= p < pa_base a + n -> phys_at m p = Some (d1, memory_type a)).
  { intros p Hin. apply phys_at_area. exists a. split; [|unfold use_of; by rewrite Hda]. apply (area_at_same 0 m total (pa_base a) p a Hl Haa).
    apply inside_spec. unfold area_end in *. cbn in *. lia. }
  assert (Hold : forall x p t d, backing areas x = Some (p, t, d) -> x < k /\ ~ (pa_base a <= p < pa_base a + n)).
  { intros x p t d Hb. split; [pose proof (backing_in _ _ _ _ _ Ht Hb); lia|]. intros Hin%Hrun. destruct (Hp _ _ _ _ Hb) as (_ & _ & Hpm). congruence. }
  assert (Hcase : forall x p t d, backing areas' x = Some (p, t, d) ->
    backing areas x = Some (p, t, d) \/ (k <= x < k + n /\ p = pa_base a + (x - k) /\ t = g (memory_type a) /\ d = d2)).
  { intros x p t d Hb. rewrite Hb' in Hb. destruct (Z.ltb_spec x k); [by left|]. destruct (Z.ltb_spec x (k + n)); [|done]. right.
    injection Hb as <- <- <-. split_and!; (done || lia). }
  assert (Hm0 : forall p, pa_base a <= p < pa_base a + n -> phys_at m0 p = Some (d1, memory_type a)).
  { intros p Hin. rewrite <- (Ho p); [by apply Hrun|]. intros x t d Hb. by destruct (Hold _ _ _ _ Hb). }
  assert (Hkeep : forall p, ~ (pa_base a <= p < pa_base a + n) -> phys_at (l' ++ (k', a') :: r') p = phys_at m p).
  { intros p Hout. rewrite Hpaint. by destruct (Z.leb_spec (pa_base a) p), (Z.ltb_spec p (pa_base a + n)); try lia. }
  split; try done.
  - intros x p t d [Hb|(Hx & -> & -> & ->)]%Hcase.
    + destruct (Hp _ _ _ _ Hb) as (-> & Ht0 & Hpm). destruct (Hold _ _ _ _ Hb) as [_ Hout]. by rewrite Hkeep.
    + split_and!; [done|exists (memory_type a); split; [apply Hm0; lia|done]|]. rewrite Hpaint.
      destruct (Z.leb_spec (pa_base a) (pa_base a + (x - k))), (Z.ltb_spec (pa_base a + (x - k)) (pa_base a + n)); try lia. cbn. unfold use_of. by rewrite Hnd, Hnt.
  - intros p Hno. assert (Hout : ~ (pa_base a <= p < pa_base a + n)).
    { intros Hin. apply (Hno (k + (p - pa_base a)) (g (memory_type a)) d2). rewrite Hb'. destruct (Z.ltb_spec (k + (p - pa_base a)) k); [lia|].
      destruct (Z.ltb_spec (k + (p - pa_base a)) (k + n)); [|lia]. rewrite Hnb, Hnt, Hnd. do 3 f_equal. lia. }
    rewrite Hkeep by done. apply Ho. intros x t d Hb. destruct (Hold _ _ _ _ Hb) as [Hx _]. apply (Hno x t d). rewrite Hb'. by destruct (Z.ltb_spec x k); [|lia].
  - intros x y p t d t' d' [Hx|(Hx & Hpx & _)]%Hcase [Hy|(Hy & Hpy & _)]%Hcase; [by apply (Hal x y p t d t' d')| | |lia].
    + destruct (Hold _ _ _ _ Hx) as [_ []]. lia.
    + destruct (Hold _ _ _ _ Hy) as [_ []]. lia.
  - intros d Hd0. by apply Hc', Hc.
  - rewrite !Hus, Hu1, Hu2, Hda, Hnd. unfold used_part. repeat case_bool_decide; (done || lia).
Qed.

Lemma snoc_shift {B} (l : list B) x r : l ++ x :: r = (l ++ [x]) ++ r.
Proof. by rewrite <- app_assoc. Qed.

Lemma back_loop_step fuel h m areas cur rem s : rem <> 0 ->
  back_loop d1 edit on_map (S fuel) mapped_addr (Some h) m areas cur rem s =
    area ← get m h;
    if negb (bool_decide (dma_type area = d1)) then back_loop d1 edit on_map fuel mapped_addr (fst <$> upper_bound m h) m areas cur rem s
    else
      let n := Z.min rem (pa_size area) in
      '(m, h) ← retype m (pa_base area) n edit;
      new ← get m h;
      '(areas, _) ← MergeAdjacent (put areas (cur -64 mapped_addr) new) (cur -64 mapped_addr);
      '(m, h') ← MergeAdjacent m h;
      back_loop d1 edit on_map fuel mapped_addr (fst <$> upper_bound m h') m areas (cur +64 n) (rem -64 n) (on_map cur n (pa_base new) s).
Proof. intros Hne. cbn [back_loop]. by destruct (Z.eqb_spec rem 0). Qed.

Lemma back_loop_end fuel h m areas cur s : back_loop d1 edit on_map fuel mapped_addr h m areas cur 0 s = Some (m, areas, s).
Proof. by destruct fuel, h. Qed.

(** The loop over the rest [r] of the physical map, with enough memory of the use in it. *)
Lemma back_loop_spec fuel l r areas k s : taken (l ++ r) areas k -> 0 <= k <= size -> Forall (fun e => dma_type (snd e) <> d1) l ->
  size - k <= used d1 (l ++ r) -> (k < size -> (length r <= fuel)%nat) -> R k s ->
  exists m' areas' s', back_loop d1 edit on_map fuel mapped_addr (fst <$> head r) (l ++ r) areas (mapped_addr + k) (size - k) s = Some (m', areas', s') /\
    taken m' areas' size /\ R size s'.
Proof using Hd Htot Hmap Hsize Hedit HR.
  revert l r areas k s. induction fuel as [|fuel IH]; intros l r areas k s Hk Hb Hl Hus Hfuel Hs;
    (destruct (Z.eq_dec k size) as [->|Hne]; [rewrite Z.sub_diag, back_loop_end; by exists (l ++ r), areas, s|]);
    (destruct r as [|[h a] r]; [rewrite app_nil_r, (used_none _ _ Hl) in Hus; lia|]); [cbn in Hfuel; lia|].
  pose proof (tk_laid _ _ _ Hk) as Hlaid. pose proof Hlaid as (_ & Hah & Has & _ & Har)%laid_app. cbn in Hah, Has. subst h. apply laid_le in Har as Hae.
  assert (Hin : (pa_base a, a) ∈ l ++ (pa_base a, a) :: r) by (rewrite elem_of_app, elem_of_cons; tauto).
  destruct (laid_area _ _ _ _ _ Hlaid Hin) as (_ & Hh & _ & _ & Hend). unfold area_end in Hae, Hend. cbn in Hae, Hend.
  cbn [fmap option_fmap option_map head fst]. rewrite back_loop_step by lia.
  rewrite (get_app 0 _ _ _ _ total) by (by apply laid_ordered). cbn [mbind option_bind]. case_bool_decide as Hda; cbn [negb].
  2: { rewrite (upper_bound_app 0 _ _ _ _ total) by (by apply laid_ordered). rewrite (snoc_shift l (pa_base a, a) r) in *. apply (IH (l ++ [(pa_base a, a)]) r areas k s); [done|done| |done| |done]; [apply Forall_app; split; [done|by constructor]|].
       intros Hlt. specialize (Hfuel Hlt). cbn in Hfuel. lia. }
  cbn zeta. set (n := Z.min (size - k) (pa_size a)). assert (Haa : area_at (l ++ (pa_base a, a) :: r) (pa_base a) = Some a).
  { apply (entry_at _ _ _ _ _ Hlaid Hin). unfold area_end. cbn. lia. }
  destruct (paint_full total (l ++ (pa_base a, a) :: r) (pa_base a) n a edit) as (l1 & r1 & low & mid & high & l' & k' & a' & r' & m1 & Hre & Hget & Emg & Hnb & Hns & Hum & Hpt);
    [lia|done|done|done|lia|unfold area_end; cbn; lia|intros b; destruct (Hedit b) as (? & ? & _); done|].
  destruct (Hedit mid) as (_ & _ & Hnu). assert (Hmt : memory_type mid = memory_type a) by (unfold use_of in Hum; congruence). rewrite Hmt in Hnu.
  rewrite Hre. cbn [mbind option_bind]. rewrite Hget. cbn [mbind option_bind]. rewrite (wrap64_small (mapped_addr + k - mapped_addr)) by u64_lia.
  replace (mapped_addr + k - mapped_addr) with k by lia.
  destruct (push_piece areas k (edit mid)) as (areas' & kp & Hpush & Ht' & Hb'); [apply Hk|lia|lia|lia|lia|].
  rewrite Hpush. cbn [mbind option_bind]. rewrite Emg. cbn [mbind option_bind].
  rewrite (wrap64_small (mapped_addr + k + n)), (wrap64_small (size - k - n)) by u64_lia. rewrite Hns in Ht', Hb'.
  assert (Hk' : taken (l' ++ (k', a') :: r') areas' (k + n)).
  { apply (taken_step (l ++ (pa_base a, a) :: r) areas k n a (edit mid) l1 r1 low high l' k' a' r'); try done; try lia; [|unfold area_end; cbn; lia].
    apply phys_at_area. by exists a. }
  rewrite (upper_bound_app 0 _ _ _ _ total) by (by apply laid_ordered, (tk_laid _ _ _ Hk')).
  (* what is before the next handle *)
  destruct Hpt as [E Hlow Hhigh [(a1 & Hright & Hleft)] Hua _ _ _ Husd _]. destruct (laid_unique _ _ _ _ _ _ _ _ _ Hlaid eq_refl E) as [<- <-].
  destruct Hlow as [-> |]; [|lia]. rewrite app_nil_r in Hleft.
  assert (Hl' : Forall (fun e => dma_type (snd e) <> d1) (l' ++ [(k', a')])).
  { apply Forall_app. split; [destruct Hleft as [(_ & -> & _)|(p & -> & _)]; [done|by apply Forall_app in Hl as [? _]]|].
    constructor; [|done]. cbn. unfold use_of in Hua, Hnu. congruence. }
  rewrite (snoc_shift l' (k', a') r') in *.
  replace (mapped_addr + k + n) with (mapped_addr + (k + n)) by lia. replace (size - k - n) with (size - (k + n)) by lia.
  apply IH; [done|lia|done| | |].
  - rewrite Husd, Hda. unfold use_of in Hnu. injection Hnu as -> _. unfold used_part. repeat case_bool_decide; (done || lia).
  - intros Hmore. destruct Hhigh as [-> |]; [|unfold area_end in *; cbn in *; lia]. specialize (Hfuel ltac:(lia)). cbn in Hfuel.
    cbn [app] in Hright. destruct Hright as [(_ & -> & _)|(k2 & b & -> & _)]; cbn in *; lia.
  - rewrite Hnb. apply HR; (done || lia).
Qed.

Lemma back_spec s : laid 0 m0 total -> 0 <= size -> size <= used d1 m0 -> R 0 s ->
  exists m' areas' s', back d1 edit on_map mapped_addr m0 size s = Some (m', areas', s') /\ taken m' areas' size /\ R size s'.
Proof using Hd Htot Hmap Hsize Hedit HR.
  intros Hl Hs Hus HR0. unfold back. destruct (back_loop_spec (S (length m0)) [] m0 [] 0 s) as (m' & areas' & s' & E & Hk & Hr); try done.
  - split; cbn [app]; (done || lia || (split; lia)).
  - cbn. lia.
  - lia.
  - exists m', areas', s'. rewrite Z.add_0_r, Z.sub_0_r in E. by split_and!.
Qed.
End taking.

(** * The new area *)

Lemma keys_ordered lo (l r : VMAMap) k a b hi : ordered lo (l ++ (k, a) :: r) hi -> ordered lo (l ++ (k, b) :: r) hi.
Proof. by rewrite !ordered_app. Qed.

(** The area of a new mapping, before its physical memory is written into it and after. *)
Lemma new_area hi m addr size v init : virt_ok hi m -> 0 <= addr -> area_at m addr = Some v -> 0 < size -> addr + size <= area_end v ->
  (forall w, vma_base (init w) = vma_base w /\ vma_size (init w) = vma_size w) ->
  exists m1 mid, rewrite_vma m addr size init = Some (m1, addr) /\ get m1 addr = Some (init mid) /\ vma_base mid = addr /\ vma_size mid = size /\
    forall areas, let w := (init mid) <| phys_areas := areas |> in vma_ok w ->
      exists m2 k, MergeAdjacent (put m1 addr w) addr = Some (m2, k) /\ virt_ok hi (put m1 addr w) /\ virt_ok hi m2 /\
        (forall x, page_at (put m1 addr w) x = if (addr <=? x) && (x <? addr + size) then Some (page_of w x) else page_at m x) /\
        (forall x, page_at m2 x = page_at (put m1 addr w) x).
Proof.
  intros Hok Haddr Hv Hs Hfit Hinit.
  destruct (carve_vma_spec hi m addr size v Hok Haddr Hv Hs Hfit) as (l & r & low & mid & high & E & Hcv & Hcarve & [Hhi Hl] & Hpage).
  pose proof (cv_base _ _ _ _ _ _ _ Hcv) as Hmb. pose proof (cv_size _ _ _ _ _ _ _ Hcv) as Hms. cbn in Hmb, Hms.
  destruct (Hinit mid) as [Hib His]. rewrite app_assoc in Hcarve, Hl, Hpage. pose proof (laid_ordered _ _ _ Hl) as Ho.
  pose proof (keys_ordered _ _ _ _ _ (init mid) _ Ho) as Ho1. exists ((l ++ low) ++ (addr, init mid) :: high ++ r), mid.
  unfold rewrite_vma. rewrite Hcarve. cbn [mbind option_bind]. rewrite (get_app 0 _ _ _ _ hi), (get_app 0 _ _ _ _ hi) by done.
  cbn [mbind option_bind]. rewrite (put_app 0 _ _ _ _ _ hi) by done. split_and!; [done|done|lia|lia|].
  intros areas. set (w := (init mid) <| phys_areas := areas |>). intros Hw. rewrite (put_app 0 _ _ _ _ _ hi) by done.
  destruct (edit_spec 0 (l ++ low) addr mid w (high ++ r) hi) as (Hl1 & _ & Hv1); [done|change (vma_base (init mid) = addr); lia|change (vma_size (init mid) = vma_size mid); lia|done|].
  destruct (merge_spec 0 (l ++ low) addr w (high ++ r) hi) as (l' & k' & a' & r' & _ & Emg & Hl2 & Hv2); [lia|done|done|].
  exists (l' ++ (k', a') :: r'), k'. split_and!; try done. intros x. unfold page_at in *. rewrite Hv1, Hpage. unfold inside, area_end.
  change (area_base mid) with (vma_base mid). change (area_size mid) with (vma_size mid). rewrite Hmb, Hms.
  by replace (vma_base v + (addr - vma_base v)) with addr by lia.
Qed.

Lemma vma_same hi m x y v : virt_ok hi m -> area_at m x = Some v -> area_base v <= y < area_end v -> area_at m y = Some v.
Proof.
  intros [_ Hm] Hv Hy. destruct (locate _ _ _ _ _ Hm Hv) as (l & r & E & _). apply (entry_covers _ _ _ _ _ Hm); [|done].
  rewrite E, elem_of_app, elem_of_cons. tauto.
Qed.

(** ** Where it goes *)

(** A free area has place for a size at an address. *)
Definition place_for (m : VMAMap) (a size : Z) : Prop :=
  exists v, area_at m a = Some v /\ vma_type v = VMAType.Free /\ a + size <= area_end v.

Lemma place_for_room hi m a size : virt_ok hi m -> 0 < size -> room m a size -> 0 <= a /\ place_for m a size.
Proof.
  intros [_ Hm] Hs (v & Hin & Hfr & Hlo & Hup). destruct (laid_area _ _ _ _ _ Hm Hin) as (_ & H0 & _). split; [lia|].
  exists v. split_and!; [apply (entry_covers _ _ _ _ _ Hm Hin); lia|done|unfold area_end; cbn; lia].
Qed.

Record place_hyps (hi : Z) (space : Space) (m : VMAMap) (virtual_addr size flags alignment : Z) : Prop := {
  ph_map : m <> [];
  ph_size : 0 < size;
  ph_addr : 0 <= virtual_addr /\ virtual_addr + size <= U64_MAX;
  ph_alignment : 0 < alignment < 0x100000000;
  ph_top : hi + alignment + size <= U64_MAX;
  ph_space : 0 <= SystemManagedVirtualBase space /\ 0 <= UserVirtualBase space + UserVirtualSize space <= U64_MAX;
  ph_flags : has flags Fixed = true -> has flags NoOverwrite = true /\ ~ in_gap m virtual_addr
}.

(** [place] finds a place, or there is none. *)
Definition start_of (space : Space) (virtual_addr : Z) : Z :=
  Z.max (if virtual_addr =? 0 then DEFAULT_MAPPING_BASE else virtual_addr) (SystemManagedVirtualBase space).

Definition placed (space : Space) (m : VMAMap) (virtual_addr size flags alignment : Z) (res : Z + Z) : Prop :=
  match res with
  | inl a => 0 <= a /\ place_for m a size /\ (has flags Fixed = true -> a = virtual_addr) /\
      (has flags Fixed = false -> aligned alignment a /\ start_of space virtual_addr <= a /\
         forall b, aligned alignment b -> start_of space virtual_addr <= b < a -> ~ place_for m b size)
  | inr code => code = ORBIS_KERNEL_ERROR_ENOMEM /\ (has flags Fixed = true -> ~ place_for m virtual_addr size)
  end.

Lemma place_spec hi space m virtual_addr size flags alignment : virt_ok hi m -> place_hyps hi space m virtual_addr size flags alignment ->
  exists res, place space m virtual_addr size flags alignment = Some res /\ placed space m virtual_addr size flags alignment res.
Proof.
  unfold placed.
  intros Hok [Hne Hs [Ha0 Hafit] Hal Htop [Hsp0 Hsp] Hfl]. unfold place. destruct (has flags Fixed) eqn:Hfix; cbn [andb negb].
  - destruct (Hfl eq_refl) as [-> Hgap]. destruct (IsValidMapping_spec hi m virtual_addr size Hok Hne) as (b & -> & Hb); [lia..|].
    cbn [mbind option_bind]. destruct b; cbn [negb].
    + destruct (proj1 Hb eq_refl) as [Hc|]; [|done]. destruct (Hc virtual_addr) as [v Hv]; [lia|]. pose proof Hok as [Hhi Hm].
      destruct (locate _ _ _ _ _ Hm Hv) as (l & r & E & Hx & Hflo). cbn in Hflo. rewrite Hflo. cbn [mbind option_bind].
      assert (Hin : (vma_base v, v) ∈ m) by (rewrite E, elem_of_app, elem_of_cons; tauto).
      destruct (laid_area _ _ _ _ _ Hm Hin) as (_ & Hb0 & Hvs & _ & Hend). unfold area_end in Hx, Hend. cbn in Hx, Hend, Hvs, Hb0.
      rewrite (wrap64_small (vma_base v + vma_size v)), wrap64_small by u64_lia. unfold IsFree, is_type. case_bool_decide as Hty; cbn [negb orb].
      * destruct (Z.ltb_spec (vma_base v + vma_size v - virtual_addr) size) as [Hlt|Hge].
        -- eexists. split; [done|]. cbn. split; [done|]. intros _ (w & Hw & _ & Hwe). rewrite Hv in Hw. injection Hw as <-. unfold area_end in Hwe. cbn in Hwe. lia.
        -- eexists. split; [done|]. cbn. split_and!; [lia| |done|done]. exists v. split_and!; [done|done|unfold area_end; cbn; lia].
      * eexists. split; [done|]. cbn. split; [done|]. intros _ (w & Hw & Hty' & _). rewrite Hv in Hw. by injection Hw as <-.
    + eexists. split; [done|]. cbn. split; [done|]. intros _ (w & Hw & _ & Hwe). assert (false = true); [|done]. apply Hb. left. intros x Hx.
      exists w. apply (vma_same hi m virtual_addr); [done|done|]. destruct (area_at_in _ _ _ Hw) as (_ & _ & _ & _ & Hin). lia.
  - assert (Hw32 : wrap32 alignment = alignment) by (apply wrap32_small; u64_lia). rewrite Hw32. destruct (Z.eqb_spec alignment 0); [lia|].
    set (from_ := if virtual_addr =? 0 then DEFAULT_MAPPING_BASE else virtual_addr).
    destruct (SearchFree_spec hi space m from_ size alignment Hok Hne) as (a & -> & Ha); [lia..|]. cbn [mbind option_bind].
    assert (Hsame : forall b, 0 <= b -> place_for m b size -> room m b size).
    { intros b Hb (v & Hv & Hty & He). destruct (area_at_in _ _ _ Hv) as (l & k & r & E & Hx). exists v.
      assert (Hin : (k, v) ∈ m) by (rewrite E, elem_of_app, elem_of_cons; tauto). destruct (laid_area _ _ _ _ _ (proj2 Hok) Hin) as (<- & _).
      unfold area_end in *. cbn in *. split_and!; (done || lia). }
    destruct Ha as [[(Haln & Hge & Hroom & Hmin)|[-> Hno]]|[-> Hno]].
    + pose proof (place_for_room hi m a size Hok Hs Hroom) as [H0 Hpl]. destruct (Z.eqb_spec a NoAddr) as [->|Hna].
      { destruct Hpl as (v & Hv & _ & He). pose proof (area_at_in _ _ _ Hv) as (l & k & r & E & Hx).
        assert (Hin : (k, v) ∈ m) by (rewrite E, elem_of_app, elem_of_cons; tauto). destruct Hok as [Hhi Hm]. destruct (laid_area _ _ _ _ _ Hm Hin) as (_ & _ & _ & _ & Hend). unfold NoAddr in *. lia. }
      eexists. split; [done|]. cbn. split_and!; try done. intros _. split_and!; [done|done|]. intros b Hab Hb Hpb. apply (Hmin b Hab Hb), Hsame; [unfold start_of in Hb; lia|done].
    + rewrite Z.eqb_refl. eexists. split; [done|]. done.
    + rewrite Z.eqb_refl. eexists. split; [done|]. done.
Qed.

Lemma place_end hi m a size : virt_ok hi m -> place_for m a size -> a + size <= U64_MAX.
Proof.
  intros [Hhi Hm] (v & Hv & _ & He). destruct (area_at_in _ _ _ Hv) as (l & k & r & E & _).
  assert (Hin : (k, v) ∈ m) by (rewrite E, elem_of_app, elem_of_cons; tauto). destruct (laid_area _ _ _ _ _ Hm Hin) as (_ & _ & _ & _ & Hend). lia.
Qed.

(** * [CreateArea] *)

(** In a free area there is nothing to clear. *)
Lemma clear_free hi s a v size fuel : virt_ok hi (vma_map s) -> 0 <= a -> area_at (vma_map s) a = Some v -> vma_type v = VMAType.Free -> 0 < size ->
  a + size <= area_end v -> clear_loop (S fuel) a v size s = Some s.
Proof.
  intros [Hhi Hm] Ha Hv Hty Hs Hfit. destruct (locate _ _ _ _ _ Hm Hv) as (l & r & E & Hx & Hfl).
  assert (Hin : (vma_base v, v) ∈ vma_map s) by (rewrite E, elem_of_app, elem_of_cons; tauto).
  destruct (laid_area _ _ _ _ _ Hm Hin) as (_ & Hb0 & _ & _ & Hend). unfold area_end in *. cbn in Hx, Hfit, Hend, Hb0.
  cbn [clear_loop]. destruct (Z.eqb_spec size 0); [lia|]. unfold UnmapBytesFromEntry, is_type. rewrite bool_decide_true by done. cbn [orb mbind option_bind].
  rewrite (wrap64_small (a - vma_base v)), (wrap64_small (vma_size v - (a - vma_base v))) by u64_lia.
  replace (Z.min (vma_size v - (a - vma_base v)) size) with size by lia. rewrite Z.sub_diag, (wrap64_small 0), (wrap64_small (a + size)) by u64_lia.
  assert (Hnext : exists k w, floor (vma_map s) (a + size) = Some (k, w)).
  { destruct (vma_map s) as [|[kb vb] m'] eqn:Em; [by apply not_elem_of_nil in Hin|]. pose proof Hm as Hm'. apply laid_head in Hm' as (Hm' & <- & _).
    destruct (laid_area _ _ _ _ _ Hm' Hin) as (_ & Hle & _). cbn. destruct (Z.ltb_spec (a + size) (vma_base vb)); [lia|]. destruct (floor m' (a + size)) as [[? ?]|]; by do 2 eexists. }
  destruct Hnext as (k & w & ->). cbn [mbind option_bind]. by destruct fuel.
Qed.

Lemma create_spec hi s a v size prot flags type name : virt_ok hi (vma_map s) -> 0 <= a -> area_at (vma_map s) a = Some v ->
  vma_type v = VMAType.Free -> 0 < size -> a + size <= area_end v ->
  exists m1 mid, CreateArea a size prot flags type name s = Some (s <| vma_map := m1 |>, a) /\
    get m1 a = Some (created prot flags type name mid) /\ vma_base mid = a /\ vma_size mid = size /\
    forall areas, let w := (created prot flags type name mid) <| phys_areas := areas |> in vma_ok w ->
      exists m2 k, MergeAdjacent (put m1 a w) a = Some (m2, k) /\ virt_ok hi (put m1 a w) /\ virt_ok hi m2 /\
        (forall x, page_at (put m1 a w) x = if (a <=? x) && (x <? a + size) then Some (page_of w x) else page_at (vma_map s) x) /\
        (forall x, page_at m2 x = page_at (put m1 a w) x).
Proof.
  intros Hok Ha Hv Hty Hs Hfit. destruct (locate _ _ _ _ _ (proj2 Hok) Hv) as (l & r & E & Hx & Hfl). cbn in Hfl.
  destruct (new_area hi (vma_map s) a size v (created prot flags type name) Hok Ha Hv Hs Hfit) as (m1 & mid & Hrw & Hget & Hb & Hsz & Hw); [done|].
  exists m1, mid. split_and!; try done. unfold CreateArea. rewrite Hfl. cbn [mbind option_bind].
  assert ((if has flags Fixed then clear_loop (S (length (vma_map s))) a v size s else Some s) = Some s) as ->.
  { destruct (has flags Fixed); [by apply (clear_free hi)|done]. }
  cbn [mbind option_bind]. rewrite Hfl. cbn [mbind option_bind]. unfold IsFree, is_type. rewrite bool_decide_true by done. cbn [negb]. by rewrite Hrw.
Qed.

(** * [MapMemory] *)

(** The state after a call of [MapMemory] that maps a range: the new pages, the rest of the
    virtual map as it was. *)
Definition new_page (prot flags : Z) (type : VMAType.t) (name : string) (areas : PhysMap) (a x : Z) : page :=
  mkPage type (with_read prot) name (has flags NoCoalesce) (backing areas (x - a)).

Definition paged (a size : Z) (pg : Z -> page) (m m' : VMAMap) : Prop :=
  forall x, page_at m' x = if (a <=? x) && (x <? a + size) then Some (pg x) else page_at m x.

Lemma gpu_call_calls c a n s : exists cs, gpu_call c a n s = s <| calls := cs |>.
Proof. unfold gpu_call. destruct (IsValidGpuMapping a n); [by eexists|]. exists (calls s). by destruct s. Qed.

Definition backed_type (type : VMAType.t) : bool :=
  bool_decide (type = VMAType.Direct) || bool_decide (type = VMAType.Flexible) || bool_decide (type = VMAType.Pooled).

Lemma MapMemory_placed hi space virtual_addr size prot flags type name validate phys_addr alignment s a (Q : PhysMap -> Memory -> Prop) :
  virt_ok hi (vma_map s) -> 0 <= a -> 0 < size -> place_for (vma_map s) a size ->
  bool_decide (type = VMAType.Flexible) && (total_flexible_size s <? flexible_usage s +64 size) = false ->
  (phys_addr = NoAddr \/ (total_direct_size s <? phys_addr +64 size) = false /\
     exists h v, floor (dmem_map s) phys_addr = Some (h, v) /\ check_dmem (from (dmem_map s) h) (phys_addr +64 size) validate = ORBIS_OK) ->
  place space (vma_map s) virtual_addr size flags (if 0 <? alignment then alignment else KB16) = Some (inl a) ->
  (forall m1 cs, exists areas s2 cs', map_backing type a size phys_addr (has prot CpuExec) (s <| vma_map := m1 |> <| calls := cs |>) =
     Some (areas, s2 <| vma_map := m1 |> <| calls := cs' |>) /\ Q areas s2) ->
  (forall areas s2, Q areas s2 -> if backed_type type then tiled 0 areas size else areas = []) ->
  exists areas s2 m' cs, Q areas s2 /\ MapMemory space virtual_addr size prot flags type name validate phys_addr alignment s =
    Some (s2 <| vma_map := m' |> <| calls := cs |>, inl a) /\
    virt_ok hi m' /\ paged a size (new_page prot flags type name areas a) (vma_map s) m'.
Proof.
  intros Hok Ha Hs (v & Hv & Hty & Hfit) Hflex Hphys Hplace Hback Hareas. unfold MapMemory. rewrite Hflex.
  match goal with |- context [code ← ?c; _] => assert (c = Some ORBIS_OK) as -> end.
  { destruct Hphys as [->|(-> & h & u & -> & Hcheck)]; [by rewrite Z.eqb_refl|]. destruct (phys_addr =? NoAddr); [done|]. cbn. by rewrite Hcheck. }
  cbn [mbind option_bind]. rewrite Z.eqb_refl. cbn [negb]. rewrite Hplace. cbn [mbind option_bind].
  destruct (gpu_call_calls GpuUnmap a size s) as [cs ->].
  destruct (create_spec hi (s <| calls := cs |>) a v size prot flags type name) as (m1 & mid & -> & Hget & Hb & Hsz & Hw); [done..|].
  cbn [mbind option_bind]. change (vma_map (s <| calls := cs |> <| vma_map := m1 |>)) with m1. rewrite Hget. cbn [mbind option_bind].
  change (vma_base (created prot flags type name mid)) with (vma_base mid). rewrite Hb.
  change (s <| calls := cs |> <| vma_map := m1 |>) with (s <| vma_map := m1 |> <| calls := cs |>).
  destruct (Hback m1 cs) as (areas & s2 & cs' & -> & HQ). specialize (Hareas _ _ HQ). cbn [mbind option_bind].
  change (vma_map (s2 <| vma_map := m1 |> <| calls := cs' |>)) with m1. set (w := (created prot flags type name mid) <| phys_areas := areas |>).
  destruct (Hw areas) as (m2 & k & Hmg & Hok1 & Hok2 & Hp1 & Hp2).
  { unfold vma_ok. change (HasPhysicalBacking _) with (backed_type type). change (phys_areas w) with areas.
    change (if backed_type type then tiled 0 areas (vma_size mid) else areas = []). by rewrite Hsz. }
  fold w in Hmg, Hok1, Hp1, Hp2. set (m3 := put m1 a w) in *.
  set (merge := negb (bool_decide (type = VMAType.Direct)) || (FW_200 <=? wrap32 (sdk_version (s2 <| vma_map := m1 |> <| calls := cs' |>)))).
  match goal with |- context [if merge then ?yes else ?no] =>
    assert (Hm' : exists m', (if merge then yes else no) = Some m' /\ virt_ok hi m' /\ forall x, page_at m' x = page_at m3 x) end.
  { destruct merge; [rewrite Hmg; by exists m2|by exists m3]. }
  destruct Hm' as (m' & -> & Hok' & Hp'). cbn [mbind option_bind].
  assert (Hpg : paged a size (new_page prot flags type name areas a) (vma_map s) m').
  { intros x. rewrite Hp', Hp1. change (vma_map (s <| calls := cs |>)) with (vma_map s). destruct ((a <=? x) && (x <? a + size)); [|done]. unfold page_of, new_page.
    change (vma_base w) with (vma_base mid). by rewrite Hb. }
  set (s3 := s2 <| vma_map := m1 |> <| calls := cs' |> <| vma_map := m' |>).
  assert (E3 : forall cs, s3 <| calls := cs |> = s2 <| vma_map := m' |> <| calls := cs |>) by done.
  destruct (bool_decide (type = VMAType.Reserved) || bool_decide (type = VMAType.PoolReserved)); [by exists areas, s2, m', cs'|].
  match goal with |- context [gpu_call GpuMap a size ?t] => destruct (gpu_call_calls GpuMap a size t) as [cs2 ->] end.
  exists areas, s2, m', cs2. split_and!; [done| |done|done]. rewrite <- E3. by destruct (bool_decide (type = VMAType.Flexible)).
Qed.

(** ** Consistency *)

(** The maps stay consistent when a free range is mapped on physical memory that was not. *)
Lemma mm_ok_mapped hi dtotal ftotal s s' a size type areas prot flags name : mm_ok hi dtotal ftotal s -> virt_ok hi (vma_map s') ->
  paged a size (new_page prot flags type name areas a) (vma_map s) (vma_map s') ->
  laid 0 (dmem_map s') dtotal /\ coalesced PhysicalMemoryType.Mapped (dmem_map s') ->
  laid 0 (fmem_map s') ftotal /\ coalesced PhysicalMemoryType.Flexible (fmem_map s') ->
  (forall p t, phys_at (dmem_map s) p = Some (PhysicalMemoryType.Mapped, t) -> phys_at (dmem_map s') p = Some (PhysicalMemoryType.Mapped, t)) ->
  (forall p t, phys_at (fmem_map s) p = Some (PhysicalMemoryType.Flexible, t) -> phys_at (fmem_map s') p = Some (PhysicalMemoryType.Flexible, t)) ->
  (forall x p t d, backing areas x = Some (p, t, d) ->
     (type = VMAType.Direct -> phys_at (dmem_map s') p = Some (PhysicalMemoryType.Mapped, t) /\
        forall t, phys_at (dmem_map s) p <> Some (PhysicalMemoryType.Mapped, t)) /\
     (type = VMAType.Flexible -> phys_at (fmem_map s') p = Some (PhysicalMemoryType.Flexible, t) /\
        forall t, phys_at (fmem_map s) p <> Some (PhysicalMemoryType.Flexible, t))) ->
  (forall x y p t d t' d', backing areas x = Some (p, t, d) -> backing areas y = Some (p, t', d') -> x = y) ->
  flexible_usage s' = used PhysicalMemoryType.Flexible (fmem_map s') -> mm_ok hi dtotal ftotal s'.
Proof.
  intros Hok Hv Hpg Hd Hf Hkd Hkf Hnew Halone Hu.
  assert (Hcase : forall ty x p t, backed s' ty x p t -> backed s ty x p t \/ (ty = type /\ exists d, backing areas (x - a) = Some (p, t, d))).
  { intros ty x p t (pg & d & Hx & Ht & Hb). rewrite Hpg in Hx. destruct ((a <=? x) && (x <? a + size)); [|left; by exists pg, d].
    injection Hx as <-. right. split; [done|by exists d]. }
  split; [done|split; [apply (mk_dmem _ _ _ _ Hok)|done]|split; [apply (mk_fmem _ _ _ _ Hok)|done]| | | |done].
  - intros x p t [Hb|(Ht & d & Hb)]%Hcase; [by apply Hkd, (mk_direct _ _ _ _ Hok x)|by apply (Hnew _ _ _ _ Hb)].
  - intros x p t [Hb|(Ht & d & Hb)]%Hcase; [by apply Hkf, (mk_flexible _ _ _ _ Hok x)|by apply (Hnew _ _ _ _ Hb)].
  - intros ty x y p t t' Hty [Hx|(Ex & dx & Hx)]%Hcase [Hy|(Ey & dy & Hy)]%Hcase; [by apply (mk_alone _ _ _ _ Hok ty x y p t t')| | |].
    + exfalso. destruct (Hnew _ _ _ _ Hy) as [HD HF]. destruct Hty as [->| ->].
      * apply (mk_direct _ _ _ _ Hok) in Hx. by destruct (HD (eq_sym Ey)) as [_ []%(fun H => H t)].
      * apply (mk_flexible _ _ _ _ Hok) in Hx. by destruct (HF (eq_sym Ey)) as [_ []%(fun H => H t)].
    + exfalso. destruct (Hnew _ _ _ _ Hx) as [HD HF]. destruct Hty as [->| ->].
      * apply (mk_direct _ _ _ _ Hok) in Hy. by destruct (HD (eq_sym Ex)) as [_ []%(fun H => H t')].
      * apply (mk_flexible _ _ _ _ Hok) in Hy. by destruct (HF (eq_sym Ex)) as [_ []%(fun H => H t')].
    + pose proof (Halone _ _ _ _ _ _ _ Hx Hy). lia.
Qed.

(** What mapping a range does: its pages, each with memory that had the use [before] and now
    has the use [after], and nothing else. *)
Record mapped_as (type : VMAType.t) (phys : Memory -> PhysMap) (before after : PhysicalMemoryType.t) (a size prot flags : Z) (name : string)
    (s s' : Memory) : Prop := {
  ma_page : forall x, a <= x < a + size -> exists p t,
    page_at (vma_map s') x = Some (mkPage type (with_read prot) name (has flags NoCoalesce) (Some (p, t, after))) /\
    phys_at (phys s) p = Some (before, t) /\ phys_at (phys s') p = Some (after, t);
  ma_pages : forall x, ~ (a <= x < a + size) -> page_at (vma_map s') x = page_at (vma_map s) x;
  ma_phys : forall p, (forall x t, a <= x < a + size -> ~ backed s' type x p t) -> phys_at (phys s') p = phys_at (phys s) p;
  ma_rest : total_direct_size s' = total_direct_size s /\ total_flexible_size s' = total_flexible_size s /\
    pool_budget s' = pool_budget s /\ sdk_version s' = sdk_version s /\ prt_areas s' = prt_areas s
}.

Lemma mapped_as_intro type phys before after a size prot flags name areas s s' :
  paged a size (new_page prot flags type name areas a) (vma_map s) (vma_map s') ->
  (forall x, 0 <= x < size -> exists p t, backing areas x = Some (p, t, after) /\ phys_at (phys s) p = Some (before, t) /\ phys_at (phys s') p = Some (after, t)) ->
  (forall p, (forall x t d, backing areas x <> Some (p, t, d)) -> phys_at (phys s') p = phys_at (phys s) p) -> tiled 0 areas size ->
  total_direct_size s' = total_direct_size s /\ total_flexible_size s' = total_flexible_size s /\
    pool_budget s' = pool_budget s /\ sdk_version s' = sdk_version s /\ prt_areas s' = prt_areas s ->
  mapped_as type phys before after a size prot flags name s s'.
Proof.
  intros Hpg Hin Hout Ht Hrest. split; [| | |done].
  - intros x Hx. destruct (Hin (x - a)) as (p & t & Hb & Hp & Hp'); [lia|]. exists p, t. split_and!; [|done|done]. rewrite Hpg.
    destruct (Z.leb_spec a x), (Z.ltb_spec x (a + size)); try lia. cbn. unfold new_page. by rewrite Hb.
  - intros x Hx. rewrite Hpg. by destruct (Z.leb_spec a x), (Z.ltb_spec x (a + size)); try lia.
  - intros p Hno. apply Hout. intros x t d Hb. pose proof (backing_in _ _ _ _ _ Ht Hb) as Hx. apply (Hno (a + x) t); [lia|].
    exists (new_page prot flags type name areas a (a + x)), d. rewrite Hpg.
    destruct (Z.leb_spec a (a + x)), (Z.ltb_spec (a + x) (a + size)); try lia. split_and!; [done|done|]. cbn. rewrite <- Hb. f_equal. lia.
Qed.

(** ** Flexible memory *)

Definition to_flexible (a : PhysicalMemoryArea) : PhysicalMemoryArea := a <| dma_type := PhysicalMemoryType.Flexible |>.

(** The memory is there when the count allows it: [MapMemory] does not fail its assertion. *)
Lemma map_flexible hi dtotal ftotal s a size is_exec m1 cs : mm_ok hi dtotal ftotal s -> 0 <= a -> 0 < size -> a + size <= U64_MAX ->
  flexible_usage s + size <= U64_MAX -> size <= used PhysicalMemoryType.Free (fmem_map s) ->
  exists areas m cs', map_backing VMAType.Flexible a size NoAddr is_exec (s <| vma_map := m1 |> <| calls := cs |>) =
    Some (areas, s <| fmem_map := m |> <| flexible_usage := flexible_usage s + size |> <| vma_map := m1 |> <| calls := cs' |>) /\
    taken PhysicalMemoryType.Free PhysicalMemoryType.Flexible id ftotal (fmem_map s) m areas size.
Proof.
  intros Hok Ha Hs Hfit Hu Hfree. pose proof (mk_fmem _ _ _ _ Hok) as (Htot & Hl & Hc). unfold map_backing.
  match goal with |- context [back _ _ ?f _ _ _ ?t] => set (on := f); set (s1 := t) end.
  set (R := fun k s' => exists cs, s' = s1 <| flexible_usage := flexible_usage s + k |> <| calls := cs |>).
  pose proof (mk_usage _ _ _ _ Hok) as Hus. pose proof (used_nonneg PhysicalMemoryType.Flexible _ _ _ Hl) as Hu0.
  destruct (back_spec PhysicalMemoryType.Free PhysicalMemoryType.Flexible id to_flexible on R ftotal a size (fmem_map s)) with (s := s1)
    as (m & areas & s2 & E & Htk & cs' & ->); try done.
  - intros k n base s' Hk Hn Hkn (cs' & ->). exists (ImplMap (a + k) n base is_exec :: cs').
    replace (flexible_usage s + (k + n)) with ((flexible_usage s + k) +64 n) by (rewrite wrap64_small by u64_lia; lia). done.
  - lia.
  - exists cs. unfold s1. cbn. by rewrite Z.add_0_r.
  - exists areas, m, cs'. split; [|done]. change (fmem_map s1) with (fmem_map s). unfold to_flexible in E. rewrite E. done.
Qed.

(** Where there is a place, the memory is found. *)
Lemma flexible_placed hi dtotal ftotal space virtual_addr size prot flags name validate alignment s a :
  mm_ok hi dtotal ftotal s -> place_hyps hi space (vma_map s) virtual_addr size flags (alignment_or alignment KB16) ->
  flexible_usage s + size <= U64_MAX -> total_flexible_size s <= flexible_usage s + used PhysicalMemoryType.Free (fmem_map s) ->
  flexible_usage s + size <= total_flexible_size s ->
  place space (vma_map s) virtual_addr size flags (alignment_or alignment KB16) = Some (inl a) ->
  placed space (vma_map s) virtual_addr size flags (alignment_or alignment KB16) (inl a) ->
  exists s', MapMemory space virtual_addr size prot flags VMAType.Flexible name validate NoAddr alignment s = Some (s', inl a) /\
    mm_ok hi dtotal ftotal s' /\ flexible_usage s' = flexible_usage s + size /\ dmem_map s' = dmem_map s /\
    mapped_as VMAType.Flexible fmem_map PhysicalMemoryType.Free PhysicalMemoryType.Flexible a size prot flags name s s'.
Proof.
  intros Hok Hph Hfit Hmem Hroom Hplace (Ha & Hpf & _). pose proof (mk_fmem _ _ _ _ Hok) as (Htot & Hl & Hc). pose proof (mk_usage _ _ _ _ Hok) as Hus.
  pose proof (used_nonneg PhysicalMemoryType.Flexible _ _ _ Hl) as Hu0. pose proof (ph_size _ _ _ _ _ _ _ Hph) as Hs.
  assert (Hw : flexible_usage s +64 size = flexible_usage s + size) by (apply wrap64_small; u64_lia).
  assert (Hin : bool_decide (VMAType.Flexible = VMAType.Flexible) && (total_flexible_size s <? flexible_usage s +64 size) = false).
  { rewrite Hw. destruct (Z.ltb_spec (total_flexible_size s) (flexible_usage s + size)); [lia|done]. }
  assert (Hend : a + size <= U64_MAX) by (apply (place_end hi _ _ _ (mk_virt _ _ _ _ Hok) Hpf)).
  set (Q := fun areas s2 => exists m, s2 = s <| fmem_map := m |> <| flexible_usage := flexible_usage s + size |> /\
    taken PhysicalMemoryType.Free PhysicalMemoryType.Flexible id ftotal (fmem_map s) m areas size).
  destruct (MapMemory_placed hi space virtual_addr size prot flags VMAType.Flexible name validate NoAddr alignment s a Q)
    as (areas & s2 & m' & cs & (m & -> & Htk) & E & Hv & Hpg); try done; [apply Hok|by left| | |].
  { intros m1 cs. destruct (map_flexible hi dtotal ftotal s a size (has prot CpuExec) m1 cs) as (areas & m & cs' & E & Htk); [done|lia..|].
    exists areas, (s <| fmem_map := m |> <| flexible_usage := flexible_usage s + size |>), cs'. split; [done|]. by exists m. }
  { intros areas s2 (m & _ & Htk). apply Htk. }
  eexists. split; [exact E|]. destruct Htk as [Tl Tt Tp To Ta Tc [_ Tu]].
  set (s' := s <| fmem_map := m |> <| flexible_usage := flexible_usage s + size |> <| vma_map := m' |> <| calls := cs |>).
  split_and!; [|done|done|].
  - apply (mm_ok_mapped hi dtotal ftotal s s' a size VMAType.Flexible areas prot flags name); try done.
    + split; apply (mk_dmem _ _ _ _ Hok).
    + split; [done|by apply Tc].
    + intros p t Hp. change (fmem_map s') with m. rewrite To; [done|]. intros x t' d Hb. destruct (Tp _ _ _ _ Hb) as (_ & (t0 & Hf & _) & _). congruence.
    + intros x p t d Hb. split; [done|]. intros _. destruct (Tp _ _ _ _ Hb) as (_ & (t0 & Hf & _) & Hp). split; [done|]. congruence.
    + change (fmem_map s') with m. rewrite Tu, <- Hus. done.
  - apply (mapped_as_intro _ _ _ _ _ _ _ _ _ areas); try done. intros x Hx. destruct (tiled_backing _ _ _ x Tt Hx) as [[[p t] d] Hb].
    destruct (Tp _ _ _ _ Hb) as (-> & (t0 & Hf & ->) & Hp). by exists p, t0.
Qed.

Lemma MapMemory_flexible_spec hi dtotal ftotal space virtual_addr size prot flags name validate alignment s :
  mm_ok hi dtotal ftotal s -> place_hyps hi space (vma_map s) virtual_addr size flags (alignment_or alignment KB16) ->
  flexible_usage s + size <= U64_MAX -> total_flexible_size s <= flexible_usage s + used PhysicalMemoryType.Free (fmem_map s) ->
  let r := MapMemory space virtual_addr size prot flags VMAType.Flexible name validate NoAddr alignment s in
  (total_flexible_size s < flexible_usage s + size -> r = Some (s, inr ORBIS_KERNEL_ERROR_EINVAL)) /\
  (flexible_usage s + size <= total_flexible_size s ->
   exists res, placed space (vma_map s) virtual_addr size flags (alignment_or alignment KB16) res /\
     match res with
     | inr code => r = Some (s, inr code)
     | inl a => exists s', r = Some (s', inl a) /\ mm_ok hi dtotal ftotal s' /\ flexible_usage s' = flexible_usage s + size /\ dmem_map s' = dmem_map s /\
         mapped_as VMAType.Flexible fmem_map PhysicalMemoryType.Free PhysicalMemoryType.Flexible a size prot flags name s s'
     end).
Proof.
  intros Hok Hph Hfit Hmem r. pose proof (mk_usage _ _ _ _ Hok) as Hus. pose proof (mk_fmem _ _ _ _ Hok) as (_ & Hl & _).
  pose proof (used_nonneg PhysicalMemoryType.Flexible _ _ _ Hl) as Hu0. pose proof (ph_size _ _ _ _ _ _ _ Hph) as Hs.
  assert (Hw : flexible_usage s +64 size = flexible_usage s + size) by (apply wrap64_small; u64_lia).
  unfold r. split; intros Hroom.
  { unfold MapMemory. rewrite Hw, bool_decide_true by done. by destruct (Z.ltb_spec (total_flexible_size s) (flexible_usage s + size)); [|lia]. }
  destruct (place_spec _ _ _ _ _ _ _ (mk_virt _ _ _ _ Hok) Hph) as (res & Hplace & Hres). exists res. split; [done|]. destruct res as [a|code].
  - by apply (flexible_placed hi dtotal ftotal).
  - unfold MapMemory. rewrite Hw, bool_decide_true by done. destruct (Z.ltb_spec (total_flexible_size s) (flexible_usage s + size)); [lia|].
    cbn [andb]. rewrite Z.eqb_refl. cbn [mbind option_bind]. rewrite Z.eqb_refl. cbn [negb].
    change (if 0 <? alignment then alignment else KB16) with (alignment_or alignment KB16). by rewrite Hplace.
Qed.

(** Mapping flexible memory. A size that goes over the flexible memory left is refused and
    nothing changes. Otherwise, where there is a place, the pages of the range become flexible
    with the protection, the name and the flag asked for; each is on memory that was free and is
    now in use, no two on the same; no other page and no other memory changes, the count grows
    by the size, and the maps stay consistent. The memory is always found. *)
Theorem MapMemory_flexible hi dtotal ftotal space virtual_addr size prot flags name validate alignment s :
  mm_ok hi dtotal ftotal s -> place_hyps hi space (vma_map s) virtual_addr size flags (alignment_or alignment KB16) ->
  flexible_usage s + size <= U64_MAX -> total_flexible_size s <= flexible_usage s + used PhysicalMemoryType.Free (fmem_map s) ->
  let r := MapMemory space virtual_addr size prot flags VMAType.Flexible name validate NoAddr alignment s in
  (total_flexible_size s < flexible_usage s + size -> r = Some (s, inr ORBIS_KERNEL_ERROR_EINVAL)) /\
  (flexible_usage s + size <= total_flexible_size s ->
   exists res, placed space (vma_map s) virtual_addr size flags (alignment_or alignment KB16) res /\
     match res with
     | inr code => r = Some (s, inr code)
     | inl a => exists s', r = Some (s', inl a) /\ mm_ok hi dtotal ftotal s' /\ flexible_usage s' = flexible_usage s + size /\ dmem_map s' = dmem_map s /\
         mapped_as VMAType.Flexible fmem_map PhysicalMemoryType.Free PhysicalMemoryType.Flexible a size prot flags name s s'
     end).
Proof. apply MapMemory_flexible_spec. Qed.

(** ** Direct memory *)

Definition allocated (m : PhysMap) (phys_addr size : Z) : Prop :=
  forall p, phys_addr <= p < phys_addr + size -> exists t, phys_at m p = Some (PhysicalMemoryType.Allocated, t).

(** The check passes on memory that is allocated and not mapped. *)
Lemma check_allocated total lo (l : PhysMap) end_ validate : laid lo l total ->
  (forall k a, (k, a) ∈ l -> k < end_ -> dma_type a = PhysicalMemoryType.Allocated) -> check_dmem l end_ validate = ORBIS_OK.
Proof.
  intros Hl Hal. revert lo Hl. induction l as [|[k a] l IH]; intros lo Hl; [done|]. cbn [check_dmem].
  destruct Hl as ((_ & Hk & _) & Hl). cbn in Hk. destruct (Z.leb_spec end_ (pa_base a)); [done|].
  rewrite (Hal k a); [|by left|lia]. cbn. rewrite andb_false_r.
  apply (IH ltac:(intros j b Hb; apply Hal; by right) (area_end a)), Hl.
Qed.

Lemma check_dmem_spec total m phys_addr size validate : laid 0 m total -> 0 < size -> allocated m phys_addr size ->
  exists h a, floor m phys_addr = Some (h, a) /\ check_dmem (from m h) (phys_addr + size) validate = ORBIS_OK.
Proof.
  intros Hl Hs Hal. destruct (Hal phys_addr) as (t & Ht); [lia|]. destruct (phys_at_locate _ _ _ _ Hl Ht) as (a & Hfl & Ha & _ & Hin & _).
  exists (pa_base a), a. split; [done|]. destruct (locate _ _ _ _ _ Hl Ha) as (l & r & E & _).
  cbn in E. rewrite E, (from_app 0 _ _ _ _ total) by (rewrite <- E; by apply laid_ordered). pose proof Hl as Hl2. rewrite E in Hl2. apply laid_app_inv in Hl2 as (mid & _ & Hr).
  assert (Hat : forall k b, (k, b) ∈ (pa_base a, a) :: r -> area_at m k = Some b).
  { intros k b Hb. apply (area_of_entry _ _ _ _ _ Hl). rewrite E, elem_of_app. by right. }
  apply (check_allocated total mid); [done|]. intros k b Hb Hk. pose proof (Hat _ _ Hb) as Hbk.
  destruct (decide (phys_addr <= k)) as [Hge|Hlt].
  - destruct (Hal k) as (t' & (c & Hc & Hu)%phys_at_area); [lia|]. rewrite Hbk in Hc. injection Hc as <-. unfold use_of in Hu. congruence.
  - assert (b = a) as ->.
    { apply elem_of_cons in Hb as [[= _ ->]|Hb]; [done|]. exfalso. destruct Hr as (_ & Hr). destruct (laid_area _ _ _ _ _ Hr Hb) as (_ & Hge & _). unfold area_end in *. cbn in *. lia. }
    apply phys_at_area in Ht as (c & Hc & Hu). rewrite Ha in Hc. injection Hc as <-. unfold use_of in Hu. congruence.
Qed.

Lemma map_direct total s a size phys_addr is_exec m1 cs : total <= U64_MAX -> laid 0 (dmem_map s) total -> coalesced PhysicalMemoryType.Mapped (dmem_map s) ->
  0 <= phys_addr -> 0 < size -> phys_addr + size <= total -> allocated (dmem_map s) phys_addr size ->
  exists areas m, map_backing VMAType.Direct a size phys_addr is_exec (s <| vma_map := m1 |> <| calls := cs |>) =
    Some (areas, s <| dmem_map := m |> <| vma_map := m1 |> <| calls := cs |>) /\
    laid 0 m total /\ coalesced PhysicalMemoryType.Mapped m /\ mapped_over (dmem_map s) m phys_addr (phys_addr + size) /\
    direct_pieces (dmem_map s) areas phys_addr size.
Proof.
  intros Htot Hl Hc Hp Hs Hfit Hal. unfold map_backing. set (s1 := s <| vma_map := m1 |> <| calls := cs |>). change (dmem_map s1) with (dmem_map s).
  destruct (direct_loop_spec total (dmem_map s) phys_addr size (S (length (dmem_map s))) (dmem_map s) [] phys_addr) as (m & areas & E & Hl' & Hm & Hpc & Hco); try done.
  - intros p Hin. destruct (Hal p Hin) as [t ->]. by eexists.
  - lia.
  - intros p. destruct (Z.leb_spec phys_addr p), (Z.ltb_spec p phys_addr); try lia; done.
  - rewrite Z.sub_diag. split; [done|]. intros x. lia.
  - intros _. pose proof (past_length (dmem_map s) phys_addr). lia.
  - replace (phys_addr + size - phys_addr) with size in E by lia. exists areas, m. rewrite E. split_and!; try done. by apply Hco.
Qed.

(** Memory that is neither allocated nor mapped is refused. *)
Lemma check_refused lo (l : PhysMap) hi end_ validate k b : laid lo l hi -> (k, b) ∈ l -> k < end_ ->
  dma_type b <> PhysicalMemoryType.Allocated -> dma_type b <> PhysicalMemoryType.Mapped ->
  check_dmem l end_ validate = ORBIS_KERNEL_ERROR_ENOMEM \/ validate = true /\ check_dmem l end_ validate = ORBIS_KERNEL_ERROR_EBUSY.
Proof.
  intros Hl Hin Hk Hna Hnm. revert lo Hl. induction l as [|[k0 a] l IH]; intros lo Hl; [by apply not_elem_of_nil in Hin|].
  pose proof Hl as ((_ & Hk0 & _) & Hl'). cbn in Hk0. cbn [check_dmem]. apply elem_of_cons in Hin as [[= -> ->]|Hin].
  - destruct (Z.leb_spec end_ (pa_base a)); [lia|]. rewrite !bool_decide_false by done. by left.
  - destruct (laid_area _ _ _ _ _ Hl' Hin) as (_ & Hge & _). destruct (laid_area _ _ _ k0 a Hl) as (_ & _ & Hs & _); [by left|]. unfold area_end in Hge. cbn in Hge, Hs.
    destruct (Z.leb_spec end_ (pa_base a)); [lia|]. destruct (negb _ && negb _); [by left|].
    destruct (validate && bool_decide (dma_type a = PhysicalMemoryType.Mapped)) eqn:E; [|by apply (IH Hin (area_end a))].
    apply andb_true_iff in E as [-> _]. by right.
Qed.

Lemma check_refused_at total m phys_addr size validate p u : laid 0 m total -> is_Some (phys_at m phys_addr) -> phys_addr <= p < phys_addr + size ->
  phys_at m p = Some u -> fst u <> PhysicalMemoryType.Allocated -> fst u <> PhysicalMemoryType.Mapped ->
  exists h a code, floor m phys_addr = Some (h, a) /\ check_dmem (from m h) (phys_addr + size) validate = code /\
    (code = ORBIS_KERNEL_ERROR_ENOMEM \/ validate = true /\ code = ORBIS_KERNEL_ERROR_EBUSY).
Proof.
  intros Hl [u0 H0] Hp Hu Hna Hnm. destruct (phys_at_locate _ _ _ _ Hl H0) as (a & Hfl & Ha & _ & Hin & _).
  destruct (phys_at_locate _ _ _ _ Hl Hu) as (b & _ & Hb & Hub & Hinb & _). exists (pa_base a), a. eexists. split; [done|]. split; [done|].
  destruct (locate _ _ _ _ _ Hl Ha) as (l & r & E & _). cbn in E. rewrite E, (from_app 0 _ _ _ _ total) by (rewrite <- E; by apply laid_ordered).
  pose proof Hl as Hl2. rewrite E in Hl2. pose proof Hl2 as Hl3. apply laid_app_inv in Hl2 as (mid & _ & Hr). apply laid_app in Hl3 as (Hll & _).
  destruct (locate _ _ _ _ _ Hl Hb) as (l2 & r2 & E2 & _). cbn in E2.
  assert (Hbm : (pa_base b, b) ∈ m) by (rewrite E2, elem_of_app, elem_of_cons; tauto). rewrite E in Hbm. apply elem_of_app in Hbm as [Hbm|Hbm].
  - destruct (laid_area _ _ _ _ _ Hll Hbm) as (_ & _ & _ & _ & Hle). lia.
  - apply (check_refused mid _ total _ _ (pa_base b) b Hr Hbm); [lia|..]; unfold use_of in Hub; subst u; done.
Qed.

(** Where there is a place, an allocated range is mapped there. *)
Lemma direct_placed hi dtotal ftotal space virtual_addr size prot flags name validate phys_addr alignment s a h d :
  mm_ok hi dtotal ftotal s -> place_hyps hi space (vma_map s) virtual_addr size flags (alignment_or alignment KB16) ->
  0 <= phys_addr -> phys_addr + size <= U64_MAX -> (total_direct_size s <? phys_addr + size) = false -> allocated (dmem_map s) phys_addr size ->
  floor (dmem_map s) phys_addr = Some (h, d) -> check_dmem (from (dmem_map s) h) (phys_addr + size) validate = ORBIS_OK ->
  place space (vma_map s) virtual_addr size flags (alignment_or alignment KB16) = Some (inl a) ->
  placed space (vma_map s) virtual_addr size flags (alignment_or alignment KB16) (inl a) ->
  exists s', MapMemory space virtual_addr size prot flags VMAType.Direct name validate phys_addr alignment s = Some (s', inl a) /\
    mm_ok hi dtotal ftotal s' /\ fmem_map s' = fmem_map s /\ flexible_usage s' = flexible_usage s /\
    mapped_as VMAType.Direct dmem_map PhysicalMemoryType.Allocated PhysicalMemoryType.Mapped a size prot flags name s s' /\
    (forall x, a <= x < a + size -> exists t, backed s' VMAType.Direct x (phys_addr + (x - a)) t).
Proof.
  intros Hok Hph Hp0 Hpfit Hin Hal Hfl Hck Hplace (Ha & Hpf & _). pose proof (mk_dmem _ _ _ _ Hok) as (Htot & Hl & Hc). pose proof (ph_size _ _ _ _ _ _ _ Hph) as Hs.
  assert (Hw : phys_addr +64 size = phys_addr + size) by (apply wrap64_small; u64_lia).
  assert (Hend : phys_addr + size <= dtotal).
  { destruct (Hal (phys_addr + size - 1)) as [t Ht]; [lia|]. destruct (phys_at_locate _ _ _ _ Hl Ht) as (b & _ & _ & _ & Hb & _ & _ & Hb'). lia. }
  set (Q := fun areas s2 => exists m, s2 = s <| dmem_map := m |> /\ laid 0 m dtotal /\ coalesced PhysicalMemoryType.Mapped m /\
    mapped_over (dmem_map s) m phys_addr (phys_addr + size) /\ direct_pieces (dmem_map s) areas phys_addr size).
  destruct (MapMemory_placed hi space virtual_addr size prot flags VMAType.Direct name validate phys_addr alignment s a Q)
    as (areas & s2 & m' & cs & (m & -> & Hlm & Hcm & Hov & Ht & Hpc) & E & Hv & Hpg); try done; [apply Hok| | | |].
  { right. rewrite Hw. split; [done|]. by exists h, d. }
  { intros m1 cs. destruct (map_direct dtotal s a size phys_addr (has prot CpuExec) m1 cs) as (areas & m & E & ?); [done..|].
    exists areas, (s <| dmem_map := m |>), cs. split; [done|]. by exists m. }
  { intros areas s2 (m & _ & _ & _ & _ & Ht & _). done. }
  eexists. split; [exact E|]. set (s' := s <| dmem_map := m |> <| vma_map := m' |> <| calls := cs |>).
  assert (Hpiece : forall x p t d, backing areas x = Some (p, t, d) -> 0 <= x < size /\ p = phys_addr + x /\ d = PhysicalMemoryType.Mapped /\
    phys_at (dmem_map s) p = Some (PhysicalMemoryType.Allocated, t) /\ phys_at m p = Some (PhysicalMemoryType.Mapped, t)).
  { intros x p t d' Hb. pose proof (backing_in _ _ _ _ _ Ht Hb) as Hx. destruct (Hpc x Hx) as (u & Hu & Hb'). rewrite Hb in Hb'. injection Hb' as -> -> ->.
    destruct (Hal (phys_addr + x)) as [t' Ht']; [lia|]. rewrite Ht' in Hu. injection Hu as <-. split_and!; try done; try lia. rewrite Hov, Ht'.
    by destruct (Z.leb_spec phys_addr (phys_addr + x)), (Z.ltb_spec (phys_addr + x) (phys_addr + size)); try lia. }
  split_and!; [|done|done| |].
  - apply (mm_ok_mapped hi dtotal ftotal s s' a size VMAType.Direct areas prot flags name); try done.
    + split; apply (mk_fmem _ _ _ _ Hok).
    + intros p t Hp. change (dmem_map s') with m. rewrite Hov, Hp. by destruct (_ && _).
    + intros x p t d' Hb. split; [|done]. intros _. destruct (Hpiece _ _ _ _ Hb) as (_ & _ & _ & Hf & Hp). split; [done|]. congruence.
    + intros x y p t d1 t' d2 Hx Hy. destruct (Hpiece _ _ _ _ Hx) as (_ & -> & _), (Hpiece _ _ _ _ Hy) as (_ & ? & _). lia.
    + apply (mk_usage _ _ _ _ Hok).
  - apply (mapped_as_intro _ _ _ _ _ _ _ _ _ areas); try done.
    + intros x Hx. destruct (tiled_backing _ _ _ x Ht Hx) as [[[p t] d'] Hb]. destruct (Hpiece _ _ _ _ Hb) as (_ & _ & -> & ? & ?). by exists p, t.
    + intros p Hno. change (dmem_map s') with m. rewrite Hov. destruct (Z.leb_spec phys_addr p), (Z.ltb_spec p (phys_addr + size)); try done. exfalso.
      destruct (Hpc (p - phys_addr)) as (u & _ & Hb); [lia|]. replace (phys_addr + (p - phys_addr)) with p in Hb by lia. by apply Hno in Hb.
  - intros x Hx. destruct (tiled_backing _ _ _ (x - a) Ht) as [[[p t] d'] Hb]; [lia|]. destruct (Hpiece _ _ _ _ Hb) as (_ & -> & -> & _).
    exists t, (new_page prot flags VMAType.Direct name areas a x), PhysicalMemoryType.Mapped. change (vma_map s') with m'. rewrite Hpg.
    destruct (Z.leb_spec a x), (Z.ltb_spec x (a + size)); try lia. done.
Qed.

Lemma MapMemory_direct_spec hi dtotal ftotal space virtual_addr size prot flags name validate phys_addr alignment s :
  mm_ok hi dtotal ftotal s -> place_hyps hi space (vma_map s) virtual_addr size flags (alignment_or alignment KB16) ->
  0 <= phys_addr -> phys_addr + size <= U64_MAX ->
  let r := MapMemory space virtual_addr size prot flags VMAType.Direct name validate phys_addr alignment s in
  (total_direct_size s < phys_addr + size -> r = Some (s, inr ORBIS_KERNEL_ERROR_ENOMEM)) /\
  (phys_addr + size <= total_direct_size s -> is_Some (phys_at (dmem_map s) phys_addr) ->
   (exists p u, phys_addr <= p < phys_addr + size /\ phys_at (dmem_map s) p = Some u /\
      fst u <> PhysicalMemoryType.Allocated /\ fst u <> PhysicalMemoryType.Mapped) ->
   exists code, r = Some (s, inr code) /\ (code = ORBIS_KERNEL_ERROR_ENOMEM \/ validate = true /\ code = ORBIS_KERNEL_ERROR_EBUSY)) /\
  (phys_addr + size <= total_direct_size s -> allocated (dmem_map s) phys_addr size ->
   exists res, placed space (vma_map s) virtual_addr size flags (alignment_or alignment KB16) res /\
     match res with
     | inr code => r = Some (s, inr code)
     | inl a => exists s', r = Some (s', inl a) /\ mm_ok hi dtotal ftotal s' /\ fmem_map s' = fmem_map s /\ flexible_usage s' = flexible_usage s /\
         mapped_as VMAType.Direct dmem_map PhysicalMemoryType.Allocated PhysicalMemoryType.Mapped a size prot flags name s s' /\
         (forall x, a <= x < a + size -> exists t, backed s' VMAType.Direct x (phys_addr + (x - a)) t)
     end).
Proof.
  intros Hok Hph Hp0 Hpfit r. pose proof (mk_dmem _ _ _ _ Hok) as (Htot & Hl & Hc). pose proof (ph_size _ _ _ _ _ _ _ Hph) as Hs.
  assert (Hne : (phys_addr =? NoAddr) = false) by (apply Z.eqb_neq; unfold NoAddr; lia).
  assert (Hw : phys_addr +64 size = phys_addr + size) by (apply wrap64_small; u64_lia).
  assert (Hcode : forall h a code, (total_direct_size s <? phys_addr + size) = false -> floor (dmem_map s) phys_addr = Some (h, a) ->
    check_dmem (from (dmem_map s) h) (phys_addr + size) validate = code -> code <> ORBIS_OK -> r = Some (s, inr code)).
  { intros h a code Hle Hfl Hck Hn. unfold r, MapMemory. cbn [bool_decide andb]. rewrite Hne, Hw, Hle, Hfl. cbn [mbind option_bind]. rewrite Hck.
    by destruct (Z.eqb_spec code ORBIS_OK). }
  split_and!.
  - intros Hover. unfold r, MapMemory. cbn [andb]. rewrite Hne, Hw. by destruct (Z.ltb_spec (total_direct_size s) (phys_addr + size)); [|lia].
  - intros Hin Hsome (p & u & Hp & Hu & Hna & Hnm). apply Z.ltb_ge in Hin.
    destruct (check_refused_at dtotal (dmem_map s) phys_addr size validate p u) as (h & a & code & Hfl & Hck & Hcode'); [done..|].
    exists code. split; [|done]. apply (Hcode h a); [done..|]. by destruct Hcode' as [->|[_ ->]].
  - intros Hin%Z.ltb_ge Hal. destruct (check_dmem_spec dtotal (dmem_map s) phys_addr size validate Hl Hs Hal) as (h & d & Hfl & Hck).
    destruct (place_spec _ _ _ _ _ _ _ (mk_virt _ _ _ _ Hok) Hph) as (res & Hplace & Hres). exists res. split; [done|]. destruct res as [a|code].
    2: { unfold r, MapMemory. cbn [andb]. rewrite Hne, Hw, Hin, Hfl. cbn [mbind option_bind]. rewrite Hck, Z.eqb_refl. cbn [negb].
         change (if 0 <? alignment then alignment else KB16) with (alignment_or alignment KB16). by rewrite Hplace. }
    by apply (direct_placed hi dtotal ftotal space virtual_addr size prot flags name validate phys_addr alignment s a h d).
Qed.

(** Mapping direct memory. A physical range that ends beyond the direct memory, or with memory in it
    that is neither allocated nor mapped, is refused and nothing changes. When the range is
    allocated, and there is a place, the pages become direct with the protection, the name and
    the flag asked for, each on its address of the range, which is mapped now; no other page and
    no other memory changes, and the maps stay consistent. *)
Theorem MapMemory_direct hi dtotal ftotal space virtual_addr size prot flags name validate phys_addr alignment s :
  mm_ok hi dtotal ftotal s -> place_hyps hi space (vma_map s) virtual_addr size flags (alignment_or alignment KB16) ->
  0 <= phys_addr -> phys_addr + size <= U64_MAX ->
  let r := MapMemory space virtual_addr size prot flags VMAType.Direct name validate phys_addr alignment s in
  (total_direct_size s < phys_addr + size -> r = Some (s, inr ORBIS_KERNEL_ERROR_ENOMEM)) /\
  (phys_addr + size <= total_direct_size s -> is_Some (phys_at (dmem_map s) phys_addr) ->
   (exists p u, phys_addr <= p < phys_addr + size /\ phys_at (dmem_map s) p = Some u /\
      fst u <> PhysicalMemoryType.Allocated /\ fst u <> PhysicalMemoryType.Mapped) ->
   exists code, r = Some (s, inr code) /\ (code = ORBIS_KERNEL_ERROR_ENOMEM \/ validate = true /\ code = ORBIS_KERNEL_ERROR_EBUSY)) /\
  (phys_addr + size <= total_direct_size s -> allocated (dmem_map s) phys_addr size ->
   exists res, placed space (vma_map s) virtual_addr size flags (alignment_or alignment KB16) res /\
     match res with
     | inr code => r = Some (s, inr code)
     | inl a => exists s', r = Some (s', inl a) /\ mm_ok hi dtotal ftotal s' /\ fmem_map s' = fmem_map s /\ flexible_usage s' = flexible_usage s /\
         mapped_as VMAType.Direct dmem_map PhysicalMemoryType.Allocated PhysicalMemoryType.Mapped a size prot flags name s s' /\
         (forall x, a <= x < a + size -> exists t, backed s' VMAType.Direct x (phys_addr + (x - a)) t)
     end).
Proof. apply MapMemory_direct_spec. Qed.

(** * Mapping and unmapping *)

(** Whether a page of a type is on a physical address. *)
Definition backs (s : Memory) (ty : VMAType.t) (p x : Z) : bool :=
  match page_at (vma_map s) x with
  | Some pg => bool_decide (pg_type pg = ty) && match pg_backing pg with Some (q, _, _) => q =? p | None => false end
  | None => false
  end.

Lemma backs_spec s ty p x : backs s ty p x = true <-> exists t, backed s ty x p t.
Proof.
  unfold backs, backed. destruct (page_at (vma_map s) x) as [pg|]; [|split; [done|by intros (? & ? & ? & ? & _)]].
  rewrite andb_true_iff, bool_decide_eq_true. destruct (pg_backing pg) as [[[q t] d]|] eqn:E.
  - rewrite Z.eqb_eq. split; [intros [? ->]; by exists t, pg, d|]. intros (t' & pg' & d' & [= <-] & Ht & Hb). split; congruence.
  - split; [by intros []|]. intros (t' & pg' & d' & [= <-] & Ht & Hb). congruence.
Qed.

Lemma backed_dec s ty p a size : (exists x t, a <= x < a + size /\ backed s ty x p t) \/ (forall x t, a <= x < a + size -> ~ backed s ty x p t).
Proof.
  destruct (decide (Exists (fun x => backs s ty p x = true) (seqZ a size))) as [(x & Hx%elem_of_seqZ & [t Ht]%backs_spec)%Exists_exists|Hno].
  - left. exists x, t. split; [lia|done].
  - right. intros x t Hx Hb. apply Hno, Exists_exists. exists x. split; [apply elem_of_seqZ; lia|]. apply backs_spec. by exists t.
Qed.

(** The memory behind a new mapping is as before once it is given back. *)
Lemma given_back type phys before after a size prot flags name s s' s'' : mapped_as type phys before after a size prot flags name s s' ->
  (forall x p t, a <= x < a + size -> backed s' type x p t -> phys_at (phys s'') p = Some (before, t)) ->
  (forall p, (forall x t, a <= x < a + size -> ~ backed s' type x p t) -> phys_at (phys s'') p = phys_at (phys s') p) ->
  forall p, phys_at (phys s'') p = phys_at (phys s) p.
Proof.
  intros Hm Hin Hout p. destruct (backed_dec s' type p a size) as [(x & t & Hx & Hb)|Hno].
  - rewrite (Hin x p t Hx Hb). destruct (ma_page _ _ _ _ _ _ _ _ _ _ _ Hm x Hx) as (q & t' & Hpg & Hq & _).
    destruct Hb as (pg & d & Hpg' & _ & Hbk). rewrite Hpg in Hpg'. injection Hpg' as <-. cbn in Hbk. congruence.
  - rewrite (Hout p Hno). apply (ma_phys _ _ _ _ _ _ _ _ _ _ _ Hm p Hno).
Qed.

Lemma not_of_type type phys before after a size prot flags name s s' ty : mapped_as type phys before after a size prot flags name s s' -> ty <> type ->
  forall x p t, a <= x < a + size -> ~ backed s' ty x p t.
Proof.
  intros Hm Hty x p t Hx (pg & d & Hpg & Ht & _). destruct (ma_page _ _ _ _ _ _ _ _ _ _ _ Hm x Hx) as (q & t' & Hpg' & _).
  rewrite Hpg in Hpg'. injection Hpg' as ->. by cbn in Ht.
Qed.

Lemma aligned_exact a : 0 <= a -> a + KB16 <= U64_MAX -> aligned KB16 a -> AlignDown a KB16 = a /\ AlignUp a KB16 = a.
Proof.
  intros H0 Ha Hal. unfold AlignDown. rewrite Hal, Z.sub_0_r, wrap64_small by (unfold KB16 in *; u64_lia). split; [done|].
  destruct (AlignUp_spec a KB16) as (_ & Hb & Hleast); [lia|done|lia|]. specialize (Hleast a Hal). lia.
Qed.

(** What unmapping does to a range that was just mapped. *)
Lemma unmap_mapped hi dtotal ftotal type phys before after a size prot flags name s s' : mm_ok hi dtotal ftotal s' ->
  mapped_as type phys before after a size prot flags name s s' -> type <> VMAType.Free -> type <> VMAType.Pooled -> aligned KB16 a -> aligned KB16 size ->
  0 <= a -> 0 < size -> a + size + KB16 <= U64_MAX ->
  exists s'', UnmapMemory a size s' = Some (s'', ORBIS_OK) /\ mm_ok hi dtotal ftotal s'' /\ unmapped a size s' s'' /\
    (forall x, page_at (vma_map s'') x = if (a <=? x) && (x <? a + size) then Some free_page else page_at (vma_map s) x).
Proof.
  intros Hok Hm Hnf Hnp Haa Has Ha Hs Hfit. destruct (aligned_exact a) as [Ead _]; [lia|lia|done|]. destruct (aligned_exact size) as [_ Eus]; [lia|lia|done|].
  assert (Hne : vma_map s' <> []).
  { intros E. destruct (ma_page _ _ _ _ _ _ _ _ _ _ _ Hm a) as (p & t & Hpg & _); [lia|]. by rewrite E in Hpg. }
  destruct (UnmapMemory_spec hi dtotal ftotal a size s' Hok Hne Ha Hs Hfit) as [Hyes _]. rewrite Ead, Eus in Hyes. destruct Hyes as (s'' & E & Hok'' & Hu).
  { intros x Hx. apply is_page. destruct (ma_page _ _ _ _ _ _ _ _ _ _ _ Hm x Hx) as (p & t & -> & _). by eexists. }
  exists s''. split_and!; [done|done|done|]. intros x. rewrite (um_page _ _ _ _ Hu).
  destruct (Z.leb_spec a x), (Z.ltb_spec x (a + size)); cbn [andb]; try (apply (ma_pages _ _ _ _ _ _ _ _ _ _ _ Hm); lia).
  destruct (ma_page _ _ _ _ _ _ _ _ _ _ _ Hm x) as (p & t & -> & _); [lia|]. cbn. unfold unmapped_page. cbn. by rewrite !bool_decide_false by done.
Qed.

(** C24. Mapping memory that is not mapped yet and unmapping the range again leaves every physical address
    with the use it had, and every page as it was, but for those of the range, which are free pages
    without name and protection. That is for flexible memory with room for it, and for direct
    memory of which every byte is allocated and none is mapped (so without aliases); where the
    address is Fixed the mapping is NoOverwrite, so it replaces nothing, and not in a gap of the map;
    the place and the size are in whole pages of 16 KB, and the addresses and the alignment (below
    4 GB) do not wrap around. *)
Theorem MapMemory_UnmapMemory hi dtotal ftotal space virtual_addr size prot flags type name validate phys_addr alignment s s' a :
  mm_ok hi dtotal ftotal s -> place_hyps hi space (vma_map s) virtual_addr size flags (alignment_or alignment KB16) ->
  (type = VMAType.Flexible /\ phys_addr = NoAddr /\ flexible_usage s + size <= total_flexible_size s <= U64_MAX /\
     total_flexible_size s <= flexible_usage s + used PhysicalMemoryType.Free (fmem_map s) \/
   type = VMAType.Direct /\ 0 <= phys_addr /\ phys_addr + size <= U64_MAX /\ phys_addr + size <= total_direct_size s /\
     allocated (dmem_map s) phys_addr size) ->
  MapMemory space virtual_addr size prot flags type name validate phys_addr alignment s = Some (s', inl a) ->
  aligned KB16 a -> aligned KB16 size -> a + size + KB16 <= U64_MAX ->
  exists s'', UnmapMemory a size s' = Some (s'', ORBIS_OK) /\ mm_ok hi dtotal ftotal s'' /\
    (forall x, page_at (vma_map s'') x = if (a <=? x) && (x <? a + size) then Some free_page else page_at (vma_map s) x) /\
    (forall p, phys_at (fmem_map s'') p = phys_at (fmem_map s) p /\ phys_at (dmem_map s'') p = phys_at (dmem_map s) p).
Proof.
  intros Hok Hph Hty Hmap Haa Has Hfit. pose proof (ph_size _ _ _ _ _ _ _ Hph) as Hs.
  destruct Hty as [(-> & -> & Hroom & Hmem)|(-> & Hp0 & Hpf & Hpd & Hal)].
  - destruct (MapMemory_flexible_spec hi dtotal ftotal space virtual_addr size prot flags name validate alignment s Hok Hph) as [_ Hr]; [lia|done|].
    destruct (Hr (proj1 Hroom)) as (res & Hres & E). cbv zeta in E. rewrite Hmap in E. destruct res as [b|code]; [|done].
    destruct E as (s2 & [= -> ->] & Hok' & _ & Hd & Hm). destruct Hres as (Ha & _).
    destruct (unmap_mapped _ _ _ _ _ _ _ _ _ _ _ _ _ _ Hok' Hm) as (s'' & E & Hok'' & Hu & Hpg); [done..|]. exists s''. split_and!; [done|done|done|]. intros p. split.
    + apply (given_back _ _ _ _ _ _ _ _ _ _ _ s'' Hm); [apply (um_flexible _ _ _ _ Hu)|apply (um_fmem _ _ _ _ Hu)].
    + rewrite (um_dmem _ _ _ _ Hu); [by rewrite Hd|]. intros x t Hx. by apply (not_of_type _ _ _ _ _ _ _ _ _ _ _ VMAType.Direct Hm).
  - destruct (MapMemory_direct_spec hi dtotal ftotal space virtual_addr size prot flags name validate phys_addr alignment s Hok Hph) as (_ & _ & Hr); [done..|].
    destruct (Hr Hpd Hal) as (res & Hres & E). cbv zeta in E. rewrite Hmap in E. destruct res as [b|code]; [|done].
    destruct E as (s2 & [= -> ->] & Hok' & Hf & _ & Hm & _). destruct Hres as (Ha & _).
    destruct (unmap_mapped _ _ _ _ _ _ _ _ _ _ _ _ _ _ Hok' Hm) as (s'' & E & Hok'' & Hu & Hpg); [done..|]. exists s''. split_and!; [done|done|done|]. intros p. split.
    + rewrite (um_fmem _ _ _ _ Hu); [by rewrite Hf|]. intros x t Hx. by apply (not_of_type _ _ _ _ _ _ _ _ _ _ _ VMAType.Flexible Hm).
    + apply (given_back _ _ _ _ _ _ _ _ _ _ _ s'' Hm); [apply (um_direct _ _ _ _ Hu)|apply (um_dmem _ _ _ _ Hu)].
Qed.

(** * The memory at the start *)

(** Without mappings the maps are consistent. *)
Lemma no_mappings_ok hi dtotal ftotal s : virt_ok hi (vma_map s) -> Forall (fun e => vma_type (snd e) = VMAType.Free) (vma_map s) ->
  dtotal <= U64_MAX -> laid 0 (dmem_map s) dtotal -> Forall (fun e => dma_type (snd e) <> PhysicalMemoryType.Mapped) (dmem_map s) ->
  ftotal <= U64_MAX -> laid 0 (fmem_map s) ftotal -> Forall (fun e => dma_type (snd e) <> PhysicalMemoryType.Flexible) (fmem_map s) ->
  flexible_usage s = 0 -> mm_ok hi dtotal ftotal s.
Proof.
  intros Hv Hfree Hd Hdl Hdn Hf Hfl Hfn Hu.
  assert (Hc : forall d m, Forall (fun e => dma_type (snd e) <> d) m -> coalesced d m).
  { intros d m Hno x t _ (a & (l & k & r & -> & _)%area_at_in & Hua)%phys_at_area. rewrite Forall_app, Forall_cons in Hno.
    destruct Hno as (_ & Ha & _). unfold use_of in Hua. cbn in Ha. congruence. }
  assert (Hno : forall ty x p t, ty <> VMAType.Free -> ~ backed s ty x p t).
  { intros ty x p t Hty (pg & d & Hpg & Ht & _). unfold page_at, view_at in Hpg. destruct (area_at (vma_map s) x) as [v|] eqn:E; [|done]. injection Hpg as <-.
    destruct (area_at_in _ _ _ E) as (l & k & r & E' & _). rewrite E', Forall_app, Forall_cons in Hfree. destruct Hfree as (_ & Hvf & _). cbn in Ht, Hvf. congruence. }
  split; [done|by auto|by auto| | | |by rewrite Hu, used_none].
  - intros x p t Hb. by destruct (Hno VMAType.Direct x p t).
  - intros x p t Hb. by destruct (Hno VMAType.Flexible x p t).
  - intros ty x y p t t' Hty Hb. destruct (Hno ty x p t); [by destruct Hty as [-> | ->]|done].
Qed.

(** The regions of the address space in order, none empty. *)
Fixpoint regions_ok (lo : Z) (regions : list (Z * Z)) (hi : Z) : Prop :=
  match regions with
  | [] => lo <= hi
  | (start, end_) :: r => lo <= start /\ start < end_ /\ regions_ok end_ r hi
  end.

Definition fresh_area (e : Z * VirtualMemoryArea) : Prop :=
  snd e = mkVMA (fst e) (vma_size (snd e)) [] VMAType.Free NoAccess "" 0 false.

Lemma regions_map regions m lo hi : laid 0 m lo -> 0 <= lo -> hi <= U64_MAX -> Forall fresh_area m -> regions_ok lo regions hi ->
  let m' := fold_left (fun m r => emplace m (fst r) (mkVMA (fst r) (snd r -64 fst r) [] VMAType.Free NoAccess "" 0 false)) regions m in
  laid 0 m' hi /\ Forall fresh_area m' /\
  (forall x, is_Some (area_at m x) \/ Exists (fun r => fst r <= x < snd r) regions <-> is_Some (area_at m' x)).
Proof.
  revert m lo. induction regions as [|[b e] r IH]; intros m lo Hm Hlo Hhi Hfree Hr.
  - cbn in Hr |- *. split_and!; [by apply (laid_extend _ _ lo)|done|]. intros x. rewrite Exists_nil. tauto.
  - destruct Hr as (Hb & Hbe & Hr). cbn [fold_left fst snd].
    assert (He : e <= hi). { clear -Hr. revert e Hr. induction r as [|[b e'] r IH]; intros e; cbn; [done|]. intros (? & ? & ?%IH). lia. }
    rewrite wrap64_small by u64_lia. set (v := mkVMA b (e - b) [] VMAType.Free NoAccess "" 0 false).
    assert (Em : emplace m b v = m ++ [(b, v)]).
    { rewrite <- (app_nil_r m) at 1. apply (emplace_between 0 _ _ _ _ (b + 1)); [apply laid_ordered, (laid_extend _ _ lo); done|cbn; lia]. }
    rewrite Em. assert (Hm' : laid 0 (m ++ [(b, v)]) e).
    { apply laid_app. split_and!; [by apply (laid_extend _ _ lo)|done|cbn; lia|done|unfold area_end; cbn; lia]. }
    destruct (IH (m ++ [(b, v)]) e) as (Hl & Hf & Hat); [done|lia|done|by apply Forall_app; split; [done|constructor]|done|]. split_and!; [done|done|].
    intros x. rewrite <- Hat. rewrite area_at_app. rewrite Exists_cons. cbn [fst snd].
    assert (Hv : is_Some (area_at [(b, v)] x) <-> b <= x < e).
    { cbn. pose proof (inside_spec v x) as I. unfold area_end in I. cbn in I. destruct (inside v x); [split; [intros _|by eexists]|split; [by intros []|]].
      - destruct I as [I _]. specialize (I eq_refl). lia.
      - intros Hx. destruct I as [_ I]. discriminate I. lia. }
    destruct (area_at m x) as [w|]; [split; intros _; left; by eexists|]. rewrite Hv. assert (~ is_Some (@None VirtualMemoryArea)) by (by intros []). tauto.
Qed.


Lemma new_memory_sizes regions set version : 0 <= extra_dmem set < 0x1000000 -> 0 <= extra_fmem set < 0x1000000 ->
  let s := new_memory regions set version in
  total_direct_size s = ORBIS_KERNEL_TOTAL_MEM_DEV_PRO + (extra_dmem set + extra_fmem set) * MB1 /\
  total_flexible_size s = ORBIS_KERNEL_FLEXIBLE_MEMORY_SIZE + extra_fmem set /\
  dmem_map s = [(0, mkPhys 0 (total_direct_size s) 0 PhysicalMemoryType.Free)] /\
  fmem_map s = [(total_direct_size s, mkPhys (total_direct_size s) (total_flexible_size s) 0 PhysicalMemoryType.Free)].
Proof.
  intros Hd Hf. cbn. unfold ORBIS_KERNEL_TOTAL_MEM_DEV_PRO, ORBIS_KERNEL_FLEXIBLE_MEMORY_SIZE, MB1.
  assert (Hw : forall x, 0 <= x < 0x1000000 -> wrap64 (x * 0x100000) = x * 0x100000) by (intros x Hx; apply wrap64_small; u64_lia).
  rewrite (wrap64_small (extra_fmem set)), (wrap64_small (512 * 0x100000 + extra_fmem set)), !Hw by u64_lia.
  split_and!; [|done..]. destruct (Z.eqb_spec (extra_dmem set) 0), (Z.eqb_spec (extra_fmem set) 0); cbn [negb];
    rewrite ?(wrap64_small (7936 * 0x100000 + extra_dmem set * 0x100000)) by u64_lia; rewrite ?wrap64_small by u64_lia; lia.
Qed.

Lemma one_area lo b n t d hi : lo <= b -> 0 < n -> b + n <= hi -> laid lo [(b, mkPhys b n t d)] hi.
Proof. intros ? ? ?. cbn. unfold area_end. cbn. split_and!; (done || lia). Qed.

(** The constructor makes consistent maps: every address of the regions of the host is a free page, no
    other address is in the map; all direct and all flexible memory is free, none of it used. *)
Theorem new_memory_consistent regions set version hi : regions_ok 0 regions hi -> hi <= U64_MAX ->
  0 <= extra_dmem set < 0x1000000 -> 0 <= extra_fmem set < 0x1000000 ->
  let s := new_memory regions set version in let total := total_direct_size s in
  mm_ok hi total (total + total_flexible_size s) s /\
  (forall x, page_at (vma_map s) x = if bool_decide (Exists (fun r => fst r <= x < snd r) regions) then Some free_page else None) /\
  (forall p, 0 <= p < total -> phys_at (dmem_map s) p = Some (PhysicalMemoryType.Free, 0)) /\
  total_flexible_size s = used PhysicalMemoryType.Free (fmem_map s) /\ GetAvailableFlexibleSize s = total_flexible_size s.
Proof.
  intros Hr Hhi Hxd Hxf s total. destruct (new_memory_sizes regions set version Hxd Hxf) as (Et & Ef & Ed & Em). fold s total in Et, Ef, Ed, Em.
  unfold ORBIS_KERNEL_TOTAL_MEM_DEV_PRO, ORBIS_KERNEL_FLEXIBLE_MEMORY_SIZE, MB1 in *.
  destruct (regions_map regions [] 0 hi) as (Hl & Hfree & Hat); [done|lia|done|done|done|].
  change (fold_left _ regions []) with (vma_map s) in Hl, Hfree, Hat. split_and!.
  - apply no_mappings_ok; try done; rewrite ?Ed, ?Em; try (u64_lia); try (by repeat constructor).
    + by eapply Forall_impl; [exact Hfree|intros [k v] ->].
    + apply one_area; lia.
    + apply one_area; lia.
  - intros x. specialize (Hat x). unfold page_at, view_at. case_bool_decide as Hx.
    + destruct (proj1 Hat) as [v Hv]; [by right|]. rewrite Hv. destruct (area_at_in _ _ _ Hv) as (l & k & r & E & _). rewrite E, Forall_app, Forall_cons in Hfree.
      destruct Hfree as (_ & Hvf & _). unfold fresh_area in Hvf. cbn in Hvf. cbn. rewrite Hvf. done.
    + destruct (area_at (vma_map s) x) as [v|] eqn:E; [|done]. by destruct (proj2 Hat ltac:(by eexists)) as [[]|].
  - intros p Hp. rewrite Ed. apply phys_at_area. exists (mkPhys 0 total 0 PhysicalMemoryType.Free). split; [|done]. cbn [area_at].
    match goal with |- context [inside ?a p] => assert (inside a p = true) as -> by (apply inside_spec; unfold area_end; cbn [area_base area_size phys_area pa_base pa_size]; lia) end. done.
  - rewrite Em. cbn [used fst snd dma_type pa_size]. by rewrite bool_decide_true, Z.add_0_r.
  - unfold GetAvailableFlexibleSize. change (flexible_usage s) with 0. rewrite Z.sub_0_r. apply wrap64_small. u64_lia.
Qed.

(** ** Witnesses *)

Definition space_1 : Space := mkSpace 0x200000000 0x200000000 0x100000000.
(** A region of the host, and 64 KB of direct memory in use by the guest. *)
Definition mem_0 : Memory := new_memory [(0x200000000, 0x200100000)] (mkSettings false false 0 0) 0x3000000.
Definition mem_1 : Memory := mem_0 <| dmem_map := after_allocate (dmem_map mem_0) 0 0x10000 10 |>.
(** 32 KB of it mapped at a fixed address, then 48 KB of flexible memory. *)
Definition mapped_or (r : option (Memory * (Z + Z))) (s : Memory) : Memory := match r with Some (s, _) => s | None => s end.
Abbreviation map_1 :=
  (MapMemory space_1 0x200008000 0x8000 CpuReadWrite (Z.lor Fixed NoOverwrite) VMAType.Direct "heap" true 0x4000 0 mem_1) (only parsing).
Definition mem_2 : Memory := mapped_or map_1 mem_1.
Abbreviation map_2 := (MapMemory space_1 0 0xc000 CpuWrite 0 VMAType.Flexible "stack" false NoAddr 0 mem_2) (only parsing).
Definition mem_3 : Memory := mapped_or map_2 mem_2.

Lemma result_inj {A B C} (s t : A) (x : B) (r : B + C) (P : A -> B -> Prop) :
  match r with inr c => Some (s, inl x) = Some (t, inr c) | inl y => exists u, Some (s, inl x : B + C) = Some (u, inl y) /\ P u y end -> P s x.
Proof. destruct r as [y|c]; [|done]. by intros (u & [= <- <-] & HP). Qed.

Definition dtotal_1 : Z := 8321499136.
Definition ftotal_1 : Z := 8858370048.

Lemma new_memory_consistent_witness : total_direct_size mem_0 = dtotal_1 /\ mm_ok 0x200100000 dtotal_1 ftotal_1 mem_0.
Proof.
  split; [reflexivity|]. destruct (new_memory_consistent [(0x200000000, 0x200100000)] (mkSettings false false 0 0) 0x3000000 0x200100000) as (Hok & _);
    [cbn; lia|done|cbn; lia|cbn; lia|]. exact Hok.
Defined.

Ltac laid_by_compute := vm_compute; split_and!; (done || discriminate).

Lemma mem_1_ok : mm_ok 0x200100000 dtotal_1 ftotal_1 mem_1.
Proof. apply no_mappings_ok; try done; try (split; [done|]); try laid_by_compute; vm_compute; repeat constructor; discriminate. Qed.

Lemma allocated_1 : allocated (dmem_map mem_1) 0x4000 0x8000.
Proof.
  intros p Hp. exists 10. apply phys_at_area. exists (mkPhys 0 0x10000 10 PhysicalMemoryType.Allocated). split; [|done].
  assert (Hl : laid 0 (dmem_map mem_1) dtotal_1) by laid_by_compute. apply (area_at_same 0 (dmem_map mem_1) dtotal_1 0x4000 p _ Hl); [done|].
  apply inside_spec. unfold area_end. cbn. lia.
Qed.

Lemma hyps_1 : place_hyps 0x200100000 space_1 (vma_map mem_1) 0x200008000 0x8000 (Z.lor Fixed NoOverwrite) (alignment_or 0 KB16).
Proof.
  split; try done; try (split; done). intros _. split; [done|]. intros (Hn & _). vm_compute in Hn. discriminate.
Qed.

Lemma map_1_result : map_1 = Some (mem_2, inl 0x200008000).
Proof. vm_compute. reflexivity. Qed.

Lemma MapMemory_direct_witness : map_1 = Some (mem_2, inl 0x200008000) /\ mm_ok 0x200100000 dtotal_1 ftotal_1 mem_2 /\
  exists t, backed mem_2 VMAType.Direct 0x20000c000 0x8000 t.
Proof.
  split; [exact map_1_result|].
  destruct (MapMemory_direct 0x200100000 dtotal_1 ftotal_1 space_1 0x200008000 0x8000 CpuReadWrite (Z.lor Fixed NoOverwrite) "heap" true 0x4000 0 mem_1 mem_1_ok hyps_1)
    as (_ & _ & H); [lia|vm_compute; discriminate|]. destruct H as (res & _ & H); [vm_compute; discriminate|exact allocated_1|].
  rewrite map_1_result in H. apply result_inj in H as (Hok & _ & _ & _ & Hb). split; [exact Hok|]. apply (Hb 0x20000c000). lia.
Defined.

Lemma mem_2_ok : mm_ok 0x200100000 dtotal_1 ftotal_1 mem_2.
Proof.
  destruct (MapMemory_direct_spec 0x200100000 dtotal_1 ftotal_1 space_1 0x200008000 0x8000 CpuReadWrite (Z.lor Fixed NoOverwrite) "heap" true 0x4000 0 mem_1 mem_1_ok hyps_1)
    as (_ & _ & H); [lia|vm_compute; discriminate|]. destruct H as (res & _ & H); [vm_compute; discriminate|exact allocated_1|].
  rewrite map_1_result in H. by apply result_inj in H as (Hok & _).
Qed.

Lemma hyps_2 : place_hyps 0x200100000 space_1 (vma_map mem_2) 0 0xc000 0 (alignment_or 0 KB16).
Proof.
  split; [vm_compute; discriminate|done|by split|by split|vm_compute; discriminate|by split_and!|intros Hf; exfalso; revert Hf; vm_compute; discriminate].
Qed.

Lemma map_2_result : map_2 = Some (mem_3, inl 0x200010000).
Proof. vm_compute. reflexivity. Qed.

(** The 32 KB before the direct area are too small: it goes behind it. *)
Lemma MapMemory_flexible_witness : map_2 = Some (mem_3, inl 0x200010000) /\ mm_ok 0x200100000 dtotal_1 ftotal_1 mem_3 /\ flexible_usage mem_3 = 0xc000.
Proof.
  split; [exact map_2_result|].
  destruct (MapMemory_flexible 0x200100000 dtotal_1 ftotal_1 space_1 0 0xc000 CpuWrite 0 "stack" false 0 mem_2 mem_2_ok hyps_2)
    as (_ & H); [vm_compute; discriminate|vm_compute; discriminate|]. destruct H as (res & _ & H); [vm_compute; discriminate|].
  rewrite map_2_result in H. apply result_inj in H as (Hok & Hu & _). split; [exact Hok|]. exact Hu.
Defined.

Lemma MapMemory_UnmapMemory_witness : exists s, UnmapMemory 0x200010000 0xc000 mem_3 = Some (s, ORBIS_OK) /\
  (forall p, phys_at (fmem_map s) p = phys_at (fmem_map mem_2) p) /\ page_at (vma_map s) 0x200010000 = Some free_page.
Proof.
  destruct (MapMemory_UnmapMemory 0x200100000 dtotal_1 ftotal_1 space_1 0 0xc000 CpuWrite 0 VMAType.Flexible "stack" false NoAddr 0 mem_2 mem_3 0x200010000 mem_2_ok hyps_2)
    as (s & E & _ & Hpg & Hp); [left; split_and!; (reflexivity || (vm_compute; discriminate))|exact map_2_result|reflexivity|reflexivity|vm_compute; discriminate|].
  exists s. split; [exact E|]. split; [intros p; apply Hp|]. rewrite Hpg. reflexivity.
Defined.

(** A range that begins in the free pages and ends in the direct ones. *)
Lemma UnmapMemory_exact_witness : exists s, UnmapMemory 0x200004000 0x8000 mem_2 = Some (s, ORBIS_OK) /\
  mm_ok 0x200100000 dtotal_1 ftotal_1 s /\ unmapped 0x200004000 0x8000 mem_2 s /\
  UnmapMemory 0x200004000 0x100000 mem_2 = Some (mem_2, ORBIS_KERNEL_ERROR_EINVAL).
Proof.
  destruct (UnmapMemory_exact 0x200100000 dtotal_1 ftotal_1 0x200004000 0x8000 mem_2 mem_2_ok) as [H _]; [vm_compute; discriminate|lia|lia|vm_compute; discriminate|].
  destruct (UnmapMemory_exact 0x200100000 dtotal_1 ftotal_1 0x200004000 0x100000 mem_2 mem_2_ok) as [_ H2]; [vm_compute; discriminate|lia|lia|vm_compute; discriminate|].
  destruct H as (s & E & Hok & Hu).
  - intros x Hx. change (0x200004000 <= x < 0x200004000 + 0x8000) in Hx. destruct (Z.lt_ge_cases x 0x200008000).
    + eexists. apply (vma_same 0x200100000 (vma_map mem_2) 0x200004000); [apply mem_2_ok|vm_compute; reflexivity|unfold area_end; cbn; lia].
    + eexists. apply (vma_same 0x200100000 (vma_map mem_2) 0x200008000); [apply mem_2_ok|vm_compute; reflexivity|unfold area_end; cbn; lia].
  - exists s. split; [exact E|]. split; [exact Hok|]. split; [exact Hu|]. apply H2.
    + change (AlignDown 0x200004000 KB16) with 0x200004000. change (AlignUp 0x100000 KB16) with 0x100000.
      intros Hc. destruct (Hc 0x200100000) as [v Hv]; [lia|]. vm_compute in Hv. discriminate.
    + intros (Hn & _). vm_compute in Hn. discriminate.
Defined.
