(* ===== verification/KernelMemory.v ===== *)
(** The memory calls of the guest kernel: src/src/core/libraries/kernel/memory.cpp.

    What the guest calls to allocate, map, protect and release memory: the checks of the
    arguments, the codes, and the calls of the memory manager. The state is that of the manager
    with what the file keeps itself. A call returns [None] where the code dereferences a null
    pointer, does not return or fails an assertion. *)
From Stdlib Require Import ZArith Lia.
From stdpp Require Import base gmap list list_numbers strings.
From S2P Require Import Prelude.
From S2P Require Import KernelErrors.
From S2P Require Import Alignment.
From S2P Require Import OrdMap.
From S2P Require Import PhysMemory.
From S2P Require Import Repaint.
From S2P Require Import VirtMemory.
From S2P Require Import MemoryManager.
From S2P Require Import Mapping.

Record Kernel := mkKernel {
  memory : Memory;
  g_sdk_version : Z;
  g_alias_dmem : bool;
  PrtApertures : list (Z * Z)
}.
#[export] Instance eta_Kernel : Eta Kernel := fun k =>
  mkKernel (memory k) (g_sdk_version k) (g_alias_dmem k) (PrtApertures k).

Definition MB2 : Z := 0x200000.
Definition FW_170 : Z := 0x1700000.
Definition FW_250 : Z := 0x2500000.
Definition Void : Z := 0x100.
Definition Stack : Z := 0x400.
Definition Anon : Z := 0x1000.
Definition System_ : Z := 0x2000.

(** An alignment that is accepted. *)
Definition bad_alignment (is_aligned : Z -> bool) (alignment : Z) : bool :=
  negb (alignment =? 0) && negb (has_single_bit alignment) && negb (is_aligned alignment).
Definition name_too_long (name : string) : bool := Nat.leb ORBIS_KERNEL_MAXIMUM_NAME_LENGTH (String.length name).

(** Calls of the manager. *)
Definition with_memory {A} (f : Memory -> option (Memory * A)) (k : Kernel) : option (Kernel * A) :=
  '(m, a) ← f (memory k);
  Some (k <| memory := m |>, a).

(** ** Direct memory *)

Definition sceKernelGetDirectMemorySize (k : Kernel) : Z := total_direct_size (memory k).
Definition sceKernelEnableDmemAliasing (k : Kernel) : Kernel := k <| g_alias_dmem := true |>.

(** [has_out] says of an output pointer that it is not null; the result is what is written
    through it, or the code of an error. *)
Definition sceKernelAllocateDirectMemory (searchStart searchEnd len alignment memoryType : Z) (has_out : bool) (k : Kernel)
    : option (Kernel * (Z + Z)) :=
  if (searchStart <? 0) || (searchEnd <? 0) then Some (k, inr ORBIS_KERNEL_ERROR_EINVAL)
  else if (len =? 0) || negb (Is16KBAligned len) then Some (k, inr ORBIS_KERNEL_ERROR_EINVAL)
  else if negb (alignment =? 0) && negb (Is16KBAligned alignment) then Some (k, inr ORBIS_KERNEL_ERROR_EINVAL)
  else if 10 <? memoryType then Some (k, inr ORBIS_KERNEL_ERROR_EINVAL)
  else if negb has_out then Some (k, inr ORBIS_KERNEL_ERROR_EINVAL)
  else
    let is_in_range := len <=? wrap64 (searchEnd - searchStart) in
    if (searchEnd <=? searchStart) || (wrap64 searchEnd <? len) || negb is_in_range then Some (k, inr ORBIS_KERNEL_ERROR_EAGAIN)
    else
      '(phys_addr, m) ← Allocate (dmem_map (memory k)) searchStart searchEnd len alignment memoryType;
      let k := k <| memory ::= fun s => s <| dmem_map := m |> |> in
      if phys_addr =? NoAddr then Some (k, inr ORBIS_KERNEL_ERROR_EAGAIN) else Some (k, inl (s64 phys_addr)).

Definition sceKernelAllocateMainDirectMemory (len alignment memoryType : Z) (has_out : bool) (k : Kernel) : option (Kernel * (Z + Z)) :=
  sceKernelAllocateDirectMemory 0 (s64 (sceKernelGetDirectMemorySize k)) len alignment memoryType has_out k.

Definition sceKernelCheckedReleaseDirectMemory (start len : Z) (k : Kernel) : option (Kernel * Z) :=
  if negb (Is16KBAligned start) || negb (Is16KBAligned len) then Some (k, ORBIS_KERNEL_ERROR_EINVAL)
  else if len =? 0 then Some (k, ORBIS_OK)
  else with_memory (Free start len true) k.

Definition sceKernelReleaseDirectMemory (start len : Z) (k : Kernel) : option (Kernel * Z) :=
  if negb (Is16KBAligned start) || negb (Is16KBAligned len) then Some (k, ORBIS_KERNEL_ERROR_EINVAL)
  else if len =? 0 then Some (k, ORBIS_OK)
  else '(k, _) ← with_memory (Free start len false) k; Some (k, ORBIS_OK).

(** The address and the size. *)
Definition sceKernelAvailableDirectMemorySize (searchStart searchEnd alignment : Z) (has_addr has_size : bool) (k : Kernel)
    : option (Z * Z + Z) :=
  if negb has_addr || negb has_size then Some (inr ORBIS_KERNEL_ERROR_EINVAL) else
  '(physAddr, size) ← DirectQueryAvailable (dmem_map (memory k)) searchStart searchEnd alignment;
  if size =? 0 then Some (inr ORBIS_KERNEL_ERROR_ENOMEM) else Some (inl (physAddr, size)).

Definition sceKernelDirectMemoryQuery (offset flags end_ : Z) (k : Kernel) : option (Z * option OrbisQueryInfo) :=
  DirectMemoryQuery (total_direct_size (memory k)) (dmem_map (memory k)) offset (flags =? 1) end_.

Definition sceKernelGetDirectMemoryType (addr : Z) (k : Kernel) : option (Z * option (Z * Z * Z)) :=
  GetDirectMemoryType (total_direct_size (memory k)) (dmem_map (memory k)) addr.

(** ** Mapping *)

(** A fixed mapping at address zero: refused from firmware 1.70 on, not fixed before. *)
Definition fixed_at (in_addr flags : Z) (k : Kernel) : option Z :=
  if has flags Fixed && (in_addr =? 0) then
    if FW_170 <=? wrap32 (g_sdk_version k) then None else Some (Z.ldiff flags Fixed)
  else Some flags.

(** [addr] is the address behind the pointer. *)
Definition sceKernelReserveVirtualRange (space : Space) (addr : option Z) (len flags alignment : Z) (k : Kernel) : option (Kernel * (Z + Z)) :=
  in_addr ← addr;
  if (len =? 0) || negb (Is16KBAligned len) then Some (k, inr ORBIS_KERNEL_ERROR_EINVAL)
  else if bad_alignment Is16KBAligned alignment then Some (k, inr ORBIS_KERNEL_ERROR_EINVAL)
  else match fixed_at in_addr (wrap32 flags) k with
  | None => Some (k, inr ORBIS_KERNEL_ERROR_EINVAL)
  | Some map_flags =>
      with_memory (MapMemory space in_addr len NoAccess map_flags VMAType.Reserved "anon" false NoAddr alignment) k
  end.

Definition sceKernelMapNamedDirectMemory (space : Space) (in_addr len prot flags phys_addr alignment : Z) (name : string) (k : Kernel)
    : option (Kernel * (Z + Z)) :=
  if (len =? 0) || negb (Is16KBAligned len) then Some (k, inr ORBIS_KERNEL_ERROR_EINVAL)
  else if negb (Is16KBAligned phys_addr) then Some (k, inr ORBIS_KERNEL_ERROR_EINVAL)
  else if bad_alignment Is16KBAligned alignment then Some (k, inr ORBIS_KERNEL_ERROR_EINVAL)
  else if name_too_long name then Some (k, inr ORBIS_KERNEL_ERROR_ENAMETOOLONG)
  else
    let mem_prot := wrap32 prot in
    if has mem_prot CpuExec then Some (k, inr ORBIS_KERNEL_ERROR_EACCES) else
    let map_flags := wrap32 flags in
    let should_check := if (FW_250 <=? wrap32 (g_sdk_version k)) && negb (has map_flags Stack) then negb (g_alias_dmem k) else false in
    match fixed_at in_addr map_flags k with
    | None => Some (k, inr ORBIS_KERNEL_ERROR_EINVAL)
    | Some map_flags =>
        with_memory (MapMemory space in_addr len mem_prot map_flags VMAType.Direct name should_check (wrap64 phys_addr) alignment) k
    end.

Definition sceKernelMapDirectMemory (space : Space) (in_addr len prot flags phys_addr alignment : Z) (k : Kernel) : option (Kernel * (Z + Z)) :=
  sceKernelMapNamedDirectMemory space in_addr len prot flags phys_addr alignment "anon" k.

Definition sceKernelMapDirectMemory2 (space : Space) (in_addr len type prot flags phys_addr alignment : Z) (k : Kernel)
    : option (Kernel * (Z + Z)) :=
  if (len =? 0) || negb (Is16KBAligned len) then Some (k, inr ORBIS_KERNEL_ERROR_EINVAL)
  else if negb (Is16KBAligned phys_addr) then Some (k, inr ORBIS_KERNEL_ERROR_EINVAL)
  else if bad_alignment Is16KBAligned alignment then Some (k, inr ORBIS_KERNEL_ERROR_EINVAL)
  else
    let mem_prot := wrap32 prot in
    if has mem_prot CpuExec then Some (k, inr ORBIS_KERNEL_ERROR_EINVAL) else
    '(k, ret) ← with_memory (MapMemory space in_addr len mem_prot (wrap32 flags) VMAType.Direct "anon" (negb (g_alias_dmem k))
                               (wrap64 phys_addr) alignment) k;
    match ret with
    | inl out_addr => '(k, _) ← with_memory (SetDirectMemoryType out_addr len type) k; Some (k, inl out_addr)
    | inr code => Some (k, inr code)
    end.

Definition sceKernelMapNamedFlexibleMemory (space : Space) (in_addr len prot flags : Z) (name : option string) (k : Kernel)
    : option (Kernel * (Z + Z)) :=
  if (len =? 0) || negb (Is16KBAligned len) then Some (k, inr ORBIS_KERNEL_ERROR_EINVAL) else
  match name with
  | None => Some (k, inr ORBIS_KERNEL_ERROR_EFAULT)
  | Some name =>
      if name_too_long name then Some (k, inr ORBIS_KERNEL_ERROR_ENAMETOOLONG) else
      match fixed_at in_addr (wrap32 flags) k with
      | None => Some (k, inr ORBIS_KERNEL_ERROR_EINVAL)
      | Some map_flags => with_memory (MapMemory space in_addr len (wrap32 prot) map_flags VMAType.Flexible name false NoAddr 0) k
      end
  end.

Definition sceKernelMapFlexibleMemory (space : Space) (in_addr len prot flags : Z) (k : Kernel) : option (Kernel * (Z + Z)) :=
  sceKernelMapNamedFlexibleMemory space in_addr len prot flags (Some "anon"%string) k.

Definition sceKernelMapNamedSystemFlexibleMemory (space : Space) (in_addr len prot flags : Z) (name : option string) (k : Kernel)
    : option (Kernel * (Z + Z)) :=
  if (len =? 0) || negb (Is16KBAligned len) then Some (k, inr ORBIS_KERNEL_ERROR_EINVAL) else
  match name with
  | None => Some (k, inr ORBIS_KERNEL_ERROR_EFAULT)
  | Some name =>
      match fixed_at in_addr (wrap32 flags) k with
      | None => Some (k, inr ORBIS_KERNEL_ERROR_EINVAL)
      | Some map_flags =>
          if name_too_long name then Some (k, inr ORBIS_KERNEL_ERROR_ENAMETOOLONG) else
          let in_addr := if in_addr =? 0 then 0x880000000 else in_addr in
          with_memory (MapMemory space in_addr len (wrap32 prot) map_flags VMAType.System name false NoAddr 0) k
      end
  end.

Definition sceKernelMunmap (addr len : Z) (k : Kernel) : option (Kernel * Z) :=
  if len =? 0 then Some (k, ORBIS_KERNEL_ERROR_EINVAL) else with_memory (UnmapMemory addr len) k.

(** [-1] and the error number of the thread when the code is negative. *)
Definition ErrSceToPosix (error : Z) : Z := s32 (error - ORBIS_KERNEL_ERROR_UNKNOWN).
Definition posix_result (result : Z) : Z * option Z :=
  if result <? 0 then (-1, Some (ErrSceToPosix result)) else (result, None).
Definition posix_munmap (addr len : Z) (k : Kernel) : option (Kernel * (Z * option Z)) :=
  '(k, result) ← sceKernelMunmap addr len k;
  Some (k, posix_result result).

(** The address, or the error number; [file] is what the handle table answers for [fd]. *)
Definition posix_mmap (space : Space) (file : option OpenFile) (addr len prot flags fd phys_addr : Z) (k : Kernel)
    : option (Kernel * (Z + Z)) :=
  if len =? 0 then Some (k, inr (ErrSceToPosix ORBIS_KERNEL_ERROR_EINVAL)) else
  let mem_prot := wrap32 prot in
  let mem_flags := wrap32 flags in
  let aligned_addr := AlignUp addr KB16 in
  let aligned_size := AlignUp len KB16 in
  if has mem_flags Fixed && negb (addr =? aligned_addr) then Some (k, inr (ErrSceToPosix ORBIS_KERNEL_ERROR_EINVAL)) else
  '(k, result) ← with_memory
    (if has mem_flags Anon then
       MapMemory space aligned_addr aligned_size mem_prot mem_flags
         (if has mem_flags System_ then VMAType.System else VMAType.Flexible) "anon" false NoAddr 0
     else if has mem_flags Stack then MapMemory space aligned_addr aligned_size mem_prot mem_flags VMAType.Stack "anon" false NoAddr 0
     else if has mem_flags Void then MapMemory space aligned_addr aligned_size NoAccess mem_flags VMAType.Reserved "anon" false NoAddr 0
     else MapFile space file aligned_addr aligned_size mem_prot mem_flags fd phys_addr) k;
  match result with
  | inl addr_out => Some (k, inl addr_out)
  | inr code => Some (k, inr (ErrSceToPosix code))
  end.

Definition sceKernelMmap (space : Space) (file : option OpenFile) (addr len prot flags fd phys_addr : Z) (k : Kernel)
    : option (Kernel * (Z + Z)) :=
  '(k, result) ← posix_mmap space file addr len prot flags fd phys_addr k;
  match result with
  | inl addr_out => Some (k, inl addr_out)
  | inr errno => Some (k, inr (s32 (errno + ORBIS_KERNEL_ERROR_UNKNOWN)))
  end.

(** ** Protection and queries *)

Definition invalidate (addr size : Z) (k : Kernel) : Kernel := k <| memory ::= call (GpuInvalidate addr size) |>.

Definition sceKernelMprotect (in_addr size prot : Z) (k : Kernel) : option (Kernel * Z) :=
  let aligned_addr := AlignDown in_addr KB16 in
  let aligned_size := AlignUp (size +64 in_addr -64 aligned_addr) KB16 in
  if aligned_size =? 0 then Some (k, ORBIS_OK) else
  '(k, result) ← with_memory (Protect aligned_addr aligned_size (wrap32 prot)) k;
  Some (if result =? ORBIS_OK then invalidate aligned_addr aligned_size k else k, result).

Definition posix_mprotect (in_addr size prot : Z) (k : Kernel) : option (Kernel * (Z * option Z)) :=
  '(k, result) ← sceKernelMprotect in_addr size prot k;
  Some (k, posix_result result).

Definition sceKernelMtypeprotect (in_addr size mtype prot : Z) (k : Kernel) : option (Kernel * Z) :=
  let aligned_addr := AlignDown in_addr KB16 in
  let aligned_size := AlignUp (size +64 in_addr -64 aligned_addr) KB16 in
  if aligned_size =? 0 then Some (k, ORBIS_OK) else
  '(k, result) ← with_memory (Protect aligned_addr aligned_size (wrap32 prot)) k;
  if result =? ORBIS_OK then
    '(k, _) ← with_memory (SetDirectMemoryType aligned_addr aligned_size mtype) k;
    Some (invalidate aligned_addr aligned_size k, result)
  else Some (k, result).

Definition sceKernelVirtualQuery (space : Space) (addr flags : Z) (k : Kernel) : option (Z * option OrbisVirtualQueryInfo) :=
  VirtualQuery space (vma_map (memory k)) addr flags.
Definition sceKernelQueryMemoryProtection (space : Space) (addr : Z) (k : Kernel) : option (Z * option (Z * Z * Z)) :=
  QueryProtection space (vma_map (memory k)) addr.
Definition sceKernelIsStack (addr : Z) (k : Kernel) : option (Z * option (Z * Z)) := IsStack (vma_map (memory k)) addr.
Definition sceKernelAvailableFlexibleMemorySize (k : Kernel) : Z := GetAvailableFlexibleSize (memory k).
Definition sceKernelConfiguredFlexibleMemorySize (has_out : bool) (k : Kernel) : Z + Z :=
  if negb has_out then inr ORBIS_KERNEL_ERROR_EINVAL else inl (total_flexible_size (memory k)).

Definition sceKernelSetVirtualRangeName (addr len : Z) (name : option string) (k : Kernel) : option (Kernel * Z) :=
  match name with
  | None => Some (k, ORBIS_KERNEL_ERROR_EFAULT)
  | Some name =>
      if name_too_long name then Some (k, ORBIS_KERNEL_ERROR_ENAMETOOLONG) else
      s ← NameVirtualRange addr len name (memory k);
      Some (k <| memory := s |>, ORBIS_OK)
  end.

(** ** Batches *)

Record OrbisKernelBatchMapEntry := mkBatchMapEntry {
  bm_start : Z;
  bm_offset : Z;
  bm_length : Z;
  bm_protection : Z;
  bm_type : Z;
  bm_operation : Z
}.
#[export] Instance eta_BatchMapEntry : Eta OrbisKernelBatchMapEntry := fun e =>
  mkBatchMapEntry (bm_start e) (bm_offset e) (bm_length e) (bm_protection e) (bm_type e) (bm_operation e).

(** The two mapping operations write the new address into the entry. *)
Definition mapped_entry (e : OrbisKernelBatchMapEntry) (r : Kernel * (Z + Z)) : Kernel * OrbisKernelBatchMapEntry * Z :=
  match r with
  | (k, inl addr) => (k, e <| bm_start := addr |>, ORBIS_OK)
  | (k, inr code) => (k, e, code)
  end.
Definition plain_entry (e : OrbisKernelBatchMapEntry) (r : Kernel * Z) : Kernel * OrbisKernelBatchMapEntry * Z := (fst r, e, snd r).

Definition batch_map_op (space : Space) (flags : Z) (e : OrbisKernelBatchMapEntry) (k : Kernel)
    : option (Kernel * OrbisKernelBatchMapEntry * Z) :=
  match bm_operation e with
  | 0 => mapped_entry e <$> sceKernelMapNamedDirectMemory space (bm_start e) (bm_length e) (bm_protection e) flags (s64 (bm_offset e)) 0 "anon" k
  | 1 => plain_entry e <$> sceKernelMunmap (bm_start e) (bm_length e) k
  | 2 => plain_entry e <$> sceKernelMprotect (bm_start e) (bm_length e) (bm_protection e) k
  | 3 => mapped_entry e <$> sceKernelMapNamedFlexibleMemory space (bm_start e) (bm_length e) (bm_protection e) flags (Some "anon"%string) k
  | 4 => plain_entry e <$> sceKernelMtypeprotect (bm_start e) (bm_length e) (bm_type e) (bm_protection e) k
  | _ => None
  end.

(** The loop of [sceKernelBatchMap2] over [n] entries: the state, the entries, the number of
    processed ones and the code. *)
Fixpoint batch_map_loop (space : Space) (flags : Z) (n : nat) (entries : option (list OrbisKernelBatchMapEntry)) (processed : Z) (k : Kernel)
    : option (Kernel * list OrbisKernelBatchMapEntry * Z * Z) :=
  match n with
  | O => Some (k, default [] entries, processed, ORBIS_OK)
  | S n =>
      match entries with
      | None => Some (k, [], processed, ORBIS_KERNEL_ERROR_EINVAL)
      | Some [] => None
      | Some (e :: r) =>
          if (bm_length e =? 0) || (4 <? bm_operation e) then Some (k, e :: r, processed, ORBIS_KERNEL_ERROR_EINVAL) else
          '(k, e, result) ← batch_map_op space flags e k;
          if negb (result =? ORBIS_OK) then Some (k, e :: r, processed, result) else
          '(k, r, processed, result) ← batch_map_loop space flags n (Some r) (processed + 1) k;
          Some (k, e :: r, processed, result)
      end
  end.
Definition sceKernelBatchMap2 (space : Space) (entries : option (list OrbisKernelBatchMapEntry)) (numEntries flags : Z) (k : Kernel)
    : option (Kernel * list OrbisKernelBatchMapEntry * Z * Z) :=
  batch_map_loop space flags (Z.to_nat numEntries) entries 0 k.
Definition sceKernelBatchMap (space : Space) (entries : option (list OrbisKernelBatchMapEntry)) (numEntries : Z) (k : Kernel) :=
  sceKernelBatchMap2 space entries numEntries Fixed k.

(** ** Pools *)

Definition sceKernelMemoryPoolExpand (searchStart searchEnd len alignment : Z) (has_out : bool) (k : Kernel) : option (Kernel * (Z + Z)) :=
  if searchEnd <=? searchStart then Some (k, inr ORBIS_KERNEL_ERROR_EINVAL)
  else if (len =? 0) || negb (Is64KBAligned len) then Some (k, inr ORBIS_KERNEL_ERROR_EINVAL)
  else if negb (alignment =? 0) && negb (Is64KBAligned alignment) then Some (k, inr ORBIS_KERNEL_ERROR_EINVAL)
  else if negb has_out then Some (k, inr ORBIS_KERNEL_ERROR_EINVAL)
  else
    let is_in_range := len <=? searchEnd -64 searchStart in
    if (searchEnd <=? searchStart) || (searchEnd <? len) || negb is_in_range then Some (k, inr ORBIS_KERNEL_ERROR_ENOMEM)
    else
      '(phys_addr, m, budget) ← PoolExpand (dmem_map (memory k)) (pool_budget (memory k)) searchStart searchEnd len alignment;
      let k := k <| memory ::= fun s => s <| dmem_map := m |> <| pool_budget := budget |> |> in
      if phys_addr =? NoAddr then Some (k, inr ORBIS_KERNEL_ERROR_ENOMEM) else Some (k, inl phys_addr).

Definition sceKernelMemoryPoolReserve (space : Space) (addr_in len alignment flags : Z) (k : Kernel) : option (Kernel * (Z + Z)) :=
  if (len =? 0) || negb (Is2MBAligned len) then Some (k, inr ORBIS_KERNEL_ERROR_EINVAL)
  else if bad_alignment Is2MBAligned alignment then Some (k, inr ORBIS_KERNEL_ERROR_EINVAL)
  else
    let map_alignment := if alignment =? 0 then MB2 else alignment in
    with_memory (MapMemory space addr_in len NoAccess (wrap32 flags) VMAType.PoolReserved "anon" false NoAddr map_alignment) k.

Definition sceKernelMemoryPoolCommit (addr len type prot : Z) (k : Kernel) : option (Kernel * Z) :=
  if addr =? 0 then Some (k, ORBIS_KERNEL_ERROR_EINVAL)
  else if (len =? 0) || negb (Is64KBAligned len) then Some (k, ORBIS_KERNEL_ERROR_EINVAL)
  else
    let mem_prot := wrap32 prot in
    if has mem_prot CpuExec then Some (k, ORBIS_KERNEL_ERROR_EINVAL)
    else with_memory (PoolCommit addr len mem_prot type) k.

Definition sceKernelMemoryPoolDecommit (addr len : Z) (k : Kernel) : option (Kernel * Z) :=
  if addr =? 0 then Some (k, ORBIS_KERNEL_ERROR_EINVAL)
  else if (len =? 0) || negb (Is64KBAligned len) then Some (k, ORBIS_KERNEL_ERROR_EINVAL)
  else with_memory (PoolDecommit addr len) k.

(** The members of the union lie at the same offsets in each of its structures. *)
Record OrbisKernelMemoryPoolBatchEntry := mkPoolBatchEntry { opcode : Z; pb_addr : Z; pb_len : Z; pb_prot : Z; pb_type : Z }.

(** The operation [Move] is a failed assertion. *)
Definition pool_batch_op (e : OrbisKernelMemoryPoolBatchEntry) (k : Kernel) : option (Kernel * Z) :=
  match opcode e with
  | 1 => sceKernelMemoryPoolCommit (pb_addr e) (pb_len e) (pb_type e) (pb_prot e) k
  | 2 => sceKernelMemoryPoolDecommit (pb_addr e) (pb_len e) k
  | 3 => sceKernelMprotect (pb_addr e) (pb_len e) (pb_prot e) k
  | 4 => sceKernelMtypeprotect (pb_addr e) (pb_len e) (pb_type e) (pb_prot e) k
  | 5 => None
  | _ => Some (k, ORBIS_KERNEL_ERROR_EINVAL)
  end.

(** The state, the number of processed entries and the code. *)
Fixpoint pool_batch_loop (n : nat) (entries : list OrbisKernelMemoryPoolBatchEntry) (processed : Z) (k : Kernel) : option (Kernel * Z * Z) :=
  match n, entries with
  | O, _ => Some (k, processed, ORBIS_OK)
  | S n, [] => None
  | S n, e :: r =>
      '(k, result) ← pool_batch_op e k;
      if negb (result =? ORBIS_OK) then Some (k, processed, result) else pool_batch_loop n r (processed + 1) k
  end.
Definition sceKernelMemoryPoolBatch (entries : option (list OrbisKernelMemoryPoolBatchEntry)) (count : Z) (k : Kernel)
    : option (Kernel * option Z * Z) :=
  match entries with
  | None => Some (k, None, ORBIS_KERNEL_ERROR_EINVAL)
  | Some entries => '(k, processed, result) ← pool_batch_loop (Z.to_nat count) entries 0 k; Some (k, Some processed, result)
  end.

(** The statistics and the number of bytes that are copied of them. *)
Definition sceKernelMemoryPoolGetBlockStats (has_out : bool) (size : Z) (k : Kernel) : option (OrbisKernelMemoryPoolBlockStats * Z) :=
  if has_out || (size =? 0) then Some (GetMemoryPoolStats (dmem_map (memory k)), if size <? 16 then size else 16) else None.

(** ** Apertures *)

Definition MAX_PRT_APERTURES : Z := 3.
Definition PRT_AREA_START_ADDR : Z := 0x1000000000.
Definition PRT_AREA_SIZE : Z := 0xec00000000.

Definition sceKernelSetPrtAperture (id address size : Z) (k : Kernel) : option (Kernel * Z) :=
  if (id <? 0) || (MAX_PRT_APERTURES <=? id) then Some (k, ORBIS_KERNEL_ERROR_EINVAL)
  else if (address <? PRT_AREA_START_ADDR) || (PRT_AREA_START_ADDR +64 PRT_AREA_SIZE <? address +64 size) then Some (k, ORBIS_KERNEL_ERROR_EINVAL)
  else if negb (address mod 4096 =? 0) then Some (k, ORBIS_KERNEL_ERROR_EINVAL)
  else
    s ← SetPrtArea id address size (memory k);
    Some (k <| memory := s |> <| PrtApertures ::= <[Z.to_nat id := (address, size)]> |>, ORBIS_OK).

Definition sceKernelGetPrtAperture (id : Z) (k : Kernel) : option (Z * Z + Z) :=
  if (id <? 0) || (MAX_PRT_APERTURES <=? id) then Some (inr ORBIS_KERNEL_ERROR_EINVAL)
  else inl <$> PrtApertures k !! Z.to_nat id.

(** * Allocating *)

(** Arguments that are refused before anything else is looked at. *)
Definition refused_args (searchStart searchEnd len alignment memoryType : Z) (has_out : bool) : Prop :=
  searchStart < 0 \/ searchEnd < 0 \/ len = 0 \/ ~ aligned KB16 len \/ alignment <> 0 /\ ~ aligned KB16 alignment \/
  10 < memoryType \/ has_out = false.

Lemma not_aligned16 x : Is16KBAligned x = false <-> ~ aligned KB16 x.
Proof. rewrite <- Is16KBAligned_spec. by destruct (Is16KBAligned x). Qed.

Definition refused (searchStart searchEnd len alignment memoryType : Z) (has_out : bool) : bool :=
  (searchStart <? 0) || (searchEnd <? 0) || (len =? 0) || negb (Is16KBAligned len) ||
  (negb (alignment =? 0) && negb (Is16KBAligned alignment)) || (10 <? memoryType) || negb has_out.

Lemma refused_spec searchStart searchEnd len alignment memoryType has_out :
  refused searchStart searchEnd len alignment memoryType has_out = true <-> refused_args searchStart searchEnd len alignment memoryType has_out.
Proof.
  unfold refused, refused_args. rewrite !orb_true_iff, andb_true_iff, !negb_true_iff, !not_aligned16, !Z.ltb_lt, Z.eqb_eq, Z.eqb_neq. tauto.
Qed.

(** The checks are that test, then the rest. *)
Lemma allocate_checks searchStart searchEnd len alignment memoryType has_out k :
  sceKernelAllocateDirectMemory searchStart searchEnd len alignment memoryType has_out k =
    if refused searchStart searchEnd len alignment memoryType has_out then Some (k, inr ORBIS_KERNEL_ERROR_EINVAL)
    else if (searchEnd <=? searchStart) || (wrap64 searchEnd <? len) || negb (len <=? wrap64 (searchEnd - searchStart))
    then Some (k, inr ORBIS_KERNEL_ERROR_EAGAIN)
    else '(phys_addr, m) ← Allocate (dmem_map (memory k)) searchStart searchEnd len alignment memoryType;
         let k := k <| memory ::= fun s => s <| dmem_map := m |> |> in
         if phys_addr =? NoAddr then Some (k, inr ORBIS_KERNEL_ERROR_EAGAIN) else Some (k, inl (s64 phys_addr)).
Proof.
  unfold sceKernelAllocateDirectMemory, refused. destruct (searchStart <? 0); [done|]. destruct (searchEnd <? 0); [done|].
  destruct (len =? 0); [done|]. destruct (Is16KBAligned len); [|done]. destruct (negb (alignment =? 0) && negb (Is16KBAligned alignment)); [done|].
  destruct (10 <? memoryType); [done|]. by destruct has_out.
Qed.

(** C25. [sceKernelAllocateDirectMemory], for a search that starts inside the memory and a length and
    alignment that with the size of the memory stay below 2^64 (beyond, the end of a range wraps
    around and the allocation can assert, [AllocateDirectMemory_wraps]): the arguments that
    are refused give EINVAL and a window shorter than the length gives EAGAIN, and nothing
    changes. Otherwise the call returns the least aligned address in the window where [len]
    bytes are free and those bytes become allocated with the type, and nothing else changes; or
    there is no such address, and it returns EAGAIN without changing anything. *)
Theorem sceKernelAllocateDirectMemory_exact total searchStart searchEnd len alignment memoryType has_out k :
  phys_ok total (dmem_map (memory k)) -> 0 <= len <= U64_MAX -> 0 <= alignment ->
  searchStart < total -> searchEnd < 2 ^ 63 -> total + alignment_or alignment KB16 + len <= U64_MAX ->
  let call := sceKernelAllocateDirectMemory searchStart searchEnd len alignment memoryType has_out k in
  let m := dmem_map (memory k) in
  let fit := fits m searchStart len (alignment_or alignment KB16) in
  (refused_args searchStart searchEnd len alignment memoryType has_out -> call = Some (k, inr ORBIS_KERNEL_ERROR_EINVAL)) /\
  (~ refused_args searchStart searchEnd len alignment memoryType has_out ->
   if searchEnd - searchStart <? len then call = Some (k, inr ORBIS_KERNEL_ERROR_EAGAIN) else
   (exists p m', call = Some (k <| memory ::= fun s => s <| dmem_map := m' |> |>, inl p) /\ phys_ok total m' /\
      fit p /\ p + len <= searchEnd /\ (forall q, fit q -> p <= q) /\ painted m m' p len (PhysicalMemoryType.Allocated, memoryType)) \/
   (call = Some (k, inr ORBIS_KERNEL_ERROR_EAGAIN) /\ forall q, fit q -> searchEnd < q + len)).
Proof.
  intros Hok Hlen Ha Hst Hend Hfit call m fit. pose proof (refused_spec searchStart searchEnd len alignment memoryType has_out) as Hr.
  subst call. rewrite allocate_checks. rewrite <- Hr. destruct (refused _ _ _ _ _ _); [by split|]. split; [done|intros _].
  assert (Hargs : 0 <= searchStart /\ 0 <= searchEnd /\ len <> 0).
  { destruct Hr as [_ Hr]. unfold refused_args in Hr. split_and!; [apply Z.nlt_ge|apply Z.nlt_ge|]; intros ?; discriminate Hr; tauto. }
  destruct Hargs as (H0 & H1 & H2). rewrite (wrap64_small searchEnd) by u64_lia.
  destruct (Z.ltb_spec (searchEnd - searchStart) len) as [Hs|Hs].
  { destruct (Z.leb_spec searchEnd searchStart); [done|]. rewrite wrap64_small by u64_lia.
    destruct (Z.leb_spec len (searchEnd - searchStart)); [lia|]. by rewrite orb_true_r. }
  rewrite (wrap64_small (searchEnd - searchStart)) by u64_lia.
  rewrite (proj2 (Z.leb_gt _ _)), (proj2 (Z.ltb_ge _ _)), (proj2 (Z.leb_le _ _)) by lia. cbn [orb negb].
  destruct (allocate_spec total (dmem_map (memory k)) searchStart searchEnd len alignment memoryType) as (p & m' & -> & Hok' & Hp); [done|lia|lia|done|].
  cbn [mbind option_bind]. destruct Hp as [(Hf & Hpe & Hleast & Hpaint)|(-> & -> & Hno)].
  - left. exists p, m'. pose proof (ft_start _ _ _ _ _ Hf). assert (p <> NoAddr) by (unfold NoAddr, U64_MAX in *; lia).
    destruct (Z.eqb_spec p NoAddr); [done|]. rewrite s64_small by lia. by split_and!.
  - right. rewrite Z.eqb_refl. split; [|done]. destruct k as [s ? ? ?]. by destruct s.
Qed.

(** * Batches *)

(** What the loop refuses without calling anything. *)
Definition bad_entry (e : OrbisKernelBatchMapEntry) : bool := (bm_length e =? 0) || (4 <? bm_operation e).

(** Entries that all succeed, one after the other: [batch_done r k r' k'] when running [r] from
    [k] ends in [k'] and leaves [r'] in the array. *)
Inductive batch_done (space : Space) (flags : Z) : list OrbisKernelBatchMapEntry -> Kernel -> list OrbisKernelBatchMapEntry -> Kernel -> Prop :=
| batch_none k : batch_done space flags [] k [] k
| batch_one e r k e1 k1 r' k' : bad_entry e = false -> batch_map_op space flags e k = Some (k1, e1, ORBIS_OK) ->
    batch_done space flags r k1 r' k' -> batch_done space flags (e :: r) k (e1 :: r') k'.
#[local] Hint Constructors batch_done : core.

(** How a batch stops at the first entry [e] that does not succeed. *)
Inductive batch_stop (space : Space) (flags : Z) (e : OrbisKernelBatchMapEntry) (k : Kernel) : OrbisKernelBatchMapEntry -> Kernel -> Z -> Prop :=
| stop_refused : bad_entry e = true -> batch_stop space flags e k e k ORBIS_KERNEL_ERROR_EINVAL
| stop_failed e1 k1 code : bad_entry e = false -> batch_map_op space flags e k = Some (k1, e1, code) -> code <> ORBIS_OK ->
    batch_stop space flags e k e1 k1 code.

Definition batch_result (space : Space) (flags : Z) (n : nat) (entries : list OrbisKernelBatchMapEntry) (k : Kernel)
    (k' : Kernel) (entries' : list OrbisKernelBatchMapEntry) (count code : Z) : Prop :=
  exists ran ran' rest k1, entries = ran ++ rest /\ batch_done space flags ran k ran' k1 /\ count = Z.of_nat (length ran) /\
    (length ran = n /\ code = ORBIS_OK /\ k' = k1 /\ entries' = ran' ++ rest \/
     (length ran < n)%nat /\ exists e r e', rest = e :: r /\ batch_stop space flags e k1 e' k' code /\ entries' = ran' ++ e' :: r).

Lemma batch_loop_step space flags n e r processed k :
  batch_map_loop space flags (S n) (Some (e :: r)) processed k =
    if bad_entry e then Some (k, e :: r, processed, ORBIS_KERNEL_ERROR_EINVAL) else
    '(k, e, result) ← batch_map_op space flags e k;
    if negb (result =? ORBIS_OK) then Some (k, e :: r, processed, result) else
    '(k, r, processed, result) ← batch_map_loop space flags n (Some r) (processed + 1) k;
    Some (k, e :: r, processed, result).
Proof. done. Qed.

Lemma batch_result_cons space flags n e e1 r k k1 k' r' count code : bad_entry e = false -> batch_map_op space flags e k = Some (k1, e1, ORBIS_OK) ->
  batch_result space flags n r k1 k' r' count code -> batch_result space flags (S n) (e :: r) k k' (e1 :: r') (count + 1) code.
Proof.
  intros Hb Hop (ran & ran' & rest & k2 & -> & Hd & -> & Hend). exists (e :: ran), (e1 :: ran'), rest, k2.
  split_and!; [done|by eapply batch_one|cbn [length]; lia|]. destruct Hend as [(<- & -> & -> & ->)|(Hlt & e2 & r2 & e2' & -> & Hs & ->)].
  - by left.
  - right. split; [cbn [length]; lia|]. by exists e2, r2, e2'.
Qed.

Lemma batch_result_uncons space flags n e r k k' entries' count code : batch_result space flags (S n) (e :: r) k k' entries' count code ->
  (exists e', count = 0 /\ batch_stop space flags e k e' k' code /\ entries' = e' :: r) \/
  (exists e1 k1 r', bad_entry e = false /\ batch_map_op space flags e k = Some (k1, e1, ORBIS_OK) /\ entries' = e1 :: r' /\
     batch_result space flags n r k1 k' r' (count - 1) code).
Proof.
  intros (ran & ran' & rest & k2 & E & Hd & -> & Hend). destruct ran as [|e0 ran]; cbn in E.
  - inversion Hd; subst. destruct Hend as [(Hn & _)|(_ & e2 & r2 & e2' & [= <- <-] & Hs & ->)]; [done|]. left. by exists e2'.
  - injection E as <- ->. inversion Hd as [|? ? ? e1 k1 r1' ? Hb Hop Hr]; subst. right.
    destruct Hend as [(Hn & -> & -> & ->)|(Hlt & e2 & r2 & e2' & -> & Hs & ->)]; cbn [length] in *.
    + exists e1, k1, (r1' ++ rest). split_and!; [done..|]. exists ran, r1', rest, k2. split_and!; [done|done|lia|]. left. split_and!; (done || lia).
    + exists e1, k1, (r1' ++ e2' :: r2). split_and!; [done..|]. exists ran, r1', (e2 :: r2), k2. split_and!; [done|done|lia|].
      right. split; [lia|]. by exists e2, r2, e2'.
Qed.

Lemma batch_map_loop_spec space flags n entries processed k k' entries' count code : (n <= length entries)%nat ->
  batch_map_loop space flags n (Some entries) processed k = Some (k', entries', count, code) <->
  batch_result space flags n entries k k' entries' (count - processed) code.
Proof.
  revert entries processed k entries'. induction n as [|n IH]; intros entries processed k entries' Hn.
  { cbn. split.
    - intros [= <- <- <- <-]. exists [], [], entries, k. split_and!; [done|done|cbn; lia|by left].
    - intros (ran & ran' & rest & k1 & -> & Hd & Hc & [(Hl & -> & -> & ->)|(Hl & _)]); [|lia].
      apply nil_length_inv in Hl as ->. inversion Hd; subst. cbn in *. by replace processed with count by lia. }
  destruct entries as [|e r]; cbn in Hn; [lia|]. rewrite batch_loop_step. destruct (bad_entry e) eqn:Hb.
  { split.
    - intros [= <- <- <- <-]. exists [], [], (e :: r), k. split_and!; [done|done|cbn; lia|]. right. split; [cbn; lia|].
      exists e, r, e. split_and!; [done|by constructor|done].
    - intros [(e' & Hc & Hs & ->)|(e1 & k1 & r' & Hb' & _)]%batch_result_uncons; [|congruence].
      inversion Hs; subst; [|congruence]. by replace processed with count by lia. }
  destruct (batch_map_op space flags e k) as [[[k1 e1] result]|] eqn:Hop; cbn [mbind option_bind].
  2:{ split; [done|]. intros [(e' & Hc & Hs & ->)|(e1 & k1 & r' & _ & Hop' & _)]%batch_result_uncons; [|congruence]. inversion Hs; congruence. }
  destruct (Z.eqb_spec result ORBIS_OK) as [->|Hne]; cbn [negb].
  - destruct (batch_map_loop space flags n (Some r) (processed + 1) k1) as [[[[k2 r2] c2] code2]|] eqn:Hl; cbn [mbind option_bind].
    + split.
      * intros [= <- <- <- <-]. replace (c2 - processed) with (c2 - (processed + 1) + 1) by lia. eapply batch_result_cons; [done..|]. by apply IH; [lia|].
      * intros [(e' & Hc & Hs & ->)|(e2 & k3 & r' & _ & Hop' & -> & Hr)]%batch_result_uncons; [inversion Hs; congruence|].
        rewrite Hop in Hop'. injection Hop' as <- <-. replace (count - processed - 1) with (count - (processed + 1)) in Hr by lia.
        apply IH in Hr; [|lia]. rewrite Hl in Hr. by injection Hr as -> -> -> ->.
    + split; [done|]. intros [(e' & Hc & Hs & ->)|(e2 & k3 & r' & _ & Hop' & -> & Hr)]%batch_result_uncons; [inversion Hs; congruence|].
      rewrite Hop in Hop'. injection Hop' as <- <-. replace (count - processed - 1) with (count - (processed + 1)) in Hr by lia.
      apply IH in Hr; [|lia]. congruence.
  - split.
    + intros [= <- <- <- <-]. exists [], [], (e :: r), k. split_and!; [done|done|cbn; lia|]. right. split; [cbn; lia|].
      exists e, r, e1. split_and!; [done|by apply stop_failed|done].
    + intros [(e' & Hc & Hs & ->)|(e2 & k3 & r' & _ & Hop' & _)]%batch_result_uncons; [|congruence].
      inversion Hs; subst; [congruence|]. rewrite Hop in *. simplify_eq. by replace processed with count by lia.
Qed.

(** [sceKernelBatchMap2] runs the entries in their order and stops at the first that is
    refused or fails: the calls of the entries before it have all taken effect, with the
    addresses they chose written back, those after it are never looked at, the count is the
    number of entries that succeeded, and the code is that of the first that did not. This is
    all it does, and it returns nothing else. *)
Theorem sceKernelBatchMap2_runs space entries numEntries flags k k' entries' count code : 0 <= numEntries <= Z.of_nat (length entries) ->
  sceKernelBatchMap2 space (Some entries) numEntries flags k = Some (k', entries', count, code) <->
  batch_result space flags (Z.to_nat numEntries) entries k k' entries' count code.
Proof.
  intros Hn. unfold sceKernelBatchMap2. rewrite batch_map_loop_spec by lia. by rewrite Z.sub_0_r.
Qed.

(** * Examples *)

Definition kernel_of (s : Memory) : Kernel := mkKernel s 0x3000000 false [].
Definition kernel_0 : Kernel := kernel_of (mem_0 <| dmem_map := memory_1 |>).

Lemma sceKernelAllocateDirectMemory_exact_witness : exists m',
  sceKernelAllocateDirectMemory 0 0x100000 0xc000 0x10000 5 true kernel_0 = Some (kernel_0 <| memory ::= fun s => s <| dmem_map := m' |> |>, inl 0x20000).
Proof.
  destruct (sceKernelAllocateDirectMemory_exact 0x100000 0 0x100000 0xc000 0x10000 5 true kernel_0 memory_1_ok) as [_ H];
    [by unfold U64_MAX; lia|lia|lia|lia|by vm_compute|].
  destruct H as [(p & m' & E & _)|[E _]].
  - rewrite <- refused_spec. by vm_compute.
  - exists m'. rewrite E. assert (Hp : (snd <$> Some (kernel_0 <| memory ::= fun s => s <| dmem_map := m' |> |>, inl p : Z + Z)) = Some (inl 0x20000)).
    { rewrite <- E. vm_compute. reflexivity. }
    cbn in Hp. by injection Hp as ->.
  - exfalso. apply (f_equal (fmap snd)) in E. vm_compute in E. discriminate E.
Defined.

(** With an alignment of almost 2^64 the aligned address plus the length wraps around to 0, which is
    below the end of the free area and of the window: the address is taken, and carving it asserts. *)
Lemma AllocateDirectMemory_wraps :
  ~ refused_args 0x4000 0x100000 0x4000 0xFFFFFFFFFFFFC000 0 true /\
  sceKernelAllocateDirectMemory 0x4000 0x100000 0x4000 0xFFFFFFFFFFFFC000 0 true kernel_0 = None.
Proof. split; [rewrite <- refused_spec; by vm_compute|vm_compute; reflexivity]. Qed.

Definition batch_entries : list OrbisKernelBatchMapEntry :=
  [ mkBatchMapEntry 0x200008000 0x4000 0x8000 3 0 0; mkBatchMapEntry 0x20000c000 0 0x4000 0 0 1; mkBatchMapEntry 0x200008000 0 0 0 0 1 ].
Definition kernel_1 : Kernel := kernel_of mem_1.
Definition batch_of (r : option (Kernel * list OrbisKernelBatchMapEntry * Z * Z)) : Kernel * list OrbisKernelBatchMapEntry :=
  match r with Some (k, entries, _, _) => (k, entries) | None => (kernel_1, []) end.
Definition after_batch : Kernel * list OrbisKernelBatchMapEntry := batch_of (sceKernelBatchMap2 space_1 (Some batch_entries) 3 Fixed kernel_1).

Lemma sceKernelBatchMap2_runs_witness : 0 <= 3 <= Z.of_nat (length batch_entries) /\
  batch_result space_1 Fixed 3 batch_entries kernel_1 (fst after_batch) (snd after_batch) 2 ORBIS_KERNEL_ERROR_EINVAL.
Proof.
  split; [by vm_compute|]. apply (sceKernelBatchMap2_runs space_1 batch_entries 3 Fixed kernel_1); [by vm_compute|]. vm_compute. reflexivity.
Defined.
