(* ===== verification/BitArray.v ===== *)
(** Arrays of bits: src/src/common/bit_array.h.

    [BitArray<N>] keeps its bits in words of 64, works on ranges of them with masks and whole
    words, and finds the runs of set bits with the counting instructions. Built for AVX2, the
    loops over words take four at a time ([avx]); both forms are modelled. An access outside of
    the array is [None]. *)
From Stdlib Require Import ZArith Lia Sorting.Sorted.
From stdpp Require Import base list list_numbers.
From S2P Require Import Prelude.

Abbreviation BitArray := (list Z).
Implicit Types (b other : BitArray).

Definition BITS_PER_WORD : Z := 64.
Definition WORDS_PER_AVX : nat := 4.
(** [N] *)
Definition Size b : Z := BITS_PER_WORD * Z.of_nat (length b).

(** [~] of a [u64], and the counts of [<bit>]. *)
Definition not64 (x : Z) : Z := Z.lxor x U64_MAX.
Fixpoint count_while (p : Z -> bool) (n : nat) (i : Z) : Z :=
  match n with
  | O => 0
  | S n => if p i then 1 + count_while p n (i + 1) else 0
  end.
Definition countr_zero (x : Z) : Z := count_while (fun i => negb (Z.testbit x i)) 64 0.
Definition countr_one (x : Z) : Z := count_while (fun i => Z.testbit x i) 64 0.
Definition countl_zero (x : Z) : Z := count_while (fun i => negb (Z.testbit x (63 - i))) 64 0.
Definition countl_one (x : Z) : Z := count_while (fun i => Z.testbit x (63 - i)) 64 0.

(** [data[i]] *)
Definition word b (i : nat) : option Z := b !! i.
Definition put_word b (i : nat) (w : Z) : option BitArray := if Nat.ltb i (length b) then Some (<[i:=w]> b) else None.
Definition edit_word b (i : nat) (f : Z -> Z) : option BitArray := w ← word b i; put_word b i (f w).

(** ** Single bits *)

Definition word_of (idx : Z) : nat := Z.to_nat (idx / BITS_PER_WORD).
Definition Set_ b (idx : Z) : option BitArray := edit_word b (word_of idx) (fun w => Z.lor w (Z.shiftl 1 (idx mod BITS_PER_WORD))).
Definition Unset b (idx : Z) : option BitArray := edit_word b (word_of idx) (fun w => Z.land w (not64 (Z.shiftl 1 (idx mod BITS_PER_WORD)))).
Definition Get b (idx : Z) : option bool := w ← word b (word_of idx); Some (negb (Z.land w (Z.shiftl 1 (idx mod BITS_PER_WORD)) =? 0)).

(** ** Ranges *)

(** The words from [i] on take the values of [val]: [n] of them one by one, or in fours as long
    as there are four. *)
Fixpoint fill_words (val : nat -> option Z) (n i : nat) b : option BitArray :=
  match n with
  | O => Some b
  | S n => w ← val i; b ← put_word b i w; fill_words val n (S i) b
  end.
Fixpoint fill_blocks (val : nat -> option Z) (n i : nat) b : option (nat * nat * BitArray) :=
  match n with
  | S (S (S (S n))) => b ← fill_words val WORDS_PER_AVX i b; fill_blocks val n (i + WORDS_PER_AVX) b
  | _ => Some (n, i, b)
  end.
Definition fill (avx : bool) (val : nat -> option Z) (n i : nat) b : option BitArray :=
  if avx then '(n, i, b) ← fill_blocks val n i b; fill_words val n i b else fill_words val n i b.

(** What the constructor from a range, [SetRange] and [UnsetRange] have in common: [one] for a
    range in one word, [first] and [last] for the words at the ends, [middle] between. *)
Definition edit_range (avx : bool) (one first last : Z -> Z) (middle : nat -> option Z) (first_word last_word : nat) b : option BitArray :=
  if Nat.eqb first_word last_word then edit_word b first_word one
  else
    b ← edit_word b first_word first;
    b ← fill avx middle (last_word - (first_word + 1)) (first_word + 1) b;
    edit_word b last_word last.

(** The first [n] bits, and those from [n] on. *)
Definition low_bits (n : Z) : Z := Z.shiftl 1 n - 1.
Definition start_mask_of (start_bit : Z) : Z := not64 (low_bits start_bit).
Definition end_mask_of (end_bit : Z) : Z := if end_bit =? BITS_PER_WORD - 1 then U64_MAX else low_bits (end_bit + 1).

Definition bad_range b (start end_ : Z) : bool := (end_ <=? start) || (Size b <? end_).

Definition SetRange (avx : bool) b (start end_ : Z) : option BitArray :=
  if bad_range b start end_ then Some b else
  let start_mask := start_mask_of (start mod BITS_PER_WORD) in
  let end_mask := end_mask_of ((end_ - 1) mod BITS_PER_WORD) in
  edit_range avx (fun w => Z.lor w (Z.land start_mask end_mask)) (fun w => Z.lor w start_mask) (fun w => Z.lor w end_mask)
    (fun _ => Some U64_MAX) (word_of start) (word_of (end_ - 1)) b.

Definition UnsetRange (avx : bool) b (start end_ : Z) : option BitArray :=
  if bad_range b start end_ then Some b else
  let start_mask := low_bits (start mod BITS_PER_WORD) in
  let end_bit := (end_ - 1) mod BITS_PER_WORD in
  let end_mask := if end_bit =? BITS_PER_WORD - 1 then 0 else not64 (low_bits (end_bit + 1)) in
  edit_range avx (fun w => Z.land w (Z.lor start_mask end_mask)) (fun w => Z.land w start_mask) (fun w => Z.land w end_mask)
    (fun _ => Some 0) (word_of start) (word_of (end_ - 1)) b.

Definition Clear b : BitArray := map (fun _ => 0) b.
Definition Fill b : BitArray := map (fun _ => U64_MAX) b.

(** [BitArray(other, start, end)] *)
Definition copy_range (avx : bool) other (start end_ : Z) : option BitArray :=
  let b := Clear other in
  if bad_range b start end_ then Some b else
  let start_mask := start_mask_of (start mod BITS_PER_WORD) in
  let end_mask := end_mask_of ((end_ - 1) mod BITS_PER_WORD) in
  wf ← word other (word_of start);
  wl ← word other (word_of (end_ - 1));
  edit_range avx (fun _ => Z.land wf (Z.land start_mask end_mask)) (fun _ => Z.land wf start_mask) (fun _ => Z.land wl end_mask)
    (word other) (word_of start) (word_of (end_ - 1)) b.

Definition None_ b : bool := foldl (fun result word => Z.lor result word) 0 b =? 0.
Definition Any b : bool := negb (None_ b).

(** ** Runs *)

Definition Range : Type := Z * Z.

(** How many words at the front satisfy a predicate: [p4] is what the loop over fours asks of
    each of the four, [p] what the loop over single words asks. *)
Fixpoint skip_words (p : Z -> bool) (l : list Z) : nat :=
  match l with
  | w :: r => if p w then S (skip_words p r) else O
  | [] => O
  end.
Fixpoint skip_blocks (p4 : Z -> bool) (l : list Z) : nat :=
  match l with
  | w1 :: w2 :: w3 :: w4 :: r => if p4 w1 && p4 w2 && p4 w3 && p4 w4 then (WORDS_PER_AVX + skip_blocks p4 r)%nat else O
  | _ => O
  end.
Definition skip (avx : bool) (p4 p : Z -> bool) (l : list Z) : nat :=
  let n := if avx then skip_blocks p4 l else O in (n + skip_words p (drop n l))%nat.

Definition is_ones (w : Z) : bool := w =? U64_MAX.
Definition is_zero (w : Z) : bool := w =? 0.

(** Upwards: the words from [word] on. *)
Definition find_end_bit (avx : bool) b (word : nat) : Z :=
  let word := (word + skip avx is_ones is_ones (drop word b))%nat in
  match b !! word with
  | Some w => Z.of_nat word * BITS_PER_WORD + countr_one w
  | None => Size b
  end.

Definition word_bits_up (avx : bool) b (index : nat) (word : Z) : Range :=
  let empty_bits := countr_zero word in
  let ones_count := countr_one (Z.shiftr word empty_bits) in
  let start_bit := Z.of_nat index * BITS_PER_WORD + empty_bits in
  if ones_count + empty_bits <? BITS_PER_WORD then (start_bit, start_bit + ones_count)
  else (start_bit, find_end_bit avx b (index + 1)).

Definition FirstRangeFrom (avx : bool) b (start : Z) : option Range :=
  if Size b <=? start then Some (Size b, Size b) else
  let start_word := word_of start in
  w ← word b start_word;
  let masked_first := Z.land w (start_mask_of (start mod BITS_PER_WORD)) in
  if negb (masked_first =? 0) then Some (word_bits_up avx b start_word masked_first) else
  let word := (start_word + 1 + skip avx is_zero is_zero (drop (start_word + 1) b))%nat in
  match b !! word with
  | Some w => Some (word_bits_up avx b word w)
  | None => Some (Size b, Size b)
  end.
Definition FirstRange (avx : bool) b : option Range := FirstRangeFrom avx b 0.

(** Downwards: the words below [word], the last first. The loop over fours of [find_start_bit]
    asks for zero words. *)
Definition find_start_bit (avx : bool) b (word : nat) : Z :=
  let word := (word - skip avx is_zero is_ones (reverse (take word b)))%nat in
  match word with
  | O => 0
  | S i => Z.of_nat word * BITS_PER_WORD - countl_one (default 0 (b !! i))
  end.

Definition word_bits_down (avx : bool) b (index : nat) (word : Z) : Range :=
  let empty_bits := countl_zero word in
  let ones_count := countl_one (wrap64 (Z.shiftl word empty_bits)) in
  let end_bit := Z.of_nat index * BITS_PER_WORD - empty_bits in
  if empty_bits + ones_count <? BITS_PER_WORD then (end_bit - ones_count, end_bit)
  else (find_start_bit avx b (index - 1), end_bit).

Definition LastRangeFrom (avx : bool) b (end_ : Z) : option Range :=
  if end_ =? 0 then Some (0, 0) else
  let end_ := Z.min end_ (Size b) in
  let end_word := (word_of (end_ - 1) + 1)%nat in
  let end_bit := (end_ - 1) mod BITS_PER_WORD in
  w ← word b (end_word - 1);
  let masked_last := if end_bit <? BITS_PER_WORD - 1 then Z.land w (low_bits (end_bit + 1)) else w in
  if negb (masked_last =? 0) then Some (word_bits_down avx b end_word masked_last) else
  let word := (end_word - 1 - skip avx is_zero is_zero (reverse (take (end_word - 1) b)))%nat in
  match word with
  | O => Some (0, 0)
  | S i => w ← b !! i; Some (word_bits_down avx b word w)
  end.
Definition LastRange (avx : bool) b : option Range := LastRangeFrom avx b (Size b).

(** [for (const auto& range : bits)]: from [begin()] to [end()], with fuel. *)
Fixpoint ranges_from (avx : bool) b (fuel : nat) (range : Range) : option (list Range) :=
  if bool_decide (range = (Size b, Size b)) then Some [] else
  match fuel with
  | O => None
  | S fuel => next ← FirstRangeFrom avx b (snd range); rest ← ranges_from avx b fuel next; Some (range :: rest)
  end.
Definition ranges (avx : bool) b : option (list Range) :=
  first ← FirstRangeFrom avx b 0;
  ranges_from avx b (S (Z.to_nat (Size b))) first.

(** ** Operators *)

Definition or_ b other : BitArray := zip_with Z.lor b other.
Definition and_ b other : BitArray := zip_with Z.land b other.
Definition xor_ b other : BitArray := zip_with Z.lxor b other.
Definition not_ b : BitArray := map not64 b.
Definition eq_ b other : bool := foldl Z.lor 0 (xor_ b other) =? 0.

(** * What the array stands for *)

(** Bit [x]; no bit is set outside of the array. *)
Definition bit b (x : Z) : bool :=
  if x <? 0 then false else match b !! word_of x with Some w => Z.testbit w (x mod 64) | None => false end.

Definition bits_ok b : Prop := Forall is_u64 b.

Lemma word_index j i : 0 <= i < 64 -> word_of (64 * Z.of_nat j + i) = j /\ (64 * Z.of_nat j + i) mod 64 = i.
Proof. unfold word_of, BITS_PER_WORD. intros Hi. split; Z.to_euclidean_division_equations; lia. Qed.

Lemma word_split x : 0 <= x -> x = 64 * Z.of_nat (word_of x) + x mod 64 /\ 0 <= x mod 64 < 64.
Proof. unfold word_of, BITS_PER_WORD. intros Hx. rewrite Z2Nat.id by (apply Z.div_pos; lia). Z.to_euclidean_division_equations; lia. Qed.

Lemma bit_word b j i : 0 <= i < 64 -> bit b (64 * Z.of_nat j + i) = match b !! j with Some w => Z.testbit w i | None => false end.
Proof. intros Hi. unfold bit. destruct (word_index j i Hi) as [-> ->]. destruct (Z.ltb_spec (64 * Z.of_nat j + i) 0); [lia|done]. Qed.

Lemma bit_out b x : x < 0 \/ Size b <= x -> bit b x = false.
Proof.
  unfold Size, BITS_PER_WORD. intros Hx. unfold bit. destruct (Z.ltb_spec x 0); [done|]. destruct (word_split x) as [E Hr]; [lia|].
  rewrite lookup_ge_None_2; [done|lia].
Qed.

Lemma word_of_lt b x : 0 <= x < Size b -> (word_of x < length b)%nat.
Proof. unfold Size, BITS_PER_WORD. intros Hx. destruct (word_split x); lia. Qed.

Lemma word_at b j : (j < length b)%nat -> bits_ok b -> exists w, b !! j = Some w /\ is_u64 w.
Proof. intros Hj Hok. destruct (lookup_lt_is_Some_2 b j Hj) as [w Hw]. exists w. split; [done|]. by apply (Forall_lookup_1 _ _ _ _ Hok Hw). Qed.

(** ** Words *)

Lemma u64_testbit_high w i : is_u64 w -> 64 <= i -> Z.testbit w i = false.
Proof.
  intros Hw Hi. destruct (Z.eq_dec w 0) as [->|]; [apply Z.bits_0|]. apply Z.bits_above_log2; [u64_lia|].
  apply Z.log2_lt_pow2; [u64_lia|]. apply (Z.lt_le_trans _ (2 ^ 64)); [u64_lia|]. apply Z.pow_le_mono_r; lia.
Qed.

Lemma u64_ext v w : is_u64 v -> is_u64 w -> (forall i, 0 <= i < 64 -> Z.testbit v i = Z.testbit w i) -> v = w.
Proof.
  intros Hv Hw H. apply Z.bits_inj'. intros i Hi. destruct (Z.lt_ge_cases i 64); [by apply H|]. by rewrite !u64_testbit_high.
Qed.

Lemma u64_zero w : is_u64 w -> w = 0 <-> forall i, 0 <= i < 64 -> Z.testbit w i = false.
Proof. intros Hw. split; [intros -> i _; apply Z.bits_0|]. intros H. apply u64_ext; [done|by u64_unfold|]. intros i Hi. by rewrite H, Z.bits_0. Qed.

(** Below [2 ^ 64] is to have no bit from 64 on. *)
Lemma u64_of_bits w : 0 <= w -> (forall i, 64 <= i -> Z.testbit w i = false) -> is_u64 w.
Proof.
  intros H0 H. assert (w = w mod 2 ^ 64) as ->; [|pose proof (Z.mod_pos_bound w (2 ^ 64) ltac:(lia)); u64_lia].
  apply Z.bits_inj'. intros i Hi. destruct (Z.lt_ge_cases i 64); [by rewrite Z.mod_pow2_bits_low|]. rewrite Z.mod_pow2_bits_high by lia. by apply H.
Qed.

Lemma u64_lor v w : is_u64 v -> is_u64 w -> is_u64 (Z.lor v w).
Proof. intros Hv Hw. apply u64_of_bits; [apply Z.lor_nonneg; u64_lia|]. intros i Hi. by rewrite Z.lor_spec, !u64_testbit_high. Qed.
Lemma u64_land v w : is_u64 v -> is_u64 (Z.land v w).
Proof. intros Hv. apply u64_of_bits; [apply Z.land_nonneg; u64_lia|]. intros i Hi. by rewrite Z.land_spec, u64_testbit_high. Qed.
Lemma u64_lxor v w : is_u64 v -> is_u64 w -> is_u64 (Z.lxor v w).
Proof. intros Hv Hw. apply u64_of_bits; [apply Z.lxor_nonneg; u64_lia|]. intros i Hi. by rewrite Z.lxor_spec, !u64_testbit_high. Qed.
Lemma u64_max : is_u64 U64_MAX.
Proof. u64_lia. Qed.
Lemma u64_0 : is_u64 0.
Proof. u64_lia. Qed.
Lemma u64_not w : is_u64 w -> is_u64 (not64 w).
Proof. intros Hw. by apply u64_lxor, u64_max. Qed.
#[export] Hint Resolve u64_lor u64_land u64_lxor u64_not u64_max u64_0 : guest.

Lemma testbit_max i : 0 <= i < 64 -> Z.testbit U64_MAX i = true.
Proof. intros Hi. change U64_MAX with (Z.ones 64). apply Z.ones_spec_low. lia. Qed.

Lemma testbit_not64 w i : 0 <= i < 64 -> Z.testbit (not64 w) i = negb (Z.testbit w i).
Proof. intros Hi. unfold not64. rewrite Z.lxor_spec, testbit_max by done. apply xorb_true_r. Qed.

Lemma testbit_low_bits n i : 0 <= n -> 0 <= i -> Z.testbit (low_bits n) i = (i <? n).
Proof.
  intros Hn Hi. change (low_bits n) with (Z.pred (Z.shiftl 1 n)). change (Z.pred (Z.shiftl 1 n)) with (Z.ones n).
  rewrite Z.testbit_ones by done. destruct (Z.leb_spec 0 i); [done|lia].
Qed.

Lemma u64_low_bits n : 0 <= n <= 64 -> is_u64 (low_bits n).
Proof.
  intros Hn. unfold low_bits. rewrite Z.shiftl_1_l. assert (2 ^ n <= 2 ^ 64) by (apply Z.pow_le_mono_r; lia).
  assert (0 < 2 ^ n) by (apply Z.pow_pos_nonneg; lia). change (2 ^ 64) with 18446744073709551616 in *. u64_lia.
Qed.

Lemma start_mask_spec s i : 0 <= s < 64 -> 0 <= i < 64 -> Z.testbit (start_mask_of s) i = (s <=? i).
Proof. intros Hs Hi. unfold start_mask_of. rewrite testbit_not64, testbit_low_bits by lia. by destruct (Z.ltb_spec i s), (Z.leb_spec s i); try lia. Qed.

Lemma end_mask_spec e i : 0 <= e < 64 -> 0 <= i < 64 -> Z.testbit (end_mask_of e) i = (i <=? e).
Proof.
  intros He Hi. unfold end_mask_of, BITS_PER_WORD. destruct (Z.eqb_spec e (64 - 1)).
  - rewrite testbit_max by done. destruct (Z.leb_spec i e); [done|lia].
  - rewrite testbit_low_bits by lia. by destruct (Z.ltb_spec i (e + 1)), (Z.leb_spec i e); try lia.
Qed.

Lemma u64_start_mask s : 0 <= s < 64 -> is_u64 (start_mask_of s).
Proof. intros. unfold start_mask_of. apply u64_not, u64_low_bits. lia. Qed.
Lemma u64_end_mask e : 0 <= e < 64 -> is_u64 (end_mask_of e).
Proof. intros. unfold end_mask_of, BITS_PER_WORD. destruct (Z.eqb_spec e (64 - 1)); [apply u64_max|apply u64_low_bits; lia]. Qed.
#[export] Hint Resolve u64_start_mask u64_end_mask : guest.

(** ** Counting *)

Lemma count_while_spec p n i : let c := count_while p n i in
  0 <= c <= Z.of_nat n /\ (forall j, i <= j < i + c -> p j = true) /\ (c < Z.of_nat n -> p (i + c) = false).
Proof.
  revert i. induction n as [|n IH]; intros i; cbn [count_while]; [split_and!; [lia|lia|intros; lia|lia]|].
  destruct (p i) eqn:Hp.
  - destruct (IH (i + 1)) as (Hc & Ht & Hf). set (c := count_while p n (i + 1)) in *. split_and!; try lia.
    + intros j Hj. destruct (Z.eq_dec j i) as [->|]; [done|]. apply Ht. lia.
    + intros Hlt. replace (i + (1 + c)) with (i + 1 + c) by lia. apply Hf. lia.
  - cbn. split_and!; [lia|lia|intros; lia|]. intros _. by rewrite Z.add_0_r.
Qed.

(** The bounds of the lowest and of the highest run of ones in a word that is not zero. *)
Lemma low_run w : is_u64 w -> w <> 0 -> let z := countr_zero w in let o := countr_one (Z.shiftr w z) in
  0 <= z /\ 0 < o /\ z + o <= 64 /\ (forall i, 0 <= i < z -> Z.testbit w i = false) /\ (forall i, z <= i < z + o -> Z.testbit w i = true) /\
  (z + o < 64 -> Z.testbit w (z + o) = false).
Proof.
  intros Hw Hne z o. destruct (count_while_spec (fun i => negb (Z.testbit w i)) 64 0) as (Hz & Hlow & Hz1). fold (countr_zero w) in *. fold z in Hz, Hlow, Hz1.
  destruct (count_while_spec (fun i => Z.testbit (Z.shiftr w z) i) 64 0) as (Ho & Hones & Ho1). fold (countr_one (Z.shiftr w z)) in *. fold o in Ho, Hones, Ho1.
  assert (Hlow' : forall i, 0 <= i < z -> Z.testbit w i = false) by (intros i Hi; specialize (Hlow i); apply negb_true_iff, Hlow; lia).
  assert (Hz64 : z < 64).
  { destruct (Z.lt_ge_cases z 64); [done|]. destruct Hne. apply u64_zero; [done|]. intros i Hi. apply Hlow'. lia. }
  assert (Hbit : Z.testbit w z = true) by (apply negb_false_iff, Hz1; lia).
  assert (Hsh : forall i, 0 <= i -> Z.testbit (Z.shiftr w z) i = Z.testbit w (z + i)) by (intros i Hi; rewrite Z.shiftr_spec by done; f_equal; lia).
  assert (Ho0 : 0 < o). { destruct (Z.eq_dec o 0) as [E|]; [|lia]. specialize (Ho1 ltac:(lia)). rewrite E, Hsh, Z.add_0_r, Hbit in Ho1 by lia. done. }
  assert (Hones' : forall i, z <= i < z + o -> Z.testbit w i = true).
  { intros i Hi. specialize (Hones (i - z) ltac:(lia)). rewrite Hsh in Hones by lia. by replace (z + (i - z)) with i in Hones by lia. }
  assert (Ho64 : z + o <= 64).
  { destruct (Z.le_gt_cases (z + o) 64); [done|]. specialize (Hones' 64 ltac:(lia)). by rewrite u64_testbit_high in Hones' by (done || lia). }
  split_and!; try lia; try done. intros Hlt. rewrite <- Hsh by lia. apply Ho1. lia.
Qed.

Lemma testbit_shl64 w n i : 0 <= n -> 0 <= i < 64 -> Z.testbit (wrap64 (Z.shiftl w n)) i = Z.testbit w (i - n).
Proof.
  intros Hn Hi. unfold wrap64. change 18446744073709551616 with (2 ^ 64). rewrite Z.mod_pow2_bits_low by lia. by rewrite Z.shiftl_spec by lia.
Qed.

Lemma high_run w : is_u64 w -> w <> 0 -> let z := countl_zero w in let o := countl_one (wrap64 (Z.shiftl w z)) in
  0 <= z /\ 0 < o /\ z + o <= 64 /\ (forall i, 64 - z <= i < 64 -> Z.testbit w i = false) /\ (forall i, 64 - z - o <= i < 64 - z -> Z.testbit w i = true) /\
  (z + o < 64 -> Z.testbit w (63 - z - o) = false).
Proof.
  intros Hw Hne z o. destruct (count_while_spec (fun i => negb (Z.testbit w (63 - i))) 64 0) as (Hz & Hlow & Hz1). fold (countl_zero w) in *. fold z in Hz, Hlow, Hz1.
  destruct (count_while_spec (fun i => Z.testbit (wrap64 (Z.shiftl w z)) (63 - i)) 64 0) as (Ho & Hones & Ho1).
  fold (countl_one (wrap64 (Z.shiftl w z))) in *. fold o in Ho, Hones, Ho1.
  assert (Hlow' : forall i, 64 - z <= i < 64 -> Z.testbit w i = false).
  { intros i Hi. specialize (Hlow (63 - i) ltac:(lia)). apply negb_true_iff in Hlow. by replace (63 - (63 - i)) with i in Hlow by lia. }
  assert (Hz64 : z < 64).
  { destruct (Z.lt_ge_cases z 64); [done|]. destruct Hne. apply u64_zero; [done|]. intros i Hi. apply Hlow'. lia. }
  assert (Hbit : Z.testbit w (63 - z) = true) by (apply negb_false_iff, Hz1; lia).
  assert (Hsh : forall i, 0 <= i < 64 -> Z.testbit (wrap64 (Z.shiftl w z)) (63 - i) = Z.testbit w (63 - i - z)) by (intros i Hi; apply testbit_shl64; lia).
  assert (Ho0 : 0 < o).
  { destruct (Z.eq_dec o 0) as [E|]; [|lia]. specialize (Ho1 ltac:(lia)). rewrite E, Hsh in Ho1 by lia. replace (63 - (0 + 0) - z) with (63 - z) in Ho1 by lia. congruence. }
  assert (Hones' : forall i, 64 - z - o <= i < 64 - z -> Z.testbit w i = true).
  { intros i Hi. specialize (Hones (63 - i - z) ltac:(lia)). rewrite Hsh in Hones by lia. by replace (63 - (63 - i - z) - z) with i in Hones by lia. }
  assert (Ho64 : z + o <= 64).
  { destruct (Z.le_gt_cases (z + o) 64); [done|]. specialize (Hones' (-1) ltac:(lia)). by rewrite Z.testbit_neg_r in Hones' by lia. }
  split_and!; try lia; try done. intros Hlt. specialize (Ho1 ltac:(lia)). rewrite Hsh in Ho1 by lia. by replace (63 - (0 + o) - z) with (63 - z - o) in Ho1 by lia.
Qed.

(** ** Editing words *)

Lemma edit_word_spec b j f w : b !! j = Some w -> edit_word b j f = Some (<[j:=f w]> b).
Proof.
  intros Hw. unfold edit_word, word, put_word. rewrite Hw. cbn [mbind option_bind]. destruct (Nat.ltb_spec j (length b)); [done|]. apply lookup_lt_Some in Hw. lia.
Qed.

Lemma fill_words_spec val n i b : (i + n <= length b)%nat -> (forall j, (i <= j < i + n)%nat -> is_Some (val j)) ->
  exists b', fill_words val n i b = Some b' /\ length b' = length b /\
    (forall j, b' !! j = if bool_decide (i <= j < i + n)%nat then val j else b !! j).
Proof.
  revert i b. induction n as [|n IH]; intros i b Hn Hv; cbn [fill_words].
  { exists b. split_and!; [done..|]. intros j. rewrite bool_decide_false by lia. done. }
  destruct (Hv i) as [w Hw]; [lia|]. rewrite Hw. cbn [mbind option_bind]. unfold put_word.
  destruct (Nat.ltb_spec i (length b)); [|lia]. cbn [mbind option_bind].
  destruct (IH (S i) (<[i:=w]> b)) as (b' & E & Hl & Hlk); [rewrite length_insert; lia|intros j Hj; apply Hv; lia|].
  exists b'. rewrite length_insert in Hl. split_and!; [done|done|]. intros j. rewrite Hlk. destruct (decide (j = i)) as [->|Hne].
  - rewrite bool_decide_false, bool_decide_true by lia. by rewrite list_lookup_insert_eq by lia.
  - rewrite list_lookup_insert_ne by done. repeat case_bool_decide; (done || lia).
Qed.

(** The loop over fours leaves less than four words, and with the loop over what is left it is
    the loop over single words. *)
Lemma fill_words_app val n k i b : fill_words val (n + k) i b = b ← fill_words val n i b; fill_words val k (i + n) b.
Proof.
  revert i b. induction n as [|n IH]; intros i b; cbn [fill_words Nat.add]; [cbn; by rewrite Nat.add_0_r|].
  destruct (val i) as [w|]; [|done]. cbn [mbind option_bind]. destruct (put_word b i w) as [b'|]; [|done]. cbn [mbind option_bind].
  rewrite IH. by replace (S i + n)%nat with (i + S n)%nat by lia.
Qed.

Lemma fill_blocks_words val n i b : ('(n, i, b) ← fill_blocks val n i b; fill_words val n i b) = fill_words val n i b.
Proof.
  revert i b. induction n as [n IH] using (well_founded_induction lt_wf). intros i b. destruct n as [|[|[|[|n]]]]; try done. cbn [fill_blocks].
  change (S (S (S (S n)))) with (4 + n)%nat. rewrite fill_words_app. change WORDS_PER_AVX with 4%nat.
  destruct (fill_words val 4 i b) as [b'|]; [|done]. cbn [mbind option_bind]. apply IH. lia.
Qed.

Lemma fill_any avx val n i b : fill avx val n i b = fill_words val n i b.
Proof. unfold fill. destruct avx; [apply fill_blocks_words|done]. Qed.

(** What a range edit leaves in each word. *)
Lemma edit_range_spec avx one first last middle fw lw b : (fw <= lw < length b)%nat -> (forall j, (fw < j < lw)%nat -> is_Some (middle j)) ->
  exists b', edit_range avx one first last middle fw lw b = Some b' /\ length b' = length b /\
    (forall j w, b !! j = Some w -> b' !! j =
      if bool_decide (j < fw \/ lw < j)%nat then Some w else if bool_decide (fw = lw) then Some (one w)
      else if bool_decide (j = fw) then Some (first w) else if bool_decide (j = lw) then Some (last w) else middle j).
Proof.
  intros Hfl Hm. unfold edit_range. destruct (lookup_lt_is_Some_2 b fw) as [wf Hwf]; [lia|]. destruct (Nat.eqb_spec fw lw) as [->|Hne].
  { rewrite (edit_word_spec _ _ _ _ Hwf). eexists. split_and!; [done|by rewrite length_insert|]. intros j w Hj. destruct (decide (j = lw)) as [->|Hne].
    - rewrite bool_decide_false by lia. rewrite list_lookup_insert_eq by lia. rewrite bool_decide_true by done. congruence.
    - rewrite bool_decide_true by lia. by rewrite list_lookup_insert_ne. }
  rewrite (edit_word_spec _ _ _ _ Hwf). cbn [mbind option_bind]. rewrite fill_any.
  destruct (fill_words_spec middle (lw - (fw + 1)) (fw + 1) (<[fw:=first wf]> b)) as (b1 & E1 & Hl1 & Hlk1);
    [rewrite length_insert; lia|intros j Hj; apply Hm; lia|]. rewrite E1. cbn [mbind option_bind]. rewrite length_insert in Hl1.
  destruct (lookup_lt_is_Some_2 b lw) as [wl Hwl]; [lia|].
  assert (Hb1 : b1 !! lw = Some wl) by (rewrite Hlk1, bool_decide_false by lia; by rewrite list_lookup_insert_ne).
  rewrite (edit_word_spec _ _ _ _ Hb1). eexists. split_and!; [done|by rewrite length_insert|]. intros j w Hj.
  destruct (decide (j = lw)) as [->|Hjl].
  - rewrite bool_decide_false, bool_decide_false, bool_decide_false, bool_decide_true by lia. rewrite list_lookup_insert_eq by lia. congruence.
  - rewrite list_lookup_insert_ne by done. rewrite Hlk1. destruct (decide (j = fw)) as [->|Hjf].
    + rewrite bool_decide_false, bool_decide_false, bool_decide_false, bool_decide_true by lia. rewrite list_lookup_insert_eq by lia. congruence.
    + rewrite list_lookup_insert_ne by done. rewrite (bool_decide_false (fw = lw)), (bool_decide_false (j = fw)), (bool_decide_false (j = lw)) by lia.
      repeat case_bool_decide; (done || lia).
Qed.

(** ** Ranges *)

Definition in_range (start end_ x : Z) : bool := (start <=? x) && (x <? end_).

Lemma in_range_spec start end_ x : in_range start end_ x = true <-> start <= x < end_.
Proof. unfold in_range. rewrite andb_true_iff, Z.leb_le, Z.ltb_lt. done. Qed.

(** [b'] is [b] with the bits of a range replaced by those of [T]. *)
Record replaced (T : Z -> bool) (start end_ : Z) b b' : Prop := {
  rp_length : length b' = length b;
  rp_ok : bits_ok b';
  rp_bit : forall x, bit b' x = if in_range start end_ x then T x else bit b x
}.

Section range_edits.
Context (T : Z -> bool) (start end_ : Z) b (one first last : Z -> Z) (middle : nat -> option Z).
Context (Hok : bits_ok b) (Hr : 0 <= start < end_) (He : end_ <= Size b).
Let fw := word_of start.
Let lw := word_of (end_ - 1).
Let s := start mod 64.
Let e := (end_ - 1) mod 64.
(** A word after an edit: the bits in [lo, hi] are those of [T], the others stay. *)
Definition word_edit (j : nat) (lo hi w v : Z) : Prop :=
  is_u64 v /\ forall i, 0 <= i < 64 -> Z.testbit v i = if (lo <=? i) && (i <=? hi) then T (64 * Z.of_nat j + i) else Z.testbit w i.
Context (Hone : forall w, b !! fw = Some w -> is_u64 w -> word_edit fw s e w (one w)).
Context (Hfirst : forall w, b !! fw = Some w -> is_u64 w -> word_edit fw s 63 w (first w)).
Context (Hlast : forall w, b !! lw = Some w -> is_u64 w -> word_edit lw 0 e w (last w)).
Context (Hmid : forall j, (fw < j < lw)%nat -> exists v, middle j = Some v /\ word_edit j 0 63 0 v).

Lemma ends : start = 64 * Z.of_nat fw + s /\ 0 <= s < 64 /\ end_ - 1 = 64 * Z.of_nat lw + e /\ 0 <= e < 64 /\ (fw <= lw < length b)%nat.
Proof.
  destruct (word_split start) as [E1 H1]; [lia|]. destruct (word_split (end_ - 1)) as [E2 H2]; [lia|].
  pose proof (word_of_lt b (end_ - 1) ltac:(lia)). subst fw lw s e. split_and!; try done; lia.
Qed.

Lemma edit_range_bits avx : exists b', edit_range avx one first last middle fw lw b = Some b' /\ replaced T start end_ b b'.
Proof.
  destruct ends as (Es & Hs & Ee & Hee & Hfl).
  destruct (edit_range_spec avx one first last middle fw lw b Hfl) as (b' & E & Hl & Hw); [intros j Hj; destruct (Hmid j Hj) as (v & -> & _); done|].
  (* each word of the result *)
  assert (Hword : forall j w, b !! j = Some w -> is_u64 w -> exists v, b' !! j = Some v /\ is_u64 v /\
    forall i, 0 <= i < 64 -> Z.testbit v i = if in_range start end_ (64 * Z.of_nat j + i) then T (64 * Z.of_nat j + i) else Z.testbit w i).
  { intros j w Hj Hwu. pose proof (Hw j w Hj) as Hb'. unfold in_range.
    assert (Hx : forall (lo hi : Z) v, word_edit j lo hi w v -> b' !! j = Some v -> (forall i, 0 <= i < 64 -> (lo <= i <= hi <-> start <= 64 * Z.of_nat j + i < end_)) ->
      exists v, b' !! j = Some v /\ is_u64 v /\ forall i, 0 <= i < 64 -> Z.testbit v i =
        if (start <=? 64 * Z.of_nat j + i) && (64 * Z.of_nat j + i <? end_) then T (64 * Z.of_nat j + i) else Z.testbit w i).
    { intros lo hi v [Hu Hv] Hb Hi. exists v. split_and!; [done|done|]. intros i Hi'. rewrite Hv by done. specialize (Hi i Hi').
      destruct (Z.leb_spec lo i), (Z.leb_spec i hi), (Z.leb_spec start (64 * Z.of_nat j + i)), (Z.ltb_spec (64 * Z.of_nat j + i) end_); cbn [andb]; (done || lia). }
    destruct (decide (j < fw \/ lw < j)%nat) as [Hout|Hin]; [rewrite bool_decide_true in Hb' by done|rewrite bool_decide_false in Hb' by done].
    { exists w. split_and!; [done|done|]. intros i Hi. destruct (Z.leb_spec start (64 * Z.of_nat j + i)), (Z.ltb_spec (64 * Z.of_nat j + i) end_); cbn [andb]; (done || lia). }
    destruct (decide (fw = lw)) as [Heq|Hneq]; [rewrite bool_decide_true in Hb' by done|rewrite bool_decide_false in Hb' by done].
    { assert (j = fw) as -> by lia. apply (Hx s e (one w)); [by apply Hone|done|lia]. }
    destruct (decide (j = fw)) as [->|Hjf]; [rewrite bool_decide_true in Hb' by done; apply (Hx s 63 (first w)); [by apply Hfirst|done|lia]|].
    rewrite bool_decide_false in Hb' by done.
    destruct (decide (j = lw)) as [->|Hjl]; [rewrite bool_decide_true in Hb' by done; apply (Hx 0 e (last w)); [by apply Hlast|done|lia]|].
    rewrite bool_decide_false in Hb' by done. destruct (Hmid j) as (v & Hv & Hu & Hvb); [lia|]. apply (Hx 0 63 v); [|congruence|lia].
    split; [done|]. intros i Hi. rewrite Hvb by done. by destruct (Z.leb_spec 0 i), (Z.leb_spec i 63); try lia. }
  exists b'. split; [done|]. split; [done| |].
  - apply Forall_lookup_2. intros j v Hv. destruct (word_at b j) as (w & Hj & Hwu); [apply lookup_lt_Some in Hv; lia|done|].
    destruct (Hword j w Hj Hwu) as (v' & Hv' & Hu & _). congruence.
  - intros x. destruct (Z.lt_ge_cases x 0).
    { rewrite !bit_out by lia. unfold in_range. by destruct (Z.leb_spec start x); [lia|]. }
    destruct (Z.le_gt_cases (Size b) x).
    { rewrite !bit_out by (unfold Size in *; rewrite ?Hl; lia). unfold in_range. destruct (Z.ltb_spec x end_); [lia|]. by rewrite andb_false_r. }
    destruct (word_split x) as [Ex Hi]; [lia|]. destruct (word_at b (word_of x) (word_of_lt b x ltac:(lia)) Hok) as (w & Hj & Hwu).
    destruct (Hword _ w Hj Hwu) as (v & Hv & _ & Hbits). rewrite Ex, !bit_word, Hv, Hj by done. by apply Hbits.
Qed.
End range_edits.

Lemma word_edit_intro (T : Z -> bool) j lo hi w v : is_u64 v ->
  (forall i, 0 <= i < 64 -> Z.testbit v i = if (lo <=? i) && (i <=? hi) then T (64 * Z.of_nat j + i) else Z.testbit w i) -> word_edit T j lo hi w v.
Proof. by split. Qed.

(** The bits of the masks of a range. *)
Ltac mask_eval := rewrite ?Z.lor_spec, ?Z.land_spec, ?Z.lor_spec, ?start_mask_spec, ?end_mask_spec, ?testbit_max, ?Z.bits_0 by lia;
  repeat match goal with |- context [?a <=? ?b] => destruct (Z.leb_spec a b); try lia end;
  repeat match goal with |- context [Z.testbit ?w ?i] => destruct (Z.testbit w i) end; done.
Ltac mask_bits := intros i ?; mask_eval.

Lemma bad_range_spec b start end_ : bad_range b start end_ = false <-> start < end_ <= Size b.
Proof. unfold bad_range. rewrite orb_false_iff, Z.leb_gt, Z.ltb_ge. done. Qed.

Lemma SetRange_spec avx b start end_ : bits_ok b -> 0 <= start -> exists b', SetRange avx b start end_ = Some b' /\
  (end_ <= Size b -> replaced (fun _ => true) start end_ b b') /\ (Size b < end_ -> b' = b).
Proof.
  intros Hok Hs. unfold SetRange. destruct (bad_range b start end_) eqn:Hbad.
  { exists b. split_and!; [done| |done]. intros He. split; [done|done|]. intros x. destruct (in_range start end_ x) eqn:Hx; [|done].
    apply in_range_spec in Hx. assert (bad_range b start end_ = false); [apply bad_range_spec; lia|congruence]. }
  apply bad_range_spec in Hbad as [Hlt He].
  assert (Hm1 : 0 <= start mod 64 < 64) by (apply Z.mod_pos_bound; lia). assert (Hm2 : 0 <= (end_ - 1) mod 64 < 64) by (apply Z.mod_pos_bound; lia).
  change BITS_PER_WORD with 64. edestruct (edit_range_bits (fun _ => true) start end_ b) with (avx := avx) as (b' & E & Hrp); [done|lia|done| | | | |exists b'; split_and!; [exact E|done|lia]].
  - intros w _ Hw. apply word_edit_intro; [auto 6 with guest|mask_bits].
  - intros w _ Hw. apply word_edit_intro; [auto 6 with guest|mask_bits].
  - intros w _ Hw. apply word_edit_intro; [auto 6 with guest|mask_bits].
  - intros j _. exists U64_MAX. split; [done|]. apply word_edit_intro; [auto with guest|mask_bits].
Qed.

Definition high_mask_of (end_bit : Z) : Z := if end_bit =? BITS_PER_WORD - 1 then 0 else not64 (low_bits (end_bit + 1)).

Lemma high_mask_spec e i : 0 <= e < 64 -> 0 <= i < 64 -> Z.testbit (high_mask_of e) i = (e <? i).
Proof.
  intros He Hi. unfold high_mask_of, BITS_PER_WORD. destruct (Z.eqb_spec e (64 - 1)).
  - rewrite Z.bits_0. by destruct (Z.ltb_spec e i); [lia|].
  - rewrite testbit_not64, testbit_low_bits by lia. by destruct (Z.ltb_spec i (e + 1)), (Z.ltb_spec e i); try lia.
Qed.

Lemma low_mask_spec s i : 0 <= s < 64 -> 0 <= i < 64 -> Z.testbit (low_bits s) i = (i <? s).
Proof. intros. apply testbit_low_bits; lia. Qed.

Lemma UnsetRange_spec avx b start end_ : bits_ok b -> 0 <= start -> exists b', UnsetRange avx b start end_ = Some b' /\
  (end_ <= Size b -> replaced (fun _ => false) start end_ b b') /\ (Size b < end_ -> b' = b).
Proof.
  intros Hok Hs. unfold UnsetRange. destruct (bad_range b start end_) eqn:Hbad.
  { exists b. split_and!; [done| |done]. intros He. split; [done|done|]. intros x. destruct (in_range start end_ x) eqn:Hx; [|done].
    apply in_range_spec in Hx. assert (bad_range b start end_ = false); [apply bad_range_spec; lia|congruence]. }
  apply bad_range_spec in Hbad as [Hlt He].
  assert (Hm1 : 0 <= start mod 64 < 64) by (apply Z.mod_pos_bound; lia). assert (Hm2 : 0 <= (end_ - 1) mod 64 < 64) by (apply Z.mod_pos_bound; lia).
  change BITS_PER_WORD with 64. cbv zeta. change (if (end_ - 1) mod 64 =? 64 - 1 then 0 else not64 (low_bits ((end_ - 1) mod 64 + 1))) with (high_mask_of ((end_ - 1) mod 64)).
  edestruct (edit_range_bits (fun _ => false) start end_ b) with (avx := avx) as (b' & E & Hrp); [done|lia|done| | | | |exists b'; split_and!; [exact E|done|lia]].
  - intros w _ Hw. apply word_edit_intro; [auto with guest|]. intros i ?. rewrite Z.land_spec, Z.lor_spec, low_mask_spec, high_mask_spec by done.
    destruct (Z.ltb_spec i (start mod 64)), (Z.ltb_spec ((end_ - 1) mod 64) i), (Z.leb_spec (start mod 64) i), (Z.leb_spec i ((end_ - 1) mod 64)); try lia; cbn; by rewrite ?andb_true_r, ?andb_false_r.
  - intros w _ Hw. apply word_edit_intro; [auto with guest|]. intros i ?. rewrite Z.land_spec, low_mask_spec by done.
    destruct (Z.ltb_spec i (start mod 64)), (Z.leb_spec (start mod 64) i), (Z.leb_spec i 63); try lia; cbn; by rewrite ?andb_true_r, ?andb_false_r.
  - intros w _ Hw. apply word_edit_intro; [auto with guest|]. intros i ?. rewrite Z.land_spec, high_mask_spec by done.
    destruct (Z.ltb_spec ((end_ - 1) mod 64) i), (Z.leb_spec 0 i), (Z.leb_spec i ((end_ - 1) mod 64)); try lia; cbn; by rewrite ?andb_true_r, ?andb_false_r.
  - intros j _. exists 0. split; [done|]. apply word_edit_intro; [auto with guest|]. intros i ?. rewrite Z.bits_0. by destruct (_ && _).
Qed.

Lemma Clear_ok b : bits_ok (Clear b) /\ length (Clear b) = length b /\ Size (Clear b) = Size b.
Proof.
  unfold Clear, Size. rewrite length_map. split_and!; [|done|done]. apply Forall_lookup_2. intros j v Hv.
  rewrite list_lookup_fmap in Hv. destruct (b !! j); [|done]. injection Hv as <-. apply u64_0.
Qed.

Lemma bit_Clear b x : bit (Clear b) x = false.
Proof. unfold bit, Clear. destruct (x <? 0); [done|]. rewrite list_lookup_fmap. destruct (b !! word_of x); [apply Z.bits_0|done]. Qed.

Lemma copy_range_spec avx other start end_ : bits_ok other -> 0 <= start -> exists b', copy_range avx other start end_ = Some b' /\
  length b' = length other /\ bits_ok b' /\
  (end_ <= Size other -> forall x, bit b' x = in_range start end_ x && bit other x) /\ (Size other < end_ -> forall x, bit b' x = false).
Proof.
  intros Hok Hs. destruct (Clear_ok other) as (Hcok & Hcl & Hcs). unfold copy_range.
  assert (Hbr : bad_range (Clear other) start end_ = bad_range other start end_) by (unfold bad_range; by rewrite Hcs). rewrite Hbr.
  destruct (bad_range other start end_) eqn:Hbad.
  { exists (Clear other). split_and!; [done|done|done| |intros; apply bit_Clear]. intros He x. rewrite bit_Clear. destruct (in_range start end_ x) eqn:Hx; [|done].
    apply in_range_spec in Hx. assert (bad_range other start end_ = false); [apply bad_range_spec; lia|congruence]. }
  apply bad_range_spec in Hbad as [Hlt He].
  assert (Hm1 : 0 <= start mod 64 < 64) by (apply Z.mod_pos_bound; lia). assert (Hm2 : 0 <= (end_ - 1) mod 64 < 64) by (apply Z.mod_pos_bound; lia).
  destruct (word_at other (word_of start)) as (wf & Hwf & Hwfu); [by apply word_of_lt; lia|done|].
  destruct (word_at other (word_of (end_ - 1))) as (wl & Hwl & Hwlu); [by apply word_of_lt; lia|done|].
  unfold word. rewrite Hwf, Hwl. cbn [mbind option_bind]. change BITS_PER_WORD with 64. cbv zeta.
  assert (Hbf : forall i, 0 <= i < 64 -> bit other (64 * Z.of_nat (word_of start) + i) = Z.testbit wf i) by (intros i Hi; by rewrite bit_word, Hwf).
  assert (Hbl : forall i, 0 <= i < 64 -> bit other (64 * Z.of_nat (word_of (end_ - 1)) + i) = Z.testbit wl i) by (intros i Hi; by rewrite bit_word, Hwl).
  assert (Hz : forall j w, Clear other !! j = Some w -> w = 0) by (intros j w; unfold Clear; rewrite list_lookup_fmap; destruct (other !! j); [by intros [= <-]|done]).
  edestruct (edit_range_bits (bit other) start end_ (Clear other)) with (avx := avx) as (b' & E & [Hl Hbok Hb]); [done|lia|lia| | | | |].
  5:{ exists b'. split_and!; [exact E|congruence|done| |lia]. intros _ x. rewrite Hb, bit_Clear. by destruct (in_range start end_ x). }
  - intros w Hw _. apply Hz in Hw as ->. apply word_edit_intro; [auto 6 with guest|]. intros i ?. rewrite Hbf by done. mask_eval.
  - intros w Hw _. apply Hz in Hw as ->. apply word_edit_intro; [auto 6 with guest|]. intros i ?. rewrite Hbf by done. mask_eval.
  - intros w Hw _. apply Hz in Hw as ->. apply word_edit_intro; [auto 6 with guest|]. intros i ?. rewrite Hbl by done. mask_eval.
  - intros j Hj. destruct (word_at other j) as (v & Hv & Hu); [pose proof (word_of_lt other (end_ - 1) ltac:(lia)); lia|done|].
    exists v. split; [done|]. apply word_edit_intro; [done|]. intros i ?. rewrite bit_word, Hv by done. by destruct (Z.leb_spec 0 i), (Z.leb_spec i 63); try lia.
Qed.

(** ** Runs *)

Lemma skip_words_spec p l : let n := skip_words p l in (n <= length l)%nat /\ (forall j w, (j < n)%nat -> l !! j = Some w -> p w = true) /\
  (forall w, l !! n = Some w -> p w = false).
Proof.
  induction l as [|w r IH]; cbn [skip_words]; [by split_and!|]. destruct (p w) eqn:Hp; cbn [length].
  - destruct IH as (Hl & Ht & Hf). split_and!; [lia| |done]. intros [|j] v Hj; cbn; [by intros [= <-]|]. apply Ht. lia.
  - split_and!; [lia|lia|]. cbn. by intros ? [= <-].
Qed.

(** Four at a time stops at the same word, when both loops ask the same. *)
Lemma skip_blocks_words p l : let n := skip_blocks p l in (n + skip_words p (drop n l))%nat = skip_words p l.
Proof.
  induction l as [l IH] using (induction_ltof1 _ length). unfold ltof in IH. destruct l as [|w1 [|w2 [|w3 [|w4 r]]]]; try done. cbn [skip_blocks].
  destruct (p w1) eqn:E1; [|done]. destruct (p w2) eqn:E2; [|done]. destruct (p w3) eqn:E3; [|done]. destruct (p w4) eqn:E4; [|done].
  cbn [andb skip_words]. rewrite E1, E2, E3, E4. specialize (IH r ltac:(cbn; lia)). change WORDS_PER_AVX with 4%nat. cbn [Nat.add drop]. cbn in IH. by rewrite IH.
Qed.

Lemma skip_same avx p l : skip avx p p l = skip_words p l.
Proof. unfold skip. destruct avx; [apply skip_blocks_words|done]. Qed.

(** The bits of a stretch of equal words. *)
Lemma word_bits b j w x : b !! j = Some w -> 64 * Z.of_nat j <= x < 64 * (Z.of_nat j + 1) -> bit b x = Z.testbit w (x - 64 * Z.of_nat j).
Proof. intros Hw Hx. replace x with (64 * Z.of_nat j + (x - 64 * Z.of_nat j)) at 1 by lia. by rewrite bit_word, Hw by lia. Qed.

Lemma bit_Some b x : 0 <= x < Size b -> exists j w, b !! j = Some w /\ 64 * Z.of_nat j <= x < 64 * (Z.of_nat j + 1).
Proof.
  intros Hx. pose proof (word_of_lt b x Hx) as Hlt. destruct (lookup_lt_is_Some_2 b _ Hlt) as [w Hw]. exists (word_of x), w.
  destruct (word_split x) as [E Hi]; [lia|]. split; [done|lia].
Qed.

(** The end of a run that reaches a word boundary. *)
Lemma find_end_bit_spec avx b j : bits_ok b -> (j <= length b)%nat -> let e := find_end_bit avx b j in
  64 * Z.of_nat j <= e <= Size b /\ (forall x, 64 * Z.of_nat j <= x < e -> bit b x = true) /\ bit b e = false.
Proof.
  intros Hok Hj. unfold find_end_bit. rewrite skip_same. destruct (skip_words_spec is_ones (drop j b)) as (Hl & Ht & Hf).
  set (n := skip_words is_ones (drop j b)) in *. rewrite length_drop in Hl.
  assert (Hones : forall x, 64 * Z.of_nat j <= x < 64 * Z.of_nat (j + n) -> bit b x = true).
  { intros x Hx. destruct (bit_Some b x) as (i & w & Hw & Hi); [unfold Size, BITS_PER_WORD; lia|]. rewrite (word_bits b i w x Hw Hi).
    assert (is_ones w = true) as ->%Z.eqb_eq by (apply (Ht (i - j)%nat); [lia|rewrite lookup_drop; by replace (j + (i - j))%nat with i by lia]). apply testbit_max. lia. }
  destruct (b !! (j + n)%nat) as [w|] eqn:Hw.
  - destruct (word_at b (j + n)) as (w' & Hw' & Hwu); [by eapply lookup_lt_Some|done|]. assert (w' = w) as -> by congruence.
    destruct (count_while_spec (fun i => Z.testbit w i) 64 0) as (Hc & Hct & Hcf). fold (countr_one w) in *. set (c := countr_one w) in *.
    assert (Hc64 : c < 64).
    { destruct (Z.lt_ge_cases c 64); [done|]. assert (is_ones w = false) as Hno by (apply Hf; by rewrite lookup_drop).
      apply Z.eqb_neq in Hno. destruct Hno. apply u64_ext; [done|apply u64_max|]. intros i Hi. rewrite testbit_max by done. apply Hct. lia. }
    apply lookup_lt_Some in Hw as Hlt. unfold Size, BITS_PER_WORD. cbv zeta. split_and!; [lia|lia| |].
    + intros x Hx. destruct (Z.lt_ge_cases x (64 * Z.of_nat (j + n))); [apply Hones; lia|]. rewrite (word_bits b (j + n) w) by (done || lia). apply Hct. lia.
    + rewrite (word_bits b (j + n) w) by (done || lia). replace (_ - _) with (0 + c) by lia. apply Hcf. lia.
  - apply lookup_ge_None in Hw. assert (j + n = length b)%nat as El by lia. unfold Size, BITS_PER_WORD. split_and!; [lia|lia| |apply bit_out; unfold Size, BITS_PER_WORD; lia].
    intros x Hx. apply Hones. lia.
Qed.

(** [(s, e)] is the first run of set bits from [start] on. *)
Record first_run b (start s e : Z) : Prop := {
  fr_bounds : start <= s < e;
  fr_end : e <= Size b;
  fr_before : forall x, start <= x < s -> bit b x = false;
  fr_ones : forall x, s <= x < e -> bit b x = true;
  fr_after : bit b e = false
}.

Lemma word_bits_up_spec avx b j w0 w start : bits_ok b -> b !! j = Some w0 -> is_u64 w -> w <> 0 -> start < 64 * (Z.of_nat j + 1) ->
  (forall i, 0 <= i < 64 -> Z.testbit w i = Z.testbit w0 i && (start <=? 64 * Z.of_nat j + i)) ->
  (forall x, start <= x < 64 * Z.of_nat j -> bit b x = false) ->
  first_run b start (fst (word_bits_up avx b j w)) (snd (word_bits_up avx b j w)).
Proof.
  intros Hok Hw0 Hu Hne Hst Hbits Hbefore. destruct (low_run w Hu Hne) as (Hz & Ho & Hzo & Hlow & Hones & Hnext). unfold word_bits_up, BITS_PER_WORD.
  set (z := countr_zero w) in *. set (o := countr_one (Z.shiftr w z)) in *. apply lookup_lt_Some in Hw0 as Hj.
  assert (Hfirst : start <= 64 * Z.of_nat j + z). { specialize (Hones z ltac:(lia)). rewrite Hbits in Hones by lia. apply andb_true_iff in Hones as [_ ?%Z.leb_le]. lia. }
  assert (Hwb : forall x, 64 * Z.of_nat j <= x < 64 * (Z.of_nat j + 1) -> start <= x -> bit b x = Z.testbit w (x - 64 * Z.of_nat j)).
  { intros x Hx Hsx. rewrite (word_bits b j w0) by done. rewrite Hbits by lia. rewrite (proj2 (Z.leb_le start _)) by lia. by rewrite andb_true_r. }
  assert (Hzero : forall x, start <= x < 64 * Z.of_nat j + z -> bit b x = false).
  { intros x Hx. destruct (Z.lt_ge_cases x (64 * Z.of_nat j)); [apply Hbefore; lia|]. rewrite Hwb by lia. apply Hlow. lia. }
  destruct (Z.ltb_spec (o + z) 64); cbn [fst snd].
  - split; unfold Size, BITS_PER_WORD; try lia.
    + intros x Hx. apply Hzero. lia.
    + intros x Hx. rewrite Hwb by lia. apply Hones. lia.
    + rewrite Hwb by lia. replace (_ - _) with (z + o) by lia. apply Hnext. lia.
  - destruct (find_end_bit_spec avx b (j + 1) Hok) as (He & Het & Hef); [lia|]. split; try (done || lia).
    + intros x Hx. apply Hzero. lia.
    + intros x Hx. destruct (Z.lt_ge_cases x (64 * (Z.of_nat j + 1))); [|apply Het; lia]. rewrite Hwb by lia. apply Hones. lia.
Qed.

(** [FirstRangeFrom] stays in the array and finds the first run, or that there is none. *)
Lemma FirstRangeFrom_spec avx b start : bits_ok b -> 0 <= start -> exists s e, FirstRangeFrom avx b start = Some (s, e) /\
  (first_run b start s e \/ s = Size b /\ e = Size b /\ forall x, start <= x -> bit b x = false).
Proof.
  intros Hok Hs. unfold FirstRangeFrom. destruct (Z.leb_spec (Size b) start).
  { exists (Size b), (Size b). split; [done|]. right. split_and!; [done..|]. intros x Hx. apply bit_out. lia. }
  destruct (word_split start) as [Es Hi]; [lia|]. destruct (word_at b (word_of start)) as (w & Hw & Hwu); [apply word_of_lt; lia|done|].
  unfold word. rewrite Hw. cbn [mbind option_bind]. change BITS_PER_WORD with 64. cbv zeta. set (j := word_of start) in *. set (sb := start mod 64) in *.
  assert (Hmask : forall i, 0 <= i < 64 -> Z.testbit (Z.land w (start_mask_of sb)) i = Z.testbit w i && (start <=? 64 * Z.of_nat j + i)).
  { intros i Hi'. rewrite Z.land_spec, start_mask_spec by done. f_equal. destruct (Z.leb_spec sb i), (Z.leb_spec start (64 * Z.of_nat j + i)); (done || lia). }
  destruct (Z.eqb_spec (Z.land w (start_mask_of sb)) 0) as [E0|Hne]; cbn [negb].
  2:{ rewrite (surjective_pairing (word_bits_up _ _ _ _)). eexists _, _. split; [done|]. left.
      apply (word_bits_up_spec avx b j w); [done|done|auto with guest|done|lia|done|lia]. }
  rewrite skip_same. destruct (skip_words_spec is_zero (drop (j + 1) b)) as (Hl & Ht & Hf). set (n := skip_words is_zero (drop (j + 1) b)) in *.
  rewrite length_drop in Hl. pose proof (lookup_lt_Some _ _ _ Hw) as Hj.
  assert (Hz : forall x, start <= x < 64 * Z.of_nat (j + 1 + n) -> bit b x = false).
  { intros x Hx. destruct (Z.lt_ge_cases x (64 * (Z.of_nat j + 1))) as [Hlt|Hge].
    - rewrite (word_bits b j w) by (done || lia). pose proof (proj1 (u64_zero _ (u64_land w (start_mask_of sb) Hwu)) E0 (x - 64 * Z.of_nat j) ltac:(lia)) as Hz.
      rewrite Hmask in Hz by lia. rewrite (proj2 (Z.leb_le start _)) in Hz by lia. by rewrite andb_true_r in Hz.
    - destruct (bit_Some b x) as (i & v & Hv & Hxi); [unfold Size, BITS_PER_WORD; lia|]. rewrite (word_bits b i v x Hv Hxi).
      assert (is_zero v = true) as ->%Z.eqb_eq by (apply (Ht (i - (j + 1))%nat); [lia|rewrite lookup_drop; by replace (j + 1 + (i - (j + 1)))%nat with i by lia]).
      apply Z.bits_0. }
  destruct (b !! (j + 1 + n)%nat) as [v|] eqn:Hv.
  - rewrite (surjective_pairing (word_bits_up _ _ _ _)). eexists _, _. split; [done|]. left.
    destruct (word_at b (j + 1 + n)) as (v' & Hv' & Hvu); [by eapply lookup_lt_Some|done|]. assert (v' = v) as -> by congruence.
    apply (word_bits_up_spec avx b (j + 1 + n) v); [done|done|done| |lia| |].
    + assert (is_zero v = false) as Hnz by (apply Hf; by rewrite lookup_drop). by apply Z.eqb_neq.
    + intros i Hi'. rewrite (proj2 (Z.leb_le start _)) by lia. by rewrite andb_true_r.
    + intros x Hx. apply Hz. lia.
  - apply lookup_ge_None in Hv. exists (Size b), (Size b). split; [done|]. right. split_and!; [done..|]. intros x Hx.
    destruct (Z.lt_ge_cases x (Size b)); [|apply bit_out; lia]. apply Hz. unfold Size, BITS_PER_WORD in *. lia.
Qed.

(** The last run below [end_]: its end, and the whole of it. *)
Record last_end b (end_ e : Z) : Prop := {
  le_bounds : 0 < e <= end_;
  le_after : forall x, e <= x < end_ -> bit b x = false;
  le_one : bit b (e - 1) = true
}.
Record last_run b (end_ s e : Z) : Prop := {
  lr_bounds : 0 <= s < e;
  lr_ones : forall x, s <= x < e -> bit b x = true;
  lr_before : bit b (s - 1) = false
}.

Lemma skip_down p b j i w : (j <= length b)%nat -> (i < skip_words p (reverse (take j b)))%nat -> b !! (j - 1 - i)%nat = Some w -> p w = true.
Proof.
  intros Hj Hi Hw. destruct (skip_words_spec p (reverse (take j b))) as (Hl & Ht & _). rewrite length_reverse, length_take in Hl.
  apply (Ht i); [done|]. rewrite reverse_lookup; rewrite length_take; [|lia]. rewrite lookup_take_lt by lia. by replace (Init.Nat.min j (length b) - S i)%nat with (j - 1 - i)%nat by lia.
Qed.

Lemma skip_down_stop p b j w : (j <= length b)%nat -> (skip_words p (reverse (take j b)) < j)%nat ->
  b !! (j - 1 - skip_words p (reverse (take j b)))%nat = Some w -> p w = false.
Proof.
  intros Hj Hi Hw. destruct (skip_words_spec p (reverse (take j b))) as (_ & _ & Hf).
  apply Hf. rewrite reverse_lookup; rewrite length_take; [|lia]. rewrite lookup_take_lt by lia.
  by replace (Init.Nat.min j (length b) - S (skip_words p (reverse (take j b))))%nat with (j - 1 - skip_words p (reverse (take j b)))%nat by lia.
Qed.

Lemma skip_down_le p b j : (j <= length b)%nat -> (skip_words p (reverse (take j b)) <= j)%nat.
Proof. intros Hj. destruct (skip_words_spec p (reverse (take j b))) as (Hl & _). rewrite length_reverse, length_take in Hl. lia. Qed.

(** The start of a run that reaches down to a word boundary, without the loop over fours. *)
Lemma find_start_bit_spec b j : bits_ok b -> (j <= length b)%nat -> let s := find_start_bit false b j in
  0 <= s <= 64 * Z.of_nat j /\ (forall x, s <= x < 64 * Z.of_nat j -> bit b x = true) /\ bit b (s - 1) = false.
Proof.
  intros Hok Hj. unfold find_start_bit. change (skip false is_zero is_ones (reverse (take j b))) with (skip_words is_ones (reverse (take j b))).
  pose proof (skip_down_le is_ones b j Hj) as Hn. pose proof (skip_down is_ones b j) as Hd. pose proof (skip_down_stop is_ones b j) as Hstop.
  set (n := skip_words is_ones (reverse (take j b))) in *.
  assert (Hones : forall x, 64 * Z.of_nat (j - n) <= x < 64 * Z.of_nat j -> bit b x = true).
  { intros x Hx. destruct (bit_Some b x) as (i & w & Hw & Hi); [unfold Size, BITS_PER_WORD; lia|]. rewrite (word_bits b i w x Hw Hi).
    assert (is_ones w = true) as ->%Z.eqb_eq by (apply (Hd (j - 1 - i)%nat); [done|lia|by replace (j - 1 - (j - 1 - i))%nat with i by lia]). apply testbit_max. lia. }
  destruct (j - n)%nat as [|i] eqn:Ei; cbv zeta.
  { split_and!; [lia|lia|intros x Hx; apply Hones; lia|]. apply bit_out. lia. }
  destruct (word_at b i) as (w & Hw & Hwu); [lia|done|]. rewrite Hw. change (default 0 (Some w)) with w. change BITS_PER_WORD with 64.
  destruct (count_while_spec (fun i => Z.testbit w (63 - i)) 64 0) as (Hc & Hct & Hcf). fold (countl_one w) in *. set (c := countl_one w) in *.
  assert (Hc64 : c < 64).
  { destruct (Z.lt_ge_cases c 64); [done|]. assert (is_ones w = false) as Hno by (apply Hstop; [done|lia|by replace (j - 1 - n)%nat with i by lia]).
    apply Z.eqb_neq in Hno. destruct Hno. apply u64_ext; [done|apply u64_max|]. intros k Hk. rewrite testbit_max by done.
    specialize (Hct (63 - k) ltac:(lia)). by replace (63 - (63 - k)) with k in Hct by lia. }
  split_and!; [lia|lia| |].
  - intros x Hx. destruct (Z.le_gt_cases (64 * Z.of_nat (S i)) x); [apply Hones; lia|]. rewrite (word_bits b i w) by (done || lia).
    specialize (Hct (63 - (x - 64 * Z.of_nat i)) ltac:(lia)). by replace (63 - (63 - (x - 64 * Z.of_nat i))) with (x - 64 * Z.of_nat i) in Hct by lia.
  - rewrite (word_bits b i w) by (done || lia). specialize (Hcf ltac:(lia)). by replace (Z.of_nat (S i) * 64 - c - 1 - 64 * Z.of_nat i) with (63 - (0 + c)) by lia.
Qed.

Lemma word_bits_down_spec avx b j w0 w end_ : bits_ok b -> b !! j = Some w0 -> is_u64 w -> w <> 0 -> 64 * Z.of_nat j < end_ ->
  (forall i, 0 <= i < 64 -> Z.testbit w i = Z.testbit w0 i && (64 * Z.of_nat j + i <? end_)) ->
  (forall x, 64 * (Z.of_nat j + 1) <= x < end_ -> bit b x = false) ->
  let r := word_bits_down avx b (j + 1) w in last_end b end_ (snd r) /\ (avx = false -> last_run b end_ (fst r) (snd r)).
Proof.
  intros Hok Hw0 Hu Hne He Hbits Hafter. destruct (high_run w Hu Hne) as (Hz & Ho & Hzo & Hhigh & Hones & Hnext). unfold word_bits_down, BITS_PER_WORD.
  set (z := countl_zero w) in *. set (o := countl_one (wrap64 (Z.shiftl w z))) in *. apply lookup_lt_Some in Hw0 as Hj.
  assert (Hwb : forall x, 64 * Z.of_nat j <= x < 64 * (Z.of_nat j + 1) -> x < end_ -> bit b x = Z.testbit w (x - 64 * Z.of_nat j)).
  { intros x Hx Hxe. rewrite (word_bits b j w0) by done. rewrite Hbits by lia. rewrite (proj2 (Z.ltb_lt _ end_)) by lia. by rewrite andb_true_r. }
  assert (Hin : forall i, 64 - z - o <= i < 64 - z -> 64 * Z.of_nat j + i < end_).
  { intros i Hi. specialize (Hones i Hi). rewrite Hbits in Hones by lia. by apply andb_true_iff in Hones as [_ ?%Z.ltb_lt]. }
  pose proof (Hin (63 - z) ltac:(lia)) as Htop.
  assert (Hle : last_end b end_ (Z.of_nat (j + 1) * 64 - z)).
  { split; [lia| |].
    - intros x Hx. destruct (Z.lt_ge_cases x (64 * (Z.of_nat j + 1))); [|apply Hafter; lia]. rewrite Hwb by lia. apply Hhigh. lia.
    - rewrite Hwb by lia. apply Hones. lia. }
  cbv zeta. destruct (Z.ltb_spec (z + o) 64); cbn [fst snd]; (split; [done|intros ->]).
  - split; [lia| |].
    + intros x Hx. rewrite Hwb by lia. apply Hones. lia.
    + rewrite Hwb by lia. replace (_ - _) with (63 - z - o) by lia. apply Hnext. lia.
  - replace (j + 1 - 1)%nat with j by lia. destruct (find_start_bit_spec b j Hok ltac:(lia)) as (Hs & Hst & Hsf). split; [lia| |done].
    intros x Hx. destruct (Z.lt_ge_cases x (64 * Z.of_nat j)); [apply Hst; lia|]. rewrite Hwb by lia. apply Hones. lia.
Qed.

Lemma LastRangeFrom_spec avx b end_ : bits_ok b -> 0 <= end_ <= Size b -> exists s e, LastRangeFrom avx b end_ = Some (s, e) /\
  (last_end b end_ e /\ (avx = false -> last_run b end_ s e) \/ s = 0 /\ e = 0 /\ forall x, x < end_ -> bit b x = false).
Proof.
  intros Hok He. unfold LastRangeFrom. destruct (Z.eqb_spec end_ 0) as [->|Hne0].
  { exists 0, 0. split; [done|]. right. split_and!; [done..|]. intros x Hx. apply bit_out. lia. }
  rewrite Z.min_l by lia. destruct (word_split (end_ - 1)) as [Ee Hi]; [lia|]. set (j := word_of (end_ - 1)) in *. set (eb := (end_ - 1) mod 64) in *.
  replace (j + 1 - 1)%nat with j by lia. change BITS_PER_WORD with 64. fold eb.
  destruct (word_at b j) as (w & Hw & Hwu); [apply word_of_lt; lia|done|]. unfold word. rewrite Hw. cbn [mbind option_bind].
  set (w1 := if eb <? 64 - 1 then Z.land w (low_bits (eb + 1)) else w).
  assert (Hmask : is_u64 w1 /\ forall i, 0 <= i < 64 -> Z.testbit w1 i = Z.testbit w i && (64 * Z.of_nat j + i <? end_)).
  { unfold w1. destruct (Z.ltb_spec eb (64 - 1)); (split; [auto with guest|intros i Hi']).
    - rewrite Z.land_spec, testbit_low_bits by lia. f_equal. destruct (Z.ltb_spec i (eb + 1)), (Z.ltb_spec (64 * Z.of_nat j + i) end_); (done || lia).
    - rewrite (proj2 (Z.ltb_lt _ end_)) by lia. by rewrite andb_true_r. }
  destruct Hmask as [Hu1 Hmask]. pose proof (lookup_lt_Some _ _ _ Hw) as Hj.
  destruct (Z.eqb_spec w1 0) as [E0|Hne]; cbn [negb].
  2:{ rewrite (surjective_pairing (word_bits_down _ _ _ _)). eexists _, _. split; [done|]. left.
      apply (word_bits_down_spec avx b j w w1 end_); [done|done|done|done|lia|done|lia]. }
  rewrite skip_same. pose proof (skip_down_le is_zero b j ltac:(lia)) as Hn. pose proof (skip_down is_zero b j) as Hd. pose proof (skip_down_stop is_zero b j) as Hstop.
  set (n := skip_words is_zero (reverse (take j b))) in *.
  assert (Hz : forall x, 64 * Z.of_nat (j - n) <= x < end_ -> bit b x = false).
  { intros x Hx. destruct (Z.lt_ge_cases x (64 * Z.of_nat j)) as [Hlt|Hge].
    - destruct (bit_Some b x) as (i & v & Hv & Hxi); [unfold Size, BITS_PER_WORD; lia|]. rewrite (word_bits b i v x Hv Hxi).
      assert (is_zero v = true) as ->%Z.eqb_eq by (apply (Hd (j - 1 - i)%nat); [lia|lia|by replace (j - 1 - (j - 1 - i))%nat with i by lia]). apply Z.bits_0.
    - rewrite (word_bits b j w) by (done || lia). pose proof (proj1 (u64_zero _ Hu1) E0 (x - 64 * Z.of_nat j) ltac:(lia)) as H0.
      rewrite Hmask in H0 by lia. rewrite (proj2 (Z.ltb_lt _ end_)) in H0 by lia. by rewrite andb_true_r in H0. }
  destruct (j - n)%nat as [|i] eqn:Ei.
  { exists 0, 0. split; [done|]. right. split_and!; [done..|]. intros x Hx. destruct (Z.lt_ge_cases x 0); [apply bit_out; lia|]. apply Hz. lia. }
  destruct (word_at b i) as (v & Hv & Hvu); [lia|done|]. rewrite Hv. cbn [mbind option_bind]. rewrite (surjective_pairing (word_bits_down _ _ _ _)).
  eexists _, _. split; [done|]. left. replace (S i) with (i + 1)%nat by lia. apply (word_bits_down_spec avx b i v v end_); [done|done|done| |lia| |].
  - assert (is_zero v = false) as Hnz by (apply Hstop; [lia|lia|by replace (j - 1 - n)%nat with i by lia]). by apply Z.eqb_neq.
  - intros k Hk. rewrite (proj2 (Z.ltb_lt _ end_)) by lia. by rewrite andb_true_r.
  - intros x Hx. apply Hz. lia.
Qed.

(** ** Single bits *)

Lemma one_bit w i : is_u64 w -> 0 <= i < 64 -> (Z.land w (Z.shiftl 1 i) =? 0) = negb (Z.testbit w i).
Proof.
  intros Hw Hi. rewrite Z.shiftl_1_l. apply eq_true_iff_eq. rewrite Z.eqb_eq, negb_true_iff, (u64_zero _ (u64_land w (2 ^ i) Hw)). split.
  - intros H. specialize (H i Hi). by rewrite Z.land_spec, Z.pow2_bits_true, andb_true_r in H by lia.
  - intros H k Hk. rewrite Z.land_spec, Z.pow2_bits_eqb by lia. destruct (Z.eqb_spec i k) as [->|]; [by rewrite H|apply andb_false_r].
Qed.

Lemma Get_spec b idx : bits_ok b -> 0 <= idx < Size b -> Get b idx = Some (bit b idx).
Proof.
  intros Hok Hi. unfold Get, word. destruct (word_split idx) as [E Hm]; [lia|]. destruct (word_at b (word_of idx) (word_of_lt b idx Hi) Hok) as (w & Hw & Hu).
  rewrite Hw. cbn [mbind option_bind]. rewrite one_bit by done. rewrite negb_involutive. f_equal. unfold bit. rewrite Hw. by destruct (Z.ltb_spec idx 0); [lia|].
Qed.

(** ** Iterating *)

(** The runs of set bits from [lo] on, in order. *)
Fixpoint runs_from b (lo : Z) (l : list Range) : Prop :=
  match l with
  | [] => forall x, lo <= x -> bit b x = false
  | (s, e) :: r => first_run b lo s e /\ runs_from b e r
  end.

Lemma ranges_from_spec avx b lo fuel s e : bits_ok b -> 0 <= lo ->
  (first_run b lo s e /\ Size b < Z.of_nat fuel + e \/ s = Size b /\ e = Size b /\ forall x, lo <= x -> bit b x = false) ->
  exists l, ranges_from avx b fuel (s, e) = Some l /\ runs_from b lo l.
Proof.
  intros Hok. revert lo s e. induction fuel as [|fuel IH]; intros lo s e Hlo [[Hrun Hf]|(-> & -> & Hno)].
  - pose proof (fr_end _ _ _ _ Hrun). lia.
  - exists []. split; [|done]. cbn [ranges_from]. by rewrite bool_decide_true.
  - pose proof (fr_bounds _ _ _ _ Hrun) as Hb. pose proof (fr_end _ _ _ _ Hrun) as He. cbn [ranges_from]. rewrite bool_decide_false by (intros [=]; lia). cbn [snd].
    destruct (FirstRangeFrom_spec avx b e Hok) as (s' & e' & -> & Hnext); [lia|]. cbn [mbind option_bind].
    destruct (IH e s' e') as (l & -> & Hl); [lia| |].
    { destruct Hnext as [Hn|Hn]; [left; pose proof (fr_bounds _ _ _ _ Hn); split; [done|lia]|by right]. }
    exists ((s, e) :: l). by split.
  - exists []. split; [|done]. cbn [ranges_from]. by rewrite bool_decide_true.
Qed.

Lemma ranges_spec avx b : bits_ok b -> exists l, ranges avx b = Some l /\ runs_from b 0 l.
Proof.
  intros Hok. unfold ranges. destruct (FirstRangeFrom_spec avx b 0 Hok) as (s & e & -> & Hf); [done|]. cbn [mbind option_bind].
  apply (ranges_from_spec avx b 0 _ s e Hok); [done|]. assert (0 <= Size b) by (unfold Size, BITS_PER_WORD; lia).
  destruct Hf as [Hf|Hf]; [left; pose proof (fr_bounds _ _ _ _ Hf); split; [done|lia]|by right].
Qed.

(** A maximal run of set bits. *)
Definition run b (r : Range) : Prop :=
  0 <= fst r < snd r /\ (forall x, fst r <= x < snd r -> bit b x = true) /\ bit b (fst r - 1) = false /\ bit b (snd r) = false.

Lemma runs_from_above b lo l : runs_from b lo l -> Forall (fun r => lo <= fst r) l.
Proof.
  revert lo. induction l as [|[s e] l IH]; intros lo; [by constructor|]. intros [Hf Hl]. pose proof (fr_bounds _ _ _ _ Hf) as Hb. constructor; [cbn; lia|].
  apply (Forall_impl _ _ _ (IH _ Hl)). intros r Hr. cbn in *. lia.
Qed.

Lemma runs_from_runs b lo l : 0 <= lo -> bit b (lo - 1) = false \/ bit b lo = false -> runs_from b lo l ->
  Forall (run b) l /\ StronglySorted (fun r r' => snd r < fst r') l.
Proof.
  revert lo. induction l as [|[s e] l IH]; intros lo Hlo Hsep; [by repeat constructor|]. intros [Hf Hl]. destruct Hf as [Hb He Hbef Hones Haft].
  destruct (IH e) as [Hr Hs]; [lia|by right|done|]. split; constructor; try done.
  - split_and!; cbn [fst snd]; [lia|lia|done| |done]. destruct (Z.eq_dec s lo) as [->|]; [|apply Hbef; lia].
    destruct Hsep as [|Hsep]; [done|]. rewrite Hones in Hsep by lia. done.
  - apply Forall_forall. intros r Hin. pose proof (proj1 (Forall_forall _ _) (runs_from_above _ _ _ Hl) r Hin) as Hge. cbn in Hge |- *.
    destruct (Z.eq_dec (fst r) e) as [E|]; [|lia]. pose proof (proj1 (Forall_forall _ _) Hr r Hin) as (Hfs & Ho & _). rewrite <- E in Haft. rewrite Ho in Haft by lia. done.
Qed.

Lemma runs_from_cover b lo l x : runs_from b lo l -> lo <= x -> bit b x = true <-> exists r, r ∈ l /\ fst r <= x < snd r.
Proof.
  revert lo. induction l as [|[s e] l IH]; intros lo; cbn [runs_from].
  - intros H Hx. rewrite (H x Hx). split; [done|]. intros (r & Hr & _). by apply not_elem_of_nil in Hr.
  - intros [[Hb He Hbef Hones Haft] Hl] Hx. destruct (Z.lt_ge_cases x e) as [Hlt|Hge].
    + destruct (Z.lt_ge_cases x s) as [Hls|Hgs].
      * rewrite Hbef by lia. split; [done|]. intros (r & [->|Hr]%elem_of_cons & Hrx); [cbn in Hrx; lia|].
        pose proof (proj1 (Forall_forall _ _) (runs_from_above _ _ _ Hl) r Hr). cbn in *. lia.
      * rewrite Hones by lia. split; [|done]. intros _. exists (s, e). split; [left|done].
    + rewrite (IH e Hl Hge). split; intros (r & Hr & Hrx); exists r; (split; [|done]); [by right|].
      apply elem_of_cons in Hr as [->|Hr]; [cbn in Hrx; lia|done].
Qed.

(** ** Tests and operators *)

Lemma foldl_lor_zero l w : foldl Z.lor w l = 0 <-> w = 0 /\ Forall (fun v => v = 0) l.
Proof.
  revert w. induction l as [|v l IH]; intros w; cbn; [by split; [intros ->; split; [|constructor]|intros [-> _]]|].
  rewrite IH, Z.lor_eq_0_iff, Forall_cons. tauto.
Qed.

Lemma None_spec b : bits_ok b -> None_ b = true <-> forall x, bit b x = false.
Proof.
  intros Hok. unfold None_. rewrite Z.eqb_eq, foldl_lor_zero. split.
  - intros [_ Hz] x. unfold bit. destruct (x <? 0); [done|]. destruct (b !! word_of x) as [w|] eqn:E; [|done].
    rewrite (Forall_lookup_1 _ _ _ _ Hz E). apply Z.bits_0.
  - intros H. split; [done|]. apply Forall_lookup_2. intros j w Hw. pose proof (Forall_lookup_1 _ _ _ _ Hok Hw) as Hu.
    apply u64_zero; [done|]. intros i Hi. rewrite <- (H (64 * Z.of_nat j + i)). by rewrite bit_word, Hw.
Qed.

Lemma Any_spec b : bits_ok b -> Any b = true <-> exists x, bit b x = true.
Proof.
  intros Hok. unfold Any. rewrite negb_true_iff. pose proof (None_spec b Hok) as Hn. destruct (None_ b).
  - split; [done|]. intros [x Hx]. rewrite (proj1 Hn eq_refl) in Hx. done.
  - split; [|done]. intros _. destruct (ranges_spec false b Hok) as (l & _ & Hl). destruct l as [|[s e] l].
    + exfalso. assert (false = true); [apply Hn|done]. intros x. destruct (Z.lt_ge_cases x 0); [apply bit_out; lia|by apply Hl].
    + destruct Hl as [[Hb _ _ Ho _] _]. exists s. apply Ho. lia.
Qed.

Lemma bits_ok_map f b : (forall w, is_u64 w -> is_u64 (f w)) -> bits_ok b -> bits_ok (map f b).
Proof. intros Hf Hok. apply Forall_map. apply (Forall_impl _ _ _ Hok). intros w Hw. by apply Hf. Qed.

Lemma Fill_spec b : length (Fill b) = length b /\ bits_ok (Fill b) /\ forall x, bit (Fill b) x = in_range 0 (Size b) x.
Proof.
  unfold Fill. rewrite length_map. split_and!; [done|apply Forall_map, Forall_true; intros; apply u64_max|]. intros x. unfold in_range.
  destruct (Z.leb_spec 0 x); [|by rewrite bit_out by lia]. destruct (Z.ltb_spec x (Size b)); [|by rewrite bit_out by (unfold Size in *; rewrite length_map; lia)].
  destruct (word_split x) as [E Hi]; [lia|]. rewrite E, bit_word by done. rewrite list_lookup_fmap.
  destruct (lookup_lt_is_Some_2 b _ (word_of_lt b x ltac:(lia))) as [w ->]. by apply testbit_max.
Qed.

Lemma not_spec b : bits_ok b -> length (not_ b) = length b /\ bits_ok (not_ b) /\ forall x, bit (not_ b) x = in_range 0 (Size b) x && negb (bit b x).
Proof.
  intros Hok. unfold not_. rewrite length_map. split_and!; [done|apply bits_ok_map; [apply u64_not|done]|]. intros x. unfold in_range.
  destruct (Z.leb_spec 0 x); [|by rewrite bit_out by lia]. destruct (Z.ltb_spec x (Size b)); [|by rewrite bit_out by (unfold Size in *; rewrite length_map; lia)].
  destruct (word_split x) as [E Hi]; [lia|]. rewrite E, !bit_word by done. rewrite list_lookup_fmap.
  destruct (lookup_lt_is_Some_2 b _ (word_of_lt b x ltac:(lia))) as [w ->]. by apply testbit_not64.
Qed.

Lemma zip_bits (op : Z -> Z -> Z) (f : bool -> bool -> bool) b other : (forall v w, is_u64 v -> is_u64 w -> is_u64 (op v w)) ->
  (forall v w i, Z.testbit (op v w) i = f (Z.testbit v i) (Z.testbit w i)) -> f false false = false -> bits_ok b -> bits_ok other -> length b = length other ->
  length (zip_with op b other) = length b /\ bits_ok (zip_with op b other) /\ forall x, bit (zip_with op b other) x = f (bit b x) (bit other x).
Proof.
  intros Hu Hb Hf Hok Hok' Hl. split_and!.
  - rewrite length_zip_with. lia.
  - apply Forall_lookup_2. intros j v. rewrite lookup_zip_with. destruct (b !! j) as [w|] eqn:E; [|done]. destruct (other !! j) as [w'|] eqn:E'; [|done].
    cbn. intros [= <-]. apply Hu; [exact (Forall_lookup_1 _ _ _ _ Hok E)|exact (Forall_lookup_1 _ _ _ _ Hok' E')].
  - intros x. unfold bit. destruct (x <? 0); [done|]. rewrite lookup_zip_with. destruct (b !! word_of x) as [w|] eqn:E.
    + destruct (lookup_lt_is_Some_2 other (word_of x)) as [w' ->]; [rewrite <- Hl; by eapply lookup_lt_Some|]. apply Hb.
    + rewrite (lookup_ge_None_2 other); [done|]. rewrite <- Hl. by apply lookup_ge_None.
Qed.

Lemma xor_spec b other : bits_ok b -> bits_ok other -> length b = length other ->
  length (xor_ b other) = length b /\ bits_ok (xor_ b other) /\ forall x, bit (xor_ b other) x = xorb (bit b x) (bit other x).
Proof. apply (zip_bits Z.lxor xorb); [exact u64_lxor|exact Z.lxor_spec|done]. Qed.

(** Arrays of one size are their bits. *)
Lemma bits_inj b other : bits_ok b -> bits_ok other -> length b = length other -> (forall x, bit b x = bit other x) -> b = other.
Proof.
  intros Hok Hok' Hl H. apply list_eq_same_length with (length b); [done|done|]. intros j v w Hj Hv Hw.
  apply u64_ext; [exact (Forall_lookup_1 _ _ _ _ Hok Hv)|exact (Forall_lookup_1 _ _ _ _ Hok' Hw)|]. intros i Hi.
  specialize (H (64 * Z.of_nat j + i)). by rewrite !bit_word, Hv, Hw in H.
Qed.

Lemma eq_spec b other : length b = length other -> eq_ b other = true <-> b = other.
Proof.
  unfold eq_, xor_. rewrite Z.eqb_eq, foldl_lor_zero. revert other. induction b as [|v b IH]; intros [|w other] Hl; cbn in *; try lia; [by split; [|split; [|constructor]]|].
  rewrite Forall_cons, Z.lxor_eq_0_iff. specialize (IH other ltac:(lia)). split.
  - intros (_ & -> & H). f_equal. by apply IH.
  - intros [= -> E]. split_and!; [done|done|]. by apply IH.
Qed.

(** Changing one word changes the bits of that word. *)
Lemma bit_edit b j w v x : b !! j = Some w -> bit (<[j:=v]> b) x = if (0 <=? x) && bool_decide (word_of x = j) then Z.testbit v (x mod 64) else bit b x.
Proof.
  intros Hw. unfold bit. destruct (Z.ltb_spec x 0), (Z.leb_spec 0 x); try lia; [done|]. cbn [andb]. case_bool_decide as E.
  - rewrite E, list_lookup_insert_eq; [done|]. by apply lookup_lt_Some in Hw.
  - by rewrite list_lookup_insert_ne.
Qed.

Lemma testbit_one m i : 0 <= m -> 0 <= i -> Z.testbit (Z.shiftl 1 m) i = (i =? m).
Proof.
  intros Hm Hi. rewrite Z.shiftl_spec by done. destruct (Z.eqb_spec i m) as [->|]; [by rewrite Z.sub_diag|].
  destruct (Z.lt_ge_cases i m); [by rewrite Z.testbit_neg_r by lia|]. change 1 with (2 ^ 0). apply Z.pow2_bits_false. lia.
Qed.

Lemma same_word_bit idx x : 0 <= idx -> 0 <= x -> word_of x = word_of idx -> (x mod 64 =? idx mod 64) = (x =? idx).
Proof.
  intros Hi Hx E. destruct (word_split idx Hi) as [E1 _], (word_split x Hx) as [E2 _]. rewrite E in E2. destruct (Z.eqb_spec (x mod 64) (idx mod 64)), (Z.eqb_spec x idx); (done || lia).
Qed.

(** [Set] and [Unset] change their bit alone. *)
Lemma Set_spec b idx : bits_ok b -> 0 <= idx < Size b -> exists b', Set_ b idx = Some b' /\ bits_ok b' /\ length b' = length b /\ forall x, bit b' x = (x =? idx) || bit b x.
Proof.
  intros Hok Hi. destruct (word_split idx) as [E Hm]; [lia|]. destruct (word_at b (word_of idx) (word_of_lt b idx Hi) Hok) as (w & Hw & Hu).
  unfold Set_. rewrite (edit_word_spec b _ _ w Hw). eexists. split; [done|]. unfold BITS_PER_WORD. split_and!; [|by rewrite length_insert|].
  - apply Forall_insert; [done|]. apply u64_lor; [done|]. apply u64_of_bits; [apply Z.shiftl_nonneg; lia|]. intros i Hi'. rewrite testbit_one by lia. apply Z.eqb_neq. lia.
  - intros x. rewrite (bit_edit b _ w) by done. destruct (Z.leb_spec 0 x) as [Hx|Hx]; cbn [andb].
    + case_bool_decide as Ew.
      * rewrite Z.lor_spec, testbit_one, same_word_bit by (done || lia || (apply Z.mod_pos_bound; lia)). rewrite orb_comm. f_equal. unfold bit. rewrite Ew, Hw. by destruct (Z.ltb_spec x 0); [lia|].
      * destruct (Z.eqb_spec x idx) as [->|]; done.
    + destruct (Z.eqb_spec x idx); [lia|done].
Qed.

Lemma Unset_spec b idx : bits_ok b -> 0 <= idx < Size b -> exists b', Unset b idx = Some b' /\ bits_ok b' /\ length b' = length b /\ forall x, bit b' x = negb (x =? idx) && bit b x.
Proof.
  intros Hok Hi. destruct (word_split idx) as [E Hm]; [lia|]. destruct (word_at b (word_of idx) (word_of_lt b idx Hi) Hok) as (w & Hw & Hu).
  unfold Unset. rewrite (edit_word_spec b _ _ w Hw). eexists. split; [done|]. unfold BITS_PER_WORD. split_and!; [|by rewrite length_insert|].
  - apply Forall_insert; [done|]. by apply u64_land.
  - intros x. rewrite (bit_edit b _ w) by done. destruct (Z.leb_spec 0 x) as [Hx|Hx]; cbn [andb].
    + case_bool_decide as Ew.
      * pose proof (Z.mod_pos_bound x 64 ltac:(lia)). rewrite Z.land_spec, testbit_not64, testbit_one, same_word_bit by (done || lia). rewrite andb_comm. f_equal. unfold bit. rewrite Ew, Hw.
        by destruct (Z.ltb_spec x 0); [lia|].
      * destruct (Z.eqb_spec x idx) as [->|]; done.
    + destruct (Z.eqb_spec x idx); [lia|done].
Qed.

(** * Properties *)

(** The edits of a range of bits, word by word and with masks, in either form of the loops:
    none of them leaves the array; setting and clearing change the bits of the range and no
    other, copying a range gives the bits of the range and zeroes around them; an end beyond the
    array makes them do nothing (the copy is empty). *)
Theorem range_edits_exact avx b start end_ : bits_ok b -> 0 <= start ->
  exists set unset copy, SetRange avx b start end_ = Some set /\ UnsetRange avx b start end_ = Some unset /\ copy_range avx b start end_ = Some copy /\
  bits_ok set /\ bits_ok unset /\ bits_ok copy /\ length set = length b /\ length unset = length b /\ length copy = length b /\
  forall x, let inside := (end_ <=? Size b) && in_range start end_ x in
    bit set x = bit b x || inside /\ bit unset x = bit b x && negb inside /\ bit copy x = bit b x && inside.
Proof.
  intros Hok Hs. destruct (SetRange_spec avx b start end_ Hok Hs) as (u & -> & Hu & Hu'), (UnsetRange_spec avx b start end_ Hok Hs) as (v & -> & Hv & Hv'),
    (copy_range_spec avx b start end_ Hok Hs) as (c & -> & Hcl & Hcok & Hc & Hc'). exists u, v, c.
  destruct (Z.leb_spec end_ (Size b)) as [He|He].
  - destruct (Hu He) as [? ? Hub], (Hv He) as [? ? Hvb]. split_and!; try done. intros x. cbn [andb]. rewrite Hub, Hvb, (Hc He).
    destruct (in_range start end_ x), (bit b x); split_and!; done.
  - rewrite (Hu' He), (Hv' He) in *. split_and!; try done. intros x. cbn [andb]. rewrite (Hc' He). destruct (bit b x); split_and!; done.
Qed.

(** C26. Iterating over an array ends, after finitely many calls of [FirstRangeFrom], with the
    maximal runs of set bits in ascending order: each range is a run that cannot be extended,
    the ranges do not touch, and together they are exactly the bits that are set. *)
Theorem ranges_exact avx b : bits_ok b -> exists l, ranges avx b = Some l /\
  Forall (run b) l /\ StronglySorted (fun r r' => snd r < fst r') l /\
  forall x, bit b x = true <-> exists r, r ∈ l /\ fst r <= x < snd r.
Proof.
  intros Hok. destruct (ranges_spec avx b Hok) as (l & -> & Hl). exists l.
  destruct (runs_from_runs b 0 l) as [Hr Hs]; [done|left; apply bit_out; lia|done|]. split_and!; [done|done|done|].
  intros x. destruct (Z.lt_ge_cases x 0); [|by apply (runs_from_cover b 0)]. rewrite bit_out by lia. split; [done|].
  intros (r & Hin & Hx). pose proof (proj1 (Forall_forall _ _) Hr r Hin) as (Hb & _). lia.
Qed.

(** An array whose only run is its last word. *)
Definition last_word : BitArray := [0; 0; 0; 0; 0; U64_MAX].

(** [LastRangeFrom] finds the end of the last run below a bit, or that there is none, and
    written with single words it finds the run. With the loop over fours the start can be
    wrong: that loop passes over zero words where it should pass over words of ones. *)
Theorem LastRangeFrom_exact avx b end_ : bits_ok b -> 0 <= end_ <= Size b ->
  (exists s e, LastRangeFrom avx b end_ = Some (s, e) /\
    (last_end b end_ e /\ (avx = false -> last_run b end_ s e) \/ s = 0 /\ e = 0 /\ forall x, x < end_ -> bit b x = false)) /\
  LastRange false last_word = Some (320, 384) /\ LastRange true last_word = Some (64, 384).
Proof. intros Hok He. split; [by apply LastRangeFrom_spec|]. split; reflexivity. Qed.

(** ** Witnesses *)

Definition bits_1 : BitArray := [0xF0; 0; 0; U64_MAX; 0xFF; 0x8000000000000000].

Lemma bits_1_ok : bits_ok bits_1.
Proof. repeat constructor; u64_lia. Qed.

Lemma range_edits_exact_witness : exists set, SetRange true bits_1 60 200 = Some set /\ bit set 70 = true /\ bit set 200 = true.
Proof.
  destruct (range_edits_exact true bits_1 60 200 bits_1_ok) as (s & u & c & E & _ & _ & _ & _ & _ & _ & _ & _ & H); [lia|]. exists s.
  split; [exact E|]. split; [rewrite (proj1 (H 70))|rewrite (proj1 (H 200))]; reflexivity.
Defined.

Lemma ranges_exact_witness : ranges true bits_1 = Some [(4, 8); (192, 264); (383, 384)] /\ exists r, r ∈ [(4, 8); (192, 264); (383, 384)] /\ fst r <= 255 < snd r.
Proof.
  destruct (ranges_exact true bits_1 bits_1_ok) as (l & E & _ & _ & H). assert (El : ranges true bits_1 = Some [(4, 8); (192, 264); (383, 384)]) by reflexivity.
  split; [exact El|]. rewrite El in E. injection E as <-. apply H. reflexivity.
Defined.

Lemma LastRangeFrom_exact_witness : LastRangeFrom false bits_1 264 = Some (192, 264) /\ last_run bits_1 264 192 264.
Proof.
  assert (E : LastRangeFrom false bits_1 264 = Some (192, 264)) by reflexivity. split; [exact E|].
  destruct (LastRangeFrom_exact false bits_1 264 bits_1_ok) as ((s & e & E' & H) & _); [vm_compute; split; discriminate|].
  rewrite E in E'. injection E' as <- <-. destruct H as [[_ H]|(H & _)]; [by apply H|discriminate H].
Defined.
