(* ===== verification/PageManager.v ===== *)
(** The page watchers: src/src/video_core/page_manager.cpp.

    Each page counts who watches its writes and who watches its reads; the host protects the
    page against what is watched. [UpdatePageWatchers] and [UpdatePageWatchersForRegion] change
    the counts of many pages and protect ranges of pages with as few calls as they can. The
    calls are recorded, newest first. An operation returns [None] where the code fails an
    assertion or leaves the array of pages. The locks and the test whether the range is mapped,
    which only logs, are left out; the protection is the one without userfaultfd. *)
From Stdlib Require Import ZArith Lia.
From stdpp Require Import base gmap list list_numbers.
From S2P Require Import Prelude.
From S2P Require Import BitArray.

Definition PM_PAGE_BITS : Z := 12.
Definition PM_PAGE_SIZE : Z := 4096.
Definition ADDRESS_BITS : Z := 40.
Definition NUM_ADDRESS_PAGES : Z := Z.shiftl 1 (ADDRESS_BITS - PM_PAGE_BITS).

(** [MemoryPermission] *)
Definition PermNone : Z := 0.
Definition PermRead : Z := 1.
Definition PermWrite : Z := 2.

(** Bit fields of seven bits and of one. *)
Record PageState := mkPageState { num_write_watchers : Z; num_read_watchers : Z }.
#[export] Instance eta_PageState : Eta PageState := fun s => mkPageState (num_write_watchers s) (num_read_watchers s).

Definition WritePerm (s : PageState) : Z := if num_write_watchers s =? 0 then PermWrite else PermNone.
Definition ReadPerm (s : PageState) : Z := if num_read_watchers s =? 0 then PermRead else PermNone.
Definition Perms (s : PageState) : Z := Z.lor (ReadPerm s) (WritePerm s).

(** The state after the change, and the new count. *)
Definition AddDelta (delta : Z) (is_read : bool) (s : PageState) : option (PageState * Z) :=
  if is_read then
    if delta =? 1 then let n := (num_read_watchers s + 1) mod 2 in Some (s <| num_read_watchers := n |>, n)
    else if delta =? -1 then
      if 0 <? num_read_watchers s then let n := num_read_watchers s - 1 in Some (s <| num_read_watchers := n |>, n) else None
    else Some (s, num_read_watchers s)
  else
    if delta =? 1 then let n := (num_write_watchers s + 1) mod 128 in Some (s <| num_write_watchers := n |>, n)
    else if delta =? -1 then
      if 0 <? num_write_watchers s then let n := num_write_watchers s - 1 in Some (s <| num_write_watchers := n |>, n) else None
    else Some (s, num_write_watchers s).

(** The array of the pages that were ever touched, and the calls of [Protect]: the address, the
    size and the permission. *)
Record Pages := mkPages { cached_pages : gmap Z PageState; protects : list (Z * Z * Z) }.
#[export] Instance eta_Pages : Eta Pages := fun s => mkPages (cached_pages s) (protects s).

Definition no_watchers : PageState := mkPageState 0 0.
Definition page_state (s : Pages) (page : Z) : PageState := default no_watchers (cached_pages s !! page).
(** [cached_pages[page]] *)
Definition cached (s : Pages) (page : Z) : option PageState :=
  if (0 <=? page) && (page <? NUM_ADDRESS_PAGES) then Some (page_state s page) else None.

Definition Protect (address size perms : Z) (s : Pages) : option Pages :=
  if perms =? PermWrite then None else Some (s <| protects ::= cons (address, size, perms) |>).

(** The locals of the loops. *)
Record Pending := mkPending { perms : Z; range_begin : Z; range_bytes : Z; potential_range_bytes : Z }.
#[export] Instance eta_Pending : Eta Pending := fun p => mkPending (perms p) (range_begin p) (range_bytes p) (potential_range_bytes p).

Definition release_pending (p : Pending) (s : Pages) : option (Pending * Pages) :=
  if 0 <? range_bytes p then
    s ← Protect (Z.shiftl (range_begin p) PM_PAGE_BITS) (range_bytes p) (perms p) s;
    Some (p <| range_bytes := 0 |> <| potential_range_bytes := 0 |>, s)
  else Some (p, s).

(** One turn of the loops: [update] says whether the page is in the mask. *)
Definition watch_page (track is_read update : bool) (page : Z) (p : Pending) (s : Pages) : option (Pending * Pages) :=
  state ← cached s page;
  '(state, new_count) ← AddDelta (if update then (if track then 1 else -1) else 0) is_read state;
  let s := s <| cached_pages ::= <[page:=state]> |> in
  let new_perms := Perms state in
  '(p, s) ← (if negb (new_perms =? perms p) then
               '(p, s) ← release_pending p s;
               Some (p <| perms := new_perms |>, s)
             else if negb (range_bytes p =? 0) then Some (p <| potential_range_bytes ::= fun n => n + PM_PAGE_SIZE |>, s)
             else Some (p, s));
  if negb update then Some (p, s) else
  if (new_count =? 0) && negb track || (new_count =? 1) && track then
    let p := if range_bytes p =? 0 then p <| range_begin := page |> <| potential_range_bytes := PM_PAGE_SIZE |> else p in
    Some (p <| range_bytes := potential_range_bytes p |>, s)
  else Some (p, s).

(** The loop over [n] pages from [page] on. *)
Fixpoint watch_loop (track is_read : bool) (update : Z -> option bool) (n : nat) (page : Z) (p : Pending) (s : Pages) : option (Pending * Pages) :=
  match n with
  | O => Some (p, s)
  | S n =>
      u ← update page;
      '(p, s) ← watch_page track is_read u page p s;
      watch_loop track is_read update n (page + 1) p s
  end.

Definition watch_pages (track is_read : bool) (update : Z -> option bool) (n : nat) (page : Z) (s : Pages) : option Pages :=
  first ← cached s page;
  '(p, s) ← watch_loop track is_read update n page (mkPending (Perms first) 0 0 0) s;
  '(_, s) ← release_pending p s;
  Some s.

Definition DivCeil (number divisor : Z) : Z := (number +64 divisor -64 1) / divisor.

(** When the last page comes before the first, the loop runs out of the array. *)
Definition UpdatePageWatchers (track is_read : bool) (addr size : Z) (s : Pages) : option Pages :=
  let page := Z.shiftr addr PM_PAGE_BITS in
  let page_end := DivCeil (addr +64 size) PM_PAGE_SIZE in
  if page_end <? page then None else watch_pages track is_read (fun _ => Some true) (Z.to_nat (page_end - page)) page s.

Definition PAGES_PER_LOCK : Z := 1024.

Definition UpdatePageWatchersForRegion (avx track is_read : bool) (base_addr : Z) (mask : BitArray) (s : Pages) : option Pages :=
  start_range ← FirstRange avx mask;
  end_range ← LastRange avx mask;
  if snd start_range =? snd end_range then
    let start_addr := base_addr +64 Z.shiftl (fst start_range) PM_PAGE_BITS in
    let size := Z.shiftl (snd start_range - fst start_range) PM_PAGE_BITS in
    UpdatePageWatchers track is_read start_addr size s
  else
    let base_page := Z.shiftr base_addr PM_PAGE_BITS in
    if negb (base_page mod PAGES_PER_LOCK =? 0) then None else
    watch_pages track is_read (fun page => Get mask (page - base_page)) (Z.to_nat (snd end_range - fst start_range))
      (base_page + fst start_range) s.

(** * What the counts stand for *)

(** A page with one watcher more or less. *)
Definition watch (track is_read : bool) (s : PageState) : PageState :=
  let d := if track then 1 else -1 in
  if is_read then s <| num_read_watchers ::= fun n => n + d |> else s <| num_write_watchers ::= fun n => n + d |>.

(** The count has room, and the page does not become write-only, which the host cannot do. *)
Definition can_watch (track is_read : bool) (s : PageState) : Prop :=
  (if is_read then (if track then num_read_watchers s = 0 else num_read_watchers s = 1)
   else if track then 0 <= num_write_watchers s < 127 else 0 < num_write_watchers s) /\
  Perms (watch track is_read s) <> PermWrite.

(** The permission of each page on the host: what it was, and the calls since. *)
Definition protected_by (host : Z -> Z) (c : Z * Z * Z) (q : Z) : Z :=
  let '(address, size, perms) := c in
  if (address <=? q * PM_PAGE_SIZE) && (q * PM_PAGE_SIZE <? address + size) then perms else host q.
Definition host_after (host : Z -> Z) (s : Pages) (q : Z) : Z := foldr (fun c h => protected_by h c) host (protects s) q.

Definition synced (host : Z -> Z) (s : Pages) (q : Z) : Prop := host_after host s q = Perms (page_state s q).

Lemma page_state_insert s page st q : page_state (s <| cached_pages ::= <[page:=st]> |>) q = if q =? page then st else page_state s q.
Proof.
  unfold page_state. cbn. destruct (Z.eqb_spec q page) as [->|]; [by rewrite lookup_insert_eq|by rewrite lookup_insert_ne by congruence].
Qed.

Lemma host_after_insert host s page st q : host_after host (s <| cached_pages ::= <[page:=st]> |>) q = host_after host s q.
Proof. done. Qed.

Definition crossing (track : bool) (new_count : Z) : bool := (new_count =? 0) && negb track || (new_count =? 1) && track.

(** The permission changes exactly when a count leaves or reaches zero. *)
Lemma AddDelta_spec track is_read s : can_watch track is_read s ->
  exists n, AddDelta (if track then 1 else -1) is_read s = Some (watch track is_read s, n) /\
    (crossing track n = false -> Perms (watch track is_read s) = Perms s).
Proof.
  unfold can_watch, AddDelta, watch, crossing. destruct s as [w r]. destruct is_read, track; cbn; intros [Hc _].
  - subst r. exists 1. by split.
  - subst r. exists 0. by split.
  - rewrite Z.mod_small by lia. exists (w + 1). split; [done|]. destruct (Z.eqb_spec (w + 1) 1); [by rewrite orb_true_r|]. intros _. unfold Perms, ReadPerm, WritePerm. cbn.
    destruct (Z.eqb_spec (w + 1) 0), (Z.eqb_spec w 0); (done || lia).
  - destruct (Z.ltb_spec 0 w); [|lia]. exists (w + -1). split; [by replace (w - 1) with (w + -1) by lia|]. destruct (Z.eqb_spec (w + -1) 0); [done|].
    intros _. unfold Perms, ReadPerm, WritePerm. cbn. destruct (Z.eqb_spec (w + -1) 0), (Z.eqb_spec w 0); (done || lia).
Qed.

Lemma AddDelta_zero is_read s : exists n, AddDelta 0 is_read s = Some (s, n).
Proof. unfold AddDelta. destruct is_read; eauto. Qed.

(** ** One turn *)

(** The state of the loop before the page [cur]: the pages from [first] on are done, except for
    a pending range, whose pages share the permission they will get. *)
Record loop_inv (host : Z -> Z) (first cur : Z) (p : Pending) (s : Pages) : Prop := {
  li_sizes : 0 < range_bytes p -> exists k, 0 < k <= cur - range_begin p /\ range_bytes p = PM_PAGE_SIZE * k /\
    potential_range_bytes p = PM_PAGE_SIZE * (cur - range_begin p) /\ first <= range_begin p;
  li_zero : 0 <= range_bytes p;
  li_perms : 0 < range_bytes p -> perms p <> PermWrite /\ forall q, range_begin p <= q < cur -> Perms (page_state s q) = perms p;
  li_done : forall q, first <= q < cur -> ~ (0 < range_bytes p /\ range_begin p * PM_PAGE_SIZE <= q * PM_PAGE_SIZE < range_begin p * PM_PAGE_SIZE + range_bytes p) ->
    synced host s q
}.

Lemma host_after_cons host s c q : host_after host (s <| protects ::= cons c |>) q = protected_by (host_after host s) c q.
Proof. done. Qed.

(** Releasing brings every page that is done in order, and touches no other. *)
Lemma release_pending_spec host first cur p s : loop_inv host first cur p s ->
  exists p' s', release_pending p s = Some (p', s') /\ range_bytes p' = 0 /\ perms p' = perms p /\ cached_pages s' = cached_pages s /\
    (forall q, first <= q < cur -> synced host s' q) /\ (forall q, ~ (first <= q < cur) -> host_after host s' q = host_after host s q).
Proof.
  intros [Hs Hz Hp Hd]. unfold release_pending. destruct (Z.ltb_spec 0 (range_bytes p)) as [Hpos|Hno].
  2:{ exists p, s. split_and!; [done|lia|done|done| |done]. intros q Hq. apply Hd; [done|lia]. }
  destruct (Hs Hpos) as (k & Hk & Ek & _ & Hf). destruct (Hp Hpos) as [Hw Hperm]. unfold Protect. destruct (Z.eqb_spec (perms p) PermWrite); [done|]. cbn [mbind option_bind].
  eexists _, _. split_and!; [done|done|done|done| |].
  - intros q Hq. unfold synced. rewrite host_after_cons. unfold protected_by, PM_PAGE_BITS. rewrite Z.shiftl_mul_pow2 by done. change (2 ^ 12) with PM_PAGE_SIZE.
    change (page_state (s <| protects ::= _ |>) q) with (page_state s q). destruct (Z.leb_spec (range_begin p * PM_PAGE_SIZE) (q * PM_PAGE_SIZE)), (Z.ltb_spec (q * PM_PAGE_SIZE) (range_begin p * PM_PAGE_SIZE + range_bytes p)); cbn [andb];
      try (apply Hd; [done|lia]). symmetry. apply Hperm. unfold PM_PAGE_SIZE in *. lia.
  - intros q Hq. rewrite host_after_cons. unfold protected_by, PM_PAGE_BITS. rewrite Z.shiftl_mul_pow2 by done. change (2 ^ 12) with PM_PAGE_SIZE.
    destruct (Z.leb_spec (range_begin p * PM_PAGE_SIZE) (q * PM_PAGE_SIZE)), (Z.ltb_spec (q * PM_PAGE_SIZE) (range_begin p * PM_PAGE_SIZE + range_bytes p)); cbn [andb]; try done.
    unfold PM_PAGE_SIZE in *. lia.
Qed.

(** After the first half of a turn: the pending range, if there is one, can be extended over the page. *)
Record mid_inv (host : Z -> Z) (first cur : Z) (p : Pending) (s : Pages) : Prop := {
  mi_zero : 0 <= range_bytes p;
  mi_sizes : 0 < range_bytes p -> exists k, 0 < k <= cur - range_begin p /\ range_bytes p = PM_PAGE_SIZE * k /\
    potential_range_bytes p = PM_PAGE_SIZE * (cur + 1 - range_begin p) /\ first <= range_begin p;
  mi_perms : 0 < range_bytes p -> perms p <> PermWrite /\ forall q, range_begin p <= q < cur -> Perms (page_state s q) = perms p;
  mi_page : Perms (page_state s cur) = perms p;
  mi_done : forall q, first <= q < cur -> ~ (0 < range_bytes p /\ range_begin p * PM_PAGE_SIZE <= q * PM_PAGE_SIZE < range_begin p * PM_PAGE_SIZE + range_bytes p) ->
    synced host s q
}.

Lemma first_half host first cur p s new_perms : loop_inv host first cur p s -> Perms (page_state s cur) = new_perms ->
  exists p' s', (if negb (new_perms =? perms p) then
       '(p, s) ← release_pending p s;
       Some (p <| perms := new_perms |>, s)
     else if negb (range_bytes p =? 0) then Some (p <| potential_range_bytes ::= fun n => n + PM_PAGE_SIZE |>, s)
     else Some (p, s)) = Some (p', s') /\
    mid_inv host first cur p' s' /\ cached_pages s' = cached_pages s /\ (forall q, ~ (first <= q < cur) -> host_after host s' q = host_after host s q).
Proof.
  intros Hinv Hnp. destruct (Z.eqb_spec new_perms (perms p)) as [E|E]; cbn [negb].
  - destruct Hinv as [Hs Hz Hp Hd]. destruct (Z.eqb_spec (range_bytes p) 0) as [E0|E0]; cbn [negb].
    + exists p, s. split_and!; [done| |done|done]. split; try (done || congruence); intros; lia.
    + eexists _, s. split_and!; [done| |done|done]. destruct Hs as (k & Hk & Ek & Ep & Hf); [lia|]. split; cbn; try (done || congruence).
      intros _. exists k. split_and!; try done; lia.
  - destruct (release_pending_spec host first cur p s Hinv) as (p1 & s1 & -> & Hr & _ & Hc & Hsy & Hh). cbn [mbind option_bind].
    eexists _, s1. split_and!; [done| |done|done]. split; cbn; rewrite ?Hr; try (done || lia).
    + unfold page_state in *. by rewrite Hc.
    + intros q Hq _. by apply Hsy.
Qed.

Lemma mid_same host first cur p s : mid_inv host first cur p s -> synced host s cur -> first <= cur -> loop_inv host first (cur + 1) p s.
Proof.
  intros [Hz Hs Hp Hpg Hd] Hsy Hf. split; [|done| |].
  - intros H. destruct (Hs H) as (k & Hk & Ek & Ep & Hb). exists k. split_and!; (done || lia).
  - intros H. destruct (Hp H) as [Hw Hq]. split; [done|]. intros q Hq'. destruct (Z.eq_dec q cur) as [->|]; [done|]. apply Hq. lia.
  - intros q Hq Hno. destruct (Z.eq_dec q cur) as [->|]; [done|]. apply Hd; [lia|done].
Qed.

Lemma mid_grow host first cur p s : mid_inv host first cur p s -> first <= cur -> Perms (page_state s cur) <> PermWrite ->
  let p1 := if range_bytes p =? 0 then p <| range_begin := cur |> <| potential_range_bytes := PM_PAGE_SIZE |> else p in
  loop_inv host first (cur + 1) (p1 <| range_bytes := potential_range_bytes p1 |>) s.
Proof.
  intros [Hz Hs Hp Hpg Hd] Hf Hw. destruct (Z.eqb_spec (range_bytes p) 0) as [E|E]; cbv zeta.
  - split; cbn.
    + intros _. exists 1. split_and!; lia.
    + done.
    + intros _. split; [congruence|]. intros q Hq. by replace q with cur by lia.
    + intros q Hq Hno. apply Hd; [|lia]. unfold PM_PAGE_SIZE in *. destruct (Z.eq_dec q cur) as [->|]; lia.
  - destruct Hs as (k & Hk & Ek & Ep & Hb); [lia|]. destruct Hp as [_ Hq]; [lia|]. split; cbn; rewrite ?Ep.
    + intros _. exists (cur + 1 - range_begin p). split_and!; (done || lia).
    + unfold PM_PAGE_SIZE. lia.
    + intros _. split; [congruence|]. intros q Hq'. destruct (Z.eq_dec q cur) as [->|]; [done|]. apply Hq. lia.
    + intros q Hq' Hno. apply Hd; unfold PM_PAGE_SIZE in *; lia.
Qed.

Lemma synced_same host s s' q : page_state s' q = page_state s q -> host_after host s' q = host_after host s q -> synced host s' q <-> synced host s q.
Proof. unfold synced. by intros -> ->. Qed.

Definition update_page (track is_read u : bool) (st : PageState) : PageState := if u then watch track is_read st else st.

Lemma watch_page_spec host first cur p s track is_read u : loop_inv host first cur p s -> first <= cur -> 0 <= cur < NUM_ADDRESS_PAGES ->
  synced host s cur -> (u = true -> can_watch track is_read (page_state s cur)) ->
  exists p' s', watch_page track is_read u cur p s = Some (p', s') /\ loop_inv host first (cur + 1) p' s' /\
    (forall q, page_state s' q = if q =? cur then update_page track is_read u (page_state s cur) else page_state s q) /\
    (forall q, ~ (first <= q < cur) -> host_after host s' q = host_after host s q).
Proof.
  intros Hinv Hf Hc Hsy Hcan. unfold watch_page, cached. rewrite (proj2 (Z.leb_le _ _)), (proj2 (Z.ltb_lt _ _)) by lia. cbn [andb mbind option_bind].
  assert (Hdelta : exists st n, AddDelta (if u then if track then 1 else -1 else 0) is_read (page_state s cur) = Some (st, n) /\
    st = update_page track is_read u (page_state s cur) /\ (u && crossing track n = false -> Perms st = Perms (page_state s cur)) /\ (u = true -> Perms st <> PermWrite)).
  { destruct u.
    - destruct (AddDelta_spec track is_read (page_state s cur) (Hcan eq_refl)) as (n & E & Hn). exists (watch track is_read (page_state s cur)), n.
      split_and!; [done|done|done|intros _; apply (Hcan eq_refl)].
    - destruct (AddDelta_zero is_read (page_state s cur)) as (n & E). exists (page_state s cur), n. by split_and!. }
  destruct Hdelta as (st & n & -> & Est & Hsame & Hnw). cbn [mbind option_bind]. set (s1 := s <| cached_pages ::= <[cur:=st]> |>).
  assert (Hs1 : forall q, page_state s1 q = if q =? cur then st else page_state s q) by apply page_state_insert.
  assert (Hcur : page_state s1 cur = st) by (by rewrite Hs1, Z.eqb_refl).
  assert (Hinv1 : loop_inv host first cur p s1).
  { destruct Hinv as [H1 H2 H3 H4]. split; try done.
    - intros H. destruct (H3 H) as [Hw Hq]. split; [done|]. intros q Hq'. rewrite Hs1. destruct (Z.eqb_spec q cur); [lia|]. by apply Hq.
    - intros q Hq Hno. apply (synced_same host s s1); [rewrite Hs1; by destruct (Z.eqb_spec q cur); [lia|]|done|by apply H4]. }
  destruct (first_half host first cur p s1 (Perms st) Hinv1) as (p2 & s2 & E2 & Hmid & Hc2 & Hh2); [by rewrite Hcur|].
  assert (Hps : forall q, page_state s2 q = page_state s1 q) by (intros q; unfold page_state; by rewrite Hc2).
  assert (Hpage : forall q, page_state s2 q = if q =? cur then update_page track is_read u (page_state s cur) else page_state s q) by (intros q; by rewrite Hps, Hs1, Est).
  assert (Hhost : forall q, ~ (first <= q < cur) -> host_after host s2 q = host_after host s q) by (intros q Hq; by rewrite Hh2).
  assert (Hend : loop_inv host first (cur + 1) p2 s2 \/ Perms st <> Perms (page_state s cur)).
  { destruct (Z.eq_dec (Perms st) (Perms (page_state s cur))) as [E|]; [left|by right]. apply mid_same; [done| |done].
    unfold synced in *. rewrite Hhost by lia. rewrite Hps, Hcur. congruence. }
  rewrite E2. cbn [mbind option_bind].
  change ((n =? 0) && negb track || (n =? 1) && track) with (crossing track n). destruct u; cbn [negb andb] in *.
  2:{ exists p2, s2. split_and!; [done| |done|done]. destruct Hend as [|Hne]; [done|]. by destruct Hne; apply Hsame. }
  destruct (crossing track n).
  - eexists _, s2. split_and!; [done| |done|done]. apply mid_grow; [done|done|]. rewrite Hps, Hcur. by apply Hnw.
  - exists p2, s2. split_and!; [done| |done|done]. destruct Hend as [|Hne]; [done|]. by destruct Hne; apply Hsame.
Qed.

(** ** The loops *)

(** What a call does to the pages [first .. last) : [update] picks those whose count changes. The
    host follows for every page of the range, and nothing else changes. *)
Record rewatched (host : Z -> Z) (track is_read : bool) (update : Z -> bool) (first last : Z) (s s' : Pages) : Prop := {
  rw_state : forall q, page_state s' q = if (first <=? q) && (q <? last) then update_page track is_read (update q) (page_state s q) else page_state s q;
  rw_synced : forall q, first <= q < last -> synced host s' q;
  rw_host : forall q, ~ (first <= q < last) -> host_after host s' q = host_after host s q
}.

Lemma watch_loop_spec host first track is_read update upd n cur p s : loop_inv host first cur p s -> first <= cur -> 0 <= cur -> cur + Z.of_nat n <= NUM_ADDRESS_PAGES ->
  (forall q, cur <= q < cur + Z.of_nat n -> upd q = Some (update q) /\ synced host s q /\ (update q = true -> can_watch track is_read (page_state s q))) ->
  exists p' s', watch_loop track is_read upd n cur p s = Some (p', s') /\ loop_inv host first (cur + Z.of_nat n) p' s' /\
    (forall q, page_state s' q = if (cur <=? q) && (q <? cur + Z.of_nat n) then update_page track is_read (update q) (page_state s q) else page_state s q) /\
    (forall q, ~ (first <= q < cur + Z.of_nat n) -> host_after host s' q = host_after host s q).
Proof.
  revert cur p s. induction n as [|n IH]; intros cur p s Hinv Hf Hc Hlast Hq; cbn [watch_loop].
  { exists p, s. rewrite Z.add_0_r in *. split_and!; [done|done| |done]. intros q. by destruct (Z.leb_spec cur q), (Z.ltb_spec q cur); try lia. }
  destruct (Hq cur) as (-> & Hsy & Hcan); [lia|]. cbn [mbind option_bind].
  destruct (watch_page_spec host first cur p s track is_read (update cur) Hinv Hf) as (p1 & s1 & -> & Hinv1 & Hs1 & Hh1); [lia|done|done|]. cbn [mbind option_bind].
  destruct (IH (cur + 1) p1 s1 Hinv1) as (p2 & s2 & -> & Hinv2 & Hs2 & Hh2); [lia|lia|lia| |].
  { intros q Hq'. destruct (Hq q) as (Hu & Hsq & Hcq); [lia|]. assert (E : page_state s1 q = page_state s q) by (rewrite Hs1; by destruct (Z.eqb_spec q cur); [lia|]).
    split_and!; [done| |by rewrite E]. apply (synced_same host s s1); [done|apply Hh1; lia|done]. }
  exists p2, s2. replace (cur + Z.of_nat (S n)) with (cur + 1 + Z.of_nat n) by lia. split_and!; [done|done| |].
  - intros q. rewrite Hs2, Hs1. destruct (Z.eqb_spec q cur) as [->|].
    + destruct (Z.leb_spec (cur + 1) cur); [lia|]. cbn [andb]. rewrite (proj2 (Z.leb_le cur cur)), (proj2 (Z.ltb_lt cur _)) by lia. done.
    + by destruct (Z.leb_spec (cur + 1) q), (Z.leb_spec cur q); try lia.
  - intros q Hq'. rewrite Hh2, Hh1 by lia. done.
Qed.

Lemma watch_pages_spec host track is_read update upd n first s : 0 <= first < NUM_ADDRESS_PAGES -> first + Z.of_nat n <= NUM_ADDRESS_PAGES ->
  (forall q, first <= q < first + Z.of_nat n -> upd q = Some (update q) /\ synced host s q /\ (update q = true -> can_watch track is_read (page_state s q))) ->
  exists s', watch_pages track is_read upd n first s = Some s' /\ rewatched host track is_read update first (first + Z.of_nat n) s s'.
Proof.
  intros Hf Hl Hq. unfold watch_pages, cached. rewrite (proj2 (Z.leb_le _ _)), (proj2 (Z.ltb_lt _ _)) by lia. cbn [andb mbind option_bind].
  assert (Hinv0 : loop_inv host first first (mkPending (Perms (page_state s first)) 0 0 0) s) by (split; cbn; intros; lia).
  destruct (watch_loop_spec host first track is_read update upd n first _ s Hinv0) as (p1 & s1 & -> & Hinv1 & Hs1 & Hh1); [lia|lia|lia|done|]. cbn [mbind option_bind].
  destruct (release_pending_spec host first _ p1 s1 Hinv1) as (p2 & s2 & -> & _ & _ & Hc & Hsy & Hh). cbn [mbind option_bind]. exists s2. split; [done|]. split.
  - intros q. rewrite <- Hs1. unfold page_state. by rewrite Hc.
  - done.
  - intros q Hq'. by rewrite Hh, Hh1.
Qed.

(** ** The pages of a range of bytes *)

Definition first_page (addr : Z) : Z := addr / PM_PAGE_SIZE.
Definition end_page (addr size : Z) : Z := (addr + size + PM_PAGE_SIZE - 1) / PM_PAGE_SIZE.

Lemma DivCeil_spec number divisor : 0 < divisor -> 0 <= number -> number + divisor <= U64_MAX -> DivCeil number divisor = (number + divisor - 1) / divisor.
Proof. intros Hd Hn Hm. unfold DivCeil. rewrite (wrap64_small (number + divisor)), wrap64_small by u64_lia. done. Qed.

Lemma UpdatePageWatchers_spec host track is_read addr size s : 0 <= addr -> 0 < size -> addr + size <= 2 ^ ADDRESS_BITS ->
  (forall q, first_page addr <= q < end_page addr size -> synced host s q /\ can_watch track is_read (page_state s q)) ->
  exists s', UpdatePageWatchers track is_read addr size s = Some s' /\
    rewatched host track is_read (fun _ => true) (first_page addr) (end_page addr size) s s'.
Proof.
  intros Ha Hs Hm Hq. unfold ADDRESS_BITS in Hm. change (2 ^ 40) with 1099511627776 in Hm.
  assert (Hb : first_page addr < end_page addr size /\ 0 <= first_page addr /\ end_page addr size <= NUM_ADDRESS_PAGES).
  { change NUM_ADDRESS_PAGES with 268435456. unfold first_page, end_page, PM_PAGE_SIZE. Z.to_euclidean_division_equations; lia. }
  unfold UpdatePageWatchers. rewrite Z.shiftr_div_pow2 by done. change (2 ^ PM_PAGE_BITS) with PM_PAGE_SIZE.
  rewrite (wrap64_small (addr + size)) by u64_lia. rewrite DivCeil_spec by (unfold PM_PAGE_SIZE; u64_lia). fold (first_page addr). fold (end_page addr size).
  destruct (Z.ltb_spec (end_page addr size) (first_page addr)); [lia|].
  destruct (watch_pages_spec host track is_read (fun _ => true) (fun _ => Some true) (Z.to_nat (end_page addr size - first_page addr)) (first_page addr) s)
    as (s' & -> & Hr); [lia|lia| |].
  - intros q Hq'. rewrite Z2Nat.id in Hq' by lia. destruct (Hq q) as [Hsy Hc]; [lia|]. by split_and!.
  - exists s'. split; [done|]. rewrite Z2Nat.id in Hr by lia. by replace (first_page addr + (end_page addr size - first_page addr)) with (end_page addr size) in Hr by lia.
Qed.

Lemma rewatched_widen host track is_read update update' first last first' last' s s' : rewatched host track is_read update first last s s' ->
  first' <= first -> last <= last' -> (forall q, first <= q < last -> update q = update' q) ->
  (forall q, first' <= q < last' -> ~ (first <= q < last) -> update' q = false /\ synced host s q) ->
  rewatched host track is_read update' first' last' s s'.
Proof.
  intros [Hst Hsy Hh] Hf Hl Heq Hout. split.
  - intros q. rewrite Hst. destruct (Z.leb_spec first' q), (Z.ltb_spec q last'), (Z.leb_spec first q), (Z.ltb_spec q last); cbn [andb]; try (done || lia);
      try (destruct (Hout q) as [-> _]; (done || lia)). by rewrite Heq.
  - intros q Hq. destruct (decide (first <= q < last)) as [Hin|Hno]; [by apply Hsy|]. apply (synced_same host s s' q).
    + rewrite Hst. by destruct (Z.leb_spec first q), (Z.ltb_spec q last); try lia.
    + by apply Hh.
    + by apply Hout.
  - intros q Hq. apply Hh. lia.
Qed.

Definition REGION_PAGES : Z := 1024.

Lemma UpdatePageWatchersForRegion_spec host avx track is_read base_addr mask s : bits_ok mask -> Size mask = REGION_PAGES -> Any mask = true ->
  0 <= base_addr -> base_addr mod (REGION_PAGES * PM_PAGE_SIZE) = 0 -> base_addr + REGION_PAGES * PM_PAGE_SIZE <= 2 ^ ADDRESS_BITS ->
  let base := base_addr / PM_PAGE_SIZE in
  (forall q, base <= q < base + REGION_PAGES -> synced host s q /\ (bit mask (q - base) = true -> can_watch track is_read (page_state s q))) ->
  exists s', UpdatePageWatchersForRegion avx track is_read base_addr mask s = Some s' /\
    rewatched host track is_read (fun q => bit mask (q - base)) base (base + REGION_PAGES) s s'.
Proof.
  intros Hok Hsz Hany Hb0 Hal Hm base Hq. unfold UpdatePageWatchersForRegion, FirstRange, LastRange.
  unfold ADDRESS_BITS, REGION_PAGES, PM_PAGE_SIZE in Hal, Hm. change (2 ^ 40) with 1099511627776 in Hm. change (1024 * 4096) with 4194304 in *.
  assert (Hbase : base_addr = base * 4096 /\ base mod 1024 = 0 /\ 0 <= base /\ base + 1024 <= NUM_ADDRESS_PAGES).
  { change NUM_ADDRESS_PAGES with 268435456. unfold base, PM_PAGE_SIZE. Z.to_euclidean_division_equations; lia. }
  destruct Hbase as (Eb & Hbm & Hb & Hbn). apply (Any_spec mask Hok) in Hany as [x Hx].
  destruct (FirstRangeFrom_spec avx mask 0 Hok) as (s0 & e0 & -> & Hfirst); [done|]. cbn [mbind option_bind].
  destruct (LastRangeFrom_spec avx mask (Size mask) Hok) as (s1 & e1 & -> & Hlast); [rewrite Hsz; unfold REGION_PAGES; lia|]. cbn [mbind option_bind fst snd].
  assert (Hx0 : 0 <= x < Size mask).
  { destruct (Z.lt_ge_cases x 0); [by rewrite bit_out in Hx by lia|]. destruct (Z.lt_ge_cases x (Size mask)); [done|]. by rewrite bit_out in Hx by lia. }
  destruct Hfirst as [[Hs0 He0 Hbef Hones Haft]|(_ & _ & Hno)]; [|by rewrite Hno in Hx by lia].
  destruct Hlast as [[[He1 Hafter Hone1] _]|(_ & _ & Hno)]; [|by rewrite Hno in Hx by lia]. rewrite Hsz in He0, He1, Hafter. unfold REGION_PAGES in *.
  assert (Hse : s0 < e1) by (destruct (Z.lt_ge_cases s0 e1); [done|]; specialize (Hones s0 ltac:(lia)); rewrite Hafter in Hones by lia; done).
  destruct (Z.eqb_spec e0 e1) as [E|E].
  - rewrite Z.shiftl_mul_pow2, Z.shiftl_mul_pow2 by done. change (2 ^ PM_PAGE_BITS) with 4096. rewrite (wrap64_small (base_addr + s0 * 4096)) by u64_lia.
    assert (Hp : first_page (base_addr + s0 * 4096) = base + s0 /\ end_page (base_addr + s0 * 4096) ((e0 - s0) * 4096) = base + e0).
    { unfold first_page, end_page, PM_PAGE_SIZE. rewrite Eb. Z.to_euclidean_division_equations; lia. }
    destruct Hp as [Hp1 Hp2]. destruct (UpdatePageWatchers_spec host track is_read (base_addr + s0 * 4096) ((e0 - s0) * 4096) s) as (s' & Es & Hr); [lia|lia|unfold ADDRESS_BITS; change (2 ^ 40) with 1099511627776; lia| |].
    + rewrite Hp1, Hp2. intros q Hq'. destruct (Hq q) as [Hsy Hc]; [lia|]. split; [done|]. apply Hc, Hones. lia.
    + exists s'. split; [done|]. rewrite Hp1, Hp2 in Hr. apply (rewatched_widen host track is_read (fun _ => true) _ (base + s0) (base + e0)); [done|lia|lia| |].
      * intros q Hq'. symmetry. apply Hones. lia.
      * intros q Hq' Hno. split; [|by apply Hq]. destruct (Z.lt_ge_cases q (base + s0)); [apply Hbef; lia|]. apply Hafter. lia.
  - rewrite Z.shiftr_div_pow2 by done. change (2 ^ PM_PAGE_BITS) with PM_PAGE_SIZE. fold base. change PAGES_PER_LOCK with 1024. rewrite Hbm. cbn [Z.eqb negb].
    destruct (watch_pages_spec host track is_read (fun q => bit mask (q - base)) (fun page => Get mask (page - base)) (Z.to_nat (e1 - s0)) (base + s0) s) as (s' & Es & Hr);
      [lia|lia| |].
    + intros q Hq'. rewrite Z2Nat.id in Hq' by lia. rewrite Get_spec by (done || lia). destruct (Hq q) as [Hsy Hc]; [lia|]. by split_and!.
    + exists s'. split; [done|]. rewrite Z2Nat.id in Hr by lia. replace (base + s0 + (e1 - s0)) with (base + e1) in Hr by lia.
      apply (rewatched_widen host track is_read (fun q => bit mask (q - base)) _ (base + s0) (base + e1)); [done|lia|lia|done|].
      intros q Hq' Hno. split; [|by apply Hq]. destruct (Z.lt_ge_cases q (base + s0)); [apply Hbef; lia|]. apply Hafter. lia.
Qed.

(** * The property *)

(** C27. Changing the watchers of a region by a mask returns, for a region whose pages have on the host
    the protection their counts ask for, and when every page of the mask can change: its count has
    room, and the page does not become watched for reads without being watched for writes, which
    would be write-only ([Protect] asserts against it). The
    count of exactly the pages in the mask goes up or down by one; afterwards the last protection
    the host was given for any page of the region is the one its counts ask for, however the
    calls were merged, and no page outside of the region was protected anew. *)
Theorem UpdatePageWatchersForRegion_exact host avx track is_read base_addr mask s : bits_ok mask -> Size mask = REGION_PAGES -> Any mask = true ->
  0 <= base_addr -> base_addr mod (REGION_PAGES * PM_PAGE_SIZE) = 0 -> base_addr + REGION_PAGES * PM_PAGE_SIZE <= 2 ^ ADDRESS_BITS ->
  let base := base_addr / PM_PAGE_SIZE in
  (forall q, base <= q < base + REGION_PAGES -> synced host s q /\ (bit mask (q - base) = true -> can_watch track is_read (page_state s q))) ->
  exists s', UpdatePageWatchersForRegion avx track is_read base_addr mask s = Some s' /\
    (forall q, page_state s' q = if bit mask (q - base) then watch track is_read (page_state s q) else page_state s q) /\
    (forall q, base <= q < base + REGION_PAGES -> host_after host s' q = Perms (page_state s' q)) /\
    (forall q, ~ (base <= q < base + REGION_PAGES) -> host_after host s' q = host_after host s q).
Proof.
  intros Hok Hsz Hany Hb0 Hal Hm base Hq.
  destruct (UpdatePageWatchersForRegion_spec host avx track is_read base_addr mask s Hok Hsz Hany Hb0 Hal Hm Hq) as (s' & E & [Hst Hsy Hh]). fold base in Hst, Hsy, Hh.
  exists s'. split_and!; [done| |done|done]. intros q. rewrite Hst. unfold update_page.
  destruct (Z.leb_spec base q), (Z.ltb_spec q (base + REGION_PAGES)); cbn [andb]; try done; by rewrite bit_out by lia.
Qed.

Definition mask_1 : BitArray := 1048 :: replicate 15 0.
Definition no_pages : Pages := mkPages ∅ [].

(** Pages 3, 4 and 10 of the region at 4 MB: two calls. *)
Lemma UpdatePageWatchersForRegion_exact_witness : exists s', UpdatePageWatchersForRegion true true false 0x400000 mask_1 no_pages = Some s' /\
  protects s' = [(0x40A000, 0x1000, PermRead); (0x403000, 0x2000, PermRead)] /\ host_after (fun _ => 3) s' 1034 = PermRead /\ host_after (fun _ => 3) s' 1035 = 3.
Proof.
  assert (Hempty : forall q, page_state no_pages q = no_watchers) by (intros q; unfold page_state, no_pages; cbn; by rewrite lookup_empty).
  destruct (UpdatePageWatchersForRegion_exact (fun _ => 3) true true false 0x400000 mask_1 no_pages) as (s' & E & Hst & Hin & _); [| | | | | | |].
  - repeat constructor; vm_compute; discriminate.
  - reflexivity.
  - reflexivity.
  - lia.
  - reflexivity.
  - vm_compute; discriminate.
  - intros q _. split; [unfold synced; by rewrite Hempty|]. intros _. rewrite Hempty. split; [by split|discriminate].
  - exists s'. split; [exact E|]. split; [|split; rewrite Hin, Hst by (vm_compute; split; [discriminate|reflexivity]); rewrite Hempty; reflexivity].
    assert (E' : protects <$> UpdatePageWatchersForRegion true true false 0x400000 mask_1 no_pages = Some [(0x40A000, 0x1000, PermRead); (0x403000, 0x2000, PermRead)]) by reflexivity.
    rewrite E in E'. exact (f_equal (default []) E').
Defined.
