(* ===== verification/MemoryTracker.v ===== *)
(** Which pages the CPU and the GPU changed: src/src/video_core/buffer_cache/region_manager.h and
    memory_tracker.h.

    A region of 4 MB has a bit for each page that the CPU changed since the last upload and for
    each that the GPU changed since the last download, and the bits of the protection it asked
    for; the tracker finds the region of an address in a table. The ranges given to the
    callbacks are recorded in [reported], in order. The locks of the regions are left out: a
    method is one step. *)
From Stdlib Require Import ZArith Lia Sorting.Sorted.
From stdpp Require Import base gmap list list_numbers.
From S2P Require Import Prelude.
From S2P Require Import Alignment.
From S2P Require Import BitArray.
From S2P Require Import PageManager.

Definition TRACKER_PAGE_BITS : Z := 12.
Definition TRACKER_BYTES_PER_PAGE : Z := Z.shiftl 1 TRACKER_PAGE_BITS.
Definition TRACKER_HIGHER_PAGE_BITS : Z := 22.
Definition TRACKER_HIGHER_PAGE_SIZE : Z := Z.shiftl 1 TRACKER_HIGHER_PAGE_BITS.
Definition TRACKER_HIGHER_PAGE_MASK : Z := TRACKER_HIGHER_PAGE_SIZE - 1.
Definition NUM_PAGES_PER_REGION : Z := TRACKER_HIGHER_PAGE_SIZE / TRACKER_BYTES_PER_PAGE.

Module Type_.
Inductive t := CPU | GPU.
End Type_.
Module GpuReadbacksMode.
Inductive t := Disabled | Relaxed | Precise.
#[global] Instance eq_dec : EqDecision t.
Proof. solve_decision. Defined.
End GpuReadbacksMode.

Record RegionManager := mkRegion { cpu_addr : Z; cpu : BitArray; gpu : BitArray; writeable : BitArray; readable : BitArray }.
#[export] Instance eta_RegionManager : Eta RegionManager := fun r => mkRegion (cpu_addr r) (cpu r) (gpu r) (writeable r) (readable r).

Definition no_bits : BitArray := replicate 16 0.
Definition new_region (addr : Z) : RegionManager := mkRegion addr (Fill no_bits) (Clear no_bits) (Fill no_bits) (Fill no_bits).

Definition GetRegionBits (type : Type_.t) (r : RegionManager) : BitArray := match type with Type_.CPU => cpu r | Type_.GPU => gpu r end.
Definition set_bits (type : Type_.t) (b : BitArray) (r : RegionManager) : RegionManager :=
  match type with Type_.CPU => r <| cpu := b |> | Type_.GPU => r <| gpu := b |> end.

Definition SanitizeAddress (address : Z) : Z := Z.max (s64 address) 0.

(** The pages of a range of bytes in a region, when it has any. *)
Definition page_range (offset size : Z) : option (Z * Z) :=
  let start_page := SanitizeAddress offset / TRACKER_BYTES_PER_PAGE in
  let end_page := DivCeil (SanitizeAddress (offset +64 size)) TRACKER_BYTES_PER_PAGE in
  if (NUM_PAGES_PER_REGION <=? start_page) || (end_page <=? start_page) then None else Some (start_page, end_page).

Section region.
Context (avx : bool) (mode : GpuReadbacksMode.t).

Definition UpdateProtection (track is_read : bool) (r : RegionManager) (s : Pages) : option (RegionManager * Pages) :=
  let mask := if is_read then xor_ (not_ (gpu r)) (readable r) else xor_ (cpu r) (writeable r) in
  if None_ mask then Some (r, s) else
  let r := if is_read then r <| readable := not_ (gpu r) |> else r <| writeable := cpu r |> in
  s ← UpdatePageWatchersForRegion avx track is_read (cpu_addr r) mask s;
  Some (r, s).

Definition ChangeRegionState (type : Type_.t) (enable : bool) (dirty_addr size : Z) (r : RegionManager) (s : Pages) : option (RegionManager * Pages) :=
  let offset := dirty_addr -64 cpu_addr r in
  match page_range offset size with
  | None => Some (r, s)
  | Some (start_page, end_page) =>
      bits ← (if enable then SetRange avx (GetRegionBits type r) start_page end_page else UnsetRange avx (GetRegionBits type r) start_page end_page);
      let r := set_bits type bits r in
      match type with
      | Type_.CPU => UpdateProtection (negb enable) false r s
      | Type_.GPU => if bool_decide (mode = GpuReadbacksMode.Precise) then UpdateProtection enable true r s else Some (r, s)
      end
  end.

(** The ranges that the callback gets are the result. *)
Definition ForEachModifiedRange (type : Type_.t) (clear : bool) (query_cpu_range size : Z) (r : RegionManager) (s : Pages)
    : option (RegionManager * Pages * list (Z * Z)) :=
  let offset := query_cpu_range -64 cpu_addr r in
  match page_range offset size with
  | None => Some (r, s, [])
  | Some (start_page, end_page) =>
      let bits := GetRegionBits type r in
      mask ← copy_range avx bits start_page end_page;
      '(r, s) ← (if clear then
         bits ← UnsetRange avx bits start_page end_page;
         let r := set_bits type bits r in
         match type with
         | Type_.CPU => UpdateProtection true false r s
         | Type_.GPU => if negb (bool_decide (mode = GpuReadbacksMode.Disabled)) then UpdateProtection false true r s else Some (r, s)
         end
       else Some (r, s));
      runs ← ranges avx mask;
      Some (r, s, map (fun run => (cpu_addr r +64 fst run * TRACKER_BYTES_PER_PAGE, (snd run - fst run) * TRACKER_BYTES_PER_PAGE)) runs)
  end.

Definition IsRegionModified (type : Type_.t) (offset size : Z) (r : RegionManager) : option bool :=
  match page_range offset size with
  | None => Some false
  | Some (start_page, end_page) => test ← copy_range avx (GetRegionBits type r) start_page end_page; Some (Any test)
  end.
End region.

(** * The tracker *)

Definition MAX_CPU_PAGE_BITS : Z := 40.
Definition NUM_HIGH_PAGES : Z := Z.shiftl 1 (MAX_CPU_PAGE_BITS - TRACKER_HIGHER_PAGE_BITS).
Definition MANAGER_POOL_SIZE : nat := 32.

(** A region belongs to one entry of the table, so the table holds the regions themselves. *)
Record MemoryTracker := mkTracker {
  top_tier : gmap Z RegionManager;
  free_managers : list RegionManager;
  tracker : Pages;
  reported : list (Z * Z)
}.
#[export] Instance eta_MemoryTracker : Eta MemoryTracker := fun t => mkTracker (top_tier t) (free_managers t) (tracker t) (reported t).

Definition CreateRegion (page_index : Z) (t : MemoryTracker) : option MemoryTracker :=
  let base_cpu_addr := Z.shiftl page_index TRACKER_HIGHER_PAGE_BITS in
  let free := match free_managers t with [] => replicate MANAGER_POOL_SIZE (new_region 0) | free => free end in
  new_manager ← last free;
  Some (t <| free_managers := take (length free - 1) free |> <| top_tier ::= <[page_index := new_manager <| cpu_addr := base_cpu_addr |>]> |>).

(** [func] gets the index of the region, the offset in it and the size; [true] ends the loop.
    Each turn but the last ends at the end of a region. *)
Fixpoint iterate (create_region_on_fail : bool) (func : Z -> Z -> Z -> MemoryTracker -> option (MemoryTracker * bool))
    (fuel : nat) (page_index page_offset remaining_size : Z) (t : MemoryTracker) : option (MemoryTracker * bool) :=
  if remaining_size <=? 0 then Some (t, false) else
  match fuel with
  | O => None
  | S fuel =>
      let copy_amount := Z.min (TRACKER_HIGHER_PAGE_SIZE -64 page_offset) remaining_size in
      if NUM_HIGH_PAGES <=? page_index then None else
      '(t, stop) ← match top_tier t !! page_index with
        | Some _ => func page_index page_offset copy_amount t
        | None => if create_region_on_fail then t ← CreateRegion page_index t; func page_index page_offset copy_amount t else Some (t, false)
        end;
      if (stop : bool) then Some (t, true)
      else iterate create_region_on_fail func fuel (page_index + 1) 0 (remaining_size -64 copy_amount) t
  end.
Definition IteratePages (create_region_on_fail : bool) (func : Z -> Z -> Z -> MemoryTracker -> option (MemoryTracker * bool))
    (cpu_address size : Z) (t : MemoryTracker) : option (MemoryTracker * bool) :=
  iterate create_region_on_fail func (Z.to_nat (size / TRACKER_HIGHER_PAGE_SIZE) + 2) (Z.shiftr cpu_address TRACKER_HIGHER_PAGE_BITS)
    (Z.land cpu_address TRACKER_HIGHER_PAGE_MASK) size t.

(** A callback that works on the region, one that only looks at it, and one without a result. *)
Definition on_manager (f : RegionManager -> Z -> Z -> Pages -> option (RegionManager * Pages * list (Z * Z))) (page_index offset size : Z) (t : MemoryTracker)
    : option (MemoryTracker * bool) :=
  manager ← top_tier t !! page_index;
  '(manager, s, ranges) ← f manager offset size (tracker t);
  Some (t <| top_tier ::= <[page_index := manager]> |> <| tracker := s |> <| reported ::= fun l => l ++ ranges |>, false).
Definition changing (f : RegionManager -> Z -> Z -> Pages -> option (RegionManager * Pages)) (r : RegionManager) (offset size : Z) (s : Pages)
    : option (RegionManager * Pages * list (Z * Z)) :=
  '(r, s) ← f r offset size s;
  Some (r, s, []).
Definition asking (f : RegionManager -> Z -> Z -> option bool) (page_index offset size : Z) (t : MemoryTracker) : option (MemoryTracker * bool) :=
  manager ← top_tier t !! page_index;
  answer ← f manager offset size;
  Some (t, answer).

Section tracking.
Context (avx : bool) (mode : GpuReadbacksMode.t).

Definition IsRegionCpuModified (query_cpu_addr query_size : Z) (t : MemoryTracker) : option (MemoryTracker * bool) :=
  IteratePages true (asking (fun r offset size => IsRegionModified avx Type_.CPU offset size r)) query_cpu_addr query_size t.
Definition IsRegionGpuModified (query_cpu_addr query_size : Z) (t : MemoryTracker) : option (MemoryTracker * bool) :=
  IteratePages false (asking (fun r offset size => IsRegionModified avx Type_.GPU offset size r)) query_cpu_addr query_size t.

Definition change (type : Type_.t) (enable : bool) : Z -> Z -> Z -> MemoryTracker -> option (MemoryTracker * bool) :=
  on_manager (changing (fun r offset size s => ChangeRegionState avx mode type enable (cpu_addr r +64 offset) size r s)).

Definition MarkRegionAsCpuModified (dirty_cpu_addr query_size : Z) (t : MemoryTracker) : option MemoryTracker :=
  fst <$> IteratePages false (change Type_.CPU true) dirty_cpu_addr query_size t.
Definition UnmarkRegionAsGpuModified (dirty_cpu_addr query_size : Z) (t : MemoryTracker) : option MemoryTracker :=
  fst <$> IteratePages false (change Type_.GPU false) dirty_cpu_addr query_size t.

(** [on_flush] is what the caller does to download the memory. *)
Definition invalidate_region (on_flush : MemoryTracker -> option MemoryTracker) (page_index offset size : Z) (t : MemoryTracker)
    : option (MemoryTracker * bool) :=
  manager ← top_tier t !! page_index;
  modified ← (if negb (bool_decide (mode = GpuReadbacksMode.Disabled)) then IsRegionModified avx Type_.GPU offset size manager else Some false);
  if (modified : bool) then t ← on_flush t; Some (t, false)
  else change Type_.CPU true page_index offset size t.
Definition InvalidateRegion (on_flush : MemoryTracker -> option MemoryTracker) (cpu_addr size : Z) (t : MemoryTracker) : option MemoryTracker :=
  fst <$> IteratePages false (invalidate_region on_flush) cpu_addr size t.

Definition modified_ranges (type : Type_.t) (clear : bool) : Z -> Z -> Z -> MemoryTracker -> option (MemoryTracker * bool) :=
  on_manager (fun r offset size s => ForEachModifiedRange avx mode type clear (cpu_addr r +64 offset) size r s).

(** [on_upload] is what the caller does between the two loops. *)
Definition ForEachUploadRange (query_cpu_range query_size : Z) (is_written : bool) (on_upload : MemoryTracker -> option MemoryTracker)
    (t : MemoryTracker) : option MemoryTracker :=
  '(t, _) ← IteratePages true (modified_ranges Type_.CPU true) query_cpu_range query_size t;
  t ← on_upload t;
  if negb is_written then Some t else fst <$> IteratePages false (change Type_.GPU true) query_cpu_range query_size t.

Definition ForEachDownloadRange (clear : bool) (query_cpu_range query_size : Z) (t : MemoryTracker) : option MemoryTracker :=
  fst <$> IteratePages false (modified_ranges Type_.GPU clear) query_cpu_range query_size t.

(** * What the buffer cache does with it: src/src/video_core/buffer_cache/buffer_cache.cpp *)

(** The code returns early when [total_size_bytes] is 0. The copies it adds up are cut out of the
    ranges that the tracker reports by [gpu_modified_ranges], a set of the buffer cache that is
    not modelled; that nothing is reported stands for the test here, on the assumption that a page
    that the GPU changed always has bytes in that set. *)
Definition DownloadBufferMemory (device_addr size : Z) (t : MemoryTracker) : option MemoryTracker :=
  t' ← ForEachDownloadRange false device_addr size t;
  if bool_decide (reported t' = reported t) then Some t' else UnmarkRegionAsGpuModified device_addr size t'.

Definition WindowSize : Z := 524288.
Definition window_start (buf_start device_addr : Z) : Z := Z.max (AlignDown device_addr WindowSize) buf_start.
Definition window_end (buf_start buf_size device_addr size : Z) : Z :=
  Z.min (Z.max (window_start buf_start device_addr +64 WindowSize) (device_addr +64 size)) (buf_start +64 buf_size).

(** [buf_start] and [buf_size] are those of the buffer that is found for the range. *)
Definition ReadMemory (buf_start buf_size device_addr size : Z) (is_write : bool) (t : MemoryTracker) : option MemoryTracker :=
  t ← DownloadBufferMemory (window_start buf_start device_addr)
        (window_end buf_start buf_size device_addr size -64 window_start buf_start device_addr) t;
  if is_write then MarkRegionAsCpuModified device_addr size t else Some t.

Definition InvalidateMemory (is_registered : bool) (buf_start buf_size device_addr size : Z) (t : MemoryTracker) : option MemoryTracker :=
  if negb is_registered then Some t
  else InvalidateRegion (ReadMemory buf_start buf_size device_addr size true) device_addr size t.
End tracking.

(** * One region *)

Definition precise (mode : GpuReadbacksMode.t) : bool := bool_decide (mode = GpuReadbacksMode.Precise).

(** The watchers a page has to have: [others] are those of the other users of the page manager. *)
Definition watchers (others : Z) (mode : GpuReadbacksMode.t) (by_cpu by_gpu : bool) : PageState :=
  mkPageState (others + if by_cpu then 0 else 1) (if precise mode && by_gpu then 1 else 0).

Definition region_bits (b : BitArray) : Prop := bits_ok b /\ length b = 16%nat.

Lemma region_size b : region_bits b -> Size b = 1024.
Proof. intros [_ Hl]. unfold Size, BITS_PER_WORD. by rewrite Hl. Qed.

Definition region_page (i q : Z) : Prop := i * 1024 <= q < (i + 1) * 1024.

Section region_proofs.
Context (avx : bool) (mode : GpuReadbacksMode.t) (host : Z -> Z) (others : Z -> Z).
Context (Hothers : forall q, 0 <= others q < 127).

Definition page_ok (s : Pages) (q : Z) (by_cpu by_gpu : bool) : Prop := synced host s q /\ page_state s q = watchers (others q) mode by_cpu by_gpu.

(** A region [i] in use: the protection is that of the bits, and the watchers are those the
    protection needs. With precise readbacks no page is modified by both sides. *)
Record region_inv (i : Z) (r : RegionManager) (s : Pages) : Prop := {
  rv_index : 0 <= i < NUM_HIGH_PAGES;
  rv_addr : cpu_addr r = i * 4194304;
  rv_cpu : region_bits (cpu r);
  rv_gpu : region_bits (gpu r);
  rv_writeable : writeable r = cpu r;
  rv_readable : region_bits (readable r) /\ (precise mode = true -> readable r = not_ (gpu r));
  rv_apart : precise mode = true -> forall x, bit (gpu r) x = true -> bit (cpu r) x = false;
  rv_pages : forall q, region_page i q -> page_ok s q (bit (cpu r) (q - i * 1024)) (bit (gpu r) (q - i * 1024))
}.

(** Outside of the region nothing changes. *)
Definition same_outside (i : Z) (s s' : Pages) : Prop :=
  forall q, ~ region_page i q -> page_state s' q = page_state s q /\ host_after host s' q = host_after host s q.

Lemma same_outside_refl i s : same_outside i s s.
Proof. by intros q _. Qed.

Lemma watchers_read_only o m c g : 0 <= o -> (precise m && g = true -> c = false) -> Perms (watchers o m c g) <> PermWrite.
Proof.
  unfold Perms, ReadPerm, WritePerm, watchers. cbn. intros Ho Hd. destruct (precise m && g); cbn.
  - rewrite Hd by done. destruct (Z.eqb_spec (o + 1) 0); [lia|done].
  - destruct (o + (if c then 0 else 1) =? 0); done.
Qed.

(** The watchers of a page that the CPU or the GPU starts or stops to own. *)
Lemma watch_cpu track o m g : watch track false (watchers o m track g) = watchers o m (negb track) g.
Proof. unfold watch, watchers. destruct track; cbn [negb]; cbv [upd eta_PageState]; cbn; f_equal; lia. Qed.
Lemma watch_gpu track o m c : precise m = true -> watch track true (watchers o m c (negb track)) = watchers o m c track.
Proof. unfold watch, watchers. intros ->. destruct track; cbn [negb andb]; cbv [upd eta_PageState]; cbn; f_equal; lia. Qed.

Lemma can_watch_cpu track o m g : 0 <= o < 127 -> (track = false -> precise m && g = true -> False) -> can_watch track false (watchers o m track g).
Proof.
  intros Ho Hd. unfold can_watch. rewrite watch_cpu. split; [unfold watchers; destruct track; cbn; lia|]. apply watchers_read_only; [lia|].
  destruct track; [done|]. intros H. by destruct Hd.
Qed.
Lemma can_watch_gpu track o m c : 0 <= o < 127 -> precise m = true -> (track = true -> c = false) -> can_watch track true (watchers o m c (negb track)).
Proof.
  intros Ho Hm Hd. unfold can_watch. rewrite watch_gpu by done. split; [unfold watchers; rewrite Hm; destruct track; cbn; lia|]. apply watchers_read_only; [lia|].
  rewrite Hm. cbn [andb]. done.
Qed.

(** Moving the watchers of a region by a mask. *)
Lemma update_region i (r : RegionManager) mask track is_read s (cpu0 gpu0 cpu1 gpu1 : Z -> bool) : 0 <= i < NUM_HIGH_PAGES -> cpu_addr r = i * 4194304 ->
  region_bits mask -> Any mask = true ->
  (forall q, region_page i q -> page_ok s q (cpu0 (q - i * 1024)) (gpu0 (q - i * 1024))) ->
  (forall x o, 0 <= x < 1024 -> 0 <= o < 127 -> (bit mask x = true -> can_watch track is_read (watchers o mode (cpu0 x) (gpu0 x))) /\
     update_page track is_read (bit mask x) (watchers o mode (cpu0 x) (gpu0 x)) = watchers o mode (cpu1 x) (gpu1 x)) ->
  exists s', UpdatePageWatchersForRegion avx track is_read (cpu_addr r) mask s = Some s' /\ same_outside i s s' /\
    forall q, region_page i q -> page_ok s' q (cpu1 (q - i * 1024)) (gpu1 (q - i * 1024)).
Proof.
  intros Hi Ha Hmask Hany Hold Hnew. change NUM_HIGH_PAGES with 262144 in Hi.
  assert (Hbase : i * 4194304 / PM_PAGE_SIZE = i * 1024) by (unfold PM_PAGE_SIZE; Z.to_euclidean_division_equations; lia).
  destruct (UpdatePageWatchersForRegion_spec host avx track is_read (i * 4194304) mask s) as (s' & E & Hr).
  - apply Hmask.
  - by apply region_size.
  - done.
  - lia.
  - unfold REGION_PAGES, PM_PAGE_SIZE. change (1024 * 4096) with 4194304. apply Z.mod_mul. lia.
  - unfold REGION_PAGES, PM_PAGE_SIZE, ADDRESS_BITS. change (2 ^ 40) with 1099511627776. lia.
  - rewrite Hbase. intros q Hq. unfold REGION_PAGES in Hq. destruct (Hold q) as [Hsy Hst]; [unfold region_page; lia|]. split; [done|]. intros Hb. rewrite Hst.
    apply (Hnew (q - i * 1024) (others q)); [lia|done|done].
  - rewrite Hbase in Hr. unfold REGION_PAGES in Hr. exists s'. rewrite Ha. split_and!; [done| |].
    + intros q Hq. unfold region_page in Hq. split; [|apply (rw_host _ _ _ _ _ _ _ _ Hr); lia]. rewrite (rw_state _ _ _ _ _ _ _ _ Hr).
      destruct (Z.leb_spec (i * 1024) q), (Z.ltb_spec q (i * 1024 + 1024)); cbn [andb]; (done || lia).
    + intros q Hq. unfold region_page in Hq. split; [apply (rw_synced _ _ _ _ _ _ _ _ Hr); lia|]. rewrite (rw_state _ _ _ _ _ _ _ _ Hr).
      rewrite (proj2 (Z.leb_le _ _)), (proj2 (Z.ltb_lt _ _)) by lia. cbn [andb]. destruct (Hold q Hq) as [_ ->]. apply Hnew; [lia|done].
Qed.

Lemma region_xor b b' : region_bits b -> region_bits b' -> region_bits (xor_ b b') /\ forall x, bit (xor_ b b') x = xorb (bit b x) (bit b' x).
Proof. intros [H1 L1] [H2 L2]. destruct (xor_spec b b' H1 H2) as (Hl & Ho & Hb); [congruence|]. split; [split; [done|congruence]|done]. Qed.

Lemma region_not b : region_bits b -> region_bits (not_ b) /\ forall x, 0 <= x < 1024 -> bit (not_ b) x = negb (bit b x).
Proof.
  intros Hb. destruct (not_spec b (proj1 Hb)) as (Hl & Ho & Hn). split; [split; [done|rewrite Hl; apply Hb]|]. intros x Hx. rewrite Hn, (region_size b Hb).
  by rewrite (proj2 (in_range_spec 0 1024 x) Hx).
Qed.

Lemma xor_none b b' : region_bits b -> region_bits b' -> None_ (xor_ b b') = true -> b = b'.
Proof.
  intros Hb Hb' Hn. destruct (region_xor b b' Hb Hb') as [Hx Hbit]. apply bits_inj; [apply Hb|apply Hb'|by rewrite (proj2 Hb), (proj2 Hb')|].
  intros x. pose proof (proj1 (None_spec _ (proj1 Hx)) Hn x) as H. rewrite Hbit in H. by apply xorb_eq.
Qed.

Lemma UpdateProtection_write i r track s : 0 <= i < NUM_HIGH_PAGES -> cpu_addr r = i * 4194304 -> region_bits (cpu r) -> region_bits (writeable r) ->
  (forall x, bit (cpu r) x <> bit (writeable r) x -> bit (cpu r) x = negb track) ->
  (precise mode = true -> forall x, bit (gpu r) x = true -> bit (cpu r) x = false) ->
  (forall q, region_page i q -> page_ok s q (bit (writeable r) (q - i * 1024)) (bit (gpu r) (q - i * 1024))) ->
  exists s', UpdateProtection avx track false r s = Some (r <| writeable := cpu r |>, s') /\ same_outside i s s' /\
    forall q, region_page i q -> page_ok s' q (bit (cpu r) (q - i * 1024)) (bit (gpu r) (q - i * 1024)).
Proof.
  intros Hi Ha Hc Hw Hdir Hapart Hold. unfold UpdateProtection. destruct (None_ (xor_ (cpu r) (writeable r))) eqn:Hn.
  { apply xor_none in Hn; [|done|done]. exists s. rewrite Hn. split_and!; [by destruct r|apply same_outside_refl|done]. }
  destruct (region_xor _ _ Hc Hw) as [Hm Hmb].
  destruct (update_region i r (xor_ (cpu r) (writeable r)) track false s (bit (writeable r)) (bit (gpu r)) (bit (cpu r)) (bit (gpu r)))
    as (s' & E & Hout & Hpages); try done.
  - unfold Any. by rewrite Hn.
  - intros x o Hx Ho. rewrite Hmb. specialize (Hdir x). specialize (fun H => Hapart H x).
    destruct (bit (cpu r) x), (bit (writeable r) x); cbn [xorb update_page]; try (split; done).
    + destruct track; [by specialize (Hdir ltac:(done))|]. split; [intros _; apply can_watch_cpu; [done|]|apply (watch_cpu false)].
      intros _ [H1 H2]%andb_true_iff. by specialize (Hapart H1 H2).
    + destruct track; [|by specialize (Hdir ltac:(done))]. split; [intros _; by apply can_watch_cpu|apply (watch_cpu true)].
  - cbn in E |- *. rewrite E. by exists s'.
Qed.
Lemma UpdateProtection_read i r gpu0 track s : precise mode = true -> 0 <= i < NUM_HIGH_PAGES -> cpu_addr r = i * 4194304 -> region_bits (gpu r) ->
  region_bits gpu0 -> readable r = not_ gpu0 -> (forall x, bit (gpu r) x <> bit gpu0 x -> bit (gpu r) x = track) ->
  (forall x, bit (gpu r) x = true -> bit (cpu r) x = false) ->
  (forall q, region_page i q -> page_ok s q (bit (cpu r) (q - i * 1024)) (bit gpu0 (q - i * 1024))) ->
  exists s', UpdateProtection avx track true r s = Some (r <| readable := not_ (gpu r) |>, s') /\ same_outside i s s' /\
    forall q, region_page i q -> page_ok s' q (bit (cpu r) (q - i * 1024)) (bit (gpu r) (q - i * 1024)).
Proof.
  intros Hp Hi Ha Hg Hg0 Hrd Hdir Hapart Hold. unfold UpdateProtection. rewrite Hrd. destruct (region_not _ Hg) as [Hn Hnb], (region_not _ Hg0) as [Hn0 Hnb0].
  assert (Heq : not_ (gpu r) = not_ gpu0 -> forall x, 0 <= x < 1024 -> bit (gpu r) x = bit gpu0 x).
  { intros E x Hx. specialize (Hnb x Hx). rewrite E, Hnb0 in Hnb by done. by destruct (bit (gpu r) x), (bit gpu0 x). }
  destruct (None_ (xor_ (not_ (gpu r)) (not_ gpu0))) eqn:Hnone.
  { apply xor_none in Hnone; [|done|done]. exists s. split_and!; [rewrite Hnone, <- Hrd; by destruct r|apply same_outside_refl|].
    intros q Hq. unfold region_page in *. rewrite (Heq Hnone) by lia. by apply Hold. }
  destruct (region_xor _ _ Hn Hn0) as [Hm Hmb].
  destruct (update_region i r (xor_ (not_ (gpu r)) (not_ gpu0)) track true s (bit (cpu r)) (bit gpu0) (bit (cpu r)) (bit (gpu r)))
    as (s' & E & Hout & Hpages); try done.
  - unfold Any. by rewrite Hnone.
  - intros x o Hx Ho. rewrite Hmb, Hnb, Hnb0 by done. specialize (Hdir x). specialize (Hapart x).
    destruct (bit (gpu r) x), (bit gpu0 x); cbn [negb xorb update_page]; try (split; done).
    + destruct track; [|by specialize (Hdir ltac:(done))]. split; [intros _; apply (can_watch_gpu true); [done|done|intros _; by apply Hapart]|by apply (watch_gpu true)].
    + destruct track; [by specialize (Hdir ltac:(done))|]. split; [intros _; by apply (can_watch_gpu false)|by apply (watch_gpu false)].
  - cbn in E |- *. rewrite E. by exists s'.
Qed.

(** ** The operations *)

(** A range of bytes of a region and its pages. *)
Record chunk (i p e offset size : Z) : Prop := {
  ck_offset : 0 <= offset;
  ck_size : 0 < size;
  ck_fit : offset + size <= 4194304;
  ck_first : offset / 4096 = p - i * 1024;
  ck_end : (offset + size + 4095) / 4096 = e - i * 1024
}.

Lemma chunk_range i p e offset size : chunk i p e offset size ->
  page_range offset size = Some (p - i * 1024, e - i * 1024) /\ 0 <= p - i * 1024 < e - i * 1024 /\ e - i * 1024 <= 1024.
Proof.
  intros [Ho Hs Hf Hp He]. assert (Hb : 0 <= p - i * 1024 < e - i * 1024 /\ e - i * 1024 <= 1024) by (rewrite <- Hp, <- He; Z.to_euclidean_division_equations; lia).
  split; [|done]. unfold page_range, SanitizeAddress. rewrite (wrap64_small (offset + size)), !s64_small, !Z.max_l by (u64_unfold; lia).
  change TRACKER_BYTES_PER_PAGE with 4096. change NUM_PAGES_PER_REGION with 1024. rewrite DivCeil_spec by u64_lia. rewrite Hp.
  replace (offset + size + 4096 - 1) with (offset + size + 4095) by lia. rewrite He.
  by destruct (Z.leb_spec 1024 (p - i * 1024)), (Z.leb_spec (e - i * 1024) (p - i * 1024)); try lia.
Qed.

(** The address the tracker passes is the offset again. *)
Lemma chunk_addr i r s p e offset size : region_inv i r s -> chunk i p e offset size -> cpu_addr r +64 offset -64 cpu_addr r = offset.
Proof.
  intros Hr [Ho Hs Hf _ _]. rewrite (rv_addr _ _ _ Hr). pose proof (rv_index _ _ _ Hr) as Hi. change NUM_HIGH_PAGES with 262144 in Hi.
  rewrite (wrap64_small (i * 4194304 + offset)) by u64_lia. replace (i * 4194304 + offset - i * 4194304) with offset by lia. apply wrap64_small. u64_lia.
Qed.

(** What an operation on a region leaves: the bits [cpu'] and [gpu'], in order with the pages. *)
Record region_result (i : Z) (r : RegionManager) (s : Pages) (cpu' gpu' : Z -> bool) (r' : RegionManager) (s' : Pages) : Prop := {
  rr_inv : region_inv i r' s';
  rr_cpu : forall x, bit (cpu r') x = cpu' x;
  rr_gpu : forall x, bit (gpu r') x = gpu' x;
  rr_outside : same_outside i s s'
}.

Lemma region_set b (b' : BitArray) (T : Z -> bool) p e : region_bits b -> replaced T p e b b' -> region_bits b'.
Proof. intros [Ho Hl] [Hl' Ho' _]. split; [done|congruence]. Qed.

Lemma mark_cpu i p e offset size r s : region_inv i r s -> chunk i p e offset size ->
  (precise mode = true -> forall x, in_range (p - i * 1024) (e - i * 1024) x = true -> bit (gpu r) x = false) ->
  exists r' s', ChangeRegionState avx mode Type_.CPU true (cpu_addr r +64 offset) size r s = Some (r', s') /\
    region_result i r s (fun x => bit (cpu r) x || in_range (p - i * 1024) (e - i * 1024) x) (bit (gpu r)) r' s'.
Proof.
  intros Hr Hck Hno. unfold ChangeRegionState. rewrite (chunk_addr i r s p e offset size) by done. destruct (chunk_range _ _ _ _ _ Hck) as (-> & Hpe & He).
  destruct Hr as [Hi Ha Hc Hg Hw Hrd Hap Hpg]. destruct (SetRange_spec avx (cpu r) (p - i * 1024) (e - i * 1024) (proj1 Hc)) as (b & Eb & Hrep & _); [lia|].
  specialize (Hrep ltac:(rewrite (region_size _ Hc); lia)). cbn [GetRegionBits]. rewrite Eb. cbn [mbind option_bind set_bits negb].
  pose proof (region_set _ _ _ _ _ Hc Hrep) as Hb. pose proof (rp_bit _ _ _ _ _ Hrep) as Hbit.
  destruct (UpdateProtection_write i (r <| cpu := b |>) false s) as (s' & E & Hout & Hpages); try done.
  - cbn. by rewrite Hw.
  - cbn. intros x. rewrite Hw, Hbit. by destruct (in_range _ _ x).
  - cbn. intros Hp x Hx. rewrite Hbit. destruct (in_range _ _ x) eqn:Hin; [by rewrite Hno in Hx|by apply Hap].
  - cbn. intros q Hq. rewrite Hw. by apply Hpg.
  - cbn [cpu] in E. rewrite E. eexists _, s'. split; [done|]. split; [split|..]; cbn; try done.
    + intros Hp x Hx. rewrite Hbit. destruct (in_range _ _ x) eqn:Hin; [by rewrite Hno in Hx|by apply Hap].
    + intros x. rewrite Hbit. by destruct (in_range _ _ x), (bit (cpu r) x).
Qed.

(** The bits of the GPU after [ChangeRegionState]. *)
Definition gpu_after (enable : bool) (b inside : bool) : bool := if enable then b || inside else b && negb inside.

Lemma change_range_spec (enable : bool) b p e : region_bits b -> 0 <= p -> e <= 1024 ->
  exists b', (if enable then SetRange avx b p e else UnsetRange avx b p e) = Some b' /\ region_bits b' /\ forall x, bit b' x = gpu_after enable (bit b x) (in_range p e x).
Proof.
  intros Hb Hp He. destruct enable.
  - destruct (SetRange_spec avx b p e (proj1 Hb)) as (b' & E & Hrep & _); [done|]. specialize (Hrep ltac:(rewrite (region_size _ Hb); lia)). exists b'.
    split_and!; [done|by apply (region_set b b' (fun _ => true) p e)|]. intros x. rewrite (rp_bit _ _ _ _ _ Hrep). cbn. by destruct (in_range p e x), (bit b x).
  - destruct (UnsetRange_spec avx b p e (proj1 Hb)) as (b' & E & Hrep & _); [done|]. specialize (Hrep ltac:(rewrite (region_size _ Hb); lia)). exists b'.
    split_and!; [done|by apply (region_set b b' (fun _ => false) p e)|]. intros x. rewrite (rp_bit _ _ _ _ _ Hrep). cbn. by destruct (in_range p e x), (bit b x).
Qed.

Lemma page_ok_gpu_irrelevant s q c g g' : precise mode = false -> page_ok s q c g -> page_ok s q c g'.
Proof. unfold page_ok, watchers. by intros ->. Qed.

Lemma change_gpu enable i p e offset size r s : region_inv i r s -> chunk i p e offset size ->
  (precise mode = true -> enable = true -> forall x, in_range (p - i * 1024) (e - i * 1024) x = true -> bit (cpu r) x = false) ->
  exists r' s', ChangeRegionState avx mode Type_.GPU enable (cpu_addr r +64 offset) size r s = Some (r', s') /\
    region_result i r s (bit (cpu r)) (fun x => gpu_after enable (bit (gpu r) x) (in_range (p - i * 1024) (e - i * 1024) x)) r' s'.
Proof.
  intros Hr Hck Hno. unfold ChangeRegionState. rewrite (chunk_addr i r s p e offset size) by done. destruct (chunk_range _ _ _ _ _ Hck) as (-> & Hpe & He).
  destruct Hr as [Hi Ha Hc Hg Hw Hrd Hap Hpg]. destruct (change_range_spec enable (gpu r) (p - i * 1024) (e - i * 1024) Hg) as (b & Eb & Hb & Hbit); [lia|done|].
  cbn [GetRegionBits]. rewrite Eb. cbn [mbind option_bind set_bits]. fold (precise mode). destruct (precise mode) eqn:Hp.
  - assert (Hap' : forall x, bit b x = true -> bit (cpu r) x = false).
    { intros x Hx. rewrite Hbit in Hx. specialize (Hap eq_refl x). destruct enable; cbn in Hx; [|by apply andb_true_iff in Hx as [Hx _]; apply Hap].
      apply orb_true_iff in Hx as [Hx|Hx]; [by apply Hap|by apply Hno]. }
    destruct (UpdateProtection_read i (r <| gpu := b |>) (gpu r) enable s) as (s' & E & Hout & Hpages); try done.
    + cbn. by apply Hrd.
    + cbn. intros x. rewrite Hbit. destruct enable, (bit (gpu r) x), (in_range _ _ x); cbn; done.
    + rewrite E. eexists _, s'. split; [done|]. split; [split|..]; cbn; try done. split; [apply region_not, Hb|done].
  - exists (r <| gpu := b |>), s. split; [done|]. split; [split|..]; cbn; try done.
    + split; [apply Hrd|by rewrite Hp].
    + by rewrite Hp.
    + intros q Hq. apply (page_ok_gpu_irrelevant s q _ (bit (gpu r) (q - i * 1024))); [done|by apply Hpg].
Qed.

(** The ranges a callback gets: whole pages, in order and apart, exactly those with [m]. *)
Definition reports (m : Z -> bool) (l : list (Z * Z)) : Prop :=
  Forall (fun a => fst a mod 4096 = 0 /\ snd a mod 4096 = 0 /\ 0 < snd a) l /\ StronglySorted (fun a a' => fst a + snd a <= fst a') l /\
  forall q, m q = true <-> exists a, a ∈ l /\ fst a <= q * 4096 < fst a + snd a.

Lemma runs_reported i r s mask runs : region_inv i r s -> region_bits mask -> ranges avx mask = Some runs ->
  reports (fun q => bit mask (q - i * 1024))
    (map (fun run => (cpu_addr r +64 fst run * TRACKER_BYTES_PER_PAGE, (snd run - fst run) * TRACKER_BYTES_PER_PAGE)) runs).
Proof.
  intros Hr Hm Er. destruct (ranges_spec avx mask (proj1 Hm)) as (l & El & Hl). rewrite Er in El. injection El as <-.
  destruct (runs_from_runs mask 0 runs) as [Hruns Hsort]; [done|left; apply bit_out; lia|done|].
  pose proof (rv_index _ _ _ Hr) as Hi. change NUM_HIGH_PAGES with 262144 in Hi. rewrite (rv_addr _ _ _ Hr). change TRACKER_BYTES_PER_PAGE with 4096.
  assert (Hin : Forall (fun x => 0 <= fst x < snd x /\ snd x <= 1024) runs).
  { apply (Forall_impl _ _ _ Hruns). intros x (Hb & Ho & _). split; [done|]. destruct (Z.le_gt_cases (snd x) 1024); [done|].
    specialize (Ho (snd x - 1) ltac:(lia)). by rewrite bit_out in Ho by (rewrite (region_size _ Hm); lia). }
  assert (Haddr : forall x, x ∈ runs -> i * 4194304 +64 fst x * 4096 = i * 4194304 + fst x * 4096).
  { intros x Hx. pose proof (proj1 (Forall_forall _ _) Hin x Hx). cbn in *. apply wrap64_small. u64_lia. }
  split_and!.
  - apply Forall_map, Forall_forall. intros x Hx. pose proof (proj1 (Forall_forall _ _) Hin x Hx). cbn in *. rewrite Haddr by done.
    split_and!; [|apply Z.mod_mul; lia|lia]. replace (i * 4194304 + fst x * 4096) with ((i * 1024 + fst x) * 4096) by lia. apply Z.mod_mul. lia.
  - clear Er Hl Hruns. induction Hsort as [|x l Hs IH Hx]; [constructor|]. apply Forall_cons in Hin as [Hx1 Hin]. cbn [map]. constructor.
    + apply IH; [done|]. intros y Hy. apply Haddr. by right.
    + apply Forall_map, Forall_forall. intros y Hy. pose proof (proj1 (Forall_forall _ _) Hx y Hy). cbn in *. rewrite !Haddr by (by left || by right). lia.
  - intros q. destruct (Z.lt_ge_cases (q - i * 1024) 0) as [Hneg|Hpos].
    { rewrite bit_out by lia. split; [done|]. intros (a & Ha & Hq). apply list_elem_of_fmap in Ha as (x & -> & Hx). pose proof (proj1 (Forall_forall _ _) Hin x Hx). cbn in *.
      rewrite Haddr in Hq by done. lia. }
    rewrite (runs_from_cover mask 0 runs _ Hl Hpos). split.
    + intros (x & Hx & Hq). eexists. split; [apply list_elem_of_fmap; by exists x|]. cbn. rewrite Haddr by done. lia.
    + intros (a & Ha & Hq). apply list_elem_of_fmap in Ha as (x & -> & Hx). exists x. split; [done|]. cbn in Hq. rewrite Haddr in Hq by done. lia.
Qed.

Lemma reports_ext m m' l : (forall q, m q = m' q) -> reports m l -> reports m' l.
Proof. intros H (H1 & H2 & H3). split_and!; [done|done|]. intros q. rewrite <- H. apply H3. Qed.

Lemma in_range_shift p e q k : in_range (p - k) (e - k) (q - k) = in_range p e q.
Proof. unfold in_range. destruct (Z.leb_spec (p - k) (q - k)), (Z.leb_spec p q), (Z.ltb_spec (q - k) (e - k)), (Z.ltb_spec q e); try lia; done. Qed.

Lemma copied b p e : region_bits b -> 0 <= p -> e <= 1024 -> exists mask, copy_range avx b p e = Some mask /\ region_bits mask /\ forall x, bit mask x = in_range p e x && bit b x.
Proof.
  intros Hb Hp He. destruct (copy_range_spec avx b p e (proj1 Hb) Hp) as (m & E & Hl & Ho & Hbit & _). exists m. split_and!; [done|split; [done|rewrite Hl; apply Hb]|].
  apply Hbit. rewrite (region_size _ Hb). done.
Qed.

Lemma upload_cpu i p e offset size r s : region_inv i r s -> chunk i p e offset size ->
  exists r' s' l, ForEachModifiedRange avx mode Type_.CPU true (cpu_addr r +64 offset) size r s = Some (r', s', l) /\
    region_result i r s (fun x => bit (cpu r) x && negb (in_range (p - i * 1024) (e - i * 1024) x)) (bit (gpu r)) r' s' /\
    reports (fun q => in_range p e q && bit (cpu r) (q - i * 1024)) l.
Proof.
  intros Hr Hck. unfold ForEachModifiedRange. rewrite (chunk_addr i r s p e offset size) by done. destruct (chunk_range _ _ _ _ _ Hck) as (-> & Hpe & He).
  pose proof Hr as Hr0. destruct Hr as [Hi Ha Hc Hg Hw Hrd Hap Hpg]. destruct (copied (cpu r) (p - i * 1024) (e - i * 1024) Hc) as (mask & Em & Hm & Hmb); [lia|done|].
  destruct (change_range_spec false (cpu r) (p - i * 1024) (e - i * 1024) Hc) as (b & Eb & Hb & Hbit); [lia|done|]. cbn [gpu_after] in Hbit.
  cbn [GetRegionBits]. rewrite Em. cbn [mbind option_bind]. rewrite Eb. cbn [mbind option_bind set_bits].
  destruct (UpdateProtection_write i (r <| cpu := b |>) true s) as (s' & E & Hout & Hpages); try done.
  - cbn. by rewrite Hw.
  - cbn. intros x. rewrite Hw, Hbit. destruct (in_range _ _ x), (bit (cpu r) x); cbn; done.
  - cbn. intros Hp x Hx. rewrite Hbit, Hap by done. done.
  - cbn. intros q Hq. rewrite Hw. by apply Hpg.
  - rewrite E. cbn [mbind option_bind]. destruct (ranges_spec avx mask (proj1 Hm)) as (runs & El & _). rewrite El. cbn [mbind option_bind].
    eexists _, s', _. split; [done|]. split; [split; [split|..]; cbn; try done|].
    + intros Hp x Hx. rewrite Hbit, Hap by done. done.
    + cbn [cpu_addr]. eapply reports_ext; [|by apply (runs_reported i r s mask)]. intros q. cbn. by rewrite Hmb, in_range_shift.
Qed.

Lemma download_gpu i p e offset size r s : region_inv i r s -> chunk i p e offset size ->
  exists l, ForEachModifiedRange avx mode Type_.GPU false (cpu_addr r +64 offset) size r s = Some (r, s, l) /\
    reports (fun q => in_range p e q && bit (gpu r) (q - i * 1024)) l.
Proof.
  intros Hr Hck. unfold ForEachModifiedRange. rewrite (chunk_addr i r s p e offset size) by done. destruct (chunk_range _ _ _ _ _ Hck) as (-> & Hpe & He).
  destruct (copied (gpu r) (p - i * 1024) (e - i * 1024) (rv_gpu _ _ _ Hr)) as (mask & Em & Hm & Hmb); [lia|done|].
  cbn [GetRegionBits]. rewrite Em. cbn [mbind option_bind]. destruct (ranges_spec avx mask (proj1 Hm)) as (runs & El & _). rewrite El. cbn [mbind option_bind].
  eexists. split; [done|]. eapply reports_ext; [|by apply (runs_reported i r s mask)]. intros q. cbn. by rewrite Hmb, in_range_shift.
Qed.

Lemma modified_spec type i p e offset size r s : region_inv i r s -> chunk i p e offset size ->
  exists b, IsRegionModified avx type offset size r = Some b /\
    (b = true <-> exists q, p <= q < e /\ bit (GetRegionBits type r) (q - i * 1024) = true).
Proof.
  intros Hr Hck. unfold IsRegionModified. destruct (chunk_range _ _ _ _ _ Hck) as (-> & Hpe & He).
  assert (Hb : region_bits (GetRegionBits type r)) by (destruct type; [apply (rv_cpu _ _ _ Hr)|apply (rv_gpu _ _ _ Hr)]).
  destruct (copied _ (p - i * 1024) (e - i * 1024) Hb) as (mask & Em & Hm & Hmb); [lia|done|]. rewrite Em. cbn [mbind option_bind].
  eexists. split; [done|]. rewrite (Any_spec mask (proj1 Hm)). split.
  - intros (x & Hx). rewrite Hmb in Hx. apply andb_true_iff in Hx as [Hin%in_range_spec Hx]. exists (x + i * 1024). split; [lia|]. by replace (x + i * 1024 - i * 1024) with x by lia.
  - intros (q & Hq & Hx). exists (q - i * 1024). rewrite Hmb, Hx, in_range_shift. by rewrite (proj2 (in_range_spec p e q) Hq).
Qed.

(** * The tracker *)

Lemma iterate_spec create func (P : Z -> MemoryTracker -> Prop) (Stop : MemoryTracker -> Prop) first last :
  (forall i p e offset size t, chunk i p e offset size -> 0 <= i < NUM_HIGH_PAGES -> first <= p -> e <= last -> P p t ->
     match top_tier t !! i with
     | Some _ => exists t' b, func i offset size t = Some (t', b) /\ if (b : bool) then Stop t' else P e t'
     | None => if (create : bool) then exists t1 t' b, CreateRegion i t = Some t1 /\ func i offset size t1 = Some (t', b) /\ if (b : bool) then Stop t' else P e t' else P e t
     end) ->
  forall fuel i off n t, 0 <= i -> 0 <= off < 4194304 -> 0 < n -> i * 4194304 + off + n <= 2 ^ MAX_CPU_PAGE_BITS -> off + n <= Z.of_nat fuel * 4194304 ->
    first <= i * 1024 + off / 4096 -> (i * 4194304 + off + n + 4095) / 4096 <= last -> P (i * 1024 + off / 4096) t ->
    exists t' b, iterate create func fuel i off n t = Some (t', b) /\ if (b : bool) then Stop t' else P ((i * 4194304 + off + n + 4095) / 4096) t'.
Proof.
  intros Hstep fuel. change (2 ^ MAX_CPU_PAGE_BITS) with 1099511627776. induction fuel as [|fuel IH]; intros i off n t Hi Hoff Hn Hm Hfuel Hf Hl HP; [lia|].
  cbn [iterate]. rewrite (proj2 (Z.leb_gt n 0)) by lia. change TRACKER_HIGHER_PAGE_SIZE with 4194304. rewrite (wrap64_small (4194304 - off)) by u64_lia.
  set (c := Z.min (4194304 - off) n). change NUM_HIGH_PAGES with 262144 in *. rewrite (proj2 (Z.leb_gt 262144 i)) by lia.
  assert (Hck : chunk i (i * 1024 + off / 4096) ((i * 4194304 + off + c + 4095) / 4096) off c).
  { split; try lia. replace (i * 4194304 + off + c + 4095) with (off + c + 4095 + i * 1024 * 4096) by lia. rewrite Z.div_add by lia. lia. }
  specialize (Hstep _ _ _ _ _ t Hck ltac:(lia) Hf).
  assert (He : (i * 4194304 + off + c + 4095) / 4096 <= (i * 4194304 + off + n + 4095) / 4096) by (apply Z.div_le_mono; lia). specialize (Hstep ltac:(lia) HP).
  assert (Hnext : exists t1 b, match top_tier t !! i with
      | Some _ => func i off c t
      | None => if create then t ← CreateRegion i t; func i off c t else Some (t, false)
      end = Some (t1, b) /\ if (b : bool) then Stop t1 else P ((i * 4194304 + off + c + 4095) / 4096) t1).
  { destruct (top_tier t !! i); [done|]. destruct create; [|by exists t, false]. destruct Hstep as (t1 & t2 & b & -> & E & H). by exists t2, b. }
  destruct Hnext as (t1 & b & -> & H1). cbn [mbind option_bind]. destruct b; [by exists t1, true|]. rewrite (wrap64_small (n - c)) by u64_lia.
  destruct (Z.eq_dec (n - c) 0) as [E0|Hmore].
  - exists t1, false. split; [rewrite E0; by destruct fuel|]. by replace c with n in H1 by lia.
  - assert (Ec : c = 4194304 - off) by lia.
    assert (Ep : (i * 4194304 + off + c + 4095) / 4096 = (i + 1) * 1024 + 0 / 4096) by (rewrite Ec; Z.to_euclidean_division_equations; lia).
    assert (Hp : first <= (i + 1) * 1024 + 0 / 4096) by (pose proof (Z.div_le_upper_bound off 4096 1024); change (0 / 4096) with 0; lia).
    assert (Hl' : ((i + 1) * 4194304 + 0 + (n - c) + 4095) / 4096 <= last).
    { by replace ((i + 1) * 4194304 + 0 + (n - c) + 4095) with (i * 4194304 + off + n + 4095) by lia. }
    destruct (IH (i + 1) 0 (n - c) t1) as (t2 & b2 & E2 & H2); [lia|lia|lia|lia|lia|done|done|by rewrite <- Ep|].
    exists t2, b2. split; [done|]. by replace ((i + 1) * 4194304 + 0 + (n - c) + 4095) with (i * 4194304 + off + n + 4095) in H2 by lia.
Qed.

Lemma IteratePages_spec create func (P : Z -> MemoryTracker -> Prop) (Stop : MemoryTracker -> Prop) addr size t :
  0 <= addr -> 0 < size -> addr + size <= 2 ^ MAX_CPU_PAGE_BITS ->
  (forall i p e offset size' t, chunk i p e offset size' -> 0 <= i < NUM_HIGH_PAGES -> first_page addr <= p -> e <= end_page addr size -> P p t ->
     match top_tier t !! i with
     | Some _ => exists t' b, func i offset size' t = Some (t', b) /\ if (b : bool) then Stop t' else P e t'
     | None => if (create : bool) then exists t1 t' b, CreateRegion i t = Some t1 /\ func i offset size' t1 = Some (t', b) /\ if (b : bool) then Stop t' else P e t' else P e t
     end) ->
  P (first_page addr) t ->
  exists t' b, IteratePages create func addr size t = Some (t', b) /\ if (b : bool) then Stop t' else P (end_page addr size) t'.
Proof.
  intros Ha Hs Hm Hstep HP. unfold IteratePages. change TRACKER_HIGHER_PAGE_SIZE with 4194304. rewrite Z.shiftr_div_pow2 by done.
  change TRACKER_HIGHER_PAGE_MASK with (Z.ones 22). rewrite Z.land_ones by done. change (2 ^ TRACKER_HIGHER_PAGE_BITS) with 4194304. change (2 ^ 22) with 4194304.
  pose proof (Z.mod_pos_bound addr 4194304 ltac:(lia)) as Hoff. pose proof (Z.div_mod addr 4194304 ltac:(lia)) as Ea.
  assert (Ef : addr / 4194304 * 1024 + addr mod 4194304 / 4096 = first_page addr) by (unfold first_page, PM_PAGE_SIZE; Z.to_euclidean_division_equations; lia).
  assert (Ee : (addr / 4194304 * 4194304 + addr mod 4194304 + size + 4095) / 4096 = end_page addr size) by (unfold end_page, PM_PAGE_SIZE; f_equal; lia).
  destruct (iterate_spec create func P Stop (first_page addr) (end_page addr size) Hstep (Z.to_nat (size / 4194304) + 2) (addr / 4194304) (addr mod 4194304) size t)
    as (t' & b & E & H); [apply Z.div_pos; lia|done|done| | |lia|lia|by rewrite Ef|].
  - change (2 ^ MAX_CPU_PAGE_BITS) with 1099511627776 in *. lia.
  - pose proof (Z.div_mod size 4194304 ltac:(lia)). pose proof (Z.mod_pos_bound size 4194304 ltac:(lia)). pose proof (Z.div_pos size 4194304 ltac:(lia) ltac:(lia)). lia.
  - exists t', b. split; [done|]. by rewrite Ee in H.
Qed.

(** ** What the tracker stands for *)

(** Whether a page was changed by the CPU and by the GPU; a region that was never made is as new. *)
Definition view (t : MemoryTracker) (q : Z) : bool * bool :=
  match top_tier t !! (q / 1024) with
  | Some r => (bit (cpu r) (q mod 1024), bit (gpu r) (q mod 1024))
  | None => (true, false)
  end.
Definition cpu_page (t : MemoryTracker) (q : Z) : bool := fst (view t q).
Definition gpu_page (t : MemoryTracker) (q : Z) : bool := snd (view t q).

Lemma region_page_spec i q : region_page i q <-> q / 1024 = i.
Proof. unfold region_page. split; intros H; Z.to_euclidean_division_equations; lia. Qed.

Lemma view_in t i r q : top_tier t !! i = Some r -> region_page i q -> view t q = (bit (cpu r) (q - i * 1024), bit (gpu r) (q - i * 1024)).
Proof.
  intros Hr Hq%region_page_spec. unfold view. rewrite Hq, Hr. assert (q mod 1024 = q - i * 1024) as -> by (Z.to_euclidean_division_equations; lia). done.
Qed.

(** The regions, and every page of the address space, are in order. *)
Record tracker_inv (t : MemoryTracker) : Prop := {
  ti_region : forall i r, top_tier t !! i = Some r -> region_inv i r (tracker t);
  ti_free : Forall (fun r => r = new_region 0) (free_managers t);
  ti_page : forall q, 0 <= q < NUM_ADDRESS_PAGES -> page_ok (tracker t) q (cpu_page t q) (gpu_page t q)
}.

Lemma no_bits_region : region_bits (Fill no_bits) /\ region_bits (Clear no_bits) /\ Fill no_bits = not_ (Clear no_bits).
Proof. split_and!; [split; [apply Fill_spec|done]|split; [apply Clear_ok|done]|reflexivity]. Qed.

Lemma new_bits x : bit (Fill no_bits) x = in_range 0 1024 x /\ bit (Clear no_bits) x = false.
Proof. split; [apply (Fill_spec no_bits)|apply bit_Clear]. Qed.

Lemma CreateRegion_spec i t : tracker_inv t -> 0 <= i < NUM_HIGH_PAGES -> top_tier t !! i = None ->
  exists t', CreateRegion i t = Some t' /\ tracker_inv t' /\ (forall q, view t' q = view t q) /\ is_Some (top_tier t' !! i) /\
    tracker t' = tracker t /\ reported t' = reported t.
Proof.
  intros [Hreg Hfree Hpg] Hi Hnone. unfold CreateRegion. set (free := match free_managers t with [] => replicate MANAGER_POOL_SIZE (new_region 0) | free => free end).
  assert (Hall : Forall (fun r => r = new_region 0) free).
  { unfold free. destruct (free_managers t); [by apply Forall_replicate|done]. }
  assert (Hl : last free = Some (new_region 0)).
  { destruct (last free) as [r|] eqn:E; [|apply last_None in E; unfold free in E; by destruct (free_managers t)].
    f_equal. apply last_Some in E as [l' E]. rewrite E in Hall. apply Forall_app in Hall as [_ Hall]. by apply Forall_cons in Hall as [-> _]. }
  rewrite Hl. cbn [mbind option_bind]. rewrite Z.shiftl_mul_pow2 by done. change (2 ^ TRACKER_HIGHER_PAGE_BITS) with 4194304.
  eexists. split; [done|]. set (t' := t <| free_managers := _ |> <| top_tier ::= _ |>).
  assert (Hv : forall q, view t' q = view t q).
  { intros q. unfold view. change (top_tier t') with (<[i:=new_region (i * 4194304)]> (top_tier t)). destruct (decide (q / 1024 = i)) as [->|Hne]; [|by rewrite lookup_insert_ne by done].
    rewrite lookup_insert_eq, Hnone. cbn [cpu gpu new_region]. destruct (new_bits (q mod 1024)) as [-> ->]. rewrite (proj2 (in_range_spec 0 1024 _)); [done|]. apply Z.mod_pos_bound. lia. }
  split_and!; [|done|change (top_tier t') with (<[i:=new_region (i * 4194304)]> (top_tier t)); by rewrite lookup_insert_eq|done|done].
  destruct no_bits_region as (Hf & Hc & Hn). split.
  - intros j r. change (top_tier t') with (<[i:=new_region (i * 4194304)]> (top_tier t)). intros [[<- <-]|[Hne Hj]]%lookup_insert_Some; [|by apply Hreg].
    split; cbn [cpu gpu writeable readable cpu_addr new_region]; try done.
    + intros _ x Hx. by rewrite (proj2 (new_bits x)) in Hx.
    + intros q Hq. destruct (new_bits (q - i * 1024)) as [-> ->]. rewrite (proj2 (in_range_spec 0 1024 _)) by (unfold region_page in Hq; lia).
      assert (Hvq : view t q = (true, false)) by (unfold view; apply region_page_spec in Hq as ->; by rewrite Hnone).
      specialize (Hpg q). unfold cpu_page, gpu_page in Hpg. rewrite Hvq in Hpg. apply Hpg. change NUM_HIGH_PAGES with 262144 in Hi. change NUM_ADDRESS_PAGES with 268435456.
      unfold region_page in Hq. lia.
  - change (free_managers t') with (take (length free - 1) free). by apply Forall_take.
  - intros q Hq. unfold cpu_page, gpu_page. rewrite Hv. by apply Hpg.
Qed.

Lemma region_page_unique i j q : region_page i q -> region_page j q -> i = j.
Proof. unfold region_page. lia. Qed.

(** Putting the result of an operation on a region back. *)
Lemma put_region t i r cpu' gpu' r' s' l : tracker_inv t -> top_tier t !! i = Some r -> region_result i r (tracker t) cpu' gpu' r' s' ->
  let t' := t <| top_tier ::= <[i := r']> |> <| tracker := s' |> <| reported ::= fun k => k ++ l |> in
  tracker_inv t' /\ forall q, view t' q = if bool_decide (q / 1024 = i) then (cpu' (q - i * 1024), gpu' (q - i * 1024)) else view t q.
Proof.
  intros [Hreg Hfree Hpg] Hr [Hinv Hc Hg Hout] t'.
  assert (Hv : forall q, view t' q = if bool_decide (q / 1024 = i) then (cpu' (q - i * 1024), gpu' (q - i * 1024)) else view t q).
  { intros q. case_bool_decide as Hq.
    - rewrite (view_in t' i r'); [by rewrite Hc, Hg|change (top_tier t') with (<[i:=r']> (top_tier t)); by rewrite lookup_insert_eq|by apply region_page_spec].
    - unfold view. change (top_tier t') with (<[i:=r']> (top_tier t)). by rewrite lookup_insert_ne by done. }
  assert (Hother : forall q c g, ~ region_page i q -> page_ok (tracker t) q c g -> page_ok s' q c g).
  { intros q c g Hq [Hsy Hst]. destruct (Hout q Hq) as [E1 E2]. split; [by apply (synced_same host (tracker t) s')|by rewrite E1]. }
  split; [|done]. split; [|done|].
  - intros j r0. change (top_tier t') with (<[i:=r']> (top_tier t)). intros [[<- <-]|[Hne Hj]]%lookup_insert_Some; [done|]. destruct (Hreg j r0 Hj) as [? ? ? ? ? ? ? Hp].
    split; try done. intros q Hq. apply Hother; [|by apply Hp]. intros Hq'. by pose proof (region_page_unique _ _ _ Hq' Hq).
  - intros q Hq. unfold cpu_page, gpu_page. rewrite Hv. change (tracker t') with s'. case_bool_decide as Hqi.
    + apply region_page_spec in Hqi. cbn [fst snd]. rewrite <- Hc, <- Hg. by apply (rv_pages _ _ _ Hinv).
    + apply Hother; [by rewrite region_page_spec|by apply Hpg].
Qed.

(** ** Sweeping over the regions of a range *)

Lemma sorted_app (R : Z * Z -> Z * Z -> Prop) l l' : StronglySorted R l -> StronglySorted R l' -> (forall a b, a ∈ l -> b ∈ l' -> R a b) -> StronglySorted R (l ++ l').
Proof.
  intros Hs Hs' H. induction Hs as [|a l Hs IH Ha]; [done|]. cbn. constructor.
  - apply IH. intros x y Hx Hy. apply H; [by right|done].
  - apply Forall_app. split; [done|]. apply Forall_forall. intros b Hb. apply H; [by left|done].
Qed.

Lemma reports_app m m' l l' p : reports m l -> reports m' l' -> (forall q, m q = true -> q < p) -> (forall q, m' q = true -> p <= q) ->
  reports (fun q => m q || m' q) (l ++ l').
Proof.
  intros (H1 & H2 & H3) (H1' & H2' & H3') Hp Hp'. split_and!; [by apply Forall_app| |].
  - apply sorted_app; [done|done|]. intros a b Ha Hb. pose proof (proj1 (Forall_forall _ _) H1 a Ha) as (Ma & Na & Pa). pose proof (proj1 (Forall_forall _ _) H1' b Hb) as (Mb & Nb & Pb).
    assert (Hqa : m ((fst a + snd a) / 4096 - 1) = true) by (apply H3; exists a; split; [done|Z.to_euclidean_division_equations; lia]).
    assert (Hqb : m' (fst b / 4096) = true) by (apply H3'; exists b; split; [done|Z.to_euclidean_division_equations; lia]).
    apply Hp in Hqa. apply Hp' in Hqb. Z.to_euclidean_division_equations; lia.
  - intros q. rewrite orb_true_iff, H3, H3'. split.
    + intros [(a & Ha & Hq)|(a & Ha & Hq)]; exists a; (split; [apply elem_of_app; tauto|done]).
    + intros (a & [Ha|Ha]%elem_of_app & Hq); [left|right]; by exists a.
Qed.

Lemma reports_nil m : (forall q, m q = false) -> reports m [].
Proof. intros H. split_and!; [constructor|constructor|]. intros q. rewrite H. split; [done|]. intros (a & Ha & _). by apply not_elem_of_nil in Ha. Qed.

Lemma reports_false m l : reports m l -> (forall q, m q = false) -> l = [].
Proof.
  intros (H1 & _ & H3) Hno. destruct l as [|a l]; [done|]. apply Forall_cons in H1 as [(M & N & Hp) _].
  assert (Hf : m (fst a / 4096) = true) by (apply H3; exists a; split; [by left|Z.to_euclidean_division_equations; lia]). by rewrite Hno in Hf.
Qed.

Lemma in_range_join first p e q : first <= p <= e -> in_range first e q = in_range first p q || in_range p e q.
Proof. unfold in_range. intros H. by destruct (Z.leb_spec first q), (Z.leb_spec p q), (Z.ltb_spec q p), (Z.ltb_spec q e); try lia. Qed.

(** A callback on regions that changes the pages of its range by [u] and reports those with [m],
    when they satisfy [pre]. *)
Definition region_op (f : RegionManager -> Z -> Z -> Pages -> option (RegionManager * Pages * list (Z * Z))) (u : bool * bool -> bool * bool)
    (m : bool * bool -> bool) (pre : bool * bool -> Prop) : Prop :=
  forall i p e offset size r s, chunk i p e offset size -> region_inv i r s ->
    (forall q, p <= q < e -> pre (bit (cpu r) (q - i * 1024), bit (gpu r) (q - i * 1024))) ->
    let v q := (bit (cpu r) (q - i * 1024), bit (gpu r) (q - i * 1024)) in
    let v' q := if in_range p e q then u (v q) else v q in
    exists r' s' l, f r offset size s = Some (r', s', l) /\
      region_result i r s (fun x => fst (v' (x + i * 1024))) (fun x => snd (v' (x + i * 1024))) r' s' /\
      reports (fun q => in_range p e q && m (v q)) l.

(** The state while a range of pages is swept over: [first .. p) is done. *)
Record sweeping (u : bool * bool -> bool * bool) (m : bool * bool -> bool) (t0 : MemoryTracker) (first p : Z) (t : MemoryTracker) : Prop := {
  sw_inv : tracker_inv t;
  sw_view : forall q, view t q = if in_range first p q then u (view t0 q) else view t0 q;
  sw_reported : exists l, reported t = reported t0 ++ l /\ reports (fun q => in_range first p q && m (view t0 q)) l
}.

Lemma sweep_region f u m pre t0 first p i e offset size t : region_op f u m pre -> (forall q, p <= q < e -> pre (view t0 q)) ->
  chunk i p e offset size -> first <= p -> sweeping u m t0 first p t -> is_Some (top_tier t !! i) ->
  exists t', on_manager f i offset size t = Some (t', false) /\ sweeping u m t0 first e t'.
Proof.
  intros Hop Hpre Hck Hf [Hinv Hv Hrep] [r Hr]. destruct (chunk_range _ _ _ _ _ Hck) as (_ & Hpe & He1024).
  assert (Hreg : forall q, p <= q < e -> region_page i q) by (unfold region_page; intros; lia).
  assert (Hvr : forall q, region_page i q -> (bit (cpu r) (q - i * 1024), bit (gpu r) (q - i * 1024)) = view t q) by (intros q Hq; by rewrite (view_in t i r)).
  assert (Hv0 : forall q, p <= q -> view t q = view t0 q) by (intros q Hq; rewrite Hv; unfold in_range; destruct (Z.ltb_spec q p); [lia|by rewrite andb_false_r]).
  destruct (Hop i p e offset size r (tracker t) Hck) as (r' & s' & l & E & Hres & Hl); [by apply (ti_region t Hinv)| |].
  { intros q Hq. rewrite Hvr, Hv0 by (by apply Hreg || lia). by apply Hpre. }
  unfold on_manager. rewrite Hr. cbn [mbind option_bind]. rewrite E. cbn [mbind option_bind]. eexists. split; [done|].
  destruct (put_region t i r _ _ r' s' l Hinv Hr Hres) as [Hinv' Hv']. split; [done| |].
  - intros q. rewrite Hv'. rewrite (in_range_join first p e) by lia. case_bool_decide as Hq.
    + apply region_page_spec in Hq. replace (q - i * 1024 + i * 1024) with q by lia. rewrite Hvr by done. rewrite <- surjective_pairing.
      destruct (in_range p e q) eqn:Hin; [|by rewrite orb_false_r; apply Hv]. apply in_range_spec in Hin. rewrite Hv0 by lia. by rewrite orb_true_r.
    + destruct (in_range p e q) eqn:Hin; [|by rewrite orb_false_r; apply Hv]. apply in_range_spec, Hreg, region_page_spec in Hin. done.
  - destruct Hrep as (l0 & E0 & Hl0). exists (l0 ++ l). cbn. split; [by rewrite E0, app_assoc|].
    apply (reports_ext (fun q => (in_range first p q && m (view t0 q)) || (in_range p e q && m (view t0 q)))).
    { intros q. rewrite (in_range_join first p e) by lia. by destruct (in_range first p q), (in_range p e q), (m (view t0 q)). }
    apply (reports_app _ _ _ _ p); [done| |intros q H; apply andb_true_iff in H as [H%in_range_spec _]; lia|intros q H; apply andb_true_iff in H as [H%in_range_spec _]; lia].
    apply (reports_ext (fun q => in_range p e q && m (bit (cpu r) (q - i * 1024), bit (gpu r) (q - i * 1024)))); [|done].
    intros q. destruct (in_range p e q) eqn:Hin; [|done]. apply in_range_spec in Hin. by rewrite Hvr, Hv0 by (by apply Hreg || lia).
Qed.

(** A page of a region that was never made. *)
Lemma sweep_absent u m (pre : bool * bool -> Prop) t0 first p i e offset size t : (pre (true, false) -> u (true, false) = (true, false) /\ m (true, false) = false) ->
  (forall q, p <= q < e -> pre (view t0 q)) -> chunk i p e offset size -> first <= p -> sweeping u m t0 first p t -> top_tier t !! i = None -> sweeping u m t0 first e t.
Proof.
  intros Hu Hpre Hck Hf [Hinv Hv (l & El & Hl)] Hnone. destruct (chunk_range _ _ _ _ _ Hck) as (_ & Hpe & He1024).
  assert (Hv0 : forall q, in_range p e q = true -> view t0 q = (true, false)).
  { intros q Hin. apply in_range_spec in Hin. assert (Hq : q / 1024 = i) by (apply region_page_spec; unfold region_page; lia).
    specialize (Hv q). unfold in_range in Hv. destruct (Z.ltb_spec q p) in Hv; [lia|]. rewrite andb_false_r in Hv. rewrite <- Hv. unfold view. by rewrite Hq, Hnone. }
  destruct Hu as [Hu Hm]; [rewrite <- (Hv0 p); [apply Hpre; lia|apply in_range_spec; lia]|]. split; [done| |].
  - intros q. rewrite Hv, (in_range_join first p e) by lia. destruct (in_range first p q); [done|]. cbn [orb]. destruct (in_range p e q) eqn:Hin; [|done]. by rewrite Hv0, Hu.
  - exists l. split; [done|]. apply (reports_ext (fun q => in_range first p q && m (view t0 q))); [|done]. intros q. rewrite (in_range_join first p e) by lia.
    destruct (in_range first p q); [done|]. cbn [orb]. destruct (in_range p e q) eqn:Hin; [|done]. by rewrite Hv0, Hm.
Qed.

Lemma sweep_start u m t first : tracker_inv t -> sweeping u m t first first t.
Proof.
  intros H. assert (Hno : forall q, in_range first first q = false) by (intros q; unfold in_range; by destruct (Z.leb_spec first q), (Z.ltb_spec q first); try lia).
  split; [done|intros q; by rewrite Hno|]. exists []. split; [by rewrite app_nil_r|]. apply reports_nil. intros q. by rewrite Hno.
Qed.

Lemma sweep create f u m pre addr size t : region_op f u m pre -> create = true \/ (pre (true, false) -> u (true, false) = (true, false) /\ m (true, false) = false) ->
  tracker_inv t -> 0 <= addr -> 0 < size -> addr + size <= 2 ^ MAX_CPU_PAGE_BITS ->
  (forall q, first_page addr <= q < end_page addr size -> pre (view t q)) ->
  exists t', IteratePages create (on_manager f) addr size t = Some (t', false) /\ sweeping u m t (first_page addr) (end_page addr size) t'.
Proof.
  intros Hop Habs Hinv Ha Hs Hm Hpre.
  destruct (IteratePages_spec create (on_manager f) (sweeping u m t (first_page addr)) (fun _ => False) addr size t) as (t' & b & E & H);
    [done|done|done| |by apply sweep_start|destruct b; [done|by exists t']].
  intros i p e offset size' t1 Hck Hi Hf He Hsw. assert (Hpre' : forall q, p <= q < e -> pre (view t q)) by (intros q Hq; apply Hpre; lia).
  destruct (top_tier t1 !! i) eqn:Htop.
  - destruct (sweep_region f u m pre t (first_page addr) p i e offset size' t1) as (t2 & E & H); try done. by exists t2, false.
  - destruct create; [|destruct Habs as [|Hu]; [done|]; by apply (sweep_absent u m pre t (first_page addr) p i e offset size')].
    destruct Hsw as [Hinv1 Hv1 Hr1]. destruct (CreateRegion_spec i t1 Hinv1 Hi Htop) as (t2 & Ec & Hinv2 & Hv2 & Htop2 & _ & Hrep2).
    destruct (sweep_region f u m pre t (first_page addr) p i e offset size' t2) as (t3 & E & H); try done.
    { split; [done|intros q; by rewrite Hv2|by rewrite Hrep2]. } by exists t2, t3, false.
Qed.

(** ** The operations *)

Definition mark_page (v : bool * bool) : bool * bool := (true, snd v).
Definition unmark_page (v : bool * bool) : bool * bool := (fst v, false).
Definition write_page (v : bool * bool) : bool * bool := (fst v, true).
Definition upload_page (v : bool * bool) : bool * bool := (false, snd v).

Lemma in_range_unshift p e i x : in_range (p - i * 1024) (e - i * 1024) x = in_range p e (x + i * 1024).
Proof. rewrite <- (in_range_shift p e (x + i * 1024) (i * 1024)). f_equal. lia. Qed.

Lemma region_result_ext i r s cpu1 gpu1 cpu2 gpu2 r' s' : (forall x, cpu1 x = cpu2 x) -> (forall x, gpu1 x = gpu2 x) ->
  region_result i r s cpu1 gpu1 r' s' -> region_result i r s cpu2 gpu2 r' s'.
Proof. intros Hc Hg [? H1 H2 ?]. split; try done; intros x; [by rewrite H1|by rewrite H2]. Qed.

Lemma op_mark : region_op (changing (fun r offset size s => ChangeRegionState avx mode Type_.CPU true (cpu_addr r +64 offset) size r s))
  mark_page (fun _ => false) (fun v => precise mode = true -> snd v = false).
Proof.
  intros i p e offset size r s Hck Hr Hpre v v'. destruct (mark_cpu i p e offset size r s Hr Hck) as (r' & s' & E & Hres).
  { intros Hp x Hx. rewrite in_range_unshift in Hx. apply in_range_spec in Hx. specialize (Hpre (x + i * 1024) Hx Hp). cbn in Hpre. by replace (x + i * 1024 - i * 1024) with x in Hpre by lia. }
  unfold changing. rewrite E. cbn [mbind option_bind]. exists r', s', []. split_and!; [done| |apply reports_nil; intros q; apply andb_false_r].
  revert Hres. apply region_result_ext; intros x; unfold v', v; rewrite ?in_range_unshift; replace (x + i * 1024 - i * 1024) with x by lia;
    destruct (in_range p e (x + i * 1024)); cbn; by rewrite ?orb_true_r, ?orb_false_r.
Qed.

Lemma op_gpu enable : region_op (changing (fun r offset size s => ChangeRegionState avx mode Type_.GPU enable (cpu_addr r +64 offset) size r s))
  (if enable then write_page else unmark_page) (fun _ => false) (fun v => enable = true -> fst v = false).
Proof.
  intros i p e offset size r s Hck Hr Hpre v v'. destruct (change_gpu enable i p e offset size r s Hr Hck) as (r' & s' & E & Hres).
  { intros _ He x Hx. rewrite in_range_unshift in Hx. apply in_range_spec in Hx. specialize (Hpre (x + i * 1024) Hx He). cbn in Hpre. by replace (x + i * 1024 - i * 1024) with x in Hpre by lia. }
  unfold changing. rewrite E. cbn [mbind option_bind]. exists r', s', []. split_and!; [done| |apply reports_nil; intros q; apply andb_false_r].
  revert Hres. apply region_result_ext; intros x; unfold v', v; rewrite ?in_range_unshift; replace (x + i * 1024 - i * 1024) with x by lia;
    destruct (in_range p e (x + i * 1024)), enable; cbn; by rewrite ?orb_true_r, ?orb_false_r, ?andb_true_r, ?andb_false_r.
Qed.

Lemma op_upload : region_op (fun r offset size s => ForEachModifiedRange avx mode Type_.CPU true (cpu_addr r +64 offset) size r s) upload_page fst (fun _ => True).
Proof.
  intros i p e offset size r s Hck Hr _ v v'. destruct (upload_cpu i p e offset size r s Hr Hck) as (r' & s' & l & E & Hres & Hl). exists r', s', l. split_and!; [done| |done].
  revert Hres. apply region_result_ext; intros x; unfold v', v; rewrite ?in_range_unshift; replace (x + i * 1024 - i * 1024) with x by lia;
    destruct (in_range p e (x + i * 1024)); cbn; by rewrite ?andb_true_r, ?andb_false_r.
Qed.

Lemma op_download : region_op (fun r offset size s => ForEachModifiedRange avx mode Type_.GPU false (cpu_addr r +64 offset) size r s) (fun v => v) snd (fun _ => True).
Proof.
  intros i p e offset size r s Hck Hr _ v v'. destruct (download_gpu i p e offset size r s Hr Hck) as (l & E & Hl). exists r, s, l. split_and!; [done| |done].
  split; [done| | |apply same_outside_refl]; intros x; unfold v', v; replace (x + i * 1024 - i * 1024) with x by lia; by destruct (in_range p e (x + i * 1024)).
Qed.

(** The pages that a range of bytes touches. *)
Definition touches (addr size q : Z) : bool := in_range (first_page addr) (end_page addr size) q.
Record in_space (addr size : Z) : Prop := { is_low : 0 <= addr; is_size : 0 < size; is_high : addr + size <= 2 ^ MAX_CPU_PAGE_BITS }.

(** What an operation on a range leaves. *)
Definition swept (u : bool * bool -> bool * bool) (m : bool * bool -> bool) (addr size : Z) (t t' : MemoryTracker) : Prop :=
  sweeping u m t (first_page addr) (end_page addr size) t'.

Lemma Mark_spec addr size t : tracker_inv t -> in_space addr size -> (precise mode = true -> forall q, touches addr size q = true -> gpu_page t q = false) ->
  exists t', MarkRegionAsCpuModified avx mode addr size t = Some t' /\ swept mark_page (fun _ => false) addr size t t'.
Proof.
  intros Hinv [Ha Hs Hm] Hpre. unfold MarkRegionAsCpuModified, change.
  destruct (sweep false _ _ _ _ addr size t op_mark) as (t' & -> & H); [by right|done|done|done|done| |by exists t'].
  intros q Hq Hp. apply Hpre; [done|]. by apply in_range_spec.
Qed.

Lemma Unmark_spec addr size t : tracker_inv t -> in_space addr size ->
  exists t', UnmarkRegionAsGpuModified avx mode addr size t = Some t' /\ swept unmark_page (fun _ => false) addr size t t'.
Proof.
  intros Hinv [Ha Hs Hm]. unfold UnmarkRegionAsGpuModified, change.
  destruct (sweep false _ _ _ _ addr size t (op_gpu false)) as (t' & -> & H); [by right|done..|by exists t'].
Qed.

Lemma Download_spec addr size t : tracker_inv t -> in_space addr size ->
  exists t', ForEachDownloadRange avx mode false addr size t = Some t' /\ swept (fun v => v) snd addr size t t'.
Proof.
  intros Hinv [Ha Hs Hm]. unfold ForEachDownloadRange, modified_ranges.
  destruct (sweep false _ _ _ _ addr size t op_download) as (t' & -> & H); [by right|done..|by exists t'].
Qed.

Lemma Upload_spec addr size is_written on_upload t : tracker_inv t -> in_space addr size -> (forall t, on_upload t = Some t) ->
  exists t', ForEachUploadRange avx mode addr size is_written on_upload t = Some t' /\
    swept (fun v => if is_written then (false, true) else upload_page v) fst addr size t t'.
Proof.
  intros Hinv [Ha Hs Hm] Hup. unfold ForEachUploadRange, modified_ranges, change.
  destruct (sweep true _ _ _ _ addr size t op_upload) as (t1 & -> & H1); [by left|done..|]. cbn [mbind option_bind]. rewrite Hup. cbn [mbind option_bind].
  destruct is_written; cbn [negb]; [|by exists t1]. destruct H1 as [Hinv1 Hv1 (l & El & Hl)].
  destruct (sweep false _ _ _ _ addr size t1 (op_gpu true)) as (t2 & -> & [Hinv2 Hv2 (l2 & El2 & Hl2)]); [right; intros H; discriminate (H eq_refl)|done|done|done|done| |].
  { intros q Hq _. rewrite Hv1, (proj2 (in_range_spec _ _ q) Hq). done. }
  exists t2. split; [done|]. rewrite (reports_false _ _ Hl2) in El2 by (intros q; apply andb_false_r).
  split; [done| |].
  - intros q. rewrite Hv2, Hv1. by destruct (in_range _ _ q).
  - exists l. split; [by rewrite El2, app_nil_r|done].
Qed.

Definition modified_by (type : Type_.t) (v : bool * bool) : bool := match type with Type_.CPU => fst v | Type_.GPU => snd v end.

(** Nothing found so far, and nothing changed but for new regions. *)
Record searching (type : Type_.t) (t0 : MemoryTracker) (first p : Z) (t : MemoryTracker) : Prop := {
  se_inv : tracker_inv t;
  se_view : forall q, view t q = view t0 q;
  se_reported : reported t = reported t0;
  se_none : forall q, first <= q < p -> modified_by type (view t0 q) = false
}.

Lemma ask_region type t0 first last p i e offset size t : chunk i p e offset size -> first <= p -> e <= last -> searching type t0 first p t -> is_Some (top_tier t !! i) ->
  exists b, asking (fun r offset size => IsRegionModified avx type offset size r) i offset size t = Some (t, b) /\
    if b then exists q, first <= q < last /\ modified_by type (view t0 q) = true else searching type t0 first e t.
Proof.
  intros Hck Hf Hl [Hinv Hv Hrep Hno] [r Hr]. unfold asking. rewrite Hr. cbn [mbind option_bind].
  destruct (modified_spec type i p e offset size r (tracker t) (ti_region t Hinv i r Hr) Hck) as (b & -> & Hb). cbn [mbind option_bind]. exists b. split; [done|].
  destruct (chunk_range _ _ _ _ _ Hck) as (_ & Hpe & He1024).
  assert (Hvr : forall q, p <= q < e -> bit (GetRegionBits type r) (q - i * 1024) = modified_by type (view t0 q)).
  { intros q Hq. rewrite <- Hv, (view_in t i r) by (done || unfold region_page; lia). by destruct type. }
  destruct b.
  - destruct (proj1 Hb eq_refl) as (q & Hq & Hm). exists q. split; [lia|]. by rewrite <- Hvr.
  - split; try done. intros q Hq. destruct (Z.lt_ge_cases q p); [apply Hno; lia|]. destruct (modified_by type (view t0 q)) eqn:E; [|done].
    assert (false = true) as [=]. apply Hb. exists q. split; [lia|]. by rewrite Hvr by lia.
Qed.

Lemma ask_spec type create addr size t : tracker_inv t -> in_space addr size -> create = true \/ modified_by type (true, false) = false ->
  exists t' b, IteratePages create (asking (fun r offset size => IsRegionModified avx type offset size r)) addr size t = Some (t', b) /\
    tracker_inv t' /\ (forall q, view t' q = view t q) /\ reported t' = reported t /\
    (b = true <-> exists q, touches addr size q = true /\ modified_by type (view t q) = true).
Proof.
  intros Hinv [Ha Hs Hm] Habs.
  set (Stop := fun _ : MemoryTracker => exists q, first_page addr <= q < end_page addr size /\ modified_by type (view t q) = true).
  destruct (IteratePages_spec create (asking (fun r offset size => IsRegionModified avx type offset size r)) (searching type t (first_page addr))
    (fun t' => tracker_inv t' /\ (forall q, view t' q = view t q) /\ reported t' = reported t /\ Stop t') addr size t) as (t' & b & E & H); [done|done|done| |split; (done || lia)|].
  - intros i p e offset size' t1 Hck Hi Hf He Hse.
    assert (Hask : forall t2, searching type t (first_page addr) p t2 -> is_Some (top_tier t2 !! i) ->
      exists t' b, asking (fun r offset size => IsRegionModified avx type offset size r) i offset size' t2 = Some (t', b) /\
        if (b : bool) then tracker_inv t' /\ (forall q, view t' q = view t q) /\ reported t' = reported t /\ Stop t' else searching type t (first_page addr) e t').
    { intros t2 Hs2 Htop. destruct (ask_region type t (first_page addr) (end_page addr size) p i e offset size' t2 Hck Hf He Hs2 Htop) as (b & E & H).
      exists t2, b. split; [done|]. destruct b; [|done]. by destruct Hs2. }
    destruct (top_tier t1 !! i) eqn:Htop; [by apply Hask; [|rewrite Htop]|]. pose proof Hse as [Hinv1 Hv1 Hrep1 Hno1]. destruct create.
    + destruct (CreateRegion_spec i t1 Hinv1 Hi Htop) as (t2 & Ec & Hinv2 & Hv2 & Htop2 & _ & Hrep2). destruct (Hask t2) as (t3 & b & E & H); [|done|by exists t2, t3, b].
      split; [done|intros q; by rewrite Hv2|by rewrite Hrep2|done].
    + destruct Habs as [|Habs]; [done|]. split; try done. intros q Hq. destruct (Z.lt_ge_cases q p); [apply Hno1; lia|].
      destruct (chunk_range _ _ _ _ _ Hck) as (_ & Hpe & He1024). assert (Hqi : q / 1024 = i) by (apply region_page_spec; unfold region_page; lia).
      rewrite <- Hv1. unfold view. by rewrite Hqi, Htop.
  - exists t', b. split; [done|]. unfold touches. destruct b.
    + destruct H as (Hi & Hv & Hr & q & Hq & Hmod). split_and!; [done..|]. split; [|done]. intros _. exists q. split; [by apply in_range_spec|done].
    + destruct H as [Hi Hv Hr Hno]. split_and!; [done..|]. split; [done|]. intros (q & Hq%in_range_spec & Hmod). by rewrite Hno in Hmod.
Qed.

(** ** Reading back *)

Lemma reports_none m p q l : reports (fun x => in_range p q x && m x) l -> l = [] -> forall x, in_range p q x = true -> m x = false.
Proof.
  intros (_ & _ & H) -> x Hx. destruct (m x) eqn:E; [|done]. assert (Hm : in_range p q x && m x = true) by (by rewrite Hx, E).
  apply H in Hm as (a & Ha & _). by apply not_elem_of_nil in Ha.
Qed.

Lemma DownloadBufferMemory_spec addr size t : tracker_inv t -> in_space addr size ->
  exists t', DownloadBufferMemory avx mode addr size t = Some t' /\ swept unmark_page snd addr size t t'.
Proof.
  intros Hinv Hs. unfold DownloadBufferMemory. destruct (Download_spec addr size t Hinv Hs) as (t1 & -> & [Hinv1 Hv1 (l & El & Hl)]). cbn [mbind option_bind].
  assert (Hv1' : forall q, view t1 q = view t q) by (intros q; rewrite Hv1; by destruct (in_range _ _ q)).
  destruct (bool_decide_reflect (reported t1 = reported t)) as [Er|Hne].
  - exists t1. split; [done|]. rewrite El in Er. assert (Hnil : l = []) by (apply (app_inv_head (reported t)); by rewrite app_nil_r). split; [done| |by exists l].
    intros q. rewrite Hv1'. destruct (in_range (first_page addr) (end_page addr size) q) eqn:Hin; [|done].
    pose proof (reports_none _ _ _ l Hl Hnil q Hin) as Hg. unfold unmark_page. rewrite <- Hg. apply surjective_pairing.
  - destruct (Unmark_spec addr size t1 Hinv1 Hs) as (t2 & E & [Hinv2 Hv2 (l2 & El2 & Hl2)]). exists t2. split; [done|]. split; [done| |].
    + intros q. rewrite Hv2. by destruct (in_range (first_page addr) (end_page addr size) q); rewrite Hv1'.
    + exists l. split; [|done]. rewrite (reports_false _ _ Hl2) in El2 by (intros q; apply andb_false_r). by rewrite El2, El, app_nil_r.
Qed.

(** The buffer of a range, and the window around the range in it. *)
Record in_buffer (buf_start buf_size addr size : Z) : Prop := {
  ib_start : 0 <= buf_start <= addr;
  ib_size : 0 < size;
  ib_end : addr + size <= buf_start + buf_size;
  ib_high : buf_start + buf_size <= 2 ^ MAX_CPU_PAGE_BITS
}.

Lemma window_spec buf_start buf_size addr size : in_buffer buf_start buf_size addr size ->
  let ws := window_start buf_start addr in
  let we := window_end buf_start buf_size addr size in
  in_space addr size /\ in_space ws (we - ws) /\ we -64 ws = we - ws /\ buf_start <= ws <= addr /\ addr + size <= we <= buf_start + buf_size /\
  we - ws <= Z.max WindowSize (addr - ws + size).
Proof.
  intros [Hb Hs He Hh] ws we. change (2 ^ MAX_CPU_PAGE_BITS) with 1099511627776 in Hh.
  assert (Hws : buf_start <= ws <= addr).
  { destruct (AlignDown_spec addr WindowSize) as (_ & Hd & _); [u64_lia|done|]. unfold ws, window_start. lia. }
  assert (Hwe : we = Z.min (Z.max (ws + WindowSize) (addr + size)) (buf_start + buf_size)).
  { unfold we, window_end. fold ws. unfold WindowSize. rewrite !wrap64_small by u64_lia. done. }
  unfold WindowSize in *. assert (Hsp : forall a n, 0 <= a -> 0 < n -> a + n <= 1099511627776 -> in_space a n) by (intros; split; done).
  clearbody ws we. split_and!; [apply Hsp; lia|apply Hsp; lia|rewrite wrap64_small by u64_lia; done|..]; lia.
Qed.

Lemma touches_mono addr size addr' size' q : addr' <= addr -> addr + size <= addr' + size' -> touches addr size q = true -> touches addr' size' q = true.
Proof.
  unfold touches. rewrite !in_range_spec. unfold first_page, end_page, PM_PAGE_SIZE. intros H1 H2 [H3 H4].
  pose proof (Z.div_le_mono addr' addr 4096 ltac:(lia) H1). pose proof (Z.div_le_mono (addr + size + 4096 - 1) (addr' + size' + 4096 - 1) 4096 ltac:(lia) ltac:(lia)). lia.
Qed.

(** A caller that downloads a window around the range and gives the range to the CPU. *)
Definition flushes (waddr wsize addr size : Z) (fl : MemoryTracker -> option MemoryTracker) : Prop :=
  forall t, tracker_inv t -> exists t', fl t = Some t' /\ tracker_inv t' /\
    forall q, view t' q = if touches addr size q then (true, false) else if touches waddr wsize q then unmark_page (view t q) else view t q.

Lemma ReadMemory_spec buf_start buf_size addr size is_write t : tracker_inv t -> in_buffer buf_start buf_size addr size ->
  let ws := window_start buf_start addr in
  let we := window_end buf_start buf_size addr size in
  exists t', ReadMemory avx mode buf_start buf_size addr size is_write t = Some t' /\ tracker_inv t' /\
    forall q, view t' q = if is_write && touches addr size q then (true, false) else if touches ws (we - ws) q then unmark_page (view t q) else view t q.
Proof.
  intros Hinv Hb ws we. destruct (window_spec _ _ _ _ Hb) as (Hs & Hw & Ew & Hlo & Hhi & _). fold ws we in Hw, Ew, Hlo, Hhi. unfold ReadMemory. fold ws we. rewrite Ew.
  destruct (DownloadBufferMemory_spec ws (we - ws) t Hinv Hw) as (t1 & -> & [Hinv1 Hv1 _]). cbn [mbind option_bind]. fold (touches ws (we - ws)) in Hv1.
  destruct is_write; [|by exists t1]. assert (Hsub : forall q, touches addr size q = true -> touches ws (we - ws) q = true).
  { intros q. apply touches_mono; lia. }
  assert (Hv1' : forall q, view t1 q = if touches ws (we - ws) q then unmark_page (view t q) else view t q) by exact Hv1.
  destruct (Mark_spec addr size t1 Hinv1 Hs) as (t2 & E & [Hinv2 Hv2 _]).
  { intros _ q Hq. unfold gpu_page. by rewrite Hv1', (Hsub q Hq). }
  exists t2. split_and!; [done|done|]. intros q. rewrite Hv2. fold (touches addr size q). rewrite Hv1'. pose proof (Hsub q) as Hq. cbn [andb].
  destruct (touches addr size q); [|done]. by rewrite Hq.
Qed.

(** ** Invalidation *)

(** The pages after the range was invalidated up to the page [p]. A flush takes the window from
    the GPU and gives all of the range to the CPU. *)
Definition invalidated (waddr wsize addr size : Z) (flushed : bool) (p : Z) (v : Z -> bool * bool) (q : Z) : bool * bool :=
  if flushed then
    if touches addr size q then (true, false) else if touches waddr wsize q then unmark_page (v q) else v q
  else if in_range (first_page addr) p q then mark_page (v q) else v q.

Record invalidating (waddr wsize addr size : Z) (t0 : MemoryTracker) (flushed : bool) (p : Z) (t : MemoryTracker) : Prop := {
  iv_inv : tracker_inv t;
  iv_view : forall q, view t q = invalidated waddr wsize addr size flushed p (view t0) q;
  iv_flushed : flushed = true -> mode <> GpuReadbacksMode.Disabled /\ exists q, touches addr size q = true /\ gpu_page t0 q = true;
  iv_quiet : flushed = false -> mode <> GpuReadbacksMode.Disabled -> forall q, first_page addr <= q < p -> gpu_page t0 q = false
}.

(** On the pages of the next chunk nothing was done, or they belong to the CPU. *)
Lemma invalidated_next waddr wsize addr size flushed p v q : touches addr size q = true -> p <= q ->
  invalidated waddr wsize addr size flushed p v q = if flushed then (true, false) else v q.
Proof.
  intros Ht Hp. unfold invalidated. rewrite Ht. destruct flushed; [done|]. unfold in_range. destruct (Z.ltb_spec q p); [lia|]. by rewrite andb_false_r.
Qed.

(** Marking the pages of a chunk. *)
Lemma invalidated_mark waddr wsize addr size flushed p e v q : first_page addr <= p <= e -> e <= end_page addr size ->
  (if in_range p e q then mark_page (invalidated waddr wsize addr size flushed p v q) else invalidated waddr wsize addr size flushed p v q)
  = invalidated waddr wsize addr size flushed e v q.
Proof.
  intros Hp He. destruct (in_range p e q) eqn:Hin.
  - pose proof Hin as Hin'. apply in_range_spec in Hin. assert (Ht : touches addr size q = true) by (apply in_range_spec; lia).
    rewrite invalidated_next by (done || lia). unfold invalidated. rewrite Ht. destruct flushed; [done|]. rewrite (in_range_join (first_page addr) p e) by lia. by rewrite Hin', orb_true_r.
  - unfold invalidated. destruct flushed; [done|]. rewrite (in_range_join (first_page addr) p e) by lia. by rewrite Hin, orb_false_r.
Qed.

Lemma invalidated_flush waddr wsize addr size flushed p e v q : first_page addr <= p -> p <= end_page addr size -> (forall q, touches addr size q = true -> touches waddr wsize q = true) ->
  (if touches addr size q then (true, false)
   else if touches waddr wsize q then unmark_page (invalidated waddr wsize addr size flushed p v q) else invalidated waddr wsize addr size flushed p v q)
  = invalidated waddr wsize addr size true e v q.
Proof.
  intros Hp He Hsub. unfold invalidated. destruct (touches addr size q) eqn:Ht; [done|]. destruct flushed; [by destruct (touches waddr wsize q)|].
  destruct (in_range (first_page addr) p q) eqn:Hin; [|done]. apply in_range_spec in Hin. assert (touches addr size q = true) by (apply in_range_spec; lia). congruence.
Qed.

Lemma mark_region i p e offset size t : tracker_inv t -> chunk i p e offset size -> is_Some (top_tier t !! i) ->
  (precise mode = true -> forall q, p <= q < e -> gpu_page t q = false) ->
  exists t', change avx mode Type_.CPU true i offset size t = Some (t', false) /\ tracker_inv t' /\
    forall q, view t' q = if in_range p e q then mark_page (view t q) else view t q.
Proof.
  intros Hinv Hck Htop Hpre. destruct (sweep_region _ _ _ _ t p p i e offset size t op_mark) as (t' & E & [Hi Hv _]); [intros q Hq Hp; by apply Hpre|done|lia|by apply sweep_start|done|].
  by exists t'.
Qed.

Lemma invalidate_step waddr wsize addr size fl t0 flushed p i e offset size' t : flushes waddr wsize addr size fl ->
  (forall q, touches addr size q = true -> touches waddr wsize q = true) ->
  chunk i p e offset size' -> first_page addr <= p -> e <= end_page addr size -> invalidating waddr wsize addr size t0 flushed p t -> is_Some (top_tier t !! i) ->
  exists flushed' t', invalidate_region avx mode fl i offset size' t = Some (t', false) /\
    invalidating waddr wsize addr size t0 flushed' e t'.
Proof.
  intros Hflush Hsub Hck Hf He [Hinv Hv Hfl Hq] [r Hr]. unfold invalidate_region. rewrite Hr. cbn [mbind option_bind].
  destruct (chunk_range _ _ _ _ _ Hck) as (_ & Hpe & He1024).
  destruct (modified_spec Type_.GPU i p e offset size' r (tracker t) (ti_region t Hinv i r Hr) Hck) as (b & Eb & Hb). cbn [GetRegionBits] in Hb.
  assert (Hgpu : forall q, p <= q < e -> bit (gpu r) (q - i * 1024) = if flushed then false else gpu_page t0 q).
  { intros q Hq'. assert (Ht : touches addr size q = true) by (apply in_range_spec; lia). specialize (Hv q). rewrite invalidated_next in Hv by (done || lia).
    rewrite (view_in t i r) in Hv by (done || unfold region_page; lia). unfold gpu_page. destruct flushed; [by injection Hv|]. by rewrite <- Hv. }
  set (must := if negb (bool_decide (mode = GpuReadbacksMode.Disabled)) then b else false).
  assert (Em : (if negb (bool_decide (mode = GpuReadbacksMode.Disabled)) then IsRegionModified avx Type_.GPU offset size' r else Some false) = Some must).
  { unfold must. by destruct (negb _). }
  assert (Hmust : must = true <-> mode <> GpuReadbacksMode.Disabled /\ b = true).
  { unfold must. destruct (bool_decide_reflect (mode = GpuReadbacksMode.Disabled)); cbn; [|tauto]. split; [done|tauto]. }
  rewrite Em. cbn [mbind option_bind]. clearbody must. clear Em Eb. destruct must.
  - destruct (proj1 Hmust eq_refl) as [Hnd Hbt]. destruct (proj1 Hb Hbt) as (q0 & Hq0 & Hg0). rewrite Hgpu in Hg0 by done. destruct flushed; [done|].
    destruct (Hflush t Hinv) as (t' & -> & Hinv' & Hv'). cbn [mbind option_bind]. exists true, t'. split; [done|]. split; [done| | |done].
    + intros q. rewrite Hv', Hv. apply (invalidated_flush waddr wsize addr size false p e); (done || lia).
    + intros _. split; [done|]. exists q0. split; [|done]. apply in_range_spec. lia.
  - assert (Hno : mode <> GpuReadbacksMode.Disabled -> forall q, p <= q < e -> bit (gpu r) (q - i * 1024) = false).
    { intros Hnd q Hq'. destruct (bit (gpu r) (q - i * 1024)) eqn:E; [|done]. assert (false = true) as [=]. apply Hmust. split; [done|]. apply Hb. by exists q. }
    destruct (mark_region i p e offset size' t Hinv Hck) as (t' & E & Hinv' & Hv'); [by exists r| |].
    { intros Hp q Hq'. unfold gpu_page. rewrite (view_in t i r) by (done || unfold region_page; lia). apply Hno; [|done]. intros ->. by unfold precise in Hp. }
    exists flushed, t'. split; [done|]. split; [done| |done|].
    + intros q. rewrite Hv', Hv. apply invalidated_mark; lia.
    + intros Hff Hnd q Hq'. destruct (Z.lt_ge_cases q p); [apply Hq; (done || lia)|]. specialize (Hno Hnd q ltac:(lia)). rewrite Hgpu in Hno by lia. by rewrite Hff in Hno.
Qed.

Lemma Invalidate_spec waddr wsize addr size fl t : tracker_inv t -> flushes waddr wsize addr size fl -> in_space addr size ->
  (forall q, touches addr size q = true -> touches waddr wsize q = true) ->
  exists flushed t', InvalidateRegion avx mode fl addr size t = Some t' /\ tracker_inv t' /\
    (forall q, view t' q = invalidated waddr wsize addr size flushed (end_page addr size) (view t) q) /\
    (flushed = true <-> mode <> GpuReadbacksMode.Disabled /\ exists q, touches addr size q = true /\ gpu_page t q = true).
Proof.
  intros Hinv Hflush Hs Hsub. pose proof Hs as [Ha Hsz Hm]. unfold InvalidateRegion.
  destruct (IteratePages_spec false (invalidate_region avx mode fl) (fun p t' => exists flushed, invalidating waddr wsize addr size t flushed p t')
    (fun _ => False) addr size t) as (t' & b & -> & H); [done|done|done| | |].
  - intros i p e offset size' t1 Hck Hi Hf He [flushed Hiv]. destruct (top_tier t1 !! i) eqn:Htop.
    + destruct (invalidate_step waddr wsize addr size fl t flushed p i e offset size' t1) as (flushed' & t2 & E & H); [done..|]. exists t2, false. split; [done|]. by exists flushed'.
    + destruct Hiv as [Hi1 Hv1 Hfl1 Hq1]. destruct (chunk_range _ _ _ _ _ Hck) as (_ & Hpe & He1024). exists flushed.
      assert (Hv0 : forall q, in_range p e q = true -> view t1 q = (true, false)).
      { intros q Hin%in_range_spec. assert (Hq : q / 1024 = i) by (apply region_page_spec; unfold region_page; lia). unfold view. by rewrite Hq, Htop. }
      split; [done| |done|].
      * intros q. rewrite <- (invalidated_mark waddr wsize addr size flushed p e) by lia. rewrite <- Hv1. destruct (in_range p e q) eqn:Hin; [|done]. by rewrite (Hv0 q Hin).
      * intros Hff Hnd q Hq. destruct (Z.lt_ge_cases q p); [apply Hq1; (done || lia)|]. assert (Hin : in_range p e q = true) by (apply in_range_spec; lia).
        specialize (Hv0 q Hin). rewrite Hv1, invalidated_next in Hv0 by (lia || apply in_range_spec; lia). rewrite Hff in Hv0. unfold gpu_page. by rewrite Hv0.
  - exists false. split; [done| |done|intros; lia]. intros q. unfold invalidated, in_range. by destruct (Z.leb_spec (first_page addr) q), (Z.ltb_spec q (first_page addr)); try lia.
  - destruct b; [done|]. destruct H as (flushed & [Hi Hv Hfl Hq]). exists flushed, t'. split_and!; [done..|]. split; [done|]. intros (Hnd & q & Ht & Hg).
    destruct flushed; [done|]. apply in_range_spec in Ht. by rewrite (Hq eq_refl Hnd q Ht) in Hg.
Qed.

Lemma InvalidateMemory_spec buf_start buf_size addr size t : tracker_inv t -> in_buffer buf_start buf_size addr size ->
  let ws := window_start buf_start addr in
  let we := window_end buf_start buf_size addr size in
  exists flushed t', InvalidateRegion avx mode (ReadMemory avx mode buf_start buf_size addr size true) addr size t = Some t' /\ tracker_inv t' /\
    (forall q, view t' q = invalidated ws (we - ws) addr size flushed (end_page addr size) (view t) q) /\
    (flushed = true <-> mode <> GpuReadbacksMode.Disabled /\ exists q, touches addr size q = true /\ gpu_page t q = true).
Proof.
  intros Hinv Hb ws we. destruct (window_spec _ _ _ _ Hb) as (Hs & Hw & _ & Hlo & Hhi & _). fold ws we in Hw, Hlo, Hhi.
  apply Invalidate_spec; [done| |done|intros q; apply touches_mono; lia].
  intros t1 Hinv1. exact (ReadMemory_spec buf_start buf_size addr size true t1 Hinv1 Hb).
Qed.

(** ** The other users of the page manager *)

Lemma apart t q : tracker_inv t -> precise mode = true -> gpu_page t q = true -> cpu_page t q = false.
Proof.
  intros Hinv Hp. unfold gpu_page, cpu_page. destruct (top_tier t !! (q / 1024)) as [r|] eqn:Hr; [|unfold view; by rewrite Hr].
  rewrite (view_in t (q / 1024) r) by (done || by apply region_page_spec). apply (rv_apart _ _ _ (ti_region t Hinv _ r Hr) Hp).
Qed.

(** Another user can watch and stop watching what it watches. *)
Lemma can_watch_other (track : bool) o m c g : (if track then 0 <= o < 126 else 0 < o) -> (precise m = true -> g = true -> c = false) ->
  can_watch track false (watchers o m c g) /\ watch track false (watchers o m c g) = watchers (o + if track then 1 else -1) m c g.
Proof.
  intros Ho Hd. assert (E : watch track false (watchers o m c g) = watchers (o + if track then 1 else -1) m c g) by (unfold watch, watchers; cbv [upd eta_PageState]; cbn; f_equal; lia).
  split; [|done]. unfold can_watch. rewrite E. split; [unfold watchers; destruct track, c; cbn; lia|]. apply watchers_read_only; [destruct track; lia|].
  intros [Hp Hg]%andb_true_iff. by apply Hd.
Qed.
End region_proofs.

(** * The life of a tracker *)

(** The pages that another user watches for writes. *)
Definition others_after (track : bool) (addr size : Z) (others : Z -> Z) (q : Z) : Z :=
  if touches addr size q then others q + (if track then 1 else -1) else others q.

Inductive tracker_step (avx : bool) (mode : GpuReadbacksMode.t) (t : MemoryTracker) : MemoryTracker -> Prop :=
  | step_cpu_query addr size t' b : in_space addr size -> IsRegionCpuModified avx addr size t = Some (t', b) -> tracker_step avx mode t t'
  | step_gpu_query addr size t' b : in_space addr size -> IsRegionGpuModified avx addr size t = Some (t', b) -> tracker_step avx mode t t'
  | step_upload addr size is_written t' : in_space addr size -> ForEachUploadRange avx mode addr size is_written Some t = Some t' -> tracker_step avx mode t t'
  | step_download addr size t' : in_space addr size -> DownloadBufferMemory avx mode addr size t = Some t' -> tracker_step avx mode t t'
  | step_read buf_start buf_size addr size is_write t' : in_buffer buf_start buf_size addr size ->
      ReadMemory avx mode buf_start buf_size addr size is_write t = Some t' -> tracker_step avx mode t t'
  | step_invalidate is_registered buf_start buf_size addr size t' : in_buffer buf_start buf_size addr size ->
      InvalidateMemory avx mode is_registered buf_start buf_size addr size t = Some t' -> tracker_step avx mode t t'
  | step_mark addr size t' : in_space addr size -> (precise mode = true -> forall q, touches addr size q = true -> gpu_page t q = false) ->
      MarkRegionAsCpuModified avx mode addr size t = Some t' -> tracker_step avx mode t t'.

(** A tracker on a host where all pages can be read and written, next to other users that only watch
    writes and stop watching what they watch. *)
Definition all_permitted (q : Z) : Z := 3.
Definition new_tracker : MemoryTracker := mkTracker ∅ [] (mkPages ∅ []) [].

Inductive tracked (avx : bool) (mode : GpuReadbacksMode.t) : (Z -> Z) -> MemoryTracker -> Prop :=
  | tracked_new : tracked avx mode (fun _ => 0) new_tracker
  | tracked_step others t t' : tracked avx mode others t -> tracker_step avx mode t t' -> tracked avx mode others t'
  | tracked_other others t track addr size s' : tracked avx mode others t -> in_space addr size ->
      (forall q, touches addr size q = true -> if (track : bool) then others q < 126 else 0 < others q) ->
      UpdatePageWatchers track false addr size (tracker t) = Some s' ->
      tracked avx mode (others_after track addr size others) (t <| tracker := s' |>).

Lemma touched_page addr size q : in_space addr size -> touches addr size q = true -> 0 <= q < NUM_ADDRESS_PAGES.
Proof.
  intros [Ha Hs Hm] Ht%in_range_spec. change (2 ^ MAX_CPU_PAGE_BITS) with 1099511627776 in Hm. change NUM_ADDRESS_PAGES with 268435456.
  unfold first_page, end_page, PM_PAGE_SIZE in Ht. Z.to_euclidean_division_equations; lia.
Qed.

Lemma other_inv mode host others (track : bool) addr size t : tracker_inv mode host others t -> (forall q, 0 <= others q < 127) -> in_space addr size ->
  (forall q, touches addr size q = true -> if track then others q < 126 else 0 < others q) ->
  exists s', UpdatePageWatchers track false addr size (tracker t) = Some s' /\
    tracker_inv mode host (others_after track addr size others) (t <| tracker := s' |>) /\ forall q, 0 <= others_after track addr size others q < 127.
Proof.
  intros Hinv Hoth Hs Hcount. pose proof Hs as [Ha Hsz Hm].
  assert (Hq : forall q, 0 <= q < NUM_ADDRESS_PAGES -> touches addr size q = true ->
    can_watch track false (page_state (tracker t) q) /\
    watch track false (page_state (tracker t) q) = watchers (others_after track addr size others q) mode (cpu_page t q) (gpu_page t q)).
  { intros q Hq Ht. destruct (ti_page _ _ _ _ Hinv q Hq) as [_ ->]. unfold others_after. rewrite Ht. apply can_watch_other.
    - specialize (Hcount q Ht). specialize (Hoth q). destruct track; lia.
    - intros Hp. by apply (apart mode host others). }
  destruct (UpdatePageWatchers_spec host track false addr size (tracker t)) as (s' & E & [Hst Hsy Hh]); [done|done|done| |].
  { intros q Hin. assert (Ht : touches addr size q = true) by (by apply in_range_spec). pose proof (touched_page _ _ _ Hs Ht) as Hqa.
    split; [by apply (ti_page _ _ _ _ Hinv)|by apply Hq]. }
  exists s'. split; [done|].
  assert (Hpage : forall q, 0 <= q < NUM_ADDRESS_PAGES -> page_ok mode host (others_after track addr size others) s' q (cpu_page t q) (gpu_page t q)).
  { intros q Hqa. destruct (ti_page _ _ _ _ Hinv q Hqa) as [Hsy0 Hst0]. specialize (Hst q). fold (in_range (first_page addr) (end_page addr size) q) in Hst. fold (touches addr size q) in Hst.
    destruct (touches addr size q) eqn:Ht.
    - destruct (Hq q Hqa Ht) as [_ Ew]. split; [apply Hsy; by apply in_range_spec|]. by rewrite <- Ew.
    - split; [|unfold others_after; by rewrite Ht, Hst]. apply (synced_same host (tracker t) s'); [done| |done]. apply Hh. intros Hin.
      assert (touches addr size q = true) by (by apply in_range_spec). congruence. }
  split.
  - destruct Hinv as [Hreg Hfree Hpg]. split; [|done|exact Hpage]. intros i r Hr. destruct (Hreg i r Hr) as [? ? ? ? ? ? ? Hp]. split; try done.
    intros q Hqi. specialize (Hpage q). assert (Hqa : 0 <= q < NUM_ADDRESS_PAGES).
    { change NUM_ADDRESS_PAGES with 268435456. change NUM_HIGH_PAGES with 262144 in *. unfold region_page in Hqi. lia. }
    specialize (Hpage Hqa). unfold cpu_page, gpu_page in Hpage. by rewrite (view_in others t i r q Hr Hqi) in Hpage.
  - intros q. unfold others_after. specialize (Hoth q). destruct (touches addr size q) eqn:Ht; [|done]. specialize (Hcount q Ht). destruct track; lia.
Qed.

Lemma new_tracker_inv mode : tracker_inv mode all_permitted (fun _ => 0) new_tracker.
Proof.
  split; [done|constructor|]. intros q _. split; [done|]. unfold cpu_page, gpu_page, view. change (top_tier new_tracker) with (∅ : gmap Z RegionManager). rewrite lookup_empty.
  unfold page_state. change (cached_pages (tracker new_tracker)) with (∅ : gmap Z PageState). rewrite lookup_empty. unfold watchers. by rewrite andb_false_r.
Qed.

Lemma step_inv avx mode host others t t' : tracker_inv mode host others t -> (forall q, 0 <= others q < 127) -> tracker_step avx mode t t' -> tracker_inv mode host others t'.
Proof.
  intros Hinv Hoth Hstep. destruct Hstep as [addr size t' b Hs E|addr size t' b Hs E|addr size w t' Hs E|addr size t' Hs E|bs bl addr size w t' Hb E|rg bs bl addr size t' Hb E|addr size t' Hs Hp E].
  - destruct (ask_spec avx mode host others Type_.CPU true addr size t Hinv Hs) as (t1 & b1 & E1 & H & _); [by left|]. unfold IsRegionCpuModified in E. rewrite E1 in E. by injection E as <- _.
  - destruct (ask_spec avx mode host others Type_.GPU false addr size t Hinv Hs) as (t1 & b1 & E1 & H & _); [by right|]. unfold IsRegionGpuModified in E. rewrite E1 in E. by injection E as <- _.
  - destruct (Upload_spec avx mode host others Hoth addr size w Some t Hinv Hs) as (t1 & E1 & [H _ _]); [done|]. rewrite E1 in E. by injection E as <-.
  - destruct (DownloadBufferMemory_spec avx mode host others Hoth addr size t Hinv Hs) as (t1 & E1 & [H _ _]). rewrite E1 in E. by injection E as <-.
  - destruct (ReadMemory_spec avx mode host others Hoth bs bl addr size w t Hinv Hb) as (t1 & E1 & H & _). rewrite E1 in E. by injection E as <-.
  - unfold InvalidateMemory in E. destruct rg; cbn [negb] in E; [|by injection E as <-]. destruct (InvalidateMemory_spec avx mode host others Hoth bs bl addr size t Hinv Hb) as (f & t1 & E1 & H & _).
    rewrite E1 in E. by injection E as <-.
  - destruct (Mark_spec avx mode host others Hoth addr size t Hinv Hs Hp) as (t1 & E1 & [H _ _]). rewrite E1 in E. by injection E as <-.
Qed.

Lemma tracked_inv avx mode others t : tracked avx mode others t -> tracker_inv mode all_permitted others t /\ forall q, 0 <= others q < 127.
Proof.
  intros H. induction H as [|others t t' _ [Hinv Hoth] Hstep|others t track addr size s' _ [Hinv Hoth] Hs Hcount E].
  - split; [apply new_tracker_inv|done].
  - split; [|done]. by apply (step_inv avx mode all_permitted others t).
  - destruct (other_inv mode all_permitted others track addr size t Hinv Hoth Hs Hcount) as (s1 & E1 & H1 & H2). rewrite E1 in E. by injection E as <-.
Qed.

(** * The properties *)

Lemma Perms_watchers o m c g : 0 <= o -> Perms (watchers o m c g) = Z.lor (if precise m && g then 0 else 1) (if (o =? 0) && c then 2 else 0).
Proof.
  intros Ho. unfold Perms, ReadPerm, WritePerm, watchers, PermNone, PermRead, PermWrite. cbn. destruct (precise m && g), c; cbn; rewrite ?Z.add_0_r, ?andb_true_r, ?andb_false_r;
    destruct (Z.eqb_spec o 0), (Z.eqb_spec (o + 1) 0); (done || lia).
Qed.

(** C28. The invariant of the tracker and the page manager together, after any life of a tracker
    next to other users of the page manager: a page has one write watcher more than the others
    put there exactly when the CPU did not change it, and one read watcher exactly when readbacks
    are precise and the GPU changed it. The last protection the host was given lets a page be
    written exactly when the CPU changed it and nobody else watches it, and be read exactly when it
    has nothing to read back; so the next change and the next read are seen. With precise readbacks
    no page was changed by both. *)
Theorem tracked_pages avx mode others t q : tracked avx mode others t -> 0 <= q < NUM_ADDRESS_PAGES ->
  page_state (tracker t) q = watchers (others q) mode (cpu_page t q) (gpu_page t q) /\
  host_after all_permitted (tracker t) q
    = Z.lor (if precise mode && gpu_page t q then 0 else 1) (if (others q =? 0) && cpu_page t q then 2 else 0) /\
  (mode = GpuReadbacksMode.Precise -> gpu_page t q = true -> cpu_page t q = false).
Proof.
  intros [Hinv Hoth]%tracked_inv Hq. destruct (ti_page _ _ _ _ Hinv q Hq) as [Hsy Hst]. split_and!; [done| |].
  - rewrite Hsy, Hst. apply Perms_watchers, Hoth.
  - intros Hm. apply (apart mode all_permitted others t q Hinv). by unfold precise; rewrite Hm.
Qed.

(** Uploading a range always returns. It reports the pages of the range that the CPU changed,
    in ascending runs of whole pages, and no other; afterwards the CPU changed none of them, the GPU
    all when the range is to be written, and the pages outside of the range are as they were. *)
Theorem ForEachUploadRange_exact avx mode others t addr size is_written : tracked avx mode others t -> in_space addr size ->
  exists t' l, ForEachUploadRange avx mode addr size is_written Some t = Some t' /\ tracked avx mode others t' /\
    reported t' = reported t ++ l /\ reports (fun q => touches addr size q && cpu_page t q) l /\
    forall q, view t' q = if touches addr size q then (false, is_written || gpu_page t q) else view t q.
Proof.
  intros Ht Hs. pose proof (tracked_inv _ _ _ _ Ht) as [Hinv Hoth].
  destruct (Upload_spec avx mode all_permitted others Hoth addr size is_written Some t Hinv Hs) as (t' & E & [Hi Hv (l & El & Hl)]); [done|]. exists t', l.
  split_and!; [done| |done|done|].
  - apply (tracked_step _ _ _ t); [done|]. by apply (step_upload _ _ _ addr size is_written).
  - intros q. rewrite Hv. fold (touches addr size q). by destruct (touches addr size q), is_written.
Qed.

(** C29. What a fault on a page leads to. Invalidating a range inside of a buffer always returns.
    When readbacks are on and the GPU changed a page of the range, the pages of the window are read
    back and those of the range belong to the CPU alone; otherwise the CPU changed the pages of the
    range and nothing else happens. No other page gets lost, and without readbacks none does. *)
Theorem InvalidateMemory_exact avx mode others t buf_start buf_size addr size : tracked avx mode others t -> in_buffer buf_start buf_size addr size ->
  let window := touches (window_start buf_start addr) (window_end buf_start buf_size addr size - window_start buf_start addr) in
  exists flushed t', InvalidateMemory avx mode true buf_start buf_size addr size t = Some t' /\ tracked avx mode others t' /\
    (flushed = true <-> mode <> GpuReadbacksMode.Disabled /\ exists q, touches addr size q = true /\ gpu_page t q = true) /\
    forall q, view t' q =
      if flushed then if touches addr size q then (true, false) else if window q then (cpu_page t q, false) else view t q
      else if touches addr size q then (true, gpu_page t q) else view t q.
Proof.
  intros Ht Hb window. pose proof (tracked_inv _ _ _ _ Ht) as [Hinv Hoth].
  destruct (InvalidateMemory_spec avx mode all_permitted others Hoth buf_start buf_size addr size t Hinv Hb) as (flushed & t' & E & _ & Hv & Hf). exists flushed, t'.
  split_and!; [done| |done|exact Hv]. apply (tracked_step _ _ _ t); [done|]. by apply (step_invalidate _ _ _ true buf_start buf_size addr size).
Qed.

(** Asking whether the CPU or the GPU changed memory always returns, answers whether a page of
    the range was changed, and changes no page. *)
Theorem IsRegionModified_exact avx mode others t addr size : tracked avx mode others t -> in_space addr size ->
  (exists t' b, IsRegionCpuModified avx addr size t = Some (t', b) /\ tracked avx mode others t' /\ (forall q, view t' q = view t q) /\
     (b = true <-> exists q, touches addr size q = true /\ cpu_page t q = true)) /\
  (exists t' b, IsRegionGpuModified avx addr size t = Some (t', b) /\ tracked avx mode others t' /\ (forall q, view t' q = view t q) /\
     (b = true <-> exists q, touches addr size q = true /\ gpu_page t q = true)).
Proof.
  intros Ht Hs. pose proof (tracked_inv _ _ _ _ Ht) as [Hinv Hoth]. split.
  - destruct (ask_spec avx mode all_permitted others Type_.CPU true addr size t Hinv Hs) as (t' & b & E & _ & Hv & _ & Hb); [by left|]. exists t', b.
    split_and!; [done| |done|done]. apply (tracked_step _ _ _ t); [done|]. by apply (step_cpu_query _ _ _ addr size t' b).
  - destruct (ask_spec avx mode all_permitted others Type_.GPU false addr size t Hinv Hs) as (t' & b & E & _ & Hv & _ & Hb); [by right|]. exists t', b.
    split_and!; [done| |done|done]. apply (tracked_step _ _ _ t); [done|]. by apply (step_gpu_query _ _ _ addr size t' b).
Qed.

(** ** A life *)

(** With precise readbacks: eight kilobytes are written by the GPU over the border of two regions. *)
Definition written : MemoryTracker :=
  default new_tracker (ForEachUploadRange true GpuReadbacksMode.Precise 0x7FF000 0x2000 true Some new_tracker).
Definition no_others (q : Z) : Z := 0.

Lemma written_space : in_space 0x7FF000 0x2000.
Proof. by split; vm_compute. Qed.

Lemma written_tracked : tracked true GpuReadbacksMode.Precise no_others written.
Proof.
  apply (tracked_step _ _ _ new_tracker); [apply tracked_new|]. apply (step_upload _ _ _ 0x7FF000 0x2000 true); [apply written_space|]. by vm_compute.
Qed.

Lemma tracked_pages_witness : page_state (tracker written) 2047 = mkPageState 1 1 /\ host_after all_permitted (tracker written) 2048 = 0 /\
  host_after all_permitted (tracker written) 2049 = 3.
Proof.
  split_and!.
  - rewrite (proj1 (tracked_pages true GpuReadbacksMode.Precise no_others written 2047 written_tracked ltac:(by vm_compute))). reflexivity.
  - rewrite (proj1 (proj2 (tracked_pages true GpuReadbacksMode.Precise no_others written 2048 written_tracked ltac:(by vm_compute)))). reflexivity.
  - rewrite (proj1 (proj2 (tracked_pages true GpuReadbacksMode.Precise no_others written 2049 written_tracked ltac:(by vm_compute)))). reflexivity.
Defined.

Lemma ForEachUploadRange_exact_witness : exists t', ForEachUploadRange true GpuReadbacksMode.Precise 0x7FE000 0x3000 false Some written = Some t' /\
  reported t' = reported written ++ [(0x7FE000, 0x1000)] /\ view t' 2046 = (false, false) /\ view t' 2047 = (false, true).
Proof.
  destruct (ForEachUploadRange_exact true GpuReadbacksMode.Precise no_others written 0x7FE000 0x3000 false written_tracked) as (t' & l & E & _ & _ & _ & Hv); [by split; vm_compute|].
  exists t'. split; [exact E|]. split; [|split; rewrite Hv; reflexivity].
  assert (E' : reported <$> ForEachUploadRange true GpuReadbacksMode.Precise 0x7FE000 0x3000 false Some written = Some (reported written ++ [(0x7FE000, 0x1000)])) by reflexivity.
  rewrite E in E'. exact (f_equal (default []) E').
Defined.

Lemma InvalidateMemory_exact_witness : exists t', InvalidateMemory true GpuReadbacksMode.Precise true 0x780000 0x100000 0x7FF008 8 written = Some t' /\
  view t' 2047 = (true, false) /\ view t' 2048 = (false, true).
Proof.
  destruct (InvalidateMemory_exact true GpuReadbacksMode.Precise no_others written 0x780000 0x100000 0x7FF008 8 written_tracked) as (fl & t' & E & _ & Hf & Hv); [by split; vm_compute|].
  exists t'. split; [exact E|]. assert (fl = true) as -> by (apply Hf; split; [discriminate|exists 2047; split; reflexivity]). split; rewrite Hv; reflexivity.
Defined.

Lemma IsRegionModified_exact_witness : exists t', IsRegionGpuModified true 0x7FE000 0x1001 written = Some (t', true) /\ view t' 2046 = (true, false).
Proof.
  destruct (IsRegionModified_exact true GpuReadbacksMode.Precise no_others written 0x7FE000 0x1001 written_tracked) as [_ (t' & b & E & _ & Hv & Hb)]; [by split; vm_compute|].
  exists t'. assert (b = true) as -> by (apply Hb; exists 2047; split; reflexivity). split; [exact E|]. rewrite Hv. reflexivity.
Defined.
