(* ===== verification/Loops.v ===== *)
(** Loops with a long bound: [loop_until n step s] makes up to [2 ^ n] turns, and stops with the
    first result. The bound is taken in halves, so that it costs nothing to evaluate. *)
From Stdlib Require Import ZArith Lia.
From stdpp Require Import base tactics.
From S2P Require Import Prelude.

Section loop.
Context {S R : Type} (step : S -> S + R).

Fixpoint loop_until (n : nat) (s : S) : S + R :=
  match n with
  | O => step s
  | Datatypes.S n => match loop_until n s with inl s => loop_until n s | inr r => inr r end
  end.

(** A loop whose measure goes down from below [2 ^ n] ends with a result. *)
Lemma loop_until_spec (P : S -> Prop) (Q : R -> Prop) (measure : S -> Z) n s :
  (forall s, P s -> match step s with inl s' => P s' /\ 0 <= measure s' < measure s | inr r => Q r end) ->
  P s -> measure s < 2 ^ Z.of_nat n -> exists r, loop_until n s = inr r /\ Q r.
Proof.
  intros Hstep HP Hm.
  assert (Hgen : forall n s, P s -> match loop_until n s with inl s' => P s' /\ 0 <= measure s' <= measure s - 2 ^ Z.of_nat n | inr r => Q r end).
  { clear n s HP Hm. induction n as [|n IH]; intros s HP; cbn [loop_until].
    - specialize (Hstep s HP). destruct (step s); [|done]. split; [tauto|]. change (2 ^ Z.of_nat 0) with 1. lia.
    - specialize (IH s HP) as H1. destruct (loop_until n s) as [s1|r]; [|done]. destruct H1 as [HP1 Hm1]. specialize (IH s1 HP1) as H2.
      destruct (loop_until n s1) as [s2|r]; [|done]. split; [tauto|]. rewrite Nat2Z.inj_succ, Z.pow_succ_r by lia. lia. }
  specialize (Hgen n s HP). destruct (loop_until n s) as [s'|r]; [lia|by exists r].
Qed.
End loop.
