(* ===== verification/SlotVector.v ===== *)
(** Slots: src/src/common/slot_vector.h.

    [SlotVector] hands out small numbers for objects: the raw storage of the objects, a bit for each
    slot that says whether an object lives in it, and a stack of the free slots. The storage grows
    by doubling and moves the objects. A slot of the storage that holds no object is [None] here;
    what would be undefined (an object that is not there, an index outside of a vector) makes an
    operation return [None]. *)
From Stdlib Require Import ZArith Lia Sorting.Sorted.
From stdpp Require Import base list list_numbers.
From S2P Require Import Prelude.
From S2P Require Import BitArray.

Definition INVALID_INDEX : Z := U32_MAX.
Definition InitialCapacity : Z := 2048.

Section slots.
Context {T : Type}.

Record SlotVector := mkSlots { values : list (option T); stored_bitset : list Z; free_list : list Z }.
Definition values_capacity (v : SlotVector) : Z := Z.of_nat (length (values v)).

(** The object of a slot, if it has one. *)
Definition object (l : list (option T)) (i : Z) : option T := if i <? 0 then None else mjoin (l !! Z.to_nat i).
Definition put (l : list (option T)) (i : Z) (x : option T) : option (list (option T)) :=
  if (0 <=? i) && (i <? Z.of_nat (length l)) then Some (<[Z.to_nat i:=x]> l) else None.

Definition ReadStorageBit (index : Z) (v : SlotVector) : option bool := Get (stored_bitset v) index.
Definition SetStorageBit (index : Z) (v : SlotVector) : option SlotVector :=
  bits ← Set_ (stored_bitset v) index; Some (mkSlots (values v) bits (free_list v)).
Definition ResetStorageBit (index : Z) (v : SlotVector) : option SlotVector :=
  bits ← Unset (stored_bitset v) index; Some (mkSlots (values v) bits (free_list v)).

(** [for (bit = 0; bits; ++bit, bits >>= 1)]: a word has at most 64 turns. *)
Fixpoint move_bits (old : list (option T)) (fuel : nat) (bits i : Z) (new : list (option T)) : option (list (option T)) :=
  if bits =? 0 then Some new else
  match fuel with
  | O => None
  | S fuel =>
      new ← (if Z.land bits 1 =? 0 then Some new else old_value ← object old i; put new i (Some old_value));
      move_bits old fuel (Z.shiftr bits 1) (i + 1) new
  end.
Fixpoint move_words (old : list (option T)) (words : list Z) (index : Z) (new : list (option T)) : option (list (option T)) :=
  match words with
  | [] => Some new
  | bits :: words => new ← move_bits old 64 bits index new; move_words old words (index + 64) new
  end.

Definition resize (l : list Z) (n : Z) : list Z := take (Z.to_nat n) l ++ replicate (Z.to_nat n - length l) 0.

(** The new slots are put on the stack so that the lowest is on top. *)
Definition Reserve (new_capacity : Z) (v : SlotVector) : option SlotVector :=
  if new_capacity <? values_capacity v then None else
  new_values ← move_words (values v) (stored_bitset v) 0 (replicate (Z.to_nat new_capacity) None);
  Some (mkSlots new_values (resize (stored_bitset v) ((new_capacity + 63) / 64))
         (free_list v ++ reverse (map wrap32 (seqZ (values_capacity v) (new_capacity - values_capacity v))))).

Definition FreeValueIndex (v : SlotVector) : option (Z * SlotVector) :=
  v ← (if bool_decide (free_list v = []) then Reserve (if values_capacity v =? 0 then 1 else Z.shiftl (values_capacity v) 1) v else Some v);
  free_index ← last (free_list v);
  Some (free_index, mkSlots (values v) (stored_bitset v) (removelast (free_list v))).

Definition insert (x : T) (v : SlotVector) : option (Z * SlotVector) :=
  '(index, v) ← FreeValueIndex v;
  values ← put (values v) index (Some x);
  v ← SetStorageBit index (mkSlots values (stored_bitset v) (free_list v));
  Some (index, v).

Definition erase (id : Z) (v : SlotVector) : option SlotVector :=
  _ ← object (values v) id;
  values ← put (values v) id None;
  ResetStorageBit id (mkSlots values (stored_bitset v) (free_list v ++ [id])).

(** [operator[]], to read and to write the object; the assertions of a debug build are those of
    [object]. *)
Definition at_ (id : Z) (v : SlotVector) : option T := object (values v) id.
Definition update (id : Z) (f : T -> T) (v : SlotVector) : option SlotVector :=
  x ← at_ id v;
  values ← put (values v) id (Some (f x));
  Some (mkSlots values (stored_bitset v) (free_list v)).

Definition is_allocated (id : Z) (v : SlotVector) : option bool := ReadStorageBit id v.
Definition size (v : SlotVector) : Z := values_capacity v - Z.of_nat (length (free_list v)).

Definition empty_slots : SlotVector := mkSlots [] [] [].
Definition new_slots : option SlotVector := Reserve InitialCapacity empty_slots.

(** [begin() .. end()]: [AdvanceToValid] and [++] together go over all the slots once. *)
Fixpoint iterate_slots (v : SlotVector) (n : nat) (slot : Z) : option (list (Z * T)) :=
  match n with
  | O => Some []
  | S n =>
      b ← ReadStorageBit slot v;
      rest ← iterate_slots v n (slot + 1);
      if (b : bool) then x ← at_ slot v; Some ((slot, x) :: rest) else Some rest
  end.
Definition slots (v : SlotVector) : option (list (Z * T)) := iterate_slots v (Z.to_nat (values_capacity v)) 0.
End slots.
Arguments SlotVector : clear implicits.

(** * What the slots hold *)

Section slot_proofs.
Context {T : Type}.
Implicit Types (v : SlotVector T) (l old new : list (option T)).

Lemma object_put l i x l' j : put l i x = Some l' -> object l' j = if j =? i then x else object l j.
Proof.
  unfold put, object. destruct (Z.leb_spec 0 i), (Z.ltb_spec i (Z.of_nat (length l))); cbn [andb]; try done. intros [= <-].
  destruct (Z.ltb_spec j 0), (Z.eqb_spec j i) as [->|]; try (done || lia); [by rewrite list_lookup_insert_eq by lia|by rewrite list_lookup_insert_ne by lia].
Qed.

Lemma put_length l i x l' : put l i x = Some l' -> length l' = length l.
Proof. unfold put. destruct (_ && _); [|done]. intros [= <-]. apply length_insert. Qed.

Lemma put_ok l i x : 0 <= i < Z.of_nat (length l) -> is_Some (put l i x).
Proof. intros H. unfold put. rewrite (proj2 (Z.leb_le 0 i)), (proj2 (Z.ltb_lt i _)) by lia. by eexists. Qed.

Lemma object_out l i : i < 0 \/ Z.of_nat (length l) <= i -> object l i = None.
Proof. intros H. unfold object. destruct (Z.ltb_spec i 0); [done|]. by rewrite lookup_ge_None_2 by lia. Qed.

Lemma object_replicate n i : object (replicate n (None : option T)) i = None.
Proof.
  unfold object. destruct (Z.ltb_spec i 0); [done|]. destruct (decide (Z.to_nat i < n)%nat); [by rewrite lookup_replicate_2|rewrite lookup_ge_None_2; [done|rewrite length_replicate; lia]].
Qed.

Lemma land_one x : 0 <= x -> (Z.land x 1 =? 0) = negb (Z.testbit x 0).
Proof. intros Hx. rewrite Z.bit0_odd. change 1 with (Z.ones 1). rewrite Z.land_ones by done. change (2 ^ 1) with 2. rewrite Zmod_odd. by destruct (Z.odd x). Qed.

(** The objects whose bits are set are moved. *)
Lemma move_bits_spec old n bits i new : 0 <= bits < 2 ^ Z.of_nat n -> 0 <= i ->
  (forall k, 0 <= k -> Z.testbit bits k = true -> is_Some (object old (i + k)) /\ i + k < Z.of_nat (length new)) ->
  exists new', move_bits old n bits i new = Some new' /\ length new' = length new /\
    forall x, object new' x = if (i <=? x) && Z.testbit bits (x - i) then object old x else object new x.
Proof.
  revert bits i new. induction n as [|n IH]; intros bits i new Hb Hi Hset.
  - assert (bits = 0) as -> by (cbn in Hb; lia). exists new. split_and!; [done|done|]. intros x. rewrite Z.bits_0. by rewrite andb_false_r.
  - cbn [move_bits]. destruct (Z.eqb_spec bits 0) as [->|Hnz].
    + exists new. split_and!; [done|done|]. intros x. rewrite Z.bits_0. by rewrite andb_false_r.
    + rewrite land_one by lia. assert (Hfirst : exists new1, (if negb (Z.testbit bits 0) then Some new else old_value ← object old i; put new i (Some old_value)) = Some new1 /\
        length new1 = length new /\ forall x, object new1 x = if (x =? i) && Z.testbit bits 0 then object old x else object new x).
      { destruct (Z.testbit bits 0) eqn:E0; cbn [negb].
        - destruct (Hset 0 ltac:(lia) E0) as [[o Ho] Hlen]. rewrite Z.add_0_r in Ho, Hlen. rewrite Ho. cbn [mbind option_bind]. destruct (put_ok new i (Some o)) as [new1 E]; [lia|].
          exists new1. split_and!; [done|by apply (put_length _ _ _ _ E)|]. intros x. rewrite (object_put _ _ _ _ x E), andb_true_r. destruct (Z.eqb_spec x i) as [->|]; [by rewrite Ho|done].
        - exists new. split_and!; [done|done|]. intros x. by rewrite andb_false_r. }
      destruct Hfirst as (new1 & -> & Hl1 & Ho1). cbn [mbind option_bind].
      assert (Hhalf : 0 <= Z.shiftr bits 1 < 2 ^ Z.of_nat n).
      { rewrite Z.shiftr_div_pow2 by done. change (2 ^ 1) with 2. rewrite Nat2Z.inj_succ, Z.pow_succ_r in Hb by lia. Z.to_euclidean_division_equations; lia. }
      destruct (IH (Z.shiftr bits 1) (i + 1) new1 Hhalf) as (new' & E' & Hl' & Ho'); [lia| |].
      { intros k Hk Hbit. rewrite Z.shiftr_spec in Hbit by lia. specialize (Hset (k + 1) ltac:(lia) Hbit). rewrite Hl1. by replace (i + 1 + k) with (i + (k + 1)) by lia. }
      exists new'. split_and!; [done|by rewrite Hl'|]. intros x. rewrite Ho', Ho1. destruct (Z.leb_spec (i + 1) x), (Z.leb_spec i x), (Z.eqb_spec x i) as [->|]; cbn [andb]; try lia; try done.
      * rewrite Z.shiftr_spec by lia. by replace (x - (i + 1) + 1) with (x - i) by lia.
      * by rewrite Z.sub_diag.
Qed.

Lemma bit_cons (w : Z) (ws : list Z) x : bit (w :: ws) x = if x <? 64 then (0 <=? x) && Z.testbit w x else bit ws (x - 64).
Proof.
  destruct (Z.ltb_spec x 64) as [H|H].
  - destruct (Z.leb_spec 0 x); cbn [andb]; [|by rewrite bit_out by lia]. pose proof (bit_word (w :: ws) 0 x ltac:(lia)) as E. by replace (64 * Z.of_nat 0 + x) with x in E by lia.
  - destruct (word_split (x - 64)) as [E Hm]; [lia|]. set (j := word_of (x - 64)) in *. set (m := (x - 64) mod 64) in *.
    rewrite E, bit_word by done. replace x with (64 * Z.of_nat (S j) + m) by lia. by rewrite bit_word by done.
Qed.

Lemma move_words_spec old words index new : bits_ok words -> 0 <= index ->
  (forall x, bit words (x - index) = true -> is_Some (object old x) /\ x < Z.of_nat (length new)) ->
  exists new', move_words old words index new = Some new' /\ length new' = length new /\
    forall x, object new' x = if bit words (x - index) then object old x else object new x.
Proof.
  revert index new. induction words as [|w ws IH]; intros index new Hok Hi Hset; cbn [move_words].
  - exists new. split_and!; [done|done|]. intros x. destruct (Z.lt_ge_cases (x - index) 0); [by rewrite bit_out by lia|by rewrite bit_out by (unfold Size; cbn; lia)].
  - apply Forall_cons in Hok as [Hw Hok]. destruct (move_bits_spec old 64 w index new) as (new1 & -> & Hl1 & Ho1); [u64_unfold; change (2 ^ Z.of_nat 64) with 18446744073709551616; lia|done| |].
    { intros k Hk Hbit. specialize (Hset (index + k)). replace (index + k - index) with k in Hset by lia. rewrite bit_cons in Hset. destruct (Z.ltb_spec k 64).
      - apply Hset. by rewrite (proj2 (Z.leb_le 0 k)) by lia.
      - by rewrite u64_testbit_high in Hbit. }
    cbn [mbind option_bind]. destruct (IH (index + 64) new1 Hok) as (new' & -> & Hl' & Ho'); [lia| |].
    { intros x Hx. rewrite Hl1. apply Hset. rewrite bit_cons. replace (x - (index + 64)) with (x - index - 64) in Hx by lia. destruct (Z.ltb_spec (x - index) 64); [by rewrite bit_out in Hx by lia|done]. }
    exists new'. split_and!; [done|by rewrite Hl'|]. intros x. rewrite Ho', Ho1, bit_cons. replace (x - (index + 64)) with (x - index - 64) by lia.
    destruct (Z.ltb_spec (x - index) 64).
    + rewrite (bit_out ws) by lia. by destruct (Z.leb_spec index x), (Z.leb_spec 0 (x - index)); try lia.
    + destruct (bit ws (x - index - 64)) eqn:E; [done|]. destruct (Z.leb_spec index x); [|done]. by rewrite u64_testbit_high by (done || lia).
Qed.

(** The free slots are those without an object, each once, and a bit says whether there is one. *)
Record slots_ok v : Prop := {
  so_bits : bits_ok (stored_bitset v);
  so_words : values_capacity v <= Size (stored_bitset v);
  so_stored : forall i, bit (stored_bitset v) i = bool_decide (is_Some (object (values v) i));
  so_free : forall i, i ∈ free_list v <-> 0 <= i < values_capacity v /\ object (values v) i = None;
  so_nodup : NoDup (free_list v);
  so_small : values_capacity v <= U32_MAX
}.

Lemma object_range l i : is_Some (object l i) -> 0 <= i < Z.of_nat (length l).
Proof. intros [x Hx]. destruct (decide (0 <= i < Z.of_nat (length l))); [done|]. by rewrite object_out in Hx by lia. Qed.

Lemma resize_spec (b : list Z) n : bits_ok b -> bits_ok (resize b n) /\ length (resize b n) = Z.to_nat n /\
  forall x, bit (resize b n) x = if x <? 64 * n then bit b x else false.
Proof.
  intros Hok. unfold resize. assert (Hl : length (take (Z.to_nat n) b ++ replicate (Z.to_nat n - length b) 0) = Z.to_nat n).
  { rewrite length_app, length_take, length_replicate. lia. }
  split_and!; [apply Forall_app; split; [by apply Forall_take|by apply Forall_replicate]|done|].
  intros x. destruct (Z.ltb_spec x (64 * n)) as [Hx|Hx]; [|apply bit_out; unfold Size, BITS_PER_WORD; rewrite Hl; lia].
  unfold bit. destruct (Z.ltb_spec x 0); [done|]. destruct (word_split x) as [E Hm]; [lia|]. set (j := word_of x) in *.
  destruct (decide (j < length b)%nat) as [Hj|Hj].
  - rewrite lookup_app_l by (rewrite length_take; lia). by rewrite lookup_take_lt by lia.
  - rewrite (lookup_ge_None_2 b j) by lia. rewrite lookup_app_r by (rewrite length_take; lia). rewrite length_take.
    rewrite lookup_replicate_2 by lia. apply Z.bits_0.
Qed.

Lemma wrap32_id (ids : list Z) : Forall (fun i => 0 <= i <= U32_MAX) ids -> map wrap32 ids = ids.
Proof. induction 1 as [|i ids Hi _ IH]; [done|]. cbn. rewrite IH. f_equal. unfold wrap32, U32_MAX in *. rewrite Z.mod_small; lia. Qed.

Lemma Reserve_spec n v : slots_ok v -> values_capacity v <= n <= U32_MAX -> exists v', Reserve n v = Some v' /\ slots_ok v' /\ values_capacity v' = n /\
  (forall i, object (values v') i = object (values v) i) /\ free_list v' = free_list v ++ reverse (seqZ (values_capacity v) (n - values_capacity v)).
Proof.
  intros [Hbits Hwords Hst Hfree Hnd Hsm] Hn. assert (Hc : 0 <= values_capacity v) by (unfold values_capacity; lia). unfold Reserve. rewrite (proj2 (Z.ltb_ge n _)) by lia.
  destruct (move_words_spec (values v) (stored_bitset v) 0 (replicate (Z.to_nat n) None) Hbits) as (new & -> & Hl & Ho); [done| |].
  { intros x Hx. rewrite Z.sub_0_r, Hst in Hx. apply bool_decide_eq_true in Hx. split; [done|]. apply object_range in Hx. rewrite length_replicate. unfold values_capacity in *. lia. }
  cbn [mbind option_bind]. rewrite length_replicate in Hl. eexists. split; [done|].
  assert (Ho' : forall i, object new i = object (values v) i).
  { intros i. rewrite Ho, Z.sub_0_r, Hst. case_bool_decide as Hi; [done|]. rewrite object_replicate. by destruct (object (values v) i); [destruct Hi; eexists|]. }
  rewrite wrap32_id.
  2:{ apply Forall_forall. intros i Hi%elem_of_seqZ. unfold U32_MAX in *. lia. }
  set (more := reverse (seqZ (values_capacity v) (n - values_capacity v))).
  assert (Hmore : forall i, i ∈ more <-> values_capacity v <= i < n) by (intros i; unfold more; rewrite elem_of_reverse, elem_of_seqZ; lia).
  set (v' := mkSlots new _ _). assert (Hcap : values_capacity v' = n) by (unfold values_capacity, v'; cbn [values]; lia).
  destruct (resize_spec (stored_bitset v) ((n + 63) / 64) Hbits) as (Hok' & Hl' & Hbit').
  split_and!; [|done|exact Ho'|done]. split; try done; [| | | |lia].
  - rewrite Hcap. unfold Size, BITS_PER_WORD, v'. cbn [stored_bitset]. rewrite Hl'. Z.to_euclidean_division_equations; lia.
  - intros i. unfold v'. cbn [stored_bitset values]. rewrite Hbit', Hst, Ho'. destruct (Z.ltb_spec i (64 * ((n + 63) / 64))) as [|Hi]; [done|].
    rewrite object_out; [done|]. right. unfold values_capacity in Hn. Z.to_euclidean_division_equations; lia.
  - intros i. rewrite Hcap. unfold v'. cbn [free_list values]. rewrite elem_of_app, Hfree, Hmore, Ho'. split; [intros [H|H]; split; try lia; try tauto|].
    + apply object_out. right. unfold values_capacity in H. lia.
    + intros [Hi Hno]. destruct (Z.lt_ge_cases i (values_capacity v)); [left; split; [lia|done]|right; lia].
  - unfold v'. cbn [free_list]. apply NoDup_app. split_and!; [done| |].
    + intros i [Hi _]%Hfree. rewrite Hmore. lia.
    + unfold more. rewrite reverse_Permutation; apply NoDup_seqZ.
Qed.

Lemma last_removelast {A} (l : list A) : l <> [] -> exists x, last l = Some x /\ l = removelast l ++ [x].
Proof.
  intros Hl. destruct (exists_last Hl) as (l' & x & ->). exists x. rewrite last_snoc, removelast_last. done.
Qed.

(** A fresh slot. *)
Lemma FreeValueIndex_spec v : slots_ok v -> values_capacity v < 2147483648 -> exists id v1, FreeValueIndex v = Some (id, v1) /\
  bits_ok (stored_bitset v1) /\ values_capacity v1 <= Size (stored_bitset v1) /\ (forall i, bit (stored_bitset v1) i = bool_decide (is_Some (object (values v1) i))) /\
  NoDup (free_list v1) /\ values_capacity v1 <= U32_MAX /\ (forall i, i ∈ free_list v1 <-> i <> id /\ 0 <= i < values_capacity v1 /\ object (values v1) i = None) /\
  0 <= id < values_capacity v1 /\ object (values v) id = None /\ (forall i, object (values v1) i = object (values v) i).
Proof.
  intros Hok Hcap. unfold FreeValueIndex.
  assert (Hgrow : exists v1, (if bool_decide (free_list v = []) then Reserve (if values_capacity v =? 0 then 1 else Z.shiftl (values_capacity v) 1) v else Some v) = Some v1 /\
    slots_ok v1 /\ free_list v1 <> [] /\ forall i, object (values v1) i = object (values v) i).
  { case_bool_decide as Hf; [|by exists v]. set (n := if values_capacity v =? 0 then 1 else Z.shiftl (values_capacity v) 1).
    assert (Hn : values_capacity v < n <= U32_MAX).
    { assert (0 <= values_capacity v) by (unfold values_capacity; lia). unfold n, U32_MAX. rewrite Z.shiftl_mul_pow2 by done. change (2 ^ 1) with 2. destruct (Z.eqb_spec (values_capacity v) 0); lia. }
    destruct (Reserve_spec n v Hok) as (v1 & -> & Hok1 & Hc1 & Ho1 & Hf1); [lia|]. exists v1. split_and!; [done|done| |done].
    intros E. rewrite E, Hf in Hf1. assert (Hin : values_capacity v ∈ ([] : list Z)); [|by apply not_elem_of_nil in Hin].
    rewrite Hf1. cbn [app]. apply elem_of_reverse, elem_of_seqZ. lia. }
  destruct Hgrow as (v1 & -> & [Hbits Hwords Hst Hfree Hnd Hsm] & Hne & Ho). cbn [mbind option_bind].
  destruct (last_removelast _ Hne) as (id & -> & El). cbn [mbind option_bind]. eexists id, _. split; [done|]. cbn [stored_bitset free_list values].
  rewrite El in Hnd. apply NoDup_app in Hnd as (Hnd & Hdis & _).
  assert (Hid : id ∈ free_list v1) by (rewrite El; apply elem_of_app; right; by left). apply Hfree in Hid as [Hr Hno].
  change (values_capacity (mkSlots (values v1) _ _)) with (values_capacity v1).
  split_and!; [done|done|done|done|done| |lia|lia|by rewrite <- Ho|done]. intros i. rewrite <- Hfree. rewrite El at 2. rewrite elem_of_app, list_elem_of_singleton. split.
  - intros Hi. split; [intros ->; apply (Hdis id Hi); by left|by left].
  - intros [Hne' [Hi|Hi]]; done.
Qed.

Lemma insert_spec x v : slots_ok v -> values_capacity v < 2147483648 -> exists id v', insert x v = Some (id, v') /\ slots_ok v' /\
  0 <= id < INVALID_INDEX /\ at_ id v = None /\ forall i, at_ i v' = if i =? id then Some x else at_ i v.
Proof.
  intros Hok Hcap. unfold insert, at_. destruct (FreeValueIndex_spec v Hok Hcap) as (id & v1 & -> & Hb & Hw & Hst & Hnd & Hsm & Hf & Hid & Hno & Ho). cbn [mbind option_bind].
  destruct (put_ok (values v1) id (Some x) Hid) as [vals E]. rewrite E. cbn [mbind option_bind]. unfold SetStorageBit. cbn [stored_bitset values free_list].
  destruct (Set_spec (stored_bitset v1) id Hb) as (bits & -> & Hb' & Hl' & Hbit); [lia|]. cbn [mbind option_bind]. eexists id, _. split; [done|].
  assert (Ho' : forall i, object vals i = if i =? id then Some x else object (values v) i) by (intros i; by rewrite (object_put _ _ _ _ i E), Ho).
  pose proof (put_length _ _ _ _ E) as Hl. set (v' := mkSlots vals bits (free_list v1)). assert (Hc : values_capacity v' = values_capacity v1) by (unfold values_capacity, v'; cbn; by rewrite Hl).
  split_and!; [|lia|unfold INVALID_INDEX; lia|done|exact Ho']. split; rewrite ?Hc; try done.
  - unfold Size, BITS_PER_WORD in *. unfold v'. cbn [stored_bitset]. by rewrite Hl'.
  - intros i. unfold v'. cbn [stored_bitset values]. rewrite Hbit, Hst, Ho', Ho. by destruct (i =? id).
  - intros i. unfold v'. cbn [free_list values]. rewrite Hf, Ho', Ho. destruct (Z.eqb_spec i id); split; try tauto; intros (_ & H); done.
Qed.

Lemma erase_spec id v : slots_ok v -> is_Some (at_ id v) -> exists v', erase id v = Some v' /\ slots_ok v' /\ values_capacity v' = values_capacity v /\
  forall i, at_ i v' = if i =? id then None else at_ i v.
Proof.
  intros [Hbits Hwords Hst Hfree Hnd Hsm] Hid. pose proof (object_range _ _ Hid) as Hr. unfold erase, at_ in *. destruct Hid as [x Hx]. rewrite Hx. cbn [mbind option_bind].
  destruct (put_ok (values v) id None Hr) as [vals E]. rewrite E. cbn [mbind option_bind]. unfold ResetStorageBit. cbn [stored_bitset values free_list].
  destruct (Unset_spec (stored_bitset v) id Hbits) as (bits & -> & Hb' & Hl' & Hbit); [unfold values_capacity in Hwords; lia|]. cbn [mbind option_bind]. eexists. split; [done|].
  assert (Ho' : forall i, object vals i = if i =? id then None else object (values v) i) by (intros i; apply (object_put _ _ _ _ i E)).
  pose proof (put_length _ _ _ _ E) as Hl. set (v' := mkSlots vals bits (free_list v ++ [id])). assert (Hc : values_capacity v' = values_capacity v) by (unfold values_capacity, v'; cbn; by rewrite Hl).
  split_and!; [|done|exact Ho']. split; rewrite ?Hc; try done.
  - unfold Size, BITS_PER_WORD in *. unfold v'. cbn [stored_bitset]. by rewrite Hl'.
  - intros i. unfold v'. cbn [stored_bitset values]. rewrite Hbit, Hst, Ho'. by destruct (i =? id).
  - intros i. unfold v'. cbn [free_list values]. rewrite elem_of_app, list_elem_of_singleton, Hfree, Ho'. destruct (Z.eqb_spec i id) as [->|].
    + split; [intros _; split; [exact Hr|done]|by right].
    + split; [by intros [?|?]|by left].
  - unfold v'. cbn [free_list]. apply NoDup_app. split_and!; [done| |apply NoDup_singleton]. intros i [_ Hi]%Hfree ->%list_elem_of_singleton. by rewrite Hx in Hi.
Qed.

Lemma update_spec id f v x : slots_ok v -> at_ id v = Some x -> exists v', update id f v = Some v' /\ slots_ok v' /\ values_capacity v' = values_capacity v /\
  forall i, at_ i v' = if i =? id then Some (f x) else at_ i v.
Proof.
  intros [Hbits Hwords Hst Hfree Hnd Hsm] Hx. pose proof (object_range (values v) id ltac:(by eexists)) as Hr. unfold update. rewrite Hx. cbn [mbind option_bind].
  destruct (put_ok (values v) id (Some (f x)) Hr) as [vals E]. rewrite E. cbn [mbind option_bind]. eexists. split; [done|].
  assert (Ho' : forall i, object vals i = if i =? id then Some (f x) else object (values v) i) by (intros i; apply (object_put _ _ _ _ i E)).
  pose proof (put_length _ _ _ _ E) as Hl. set (v' := mkSlots vals _ _). assert (Hc : values_capacity v' = values_capacity v) by (unfold values_capacity, v'; cbn; by rewrite Hl).
  unfold at_ in Hx. split_and!; [|done|exact Ho']. split; rewrite ?Hc; try done.
  - intros i. unfold v'. cbn [stored_bitset values]. rewrite Hst, Ho'. destruct (Z.eqb_spec i id) as [->|]; [by rewrite Hx|done].
  - intros i. unfold v'. cbn [free_list values]. rewrite Hfree, Ho'. destruct (Z.eqb_spec i id) as [->|]; [rewrite Hx; by split; intros [_ ?]|done].
Qed.

(** Iterating gives the objects in the order of their slots. *)
Lemma iterate_slots_spec v n slot : slots_ok v -> 0 <= slot -> slot + Z.of_nat n <= values_capacity v -> exists (l : list (Z * T)), iterate_slots v n slot = Some l /\
  StronglySorted (fun a b => fst a < fst b) l /\ forall i x, (i, x) ∈ l <-> slot <= i < slot + Z.of_nat n /\ at_ i v = Some x.
Proof.
  intros Hok. revert slot. induction n as [|n IH]; intros slot Hs Hn; cbn [iterate_slots].
  - exists []. split_and!; [done|constructor|]. intros i x. rewrite elem_of_nil. split; [done|lia].
  - unfold ReadStorageBit. rewrite Get_spec by (apply Hok || pose proof (so_words v Hok); lia). cbn [mbind option_bind].
    destruct (IH (slot + 1)) as (l & -> & Hsort & Hl); [lia|lia|]. cbn [mbind option_bind]. rewrite (so_stored v Hok). fold (at_ slot v).
    assert (Hrest : forall i x, (i, x) ∈ l -> slot < i) by (intros i x Hi; apply Hl in Hi; lia).
    case_bool_decide as Hsl.
    + destruct Hsl as [o Ho]. rewrite Ho. cbn [mbind option_bind]. exists ((slot, o) :: l). split_and!; [done| |].
      * constructor; [done|]. apply Forall_forall. intros [i x] Hi. cbn. by apply (Hrest i x).
      * intros i x. rewrite elem_of_cons, Hl. split.
        -- intros [[= -> ->]|H]; [split; [lia|done]|split; [lia|tauto]].
        -- intros [Hi Hx]. destruct (Z.eq_dec i slot) as [->|]; [left; congruence|right; split; [lia|done]].
    + exists l. split_and!; [done|done|]. intros i x. rewrite Hl. split; [intros [Hi Hx]; split; [lia|done]|]. intros [Hi Hx]. split; [|done].
      destruct (Z.eq_dec i slot) as [->|]; [|lia]. destruct Hsl. by eexists.
Qed.

Lemma slots_spec v : slots_ok v -> exists (l : list (Z * T)), slots v = Some l /\ StronglySorted (fun a b => fst a < fst b) l /\ forall i x, (i, x) ∈ l <-> at_ i v = Some x.
Proof.
  intros Hok. unfold slots. assert (0 <= values_capacity v) by (unfold values_capacity; lia).
  destruct (iterate_slots_spec v (Z.to_nat (values_capacity v)) 0 Hok) as (l & -> & Hs & Hl); [lia|lia|]. exists l. split_and!; [done|done|].
  intros i x. rewrite Hl. split; [by intros [_ ?]|]. intros Hx. split; [|done]. pose proof (object_range (values v) i ltac:(by eexists)). unfold values_capacity in *. lia.
Qed.

Lemma new_slots_spec : exists v, new_slots = Some v /\ slots_ok v /\ values_capacity v = InitialCapacity /\ forall i, at_ i v = None.
Proof.
  assert (Hok : slots_ok (empty_slots : SlotVector T)).
  { split; cbn; try done; try constructor.
    - intros i. rewrite object_out by (cbn; lia). rewrite bool_decide_false by (intros []; done). apply bit_out. unfold Size. cbn. lia.
    - intros H. by apply elem_of_nil in H.
    - intros [H _]. unfold values_capacity in H. cbn in H. lia. }
  destruct (Reserve_spec InitialCapacity empty_slots Hok) as (v & E & Hv & Hc & Ho & _); [unfold values_capacity, InitialCapacity, U32_MAX; cbn; lia|]. exists v.
  split_and!; [done|done|done|]. intros i. unfold at_. rewrite Ho. apply object_out. cbn. lia.
Qed.
End slot_proofs.

Lemma size_spec {T} (v : SlotVector T) l : slots_ok v -> slots v = Some l -> size v = Z.of_nat (length l).
Proof.
  intros Hok E. destruct (slots_spec v Hok) as (l' & E' & Hs & Hl). rewrite E in E'. injection E' as <-.
  assert (Hnd : NoDup (map fst l)).
  { clear E Hl. induction Hs as [|a l Hs IH Ha]; cbn; constructor; [|done]. intros (b & Eb & Hb)%list_elem_of_In%in_map_iff. apply list_elem_of_In in Hb. apply (proj1 (Forall_forall _ _) Ha) in Hb. lia. }
  assert (Hp : map fst l ++ free_list v ≡ₚ seqZ 0 (values_capacity v)).
  { apply NoDup_Permutation; [|apply NoDup_seqZ|].
    - apply NoDup_app. split_and!; [done| |apply Hok]. intros i Hi Hf. apply list_elem_of_In, in_map_iff in Hi as ([j x] & Ej & Hj). cbn in Ej. subst j. apply list_elem_of_In, Hl in Hj.
      apply (so_free v Hok) in Hf as [_ Hf]. unfold at_ in Hj. by rewrite Hj in Hf.
    - intros i. rewrite elem_of_app, elem_of_seqZ, (so_free v Hok), list_elem_of_In, in_map_iff. split.
      + intros [([j x] & Ej & Hj)|[Hi _]]; [|lia]. cbn in Ej. subst j. apply list_elem_of_In, Hl in Hj. pose proof (object_range (values v) i ltac:(by eexists)). unfold values_capacity. lia.
      + intros Hi. destruct (object (values v) i) as [x|] eqn:Ex; [|right; split; [lia|done]]. left. exists (i, x). split; [done|]. by apply list_elem_of_In, Hl. }
  apply Permutation_length in Hp. rewrite length_app, length_map, length_seqZ in Hp. unfold size. pose proof (so_small v Hok). assert (0 <= values_capacity v) by (unfold values_capacity; lia). lia.
Qed.

(** The states a program can bring a vector of slots to. *)
Inductive used {T} : SlotVector T -> Prop :=
  | used_new v : new_slots = Some v -> used v
  | used_insert x v id v' : used v -> values_capacity v < 2147483648 -> insert x v = Some (id, v') -> used v'
  | used_erase id v v' : used v -> erase id v = Some v' -> used v'
  | used_update id f v v' : used v -> update id f v = Some v' -> used v'.

Lemma used_ok {T} (v : SlotVector T) : used v -> slots_ok v.
Proof.
  induction 1 as [v E|x v id v' _ IH Hc E|id v v' _ IH E|id f v v' _ IH E].
  - destruct (@new_slots_spec T) as (v0 & E0 & H & _). rewrite E0 in E. by injection E as <-.
  - destruct (insert_spec x v IH Hc) as (id0 & v0 & E0 & H & _). rewrite E0 in E. by injection E as _ <-.
  - destruct (at_ id v) eqn:Ea; [|unfold erase in E; unfold at_ in Ea; by rewrite Ea in E]. destruct (erase_spec id v IH) as (v0 & E0 & H & _); [by eexists|]. rewrite E0 in E. by injection E as <-.
  - destruct (at_ id v) as [x|] eqn:Ea; [|unfold update in E; by rewrite Ea in E]. destruct (update_spec id f v x IH Ea) as (v0 & E0 & H & _). rewrite E0 in E. by injection E as <-.
Qed.

(** C30. A vector of slots is a finite map with fresh keys, whatever was inserted and erased before,
    also over the growth of its storage (up to 2^31 slots): inserting returns a valid key that was not
    in use and adds the object under it, erasing a key in use removes it, both leave all others
    alone; iterating gives each object once in the order of the keys, and [size] counts them. *)
Theorem slots_refine {T} (v : SlotVector T) : used v ->
  (forall x, values_capacity v < 2147483648 -> exists id v', insert x v = Some (id, v') /\ used v' /\ 0 <= id < INVALID_INDEX /\ at_ id v = None /\
     forall i, at_ i v' = if i =? id then Some x else at_ i v) /\
  (forall id, is_Some (at_ id v) -> exists v', erase id v = Some v' /\ used v' /\ forall i, at_ i v' = if i =? id then None else at_ i v) /\
  (forall i, 0 <= i < values_capacity v -> is_allocated i v = Some (bool_decide (is_Some (at_ i v)))) /\
  exists l, slots v = Some l /\ StronglySorted (fun a b => fst a < fst b) l /\ (forall i x, (i, x) ∈ l <-> at_ i v = Some x) /\ size v = Z.of_nat (length l).
Proof.
  intros Hu. pose proof (used_ok v Hu) as Hok. split_and!.
  - intros x Hc. destruct (insert_spec x v Hok Hc) as (id & v' & E & _ & Hid & Hno & Hat). exists id, v'. split_and!; try done; try lia. by apply (used_insert x v id).
  - intros id Hid. destruct (erase_spec id v Hok Hid) as (v' & E & _ & _ & Hat). exists v'. split_and!; [done| |done]. by apply (used_erase id v).
  - intros i Hi. unfold is_allocated, ReadStorageBit. rewrite Get_spec by (apply Hok || pose proof (so_words v Hok); lia). by rewrite (so_stored v Hok).
  - destruct (slots_spec v Hok) as (l & E & Hs & Hl). exists l. split_and!; [done|done|done|by apply size_spec].
Qed.

(** Two objects in a new vector. *)
Lemma slots_refine_witness : exists (v v1 v2 : SlotVector Z) a b, new_slots = Some v /\ insert 10 v = Some (a, v1) /\ insert 20 v1 = Some (b, v2) /\
  a <> b /\ at_ a v2 = Some 10 /\ at_ b v2 = Some 20.
Proof.
  destruct (@new_slots_spec Z) as (v & E & _ & Hc & _). assert (Hu : used v) by by apply used_new.
  destruct (proj1 (slots_refine v Hu) 10) as (a & v1 & E1 & Hu1 & _ & _ & H1); [by rewrite Hc; vm_compute|].
  assert (Hc1 : values_capacity v1 < 2147483648).
  { apply (Z.le_lt_trans _ 2048); [|done]. assert (E1' : values_capacity <$> (v ← new_slots; '(_, v) ← insert 10 v; Some v) = Some 2048) by reflexivity.
    rewrite E in E1'. cbn [mbind option_bind] in E1'. rewrite E1 in E1'. cbn [mbind option_bind] in E1'. pose proof (f_equal (default 0) E1') as H. change (values_capacity v1 = 2048) in H. by rewrite H. }
  destruct (proj1 (slots_refine v1 Hu1) 20) as (b & v2 & E2 & _ & _ & Hno & H2); [exact Hc1|]. exists v, v1, v2, a, b. split_and!; [done..| | |].
  - intros ->. rewrite H1, Z.eqb_refl in Hno. done.
  - rewrite H2. destruct (Z.eqb_spec a b) as [->|]; [rewrite H1, Z.eqb_refl in Hno; done|]. by rewrite H1, Z.eqb_refl.
  - by rewrite H2, Z.eqb_refl.
Defined.
