(* ===== verification/LruCache.v ===== *)
(** Least recently used objects: src/src/common/lru_cache.h.

    The items of [LeastRecentlyUsedCache] live in a pool that only grows, the ones in use form a
    doubly linked list, oldest first, and the others are queued for reuse. A pointer to an item is
    its index in the pool here, and the null pointer is [None]; an operation returns [None] where
    the code leaves the pool. *)
From Stdlib Require Import ZArith Lia Sorting.Sorted.
From stdpp Require Import base list list_numbers.
From S2P Require Import Prelude.

Section cache.
Context {O : Type} `{Inhabited O}.

Record Item := mkItem { obj : O; tick : Z; next : option nat; prev : option nat }.
#[export] Instance eta_Item : Eta Item := fun i => mkItem (obj i) (tick i) (next i) (prev i).

Record Cache := mkCache { item_pool : list Item; free_items : list nat; first_item : option nat; last_item : option nat }.
#[export] Instance eta_Cache : Eta Cache := fun c => mkCache (item_pool c) (free_items c) (first_item c) (last_item c).

Definition empty_cache : Cache := mkCache [] [] None None.

(** [item_pool[id]], and writing a member of it. *)
Definition item (id : nat) (c : Cache) : option Item := item_pool c !! id.
Definition set_item (id : nat) (f : Item -> Item) (c : Cache) : option Cache :=
  _ ← item id c; Some (c <| item_pool ::= alter f id |>).
Definition set_next (p : option nat) (i : Item) : Item := i <| next := p |>.
Definition set_prev (p : option nat) (i : Item) : Item := i <| prev := p |>.

(** A new item is value-initialized; [Insert] sets its object and tick at once. *)
Definition Build (c : Cache) : option (nat * Cache) :=
  match free_items c with
  | [] => Some (length (item_pool c), c <| item_pool ::= fun l => l ++ [mkItem inhabitant 0 None None] |>)
  | item_id :: rest =>
      c ← set_item item_id (fun i => set_prev None (set_next None i)) (c <| free_items := rest |>);
      Some (item_id, c)
  end.

Definition Attach (id : nat) (c : Cache) : option Cache :=
  let c := match first_item c with None => c <| first_item := Some id |> | Some _ => c end in
  match last_item c with
  | None => Some (c <| last_item := Some id |>)
  | Some last =>
      c ← set_item id (set_prev (Some last)) c;
      c ← set_item last (set_next (Some id)) c;
      c ← set_item id (set_next None) c;
      Some (c <| last_item := Some id |>)
  end.

Definition Detach (id : nat) (c : Cache) : option Cache :=
  it ← item id c;
  c ← match prev it with Some p => set_item p (set_next (next it)) c | None => Some c end;
  it ← item id c;
  c ← match next it with Some n => set_item n (set_prev (prev it)) c | None => Some c end;
  it ← item id c;
  c ← (if bool_decide (first_item c = Some id) then
         let c := c <| first_item := next it |> in
         match next it with Some first => set_item first (set_prev None) c | None => Some c end
       else Some c);
  it ← item id c;
  if bool_decide (last_item c = Some id) then
    let c := c <| last_item := prev it |> in
    match prev it with Some last => set_item last (set_next None) c | None => Some c end
  else Some c.

Definition Insert (o : O) (t : Z) (c : Cache) : option (nat * Cache) :=
  '(new_id, c) ← Build c;
  c ← set_item new_id (fun i => i <| obj := o |> <| tick := t |>) c;
  c ← Attach new_id c;
  Some (new_id, c).

Definition Touch (id : nat) (t : Z) (c : Cache) : option Cache :=
  it ← item id c;
  if t <=? tick it then Some c else
  c ← set_item id (fun i => i <| tick := t |>) c;
  if bool_decide (last_item c = Some id) then Some c else
  c ← Detach id c;
  Attach id c.

Definition Free (id : nat) (c : Cache) : option Cache :=
  c ← Detach id c;
  c ← set_item id (fun i => set_next None (set_prev None i)) c;
  Some (c <| free_items ::= fun l => l ++ [id] |>).

(** The callback works on a state that the cache is part of. The loop means to stop when it
    answers [true], but [RETURNS_BOOL] compares the class [std::invoke_result<Func, ObjectType>],
    not the type it holds, with [bool]: it is [false] for every [Func], and the branch compiled
    drops the answer. *)
Fixpoint visit {S : Type} (cache : S -> Cache) (t : Z) (func : O -> S -> option (S * bool)) (fuel : nat) (iterator : option nat) (s : S) : option S :=
  match iterator with
  | None => Some s
  | Some id =>
      match fuel with
      | 0%nat => None
      | Datatypes.S fuel =>
          it ← item id (cache s);
          if s64 t - s64 (tick it) <? 0 then Some s else
          '(s, _) ← func (obj it) s;
          visit cache t func fuel (next it) s
      end
  end.
Definition ForEachItemBelow {S : Type} (cache : S -> Cache) (t : Z) (func : O -> S -> option (S * bool)) (s : S) : option S :=
  visit cache t func (Datatypes.S (length (item_pool (cache s)))) (first_item (cache s)) s.
End cache.
Arguments Item : clear implicits.
Arguments Cache : clear implicits.

(** * The list that the links make *)

Section links.
Context {O : Type}.
Implicit Types (pool : list (Item O)) (l : list nat).

Definition links pool (x : nat) : option (option nat * option nat) := (fun i => (prev i, next i)) <$> pool !! x.
Definition entry pool (x : nat) : option (O * Z) := (fun i => (obj i, tick i)) <$> pool !! x.

(** The items of [l] from [pp] on, linked to each other, and [qn] after the last. *)
Fixpoint linked pool (pp : option nat) l (qn : option nat) : Prop :=
  match l with
  | [] => True
  | x :: l => links pool x = Some (pp, match l with [] => qn | y :: _ => Some y end) /\ linked pool (Some x) l qn
  end.

Definition first_of l (qn : option nat) : option nat := match l with [] => qn | x :: _ => Some x end.
Definition last_of (pp : option nat) l : option nat := match last l with Some x => Some x | None => pp end.

Lemma last_of_cons pp x l : last_of pp (x :: l) = last_of (Some x) l.
Proof. unfold last_of. rewrite last_cons. by destruct (last l). Qed.

Lemma linked_app pool pp l1 l2 qn : linked pool pp (l1 ++ l2) qn <-> linked pool pp l1 (first_of l2 qn) /\ linked pool (last_of pp l1) l2 qn.
Proof.
  revert pp. induction l1 as [|x l1 IH]; intros pp; cbn [app linked]; [by split; [|intros [_ H]]|].
  rewrite IH, last_of_cons. destruct l1, l2; cbn [app first_of linked]; tauto.
Qed.

Lemma linked_same pool pool' pp l qn : (forall x, x ∈ l -> links pool' x = links pool x) -> linked pool pp l qn -> linked pool' pp l qn.
Proof.
  revert pp. induction l as [|x l IH]; intros pp Hs; cbn [linked]; [done|]. intros [Hx Hl]. split; [rewrite Hs; [done|by left]|].
  apply IH; [|done]. intros y Hy. apply Hs. by right.
Qed.

Lemma links_alter f pool x y : links (alter f x pool) y = if bool_decide (y = x) then (fun i => (prev (f i), next (f i))) <$> pool !! y else links pool y.
Proof.
  unfold links. case_bool_decide as E; [subst y; rewrite list_lookup_alter_eq, <- option_fmap_compose; done|by rewrite list_lookup_alter_ne].
Qed.

Lemma entry_alter f pool x y : entry (alter f x pool) y = if bool_decide (y = x) then (fun i => (obj (f i), tick (f i))) <$> pool !! y else entry pool y.
Proof.
  unfold entry. case_bool_decide as E; [subst y; rewrite list_lookup_alter_eq, <- option_fmap_compose; done|by rewrite list_lookup_alter_ne].
Qed.
End links.

Section cache_proofs.
Context {O : Type} `{Inhabited O}.
Implicit Types (pool : list (Item O)) (c : Cache O) (l : list nat).

Lemma linked_frame pool f x pp l qn : x ∉ l -> linked pool pp l qn -> linked (alter f x pool) pp l qn.
Proof. intros Hx. apply linked_same. intros y Hy. rewrite links_alter. case_bool_decide as E; [by subst|done]. Qed.

Lemma linked_set_next pool pp l p qn qn' : NoDup (l ++ [p]) -> linked pool pp (l ++ [p]) qn -> linked (alter (set_next qn') p pool) pp (l ++ [p]) qn'.
Proof.
  intros Hnd. rewrite !linked_app. cbn [first_of linked]. intros (Hl & Hp & _). apply NoDup_app in Hnd as (_ & Hd & _). split_and!; [|  |done].
  - apply linked_frame; [|done]. intros Hin. apply (Hd p Hin). by left.
  - rewrite links_alter, bool_decide_true by done. unfold links in Hp. destruct (pool !! p); [|done]. cbn in *. congruence.
Qed.

Lemma linked_set_prev pool pp pp' n l qn : n ∉ l -> linked pool pp (n :: l) qn -> linked (alter (set_prev pp') n pool) pp' (n :: l) qn.
Proof.
  intros Hn [Hp Hl]. split; [|by apply linked_frame].
  rewrite links_alter, bool_decide_true by done. unfold links in Hp. destruct (pool !! n); [|done]. cbn in *. congruence.
Qed.

Lemma set_item_ok x f c : (x < length (item_pool c))%nat -> set_item x f c = Some (c <| item_pool ::= alter f x |>).
Proof. intros Hx. unfold set_item, item. destruct (lookup_lt_is_Some_2 _ _ Hx) as [i ->]. done. Qed.

Lemma links_item pool x a b : links pool x = Some (a, b) -> exists i, pool !! x = Some i /\ prev i = a /\ next i = b.
Proof. unfold links. destruct (pool !! x) as [i|]; [|done]. intros [= <- <-]. by exists i. Qed.

Lemma linked_lt pool pp l qn x : linked pool pp l qn -> x ∈ l -> (x < length pool)%nat.
Proof.
  intros Hl (l1 & l2 & ->)%list_elem_of_split. apply linked_app in Hl as [_ [Hx _]]. apply links_item in Hx as (i & Hi & _). by apply lookup_lt_Some in Hi.
Qed.

(** What [Detach] and [Attach] keep: the objects, the size of the pool, the queue of free items. *)
Record same_objects c c' : Prop := {
  sm_entry : forall y, entry (item_pool c') y = entry (item_pool c) y;
  sm_length : length (item_pool c') = length (item_pool c);
  sm_free : free_items c' = free_items c
}.

Record listed c l : Prop := {
  li_linked : linked (item_pool c) None l None;
  li_first : first_item c = first_of l None;
  li_last : last_item c = last_of None l;
  li_nodup : NoDup l
}.

Lemma entry_set pool x y f : (forall i, obj (f i) = obj i /\ tick (f i) = tick i) -> entry (alter f x pool) y = entry pool y.
Proof.
  intros Hf. rewrite entry_alter. case_bool_decide as E; [|done]. unfold entry. destruct (pool !! y) as [i|]; [|done]. cbn. by destruct (Hf i) as [-> ->].
Qed.

Lemma same_refl c : same_objects c c.
Proof. by split. Qed.
Lemma same_set c c' x f : (forall i, obj (f i) = obj i /\ tick (f i) = tick i) -> item_pool c' = alter f x (item_pool c) -> free_items c' = free_items c -> same_objects c c'.
Proof. intros Hf E E'. split; [intros y; rewrite E; by apply entry_set|by rewrite E, length_alter|done]. Qed.
Lemma same_trans c1 c2 c3 : same_objects c1 c2 -> same_objects c2 c3 -> same_objects c1 c3.
Proof. intros [H1 H2 H3] [H4 H5 H6]. split; congruence. Qed.
Lemma next_same p : forall i : Item O, obj (set_next p i) = obj i /\ tick (set_next p i) = tick i.
Proof. done. Qed.
Lemma prev_same p : forall i : Item O, obj (set_prev p i) = obj i /\ tick (set_prev p i) = tick i.
Proof. done. Qed.

(** Writing the link of one end of a part of the list. *)
Record relinked l c c' : Prop := {
  rl_same : same_objects c c';
  rl_links : forall y, y ∉ l -> links (item_pool c') y = links (item_pool c) y;
  rl_first : first_item c' = first_item c;
  rl_last : last_item c' = last_item c
}.

Lemma relinked_refl l c : relinked l c c.
Proof. by split; [apply same_refl|..]. Qed.

Lemma relinked_set l x f c : x ∈ l -> (forall i, obj (f i) = obj i /\ tick (f i) = tick i) -> relinked l c (c <| item_pool ::= alter f x |>).
Proof.
  intros Hx Hf. split; try done; [by apply (same_set _ _ x f)|]. intros y Hy. change (links (alter f x (item_pool c)) y = links (item_pool c) y). rewrite links_alter. case_bool_decide as E; [by subst|done].
Qed.

Lemma set_last_next c l pp qn q : linked (item_pool c) pp l qn -> NoDup l -> last_of None l = last_of pp l ->
  exists c', match last_of None l with Some p => set_item p (set_next q) c | None => Some c end = Some c' /\ relinked l c c' /\ linked (item_pool c') pp l q.
Proof.
  intros Hl Hnd _. unfold last_of. destruct (last l) as [p|] eqn:E.
  - apply last_Some in E as [l' ->]. assert (Hp : p ∈ l' ++ [p]) by (apply elem_of_app; right; by left).
    rewrite set_item_ok by by apply (linked_lt _ _ _ _ _ Hl). eexists. split_and!; [done|by apply relinked_set|]. by apply (linked_set_next _ _ _ _ qn).
  - apply last_None in E as ->. exists c. split_and!; [done|apply relinked_refl|done].
Qed.

Lemma set_first_prev c l pp pp' qn : linked (item_pool c) pp l qn -> NoDup l ->
  exists c', match first_of l None with Some n => set_item n (set_prev pp') c | None => Some c end = Some c' /\ relinked l c c' /\ linked (item_pool c') pp' l qn.
Proof.
  intros Hl Hnd. destruct l as [|n l]; cbn [first_of]; [exists c; split_and!; [done|apply relinked_refl|done]|].
  rewrite set_item_ok by (apply (linked_lt _ _ _ _ n Hl); by left). apply NoDup_cons in Hnd as [Hn _].
  eexists. split_and!; [done|apply relinked_set; [by left|done]|]. by apply (linked_set_prev _ pp).
Qed.

Lemma first_of_app l1 l2 q : first_of (l1 ++ l2) q = first_of l1 (first_of l2 q).
Proof. by destruct l1. Qed.
Lemma last_of_app p l1 l2 : last_of p (l1 ++ l2) = last_of (last_of p l1) l2.
Proof. unfold last_of. rewrite last_app. by destruct (last l2). Qed.

Lemma linked_relinked pp l qn l' c c' : relinked l' c c' -> (forall x, x ∈ l -> x ∉ l') -> linked (item_pool c) pp l qn -> linked (item_pool c') pp l qn.
Proof. intros [_ Hl _ _] Hd. apply linked_same. intros x Hx. by apply Hl, Hd. Qed.

Lemma item_links c x a b : links (item_pool c) x = Some (a, b) -> exists i, item x c = Some i /\ prev i = a /\ next i = b.
Proof. apply links_item. Qed.

Lemma Detach_spec c l1 x l2 : listed c (l1 ++ x :: l2) -> exists c', Detach x c = Some c' /\ listed c' (l1 ++ l2) /\ same_objects c c'.
Proof.
  intros [Hl Hf Hla Hnd]. apply linked_app in Hl as [Hl1 [Hx Hl2]]. cbn [first_of] in Hl1. fold (first_of l2 None) in Hx.
  apply NoDup_app in Hnd as (Hnd1 & Hd & Hnd2). apply NoDup_cons in Hnd2 as [Hx2 Hnd2]. assert (Hx1 : x ∉ l1) by (intros Hin; apply (Hd x Hin); by left).
  assert (H12 : forall y, y ∈ l1 -> y ∉ l2) by (intros y Hy Hy2; apply (Hd y Hy); by right). unfold Detach.
  destruct (item_links c x _ _ Hx) as (it & Ei & Ep & En). rewrite Ei. cbn [mbind option_bind]. rewrite Ep, En. clear Ei Ep En.
  destruct (set_last_next c l1 None _ (first_of l2 None) Hl1 Hnd1 eq_refl) as (c1 & -> & R1 & Hl1'). cbn [mbind option_bind].
  pose proof Hx as Hx'. rewrite <- (rl_links _ _ _ R1 x Hx1) in Hx'. destruct (item_links c1 x _ _ Hx') as (it1 & Ei & Ep & En). rewrite Ei. cbn [mbind option_bind]. rewrite Ep, En. clear Ei Ep En.
  apply (linked_relinked _ _ _ l1 c c1 R1) in Hl2; [|intros y Hy Hy1; by apply (H12 y)].
  destruct (set_first_prev c1 l2 _ (last_of None l1) None Hl2 Hnd2) as (c2 & -> & R2 & Hl2'). cbn [mbind option_bind].
  apply (linked_relinked _ _ _ l2 c1 c2 R2) in Hl1'; [|done]. rewrite <- (rl_links _ _ _ R2 x Hx2) in Hx'. destruct (item_links c2 x _ _ Hx') as (it2 & Ei & Ep & En). rewrite Ei. cbn [mbind option_bind]. rewrite En. clear Ei Ep En.
  assert (Hfirst : first_item c2 = first_of l1 (Some x)) by (rewrite (rl_first _ _ _ R2), (rl_first _ _ _ R1), Hf; by destruct l1).
  assert (Hlast : last_item c2 = last_of (Some x) l2) by (by rewrite (rl_last _ _ _ R2), (rl_last _ _ _ R1), Hla, last_of_app, last_of_cons).
  assert (Hthird : exists c3, (if bool_decide (first_item c2 = Some x) then
         match first_of l2 None with Some first => set_item first (set_prev None) (c2 <| first_item := first_of l2 None |>) | None => Some (c2 <| first_item := first_of l2 None |>) end
       else Some c2) = Some c3 /\ same_objects c2 c3 /\ links (item_pool c3) x = links (item_pool c2) x /\ linked (item_pool c3) None l1 (first_of l2 None) /\
       linked (item_pool c3) (last_of None l1) l2 None /\ first_item c3 = first_of (l1 ++ l2) None /\ last_item c3 = last_item c2).
  { destruct l1 as [|y l1].
    - rewrite bool_decide_true by done. set (c2' := c2 <| first_item := first_of l2 None |>).
      destruct (set_first_prev c2' l2 None None None Hl2' Hnd2) as (c3 & -> & R3 & Hl3). exists c3. destruct R3 as [Hs Hk Hfi Hli]. split_and!; try done; try (by apply Hk); by destruct Hs.
    - rewrite bool_decide_false by (rewrite Hfirst; intros [= ->]; apply Hx1; by left). exists c2. by split_and!. }
  destruct Hthird as (c3 & -> & S3 & Hx3 & Hl13 & Hl23 & Hf3 & Hla3). cbn [mbind option_bind]. rewrite <- Hx3 in Hx'.
  destruct (item_links c3 x _ _ Hx') as (it3 & Ei & Ep & En). rewrite Ei. cbn [mbind option_bind]. rewrite Ep. clear Ei Ep En.
  pose proof (same_trans _ _ _ (rl_same _ _ _ R1) (same_trans _ _ _ (rl_same _ _ _ R2) S3)) as S.
  destruct l2 as [|y l2].
  - rewrite bool_decide_true by (by rewrite Hla3, Hlast). set (c3' := c3 <| last_item := last_of None l1 |>). rewrite app_nil_r in *.
    destruct (set_last_next c3' l1 None None None Hl13 Hnd1 eq_refl) as (c4 & -> & [Hs _ Hfi Hli] & Hl4). exists c4. split; [done|]. split; [|apply (same_trans _ _ _ S); by destruct Hs].
    split; [done|by rewrite Hfi|by rewrite Hli|done].
  - assert (Hlast3 : last_item c3 = last_of None (y :: l2)) by (rewrite Hla3, Hlast; unfold last_of; rewrite last_cons; by destruct (last l2)).
    assert (Hin : exists z, last_item c3 = Some z /\ z ∈ y :: l2).
    { rewrite Hlast3. unfold last_of. destruct (last (y :: l2)) as [z|] eqn:E; [|by apply last_None in E]. exists z. split; [done|].
      apply last_Some in E as [l' E]. rewrite E. apply elem_of_app. right. by left. }
    destruct Hin as (z & Hz & Hzin). rewrite bool_decide_false by (rewrite Hz; intros [= ->]; done). exists c3. split; [done|]. split; [|done]. split.
    + apply linked_app. by split.
    + done.
    + rewrite Hlast3, last_of_app. unfold last_of. rewrite last_cons. by destruct (last l2).
    + apply NoDup_app. split_and!; [done| |done]. intros w Hw Hw2. by apply (H12 w).
Qed.

Lemma Attach_spec c l x : listed c l -> x ∉ l -> (l = [] -> links (item_pool c) x = Some (None, None)) -> (x < length (item_pool c))%nat ->
  exists c', Attach x c = Some c' /\ listed c' (l ++ [x]) /\ same_objects c c'.
Proof.
  intros [Hl Hf Hla Hnd] Hx Hnew Hlt. unfold Attach. rewrite Hf. assert (Hnd' : NoDup (l ++ [x])).
  { apply NoDup_app. split_and!; [done| |apply NoDup_singleton]. by intros y Hy ->%list_elem_of_singleton. }
  destruct (decide (l = [])) as [->|Hne].
  - cbn [first_of]. change (last_item (c <| first_item := Some x |>)) with (last_item c). rewrite Hla. cbn. eexists. split_and!; [done| |done]. split; [|done..]. split; [|done]. by apply Hnew.
  - destruct (first_of l None) as [y|] eqn:Ef; [|by destruct l]. destruct (exists_last Hne) as (l' & z & ->). rewrite Hla. unfold last_of. rewrite last_snoc.
    assert (Hz : z ∈ l' ++ [z]) by (apply elem_of_app; right; by left). assert (Hzx : z <> x) by (by intros ->).
    rewrite set_item_ok by done. cbn [mbind option_bind]. set (c1 := c <| item_pool ::= alter (set_prev (Some z)) x |>).
    pose proof (linked_frame _ (set_prev (Some z)) _ _ _ _ Hx Hl) as Hl1. rewrite set_item_ok by (apply (linked_lt _ _ _ _ _ Hl1 Hz)). cbn [mbind option_bind].
    set (c2 := c1 <| item_pool ::= alter (set_next (Some x)) z |>).
    pose proof (linked_set_next _ _ _ _ _ (Some x) Hnd Hl1) as Hl2. assert (Hx2 : (x < length (item_pool c2))%nat) by (unfold c2, c1; cbn; by rewrite !length_alter).
    rewrite set_item_ok by done. cbn [mbind option_bind]. eexists. split; [done|]. split.
    + split; [|change (first_item c = first_of ((l' ++ [z]) ++ [x]) None); rewrite Hf; by destruct l'|by rewrite last_of_app|done]. change (linked (alter (set_next None) x (item_pool c2)) None ((l' ++ [z]) ++ [x]) None).
      apply linked_app. split; [by apply linked_frame|]. cbn [linked]. split; [|done]. rewrite links_alter, bool_decide_true by done.
      change (item_pool c2) with (alter (set_next (Some x)) z (alter (set_prev (Some z)) x (item_pool c))). rewrite list_lookup_alter_ne by done. rewrite list_lookup_alter_eq.
      destruct (lookup_lt_is_Some_2 _ _ Hlt) as [i ->]. cbn. by rewrite last_of_app.
    + apply (same_trans _ c1); [by apply (same_set _ _ x (set_prev (Some z)))|]. apply (same_trans _ c2); [by apply (same_set _ _ z (set_next (Some x)))|].
      by apply (same_set _ _ x (set_next None)).
Qed.

(** * What the cache holds *)

(** The items in use with their objects and ticks, oldest first; the others are free. *)
Record holds c (e : list (nat * (O * Z))) : Prop := {
  ho_listed : listed c (map fst e);
  ho_entry : forall x d, (x, d) ∈ e -> entry (item_pool c) x = Some d;
  ho_nodup : NoDup (free_items c);
  ho_all : forall x, x ∈ free_items c <-> (x < length (item_pool c))%nat /\ x ∉ map fst e
}.

Lemma empty_holds : holds empty_cache [].
Proof. split; cbn; [by split; [..|constructor]|by intros x d ?%elem_of_nil|constructor|]. intros x. rewrite elem_of_nil. split; [done|]. intros [? _]. lia. Qed.

Lemma elem_of_fst (e : list (nat * (O * Z))) x : x ∈ map fst e <-> exists d, (x, d) ∈ e.
Proof.
  rewrite list_elem_of_In, in_map_iff. split; [intros ([y d] & Ey & Hy)|intros (d & Hd)].
  - cbn in Ey. subst y. exists d. by apply list_elem_of_In.
  - exists (x, d). split; [done|]. by apply list_elem_of_In.
Qed.

Lemma holds_lt c e x d : holds c e -> (x, d) ∈ e -> (x < length (item_pool c))%nat.
Proof. intros [Hl _ _ _] Hx. apply (linked_lt _ _ _ _ _ (li_linked _ _ Hl)). apply elem_of_fst. by exists d. Qed.

Lemma entry_links pool x d : entry pool x = Some d -> exists i, pool !! x = Some i /\ (obj i, tick i) = d.
Proof. unfold entry. destruct (pool !! x) as [i|]; [|done]. intros [= <-]. by exists i. Qed.

Lemma Build_spec c e : holds c e -> exists x c', Build c = Some (x, c') /\ listed c' (map fst e) /\ (forall y, y ∈ map fst e -> entry (item_pool c') y = entry (item_pool c) y) /\
  ~ (x ∈ map fst e) /\ links (item_pool c') x = Some (None, None) /\ NoDup (free_items c') /\
  (forall y, y ∈ free_items c' <-> y <> x /\ (y < length (item_pool c'))%nat /\ y ∉ map fst e).
Proof.
  intros [[Hl Hf Hla Hnd] He Hfn Hall]. unfold Build. assert (Hlt : forall y, y ∈ map fst e -> (y < length (item_pool c))%nat) by (intros y; apply (linked_lt _ _ _ _ _ Hl)).
  destruct (free_items c) as [|x rest] eqn:Efree.
  - eexists _, _. split; [done|]. set (c' := c <| item_pool ::= _ |>). assert (Hp : item_pool c' = item_pool c ++ [mkItem inhabitant 0 None None]) by done.
    assert (Hlk : forall y, y ∈ map fst e -> item_pool c' !! y = item_pool c !! y) by (intros y Hy; rewrite Hp; apply lookup_app_l; by apply Hlt).
    change (free_items c') with (free_items c). rewrite Efree, Hp. split_and!.
    + split; [|done..]. apply (linked_same (item_pool c)); [|done]. intros y Hy. unfold links. by rewrite Hlk.
    + intros y Hy. unfold entry. rewrite <- Hp. by rewrite Hlk.
    + intros Hin. apply Hlt in Hin. lia.
    + unfold links. rewrite list_lookup_middle by done. done.
    + constructor.
    + intros y. rewrite elem_of_nil. split; [done|]. rewrite length_app. cbn. intros (Hne & Hy & Hno). assert (Hin : y ∈ ([] : list nat)) by (apply Hall; split; [lia|done]). by apply elem_of_nil in Hin.
  - assert (Hx : (x < length (item_pool c))%nat /\ x ∉ map fst e) by (apply Hall; by left). destruct Hx as [Hx Hxe]. apply NoDup_cons in Hfn as [Hxr Hr].
    rewrite set_item_ok by done. cbn [mbind option_bind]. eexists _, _. split; [done|]. set (c' := _ <| item_pool ::= _ |>).
    assert (Hp : item_pool c' = alter (fun i => set_prev None (set_next None i)) x (item_pool c)) by done. change (free_items c') with rest. rewrite Hp. split_and!.
    + split; [|done..]. by apply linked_frame.
    + intros y Hy. apply entry_set. done.
    + done.
    + rewrite links_alter, bool_decide_true by done. by destruct (lookup_lt_is_Some_2 _ _ Hx) as [i ->].
    + done.
    + intros y. rewrite length_alter. split.
      * intros Hy. split; [by intros ->|]. apply Hall. by right.
      * intros (Hne & Hy). apply Hall in Hy. by apply elem_of_cons in Hy as [|].
Qed.

Lemma Insert_spec o t c e : holds c e -> exists x c', Insert o t c = Some (x, c') /\ ~ (x ∈ map fst e) /\ holds c' (e ++ [(x, (o, t))]).
Proof.
  intros Hh. unfold Insert. destruct (Build_spec c e Hh) as (x & c1 & -> & [Hl Hf Hla Hnd] & He & Hx & Hlk & Hfn & Hall). cbn [mbind option_bind].
  pose proof (links_item _ _ _ _ Hlk) as (i0 & Hi0 & _). pose proof (lookup_lt_Some _ _ _ Hi0) as Hlt. set (f := fun i : Item O => i <| obj := o |> <| tick := t |>).
  rewrite set_item_ok by done. cbn [mbind option_bind]. set (c2 := c1 <| item_pool ::= alter f x |>).
  assert (Hl2 : forall y, links (item_pool c2) y = links (item_pool c1) y).
  { intros y. change (item_pool c2) with (alter f x (item_pool c1)). rewrite links_alter. case_bool_decide as E; [|done]. subst y. unfold links. by rewrite Hi0. }
  destruct (Attach_spec c2 (map fst e) x) as (c3 & -> & Hl3 & [He3 Hlen Hfree]); [|done| | |].
  - split; [|done..]. apply (linked_same (item_pool c1)); [|done]. intros y _. apply Hl2.
  - intros _. by rewrite Hl2.
  - change (item_pool c2) with (alter f x (item_pool c1)). by rewrite length_alter.
  - cbn [mbind option_bind]. exists x, c3. split_and!; [done|done|]. change (free_items c2) with (free_items c1) in Hfree. assert (Hlen' : length (item_pool c3) = length (item_pool c1)).
    { rewrite Hlen. change (item_pool c2) with (alter f x (item_pool c1)). apply length_alter. }
    split; [by rewrite map_app| |by rewrite Hfree|].
    + intros y d Hy. rewrite He3. change (item_pool c2) with (alter f x (item_pool c1)). rewrite entry_alter. case_bool_decide as E.
      * subst y. rewrite Hi0. apply elem_of_app in Hy as [Hy|Hy]; [destruct Hx; apply elem_of_fst; by exists d|]. apply list_elem_of_singleton in Hy. by injection Hy as ->.
      * apply elem_of_app in Hy as [Hy|Hy]; [|apply list_elem_of_singleton in Hy; congruence]. rewrite He by (apply elem_of_fst; by exists d). by apply (ho_entry _ _ Hh).
    + intros y. rewrite Hfree, Hlen', Hall, map_app, elem_of_app. cbn [map fst]. rewrite list_elem_of_singleton. tauto.
Qed.

Lemma holds_part c e1 x d e2 : holds c (e1 ++ (x, d) :: e2) -> listed c (map fst e1 ++ x :: map fst e2) /\ entry (item_pool c) x = Some d.
Proof.
  intros [Hl He _ _]. rewrite map_app in Hl. cbn in Hl. split; [done|]. apply He. apply elem_of_app. right. by left.
Qed.

Lemma same_holds c c' e e' : holds c e -> same_objects c c' -> listed c' (map fst e') -> (forall x, x ∈ map fst e' <-> x ∈ map fst e) -> (forall x d, (x, d) ∈ e' -> (x, d) ∈ e) -> holds c' e'.
Proof.
  intros [_ He Hfn Hall] [Hs Hlen Hfree] Hl Hin Hsub. split; [done| |by rewrite Hfree|].
  - intros x d Hx. rewrite Hs. by apply He, Hsub.
  - intros x. by rewrite Hfree, Hall, Hlen, Hin.
Qed.

Lemma elem_of_middle {A} (l1 l2 : list A) x y : y ∈ l1 ++ x :: l2 <-> y = x \/ y ∈ l1 ++ l2.
Proof. rewrite !elem_of_app, elem_of_cons. tauto. Qed.

Lemma middle_fresh {A} (l1 l2 : list A) x : NoDup (l1 ++ x :: l2) -> ~ (x ∈ l1 ++ l2).
Proof. rewrite <- Permutation_middle. by intros [Hx _]%NoDup_cons. Qed.

(** Giving an item a new tick. *)
Lemma holds_tick c e1 x o t0 t e2 : holds c (e1 ++ (x, (o, t0)) :: e2) ->
  holds (c <| item_pool ::= alter (fun i => i <| tick := t |>) x |>) (e1 ++ (x, (o, t)) :: e2).
Proof.
  set (f := fun i : Item O => i <| tick := t |>). intros Hh. pose proof (holds_part _ _ _ _ _ Hh) as [[Hl Hf Hla Hnd] Hx]. destruct (entry_links _ _ _ Hx) as (i & Hi & Ei).
  destruct Hh as [_ He Hfn Hall]. pose proof (middle_fresh _ _ _ Hnd) as Hxf. rewrite map_app in Hall. cbn [map fst] in Hall.
  split; rewrite ?map_app; cbn [map fst]; [split; [|done..]| |done|].
  - apply (linked_same (item_pool c)); [|done]. intros y _. change (links (alter f x (item_pool c)) y = links (item_pool c) y). rewrite links_alter. case_bool_decide as E; [|done]. subst y. unfold links. by rewrite Hi.
  - intros y d Hy. change (entry (alter f x (item_pool c)) y = Some d). rewrite entry_alter. apply elem_of_middle in Hy as [[= -> ->]|Hy].
    + rewrite bool_decide_true, Hi by done. cbn. by injection Ei as -> _.
    + rewrite bool_decide_false; [apply He, elem_of_middle; by right|]. intros ->. apply Hxf. rewrite <- map_app. apply elem_of_fst. by exists d.
  - intros y. change (y ∈ free_items c <-> (y < length (alter f x (item_pool c)))%nat /\ ~ (y ∈ map fst e1 ++ x :: map fst e2)). rewrite length_alter. apply Hall.
Qed.

Lemma Touch_spec c e1 x o t0 t e2 : holds c (e1 ++ (x, (o, t0)) :: e2) ->
  exists c', Touch x t c = Some c' /\ holds c' (if t <=? t0 then e1 ++ (x, (o, t0)) :: e2 else e1 ++ e2 ++ [(x, (o, t))]).
Proof.
  intros Hh. pose proof (holds_part _ _ _ _ _ Hh) as [_ Hx]. destruct (entry_links _ _ _ Hx) as (i & Hi & Ei). unfold Touch, item. rewrite Hi. cbn [mbind option_bind].
  injection Ei as Eo Et. rewrite Et. destruct (Z.leb_spec t t0); [by exists c|]. rewrite set_item_ok by (by apply lookup_lt_Some in Hi). cbn [mbind option_bind].
  apply (holds_tick _ _ _ _ _ t) in Hh. set (c1 := c <| item_pool ::= _ |>) in *. pose proof (holds_part _ _ _ _ _ Hh) as [Hl _]. pose proof Hl as [_ _ Hla Hnd].
  pose proof (middle_fresh _ _ _ Hnd) as Hxf. destruct (bool_decide_reflect (last_item c1 = Some x)) as [Elast|Hne].
  - exists c1. split; [done|]. assert (e2 = []) as ->; [|done]. destruct e2 as [|[y d] e2]; [done|]. exfalso. apply Hxf. rewrite Hla, last_of_app, last_of_cons in Elast. cbn [map fst] in Elast.
    rewrite last_of_cons in Elast. unfold last_of in Elast. apply elem_of_app. right. cbn [map fst]. destruct (last (map fst e2)) as [z|] eqn:E.
    + injection Elast as ->. apply last_Some in E as [l' E]. rewrite E. right. apply elem_of_app. right. by left.
    + injection Elast as ->. by left.
  - destruct (Detach_spec c1 _ x _ Hl) as (c2 & -> & Hl2 & S2). cbn [mbind option_bind].
    destruct (Attach_spec c2 _ x Hl2) as (c3 & -> & Hl3 & S3); [done| | |].
    + intros Hnil. exfalso. apply app_eq_nil in Hnil as [E1 E2]. apply Hne. rewrite Hla, E1, E2. done.
    + rewrite (sm_length _ _ S2). apply (holds_lt _ _ x (o, t) Hh). apply elem_of_middle. by left.
    + exists c3. split; [done|]. apply (same_holds c1 _ _ _ Hh); [by apply (same_trans _ c2)|by rewrite !map_app, app_assoc| |].
      * intros y. rewrite !map_app. cbn [map fst]. rewrite elem_of_middle, !elem_of_app, list_elem_of_singleton. tauto.
      * intros y d. rewrite elem_of_middle, !elem_of_app, list_elem_of_singleton. tauto.
Qed.

Lemma Free_spec c e1 x d e2 : holds c (e1 ++ (x, d) :: e2) -> exists c', Free x c = Some c' /\ holds c' (e1 ++ e2).
Proof.
  intros Hh. pose proof (holds_part _ _ _ _ _ Hh) as [Hl Hx]. unfold Free. destruct (Detach_spec c _ x _ Hl) as (c1 & -> & Hl1 & [Hs Hlen Hfree]). cbn [mbind option_bind].
  assert (Hlt : (x < length (item_pool c))%nat) by (apply (holds_lt _ _ x d Hh), elem_of_middle; by left). rewrite set_item_ok by lia. cbn [mbind option_bind].
  eexists. split; [done|]. set (f := fun i : Item O => set_next None (set_prev None i)). set (c' := _ <| free_items ::= _ |>).
  assert (Hp : item_pool c' = alter f x (item_pool c1)) by done. assert (Hfr : free_items c' = free_items c ++ [x]) by (unfold c'; cbn; by rewrite Hfree).
  pose proof (middle_fresh _ _ _ (li_nodup _ _ Hl)) as Hxf. destruct Hh as [_ He Hfn Hall]. destruct Hl1 as [Hk Hf1 Hla1 Hnd1]. rewrite map_app in Hall. cbn [map fst] in Hall.
  split; rewrite ?map_app; [split; [|done..]; rewrite Hp; by apply linked_frame| | |].
  - intros y d' Hy. rewrite Hp, entry_set by done. rewrite Hs. apply He, elem_of_middle. by right.
  - rewrite Hfr. apply NoDup_app. split_and!; [done| |apply NoDup_singleton]. intros y Hy ->%list_elem_of_singleton. apply Hall in Hy as [_ Hy]. apply Hy, elem_of_middle. by left.
  - intros y. rewrite Hfr, Hp, length_alter, Hlen, elem_of_app, list_elem_of_singleton, Hall, elem_of_middle. split.
    + intros [[Hy Hn]| ->]; [split; [done|tauto]|done].
    + intros [Hy Hn]. destruct (decide (y = x)) as [->|]; [by right|left; split; [done|tauto]].
Qed.

(** ** The loop over the oldest items *)

Section visiting.
Context {S : Type} (cache : S -> Cache O) (t : Z) (func : O -> S -> option (S * bool)).

(** Calling back on the objects of a list, whatever the answers. *)
Fixpoint call_all (e : list (nat * (O * Z))) (s : S) : option S :=
  match e with
  | [] => Some s
  | (_, (o, _)) :: e => '(s, _) ← func o s; call_all e s
  end.

(** The callback may free the item it is called for, and others that were visited before; the items
    to come stay. *)
Definition keeps_rest : Prop :=
  forall s e1 x o tk e2 s' b, holds (cache s) (e1 ++ (x, (o, tk)) :: e2) -> func o s = Some (s', b) -> exists e1', holds (cache s') (e1' ++ e2).

Definition tick_ok (d : O * Z) : Prop := 0 <= snd d < 9223372036854775808.

Lemma visit_spec e1 e2 fuel s : keeps_rest -> 0 <= t < 9223372036854775808 -> Forall (fun a => tick_ok (snd a)) e2 ->
  StronglySorted (fun a b => snd (snd a) <= snd (snd b)) e2 -> holds (cache s) (e1 ++ e2) -> (length e2 <= fuel)%nat ->
  visit cache t func fuel (first_of (map fst e2) None) s = call_all (filter (fun a => snd (snd a) <= t) e2) s.
Proof.
  intros Hk Ht. revert e1 fuel s. induction e2 as [|[x [o tk]] e2 IH]; intros e1 fuel s Hok Hs Hh Hfuel; cbn [map fst first_of]; [by destruct fuel|].
  destruct fuel as [|fuel]; cbn [length] in Hfuel; [lia|]. pose proof (holds_part _ _ _ _ _ Hh) as [[Hl _ _ _] Hx]. apply linked_app in Hl as [_ [Hlk _]].
  destruct (links_item _ _ _ _ Hlk) as (i & Hi & _ & Hn). destruct (entry_links _ _ _ Hx) as (i' & Hi' & Ei). rewrite Hi in Hi'. injection Hi' as <-. injection Ei as Eo Et.
  cbn [visit]. unfold item. rewrite Hi. cbn [mbind option_bind]. rewrite Et, Eo. apply Forall_cons in Hok as [Htk Hok]. apply StronglySorted_inv in Hs as [Hs Hge].
  unfold tick_ok in Htk. cbn [snd] in Htk. rewrite (s64_small t), (s64_small tk) by lia. destruct (Z.ltb_spec (t - tk) 0).
  - rewrite filter_cons_False by (cbn; lia). assert (filter (fun a : nat * (O * Z) => snd (snd a) <= t) e2 = []) as ->; [|done].
    clear - H0 Hge. induction e2 as [|a e2 IH]; [done|]. apply Forall_cons in Hge as [Ha Hge]. cbn in Ha. rewrite filter_cons_False by lia. by apply IH.
  - rewrite filter_cons_True by (cbn; lia). cbn [call_all]. destruct (func o s) as [[s' b]|] eqn:Ef; [|done]. cbn [mbind option_bind].
    destruct (Hk _ _ _ _ _ _ _ _ Hh Ef) as [e1' Hh']. rewrite Hn. apply (IH e1'); [done|done|done|lia].
Qed.
End visiting.
End cache_proofs.

(** * The life of a cache *)

(** A cache, the clock and its items, when the clock does not go back. *)
Inductive cache_run {O : Type} `{Inhabited O} : Z -> Cache O -> list (nat * (O * Z)) -> Prop :=
  | run_new : cache_run 0 empty_cache []
  | run_clock now now' c e : cache_run now c e -> now <= now' < 9223372036854775808 -> cache_run now' c e
  | run_insert now c e o x c' : cache_run now c e -> Insert o now c = Some (x, c') -> cache_run now c' (e ++ [(x, (o, now))])
  | run_touch now c e1 x o tk e2 c' : cache_run now c (e1 ++ (x, (o, tk)) :: e2) -> Touch x now c = Some c' ->
      cache_run now c' (if now <=? tk then e1 ++ (x, (o, tk)) :: e2 else e1 ++ e2 ++ [(x, (o, now))])
  | run_free now c e1 x d e2 c' : cache_run now c (e1 ++ (x, d) :: e2) -> Free x c = Some c' -> cache_run now c' (e1 ++ e2).

Definition older {O} (a b : nat * (O * Z)) : Prop := snd (snd a) <= snd (snd b).

Lemma sorted_snoc {A} (R : A -> A -> Prop) l x : StronglySorted R l -> (forall y, y ∈ l -> R y x) -> StronglySorted R (l ++ [x]).
Proof.
  induction 1 as [|a l Hs IH Ha]; intros Hx; cbn; constructor; try constructor.
  - apply IH. intros y Hy. apply Hx. by right.
  - apply Forall_app. split; [done|]. constructor; [|constructor]. apply Hx. by left.
Qed.

Lemma sorted_middle {A} (R : A -> A -> Prop) l1 x l2 : StronglySorted R (l1 ++ x :: l2) -> StronglySorted R (l1 ++ l2).
Proof.
  induction l1 as [|a l1 IH]; cbn; intros [Hs Ha]%StronglySorted_inv; [done|]. constructor; [by apply IH|].
  apply Forall_app in Ha as [H1 H2]. apply Forall_app. split; [done|]. by apply Forall_cons in H2 as [_ H2].
Qed.

Lemma cache_run_inv {O} `{Inhabited O} now (c : Cache O) e : cache_run now c e -> holds c e /\ StronglySorted older e /\ 0 <= now < 9223372036854775808 /\
  Forall (fun a => 0 <= snd (snd a) <= now) e.
Proof.
  induction 1 as [|now now' c e _ (Hh & Hs & Hn & Ha) Hnow|now c e o x c' _ (Hh & Hs & Hn & Ha) E|now c e1 x o tk e2 c' _ (Hh & Hs & Hn & Ha) E|now c e1 x d e2 c' _ (Hh & Hs & Hn & Ha) E].
  - split_and!; [apply empty_holds|constructor|lia|lia|constructor].
  - split_and!; try (done || lia). apply (Forall_impl _ _ _ Ha). intros a Hle. lia.
  - destruct (Insert_spec o now c e Hh) as (x' & c1 & E' & _ & Hh'). rewrite E' in E. injection E as -> ->. split_and!; try (done || lia).
    + apply sorted_snoc; [done|]. intros y Hy. apply (proj1 (Forall_forall _ _) Ha) in Hy. unfold older. cbn. lia.
    + apply Forall_app. split; [done|]. constructor; [cbn; lia|constructor].
  - destruct (Touch_spec c e1 x o tk now e2 Hh) as (c1 & E' & Hh'). rewrite E' in E. injection E as ->. split_and!; try (done || lia); destruct (now <=? tk); try done.
    + rewrite app_assoc. apply sorted_snoc; [by apply sorted_middle in Hs|]. intros y Hy. assert (Hy' : y ∈ e1 ++ (x, (o, tk)) :: e2) by (apply elem_of_middle; by right).
      apply (proj1 (Forall_forall _ _) Ha) in Hy'. unfold older. cbn. lia.
    + apply Forall_app in Ha as [H1 [_ H2]%Forall_cons]. rewrite !Forall_app. split_and!; [done|done|]. constructor; [cbn; lia|constructor].
  - destruct (Free_spec c e1 x d e2 Hh) as (c1 & E' & Hh'). rewrite E' in E. injection E as ->. split_and!; try (done || lia); [by apply sorted_middle in Hs|].
    apply Forall_app in Ha as [H1 [_ H2]%Forall_cons]. by apply Forall_app.
Qed.

(** C31. The cache is a queue ordered by the last use, through any life with a clock that does not go
    back, and no operation leaves the pool or follows a stale link. Inserting appends under a fresh
    number, touching moves to the end unless the item was used at this time already, freeing
    removes; the order is always that of the ticks. Hence [ForEachItemBelow] ends, and calls back
    on every item that was not used after the given time, oldest first, also when the callback
    frees the item it is called for. It does so whatever the callback answers: an answer of
    [true], by which the callers mean to stop, is dropped. *)
Theorem cache_refine {O} `{Inhabited O} now (c : Cache O) e : cache_run now c e ->
  (forall o, exists x c', Insert o now c = Some (x, c') /\ ~ (x ∈ map fst e) /\ cache_run now c' (e ++ [(x, (o, now))])) /\
  (forall e1 x o tk e2, e = e1 ++ (x, (o, tk)) :: e2 ->
     (exists c', Touch x now c = Some c' /\ cache_run now c' (if now <=? tk then e else e1 ++ e2 ++ [(x, (o, now))])) /\
     (exists c', Free x c = Some c' /\ cache_run now c' (e1 ++ e2))) /\
  StronglySorted older e /\
  forall S (cache : S -> Cache O) t func s, cache s = c -> 0 <= t < 9223372036854775808 -> keeps_rest cache func ->
    ForEachItemBelow cache t func s = call_all func (filter (fun a => snd (snd a) <= t) e) s.
Proof.
  intros Hrun. destruct (cache_run_inv _ _ _ Hrun) as (Hh & Hs & Hn & Ha). split_and!; [| |done|].
  - intros o. destruct (Insert_spec o now c e Hh) as (x & c' & E & Hx & _). exists x, c'. split_and!; [done|done|]. by apply (run_insert now c e o).
  - intros e1 x o tk e2 ->. split.
    + destruct (Touch_spec c e1 x o tk now e2 Hh) as (c' & E & _). exists c'. split; [done|]. by apply (run_touch now c).
    + destruct (Free_spec c e1 x (o, tk) e2 Hh) as (c' & E & _). exists c'. split; [done|]. by apply (run_free now c e1 x (o, tk)).
  - intros S cache t func s <- Ht Hk. unfold ForEachItemBelow. rewrite (li_first _ _ (ho_listed _ _ Hh)). apply (visit_spec cache t func []); try done.
    + apply (Forall_impl _ _ _ Ha). intros a Hle. unfold tick_ok. lia.
    + rewrite <- (length_map fst e). assert (Hsub : map fst e ⊆+ seq 0 (length (item_pool (cache s)))).
      { apply NoDup_submseteq; [apply (li_nodup _ _ (ho_listed _ _ Hh))|]. intros x ([o tk] & Hx)%elem_of_fst. apply (holds_lt _ _ _ _ Hh) in Hx. apply elem_of_seq. lia. }
      apply submseteq_length in Hsub. rewrite length_seq in Hsub. lia.
Qed.

(** Two numbers, the first used again; a callback that remembers what it gets and asks to stop. *)
Definition life : option (Cache Z) :=
  '(a, c) ← Insert 10 5 empty_cache;
  '(_, c) ← Insert 20 5 c;
  Touch a 7 c.
Definition collect (o : Z) (s : Cache Z * list Z) : option ((Cache Z * list Z) * bool) := Some ((fst s, snd s ++ [o]), true).

Lemma life_run : cache_run 7 (default empty_cache life) [(1%nat, (20, 5)); (0%nat, (10, 7))].
Proof.
  apply (run_touch 7 (default empty_cache ('(_, c) ← Insert 10 5 empty_cache; snd <$> Insert 20 5 c)) [] 0 10 5 [(1%nat, (20, 5))]); [|reflexivity].
  apply (run_clock 5); [|lia]. apply (run_insert 5 (default empty_cache (snd <$> Insert 10 5 empty_cache)) [(0%nat, (10, 5))] 20 1); [|reflexivity].
  apply (run_insert 5 empty_cache [] 10 0); [|reflexivity]. apply (run_clock 0); [apply run_new|lia].
Qed.

Lemma cache_refine_witness : ForEachItemBelow fst 6 collect (default empty_cache life, []) = Some (default empty_cache life, [20]) /\
  ForEachItemBelow fst 7 collect (default empty_cache life, []) = Some (default empty_cache life, [20; 10]).
Proof.
  assert (Hk : keeps_rest (fst : Cache Z * list Z -> Cache Z) collect).
  { intros [c l] e1 x o tk e2 s' b Hh [= <- _]. exists (e1 ++ [(x, (o, tk))]). by rewrite <- app_assoc. }
  destruct (cache_refine 7 _ _ life_run) as (_ & _ & _ & H). split; rewrite H by (done || lia); reflexivity.
Defined.
