(* ===== verification/BufferCache.v ===== *)
(** Which buffer backs which guest memory: the buffer table of
    src/src/video_core/buffer_cache/buffer_cache.cpp, and the page table of
    src/src/video_core/multi_level_page_table.h.

    Buffers cover whole pages of 16 KB and never overlap. When a range is asked for that no
    single buffer covers, [CreateBuffer] makes one that covers it and all the buffers it
    touches, copies these into it and deletes them. What is done on the graphics device appears as
    the list of the copies; the table of device addresses and the interval map of the buffers,
    written alongside the page table, are left out. An operation returns [None] where the code
    fails an assertion or leaves an array. *)
From Stdlib Require Import ZArith Lia Sorting.Sorted.
From stdpp Require Import base gmap list list_numbers.
From S2P Require Import Prelude.
From S2P Require Import Alignment.
From S2P Require Import Loops.
From S2P Require Import PageManager.
From S2P Require Import MemoryTracker.
From S2P Require Import SlotVector.
From S2P Require Import LruCache.

(** * Two-level tables *)

Module MultiLevelPageTable.
Section table.
Context {Entry : Type} (no_entry : Entry) (AddressSpaceBits FirstLevelBits PageBits : Z).

Definition FirstLevelShift : Z := AddressSpaceBits - FirstLevelBits.
Definition SecondLevelBits : Z := FirstLevelShift - PageBits.
Definition NumEntriesPerL1Page : Z := Z.shiftl 1 SecondLevelBits.

(** A table holds the pages of the second level that were made, with the entries that were written. *)
Definition l1_page (page : Z) : Z := Z.shiftr page SecondLevelBits.
Definition l2_page (page : Z) : Z := Z.land page (NumEntriesPerL1Page - 1).
Definition in_table (page : Z) : bool := (0 <=? l1_page page) && (l1_page page <? Z.shiftl 1 FirstLevelBits).

(** Reading makes the page of the second level too, which no one can see. *)
Definition load (page : Z) (pt : gmap Z (gmap Z Entry)) : option Entry :=
  if negb (in_table page) then None
  else Some (default no_entry (pt !! l1_page page ≫= fun l1 => l1 !! l2_page page)).
Definition store (page : Z) (e : Entry) (pt : gmap Z (gmap Z Entry)) : option (gmap Z (gmap Z Entry)) :=
  if negb (in_table page) then None
  else Some (<[l1_page page := <[l2_page page := e]> (default ∅ (pt !! l1_page page))]> pt).
End table.
End MultiLevelPageTable.

(** * Buffers *)

Definition CACHING_PAGEBITS : Z := 14.
Definition CACHING_PAGESIZE : Z := Z.shiftl 1 CACHING_PAGEBITS.
Definition DEVICE_PAGESIZE : Z := 16384.
Definition STREAM_LEAP_THRESHOLD : Z := 16.
Definition max_page : Z := Z.shiftl 1 40.
Definition min_page : Z := CACHING_PAGESIZE + DEVICE_PAGESIZE.

Record Buffer := mkBuffer { cpu_addr : Z; size_bytes : Z; is_picked : bool; is_deleted : bool; stream_score : Z; lru_id : nat }.
#[export] Instance eta_Buffer : Eta Buffer := fun b => mkBuffer (cpu_addr b) (size_bytes b) (is_picked b) (is_deleted b) (stream_score b) (lru_id b).

Definition new_buffer (guest_address size : Z) : Buffer := mkBuffer guest_address size false false 0 0.
Definition IsInBounds (addr size : Z) (b : Buffer) : bool := (cpu_addr b <=? addr) && (addr +64 size <=? cpu_addr b +64 size_bytes b).

Abbreviation BufferId := Z (only parsing).
Abbreviation PageTable := (gmap Z (gmap Z BufferId)).
(** [page_table[page].buffer_id] *)
Definition load_page (page : Z) (pt : PageTable) : option BufferId := MultiLevelPageTable.load INVALID_INDEX 40 16 CACHING_PAGEBITS page pt.
Definition store_page (page : Z) (id : BufferId) (pt : PageTable) : option PageTable := MultiLevelPageTable.store 40 16 CACHING_PAGEBITS page id pt.

(** [copies]: the buffer copied from, the one copied to, the offset in it and the size.
    [deferred]: the buffers to be erased when the device is done with them. *)
Record BufferCache := mkBufferCache {
  slot_buffers : SlotVector Buffer;
  page_table : PageTable;
  lru_cache : Cache BufferId;
  gc_tick : Z;
  total_used_memory : Z;
  copies : list (BufferId * BufferId * Z * Z);
  deferred : list BufferId
}.
#[export] Instance eta_BufferCache : Eta BufferCache :=
  fun c => mkBufferCache (slot_buffers c) (page_table c) (lru_cache c) (gc_tick c) (total_used_memory c) (copies c) (deferred c).

(** [slot_buffers[id]] *)
Definition buffer (id : BufferId) (c : BufferCache) : option Buffer := at_ id (slot_buffers c).
Definition update_buffer (id : BufferId) (f : Buffer -> Buffer) (c : BufferCache) : option BufferCache :=
  v ← update id f (slot_buffers c); Some (c <| slot_buffers := v |>).

(** * Overlaps *)

Record Overlap := mkOverlap { ids : list BufferId; begin_ : Z; end_ : Z; has_stream_leap : bool }.

(** The locals of the loop, with the address it is at and the slots, whose [is_picked] it sets. *)
Record Search := mkSearch { device_addr : Z; found : Overlap; score : Z; slots_ : SlotVector Buffer }.

Definition expand_begin (add_value : Z) (device_addr begin_ : Z) : Z * Z :=
  if begin_ -64 min_page <? add_value then (DEVICE_PAGESIZE, min_page)
  else (begin_ -64 add_value -64 CACHING_PAGESIZE, begin_ -64 add_value).
Definition expand_end (add_value end_ : Z) : Z :=
  if max_page -64 end_ <? add_value then max_page else end_ +64 add_value.

(** The body of the loop for a buffer that was not seen before. *)
Definition pick (overlap_id : BufferId) (overlap : Buffer) (s : Search) : option Search :=
  let r := found s in
  v ← update overlap_id (fun b => b <| is_picked := true |>) (slots_ s);
  let overlap_end := cpu_addr overlap +64 size_bytes overlap in
  let expands_left := cpu_addr overlap <? begin_ r in
  let begin := if expands_left then cpu_addr overlap else begin_ r in
  let expands_right := end_ r <? overlap_end in
  let end' := if expands_right then overlap_end else end_ r in
  let score := score s + stream_score overlap in
  let leaps := (STREAM_LEAP_THRESHOLD <? score) && negb (has_stream_leap r) in
  let end' := if leaps && expands_right then expand_end (CACHING_PAGESIZE * 128) end' else end' in
  let '(device_addr, begin) := if leaps && expands_left then expand_begin (CACHING_PAGESIZE * 128) (device_addr s) begin else (device_addr s, begin) in
  Some (mkSearch device_addr (mkOverlap (ids r ++ [overlap_id]) begin end' (has_stream_leap r || leaps)) score v).

Definition overlap_step (pt : PageTable) (s : Search) : Search + option Search :=
  if negb (Z.shiftr (device_addr s) CACHING_PAGEBITS <? DivCeil (end_ (found s)) CACHING_PAGESIZE) then inr (Some s) else
  let next s := inl (mkSearch (device_addr s +64 CACHING_PAGESIZE) (found s) (score s) (slots_ s)) in
  match load_page (Z.shiftr (device_addr s) CACHING_PAGEBITS) pt with
  | None => inr None
  | Some overlap_id =>
      if overlap_id =? INVALID_INDEX then next s else
      match at_ overlap_id (slots_ s) with
      | None => inr None
      | Some overlap =>
          if is_picked overlap then next s else
          match pick overlap_id overlap s with Some s => next s | None => inr None end
      end
  end.

(** Each page is looked at once before the leap and once after it. *)
Definition ResolveOverlaps (device_addr wanted_size : Z) (c : BufferCache) : option (Overlap * BufferCache) :=
  let begin := device_addr in
  let end' := device_addr +64 wanted_size in
  if begin =? 0 then Some (mkOverlap [] begin end' false, c) else
  match loop_until (overlap_step (page_table c)) 28 (mkSearch device_addr (mkOverlap [] begin end' false) 0 (slot_buffers c)) with
  | inr (Some s) => Some (found s, c <| slot_buffers := slots_ s |>)
  | _ => None
  end.

(** * The table of buffers *)

Fixpoint store_pages (n : nat) (page : Z) (id : BufferId) (pt : PageTable) : option PageTable :=
  match n with
  | O => Some pt
  | S n => pt ← store_page page id pt; store_pages n (page + 1) id pt
  end.

Definition ChangeRegister (insert : bool) (buffer_id : BufferId) (c : BufferCache) : option BufferCache :=
  b ← buffer buffer_id c;
  let size := size_bytes b in
  let device_addr_end := cpu_addr b +64 size in
  let page_begin := cpu_addr b / CACHING_PAGESIZE in
  let page_end := DivCeil device_addr_end CACHING_PAGESIZE in
  if page_end <? page_begin then None else
  pt ← store_pages (Z.to_nat (page_end - page_begin)) page_begin (if insert then buffer_id else INVALID_INDEX) (page_table c);
  let c := c <| page_table := pt |> in
  if insert then
    '(lru, cache) ← Insert buffer_id (gc_tick c) (lru_cache c);
    update_buffer buffer_id (fun b => b <| lru_id := lru |>)
      (c <| total_used_memory ::= fun n => n +64 AlignUp size CACHING_PAGESIZE |> <| lru_cache := cache |>)
  else
    cache ← Free (lru_id b) (lru_cache c);
    Some (c <| total_used_memory ::= fun n => n -64 AlignUp size CACHING_PAGESIZE |> <| lru_cache := cache |>).
Definition Register : BufferId -> BufferCache -> option BufferCache := ChangeRegister true.
Definition Unregister : BufferId -> BufferCache -> option BufferCache := ChangeRegister false.

Definition DeleteBuffer (buffer_id : BufferId) (c : BufferCache) : option BufferCache :=
  c ← Unregister buffer_id c;
  update_buffer buffer_id (fun b => b <| is_deleted := true |>) (c <| deferred ::= fun l => l ++ [buffer_id] |>).

(** The scheduler runs a deferred operation. *)
Definition run_deferred (c : BufferCache) : option BufferCache :=
  match deferred c with
  | [] => Some c
  | id :: rest => v ← erase id (slot_buffers c); Some (c <| slot_buffers := v |> <| deferred := rest |>)
  end.

Definition JoinOverlap (new_buffer_id overlap_id : BufferId) (accumulate_stream_score : bool) (c : BufferCache) : option BufferCache :=
  overlap ← buffer overlap_id c;
  c ← (if accumulate_stream_score then update_buffer new_buffer_id (fun b => b <| stream_score ::= fun n => n + (stream_score overlap + 1) |>) c else Some c);
  new_buffer ← buffer new_buffer_id c;
  let dst_base_offset := cpu_addr overlap -64 cpu_addr new_buffer in
  DeleteBuffer overlap_id (c <| copies ::= fun l => l ++ [(overlap_id, new_buffer_id, dst_base_offset, size_bytes overlap)] |>).

Fixpoint join_overlaps (new_buffer_id : BufferId) (overlap_ids : list BufferId) (accumulate : bool) (c : BufferCache) : option BufferCache :=
  match overlap_ids with
  | [] => Some c
  | overlap_id :: rest => c ← JoinOverlap new_buffer_id overlap_id accumulate c; join_overlaps new_buffer_id rest accumulate c
  end.

Definition CreateBuffer (device_addr wanted_size : Z) (c : BufferCache) : option (BufferId * BufferCache) :=
  let device_addr_end := AlignUp (device_addr +64 wanted_size) CACHING_PAGESIZE in
  let device_addr := AlignDown device_addr CACHING_PAGESIZE in
  let wanted_size := wrap32 (device_addr_end - device_addr) in
  '(overlap, c) ← ResolveOverlaps device_addr wanted_size c;
  let size := wrap32 (end_ overlap - begin_ overlap) in
  '(new_buffer_id, v) ← insert (new_buffer (begin_ overlap) size) (slot_buffers c);
  c ← join_overlaps new_buffer_id (ids overlap) (negb (has_stream_leap overlap)) (c <| slot_buffers := v |>);
  c ← Register new_buffer_id c;
  Some (new_buffer_id, c).

Definition FindBuffer (device_addr size : Z) (c : BufferCache) : option (BufferId * BufferCache) :=
  if device_addr =? 0 then None else
  buffer_id ← load_page (Z.shiftr device_addr CACHING_PAGEBITS) (page_table c);
  if buffer_id =? INVALID_INDEX then CreateBuffer device_addr size c else
  b ← buffer buffer_id c;
  if IsInBounds device_addr size b then Some (buffer_id, c) else CreateBuffer device_addr size c.

Definition IsBufferInvalid (buffer_id : BufferId) (c : BufferCache) : option bool :=
  if buffer_id =? INVALID_INDEX then Some true else b ← buffer buffer_id c; Some (is_deleted b).
Definition TouchBuffer (b : Buffer) (c : BufferCache) : option BufferCache :=
  cache ← Touch (lru_id b) (gc_tick c) (lru_cache c); Some (c <| lru_cache := cache |>).
(** What is left of [RunGarbageCollector]: it makes its callback and does not use it. *)
Definition RunGarbageCollector (device_usage : option Z) (c : BufferCache) : BufferCache :=
  (match device_usage with Some usage => c <| total_used_memory := usage |> | None => c end) <| gc_tick ::= fun n => n +64 1 |>.

(** * The page table *)

Definition NUM_PAGES : Z := 67108864.
Definition tbl (pt : PageTable) (q : Z) : BufferId := default INVALID_INDEX (load_page q pt).

Lemma page_parts q : 0 <= q < NUM_PAGES ->
  MultiLevelPageTable.in_table 40 16 CACHING_PAGEBITS q = true /\
  q = MultiLevelPageTable.l1_page 40 16 CACHING_PAGEBITS q * 1024 + MultiLevelPageTable.l2_page 40 16 CACHING_PAGEBITS q /\
  0 <= MultiLevelPageTable.l2_page 40 16 CACHING_PAGEBITS q < 1024.
Proof.
  unfold NUM_PAGES. intros Hq. assert (E1 : MultiLevelPageTable.l1_page 40 16 CACHING_PAGEBITS q = q / 1024).
  { unfold MultiLevelPageTable.l1_page. rewrite Z.shiftr_div_pow2 by done. done. }
  assert (E2 : MultiLevelPageTable.l2_page 40 16 CACHING_PAGEBITS q = q mod 1024).
  { unfold MultiLevelPageTable.l2_page. change (MultiLevelPageTable.NumEntriesPerL1Page 40 16 CACHING_PAGEBITS - 1) with (Z.ones 10). by rewrite Z.land_ones. }
  unfold MultiLevelPageTable.in_table. rewrite E1, E2. change (Z.shiftl 1 16) with 65536.
  pose proof (Z.div_mod q 1024 ltac:(lia)). pose proof (Z.mod_pos_bound q 1024 ltac:(lia)). split_and!; lia.
Qed.

Lemma load_page_ok pt q : 0 <= q < NUM_PAGES -> load_page q pt = Some (tbl pt q).
Proof. intros Hq. unfold tbl, load_page, MultiLevelPageTable.load. destruct (page_parts q Hq) as [-> _]. done. Qed.

Lemma store_page_spec pt p id : 0 <= p < NUM_PAGES -> exists pt', store_page p id pt = Some pt' /\ forall q, 0 <= q < NUM_PAGES -> tbl pt' q = if q =? p then id else tbl pt q.
Proof.
  intros Hp. unfold store_page, MultiLevelPageTable.store. destruct (page_parts p Hp) as (-> & Ep & _). cbn [negb]. eexists. split; [done|]. intros q Hq.
  unfold tbl, load_page, MultiLevelPageTable.load. destruct (page_parts q Hq) as (-> & Eq & _). cbn [negb]. unfold default, Datatypes.id. set (l1 := MultiLevelPageTable.l1_page 40 16 CACHING_PAGEBITS) in *.
  set (l2 := MultiLevelPageTable.l2_page 40 16 CACHING_PAGEBITS) in *. destruct (decide (l1 q = l1 p)) as [E1|E1].
  - rewrite E1, lookup_insert_eq. cbn [mbind option_bind]. destruct (Z.eqb_spec q p) as [->|Hne]; [by rewrite lookup_insert_eq|].
    rewrite lookup_insert_ne by (intros E2; lia). by destruct (pt !! l1 p).
  - rewrite lookup_insert_ne by done. destruct (Z.eqb_spec q p) as [->|]; [done|done].
Qed.

Lemma store_pages_spec n pt p id : 0 <= p -> p + Z.of_nat n <= NUM_PAGES ->
  exists pt', store_pages n p id pt = Some pt' /\ forall q, 0 <= q < NUM_PAGES -> tbl pt' q = if (p <=? q) && (q <? p + Z.of_nat n) then id else tbl pt q.
Proof.
  revert pt p. induction n as [|n IH]; intros pt p Hp Hn; cbn [store_pages].
  - exists pt. split; [done|]. intros q Hq. destruct (Z.leb_spec p q), (Z.ltb_spec q (p + Z.of_nat 0)); cbn; try done; lia.
  - destruct (store_page_spec pt p id) as (pt1 & -> & H1); [lia|]. cbn [mbind option_bind]. destruct (IH pt1 (p + 1)) as (pt2 & -> & H2); [lia|lia|]. exists pt2. split; [done|].
    intros q Hq. rewrite H2, H1 by done. destruct (Z.leb_spec (p + 1) q), (Z.ltb_spec q (p + 1 + Z.of_nat n)), (Z.leb_spec p q), (Z.ltb_spec q (p + Z.of_nat (S n))), (Z.eqb_spec q p); cbn; try done; lia.
Qed.

(** * Buffers on the map *)

Definition aligned16 (a : Z) : Prop := a mod 16384 = 0.
Definition buffer_end (b : Buffer) : Z := cpu_addr b + size_bytes b.
Definition covers (b : Buffer) (q : Z) : Prop := cpu_addr b <= q * 16384 < buffer_end b.

Record buffer_ok (b : Buffer) : Prop := {
  bo_low : min_page <= cpu_addr b;
  bo_start : aligned16 (cpu_addr b);
  bo_size : 0 < size_bytes b;
  bo_end : aligned16 (buffer_end b);
  bo_high : buffer_end b <= max_page
}.

(** [new]: a buffer that is made and not registered yet. [rest]: the buffers that were picked and
    not joined yet. [e]: the entries of the cache. *)
Definition live (c : BufferCache) (id : BufferId) (b : Buffer) : Prop := buffer id c = Some b /\ is_deleted b = false.
Definition listed_live (new : option BufferId) (c : BufferCache) (id : BufferId) (b : Buffer) : Prop := live c id b /\ new <> Some id.

Record table_inv (new : option BufferId) (rest : list BufferId) (c : BufferCache) (e : list (nat * (BufferId * Z))) : Prop := {
  ti_slots : slots_ok (slot_buffers c);
  ti_lru : cache_run (gc_tick c) (lru_cache c) e;
  ti_buffer : forall id b, listed_live new c id b -> buffer_ok b /\ is_picked b = bool_decide (id ∈ rest) /\ exists tk, (lru_id b, (id, tk)) ∈ e;
  ti_entry : forall x id tk, (x, (id, tk)) ∈ e -> exists b, listed_live new c id b /\ lru_id b = x;
  ti_table : forall q, 0 <= q < NUM_PAGES -> tbl (page_table c) q <> INVALID_INDEX -> exists b, listed_live new c (tbl (page_table c) q) b /\ covers b q;
  ti_cover : forall id b q, listed_live new c id b -> covers b q -> tbl (page_table c) q = id;
  ti_deferred : NoDup (deferred c) /\ forall id, id ∈ deferred c -> exists b, buffer id c = Some b /\ is_deleted b = true
}.

Lemma page_bounds b q : buffer_ok b -> covers b q -> 0 <= q < NUM_PAGES.
Proof.
  intros [Hl _ _ _ Hh] [H1 H2]. unfold min_page, CACHING_PAGESIZE, DEVICE_PAGESIZE in Hl. change (Z.shiftl 1 CACHING_PAGEBITS) with 16384 in Hl.
  change max_page with 1099511627776 in Hh. unfold NUM_PAGES. lia.
Qed.

Lemma id_valid c id b : slots_ok (slot_buffers c) -> buffer id c = Some b -> 0 <= id < INVALID_INDEX.
Proof.
  intros Hok Hb. unfold buffer, at_ in Hb. pose proof (object_range (values (slot_buffers c)) id ltac:(by eexists)) as H. pose proof (so_small _ Hok). unfold values_capacity in *. unfold INVALID_INDEX. lia.
Qed.

(** * The search for overlaps *)

Ltac page_consts := unfold aligned16, buffer_end, min_page, DEVICE_PAGESIZE, CACHING_PAGESIZE in *;
  change (Z.shiftl 1 CACHING_PAGEBITS) with 16384 in *; change max_page with 1099511627776 in *; unfold NUM_PAGES in *.

(** The slots of the search differ in what is picked only. *)
Record picked_only (v0 v : SlotVector Buffer) (l : list BufferId) : Prop := {
  po_ok : slots_ok v;
  po_capacity : values_capacity v = values_capacity v0;
  po_at : forall i, at_ i v = if bool_decide (i ∈ l) then (fun b => b <| is_picked := true |>) <$> at_ i v0 else at_ i v0
}.

(** Where the search is: the range so far, the buffers found, all of them inside, and every page of
    the range before the current address is free or of a buffer that was found. *)
Record searching (c : BufferCache) (begin0 end0 : Z) (s : Search) : Prop := {
  sr_slots : picked_only (slot_buffers c) (slots_ s) (ids (found s));
  sr_nodup : NoDup (ids (found s));
  sr_ids : forall id, id ∈ ids (found s) -> exists b, live c id b /\ begin_ (found s) <= cpu_addr b /\ buffer_end b <= end_ (found s);
  sr_aligned : aligned16 (begin_ (found s)) /\ aligned16 (end_ (found s)) /\ aligned16 (device_addr s);
  sr_range : min_page <= begin_ (found s) <= begin0 /\ end0 <= end_ (found s) <= max_page;
  sr_at : begin_ (found s) <= device_addr s <= end_ (found s);
  sr_clean : forall q, begin_ (found s) <= q * 16384 < device_addr s -> tbl (page_table c) q = INVALID_INDEX \/ tbl (page_table c) q ∈ ids (found s)
}.

Definition search_measure (s : Search) : Z := (if has_stream_leap (found s) then 0 else 134217728) + (NUM_PAGES - device_addr s / 16384).

Lemma expand_begin_spec da b : aligned16 b -> min_page <= b <= max_page ->
  let '(da', b') := expand_begin (CACHING_PAGESIZE * 128) da b in min_page <= b' <= b /\ aligned16 b' /\ da' = b' - 16384.
Proof.
  page_consts. intros Ha Hb. unfold expand_begin. page_consts. rewrite (wrap64_small (b - (16384 + 16384))) by u64_lia.
  destruct (Z.ltb_spec (b - (16384 + 16384)) (16384 * 128)); [split_and!; (done || lia)|]. rewrite (wrap64_small (b - 16384 * 128)), wrap64_small by u64_lia.
  split_and!; try lia. Z.to_euclidean_division_equations; lia.
Qed.

Lemma expand_end_spec e : aligned16 e -> 0 <= e <= max_page -> let e' := expand_end (CACHING_PAGESIZE * 128) e in e <= e' <= max_page /\ aligned16 e'.
Proof.
  page_consts. intros Ha He. unfold expand_end. page_consts. rewrite (wrap64_small (1099511627776 - e)) by u64_lia.
  destruct (Z.ltb_spec (1099511627776 - e) (16384 * 128)); [split_and!; (done || lia)|]. rewrite wrap64_small by u64_lia. split_and!; try lia. Z.to_euclidean_division_equations; lia.
Qed.

(** A buffer is picked: the range grows to hold it, and perhaps more. *)
Lemma pick_spec c begin0 end0 s id b q : searching c begin0 end0 s -> live c id b -> buffer_ok b -> covers b q -> is_picked b = false -> ~ (id ∈ ids (found s)) ->
  tbl (page_table c) q = id -> (forall q', covers b q' -> tbl (page_table c) q' = id) -> device_addr s = q * 16384 ->
  exists s', pick id b s = Some s' /\ searching c begin0 end0 (mkSearch (device_addr s' +64 CACHING_PAGESIZE) (found s') (score s') (slots_ s')) /\
    (device_addr s' = device_addr s /\ (has_stream_leap (found s) = true -> has_stream_leap (found s') = true) \/
     has_stream_leap (found s) = false /\ has_stream_leap (found s') = true /\ min_page <= device_addr s' + 16384).
Proof.
  intros [[Hok Hcap Hat] Hnd Hids (Ha1 & Ha2 & Ha3) [Hrb Hre] Hdev Hclean] [Hb Hdel] Hbok Hcov Hpick Hnew Htbl Hall Hq. pose proof Hbok as [Hlow Hal Hsz Hal2 Hhigh].
  unfold pick. assert (Hat' : at_ id (slots_ s) = Some b) by (rewrite Hat, bool_decide_false by done; exact Hb).
  destruct (update_spec id (fun b => b <| is_picked := true |>) (slots_ s) b Hok Hat') as (v & -> & Hokv & Hcapv & Hatv). cbn [mbind option_bind].
  assert (Hpo : picked_only (slot_buffers c) v (ids (found s) ++ [id])).
  { split; [done|by rewrite Hcapv|]. intros i. rewrite Hatv, Hat. destruct (Z.eqb_spec i id) as [->|Hne].
    - rewrite bool_decide_true by (apply elem_of_app; right; by left). unfold buffer in Hb. by rewrite Hb.
    - destruct (decide (i ∈ ids (found s))) as [Hi|Hi].
      + by rewrite !bool_decide_true by (done || (apply elem_of_app; by left)).
      + rewrite !bool_decide_false; [done| |done]. rewrite elem_of_app, list_elem_of_singleton. tauto. }
  assert (Hoe : cpu_addr b +64 size_bytes b = buffer_end b) by (page_consts; rewrite wrap64_small; [done|u64_lia]). rewrite Hoe.
  set (b1 := if cpu_addr b <? begin_ (found s) then cpu_addr b else begin_ (found s)). set (e1 := if end_ (found s) <? buffer_end b then buffer_end b else end_ (found s)).
  assert (Hb1 : b1 = Z.min (cpu_addr b) (begin_ (found s)) /\ aligned16 b1) by (unfold b1; destruct (Z.ltb_spec (cpu_addr b) (begin_ (found s))); (split; [lia|done])).
  assert (He1 : e1 = Z.max (buffer_end b) (end_ (found s)) /\ aligned16 e1) by (unfold e1; destruct (Z.ltb_spec (end_ (found s)) (buffer_end b)); (split; [lia|done])).
  clearbody b1 e1. destruct Hb1 as [Eb1 Hab1], He1 as [Ee1 Hae1].
  set (leaps := (STREAM_LEAP_THRESHOLD <? score s + stream_score b) && negb (has_stream_leap (found s))).
  set (e2 := if leaps && (end_ (found s) <? buffer_end b) then expand_end (CACHING_PAGESIZE * 128) e1 else e1).
  assert (He2 : e1 <= e2 <= max_page /\ aligned16 e2).
  { unfold e2. destruct (leaps && _); [|split; [lia|done]]. apply expand_end_spec; [done|]. page_consts. lia. }
  clearbody e2. destruct He2 as [He2 Hae2].
  assert (Hids' : forall b2, b2 <= b1 -> forall i, i ∈ ids (found s) ++ [id] -> exists b', live c i b' /\ b2 <= cpu_addr b' /\ buffer_end b' <= e2).
  { intros b2 Hb2 i Hi. rewrite elem_of_app, list_elem_of_singleton in Hi. destruct Hi as [Hi| ->].
    - destruct (Hids i Hi) as (b' & Hl & H1 & H2). exists b'. split_and!; [done|lia|lia].
    - exists b. split_and!; [done|lia|lia]. }
  assert (Hnd' : NoDup (ids (found s) ++ [id])).
  { apply NoDup_app. split_and!; [done| |apply NoDup_singleton]. by intros i Hi ->%list_elem_of_singleton. }
  assert (Hq2 : q * 16384 + 16384 <= buffer_end b) by (destruct Hcov; page_consts; Z.to_euclidean_division_equations; lia).
  destruct (leaps && (cpu_addr b <? begin_ (found s))) eqn:El.
  - pose proof (expand_begin_spec (device_addr s) b1 Hab1) as Hx. destruct (expand_begin _ _ _) as [da b2]. destruct Hx as (Hb2 & Hab2 & Eda); [page_consts; lia|].
    eexists. split; [done|]. cbn [device_addr found ids begin_ end_ has_stream_leap score slots_]. assert (Eda' : da +64 CACHING_PAGESIZE = b2) by (page_consts; rewrite wrap64_small; [lia|u64_lia]).
    rewrite Eda'. split.
    + split; cbn [device_addr found ids begin_ end_ has_stream_leap score slots_]; try done; [by apply Hids'; lia|lia|lia|intros q'; lia].
    + right. apply andb_true_iff in El as [El _]. unfold leaps in El. apply andb_true_iff in El as [El1 El2]. apply negb_true_iff in El2. rewrite El2.
      unfold leaps. rewrite El1, El2. split_and!; [done|done|lia].
  - eexists. split; [done|]. cbn [device_addr found ids begin_ end_ has_stream_leap score slots_].
    assert (Eda : device_addr s +64 CACHING_PAGESIZE = q * 16384 + 16384) by (page_consts; rewrite wrap64_small; [lia|u64_lia]). rewrite Eda. split.
    + destruct Hcov as [Hc1 Hc2]. split; cbn [device_addr found ids begin_ end_ has_stream_leap score slots_]; try done; [by apply Hids'; lia| |lia|lia|].
      * split_and!; [done|done|]. unfold aligned16. Z.to_euclidean_division_equations; lia.
      * intros q' Hq'. rewrite elem_of_app, list_elem_of_singleton. destruct (decide (cpu_addr b <= q' * 16384)) as [H1|H1].
        -- right. right. apply Hall. split; [done|]. destruct (Z.lt_ge_cases (q' * 16384) (buffer_end b)); [done|]. lia.
        -- destruct (Hclean q') as [H2|H2]; [lia|by left|right; by left].
    + left. split; [done|]. intros ->. done.
Qed.

Lemma DivCeil_pages a : aligned16 a -> 0 <= a <= max_page -> DivCeil a CACHING_PAGESIZE = a / 16384.
Proof.
  intros Ha Hb. page_consts. rewrite DivCeil_spec by u64_lia. Z.to_euclidean_division_equations; lia.
Qed.

Lemma overlap_step_spec new c e begin0 end0 s : table_inv new [] c e -> searching c begin0 end0 s ->
  match overlap_step (page_table c) s with
  | inl s' => searching c begin0 end0 s' /\ 0 <= search_measure s' < search_measure s
  | inr r => exists s', r = Some s' /\ searching c begin0 end0 s' /\ device_addr s' = end_ (found s')
  end.
Proof.
  intros Hinv Hs. pose proof Hs as [[Hok Hcap Hat] Hnd Hids (Ha1 & Ha2 & Ha3) [Hrb Hre] Hdev Hclean]. unfold overlap_step.
  rewrite DivCeil_pages by (done || page_consts; lia). rewrite Z.shiftr_div_pow2 by done. change (2 ^ CACHING_PAGEBITS) with 16384.
  destruct (Z.ltb_spec (device_addr s / 16384) (end_ (found s) / 16384)) as [Hlt|Hge]; cbn [negb].
  2:{ exists s. split_and!; [done|done|]. page_consts. Z.to_euclidean_division_equations; lia. }
  set (q := device_addr s / 16384) in *. assert (Hq : device_addr s = q * 16384) by (unfold q; page_consts; Z.to_euclidean_division_equations; lia).
  assert (Hin : q * 16384 + 16384 <= end_ (found s)) by (page_consts; Z.to_euclidean_division_equations; lia).
  assert (Hqr : 0 <= q < NUM_PAGES) by (page_consts; lia). rewrite load_page_ok by done.
  (* going on to the next page *)
  assert (Hnext : tbl (page_table c) q = INVALID_INDEX \/ tbl (page_table c) q ∈ ids (found s) ->
    searching c begin0 end0 (mkSearch (device_addr s +64 CACHING_PAGESIZE) (found s) (score s) (slots_ s)) /\
    0 <= search_measure (mkSearch (device_addr s +64 CACHING_PAGESIZE) (found s) (score s) (slots_ s)) < search_measure s).
  { intros Hc. assert (Ed : device_addr s +64 CACHING_PAGESIZE = (q + 1) * 16384) by (page_consts; rewrite wrap64_small; [lia|u64_lia]). rewrite Ed. split.
    - split; cbn [device_addr found slots_]; try done; [| |].
      + split_and!; [done|done|]. unfold aligned16. by rewrite Z.mod_mul.
      + lia.
      + intros q' Hq'. destruct (Z.eq_dec q' q) as [->|]; [done|]. apply Hclean. lia.
    - unfold search_measure. cbn [device_addr found]. rewrite Z.div_mul by done. fold q. page_consts. destruct (has_stream_leap (found s)); lia. }
  destruct (Z.eqb_spec (tbl (page_table c) q) INVALID_INDEX) as [Ei|Ei]; [by apply Hnext; left|].
  destruct (ti_table _ _ _ _ Hinv q Hqr Ei) as (b & [Hlive Hnew] & Hcov). set (id := tbl (page_table c) q) in *.
  destruct (ti_buffer _ _ _ _ Hinv id b (conj Hlive Hnew)) as (Hbok & Hpick & _). rewrite Hat. destruct (bool_decide_reflect (id ∈ ids (found s))) as [Hi|Hi].
  - destruct Hlive as [Hb _]. unfold buffer in Hb. rewrite Hb. cbn. apply Hnext. by right.
  - destruct Hlive as [Hb Hdel]. unfold buffer in Hb. rewrite Hb, Hpick, bool_decide_false by apply not_elem_of_nil.
    destruct (pick_spec c begin0 end0 s id b q Hs (conj Hb Hdel) Hbok Hcov) as (s' & -> & Hs' & Hm); try done; [|].
    { intros q' Hq'. by apply (ti_cover _ _ _ _ Hinv id b). }
    split; [done|]. pose proof Hs' as [_ _ _ (_ & Ha2' & Ha3') [Hrb' Hre'] Hdev' _]. cbn [device_addr found] in *.
    unfold search_measure. cbn [device_addr found]. set (d' := device_addr s' +64 CACHING_PAGESIZE) in *.
    destruct Hm as [[Ed Hl]|(El & El' & _)].
    + assert (Ed' : d' = (q + 1) * 16384) by (unfold d'; rewrite Ed; page_consts; rewrite wrap64_small; [lia|u64_lia]). rewrite Ed', Z.div_mul by done. fold q. page_consts.
      destruct (has_stream_leap (found s)); [rewrite Hl by done; lia|]. destruct (has_stream_leap (found s')); lia.
    + rewrite El, El'. fold q. page_consts. pose proof (Z.div_pos d' 16384 ltac:(lia) ltac:(lia)). pose proof (Z.div_le_mono d' 1099511627776 16384 ltac:(lia) ltac:(lia)).
      change (1099511627776 / 16384) with 67108864 in *. lia.
Qed.

(** What the search finds: the live buffers that touch its range, all inside of it. *)
Record resolved (c : BufferCache) (device_addr wanted_size : Z) (r : Overlap) (v : SlotVector Buffer) : Prop := {
  re_slots : picked_only (slot_buffers c) v (ids r);
  re_nodup : NoDup (ids r);
  re_ids : forall id, id ∈ ids r -> exists b, live c id b /\ begin_ r <= cpu_addr b /\ buffer_end b <= end_ r;
  re_aligned : aligned16 (begin_ r) /\ aligned16 (end_ r);
  re_range : min_page <= begin_ r <= device_addr /\ device_addr + wanted_size <= end_ r <= max_page;
  re_clean : forall q, begin_ r <= q * 16384 < end_ r -> tbl (page_table c) q = INVALID_INDEX \/ tbl (page_table c) q ∈ ids r
}.

Lemma ResolveOverlaps_spec c e addr wanted_size : table_inv None [] c e -> min_page <= addr -> 0 < wanted_size -> addr + wanted_size <= max_page ->
  aligned16 addr -> aligned16 wanted_size ->
  exists r v, ResolveOverlaps addr wanted_size c = Some (r, c <| slot_buffers := v |>) /\ resolved c addr wanted_size r v.
Proof.
  intros Hinv Hd Hw Hm Had Haw. unfold ResolveOverlaps. assert (Hend : addr +64 wanted_size = addr + wanted_size) by (page_consts; rewrite wrap64_small; [done|u64_lia]). rewrite Hend.
  destruct (Z.eqb_spec addr 0); [page_consts; lia|]. set (s0 := mkSearch addr (mkOverlap [] addr (addr + wanted_size) false) 0 (slot_buffers c)).
  assert (Hs0 : searching c addr (addr + wanted_size) s0).
  { split; cbn [device_addr found ids begin_ end_ slots_ s0]; try done; try (split_and!; lia).
    - split; [apply Hinv|done|]. intros i. by rewrite bool_decide_false by apply not_elem_of_nil.
    - constructor.
    - by intros id ?%elem_of_nil.
    - split_and!; [done| |done]. unfold aligned16 in *. Z.to_euclidean_division_equations; lia.
    - intros q Hq. lia. }
  destruct (loop_until_spec (overlap_step (page_table c)) (searching c addr (addr + wanted_size))
    (fun r => exists s', r = Some s' /\ searching c addr (addr + wanted_size) s' /\ device_addr s' = end_ (found s')) search_measure 28 s0) as (r & -> & s & -> & Hs & Hat).
  - intros s Hs. by apply (overlap_step_spec None c e).
  - done.
  - unfold search_measure. cbn [has_stream_leap found s0]. change (device_addr s0) with addr. pose proof (Z.div_pos addr 16384). page_consts. change (2 ^ Z.of_nat 28) with 268435456. lia.
  - destruct Hs as [Hsl Hnd Hids (Ha1 & Ha2 & _) Hr _ Hclean]. exists (found s), (slots_ s). split; [done|]. split; try done. by rewrite Hat in Hclean.
Qed.

(** * Taking buffers out and putting them in *)

Lemma covers_iff b q : buffer_ok b -> covers b q <-> cpu_addr b / 16384 <= q < buffer_end b / 16384.
Proof. intros [Hlow Hal Hsz Hal2 Hhigh]. unfold covers. page_consts. split; intros H; Z.to_euclidean_division_equations; lia. Qed.

#[export] Instance covers_dec b q : Decision (covers b q).
Proof. unfold covers. apply _. Defined.

(** Writing all the pages of a buffer. *)
Lemma buffer_pages c b id : buffer_ok b ->
  cpu_addr b +64 size_bytes b = buffer_end b /\ DivCeil (buffer_end b) CACHING_PAGESIZE = buffer_end b / 16384 /\
  (DivCeil (buffer_end b) CACHING_PAGESIZE <? cpu_addr b / CACHING_PAGESIZE) = false /\
  exists pt, store_pages (Z.to_nat (DivCeil (buffer_end b) CACHING_PAGESIZE - cpu_addr b / CACHING_PAGESIZE)) (cpu_addr b / CACHING_PAGESIZE) id (page_table c) = Some pt /\
    forall q, 0 <= q < NUM_PAGES -> tbl pt q = if bool_decide (covers b q) then id else tbl (page_table c) q.
Proof.
  intros Hok. pose proof Hok as [Hlow Hal Hsz Hal2 Hhigh]. assert (Hb : 0 <= cpu_addr b / 16384 < buffer_end b / 16384 /\ buffer_end b / 16384 <= NUM_PAGES).
  { page_consts. Z.to_euclidean_division_equations; lia. }
  rewrite DivCeil_pages by (done || page_consts; lia). change CACHING_PAGESIZE with 16384. split_and!; [|done|apply Z.ltb_ge; lia|].
  - page_consts. rewrite wrap64_small; [done|u64_lia].
  - destruct (store_pages_spec (Z.to_nat (buffer_end b / 16384 - cpu_addr b / 16384)) (page_table c) (cpu_addr b / 16384) id) as (pt & E & H); [lia|lia|].
    exists pt. split; [done|]. intros q Hq. rewrite H by done. replace (cpu_addr b / 16384 + Z.of_nat (Z.to_nat (buffer_end b / 16384 - cpu_addr b / 16384))) with (buffer_end b / 16384) by lia.
    case_bool_decide as Hc; rewrite covers_iff in Hc by done; destruct (Z.leb_spec (cpu_addr b / 16384) q), (Z.ltb_spec q (buffer_end b / 16384)); cbn; try done; lia.
Qed.

(** Changing the unregistered buffer, or making it. *)
Lemma inv_new_slot n nb rest c e v (new : option BufferId) : table_inv new rest c e -> slots_ok v -> (new = None /\ buffer n c = None \/ new = Some n) -> is_deleted nb = false ->
  ~ (n ∈ deferred c) -> (forall i, at_ i v = if i =? n then Some nb else buffer i c) -> table_inv (Some n) rest (c <| slot_buffers := v |>) e.
Proof.
  intros [Hsl Hlru Hbuf Hent Htab Hcov [Hdn Hdd]] Hv Hnew Hnd Hnot Hat. set (c' := c <| slot_buffers := v |>).
  assert (Hlive : forall i b, listed_live (Some n) c' i b <-> listed_live new c i b).
  { intros i b. unfold listed_live, live. change (buffer i c') with (at_ i v). rewrite Hat. destruct (Z.eqb_spec i n) as [->|Hne].
    - split; [by intros [_ []]|]. intros [[Hb Hd] Hn]. destruct Hnew as [[_ Hno]| ->]; [congruence|done].
    - split; (intros [H _]; split; [done|]); [|congruence]. destruct Hnew as [[-> _]| ->]; congruence. }
  split; try done.
  - intros i b Hl. apply Hbuf. by apply Hlive.
  - intros x i tk Hx. destruct (Hent x i tk Hx) as (b & Hl & E). exists b. split; [by apply Hlive|done].
  - intros q Hq Hi. destruct (Htab q Hq Hi) as (b & Hl & E). exists b. split; [by apply Hlive|done].
  - intros i b q Hl. apply Hcov. by apply Hlive.
  - split; [done|]. intros i Hi. change (buffer i c') with (at_ i v). rewrite Hat. destruct (Z.eqb_spec i n) as [->|]; [done|by apply Hdd].
Qed.

Lemma list_split {A} (l : list A) x : x ∈ l -> exists l1 l2, l = l1 ++ x :: l2.
Proof. apply list_elem_of_split. Qed.

(** Deleting a registered buffer. *)
Lemma DeleteBuffer_spec new rest rest' c e id b : table_inv new rest c e -> listed_live new c id b -> (forall j, j ∈ rest' <-> j ∈ rest /\ j <> id) ->
  exists c' e', DeleteBuffer id c = Some c' /\ table_inv new rest' c' e' /\
    (forall j, buffer j c' = if j =? id then Some (b <| is_deleted := true |>) else buffer j c) /\ copies c' = copies c /\ gc_tick c' = gc_tick c /\
    values_capacity (slot_buffers c') = values_capacity (slot_buffers c) /\
    forall q, 0 <= q < NUM_PAGES -> tbl (page_table c') q = if bool_decide (covers b q) then INVALID_INDEX else tbl (page_table c) q.
Proof.
  intros Hinv Hl Hrest. pose proof Hinv as [Hsl Hlru Hbuf Hent Htab Hcov [Hdn Hdd]]. pose proof Hl as [[Hb Hdel] Hnew].
  destruct (Hbuf id b Hl) as (Hok & Hpick & tk & Hin). unfold DeleteBuffer, Unregister, ChangeRegister. rewrite Hb. cbn [mbind option_bind].
  destruct (buffer_pages c b INVALID_INDEX Hok) as (-> & _ & -> & pt & -> & Hpt). cbn [mbind option_bind].
  apply list_split in Hin as (e1 & e2 & ->). destruct (cache_run_inv _ _ _ Hlru) as (Hh & _).
  change (lru_cache (c <| page_table := pt |>)) with (lru_cache c). destruct (Free_spec (lru_cache c) e1 (lru_id b) (id, tk) e2 Hh) as (cache & Efree & _). rewrite Efree. cbn [mbind option_bind].
  unfold update_buffer. cbn [slot_buffers]. set (c1 := _ <| deferred ::= _ |>). change (slot_buffers c1) with (slot_buffers c).
  destruct (update_spec id (fun b => b <| is_deleted := true |>) (slot_buffers c) b Hsl Hb) as (v & -> & Hokv & Hcapv & Hatv). cbn [mbind option_bind].
  eexists _, (e1 ++ e2). split; [done|]. set (c' := c1 <| slot_buffers := v |>). pose proof (middle_fresh _ _ _ (li_nodup _ _ (proj1 (holds_part _ _ _ _ _ Hh)))) as Hfresh.
  assert (Hb' : forall j, buffer j c' = if j =? id then Some (b <| is_deleted := true |>) else buffer j c) by exact Hatv.
  split_and!; [|exact Hb'|done|done|exact Hcapv|exact Hpt].
  assert (Hlive : forall j bj, listed_live new c' j bj <-> j <> id /\ listed_live new c j bj).
  { intros j bj. unfold listed_live, live. rewrite Hb'. destruct (Z.eqb_spec j id) as [->|Hne]; [|tauto]. split; [|tauto]. by intros [[[= <-] ?] _]. }
  assert (Hcovers : forall j bj q, j <> id -> listed_live new c j bj -> covers bj q -> ~ covers b q).
  { intros j bj q Hne Hlj Hcj Hcb. apply Hne. rewrite <- (Hcov j bj q Hlj Hcj). by apply (Hcov id b). }
  split.
  - done.
  - change (lru_cache c') with cache. change (gc_tick c') with (gc_tick c). by apply (run_free _ (lru_cache c) e1 (lru_id b) (id, tk) e2).
  - intros j bj [Hne Hlj]%Hlive. destruct (Hbuf j bj Hlj) as (Hokj & Hpj & tkj & Hinj). split_and!; [done| |].
    + rewrite Hpj. apply bool_decide_ext. rewrite Hrest. tauto.
    + exists tkj. apply elem_of_middle in Hinj as [E|Hinj]; [congruence|done].
  - intros x j tkj Hx. destruct (Hent x j tkj) as (bj & Hlj & Ex); [apply elem_of_middle; by right|]. exists bj. split; [|done]. apply Hlive. split; [|done].
    intros ->. assert (bj = b) as -> by (destruct Hlj as [[Hbj _] _]; congruence). apply Hfresh. rewrite <- map_app. apply elem_of_fst. exists (id, tkj). by rewrite Ex.
  - intros q Hq. change (page_table c') with pt. rewrite Hpt by done. destruct (bool_decide_reflect (covers b q)) as [Hc|Hc]; [by intros []|]. intros Hi. destruct (Htab q Hq Hi) as (bj & Hlj & Hcj). exists bj. split; [|done].
    apply Hlive. split; [|done]. intros E. rewrite E in Hlj. assert (bj = b) as -> by (destruct Hlj as [[Hbj _] _]; congruence). done.
  - intros j bj q [Hne Hlj]%Hlive Hcj. destruct (Hbuf j bj Hlj) as (Hokj & _). change (page_table c') with pt. rewrite Hpt by by apply (page_bounds bj).
    rewrite bool_decide_false by by apply (Hcovers j bj). by apply (Hcov j bj).
  - change (deferred c') with (deferred c ++ [id]). split.
    + apply NoDup_app. split_and!; [done| |apply NoDup_singleton]. intros j Hj ->%list_elem_of_singleton. destruct (Hdd id Hj) as (b' & Hb0 & Hd'). congruence.
    + intros j Hj. rewrite Hb'. destruct (Z.eqb_spec j id) as [->|Hne]; [by eexists|]. rewrite elem_of_app, list_elem_of_singleton in Hj. apply Hdd. tauto.
Qed.

(** Registering the new buffer. *)
Lemma Register_spec n nb c e : table_inv (Some n) [] c e -> live c n nb -> buffer_ok nb -> is_picked nb = false ->
  (forall q, covers nb q -> tbl (page_table c) q = INVALID_INDEX) ->
  exists c' e' lru, Register n c = Some c' /\ table_inv None [] c' e' /\ (forall j, buffer j c' = if j =? n then Some (nb <| lru_id := lru |>) else buffer j c) /\ copies c' = copies c.
Proof.
  intros Hinv [Hnb Hnd] Hok Hnp Hfree. pose proof Hinv as [Hsl Hlru Hbuf Hent Htab Hcov [Hdn Hdd]]. unfold Register, ChangeRegister. rewrite Hnb. cbn [mbind option_bind].
  destruct (buffer_pages c nb n Hok) as (-> & _ & -> & pt & -> & Hpt). cbn [mbind option_bind]. destruct (cache_run_inv _ _ _ Hlru) as (Hh & _).
  change (lru_cache (c <| page_table := pt |>)) with (lru_cache c). change (gc_tick (c <| page_table := pt |>)) with (gc_tick c).
  destruct (Insert_spec n (gc_tick c) (lru_cache c) e Hh) as (x & cache & Eins & Hx & _). rewrite Eins. cbn [mbind option_bind].
  unfold update_buffer. set (c1 := _ <| lru_cache := cache |>). change (slot_buffers c1) with (slot_buffers c).
  destruct (update_spec n (fun b => b <| lru_id := x |>) (slot_buffers c) nb Hsl Hnb) as (v & -> & Hokv & _ & Hatv). cbn [mbind option_bind].
  eexists _, (e ++ [(x, (n, gc_tick c))]), x. split; [done|]. set (c' := c1 <| slot_buffers := v |>). set (nb' := nb <| lru_id := x |>).
  assert (Hb' : forall j, buffer j c' = if j =? n then Some nb' else buffer j c) by exact Hatv.
  assert (Hlive : forall j bj, listed_live None c' j bj <-> j = n /\ bj = nb' \/ j <> n /\ listed_live (Some n) c j bj).
  { intros j bj. unfold listed_live, live. rewrite Hb'. destruct (Z.eqb_spec j n) as [->|Hne].
    - split; [intros [[[= <-] _] _]; by left|intros [[_ ->]|[]]; done].
    - split; [intros [H _]; right; split_and!; try tauto; congruence|]. intros [[]|(_ & H & _)]; done. }
  assert (Hcv : forall q, covers nb' q <-> covers nb q) by done.
  split_and!; [|exact Hb'|done]. split.
  - done.
  - by apply (run_insert _ (lru_cache c)).
  - intros j bj [[-> ->]|[Hne Hl]]%Hlive.
    + split_and!; [by destruct Hok|done|]. exists (gc_tick c). apply elem_of_app. right. by left.
    + destruct (Hbuf j bj Hl) as (? & ? & tk & Hin). split_and!; [done..|]. exists tk. apply elem_of_app. by left.
  - intros y j tk Hy. rewrite elem_of_app, list_elem_of_singleton in Hy. destruct Hy as [Hy|[= -> -> ->]].
    + destruct (Hent y j tk Hy) as (bj & Hl & E). exists bj. split; [|done]. apply Hlive. right. split; [|done]. destruct Hl as [_ Hn]. congruence.
    + exists nb'. split; [|done]. apply Hlive. by left.
  - intros q Hq. change (page_table c') with pt. rewrite Hpt by done. destruct (bool_decide_reflect (covers nb q)) as [Hc|Hc]; intros Hi.
    + exists nb'. split; [|by apply Hcv]. apply Hlive. by left.
    + destruct (Htab q Hq Hi) as (bj & Hl & Hcj). exists bj. split; [|done]. apply Hlive. right. split; [|done]. destruct Hl as [_ Hn]. congruence.
  - intros j bj q [[-> ->]|[Hne Hl]]%Hlive Hcj; change (page_table c') with pt.
    + rewrite Hpt by by apply (page_bounds nb). by rewrite bool_decide_true.
    + destruct (Hbuf j bj Hl) as (Hokj & _). rewrite Hpt by by apply (page_bounds bj). pose proof (Hcov j bj q Hl Hcj) as Ej. rewrite bool_decide_false; [done|]. intros Hc.
      rewrite Hfree in Ej by done. destruct Hl as [[Hbj _] _]. pose proof (id_valid c j bj Hsl Hbj). unfold INVALID_INDEX in *. lia.
  - change (deferred c') with (deferred c). split; [done|]. intros j Hj. rewrite Hb'. destruct (Z.eqb_spec j n) as [->|]; [|by apply Hdd].
    destruct (Hdd n Hj) as (b & Hb & Hd). congruence.
Qed.

Lemma JoinOverlap_spec n nb id b rest accumulate c e : table_inv (Some n) (id :: rest) c e -> NoDup (id :: rest) -> live c n nb -> listed_live (Some n) c id b ->
  exists c' e' nb', JoinOverlap n id accumulate c = Some c' /\ table_inv (Some n) rest c' e' /\ live c' n nb' /\ cpu_addr nb' = cpu_addr nb /\ size_bytes nb' = size_bytes nb /\ is_picked nb' = is_picked nb /\
    (forall j, j <> n -> buffer j c' = if j =? id then Some (b <| is_deleted := true |>) else buffer j c) /\
    copies c' = copies c ++ [(id, n, cpu_addr b -64 cpu_addr nb, size_bytes b)] /\
    forall q, 0 <= q < NUM_PAGES -> tbl (page_table c') q = if bool_decide (covers b q) then INVALID_INDEX else tbl (page_table c) q.
Proof.
  intros Hinv Hnd [Hnb Hnbd] Hl. pose proof Hl as [[Hb Hdel] Hne]. unfold JoinOverlap. rewrite Hb. cbn [mbind option_bind].
  assert (Hscore : exists c1 nb', (if accumulate then update_buffer n (fun b0 => b0 <| stream_score ::= fun k => k + (stream_score b + 1) |>) c else Some c) = Some c1 /\
    table_inv (Some n) (id :: rest) c1 e /\ buffer n c1 = Some nb' /\ is_deleted nb' = false /\ cpu_addr nb' = cpu_addr nb /\ size_bytes nb' = size_bytes nb /\ is_picked nb' = is_picked nb /\
    (forall j, j <> n -> buffer j c1 = buffer j c) /\ copies c1 = copies c /\ page_table c1 = page_table c).
  { destruct accumulate; [|by exists c, nb]. unfold update_buffer.
    destruct (update_spec n (fun b0 => b0 <| stream_score ::= fun k => k + (stream_score b + 1) |>) (slot_buffers c) nb (ti_slots _ _ _ _ Hinv) Hnb) as (v & -> & Hokv & _ & Hatv). cbn [mbind option_bind].
    eexists _, _. split; [done|]. split_and!; [| | | | | | |done|done].
    - eapply (inv_new_slot n _ _ c e v (Some n)); [done|done|by right| | |exact Hatv]; [done|]. intros Hn. destruct (ti_deferred _ _ _ _ Hinv) as [_ Hd]. destruct (Hd n Hn) as (b0 & Hb0 & Hdd). congruence.
    - change (buffer n (c <| slot_buffers := v |>)) with (at_ n v). rewrite Hatv, Z.eqb_refl. done.
    - done.
    - done.
    - done.
    - done.
    - intros j Hj. change (buffer j (c <| slot_buffers := v |>)) with (at_ j v). rewrite Hatv. destruct (Z.eqb_spec j n); [done|done]. }
  destruct Hscore as (c1 & nb' & -> & Hinv1 & Hn1 & Hnd1 & Ea & Es & Ep & Hother & Ecp & Ept). cbn [mbind option_bind]. rewrite Hn1. cbn [mbind option_bind].
  assert (Hidn : id <> n) by congruence. set (c2 := c1 <| copies ::= _ |>).
  assert (Hinv2 : table_inv (Some n) (id :: rest) c2 e) by (destruct Hinv1; by split).
  assert (Hl2 : listed_live (Some n) c2 id b) by (split; [|done]; split; [|done]; change (buffer id c2) with (buffer id c1); by rewrite Hother).
  apply NoDup_cons in Hnd as [Hid _].
  destruct (DeleteBuffer_spec (Some n) (id :: rest) rest c2 e id b Hinv2 Hl2) as (c3 & e3 & E3 & Hinv3 & Hb3 & Hc3 & _ & _ & Ht3).
  { intros j. rewrite elem_of_cons. split; [intros Hj; split; [by right|by intros ->]|tauto]. }
  exists c3, e3, nb'. split; [exact E3|]. split; [exact Hinv3|]. split; [|split_and!; try done].
  - split; [|done]. rewrite Hb3. destruct (Z.eqb_spec n id); [congruence|done].
  - intros j Hj. rewrite Hb3. change (buffer j c2) with (buffer j c1). by rewrite Hother.
  - rewrite Hc3. unfold c2. cbn [copies]. cbv [upd]. cbn. by rewrite Ecp, Ea.
  - intros q Hq. rewrite Ht3 by done. change (page_table c2) with (page_table c1). by rewrite Ept.
Qed.

(** Joining all the overlaps: each is copied to its place and deleted. *)
Definition copy_of (c : BufferCache) (n begin : Z) (id : BufferId) (cp : BufferId * BufferId * Z * Z) : Prop :=
  exists b, buffer id c = Some b /\ cp = (id, n, cpu_addr b -64 begin, size_bytes b).

Lemma join_overlaps_spec c0 n l accumulate nb c e : table_inv (Some n) l c e -> NoDup l -> live c n nb -> (forall id, id ∈ l -> exists b, listed_live (Some n) c id b) ->
  (forall id b, id ∈ l -> buffer id c = Some b -> exists b0, buffer id c0 = Some b0 /\ cpu_addr b0 = cpu_addr b /\ size_bytes b0 = size_bytes b) ->
  exists c' e' nb', join_overlaps n l accumulate c = Some c' /\ table_inv (Some n) [] c' e' /\ live c' n nb' /\
    (cpu_addr nb' = cpu_addr nb /\ size_bytes nb' = size_bytes nb /\ is_picked nb' = is_picked nb) /\
    (forall j, j <> n -> buffer j c' = if bool_decide (j ∈ l) then (fun b => b <| is_deleted := true |>) <$> buffer j c else buffer j c) /\
    (exists more, copies c' = copies c ++ more /\ Forall2 (copy_of c0 n (cpu_addr nb)) l more) /\
    forall q, 0 <= q < NUM_PAGES -> tbl (page_table c) q = INVALID_INDEX \/ tbl (page_table c) q ∈ l -> tbl (page_table c') q = INVALID_INDEX.
Proof.
  revert nb c e. induction l as [|id l IH]; intros nb c e Hinv Hnd Hnb Hl Hsame; cbn [join_overlaps].
  - exists c, e, nb. split; [done|]. split; [done|]. split; [done|]. split; [done|]. split; [|split].
    + intros j _. by rewrite bool_decide_false by apply not_elem_of_nil.
    + exists []. by rewrite app_nil_r.
    + intros q _ [H|H%elem_of_nil]; done.
  - destruct (Hl id) as (b & Hlb); [by left|]. destruct (JoinOverlap_spec n nb id b l accumulate c e Hinv Hnd Hnb Hlb) as (c1 & e1 & nb1 & -> & Hinv1 & Hnb1 & Ea1 & Es1 & Ep1 & Hb1 & Hc1 & Ht1).
    cbn [mbind option_bind]. pose proof Hnd as [Hid Hnd']%NoDup_cons. pose proof Hlb as [[Hb Hdel] Hne].
    assert (Hsame1 : forall j, j ∈ l -> buffer j c1 = buffer j c).
    { intros j Hj. destruct (Hl j) as (bj & _ & Hnj); [by right|]. rewrite Hb1 by congruence. destruct (Z.eqb_spec j id) as [->|]; done. }
    assert (Hl1 : forall j, j ∈ l -> exists bj, listed_live (Some n) c1 j bj).
    { intros j Hj. destruct (Hl j) as (bj & [Hbj Hdj] & Hnj); [by right|]. exists bj. split; [split; [by rewrite Hsame1|done]|done]. }
    destruct (IH nb1 c1 e1 Hinv1 Hnd' Hnb1 Hl1) as (c2 & e2 & nb2 & E2 & Hinv2 & Hnb2 & (Ea2 & Es2 & Ep2) & Hb2 & (more & Hc2 & Hf) & Ht2).
    { intros j bj Hj Hbj. rewrite Hsame1 in Hbj by done. apply Hsame; [by right|done]. }
    exists c2, e2, nb2. split; [done|]. split; [done|]. split; [done|]. split; [split_and!; congruence|]. split; [|split].
    + intros j Hj. rewrite Hb2, Hb1 by done. destruct (Z.eqb_spec j id) as [->|Hne'].
      * rewrite bool_decide_false, bool_decide_true by (done || by left). by rewrite Hb.
      * destruct (bool_decide_reflect (j ∈ l)); [by rewrite bool_decide_true by by right|]. rewrite bool_decide_false; [done|]. by intros [|]%elem_of_cons.
    + exists ((id, n, cpu_addr b -64 cpu_addr nb, size_bytes b) :: more). split; [by rewrite Hc2, Hc1, <- app_assoc|]. rewrite Ea1 in Hf. constructor; [|done].
      destruct (Hsame id b) as (b0 & Hb0 & Eb1 & Eb2); [by left|done|]. exists b0. by rewrite Eb1, Eb2.
    + intros q Hq Hor. apply Ht2; [done|]. rewrite Ht1 by done. destruct (bool_decide_reflect (covers b q)) as [|Hc]; [by left|]. destruct Hor as [|[H|H]%elem_of_cons]; [by left| |by right].
      exfalso. apply Hc. destruct (ti_table _ _ _ _ Hinv q Hq) as (b' & [[Hb' _] _] & Hc'); [rewrite H; pose proof (id_valid c id b (ti_slots _ _ _ _ Hinv) Hb); unfold INVALID_INDEX in *; lia|].
      rewrite H in Hb'. congruence.
Qed.

(** * Creating and finding *)

Lemma picked_live c v l id : picked_only (slot_buffers c) v l -> buffer id (c <| slot_buffers := v |>) = if bool_decide (id ∈ l) then (fun b => b <| is_picked := true |>) <$> buffer id c else buffer id c.
Proof. intros H. apply (po_at _ _ _ H). Qed.

Lemma inv_picked c e v l : table_inv None [] c e -> picked_only (slot_buffers c) v l -> table_inv None l (c <| slot_buffers := v |>) e.
Proof.
  intros [Hsl Hlru Hbuf Hent Htab Hcov [Hdn Hdd]] Hv. pose proof (fun id => picked_live c v l id Hv) as Hb. set (c' := c <| slot_buffers := v |>) in *.
  assert (Hlive : forall i b', listed_live None c' i b' <-> exists b, listed_live None c i b /\ b' = if bool_decide (i ∈ l) then b <| is_picked := true |> else b).
  { intros i b'. unfold listed_live, live. rewrite Hb. split.
    - intros [[Hb' Hd] _]. destruct (bool_decide (i ∈ l)); [|by exists b']. destruct (buffer i c) as [b|]; [|done]. injection Hb' as <-. by exists b.
    - intros (b & [[Hb' Hd] _] & ->). destruct (bool_decide (i ∈ l)); [by rewrite Hb'|done]. }
  assert (Hsame : forall i b, cpu_addr (if bool_decide (i ∈ l) then b <| is_picked := true |> else b) = cpu_addr b /\
    buffer_end (if bool_decide (i ∈ l) then b <| is_picked := true |> else b) = buffer_end b) by (intros i b; by destruct (bool_decide (i ∈ l))).
  split; try done.
  - apply Hv.
  - intros i b' (b & Hl & ->)%Hlive. destruct (Hbuf i b Hl) as (Hok & Hp & tk & Hin). rewrite bool_decide_false in Hp by apply not_elem_of_nil.
    split_and!; [destruct (bool_decide (i ∈ l)); [by destruct Hok|done]|by destruct (bool_decide (i ∈ l))|]. exists tk. by destruct (bool_decide (i ∈ l)).
  - intros x i tk Hx. destruct (Hent x i tk Hx) as (b & Hl & E). eexists. split; [apply Hlive; by exists b|]. by destruct (bool_decide (i ∈ l)).
  - intros q Hq Hi. destruct (Htab q Hq Hi) as (b & Hl & Hc). eexists. split; [apply Hlive; by exists b|]. unfold covers. destruct (Hsame (tbl (page_table c) q) b) as [E1 E2].
    change (page_table c') with (page_table c). by rewrite E1, E2.
  - intros i b' q (b & Hl & ->)%Hlive Hc. apply (Hcov i b); [done|]. unfold covers in *. destruct (Hsame i b) as [E1 E2]. by rewrite E1, E2 in Hc.
  - split; [done|]. intros i Hi. destruct (Hdd i Hi) as (b & Hbi & Hd). rewrite Hb, Hbi. destruct (bool_decide (i ∈ l)); by eexists.
Qed.

(** A range that can be asked for, and the condition that the buffer made for it is below 4 GB. *)
Record request (addr size : Z) : Prop := { rq_low : min_page <= addr; rq_size : 0 < size <= 4294934528; rq_high : addr + size <= max_page }.
Definition aligned_size (addr size : Z) : Z := wrap32 (AlignUp (addr +64 size) CACHING_PAGESIZE - AlignDown addr CACHING_PAGESIZE).
Definition fits (addr size : Z) (c : BufferCache) : Prop :=
  forall r c', ResolveOverlaps (AlignDown addr CACHING_PAGESIZE) (aligned_size addr size) c = Some (r, c') -> end_ r - begin_ r < 4294967296.

Lemma request_aligned addr size : request addr size -> let a := AlignDown addr CACHING_PAGESIZE in
  aligned16 a /\ aligned16 (aligned_size addr size) /\ min_page <= a <= addr /\ addr + size <= a + aligned_size addr size <= max_page /\ 0 < aligned_size addr size.
Proof.
  intros [Hl Hs Hh] a. assert (Ea : addr +64 size = addr + size) by (page_consts; rewrite wrap64_small; [done|u64_lia]).
  destruct (AlignDown_spec addr CACHING_PAGESIZE) as (Hda & Hdb & _); [page_consts; u64_lia|done|]. fold a in Hda, Hdb.
  destruct (AlignUp_spec (addr + size) CACHING_PAGESIZE) as (Hua & Hub & _); [page_consts; lia|done|page_consts; u64_lia|].
  unfold aligned_size. rewrite Ea. fold a. set (u := AlignUp (addr + size) CACHING_PAGESIZE) in *. clearbody a u. unfold aligned in *. page_consts.
  assert (Ew : wrap32 (u - a) = u - a) by (unfold wrap32; rewrite Z.mod_small; lia). rewrite Ew. clear Ew Ea.
  assert (a = a / 16384 * 16384) by (Z.to_euclidean_division_equations; lia). assert (u = u / 16384 * 16384) by (Z.to_euclidean_division_equations; lia).
  split_and!; try lia; Z.to_euclidean_division_equations; lia.
Qed.

(** What creating a buffer for a range does: [gone] are the buffers it took in. *)
Record created (addr size : Z) (c : BufferCache) (n : BufferId) (c' : BufferCache) (b : Buffer) (gone : list BufferId) : Prop := {
  cr_live : live c' n b;
  cr_fresh : buffer n c = None;
  cr_range : cpu_addr b <= addr /\ addr + size <= buffer_end b;
  cr_gone : forall id, id ∈ gone -> exists b0, live c id b0 /\ cpu_addr b <= cpu_addr b0 /\ buffer_end b0 <= buffer_end b /\ forall b', ~ live c' id b';
  cr_kept : forall id b0, live c id b0 -> ~ (id ∈ gone) -> live c' id b0 /\ (buffer_end b0 <= cpu_addr b \/ buffer_end b <= cpu_addr b0);
  cr_copies : exists more, copies c' = copies c ++ more /\ Forall2 (copy_of c n (cpu_addr b)) gone more
}.

Lemma CreateBuffer_spec addr size c e : table_inv None [] c e -> request addr size -> fits addr size c -> values_capacity (slot_buffers c) < 2147483648 ->
  exists n c' e' b gone, CreateBuffer addr size c = Some (n, c') /\ table_inv None [] c' e' /\ created addr size c n c' b gone.
Proof.
  intros Hinv Hrq Hfit Hcap. destruct (request_aligned addr size Hrq) as (Had & Has & Hda & Hdb & Hpos). unfold CreateBuffer. fold (aligned_size addr size).
  destruct (ResolveOverlaps_spec c e (AlignDown addr CACHING_PAGESIZE) (aligned_size addr size) Hinv) as (r & v & Er & Hr); [lia|lia|lia|done|done|].
  pose proof (Hfit _ _ Er) as Hsize. rewrite Er. cbn [mbind option_bind]. destruct Hr as [Hpo Hnd Hids [Hab Hae] [Hrb Hre] Hclean].
  set (c1 := c <| slot_buffers := v |>). change (slot_buffers c1) with v. assert (Ew : wrap32 (end_ r - begin_ r) = end_ r - begin_ r) by (unfold wrap32; rewrite Z.mod_small; lia). rewrite Ew.
  set (nb := new_buffer (begin_ r) (end_ r - begin_ r)). destruct (insert_spec nb v (po_ok _ _ _ Hpo)) as (n & v' & -> & Hokv' & _ & Hno & Hat'); [by rewrite (po_capacity _ _ _ Hpo)|]. cbn [mbind option_bind].
  pose proof (inv_picked c e v (ids r) Hinv Hpo) as Hinv1. fold c1 in Hinv1. set (c2 := c1 <| slot_buffers := v' |>).
  assert (Hfresh : buffer n c = None) by (pose proof (picked_live c v (ids r) n Hpo) as E; change (buffer n (c <| slot_buffers := v |>)) with (at_ n v) in E; rewrite Hno in E; destruct (bool_decide (n ∈ ids r)); [by destruct (buffer n c)|done]).
  assert (Hb1 : forall j, buffer j c1 = if bool_decide (j ∈ ids r) then (fun b => b <| is_picked := true |>) <$> buffer j c else buffer j c) by (intros j; exact (picked_live c v (ids r) j Hpo)).
  assert (Hb2 : forall j, buffer j c2 = if j =? n then Some nb else buffer j c1) by exact Hat'.
  assert (Hnids : ~ (n ∈ ids r)) by (intros Hn; destruct (Hids n Hn) as (b0 & [Hb0 _] & _); congruence).
  assert (Hinv2 : table_inv (Some n) (ids r) c2 e).
  { apply (inv_new_slot n nb (ids r) c1 e v' None); [done|done|by left|done| |exact Hat'].
    intros Hn. destruct (ti_deferred _ _ _ _ Hinv) as [_ Hd]. destruct (Hd n Hn) as (b0 & Hb0 & _). congruence. }
  assert (Hids2 : forall id, id ∈ ids r -> exists b0, live c id b0 /\ begin_ r <= cpu_addr b0 /\ buffer_end b0 <= end_ r /\ listed_live (Some n) c2 id (b0 <| is_picked := true |>)).
  { intros id Hid. destruct (Hids id Hid) as (b0 & [Hb0 Hd0] & H1 & H2). exists b0. split; [done|]. split; [done|]. split; [done|]. assert (Hne : id <> n) by (by intros ->). split; [|congruence]. split; [|done].
    rewrite Hb2. destruct (Z.eqb_spec id n); [done|]. rewrite Hb1, bool_decide_true by done. by rewrite Hb0. }
  destruct (join_overlaps_spec c n (ids r) (negb (has_stream_leap r)) nb c2 e Hinv2 Hnd) as (c3 & e3 & nb3 & -> & Hinv3 & Hnb3 & (Ea3 & Es3 & Ep3) & Hb3 & (more & Hc3 & Hf) & Ht3).
  { split; [|done]. by rewrite Hb2, Z.eqb_refl. }
  { intros id Hid. destruct (Hids2 id Hid) as (b0 & _ & _ & _ & Hl). by eexists. }
  { intros id b Hid Hb. destruct (Hids2 id Hid) as (b0 & [Hb0 _] & _ & _ & [[Hl _] _]). exists b0. rewrite Hl in Hb. by injection Hb as <-. }
  cbn [mbind option_bind]. assert (Hnbok : buffer_ok nb3).
  { split; unfold buffer_end; rewrite ?Ea3, ?Es3; cbn [cpu_addr size_bytes nb new_buffer]; try done; try lia. by replace (begin_ r + (end_ r - begin_ r)) with (end_ r) by lia. }
  assert (Eend : buffer_end nb3 = end_ r) by (unfold buffer_end; rewrite Ea3, Es3; cbn; lia).
  destruct (Register_spec n nb3 c3 e3 Hinv3 Hnb3 Hnbok) as (c4 & e4 & lru & -> & Hinv4 & Hb4 & Hc4); [by rewrite Ep3| |].
  { intros q Hq. pose proof (page_bounds nb3 q Hnbok Hq) as Hqr. apply Ht3; [done|]. apply Hclean. unfold covers in Hq. rewrite Eend, Ea3 in Hq. exact Hq. }
  cbn [mbind option_bind]. exists n, c4, e4, (nb3 <| lru_id := lru |>), (ids r). split; [done|]. split; [done|]. set (b := nb3 <| lru_id := lru |>).
  change (buffer_end b) with (buffer_end nb3). split; change (cpu_addr b) with (cpu_addr nb3); change (buffer_end b) with (buffer_end nb3); rewrite ?Eend, ?Ea3.
  - split; [by rewrite Hb4, Z.eqb_refl|by destruct Hnb3].
  - done.
  - cbn [cpu_addr nb new_buffer]. lia.
  - intros id Hid. destruct (Hids2 id Hid) as (b0 & Hl & H1 & H2 & [[Hb2' _] Hne]). exists b0. split; [exact Hl|]. split; [exact H1|]. split; [exact H2|]. intros b' [Hb' Hd']. rewrite Hb4 in Hb'.
    destruct (Z.eqb_spec id n); [congruence|]. rewrite Hb3, bool_decide_true, Hb2' in Hb' by done. injection Hb' as <-. done.
  - intros id b0 [Hb0 Hd0] Hid. assert (Hne : id <> n) by congruence. assert (Hkeep : buffer id c4 = Some b0).
    { rewrite Hb4. destruct (Z.eqb_spec id n); [done|]. rewrite Hb3, bool_decide_false, Hb2 by done. destruct (Z.eqb_spec id n); [done|]. by rewrite Hb1, bool_decide_false. }
    split; [done|]. assert (Hlist : listed_live None c4 id b0) by done. destruct (ti_buffer _ _ _ _ Hinv4 id b0 Hlist) as (Hok0 & _). cbn [cpu_addr nb new_buffer].
    destruct (Z.le_gt_cases (buffer_end b0) (begin_ r)) as [|H1]; [by left|]. destruct (Z.le_gt_cases (end_ r) (cpu_addr b0)) as [|H2]; [by right|]. exfalso.
    set (q := Z.max (cpu_addr b0) (begin_ r) / 16384). destruct Hok0 as [Hl0 Ha0 Hs0 He0 Hh0].
    assert (Hq : q * 16384 = Z.max (cpu_addr b0) (begin_ r)) by (unfold q; page_consts; Z.to_euclidean_division_equations; lia).
    assert (Hc0 : covers b0 q) by (unfold covers; rewrite Hq; unfold buffer_end in *; lia). assert (Hcn : covers b q) by (unfold covers; change (cpu_addr b) with (cpu_addr nb3); change (buffer_end b) with (buffer_end nb3); rewrite Hq, Eend, Ea3; cbn [cpu_addr nb new_buffer]; lia).
    assert (Hln : listed_live None c4 n b) by (split; [split; [by rewrite Hb4, Z.eqb_refl|by destruct Hnb3]|done]).
    pose proof (ti_cover _ _ _ _ Hinv4 id b0 q Hlist Hc0). pose proof (ti_cover _ _ _ _ Hinv4 n b q Hln Hcn). congruence.
  - exists more. split; [by rewrite Hc4, Hc3|done].
Qed.

Lemma listed_none c id b : live c id b -> listed_live None c id b.
Proof. by split. Qed.

Lemma FindBuffer_spec addr size c e : table_inv None [] c e -> request addr size -> fits addr size c -> values_capacity (slot_buffers c) < 2147483648 ->
  exists id c' e' b, FindBuffer addr size c = Some (id, c') /\ table_inv None [] c' e' /\ live c' id b /\ cpu_addr b <= addr /\ addr + size <= buffer_end b /\
    ((c' = c) \/ exists gone, created addr size c id c' b gone).
Proof.
  intros Hinv Hrq Hfit Hcap. unfold FindBuffer. pose proof Hrq as [Hl Hs Hh].
  assert (Hcreate : exists id c' e' b, CreateBuffer addr size c = Some (id, c') /\ table_inv None [] c' e' /\ live c' id b /\ cpu_addr b <= addr /\ addr + size <= buffer_end b /\
    ((c' = c) \/ exists gone, created addr size c id c' b gone)).
  { destruct (CreateBuffer_spec addr size c e Hinv Hrq Hfit Hcap) as (n & c' & e' & b & gone & E & Hinv' & Hc). exists n, c', e', b. pose proof Hc as [Hlive _ [H1 H2] _ _ _].
    split; [done|]. split; [done|]. split; [done|]. split; [done|]. split; [done|]. right. by exists gone. }
  destruct (Z.eqb_spec addr 0); [page_consts; lia|]. rewrite Z.shiftr_div_pow2 by done. change (2 ^ CACHING_PAGEBITS) with 16384.
  assert (Hq : 0 <= addr / 16384 < NUM_PAGES) by (page_consts; Z.to_euclidean_division_equations; lia). rewrite load_page_ok by done. cbn [mbind option_bind].
  destruct (Z.eqb_spec (tbl (page_table c) (addr / 16384)) INVALID_INDEX) as [|Hi]; [done|].
  destruct (ti_table _ _ _ _ Hinv _ Hq Hi) as (b & [Hb _] & Hc). pose proof Hb as [Hbb _]. rewrite Hbb. cbn [mbind option_bind].
  destruct (IsInBounds addr size b) eqn:Ein; [|done]. unfold IsInBounds in Ein. apply andb_true_iff in Ein as [E1%Z.leb_le E2%Z.leb_le].
  destruct (ti_buffer _ _ _ _ Hinv _ b (listed_none _ _ _ Hb)) as ([Hlow _ Hsz _ Hhigh] & _). rewrite !wrap64_small in E2 by (page_consts; u64_lia).
  exists (tbl (page_table c) (addr / 16384)), c, e, b. split; [done|]. split; [done|]. split; [done|]. split; [done|]. split; [exact E2|]. by left.
Qed.

(** Only the entries of the cache change. *)
Lemma inv_lru c e cache e' : table_inv None [] c e -> cache_run (gc_tick c) cache e' ->
  (forall x id, (exists tk, (x, (id, tk)) ∈ e') <-> exists tk, (x, (id, tk)) ∈ e) -> table_inv None [] (c <| lru_cache := cache |>) e'.
Proof.
  intros [Hsl Hlru Hbuf Hent Htab Hcov Hdef] Hrun Hsame. split; try done.
  - intros id b Hl. destruct (Hbuf id b Hl) as (? & ? & H). split; [done|]. split; [done|]. by apply Hsame.
  - intros x id tk Hx. destruct (proj1 (Hsame x id)) as [tk' Hx']; [by exists tk|]. by apply (Hent x id tk').
Qed.

Lemma TouchBuffer_spec c e id b : table_inv None [] c e -> live c id b -> exists c' e', TouchBuffer b c = Some c' /\ table_inv None [] c' e' /\ (forall j, buffer j c' = buffer j c).
Proof.
  intros Hinv Hl. destruct (ti_buffer _ _ _ _ Hinv id b (listed_none _ _ _ Hl)) as (_ & _ & tk & Hin). apply list_split in Hin as (e1 & e2 & ->).
  pose proof (ti_lru _ _ _ _ Hinv) as Hrun. destruct (cache_run_inv _ _ _ Hrun) as (Hh & _). unfold TouchBuffer.
  destruct (Touch_spec (lru_cache c) e1 (lru_id b) id tk (gc_tick c) e2 Hh) as (cache & E & _). rewrite E. cbn [mbind option_bind]. eexists _, _. split; [done|]. split; [|done].
  apply (inv_lru c (e1 ++ (lru_id b, (id, tk)) :: e2)); [done|by apply (run_touch _ (lru_cache c))|]. intros x i. destruct (gc_tick c <=? tk); [done|]. split; intros (t & Ht).
  - rewrite !elem_of_app, list_elem_of_singleton in Ht. destruct Ht as [Ht|[Ht|[= -> -> _]]]; [exists t|exists t|exists tk]; apply elem_of_middle; [right|right|by left]; apply elem_of_app; tauto.
  - apply elem_of_middle in Ht as [[= -> -> ->]|Ht]; [exists (gc_tick c)|exists t]; rewrite !elem_of_app in *; rewrite list_elem_of_singleton; tauto.
Qed.

Lemma run_deferred_spec c e : table_inv None [] c e -> exists c', run_deferred c = Some c' /\ table_inv None [] c' e /\ (forall id b, live c' id b <-> live c id b).
Proof.
  intros Hinv. pose proof Hinv as [Hsl Hlru Hbuf Hent Htab Hcov [Hdn Hdd]]. unfold run_deferred. destruct (deferred c) as [|id rest] eqn:Ed; [by exists c|].
  destruct (Hdd id) as (b & Hb & Hdel); [by left|]. destruct (erase_spec id (slot_buffers c) Hsl) as (v & -> & Hokv & _ & Hatv); [by exists b|]. cbn [mbind option_bind].
  set (c' := c <| slot_buffers := v |> <| deferred := rest |>). exists c'. split; [done|]. assert (Hb' : forall j, buffer j c' = if j =? id then None else buffer j c) by exact Hatv.
  assert (Hlive : forall j bj, live c' j bj <-> live c j bj).
  { intros j bj. unfold live. rewrite Hb'. destruct (Z.eqb_spec j id) as [->|]; [|done]. rewrite Hb. split; [by intros []|]. intros [[= <-] ?]. congruence. }
  assert (Hll : forall j bj, listed_live None c' j bj <-> listed_live None c j bj) by (intros j bj; unfold listed_live; by rewrite Hlive).
  apply NoDup_cons in Hdn as [Hid Hdn]. split; [|done]. split; try done.
  - intros j bj Hl. by apply Hbuf, Hll.
  - intros x j tk Hx. destruct (Hent x j tk Hx) as (bj & Hl & E). exists bj. split; [by apply Hll|done].
  - intros q Hq Hi. destruct (Htab q Hq Hi) as (bj & Hl & E). exists bj. split; [by apply Hll|done].
  - intros j bj q Hl. by apply Hcov, Hll.
  - split; [done|]. intros j Hj. rewrite Hb'. destruct (Z.eqb_spec j id) as [->|]; [done|]. apply Hdd. by right.
Qed.

Lemma RunGarbageCollector_spec usage c e : table_inv None [] c e -> gc_tick c + 1 < 9223372036854775808 -> table_inv None [] (RunGarbageCollector usage c) e.
Proof.
  intros [Hsl Hlru Hbuf Hent Htab Hcov Hdef] Ht. destruct (cache_run_inv _ _ _ Hlru) as (_ & _ & Hn & _). unfold RunGarbageCollector.
  assert (Hrun : cache_run (gc_tick c +64 1) (lru_cache c) e) by (rewrite wrap64_small by u64_lia; apply (run_clock (gc_tick c)); [done|lia]).
  destruct usage; by split.
Qed.

(** * The life of the buffer table *)

Definition new_cache : option BufferCache := v ← new_slots; Some (mkBufferCache v ∅ empty_cache 0 0 [] []).

Inductive cache_step (c : BufferCache) : BufferCache -> Prop :=
  | step_find addr size id c' : request addr size -> fits addr size c -> values_capacity (slot_buffers c) < 2147483648 ->
      FindBuffer addr size c = Some (id, c') -> cache_step c c'
  | step_touch id b c' : live c id b -> TouchBuffer b c = Some c' -> cache_step c c'
  | step_deferred c' : run_deferred c = Some c' -> cache_step c c'
  | step_collect usage : gc_tick c + 1 < 9223372036854775808 -> cache_step c (RunGarbageCollector usage c).

Inductive reached : BufferCache -> Prop :=
  | reached_new c : new_cache = Some c -> reached c
  | reached_step c c' : reached c -> cache_step c c' -> reached c'.

Lemma new_cache_inv c : new_cache = Some c -> table_inv None [] c [].
Proof.
  unfold new_cache. destruct (@new_slots_spec Buffer) as (v & -> & Hok & _ & Hno). cbn [mbind option_bind]. intros [= <-].
  assert (Hlive : forall id b, ~ live (mkBufferCache v ∅ empty_cache 0 0 [] []) id b) by (intros id b [Hb _]; change (at_ id v = Some b) in Hb; congruence).
  split; cbn [slot_buffers lru_cache gc_tick page_table deferred]; [done|apply run_new|intros id b []; by destruct (Hlive id b)|by intros x id tk ?%elem_of_nil| |intros id b q []; by destruct (Hlive id b)|split; [constructor|by intros id ?%elem_of_nil]].
  intros q Hq. unfold tbl, load_page, MultiLevelPageTable.load. destruct (page_parts q Hq) as [-> _]. cbn [negb]. rewrite lookup_empty. done.
Qed.

Lemma reached_inv c : reached c -> exists e, table_inv None [] c e.
Proof.
  induction 1 as [c E|c c' _ [e Hinv] Hstep]; [exists []; by apply new_cache_inv|]. destruct Hstep as [addr size id c' Hrq Hfit Hcap E|id b c' Hl E|c' E|usage Ht].
  - destruct (FindBuffer_spec addr size c e Hinv Hrq Hfit Hcap) as (id' & c1 & e' & b & E' & H & _). rewrite E' in E. injection E as _ <-. by exists e'.
  - destruct (TouchBuffer_spec c e id b Hinv Hl) as (c1 & e' & E' & H & _). rewrite E' in E. injection E as <-. by exists e'.
  - destruct (run_deferred_spec c e Hinv) as (c1 & E' & H & _). rewrite E' in E. injection E as <-. by exists e.
  - exists e. by apply RunGarbageCollector_spec.
Qed.

(** C32. The buffers of the cache, whatever was asked for, touched, collected and erased: each covers
    whole pages of 16 KB of the guest memory, no two overlap, the page table leads to the
    buffer of each page and nowhere else, and the recently used items are exactly the buffers in
    use. *)
Theorem reached_table c : reached c ->
  (forall id b, live c id b -> min_page <= cpu_addr b /\ cpu_addr b < buffer_end b <= max_page /\ aligned16 (cpu_addr b) /\ aligned16 (buffer_end b)) /\
  (forall i bi j bj, live c i bi -> live c j bj -> i <> j -> buffer_end bi <= cpu_addr bj \/ buffer_end bj <= cpu_addr bi) /\
  (forall q, 0 <= q < NUM_PAGES -> exists id, load_page q (page_table c) = Some id /\
     ((id = INVALID_INDEX /\ forall j bj, live c j bj -> ~ covers bj q) \/ exists b, live c id b /\ covers b q)) /\
  exists e, holds (lru_cache c) e /\ forall id, (exists x tk, (x, (id, tk)) ∈ e) <-> exists b, live c id b.
Proof.
  intros [e Hinv]%reached_inv. pose proof Hinv as [Hsl Hlru Hbuf Hent Htab Hcov _].
  assert (Hok : forall id b, live c id b -> buffer_ok b) by (intros id b Hl; apply (Hbuf id b (listed_none _ _ _ Hl))).
  split; [|split; [|split]].
  - intros id b Hl. destruct (Hok id b Hl) as [H1 H2 H3 H4 H5]. unfold buffer_end in *. split_and!; (done || lia).
  - intros i bi j bj Hi Hj Hne. destruct (Z.le_gt_cases (buffer_end bi) (cpu_addr bj)) as [|H1]; [by left|]. destruct (Z.le_gt_cases (buffer_end bj) (cpu_addr bi)) as [|H2]; [by right|]. exfalso.
    destruct (Hok i bi Hi) as [Hli Hai Hsi Hei Hhi], (Hok j bj Hj) as [Hlj Haj Hsj Hej Hhj]. set (q := Z.max (cpu_addr bi) (cpu_addr bj) / 16384).
    assert (Hq : q * 16384 = Z.max (cpu_addr bi) (cpu_addr bj)) by (unfold q; page_consts; Z.to_euclidean_division_equations; lia). apply Hne.
    rewrite <- (Hcov i bi q (listed_none _ _ _ Hi)); [apply (Hcov j bj q (listed_none _ _ _ Hj))|]; unfold covers; rewrite Hq; unfold buffer_end in *; lia.
  - intros q Hq. exists (tbl (page_table c) q). split; [by apply load_page_ok|]. destruct (Z.eq_dec (tbl (page_table c) q) INVALID_INDEX) as [Ei|Ei].
    + left. split; [done|]. intros j bj Hj Hc. pose proof (Hcov j bj q (listed_none _ _ _ Hj) Hc) as Ej. destruct Hj as [Hj _]. pose proof (id_valid c j bj Hsl Hj). lia.
    + right. destruct (Htab q Hq Ei) as (b & [Hl _] & Hc). by exists b.
  - exists e. split; [apply (cache_run_inv _ _ _ Hlru)|]. intros id. split.
    + intros (x & tk & Hx). destruct (Hent x id tk Hx) as (b & [Hl _] & _). by exists b.
    + intros (b & Hl). destruct (Hbuf id b (listed_none _ _ _ Hl)) as (_ & _ & tk & Hin). by exists (lru_id b), tk.
Qed.

(** C33. Looking for the buffer of a range ends and gives one that covers the range, so that
    reading it back and invalidating it are in order. The range is one that can be asked for: not
    below 32 KB, inside the 40-bit address space, and of at most 4 GB less 32 KB; the buffers it
    is joined with, as [ResolveOverlaps] finds them, span less than 4 GB with it (their size is
    kept in 32 bits); and there are fewer than 2^31 slots. Either it was there and nothing changes,
    or it is new: the buffers that it overlaps lie inside of it, each was copied to its offset, in the
    order they were found, and none of them is in use any more; all others are as they were. *)
Theorem FindBuffer_exact c addr size : reached c -> request addr size -> fits addr size c -> values_capacity (slot_buffers c) < 2147483648 ->
  exists id c' b, FindBuffer addr size c = Some (id, c') /\ reached c' /\ live c' id b /\ in_buffer (cpu_addr b) (size_bytes b) addr size /\
    (c' = c \/
     exists gone more, buffer id c = None /\ copies c' = copies c ++ more /\ Forall2 (copy_of c id (cpu_addr b)) gone more /\
       forall j bj, live c j bj ->
         if bool_decide (j ∈ gone) then cpu_addr b <= cpu_addr bj /\ buffer_end bj <= buffer_end b /\ forall b', ~ live c' j b'
         else live c' j bj /\ (buffer_end bj <= cpu_addr b \/ buffer_end b <= cpu_addr bj)).
Proof.
  intros Hr Hrq Hfit Hcap. destruct (reached_inv c Hr) as [e Hinv]. destruct (FindBuffer_spec addr size c e Hinv Hrq Hfit Hcap) as (id & c' & e' & b & E & Hinv' & Hl & H1 & H2 & Hor).
  destruct (ti_buffer _ _ _ _ Hinv' id b (listed_none _ _ _ Hl)) as ([Hlow _ Hsz _ Hhigh] & _). exists id, c', b.
  split; [done|]. split; [apply (reached_step c); [done|by apply (step_find c addr size id)]|]. split; [done|].
  split; [split; [page_consts; lia|by destruct Hrq as [_ [? _] _]|exact H2|page_consts; change (2 ^ MAX_CPU_PAGE_BITS) with 1099511627776; lia]|].
  destruct Hor as [->|[gone [_ Hfresh _ Hgone Hkept (more & Hc & Hf)]]]; [by left|right]. exists gone, more. split; [done|]. split; [done|]. split; [done|].
  intros j bj Hj. destruct (bool_decide_reflect (j ∈ gone)) as [Hin|Hno]; [|by apply Hkept].
  destruct (Hgone j Hin) as (b0 & [Hb0 _] & H3 & H4 & H5). destruct Hj as [Hbj _]. rewrite Hbj in Hb0. injection Hb0 as ->. done.
Qed.

(** ** A life *)

Definition run_new_cache : BufferCache := default (mkBufferCache empty_slots ∅ empty_cache 0 0 [] []) new_cache.
(** A buffer of three pages. *)
Definition run_first : BufferCache := default run_new_cache (snd <$> FindBuffer 0x100000 0x9000 run_new_cache).

Lemma request_first : request 0x100000 0x9000.
Proof. by split; vm_compute. Qed.
Lemma request_second : request 0x10A000 0x8000.
Proof. by split; vm_compute. Qed.

Lemma run_first_reached : reached run_first.
Proof.
  apply (reached_step run_new_cache); [by apply reached_new|]. apply (step_find _ 0x100000 0x9000 0); [apply request_first| |by vm_compute|by vm_compute].
  intros r c' E. assert (Er : fst <$> ResolveOverlaps (AlignDown 0x100000 CACHING_PAGESIZE) (aligned_size 0x100000 0x9000) run_new_cache = Some (mkOverlap [] 0x100000 0x10C000 false)) by reflexivity.
  rewrite E in Er. pose proof (f_equal (default (mkOverlap [] 0 0 false)) Er) as Hr. change (r = mkOverlap [] 0x100000 0x10C000 false) in Hr. by rewrite Hr.
Qed.

Lemma run_first_fits : fits 0x10A000 0x8000 run_first.
Proof.
  intros r c' E. assert (Er : fst <$> ResolveOverlaps (AlignDown 0x10A000 CACHING_PAGESIZE) (aligned_size 0x10A000 0x8000) run_first = Some (mkOverlap [0] 0x100000 0x114000 false)) by (vm_compute; reflexivity).
  rewrite E in Er. pose proof (f_equal (default (mkOverlap [] 0 0 false)) Er) as Hr. change (r = mkOverlap [0] 0x100000 0x114000 false) in Hr. by rewrite Hr.
Qed.

Lemma reached_table_witness : exists b, live run_first 0 b /\ covers b 66.
Proof.
  destruct (reached_table run_first run_first_reached) as (_ & _ & H & _). destruct (H 66) as (id & E & Hor); [by vm_compute|].
  assert (E' : load_page 66 (page_table run_first) = Some 0) by (vm_compute; reflexivity). rewrite E' in E. injection E as <-. destruct Hor as [[Hi _]|Hb]; [discriminate Hi|exact Hb].
Defined.

(** A range that begins in the buffer and ends behind it. *)
Lemma FindBuffer_exact_witness : exists id c' b, FindBuffer 0x10A000 0x8000 run_first = Some (id, c') /\ live c' id b /\ in_buffer (cpu_addr b) (size_bytes b) 0x10A000 0x8000 /\
  copies c' = [(0, 1, 0, 0xC000)].
Proof.
  destruct (FindBuffer_exact run_first 0x10A000 0x8000 run_first_reached request_second run_first_fits) as (id & c' & b & E & _ & Hl & Hin & _); [by vm_compute|].
  exists id, c', b. split; [exact E|]. split; [exact Hl|]. split; [exact Hin|].
  assert (E' : (copies ∘ snd) <$> FindBuffer 0x10A000 0x8000 run_first = Some [(0, 1, 0, 0xC000)]) by (vm_compute; reflexivity). rewrite E in E'. exact (f_equal (default []) E').
Defined.
