(* ===== verification/Psf.v ===== *)
(** * The parameter files of the guest

    The class [PSF] of src/src/core/file_format/psf.h and psf.cpp: a list of named parameters
    (the titles of games and of saved data) that is read from and written to a file. The
    big-endian fields are the class [SwappedEndian] of src/src/common/endian.h. A buffer is a
    list of bytes, a C string or a key the bytes before its terminator, and [None] is an
    assertion that fails, a missing entry of a map or an access out of the buffer. *)
From Stdlib Require Import ZArith Lia.
From Stdlib Require Import Strings.Byte Strings.String.
From stdpp Require Import base gmap list list_numbers strings.
From S2P Require Import Prelude.
From S2P Require Import Startup.

(** * The format *)

Definition PSF_MAGIC : Z := 0x00505346.
Definition PSF_VERSION_1_1 : Z := 0x00000101.
Definition PSF_VERSION_1_0 : Z := 0x00000100.

(** [sizeof(PSFHeader)] and [sizeof(PSFRawEntry)] *)
Definition PSFHeader_size : Z := 0x14.
Definition PSFRawEntry_size : Z := 0x10.

(** [enum class PSFEntryFmt : u16] *)
Definition Fmt_Binary : Z := 0x0004.
Definition Fmt_Text : Z := 0x0204.
Definition Fmt_Integer : Z := 0x0404.

(** [PSFHeader] *)
Record PSFHeader := mkPSFHeader {
  magic : Z;
  version : Z;
  key_table_offset : Z;
  data_table_offset : Z;
  index_table_entries : Z;
}.

(** [PSFRawEntry] *)
Record PSFRawEntry := mkPSFRawEntry {
  key_offset : Z;
  raw_fmt : Z;
  param_len : Z;
  param_max_len : Z;
  data_offset : Z;
}.

(** [SwappedEndian::Swap] at 32 bits: [std::byteswap]. *)
Definition byteswap32 (x : Z) : Z :=
  Z.lor (Z.lor (Z.shiftl (Z.land x 255) 24) (Z.shiftl (Z.land (Z.shiftr x 8) 255) 16))
        (Z.lor (Z.shiftl (Z.land (Z.shiftr x 16) 255) 8) (Z.land (Z.shiftr x 24) 255)).

(** [PSF::Entry] and the members of [PSF]; the time of the last write is left out. *)
Record Entry := mkEntry {
  key : list byte;
  param_fmt : Z;
  max_len : Z;
}.
Record PSF := mkPSF {
  entry_list : list Entry;
  map_binaries : gmap Z (list byte);
  map_strings : gmap Z (list byte);
  map_integers : gmap Z Z;
}.
#[export] Instance eta_Entry : Eta Entry := fun e => mkEntry (key e) (param_fmt e) (max_len e).
#[export] Instance upd_key : Upd key := ltac:(derive_upd Entry key).
#[export] Instance upd_param_fmt : Upd param_fmt := ltac:(derive_upd Entry param_fmt).
#[export] Instance upd_max_len : Upd max_len := ltac:(derive_upd Entry max_len).
#[export] Instance eta_PSF : Eta PSF := fun p => mkPSF (entry_list p) (map_binaries p) (map_strings p) (map_integers p).
#[export] Instance upd_entry_list : Upd entry_list := ltac:(derive_upd PSF entry_list).
#[export] Instance upd_map_binaries : Upd map_binaries := ltac:(derive_upd PSF map_binaries).
#[export] Instance upd_map_strings : Upd map_strings := ltac:(derive_upd PSF map_strings).
#[export] Instance upd_map_integers : Upd map_integers := ltac:(derive_upd PSF map_integers).

Definition no_parameters : PSF := mkPSF [] ∅ ∅ ∅.

(** [psf_known_max_sizes] and [get_max_size] *)
Definition psf_known_max_sizes : list (list byte * Z) :=
  [(list_byte_of_string "ACCOUNT_ID", 8); (list_byte_of_string "CATEGORY", 4);
   (list_byte_of_string "DETAIL", 1024); (list_byte_of_string "FORMAT", 4);
   (list_byte_of_string "MAINTITLE", 128); (list_byte_of_string "PARAMS", 1024);
   (list_byte_of_string "SAVEDATA_BLOCKS", 8); (list_byte_of_string "SAVEDATA_DIRECTORY", 32);
   (list_byte_of_string "SUBTITLE", 128); (list_byte_of_string "TITLE_ID", 12)].
Definition get_max_size (k : list byte) (default_value : Z) : Z :=
  match List.find (fun known => bool_decide (known.1 = k)) psf_known_max_sizes with
  | Some known => known.2
  | None => default_value
  end.

(** [unordered_map::emplace] *)
Definition emplace {A} (i : Z) (v : A) (m : gmap Z A) : gmap Z A :=
  match m !! i with Some _ => m | None => <[i := v]> m end.

(** * Reading a file *)

(** The constructor of [std::string] from a pointer: the bytes before the next zero. *)
Fixpoint c_string (l : list byte) : option (list byte) :=
  match l with
  | [] => None
  | b :: r => if bool_decide (b = x00) then Some [] else cons b <$> c_string r
  end.
Definition c_string_at (buf : list byte) (off : Z) : option (list byte) :=
  c_string (drop (Z.to_nat off) buf).

Definition read_header (psf_data : list byte) : option PSFHeader :=
  header ← slice psf_data 0 PSFHeader_size;
  magic ← read header 0 4;
  version ← read header 4 4;
  key_table_offset ← read header 8 4;
  data_table_offset ← read header 12 4;
  index_table_entries ← read header 16 4;
  Some (mkPSFHeader (byteswap32 magic) version key_table_offset data_table_offset index_table_entries).

Definition read_raw_entry (psf_data : list byte) (i : Z) : option PSFRawEntry :=
  raw ← slice psf_data (PSFHeader_size + i * PSFRawEntry_size) PSFRawEntry_size;
  key_offset ← read raw 0 2;
  param_fmt ← read raw 2 2;
  param_len ← read raw 4 4;
  param_max_len ← read raw 8 4;
  data_offset ← read raw 12 4;
  Some (mkPSFRawEntry key_offset param_fmt param_len param_max_len data_offset).

(** The body of the loop of [PSF::Open]. *)
Definition open_entry (psf_data : list byte) (header : PSFHeader) (p : PSF) (i : Z) : option PSF :=
  raw_entry ← read_raw_entry psf_data i;
  k ← c_string_at psf_data (key_table_offset header + key_offset raw_entry);
  let p := p <| entry_list ::= fun l => l ++ [mkEntry k (raw_fmt raw_entry) (param_max_len raw_entry)] |> in
  let data := data_table_offset header + data_offset raw_entry in
  if raw_fmt raw_entry =? Fmt_Binary then
    value ← slice psf_data data (param_len raw_entry);
    Some (p <| map_binaries ::= emplace i value |>)
  else if raw_fmt raw_entry =? Fmt_Text then
    c_str ← c_string_at psf_data data;
    Some (p <| map_strings ::= emplace i c_str |>)
  else if raw_fmt raw_entry =? Fmt_Integer then
    if negb (param_len raw_entry =? 4) then None else
    integer ← read psf_data data 4;
    Some (p <| map_integers ::= emplace i (s32 integer) |>)
  else None.

Fixpoint open_entries (psf_data : list byte) (header : PSFHeader) (i : Z) (count : nat) (p : PSF) : option PSF :=
  match count with
  | O => Some p
  | S n => p ← open_entry psf_data header p i; open_entries psf_data header (i + 1) n p
  end.

(** [PSF::Open] on a buffer; every member is cleared first. *)
Definition Open (psf_buffer : list byte) : option (bool * PSF) :=
  header ← read_header psf_buffer;
  if negb (magic header =? PSF_MAGIC) then Some (false, no_parameters) else
  if negb (version header =? PSF_VERSION_1_1) && negb (version header =? PSF_VERSION_1_0) then Some (false, no_parameters) else
  p ← open_entries psf_buffer header 0 (Z.to_nat (index_table_entries header)) no_parameters;
  Some (true, p).

(** * Writing a file *)

(** [vector::resize] *)
Definition resize (buf : list byte) (n : Z) : list byte :=
  take (Z.to_nat n) buf ++ filled (n - zlen buf) x00.

(** The place of [raw_entry] in the buffer. *)
Definition raw_at (i : Z) : Z := PSFHeader_size + PSFRawEntry_size * i.

(** The loop over the keys, from entry [i] on. *)
Fixpoint write_keys (kto : Z) (i : Z) (entries : list Entry) (buf : list byte) : option (list byte) :=
  match entries with
  | [] => Some buf
  | entry :: rest =>
      buf ← splice buf (raw_at i) (le_bytes 2 (wrap16 (zlen buf - kto)));
      buf ← splice buf (raw_at i + 2) (le_bytes 2 (param_fmt entry));
      buf ← splice buf (raw_at i + 8) (le_bytes 4 (max_len entry));
      write_keys kto (i + 1) rest (buf ++ key entry ++ [x00])
  end.

(** [fill_n] up to the next multiple of four. *)
Definition align4 (buf : list byte) : list byte :=
  if negb (zlen buf mod 4 =? 0) then buf ++ filled (4 - zlen buf mod 4) x00 else buf.

(** Copying a value of [len] bytes behind the buffer, and padding it to [max_len]. The signed
    difference must not overflow. *)
Definition put_value (i len max : Z) (bytes buf : list byte) : option (list byte) :=
  buf ← splice buf (raw_at i + 4) (le_bytes 4 (wrap32 len));
  let additional_padding := s32 max - s32 (wrap32 len) in
  if (2147483647 <? additional_padding) || (additional_padding <? -2147483648) then None else
  let buf := buf ++ bytes in
  if additional_padding <? 0 then None else Some (buf ++ filled additional_padding x00).

(** The loop over the values, from entry [i] on. *)
Fixpoint write_values (p : PSF) (dto : Z) (i : Z) (entries : list Entry) (buf : list byte) : option (list byte) :=
  match entries with
  | [] => Some buf
  | entry :: rest =>
      let buf := align4 buf in
      buf ← splice buf (raw_at i + 12) (le_bytes 4 (wrap32 (zlen buf - dto)));
      param_max_len ← read buf (raw_at i + 8) 4;
      buf ← (if param_fmt entry =? Fmt_Binary then
               value ← map_binaries p !! i; put_value i (zlen value) param_max_len value buf
             else if param_fmt entry =? Fmt_Text then
               value ← map_strings p !! i; put_value i (zlen value + 1) param_max_len (value ++ [x00]) buf
             else if param_fmt entry =? Fmt_Integer then
               value ← map_integers p !! i; put_value i 4 param_max_len (le_bytes 4 value) buf
             else None);
      write_values p dto (i + 1) rest buf
  end.

(** [PSF::Encode] into a buffer. *)
Definition EncodeInto (p : PSF) (psf_buffer : list byte) : option (list byte) :=
  let buf := resize psf_buffer (PSFHeader_size + PSFRawEntry_size * zlen (entry_list p)) in
  buf ← splice buf 0 (le_bytes 4 (byteswap32 PSF_MAGIC));
  buf ← splice buf 4 (le_bytes 4 PSF_VERSION_1_1);
  buf ← splice buf 16 (le_bytes 4 (wrap32 (zlen (entry_list p))));
  let key_table_offset := zlen buf in
  buf ← splice buf 8 (le_bytes 4 (wrap32 key_table_offset));
  buf ← write_keys key_table_offset 0 (entry_list p) buf;
  let data_table_offset := zlen buf in
  buf ← splice buf 12 (le_bytes 4 (wrap32 data_table_offset));
  write_values p data_table_offset 0 (entry_list p) buf.
Definition Encode (p : PSF) : option (list byte) := EncodeInto p [].

(** * The parameters *)

(** [PSF::FindEntry]: the index of the entry with this key, or the number of entries. *)
Fixpoint find_key (k : list byte) (l : list Entry) : Z :=
  match l with
  | [] => 0
  | e :: r => if bool_decide (key e = k) then 0 else 1 + find_key k r
  end.
Definition FindEntry (k : list byte) (p : PSF) : option Entry * Z :=
  let index := find_key k (entry_list p) in ((entry_list p).[index], index).

Definition get_as {A} (fmt : Z) (m : PSF -> gmap Z A) (k : list byte) (p : PSF) : option (option A) :=
  match FindEntry k p with
  | (None, _) => Some None
  | (Some it, index) => if negb (param_fmt it =? fmt) then None else v ← m p !! index; Some (Some v)
  end.
Definition GetBinary : list byte -> PSF -> option (option (list byte)) := get_as Fmt_Binary map_binaries.
Definition GetString : list byte -> PSF -> option (option (list byte)) := get_as Fmt_Text map_strings.
Definition GetInteger : list byte -> PSF -> option (option Z) := get_as Fmt_Integer map_integers.

(** What the three [Add] functions do: [at_] is [map.at(index) = value], which throws when the
    map has no such entry. *)
Definition at_ {A} (i : Z) (v : A) (m : gmap Z A) : option (gmap Z A) :=
  match m !! i with Some _ => Some (<[i := v]> m) | None => None end.
Definition set_max_len (i : Z) (n : Z) (l : list Entry) : list Entry :=
  alter (fun e => e <| max_len := n |>) (Z.to_nat i) l.

Definition AddBinary (k : list byte) (value : list byte) (update : bool) (p : PSF) : option PSF :=
  let '(it, index) := FindEntry k p in
  match it with
  | Some e =>
      if negb update then Some p else
      if negb (param_fmt e =? Fmt_Binary) then None else
      m ← at_ index value (map_binaries p);
      Some (p <| entry_list ::= set_max_len index (get_max_size k (wrap32 (zlen value))) |> <| map_binaries := m |>)
  | None =>
      let p := p <| entry_list ::= fun l => l ++ [mkEntry k Fmt_Binary (get_max_size k (wrap32 (zlen value)))] |> in
      Some (p <| map_binaries ::= emplace (zlen (entry_list p) - 1) value |>)
  end.
Definition AddBinary64 (k : list byte) (value : Z) (update : bool) (p : PSF) : option PSF :=
  AddBinary k (le_bytes 8 value) update p.
Definition AddString (k : list byte) (value : list byte) (update : bool) (p : PSF) : option PSF :=
  let '(it, index) := FindEntry k p in
  match it with
  | Some e =>
      if negb update then Some p else
      if negb (param_fmt e =? Fmt_Text) then None else
      m ← at_ index value (map_strings p);
      Some (p <| entry_list ::= set_max_len index (get_max_size k (wrap32 (zlen value + 1))) |> <| map_strings := m |>)
  | None =>
      let p := p <| entry_list ::= fun l => l ++ [mkEntry k Fmt_Text (get_max_size k (wrap32 (zlen value + 1)))] |> in
      Some (p <| map_strings ::= emplace (zlen (entry_list p) - 1) value |>)
  end.
Definition AddInteger (k : list byte) (value : Z) (update : bool) (p : PSF) : option PSF :=
  let '(it, index) := FindEntry k p in
  match it with
  | Some e =>
      if negb update then Some p else
      if negb (param_fmt e =? Fmt_Integer) then None else
      m ← at_ index value (map_integers p);
      Some (p <| entry_list ::= set_max_len index 4 |> <| map_integers := m |>)
  | None =>
      let p := p <| entry_list ::= fun l => l ++ [mkEntry k Fmt_Integer 4] |> in
      Some (p <| map_integers ::= emplace (zlen (entry_list p) - 1) value |>)
  end.

(** * What a file looks like

    [has l off s]: the bytes [s] lie at [off] in [l]. *)
Definition has (l : list byte) (off : Z) (s : list byte) : Prop := exists a b, l = a ++ s ++ b /\ zlen a = off.

Definition raw_bytes (ko fmt len max off : Z) : list byte :=
  le_bytes 2 ko ++ le_bytes 2 fmt ++ le_bytes 4 len ++ le_bytes 4 max ++ le_bytes 4 off.

(** The bytes of a value, a text with its terminator. *)
Definition value_bytes (p : PSF) (i : Z) (e : Entry) : option (list byte) :=
  if param_fmt e =? Fmt_Binary then map_binaries p !! i
  else if param_fmt e =? Fmt_Text then (fun s => s ++ [x00]) <$> map_strings p !! i
  else if param_fmt e =? Fmt_Integer then le_bytes 4 <$> map_integers p !! i
  else None.
Definition stored (p : PSF) (i : Z) (e : Entry) : list byte := default [] (value_bytes p i e).

(** The first multiple of four from [n] on. *)
Definition up4 (n : Z) : Z := n + (- n) mod 4.
(** The end of a value that begins at [pos]. *)
Definition value_end (pos : Z) (e : Entry) : Z := up4 pos + max_len e.

Fixpoint key_table (l : list Entry) : list byte :=
  match l with [] => [] | e :: r => key e ++ x00 :: key_table r end.
Fixpoint data_table (p : PSF) (i pos : Z) (l : list Entry) : list byte :=
  match l with
  | [] => []
  | e :: r =>
      filled (up4 pos - pos) x00 ++ (stored p i e ++ filled (max_len e - zlen (stored p i e)) x00) ++
      data_table p (i + 1) (value_end pos e) r
  end.
(** The raw entries after the keys are written, and at the end. *)
Fixpoint keyed (ko : Z) (l : list Entry) : list byte :=
  match l with
  | [] => []
  | e :: r => raw_bytes (wrap16 ko) (param_fmt e) 0 (max_len e) 0 ++ keyed (ko + zlen (key e) + 1) r
  end.
Fixpoint raw_table (p : PSF) (dto ko i pos : Z) (l : list Entry) : list byte :=
  match l with
  | [] => []
  | e :: r =>
      raw_bytes (wrap16 ko) (param_fmt e) (wrap32 (zlen (stored p i e))) (max_len e) (wrap32 (up4 pos - dto)) ++
      raw_table p dto (ko + zlen (key e) + 1) (i + 1) (value_end pos e) r
  end.
Definition header_fields (m v k d n : Z) : list byte := le_bytes 4 m ++ le_bytes 4 v ++ le_bytes 4 k ++ le_bytes 4 d ++ le_bytes 4 n.
Definition header_bytes (kto dto n : Z) : list byte := header_fields (byteswap32 PSF_MAGIC) PSF_VERSION_1_1 kto dto n.

(** The places of the tables, and the whole file. *)
Definition key_place (p : PSF) : Z := raw_at (zlen (entry_list p)).
Definition data_place (p : PSF) : Z := key_place p + zlen (key_table (entry_list p)).
Definition layout (p : PSF) : list byte :=
  header_bytes (wrap32 (key_place p)) (wrap32 (data_place p)) (wrap32 (zlen (entry_list p))) ++
  raw_table p (data_place p) 0 0 (data_place p) (entry_list p) ++ key_table (entry_list p) ++
  data_table p 0 (data_place p) (entry_list p).

(** The parameters that fit their entries. *)
Definition fits (p : PSF) (i : Z) (e : Entry) : Prop := zlen (stored p i e) <= max_len e.

Definition text_ok (s : list byte) : Prop := ~ (x00 ∈ s).
Definition known_fmt (fmt : Z) : Prop := fmt = Fmt_Binary \/ fmt = Fmt_Text \/ fmt = Fmt_Integer.

(** Every entry has one value, in the map of its format. *)
Record psf_ok (p : PSF) : Prop := {
  po_entry : forall i e, (entry_list p).[i] = Some e ->
    text_ok (key e) /\ known_fmt (param_fmt e) /\ 0 <= max_len e <= U32_MAX;
  po_binary : forall i, is_Some (map_binaries p !! i) <-> (exists e, (entry_list p).[i] = Some e /\ param_fmt e = Fmt_Binary);
  po_text : forall i, is_Some (map_strings p !! i) <-> (exists e, (entry_list p).[i] = Some e /\ param_fmt e = Fmt_Text);
  po_integer : forall i, is_Some (map_integers p !! i) <-> (exists e, (entry_list p).[i] = Some e /\ param_fmt e = Fmt_Integer);
  po_texts : forall i s, map_strings p !! i = Some s -> text_ok s;
  po_integers : forall i n, map_integers p !! i = Some n -> -2147483648 <= n <= 2147483647;
}.

(** ** Lemmas on buffers *)

Lemma splice_mid {A} (a x b y : list A) off :
  zlen a = off -> zlen y = zlen x -> splice (a ++ x ++ b) off y = Some (a ++ y ++ b).
Proof.
  intros Ha Hy. pose proof (zlen_nonneg b). unfold splice. rewrite decide_True.
  2: { rewrite !zlen_app. pose proof (zlen_nonneg a). lia. }
  unfold zlen in *. f_equal. f_equal; [by rewrite take_app_length' by lia|]. f_equal.
  rewrite app_assoc. rewrite drop_app_length'; [done|]. rewrite length_app. lia.
Qed.

Lemma filled_app {A} n m (x : A) : 0 <= n -> 0 <= m -> filled (n + m) x = filled n x ++ filled m x.
Proof. intros ??. unfold filled. rewrite Z2Nat.inj_add by done. apply replicate_add. Qed.

Lemma has_app l off a b : has l off (a ++ b) <-> has l off a /\ has l (off + zlen a) b.
Proof.
  split.
  - intros (x & y & -> & <-). split.
    + exists x, (b ++ y). by rewrite <- !app_assoc.
    + exists (x ++ a), y. rewrite <- !app_assoc, zlen_app. done.
  - intros [(x & y & Hx & Hxl) (x' & y' & Hx' & Hxl')]. exists x, y'. split; [|done].
    rewrite Hx' in Hx. rewrite (app_assoc x a y) in Hx. replace (x ++ (a ++ b) ++ y') with ((x ++ a) ++ b ++ y') by (by rewrite <- !app_assoc).
    rewrite Hx'. f_equal. apply app_inj_1 in Hx as [Hx _]; [exact Hx|]. rewrite length_app. unfold zlen in *. lia.
Qed.

Lemma has_refl s b : has (s ++ b) 0 s.
Proof. by exists [], b. Qed.
Lemma has_all s : has s 0 s.
Proof. exists [], []. by rewrite app_nil_r. Qed.

Lemma has_bounds l off s : has l off s -> 0 <= off /\ off + zlen s <= zlen l.
Proof. intros (a & b & -> & <-). rewrite !zlen_app. pose proof (zlen_nonneg a). pose proof (zlen_nonneg b). lia. Qed.

Lemma has_drop l off s : has l off s -> exists t, drop (Z.to_nat off) l = s ++ t.
Proof. intros (a & b & -> & <-). exists b. unfold zlen. rewrite Nat2Z.id. by rewrite drop_app_length. Qed.

Lemma has_slice l off n s : has l off s -> n = zlen s -> slice l off n = Some s.
Proof.
  intros Hs ->. pose proof (has_bounds l off s Hs) as [??]. pose proof (zlen_nonneg s). unfold slice. rewrite decide_True by lia.
  destruct (has_drop l off s Hs) as [t ->]. f_equal. unfold zlen. rewrite Nat2Z.id. apply take_app_length.
Qed.

Lemma has_region l off s : has l off s -> region l off s.
Proof.
  intros (a & b & -> & <-) j Hj. pose proof (zlen_nonneg a). rewrite at_app_r by lia. by rewrite at_app_l by lia.
Qed.

Lemma has_read l off n v : has l off (le_bytes (Z.of_nat n) v) -> 0 <= v < 2 ^ (8 * Z.of_nat n) -> zlen l <= U64_MAX -> read l off n = Some v.
Proof.
  intros Hh Hv Hl. pose proof (has_bounds _ _ _ Hh) as [H0 Hb]. rewrite zlen_le_bytes in Hb by lia.
  apply region_read; [done|lia|done|by apply has_region].
Qed.

Lemma c_string_text s t : text_ok s -> c_string (s ++ x00 :: t) = Some s.
Proof.
  intros Hs. induction s as [|b s IH]; cbn; [done|]. unfold text_ok in Hs. rewrite elem_of_cons in Hs.
  rewrite bool_decide_false by (intros ->; tauto). rewrite IH by (intros ?; tauto). done.
Qed.

Lemma has_c_string l off s : has l off (s ++ [x00]) -> text_ok s -> c_string_at l off = Some s.
Proof.
  intros Hh Hs. unfold c_string_at. destruct (has_drop _ _ _ Hh) as [t ->]. rewrite <- app_assoc. by apply c_string_text.
Qed.

Lemma up4_spec n : 0 <= n -> up4 n = if negb (n mod 4 =? 0) then n + (4 - n mod 4) else n.
Proof.
  intros Hn. unfold up4. pose proof (Z.mod_pos_bound n 4 eq_refl).
  destruct (Z.eqb_spec (n mod 4) 0) as [E|E]; cbn [negb].
  - rewrite Z.mod_opp_l_z by done. lia.
  - rewrite Z.mod_opp_l_nz by done. lia.
Qed.
Lemma up4_bounds n : n <= up4 n < n + 4.
Proof. unfold up4. pose proof (Z.mod_pos_bound (- n) 4 eq_refl). lia. Qed.

Lemma align4_spec buf : align4 buf = buf ++ filled (up4 (zlen buf) - zlen buf) x00.
Proof.
  unfold align4. rewrite up4_spec by apply zlen_nonneg. destruct (negb _).
  - do 2 f_equal. lia.
  - rewrite Z.sub_diag. by rewrite app_nil_r.
Qed.

Lemma zlen_raw_bytes ko fmt len max off : zlen (raw_bytes ko fmt len max off) = 16.
Proof. unfold raw_bytes. by rewrite !zlen_app, !zlen_le_bytes by lia. Qed.
Lemma zlen_cons {A} (x : A) l : zlen (x :: l) = 1 + zlen l.
Proof. unfold zlen. cbn [length]. lia. Qed.
Lemma zlen_nil {A} : zlen (@nil A) = 0.
Proof. done. Qed.

(** ** What [Encode] writes *)

(** Overwriting one field of a raw entry. *)
Lemma put_field {A} (pre a x b tl y : list A) off :
  zlen pre + zlen a = off -> zlen y = zlen x ->
  splice (pre ++ (a ++ x ++ b) ++ tl) off y = Some (pre ++ (a ++ y ++ b) ++ tl).
Proof.
  intros Ho Hy. replace (pre ++ (a ++ x ++ b) ++ tl) with ((pre ++ a) ++ x ++ (b ++ tl)) by (by rewrite <- !app_assoc).
  rewrite (splice_mid _ _ _ y) by (rewrite ?zlen_app; lia). by rewrite <- !app_assoc.
Qed.

Lemma put_key_offset pre tl ko fmt len max off v i :
  zlen pre = raw_at i -> splice (pre ++ raw_bytes ko fmt len max off ++ tl) (raw_at i) (le_bytes 2 v) = Some (pre ++ raw_bytes v fmt len max off ++ tl).
Proof. intros Hp. apply (put_field pre [] (le_bytes 2 ko)); [rewrite zlen_nil; lia|by rewrite !zlen_le_bytes by lia]. Qed.
Lemma put_fmt pre tl ko fmt len max off v i :
  zlen pre = raw_at i -> splice (pre ++ raw_bytes ko fmt len max off ++ tl) (raw_at i + 2) (le_bytes 2 v) = Some (pre ++ raw_bytes ko v len max off ++ tl).
Proof. intros Hp. apply (put_field pre (le_bytes 2 ko) (le_bytes 2 fmt)); rewrite !zlen_le_bytes by lia; lia. Qed.
Lemma put_len pre tl ko fmt len max off v i :
  zlen pre = raw_at i -> splice (pre ++ raw_bytes ko fmt len max off ++ tl) (raw_at i + 4) (le_bytes 4 v) = Some (pre ++ raw_bytes ko fmt v max off ++ tl).
Proof.
  intros Hp. unfold raw_bytes. rewrite (app_assoc (le_bytes 2 ko) (le_bytes 2 fmt)).
  rewrite (put_field pre (le_bytes 2 ko ++ le_bytes 2 fmt) (le_bytes 4 len)) by (rewrite ?zlen_app, !zlen_le_bytes by lia; lia).
  by rewrite <- !app_assoc.
Qed.
Lemma put_max pre tl ko fmt len max off v i :
  zlen pre = raw_at i -> splice (pre ++ raw_bytes ko fmt len max off ++ tl) (raw_at i + 8) (le_bytes 4 v) = Some (pre ++ raw_bytes ko fmt len v off ++ tl).
Proof.
  intros Hp. unfold raw_bytes. rewrite (app_assoc (le_bytes 2 fmt)), (app_assoc (le_bytes 2 ko)).
  rewrite (put_field pre (le_bytes 2 ko ++ le_bytes 2 fmt ++ le_bytes 4 len) (le_bytes 4 max)) by (rewrite ?zlen_app, !zlen_le_bytes by lia; lia).
  by rewrite <- !app_assoc.
Qed.
Lemma put_offset pre tl ko fmt len max off v i :
  zlen pre = raw_at i -> splice (pre ++ raw_bytes ko fmt len max off ++ tl) (raw_at i + 12) (le_bytes 4 v) = Some (pre ++ raw_bytes ko fmt len max v ++ tl).
Proof.
  intros Hp. unfold raw_bytes. rewrite (app_assoc (le_bytes 4 len)), (app_assoc (le_bytes 2 fmt)), (app_assoc (le_bytes 2 ko)).
  rewrite <- (app_nil_r (le_bytes 4 off)).
  rewrite (put_field pre (le_bytes 2 ko ++ le_bytes 2 fmt ++ le_bytes 4 len ++ le_bytes 4 max) (le_bytes 4 off)) by (rewrite ?zlen_app, !zlen_le_bytes by lia; lia).
  by rewrite app_nil_r, <- !app_assoc.
Qed.
Lemma read_max pre tl ko fmt len max off i :
  zlen pre = raw_at i -> 0 <= max <= U32_MAX -> zlen (pre ++ raw_bytes ko fmt len max off ++ tl) <= U64_MAX ->
  read (pre ++ raw_bytes ko fmt len max off ++ tl) (raw_at i + 8) 4 = Some max.
Proof.
  intros Hp Hm Hl. apply has_read; [|u64_lia|done]. exists (pre ++ le_bytes 2 ko ++ le_bytes 2 fmt ++ le_bytes 4 len), (le_bytes 4 off ++ tl).
  unfold raw_bytes. rewrite !zlen_app, !zlen_le_bytes by lia. split; [by rewrite <- !app_assoc|lia].
Qed.

Lemma raw_at_next i : raw_at (i + 1) = raw_at i + 16.
Proof. unfold raw_at, PSFRawEntry_size. lia. Qed.

Lemma write_keys_spec rest : forall kto i pre tl,
  zlen pre = raw_at i -> kto = zlen pre + 16 * zlen rest ->
  write_keys kto i rest (pre ++ filled (16 * zlen rest) x00 ++ tl) = Some (pre ++ keyed (zlen tl) rest ++ tl ++ key_table rest).
Proof.
  induction rest as [|e rest IH]; intros kto i pre tl Hpre Hk; cbn [write_keys keyed key_table].
  { rewrite Z.mul_0_r. change (filled 0 x00) with (@nil byte). by rewrite !app_nil_r. }
  rewrite zlen_cons in *. pose proof (zlen_nonneg rest) as Hr0.
  replace (16 * (1 + zlen rest)) with (16 + 16 * zlen rest) by lia. rewrite filled_app by lia.
  change (filled 16 x00) with (raw_bytes 0 0 0 0 0). rewrite <- (app_assoc (raw_bytes 0 0 0 0 0)).
  set (R := filled (16 * zlen rest) x00 ++ tl).
  assert (Hsz : zlen (pre ++ raw_bytes 0 0 0 0 0 ++ R) - kto = zlen tl).
  { unfold R. rewrite !zlen_app, zlen_raw_bytes, zlen_filled by lia. lia. }
  rewrite Hsz, put_key_offset by done. cbn [mbind option_bind].
  rewrite put_fmt by done. cbn [mbind option_bind]. rewrite put_max by done. cbn [mbind option_bind].
  unfold R. set (h := raw_bytes (wrap16 (zlen tl)) (param_fmt e) 0 (max_len e) 0).
  replace ((pre ++ h ++ filled (16 * zlen rest) x00 ++ tl) ++ key e ++ [x00])
    with ((pre ++ h) ++ filled (16 * zlen rest) x00 ++ (tl ++ key e ++ [x00])) by (by rewrite <- !app_assoc).
  assert (Hh : zlen h = 16) by apply zlen_raw_bytes.
  rewrite IH; [|rewrite zlen_app, Hh, raw_at_next; lia|rewrite zlen_app, Hh; lia].
  f_equal. rewrite !zlen_app, zlen_cons, zlen_nil. replace (zlen tl + (zlen (key e) + (1 + 0))) with (zlen tl + zlen (key e) + 1) by lia.
  by rewrite <- !app_assoc.
Qed.

Lemma stored_spec p i e (buf : list byte) :
  psf_ok p -> (entry_list p).[i] = Some e -> exists s, value_bytes p i e = Some s /\ stored p i e = s /\
  (if param_fmt e =? Fmt_Binary then
     value ← map_binaries p !! i; put_value i (zlen value) (max_len e) value buf
   else if param_fmt e =? Fmt_Text then
     value ← map_strings p !! i; put_value i (zlen value + 1) (max_len e) (value ++ [x00]) buf
   else if param_fmt e =? Fmt_Integer then
     value ← map_integers p !! i; put_value i 4 (max_len e) (le_bytes 4 value) buf
   else None) = put_value i (zlen s) (max_len e) s buf.
Proof.
  intros Hok He. destruct (po_entry p Hok i e He) as (_ & Hf & _). unfold stored, value_bytes.
  destruct Hf as [E|[E|E]]; rewrite E; cbn [Z.eqb Fmt_Binary Fmt_Text Fmt_Integer Pos.eqb].
  - destruct (proj2 (po_binary p Hok i) (ex_intro _ e (conj He E))) as [v ->]. by exists v.
  - destruct (proj2 (po_text p Hok i) (ex_intro _ e (conj He E))) as [v ->]. exists (v ++ [x00]). cbn. repeat split.
    by rewrite zlen_app.
  - destruct (proj2 (po_integer p Hok i) (ex_intro _ e (conj He E))) as [v ->]. exists (le_bytes 4 v). cbn. repeat split.
Qed.

(** Writing one value: it succeeds exactly when the value fits. *)
Lemma put_value_spec pre tl ko fmt max off i s :
  zlen pre = raw_at i -> 0 <= max <= 2147483647 -> zlen s <= 2147483647 ->
  put_value i (zlen s) max s (pre ++ raw_bytes ko fmt 0 max off ++ tl) =
  if zlen s <=? max then Some (pre ++ raw_bytes ko fmt (wrap32 (zlen s)) max off ++ tl ++ s ++ filled (max - zlen s) x00) else None.
Proof.
  intros Hp Hm Hs. pose proof (zlen_nonneg s) as Hs0. unfold put_value. rewrite put_len by done. cbn [mbind option_bind].
  assert (Hw : wrap32 (zlen s) = zlen s) by (apply wrap32_small; u64_lia). rewrite Hw, !s32_small by lia.
  destruct (Z.ltb_spec 2147483647 (max - zlen s)); [lia|]. destruct (Z.ltb_spec (max - zlen s) (-2147483648)); [lia|]. cbn [orb].
  destruct (Z.leb_spec (zlen s) max); destruct (Z.ltb_spec (max - zlen s) 0); try lia; [|done].
  by rewrite <- !app_assoc.
Qed.

Fixpoint all_fit (p : PSF) (i : Z) (l : list Entry) : bool :=
  match l with [] => true | e :: r => (zlen (stored p i e) <=? max_len e) && all_fit p (i + 1) r end.
(** Where the last value ends. *)
Fixpoint data_end (pos : Z) (l : list Entry) : Z :=
  match l with [] => pos | e :: r => data_end (value_end pos e) r end.

(** The sizes of the values are in the range of an [int], and the file in that of [u64]. *)
Definition sizes_ok (p : PSF) : Prop :=
  (forall i e, (entry_list p).[i] = Some e -> max_len e <= 2147483647 /\ zlen (stored p i e) <= 2147483647) /\
  data_end (data_place p) (entry_list p) <= U64_MAX.

(** [rest] are the entries of [p] from [i] on. *)
Definition entries_from (p : PSF) (i : Z) (rest : list Entry) : Prop :=
  0 <= i /\ forall j, 0 <= j -> rest.[j] = (entry_list p).[i + j].

Lemma at_head {A} (x : A) l : (x :: l).[0] = Some x.
Proof. done. Qed.
Lemma at_tail {A} (x : A) l j : 0 <= j -> (x :: l).[1 + j] = l.[j].
Proof.
  intros Hj. unfold at_index. rewrite !decide_True by lia. by replace (Z.to_nat (1 + j)) with (S (Z.to_nat j)) by lia.
Qed.

Lemma entries_cons p i e rest : entries_from p i (e :: rest) -> (entry_list p).[i] = Some e /\ entries_from p (i + 1) rest.
Proof.
  intros [Hi H]. split; [by rewrite <- (Z.add_0_r i), <- (H 0)|]. split; [lia|]. intros j Hj.
  rewrite <- at_tail with (x := e) by done. rewrite H by lia. f_equal. lia.
Qed.

Lemma data_end_le l : forall pos, Forall (fun e => 0 <= max_len e) l -> pos <= data_end pos l.
Proof.
  induction l as [|e r IH]; intros pos Hl; cbn; [lia|]. apply Forall_cons in Hl as [He Hr]. pose proof (IH (value_end pos e) Hr).
  pose proof (up4_bounds pos). unfold value_end in *. lia.
Qed.

Lemma entries_max p i rest : psf_ok p -> entries_from p i rest -> Forall (fun e => 0 <= max_len e) rest.
Proof.
  intros Hok. revert i. induction rest as [|e rest IH]; intros i Hf; [constructor|]. apply entries_cons in Hf as [He Hf].
  constructor; [|by eapply IH]. destruct (po_entry p Hok i e He) as (_ & _ & ?). lia.
Qed.

Lemma zlen_keyed l : forall ko, zlen (keyed ko l) = 16 * zlen l.
Proof.
  induction l as [|e r IH]; intros ko; cbn [keyed]; [done|]. rewrite zlen_app, IH, zlen_raw_bytes, zlen_cons. lia.
Qed.
Lemma zlen_raw_table p dto l : forall ko i pos, zlen (raw_table p dto ko i pos l) = 16 * zlen l.
Proof.
  induction l as [|e r IH]; intros ko i pos; cbn [raw_table]; [done|]. rewrite zlen_app, IH, zlen_raw_bytes, zlen_cons. lia.
Qed.
Lemma zlen_data_table p l : forall i pos, psf_ok p -> entries_from p i l -> all_fit p i l = true ->
  zlen (data_table p i pos l) = data_end pos l - pos.
Proof.
  induction l as [|e r IH]; intros i pos Hok Hf Ha; cbn [data_table data_end all_fit] in *; [rewrite zlen_nil; lia|].
  apply andb_prop in Ha as [Hv Ha]. apply Z.leb_le in Hv. apply entries_cons in Hf as [He Hf].
  pose proof (up4_bounds pos). pose proof (zlen_nonneg (stored p i e)).
  rewrite !zlen_app, IH, !zlen_filled by (done || lia). unfold value_end. lia.
Qed.

Lemma write_values_spec p dto rest : psf_ok p -> sizes_ok p -> forall i ko pre tl,
  zlen pre = raw_at i -> entries_from p i rest ->
  let pos := zlen pre + 16 * zlen rest + zlen tl in
  data_end pos rest <= U64_MAX ->
  write_values p dto i rest (pre ++ keyed ko rest ++ tl) =
  if all_fit p i rest then Some (pre ++ raw_table p dto ko i pos rest ++ tl ++ data_table p i pos rest) else None.
Proof.
  intros Hok [Hsz _]. induction rest as [|e rest IH]; intros i ko pre tl Hpre Hf pos Hend; cbn [write_values keyed raw_table data_table all_fit].
  { by rewrite !app_nil_r. }
  pose proof (entries_max p i _ Hok Hf) as Hmax. apply Forall_cons in Hmax as [_ Hmax].
  apply entries_cons in Hf as [He Hf]. destruct (po_entry p Hok i e He) as (_ & _ & Hm). destruct (Hsz i e He) as [Hm2 Hs2].
  pose proof (up4_bounds pos) as Hup. cbn [data_end] in Hend. pose proof (data_end_le rest (value_end pos e) Hmax) as Hle.
  assert (Hlen : forall h, zlen h = 16 -> zlen (pre ++ (h ++ keyed (ko + zlen (key e) + 1) rest) ++ tl) = pos).
  { intros h Hh. unfold pos. rewrite zlen_cons, !zlen_app, zlen_keyed. lia. }
  rewrite align4_spec, Hlen by apply zlen_raw_bytes.
  set (h := raw_bytes (wrap16 ko) (param_fmt e) 0 (max_len e) 0). set (ks := keyed (ko + zlen (key e) + 1) rest).
  set (pad := filled (up4 pos - pos) x00).
  replace ((pre ++ (h ++ ks) ++ tl) ++ pad) with (pre ++ h ++ (ks ++ tl ++ pad)) by (by rewrite <- !app_assoc).
  assert (Hpad : forall h, zlen h = 16 -> zlen (pre ++ h ++ ks ++ tl ++ pad) = up4 pos).
  { intros h' Hh'. replace (pre ++ h' ++ ks ++ tl ++ pad) with ((pre ++ (h' ++ ks) ++ tl) ++ pad) by (by rewrite <- !app_assoc).
    unfold ks. rewrite zlen_app, (Hlen h') by done. unfold pad. rewrite zlen_filled by lia. lia. }
  rewrite Hpad by apply zlen_raw_bytes. unfold h. rewrite put_offset by done. cbn [mbind option_bind].
  assert (up4 pos <= value_end pos e) by (unfold value_end; lia).
  rewrite read_max; [|done|done|rewrite Hpad by apply zlen_raw_bytes; lia]. cbn [mbind option_bind].
  destruct (stored_spec p i e (pre ++ raw_bytes (wrap16 ko) (param_fmt e) 0 (max_len e) (wrap32 (up4 pos - dto)) ++ ks ++ tl ++ pad) Hok He) as (s & Hv & Hst & ->).
  rewrite Hst in *. rewrite put_value_spec by (done || lia).
  destruct (Z.leb_spec (zlen s) (max_len e)) as [Hfit|]; cbn [mbind option_bind andb]; [|done].
  set (h' := raw_bytes (wrap16 ko) (param_fmt e) (wrap32 (zlen s)) (max_len e) (wrap32 (up4 pos - dto))).
  set (v := s ++ filled (max_len e - zlen s) x00).
  replace (pre ++ h' ++ (ks ++ tl ++ pad) ++ v) with ((pre ++ h') ++ ks ++ (tl ++ pad ++ v)) by (by rewrite <- !app_assoc).
  assert (Hh' : zlen h' = 16) by apply zlen_raw_bytes.
  assert (Hpos : zlen (pre ++ h') + 16 * zlen rest + zlen (tl ++ pad ++ v) = value_end pos e).
  { unfold value_end, v, pad. rewrite !zlen_app, Hh', !zlen_filled by lia. unfold pos in *. rewrite zlen_cons in *. lia. }
  unfold ks. rewrite IH; [|rewrite zlen_app, raw_at_next; lia|done|by rewrite Hpos].
  rewrite Hpos. destruct (all_fit p (i + 1) rest); [|done]. f_equal. by rewrite <- !app_assoc.
Qed.

(** Overwriting one field of the header. *)
Lemma put_first {A} (a x b R y : list A) off : zlen a = off -> zlen y = zlen x -> splice ((a ++ x ++ b) ++ R) off y = Some ((a ++ y ++ b) ++ R).
Proof. intros Ha Hy. rewrite <- !app_assoc. by apply splice_mid. Qed.
Lemma put_magic m v k d n R x : splice (header_fields m v k d n ++ R) 0 (le_bytes 4 x) = Some (header_fields x v k d n ++ R).
Proof. apply (put_first [] (le_bytes 4 m)); [reflexivity|by rewrite !zlen_le_bytes by lia]. Qed.
Lemma put_version m v k d n R x : splice (header_fields m v k d n ++ R) 4 (le_bytes 4 x) = Some (header_fields m x k d n ++ R).
Proof. apply (put_first (le_bytes 4 m) (le_bytes 4 v)); by rewrite !zlen_le_bytes by lia. Qed.
Lemma header_assoc m v k d n : header_fields m v k d n = (le_bytes 4 m ++ le_bytes 4 v) ++ le_bytes 4 k ++ (le_bytes 4 d ++ le_bytes 4 n).
Proof. unfold header_fields. by rewrite <- !app_assoc. Qed.
Lemma header_assoc3 m v k d n : header_fields m v k d n = (le_bytes 4 m ++ le_bytes 4 v ++ le_bytes 4 k) ++ le_bytes 4 d ++ le_bytes 4 n.
Proof. unfold header_fields. by rewrite <- !app_assoc. Qed.
Lemma header_assoc4 m v k d n : header_fields m v k d n = (le_bytes 4 m ++ le_bytes 4 v ++ le_bytes 4 k ++ le_bytes 4 d) ++ le_bytes 4 n ++ [].
Proof. unfold header_fields. by rewrite app_nil_r, <- !app_assoc. Qed.
Lemma put_keys m v k d n R x : splice (header_fields m v k d n ++ R) 8 (le_bytes 4 x) = Some (header_fields m v x d n ++ R).
Proof. rewrite !header_assoc. apply (put_first (le_bytes 4 m ++ le_bytes 4 v) (le_bytes 4 k)); by rewrite ?zlen_app, !zlen_le_bytes by lia. Qed.
Lemma put_data m v k d n R x : splice (header_fields m v k d n ++ R) 12 (le_bytes 4 x) = Some (header_fields m v k x n ++ R).
Proof. rewrite !header_assoc3. rewrite (put_first _ _ _ R (le_bytes 4 x) 12); [reflexivity|rewrite !zlen_app, !zlen_le_bytes by lia; lia|rewrite !zlen_le_bytes by lia; lia]. Qed.
Lemma put_count m v k d n R x : splice (header_fields m v k d n ++ R) 16 (le_bytes 4 x) = Some (header_fields m v k d x ++ R).
Proof. rewrite !header_assoc4. rewrite (put_first _ _ _ R (le_bytes 4 x) 16); [reflexivity|rewrite !zlen_app, !zlen_le_bytes by lia; lia|rewrite !zlen_le_bytes by lia; lia]. Qed.
Lemma zlen_header m v k d n : zlen (header_fields m v k d n) = 20.
Proof. unfold header_fields. by rewrite !zlen_app, !zlen_le_bytes by lia. Qed.

Lemma new_buffer n : 0 <= n -> resize [] (PSFHeader_size + PSFRawEntry_size * n) = header_fields 0 0 0 0 0 ++ filled (16 * n) x00.
Proof.
  intros Hn. unfold resize, PSFHeader_size, PSFRawEntry_size. rewrite take_nil, zlen_nil, Z.sub_0_r. by rewrite filled_app by lia.
Qed.

Lemma Encode_spec p : psf_ok p -> sizes_ok p -> Encode p = if all_fit p 0 (entry_list p) then Some (layout p) else None.
Proof.
  intros Hok Hsz. unfold Encode, EncodeInto. pose proof (zlen_nonneg (entry_list p)) as Hl. rewrite new_buffer by done.
  set (l := entry_list p) in *. set (R := filled (16 * zlen l) x00).
  rewrite put_magic. cbn [mbind option_bind]. rewrite put_version. cbn [mbind option_bind]. rewrite put_count. cbn [mbind option_bind].
  assert (HR : zlen R = 16 * zlen l) by (apply zlen_filled; lia).
  assert (Hplace : key_place p = 20 + 16 * zlen l) by (unfold key_place, raw_at, PSFHeader_size, PSFRawEntry_size; fold l; lia).
  rewrite zlen_app, zlen_header, HR, <- Hplace. rewrite put_keys. cbn [mbind option_bind].
  set (h := fun d => header_fields (byteswap32 PSF_MAGIC) PSF_VERSION_1_1 (wrap32 (key_place p)) d (wrap32 (zlen l))).
  change (header_fields _ _ _ 0 _) with (h 0). assert (Hh : forall d, zlen (h d) = raw_at 0) by (intros d; unfold h; by rewrite zlen_header).
  rewrite <- (app_nil_r R). unfold R. rewrite write_keys_spec; [|apply Hh|rewrite Hh; unfold raw_at, PSFHeader_size, PSFRawEntry_size in *; lia].
  cbn [mbind option_bind app]. change (zlen []) with 0.
  assert (Hdp : data_place p = raw_at 0 + 16 * zlen l + zlen (key_table l)).
  { unfold data_place. fold l. rewrite Hplace. unfold raw_at, PSFHeader_size, PSFRawEntry_size. lia. }
  assert (Hdata : zlen (h 0 ++ keyed 0 l ++ key_table l) = data_place p) by (rewrite zlen_app, Hh, zlen_app, zlen_keyed; lia).
  rewrite Hdata.
  unfold h at 1. rewrite put_data. cbn [mbind option_bind]. change (header_fields _ _ _ _ _) with (h (wrap32 (data_place p))).
  assert (Hpos : zlen (h (wrap32 (data_place p))) + 16 * zlen l + zlen (key_table l) = data_place p).
  { rewrite Hh. lia. }
  rewrite (write_values_spec p (data_place p) l Hok Hsz 0 0); [|apply Hh|split; [done|]; intros; by rewrite Z.add_0_l|rewrite Hpos; apply Hsz].
  by rewrite Hpos.
Qed.

(** ** What [Open] reads *)

(** The offsets of the file fit the fields that hold them. *)
Definition file_small (p : PSF) : Prop :=
  zlen (key_table (entry_list p)) <= 65536 /\ data_end (data_place p) (entry_list p) <= U32_MAX.

(** The places of the fields. *)
Ltac places H :=
  change (0 + 2) with 2 in H; change (0 + 4) with 4 in H; change (2 + 2) with 4 in H;
  change (4 + 4) with 8 in H; change (8 + 4) with 12 in H; change (12 + 4) with 16 in H.

Lemma read_raw_spec buf i ko fmt len max off :
  has buf (raw_at i) (raw_bytes ko fmt len max off) -> 0 <= ko <= U16_MAX -> 0 <= fmt <= U16_MAX ->
  0 <= len <= U32_MAX -> 0 <= max <= U32_MAX -> 0 <= off <= U32_MAX ->
  read_raw_entry buf i = Some (mkPSFRawEntry ko fmt len max off).
Proof.
  intros Hh Hko Hf Hlen Hm Ho. unfold read_raw_entry.
  replace (PSFHeader_size + i * PSFRawEntry_size) with (raw_at i) by (unfold raw_at; lia).
  rewrite (has_slice _ _ _ _ Hh) by by rewrite zlen_raw_bytes. cbn [mbind option_bind].
  assert (Hr : zlen (raw_bytes ko fmt len max off) <= U64_MAX) by (rewrite zlen_raw_bytes; u64_lia).
  pose proof (has_all (raw_bytes ko fmt len max off)) as Ha. unfold raw_bytes at 2 in Ha.
  rewrite !has_app, !zlen_le_bytes in Ha by lia. places Ha. destruct Ha as (H1 & H2 & H3 & H4 & H5).
  rewrite (has_read _ _ 2 _ H1) by (done || u64_lia). cbn [mbind option_bind].
  rewrite (has_read _ _ 2 _ H2) by (done || u64_lia). cbn [mbind option_bind].
  rewrite (has_read _ _ 4 _ H3) by (done || u64_lia). cbn [mbind option_bind].
  rewrite (has_read _ _ 4 _ H4) by (done || u64_lia). cbn [mbind option_bind].
  by rewrite (has_read _ _ 4 _ H5) by (done || u64_lia).
Qed.

Lemma read_header_spec buf k d n R :
  buf = header_bytes k d n ++ R -> 0 <= k <= U32_MAX -> 0 <= d <= U32_MAX -> 0 <= n <= U32_MAX ->
  read_header buf = Some (mkPSFHeader PSF_MAGIC PSF_VERSION_1_1 k d n).
Proof.
  intros -> Hk Hd Hn. unfold read_header.
  rewrite (has_slice _ _ _ _ (has_refl (header_bytes k d n) R)) by (unfold header_bytes; by rewrite zlen_header). cbn [mbind option_bind].
  assert (Hr : zlen (header_bytes k d n) <= U64_MAX) by (unfold header_bytes; rewrite zlen_header; u64_lia).
  pose proof (has_all (header_bytes k d n)) as Ha. unfold header_bytes at 2, header_fields in Ha.
  rewrite !has_app, !zlen_le_bytes in Ha by lia. places Ha. destruct Ha as (H1 & H2 & H3 & H4 & H5).
  rewrite (has_read _ _ 4 _ H1) by (done || (vm_compute; split; congruence)). cbn [mbind option_bind].
  rewrite (has_read _ _ 4 _ H2) by (done || (vm_compute; split; congruence)). cbn [mbind option_bind].
  rewrite (has_read _ _ 4 _ H3) by (done || u64_lia). cbn [mbind option_bind].
  rewrite (has_read _ _ 4 _ H4) by (done || u64_lia). cbn [mbind option_bind].
  by rewrite (has_read _ _ 4 _ H5) by (done || u64_lia).
Qed.

(** The parameters read so far: the first [i] entries and their values. *)
Record opened (p : PSF) (i : Z) (q : PSF) : Prop := {
  op_list : entry_list q = take (Z.to_nat i) (entry_list p);
  op_binary : forall k, map_binaries q !! k = if k <? i then map_binaries p !! k else None;
  op_text : forall k, map_strings q !! k = if k <? i then map_strings p !! k else None;
  op_integer : forall k, map_integers q !! k = if k <? i then map_integers p !! k else None;
}.

Lemma emplace_new {A} (m m' : gmap Z A) i v :
  (forall k, m' !! k = if k <? i then m !! k else None) -> m !! i = Some v ->
  forall k, emplace i v m' !! k = if k <? i + 1 then m !! k else None.
Proof.
  intros H Hv k. unfold emplace. rewrite H, Z.ltb_irrefl. destruct (decide (k = i)) as [->|Hne].
  - rewrite lookup_insert_eq. by destruct (Z.ltb_spec i (i + 1)); [|lia].
  - rewrite lookup_insert_ne by done. rewrite H. destruct (Z.ltb_spec k i); destruct (Z.ltb_spec k (i + 1)); try lia; done.
Qed.
Lemma emplace_none {A} (m m' : gmap Z A) i :
  (forall k, m' !! k = if k <? i then m !! k else None) -> m !! i = None ->
  forall k, m' !! k = if k <? i + 1 then m !! k else None.
Proof.
  intros H Hv k. rewrite H. destruct (Z.ltb_spec k i); destruct (Z.ltb_spec k (i + 1)); try lia; try done.
  by replace k with i by lia.
Qed.

(** An index has a value in the map of its format only. *)
Lemma value_none {A} (m : gmap Z A) (P : Prop) i : (is_Some (m !! i) <-> P) -> ~ P -> m !! i = None.
Proof. intros H HP. apply eq_None_not_Some. rewrite H. exact HP. Qed.

Lemma other_maps p i e : psf_ok p -> (entry_list p).[i] = Some e ->
  (param_fmt e <> Fmt_Binary -> map_binaries p !! i = None) /\ (param_fmt e <> Fmt_Text -> map_strings p !! i = None) /\
  (param_fmt e <> Fmt_Integer -> map_integers p !! i = None).
Proof.
  intros Hok He. repeat split; intros Hne; eapply value_none; try (by apply po_binary + by apply po_text + by apply po_integer);
    intros (e' & He' & Hf); congruence.
Qed.

Lemma s32_wrap n : -2147483648 <= n <= 2147483647 -> s32 (n mod 4294967296) = n.
Proof. intros Hn. unfold s32. rewrite Zplus_mod_idemp_l. rewrite Z.mod_small; lia. Qed.

Lemma le_bytes_mod n v : le_bytes (Z.of_nat n) (v mod 2 ^ (8 * Z.of_nat n)) = le_bytes (Z.of_nat n) v.
Proof.
  unfold le_bytes. apply List.map_ext_in. intros i Hi. rewrite <- list_elem_of_In, elem_of_indices in Hi.
  apply u8_inj. rewrite !u8_to_u8. unfold wrap8. change 256 with (2 ^ 8). apply Z.bits_inj'. intros k Hk.
  rewrite !Z.testbit_mod_pow2 by lia. destruct (Z.ltb_spec k 8); [|done]. cbn [andb].
  rewrite !Z.shiftr_spec, Z.testbit_mod_pow2 by lia. by rewrite (proj2 (Z.ltb_lt (k + i * 8) (8 * Z.of_nat n))) by lia.
Qed.

Lemma entry_eta e : mkEntry (key e) (param_fmt e) (max_len e) = e.
Proof. by destruct e. Qed.

Lemma open_entry_spec buf hd p q i ko off pad e :
  psf_ok p -> (entry_list p).[i] = Some e -> zlen buf <= U32_MAX ->
  has buf (raw_at i) (raw_bytes ko (param_fmt e) (wrap32 (zlen (stored p i e))) (max_len e) off) ->
  has buf (key_table_offset hd + ko) (key e ++ [x00]) ->
  has buf (data_table_offset hd + off) (stored p i e ++ pad) ->
  0 <= ko <= U16_MAX -> 0 <= off <= U32_MAX -> zlen (stored p i e) <= U32_MAX ->
  opened p i q -> exists q', open_entry buf hd q i = Some q' /\ opened p (i + 1) q'.
Proof.
  intros Hok He Hbuf Hraw Hkey Hdata Hko Hoff Hst [Hl Hb Ht Hi]. destruct (po_entry p Hok i e He) as (Hk & Hf & Hm).
  destruct (other_maps p i e Hok He) as (Nb & Nt & Ni). pose proof (wrap32_range (zlen (stored p i e))) as Hw.
  assert (Hfr : 0 <= param_fmt e <= U16_MAX) by (destruct Hf as [->|[->| ->]]; vm_compute; split; congruence).
  unfold open_entry. rewrite (read_raw_spec _ _ _ _ _ _ _ Hraw) by done. cbn [mbind option_bind key_offset raw_fmt param_max_len data_offset param_len].
  rewrite (has_c_string _ _ _ Hkey Hk). cbn [mbind option_bind]. rewrite entry_eta. apply at_index_range in He as Hr.
  assert (Hl' : entry_list q ++ [e] = take (Z.to_nat (i + 1)) (entry_list p)).
  { rewrite Hl. replace (Z.to_nat (i + 1)) with (S (Z.to_nat i)) by lia. symmetry. apply take_S_r.
    unfold at_index in He. by rewrite decide_True in He by lia. }
  apply has_app in Hdata as [Hdata _]. unfold stored, value_bytes in *.
  destruct Hf as [E|[E|E]]; rewrite E in *; cbn [Z.eqb Fmt_Binary Fmt_Text Fmt_Integer Pos.eqb] in *.
  - destruct (proj2 (po_binary p Hok i) (ex_intro _ e (conj He E))) as [v Hv]. rewrite Hv in *. cbn [default from_option id] in *.
    rewrite (has_slice _ _ _ _ Hdata) by (apply wrap32_small; pose proof (zlen_nonneg v); lia). cbn [mbind option_bind].
    eexists. split; [reflexivity|]. constructor; [exact Hl'| |by apply emplace_none; [|apply Nt]|by apply emplace_none; [|apply Ni]].
    by apply emplace_new.
  - destruct (proj2 (po_text p Hok i) (ex_intro _ e (conj He E))) as [v Hv]. rewrite Hv in *. cbn [default from_option id fmap option_fmap option_map] in *.
    rewrite (has_c_string _ _ _ Hdata) by by apply (po_texts p Hok i). cbn [mbind option_bind].
    eexists. split; [reflexivity|]. constructor; [exact Hl'|by apply emplace_none; [|apply Nb]| |by apply emplace_none; [|apply Ni]].
    by apply emplace_new.
  - destruct (proj2 (po_integer p Hok i) (ex_intro _ e (conj He E))) as [v Hv]. rewrite Hv in *. cbn [default from_option id fmap option_fmap option_map] in *.
    rewrite zlen_le_bytes in * by lia. change (negb (wrap32 4 =? 4)) with false. cbn iota.
    rewrite <- (le_bytes_mod 4) in Hdata. rewrite (has_read _ _ 4 _ Hdata) by (u64_lia || (apply Z.mod_pos_bound; lia)). cbn [mbind option_bind].
    change (2 ^ (8 * Z.of_nat 4)) with 4294967296. rewrite s32_wrap by by apply (po_integers p Hok i).
    eexists. split; [reflexivity|]. constructor; [exact Hl'|by apply emplace_none; [|apply Nb]|by apply emplace_none; [|apply Nt]|].
    by apply emplace_new.
Qed.

Lemma key_table_split e r : key_table (e :: r) = (key e ++ [x00]) ++ key_table r.
Proof. cbn. by rewrite <- app_assoc. Qed.
Lemma zlen_key_table e r : zlen (key_table (e :: r)) = zlen (key e) + 1 + zlen (key_table r).
Proof. rewrite key_table_split, !zlen_app. done. Qed.

Lemma open_entries_spec p buf hd rest : psf_ok p -> zlen buf <= U32_MAX -> forall i ko pos q,
  entries_from p i rest -> all_fit p i rest = true ->
  has buf (raw_at i) (raw_table p (data_table_offset hd) ko i pos rest) ->
  has buf (key_table_offset hd + ko) (key_table rest) -> has buf pos (data_table p i pos rest) ->
  0 <= ko -> ko + zlen (key_table rest) <= 65536 -> 0 <= data_table_offset hd <= pos -> data_end pos rest <= U32_MAX ->
  opened p i q -> exists q', open_entries buf hd i (length rest) q = Some q' /\ opened p (i + zlen rest) q'.
Proof.
  intros Hok Hbuf. induction rest as [|e rest IH]; intros i ko pos q Hf Ha Hraw Hkey Hdata Hko Hko2 Hpos Hend Hq.
  { exists q. split; [done|]. by rewrite Z.add_0_r. }
  pose proof (entries_max p i _ Hok Hf) as Hmax. apply Forall_cons in Hmax as [He0 Hmax].
  apply entries_cons in Hf as [He Hf]. cbn [all_fit] in Ha. apply andb_prop in Ha as [Hv Ha]. apply Z.leb_le in Hv.
  cbn [raw_table data_table data_end length open_entries] in *. pose proof (up4_bounds pos) as Hup.
  pose proof (zlen_nonneg (stored p i e)) as Hs0. pose proof (data_end_le rest (value_end pos e) Hmax) as Hle.
  rewrite zlen_key_table in Hko2. pose proof (zlen_nonneg (key e)). pose proof (zlen_nonneg (key_table rest)).
  rewrite key_table_split in Hkey. apply has_app in Hkey as [Hkey Hkeys]. apply has_app in Hraw as [Hraw Hraws].
  rewrite !has_app in Hdata. destruct Hdata as (_ & [Hdata Hpad] & Hdatas).
  assert (Hend2 : up4 pos <= value_end pos e) by (unfold value_end; lia).
  rewrite (zlen_filled (up4 pos - pos)) in Hdata, Hpad, Hdatas by lia. replace (pos + (up4 pos - pos)) with (up4 pos) in * by lia.
  assert (Hw : wrap16 ko = ko) by (apply wrap16_small; u64_lia). rewrite Hw in Hraw.
  assert (Hwo : wrap32 (up4 pos - data_table_offset hd) = up4 pos - data_table_offset hd) by (apply wrap32_small; lia). rewrite Hwo in Hraw.
  replace (up4 pos) with (data_table_offset hd + (up4 pos - data_table_offset hd)) in Hdata, Hpad by lia.
  destruct (open_entry_spec buf hd p q i ko (up4 pos - data_table_offset hd) (filled (max_len e - zlen (stored p i e)) x00) e) as (q' & -> & Hq');
    try done; [by apply has_app|u64_lia|u64_lia|unfold value_end in *; u64_lia|].
  cbn [mbind option_bind]. replace (i + zlen (e :: rest)) with (i + 1 + zlen rest) by (rewrite zlen_cons; lia).
  rewrite zlen_raw_bytes, <- raw_at_next in Hraws. rewrite zlen_app, (zlen_filled (max_len e - _)) in Hdatas by lia.
  apply (IH (i + 1) (ko + zlen (key e) + 1) (value_end pos e)); try done; try lia.
  - rewrite zlen_app in Hkeys. change (zlen [x00]) with 1 in Hkeys.
    by replace (key_table_offset hd + (ko + zlen (key e) + 1)) with (key_table_offset hd + ko + (zlen (key e) + 1)) by lia.
  - unfold value_end at 1. by replace (up4 pos + max_len e) with (up4 pos + (zlen (stored p i e) + (max_len e - zlen (stored p i e)))) by lia.
Qed.

Lemma opened_all p q : psf_ok p -> opened p (zlen (entry_list p)) q -> q = p.
Proof.
  intros Hok [Hl Hb Ht Hi]. unfold zlen in Hl. rewrite Nat2Z.id, firstn_all in Hl. destruct p as [l b t n], q as [l' b' t' n']. cbn in *.
  assert (Hout : forall k e, ~ k < zlen l -> l.[k] = Some e -> False) by (intros k e Hk He; apply at_index_range in He; lia).
  assert (Hmap : forall A (m m' : gmap Z A) (P : Z -> Entry -> Prop),
    (forall k, m' !! k = if k <? zlen l then m !! k else None) -> (forall k, is_Some (m !! k) <-> exists e, l.[k] = Some e /\ P k e) -> m' = m).
  { intros A m m' P H HP. apply map_eq. intros k. rewrite H. destruct (Z.ltb_spec k (zlen l)); [done|].
    symmetry. eapply value_none; [apply HP|]. intros (e & He & _). apply (Hout k e); [lia|done]. }
  f_equal; [done|..]; eapply Hmap; try eassumption; [apply (po_binary _ Hok)|apply (po_text _ Hok)|apply (po_integer _ Hok)].
Qed.

Lemma raw_at_bounds p : 0 <= zlen (entry_list p) /\ zlen (entry_list p) <= key_place p <= data_place p.
Proof.
  pose proof (zlen_nonneg (entry_list p)). pose proof (zlen_nonneg (key_table (entry_list p))).
  unfold data_place, key_place, raw_at, PSFHeader_size, PSFRawEntry_size. lia.
Qed.

Lemma zlen_layout p : psf_ok p -> all_fit p 0 (entry_list p) = true -> zlen (layout p) = data_end (data_place p) (entry_list p).
Proof.
  intros Hok Ha. unfold layout, header_bytes. rewrite !zlen_app, zlen_header, zlen_raw_table.
  rewrite zlen_data_table by (done || (split; [done|]; intros; by rewrite Z.add_0_l)).
  unfold data_place, key_place, raw_at, PSFHeader_size, PSFRawEntry_size. lia.
Qed.

Lemma Open_layout p : psf_ok p -> file_small p -> all_fit p 0 (entry_list p) = true -> Open (layout p) = Some (true, p).
Proof.
  intros Hok [Hks Hsz] Ha. pose proof (raw_at_bounds p) as [Hn Hp].
  assert (Hfrom : entries_from p 0 (entry_list p)) by (split; [done|]; intros; by rewrite Z.add_0_l).
  pose proof (data_end_le _ (data_place p) (entries_max p 0 _ Hok Hfrom)) as Hle.
  pose proof (zlen_layout p Hok Ha) as Hlen. unfold Open.
  erewrite read_header_spec; [|reflexivity|apply wrap32_range..]. cbn [mbind option_bind magic version negb index_table_entries].
  rewrite !Z.eqb_refl. cbn [negb andb]. rewrite !wrap32_small by lia.
  assert (Hall : has (layout p) 0 (layout p)) by apply has_all. unfold layout at 2 in Hall. rewrite !has_app in Hall.
  destruct Hall as (_ & Hraw & Hkeys & Hdata). unfold header_bytes in *. rewrite zlen_raw_table, zlen_header in *.
  replace (0 + 20 + 16 * zlen (entry_list p)) with (key_place p) in * by (unfold key_place, raw_at, PSFHeader_size, PSFRawEntry_size; lia).
  fold (data_place p) in Hdata.
  replace (Z.to_nat (zlen (entry_list p))) with (length (entry_list p)) by (unfold zlen; lia).
  destruct (open_entries_spec p (layout p) (mkPSFHeader PSF_MAGIC PSF_VERSION_1_1 (key_place p) (data_place p) (zlen (entry_list p))) (entry_list p) Hok
    ltac:(rewrite Hlen; lia) 0 0 (data_place p) no_parameters) as (q & -> & Hq); try done; cbn [key_table_offset data_table_offset]; try lia.
  - by rewrite Z.add_0_r.
  - constructor; [done|..]; intros k; cbn; rewrite ?lookup_empty; destruct (Z.ltb_spec k 0); try done; symmetry.
    + eapply value_none; [apply po_binary, Hok|]. intros (e & He%at_index_range & _). lia.
    + eapply value_none; [apply po_text, Hok|]. intros (e & He%at_index_range & _). lia.
    + eapply value_none; [apply po_integer, Hok|]. intros (e & He%at_index_range & _). lia.
  - cbn [mbind option_bind]. rewrite Z.add_0_l in Hq. by rewrite (opened_all p q Hok Hq).
Qed.

(** ** The parameters *)

Lemma find_key_Some k l : forall e, l.[find_key k l] = Some e -> key e = k.
Proof.
  induction l as [|x l IH]; intros e; cbn [find_key]; [done|]. case_bool_decide as Hx; [rewrite at_head; by intros [= <-]|].
  rewrite at_tail; [by apply IH|]. clear. induction l; cbn; [done|]. case_bool_decide; lia.
Qed.
Lemma find_key_range k l : 0 <= find_key k l <= zlen l.
Proof. induction l as [|x l IH]; cbn [find_key]; [done|]. rewrite zlen_cons. case_bool_decide; lia. Qed.
Lemma find_key_None k l : l.[find_key k l] = None -> find_key k l = zlen l /\ forall e, e ∈ l -> key e <> k.
Proof.
  intros H. pose proof (find_key_range k l) as Hr. destruct (decide (find_key k l = zlen l)) as [E|E].
  2: { destruct (at_index_Some l (find_key k l)) as [x Hx]; [lia|congruence]. }
  split; [done|]. clear H Hr. induction l as [|x l IH]; cbn [find_key] in E; [by intros e ?%elem_of_nil|].
  rewrite zlen_cons in E. pose proof (zlen_nonneg l). case_bool_decide as Hx; [lia|].
  intros e [->|He]%elem_of_cons; [done|]. apply IH; [lia|done].
Qed.
Lemma find_key_app k l e : (forall x, x ∈ l -> key x <> k) -> key e = k -> find_key k (l ++ [e]) = zlen l.
Proof.
  intros Hl He. induction l as [|x l IH]; cbn [find_key app]; [by rewrite bool_decide_true|].
  rewrite bool_decide_false by (apply Hl; by left). rewrite IH by (intros y Hy; apply Hl; by right). by rewrite zlen_cons.
Qed.
Lemma find_key_app_other k l e : key e <> k -> (l ++ [e]).[find_key k (l ++ [e])] = l.[find_key k l] /\ (l.[find_key k l] <> None -> find_key k (l ++ [e]) = find_key k l).
Proof.
  intros He. induction l as [|x l [IH IH2]]; cbn [find_key app]; [rewrite bool_decide_false by done; split; [done|intros Hn; by destruct Hn]|].
  case_bool_decide; [done|]. pose proof (find_key_range k l). pose proof (find_key_range k (l ++ [e])). rewrite !at_tail by lia.
  split; [done|]. intros Hn. by rewrite IH2.
Qed.
Lemma find_key_keys k l l' : key <$> l = key <$> l' -> find_key k l = find_key k l'.
Proof.
  revert l'. induction l as [|x l IH]; intros [|y l'] H; try done. injection H as Hx H. cbn. rewrite Hx. by rewrite (IH l').
Qed.

Lemma set_max_keys i n l : key <$> set_max_len i n l = key <$> l.
Proof.
  unfold set_max_len. apply list_eq. intros j. rewrite !list_lookup_fmap. destruct (decide (j = Z.to_nat i)) as [->|].
  - rewrite list_lookup_alter_eq. by destruct (l !! Z.to_nat i).
  - by rewrite list_lookup_alter_ne.
Qed.
Lemma set_max_at i n l j : 0 <= i -> (set_max_len i n l).[j] = (if j =? i then (fun e => e <| max_len := n |>) <$> l.[j] else l.[j]).
Proof.
  intros Hi. unfold set_max_len, at_index. case_decide; [|by destruct (j =? i)]. destruct (Z.eqb_spec j i) as [->|].
  - apply list_lookup_alter_eq.
  - apply list_lookup_alter_ne. lia.
Qed.

(** The value of a parameter, and the parameters as a map from their keys. *)
Inductive Value :=
| VBinary (bytes : list byte)
| VText (text : list byte)
| VInteger (n : Z).

Definition value_at (p : PSF) (i : Z) : option Value :=
  e ← (entry_list p).[i];
  if param_fmt e =? Fmt_Binary then VBinary <$> map_binaries p !! i
  else if param_fmt e =? Fmt_Text then VText <$> map_strings p !! i
  else VInteger <$> map_integers p !! i.
Definition find_value (k : list byte) (p : PSF) : option Value := value_at p (find_key k (entry_list p)).

Definition same_kind (v w : Value) : bool :=
  match v, w with VBinary _, VBinary _ | VText _, VText _ | VInteger _, VInteger _ => true | _, _ => false end.
Definition Add (k : list byte) (v : Value) (update : bool) (p : PSF) : option PSF :=
  match v with
  | VBinary b => AddBinary k b update p
  | VText s => AddString k s update p
  | VInteger n => AddInteger k n update p
  end.
(** What adding a parameter means for the map. *)
Definition spec_add (k : list byte) (v : Value) (update : bool) (m : gmap (list byte) Value) : option (gmap (list byte) Value) :=
  match m !! k with
  | None => Some (<[k := v]> m)
  | Some w => if negb update then Some m else if same_kind v w then Some (<[k := v]> m) else None
  end.
Definition param_ok (k : list byte) (v : Value) : Prop :=
  text_ok k /\ match v with VBinary _ => True | VText s => text_ok s | VInteger n => -2147483648 <= n <= 2147483647 end.

Definition fmt_of (v : Value) : Z := match v with VBinary _ => Fmt_Binary | VText _ => Fmt_Text | VInteger _ => Fmt_Integer end.

Lemma value_at_Some p i e : psf_ok p -> (entry_list p).[i] = Some e -> exists v, value_at p i = Some v /\ param_fmt e = fmt_of v.
Proof.
  intros Hok He. destruct (po_entry p Hok i e He) as (_ & Hf & _). unfold value_at. rewrite He. cbn [mbind option_bind].
  destruct Hf as [E|[E|E]]; rewrite E; cbn [Z.eqb Fmt_Binary Fmt_Text Fmt_Integer Pos.eqb].
  - destruct (proj2 (po_binary p Hok i) (ex_intro _ e (conj He E))) as [v ->]. by exists (VBinary v).
  - destruct (proj2 (po_text p Hok i) (ex_intro _ e (conj He E))) as [v ->]. by exists (VText v).
  - destruct (proj2 (po_integer p Hok i) (ex_intro _ e (conj He E))) as [v ->]. by exists (VInteger v).
Qed.
Lemma value_at_inv p i v : psf_ok p -> value_at p i = Some v -> exists e, (entry_list p).[i] = Some e /\ param_fmt e = fmt_of v.
Proof.
  intros Hok Hv. destruct ((entry_list p).[i]) as [e|] eqn:He; [|unfold value_at in Hv; by rewrite He in Hv].
  exists e. split; [done|]. destruct (value_at_Some p i e Hok He) as (v' & Hv' & ->). congruence.
Qed.

(** What a new parameter and a new value of an old one change. *)
Lemma find_push p p' k e v :
  find_key k (entry_list p) = zlen (entry_list p) -> (forall x, x ∈ entry_list p -> key x <> k) ->
  entry_list p' = entry_list p ++ [e] -> key e = k -> value_at p' (zlen (entry_list p)) = Some v ->
  (forall j, j < zlen (entry_list p) -> value_at p' j = value_at p j) ->
  forall k', find_value k' p' = if decide (k' = k) then Some v else find_value k' p.
Proof.
  intros Hf Hn Hl Hk Hv Ho k'. unfold find_value. rewrite Hl. case_decide as E.
  - subst k'. rewrite find_key_app by done. exact Hv.
  - destruct (find_key_app_other k' (entry_list p) e ltac:(congruence)) as [Ha Hb].
    destruct ((entry_list p).[find_key k' (entry_list p)]) as [x|] eqn:Hx.
    + rewrite Hb by done. apply Ho. apply at_index_range in Hx. lia.
    + unfold value_at. by rewrite Hl, Ha, Hx.
Qed.
Lemma find_update p p' k e v :
  (entry_list p).[find_key k (entry_list p)] = Some e ->
  key <$> entry_list p' = key <$> entry_list p -> value_at p' (find_key k (entry_list p)) = Some v ->
  (forall j, j <> find_key k (entry_list p) -> value_at p' j = value_at p j) ->
  forall k', find_value k' p' = if decide (k' = k) then Some v else find_value k' p.
Proof.
  intros He Hl Hv Ho k'. unfold find_value. rewrite (find_key_keys k' _ _ Hl). case_decide as E; [by subst k'|].
  destruct (decide (find_key k' (entry_list p) = find_key k (entry_list p))) as [Heq|Hne]; [|by apply Ho].
  exfalso. rewrite <- Heq in He. apply find_key_Some in He as H1. rewrite Heq in He. apply find_key_Some in He. congruence.
Qed.

(** The indices in a map are the entries of its format. *)
Definition indexed {A} (fmt : Z) (m : gmap Z A) (l : list Entry) : Prop :=
  forall i, is_Some (m !! i) <-> exists e, l.[i] = Some e /\ param_fmt e = fmt.

Lemma at_snoc {A} (l : list A) x i : (l ++ [x]).[i] = if i =? zlen l then Some x else l.[i].
Proof.
  pose proof (zlen_nonneg l). destruct (Z.eqb_spec i (zlen l)) as [->|Hne].
  - replace (zlen l) with (zlen l + 0) by lia. by rewrite at_app_r by lia.
  - destruct (decide (i < zlen l)); [by apply at_app_l|].
    destruct ((l ++ [x]).[i]) as [y|] eqn:E.
    { apply at_index_range in E. rewrite zlen_app in E. change (zlen [x]) with 1 in E. lia. }
    destruct (l.[i]) as [z|] eqn:E'; [apply at_index_range in E'; lia|done].
Qed.

Lemma indexed_end {A} fmt (m : gmap Z A) l : indexed fmt m l -> m !! zlen l = None.
Proof. intros H. eapply value_none; [apply H|]. intros (e & He%at_index_range & _). lia. Qed.

Lemma indexed_push {A} fmt (m : gmap Z A) l e v : indexed fmt m l -> param_fmt e = fmt -> indexed fmt (emplace (zlen l) v m) (l ++ [e]).
Proof.
  intros H He i. unfold emplace. rewrite (indexed_end fmt m l H), at_snoc. destruct (Z.eqb_spec i (zlen l)) as [->|Hne].
  - rewrite lookup_insert_eq. split; [by exists e|by eexists].
  - rewrite lookup_insert_ne by done. apply H.
Qed.
Lemma indexed_keep {A} fmt (m : gmap Z A) l e : indexed fmt m l -> param_fmt e <> fmt -> indexed fmt m (l ++ [e]).
Proof.
  intros H He i. rewrite at_snoc. destruct (Z.eqb_spec i (zlen l)) as [->|Hne]; [|apply H].
  rewrite (indexed_end fmt m l H). split; [by intros [? [=]]|]. intros (e' & [= <-] & ?). done.
Qed.
Lemma indexed_max {A} fmt (m : gmap Z A) l i n : 0 <= i -> indexed fmt m l -> indexed fmt m (set_max_len i n l).
Proof.
  unfold indexed. intros Hi H j. rewrite H, set_max_at by done. destruct (Z.eqb_spec j i) as [->|]; [|done].
  destruct (l.[i]) as [e|]; cbn; split; intros (e' & [= <-] & Hf); by eexists.
Qed.
Lemma indexed_set {A} fmt (m : gmap Z A) l i v : is_Some (m !! i) -> indexed fmt m l -> indexed fmt (<[i := v]> m) l.
Proof.
  unfold indexed. intros Hi H j. rewrite <- H. destruct (decide (j = i)) as [->|]; [rewrite lookup_insert_eq; split; [done|by eexists]|by rewrite lookup_insert_ne].
Qed.

Lemma max_size_range k n : 0 <= n <= U32_MAX -> 0 <= get_max_size k n <= U32_MAX.
Proof.
  intros Hn. unfold get_max_size. destruct (List.find _ _) as [known|] eqn:E; [|done]. apply List.find_some in E as [E _].
  repeat (destruct E as [<-|E]; [vm_compute; split; congruence|]). done.
Qed.

(** The entries of [p'] are those of [p] and one more; or those of [p], one of them with another
    [max_len]. *)
Lemma entries_push p e : psf_ok p -> text_ok (key e) -> known_fmt (param_fmt e) -> 0 <= max_len e <= U32_MAX ->
  forall i x, (entry_list p ++ [e]).[i] = Some x -> text_ok (key x) /\ known_fmt (param_fmt x) /\ 0 <= max_len x <= U32_MAX.
Proof.
  intros Hok Hk Hf Hm i x. rewrite at_snoc. destruct (i =? zlen (entry_list p)); [by intros [= <-]|apply (po_entry p Hok)].
Qed.
Lemma entries_max_len p i n : psf_ok p -> 0 <= i -> 0 <= n <= U32_MAX ->
  forall j x, (set_max_len i n (entry_list p)).[j] = Some x -> text_ok (key x) /\ known_fmt (param_fmt x) /\ 0 <= max_len x <= U32_MAX.
Proof.
  intros Hok Hi Hn j x. rewrite set_max_at by done. pose proof (po_entry p Hok j) as He.
  destruct (Z.eqb_spec j i) as [->|]; [|apply He]. destruct ((entry_list p).[i]) as [e|]; [|done].
  intros [= <-]. destruct (He e eq_refl) as (? & ? & _). done.
Qed.
Lemma emplace_all {A} (P : A -> Prop) i v (m : gmap Z A) : (forall j w, m !! j = Some w -> P w) -> P v -> forall j w, emplace i v m !! j = Some w -> P w.
Proof.
  intros H Hv j w. unfold emplace. destruct (m !! i); [apply H|]. destruct (decide (j = i)) as [->|];
    [rewrite lookup_insert_eq; by intros [= <-]|rewrite lookup_insert_ne by done; apply H].
Qed.
Lemma insert_all {A} (P : A -> Prop) i v (m : gmap Z A) : (forall j w, m !! j = Some w -> P w) -> P v -> forall j w, <[i := v]> m !! j = Some w -> P w.
Proof.
  intros H Hv j w. destruct (decide (j = i)) as [->|];
    [rewrite lookup_insert_eq; by intros [= <-]|rewrite lookup_insert_ne by done; apply H].
Qed.

(** A new value at the end, by its format. *)
Definition push_value (k : list byte) (max : Z) (v : Value) (p : PSF) : PSF :=
  let i := zlen (entry_list p) in
  let p := p <| entry_list ::= fun l => l ++ [mkEntry k (fmt_of v) max] |> in
  match v with
  | VBinary b => p <| map_binaries ::= emplace i b |>
  | VText s => p <| map_strings ::= emplace i s |>
  | VInteger n => p <| map_integers ::= emplace i n |>
  end.
Definition set_value (i max : Z) (v : Value) (p : PSF) : PSF :=
  let p := p <| entry_list ::= set_max_len i max |> in
  match v with
  | VBinary b => p <| map_binaries ::= <[i := b]> |>
  | VText s => p <| map_strings ::= <[i := s]> |>
  | VInteger n => p <| map_integers ::= <[i := n]> |>
  end.
Definition max_of (k : list byte) (v : Value) : Z :=
  match v with
  | VBinary b => get_max_size k (wrap32 (zlen b))
  | VText s => get_max_size k (wrap32 (zlen s + 1))
  | VInteger _ => 4
  end.

Lemma max_of_range k v : 0 <= max_of k v <= U32_MAX.
Proof. destruct v; cbn [max_of]; [apply max_size_range, wrap32_range..|u64_lia]. Qed.

Lemma last_index {A} (l : list A) x : zlen (l ++ [x]) - 1 = zlen l.
Proof. rewrite zlen_app. change (zlen [x]) with 1. lia. Qed.

Lemma Add_unfold k v u p : Add k v u p =
  match FindEntry k p with
  | (Some e, i) =>
      if negb u then Some p else if negb (param_fmt e =? fmt_of v) then None else
      if decide (is_Some (match v with VBinary _ => VBinary <$> map_binaries p !! i | VText _ => VText <$> map_strings p !! i | VInteger _ => VInteger <$> map_integers p !! i end))
      then Some (set_value i (max_of k v) v p) else None
  | (None, _) => Some (push_value k (max_of k v) v p)
  end.
Proof.
  destruct v; cbn [Add]; unfold AddBinary, AddString, AddInteger, at_, set_value, push_value, FindEntry; cbn [fmt_of max_of];
    (destruct ((entry_list p).[_]) as [e|]; [|cbn; by rewrite last_index]);
    (destruct u; cbn [negb]; [|done]); (destruct (param_fmt e =? _); cbn [negb]; [|done]); by destruct (_ !! _).
Qed.

Lemma push_ok p k v max : psf_ok p -> param_ok k v -> 0 <= max <= U32_MAX -> psf_ok (push_value k max v p).
Proof.
  intros Hok [Hk Hv] Hm. assert (Hf : known_fmt (fmt_of v)) by (destruct v; unfold known_fmt; cbn; tauto).
  pose proof (entries_push p (mkEntry k (fmt_of v) max) Hok Hk Hf Hm) as He. destruct Hok as [_ Hb Ht Hi Hts His].
  destruct v as [b|s|n]; cbn in Hv, He; (constructor; [exact He|..]); cbn;
    try (apply indexed_push; [done|done]); try (apply indexed_keep; [done|done]); try done; by apply emplace_all.
Qed.

Lemma set_value_ok p i v max e : psf_ok p -> (entry_list p).[i] = Some e -> param_fmt e = fmt_of v ->
  (match v with VText s => text_ok s | VInteger n => -2147483648 <= n <= 2147483647 | _ => True end) -> 0 <= max <= U32_MAX -> psf_ok (set_value i max v p).
Proof.
  intros Hok He Hf Hv Hm. apply at_index_range in He as Hi0. pose proof (entries_max_len p i max Hok ltac:(lia) Hm) as Hen.
  destruct Hok as [_ Hb Ht Hi Hts His].
  destruct v as [b|s|n]; (constructor; [exact Hen|..]); cbn; try (apply indexed_max; [lia|]); try apply indexed_set; try done;
    try (by apply insert_all); [apply Hb|apply Ht|apply Hi]; by exists e.
Qed.

Lemma emplace_lookup {A} (m : gmap Z A) i v j : m !! i = None -> emplace i v m !! j = if j =? i then Some v else m !! j.
Proof.
  intros Hi. unfold emplace. rewrite Hi. destruct (Z.eqb_spec j i) as [->|]; [apply lookup_insert_eq|by rewrite lookup_insert_ne].
Qed.

Lemma push_find p k v max : psf_ok p -> FindEntry k p = (None, find_key k (entry_list p)) ->
  forall k', find_value k' (push_value k max v p) = if decide (k' = k) then Some v else find_value k' p.
Proof.
  intros Hok [= Hn]. apply find_key_None in Hn as [Hf Hn]. set (e := mkEntry k (fmt_of v) max).
  pose proof (indexed_end _ _ _ (po_binary p Hok)) as Eb. pose proof (indexed_end _ _ _ (po_text p Hok)) as Et.
  pose proof (indexed_end _ _ _ (po_integer p Hok)) as Ei.
  apply (find_push p (push_value k max v p) k e v Hf Hn); [by destruct v|done|..].
  - unfold value_at. replace (entry_list (push_value k max v p)) with (entry_list p ++ [e]) by (by destruct v).
    rewrite at_snoc, Z.eqb_refl. by destruct v; cbn; rewrite emplace_lookup, Z.eqb_refl.
  - intros j Hj. unfold value_at. replace (entry_list (push_value k max v p)) with (entry_list p ++ [e]) by (by destruct v).
    rewrite at_snoc. assert (Hne : (j =? zlen (entry_list p)) = false) by (apply Z.eqb_neq; lia). rewrite Hne.
    by destruct v; cbn; rewrite ?emplace_lookup, ?Hne by done.
Qed.

Lemma set_find p k v max e : psf_ok p -> (entry_list p).[find_key k (entry_list p)] = Some e -> param_fmt e = fmt_of v ->
  forall k', find_value k' (set_value (find_key k (entry_list p)) max v p) = if decide (k' = k) then Some v else find_value k' p.
Proof.
  intros Hok He Hf. set (i := find_key k (entry_list p)) in *. apply at_index_range in He as Hi.
  assert (Hl : entry_list (set_value i max v p) = set_max_len i max (entry_list p)) by (by destruct v).
  apply (find_update p _ k e v He); [rewrite Hl; apply set_max_keys|..].
  - unfold value_at. fold i. rewrite Hl, set_max_at, He by lia. rewrite Z.eqb_refl. cbn. rewrite Hf. by destruct v; cbn; rewrite lookup_insert_eq.
  - intros j Hj. unfold value_at. rewrite Hl, set_max_at by lia. fold i in Hj. rewrite (proj2 (Z.eqb_neq j i)) by done.
    by destruct v; cbn; rewrite ?lookup_insert_ne.
Qed.

(** [m] is what [p] holds. *)
Definition holds (p : PSF) (m : gmap (list byte) Value) : Prop := psf_ok p /\ forall k, find_value k p = m !! k.

Lemma FindEntry_spec p k : psf_ok p ->
  match find_value k p with
  | Some v => exists e, FindEntry k p = (Some e, find_key k (entry_list p)) /\ (entry_list p).[find_key k (entry_list p)] = Some e /\ param_fmt e = fmt_of v
  | None => FindEntry k p = (None, find_key k (entry_list p))
  end.
Proof.
  intros Hok. unfold FindEntry, find_value. destruct ((entry_list p).[find_key k (entry_list p)]) as [e|] eqn:He.
  - destruct (value_at_Some p _ e Hok He) as (v & -> & Hf). by exists e.
  - unfold value_at. by rewrite He.
Qed.

Lemma fmt_kind v w : (fmt_of w =? fmt_of v) = same_kind v w.
Proof. by destruct v, w. Qed.

Lemma Add_spec p m k v u : holds p m -> param_ok k v ->
  match spec_add k v u m with
  | Some m' => exists p', Add k v u p = Some p' /\ holds p' m'
  | None => Add k v u p = None
  end.
Proof.
  intros [Hok Hm] Hp. rewrite Add_unfold. unfold spec_add. pose proof (FindEntry_spec p k Hok) as Hf. rewrite Hm in Hf.
  destruct (m !! k) as [w|] eqn:Hk.
  - destruct Hf as (e & -> & Hfe & He). destruct u; cbn [negb]; [|by exists p]. rewrite He, fmt_kind.
    destruct (same_kind v w) eqn:Hs; cbn [negb]; [|done]. rewrite <- fmt_kind in Hs. apply Z.eqb_eq in Hs. rewrite Hs in He.
    assert (Hv : value_at p (find_key k (entry_list p)) = Some w) by (rewrite <- Hk; apply Hm).
    rewrite decide_True.
    2: { unfold value_at in Hv. rewrite Hfe in Hv. cbn in Hv. rewrite He in Hv. destruct v; cbn in *; rewrite Hv; by eexists. }
    eexists. split; [reflexivity|]. split; [eapply set_value_ok; [done|done|done|by destruct Hp, v|apply max_of_range]|].
    intros k'. erewrite set_find by done. case_decide as E; [subst; by rewrite lookup_insert_eq|rewrite lookup_insert_ne by done; apply Hm].
  - rewrite Hf. eexists. split; [reflexivity|]. split; [apply push_ok; [done|done|apply max_of_range]|].
    intros k'. rewrite push_find by done. case_decide as E; [subst; by rewrite lookup_insert_eq|rewrite lookup_insert_ne by done; apply Hm].
Qed.

(** ** Sequences of calls *)

Record call := mkCall { call_key : list byte; call_value : Value; call_update : bool }.
Definition run_adds (calls : list call) (p : PSF) : option PSF :=
  foldr (fun c k p => p ← Add (call_key c) (call_value c) (call_update c) p; k p) Some calls p.
Definition spec_adds (calls : list call) (m : gmap (list byte) Value) : option (gmap (list byte) Value) :=
  foldr (fun c k m => m ← spec_add (call_key c) (call_value c) (call_update c) m; k m) Some calls m.
Definition call_ok (c : call) : Prop := param_ok (call_key c) (call_value c).

Lemma no_parameters_holds : holds no_parameters ∅.
Proof.
  assert (Hn : forall i e, (entry_list no_parameters).[i] = Some e -> False) by (intros i e He; apply at_index_range in He; change (0 <= i < 0) in He; lia).
  split; [|done]. constructor; try (by intros i e He; destruct (Hn i e He)); intros i; cbn; rewrite ?lookup_empty; try done;
    (split; [by intros [? ?]|intros (e & He & _); destruct (Hn i e He)]).
Qed.

Lemma run_adds_spec calls : Forall call_ok calls -> forall p m, holds p m ->
  match spec_adds calls m with
  | Some m' => exists p', run_adds calls p = Some p' /\ holds p' m'
  | None => run_adds calls p = None
  end.
Proof.
  induction 1 as [|c calls Hc Hl IH]; intros p m Hp; cbn; [by exists p|].
  pose proof (Add_spec p m _ _ (call_update c) Hp Hc) as Hadd. destruct (spec_add _ _ _ m) as [m'|]; cbn; [|by rewrite Hadd].
  destruct Hadd as (p' & -> & Hp'). by apply IH.
Qed.

(** What the three getters answer for a value; a getter of another format asserts. *)
Definition answer {A} (f : Value -> option A) (v : option Value) : option (option A) :=
  match v with None => Some None | Some w => Some <$> f w end.
Definition as_binary (v : Value) : option (list byte) := match v with VBinary b => Some b | _ => None end.
Definition as_text (v : Value) : option (list byte) := match v with VText s => Some s | _ => None end.
Definition as_integer (v : Value) : option Z := match v with VInteger n => Some n | _ => None end.

Lemma get_spec p m k : holds p m ->
  GetBinary k p = answer as_binary (m !! k) /\ GetString k p = answer as_text (m !! k) /\ GetInteger k p = answer as_integer (m !! k).
Proof.
  intros [Hok Hm]. unfold GetBinary, GetString, GetInteger, get_as. pose proof (FindEntry_spec p k Hok) as Hf. rewrite Hm in Hf.
  destruct (m !! k) as [w|] eqn:Hk; [|by rewrite Hf]. destruct Hf as (e & -> & He & Hfe).
  assert (Hv : value_at p (find_key k (entry_list p)) = Some w) by (rewrite <- Hk; apply Hm).
  unfold value_at in Hv. rewrite He in Hv. cbn in Hv. rewrite Hfe in *. destruct w; cbn in *.
  - destruct (map_binaries p !! _); [|done]. injection Hv as ->. done.
  - destruct (map_strings p !! _); [|done]. injection Hv as ->. done.
  - destruct (map_integers p !! _); [|done]. injection Hv as ->. done.
Qed.

Lemma all_fit_spec p l : forall i, entries_from p i l ->
  all_fit p i l = true <-> (forall j e, i <= j -> (entry_list p).[j] = Some e -> fits p j e).
Proof.
  induction l as [|x l IH]; intros i Hf; cbn [all_fit].
  - split; [|done]. intros _ j e Hj He. destruct Hf as [Hi Hf]. specialize (Hf (j - i) ltac:(lia)).
    replace (i + (j - i)) with j in Hf by lia. rewrite He in Hf. apply at_index_range in Hf. change (zlen (@nil Entry)) with 0 in Hf. lia.
  - apply entries_cons in Hf as [Hx Hf]. rewrite andb_true_iff, Z.leb_le, IH by done. split.
    + intros [Hv Hl] j e Hj He. destruct (decide (j = i)) as [->|]; [|by apply Hl; [lia|]]. unfold fits. congruence.
    + intros H. split; [by apply (H i); [lia|]|]. intros j e Hj He. by apply H; [lia|].
Qed.

Lemma Encode_Open_spec p : psf_ok p -> sizes_ok p -> file_small p ->
  ((forall i e, (entry_list p).[i] = Some e -> fits p i e) -> exists file, Encode p = Some file /\ Open file = Some (true, p)) /\
  (forall i e, (entry_list p).[i] = Some e -> ~ fits p i e -> Encode p = None).
Proof.
  intros Hok Hsz Hsm. assert (Hfrom : entries_from p 0 (entry_list p)) by (split; [done|]; intros; by rewrite Z.add_0_l).
  pose proof (all_fit_spec p _ 0 Hfrom) as Ha. rewrite (Encode_spec p Hok Hsz). split.
  - intros Hf. assert (E : all_fit p 0 (entry_list p) = true) by (apply Ha; intros; by apply Hf).
    rewrite E. exists (layout p). split; [done|]. by apply Open_layout.
  - intros i e He Hn. destruct (all_fit p 0 (entry_list p)); [|done]. exfalso. apply Hn. apply (proj1 Ha eq_refl); [|done].
    apply at_index_range in He. lia.
Qed.

(** * Properties *)

(** The parameters behave as a map from their keys: any sequence of [AddBinary], [AddString] and
    [AddInteger] calls on an empty file, with or without [update], does what it does to a map
    ([spec_add]: a new key is added, an old one changed when [update] asks for it, an assertion
    fails when its kind would change); the invariant [psf_ok] holds after it, and [GetBinary],
    [GetString] and [GetInteger] answer what the map holds, and assert for a value of another kind. *)
Theorem adds_refine (calls : list call) (Hcalls : Forall call_ok calls) :
  match spec_adds calls ∅ with
  | Some m => exists p, run_adds calls no_parameters = Some p /\ psf_ok p /\ forall k,
      GetBinary k p = answer as_binary (m !! k) /\ GetString k p = answer as_text (m !! k) /\
      GetInteger k p = answer as_integer (m !! k)
  | None => run_adds calls no_parameters = None
  end.
Proof.
  pose proof (run_adds_spec calls Hcalls no_parameters ∅ no_parameters_holds) as H.
  destruct (spec_adds calls ∅) as [m|]; [|done]. destruct H as (p & Hp & Hm). exists p.
  split; [done|]. split; [apply Hm|]. intros k. by apply get_spec.
Qed.

(** C34. Writing and reading are inverse: when every value fits the size its entry reserves, [Encode]
    succeeds and [Open] reads the same entries and values back from the file it wrote; when one
    value does not fit, the assertion of [Encode] fails. [sizes_ok] and [file_small] keep lengths
    and offsets within the fields that hold them. *)
Theorem Encode_Open (p : PSF) (Hp : psf_ok p) (Hsizes : sizes_ok p) (Hsmall : file_small p) :
  ((forall i e, (entry_list p).[i] = Some e -> fits p i e) -> exists file, Encode p = Some file /\ Open file = Some (true, p)) /\
  (forall i e, (entry_list p).[i] = Some e -> ~ fits p i e -> Encode p = None).
Proof. by apply Encode_Open_spec. Qed.

(** * Witnesses *)

Definition game_calls : list call :=
  [mkCall (list_byte_of_string "TITLE") (VText (list_byte_of_string "Game")) false;
   mkCall (list_byte_of_string "ATTRIBUTE") (VInteger (-5)) false;
   mkCall (list_byte_of_string "ACCOUNT_ID") (VBinary (le_bytes 8 77)) false;
   mkCall (list_byte_of_string "TITLE") (VText (list_byte_of_string "Game II")) true].

Definition no_zero (s : list byte) : bool := List.forallb (fun b => negb (bool_decide (b = x00))) s.
Lemma no_zero_ok s : no_zero s = true -> text_ok s.
Proof.
  intros H Hin. unfold no_zero in H. rewrite List.forallb_forall in H. apply list_elem_of_In in Hin. apply H in Hin.
  by rewrite bool_decide_true in Hin.
Qed.

Lemma game_calls_ok : Forall call_ok game_calls.
Proof. repeat constructor; try (by apply no_zero_ok); cbn; lia. Qed.

Lemma adds_refine_witness :
  Forall call_ok game_calls /\
  match spec_adds game_calls ∅ with
  | Some m => exists p, run_adds game_calls no_parameters = Some p /\ psf_ok p /\ forall k,
      GetBinary k p = answer as_binary (m !! k) /\ GetString k p = answer as_text (m !! k) /\
      GetInteger k p = answer as_integer (m !! k)
  | None => run_adds game_calls no_parameters = None
  end.
Proof. split; [exact game_calls_ok|exact (adds_refine game_calls game_calls_ok)]. Defined.

Definition game : PSF := default no_parameters (run_adds game_calls no_parameters).
Lemma game_ok : psf_ok game.
Proof.
  pose proof (run_adds_spec game_calls game_calls_ok no_parameters ∅ no_parameters_holds) as H.
  destruct (spec_adds game_calls ∅) eqn:E; [|done]. destruct H as (p & Hp & [Hok _]). unfold game. by rewrite Hp.
Qed.
Lemma game_sizes : sizes_ok game /\ file_small game /\ forall i e, (entry_list game).[i] = Some e -> fits game i e.
Proof.
  assert (Hall : forall i e, (entry_list game).[i] = Some e ->
    (max_len e <=? 2147483647) && (zlen (stored game i e) <=? 2147483647) && (zlen (stored game i e) <=? max_len e) = true).
  { intros i e He. pose proof (at_index_range _ _ _ He) as Hi. change (zlen (entry_list game)) with 3 in Hi.
    assert (i = 0 \/ i = 1 \/ i = 2) as [->|[->| ->]] by lia; injection He as <-; reflexivity. }
  split; [split; [intros i e He; specialize (Hall i e He); lia|by vm_compute]|]. split; [by split; vm_compute|].
  intros i e He. specialize (Hall i e He). unfold fits. lia.
Qed.

Lemma Encode_Open_witness :
  psf_ok game /\ sizes_ok game /\ file_small game /\
  exists file, Encode game = Some file /\ Open file = Some (true, game).
Proof.
  destruct game_sizes as (Hs & Hf & Hfit). split; [exact game_ok|]. split; [exact Hs|]. split; [exact Hf|].
  exact (proj1 (Encode_Open game game_ok Hs Hf) Hfit).
Defined.
