(* ===== verification/IrOpcodes.v ===== *)
(** * The opcodes of the shader representation

    The enumerations [Type] and [Opcode] of src/src/shader_recompiler/ir/type.h and opcodes.h,
    with the table [META_TABLE] that opcodes.h expands from opcodes.inc: for each opcode the type
    of its result and of its arguments. *)
From Stdlib Require Import ZArith Lia.
From stdpp Require Import base list numbers countable.
From S2P Require Import Prelude.

(** [enum class Type]: single types, the bits of the enumeration. *)
Inductive Type_ :=
  | T_Void | T_Opaque | T_ScalarReg | T_VectorReg | T_Attribute | T_Patch | T_U1 | T_U8 | T_U16 | T_U32
  | T_U64 | T_F16 | T_F32 | T_F64 | T_U32x2 | T_U32x3 | T_U32x4 | T_F16x2 | T_F16x3 | T_F16x4 | T_F32x2
  | T_F32x3 | T_F32x4 | T_F64x2 | T_F64x3 | T_F64x4 | T_StringLiteral.

(** [enum class Opcode] *)
Inductive Opcode :=
  | Phi | Identity | Void | ConditionRef | Reference | PhiMove | Prologue | Epilogue | Discard | DiscardCond
  | DebugPrint | ReadConst | ReadConstBuffer | Barrier | WorkgroupMemoryBarrier | DeviceMemoryBarrier
  | EmitVertex | EmitPrimitive | LoadSharedU16 | LoadSharedU32 | LoadSharedU64 | WriteSharedU16
  | WriteSharedU32 | WriteSharedU64 | SharedAtomicIAdd32 | SharedAtomicIAdd64 | SharedAtomicISub32
  | SharedAtomicISub64 | SharedAtomicSMin32 | SharedAtomicSMin64 | SharedAtomicUMin32 | SharedAtomicUMin64
  | SharedAtomicSMax32 | SharedAtomicSMax64 | SharedAtomicUMax32 | SharedAtomicUMax64 | SharedAtomicInc32
  | SharedAtomicInc64 | SharedAtomicDec32 | SharedAtomicDec64 | SharedAtomicAnd32 | SharedAtomicAnd64
  | SharedAtomicOr32 | SharedAtomicOr64 | SharedAtomicXor32 | SharedAtomicXor64 | GetUserData
  | GetThreadBitScalarReg | SetThreadBitScalarReg | GetScalarRegister | SetScalarRegister | GetVectorRegister
  | SetVectorRegister | GetGotoVariable | SetGotoVariable | GetMaskLaneVariable | SetMaskLaneVariable
  | GetAttribute | GetAttributeU32 | SetAttribute | GetPatch | SetPatch | GetTessGenericAttribute
  | SetTcsGenericAttribute | ReadTcsGenericOuputAttribute | GetScc | GetExec | GetVcc | GetVccLo | GetVccHi
  | GetM0 | SetScc | SetExec | SetVcc | SetSccLo | SetVccLo | SetVccHi | SetM0 | UndefU1 | UndefU8 | UndefU16
  | UndefU32 | UndefU64 | LoadBufferU8 | LoadBufferU16 | LoadBufferU32 | LoadBufferU32x2 | LoadBufferU32x3
  | LoadBufferU32x4 | LoadBufferU64 | LoadBufferF32 | LoadBufferF32x2 | LoadBufferF32x3 | LoadBufferF32x4
  | LoadBufferFormatF32 | StoreBufferU8 | StoreBufferU16 | StoreBufferU32 | StoreBufferU32x2
  | StoreBufferU32x3 | StoreBufferU32x4 | StoreBufferU64 | StoreBufferF32 | StoreBufferF32x2
  | StoreBufferF32x3 | StoreBufferF32x4 | StoreBufferFormatF32 | BufferAtomicIAdd32 | BufferAtomicIAdd64
  | BufferAtomicISub32 | BufferAtomicSMin32 | BufferAtomicSMin64 | BufferAtomicUMin32 | BufferAtomicUMin64
  | BufferAtomicFMin32 | BufferAtomicSMax32 | BufferAtomicSMax64 | BufferAtomicUMax32 | BufferAtomicUMax64
  | BufferAtomicFMax32 | BufferAtomicInc32 | BufferAtomicDec32 | BufferAtomicAnd32 | BufferAtomicOr32
  | BufferAtomicXor32 | BufferAtomicSwap32 | BufferAtomicCmpSwap32 | BufferAtomicFCmpSwap32
  | CompositeConstructU32x2 | CompositeConstructU32x3 | CompositeConstructU32x4 | CompositeConstructU32x2x2
  | CompositeExtractU32x2 | CompositeExtractU32x3 | CompositeExtractU32x4 | CompositeInsertU32x2
  | CompositeInsertU32x3 | CompositeInsertU32x4 | CompositeShuffleU32x2 | CompositeShuffleU32x3
  | CompositeShuffleU32x4 | CompositeConstructF32x2 | CompositeConstructF32x3 | CompositeConstructF32x4
  | CompositeConstructF32x2x2 | CompositeExtractF32x2 | CompositeExtractF32x3 | CompositeExtractF32x4
  | CompositeInsertF32x2 | CompositeInsertF32x3 | CompositeInsertF32x4 | CompositeShuffleF32x2
  | CompositeShuffleF32x3 | CompositeShuffleF32x4 | SelectU1 | SelectU32 | SelectF32 | BitCastU16F16
  | BitCastU32F32 | BitCastF16U16 | BitCastF32U32 | PackUint2x32 | UnpackUint2x32 | PackDouble2x32
  | UnpackDouble2x32 | PackUnorm2x16 | UnpackUnorm2x16 | PackSnorm2x16 | UnpackSnorm2x16 | PackUint2x16
  | UnpackUint2x16 | PackSint2x16 | UnpackSint2x16 | PackHalf2x16 | UnpackHalf2x16 | PackUnorm4x8
  | UnpackUnorm4x8 | PackSnorm4x8 | UnpackSnorm4x8 | PackUint4x8 | UnpackUint4x8 | PackSint4x8
  | UnpackSint4x8 | PackUfloat10_11_11 | UnpackUfloat10_11_11 | PackUnorm2_10_10_10 | UnpackUnorm2_10_10_10
  | PackSnorm2_10_10_10 | UnpackSnorm2_10_10_10 | PackUint2_10_10_10 | UnpackUint2_10_10_10
  | PackSint2_10_10_10 | UnpackSint2_10_10_10 | FPAbs32 | FPAbs64 | FPAdd32 | FPAdd64 | FPSub32 | FPFma32
  | FPFma64 | FPMax32 | FPMax64 | FPMin32 | FPMin64 | FPMinTri32 | FPMaxTri32 | FPMedTri32 | FPMul32
  | FPMul64 | FPDiv32 | FPDiv64 | FPNeg32 | FPNeg64 | FPRecip32 | FPRecip64 | FPRecipSqrt32 | FPRecipSqrt64
  | FPSqrt | FPSin | FPExp2 | FPPow | FPLdexp | FPCos | FPLog2 | FPSaturate32 | FPSaturate64 | FPClamp32
  | FPClamp64 | FPRoundEven32 | FPRoundEven64 | FPFloor32 | FPFloor64 | FPCeil32 | FPCeil64 | FPTrunc32
  | FPTrunc64 | FPFract32 | FPFract64 | FPFrexpSig32 | FPFrexpSig64 | FPFrexpExp32 | FPFrexpExp64
  | FPOrdEqual32 | FPOrdEqual64 | FPUnordEqual32 | FPUnordEqual64 | FPOrdNotEqual32 | FPOrdNotEqual64
  | FPUnordNotEqual32 | FPUnordNotEqual64 | FPOrdLessThan32 | FPOrdLessThan64 | FPUnordLessThan32
  | FPUnordLessThan64 | FPOrdGreaterThan32 | FPOrdGreaterThan64 | FPUnordGreaterThan32 | FPUnordGreaterThan64
  | FPOrdLessThanEqual32 | FPOrdLessThanEqual64 | FPUnordLessThanEqual32 | FPUnordLessThanEqual64
  | FPOrdGreaterThanEqual32 | FPOrdGreaterThanEqual64 | FPUnordGreaterThanEqual32 | FPUnordGreaterThanEqual64
  | FPIsNan32 | FPIsNan64 | FPIsInf32 | FPIsInf64 | FPCmpClass32 | IAdd32 | IAdd64 | IAddCarry32 | ISub32
  | ISub64 | IMul32 | IMul64 | SMulHi | UMulHi | SDiv32 | UDiv32 | SMod32 | UMod32 | INeg32 | INeg64 | IAbs32
  | ShiftLeftLogical32 | ShiftLeftLogical64 | ShiftRightLogical32 | ShiftRightLogical64
  | ShiftRightArithmetic32 | ShiftRightArithmetic64 | BitwiseAnd32 | BitwiseAnd64 | BitwiseOr32 | BitwiseOr64
  | BitwiseXor32 | BitFieldInsert | BitFieldSExtract | BitFieldUExtract | BitReverse32 | BitCount32
  | BitCount64 | BitwiseNot32 | FindSMsb32 | FindUMsb32 | FindUMsb64 | FindILsb32 | FindILsb64 | SMin32
  | UMin32 | SMax32 | UMax32 | SMinTri32 | UMinTri32 | SMaxTri32 | UMaxTri32 | SMedTri32 | UMedTri32
  | SClamp32 | UClamp32 | SLessThan32 | SLessThan64 | ULessThan32 | ULessThan64 | IEqual32 | IEqual64
  | SLessThanEqual32 | SLessThanEqual64 | ULessThanEqual32 | ULessThanEqual64 | SGreaterThan32
  | SGreaterThan64 | UGreaterThan32 | UGreaterThan64 | INotEqual32 | INotEqual64 | SGreaterThanEqual32
  | SGreaterThanEqual64 | UGreaterThanEqual32 | UGreaterThanEqual64 | LogicalOr | LogicalAnd | LogicalXor
  | LogicalNot | ConvertS32F32 | ConvertS32F64 | ConvertU32F32 | ConvertF16F32 | ConvertF32F16
  | ConvertF32F64 | ConvertF64F32 | ConvertF32S32 | ConvertF32U32 | ConvertF64S32 | ConvertF64U32
  | ConvertF32U16 | ConvertU16U32 | ConvertU32U16 | ConvertU64U32 | ConvertU8U32 | ConvertU32U8
  | ConvertS32S8 | ConvertS32S16 | ImageSampleRaw | ImageSampleImplicitLod | ImageSampleExplicitLod
  | ImageSampleDrefImplicitLod | ImageSampleDrefExplicitLod | ImageGather | ImageGatherDref
  | ImageQueryDimensions | ImageQueryLod | ImageGradient | ImageRead | ImageWrite | ImageAtomicIAdd32
  | ImageAtomicSMin32 | ImageAtomicUMin32 | ImageAtomicSMax32 | ImageAtomicUMax32 | ImageAtomicFMax32
  | ImageAtomicFMin32 | ImageAtomicInc32 | ImageAtomicDec32 | ImageAtomicAnd32 | ImageAtomicOr32
  | ImageAtomicXor32 | ImageAtomicExchange32 | ImageAtomicCmpSwap32 | CubeFaceIndex | LaneId | WarpId
  | QuadShuffle | ReadFirstLane | ReadLane | WriteLane | Ballot | BallotFindLsb | DataAppend | DataConsume
  | GroupAny.

(** The value of the enumerator, for decidable equality. *)
Definition opcode_index (o : Opcode) : positive :=
  match o with
  | Phi => 1 | Identity => 2 | Void => 3 | ConditionRef => 4 | Reference => 5 | PhiMove => 6 | Prologue => 7
  | Epilogue => 8 | Discard => 9 | DiscardCond => 10 | DebugPrint => 11 | ReadConst => 12
  | ReadConstBuffer => 13 | Barrier => 14 | WorkgroupMemoryBarrier => 15 | DeviceMemoryBarrier => 16
  | EmitVertex => 17 | EmitPrimitive => 18 | LoadSharedU16 => 19 | LoadSharedU32 => 20 | LoadSharedU64 => 21
  | WriteSharedU16 => 22 | WriteSharedU32 => 23 | WriteSharedU64 => 24 | SharedAtomicIAdd32 => 25
  | SharedAtomicIAdd64 => 26 | SharedAtomicISub32 => 27 | SharedAtomicISub64 => 28 | SharedAtomicSMin32 => 29
  | SharedAtomicSMin64 => 30 | SharedAtomicUMin32 => 31 | SharedAtomicUMin64 => 32 | SharedAtomicSMax32 => 33
  | SharedAtomicSMax64 => 34 | SharedAtomicUMax32 => 35 | SharedAtomicUMax64 => 36 | SharedAtomicInc32 => 37
  | SharedAtomicInc64 => 38 | SharedAtomicDec32 => 39 | SharedAtomicDec64 => 40 | SharedAtomicAnd32 => 41
  | SharedAtomicAnd64 => 42 | SharedAtomicOr32 => 43 | SharedAtomicOr64 => 44 | SharedAtomicXor32 => 45
  | SharedAtomicXor64 => 46 | GetUserData => 47 | GetThreadBitScalarReg => 48 | SetThreadBitScalarReg => 49
  | GetScalarRegister => 50 | SetScalarRegister => 51 | GetVectorRegister => 52 | SetVectorRegister => 53
  | GetGotoVariable => 54 | SetGotoVariable => 55 | GetMaskLaneVariable => 56 | SetMaskLaneVariable => 57
  | GetAttribute => 58 | GetAttributeU32 => 59 | SetAttribute => 60 | GetPatch => 61 | SetPatch => 62
  | GetTessGenericAttribute => 63 | SetTcsGenericAttribute => 64 | ReadTcsGenericOuputAttribute => 65
  | GetScc => 66 | GetExec => 67 | GetVcc => 68 | GetVccLo => 69 | GetVccHi => 70 | GetM0 => 71
  | SetScc => 72 | SetExec => 73 | SetVcc => 74 | SetSccLo => 75 | SetVccLo => 76 | SetVccHi => 77
  | SetM0 => 78 | UndefU1 => 79 | UndefU8 => 80 | UndefU16 => 81 | UndefU32 => 82 | UndefU64 => 83
  | LoadBufferU8 => 84 | LoadBufferU16 => 85 | LoadBufferU32 => 86 | LoadBufferU32x2 => 87
  | LoadBufferU32x3 => 88 | LoadBufferU32x4 => 89 | LoadBufferU64 => 90 | LoadBufferF32 => 91
  | LoadBufferF32x2 => 92 | LoadBufferF32x3 => 93 | LoadBufferF32x4 => 94 | LoadBufferFormatF32 => 95
  | StoreBufferU8 => 96 | StoreBufferU16 => 97 | StoreBufferU32 => 98 | StoreBufferU32x2 => 99
  | StoreBufferU32x3 => 100 | StoreBufferU32x4 => 101 | StoreBufferU64 => 102 | StoreBufferF32 => 103
  | StoreBufferF32x2 => 104 | StoreBufferF32x3 => 105 | StoreBufferF32x4 => 106 | StoreBufferFormatF32 => 107
  | BufferAtomicIAdd32 => 108 | BufferAtomicIAdd64 => 109 | BufferAtomicISub32 => 110
  | BufferAtomicSMin32 => 111 | BufferAtomicSMin64 => 112 | BufferAtomicUMin32 => 113
  | BufferAtomicUMin64 => 114 | BufferAtomicFMin32 => 115 | BufferAtomicSMax32 => 116
  | BufferAtomicSMax64 => 117 | BufferAtomicUMax32 => 118 | BufferAtomicUMax64 => 119
  | BufferAtomicFMax32 => 120 | BufferAtomicInc32 => 121 | BufferAtomicDec32 => 122
  | BufferAtomicAnd32 => 123 | BufferAtomicOr32 => 124 | BufferAtomicXor32 => 125 | BufferAtomicSwap32 => 126
  | BufferAtomicCmpSwap32 => 127 | BufferAtomicFCmpSwap32 => 128 | CompositeConstructU32x2 => 129
  | CompositeConstructU32x3 => 130 | CompositeConstructU32x4 => 131 | CompositeConstructU32x2x2 => 132
  | CompositeExtractU32x2 => 133 | CompositeExtractU32x3 => 134 | CompositeExtractU32x4 => 135
  | CompositeInsertU32x2 => 136 | CompositeInsertU32x3 => 137 | CompositeInsertU32x4 => 138
  | CompositeShuffleU32x2 => 139 | CompositeShuffleU32x3 => 140 | CompositeShuffleU32x4 => 141
  | CompositeConstructF32x2 => 142 | CompositeConstructF32x3 => 143 | CompositeConstructF32x4 => 144
  | CompositeConstructF32x2x2 => 145 | CompositeExtractF32x2 => 146 | CompositeExtractF32x3 => 147
  | CompositeExtractF32x4 => 148 | CompositeInsertF32x2 => 149 | CompositeInsertF32x3 => 150
  | CompositeInsertF32x4 => 151 | CompositeShuffleF32x2 => 152 | CompositeShuffleF32x3 => 153
  | CompositeShuffleF32x4 => 154 | SelectU1 => 155 | SelectU32 => 156 | SelectF32 => 157
  | BitCastU16F16 => 158 | BitCastU32F32 => 159 | BitCastF16U16 => 160 | BitCastF32U32 => 161
  | PackUint2x32 => 162 | UnpackUint2x32 => 163 | PackDouble2x32 => 164 | UnpackDouble2x32 => 165
  | PackUnorm2x16 => 166 | UnpackUnorm2x16 => 167 | PackSnorm2x16 => 168 | UnpackSnorm2x16 => 169
  | PackUint2x16 => 170 | UnpackUint2x16 => 171 | PackSint2x16 => 172 | UnpackSint2x16 => 173
  | PackHalf2x16 => 174 | UnpackHalf2x16 => 175 | PackUnorm4x8 => 176 | UnpackUnorm4x8 => 177
  | PackSnorm4x8 => 178 | UnpackSnorm4x8 => 179 | PackUint4x8 => 180 | UnpackUint4x8 => 181
  | PackSint4x8 => 182 | UnpackSint4x8 => 183 | PackUfloat10_11_11 => 184 | UnpackUfloat10_11_11 => 185
  | PackUnorm2_10_10_10 => 186 | UnpackUnorm2_10_10_10 => 187 | PackSnorm2_10_10_10 => 188
  | UnpackSnorm2_10_10_10 => 189 | PackUint2_10_10_10 => 190 | UnpackUint2_10_10_10 => 191
  | PackSint2_10_10_10 => 192 | UnpackSint2_10_10_10 => 193 | FPAbs32 => 194 | FPAbs64 => 195
  | FPAdd32 => 196 | FPAdd64 => 197 | FPSub32 => 198 | FPFma32 => 199 | FPFma64 => 200 | FPMax32 => 201
  | FPMax64 => 202 | FPMin32 => 203 | FPMin64 => 204 | FPMinTri32 => 205 | FPMaxTri32 => 206
  | FPMedTri32 => 207 | FPMul32 => 208 | FPMul64 => 209 | FPDiv32 => 210 | FPDiv64 => 211 | FPNeg32 => 212
  | FPNeg64 => 213 | FPRecip32 => 214 | FPRecip64 => 215 | FPRecipSqrt32 => 216 | FPRecipSqrt64 => 217
  | FPSqrt => 218 | FPSin => 219 | FPExp2 => 220 | FPPow => 221 | FPLdexp => 222 | FPCos => 223
  | FPLog2 => 224 | FPSaturate32 => 225 | FPSaturate64 => 226 | FPClamp32 => 227 | FPClamp64 => 228
  | FPRoundEven32 => 229 | FPRoundEven64 => 230 | FPFloor32 => 231 | FPFloor64 => 232 | FPCeil32 => 233
  | FPCeil64 => 234 | FPTrunc32 => 235 | FPTrunc64 => 236 | FPFract32 => 237 | FPFract64 => 238
  | FPFrexpSig32 => 239 | FPFrexpSig64 => 240 | FPFrexpExp32 => 241 | FPFrexpExp64 => 242
  | FPOrdEqual32 => 243 | FPOrdEqual64 => 244 | FPUnordEqual32 => 245 | FPUnordEqual64 => 246
  | FPOrdNotEqual32 => 247 | FPOrdNotEqual64 => 248 | FPUnordNotEqual32 => 249 | FPUnordNotEqual64 => 250
  | FPOrdLessThan32 => 251 | FPOrdLessThan64 => 252 | FPUnordLessThan32 => 253 | FPUnordLessThan64 => 254
  | FPOrdGreaterThan32 => 255 | FPOrdGreaterThan64 => 256 | FPUnordGreaterThan32 => 257
  | FPUnordGreaterThan64 => 258 | FPOrdLessThanEqual32 => 259 | FPOrdLessThanEqual64 => 260
  | FPUnordLessThanEqual32 => 261 | FPUnordLessThanEqual64 => 262 | FPOrdGreaterThanEqual32 => 263
  | FPOrdGreaterThanEqual64 => 264 | FPUnordGreaterThanEqual32 => 265 | FPUnordGreaterThanEqual64 => 266
  | FPIsNan32 => 267 | FPIsNan64 => 268 | FPIsInf32 => 269 | FPIsInf64 => 270 | FPCmpClass32 => 271
  | IAdd32 => 272 | IAdd64 => 273 | IAddCarry32 => 274 | ISub32 => 275 | ISub64 => 276 | IMul32 => 277
  | IMul64 => 278 | SMulHi => 279 | UMulHi => 280 | SDiv32 => 281 | UDiv32 => 282 | SMod32 => 283
  | UMod32 => 284 | INeg32 => 285 | INeg64 => 286 | IAbs32 => 287 | ShiftLeftLogical32 => 288
  | ShiftLeftLogical64 => 289 | ShiftRightLogical32 => 290 | ShiftRightLogical64 => 291
  | ShiftRightArithmetic32 => 292 | ShiftRightArithmetic64 => 293 | BitwiseAnd32 => 294 | BitwiseAnd64 => 295
  | BitwiseOr32 => 296 | BitwiseOr64 => 297 | BitwiseXor32 => 298 | BitFieldInsert => 299
  | BitFieldSExtract => 300 | BitFieldUExtract => 301 | BitReverse32 => 302 | BitCount32 => 303
  | BitCount64 => 304 | BitwiseNot32 => 305 | FindSMsb32 => 306 | FindUMsb32 => 307 | FindUMsb64 => 308
  | FindILsb32 => 309 | FindILsb64 => 310 | SMin32 => 311 | UMin32 => 312 | SMax32 => 313 | UMax32 => 314
  | SMinTri32 => 315 | UMinTri32 => 316 | SMaxTri32 => 317 | UMaxTri32 => 318 | SMedTri32 => 319
  | UMedTri32 => 320 | SClamp32 => 321 | UClamp32 => 322 | SLessThan32 => 323 | SLessThan64 => 324
  | ULessThan32 => 325 | ULessThan64 => 326 | IEqual32 => 327 | IEqual64 => 328 | SLessThanEqual32 => 329
  | SLessThanEqual64 => 330 | ULessThanEqual32 => 331 | ULessThanEqual64 => 332 | SGreaterThan32 => 333
  | SGreaterThan64 => 334 | UGreaterThan32 => 335 | UGreaterThan64 => 336 | INotEqual32 => 337
  | INotEqual64 => 338 | SGreaterThanEqual32 => 339 | SGreaterThanEqual64 => 340 | UGreaterThanEqual32 => 341
  | UGreaterThanEqual64 => 342 | LogicalOr => 343 | LogicalAnd => 344 | LogicalXor => 345 | LogicalNot => 346
  | ConvertS32F32 => 347 | ConvertS32F64 => 348 | ConvertU32F32 => 349 | ConvertF16F32 => 350
  | ConvertF32F16 => 351 | ConvertF32F64 => 352 | ConvertF64F32 => 353 | ConvertF32S32 => 354
  | ConvertF32U32 => 355 | ConvertF64S32 => 356 | ConvertF64U32 => 357 | ConvertF32U16 => 358
  | ConvertU16U32 => 359 | ConvertU32U16 => 360 | ConvertU64U32 => 361 | ConvertU8U32 => 362
  | ConvertU32U8 => 363 | ConvertS32S8 => 364 | ConvertS32S16 => 365 | ImageSampleRaw => 366
  | ImageSampleImplicitLod => 367 | ImageSampleExplicitLod => 368 | ImageSampleDrefImplicitLod => 369
  | ImageSampleDrefExplicitLod => 370 | ImageGather => 371 | ImageGatherDref => 372
  | ImageQueryDimensions => 373 | ImageQueryLod => 374 | ImageGradient => 375 | ImageRead => 376
  | ImageWrite => 377 | ImageAtomicIAdd32 => 378 | ImageAtomicSMin32 => 379 | ImageAtomicUMin32 => 380
  | ImageAtomicSMax32 => 381 | ImageAtomicUMax32 => 382 | ImageAtomicFMax32 => 383 | ImageAtomicFMin32 => 384
  | ImageAtomicInc32 => 385 | ImageAtomicDec32 => 386 | ImageAtomicAnd32 => 387 | ImageAtomicOr32 => 388
  | ImageAtomicXor32 => 389 | ImageAtomicExchange32 => 390 | ImageAtomicCmpSwap32 => 391
  | CubeFaceIndex => 392 | LaneId => 393 | WarpId => 394 | QuadShuffle => 395 | ReadFirstLane => 396
  | ReadLane => 397 | WriteLane => 398 | Ballot => 399 | BallotFindLsb => 400 | DataAppend => 401
  | DataConsume => 402 | GroupAny => 403
  end%positive.
Definition opcode_at (i : positive) : option Opcode :=
  match i with
  | 1 => Some Phi | 2 => Some Identity | 3 => Some Void | 4 => Some ConditionRef | 5 => Some Reference
  | 6 => Some PhiMove | 7 => Some Prologue | 8 => Some Epilogue | 9 => Some Discard | 10 => Some DiscardCond
  | 11 => Some DebugPrint | 12 => Some ReadConst | 13 => Some ReadConstBuffer | 14 => Some Barrier
  | 15 => Some WorkgroupMemoryBarrier | 16 => Some DeviceMemoryBarrier | 17 => Some EmitVertex
  | 18 => Some EmitPrimitive | 19 => Some LoadSharedU16 | 20 => Some LoadSharedU32 | 21 => Some LoadSharedU64
  | 22 => Some WriteSharedU16 | 23 => Some WriteSharedU32 | 24 => Some WriteSharedU64
  | 25 => Some SharedAtomicIAdd32 | 26 => Some SharedAtomicIAdd64 | 27 => Some SharedAtomicISub32
  | 28 => Some SharedAtomicISub64 | 29 => Some SharedAtomicSMin32 | 30 => Some SharedAtomicSMin64
  | 31 => Some SharedAtomicUMin32 | 32 => Some SharedAtomicUMin64 | 33 => Some SharedAtomicSMax32
  | 34 => Some SharedAtomicSMax64 | 35 => Some SharedAtomicUMax32 | 36 => Some SharedAtomicUMax64
  | 37 => Some SharedAtomicInc32 | 38 => Some SharedAtomicInc64 | 39 => Some SharedAtomicDec32
  | 40 => Some SharedAtomicDec64 | 41 => Some SharedAtomicAnd32 | 42 => Some SharedAtomicAnd64
  | 43 => Some SharedAtomicOr32 | 44 => Some SharedAtomicOr64 | 45 => Some SharedAtomicXor32
  | 46 => Some SharedAtomicXor64 | 47 => Some GetUserData | 48 => Some GetThreadBitScalarReg
  | 49 => Some SetThreadBitScalarReg | 50 => Some GetScalarRegister | 51 => Some SetScalarRegister
  | 52 => Some GetVectorRegister | 53 => Some SetVectorRegister | 54 => Some GetGotoVariable
  | 55 => Some SetGotoVariable | 56 => Some GetMaskLaneVariable | 57 => Some SetMaskLaneVariable
  | 58 => Some GetAttribute | 59 => Some GetAttributeU32 | 60 => Some SetAttribute | 61 => Some GetPatch
  | 62 => Some SetPatch | 63 => Some GetTessGenericAttribute | 64 => Some SetTcsGenericAttribute
  | 65 => Some ReadTcsGenericOuputAttribute | 66 => Some GetScc | 67 => Some GetExec | 68 => Some GetVcc
  | 69 => Some GetVccLo | 70 => Some GetVccHi | 71 => Some GetM0 | 72 => Some SetScc | 73 => Some SetExec
  | 74 => Some SetVcc | 75 => Some SetSccLo | 76 => Some SetVccLo | 77 => Some SetVccHi | 78 => Some SetM0
  | 79 => Some UndefU1 | 80 => Some UndefU8 | 81 => Some UndefU16 | 82 => Some UndefU32 | 83 => Some UndefU64
  | 84 => Some LoadBufferU8 | 85 => Some LoadBufferU16 | 86 => Some LoadBufferU32
  | 87 => Some LoadBufferU32x2 | 88 => Some LoadBufferU32x3 | 89 => Some LoadBufferU32x4
  | 90 => Some LoadBufferU64 | 91 => Some LoadBufferF32 | 92 => Some LoadBufferF32x2
  | 93 => Some LoadBufferF32x3 | 94 => Some LoadBufferF32x4 | 95 => Some LoadBufferFormatF32
  | 96 => Some StoreBufferU8 | 97 => Some StoreBufferU16 | 98 => Some StoreBufferU32
  | 99 => Some StoreBufferU32x2 | 100 => Some StoreBufferU32x3 | 101 => Some StoreBufferU32x4
  | 102 => Some StoreBufferU64 | 103 => Some StoreBufferF32 | 104 => Some StoreBufferF32x2
  | 105 => Some StoreBufferF32x3 | 106 => Some StoreBufferF32x4 | 107 => Some StoreBufferFormatF32
  | 108 => Some BufferAtomicIAdd32 | 109 => Some BufferAtomicIAdd64 | 110 => Some BufferAtomicISub32
  | 111 => Some BufferAtomicSMin32 | 112 => Some BufferAtomicSMin64 | 113 => Some BufferAtomicUMin32
  | 114 => Some BufferAtomicUMin64 | 115 => Some BufferAtomicFMin32 | 116 => Some BufferAtomicSMax32
  | 117 => Some BufferAtomicSMax64 | 118 => Some BufferAtomicUMax32 | 119 => Some BufferAtomicUMax64
  | 120 => Some BufferAtomicFMax32 | 121 => Some BufferAtomicInc32 | 122 => Some BufferAtomicDec32
  | 123 => Some BufferAtomicAnd32 | 124 => Some BufferAtomicOr32 | 125 => Some BufferAtomicXor32
  | 126 => Some BufferAtomicSwap32 | 127 => Some BufferAtomicCmpSwap32 | 128 => Some BufferAtomicFCmpSwap32
  | 129 => Some CompositeConstructU32x2 | 130 => Some CompositeConstructU32x3
  | 131 => Some CompositeConstructU32x4 | 132 => Some CompositeConstructU32x2x2
  | 133 => Some CompositeExtractU32x2 | 134 => Some CompositeExtractU32x3 | 135 => Some CompositeExtractU32x4
  | 136 => Some CompositeInsertU32x2 | 137 => Some CompositeInsertU32x3 | 138 => Some CompositeInsertU32x4
  | 139 => Some CompositeShuffleU32x2 | 140 => Some CompositeShuffleU32x3 | 141 => Some CompositeShuffleU32x4
  | 142 => Some CompositeConstructF32x2 | 143 => Some CompositeConstructF32x3
  | 144 => Some CompositeConstructF32x4 | 145 => Some CompositeConstructF32x2x2
  | 146 => Some CompositeExtractF32x2 | 147 => Some CompositeExtractF32x3 | 148 => Some CompositeExtractF32x4
  | 149 => Some CompositeInsertF32x2 | 150 => Some CompositeInsertF32x3 | 151 => Some CompositeInsertF32x4
  | 152 => Some CompositeShuffleF32x2 | 153 => Some CompositeShuffleF32x3 | 154 => Some CompositeShuffleF32x4
  | 155 => Some SelectU1 | 156 => Some SelectU32 | 157 => Some SelectF32 | 158 => Some BitCastU16F16
  | 159 => Some BitCastU32F32 | 160 => Some BitCastF16U16 | 161 => Some BitCastF32U32
  | 162 => Some PackUint2x32 | 163 => Some UnpackUint2x32 | 164 => Some PackDouble2x32
  | 165 => Some UnpackDouble2x32 | 166 => Some PackUnorm2x16 | 167 => Some UnpackUnorm2x16
  | 168 => Some PackSnorm2x16 | 169 => Some UnpackSnorm2x16 | 170 => Some PackUint2x16
  | 171 => Some UnpackUint2x16 | 172 => Some PackSint2x16 | 173 => Some UnpackSint2x16
  | 174 => Some PackHalf2x16 | 175 => Some UnpackHalf2x16 | 176 => Some PackUnorm4x8
  | 177 => Some UnpackUnorm4x8 | 178 => Some PackSnorm4x8 | 179 => Some UnpackSnorm4x8
  | 180 => Some PackUint4x8 | 181 => Some UnpackUint4x8 | 182 => Some PackSint4x8 | 183 => Some UnpackSint4x8
  | 184 => Some PackUfloat10_11_11 | 185 => Some UnpackUfloat10_11_11 | 186 => Some PackUnorm2_10_10_10
  | 187 => Some UnpackUnorm2_10_10_10 | 188 => Some PackSnorm2_10_10_10 | 189 => Some UnpackSnorm2_10_10_10
  | 190 => Some PackUint2_10_10_10 | 191 => Some UnpackUint2_10_10_10 | 192 => Some PackSint2_10_10_10
  | 193 => Some UnpackSint2_10_10_10 | 194 => Some FPAbs32 | 195 => Some FPAbs64 | 196 => Some FPAdd32
  | 197 => Some FPAdd64 | 198 => Some FPSub32 | 199 => Some FPFma32 | 200 => Some FPFma64
  | 201 => Some FPMax32 | 202 => Some FPMax64 | 203 => Some FPMin32 | 204 => Some FPMin64
  | 205 => Some FPMinTri32 | 206 => Some FPMaxTri32 | 207 => Some FPMedTri32 | 208 => Some FPMul32
  | 209 => Some FPMul64 | 210 => Some FPDiv32 | 211 => Some FPDiv64 | 212 => Some FPNeg32
  | 213 => Some FPNeg64 | 214 => Some FPRecip32 | 215 => Some FPRecip64 | 216 => Some FPRecipSqrt32
  | 217 => Some FPRecipSqrt64 | 218 => Some FPSqrt | 219 => Some FPSin | 220 => Some FPExp2
  | 221 => Some FPPow | 222 => Some FPLdexp | 223 => Some FPCos | 224 => Some FPLog2
  | 225 => Some FPSaturate32 | 226 => Some FPSaturate64 | 227 => Some FPClamp32 | 228 => Some FPClamp64
  | 229 => Some FPRoundEven32 | 230 => Some FPRoundEven64 | 231 => Some FPFloor32 | 232 => Some FPFloor64
  | 233 => Some FPCeil32 | 234 => Some FPCeil64 | 235 => Some FPTrunc32 | 236 => Some FPTrunc64
  | 237 => Some FPFract32 | 238 => Some FPFract64 | 239 => Some FPFrexpSig32 | 240 => Some FPFrexpSig64
  | 241 => Some FPFrexpExp32 | 242 => Some FPFrexpExp64 | 243 => Some FPOrdEqual32 | 244 => Some FPOrdEqual64
  | 245 => Some FPUnordEqual32 | 246 => Some FPUnordEqual64 | 247 => Some FPOrdNotEqual32
  | 248 => Some FPOrdNotEqual64 | 249 => Some FPUnordNotEqual32 | 250 => Some FPUnordNotEqual64
  | 251 => Some FPOrdLessThan32 | 252 => Some FPOrdLessThan64 | 253 => Some FPUnordLessThan32
  | 254 => Some FPUnordLessThan64 | 255 => Some FPOrdGreaterThan32 | 256 => Some FPOrdGreaterThan64
  | 257 => Some FPUnordGreaterThan32 | 258 => Some FPUnordGreaterThan64 | 259 => Some FPOrdLessThanEqual32
  | 260 => Some FPOrdLessThanEqual64 | 261 => Some FPUnordLessThanEqual32
  | 262 => Some FPUnordLessThanEqual64 | 263 => Some FPOrdGreaterThanEqual32
  | 264 => Some FPOrdGreaterThanEqual64 | 265 => Some FPUnordGreaterThanEqual32
  | 266 => Some FPUnordGreaterThanEqual64 | 267 => Some FPIsNan32 | 268 => Some FPIsNan64
  | 269 => Some FPIsInf32 | 270 => Some FPIsInf64 | 271 => Some FPCmpClass32 | 272 => Some IAdd32
  | 273 => Some IAdd64 | 274 => Some IAddCarry32 | 275 => Some ISub32 | 276 => Some ISub64
  | 277 => Some IMul32 | 278 => Some IMul64 | 279 => Some SMulHi | 280 => Some UMulHi | 281 => Some SDiv32
  | 282 => Some UDiv32 | 283 => Some SMod32 | 284 => Some UMod32 | 285 => Some INeg32 | 286 => Some INeg64
  | 287 => Some IAbs32 | 288 => Some ShiftLeftLogical32 | 289 => Some ShiftLeftLogical64
  | 290 => Some ShiftRightLogical32 | 291 => Some ShiftRightLogical64 | 292 => Some ShiftRightArithmetic32
  | 293 => Some ShiftRightArithmetic64 | 294 => Some BitwiseAnd32 | 295 => Some BitwiseAnd64
  | 296 => Some BitwiseOr32 | 297 => Some BitwiseOr64 | 298 => Some BitwiseXor32 | 299 => Some BitFieldInsert
  | 300 => Some BitFieldSExtract | 301 => Some BitFieldUExtract | 302 => Some BitReverse32
  | 303 => Some BitCount32 | 304 => Some BitCount64 | 305 => Some BitwiseNot32 | 306 => Some FindSMsb32
  | 307 => Some FindUMsb32 | 308 => Some FindUMsb64 | 309 => Some FindILsb32 | 310 => Some FindILsb64
  | 311 => Some SMin32 | 312 => Some UMin32 | 313 => Some SMax32 | 314 => Some UMax32 | 315 => Some SMinTri32
  | 316 => Some UMinTri32 | 317 => Some SMaxTri32 | 318 => Some UMaxTri32 | 319 => Some SMedTri32
  | 320 => Some UMedTri32 | 321 => Some SClamp32 | 322 => Some UClamp32 | 323 => Some SLessThan32
  | 324 => Some SLessThan64 | 325 => Some ULessThan32 | 326 => Some ULessThan64 | 327 => Some IEqual32
  | 328 => Some IEqual64 | 329 => Some SLessThanEqual32 | 330 => Some SLessThanEqual64
  | 331 => Some ULessThanEqual32 | 332 => Some ULessThanEqual64 | 333 => Some SGreaterThan32
  | 334 => Some SGreaterThan64 | 335 => Some UGreaterThan32 | 336 => Some UGreaterThan64
  | 337 => Some INotEqual32 | 338 => Some INotEqual64 | 339 => Some SGreaterThanEqual32
  | 340 => Some SGreaterThanEqual64 | 341 => Some UGreaterThanEqual32 | 342 => Some UGreaterThanEqual64
  | 343 => Some LogicalOr | 344 => Some LogicalAnd | 345 => Some LogicalXor | 346 => Some LogicalNot
  | 347 => Some ConvertS32F32 | 348 => Some ConvertS32F64 | 349 => Some ConvertU32F32
  | 350 => Some ConvertF16F32 | 351 => Some ConvertF32F16 | 352 => Some ConvertF32F64
  | 353 => Some ConvertF64F32 | 354 => Some ConvertF32S32 | 355 => Some ConvertF32U32
  | 356 => Some ConvertF64S32 | 357 => Some ConvertF64U32 | 358 => Some ConvertF32U16
  | 359 => Some ConvertU16U32 | 360 => Some ConvertU32U16 | 361 => Some ConvertU64U32
  | 362 => Some ConvertU8U32 | 363 => Some ConvertU32U8 | 364 => Some ConvertS32S8
  | 365 => Some ConvertS32S16 | 366 => Some ImageSampleRaw | 367 => Some ImageSampleImplicitLod
  | 368 => Some ImageSampleExplicitLod | 369 => Some ImageSampleDrefImplicitLod
  | 370 => Some ImageSampleDrefExplicitLod | 371 => Some ImageGather | 372 => Some ImageGatherDref
  | 373 => Some ImageQueryDimensions | 374 => Some ImageQueryLod | 375 => Some ImageGradient
  | 376 => Some ImageRead | 377 => Some ImageWrite | 378 => Some ImageAtomicIAdd32
  | 379 => Some ImageAtomicSMin32 | 380 => Some ImageAtomicUMin32 | 381 => Some ImageAtomicSMax32
  | 382 => Some ImageAtomicUMax32 | 383 => Some ImageAtomicFMax32 | 384 => Some ImageAtomicFMin32
  | 385 => Some ImageAtomicInc32 | 386 => Some ImageAtomicDec32 | 387 => Some ImageAtomicAnd32
  | 388 => Some ImageAtomicOr32 | 389 => Some ImageAtomicXor32 | 390 => Some ImageAtomicExchange32
  | 391 => Some ImageAtomicCmpSwap32 | 392 => Some CubeFaceIndex | 393 => Some LaneId | 394 => Some WarpId
  | 395 => Some QuadShuffle | 396 => Some ReadFirstLane | 397 => Some ReadLane | 398 => Some WriteLane
  | 399 => Some Ballot | 400 => Some BallotFindLsb | 401 => Some DataAppend | 402 => Some DataConsume
  | 403 => Some GroupAny
  | _ => None
  end%positive.

Lemma opcode_at_index o : opcode_at (opcode_index o) = Some o.
Proof. by destruct o. Qed.
#[export] Instance opcode_eq_dec : EqDecision Opcode.
Proof.
  intros a b. destruct (decide (opcode_index a = opcode_index b)) as [E|E]; [left|right; congruence].
  pose proof (opcode_at_index a) as Ha. rewrite E, opcode_at_index in Ha. congruence.
Defined.
#[export] Instance type_eq_dec : EqDecision Type_.
Proof. solve_decision. Defined.

(** [META_TABLE]: the type of the result and the types of the arguments, up to the first [Void]. *)
Definition meta (o : Opcode) : Type_ * list Type_ :=
  match o with
  | Phi => (T_Opaque, [])
  | Identity => (T_Opaque, [T_Opaque])
  | Void | Prologue | Epilogue | Discard | Barrier | WorkgroupMemoryBarrier | DeviceMemoryBarrier
  | EmitVertex | EmitPrimitive => (T_Void, [])
  | ConditionRef | LogicalNot | GroupAny => (T_U1, [T_U1])
  | Reference => (T_Void, [T_Opaque])
  | PhiMove => (T_Void, [T_Opaque; T_Opaque])
  | DiscardCond | SetScc | SetExec | SetVcc => (T_Void, [T_U1])
  | DebugPrint => (T_Void, [T_StringLiteral; T_Opaque; T_Opaque; T_Opaque; T_Opaque])
  | ReadConst | CompositeExtractU32x2 => (T_U32, [T_U32x2; T_U32])
  | ReadConstBuffer => (T_U32, [T_Opaque; T_U32])
  | LoadSharedU16 | ConvertU16U32 => (T_U16, [T_U32])
  | LoadSharedU32 | SharedAtomicInc32 | SharedAtomicDec32 | INeg32 | IAbs32 | BitReverse32 | BitCount32
  | BitwiseNot32 | FindSMsb32 | FindUMsb32 | FindILsb32 | ReadFirstLane => (T_U32, [T_U32])
  | LoadSharedU64 | SharedAtomicInc64 | SharedAtomicDec64 | ConvertU64U32 => (T_U64, [T_U32])
  | WriteSharedU16 => (T_Void, [T_U32; T_U16])
  | WriteSharedU32 => (T_Void, [T_U32; T_U32])
  | WriteSharedU64 => (T_Void, [T_U32; T_U64])
  | SharedAtomicIAdd32 | SharedAtomicISub32 | SharedAtomicSMin32 | SharedAtomicUMin32 | SharedAtomicSMax32
  | SharedAtomicUMax32 | SharedAtomicAnd32 | SharedAtomicOr32 | SharedAtomicXor32 | IAdd32 | ISub32 | IMul32
  | SMulHi | UMulHi | SDiv32 | UDiv32 | SMod32 | UMod32 | ShiftLeftLogical32 | ShiftRightLogical32
  | ShiftRightArithmetic32 | BitwiseAnd32 | BitwiseOr32 | BitwiseXor32 | SMin32 | UMin32 | SMax32 | UMax32
  | QuadShuffle | ReadLane | DataAppend | DataConsume => (T_U32, [T_U32; T_U32])
  | SharedAtomicIAdd64 | SharedAtomicISub64 | SharedAtomicSMin64 | SharedAtomicUMin64 | SharedAtomicSMax64
  | SharedAtomicUMax64 | SharedAtomicAnd64 | SharedAtomicOr64 | SharedAtomicXor64 => (T_U64, [T_U32; T_U64])
  | GetUserData | GetScalarRegister => (T_U32, [T_ScalarReg])
  | GetThreadBitScalarReg => (T_U1, [T_ScalarReg])
  | SetThreadBitScalarReg => (T_Void, [T_ScalarReg; T_U1])
  | SetScalarRegister => (T_Void, [T_ScalarReg; T_U32])
  | GetVectorRegister => (T_U32, [T_VectorReg])
  | SetVectorRegister => (T_Void, [T_VectorReg; T_U32])
  | GetGotoVariable => (T_U1, [T_U32])
  | SetGotoVariable => (T_Void, [T_U32; T_U1])
  | GetMaskLaneVariable => (T_U1, [T_VectorReg; T_U32])
  | SetMaskLaneVariable => (T_Void, [T_VectorReg; T_U32; T_U1])
  | GetAttribute => (T_F32, [T_Attribute; T_U32; T_U32])
  | GetAttributeU32 => (T_U32, [T_Attribute; T_U32])
  | SetAttribute => (T_Void, [T_Attribute; T_F32; T_U32])
  | GetPatch => (T_F32, [T_Patch])
  | SetPatch => (T_Void, [T_Patch; T_F32])
  | GetTessGenericAttribute | ReadTcsGenericOuputAttribute => (T_F32, [T_U32; T_U32; T_U32])
  | SetTcsGenericAttribute => (T_Void, [T_F32; T_U32; T_U32])
  | GetScc | GetExec | GetVcc | UndefU1 => (T_U1, [])
  | GetVccLo | GetVccHi | GetM0 | UndefU32 | LaneId | WarpId => (T_U32, [])
  | SetSccLo | SetVccLo | SetVccHi | SetM0 => (T_Void, [T_U32])
  | UndefU8 => (T_U8, [])
  | UndefU16 => (T_U16, [])
  | UndefU64 => (T_U64, [])
  | LoadBufferU8 => (T_U8, [T_Opaque; T_Opaque])
  | LoadBufferU16 => (T_U16, [T_Opaque; T_Opaque])
  | LoadBufferU32 | BufferAtomicInc32 | BufferAtomicDec32 => (T_U32, [T_Opaque; T_Opaque])
  | LoadBufferU32x2 => (T_U32x2, [T_Opaque; T_Opaque])
  | LoadBufferU32x3 => (T_U32x3, [T_Opaque; T_Opaque])
  | LoadBufferU32x4 => (T_U32x4, [T_Opaque; T_Opaque])
  | LoadBufferU64 => (T_U64, [T_Opaque; T_Opaque])
  | LoadBufferF32 => (T_F32, [T_Opaque; T_Opaque])
  | LoadBufferF32x2 => (T_F32x2, [T_Opaque; T_Opaque])
  | LoadBufferF32x3 => (T_F32x3, [T_Opaque; T_Opaque])
  | LoadBufferF32x4 | LoadBufferFormatF32 | ImageQueryLod => (T_F32x4, [T_Opaque; T_Opaque])
  | StoreBufferU8 => (T_Void, [T_Opaque; T_Opaque; T_U8])
  | StoreBufferU16 => (T_Void, [T_Opaque; T_Opaque; T_U16])
  | StoreBufferU32 => (T_Void, [T_Opaque; T_Opaque; T_U32])
  | StoreBufferU32x2 => (T_Void, [T_Opaque; T_Opaque; T_U32x2])
  | StoreBufferU32x3 => (T_Void, [T_Opaque; T_Opaque; T_U32x3])
  | StoreBufferU32x4 => (T_Void, [T_Opaque; T_Opaque; T_U32x4])
  | StoreBufferU64 => (T_Void, [T_Opaque; T_Opaque; T_U64])
  | StoreBufferF32 => (T_Void, [T_Opaque; T_Opaque; T_F32])
  | StoreBufferF32x2 => (T_Void, [T_Opaque; T_Opaque; T_F32x2])
  | StoreBufferF32x3 => (T_Void, [T_Opaque; T_Opaque; T_F32x3])
  | StoreBufferF32x4 | StoreBufferFormatF32 => (T_Void, [T_Opaque; T_Opaque; T_F32x4])
  | BufferAtomicIAdd32 | BufferAtomicISub32 | BufferAtomicSMin32 | BufferAtomicUMin32 | BufferAtomicSMax32
  | BufferAtomicUMax32 | BufferAtomicAnd32 | BufferAtomicOr32 | BufferAtomicXor32 | BufferAtomicSwap32
  | ImageAtomicIAdd32 | ImageAtomicSMin32 | ImageAtomicUMin32 | ImageAtomicSMax32 | ImageAtomicUMax32
  | ImageAtomicInc32 | ImageAtomicDec32 | ImageAtomicAnd32 | ImageAtomicOr32 | ImageAtomicXor32
  | ImageAtomicExchange32 => (T_U32, [T_Opaque; T_Opaque; T_U32])
  | BufferAtomicIAdd64 | BufferAtomicSMin64 | BufferAtomicUMin64 | BufferAtomicSMax64 | BufferAtomicUMax64 => (T_U64, [T_Opaque; T_Opaque; T_U64])
  | BufferAtomicFMin32 | BufferAtomicFMax32 | ImageAtomicFMax32 | ImageAtomicFMin32 => (T_F32, [T_Opaque; T_Opaque; T_F32])
  | BufferAtomicCmpSwap32 | ImageAtomicCmpSwap32 => (T_U32, [T_Opaque; T_Opaque; T_U32; T_U32])
  | BufferAtomicFCmpSwap32 => (T_F32, [T_Opaque; T_Opaque; T_F32; T_F32])
  | CompositeConstructU32x2 | IAddCarry32 => (T_U32x2, [T_U32; T_U32])
  | CompositeConstructU32x3 => (T_U32x3, [T_U32; T_U32; T_U32])
  | CompositeConstructU32x4 => (T_U32x4, [T_U32; T_U32; T_U32; T_U32])
  | CompositeConstructU32x2x2 => (T_U32x4, [T_U32x2; T_U32x2])
  | CompositeExtractU32x3 => (T_U32, [T_U32x3; T_U32])
  | CompositeExtractU32x4 => (T_U32, [T_U32x4; T_U32])
  | CompositeInsertU32x2 => (T_U32x2, [T_U32x2; T_U32; T_U32])
  | CompositeInsertU32x3 => (T_U32x3, [T_U32x3; T_U32; T_U32])
  | CompositeInsertU32x4 => (T_U32x4, [T_U32x4; T_U32; T_U32])
  | CompositeShuffleU32x2 => (T_U32x2, [T_U32x2; T_U32x2; T_U32; T_U32])
  | CompositeShuffleU32x3 => (T_U32x3, [T_U32x3; T_U32x3; T_U32; T_U32; T_U32])
  | CompositeShuffleU32x4 => (T_U32x4, [T_U32x4; T_U32x4; T_U32; T_U32; T_U32; T_U32])
  | CompositeConstructF32x2 => (T_F32x2, [T_F32; T_F32])
  | CompositeConstructF32x3 => (T_F32x3, [T_F32; T_F32; T_F32])
  | CompositeConstructF32x4 => (T_F32x4, [T_F32; T_F32; T_F32; T_F32])
  | CompositeConstructF32x2x2 => (T_F32x4, [T_F32x2; T_F32x2])
  | CompositeExtractF32x2 => (T_F32, [T_F32x2; T_U32])
  | CompositeExtractF32x3 => (T_F32, [T_F32x3; T_U32])
  | CompositeExtractF32x4 => (T_F32, [T_F32x4; T_U32])
  | CompositeInsertF32x2 => (T_F32x2, [T_F32x2; T_F32; T_U32])
  | CompositeInsertF32x3 => (T_F32x3, [T_F32x3; T_F32; T_U32])
  | CompositeInsertF32x4 => (T_F32x4, [T_F32x4; T_F32; T_U32])
  | CompositeShuffleF32x2 => (T_F32x2, [T_F32x2; T_F32x2; T_U32; T_U32])
  | CompositeShuffleF32x3 => (T_F32x3, [T_F32x3; T_F32x3; T_U32; T_U32; T_U32])
  | CompositeShuffleF32x4 => (T_F32x4, [T_F32x4; T_F32x4; T_U32; T_U32; T_U32; T_U32])
  | SelectU1 => (T_U1, [T_U1; T_U1; T_U1])
  | SelectU32 => (T_U32, [T_U1; T_U32; T_U32])
  | SelectF32 => (T_F32, [T_U1; T_F32; T_F32])
  | BitCastU16F16 => (T_U16, [T_F16])
  | BitCastU32F32 | FPFrexpExp32 | ConvertS32F32 | ConvertU32F32 => (T_U32, [T_F32])
  | BitCastF16U16 => (T_F16, [T_U16])
  | BitCastF32U32 | ConvertF32S32 | ConvertF32U32 => (T_F32, [T_U32])
  | PackUint2x32 => (T_U64, [T_U32x2])
  | UnpackUint2x32 => (T_U32x2, [T_U64])
  | PackDouble2x32 => (T_F64, [T_U32x2])
  | UnpackDouble2x32 => (T_U32x2, [T_F64])
  | PackUnorm2x16 | PackSnorm2x16 | PackUint2x16 | PackSint2x16 | PackHalf2x16 => (T_U32, [T_F32x2])
  | UnpackUnorm2x16 | UnpackSnorm2x16 | UnpackUint2x16 | UnpackSint2x16 | UnpackHalf2x16 => (T_F32x2, [T_U32])
  | PackUnorm4x8 | PackSnorm4x8 | PackUint4x8 | PackSint4x8 | PackUnorm2_10_10_10 | PackSnorm2_10_10_10
  | PackUint2_10_10_10 | PackSint2_10_10_10 => (T_U32, [T_F32x4])
  | UnpackUnorm4x8 | UnpackSnorm4x8 | UnpackUint4x8 | UnpackSint4x8 | UnpackUnorm2_10_10_10
  | UnpackSnorm2_10_10_10 | UnpackUint2_10_10_10 | UnpackSint2_10_10_10 => (T_F32x4, [T_U32])
  | PackUfloat10_11_11 => (T_U32, [T_F32x3])
  | UnpackUfloat10_11_11 => (T_F32x3, [T_U32])
  | FPAbs32 | FPNeg32 | FPRecip32 | FPRecipSqrt32 | FPSqrt | FPSin | FPExp2 | FPCos | FPLog2 | FPSaturate32
  | FPRoundEven32 | FPFloor32 | FPCeil32 | FPTrunc32 | FPFract32 | FPFrexpSig32 => (T_F32, [T_F32])
  | FPAbs64 | FPNeg64 | FPRecip64 | FPRecipSqrt64 | FPSaturate64 | FPRoundEven64 | FPFloor64 | FPCeil64
  | FPTrunc64 | FPFract64 | FPFrexpSig64 => (T_F64, [T_F64])
  | FPAdd32 | FPSub32 | FPMax32 | FPMin32 | FPMul32 | FPDiv32 | FPPow => (T_F32, [T_F32; T_F32])
  | FPAdd64 | FPMax64 | FPMin64 | FPMul64 | FPDiv64 => (T_F64, [T_F64; T_F64])
  | FPFma32 | FPMinTri32 | FPMaxTri32 | FPMedTri32 | FPClamp32 => (T_F32, [T_F32; T_F32; T_F32])
  | FPFma64 | FPClamp64 => (T_F64, [T_F64; T_F64; T_F64])
  | FPLdexp => (T_F32, [T_F32; T_U32])
  | FPFrexpExp64 | ConvertS32F64 => (T_U32, [T_F64])
  | FPOrdEqual32 | FPUnordEqual32 | FPOrdNotEqual32 | FPUnordNotEqual32 | FPOrdLessThan32 | FPUnordLessThan32
  | FPOrdGreaterThan32 | FPUnordGreaterThan32 | FPOrdLessThanEqual32 | FPUnordLessThanEqual32
  | FPOrdGreaterThanEqual32 | FPUnordGreaterThanEqual32 => (T_U1, [T_F32; T_F32])
  | FPOrdEqual64 | FPUnordEqual64 | FPOrdNotEqual64 | FPUnordNotEqual64 | FPOrdLessThan64 | FPUnordLessThan64
  | FPOrdGreaterThan64 | FPUnordGreaterThan64 | FPOrdLessThanEqual64 | FPUnordLessThanEqual64
  | FPOrdGreaterThanEqual64 | FPUnordGreaterThanEqual64 => (T_U1, [T_F64; T_F64])
  | FPIsNan32 | FPIsInf32 => (T_U1, [T_F32])
  | FPIsNan64 | FPIsInf64 => (T_U1, [T_F64])
  | FPCmpClass32 => (T_U1, [T_F32; T_U32])
  | IAdd64 | ISub64 | IMul64 | BitwiseAnd64 | BitwiseOr64 => (T_U64, [T_U64; T_U64])
  | INeg64 => (T_U64, [T_U64])
  | ShiftLeftLogical64 | ShiftRightLogical64 | ShiftRightArithmetic64 => (T_U64, [T_U64; T_U32])
  | BitFieldInsert => (T_U32, [T_U32; T_U32; T_U32; T_U32])
  | BitFieldSExtract | BitFieldUExtract | SMinTri32 | UMinTri32 | SMaxTri32 | UMaxTri32 | SMedTri32
  | UMedTri32 | SClamp32 | UClamp32 | WriteLane => (T_U32, [T_U32; T_U32; T_U32])
  | BitCount64 | FindUMsb64 | FindILsb64 => (T_U32, [T_U64])
  | SLessThan32 | ULessThan32 | IEqual32 | SLessThanEqual32 | ULessThanEqual32 | SGreaterThan32
  | UGreaterThan32 | INotEqual32 | SGreaterThanEqual32 | UGreaterThanEqual32 => (T_U1, [T_U32; T_U32])
  | SLessThan64 | ULessThan64 | IEqual64 | SLessThanEqual64 | ULessThanEqual64 | SGreaterThan64
  | UGreaterThan64 | INotEqual64 | SGreaterThanEqual64 | UGreaterThanEqual64 => (T_U1, [T_U64; T_U64])
  | LogicalOr | LogicalAnd | LogicalXor => (T_U1, [T_U1; T_U1])
  | ConvertF16F32 => (T_F16, [T_F32])
  | ConvertF32F16 => (T_F32, [T_F16])
  | ConvertF32F64 => (T_F32, [T_F64])
  | ConvertF64F32 => (T_F64, [T_F32])
  | ConvertF64S32 | ConvertF64U32 => (T_F64, [T_U32])
  | ConvertF32U16 => (T_F32, [T_U16])
  | ConvertU32U16 | ConvertS32S16 => (T_U32, [T_U16])
  | ConvertU8U32 => (T_U8, [T_U32])
  | ConvertU32U8 | ConvertS32S8 => (T_U32, [T_U8])
  | ImageSampleRaw => (T_F32x4, [T_Opaque; T_Opaque; T_F32x4; T_F32x4; T_F32x4; T_F32])
  | ImageSampleImplicitLod => (T_F32x4, [T_Opaque; T_F32x4; T_F32; T_Opaque])
  | ImageSampleExplicitLod => (T_F32x4, [T_Opaque; T_Opaque; T_F32; T_Opaque])
  | ImageSampleDrefImplicitLod | ImageSampleDrefExplicitLod => (T_F32x4, [T_Opaque; T_Opaque; T_F32; T_F32; T_Opaque])
  | ImageGather => (T_F32x4, [T_Opaque; T_Opaque; T_Opaque])
  | ImageGatherDref => (T_F32x4, [T_Opaque; T_Opaque; T_Opaque; T_F32])
  | ImageQueryDimensions => (T_U32x4, [T_Opaque; T_U32; T_U1])
  | ImageGradient => (T_F32x4, [T_Opaque; T_Opaque; T_Opaque; T_Opaque; T_Opaque; T_F32])
  | ImageRead => (T_F32x4, [T_Opaque; T_Opaque; T_U32; T_U32])
  | ImageWrite => (T_Void, [T_Opaque; T_Opaque; T_U32; T_U32; T_F32x4])
  | CubeFaceIndex => (T_F32, [T_F32x3])
  | Ballot => (T_U32x4, [T_U1])
  | BallotFindLsb => (T_U32, [T_U32x4])
  end.

(** [TypeOf], [ArgTypeOf] and [NumArgsOf] *)
Definition TypeOf (o : Opcode) : Type_ := (meta o).1.
Definition ArgTypeOf (o : Opcode) (arg_index : Z) : Type_ := default T_Void ((meta o).2.[arg_index]).
Definition NumArgsOf (o : Opcode) : Z := zlen (meta o).2.

Lemma NumArgsOf_range o : 0 <= NumArgsOf o <= 6.
Proof. by destruct o. Qed.
