(* ===== verification/ShaderIr.v ===== *)
(** * The shader representation

    The values and instructions of src/src/shader_recompiler/ir (value.h, value.cpp,
    microinstruction.cpp) and the blocks they live in (basic_block.cpp). The instructions are a
    pool: a pointer to an instruction is a key of the map [insts], and the lists of uses that an
    instruction keeps are part of it. [None] is [UNREACHABLE], an assertion, or an access to a
    member of the union that is not the one stored. *)
From Stdlib Require Import ZArith Lia.
From stdpp Require Import base gmap list strings.
From S2P Require Import Prelude.
From S2P Require Import IrOpcodes.

(** * Values *)

(** [IR::Value]: the tag and the member of the union it selects. Floats are their bits. *)
Inductive Value :=
| VEmpty
| VInst (inst : Z)
| VScalarReg (reg : Z)
| VVectorReg (reg : Z)
| VAttribute (attribute : Z)
| VPatch (patch : Z)
| ImmU1 (value : bool)
| ImmU8 (value : Z)
| ImmU16 (value : Z)
| ImmU32 (value : Z)
| ImmF32 (bits : Z)
| ImmU64 (value : Z)
| ImmF64 (bits : Z)
| VString (literal : string).
#[export] Instance value_eq_dec : EqDecision Value.
Proof. solve_decision. Defined.

(** * Instructions *)

(** [IR::Inst]. The union of [args] and [phi_args] is both fields; the one the opcode does not
    select is empty. A use is the user and the index of its operand. *)
Record Inst := mkInst {
  op : Opcode;
  flags : Z;
  args : list Value;
  phi_args : list (Z * Value);
  uses : list (Z * Z);
}.
#[export] Instance eta_Inst : Eta Inst := fun i => mkInst (op i) (flags i) (args i) (phi_args i) (uses i).
#[export] Instance upd_op : Upd op := ltac:(derive_upd Inst op).
#[export] Instance upd_flags : Upd flags := ltac:(derive_upd Inst flags).
#[export] Instance upd_args : Upd args := ltac:(derive_upd Inst args).
#[export] Instance upd_phi_args : Upd phi_args := ltac:(derive_upd Inst phi_args).
#[export] Instance upd_uses : Upd uses := ltac:(derive_upd Inst uses).

(** The array of six empty values. *)
Definition no_args : list Value := filled 6 VEmpty.
Definition new_inst (o : Opcode) (fl : Z) : Inst := mkInst o fl (if decide (o = Phi) then [] else no_args) [] [].

(** The instructions of a program and, for each block, the list of its instructions. *)
Record Ir := mkIr {
  insts : gmap Z Inst;
  next_inst : Z;
  blocks : gmap Z (list Z);
}.
#[export] Instance eta_Ir : Eta Ir := fun p => mkIr (insts p) (next_inst p) (blocks p).
#[export] Instance upd_insts : Upd insts := ltac:(derive_upd Ir insts).
#[export] Instance upd_next_inst : Upd next_inst := ltac:(derive_upd Ir next_inst).
#[export] Instance upd_blocks : Upd blocks := ltac:(derive_upd Ir blocks).

(** [NumArgs], [Arg] *)
Definition NumArgs (inst : Inst) : Z := if decide (op inst = Phi) then zlen (phi_args inst) else NumArgsOf (op inst).
Definition Arg (inst : Inst) (index : Z) : option Value :=
  if decide (op inst = Phi) then snd <$> (phi_args inst).[index] else (args inst).[index].

(** * Following identities

    The recursions of [Value::Resolve] and [Value::IsImmediate] have one turn of fuel for each
    instruction: no identity leads back to itself. *)
Fixpoint resolve (fuel : nat) (p : Ir) (v : Value) : option Value :=
  match v with
  | VInst i =>
      inst ← insts p !! i;
      if decide (op inst = Identity) then
        match fuel with O => None | S n => arg ← Arg inst 0; resolve n p arg end
      else Some v
  | _ => Some v
  end.
Definition Resolve (p : Ir) (v : Value) : option Value := resolve (size (insts p)) p v.
Definition IsIdentity (p : Ir) (v : Value) : option bool :=
  match v with VInst i => inst ← insts p !! i; Some (bool_decide (op inst = Identity)) | _ => Some false end.
Definition IsImmediate (p : Ir) (v : Value) : option bool :=
  r ← Resolve p v; Some (match r with VInst _ => false | _ => true end).

(** [InstRecursive], and the accessors of immediates through identities. *)
Definition InstRecursive (p : Ir) (v : Value) : option Z :=
  r ← Resolve p v; match r with VInst i => Some i | _ => None end.
Definition U1 (p : Ir) (v : Value) : option bool := r ← Resolve p v; match r with ImmU1 x => Some x | _ => None end.
Definition U32 (p : Ir) (v : Value) : option Z := r ← Resolve p v; match r with ImmU32 x => Some x | _ => None end.
Definition F32 (p : Ir) (v : Value) : option Z := r ← Resolve p v; match r with ImmF32 x => Some x | _ => None end.
(** The 64-bit integers and floats share the bytes of the union. *)
Definition U64 (p : Ir) (v : Value) : option Z := r ← Resolve p v; match r with ImmU64 x | ImmF64 x => Some x | _ => None end.

(** * Changing instructions *)

Definition set_inst (i : Z) (f : Inst -> Inst) (p : Ir) : Ir := p <| insts ::= alter f i |>.

Definition Use (user operand used : Z) (p : Ir) : Ir := set_inst used (fun u => u <| uses ::= fun l => (user, operand) :: l |>) p.
Definition UndoUse (user operand used : Z) (p : Ir) : Ir :=
  set_inst used (fun u => u <| uses ::= List.filter (fun x => negb (bool_decide (x = (user, operand)))) |>) p.

(** A use by [user] of a value that is not an immediate. *)
Definition on_inst (f : Z -> Ir -> Ir) (v : Value) (p : Ir) : option Ir :=
  imm ← IsImmediate p v;
  if imm : bool then Some p else match v with VInst j => Some (f j p) | _ => None end.

Definition put_arg (index : Z) (value : Value) (inst : Inst) : Inst :=
  if decide (op inst = Phi)
  then inst <| phi_args ::= alter (fun bv => (bv.1, value)) (Z.to_nat index) |>
  else inst <| args ::= <[Z.to_nat index := value]> |>.

Definition SetArg (i index : Z) (value : Value) (p : Ir) : option Ir :=
  inst ← insts p !! i;
  if NumArgs inst <=? index then None else
  arg ← Arg inst index;
  p ← on_inst (UndoUse i index) arg p;
  p ← on_inst (Use i index) value p;
  Some (set_inst i (put_arg index value) p).

Definition AddPhiOperand (i predecessor : Z) (value : Value) (p : Ir) : option Ir :=
  inst ← insts p !! i;
  p ← on_inst (Use i (zlen (phi_args inst))) value p;
  Some (set_inst i (fun inst => inst <| phi_args ::= fun l => l ++ [(predecessor, value)] |>) p).

(** The loop of [ClearArgs] from operand [k] on. *)
Fixpoint undo_uses (i k : Z) (l : list Value) (p : Ir) : option Ir :=
  match l with
  | [] => Some p
  | v :: r => p ← on_inst (UndoUse i k) v p; undo_uses i (k + 1) r p
  end.
Definition ClearArgs (i : Z) (p : Ir) : option Ir :=
  inst ← insts p !! i;
  if decide (op inst = Phi) then
    p ← undo_uses i 0 (phi_args inst).*2 p; Some (set_inst i (fun inst => inst <| phi_args := [] |>) p)
  else
    p ← undo_uses i 0 (args inst) p; Some (set_inst i (fun inst => inst <| args := no_args |>) p).

Definition ReplaceOpcode (i : Z) (o : Opcode) (p : Ir) : option Ir :=
  if decide (o = Phi) then None else
  Some (set_inst i (fun inst =>
    (if decide (op inst = Phi) then inst <| phi_args := [] |> <| args := no_args |> else inst) <| op := o |>) p).

Definition Invalidate (i : Z) (p : Ir) : option Ir := p ← ClearArgs i p; ReplaceOpcode i Void p.

Fixpoint set_users (temp_uses : list (Z * Z)) (replacement : Value) (p : Ir) : option Ir :=
  match temp_uses with
  | [] => Some p
  | (user, operand) :: r => p ← SetArg user operand replacement p; set_users r replacement p
  end.
Definition ReplaceUses (i : Z) (replacement : Value) (preserve : bool) (p : Ir) : option Ir :=
  inst ← insts p !! i;
  p ← set_users (uses inst) replacement p;
  p ← Invalidate i p;
  if preserve then p ← ReplaceOpcode i Identity p; SetArg i 0 replacement p else Some p.
Definition ReplaceUsesWithAndRemove (i : Z) (replacement : Value) : Ir -> option Ir := ReplaceUses i replacement false.
Definition ReplaceUsesWith (i : Z) (replacement : Value) : Ir -> option Ir := ReplaceUses i replacement true.

Definition AreAllArgsImmediates (p : Ir) (inst : Inst) : option bool :=
  if decide (op inst = Phi) then None else
  foldr (fun v k => imm ← IsImmediate p v; if imm : bool then k else Some false) (Some true) (take (Z.to_nat (NumArgs inst)) (args inst)).

(** [MayHaveSideEffects] *)
Definition MayHaveSideEffects (inst : Inst) : bool :=
  match op inst with
  | Barrier | WorkgroupMemoryBarrier | DeviceMemoryBarrier | ConditionRef | Reference | PhiMove | Prologue
  | Epilogue | Discard | DiscardCond | SetAttribute | SetTcsGenericAttribute | SetPatch | StoreBufferU8
  | StoreBufferU16 | StoreBufferU32 | StoreBufferU32x2 | StoreBufferU32x3 | StoreBufferU32x4
  | StoreBufferU64 | StoreBufferF32 | StoreBufferF32x2 | StoreBufferF32x3 | StoreBufferF32x4
  | StoreBufferFormatF32 | BufferAtomicIAdd32 | BufferAtomicIAdd64 | BufferAtomicISub32
  | BufferAtomicSMin32 | BufferAtomicSMin64 | BufferAtomicUMin32 | BufferAtomicUMin64 | BufferAtomicFMin32
  | BufferAtomicSMax32 | BufferAtomicSMax64 | BufferAtomicUMax32 | BufferAtomicUMax64 | BufferAtomicFMax32
  | BufferAtomicInc32 | BufferAtomicDec32 | BufferAtomicAnd32 | BufferAtomicOr32 | BufferAtomicXor32
  | BufferAtomicSwap32 | BufferAtomicCmpSwap32 | BufferAtomicFCmpSwap32 | DataAppend | DataConsume
  | WriteSharedU16 | WriteSharedU32 | WriteSharedU64 | SharedAtomicIAdd32 | SharedAtomicISub32
  | SharedAtomicSMin32 | SharedAtomicUMin32 | SharedAtomicSMax32 | SharedAtomicUMax32 | SharedAtomicInc32
  | SharedAtomicDec32 | SharedAtomicAnd32 | SharedAtomicOr32 | SharedAtomicXor32 | SharedAtomicIAdd64
  | SharedAtomicISub64 | SharedAtomicSMin64 | SharedAtomicUMin64 | SharedAtomicSMax64 | SharedAtomicUMax64
  | SharedAtomicInc64 | SharedAtomicDec64 | SharedAtomicAnd64 | SharedAtomicOr64 | SharedAtomicXor64
  | ImageWrite | ImageAtomicIAdd32 | ImageAtomicSMin32 | ImageAtomicUMin32 | ImageAtomicSMax32
  | ImageAtomicUMax32 | ImageAtomicFMax32 | ImageAtomicFMin32 | ImageAtomicInc32 | ImageAtomicDec32
  | ImageAtomicAnd32 | ImageAtomicOr32 | ImageAtomicXor32 | ImageAtomicExchange32 | ImageAtomicCmpSwap32
  | DebugPrint | EmitVertex | EmitPrimitive => true
  | _ => false
  end.

(** * Blocks *)

(** [list::insert]: before the instruction [at_], or at the end. *)
Fixpoint insert_at (at_ : option Z) (i : Z) (l : list Z) : list Z :=
  match l with
  | [] => [i]
  | j :: r => if bool_decide (at_ = Some j) then i :: l else j :: insert_at at_ i r
  end.

(** The arguments of a new instruction. *)
Fixpoint set_args (i k : Z) (l : list Value) (p : Ir) : option Ir :=
  match l with
  | [] => Some p
  | v :: r => p ← SetArg i k v p; set_args i (k + 1) r p
  end.
Definition PrependNewInst (block : Z) (insertion_point : option Z) (o : Opcode) (l : list Value) (fl : Z) (p : Ir) : option (Z * Ir) :=
  let inst := next_inst p in
  let p := p <| insts ::= <[inst := new_inst o fl]> |> <| next_inst := inst + 1 |>
             <| blocks ::= alter (insert_at insertion_point inst) block |> in
  if negb (NumArgs (new_inst o fl) =? zlen l) then None else
  p ← set_args inst 0 l p; Some (inst, p).
Definition AppendNewInst (block : Z) (o : Opcode) (l : list Value) (p : Ir) : option Ir :=
  '(_, p) ← PrependNewInst block None o l 0 p; Some p.
(** [PrependNewInst] of a copy of [base]. The source sets its arguments before it is in the block. *)
Definition PrependCopy (block : Z) (insertion_point : option Z) (base : Z) (p : Ir) : option (Z * Ir) :=
  base ← insts p !! base;
  if decide (op base = Phi) then None else
  PrependNewInst block insertion_point (op base) (take (Z.to_nat (NumArgs base)) (args base)) (flags base) p.

(** * Well-formed programs *)

(** An instruction without its uses, and the program without them. *)
Definition shape (inst : Inst) : Inst := inst <| uses := [] |>.
Definition shapes (p : Ir) : gmap Z Inst := shape <$> insts p.
Definition uses_of (p : Ir) (j : Z) : list (Z * Z) := match insts p !! j with Some inst => uses inst | None => [] end.
Definition op_of (p : Ir) (j : Z) : option Opcode := op <$> insts p !! j.

(** An instruction that has a value of its own. *)
Definition live (o : Opcode) : Prop := o <> Void /\ o <> Identity.
Definition live_at (p : Ir) (j : Z) : Prop := exists o, op_of p j = Some o /\ live o.
(** Operand [k] of [i] is the instruction [j]. An argument past the operands of the opcode is left over
    from an earlier opcode and is not one. *)
Definition refers (p : Ir) (i k j : Z) : Prop :=
  exists inst, shapes p !! i = Some inst /\ k < NumArgs inst /\ Arg inst k = Some (VInst j).
(** A value that may be an operand: an immediate, or an instruction with a result. *)
Definition has_result (o : Opcode) : Prop := TypeOf o <> T_Void.
Definition good (p : Ir) (v : Value) : Prop := match v with VInst j => exists o, op_of p j = Some o /\ has_result o | _ => True end.
Lemma result_not_void o : has_result o -> o <> Void.
Proof. by intros H ->. Qed.

Record inst_ok (inst : Inst) : Prop := {
  io_phi : op inst = Phi -> args inst = [];
  io_args : op inst <> Phi -> phi_args inst = [] /\ zlen (args inst) = 6;
}.
(** The part that does not depend on the uses, and all of it. *)
Record sound (p : Ir) : Prop := {
  so_inst : forall i inst, shapes p !! i = Some inst -> inst_ok inst /\ 0 <= i < next_inst p;
  so_good : forall i k j, refers p i k j -> good p (VInst j);
  so_spare : forall i inst k j, shapes p !! i = Some inst -> Arg inst k = Some (VInst j) ->
    k < NumArgs inst \/ exists o, op_of p j = Some o /\ ~ live o;
  so_blocks : forall b l, blocks p !! b = Some l -> NoDup l /\ forall i, i ∈ l -> is_Some (shapes p !! i);
  so_next : 0 <= next_inst p;
}.
Record wf (p : Ir) : Prop := {
  wf_sound : sound p;
  wf_uses : forall j, live_at p j -> NoDup (uses_of p j) /\ forall i k, (i, k) ∈ uses_of p j <-> refers p i k j;
}.
(** Operands come before the instruction, except around loops, which phis close. *)
Definition rank_ok (p : Ir) (rank : Z -> nat) : Prop :=
  forall i k j, refers p i k j -> op_of p i <> Some Phi -> (rank j < rank i)%nat.

(** ** Shapes *)

Lemma Arg_shape inst k : Arg (shape inst) k = Arg inst k.
Proof. done. Qed.
Lemma NumArgs_shape inst : NumArgs (shape inst) = NumArgs inst.
Proof. done. Qed.
Lemma shapes_lookup p i : shapes p !! i = shape <$> insts p !! i.
Proof. apply lookup_fmap. Qed.
Lemma shapes_Some p i inst : insts p !! i = Some inst -> shapes p !! i = Some (shape inst).
Proof. intros H. by rewrite shapes_lookup, H. Qed.
Lemma shapes_inv p i s : shapes p !! i = Some s -> exists inst, insts p !! i = Some inst /\ s = shape inst.
Proof. rewrite shapes_lookup. destruct (insts p !! i); [|done]. intros [= <-]. by eexists. Qed.
Lemma op_shapes p i : op_of p i = op <$> shapes p !! i.
Proof. unfold op_of. rewrite shapes_lookup. by destruct (insts p !! i). Qed.
Lemma shape_eta o f a ph u : shape (mkInst o f a ph u) = mkInst o f a ph [].
Proof. done. Qed.

(** The parts of a program that do not depend on the uses. *)
Definition same_shape (p p' : Ir) : Prop := shapes p = shapes p' /\ next_inst p = next_inst p' /\ blocks p = blocks p'.

Lemma shape_refl p : same_shape p p.
Proof. done. Qed.
Lemma shape_trans p q r : same_shape p q -> same_shape q r -> same_shape p r.
Proof. intros (?&?&?) (?&?&?). repeat split; congruence. Qed.

Lemma same_op p p' j : same_shape p p' -> op_of p j = op_of p' j.
Proof. intros (H & _). by rewrite !op_shapes, H. Qed.
Lemma same_live p p' j : same_shape p p' -> live_at p j <-> live_at p' j.
Proof. intros H. unfold live_at. by rewrite (same_op p p' j H). Qed.
Lemma same_refers p p' i k j : same_shape p p' -> refers p i k j <-> refers p' i k j.
Proof. intros (H & _). unfold refers. by rewrite H. Qed.
Lemma same_good p p' v : same_shape p p' -> good p v <-> good p' v.
Proof. intros H. destruct v; try done. cbn. by rewrite (same_op p p' _ H). Qed.
Lemma same_rank p p' rank : same_shape p p' -> rank_ok p rank <-> rank_ok p' rank.
Proof. intros H. unfold rank_ok. by setoid_rewrite (same_refers p p' _ _ _ H); setoid_rewrite (same_op p p' _ H). Qed.

Lemma same_size p p' : same_shape p p' -> size (insts p) = size (insts p').
Proof. intros (H & _). rewrite <- (map_size_fmap shape (insts p)), <- (map_size_fmap shape (insts p')). by f_equal. Qed.

Lemma same_resolve p p' : same_shape p p' -> forall n v, resolve n p v = resolve n p' v.
Proof.
  intros (H & _). assert (Hl : forall i, shape <$> insts p !! i = shape <$> insts p' !! i) by (intros i; by rewrite <- !shapes_lookup, H).
  induction n as [|n IH]; intros v; destruct v as [|i| | | | | | | | | | | |]; try done; cbn; specialize (Hl i);
    destruct (insts p !! i) as [a|], (insts p' !! i) as [b|]; try done; cbn in *; injection Hl as Hl1 Hl2 Hl3 Hl4; rewrite Hl1;
    destruct (decide (op b = Identity)); try done.
  unfold Arg. rewrite Hl1, Hl3, Hl4. destruct (if decide _ then _ else _); cbn; [apply IH|done].
Qed.
Lemma same_Resolve p p' v : same_shape p p' -> Resolve p v = Resolve p' v.
Proof. intros H. unfold Resolve. rewrite (same_size p p' H). by apply same_resolve. Qed.
Lemma same_IsImmediate p p' v : same_shape p p' -> IsImmediate p v = IsImmediate p' v.
Proof. intros H. unfold IsImmediate. by rewrite (same_Resolve p p' v H). Qed.

(** ** Following identities ends *)

Lemma refers_intro p i inst k j : insts p !! i = Some inst -> k < NumArgs inst -> Arg inst k = Some (VInst j) -> refers p i k j.
Proof. intros Hi Hk Ha. exists (shape inst). split; [by apply shapes_Some|done]. Qed.
(** An argument that is a live instruction is an operand. *)
Lemma refers_live p i inst k j : sound p -> shapes p !! i = Some inst -> Arg inst k = Some (VInst j) -> live_at p j -> refers p i k j.
Proof.
  intros Hs Hi Ha (o & Ho & Hl). exists inst. split; [done|]. split; [|done].
  destruct (so_spare p Hs i inst k j Hi Ha) as [?|(o' & Ho' & Hn)]; [done|]. destruct Hn. congruence.
Qed.
(** The arguments that are not operands are identities or removed. *)
Definition there (p : Ir) (v : Value) : Prop := good p v \/ exists j, v = VInst j /\ op_of p j = Some Void.
Lemma arg_there p i inst k v : sound p -> insts p !! i = Some inst -> Arg inst k = Some v -> there p v.
Proof.
  intros Hs Hi Ha. destruct v as [|j| | | | | | | | | | | |]; try by left.
  destruct (so_spare p Hs i _ k j (shapes_Some _ _ _ Hi) Ha) as [Hk|(o & Ho & Hn)]; [left; apply (so_good p Hs i k j); by eapply refers_intro|].
  destruct (decide (o = Void)) as [->|Hv]; [right; by exists j|left; exists o; split; [done|]].
  destruct (decide (o = Identity)) as [->|]; [done|]. by destruct Hn.
Qed.

Lemma wf_arg0 p i inst : sound p -> insts p !! i = Some inst -> op inst = Identity -> exists a, Arg inst 0 = Some a.
Proof.
  intros Hwf Hi Ho. destruct (so_inst p Hwf i _ (shapes_Some _ _ _ Hi)) as [[_ H] _]. destruct (H ltac:(cbn; congruence)) as [_ Hl].
  unfold Arg. rewrite decide_False by congruence. apply at_index_Some. change (args (shape inst)) with (args inst) in Hl. lia.
Qed.

(** The instructions below a rank. *)
Definition under (p : Ir) (rank : Z -> nat) (n : nat) : gset Z := filter (fun i => (rank i < n)%nat) (dom (insts p)).

Lemma under_size p rank n : (size (under p rank n) <= size (insts p))%nat.
Proof. rewrite <- size_dom. apply subseteq_size. intros i. unfold under. rewrite elem_of_filter. tauto. Qed.
Lemma under_step p rank i inst n : insts p !! i = Some inst -> (n <= rank i)%nat -> (size (under p rank n) < size (under p rank (S (rank i))))%nat.
Proof.
  intros Hi Hn. apply subset_size. apply elem_of_dom_2 in Hi as Hd. split.
  - intros j. unfold under. rewrite !elem_of_filter. intros [??]. split; [lia|done].
  - intros H. assert (Hin : i ∈ under p rank (S (rank i))) by (unfold under; rewrite elem_of_filter; split; [lia|done]).
    apply H in Hin. unfold under in Hin. rewrite elem_of_filter in Hin. lia.
Qed.

Lemma resolve_spec p rank : sound p -> rank_ok p rank -> forall n v, good p v ->
  (forall i, v = VInst i -> (size (under p rank (S (rank i))) <= n)%nat) ->
  exists r, resolve n p v = Some r /\ good p r /\ forall j, r = VInst j -> live_at p j /\ forall i, v = VInst i -> (rank j <= rank i)%nat.
Proof.
  intros Hwf Hrk. induction n as [|n IH]; intros v Hg Hn; destruct v as [|i| | | | | | | | | | | |]; try (eexists; split; [done|]; split; [done|]; by intros ? [=]);
    destruct Hg as (o & Ho & Hg); pose proof (result_not_void o Hg) as Hv; unfold op_of in Ho; destruct (insts p !! i) as [inst|] eqn:Hi; try done; injection Ho as <-; cbn; rewrite Hi; cbn;
    (destruct (decide (op inst = Identity)) as [Hid|Hid]; [|exists (VInst i); split; [done|]; split; [exists (op inst); unfold op_of; by rewrite Hi|];
      intros j [= <-]; split; [exists (op inst); unfold op_of; rewrite Hi; done|by intros ? [= <-]]]).
  - pose proof (Hn i eq_refl). pose proof (under_step p rank i inst (rank i) Hi ltac:(done)). lia.
  - destruct (wf_arg0 p i inst Hwf Hi Hid) as [a Ha]. rewrite Ha. cbn.
    assert (H1 : 0 < NumArgs inst) by (unfold NumArgs; by rewrite Hid).
    assert (Hga : good p a) by (destruct a; try done; eapply so_good; [done|by eapply refers_intro]).
    assert (Hrank : forall j, a = VInst j -> (rank j < rank i)%nat).
    { intros j ->. apply (Hrk i 0 j); [by eapply refers_intro|]. unfold op_of. rewrite Hi. cbn. congruence. }
    destruct (IH a Hga) as (r & Hr & Hgr & Hlr).
    { intros j Hj. specialize (Hrank j Hj). pose proof (under_step p rank i inst (S (rank j)) Hi ltac:(lia)). pose proof (Hn i eq_refl). lia. }
    exists r. split; [done|]. split; [done|]. intros j Hj. destruct (Hlr j Hj) as [Hl Hle]. split; [done|]. intros i' [= <-].
    destruct a; try (subst r; destruct n; cbn in Hr; congruence). specialize (Hle _ eq_refl). specialize (Hrank _ eq_refl). lia.
Qed.

Lemma Resolve_spec p rank v : sound p -> rank_ok p rank -> good p v ->
  exists r, Resolve p v = Some r /\ good p r /\ forall j, r = VInst j -> live_at p j /\ forall i, v = VInst i -> (rank j <= rank i)%nat.
Proof. intros Hwf Hrk Hg. apply (resolve_spec p rank Hwf Hrk); [done|]. intros i _. apply under_size. Qed.

Lemma Resolve_live p j : live_at p j -> Resolve p (VInst j) = Some (VInst j).
Proof.
  intros (o & Ho & Hv & Hi). unfold op_of in Ho. destruct (insts p !! j) as [inst|] eqn:Hj; [|done]. injection Ho as <-.
  unfold Resolve. destruct (size (insts p)); cbn; rewrite Hj; cbn; by rewrite decide_False.
Qed.

Lemma IsImmediate_spec p rank v : sound p -> rank_ok p rank -> good p v -> exists b, IsImmediate p v = Some b.
Proof. intros Hwf Hrk Hg. unfold IsImmediate. destruct (Resolve_spec p rank v Hwf Hrk Hg) as (r & -> & _). by eexists. Qed.
Lemma IsImmediate_live p j : live_at p j -> IsImmediate p (VInst j) = Some false.
Proof. intros H. unfold IsImmediate. by rewrite (Resolve_live p j H). Qed.

(** ** Changing operands *)

Lemma set_inst_lookup i f p j : insts (set_inst i f p) !! j = if decide (j = i) then f <$> insts p !! i else insts p !! j.
Proof.
  unfold set_inst. change (insts (p <| insts ::= alter f i |>)) with (alter f i (insts p)).
  case_decide as E; [subst; apply lookup_alter_eq|by rewrite lookup_alter_ne].
Qed.
Lemma set_uses_shape i f p : (forall inst, shape (f inst) = shape inst) -> same_shape p (set_inst i f p).
Proof.
  intros Hf. repeat split. apply map_eq. intros j. rewrite !shapes_lookup, set_inst_lookup. case_decide as E; [subst|done].
  destruct (insts p !! i); [|done]. cbn. by rewrite Hf.
Qed.
Lemma set_uses_of i f g p j : (forall inst, uses (f inst) = g (uses inst)) -> is_Some (insts p !! i) ->
  uses_of (set_inst i f p) j = if decide (j = i) then g (uses_of p j) else uses_of p j.
Proof.
  intros Hf [inst Hi]. unfold uses_of. rewrite set_inst_lookup. case_decide as E; [subst j|done]. rewrite Hi. cbn. apply Hf.
Qed.

Definition without (u : Z * Z) (l : list (Z * Z)) : list (Z * Z) := List.filter (fun x => negb (bool_decide (x = u))) l.
Lemma elem_of_without u l x : x ∈ without u l <-> x ∈ l /\ x <> u.
Proof. unfold without. rewrite !list_elem_of_In, List.filter_In, negb_true_iff, bool_decide_eq_false. done. Qed.
Lemma NoDup_without u l : NoDup l -> NoDup (without u l).
Proof. rewrite !NoDup_ListNoDup. apply List.NoDup_filter. Qed.

Lemma live_insts p j : live_at p j -> is_Some (insts p !! j).
Proof. intros (o & Ho & _). unfold op_of in Ho. destruct (insts p !! j); [by eexists|done]. Qed.

Lemma IsImmediate_void p j : op_of p j = Some Void -> IsImmediate p (VInst j) = Some false.
Proof.
  unfold op_of. intros Ho. destruct (insts p !! j) as [inst|] eqn:Hj; [|done]. injection Ho as Ho. unfold IsImmediate, Resolve.
  destruct (size (insts p)); cbn; rewrite Hj; cbn; by rewrite decide_False by congruence.
Qed.
(** What [Use] and [UndoUse] do to the uses of live instructions. *)
Lemma on_inst_spec f g p rank v :
  (forall j q, same_shape q (f j q)) ->
  (forall j q j', is_Some (insts q !! j) -> uses_of (f j q) j' = if decide (j' = j) then g (uses_of q j') else uses_of q j') ->
  sound p -> rank_ok p rank -> there p v ->
  exists p', on_inst f v p = Some p' /\ same_shape p p' /\
    forall j, live_at p j -> uses_of p' j = if decide (v = VInst j) then g (uses_of p j) else uses_of p j.
Proof.
  intros Hs Hu Hwf Hrk [Hg|(i & -> & Ho)]; unfold on_inst.
  2: { rewrite (IsImmediate_void p i Ho). exists (f i p). split; [done|]. split; [apply Hs|]. intros j (o & Hj & Hl & _).
    rewrite Hu by (unfold op_of in Ho; destruct (insts p !! i); [by eexists|done]). rewrite !decide_False by congruence. done. }
  destruct (Resolve_spec p rank v Hwf Hrk Hg) as (r & Hr & _ & Hlive).
  destruct (IsImmediate_spec p rank v Hwf Hrk Hg) as [b Hb]. rewrite Hb. cbn. destruct b.
  - exists p. split; [done|]. split; [done|]. intros j Hj. rewrite decide_False; [done|]. intros ->. rewrite IsImmediate_live in Hb; done.
  - destruct v as [|i| | | | | | | | | | | |]; try (unfold IsImmediate in Hb; unfold Resolve in *; by destruct (size (insts p)); cbn in *; injection Hr as <-).
    exists (f i p). split; [done|]. split; [apply Hs|]. intros j Hj. rewrite Hu.
    2: { destruct Hg as (o & Ho & _). unfold op_of in Ho. destruct (insts p !! i); [by eexists|done]. }
    destruct (decide (j = i)) as [->|]; [by rewrite decide_True|]. rewrite decide_False; [done|congruence].
Qed.

Lemma undo_spec p rank i k v : sound p -> rank_ok p rank -> there p v ->
  exists p', on_inst (UndoUse i k) v p = Some p' /\ same_shape p p' /\
    forall j, live_at p j -> uses_of p' j = if decide (v = VInst j) then without (i, k) (uses_of p j) else uses_of p j.
Proof.
  apply on_inst_spec; [intros; by apply set_uses_shape|]. intros j q j' Hj. by apply set_uses_of.
Qed.
Lemma use_spec p rank i k v : sound p -> rank_ok p rank -> there p v ->
  exists p', on_inst (Use i k) v p = Some p' /\ same_shape p p' /\
    forall j, live_at p j -> uses_of p' j = if decide (v = VInst j) then (i, k) :: uses_of p j else uses_of p j.
Proof.
  apply on_inst_spec; [intros; by apply set_uses_shape|]. intros j q j' Hj. by apply (set_uses_of _ _ (fun l => (i, k) :: l)).
Qed.

Lemma same_sound p p' : same_shape p p' -> sound p -> sound p'.
Proof.
  intros Hs [Hi Hg Hsp Hb Hnx]. pose proof Hs as (Hsh & Hn & Hbl). constructor; [..|by rewrite <- Hn].
  - intros i inst H. rewrite <- Hsh in H. rewrite <- Hn. by apply Hi.
  - intros i k j Hr. apply (same_good p p' (VInst j) Hs). apply (Hg i k j). by apply (same_refers p p').
  - intros i inst k j H Ha. rewrite <- Hsh in H. rewrite <- (same_op p p' j Hs). by apply (Hsp i).
  - intros b l Hl. rewrite <- Hbl in Hl. destruct (Hb b l Hl) as [Hnd H]. split; [done|]. intros i Hin. rewrite <- Hsh. by apply H.
Qed.

Lemma at_insert {A} (l : list A) k x k' : 0 <= k < zlen l -> (<[Z.to_nat k := x]> l).[k'] = if decide (k' = k) then Some x else l.[k'].
Proof.
  intros Hk. unfold at_index, zlen in *. case_decide as E.
  - case_decide as E2; [subst; apply list_lookup_insert_eq; lia|]. apply list_lookup_insert_ne. lia.
  - rewrite decide_False; [done|]. lia.
Qed.
Lemma at_alter {A} (f : A -> A) (l : list A) k k' : 0 <= k -> (alter f (Z.to_nat k) l).[k'] = if decide (k' = k) then f <$> l.[k] else l.[k'].
Proof.
  intros Hk. unfold at_index. rewrite (decide_True (P := 0 <= k)) by lia. case_decide as E.
  - case_decide as E2; [subst; apply list_lookup_alter_eq|]. apply list_lookup_alter_ne. lia.
  - rewrite decide_False; [done|]. lia.
Qed.
Lemma at_fmap {A B} (f : A -> B) (l : list A) k : (f <$> l).[k] = f <$> l.[k].
Proof. unfold at_index. case_decide; [apply list_lookup_fmap|done]. Qed.
Lemma at_neg {A} (l : list A) k : k < 0 -> l.[k] = None.
Proof. intros H. unfold at_index. by rewrite decide_False by lia. Qed.

Lemma NumArgs_bound inst : inst_ok inst -> 0 <= NumArgs inst /\ (op inst <> Phi -> NumArgs inst <= 6).
Proof.
  intros _. unfold NumArgs. case_decide; [split; [apply zlen_nonneg|done]|]. pose proof (NumArgsOf_range (op inst)). lia.
Qed.
Lemma Arg_in inst k : inst_ok inst -> 0 <= k < NumArgs inst -> exists v, Arg inst k = Some v.
Proof.
  intros Hok Hk. unfold Arg, NumArgs in *. case_decide as E.
  - destruct (at_index_Some (phi_args inst) k Hk) as [bv ->]. by eexists.
  - apply at_index_Some. destruct (io_args inst Hok E) as [_ ->]. pose proof (NumArgsOf_range (op inst)). lia.
Qed.

Lemma put_arg_spec k v inst : inst_ok inst -> 0 <= k < NumArgs inst ->
  op (put_arg k v inst) = op inst /\ flags (put_arg k v inst) = flags inst /\ NumArgs (put_arg k v inst) = NumArgs inst /\
  (forall k', Arg (put_arg k v inst) k' = if decide (k' = k) then Some v else Arg inst k') /\ inst_ok (put_arg k v inst).
Proof.
  intros Hok Hk. assert (Hop : op (put_arg k v inst) = op inst) by (unfold put_arg; by case_decide).
  assert (Hnum : NumArgs (put_arg k v inst) = NumArgs inst).
  { unfold NumArgs. rewrite Hop. case_decide as E; [|done]. unfold put_arg. rewrite decide_True by done. cbn. unfold zlen. by rewrite length_alter. }
  assert (Harg : forall k', Arg (put_arg k v inst) k' = if decide (k' = k) then Some v else Arg inst k').
  { intros k'. unfold Arg. rewrite Hop. unfold NumArgs, put_arg in *. destruct (decide (op inst = Phi)) as [E|E]; cbn in Hk |- *.
    - rewrite at_alter by lia. destruct (decide (k' = k)); [|done]. by destruct (at_index_Some (phi_args inst) k Hk) as [bv ->].
    - rewrite at_insert; [done|]. destruct (io_args inst Hok E) as [_ ->]. pose proof (NumArgsOf_range (op inst)). lia. }
  repeat split; try done; try (unfold put_arg; by case_decide).
  - rewrite Hop. intros E. unfold put_arg. rewrite decide_True by done. cbn. by apply io_phi.
  - rewrite Hop in H. unfold put_arg. rewrite decide_False by done. cbn. apply (io_args inst Hok H).
  - rewrite Hop in H. unfold put_arg. rewrite decide_False by done. cbn. unfold zlen. rewrite length_insert. apply (io_args inst Hok H).
Qed.

(** [p'] is [p] with [v] as operand [k] of [i]. *)
Definition puts (p p' : Ir) (i k : Z) (v : Value) : Prop :=
  shapes p' = alter (put_arg k v) i (shapes p) /\ next_inst p' = next_inst p /\ blocks p' = blocks p.

Lemma shape_ok p i inst : sound p -> insts p !! i = Some inst -> inst_ok inst /\ inst_ok (shape inst).
Proof.
  intros Hwf Hi. destruct (so_inst p Hwf i _ (shapes_Some _ _ _ Hi)) as [H _]. split; [|done]. destruct H as [H1 H2]. by constructor.
Qed.

Lemma puts_op p p' i k v : puts p p' i k v -> forall j, op_of p' j = op_of p j.
Proof.
  intros (Hs & _) j. rewrite !op_shapes, Hs. destruct (decide (j = i)) as [->|]; [rewrite lookup_alter_eq|by rewrite lookup_alter_ne].
  destruct (shapes p !! i) as [s|]; [|done]. cbn. unfold put_arg. by case_decide.
Qed.
Lemma puts_good p p' i k v : puts p p' i k v -> forall w, good p' w <-> good p w.
Proof. intros H w. destruct w; try done. cbn. by rewrite (puts_op _ _ _ _ _ H). Qed.
Lemma puts_live p p' i k v : puts p p' i k v -> forall j, live_at p' j <-> live_at p j.
Proof. intros H j. unfold live_at. by rewrite (puts_op _ _ _ _ _ H). Qed.

Lemma puts_refers p p' i k v inst : puts p p' i k v -> sound p -> insts p !! i = Some inst -> 0 <= k < NumArgs inst ->
  forall a c j, refers p' a c j <-> if decide ((a, c) = (i, k)) then v = VInst j else refers p a c j.
Proof.
  intros (Hs & _) Hwf Hi Hk a c j. destruct (shape_ok p i inst Hwf Hi) as [_ Hok].
  destruct (put_arg_spec k v (shape inst) Hok Hk) as (_ & _ & Hnum & Harg & _). unfold refers. rewrite Hs.
  destruct (decide (a = i)) as [->|Hne].
  - rewrite lookup_alter_eq, (shapes_Some _ _ _ Hi). cbn. case_decide as E.
    + injection E as ->. split; [intros (x & [= <-] & _ & Hx); rewrite Harg, decide_True in Hx by done; congruence|].
      intros ->. eexists; split; [done|]. rewrite Hnum, Harg, decide_True by done. split; [apply Hk|done].
    + split; intros (x & [= <-] & Hl & Hx); (eexists; split; [done|]); rewrite Hnum, Harg, decide_False in * by congruence; done.
  - rewrite lookup_alter_ne by done. rewrite decide_False by congruence. done.
Qed.

Lemma puts_sound p p' i k v inst : puts p p' i k v -> sound p -> insts p !! i = Some inst -> 0 <= k < NumArgs inst -> good p v -> sound p'.
Proof.
  intros Hp Hs Hi Hk Hg. pose proof Hp as (Hsh & Hn & Hb). destruct (shape_ok p i inst Hs Hi) as [_ Hok].
  constructor; [..|rewrite Hn; apply (so_next p Hs)].
  - intros j s. rewrite Hsh, Hn. destruct (decide (j = i)) as [->|]; [|rewrite lookup_alter_ne by done; apply (so_inst p Hs)].
    rewrite lookup_alter_eq, (shapes_Some _ _ _ Hi). cbn. intros [= <-]. split; [by apply put_arg_spec|].
    apply (so_inst p Hs i _ (shapes_Some _ _ _ Hi)).
  - intros a c j. rewrite (puts_refers p p' i k v inst Hp Hs Hi Hk), (puts_good _ _ _ _ _ Hp). case_decide; [by intros <-|apply (so_good p Hs)].
  - intros a s c j. rewrite Hsh, (puts_op _ _ _ _ _ Hp). destruct (decide (a = i)) as [->|]; [|rewrite lookup_alter_ne by done; apply (so_spare p Hs)].
    rewrite lookup_alter_eq, (shapes_Some _ _ _ Hi). intros [= <-]. destruct (put_arg_spec k v (shape inst) Hok Hk) as (_ & _ & Hnum & Harg & _).
    rewrite Hnum, Harg. case_decide; [subst; left; apply Hk|apply (so_spare p Hs i), shapes_Some, Hi].
  - intros b l. rewrite Hb. intros Hl. destruct (so_blocks p Hs b l Hl) as [? H]. split; [done|]. intros j Hj. rewrite Hsh.
    destruct (decide (j = i)) as [->|]; [rewrite lookup_alter_eq, fmap_is_Some|rewrite lookup_alter_ne by done]; by apply H.
Qed.

Lemma puts_rank p p' i k v inst rank : puts p p' i k v -> sound p -> insts p !! i = Some inst -> 0 <= k < NumArgs inst -> rank_ok p rank ->
  (op inst <> Phi -> forall j, v = VInst j -> (rank j < rank i)%nat) -> rank_ok p' rank.
Proof.
  intros Hp Hs Hi Hk Hrk Hv a c j. rewrite (puts_refers p p' i k v inst Hp Hs Hi Hk), (puts_op _ _ _ _ _ Hp). case_decide as E.
  - injection E as -> ->. intros -> Ho. apply Hv; [|done]. unfold op_of in Ho. rewrite Hi in Ho. cbn in Ho. congruence.
  - apply Hrk.
Qed.

Lemma SetArg_spec p rank i k v inst : wf p -> rank_ok p rank -> insts p !! i = Some inst -> 0 <= k < NumArgs inst -> good p v ->
  exists p', SetArg i k v p = Some p' /\ wf p' /\ puts p p' i k v.
Proof.
  intros [Hwf Huses] Hrk Hi Hk Hg. unfold SetArg. rewrite Hi. cbn. destruct (Z.leb_spec (NumArgs inst) k) as [?|_]; [lia|].
  destruct (shape_ok p i inst Hwf Hi) as [Hok Hok']. destruct (Arg_in inst k Hok Hk) as [old Hold]. rewrite Hold. cbn.
  pose proof (arg_there p i inst k old Hwf Hi Hold) as Hgo.
  destruct (undo_spec p rank i k old Hwf Hrk Hgo) as (p1 & -> & Hs1 & Hu1). cbn.
  destruct (use_spec p1 rank i k v) as (p2 & -> & Hs2 & Hu2); [by eapply same_sound|by apply (same_rank p p1)|left; by apply (same_good p p1)|]. cbn.
  pose proof (shape_trans _ _ _ Hs1 Hs2) as Hs.
  set (p' := set_inst i (put_arg k v) p2).
  assert (Hp : puts p p' i k v).
  { destruct Hs as (Hsh & Hn & Hb). repeat split; [|by rewrite Hn|by rewrite Hb]. apply map_eq. intros j. unfold p'.
    rewrite shapes_lookup, set_inst_lookup, Hsh. case_decide as E; [subst j; rewrite lookup_alter_eq|rewrite lookup_alter_ne by done; by rewrite shapes_lookup].
    rewrite shapes_lookup. destruct (insts p2 !! i) as [x|]; [|done]. cbn. unfold put_arg. cbn. by case_decide. }
  exists p'. split; [done|]. split; [|done]. constructor; [by eapply puts_sound|]. intros j Hj. apply (puts_live _ _ _ _ _ Hp) in Hj.
  assert (Hu : uses_of p' j = uses_of p2 j).
  { unfold uses_of, p'. rewrite set_inst_lookup. case_decide as E; [subst j|done]. destruct (insts p2 !! i) as [x|]; [|done]. cbn. unfold put_arg. by case_decide. }
  destruct (Huses j Hj) as [Hnd Hrefs]. rewrite Hu, Hu2, Hu1 by (done || by apply (same_live p p1)).
  assert (Hold' : forall a c, (a, c) ∈ (if decide (old = VInst j) then without (i, k) (uses_of p j) else uses_of p j) <-> refers p a c j /\ (a, c) <> (i, k)).
  { intros a c. case_decide as E; [rewrite elem_of_without, Hrefs; tauto|]. rewrite Hrefs. split; [|tauto]. intros Hr. split; [done|]. intros [= -> ->].
    destruct Hr as (s & Hsi & _ & Ha). rewrite (shapes_Some _ _ _ Hi) in Hsi. injection Hsi as <-. rewrite Arg_shape in Ha. congruence. }
  split.
  - destruct (decide (v = VInst j)); [apply NoDup_cons; split; [rewrite Hold'; tauto|]|]; destruct (decide (old = VInst j)); try done; by apply NoDup_without.
  - intros a c. rewrite (puts_refers p p' i k v inst Hp Hwf Hi Hk). destruct (decide (v = VInst j)) as [Ev|Ev].
    + rewrite elem_of_cons, Hold'. destruct (decide ((a, c) = (i, k))); tauto.
    + rewrite Hold'. destruct (decide ((a, c) = (i, k))); tauto.
Qed.

(** ** Removing instructions *)

Definition operands (inst : Inst) : list Value := if decide (op inst = Phi) then (phi_args inst).*2 else args inst.
Lemma Arg_operands inst k : Arg inst k = (operands inst).[k].
Proof. unfold Arg, operands. case_decide; [by rewrite at_fmap|done]. Qed.

Lemma at_cons {A} (x : A) l k : (x :: l).[k] = if decide (k = 0) then Some x else l.[k - 1].
Proof.
  unfold at_index. case_decide as E; [|rewrite decide_False by lia; by rewrite decide_False by lia].
  case_decide as E2; [by subst|]. rewrite decide_True by lia. by replace (Z.to_nat k) with (S (Z.to_nat (k - 1))) by lia.
Qed.

Lemma same_there p p' v : same_shape p p' -> there p v <-> there p' v.
Proof. intros H. unfold there. rewrite (same_good p p' v H). by setoid_rewrite (same_op p p' _ H). Qed.

Lemma undo_uses_spec i l : forall k0 p rank, sound p -> rank_ok p rank -> (forall v, v ∈ l -> there p v) ->
  exists p', undo_uses i k0 l p = Some p' /\ same_shape p p' /\ forall j, live_at p j ->
    (NoDup (uses_of p j) -> NoDup (uses_of p' j)) /\
    forall a c, (a, c) ∈ uses_of p' j <-> (a, c) ∈ uses_of p j /\ ~ (a = i /\ l.[c - k0] = Some (VInst j)).
Proof.
  induction l as [|v l IH]; intros k0 p rank Hs Hrk Hg; cbn [undo_uses].
  { exists p. split; [done|]. split; [done|]. intros j Hj. split; [done|]. intros a c.
    assert (Hn : (@nil Value).[c - k0] = None) by (unfold at_index; by case_decide). rewrite Hn. split; [|tauto]. intros ?. split; [done|]. by intros [_ ?]. }
  destruct (undo_spec p rank i k0 v Hs Hrk (Hg v ltac:(by left))) as (p1 & -> & Hs1 & Hu1). cbn.
  destruct (IH (k0 + 1) p1 rank) as (p' & -> & Hs' & Hu'); [by eapply same_sound|by apply (same_rank p p1)|intros w Hw; apply (same_there p p1 w Hs1); apply Hg; by right|].
  exists p'. split; [done|]. split; [by eapply shape_trans|]. intros j Hj. destruct (Hu' j ltac:(by apply (same_live p p1))) as [Hn He].
  rewrite Hu1 in Hn, He by done. split; [intros H; apply Hn; destruct (decide (v = VInst j)); [by apply NoDup_without|done]|].
  intros a c. rewrite He, at_cons. replace (c - (k0 + 1)) with (c - k0 - 1) by lia.
  destruct (decide (c - k0 = 0)) as [E|E]; destruct (decide (v = VInst j)) as [Ev|Ev]; rewrite ?elem_of_without.
  - replace c with k0 by lia. replace (k0 - k0 - 1) with (-1) by lia. rewrite (at_neg l (-1)) by lia. split.
    + intros [[H1 H2] _]. split; [done|]. intros [-> _]. done.
    + intros [H1 H2]. split; [split; [done|intros [= ->]; apply H2; by rewrite Ev]|by intros [_ ?]].
  - replace (c - k0 - 1) with (-1) by lia. rewrite (at_neg l (-1)) by lia. split.
    + intros [H1 _]. split; [done|]. intros [_ [= H]]. done.
    + intros [H1 _]. split; [done|by intros [_ ?]].
  - split; [tauto|]. intros [H1 H2]. split; [|done]. split; [done|]. intros [= _ ?]. lia.
  - done.
Qed.

Definition void_inst (inst : Inst) : Inst := mkInst Void (flags inst) no_args [] [].
(** [p'] is [p] without the instruction [i]. *)
Definition voids (p p' : Ir) (i : Z) : Prop :=
  shapes p' = alter void_inst i (shapes p) /\ next_inst p' = next_inst p /\ blocks p' = blocks p.

Lemma no_args_at k : no_args.[k] = Some VEmpty \/ no_args.[k] = None.
Proof.
  destruct (no_args.[k]) as [v|] eqn:E; [left|by right]. apply at_index_range in E as Hk. change (zlen no_args) with 6 in Hk.
  unfold no_args in E. rewrite filled_at in E by lia. congruence.
Qed.

Lemma voids_refers p p' i : voids p p' i -> forall a c j, refers p' a c j <-> a <> i /\ refers p a c j.
Proof.
  intros (Hs & _) a c j. unfold refers. rewrite Hs. destruct (decide (a = i)) as [->|Hne].
  - rewrite lookup_alter_eq. destruct (shapes p !! i) as [s|]; cbn; [|split; [by intros (? & [=] & _)|tauto]]. split; [|tauto].
    intros (x & [= <-] & _ & Hx). unfold Arg in Hx. cbn in Hx. destruct (no_args_at c) as [E|E]; rewrite E in Hx; done.
  - rewrite lookup_alter_ne by done. tauto.
Qed.
Lemma voids_op p p' i : voids p p' i -> forall j, op_of p' j = if decide (j = i) then (fun _ => Void) <$> op_of p i else op_of p j.
Proof.
  intros (Hs & _) j. rewrite !op_shapes, Hs. case_decide as E; [subst; rewrite lookup_alter_eq; by destruct (shapes p !! i)|by rewrite lookup_alter_ne].
Qed.
Lemma voids_live p p' i : voids p p' i -> forall j, live_at p' j <-> j <> i /\ live_at p j.
Proof.
  intros Hv j. unfold live_at. rewrite (voids_op p p' i Hv). case_decide as E; [|tauto]. subst. split; [|tauto].
  intros (o & Ho & H & _). destruct (op_of p i); [|done]. cbn in Ho. congruence.
Qed.
Lemma voids_rank p p' i rank : voids p p' i -> rank_ok p rank -> rank_ok p' rank.
Proof.
  intros Hv Hrk a c j. rewrite (voids_refers p p' i Hv). intros [Hne Hr]. rewrite (voids_op p p' i Hv), decide_False by done. by apply (Hrk a c j).
Qed.

Lemma void_inst_ok inst : inst_ok (void_inst inst).
Proof. by constructor. Qed.
Lemma void_inst_args inst k j : Arg (void_inst inst) k <> Some (VInst j).
Proof. unfold Arg. cbn. by destruct (no_args_at k) as [E|E]; rewrite E. Qed.

Lemma voids_sound p p' i : voids p p' i -> sound p -> (forall a c, ~ refers p a c i) -> sound p'.
Proof.
  intros Hv Hs Hno. pose proof Hv as (Hsh & Hn & Hb). constructor; [..|rewrite Hn; apply (so_next p Hs)].
  - intros j s. rewrite Hsh, Hn. destruct (decide (j = i)) as [->|]; [|rewrite lookup_alter_ne by done; apply (so_inst p Hs)].
    rewrite lookup_alter_eq. destruct (shapes p !! i) as [x|] eqn:Hx; [|done]. intros [= <-]. split; [apply void_inst_ok|]. by apply (so_inst p Hs i x).
  - intros a c j. rewrite (voids_refers p p' i Hv). intros [Hne Hr]. assert (j <> i) by (intros ->; by apply (Hno a c)).
    cbn. rewrite (voids_op p p' i Hv), decide_False by done. by apply (so_good p Hs a c j).
  - intros a s c j. rewrite Hsh, (voids_op p p' i Hv). destruct (decide (a = i)) as [->|].
    + rewrite lookup_alter_eq. destruct (shapes p !! i); [|done]. intros [= <-] Hx. by apply void_inst_args in Hx.
    + rewrite lookup_alter_ne by done. intros Ha Hx. destruct (so_spare p Hs a s c j Ha Hx) as [?|(o & Ho & Hnl)]; [by left|right].
      case_decide; [subst; rewrite Ho; exists Void; split; [done|by intros [? _]]|by exists o].
  - intros b l. rewrite Hb. intros Hl. destruct (so_blocks p Hs b l Hl) as [? H]. split; [done|]. intros j Hj. rewrite Hsh.
    destruct (decide (j = i)) as [->|]; [rewrite lookup_alter_eq, fmap_is_Some|rewrite lookup_alter_ne by done]; by apply H.
Qed.

Lemma set_inst_ext i f g p : (forall x, insts p !! i = Some x -> f x = g x) -> set_inst i f p = set_inst i g p.
Proof.
  intros H. unfold set_inst. destruct p as [m n b]. unfold upd, upd_insts; cbn in *. f_equal. apply map_eq. intros j.
  destruct (decide (j = i)) as [->|]; [|by rewrite !lookup_alter_ne]. rewrite !lookup_alter_eq.
  destruct (m !! i) as [x|]; [|done]. cbn. by rewrite (H x).
Qed.

Definition clear_inst (inst : Inst) : Inst := if decide (op inst = Phi) then inst <| phi_args := [] |> else inst <| args := no_args |>.
Lemma ClearArgs_unfold i p p1 inst : insts p !! i = Some inst -> undo_uses i 0 (operands inst) p = Some p1 ->
  (forall x, insts p1 !! i = Some x -> op x = op inst) -> ClearArgs i p = Some (set_inst i clear_inst p1).
Proof.
  intros Hi Hu Ho. unfold ClearArgs, operands in *. rewrite Hi. cbn [mbind option_bind].
  destruct (decide (op inst = Phi)) as [E|E]; rewrite Hu; cbn [mbind option_bind]; f_equal; apply set_inst_ext; intros x Hx;
    unfold clear_inst; rewrite (Ho x Hx); by case_decide.
Qed.

(** Clearing an instruction and making it [Void]. *)
Lemma void_clear inst : inst_ok (shape inst) ->
  shape ((if decide (op (clear_inst inst) = Phi) then (clear_inst inst) <| phi_args := [] |> <| args := no_args |> else clear_inst inst) <| op := Void |>) = void_inst inst.
Proof.
  intros [Hph Har]. unfold clear_inst, void_inst. destruct (decide (op inst = Phi)) as [E|E]; cbn.
  - rewrite decide_True by exact E. reflexivity.
  - rewrite decide_False by exact E. destruct (Har E) as [Hp _]. destruct inst as [o f a ph u]. cbn in Hp. by subst ph.
Qed.

Lemma Invalidate_voids p rank i : wf p -> rank_ok p rank -> is_Some (insts p !! i) -> (forall a c, ~ refers p a c i) ->
  exists p', Invalidate i p = Some p' /\ wf p' /\ voids p p' i.
Proof.
  intros [Hwf Huses] Hrk [inst Hi] Hno. unfold Invalidate.
  destruct (undo_uses_spec i (operands inst) 0 p rank Hwf Hrk) as (p1 & Hp1 & Hs1 & Hu1).
  { intros v (k & Hk)%list_elem_of_lookup. apply (arg_there p i inst (Z.of_nat k) v Hwf Hi). by rewrite Arg_operands, at_index_nat. }
  assert (Hx : forall x, insts p1 !! i = Some x -> shape x = shape inst).
  { intros x Hx. destruct Hs1 as (Hsh & _). pose proof (shapes_Some _ _ _ Hi) as H. rewrite Hsh, (shapes_Some _ _ _ Hx) in H. congruence. }
  rewrite (ClearArgs_unfold i p p1 inst Hi Hp1) by (intros x Ex; change (op (shape x) = op (shape inst)); by rewrite (Hx x Ex)).
  cbn [mbind option_bind]. unfold ReplaceOpcode. rewrite decide_False by done. set (p' := set_inst i _ (set_inst i _ p1)).
  assert (Hv : voids p p' i).
  { destruct Hs1 as (Hsh & Hn & Hb). repeat split; [|by rewrite Hn|by rewrite Hb]. apply map_eq. intros j. unfold p'. rewrite Hsh.
    rewrite shapes_lookup, !set_inst_lookup. rewrite (decide_True (P := i = i)) by done. case_decide as E; [subst j; rewrite lookup_alter_eq|rewrite lookup_alter_ne by done; by rewrite shapes_lookup].
    rewrite shapes_lookup. destruct (insts p1 !! i) as [x|] eqn:Ex; [|done]. cbn [fmap option_fmap option_map]. f_equal.
    change (void_inst (shape x)) with (void_inst x). apply void_clear. rewrite (Hx x eq_refl). by apply (shape_ok p i inst). }
  exists p'. split; [done|]. split; [|done]. constructor; [by eapply voids_sound|]. intros j. rewrite (voids_live p p' i Hv). intros [Hne Hj].
  assert (Hu : uses_of p' j = uses_of p1 j).
  { unfold uses_of, p'. by rewrite set_inst_lookup, decide_False, set_inst_lookup, decide_False by done. }
  destruct (Huses j Hj) as [Hnd Hrefs]. destruct (Hu1 j Hj) as [Hnd' He]. rewrite Hu. split; [by apply Hnd'|].
  intros a c. rewrite He, Z.sub_0_r, Hrefs, (voids_refers p p' i Hv). split.
  - intros [Hr Hn]. split; [|done]. intros ->. apply Hn. split; [done|]. destruct Hr as (s & Hsi & _ & Ha). rewrite (shapes_Some _ _ _ Hi) in Hsi.
    injection Hsi as <-. by rewrite Arg_shape, Arg_operands in Ha.
  - intros [Hna Hr]. split; [done|]. intros [? _]. done.
Qed.

(** ** Replacing the uses of an instruction *)

Definition subst (x : Z) (r v : Value) : Value := if decide (v = VInst x) then r else v.
Definition subst_inst (x : Z) (r : Value) (inst : Inst) : Inst :=
  inst <| args ::= fmap (subst x r) |> <| phi_args ::= fmap (fun bv => (bv.1, subst x r bv.2)) |>.

Lemma Arg_subst x r inst k : Arg (subst_inst x r inst) k = subst x r <$> Arg inst k.
Proof.
  unfold Arg, subst_inst. cbn. case_decide; rewrite at_fmap; [|done]. by destruct ((phi_args inst).[k]).
Qed.
Lemma NumArgs_subst x r inst : NumArgs (subst_inst x r inst) = NumArgs inst.
Proof. unfold NumArgs, subst_inst. cbn. unfold zlen. by rewrite length_fmap. Qed.

Lemma subst_absent x r inst : inst_ok inst -> (forall k, Arg inst k <> Some (VInst x)) -> subst_inst x r inst = inst.
Proof.
  intros Hok H. assert (Hf : forall l, (forall k, l.[k] <> Some (VInst x)) -> subst x r <$> l = l).
  { intros l Hl. apply list_eq. intros k. rewrite list_lookup_fmap. specialize (Hl (Z.of_nat k)). rewrite at_index_nat in Hl.
    destruct (l !! k) as [v|]; [|done]. cbn. f_equal. unfold subst. rewrite decide_False; [done|congruence]. }
  unfold subst_inst, Arg in *. destruct inst as [o f a ph u]. unfold upd, upd_args, upd_phi_args; cbn in *. destruct (decide (o = Phi)) as [E|E].
  - pose proof (io_phi _ Hok E) as Ea. cbn in Ea. subst a. cbn. f_equal. apply list_eq. intros k. rewrite list_lookup_fmap. specialize (H (Z.of_nat k)). rewrite at_index_nat in H.
    destruct (ph !! k) as [[b v]|]; [|done]. cbn in *. unfold subst. rewrite decide_False; [done|congruence].
  - destruct (io_args _ Hok E) as [Hp _]. cbn in Hp. subst ph. cbn. by rewrite Hf.
Qed.

Lemma subst_put x r inst k : r <> VInst x -> Arg inst k = Some (VInst x) -> subst_inst x r (put_arg k r inst) = subst_inst x r inst.
Proof.
  intros Hr Ha. assert (Hs : subst x r r = r) by (unfold subst; by case_decide).
  unfold Arg, put_arg in *. destruct inst as [o f a ph u]. cbn in *. destruct (decide (o = Phi)) as [E|E]; unfold subst_inst, upd, upd_args, upd_phi_args; cbn; f_equal.
  - apply list_eq. intros j. rewrite !list_lookup_fmap. unfold at_index in Ha. destruct (decide (0 <= k)); [|done].
    destruct (decide (j = Z.to_nat k)) as [->|]; [rewrite list_lookup_alter_eq|by rewrite list_lookup_alter_ne].
    destruct (ph !! Z.to_nat k) as [[b w]|]; [|done]. cbn in *. injection Ha as ->. rewrite Hs. unfold subst. by rewrite decide_True.
  - unfold at_index in Ha. destruct (decide (0 <= k)); [|done]. rewrite list_fmap_insert, Hs. apply list_insert_id.
    rewrite list_lookup_fmap, Ha. cbn. unfold subst. by rewrite decide_True.
Qed.

(** [p'] is [p] with [r] for every operand [x]. *)
Definition substs (p p' : Ir) (x : Z) (r : Value) : Prop :=
  shapes p' = subst_inst x r <$> shapes p /\ next_inst p' = next_inst p /\ blocks p' = blocks p.

Lemma substs_of p x r : sound p -> live_at p x -> (forall a c, ~ refers p a c x) -> substs p p x r.
Proof.
  intros Hs Hx Hno. repeat split. apply map_eq. intros i. rewrite lookup_fmap. destruct (shapes p !! i) as [s|] eqn:E; [|done]. cbn.
  rewrite subst_absent; [done|by apply (so_inst p Hs i)|]. intros k Hk. apply (Hno i k). by eapply refers_live.
Qed.
Lemma substs_put p p1 p' x r i k inst : puts p p1 i k r -> insts p !! i = Some inst -> Arg inst k = Some (VInst x) -> r <> VInst x ->
  substs p1 p' x r -> substs p p' x r.
Proof.
  intros (Hs & Hn & Hb) Hi Ha Hr (Hs' & Hn' & Hb'). split; [|split; congruence]. rewrite Hs', Hs. apply map_eq. intros j. rewrite !lookup_fmap.
  destruct (decide (j = i)) as [->|]; [|by rewrite lookup_alter_ne]. rewrite lookup_alter_eq, (shapes_Some _ _ _ Hi). cbn. f_equal.
  by apply subst_put.
Qed.

Lemma set_users_spec x r l : forall p rank, wf p -> rank_ok p rank -> r <> VInst x -> good p r -> live_at p x ->
  (forall j, r = VInst j -> (rank j < rank x)%nat) -> NoDup l -> (forall i k, (i, k) ∈ l <-> refers p i k x) ->
  exists p', set_users l r p = Some p' /\ wf p' /\ rank_ok p' rank /\ substs p p' x r /\ (forall a c, ~ refers p' a c x).
Proof.
  induction l as [|[i k] l IH]; intros p rank Hwf Hrk Hr Hg Hx Hrank Hnd Hl; cbn [set_users].
  { assert (Hno : forall a c, ~ refers p a c x) by (intros a c Hac; apply Hl in Hac; by apply elem_of_nil in Hac).
    exists p. split; [done|]. split; [done|]. split; [done|]. split; [by apply substs_of; [apply Hwf|..]|done]. }
  assert (Hik : refers p i k x) by (apply Hl; by left). pose proof Hik as (s & Hi & Hlt & Ha).
  destruct (so_inst p (wf_sound p Hwf) i s Hi) as [Hok _]. apply shapes_inv in Hi as (inst & Hi & ->). rewrite Arg_shape in Ha.
  assert (Hk : 0 <= k < NumArgs inst).
  { split; [|done]. rewrite Arg_operands in Ha. apply at_index_range in Ha. lia. }
  destruct (SetArg_spec p rank i k r inst Hwf Hrk Hi Hk Hg) as (p1 & -> & Hwf1 & Hp1). cbn.
  assert (Hrk1 : rank_ok p1 rank).
  { eapply puts_rank; [done|apply Hwf|done|done|done|]. intros Ho j Hj. specialize (Hrank j Hj). etrans; [exact Hrank|].
    apply (Hrk i k x Hik). unfold op_of. rewrite Hi. cbn. congruence. }
  apply NoDup_cons in Hnd as [Hni Hnd].
  destruct (IH p1 rank Hwf1 Hrk1 Hr) as (p' & -> & Hwf' & Hrk' & Hs' & Hno); [by apply (puts_good _ _ _ _ _ Hp1)|by apply (puts_live _ _ _ _ _ Hp1)|done|done|..].
  - intros a c. rewrite (puts_refers p p1 i k r inst Hp1 (wf_sound p Hwf) Hi Hk). specialize (Hl a c). rewrite elem_of_cons in Hl.
    case_decide as E; [rewrite E; split; [done|by intros ->]|]. rewrite <- Hl. tauto.
  - exists p'. split; [done|]. split; [done|]. split; [done|]. split; [by eapply substs_put|done].
Qed.

Lemma voids_substs p p1 p' x r : substs p p1 x r -> voids p1 p' x -> forall i,
  shapes p' !! i = if decide (i = x) then void_inst <$> shapes p !! i else subst_inst x r <$> shapes p !! i.
Proof.
  intros (Hs & _) (Hv & _) i. rewrite Hv, Hs. case_decide as E; [subst; rewrite lookup_alter_eq|rewrite lookup_alter_ne by done]; rewrite lookup_fmap; [|done].
  by destruct (shapes p !! x).
Qed.

(** [p'] is [p] where the instruction [x] is gone and [r] stands for it. *)
Definition replaced (p p' : Ir) (x : Z) (r : Value) : Prop :=
  (forall i, shapes p' !! i = if decide (i = x) then void_inst <$> shapes p !! i else subst_inst x r <$> shapes p !! i) /\
  next_inst p' = next_inst p /\ blocks p' = blocks p.

Lemma ReplaceUses_spec p rank x r : wf p -> rank_ok p rank -> live_at p x -> good p r -> r <> VInst x ->
  (forall j, r = VInst j -> (rank j < rank x)%nat) ->
  exists p', ReplaceUsesWithAndRemove x r p = Some p' /\ wf p' /\ rank_ok p' rank /\ replaced p p' x r.
Proof.
  intros Hwf Hrk Hx Hg Hr Hrank. unfold ReplaceUsesWithAndRemove, ReplaceUses. destruct (live_insts p x Hx) as [inst Hi]. rewrite Hi. cbn [mbind option_bind].
  destruct (wf_uses p Hwf x Hx) as [Hnd Hu]. assert (Eu : uses_of p x = uses inst) by (unfold uses_of; by rewrite Hi). rewrite Eu in Hnd, Hu.
  destruct (set_users_spec x r (uses inst) p rank Hwf Hrk Hr Hg Hx Hrank Hnd Hu) as (p1 & -> & Hwf1 & Hrk1 & Hs1 & Hno). cbn [mbind option_bind].
  assert (Hx1 : is_Some (insts p1 !! x)).
  { destruct Hs1 as (Hs1 & _). assert (H : is_Some (shapes p1 !! x)) by (rewrite Hs1, lookup_fmap, (shapes_Some _ _ _ Hi); by eexists).
    by rewrite shapes_lookup, fmap_is_Some in H. }
  destruct (Invalidate_voids p1 rank x Hwf1 Hrk1 Hx1 Hno) as (p' & -> & Hwf' & Hv). cbn [mbind option_bind].
  exists p'. split; [done|]. split; [done|]. split; [by eapply voids_rank|]. split; [by eapply voids_substs|].
  destruct Hs1 as (_ & Hn1 & Hb1), Hv as (_ & Hn' & Hb'). split; congruence.
Qed.

(** ** New instructions *)

Fixpoint put_from (k : Z) (l a : list Value) : list Value :=
  match l with [] => a | v :: r => put_from (k + 1) r (<[Z.to_nat k := v]> a) end.
Definition sets (p p' : Ir) (i k : Z) (l : list Value) : Prop :=
  shapes p' = alter (fun s => s <| args ::= put_from k l |>) i (shapes p) /\ next_inst p' = next_inst p /\ blocks p' = blocks p.

Lemma alter_same {A} (f : A -> A) (m : gmap Z A) i : (forall x, f x = x) -> alter f i m = m.
Proof. intros Hf. apply map_eq. intros j. destruct (decide (j = i)) as [->|]; [rewrite lookup_alter_eq; destruct (m !! i); [cbn; by rewrite Hf|done]|by rewrite lookup_alter_ne]. Qed.

Lemma set_args_spec i l : forall k p rank inst, wf p -> rank_ok p rank -> insts p !! i = Some inst -> op inst <> Phi ->
  0 <= k -> k + zlen l <= NumArgs inst -> (forall v, v ∈ l -> good p v /\ forall j, v = VInst j -> (rank j < rank i)%nat) ->
  exists p', set_args i k l p = Some p' /\ wf p' /\ rank_ok p' rank /\ sets p p' i k l.
Proof.
  induction l as [|v l IH]; intros k p rank inst Hwf Hrk Hi Ho Hk Hn Hl; cbn [set_args].
  { exists p. split; [done|]. split; [done|]. split; [done|]. split; [|done]. symmetry. apply alter_same. by intros []. }
  destruct (Hl v ltac:(by left)) as [Hg Hrank]. assert (Hlen : zlen (v :: l) = 1 + zlen l) by (unfold zlen; cbn [length]; lia). pose proof (zlen_nonneg l).
  assert (Hki : 0 <= k < NumArgs inst) by lia.
  destruct (SetArg_spec p rank i k v inst Hwf Hrk Hi ltac:(done) Hg) as (p1 & -> & Hwf1 & Hp1). cbn [mbind option_bind].
  assert (Hi1 : exists x, insts p1 !! i = Some x /\ shape x = put_arg k v (shape inst)).
  { destruct Hp1 as (Hs1 & _). assert (H1 : shapes p1 !! i = Some (put_arg k v (shape inst))) by (rewrite Hs1, lookup_alter_eq, (shapes_Some _ _ _ Hi); done).
    apply shapes_inv in H1 as (x & Hx & E). by exists x. }
  destruct Hi1 as (x & Hx & Ex). destruct (shape_ok p i inst (wf_sound p Hwf) Hi) as [_ Hok].
  destruct (put_arg_spec k v (shape inst) Hok Hki) as (Eo & _ & En & _). rewrite <- Ex in Eo, En. change (op x = op inst) in Eo. change (NumArgs x = NumArgs inst) in En.
  destruct (IH (k + 1) p1 rank x) as (p' & -> & Hwf' & Hrk' & Hs'); try done; try lia; try congruence.
  - eapply puts_rank; [done|apply Hwf|done|done|done|done].
  - intros w Hw. destruct (Hl w ltac:(by right)) as [Hgw Hrw]. split; [by apply (puts_good _ _ _ _ _ Hp1)|done].
  - exists p'. split; [done|]. split; [done|]. split; [done|]. destruct Hs' as (Hs' & Hn' & Hb'), Hp1 as (Hs1 & Hn1 & Hb1).
    split; [|split; congruence]. rewrite Hs', Hs1. apply map_eq. intros j.
    destruct (decide (j = i)) as [->|]; [rewrite !lookup_alter_eq|by rewrite !lookup_alter_ne]. rewrite (shapes_Some _ _ _ Hi). cbn. f_equal.
    unfold put_arg. rewrite decide_False by done. done.
Qed.

Lemma insert_at_in at_ i l j : j ∈ insert_at at_ i l <-> j = i \/ j ∈ l.
Proof.
  induction l as [|x l IH]; cbn; [rewrite list_elem_of_singleton; split; [by left|by intros [?|?%elem_of_nil]]|].
  case_bool_decide; rewrite !elem_of_cons; [done|]. rewrite IH. tauto.
Qed.
Lemma insert_at_NoDup at_ i l : NoDup l -> i ∉ l -> NoDup (insert_at at_ i l).
Proof.
  induction l as [|x l IH]; cbn; intros Hnd Hi; [by repeat constructor; apply not_elem_of_nil|].
  rewrite elem_of_cons in Hi. case_bool_decide; [constructor; [rewrite elem_of_cons; tauto|done]|].
  apply NoDup_cons in Hnd as [Hx Hnd]. constructor; [rewrite insert_at_in; intros [->|?]; tauto|]. apply IH; tauto.
Qed.

(** [p'] is [p] with a new instruction before [at_] in the block [b]. *)
Definition inserted (p p' : Ir) (b : Z) (at_ : option Z) (o : Opcode) (l : list Value) (fl : Z) : Prop :=
  let n := next_inst p in
  shapes p' = <[n := mkInst o fl (put_from 0 l no_args) [] []]> (shapes p) /\ next_inst p' = n + 1 /\
  blocks p' = alter (insert_at at_ n) b (blocks p).

Lemma fresh_none p : sound p -> insts p !! next_inst p = None.
Proof.
  intros Hs. destruct (insts p !! next_inst p) as [x|] eqn:E; [|done].
  destruct (so_inst p Hs _ _ (shapes_Some _ _ _ E)) as [_ ?]. lia.
Qed.

(** The new instruction before it has arguments. *)
Lemma fresh_wf p rank b at_ o fl : wf p -> rank_ok p rank -> o <> Void ->
  let n := next_inst p in
  let p0 := p <| insts ::= <[n := new_inst o fl]> |> <| next_inst := n + 1 |> <| blocks ::= alter (insert_at at_ n) b |> in
  wf p0 /\ rank_ok p0 rank /\ shapes p0 = <[n := new_inst o fl]> (shapes p) /\ forall v, good p v -> good p0 v.
Proof.
  intros [Hwf Hu] Hrk Hv n p0. pose proof (fresh_none p Hwf) as Hf. fold n in Hf.
  assert (Hfs : shapes p !! n = None) by (by rewrite shapes_lookup, Hf).
  assert (Hsh : shapes p0 = <[n := new_inst o fl]> (shapes p)) by (unfold shapes, p0; cbn; by rewrite fmap_insert).
  assert (Hnew : forall k j, Arg (new_inst o fl) k <> Some (VInst j)).
  { intros k j. unfold new_inst, Arg. cbn. destruct (decide (o = Phi)); [unfold at_index; by case_decide|]. destruct (no_args_at k) as [E|E]; by rewrite E. }
  assert (Hrf : forall a c j, refers p0 a c j <-> refers p a c j).
  { intros a c j. unfold refers. rewrite Hsh. destruct (decide (a = n)) as [->|]; [|by rewrite lookup_insert_ne].
    rewrite lookup_insert_eq, Hfs. split; [|by intros (x & [=] & _)]. intros (x & [= <-] & _ & Hx). by apply Hnew in Hx. }
  assert (Hop : forall j, j <> n -> op_of p0 j = op_of p j) by (intros j Hj; rewrite !op_shapes, Hsh; by rewrite lookup_insert_ne).
  assert (Hdom : forall j o', op_of p j = Some o' -> j <> n) by (intros j o' Hj ->; unfold op_of in Hj; by rewrite Hf in Hj).
  assert (Hgood : forall v, good p v -> good p0 v).
  { intros v Hg. destruct v; try done. destruct Hg as (o' & Ho' & ?). exists o'. split; [|done]. rewrite Hop; [done|by eapply Hdom]. }
  split; [|split; [|done]].
  - constructor; [constructor|].
    + intros j s. rewrite Hsh. destruct (decide (j = n)) as [->|].
      * rewrite lookup_insert_eq. intros [= <-]. pose proof (so_next p Hwf) as H0. change (next_inst p0) with (n + 1). split; [|unfold n; lia].
        constructor; unfold new_inst; cbn; intros Ho; [by rewrite decide_True|by rewrite decide_False].
      * rewrite lookup_insert_ne by done. intros Hj. destruct (so_inst p Hwf j s Hj). change (next_inst p0) with (n + 1). unfold n. split; [done|lia].
    + intros a c j Hr. apply Hgood. apply Hrf in Hr. by apply (so_good p Hwf a c j).
    + intros a s c j. rewrite Hsh. destruct (decide (a = n)) as [->|]; [rewrite lookup_insert_eq; intros [= <-] Hx; by apply Hnew in Hx|].
      rewrite lookup_insert_ne by done. intros Ha Hx. destruct (so_spare p Hwf a s c j Ha Hx) as [?|(o' & Ho' & Hl)]; [by left|right].
      exists o'. split; [|done]. rewrite Hop; [done|by eapply Hdom].
    + intros b' l. change (blocks p0) with (alter (insert_at at_ n) b (blocks p)). rewrite Hsh.
      assert (Hdone : forall l, blocks p !! b' = Some l -> (NoDup l /\ (n ∉ l)) /\ forall i, i ∈ l -> is_Some (<[n := new_inst o fl]> (shapes p) !! i)).
      { intros l0 Hl0. destruct (so_blocks p Hwf b' l0 Hl0) as [Hnd Hin]. split; [split; [done|]|].
        - intros Hn. apply Hin in Hn as [? Hn]. congruence.
        - intros i Hi. destruct (decide (i = n)) as [->|]; [rewrite lookup_insert_eq; by eexists|rewrite lookup_insert_ne by done; by apply Hin]. }
      destruct (decide (b' = b)) as [->|]; [|rewrite lookup_alter_ne by done; intros Hl; destruct (Hdone l Hl) as [[? _] ?]; done].
      rewrite lookup_alter_eq. destruct (blocks p !! b) as [l0|]; [|done]. intros [= <-]. destruct (Hdone l0 eq_refl) as [[Hnd Hn] Hin].
      split; [by apply insert_at_NoDup|]. intros i [->|Hi]%insert_at_in; [rewrite lookup_insert_eq; by eexists|by apply Hin].
    + change (next_inst p0) with (n + 1). pose proof (so_next p Hwf). unfold n. lia.
    + intros j Hj. unfold uses_of. change (insts p0) with (<[n := new_inst o fl]> (insts p)). destruct (decide (j = n)) as [->|Hne].
      * rewrite lookup_insert_eq. cbn. split; [constructor|]. intros i k. rewrite Hrf. split; [by intros ?%elem_of_nil|].
        intros Hr. apply (so_good p Hwf) in Hr as (o' & Ho' & _). by apply Hdom in Ho'.
      * rewrite lookup_insert_ne by done. assert (Hj' : live_at p j) by (destruct Hj as (o' & Ho' & ?); exists o'; by rewrite Hop in Ho').
        destruct (Hu j Hj') as [Hnd H]. split; [done|]. intros i k. rewrite Hrf. apply H.
  - intros a c j Hr Ha. apply Hrf in Hr. apply (Hrk a c j Hr). rewrite <- Hop; [done|].
    destruct Hr as (s & Hs & _). intros ->. congruence.
Qed.

Lemma PrependNewInst_spec p rank b at_ o l fl : wf p -> rank_ok p rank -> o <> Phi -> o <> Void -> NumArgsOf o = zlen l ->
  (forall v, v ∈ l -> good p v /\ forall j, v = VInst j -> (rank j < rank (next_inst p))%nat) ->
  exists p', PrependNewInst b at_ o l fl p = Some (next_inst p, p') /\ wf p' /\ rank_ok p' rank /\ inserted p p' b at_ o l fl.
Proof.
  intros Hwf Hrk Ho Hv Hn Hl. unfold PrependNewInst.
  destruct (fresh_wf p rank b at_ o fl Hwf Hrk Hv) as (Hwf0 & Hrk0 & Hs0 & Hg0). set (n := next_inst p) in *.
  set (p0 := p <| insts ::= <[n := new_inst o fl]> |> <| next_inst := n + 1 |> <| blocks ::= alter (insert_at at_ n) b |>) in *.
  assert (Hnum : NumArgs (new_inst o fl) = zlen l) by (unfold NumArgs, new_inst; cbn; by rewrite decide_False).
  rewrite Hnum, Z.eqb_refl. cbn [negb].
  assert (Hi : insts p0 !! n = Some (new_inst o fl)) by apply lookup_insert_eq.
  destruct (set_args_spec n l 0 p0 rank (new_inst o fl) Hwf0 Hrk0 Hi Ho ltac:(done) ltac:(rewrite Hnum; lia)) as (p' & -> & Hwf' & Hrk' & (Hs' & Hn' & Hb')).
  { intros v Hin. destruct (Hl v Hin) as [Hg Hr]. split; [by apply Hg0|done]. }
  cbn [mbind option_bind]. exists p'. split; [done|]. split; [done|]. split; [done|]. split; [|done].
  rewrite Hs', Hs0. apply map_eq. intros j. destruct (decide (j = n)) as [->|]; [|by rewrite lookup_alter_ne, !lookup_insert_ne].
  rewrite lookup_alter_eq, !lookup_insert_eq. unfold new_inst. cbn. by rewrite decide_False.
Qed.

(** ** Another opcode *)

(** [p'] is [p] with the opcode [o] for [i]. *)
Definition recoded (p p' : Ir) (i : Z) (o : Opcode) : Prop :=
  shapes p' = alter (fun s => s <| op := o |>) i (shapes p) /\ next_inst p' = next_inst p /\ blocks p' = blocks p.

Lemma recoded_op p p' i o : recoded p p' i o -> forall j, op_of p' j = if decide (j = i) then (fun _ => o) <$> op_of p i else op_of p j.
Proof.
  intros (Hs & _) j. rewrite !op_shapes, Hs. case_decide as E; [subst; rewrite lookup_alter_eq; by destruct (shapes p !! i)|by rewrite lookup_alter_ne].
Qed.

(** An opcode that takes the first operands of the one before, and no live instruction after them. *)
Definition narrows (p : Ir) (i : Z) (inst : Inst) (o : Opcode) : Prop :=
  op inst <> Phi /\ o <> Phi /\ live (op inst) /\ live o /\ TypeOf o = TypeOf (op inst) /\ NumArgsOf o <= NumArgs inst /\
  forall k j, NumArgsOf o <= k -> Arg inst k = Some (VInst j) -> exists o', op_of p j = Some o' /\ ~ live o'.

Lemma recoded_refers p p' i o inst : recoded p p' i o -> insts p !! i = Some inst -> narrows p i inst o ->
  forall a c j, refers p' a c j <-> refers p a c j /\ (a = i -> c < NumArgsOf o).
Proof.
  intros (Hs & _) Hi (Hp & Ho & _ & _ & _ & Hn & _) a c j. unfold refers. rewrite Hs. destruct (decide (a = i)) as [->|Hne].
  - rewrite lookup_alter_eq, (shapes_Some _ _ _ Hi). cbn. unfold NumArgs, Arg in *. rewrite !decide_False in * by done. split.
    + intros (x & [= <-] & Hk & Hx). cbn in Hk, Hx. rewrite ?decide_False in Hk by done. rewrite ?decide_False in Hx by done. split; [|done]. eexists. split; [done|]. cbn.
      rewrite !decide_False by done. split; [lia|done].
    + intros [(x & [= <-] & Hk & Hx) Hc]. cbn in Hk, Hx. rewrite ?decide_False in Hk by done. rewrite ?decide_False in Hx by done. eexists. split; [done|]. cbn.
      rewrite !decide_False by done. split; [by apply Hc|done].
  - rewrite lookup_alter_ne by done. tauto.
Qed.
Lemma recoded_live p p' i o inst : recoded p p' i o -> insts p !! i = Some inst -> narrows p i inst o -> forall j, live_at p' j <-> live_at p j.
Proof.
  intros Hr Hi (_ & _ & Hl & Hl' & _) j. unfold live_at. rewrite (recoded_op _ _ _ _ Hr). case_decide as E; [|done]. subst. unfold op_of. rewrite Hi. cbn.
  split; intros (x & [= <-] & _); eexists; done.
Qed.
Lemma recoded_good p p' i o inst : recoded p p' i o -> insts p !! i = Some inst -> narrows p i inst o -> forall v, good p' v <-> good p v.
Proof.
  intros Hr Hi (_ & _ & _ & _ & Ht & _) v. destruct v; try done. cbn. rewrite (recoded_op _ _ _ _ Hr). case_decide as E; [|done]. subst. unfold op_of. rewrite Hi. cbn.
  unfold has_result. split; intros (x & [= <-] & H); eexists; (split; [done|]); congruence.
Qed.

Lemma recoded_sound p p' i o inst : recoded p p' i o -> insts p !! i = Some inst -> narrows p i inst o -> sound p -> sound p'.
Proof.
  intros Hr Hi Hn Hs. pose proof Hr as (Hsh & Hnx & Hb). pose proof Hn as (Hp & Ho & _ & _ & _ & Hle & Hsp). constructor; [..|rewrite Hnx; apply (so_next p Hs)].
  - intros j s. rewrite Hsh, Hnx. destruct (decide (j = i)) as [->|]; [|rewrite lookup_alter_ne by done; apply (so_inst p Hs)].
    rewrite lookup_alter_eq, (shapes_Some _ _ _ Hi). intros [= <-]. destruct (so_inst p Hs i _ (shapes_Some _ _ _ Hi)) as [[_ Ha] Hx]. split; [|done].
    constructor; cbn; [done|]. intros _. by apply Ha.
  - intros a c j. rewrite (recoded_refers p p' i o inst Hr Hi Hn), (recoded_good p p' i o inst Hr Hi Hn). intros [H _]. by apply (so_good p Hs a c j).
  - intros a s c j. rewrite Hsh, (recoded_op _ _ _ _ Hr).
    assert (Hold : forall t, shapes p !! a = Some t -> Arg t c = Some (VInst j) -> c < NumArgs t \/
      exists o', (if decide (j = i) then (fun _ => o) <$> op_of p i else op_of p j) = Some o' /\ ~ live o').
    { intros t Ht Ha. destruct (so_spare p Hs a t c j Ht Ha) as [?|(o' & Ho' & Hnl)]; [by left|right]. exists o'. split; [|done].
      rewrite decide_False; [done|]. intros ->. unfold op_of in Ho'. rewrite Hi in Ho'. injection Ho' as <-. apply Hnl. apply Hn. }
    destruct (decide (a = i)) as [->|]; [|rewrite lookup_alter_ne by done; apply Hold].
    rewrite lookup_alter_eq, (shapes_Some _ _ _ Hi). intros [= <-] Ha. unfold NumArgs, Arg in Ha |- *. cbn in Ha |- *. rewrite ?decide_False in Ha by done. rewrite ?decide_False by done.
    destruct (decide (c < NumArgsOf o)) as [?|Hc]; [by left|right].
    destruct (Hsp c j ltac:(lia) ltac:(unfold Arg; by rewrite decide_False)) as (o' & Ho' & Hnl). exists o'. split; [|done].
    rewrite decide_False; [done|]. intros ->. unfold op_of in Ho'. rewrite Hi in Ho'. injection Ho' as <-. apply Hnl. apply Hn.
  - intros b l. rewrite Hb. intros Hl. destruct (so_blocks p Hs b l Hl) as [? H]. split; [done|]. intros j Hj. rewrite Hsh.
    destruct (decide (j = i)) as [->|]; [rewrite lookup_alter_eq, fmap_is_Some|rewrite lookup_alter_ne by done]; by apply H.
Qed.

Lemma ReplaceOpcode_spec p rank i o inst : wf p -> rank_ok p rank -> insts p !! i = Some inst -> narrows p i inst o ->
  exists p', ReplaceOpcode i o p = Some p' /\ wf p' /\ rank_ok p' rank /\ recoded p p' i o.
Proof.
  intros [Hs Hu] Hrk Hi Hn. pose proof Hn as (Hp & Ho & Hl & Hl' & _ & _ & Hsp). unfold ReplaceOpcode. rewrite decide_False by done. set (p' := set_inst i _ p).
  assert (Hlk : forall j, insts p' !! j = if decide (j = i) then Some (inst <| op := o |>) else insts p !! j).
  { intros j. unfold p'. rewrite set_inst_lookup. case_decide; [|done]. rewrite Hi. cbn. by rewrite decide_False. }
  assert (Hr : recoded p p' i o).
  { repeat split. apply map_eq. intros j. rewrite shapes_lookup, Hlk. destruct (decide (j = i)) as [->|]; [rewrite lookup_alter_eq, shapes_lookup, Hi; done|].
    by rewrite lookup_alter_ne, shapes_lookup. }
  exists p'. split; [done|]. split; [|split; [|done]].
  - constructor; [by eapply recoded_sound|]. intros j Hj. apply (recoded_live p p' i o inst Hr Hi Hn) in Hj. destruct (Hu j Hj) as [Hnd H].
    assert (E : uses_of p' j = uses_of p j) by (unfold uses_of; rewrite Hlk; case_decide; [subst; by rewrite Hi|done]). rewrite E. split; [done|].
    intros a c. rewrite H, (recoded_refers p p' i o inst Hr Hi Hn). split; [|tauto]. intros Hac. split; [done|]. intros ->.
    destruct (decide (c < NumArgsOf o)) as [?|Hc]; [done|]. destruct Hac as (s & Hsi & _ & Ha). rewrite (shapes_Some _ _ _ Hi) in Hsi. injection Hsi as <-.
    destruct (Hsp c j ltac:(lia) Ha) as (o' & Ho' & Hnl). destruct Hj as (o2 & Ho2 & Hl2). destruct Hnl. congruence.
  - intros a c j Hac Hphi. apply (recoded_refers p p' i o inst Hr Hi Hn) in Hac as [Hac _]. apply (Hrk a c j Hac).
    rewrite (recoded_op _ _ _ _ Hr) in Hphi. case_decide; [subst; unfold op_of; rewrite Hi; cbn; congruence|done].
Qed.
