(* ===== verification/IrEditing.v ===== *)
(** * Editing the shader representation

    The edits that the passes of the recompiler make to a program: a new instruction or a copy of one, an
    operand of a phi, another operand, the removal of an instruction, and the two ways to replace its uses
    (ir/microinstruction.cpp, ir/basic_block.cpp). However they are mixed, the lists of uses say who uses
    what. *)
From Stdlib Require Import ZArith Lia.
From stdpp Require Import base functions gmap list strings.
From S2P Require Import Prelude.
From S2P Require Import IrOpcodes ShaderIr.

(** * One edit *)

Inductive Edit :=
| NewInst (block : Z) (at_ : option Z) (o : Opcode) (l : list Value) (fl : Z)
| CopyInst (block : Z) (at_ : option Z) (i : Z)
| NewOperand (i predecessor : Z) (v : Value)
| Operand (i k : Z) (v : Value)
| Remove (i : Z)
| Replace (x : Z) (r : Value)
| ReplaceAndKeep (x : Z) (r : Value).

Definition perform (e : Edit) (p : Ir) : option Ir :=
  match e with
  | NewInst block at_ o l fl => '(_, p) ← PrependNewInst block at_ o l fl p; Some p
  | CopyInst block at_ i => '(_, p) ← PrependCopy block at_ i p; Some p
  | NewOperand i predecessor v => AddPhiOperand i predecessor v p
  | Operand i k v => SetArg i k v p
  | Remove i => Invalidate i p
  | Replace x r => ReplaceUsesWithAndRemove x r p
  | ReplaceAndKeep x r => ReplaceUsesWith x r p
  end.

(** ** An operand of a phi *)

Definition join_inst (b : Z) (v : Value) (s : Inst) : Inst := s <| phi_args ::= fun l => l ++ [(b, v)] |>.
Definition joins (p p' : Ir) (i b : Z) (v : Value) : Prop :=
  shapes p' = alter (join_inst b v) i (shapes p) /\ next_inst p' = next_inst p /\ blocks p' = blocks p.

Lemma at_last {A} (l : list A) x k : (l ++ [x]).[k] = if decide (k = zlen l) then Some x else l.[k].
Proof.
  unfold at_index, zlen. destruct (decide (0 <= k)) as [Hk|Hk]; [|by rewrite decide_False by lia]. case_decide as E.
  - subst k. rewrite Nat2Z.id. by rewrite lookup_app_r, Nat.sub_diag by lia.
  - destruct (decide (Z.to_nat k < length l)%nat); [by rewrite lookup_app_l|]. rewrite lookup_app_r by lia.
    destruct (Z.to_nat k - length l)%nat eqn:En; [lia|]. by rewrite (proj2 (lookup_ge_None l (Z.to_nat k))) by lia.
Qed.

Lemma joins_op p p' i b v : joins p p' i b v -> forall j, op_of p' j = op_of p j.
Proof.
  intros (Hs & _) j. rewrite !op_shapes, Hs. destruct (decide (j = i)) as [->|]; [rewrite lookup_alter_eq|by rewrite lookup_alter_ne].
  by destruct (shapes p !! i).
Qed.
Lemma joins_good p p' i b v : joins p p' i b v -> forall w, good p' w <-> good p w.
Proof. intros H w. destruct w; try done. cbn. by rewrite (joins_op _ _ _ _ _ H). Qed.
Lemma joins_live p p' i b v : joins p p' i b v -> forall j, live_at p' j <-> live_at p j.
Proof. intros H j. unfold live_at. by rewrite (joins_op _ _ _ _ _ H). Qed.

Lemma join_arg b v s k : op s = Phi -> Arg (join_inst b v s) k = if decide (k = NumArgs s) then Some v else Arg s k.
Proof.
  intros Ho. unfold Arg, NumArgs, join_inst. cbn [phi_args op]. change (op (s <| phi_args ::= fun l => l ++ [(b, v)] |>)) with (op s). rewrite !(decide_True (P := op s = Phi)) by done.
  change (phi_args (s <| phi_args ::= fun l => l ++ [(b, v)] |>)) with (phi_args s ++ [(b, v)]). rewrite at_last. by destruct (decide (k = zlen (phi_args s))).
Qed.
Lemma join_num b v s : op s = Phi -> NumArgs (join_inst b v s) = NumArgs s + 1.
Proof. intros Ho. unfold NumArgs, join_inst. cbn. rewrite !decide_True by done. unfold zlen. rewrite length_app. cbn. lia. Qed.

Lemma joins_refers p p' i b v inst : joins p p' i b v -> insts p !! i = Some inst -> op inst = Phi ->
  forall a c j, refers p' a c j <-> if decide ((a, c) = (i, NumArgs inst)) then v = VInst j else refers p a c j.
Proof.
  intros (Hs & _) Hi Ho a c j. unfold refers. rewrite Hs. destruct (decide (a = i)) as [->|Hne].
  - rewrite lookup_alter_eq, (shapes_Some _ _ _ Hi). cbn [fmap option_fmap option_map]. change (NumArgs inst) with (NumArgs (shape inst)). case_decide as E.
    + injection E as ->. split; [intros (x & [= <-] & _ & Hx); rewrite join_arg, decide_True in Hx by done; congruence|].
      intros ->. eexists; split; [done|]. rewrite join_num, join_arg, decide_True by done. split; [lia|done].
    + assert (Hc : c <> NumArgs (shape inst)) by congruence. split; intros (x & [= <-] & Hl & Hx); (eexists; split; [done|]).
      * rewrite join_num in Hl by done. rewrite join_arg, decide_False in Hx by done. split; [lia|done].
      * rewrite join_num, join_arg, decide_False by done. split; [lia|done].
  - rewrite lookup_alter_ne by done. rewrite decide_False by congruence. done.
Qed.

Lemma joins_sound p p' i b v inst : joins p p' i b v -> sound p -> insts p !! i = Some inst -> op inst = Phi -> good p v -> sound p'.
Proof.
  intros Hp Hs Hi Ho Hg. pose proof Hp as (Hsh & Hn & Hb). destruct (shape_ok p i inst Hs Hi) as [_ Hok].
  constructor; [..|rewrite Hn; apply (so_next p Hs)].
  - intros j s. rewrite Hsh, Hn. destruct (decide (j = i)) as [->|]; [|rewrite lookup_alter_ne by done; apply (so_inst p Hs)].
    rewrite lookup_alter_eq, (shapes_Some _ _ _ Hi). intros [= <-]. split; [|apply (so_inst p Hs i _ (shapes_Some _ _ _ Hi))].
    constructor; unfold join_inst; cbn; intros E; [by apply (io_phi _ Hok)|congruence].
  - intros a c j. rewrite (joins_refers p p' i b v inst Hp Hi Ho), (joins_good _ _ _ _ _ Hp). case_decide; [by intros <-|apply (so_good p Hs)].
  - intros a s c j. rewrite Hsh, (joins_op _ _ _ _ _ Hp). destruct (decide (a = i)) as [->|]; [|rewrite lookup_alter_ne by done; apply (so_spare p Hs)].
    rewrite lookup_alter_eq, (shapes_Some _ _ _ Hi). intros [= <-] Ha. rewrite join_arg in Ha by done. rewrite join_num by done.
    case_decide as E; [left; lia|]. left. destruct (so_spare p Hs i _ c j (shapes_Some _ _ _ Hi) Ha) as [?|_]; [lia|].
    rewrite Arg_operands in Ha. apply at_index_range in Ha as [_ Hlt]. unfold operands in Hlt. unfold NumArgs. rewrite decide_True in Hlt by exact Ho. rewrite decide_True by exact Ho.
    unfold zlen in *. rewrite length_fmap in Hlt. lia.
  - intros b' l. rewrite Hb. intros Hl. destruct (so_blocks p Hs b' l Hl) as [? H]. split; [done|]. intros j Hj. rewrite Hsh.
    destruct (decide (j = i)) as [->|]; [rewrite lookup_alter_eq, fmap_is_Some|rewrite lookup_alter_ne by done]; by apply H.
Qed.

Lemma AddPhiOperand_spec p rank i b v inst : wf p -> rank_ok p rank -> insts p !! i = Some inst -> op inst = Phi -> good p v ->
  exists p', AddPhiOperand i b v p = Some p' /\ wf p' /\ rank_ok p' rank /\ joins p p' i b v.
Proof.
  intros [Hwf Hu] Hrk Hi Ho Hg. unfold AddPhiOperand. rewrite Hi. cbn [mbind option_bind].
  assert (Hnum : zlen (phi_args inst) = NumArgs inst) by (unfold NumArgs; by rewrite decide_True). rewrite Hnum.
  destruct (use_spec p rank i (NumArgs inst) v Hwf Hrk ltac:(by left)) as (p1 & -> & Hs1 & Hu1). cbn [mbind option_bind].
  set (p' := set_inst i _ p1).
  assert (Hp : joins p p' i b v).
  { destruct Hs1 as (Hsh & Hn & Hb). repeat split; [|by rewrite Hn|by rewrite Hb]. apply map_eq. intros j. unfold p'.
    rewrite shapes_lookup, set_inst_lookup, Hsh. case_decide as E; [subst j; rewrite lookup_alter_eq|rewrite lookup_alter_ne by done; by rewrite shapes_lookup].
    rewrite shapes_lookup. by destruct (insts p1 !! i). }
  exists p'. split; [done|]. split; [|split; [|done]].
  - constructor; [by eapply joins_sound|]. intros j Hj. apply (joins_live _ _ _ _ _ Hp) in Hj.
    assert (E : uses_of p' j = uses_of p1 j) by (unfold uses_of, p'; rewrite set_inst_lookup; case_decide as E; [subst j; by destruct (insts p1 !! i)|done]).
    destruct (Hu j Hj) as [Hnd H]. rewrite E, Hu1 by done.
    assert (Hnew : forall j, ~ refers p i (NumArgs inst) j) by (intros x (s & Hs & Hlt & _); rewrite (shapes_Some _ _ _ Hi) in Hs; injection Hs as <-; rewrite NumArgs_shape in Hlt; lia).
    split; [case_decide; [constructor; [rewrite H; apply Hnew|done]|done]|]. intros a c. rewrite (joins_refers p p' i b v inst Hp Hi Ho).
    destruct (decide (v = VInst j)) as [Ev|Ev]; [rewrite elem_of_cons|]; rewrite H; destruct (decide ((a, c) = (i, NumArgs inst))) as [Eac|Eac]; try tauto.
    injection Eac as -> ->. split; [by intros ?%Hnew|done].
  - intros a c j. rewrite (joins_refers p p' i b v inst Hp Hi Ho), (joins_op _ _ _ _ _ Hp). case_decide as E; [|apply Hrk].
    injection E as -> ->. unfold op_of. rewrite Hi. cbn. by rewrite Ho.
Qed.

(** ** Replacing the uses and keeping an identity *)

(** A removed instruction becomes an identity, still of nothing. *)
Lemma revived_refers p p' x s o : shapes p !! x = Some (void_inst s) -> recoded p p' x o -> o <> Phi -> forall a c j, refers p' a c j <-> refers p a c j.
Proof.
  intros Hx (Hs & _) Ho a c j. unfold refers. rewrite Hs. destruct (decide (a = x)) as [->|]; [|by rewrite lookup_alter_ne].
  rewrite lookup_alter_eq, Hx. split; intros (t & [= <-] & _ & Ha); [|by apply void_inst_args in Ha].
  unfold Arg, void_inst in Ha. cbn in Ha. rewrite decide_False in Ha by done. destruct (no_args_at c) as [E|E]; by rewrite E in Ha.
Qed.
Lemma revived_wf p p' x s rank : wf p -> rank_ok p rank -> shapes p !! x = Some (void_inst s) -> recoded p p' x Identity ->
  (forall j, uses_of p' j = uses_of p j) -> wf p' /\ rank_ok p' rank.
Proof.
  intros [Hs Hu] Hrk Hx Hr Hus. pose proof Hr as (Hsh & Hn & Hb). pose proof (revived_refers p p' x s Identity Hx Hr ltac:(done)) as Href.
  assert (Hop : forall j, op_of p' j = if decide (j = x) then Some Identity else op_of p j) by (intros j; rewrite (recoded_op _ _ _ _ Hr), !op_shapes, Hx; done).
  assert (Hxo : op_of p x = Some Void) by (rewrite op_shapes, Hx; done).
  assert (Hlive : forall j, live_at p' j <-> live_at p j).
  { intros j. unfold live_at. rewrite Hop. case_decide; [subst; rewrite Hxo; split; intros (o & [= <-] & H); by destruct H|done]. }
  split; [constructor; [constructor|]|].
  - intros j t. rewrite Hsh, Hn. destruct (decide (j = x)) as [->|]; [|rewrite lookup_alter_ne by done; apply (so_inst p Hs)].
    rewrite lookup_alter_eq, Hx. intros [= <-]. split; [by constructor|]. by destruct (so_inst p Hs x _ Hx).
  - intros a c j Hac. apply Href, (so_good p Hs) in Hac as (o & Ho & H). exists o. rewrite Hop. case_decide as E; [|done].
    subst. rewrite Hxo in Ho. by injection Ho as <-.
  - intros a t c j. rewrite Hsh. assert (Hdead : forall o, op_of p j = Some o /\ ~ live o -> exists o, op_of p' j = Some o /\ ~ live o).
    { intros o [Ho Hl]. rewrite Hop. case_decide; [exists Identity; split; [done|by intros [_ ?]]|by exists o]. }
    destruct (decide (a = x)) as [->|]; [rewrite lookup_alter_eq, Hx; intros [= <-] Ha; unfold Arg, void_inst in Ha; cbn in Ha; rewrite decide_False in Ha by done;
      destruct (no_args_at c) as [E|E]; by rewrite E in Ha|].
    rewrite lookup_alter_ne by done. intros Ht Ha. destruct (so_spare p Hs a t c j Ht Ha) as [?|(o & Ho)]; [by left|right; by apply (Hdead o)].
  - intros b l. rewrite Hb. intros Hl. destruct (so_blocks p Hs b l Hl) as [? H]. split; [done|]. intros j Hj. rewrite Hsh.
    destruct (decide (j = x)) as [->|]; [rewrite lookup_alter_eq, fmap_is_Some|rewrite lookup_alter_ne by done]; by apply H.
  - rewrite Hn. apply (so_next p Hs).
  - intros j Hj. rewrite Hus. destruct (Hu j (proj1 (Hlive j) Hj)) as [Hnd H]. split; [done|]. intros a c. by rewrite H, Href.
  - intros a c j Hac Ho. apply Href in Hac. apply (Hrk a c j Hac). rewrite Hop in Ho. case_decide; [subst; by rewrite Hxo|done].
Qed.

(** The first part is the other replacement. *)
Lemma ReplaceUsesWith_split x r p : ReplaceUsesWith x r p =
  (p ← ReplaceUsesWithAndRemove x r p; p ← ReplaceOpcode x Identity p; SetArg x 0 r p).
Proof.
  unfold ReplaceUsesWith, ReplaceUsesWithAndRemove, ReplaceUses. destruct (insts p !! x) as [inst|]; [|done]. cbn [mbind option_bind].
  destruct (set_users (uses inst) r p) as [p1|]; [|done]. cbn [mbind option_bind]. by destruct (Invalidate x p1).
Qed.

Lemma ReplaceUsesWith_spec p rank x r : wf p -> rank_ok p rank -> live_at p x -> good p r -> r <> VInst x ->
  (forall j, r = VInst j -> (rank j < rank x)%nat) ->
  exists p', ReplaceUsesWith x r p = Some p' /\ wf p' /\ rank_ok p' rank /\ op_of p' x = Some Identity /\ (forall j, refers p' x 0 j <-> r = VInst j) /\
    forall i, i <> x -> shapes p' !! i = subst_inst x r <$> shapes p !! i.
Proof.
  intros Hwf Hrk Hx Hg Hr Hrank. rewrite ReplaceUsesWith_split.
  destruct (ReplaceUses_spec p rank x r Hwf Hrk Hx Hg Hr Hrank) as (p1 & -> & Hwf1 & Hrk1 & (Hs1 & _)). cbn [mbind option_bind].
  destruct (live_insts p x Hx) as [inst Hi]. assert (Hv : shapes p1 !! x = Some (void_inst inst)) by (rewrite Hs1, decide_True, (shapes_Some _ _ _ Hi) by done; done).
  unfold ReplaceOpcode. rewrite decide_False by done. cbn [mbind option_bind]. set (p2 := set_inst x _ p1).
  destruct (shapes_inv p1 x _ Hv) as (i1 & Hi1 & E1). pose proof (f_equal op E1) as Eo. change (Void = op i1) in Eo.
  assert (Hlk : forall j, insts p2 !! j = if decide (j = x) then Some (i1 <| op := Identity |>) else insts p1 !! j).
  { intros j. unfold p2. rewrite set_inst_lookup. case_decide; [|done]. rewrite Hi1. cbn. by rewrite <- Eo. }
  assert (Hrec : recoded p1 p2 x Identity).
  { repeat split. apply map_eq. intros j. rewrite shapes_lookup, Hlk. destruct (decide (j = x)) as [->|]; [by rewrite lookup_alter_eq, shapes_lookup, Hi1|].
    by rewrite lookup_alter_ne, shapes_lookup. }
  destruct (revived_wf p1 p2 x inst rank Hwf1 Hrk1 Hv Hrec) as [Hwf2 Hrk2].
  { intros j. unfold uses_of. rewrite Hlk. case_decide; [subst; by rewrite Hi1|done]. }
  pose proof (Hlk x) as Hi2. rewrite decide_True in Hi2 by done.
  assert (Hop : forall j, j <> x -> op_of p2 j = op_of p j).
  { intros j Hj. rewrite (recoded_op _ _ _ _ Hrec), decide_False, !op_shapes, Hs1, decide_False by done. by destruct (shapes p !! j). }
  destruct (SetArg_spec p2 rank x 0 r _ Hwf2 Hrk2 Hi2 ltac:(done)) as (p' & -> & Hwf' & Hp).
  { destruct r as [|j| | | | | | | | | | | |]; try done. destruct Hg as (o & Ho & Hres). exists o. rewrite Hop; [done|congruence]. }
  pose proof (puts_refers p2 p' x 0 r _ Hp (wf_sound p2 Hwf2) Hi2 ltac:(done)) as Href. exists p'. split; [done|]. split; [done|]. split; [by eapply puts_rank; [done|apply Hwf2|..]|].
  split; [rewrite (puts_op _ _ _ _ _ Hp); unfold op_of; by rewrite Hi2|]. split; [intros j; rewrite Href, decide_True; done|].
  intros i Hne. destruct Hp as (Hs & _), Hrec as (Hsr & _). by rewrite Hs, lookup_alter_ne, Hsr, lookup_alter_ne, Hs1, decide_False.
Qed.

(** * Any edits *)

(** [v] does not depend on [i]. *)
Definition settled (p : Ir) (i : Z) (v : Value) : Prop := exists rank, rank_ok p rank /\ forall j, v = VInst j -> (rank j < rank i)%nat.

(** What an edit asks for: values that exist, as many operands as the opcode has, and no cycle but through a
    phi. *)
Definition allowed (p : Ir) (e : Edit) : Prop :=
  match e with
  | NewInst block at_ o l fl => o <> Void /\ zlen l = NumArgsOf o /\ forall v, v ∈ l -> good p v
  | CopyInst block at_ i => exists o, op_of p i = Some o /\ o <> Phi /\ o <> Void
  | NewOperand i predecessor v => op_of p i = Some Phi /\ good p v
  | Operand i k v => exists inst, insts p !! i = Some inst /\ 0 <= k < NumArgs inst /\ good p v /\ (op inst = Phi \/ settled p i v)
  | Remove i => is_Some (insts p !! i) /\ forall a c, ~ refers p a c i
  | Replace x r | ReplaceAndKeep x r => live_at p x /\ good p r /\ settled p x r
  end.

(** The programs of the blocks [bs]. *)
Definition empty_ir (bs : list Z) : Ir := mkIr ∅ 0 (list_to_map ((fun b => (b, [])) <$> bs)).
Inductive edited (bs : list Z) : Ir -> Prop :=
| edited_empty : edited bs (empty_ir bs)
| edited_more p e p' : edited bs p -> allowed p e -> perform e p = Some p' -> edited bs p'.

(** A rank above those of the operands. *)
Definition above (rank : Z -> nat) (l : list Value) : nat := foldr (fun v n => match v with VInst j => S (rank j) `max` n | _ => n end)%nat O l.
Lemma above_lt rank l j : VInst j ∈ l -> (rank j < above rank l)%nat.
Proof.
  induction l as [|v l IH]; [by intros ?%elem_of_nil|]. intros [<-|H]%elem_of_cons; cbn [above foldr]; [lia|]. specialize (IH H). unfold above in IH |- *. destruct v; try done. lia.
Qed.

Lemma new_spec p rank b at_ o l fl : wf p -> rank_ok p rank -> o <> Void -> zlen l = NumArgsOf o -> (forall v, v ∈ l -> good p v) ->
  exists p' rank', PrependNewInst b at_ o l fl p = Some (next_inst p, p') /\ wf p' /\ rank_ok p' rank'.
Proof.
  intros Hwf Hrk Hv Hn Hg. destruct (decide (o = Phi)) as [->|Hp].
  - destruct l as [|v l]; [|by unfold zlen in Hn].
    destruct (fresh_wf p rank b at_ Phi fl Hwf Hrk Hv) as (Hwf0 & Hrk0 & _). eexists _, rank. split; [reflexivity|]. done.
  - pose proof (fresh_none p (wf_sound p Hwf)) as Hf. set (rank' j := if decide (j = next_inst p) then above rank l else rank j).
    assert (Hold : forall v j, good p v -> v = VInst j -> rank' j = rank j).
    { intros v j Hgv ->. destruct Hgv as (o' & Ho' & _). unfold rank'. rewrite decide_False; [done|]. intros ->. unfold op_of in Ho'. by rewrite Hf in Ho'. }
    destruct (PrependNewInst_spec p rank' b at_ o l fl Hwf) as (p' & -> & Hwf' & Hrk' & _); try done.
    + intros a c j Hr Ho. pose proof (so_good p (wf_sound p Hwf) a c j Hr) as Hgj. rewrite (Hold _ j Hgj eq_refl).
      assert (Ha : rank' a = rank a) by (unfold rank'; rewrite decide_False; [done|]; intros ->; destruct Hr as (s & Hs & _); by rewrite shapes_lookup, Hf in Hs).
      rewrite Ha. by apply (Hrk a c j).
    + intros v Hvl. split; [by apply Hg|]. intros j ->. rewrite (Hold _ j (Hg _ Hvl) eq_refl). unfold rank'. rewrite decide_True by done. by apply above_lt.
    + by exists p', rank'.
Qed.
Lemma copy_spec p rank b at_ i o : wf p -> rank_ok p rank -> op_of p i = Some o -> o <> Phi -> o <> Void ->
  exists n p' rank', PrependCopy b at_ i p = Some (n, p') /\ wf p' /\ rank_ok p' rank'.
Proof.
  intros Hwf Hrk Ho Hp Hv. unfold op_of in Ho. unfold PrependCopy. destruct (insts p !! i) as [inst|] eqn:Hi; [|done]. injection Ho as <-. cbn [mbind option_bind].
  rewrite decide_False by done. destruct (shape_ok p i inst (wf_sound p Hwf) Hi) as [Hok _]. destruct (io_args inst Hok Hp) as [_ Hl].
  pose proof (NumArgsOf_range (op inst)) as Hr. assert (Hn : NumArgs inst = NumArgsOf (op inst)) by (unfold NumArgs; by rewrite decide_False).
  destruct (new_spec p rank b at_ (op inst) (take (Z.to_nat (NumArgs inst)) (args inst)) (flags inst) Hwf Hrk Hv) as (p' & rank' & -> & H).
  - unfold zlen in *. rewrite length_take. lia.
  - intros v (k & Hk)%list_elem_of_lookup. apply lookup_take_Some in Hk as [Hk Hlt]. destruct v as [|j| | | | | | | | | | | |]; try done.
    apply (so_good p (wf_sound p Hwf) i (Z.of_nat k)). eapply refers_intro; [done|lia|]. unfold Arg. rewrite decide_False by done. by rewrite at_index_nat.
  - by exists (next_inst p), p', rank'.
Qed.
Lemma settled_not x r p : settled p x r -> r <> VInst x.
Proof. intros (rank & _ & H) ->. specialize (H x eq_refl). lia. Qed.

(** An edit that is allowed succeeds and keeps the program well-formed. *)
Lemma perform_wf p rank e : wf p -> rank_ok p rank -> allowed p e -> exists p' rank', perform e p = Some p' /\ wf p' /\ rank_ok p' rank'.
Proof.
  intros Hwf Hrk Ha. destruct e as [b at_ o l fl|b at_ i|i b v|i k v|i|x r|x r]; cbn [perform allowed] in *.
  - destruct Ha as (Hv & Hn & Hg). destruct (new_spec p rank b at_ o l fl Hwf Hrk Hv Hn Hg) as (p' & rank' & -> & H). by exists p', rank'.
  - destruct Ha as (o & Ho & Hp & Hv). destruct (copy_spec p rank b at_ i o Hwf Hrk Ho Hp Hv) as (n & p' & rank' & -> & H). by exists p', rank'.
  - destruct Ha as [Ho Hg]. unfold op_of in Ho. destruct (insts p !! i) as [inst|] eqn:Hi; [|done]. injection Ho as Ho.
    destruct (AddPhiOperand_spec p rank i b v inst Hwf Hrk Hi Ho Hg) as (p' & -> & Hwf' & Hrk' & _). by exists p', rank.
  - destruct Ha as (inst & Hi & Hk & Hg & Hs). assert (H : exists rank, rank_ok p rank /\ (op inst <> Phi -> forall j, v = VInst j -> (rank j < rank i)%nat)).
    { destruct Hs as [Hphi|(rank' & Hrk' & Hr)]; [by exists rank|by exists rank']. }
    destruct H as (rank' & Hrk' & Hr). destruct (SetArg_spec p rank' i k v inst Hwf Hrk' Hi Hk Hg) as (p' & -> & Hwf' & Hp).
    exists p', rank'. split; [done|]. split; [done|]. by eapply puts_rank; [done|apply Hwf|..].
  - destruct Ha as [Hi Hno]. destruct (Invalidate_voids p rank i Hwf Hrk Hi Hno) as (p' & -> & Hwf' & Hv). exists p', rank. split; [done|]. split; [done|]. by eapply voids_rank.
  - destruct Ha as (Hx & Hg & Hs). pose proof (settled_not _ _ _ Hs) as Hne. destruct Hs as (rank' & Hrk' & Hr).
    destruct (ReplaceUses_spec p rank' x r Hwf Hrk' Hx Hg Hne Hr) as (p' & -> & H & H' & _). by exists p', rank'.
  - destruct Ha as (Hx & Hg & Hs). pose proof (settled_not _ _ _ Hs) as Hne. destruct Hs as (rank' & Hrk' & Hr).
    destruct (ReplaceUsesWith_spec p rank' x r Hwf Hrk' Hx Hg Hne Hr) as (p' & -> & H & H' & _). by exists p', rank'.
Qed.

Lemma empty_wf bs : wf (empty_ir bs) /\ rank_ok (empty_ir bs) (fun _ => O).
Proof.
  assert (Hno : forall a c j, ~ refers (empty_ir bs) a c j) by (intros a c j (s & Hs & _); by rewrite shapes_lookup in Hs).
  split; [constructor; [constructor|]|].
  - intros i s Hs. by rewrite shapes_lookup in Hs.
  - intros a c j H. by apply Hno in H.
  - intros i s c j Hs. by rewrite shapes_lookup in Hs.
  - intros b l Hl. apply elem_of_list_to_map_2 in Hl. apply list_elem_of_fmap in Hl as (b' & [= _ ->] & _). split; [constructor|]. by intros i ?%elem_of_nil.
  - done.
  - intros j (o & Ho & _). done.
  - intros a c j H. by apply Hno in H.
Qed.
Lemma edited_ranked bs p : edited bs p -> wf p /\ exists rank, rank_ok p rank.
Proof.
  induction 1 as [|p e p' _ [Hwf [rank Hrk]] Ha Hp]; [destruct (empty_wf bs); split; [done|by eexists]|].
  destruct (perform_wf p rank e Hwf Hrk Ha) as (q & rank' & Hq & Hwf' & Hrk'). rewrite Hp in Hq. injection Hq as <-. by split; [|exists rank'].
Qed.

(** C35. The invariant of the shader representation, whatever edits a program went through. Its instructions
    are those of the blocks or others of the pool, no block holds one twice, and an operand is an
    immediate or an instruction with a result. The uses of an instruction are exactly the operands it is,
    each once; operands do not depend on each other in a circle, except through phis; and every edit that
    is allowed succeeds. *)
Theorem edited_wf (bs : list Z) (p : Ir) : edited bs p ->
  (forall b l, blocks p !! b = Some l -> NoDup l /\ forall i, i ∈ l -> is_Some (insts p !! i)) /\
  (forall i k j, refers p i k j -> exists o, op_of p j = Some o /\ TypeOf o <> T_Void) /\
  (forall j, live_at p j -> NoDup (uses_of p j) /\ forall i k, (i, k) ∈ uses_of p j <-> refers p i k j) /\
  (exists rank, forall i k j, refers p i k j -> op_of p i <> Some Phi -> (rank j < rank i)%nat) /\
  forall e, allowed p e -> exists p', perform e p = Some p' /\ edited bs p'.
Proof.
  intros He. destruct (edited_ranked bs p He) as [Hwf [rank Hrk]]. split; [|split; [|split; [|split]]].
  - intros b l Hl. destruct (so_blocks p (wf_sound p Hwf) b l Hl) as [Hnd Hin]. split; [done|]. intros i Hi. destruct (Hin i Hi) as [s Hs].
    apply shapes_inv in Hs as (inst & Hx & _). by exists inst.
  - intros i k j Hr. by apply (so_good p (wf_sound p Hwf) i k j).
  - apply Hwf.
  - by exists rank.
  - intros e Ha. destruct (perform_wf p rank e Hwf Hrk Ha) as (p' & _ & Hp & _). exists p'. split; [done|]. by eapply edited_more.
Qed.

(** ** Programs that can be computed *)

(** The references of a program, listed. *)
Definition refs_of (ix : Z * Inst) : list (Z * Z * Z) :=
  omap (fun k => match Arg ix.2 k with Some (VInst j) => Some (ix.1, k, j) | _ => None end) (seqZ 0 (NumArgs ix.2)).
Definition refs (p : Ir) : list (Z * Z * Z) := map_to_list (insts p) ≫= refs_of.
Definition ranked (p : Ir) (rank : Z -> nat) : bool :=
  forallb (fun r => bool_decide (op_of p r.1.1 = Some Phi) || (rank r.2 <? rank r.1.1)%nat) (refs p).
Definition unused (p : Ir) (i : Z) : bool := forallb (fun r => negb (r.2 =? i)) (refs p).

Lemma refers_listed p a c j : refers p a c j -> (a, c, j) ∈ refs p.
Proof.
  intros (s & Hs & Hlt & Ha). apply shapes_inv in Hs as (inst & Hi & ->). apply list_elem_of_bind. exists (a, inst). split; [|by apply elem_of_map_to_list].
  apply list_elem_of_omap. exists c. split; [|rewrite Arg_shape in Ha; cbn; by rewrite Ha]. apply elem_of_seqZ. cbn. rewrite NumArgs_shape in Hlt.
  rewrite Arg_operands in Ha. apply at_index_range in Ha. lia.
Qed.
Lemma ranked_ok p rank : ranked p rank = true -> rank_ok p rank.
Proof.
  intros H a c j Hr Ho. apply refers_listed in Hr. unfold ranked in H. rewrite forallb_forall in H. specialize (H _ (proj1 (list_elem_of_In _ _) Hr)).
  cbn in H. apply orb_true_iff in H as [H|H]; [by apply bool_decide_eq_true in H|by apply Nat.ltb_lt].
Qed.
Lemma unused_ok p i : unused p i = true -> forall a c, ~ refers p a c i.
Proof.
  intros H a c Hr. apply refers_listed in Hr. unfold unused in H. rewrite forallb_forall in H. specialize (H _ (proj1 (list_elem_of_In _ _) Hr)).
  cbn in H. by rewrite Z.eqb_refl in H.
Qed.

(** What [allowed] asks for, computed; the order of the numbers serves as the rank. *)
Definition goodb (p : Ir) (v : Value) : bool :=
  match v with VInst j => match op_of p j with Some o => negb (bool_decide (TypeOf o = T_Void)) | None => false end | _ => true end.
Definition liveb (p : Ir) (i : Z) : bool :=
  match op_of p i with Some o => negb (bool_decide (o = Void) || bool_decide (o = Identity)) | None => false end.
Definition settledb (p : Ir) (i : Z) (v : Value) : bool :=
  ranked p Z.to_nat && match v with VInst j => (Z.to_nat j <? Z.to_nat i)%nat | _ => true end.
Definition allowedb (p : Ir) (e : Edit) : bool :=
  match e with
  | NewInst block at_ o l fl => negb (bool_decide (o = Void)) && (zlen l =? NumArgsOf o) && forallb (goodb p) l
  | CopyInst block at_ i => match op_of p i with Some o => negb (bool_decide (o = Phi) || bool_decide (o = Void)) | None => false end
  | NewOperand i predecessor v => bool_decide (op_of p i = Some Phi) && goodb p v
  | Operand i k v =>
      match insts p !! i with
      | Some inst => (0 <=? k) && (k <? NumArgs inst) && goodb p v && (bool_decide (op inst = Phi) || settledb p i v)
      | None => false
      end
  | Remove i => bool_decide (is_Some (insts p !! i)) && unused p i
  | Replace x r | ReplaceAndKeep x r => liveb p x && goodb p r && settledb p x r
  end.

Lemma goodb_ok p v : goodb p v = true -> good p v.
Proof.
  destruct v as [|j| | | | | | | | | | | |]; cbn; try done. destruct (op_of p j) as [o|]; [|done]. intros H. exists o. split; [done|].
  apply negb_true_iff, bool_decide_eq_false in H. done.
Qed.
Lemma liveb_ok p i : liveb p i = true -> live_at p i.
Proof.
  unfold liveb, live_at. destruct (op_of p i) as [o|]; [|done]. intros H. exists o. split; [done|].
  apply negb_true_iff, orb_false_iff in H as [H1%bool_decide_eq_false H2%bool_decide_eq_false]. done.
Qed.
Lemma settledb_ok p i v : settledb p i v = true -> settled p i v.
Proof.
  intros [H1 H2]%andb_true_iff. exists Z.to_nat. split; [by apply ranked_ok|]. intros j ->. by apply Nat.ltb_lt.
Qed.
Lemma allowedb_ok p e : allowedb p e = true -> allowed p e.
Proof.
  destruct e as [b at_ o l fl|b at_ i|i b v|i k v|i|x r|x r]; cbn; rewrite ?andb_true_iff.
  - intros [[H1 H2] H3]. split; [by apply negb_true_iff, bool_decide_eq_false in H1|]. split; [by apply Z.eqb_eq|]. intros v Hv. apply goodb_ok.
    rewrite forallb_forall in H3. by apply H3, list_elem_of_In.
  - destruct (op_of p i) as [o|]; [|done]. intros [H1%bool_decide_eq_false H2%bool_decide_eq_false]%negb_true_iff%orb_false_iff. by exists o.
  - intros [H1%bool_decide_eq_true H2]. split; [done|by apply goodb_ok].
  - destruct (insts p !! i) as [inst|]; [|done]. rewrite !andb_true_iff. intros [[[H1%Z.leb_le H2%Z.ltb_lt] H3%goodb_ok] H4]. exists inst. split; [done|]. split; [lia|].
    split; [done|]. apply orb_true_iff in H4 as [H4|H4]; [left; by apply bool_decide_eq_true in H4|right; by apply settledb_ok].
  - intros [H1%bool_decide_eq_true H2]. split; [done|by apply unused_ok].
  - intros [[H1%liveb_ok H2%goodb_ok] H3%settledb_ok]. done.
  - intros [[H1%liveb_ok H2%goodb_ok] H3%settledb_ok]. done.
Qed.

(** A list of edits, each checked. *)
Fixpoint perform_all (l : list Edit) (p : Ir) : option Ir :=
  match l with [] => Some p | e :: r => if allowedb p e then p ← perform e p; perform_all r p else None end.
Lemma perform_all_edited bs l : forall p p', edited bs p -> perform_all l p = Some p' -> edited bs p'.
Proof.
  induction l as [|e l IH]; intros p p' He; cbn; [by intros [= <-]|]. destruct (allowedb p e) eqn:Ha; [|done]. destruct (perform e p) as [q|] eqn:E; [|done].
  apply IH. eapply edited_more; [done|by apply allowedb_ok|done].
Qed.

(** A loop: a value, a phi of it and of the sum of the phi and a constant; then the sum goes. *)
Definition sample_edits : list Edit :=
  [NewInst 0 None GetUserData [VScalarReg 3] 0; NewInst 0 (Some 0) Phi [] 0; NewOperand 1 7 (VInst 0); NewInst 0 None IAdd32 [VInst 1; ImmU32 5] 0;
   NewOperand 1 0 (VInst 2); CopyInst 0 None 2; ReplaceAndKeep 2 (VInst 0); Operand 1 1 (ImmU32 9); Remove 2].
Lemma edited_wf_witness : exists p, perform_all sample_edits (empty_ir [0]) = Some p /\ uses_of p 0 = [(1, 0)] /\ edited [0] p /\
  forall e, allowed p e -> exists p', perform e p = Some p' /\ edited [0] p'.
Proof.
  destruct (perform_all sample_edits (empty_ir [0])) as [p|] eqn:E; [|vm_compute in E; discriminate]. exists p. split; [done|].
  assert (He : edited [0] p) by (apply (perform_all_edited [0] sample_edits (empty_ir [0]) p (edited_empty [0]) E)).
  split; [vm_compute in E; injection E as <-; reflexivity|]. split; [exact He|]. apply (edited_wf [0] p He).
Defined.
