(* ===== verification/IrSemantics.v ===== *)
(** * What the shader representation means

    Reference values of the opcodes that the optimisation passes evaluate or look through, after
    the SPIR-V instructions that backend/spirv emits for them (emit_spirv_integer.cpp,
    emit_spirv_logical.cpp, emit_spirv_composite.cpp, emit_spirv_bitwise_conversion.cpp), and what a
    pass has to keep: the operations of each block that are not such values, in their order, with
    the values of their operands. *)
From Stdlib Require Import ZArith Lia.
From stdpp Require Import base functions gmap list strings.
From S2P Require Import Prelude.
From S2P Require Import IrOpcodes ShaderIr.

(** The value of an instruction while a shader runs: a scalar, as the immediate that stands for it,
    or a vector. *)
Inductive Dyn :=
| Scalar (v : Value)
| Vector (l : list Value).

Definition eval (rho : Z -> Dyn) (v : Value) : Dyn := match v with VInst i => rho i | _ => Scalar v end.

(** The scalars that are in the range of their type. *)
Definition u1_of (d : Dyn) : option bool := match d with Scalar (ImmU1 b) => Some b | _ => None end.
Definition u32_of (d : Dyn) : option Z := match d with Scalar (ImmU32 x) => if decide (0 <= x <= U32_MAX) then Some x else None | _ => None end.
Definition f32_of (d : Dyn) : option Z := match d with Scalar (ImmF32 x) => if decide (0 <= x <= U32_MAX) then Some x else None | _ => None end.
Definition u64_of (d : Dyn) : option Z := match d with Scalar (ImmU64 x) => if decide (0 <= x <= U64_MAX) then Some x else None | _ => None end.
Definition f64_of (d : Dyn) : option Z := match d with Scalar (ImmF64 x) => if decide (0 <= x <= U64_MAX) then Some x else None | _ => None end.
Definition scalar_of (d : Dyn) : option Value := match d with Scalar v => Some v | _ => None end.
Definition vector_of (d : Dyn) : option (list Value) := match d with Vector l => Some l | _ => None end.

Definition DU1 (b : bool) : Dyn := Scalar (ImmU1 b).
Definition DU32 (x : Z) : Dyn := Scalar (ImmU32 x).
Definition DF32 (x : Z) : Dyn := Scalar (ImmF32 x).
Definition DU64 (x : Z) : Dyn := Scalar (ImmU64 x).
Definition DF64 (x : Z) : Dyn := Scalar (ImmF64 x).

(** Operations of one, two and three typed operands. *)
Definition sem1 {A} (ga : Dyn -> option A) (f : A -> option Dyn) (l : list Dyn) : option Dyn :=
  match l with [d] => a ← ga d; f a | _ => None end.
Definition sem2 {A B} (ga : Dyn -> option A) (gb : Dyn -> option B) (f : A -> B -> option Dyn) (l : list Dyn) : option Dyn :=
  match l with [d; e] => a ← ga d; b ← gb e; f a b | _ => None end.
Definition sem3 {A B C} (ga : Dyn -> option A) (gb : Dyn -> option B) (gc : Dyn -> option C) (f : A -> B -> C -> option Dyn) (l : list Dyn) : option Dyn :=
  match l with [d; e; g] => a ← ga d; b ← gb e; c ← gc g; f a b c | _ => None end.
Definition sem4 {A B C D} (ga : Dyn -> option A) (gb : Dyn -> option B) (gc : Dyn -> option C) (gd : Dyn -> option D)
    (f : A -> B -> C -> D -> option Dyn) (l : list Dyn) : option Dyn :=
  match l with [d; e; g; h] => a ← ga d; b ← gb e; c ← gc g; x ← gd h; f a b c x | _ => None end.

Definition bin32 (f : Z -> Z -> Z) : list Dyn -> option Dyn := sem2 u32_of u32_of (fun a b => Some (DU32 (f a b))).
Definition cmp32 (f : Z -> Z -> bool) : list Dyn -> option Dyn := sem2 u32_of u32_of (fun a b => Some (DU1 (f a b))).
Definition cmp64 (f : Z -> Z -> bool) : list Dyn -> option Dyn := sem2 u64_of u64_of (fun a b => Some (DU1 (f a b))).
Definition bin64 (f : Z -> Z -> Z) : list Dyn -> option Dyn := sem2 u64_of u64_of (fun a b => Some (DU64 (f a b))).
Definition bin1 (f : bool -> bool -> bool) : list Dyn -> option Dyn := sem2 u1_of u1_of (fun a b => Some (DU1 (f a b))).

(** The number of set bits among the lowest [n], and the lowest [n] bits in the opposite order. *)
Fixpoint count_bits (n : nat) (x : Z) : Z :=
  match n with O => 0 | S m => count_bits m x + (if Z.testbit x (Z.of_nat m) then 1 else 0) end.
Fixpoint reversed_bits (n : nat) (w x : Z) : Z :=
  match n with O => 0 | S m => reversed_bits m w x + (if Z.testbit x (Z.of_nat m) then 2 ^ (w - 1 - Z.of_nat m) else 0) end.

(** The nearest float to an integer below [2 ^ 32], ties to even. *)
Definition f32_of_u32 (a : Z) : Z :=
  if a =? 0 then 0 else
  let e := Z.log2 a in
  if e <=? 23 then (e + 127) * 2 ^ 23 + (a * 2 ^ (23 - e) - 2 ^ 23)
  else
    let s := e - 23 in
    let q := a / 2 ^ s in
    let r := a mod 2 ^ s in
    let q := if (2 ^ (s - 1) <? r) || ((r =? 2 ^ (s - 1)) && Z.odd q) then q + 1 else q in
    (e + 127) * 2 ^ 23 + (q - 2 ^ 23).

(** The class of a float, one bit of [FloatClassFunc] (ir/reg.h). *)
Definition float_class (x : Z) : Z :=
  let negative := Z.testbit x 31 in
  let exponent := Z.land (Z.shiftr x 23) 255 in
  let mantissa := Z.land x (2 ^ 23 - 1) in
  if exponent =? 255 then
    if mantissa =? 0 then (if negative then 4 else 512)
    else if Z.testbit mantissa 22 then 2 else 1
  else if exponent =? 0 then
    if mantissa =? 0 then (if negative then 32 else 64) else (if negative then 16 else 128)
  else if negative then 8 else 256.
Definition Class_NaN : Z := 3.
Definition Class_Infinity : Z := 516.
Definition Class_Finite : Z := 504.
Definition in_class (mask x : Z) : bool := negb (Z.land (float_class x) mask =? 0).

(** The bits [offset .. offset + count - 1] of [base]; the same as a signed number; and [base] with the
    low bits of [insert] in their place. *)
Definition bits_of (base offset count : Z) : Z := Z.land (Z.shiftr base offset) (Z.ones count).
Definition signed_bits (base offset count : Z) : Z :=
  let u := bits_of base offset count in
  wrap32 (if (0 <? count) && Z.testbit u (count - 1) then u - 2 ^ count else u).
Definition insert_bits (base insert offset count : Z) : Z :=
  Z.lor (Z.ldiff base (Z.shiftl (Z.ones count) offset)) (Z.shiftl (Z.land insert (Z.ones count)) offset).

(** The vectors of [n] components. *)
Definition all_of {A} (g : Dyn -> option A) (n : nat) (l : list Dyn) : option Dyn :=
  if decide (length l = n /\ Forall (fun d => is_Some (g d)) l) then Vector <$> mapM scalar_of l else None.
Definition component (n : nat) (l : list Dyn) : option Dyn :=
  sem2 vector_of u32_of (fun v k => if decide (length v = n) then Scalar <$> v.[k] else None) l.
Definition with_component {A} (g : Dyn -> option A) (n : nat) (l : list Dyn) : option Dyn :=
  sem3 vector_of (fun d => _ ← g d; scalar_of d) u32_of
    (fun v d k => if decide (length v = n /\ k < Z.of_nat n) then Some (Vector (<[Z.to_nat k := d]> v)) else None) l.

Section Semantics.
(** What the host computes when it packs a vector of floats into a word or a float into 16 bits,
    and back: the formats of the graphics API. *)
Context (conv : Opcode -> Dyn -> option Dyn).

Definition is_conv (o : Opcode) : bool :=
  match o with
  | PackUnorm2x16 | UnpackUnorm2x16 | PackSnorm2x16 | UnpackSnorm2x16 | PackUint2x16 | UnpackUint2x16
  | PackSint2x16 | UnpackSint2x16 | PackHalf2x16 | UnpackHalf2x16 | PackUnorm4x8 | UnpackUnorm4x8
  | PackSnorm4x8 | UnpackSnorm4x8 | PackUint4x8 | UnpackUint4x8 | PackSint4x8 | UnpackSint4x8
  | PackUfloat10_11_11 | UnpackUfloat10_11_11 | PackUnorm2_10_10_10 | UnpackUnorm2_10_10_10
  | PackSnorm2_10_10_10 | UnpackSnorm2_10_10_10 | PackUint2_10_10_10 | UnpackUint2_10_10_10
  | PackSint2_10_10_10 | UnpackSint2_10_10_10 | ConvertF32F16 | ConvertF16F32 => true
  | _ => false
  end.

Definition sem (o : Opcode) (l : list Dyn) : option Dyn :=
  match o with
  | Identity => match l with [d] => Some d | _ => None end
  | IAdd32 => bin32 (fun a b => wrap32 (a + b)) l
  | ISub32 => bin32 (fun a b => wrap32 (a - b)) l
  | IMul32 => bin32 (fun a b => wrap32 (a * b)) l
  | UDiv32 => sem2 u32_of u32_of (fun a b => if b =? 0 then None else Some (DU32 (a / b))) l
  | UMod32 => sem2 u32_of u32_of (fun a b => if b =? 0 then None else Some (DU32 (a mod b))) l
  | ConvertF32U32 => sem1 u32_of (fun a => Some (DF32 (f32_of_u32 a))) l
  | ShiftLeftLogical32 => sem2 u32_of u32_of (fun a b => if 32 <=? b then None else Some (DU32 (wrap32 (a * 2 ^ b)))) l
  | ShiftRightLogical32 => sem2 u32_of u32_of (fun a b => if 32 <=? b then None else Some (DU32 (a / 2 ^ b))) l
  | ShiftRightArithmetic32 => sem2 u32_of u32_of (fun a b => if 32 <=? b then None else Some (DU32 (wrap32 (s32 a / 2 ^ b)))) l
  | BitCastF32U32 => sem1 u32_of (fun a => Some (DF32 a)) l
  | BitCastU32F32 => sem1 f32_of (fun a => Some (DU32 a)) l
  | PackUint2x32 => sem1 vector_of (fun v => sem2 u32_of u32_of (fun lo hi => Some (DU64 (lo + hi * 2 ^ 32))) (Scalar <$> v)) l
  | UnpackUint2x32 => sem1 u64_of (fun a => Some (Vector [ImmU32 (a mod 2 ^ 32); ImmU32 (a / 2 ^ 32)])) l
  | PackDouble2x32 => sem1 vector_of (fun v => sem2 u32_of u32_of (fun lo hi => Some (DF64 (lo + hi * 2 ^ 32))) (Scalar <$> v)) l
  | UnpackDouble2x32 => sem1 f64_of (fun a => Some (Vector [ImmU32 (a mod 2 ^ 32); ImmU32 (a / 2 ^ 32)])) l
  | SelectU1 => sem3 u1_of u1_of u1_of (fun c a b => Some (DU1 (if c then a else b))) l
  | SelectU32 => sem3 u1_of u32_of u32_of (fun c a b => Some (DU32 (if c then a else b))) l
  | SelectF32 => sem3 u1_of f32_of f32_of (fun c a b => Some (DF32 (if c then a else b))) l
  | FPNeg32 => sem1 f32_of (fun a => Some (DF32 (Z.lxor a (2 ^ 31)))) l
  | FPIsNan32 => sem1 f32_of (fun a => Some (DU1 (in_class Class_NaN a))) l
  | FPIsInf32 => sem1 f32_of (fun a => Some (DU1 (in_class Class_Infinity a))) l
  | FPCmpClass32 => sem2 f32_of u32_of (fun a mask => Some (DU1 (in_class mask a))) l
  | LogicalAnd => bin1 andb l
  | LogicalOr => bin1 orb l
  | LogicalNot => sem1 u1_of (fun a => Some (DU1 (negb a))) l
  | SLessThan32 => cmp32 (fun a b => s32 a <? s32 b) l
  | SLessThan64 => cmp64 (fun a b => s64 a <? s64 b) l
  | ULessThan32 => cmp32 Z.ltb l
  | ULessThan64 => cmp64 Z.ltb l
  | SLessThanEqual32 => cmp32 (fun a b => s32 a <=? s32 b) l
  | SLessThanEqual64 => cmp64 (fun a b => s64 a <=? s64 b) l
  | ULessThanEqual32 => cmp32 Z.leb l
  | ULessThanEqual64 => cmp64 Z.leb l
  | SGreaterThan32 => cmp32 (fun a b => s32 b <? s32 a) l
  | SGreaterThan64 => cmp64 (fun a b => s64 b <? s64 a) l
  | UGreaterThan32 => cmp32 (fun a b => b <? a) l
  | UGreaterThan64 => cmp64 (fun a b => b <? a) l
  | SGreaterThanEqual32 => cmp32 (fun a b => s32 b <=? s32 a) l
  | SGreaterThanEqual64 => cmp64 (fun a b => s64 b <=? s64 a) l
  | UGreaterThanEqual32 => cmp32 (fun a b => b <=? a) l
  | UGreaterThanEqual64 => cmp64 (fun a b => b <=? a) l
  | IEqual32 => cmp32 Z.eqb l
  | IEqual64 => cmp64 Z.eqb l
  | INotEqual32 => cmp32 (fun a b => negb (a =? b)) l
  | INotEqual64 => cmp64 (fun a b => negb (a =? b)) l
  | BitwiseAnd32 => bin32 Z.land l
  | BitwiseAnd64 => bin64 Z.land l
  | BitwiseOr32 => bin32 Z.lor l
  | BitwiseOr64 => bin64 Z.lor l
  | BitwiseXor32 => bin32 Z.lxor l
  | BitwiseNot32 => sem1 u32_of (fun a => Some (DU32 (U32_MAX - a))) l
  | BitReverse32 => sem1 u32_of (fun a => Some (DU32 (reversed_bits 32 32 a))) l
  | BitCount32 => sem1 u32_of (fun a => Some (DU32 (count_bits 32 a))) l
  | BitCount64 => sem1 u64_of (fun a => Some (DU32 (count_bits 64 a))) l
  | BitFieldUExtract => sem3 u32_of u32_of u32_of (fun b o n => if 32 <? o + n then None else Some (DU32 (bits_of b o n))) l
  | BitFieldSExtract => sem3 u32_of u32_of u32_of (fun b o n => if 32 <? o + n then None else Some (DU32 (signed_bits b o n))) l
  | BitFieldInsert => sem4 u32_of u32_of u32_of u32_of (fun b i o n => if 32 <? o + n then None else Some (DU32 (insert_bits b i o n))) l
  | CompositeConstructU32x2 => all_of u32_of 2 l
  | CompositeConstructU32x3 => all_of u32_of 3 l
  | CompositeConstructU32x4 => all_of u32_of 4 l
  | CompositeConstructF32x2 => all_of f32_of 2 l
  | CompositeConstructF32x3 => all_of f32_of 3 l
  | CompositeConstructF32x4 => all_of f32_of 4 l
  | CompositeInsertU32x2 => with_component u32_of 2 l
  | CompositeInsertU32x3 => with_component u32_of 3 l
  | CompositeInsertU32x4 => with_component u32_of 4 l
  | CompositeInsertF32x2 => with_component f32_of 2 l
  | CompositeInsertF32x3 => with_component f32_of 3 l
  | CompositeInsertF32x4 => with_component f32_of 4 l
  | CompositeExtractU32x2 | CompositeExtractF32x2 => component 2 l
  | CompositeExtractU32x3 | CompositeExtractF32x3 => component 3 l
  | CompositeExtractU32x4 | CompositeExtractF32x4 => component 4 l
  | _ => if is_conv o then match l with [d] => conv o d | _ => None end else None
  end.

(** The opcodes [sem] is about: their instructions compute a value and do nothing else. *)
Definition pure (o : Opcode) : bool :=
  is_conv o ||
  match o with
  | Identity | IAdd32 | ISub32 | IMul32 | UDiv32 | UMod32 | ConvertF32U32 | ShiftLeftLogical32
  | ShiftRightLogical32 | ShiftRightArithmetic32 | BitCastF32U32 | BitCastU32F32 | PackUint2x32
  | UnpackUint2x32 | PackDouble2x32 | UnpackDouble2x32 | SelectU1 | SelectU32 | SelectF32 | FPNeg32
  | FPIsNan32 | FPIsInf32 | FPCmpClass32 | LogicalAnd | LogicalOr | LogicalNot | SLessThan32 | SLessThan64
  | ULessThan32 | ULessThan64 | SLessThanEqual32 | SLessThanEqual64 | ULessThanEqual32 | ULessThanEqual64
  | SGreaterThan32 | SGreaterThan64 | UGreaterThan32 | UGreaterThan64 | SGreaterThanEqual32
  | SGreaterThanEqual64 | UGreaterThanEqual32 | UGreaterThanEqual64 | IEqual32 | IEqual64 | INotEqual32
  | INotEqual64 | BitwiseAnd32 | BitwiseAnd64 | BitwiseOr32 | BitwiseOr64 | BitwiseXor32 | BitwiseNot32
  | BitReverse32 | BitCount32 | BitCount64 | BitFieldUExtract | BitFieldSExtract | BitFieldInsert
  | CompositeConstructU32x2 | CompositeConstructU32x3 | CompositeConstructU32x4 | CompositeConstructF32x2
  | CompositeConstructF32x3 | CompositeConstructF32x4 | CompositeInsertU32x2 | CompositeInsertU32x3
  | CompositeInsertU32x4 | CompositeInsertF32x2 | CompositeInsertF32x3 | CompositeInsertF32x4
  | CompositeExtractU32x2 | CompositeExtractF32x2 | CompositeExtractU32x3 | CompositeExtractF32x3
  | CompositeExtractU32x4 | CompositeExtractF32x4 => true
  | _ => false
  end.

(** ** Runs *)

(** The conversion the other way. *)
Definition opposite (o : Opcode) : Opcode :=
  match o with
  | PackUnorm2x16 => UnpackUnorm2x16 | UnpackUnorm2x16 => PackUnorm2x16
  | PackSnorm2x16 => UnpackSnorm2x16 | UnpackSnorm2x16 => PackSnorm2x16
  | PackUint2x16 => UnpackUint2x16 | UnpackUint2x16 => PackUint2x16
  | PackSint2x16 => UnpackSint2x16 | UnpackSint2x16 => PackSint2x16
  | PackHalf2x16 => UnpackHalf2x16 | UnpackHalf2x16 => PackHalf2x16
  | PackUnorm4x8 => UnpackUnorm4x8 | UnpackUnorm4x8 => PackUnorm4x8
  | PackSnorm4x8 => UnpackSnorm4x8 | UnpackSnorm4x8 => PackSnorm4x8
  | PackUint4x8 => UnpackUint4x8 | UnpackUint4x8 => PackUint4x8
  | PackSint4x8 => UnpackSint4x8 | UnpackSint4x8 => PackSint4x8
  | PackUfloat10_11_11 => UnpackUfloat10_11_11 | UnpackUfloat10_11_11 => PackUfloat10_11_11
  | PackUnorm2_10_10_10 => UnpackUnorm2_10_10_10 | UnpackUnorm2_10_10_10 => PackUnorm2_10_10_10
  | PackSnorm2_10_10_10 => UnpackSnorm2_10_10_10 | UnpackSnorm2_10_10_10 => PackSnorm2_10_10_10
  | PackUint2_10_10_10 => UnpackUint2_10_10_10 | UnpackUint2_10_10_10 => PackUint2_10_10_10
  | PackSint2_10_10_10 => UnpackSint2_10_10_10 | UnpackSint2_10_10_10 => PackSint2_10_10_10
  | ConvertF32F16 => ConvertF16F32 | ConvertF16F32 => ConvertF32F16
  | _ => o
  end.

(** [present] holds of the conversions of the program. A value that the program may convert there and
    back survives it: [exact g d] says that [d] is in the format of [g]. *)
Context (present : Opcode -> Prop).
Definition exact (g : Opcode) (d : Dyn) : Prop := forall e, conv g d = Some e -> conv (opposite g) e = Some d.

(** The operand values the passes treat as the opcode means; [FoldLimits] says what happens to others. *)
Definition faithful (o : Opcode) (l : list Dyn) : Prop :=
  match o, l with
  | BitFieldUExtract, [_; o; n] => u32_of o <> Some 32 /\ u32_of n <> Some 32
  | BitFieldSExtract, [_; _; n] => u32_of n <> Some 0
  | BitFieldInsert, [_; i; o; n] =>
      match u32_of i, u32_of o, u32_of n with Some i, Some o, Some n => (n < 32 /\ o < 32 /\ i < 2 ^ n) | _, _, _ => True end
  | FPCmpClass32, [_; mask] => u32_of mask = Some Class_NaN \/ u32_of mask = Some Class_Infinity \/ u32_of mask = Some Class_Finite
  | DiscardCond, [d] => is_Some (u1_of d)
  | _, [d] => is_conv o = true -> present o /\ (present (opposite o) -> exact o d)
  | _, _ => True
  end.

(** The operands of an instruction, and their values. *)
Definition values (inst : Inst) : list Value := if decide (op inst = Phi) then (phi_args inst).*2 else take (Z.to_nat (NumArgs inst)) (args inst).
Definition dyns (rho : Z -> Dyn) (inst : Inst) : list Dyn := eval rho <$> values inst.

(** The mask of [FPCmpClass32] and the attribute of [GetAttributeU32] are written in the instruction, and the
    attribute is not [PackedAncillary] (96). *)
Definition is_imm (v : Value) : Prop := match v with VInst _ => False | _ => True end.
Definition written (inst : Inst) : Prop :=
  (op inst = FPCmpClass32 -> exists v, Arg inst 1 = Some v /\ is_imm v) /\
  (op inst = GetAttributeU32 -> exists a, Arg inst 0 = Some (VAttribute a) /\ a <> 96).

(** [rho] gives each instruction the value its opcode means. *)
Record inst_run (rho : Z -> Dyn) (i : Z) (inst : Inst) : Prop := {
  ir_sem : pure (op inst) = true -> sem (op inst) (dyns rho inst) = Some (rho i);
  ir_faithful : faithful (op inst) (dyns rho inst);
  ir_written : written inst;
}.
Definition run (p : Ir) (rho : Z -> Dyn) : Prop := forall i inst, shapes p !! i = Some inst -> inst_run rho i inst.

(** ** What a block does

    An event is an operation that is not a value of [sem]: the instruction, its opcode, its flags and the
    values of its operands, those of a phi with their blocks. A discard on a condition is a discard
    when the condition holds and nothing when it does not. *)
Definition event : Type := (Z * Opcode * Z * list (Z * Dyn))%type.
Definition phi_blocks (inst : Inst) : list Z := if decide (op inst = Phi) then (phi_args inst).*1 else (fun _ => 0) <$> values inst.
Definition event_of (rho : Z -> Dyn) (i : Z) (inst : Inst) : option event :=
  if pure (op inst) then None else
  match op inst, dyns rho inst with
  | Void, _ => None
  | DiscardCond, [Scalar (ImmU1 true)] => Some (i, Discard, flags inst, [])
  | DiscardCond, [Scalar (ImmU1 false)] => None
  | o, l => Some (i, o, flags inst, zip (phi_blocks inst) l)
  end.
Definition trace (p : Ir) (rho : Z -> Dyn) (b : Z) : list event :=
  omap (fun i => inst ← shapes p !! i; event_of rho i inst) (default [] (blocks p !! b)).

(** A well-formed program and a run of it. *)
Record running (p : Ir) (rho : Z -> Dyn) (rank : Z -> nat) : Prop := {
  rn_wf : wf p;
  rn_rank : rank_ok p rank;
  rn_run : run p rho;
}.

(** [p'] does what [p] does: the same instructions have the same values, and each block performs the
    same operations. *)
Record keeps (p : Ir) (rho : Z -> Dyn) (p' : Ir) (rho' : Z -> Dyn) : Prop := {
  kp_next : next_inst p <= next_inst p';
  kp_rho : forall i, i < next_inst p -> rho' i = rho i;
  kp_blocks : forall b, is_Some (blocks p' !! b) <-> is_Some (blocks p !! b);
  kp_trace : forall b, trace p' rho' b = trace p rho b;
  kp_order : forall b, List.filter (fun i => i <? next_inst p) (default [] (blocks p' !! b)) = default [] (blocks p !! b);
}.

(** ** Values through identities *)

Lemma eval_inst rho i : eval rho (VInst i) = rho i.
Proof. done. Qed.

Lemma values_operands inst : inst_ok inst -> values inst = take (Z.to_nat (NumArgs inst)) (operands inst).
Proof.
  intros Hok. unfold values, operands, NumArgs. case_decide; [|done]. unfold zlen. rewrite Nat2Z.id, firstn_all2; [done|]. rewrite length_fmap. lia.
Qed.
Lemma values_length inst : inst_ok inst -> length (values inst) = Z.to_nat (NumArgs inst).
Proof.
  intros Hok. unfold values, NumArgs. case_decide as E; [rewrite length_fmap; unfold zlen; lia|]. rewrite length_take.
  destruct (io_args inst Hok E) as [_ Hl]. pose proof (NumArgsOf_range (op inst)). unfold zlen in Hl. lia.
Qed.
Lemma values_Arg inst k v : inst_ok inst -> 0 <= k < NumArgs inst -> Arg inst k = Some v -> values inst !! Z.to_nat k = Some v.
Proof.
  intros Hok Hk Ha. rewrite values_operands by done. rewrite Arg_operands in Ha. unfold at_index in Ha. rewrite decide_True in Ha by lia.
  rewrite lookup_take_lt by lia. done.
Qed.
(** The operands of an instruction of [n] operands, by their indices. *)
Lemma values_args inst l : inst_ok inst -> NumArgs inst = zlen l -> (forall k, 0 <= k < zlen l -> Arg inst k = l.[k]) -> values inst = l.
Proof.
  intros Hok Hn Ha. apply list_eq. intros k. destruct (decide (k < length l)%nat) as [Hk|Hk].
  - assert (Hkz : 0 <= Z.of_nat k < zlen l) by (unfold zlen; lia). destruct (at_index_Some l _ Hkz) as [v Hv].
    pose proof (values_Arg inst (Z.of_nat k) v Hok ltac:(lia) ltac:(by rewrite Ha)) as H. rewrite Nat2Z.id in H. rewrite H.
    by rewrite at_index_nat in Hv.
  - rewrite !(proj2 (lookup_ge_None _ _)); [done|lia|]. rewrite values_length, Hn by done. unfold zlen. lia.
Qed.

Lemma op_shape_of p i o : op_of p i = Some o -> exists s, shapes p !! i = Some s /\ op s = o.
Proof. rewrite op_shapes. destruct (shapes p !! i) as [s|]; [|done]. intros [= <-]. by exists s. Qed.

Lemma resolve_eval p rho : run p rho -> sound p -> forall n v r, resolve n p v = Some r -> eval rho r = eval rho v.
Proof.
  intros Hrun Hs. induction n as [|n IH]; intros v r Hr; destruct v as [|i| | | | | | | | | | | |]; try (cbn in Hr; injection Hr as <-; done);
    cbn in Hr; destruct (insts p !! i) as [inst|] eqn:Hi; try done; cbn in Hr; destruct (decide (op inst = Identity)) as [Hid|]; try (injection Hr as <-; done); [done|].
  destruct (Arg inst 0) as [a|] eqn:Ha; [|done]. cbn in Hr. rewrite (IH _ _ Hr).
  pose proof (Hrun i _ (shapes_Some _ _ _ Hi)) as [Hsem _ _]. change (op (shape inst)) with (op inst) in Hsem. rewrite Hid in Hsem. specialize (Hsem eq_refl).
  destruct (shape_ok p i inst Hs Hi) as [Hok Hok']. assert (Hnum : NumArgs inst = 1) by (unfold NumArgs; by rewrite Hid).
  unfold dyns in Hsem. rewrite (values_args (shape inst) [a] Hok') in Hsem; [cbn in Hsem; injection Hsem as Hsem; by rewrite Hsem|done|].
  intros k Hk. change (zlen [a]) with 1 in Hk. replace k with 0 by lia. done.
Qed.
Lemma Resolve_eval p rho v r : run p rho -> sound p -> Resolve p v = Some r -> eval rho r = eval rho v.
Proof. intros Hrun Hs. by apply resolve_eval. Qed.

(** ** One step of a pass *)

Lemma pure_not_phi o : pure o = true -> o <> Phi /\ o <> Void /\ o <> DiscardCond.
Proof. by destruct o. Qed.
Lemma op_pure_live p i o : op_of p i = Some o -> pure o = true -> o <> Identity -> live_at p i.
Proof. intros Ho Hp Hi. exists o. split; [done|]. split; [|done]. by apply pure_not_phi. Qed.

Lemma eval_subst rho x r v : rho x = eval rho r -> eval rho (subst x r v) = eval rho v.
Proof. intros H. unfold subst. case_decide; [by subst|done]. Qed.
Lemma values_subst x r inst : values (subst_inst x r inst) = subst x r <$> values inst.
Proof.
  unfold values. change (op (subst_inst x r inst)) with (op inst). rewrite NumArgs_subst. unfold subst_inst. cbn. case_decide.
  - induction (phi_args inst) as [|[b v] l IH]; [done|]. cbn in *. by rewrite IH.
  - by rewrite firstn_map.
Qed.
Lemma dyns_subst rho x r inst : rho x = eval rho r -> dyns rho (subst_inst x r inst) = dyns rho inst.
Proof.
  intros H. unfold dyns. rewrite values_subst, <- list_fmap_compose. apply list_fmap_ext. intros k v _. cbn. by apply eval_subst.
Qed.
Lemma phi_blocks_subst x r inst : phi_blocks (subst_inst x r inst) = phi_blocks inst.
Proof.
  unfold phi_blocks. rewrite values_subst. change (op (subst_inst x r inst)) with (op inst). case_decide.
  - unfold subst_inst. cbn. rewrite <- list_fmap_compose. done.
  - by rewrite <- list_fmap_compose.
Qed.
Lemma event_subst rho x r i inst : rho x = eval rho r -> event_of rho i (subst_inst x r inst) = event_of rho i inst.
Proof.
  intros H. unfold event_of. rewrite (dyns_subst rho x r inst H), phi_blocks_subst. done.
Qed.
Lemma event_pure rho i inst : pure (op inst) = true -> event_of rho i inst = None.
Proof. unfold event_of. by intros ->. Qed.
Lemma event_void rho i inst : event_of rho i (void_inst inst) = None.
Proof. done. Qed.

(** A trace only depends on the events of the instructions of the block. *)
Lemma trace_ext p p' rho rho' : blocks p' = blocks p ->
  (forall i, is_Some (shapes p !! i) -> (inst ← shapes p' !! i; event_of rho' i inst) = (inst ← shapes p !! i; event_of rho i inst)) ->
  sound p -> forall b, trace p' rho' b = trace p rho b.
Proof.
  intros Hb He Hs b. unfold trace. rewrite Hb. destruct (blocks p !! b) as [l|] eqn:Hl; [|done]. cbn.
  destruct (so_blocks p Hs b l Hl) as [_ Hin]. clear Hl. induction l as [|i l IH]; [done|]. cbn.
  rewrite He by (apply Hin; by left). rewrite IH by (intros j Hj; apply Hin; by right). done.
Qed.

Lemma keeps_same p p' rho : blocks p' = blocks p -> next_inst p' = next_inst p -> sound p ->
  (forall i, is_Some (shapes p !! i) -> (inst ← shapes p' !! i; event_of rho i inst) = (inst ← shapes p !! i; event_of rho i inst)) ->
  keeps p rho p' rho.
Proof.
  intros Hb Hn Hs He. constructor; [lia|done|by rewrite Hb|by apply trace_ext|]. intros b. rewrite Hb.
  destruct (blocks p !! b) as [l|] eqn:Hl; [|done]. cbn. destruct (so_blocks p Hs b l Hl) as [_ Hin]. clear Hl.
  induction l as [|i l IH]; [done|]. cbn. destruct (Hin i ltac:(by left)) as [s Hi]. destruct (so_inst p Hs i s Hi) as [_ ?].
  rewrite (proj2 (Z.ltb_lt _ _)) by lia. by rewrite IH by (intros j Hj; apply Hin; by right).
Qed.

Lemma filter_filter_lt n m (l : list Z) : n <= m -> List.filter (fun i => i <? n) (List.filter (fun i => i <? m) l) = List.filter (fun i => i <? n) l.
Proof.
  intros H. induction l as [|x l IH]; [done|]. cbn. destruct (Z.ltb_spec x m); cbn; destruct (Z.ltb_spec x n); try lia; by rewrite IH.
Qed.
Lemma keeps_trans p1 r1 p2 r2 p3 r3 : keeps p1 r1 p2 r2 -> keeps p2 r2 p3 r3 -> keeps p1 r1 p3 r3.
Proof.
  intros [Hn1 Hr1 Hb1 Ht1 Ho1] [Hn2 Hr2 Hb2 Ht2 Ho2]. constructor; [lia| | | |].
  - intros i Hi. rewrite Hr2 by lia. by apply Hr1.
  - intros b. by rewrite Hb2.
  - intros b. by rewrite Ht2.
  - intros b. rewrite <- (filter_filter_lt _ (next_inst p2)) by done. by rewrite Ho2, Ho1.
Qed.
Lemma keeps_refl p rho : sound p -> keeps p rho p rho.
Proof. intros Hs. by apply keeps_same. Qed.

Lemma run_inst_subst rho x r i inst : rho x = eval rho r -> inst_run rho i inst -> inst_run rho i (subst_inst x r inst).
Proof.
  intros H [Hs Hf Hm]. constructor; [rewrite dyns_subst by done; exact Hs|rewrite dyns_subst by done; exact Hf|].
  assert (Hk : forall k v, Arg inst k = Some v -> is_imm v -> Arg (subst_inst x r inst) k = Some v).
  { intros k v Hv Hi. rewrite Arg_subst, Hv. cbn. f_equal. unfold subst. rewrite decide_False; [done|]. by intros ->. }
  split; intros Ho.
  - destruct (proj1 Hm Ho) as (v & Hv & Hi). exists v. split; [by apply Hk|done].
  - destruct (proj2 Hm Ho) as (a & Ha & Hn). exists a. split; [by apply Hk|done].
Qed.
Lemma void_run rho i inst : inst_run rho i (void_inst inst).
Proof. constructor; [done|done|]. by split. Qed.

Lemma replaced_running p p' rho rank x r o : running p rho rank -> op_of p x = Some o -> pure o = true ->
  rho x = eval rho r -> wf p' -> rank_ok p' rank -> replaced p p' x r -> running p' rho rank /\ keeps p rho p' rho.
Proof.
  intros [Hwf Hrk Hrun] Ho Hp He Hwf' Hrk' (Hs & Hn & Hb). split.
  - constructor; [done|done|]. intros i inst. rewrite Hs. case_decide as E.
    + destruct (shapes p !! i) as [s|]; [|done]. intros [= <-]. apply void_run.
    + destruct (shapes p !! i) as [s|] eqn:Hi; [|done]. intros [= <-]. apply run_inst_subst; [done|by apply Hrun].
  - apply keeps_same; [done|done|apply Hwf|]. intros i _. rewrite Hs. case_decide as E.
    + subst i. destruct (op_shape_of p x o Ho) as (s & Hx & Hos). rewrite Hx. cbn [mbind option_bind fmap option_fmap option_map]. by rewrite event_void, event_pure by congruence.
    + destruct (shapes p !! i) as [s|]; [|done]. cbn [mbind option_bind fmap option_fmap option_map]. by apply event_subst.
Qed.

(** The value of a pure instruction stands for it. *)
Lemma replace_step p rho rank x r o : running p rho rank -> op_of p x = Some o -> pure o = true -> o <> Identity ->
  good p r -> (forall j, r = VInst j -> (rank j < rank x)%nat) -> eval rho r = rho x ->
  exists p', ReplaceUsesWithAndRemove x r p = Some p' /\ running p' rho rank /\ keeps p rho p' rho.
Proof.
  intros Hr Ho Hp Hid Hg Hrank He. pose proof Hr as [Hwf Hrk _].
  destruct (ReplaceUses_spec p rank x r Hwf Hrk (op_pure_live p x o Ho Hp Hid) Hg) as (p' & -> & Hwf' & Hrk' & Hrep); [|done|].
  { intros ->. specialize (Hrank x eq_refl). lia. }
  exists p'. split; [done|]. by apply (replaced_running p p' rho rank x r o).
Qed.

(** An instruction changes, but not its value or what it does. *)
Lemma update_step p p' rho rank x s s' : running p rho rank -> wf p' -> rank_ok p' rank ->
  shapes p !! x = Some s -> shapes p' = <[x := s']> (shapes p) -> next_inst p' = next_inst p -> blocks p' = blocks p ->
  inst_run rho x s' -> event_of rho x s' = event_of rho x s -> running p' rho rank /\ keeps p rho p' rho.
Proof.
  intros [Hwf Hrk Hrun] Hwf' Hrk' Hx Hs Hn Hb Hi He. split.
  - constructor; [done|done|]. intros i inst. rewrite Hs. destruct (decide (i = x)) as [->|];
      [rewrite lookup_insert_eq; by intros [= <-]|rewrite lookup_insert_ne by done; apply Hrun].
  - apply keeps_same; [done|done|apply Hwf|]. intros i _. rewrite Hs. destruct (decide (i = x)) as [->|];
      [rewrite lookup_insert_eq, Hx; exact He|by rewrite lookup_insert_ne].
Qed.

(** Room below the rank of [x] for one more instruction. *)
Definition room (rank : Z -> nat) (n x : Z) : Z -> nat := fun j => if decide (j = n) then (2 * rank x - 1)%nat else (2 * rank j)%nat.

Lemma room_ok p rank x : sound p -> rank_ok p rank -> rank_ok p (room rank (next_inst p) x).
Proof.
  intros Hs Hrk i k j Hr Ho. pose proof (fresh_none p Hs) as Hf. specialize (Hrk i k j Hr Ho). unfold room.
  assert (Hi : i <> next_inst p). { destruct Hr as (s & Hsi & _). intros ->. by rewrite shapes_lookup, Hf in Hsi. }
  assert (Hj : j <> next_inst p).
  { apply (so_good p Hs) in Hr as (o & Ho' & _). intros ->. unfold op_of in Ho'. by rewrite Hf in Ho'. }
  rewrite !decide_False by done. lia.
Qed.

Lemma eval_upd rho n d v : (forall j, v = VInst j -> j <> n) -> eval (<[n := d]> rho) v = eval rho v.
Proof. intros H. destruct v; try done. cbn. rewrite fn_lookup_insert_ne; [done|]. by specialize (H _ eq_refl). Qed.

Lemma dyns_upd p rho n d i s : sound p -> shapes p !! i = Some s -> insts p !! n = None -> dyns (<[n := d]> rho) s = dyns rho s.
Proof.
  intros Hs Hi Hn. unfold dyns. apply list_fmap_ext. intros k v Hv. apply eval_upd. intros j -> ->.
  destruct (so_inst p Hs i s Hi) as [Hok _]. rewrite values_operands in Hv by done. apply lookup_take_Some in Hv as [Hv Hlt].
  assert (Hr : refers p i (Z.of_nat k) n) by (exists s; split; [done|]; split; [lia|]; by rewrite Arg_operands, at_index_nat).
  apply (so_good p Hs) in Hr as (o & Ho & _). unfold op_of in Ho. by rewrite Hn in Ho.
Qed.
Lemma event_upd p rho n d i s : sound p -> shapes p !! i = Some s -> insts p !! n = None -> event_of (<[n := d]> rho) i s = event_of rho i s.
Proof. intros Hs Hi Hn. unfold event_of. by rewrite (dyns_upd p rho n d i s Hs Hi Hn). Qed.

Lemma omap_insert_at {B} (f : Z -> option B) at_ n l : f n = None -> omap f (insert_at at_ n l) = omap f l.
Proof.
  intros Hn. induction l as [|x l IH]; cbn; [by rewrite Hn|]. case_bool_decide; cbn; [by rewrite Hn|]. by rewrite IH.
Qed.
Lemma filter_insert_at at_ n l : List.filter (fun i => i <? n) (insert_at at_ n l) = List.filter (fun i => i <? n) l.
Proof.
  induction l as [|x l IH]; cbn; [by rewrite Z.ltb_irrefl|]. case_bool_decide; cbn; [by rewrite Z.ltb_irrefl|]. by rewrite IH.
Qed.
Lemma filter_all (f : Z -> bool) l : (forall x, x ∈ l -> f x = true) -> List.filter f l = l.
Proof. induction l as [|x l IH]; intros H; [done|]. cbn. rewrite H by (by left). by rewrite IH by (intros y Hy; apply H; by right). Qed.

Lemma block_old p b : sound p -> List.filter (fun i => i <? next_inst p) (default [] (blocks p !! b)) = default [] (blocks p !! b).
Proof.
  intros Hs. destruct (blocks p !! b) as [l|] eqn:Hl; [|done]. cbn. apply filter_all. intros i Hi.
  destruct (proj2 (so_blocks p Hs b l Hl) i Hi) as [s Hsi]. destruct (so_inst p Hs i s Hsi). apply Z.ltb_lt. lia.
Qed.

(** A new value before [x]. *)
Lemma insert_step p rho rank b x o l fl d : running p rho rank -> is_Some (insts p !! x) -> pure o = true -> zlen l = NumArgsOf o ->
  (forall v, v ∈ l -> good p v /\ forall j, v = VInst j -> (rank j < rank x)%nat) -> o <> FPCmpClass32 ->
  (0 < rank x)%nat -> sem o (eval rho <$> l) = Some d -> faithful o (eval rho <$> l) -> values (mkInst o fl (put_from 0 l no_args) [] []) = l ->
  let n := next_inst p in let rank' := room rank n x in let rho' := <[n := d]> rho in
  exists p', PrependNewInst b (Some x) o l fl p = Some (n, p') /\ running p' rho' rank' /\ keeps p rho p' rho' /\
    op_of p' n = Some o /\ (forall j o', op_of p j = Some o' -> op_of p' j = Some o').
Proof.
  intros [Hwf Hrk Hrun] Hx Hp Hn Hl Hc Hrx Hsem Hf Hval n rank' rho'. pose proof (fresh_none p (wf_sound p Hwf)) as Hfr. fold n in Hfr.
  destruct (pure_not_phi o Hp) as (Hphi & Hvoid & _).
  assert (Hold : forall j, good p (VInst j) -> j <> n) by (intros j (o' & Ho' & _) ->; unfold op_of in Ho'; by rewrite Hfr in Ho').
  destruct (PrependNewInst_spec p rank' b (Some x) o l fl Hwf (room_ok p rank x (wf_sound p Hwf) Hrk) Hphi Hvoid (eq_sym Hn)) as (p' & -> & Hwf' & Hrk' & (Hs & Hnx & Hb)).
  { intros v Hv. destruct (Hl v Hv) as [Hg Hrv]. split; [done|]. intros j ->. specialize (Hrv j eq_refl). unfold rank', room. fold n.
    rewrite decide_False by by apply Hold. rewrite decide_True by done. lia. }
  fold n in Hs, Hnx, Hb. assert (Hlr : eval rho' <$> l = eval rho <$> l).
  { apply list_fmap_ext. intros k v Hv. apply eval_upd. intros j ->. apply Hold. apply (Hl (VInst j)). by eapply list_elem_of_lookup_2. }
  exists p'. split; [done|]. split; [|split; [|split]].
  - constructor; [done|done|]. intros i s. rewrite Hs. destruct (decide (i = n)) as [->|].
    + rewrite lookup_insert_eq. intros [= <-]. constructor; unfold dyns; rewrite ?Hval, ?Hlr; [intros _; unfold rho'; by rewrite fn_lookup_insert|done|].
      split; cbn; [done|]. by intros ->.
    + rewrite lookup_insert_ne by done. intros Hi. destruct (Hrun i s Hi) as [H1 H2 H3]. unfold rho'.
      constructor; rewrite ?(dyns_upd p rho n d i s (wf_sound p Hwf) Hi Hfr); rewrite ?fn_lookup_insert_ne by done; done.
  - constructor; [fold n; lia|intros i Hi; unfold rho'; apply fn_lookup_insert_ne; unfold n; lia|intros b'; rewrite Hb; by rewrite lookup_alter_is_Some| |].
    + intros b'. unfold trace. rewrite Hb. set (f := fun i => inst ← shapes p' !! i; event_of rho' i inst).
      assert (Hfn : f n = None) by (unfold f; rewrite Hs, lookup_insert_eq; cbn; by rewrite event_pure).
      assert (Hfl : omap f (default [] (alter (insert_at (Some x) n) b (blocks p) !! b')) = omap f (default [] (blocks p !! b'))).
      { destruct (decide (b' = b)) as [->|]; [rewrite lookup_alter_eq; destruct (blocks p !! b); [by apply omap_insert_at|done]|by rewrite lookup_alter_ne]. }
      rewrite Hfl. destruct (blocks p !! b') as [lb|] eqn:Hlb; [|done]. cbn. destruct (so_blocks p (wf_sound p Hwf) b' lb Hlb) as [_ Hin]. clear Hlb Hfl.
      induction lb as [|i lb IH]; [done|]. cbn [omap list_omap]. rewrite IH by (intros j Hj; apply Hin; by right). destruct (Hin i ltac:(by left)) as [s Hi].
      unfold f at 1. rewrite Hs, lookup_insert_ne by (intros <-; by rewrite shapes_lookup, Hfr in Hi). rewrite Hi. cbn [mbind option_bind].
      change (event_of rho' i s) with (event_of (<[n := d]> rho) i s). by rewrite (event_upd p rho n d i s (wf_sound p Hwf) Hi Hfr).
    + intros b'. rewrite Hb. destruct (decide (b' = b)) as [->|]; [rewrite lookup_alter_eq|rewrite lookup_alter_ne by done; apply block_old, Hwf].
      pose proof (block_old p b (wf_sound p Hwf)) as Ho. destruct (blocks p !! b); [|done]. cbn in *. fold n in Ho |- *. by rewrite filter_insert_at.
  - rewrite op_shapes, Hs, lookup_insert_eq. done.
  - intros j o' Hj. rewrite op_shapes, Hs. rewrite lookup_insert_ne; [by rewrite <- op_shapes|]. intros <-. unfold op_of in Hj. by rewrite Hfr in Hj.
Qed.
End Semantics.
