(* ===== verification/ConstantPropagation.v ===== *)
(** * Constant propagation

    [ConstantPropagationPass] of src/src/shader_recompiler/ir/passes/constant_propagation_pass.cpp:
    values that are known are computed, chains of the same operation and inverse conversions are
    shortened. An instruction that the pass creates is put before the one it looks at, so the loop over
    a block visits the instructions the block had. The type tests of [TypedValue] are left out. *)
From Stdlib Require Import ZArith Lia.
From stdpp Require Import base functions gmap list strings.
From S2P Require Import Prelude.
From S2P Require Import IrOpcodes ShaderIr IrSemantics.

(** * Folding

    The functions the pass gives to [FoldWhenAllImmediates], by the types of their arguments. A shift by
    the width or more is undefined in C++. *)
Definition imm_fn : Type := Ir -> Inst -> option Value.
Definition arg_of {A} (get : Ir -> Value -> option A) (k : Z) (p : Ir) (inst : Inst) : option A := v ← Arg inst k; get p v.
Definition fn1 {A} (get : Ir -> Value -> option A) (f : A -> option Value) : imm_fn :=
  fun p inst => a ← arg_of get 0 p inst; f a.
Definition fn2 {A B} (ga : Ir -> Value -> option A) (gb : Ir -> Value -> option B) (f : A -> B -> option Value) : imm_fn :=
  fun p inst => a ← arg_of ga 0 p inst; b ← arg_of gb 1 p inst; f a b.
Definition fn3 {A B C} (ga : Ir -> Value -> option A) (gb : Ir -> Value -> option B) (gc : Ir -> Value -> option C)
    (f : A -> B -> C -> option Value) : imm_fn :=
  fun p inst => a ← arg_of ga 0 p inst; b ← arg_of gb 1 p inst; c ← arg_of gc 2 p inst; f a b c.
Definition fn4 {A B C D} (ga : Ir -> Value -> option A) (gb : Ir -> Value -> option B) (gc : Ir -> Value -> option C)
    (gd : Ir -> Value -> option D) (f : A -> B -> C -> D -> option Value) : imm_fn :=
  fun p inst => a ← arg_of ga 0 p inst; b ← arg_of gb 1 p inst; c ← arg_of gc 2 p inst; d ← arg_of gd 3 p inst; f a b c d.

(** [static_cast<s32>(value.U32())] and [static_cast<s64>(value.U64())] *)
Definition S32 (p : Ir) (v : Value) : option Z := s32 <$> U32 p v.
Definition S64 (p : Ir) (v : Value) : option Z := s64 <$> U64 p v.

Definition FoldWhenAllImmediates (x : Z) (func : imm_fn) (p : Ir) : option Ir :=
  inst ← insts p !! x;
  imm ← AreAllArgsImmediates p inst;
  if negb imm then Some p else v ← func p inst; ReplaceUsesWithAndRemove x v p.

Definition FoldCommutative {A} (get : Ir -> Value -> option A) (mk : A -> Value) (imm_fn : A -> A -> A) (x : Z) (p : Ir) : option (bool * Ir) :=
  inst ← insts p !! x;
  lhs ← Arg inst 0;
  rhs ← Arg inst 1;
  is_lhs_immediate ← IsImmediate p lhs;
  is_rhs_immediate ← IsImmediate p rhs;
  if is_lhs_immediate && is_rhs_immediate then
    a ← get p lhs; b ← get p rhs;
    p ← ReplaceUsesWithAndRemove x (mk (imm_fn a b)) p; Some (false, p)
  else if is_lhs_immediate then
    j ← InstRecursive p rhs;
    rhs_inst ← insts p !! j;
    constant ← (if decide (op rhs_inst = op inst) then v ← Arg rhs_inst 1; IsImmediate p v else Some false);
    if constant : bool then
      a ← get p lhs; v ← Arg rhs_inst 1; b ← get p v;
      y ← Arg rhs_inst 0;
      p ← SetArg x 0 y p; p ← SetArg x 1 (mk (imm_fn a b)) p; Some (true, p)
    else
      p ← SetArg x 0 rhs p; p ← SetArg x 1 lhs p; Some (true, p)
  else if is_rhs_immediate then
    j ← InstRecursive p lhs;
    lhs_inst ← insts p !! j;
    constant ← (if decide (op lhs_inst = op inst) then v ← Arg lhs_inst 1; IsImmediate p v else Some false);
    if constant : bool then
      a ← get p rhs; v ← Arg lhs_inst 1; b ← get p v;
      y ← Arg lhs_inst 0;
      p ← SetArg x 0 y p; p ← SetArg x 1 (mk (imm_fn a b)) p; Some (true, p)
    else Some (true, p)
  else Some (true, p).

(** [FoldInverseFunc], and [FoldConvert], which is the same. *)
Definition FoldInverseFunc (x : Z) (reverse : Opcode) (p : Ir) : option Ir :=
  inst ← insts p !! x;
  value ← Arg inst 0;
  imm ← IsImmediate p value;
  if imm : bool then Some p else
  j ← InstRecursive p value;
  arg_inst ← insts p !! j;
  if decide (op arg_inst = reverse) then y ← Arg arg_inst 0; ReplaceUsesWithAndRemove x y p else Some p.

Definition FoldBitCast {A} (get : Ir -> Value -> option A) (mk : A -> Value) (x : Z) (reverse : Opcode) (p : Ir) : option Ir :=
  inst ← insts p !! x;
  value ← Arg inst 0;
  imm ← IsImmediate p value;
  if imm : bool then a ← get p value; ReplaceUsesWithAndRemove x (mk a) p else FoldInverseFunc x reverse p.

(** [FoldCompositeExtractImpl]; the recursion follows a chain of inserts and has one turn of fuel for
    each instruction. *)
Fixpoint FoldCompositeExtractImpl (fuel : nat) (p : Ir) (inst_value : Value) (insert construct : Opcode) (first_index : Z) : option (option Value) :=
  j ← InstRecursive p inst_value;
  inst ← insts p !! j;
  if decide (op inst = construct) then v ← Arg inst first_index; Some (Some v) else
  if negb (bool_decide (op inst = insert)) then Some None else
  value_index ← Arg inst 2;
  imm ← IsImmediate p value_index;
  if negb imm then Some None else
  second_index ← U32 p value_index;
  if negb (first_index =? second_index) then
    value_composite ← Arg inst 0;
    imm ← IsImmediate p value_composite;
    if imm : bool then Some None else
    match fuel with O => None | S n => FoldCompositeExtractImpl n p value_composite insert construct first_index end
  else v ← Arg inst 1; Some (Some v).

Definition FoldCompositeExtract (x : Z) (construct insert : Opcode) (p : Ir) : option Ir :=
  inst ← insts p !! x;
  value_1 ← Arg inst 0;
  value_2 ← Arg inst 1;
  imm_1 ← IsImmediate p value_1;
  if imm_1 : bool then Some p else
  imm_2 ← IsImmediate p value_2;
  if negb imm_2 then Some p else
  first_index ← U32 p value_2;
  result ← FoldCompositeExtractImpl (size (insts p)) p value_1 insert construct first_index;
  match result with None => Some p | Some v => ReplaceUsesWithAndRemove x v p end.

Definition FoldLogicalAnd (x : Z) (p : Ir) : option Ir :=
  '(go_on, p) ← FoldCommutative U1 ImmU1 andb x p;
  if negb go_on then Some p else
  inst ← insts p !! x;
  rhs ← Arg inst 1;
  imm ← IsImmediate p rhs;
  if negb imm then Some p else
  b ← U1 p rhs;
  if b : bool then y ← Arg inst 0; ReplaceUsesWithAndRemove x y p else ReplaceUsesWithAndRemove x (ImmU1 false) p.

Definition FoldLogicalOr (x : Z) (p : Ir) : option Ir :=
  '(go_on, p) ← FoldCommutative U1 ImmU1 orb x p;
  if negb go_on then Some p else
  inst ← insts p !! x;
  rhs ← Arg inst 1;
  imm ← IsImmediate p rhs;
  if negb imm then Some p else
  b ← U1 p rhs;
  if b : bool then ReplaceUsesWithAndRemove x (ImmU1 true) p else y ← Arg inst 0; ReplaceUsesWithAndRemove x y p.

Definition FoldLogicalNot (x : Z) (p : Ir) : option Ir :=
  inst ← insts p !! x;
  value ← Arg inst 0;
  imm ← IsImmediate p value;
  if imm : bool then b ← U1 p value; ReplaceUsesWithAndRemove x (ImmU1 (negb b)) p else
  j ← InstRecursive p value;
  arg ← insts p !! j;
  if decide (op arg = LogicalNot) then y ← Arg arg 0; ReplaceUsesWithAndRemove x y p else Some p.

Definition FoldSelect (x : Z) (p : Ir) : option Ir :=
  inst ← insts p !! x;
  cond ← Arg inst 0;
  imm ← IsImmediate p cond;
  if negb imm then Some p else
  b ← U1 p cond;
  y ← Arg inst (if b : bool then 1 else 2);
  ReplaceUsesWithAndRemove x y p.

Definition FoldAdd32 (x : Z) (p : Ir) : option Ir :=
  '(go_on, p) ← FoldCommutative U32 ImmU32 (fun a b => wrap32 (a + b)) x p;
  if negb go_on then Some p else
  inst ← insts p !! x;
  rhs ← Arg inst 1;
  imm ← IsImmediate p rhs;
  if negb imm then Some p else
  b ← U32 p rhs;
  if b =? 0 then y ← Arg inst 0; ReplaceUsesWithAndRemove x y p else Some p.

Definition FoldMul32 (x : Z) (p : Ir) : option Ir :=
  '(go_on, p) ← FoldCommutative U32 ImmU32 (fun a b => wrap32 (a * b)) x p;
  if negb go_on then Some p else
  inst ← insts p !! x;
  rhs ← Arg inst 1;
  imm ← IsImmediate p rhs;
  if negb imm then Some p else
  b ← U32 p rhs;
  if b =? 0 then ReplaceUsesWithAndRemove x (ImmU32 0) p
  else if b =? 1 then y ← Arg inst 0; ReplaceUsesWithAndRemove x y p else Some p.

(** [IREmitter::Inst] at the instruction [x] of [block]. *)
Definition emit (block x : Z) (o : Opcode) (l : list Value) (p : Ir) : option (Value * Ir) :=
  '(n, p) ← PrependNewInst block (Some x) o l 0 p; Some (VInst n, p).

Definition FoldUnpack32x2 (block x : Z) (reverse : Opcode) (p : Ir) : option Ir :=
  inst ← insts p !! x;
  value ← Arg inst 0;
  imm ← IsImmediate p value;
  if imm : bool then
    a ← U64 p value;
    let value_lo := ImmU32 (wrap32 a) in
    let value_hi := ImmU32 (wrap32 (Z.shiftr a 32)) in
    '(v, p) ← emit block x CompositeConstructU32x2 [value_lo; value_hi] p;
    ReplaceUsesWithAndRemove x v p
  else FoldInverseFunc x reverse p.

Definition FoldDiscardCond (x : Z) (p : Ir) : option Ir :=
  inst ← insts p !! x;
  cond ← Arg inst 0;
  imm ← IsImmediate p cond;
  if negb imm then Some p else
  b ← U1 p cond;
  if b : bool then ReplaceOpcode x Discard p else Invalidate x p.

Definition FoldCmpClass (block x : Z) (p : Ir) : option Ir :=
  inst ← insts p !! x;
  arg ← Arg inst 1;
  imm ← IsImmediate p arg;
  if negb imm then None else
  class_mask ← U32 p arg;
  if Z.land class_mask Class_NaN =? Class_NaN then ReplaceOpcode x FPIsNan32 p
  else if Z.land class_mask Class_Infinity =? Class_Infinity then ReplaceOpcode x FPIsInf32 p
  else if Z.land class_mask Class_Finite =? Class_Finite then
    value ← Arg inst 0;
    '(nan, p) ← emit block x FPIsNan32 [value] p;
    '(inf, p) ← emit block x FPIsInf32 [value] p;
    '(either, p) ← emit block x LogicalOr [nan; inf] p;
    '(result, p) ← emit block x LogicalNot [either] p;
    ReplaceUsesWithAndRemove x result p
  else None.

(** [Attribute::SampleIndex], [Attribute::RenderTargetIndex], [Attribute::PackedAncillary] *)
Definition SampleIndex : Z := 72.
Definition RenderTargetIndex : Z := 66.
Definition PackedAncillary : Z := 96.

Definition FoldPackedAncillary (block x : Z) (p : Ir) : option (bool * Ir) :=
  inst ← insts p !! x;
  a0 ← Arg inst 0; a1 ← Arg inst 1; a2 ← Arg inst 2;
  i0 ← IsImmediate p a0; i1 ← IsImmediate p a1; i2 ← IsImmediate p a2;
  if i0 || negb i1 || negb i2 then Some (false, p) else
  j ← InstRecursive p a0;
  value ← insts p !! j;
  if negb (bool_decide (op value = GetAttributeU32)) then Some (false, p) else
  attribute ← Arg value 0;
  attribute ← match attribute with VAttribute a => Some a | _ => None end;
  if negb (attribute =? PackedAncillary) then Some (false, p) else
  offset ← U32 p a1; bits ← U32 p a2;
  let field first width index p :=
    '(v, p) ← emit block x GetAttributeU32 [VAttribute index; ImmU32 0] p;
    if (offset =? first) && (bits =? width) then ReplaceUsesWithAndRemove x v p
    else '(v, p) ← emit block x BitFieldUExtract [v; ImmU32 (offset - first); ImmU32 bits] p; ReplaceUsesWithAndRemove x v p in
  p ← (if (8 <=? offset) && (wrap32 (offset + bits) <=? 12) then field 8 4 SampleIndex p
       else if (16 <=? offset) && (wrap32 (offset + bits) <=? 27) then field 16 11 RenderTargetIndex p
       else None);
  p ← ReplaceUsesWithAndRemove j (ImmU32 0) p; Some (true, p).

(** The loop of the fold of [BitReverse32]. *)
Fixpoint bit_reverse (n : nat) (a res : Z) : Z :=
  match n with O => res | S m => bit_reverse m (Z.shiftr a 1) (Z.lor (wrap32 (Z.shiftl res 1)) (Z.land a 1)) end.
(** [std::popcount] *)
Fixpoint popcount (n : nat) (a : Z) : Z :=
  match n with O => 0 | S m => Z.land a 1 + popcount m (Z.shiftr a 1) end.

Definition imm_u32 (x : Z) : option Value := Some (ImmU32 x).
Definition imm_u1 (b : bool) : option Value := Some (ImmU1 b).
Definition imm_u64 (x : Z) : option Value := Some (ImmU64 x).

Definition extract_unsigned (base shift count : Z) : option Value :=
  if 32 <? shift + count then None else
  if 32 <=? count then None else if 32 <=? shift then None else
  imm_u32 (Z.land (Z.shiftr base shift) (wrap32 (Z.shiftl 1 count - 1))).
Definition extract_signed (base shift count : Z) : option Value :=
  let back_shift := shift + count in
  let left_shift := 32 -64 back_shift in
  let right_shift := wrap32 (32 - count) in
  if (32 <? back_shift) || (32 <=? left_shift) || (32 <=? right_shift) then None else
  imm_u32 (wrap32 (Z.shiftr (s32 (Z.shiftl base left_shift)) right_shift)).
Definition insert_field (base insert offset bits : Z) : option Value :=
  if (32 <=? bits) || (32 <=? offset) then None else
  let not32 x := U32_MAX - x in
  let mask := not32 (wrap32 (Z.shiftl (not32 0) bits)) in
  imm_u32 (Z.lor (Z.land base (not32 (wrap32 (Z.shiftl mask offset)))) (wrap32 (Z.shiftl insert offset))).

(** ** The pass *)

Definition ConstantPropagation (block x : Z) (p : Ir) : option Ir :=
  inst ← insts p !! x;
  let fold := FoldWhenAllImmediates x in
  match op inst with
  | IAdd32 => FoldAdd32 x p
  | ISub32 => fold (fn2 U32 U32 (fun a b => imm_u32 (wrap32 (a - b)))) p
  | ConvertF32U32 => fold (fn1 U32 (fun a => Some (ImmF32 (f32_of_u32 a)))) p
  | IMul32 => FoldMul32 x p
  | UDiv32 => fold (fn2 U32 U32 (fun a b => if b =? 0 then None else imm_u32 (a / b))) p
  | UMod32 => fold (fn2 U32 U32 (fun a b => if b =? 0 then None else imm_u32 (a mod b))) p
  | FPCmpClass32 => FoldCmpClass block x p
  | ShiftLeftLogical32 => fold (fn2 U32 U32 (fun a b => if 32 <=? b then None else imm_u32 (wrap32 (Z.shiftl a b)))) p
  | ShiftRightLogical32 => fold (fn2 U32 U32 (fun a b => if 32 <=? b then None else imm_u32 (Z.shiftr a b))) p
  | ShiftRightArithmetic32 => fold (fn2 S32 S32 (fun a b => if (b <? 0) || (32 <=? b) then None else imm_u32 (wrap32 (Z.shiftr a b)))) p
  | BitCastF32U32 => FoldBitCast U32 ImmF32 x BitCastU32F32 p
  | BitCastU32F32 => FoldBitCast F32 ImmU32 x BitCastF32U32 p
  | UnpackUint2x32 => FoldUnpack32x2 block x PackUint2x32 p
  | UnpackDouble2x32 => FoldUnpack32x2 block x PackDouble2x32 p
  | PackUnorm2x16 => FoldInverseFunc x UnpackUnorm2x16 p
  | UnpackUnorm2x16 => FoldInverseFunc x PackUnorm2x16 p
  | PackSnorm2x16 => FoldInverseFunc x UnpackSnorm2x16 p
  | UnpackSnorm2x16 => FoldInverseFunc x PackSnorm2x16 p
  | PackUint2x16 => FoldInverseFunc x UnpackUint2x16 p
  | UnpackUint2x16 => FoldInverseFunc x PackUint2x16 p
  | PackSint2x16 => FoldInverseFunc x UnpackSint2x16 p
  | UnpackSint2x16 => FoldInverseFunc x PackSint2x16 p
  | PackHalf2x16 => FoldInverseFunc x UnpackHalf2x16 p
  | UnpackHalf2x16 => FoldInverseFunc x PackHalf2x16 p
  | PackUnorm4x8 => FoldInverseFunc x UnpackUnorm4x8 p
  | UnpackUnorm4x8 => FoldInverseFunc x PackUnorm4x8 p
  | PackSnorm4x8 => FoldInverseFunc x UnpackSnorm4x8 p
  | UnpackSnorm4x8 => FoldInverseFunc x PackSnorm4x8 p
  | PackUint4x8 => FoldInverseFunc x UnpackUint4x8 p
  | UnpackUint4x8 => FoldInverseFunc x PackUint4x8 p
  | PackSint4x8 => FoldInverseFunc x UnpackSint4x8 p
  | UnpackSint4x8 => FoldInverseFunc x PackSint4x8 p
  | PackUfloat10_11_11 => FoldInverseFunc x UnpackUfloat10_11_11 p
  | UnpackUfloat10_11_11 => FoldInverseFunc x PackUfloat10_11_11 p
  | PackUnorm2_10_10_10 => FoldInverseFunc x UnpackUnorm2_10_10_10 p
  | UnpackUnorm2_10_10_10 => FoldInverseFunc x PackUnorm2_10_10_10 p
  | PackSnorm2_10_10_10 => FoldInverseFunc x UnpackSnorm2_10_10_10 p
  | UnpackSnorm2_10_10_10 => FoldInverseFunc x PackSnorm2_10_10_10 p
  | PackUint2_10_10_10 => FoldInverseFunc x UnpackUint2_10_10_10 p
  | UnpackUint2_10_10_10 => FoldInverseFunc x PackUint2_10_10_10 p
  | PackSint2_10_10_10 => FoldInverseFunc x UnpackSint2_10_10_10 p
  | UnpackSint2_10_10_10 => FoldInverseFunc x PackSint2_10_10_10 p
  | SelectU1 | SelectU32 | SelectF32 => FoldSelect x p
  | FPNeg32 => fold (fn1 F32 (fun a => Some (ImmF32 (Z.lxor a (2 ^ 31))))) p
  | LogicalAnd => FoldLogicalAnd x p
  | LogicalOr => FoldLogicalOr x p
  | LogicalNot => FoldLogicalNot x p
  | SLessThan32 => fold (fn2 S32 S32 (fun a b => imm_u1 (a <? b))) p
  | SLessThan64 => fold (fn2 S64 S64 (fun a b => imm_u1 (a <? b))) p
  | ULessThan32 => fold (fn2 U32 U32 (fun a b => imm_u1 (a <? b))) p
  | ULessThan64 => fold (fn2 U64 U64 (fun a b => imm_u1 (a <? b))) p
  | SLessThanEqual32 => fold (fn2 S32 S32 (fun a b => imm_u1 (a <=? b))) p
  | SLessThanEqual64 => fold (fn2 S64 S64 (fun a b => imm_u1 (a <=? b))) p
  | ULessThanEqual32 => fold (fn2 U32 U32 (fun a b => imm_u1 (a <=? b))) p
  | ULessThanEqual64 => fold (fn2 U64 U64 (fun a b => imm_u1 (a <=? b))) p
  | SGreaterThan32 => fold (fn2 S32 S32 (fun a b => imm_u1 (b <? a))) p
  | SGreaterThan64 => fold (fn2 S64 S64 (fun a b => imm_u1 (b <? a))) p
  | UGreaterThan32 => fold (fn2 U32 U32 (fun a b => imm_u1 (b <? a))) p
  | UGreaterThan64 => fold (fn2 U64 U64 (fun a b => imm_u1 (b <? a))) p
  | SGreaterThanEqual32 => fold (fn2 S32 S32 (fun a b => imm_u1 (b <=? a))) p
  | SGreaterThanEqual64 => fold (fn2 S64 S64 (fun a b => imm_u1 (b <=? a))) p
  | UGreaterThanEqual32 => fold (fn2 U32 U32 (fun a b => imm_u1 (b <=? a))) p
  | UGreaterThanEqual64 => fold (fn2 U64 U64 (fun a b => imm_u1 (b <=? a))) p
  | IEqual32 => fold (fn2 U32 U32 (fun a b => imm_u1 (a =? b))) p
  | IEqual64 => fold (fn2 U64 U64 (fun a b => imm_u1 (a =? b))) p
  | INotEqual32 => fold (fn2 U32 U32 (fun a b => imm_u1 (negb (a =? b)))) p
  | INotEqual64 => fold (fn2 U64 U64 (fun a b => imm_u1 (negb (a =? b)))) p
  | BitwiseAnd32 => fold (fn2 U32 U32 (fun a b => imm_u32 (Z.land a b))) p
  | BitwiseAnd64 => fold (fn2 U64 U64 (fun a b => imm_u64 (Z.land a b))) p
  | BitwiseOr32 => fold (fn2 U32 U32 (fun a b => imm_u32 (Z.lor a b))) p
  | BitwiseOr64 => fold (fn2 U64 U64 (fun a b => imm_u64 (Z.lor a b))) p
  | BitwiseXor32 => fold (fn2 U32 U32 (fun a b => imm_u32 (Z.lxor a b))) p
  | BitwiseNot32 => fold (fn1 U32 (fun a => imm_u32 (U32_MAX - a))) p
  | BitReverse32 => fold (fn1 U32 (fun a => imm_u32 (bit_reverse 32 a 0))) p
  | BitCount32 => fold (fn1 U32 (fun a => imm_u32 (popcount 32 a))) p
  | BitCount64 => fold (fn1 U64 (fun a => imm_u32 (popcount 64 a))) p
  | BitFieldUExtract =>
      '(done, p) ← FoldPackedAncillary block x p;
      if done : bool then Some p else fold (fn3 U32 U32 U32 extract_unsigned) p
  | BitFieldSExtract => fold (fn3 U32 U32 U32 extract_signed) p
  | BitFieldInsert => fold (fn4 U32 U32 U32 U32 insert_field) p
  | CompositeExtractU32x2 => FoldCompositeExtract x CompositeConstructU32x2 CompositeInsertU32x2 p
  | CompositeExtractU32x3 => FoldCompositeExtract x CompositeConstructU32x3 CompositeInsertU32x3 p
  | CompositeExtractU32x4 => FoldCompositeExtract x CompositeConstructU32x4 CompositeInsertU32x4 p
  | CompositeExtractF32x2 => FoldCompositeExtract x CompositeConstructF32x2 CompositeInsertF32x2 p
  | CompositeExtractF32x3 => FoldCompositeExtract x CompositeConstructF32x3 CompositeInsertF32x3 p
  | CompositeExtractF32x4 => FoldCompositeExtract x CompositeConstructF32x4 CompositeInsertF32x4 p
  | ConvertF32F16 => FoldInverseFunc x ConvertF16F32 p
  | ConvertF16F32 => FoldInverseFunc x ConvertF32F16 p
  | DiscardCond => FoldDiscardCond x p
  | _ => Some p
  end.

(** The instructions of one block, then the blocks from the last to the first. *)
Fixpoint propagate (block : Z) (l : list Z) (p : Ir) : option Ir :=
  match l with
  | [] => Some p
  | x :: r => p ← ConstantPropagation block x p; propagate block r p
  end.
Fixpoint propagate_blocks (l : list Z) (p : Ir) : option Ir :=
  match l with
  | [] => Some p
  | b :: r => instructions ← blocks p !! b; p ← propagate b instructions p; propagate_blocks r p
  end.
Definition ConstantPropagationPass (program : list Z) (p : Ir) : option Ir := propagate_blocks (reverse program) p.
