(* ===== verification/FoldValues.v ===== *)
(** * The arithmetic of constant folding

    The loops and bit operations with which the pass computes bit reversals, bit counts and bit fields,
    against the reference values of [IrSemantics], and the classes of floats. *)
From Stdlib Require Import ZArith Lia.
From stdpp Require Import base functions gmap list strings.
From S2P Require Import Prelude.
From S2P Require Import IrOpcodes ShaderIr IrSemantics ConstantPropagation.

(** ** Bits one by one *)

Lemma bit_and_rest x i : 0 <= i -> Z.testbit (Z.shiftr x 1) i = Z.testbit x (i + 1).
Proof. intros Hi. by rewrite Z.shiftr_spec. Qed.
Lemma land_1 x : Z.land x 1 = if Z.testbit x 0 then 1 else 0.
Proof. rewrite Z.bit0_odd, <- Zmod_odd. change 1 with (Z.ones 1) at 1. by rewrite Z.land_ones. Qed.

Lemma reversed_bits_S n w x : reversed_bits (S n) (w + 1) x = (if Z.testbit x 0 then 2 ^ w else 0) + reversed_bits n w (Z.shiftr x 1).
Proof.
  induction n as [|n IH].
  - cbn [reversed_bits]. change (Z.of_nat 0) with 0. replace (w + 1 - 1 - 0) with w by lia. destruct (Z.testbit x 0); lia.
  - cbn [reversed_bits] in IH |- *. rewrite IH. rewrite bit_and_rest by lia.
    replace (Z.of_nat (S n)) with (Z.of_nat n + 1) by lia. replace (w + 1 - 1 - (Z.of_nat n + 1)) with (w - 1 - Z.of_nat n) by lia. lia.
Qed.
Lemma count_bits_S n x : count_bits (S n) x = (if Z.testbit x 0 then 1 else 0) + count_bits n (Z.shiftr x 1).
Proof.
  induction n as [|n IH]; [cbn [count_bits]; change (Z.of_nat 0) with 0; lia|]. cbn [count_bits] in IH |- *. rewrite IH. rewrite bit_and_rest by lia.
  replace (Z.of_nat (S n)) with (Z.of_nat n + 1) by lia. lia.
Qed.

Lemma popcount_spec n : forall a, popcount n a = count_bits n a.
Proof. induction n as [|n IH]; intros a; [done|]. cbn [popcount]. by rewrite count_bits_S, land_1, IH. Qed.

Lemma bit_reverse_spec n : forall a res, (n <= 32)%nat -> 0 <= res < 2 ^ (32 - Z.of_nat n) ->
  bit_reverse n a res = res * 2 ^ Z.of_nat n + reversed_bits n (Z.of_nat n) a.
Proof.
  induction n as [|n IH]; intros a res Hn Hr; [cbn; lia|]. cbn [bit_reverse].
  assert (Hp : 2 * 2 ^ (32 - Z.of_nat (S n)) = 2 ^ (32 - Z.of_nat n)) by (rewrite <- Z.pow_succ_r by lia; f_equal; lia).
  assert (Hle : 2 ^ (32 - Z.of_nat n) <= 2 ^ 32) by (apply Z.pow_le_mono_r; lia).
  rewrite Z.shiftl_mul_pow2 by done. change (2 ^ 1) with 2. rewrite wrap32_small by (unfold U32_MAX; lia).
  rewrite land_1. assert (Hlor : Z.lor (res * 2) (if Z.testbit a 0 then 1 else 0) = res * 2 + (if Z.testbit a 0 then 1 else 0)).
  { replace (res * 2) with (Z.shiftl res 1) by (rewrite Z.shiftl_mul_pow2 by done; done).
    rewrite Z.lor_comm, lor_shiftl_add; [|done|destruct (Z.testbit a 0); lia]. rewrite Z.shiftl_mul_pow2 by done. lia. }
  rewrite Hlor, IH by (destruct (Z.testbit a 0); lia). replace (Z.of_nat (S n)) with (Z.of_nat n + 1) by lia. rewrite reversed_bits_S.
  rewrite Z.pow_add_r by lia. destruct (Z.testbit a 0); lia.
Qed.

(** ** Bit fields *)

Lemma u32_high_bit m k : 0 <= m <= U32_MAX -> 32 <= k -> Z.testbit m k = false.
Proof.
  intros Hm Hk. apply Z.bits_above_log2; [lia|]. destruct (Z.eq_dec m 0) as [->|]; [cbn; lia|]. apply Z.log2_lt_pow2; [lia|].
  apply Z.lt_le_trans with (2 ^ 32); [unfold U32_MAX in Hm; lia|apply Z.pow_le_mono_r; lia].
Qed.
Lemma not32_ldiff b m : 0 <= m <= U32_MAX -> 0 <= b <= U32_MAX -> Z.land b (U32_MAX - m) = Z.ldiff b m.
Proof.
  intros Hm Hb. assert (E : U32_MAX - m = Z.ldiff (Z.ones 32) m).
  { change U32_MAX with (Z.ones 32). apply Z.sub_nocarry_ldiff. apply Z.bits_inj'. intros k Hk. rewrite Z.bits_0, Z.ldiff_spec.
    destruct (Z.lt_ge_cases k 32) as [H|H]; [by rewrite Z.ones_spec_low, andb_false_r by lia|by rewrite (u32_high_bit m k)]. }
  rewrite E. apply Z.bits_inj'. intros k Hk. rewrite Z.land_spec, !Z.ldiff_spec.
  destruct (Z.lt_ge_cases k 32) as [H|H]; [by rewrite Z.ones_spec_low by lia|by rewrite (u32_high_bit b k)].
Qed.

Lemma ones_bounds n : 0 <= n <= 32 -> 0 <= Z.ones n <= U32_MAX.
Proof.
  intros Hn. rewrite Z.ones_equiv. assert (2 ^ n <= 2 ^ 32) by (apply Z.pow_le_mono_r; lia). pose proof (Z.pow_pos_nonneg 2 n). unfold U32_MAX. lia.
Qed.
Lemma pow_split n m : 0 <= n -> 0 <= m -> n + m <= 32 -> 0 < 2 ^ n /\ 0 < 2 ^ m /\ 2 ^ n * 2 ^ m <= 2 ^ 32.
Proof.
  intros ???. pose proof (Z.pow_pos_nonneg 2 n). pose proof (Z.pow_pos_nonneg 2 m). rewrite <- Z.pow_add_r by done.
  assert (2 ^ (n + m) <= 2 ^ 32) by (apply Z.pow_le_mono_r; lia). lia.
Qed.

Lemma extract_unsigned_spec b o n : 0 <= b <= U32_MAX -> 0 <= o <= U32_MAX -> 0 <= n <= U32_MAX -> o + n <= 32 -> o <> 32 -> n <> 32 ->
  extract_unsigned b o n = imm_u32 (bits_of b o n).
Proof.
  intros Hb Ho Hn Hs Ho' Hn'. unfold extract_unsigned, bits_of. rewrite !(proj2 (Z.ltb_ge _ _)) by lia. rewrite !(proj2 (Z.leb_gt _ _)) by lia.
  do 2 f_equal. rewrite Z.shiftl_1_l. rewrite wrap32_small; [|pose proof (ones_bounds n ltac:(lia)) as H; rewrite Z.ones_equiv in H; lia].
  rewrite Z.ones_equiv. done.
Qed.

Lemma bits_of_div b o n : 0 <= o -> 0 <= n -> bits_of b o n = b / 2 ^ o mod 2 ^ n.
Proof. intros ??. unfold bits_of. by rewrite Z.land_ones, Z.shiftr_div_pow2. Qed.

Lemma top_bit u n : 0 < n -> 0 <= u < 2 ^ n -> Z.testbit u (n - 1) = (2 ^ (n - 1) <=? u).
Proof.
  intros Hn Hu. rewrite Z.testbit_eqb by lia. assert (Hp : 2 ^ n = 2 * 2 ^ (n - 1)) by (rewrite <- Z.pow_succ_r by lia; f_equal; lia).
  pose proof (Z.pow_pos_nonneg 2 (n - 1)). destruct (Z.leb_spec (2 ^ (n - 1)) u).
  - assert (u / 2 ^ (n - 1) = 1) as -> by (symmetry; apply Z.div_unique with (u - 2 ^ (n - 1)); lia). done.
  - rewrite Z.div_small by lia. done.
Qed.

(** Shifting a field to the top and back down with its sign. *)
Lemma shift_back b o n : 0 <= b <= U32_MAX -> 0 <= o -> 0 < n -> o + n <= 32 ->
  Z.shiftr (s32 (Z.shiftl b (32 - (o + n)))) (32 - n) = let u := bits_of b o n in if Z.testbit u (n - 1) then u - 2 ^ n else u.
Proof.
  intros Hb Ho Hn Hs. cbn zeta. rewrite bits_of_div by lia. remember (b / 2 ^ o mod 2 ^ n) as u eqn:Eu.
  assert (Hu : 0 <= u < 2 ^ n) by (subst u; apply Z.mod_pos_bound, Z.pow_pos_nonneg; lia). rewrite top_bit by lia.
  rewrite Z.shiftl_mul_pow2, Z.shiftr_div_pow2 by lia.
  set (L := 32 - (o + n)). assert (H32 : 2 ^ 32 = 2 ^ o * 2 ^ n * 2 ^ L) by (rewrite <- !Z.pow_add_r by (unfold L; lia); f_equal; unfold L; lia).
  assert (HN : 2 ^ (32 - n) = 2 ^ o * 2 ^ L) by (rewrite <- Z.pow_add_r by (unfold L; lia); f_equal; unfold L; lia).
  assert (Hh : 2 ^ n = 2 * 2 ^ (n - 1)) by (rewrite <- Z.pow_succ_r by lia; f_equal; lia).
  pose proof (Z.pow_pos_nonneg 2 o). pose proof (Z.pow_pos_nonneg 2 L). pose proof (Z.pow_pos_nonneg 2 (n - 1)). assert (0 <= L) by (unfold L; lia).
  set (P := 2 ^ o) in *. set (Q := 2 ^ (n - 1)) in *. set (R := 2 ^ L) in *. rewrite Hh in *.
  set (low := b mod P). assert (Hlow : 0 <= low < P) by (apply Z.mod_pos_bound; lia).
  set (q := b / P / (2 * Q)). assert (Hbe : b = (q * (2 * Q) + u) * P + low).
  { pose proof (Z.div_mod b P ltac:(lia)) as E1. pose proof (Z.div_mod (b / P) (2 * Q) ltac:(lia)) as E2. fold q in E2. rewrite <- Eu in E2. fold low in E1.
    rewrite E1, E2. ring. }
  set (m := (u * P + low) * R).
  assert (Hm : b * R = m + q * 2 ^ 32) by (rewrite H32; unfold m; rewrite Hbe; ring).
  assert (H31 : 2 ^ 31 = P * Q * R) by (cut (2 ^ 32 = 2 * (P * Q * R)); [change (2 ^ 32) with (2 * 2 ^ 31); lia|rewrite H32; ring]).
  change (2 ^ 32) with 4294967296 in *. change (2 ^ 31) with 2147483648 in *.
  assert (Hs32 : s32 (b * R) = if Q <=? u then m - 4294967296 else m).
  { unfold s32. rewrite Hm. destruct (Z.leb_spec Q u).
    - assert (2147483648 <= m < 4294967296) by (rewrite H31, H32; unfold m; nia).
      replace (m + q * 4294967296 + 2147483648) with (m - 2147483648 + (q + 1) * 4294967296) by lia. rewrite Z_mod_plus_full, Z.mod_small by lia. lia.
    - assert (0 <= m < 2147483648) by (rewrite H31; unfold m; nia).
      replace (m + q * 4294967296 + 2147483648) with (m + 2147483648 + q * 4294967296) by lia. rewrite Z_mod_plus_full, Z.mod_small by lia. lia. }
  rewrite Hs32, HN. assert (Hdm : forall t, m + t * (P * R) = low * R + (u + t) * (P * R)) by (intros t; unfold m; ring).
  assert (Hd0 : low * R / (P * R) = 0) by (apply Z.div_small; nia).
  destruct (Z.leb_spec Q u).
  - replace (m - 4294967296) with (m + (- (2 * Q)) * (P * R)) by (rewrite H32; ring). rewrite Hdm, Z.div_add, Hd0 by nia. lia.
  - replace m with (m + 0 * (P * R)) by ring. rewrite Hdm, Z.div_add, Hd0 by nia. lia.
Qed.

Lemma extract_signed_spec b o n : 0 <= b <= U32_MAX -> 0 <= o <= U32_MAX -> 0 < n <= U32_MAX -> o + n <= 32 ->
  extract_signed b o n = imm_u32 (signed_bits b o n).
Proof.
  intros Hb Ho Hn Hs. unfold extract_signed, signed_bits. rewrite wrap64_small by u64_lia. rewrite wrap32_small by u64_lia.
  rewrite (proj2 (Z.ltb_ge 32 (o + n))) by lia. rewrite (proj2 (Z.leb_gt 32 (32 - (o + n)))), (proj2 (Z.leb_gt 32 (32 - n))) by lia. cbn [orb].
  rewrite shift_back by lia. rewrite (proj2 (Z.ltb_lt 0 n)) by lia. done.
Qed.

Lemma insert_field_spec b i o n : 0 <= b <= U32_MAX -> 0 <= i <= U32_MAX -> 0 <= o <= U32_MAX -> 0 <= n <= U32_MAX -> o + n <= 32 ->
  o < 32 -> n < 32 -> i < 2 ^ n -> insert_field b i o n = imm_u32 (insert_bits b i o n).
Proof.
  intros Hb Hi Ho Hn Hs Ho' Hn' Hin. unfold insert_field, insert_bits. rewrite !(proj2 (Z.leb_gt 32 _)) by lia. cbn [orb].
  destruct (pow_split o n ltac:(lia) ltac:(lia) ltac:(lia)) as (Hpo & Hpn & Hpp). change (2 ^ 32) with 4294967296 in Hpp.
  assert (Hm : U32_MAX - wrap32 (Z.shiftl (U32_MAX - 0) n) = Z.ones n).
  { rewrite Z.shiftl_mul_pow2, Z.ones_equiv by lia. unfold wrap32, U32_MAX.
    replace ((4294967295 - 0) * 2 ^ n) with (4294967296 - 2 ^ n + (2 ^ n - 1) * 4294967296) by ring. rewrite Z_mod_plus_full, Z.mod_small by nia. lia. }
  rewrite Hm. assert (Hones : Z.ones n = 2 ^ n - 1) by (rewrite Z.ones_equiv; lia).
  rewrite (wrap32_small (Z.shiftl (Z.ones n) o)) by (rewrite Z.shiftl_mul_pow2 by lia; rewrite Hones; unfold U32_MAX; nia).
  rewrite (wrap32_small (Z.shiftl i o)) by (rewrite Z.shiftl_mul_pow2 by lia; unfold U32_MAX; nia).
  rewrite not32_ldiff; [|rewrite Z.shiftl_mul_pow2 by lia; rewrite Hones; unfold U32_MAX; nia|done].
  rewrite Z.land_ones, Z.mod_small by lia. done.
Qed.

(** ** Classes of floats *)

Lemma float_class_one x : exists k, (k < 10)%nat /\ float_class x = 2 ^ Z.of_nat k.
Proof.
  unfold float_class. destruct (_ =? 255); [destruct (_ =? 0); [destruct (Z.testbit x 31); [by exists 2%nat; split; [lia|]|by exists 9%nat; split; [lia|]]|
    destruct (Z.testbit _ 22); [by exists 1%nat; split; [lia|]|by exists 0%nat; split; [lia|]]]|].
  destruct (_ =? 0); [destruct (_ =? 0); destruct (Z.testbit x 31); [exists 5%nat|exists 6%nat|exists 4%nat|exists 7%nat]; (split; [lia|done])|].
  destruct (Z.testbit x 31); [exists 3%nat|exists 8%nat]; (split; [lia|done]).
Qed.
(** A number is finite when it is neither. *)
Lemma class_finite x : in_class Class_Finite x = negb (in_class Class_NaN x || in_class Class_Infinity x).
Proof.
  unfold in_class. destruct (float_class_one x) as (k & Hk & ->). do 10 (destruct k as [|k]; [done|]). lia.
Qed.

(** ** Ranges *)

Lemma wrap32_add_assoc a b c : wrap32 (a + wrap32 (b + c)) = wrap32 (wrap32 (a + b) + c).
Proof. unfold wrap32. rewrite Zplus_mod_idemp_r, Zplus_mod_idemp_l. f_equal. lia. Qed.
Lemma wrap32_mul_assoc a b c : wrap32 (a * wrap32 (b * c)) = wrap32 (wrap32 (a * b) * c).
Proof. unfold wrap32. rewrite Zmult_mod_idemp_r, Zmult_mod_idemp_l. f_equal. ring. Qed.
