(* ===== verification/FoldSteps.v ===== *)
(** * Folding one instruction

    What each kind of fold of the constant propagation does to a program and to a run of it: the
    operands as the folds see them ([seen]), the folds of known operands ([folds]), of a commutative
    operation with constants, of conversions there and back and of the components of vectors. *)
From Stdlib Require Import ZArith Lia.
From stdpp Require Import base functions gmap list strings.
From S2P Require Import Prelude.
From S2P Require Import IrOpcodes ShaderIr IrSemantics ConstantPropagation FoldValues.

Section Steps.
Context (conv : Opcode -> Dyn -> option Dyn) (present : Opcode -> Prop).
Abbreviation sem := (IrSemantics.sem conv).
Abbreviation faithful := (IrSemantics.faithful conv present).
Abbreviation running := (IrSemantics.running conv present).

(** ** Operands *)

(** An operand is an immediate, behind identities, or an instruction before this one. *)
Inductive seen (p : Ir) (rho : Z -> Dyn) (rank : Z -> nat) (x : Z) (v : Value) : Prop :=
| seen_imm r : is_imm r -> Resolve p v = Some r -> IsImmediate p v = Some true -> eval rho v = Scalar r -> seen p rho rank x v
| seen_inst j inst : Resolve p v = Some (VInst j) -> IsImmediate p v = Some false -> InstRecursive p v = Some j ->
    insts p !! j = Some inst -> live (op inst) -> (rank j < rank x)%nat -> eval rho v = rho j -> seen p rho rank x v.
(** A value that may be an operand of [x]. *)
Definition before (p : Ir) (rank : Z -> nat) (x : Z) (v : Value) : Prop := good p v /\ forall j, v = VInst j -> (rank j < rank x)%nat.

Lemma before_seen p rho rank x v : running p rho rank -> before p rank x v -> seen p rho rank x v.
Proof.
  intros [Hwf Hrk Hrun] [Hg Hr]. destruct (Resolve_spec p rank v (wf_sound p Hwf) Hrk Hg) as (r & Er & Hgr & Hl).
  pose proof (Resolve_eval conv present p rho v r Hrun (wf_sound p Hwf) Er) as He.
  assert (Himm : IsImmediate p v = Some (match r with VInst _ => false | _ => true end)) by (unfold IsImmediate; by rewrite Er).
  assert (Hc : is_imm r \/ exists j, r = VInst j) by (destruct r; try (by left); right; by eexists). destruct Hc as [Hi|[j ->]].
  - apply (seen_imm _ _ _ _ _ r); try done; destruct r; try done.
  - destruct (Hl j eq_refl) as [(o & Ho & Hlo) Hle]. unfold op_of in Ho.
    destruct (insts p !! j) as [inst|] eqn:Hj; [|done]. injection Ho as <-. apply (seen_inst _ _ _ _ _ j inst); try done.
    + unfold InstRecursive. by rewrite Er.
    + destruct v as [|i| | | | | | | | | | | |]; try (unfold Resolve in Er; destruct (size (insts p)); discriminate Er).
      specialize (Hle i eq_refl). specialize (Hr i eq_refl). lia.
Qed.
Lemma operand_before p rho rank x inst k v : running p rho rank -> insts p !! x = Some inst -> op inst <> Phi -> 0 <= k < NumArgs inst ->
  Arg inst k = Some v -> before p rank x v.
Proof.
  intros [Hwf Hrk _] Hx Ho Hk Ha. split.
  - destruct v; try done. apply (so_good p (wf_sound p Hwf) x k). eapply refers_intro; [done|lia|done].
  - intros j ->. apply (Hrk x k j); [eapply refers_intro; [done|lia|done]|]. unfold op_of. rewrite Hx. cbn. congruence.
Qed.
Lemma before_weaken p rank x y v : before p rank y v -> (rank y <= rank x)%nat -> before p rank x v.
Proof. intros [Hg Hr] Hle. split; [done|]. intros j Hj. specialize (Hr j Hj). lia. Qed.

(** An instruction of a pure opcode in a run. *)
Lemma pure_run p rho rank x inst : running p rho rank -> insts p !! x = Some inst -> pure (op inst) = true ->
  sem (op inst) (dyns rho inst) = Some (rho x) /\ faithful (op inst) (dyns rho inst) /\ inst_ok inst /\ op inst <> Phi.
Proof.
  intros [Hwf _ Hrun] Hx Hp. destruct (Hrun x _ (shapes_Some _ _ _ Hx)) as [Hs Hf _]. split; [by apply Hs|]. split; [done|].
  split; [by apply (shape_ok p x inst (wf_sound p Hwf))|]. by apply pure_not_phi.
Qed.

Lemma operands_n inst : inst_ok inst -> op inst <> Phi -> forall l, length l = Z.to_nat (NumArgsOf (op inst)) ->
  (forall k, 0 <= k < zlen l -> Arg inst k = l.[k]) -> values inst = l.
Proof.
  intros Hok Ho l Hl Ha. apply values_args; [done| |done]. unfold NumArgs. rewrite decide_False by done. unfold zlen.
  pose proof (NumArgsOf_range (op inst)). lia.
Qed.
Lemma Arg_some inst k : inst_ok inst -> op inst <> Phi -> 0 <= k < NumArgsOf (op inst) -> exists v, Arg inst k = Some v.
Proof. intros Hok Ho Hk. apply Arg_in; [done|]. unfold NumArgs. by rewrite decide_False. Qed.

Lemma operands_1 inst : inst_ok inst -> op inst <> Phi -> NumArgsOf (op inst) = 1 -> exists a, Arg inst 0 = Some a /\ values inst = [a].
Proof.
  intros Hok Ho Hn. destruct (Arg_some inst 0 Hok Ho ltac:(lia)) as [a Ha]. exists a. split; [done|]. apply operands_n; [done|done|by rewrite Hn|].
  intros k Hk. change (zlen [a]) with 1 in Hk. assert (k = 0) as -> by lia. done.
Qed.
Lemma operands_2 inst : inst_ok inst -> op inst <> Phi -> NumArgsOf (op inst) = 2 ->
  exists a b, Arg inst 0 = Some a /\ Arg inst 1 = Some b /\ values inst = [a; b].
Proof.
  intros Hok Ho Hn. destruct (Arg_some inst 0 Hok Ho ltac:(lia)) as [a Ha]. destruct (Arg_some inst 1 Hok Ho ltac:(lia)) as [b Hb]. exists a, b.
  split; [done|]. split; [done|]. apply operands_n; [done|done|by rewrite Hn|].
  intros k Hk. change (zlen [a; b]) with 2 in Hk. assert (k = 0 \/ k = 1) as [->| ->] by lia; done.
Qed.
Lemma operands_3 inst : inst_ok inst -> op inst <> Phi -> NumArgsOf (op inst) = 3 ->
  exists a b c, Arg inst 0 = Some a /\ Arg inst 1 = Some b /\ Arg inst 2 = Some c /\ values inst = [a; b; c].
Proof.
  intros Hok Ho Hn. destruct (Arg_some inst 0 Hok Ho ltac:(lia)) as [a Ha]. destruct (Arg_some inst 1 Hok Ho ltac:(lia)) as [b Hb].
  destruct (Arg_some inst 2 Hok Ho ltac:(lia)) as [c Hc]. exists a, b, c. repeat (split; [done|]). apply operands_n; [done|done|by rewrite Hn|].
  intros k Hk. change (zlen [a; b; c]) with 3 in Hk. assert (k = 0 \/ k = 1 \/ k = 2) as [->|[->| ->]] by lia; done.
Qed.
Lemma operands_4 inst : inst_ok inst -> op inst <> Phi -> NumArgsOf (op inst) = 4 ->
  exists a b c d, Arg inst 0 = Some a /\ Arg inst 1 = Some b /\ Arg inst 2 = Some c /\ Arg inst 3 = Some d /\ values inst = [a; b; c; d].
Proof.
  intros Hok Ho Hn. destruct (Arg_some inst 0 Hok Ho ltac:(lia)) as [a Ha]. destruct (Arg_some inst 1 Hok Ho ltac:(lia)) as [b Hb].
  destruct (Arg_some inst 2 Hok Ho ltac:(lia)) as [c Hc]. destruct (Arg_some inst 3 Hok Ho ltac:(lia)) as [d Hd]. exists a, b, c, d.
  repeat (split; [done|]). apply operands_n; [done|done|by rewrite Hn|].
  intros k Hk. change (zlen [a; b; c; d]) with 4 in Hk. assert (k = 0 \/ k = 1 \/ k = 2 \/ k = 3) as [->|[->|[->| ->]]] by lia; done.
Qed.

(** ** Steps *)

(** The program after a step still runs, and does what it did. *)
Definition steps (p : Ir) (rho : Z -> Dyn) (o : option Ir) : Prop :=
  exists p' rho' rank', o = Some p' /\ running p' rho' rank' /\ keeps p rho p' rho'.

Lemma steps_refl p rho rank : running p rho rank -> steps p rho (Some p).
Proof. intros Hr. exists p, rho, rank. split; [done|]. split; [done|]. apply keeps_refl, (wf_sound p), Hr. Qed.
Lemma steps_trans p rho p1 rho1 o : keeps p rho p1 rho1 -> steps p1 rho1 o -> steps p rho o.
Proof.
  intros Hk (p' & rho' & rank' & -> & Hr & Hk'). exists p', rho', rank'. split; [done|]. split; [done|]. by eapply keeps_trans.
Qed.
(** [x] becomes a value that stands for it. *)
Lemma steps_replace p rho rank x inst v : running p rho rank -> insts p !! x = Some inst -> pure (op inst) = true -> op inst <> Identity ->
  before p rank x v -> eval rho v = rho x -> steps p rho (ReplaceUsesWithAndRemove x v p).
Proof.
  intros Hr Hx Hp Hi [Hg Hb] He. destruct (replace_step conv present p rho rank x v (op inst)) as (p' & -> & Hr' & Hk); try done.
  - unfold op_of. by rewrite Hx.
  - by exists p', rho, rank.
Qed.
Lemma before_imm p rank x v : is_imm v -> before p rank x v.
Proof. intros Hv. destruct v; try done; by split. Qed.

(** ** Known operands *)

Definition known (p : Ir) (rho : Z -> Dyn) (v : Value) : Prop := exists r, is_imm r /\ Resolve p v = Some r /\ eval rho v = Scalar r.
(** The accessor [get] reads what [g] says of the value. *)
Definition reads {A} (get : Ir -> Value -> option A) (g : Dyn -> option A) : Prop :=
  forall p rho v a, known p rho v -> g (eval rho v) = Some a -> get p v = Some a.

Lemma u32_of_Some d a : u32_of d = Some a -> d = DU32 a /\ 0 <= a <= U32_MAX.
Proof. destruct d as [[]|]; try done. cbn. case_decide; [|done]. by intros [= <-]. Qed.
Lemma f32_of_Some d a : f32_of d = Some a -> d = DF32 a /\ 0 <= a <= U32_MAX.
Proof. destruct d as [[]|]; try done. cbn. case_decide; [|done]. by intros [= <-]. Qed.
Lemma u64_of_Some d a : u64_of d = Some a -> d = DU64 a /\ 0 <= a <= U64_MAX.
Proof. destruct d as [[]|]; try done. cbn. case_decide; [|done]. by intros [= <-]. Qed.
Lemma f64_of_Some d a : f64_of d = Some a -> d = DF64 a /\ 0 <= a <= U64_MAX.
Proof. destruct d as [[]|]; try done. cbn. case_decide; [|done]. by intros [= <-]. Qed.
Lemma u1_of_Some d a : u1_of d = Some a -> d = DU1 a.
Proof. destruct d as [[]|]; try done. cbn. by intros [= <-]. Qed.
Lemma u32_of_DU32 a : 0 <= a <= U32_MAX -> u32_of (DU32 a) = Some a.
Proof. intros H. cbn. by rewrite decide_True. Qed.
Lemma f32_of_DF32 a : 0 <= a <= U32_MAX -> f32_of (DF32 a) = Some a.
Proof. intros H. cbn. by rewrite decide_True. Qed.

Lemma reads_U1 : reads U1 u1_of.
Proof. intros p rho v a (r & _ & Hr & ->) Ha. apply u1_of_Some in Ha. injection Ha as ->. unfold U1. by rewrite Hr. Qed.
Lemma reads_U32 : reads U32 u32_of.
Proof. intros p rho v a (r & _ & Hr & ->) Ha. apply u32_of_Some in Ha as [Ha _]. injection Ha as ->. unfold U32. by rewrite Hr. Qed.
Lemma reads_F32 : reads F32 f32_of.
Proof. intros p rho v a (r & _ & Hr & ->) Ha. apply f32_of_Some in Ha as [Ha _]. injection Ha as ->. unfold F32. by rewrite Hr. Qed.
Lemma reads_U64 : reads U64 u64_of.
Proof. intros p rho v a (r & _ & Hr & ->) Ha. apply u64_of_Some in Ha as [Ha _]. injection Ha as ->. unfold U64. by rewrite Hr. Qed.
Lemma reads_F64 : reads U64 f64_of.
Proof. intros p rho v a (r & _ & Hr & ->) Ha. apply f64_of_Some in Ha as [Ha _]. injection Ha as ->. unfold U64. by rewrite Hr. Qed.

(** The function [func] computes the value of [o] from known operands. *)
Definition folds (o : Opcode) (func : imm_fn) : Prop :=
  forall p rho inst d, op inst = o -> o <> Phi -> inst_ok inst -> Forall (known p rho) (values inst) ->
  sem o (dyns rho inst) = Some d -> faithful o (dyns rho inst) -> exists v, func p inst = Some v /\ is_imm v /\ d = Scalar v.

Lemma all_known p rho rank x l : running p rho rank -> (forall v, v ∈ l -> before p rank x v) ->
  exists b, foldr (fun v k => imm ← IsImmediate p v; if imm : bool then k else Some false) (Some true) l = Some b /\
    (b = true -> Forall (known p rho) l).
Proof.
  intros Hr. induction l as [|v l IH]; intros Hl; [by exists true|]. destruct IH as (b & Hb & Hk); [intros w Hw; apply Hl; by right|]. cbn [foldr].
  destruct (before_seen p rho rank x v Hr ltac:(apply Hl; by left)) as [r Hi Hv Himm He|j inst Hv Himm _ _ _ _ _]; rewrite Himm; cbn [mbind option_bind].
  - exists b. split; [done|]. intros Ht. constructor; [by exists r|by apply Hk].
  - by exists false.
Qed.
Lemma values_before p rho rank x inst : running p rho rank -> insts p !! x = Some inst -> op inst <> Phi -> forall v, v ∈ values inst -> before p rank x v.
Proof.
  intros Hr Hx Ho v (k & Hk)%list_elem_of_lookup. destruct (shape_ok p x inst (wf_sound p (rn_wf _ _ _ _ _ Hr)) Hx) as [Hok _].
  pose proof (lookup_lt_Some _ _ _ Hk) as Hlt. rewrite values_length in Hlt by done. rewrite values_operands in Hk by done.
  apply lookup_take_Some in Hk as [Hk _]. apply (operand_before p rho rank x inst (Z.of_nat k)); [done|done|done|lia|].
  by rewrite Arg_operands, at_index_nat.
Qed.

Lemma FoldWhenAllImmediates_steps p rho rank x inst func : running p rho rank -> insts p !! x = Some inst -> pure (op inst) = true ->
  op inst <> Identity -> folds (op inst) func -> steps p rho (FoldWhenAllImmediates x func p).
Proof.
  intros Hr Hx Hp Hid Hf. destruct (pure_run p rho rank x inst Hr Hx Hp) as (Hs & Hfa & Hok & Ho). unfold FoldWhenAllImmediates. rewrite Hx. cbn [mbind option_bind].
  assert (Hval : values inst = take (Z.to_nat (NumArgs inst)) (args inst)) by (unfold values; by rewrite decide_False).
  destruct (all_known p rho rank x (values inst) Hr (values_before p rho rank x inst Hr Hx Ho)) as (b & Hb & Hk).
  unfold AreAllArgsImmediates. rewrite decide_False by done. rewrite <- Hval, Hb. cbn [mbind option_bind].
  destruct b; cbn [negb]; [|by eapply steps_refl]. destruct (Hf p rho inst (rho x) eq_refl Ho Hok (Hk eq_refl) Hs Hfa) as (v & -> & Hv & He). cbn [mbind option_bind].
  eapply steps_replace; [done|done|done|done|by apply before_imm|]. rewrite He. by destruct v.
Qed.

(** Functions of one to four operands. [mk] is the constructor of the result. *)
Lemma fn1_folds {A} o (get : Ir -> Value -> option A) g f f' : reads get g -> NumArgsOf o = 1 -> sem o = sem1 g f ->
  (forall d a e, g d = Some a -> f a = Some e -> faithful o [d] -> exists v, f' a = Some v /\ is_imm v /\ e = Scalar v) -> folds o (fn1 get f').
Proof.
  intros Hg Hn Hs Hf p rho inst d <- Ho Hok Hk Hd Hfa. destruct (operands_1 inst Hok Ho Hn) as (a & Ha & Hv). unfold dyns in *. rewrite Hv in *.
  apply Forall_cons in Hk as [Ka _]. rewrite Hs in Hd. cbn in Hd. destruct (g (eval rho a)) as [ya|] eqn:Ea; [|done]. cbn in Hd.
  unfold fn1, arg_of. rewrite Ha. cbn [mbind option_bind]. rewrite (Hg p rho a ya Ka Ea). cbn [mbind option_bind]. by apply (Hf (eval rho a)).
Qed.
Lemma fn2_folds {A B} o (ga' : Ir -> Value -> option A) (gb' : Ir -> Value -> option B) ga gb f f' : reads ga' ga -> reads gb' gb -> NumArgsOf o = 2 ->
  sem o = sem2 ga gb f ->
  (forall d d2 a b e, ga d = Some a -> gb d2 = Some b -> f a b = Some e -> faithful o [d; d2] -> exists v, f' a b = Some v /\ is_imm v /\ e = Scalar v) ->
  folds o (fn2 ga' gb' f').
Proof.
  intros Hga Hgb Hn Hs Hf p rho inst d <- Ho Hok Hk Hd Hfa. destruct (operands_2 inst Hok Ho Hn) as (a & b & Ha & Hb & Hv). unfold dyns in *. rewrite Hv in *.
  apply Forall_cons in Hk as [Ka Hk]. apply Forall_cons in Hk as [Kb _]. rewrite Hs in Hd. cbn in Hd.
  destruct (ga (eval rho a)) as [ya|] eqn:Ea; [|done]. destruct (gb (eval rho b)) as [yb|] eqn:Eb; [|done]. cbn in Hd.
  unfold fn2, arg_of. rewrite Ha, Hb. cbn [mbind option_bind]. rewrite (Hga p rho a ya Ka Ea), (Hgb p rho b yb Kb Eb). cbn [mbind option_bind].
  by apply (Hf (eval rho a) (eval rho b)).
Qed.
Lemma fn3_folds o f f' : NumArgsOf o = 3 -> sem o = sem3 u32_of u32_of u32_of f ->
  (forall a b c e, 0 <= a <= U32_MAX -> 0 <= b <= U32_MAX -> 0 <= c <= U32_MAX -> f a b c = Some e -> faithful o [DU32 a; DU32 b; DU32 c] ->
    exists v, f' a b c = Some v /\ is_imm v /\ e = Scalar v) ->
  folds o (fn3 U32 U32 U32 f').
Proof.
  intros Hn Hs Hf p rho inst d <- Ho Hok Hk Hd Hfa. destruct (operands_3 inst Hok Ho Hn) as (a & b & c & Ha & Hb & Hc & Hv). unfold dyns in *. rewrite Hv in *.
  apply Forall_cons in Hk as [Ka Hk]. apply Forall_cons in Hk as [Kb Hk]. apply Forall_cons in Hk as [Kc _]. rewrite Hs in Hd. cbn in Hd, Hfa.
  destruct (u32_of (eval rho a)) as [ya|] eqn:Ea; [|done]. destruct (u32_of (eval rho b)) as [yb|] eqn:Eb; [|done].
  destruct (u32_of (eval rho c)) as [yc|] eqn:Ec; [|done]. cbn in Hd. unfold fn3, arg_of. rewrite Ha, Hb, Hc. cbn [mbind option_bind].
  rewrite (reads_U32 p rho a ya Ka Ea), (reads_U32 p rho b yb Kb Eb), (reads_U32 p rho c yc Kc Ec). cbn [mbind option_bind].
  apply u32_of_Some in Ea as [Ea ?], Eb as [Eb ?], Ec as [Ec ?]. rewrite Ea, Eb, Ec in Hfa. by apply Hf.
Qed.
Lemma fn4_folds o f f' : NumArgsOf o = 4 -> sem o = sem4 u32_of u32_of u32_of u32_of f ->
  (forall a b c g e, 0 <= a <= U32_MAX -> 0 <= b <= U32_MAX -> 0 <= c <= U32_MAX -> 0 <= g <= U32_MAX -> f a b c g = Some e ->
    faithful o [DU32 a; DU32 b; DU32 c; DU32 g] -> exists v, f' a b c g = Some v /\ is_imm v /\ e = Scalar v) ->
  folds o (fn4 U32 U32 U32 U32 f').
Proof.
  intros Hn Hs Hf p rho inst d <- Ho Hok Hk Hd Hfa. destruct (operands_4 inst Hok Ho Hn) as (a & b & c & g & Ha & Hb & Hc & Hg & Hv). unfold dyns in *. rewrite Hv in *.
  apply Forall_cons in Hk as [Ka Hk]. apply Forall_cons in Hk as [Kb Hk]. apply Forall_cons in Hk as [Kc Hk]. apply Forall_cons in Hk as [Kg _].
  rewrite Hs in Hd. cbn in Hd, Hfa.
  destruct (u32_of (eval rho a)) as [ya|] eqn:Ea; [|done]. destruct (u32_of (eval rho b)) as [yb|] eqn:Eb; [|done].
  destruct (u32_of (eval rho c)) as [yc|] eqn:Ec; [|done]. destruct (u32_of (eval rho g)) as [yg|] eqn:Eg; [|done]. cbn in Hd.
  unfold fn4, arg_of. rewrite Ha, Hb, Hc, Hg. cbn [mbind option_bind].
  rewrite (reads_U32 p rho a ya Ka Ea), (reads_U32 p rho b yb Kb Eb), (reads_U32 p rho c yc Kc Ec), (reads_U32 p rho g yg Kg Eg). cbn [mbind option_bind].
  apply u32_of_Some in Ea as [Ea ?], Eb as [Eb ?], Ec as [Ec ?], Eg as [Eg ?]. rewrite Ea, Eb, Ec, Eg in Hfa. by apply Hf.
Qed.

(** ** Conversions there and back *)

(** Undoing [g] by [f]. *)
Definition undoes (f g : Opcode) : Prop :=
  forall d e r, sem g [d] = Some e -> faithful g [d] -> faithful f [e] -> sem f [e] = Some r -> r = d.

(** The instruction [x] has one operand, which it shows to the fold. *)
Lemma unary_operand p rho rank x inst : running p rho rank -> insts p !! x = Some inst -> pure (op inst) = true -> NumArgsOf (op inst) = 1 ->
  exists v, Arg inst 0 = Some v /\ before p rank x v /\ sem (op inst) [eval rho v] = Some (rho x) /\ faithful (op inst) [eval rho v].
Proof.
  intros Hr Hx Hp Hn. destruct (pure_run p rho rank x inst Hr Hx Hp) as (Hs & Hf & Hok & Ho). destruct (operands_1 inst Hok Ho Hn) as (v & Hv & Hval).
  unfold dyns in Hs, Hf. rewrite Hval in Hs, Hf. exists v. split; [done|]. split; [|done].
  apply (operand_before p rho rank x inst 0); try done. unfold NumArgs. rewrite decide_False by done. lia.
Qed.
Lemma binary_operands p rho rank x inst : running p rho rank -> insts p !! x = Some inst -> pure (op inst) = true -> NumArgsOf (op inst) = 2 ->
  exists u v, Arg inst 0 = Some u /\ Arg inst 1 = Some v /\ before p rank x u /\ before p rank x v /\
    sem (op inst) [eval rho u; eval rho v] = Some (rho x) /\ faithful (op inst) [eval rho u; eval rho v].
Proof.
  intros Hr Hx Hp Hn. destruct (pure_run p rho rank x inst Hr Hx Hp) as (Hs & Hf & Hok & Ho). destruct (operands_2 inst Hok Ho Hn) as (u & v & Hu & Hv & Hval).
  unfold dyns in Hs, Hf. rewrite Hval in Hs, Hf. exists u, v.
  assert (Hb : forall k w, 0 <= k < 2 -> Arg inst k = Some w -> before p rank x w).
  { intros k w Hk. apply (operand_before p rho rank x inst k); try done. unfold NumArgs. rewrite decide_False by done. lia. }
  split; [done|]. split; [done|]. split; [by apply (Hb 0)|]. split; [by apply (Hb 1)|]. done.
Qed.
Lemma ternary_operands p rho rank x inst : running p rho rank -> insts p !! x = Some inst -> pure (op inst) = true -> NumArgsOf (op inst) = 3 ->
  exists u v w, Arg inst 0 = Some u /\ Arg inst 1 = Some v /\ Arg inst 2 = Some w /\
    before p rank x u /\ before p rank x v /\ before p rank x w /\ sem (op inst) [eval rho u; eval rho v; eval rho w] = Some (rho x).
Proof.
  intros Hr Hx Hp Hn. destruct (pure_run p rho rank x inst Hr Hx Hp) as (Hs & _ & Hok & Ho). destruct (operands_3 inst Hok Ho Hn) as (u & v & w & Hu & Hv & Hw & Hval).
  unfold dyns in Hs. rewrite Hval in Hs. exists u, v, w.
  assert (Hb : forall k a, 0 <= k < 3 -> Arg inst k = Some a -> before p rank x a).
  { intros k a Hk. apply (operand_before p rho rank x inst k); try done. unfold NumArgs. rewrite decide_False by done. lia. }
  repeat (split; [done|]). split; [by apply (Hb 0)|]. split; [by apply (Hb 1)|]. split; [by apply (Hb 2)|]. done.
Qed.

(** An operand of the operand [j] of [x] may be an operand of [x]. *)
Lemma before_through p rank x j v : before p rank j v -> (rank j < rank x)%nat -> before p rank x v.
Proof. intros Hb Hr. eapply before_weaken; [done|lia]. Qed.

Lemma FoldInverseFunc_steps p rho rank x inst rev : running p rho rank -> insts p !! x = Some inst -> pure (op inst) = true -> op inst <> Identity ->
  NumArgsOf (op inst) = 1 -> pure rev = true -> NumArgsOf rev = 1 -> undoes (op inst) rev -> steps p rho (FoldInverseFunc x rev p).
Proof.
  intros Hr Hx Hp Hid Hn Hp' Hn' Hu. destruct (unary_operand p rho rank x inst Hr Hx Hp Hn) as (v & Hv & Hb & Hs & Hf).
  unfold FoldInverseFunc. rewrite Hx. cbn [mbind option_bind]. rewrite Hv. cbn [mbind option_bind].
  destruct (before_seen p rho rank x v Hr Hb) as [r _ _ -> _|j ji _ -> -> Hj Hl Hlt He]; cbn [mbind option_bind]; [by eapply steps_refl|].
  rewrite Hj. cbn [mbind option_bind]. destruct (decide (op ji = rev)) as [E|]; [|by eapply steps_refl].
  destruct (unary_operand p rho rank j ji Hr Hj ltac:(congruence) ltac:(congruence)) as (y & Hy & Hby & Hsy & Hfy). rewrite Hy. cbn [mbind option_bind].
  eapply steps_replace; [done|done|done|done|by eapply before_through|]. rewrite He in Hs, Hf. rewrite E in Hsy, Hfy. symmetry. by apply (Hu _ (rho j)).
Qed.

Lemma FoldBitCast_steps {A} p rho rank x inst rev (get : Ir -> Value -> option A) g mk : running p rho rank -> insts p !! x = Some inst ->
  pure (op inst) = true -> op inst <> Identity -> NumArgsOf (op inst) = 1 -> pure rev = true -> NumArgsOf rev = 1 -> undoes (op inst) rev ->
  reads get g -> sem (op inst) = sem1 g (fun a => Some (Scalar (mk a))) -> (forall a, is_imm (mk a)) -> steps p rho (FoldBitCast get mk x rev p).
Proof.
  intros Hr Hx Hp Hid Hn Hp' Hn' Hu Hg Hsem Hmk. destruct (unary_operand p rho rank x inst Hr Hx Hp Hn) as (v & Hv & Hb & Hs & Hf).
  pose proof (FoldInverseFunc_steps p rho rank x inst rev Hr Hx Hp Hid Hn Hp' Hn' Hu) as Hinv.
  unfold FoldBitCast. rewrite Hx. cbn [mbind option_bind]. rewrite Hv. cbn [mbind option_bind].
  destruct (before_seen p rho rank x v Hr Hb) as [r Hi Hre -> He|j ji _ -> _ _ _ _ _]; cbn [mbind option_bind]; [|done].
  rewrite Hsem in Hs. cbn in Hs. destruct (g (eval rho v)) as [a|] eqn:Ea; [|done]. cbn in Hs. injection Hs as Hs.
  rewrite (Hg p rho v a ltac:(by exists r) Ea). cbn [mbind option_bind]. eapply steps_replace; [done|done|done|done|by apply before_imm|].
  rewrite <- Hs. specialize (Hmk a). by destruct (mk a).
Qed.

(** ** Selection and negation *)

Lemma FoldSelect_steps {A} p rho rank x inst (g : Dyn -> option A) mk : running p rho rank -> insts p !! x = Some inst -> pure (op inst) = true ->
  op inst <> Identity -> NumArgsOf (op inst) = 3 -> (forall d a, g d = Some a -> d = Scalar (mk a)) ->
  sem (op inst) = sem3 u1_of g g (fun c a b => Some (Scalar (mk (if c : bool then a else b)))) -> steps p rho (FoldSelect x p).
Proof.
  intros Hr Hx Hp Hid Hn Hg Hsem. destruct (ternary_operands p rho rank x inst Hr Hx Hp Hn) as (c & a & b & Hc & Ha & Hb & Bc & Ba & Bb & Hs).
  unfold FoldSelect. rewrite Hx. cbn [mbind option_bind]. rewrite Hc. cbn [mbind option_bind].
  destruct (before_seen p rho rank x c Hr Bc) as [r Hi Hre -> He|j ji _ -> _ _ _ _ _]; cbn [mbind option_bind negb]; [|by eapply steps_refl].
  rewrite Hsem in Hs. cbn in Hs. destruct (u1_of (eval rho c)) as [t|] eqn:Et; [|done]. destruct (g (eval rho a)) as [ya|] eqn:Ea; [|done].
  destruct (g (eval rho b)) as [yb|] eqn:Eb; [|done]. cbn in Hs. injection Hs as Hs.
  rewrite (reads_U1 p rho c t ltac:(by exists r) Et). cbn [mbind option_bind]. apply Hg in Ea, Eb.
  destruct t; [rewrite Ha|rewrite Hb]; cbn [mbind option_bind]; (eapply steps_replace; [done|done|done|done|done|congruence]).
Qed.

Lemma FoldLogicalNot_steps p rho rank x inst : running p rho rank -> insts p !! x = Some inst -> op inst = LogicalNot -> steps p rho (FoldLogicalNot x p).
Proof.
  intros Hr Hx Ho. destruct (unary_operand p rho rank x inst Hr Hx ltac:(by rewrite Ho) ltac:(by rewrite Ho)) as (v & Hv & Hb & Hs & _).
  rewrite Ho in Hs. cbn in Hs. destruct (u1_of (eval rho v)) as [t|] eqn:Et; [|done]. cbn in Hs. injection Hs as Hs.
  unfold FoldLogicalNot. rewrite Hx. cbn [mbind option_bind]. rewrite Hv. cbn [mbind option_bind].
  destruct (before_seen p rho rank x v Hr Hb) as [r Hi Hre -> He|j ji _ -> -> Hj Hl Hlt He]; cbn [mbind option_bind].
  - rewrite (reads_U1 p rho v t ltac:(by exists r) Et). cbn [mbind option_bind]. eapply steps_replace; [done|done|by rewrite Ho|by rewrite Ho|by apply before_imm|done].
  - rewrite Hj. cbn [mbind option_bind]. destruct (decide (op ji = LogicalNot)) as [E|]; [|by eapply steps_refl].
    destruct (unary_operand p rho rank j ji Hr Hj ltac:(by rewrite E) ltac:(by rewrite E)) as (y & Hy & Hby & Hsy & _). rewrite Hy. cbn [mbind option_bind].
    eapply steps_replace; [done|done|by rewrite Ho|by rewrite Ho|by eapply before_through|]. rewrite E in Hsy. cbn in Hsy.
    destruct (u1_of (eval rho y)) as [ty|] eqn:Ey; [|done]. cbn in Hsy. injection Hsy as Hsy. rewrite He, <- Hsy in Et. injection Et as <-.
    apply u1_of_Some in Ey. rewrite Ey, <- Hs, negb_involutive. done.
Qed.

(** ** Other operands *)

Lemma two_args_step p rho rank x inst u v : running p rho rank -> insts p !! x = Some inst -> pure (op inst) = true -> op inst <> FPCmpClass32 ->
  NumArgsOf (op inst) = 2 -> before p rank x u -> before p rank x v -> sem (op inst) [eval rho u; eval rho v] = Some (rho x) ->
  faithful (op inst) [eval rho u; eval rho v] ->
  exists p1 p' inst', SetArg x 0 u p = Some p1 /\ SetArg x 1 v p1 = Some p' /\ running p' rho rank /\ keeps p rho p' rho /\
    insts p' !! x = Some inst' /\ op inst' = op inst.
Proof.
  intros Hr Hx Hp Hc Hn [Hgu Hbu] [Hgv Hbv] Hs Hf. pose proof Hr as [Hwf Hrk _]. destruct (pure_not_phi _ Hp) as (Hphi & _ & _).
  assert (Hnum : NumArgs inst = 2) by (unfold NumArgs; by rewrite decide_False).
  destruct (SetArg_spec p rank x 0 u inst Hwf Hrk Hx ltac:(lia) Hgu) as (p1 & Hp1 & Hwf1 & Hput1).
  destruct (shape_ok p x inst (wf_sound p Hwf) Hx) as [_ Hok].
  destruct (put_arg_spec 0 u (shape inst) Hok ltac:(by rewrite NumArgs_shape; lia)) as (Eo & Ef & En & Ea & Hok1).
  assert (Hrk1 : rank_ok p1 rank) by (eapply puts_rank; [done|apply Hwf|done|lia|done|done]).
  assert (Hsx : shapes p1 !! x = Some (put_arg 0 u (shape inst))) by (destruct Hput1 as (-> & _); rewrite lookup_alter_eq, (shapes_Some _ _ _ Hx); done).
  destruct (shapes_inv _ _ _ Hsx) as (i1 & Hi1 & E1). assert (Hnum1 : NumArgs i1 = 2) by (rewrite <- NumArgs_shape, <- E1, En, NumArgs_shape; done).
  destruct (SetArg_spec p1 rank x 1 v i1 Hwf1 Hrk1 Hi1 ltac:(lia) ltac:(by apply (puts_good _ _ _ _ _ Hput1))) as (p' & Hp' & Hwf' & Hput2).
  destruct (put_arg_spec 1 v (put_arg 0 u (shape inst)) Hok1 ltac:(rewrite En, NumArgs_shape; lia)) as (Eo2 & Ef2 & En2 & Ea2 & Hok2).
  assert (Hrk' : rank_ok p' rank) by (eapply puts_rank; [done|apply Hwf1|done|lia|done|done]).
  set (s' := put_arg 1 v (put_arg 0 u (shape inst))) in *. assert (Eop : op s' = op inst) by (rewrite Eo2, Eo; done).
  assert (Hval : values s' = [u; v]).
  { apply operands_n; [done|by rewrite Eop|by rewrite Eop, Hn|]. intros k Hk. change (zlen [u; v]) with 2 in Hk. rewrite Ea2, Ea.
    assert (k = 0 \/ k = 1) as [->| ->] by lia; done. }
  assert (Hsh : shapes p' = <[x := s']> (shapes p)).
  { destruct Hput1 as (Hs1 & _), Hput2 as (Hs2 & _). rewrite Hs2, Hs1. apply map_eq. intros j. destruct (decide (j = x)) as [->|].
    - by rewrite !lookup_alter_eq, lookup_insert_eq, (shapes_Some _ _ _ Hx).
    - by rewrite !lookup_alter_ne, lookup_insert_ne. }
  destruct (update_step conv present p p' rho rank x (shape inst) s') as [Hr' Hk]; try done.
  - by apply shapes_Some.
  - destruct Hput1 as (_ & H1 & _), Hput2 as (_ & H2 & _). congruence.
  - destruct Hput1 as (_ & _ & H1), Hput2 as (_ & _ & H2). congruence.
  - constructor; unfold dyns; rewrite ?Hval, ?Eop; [done|done|]. split; rewrite Eop; [done|]. intros E. by rewrite E in Hp.
  - by rewrite !event_pure by (rewrite ?Eop; done).
  - destruct (shapes_inv p' x s') as (i' & Hi' & E'); [by rewrite Hsh, lookup_insert_eq|]. exists p1, p', i'.
    repeat (split; [done|]). by rewrite <- Eop, E'.
Qed.

(** What is left of a commutative operation: the program goes on and [x] is there, or [x] is gone. *)
Definition commuted (p : Ir) (rho : Z -> Dyn) (x : Z) (o : Opcode) (r : option (bool * Ir)) : Prop :=
  exists go p' rho' rank', r = Some (go, p') /\ running p' rho' rank' /\ keeps p rho p' rho' /\ (go = true -> exists inst, insts p' !! x = Some inst /\ op inst = o).

(** An operation on two operands of one kind, and the facts about it that the folds use. *)
Record commutes {A} (o : Opcode) (get : Ir -> Value -> option A) (g : Dyn -> option A) (mk : A -> Value) (f : A -> A -> A) : Prop := {
  cm_pure : pure o = true /\ o <> Identity /\ o <> FPCmpClass32 /\ NumArgsOf o = 2;
  cm_faithful : forall d e, faithful o [d; e];
  cm_sem : sem o = sem2 g g (fun a b => Some (Scalar (mk (f a b))));
  cm_reads : reads get g;
  cm_inv : forall d a, g d = Some a -> d = Scalar (mk a);
  cm_imm : forall a, is_imm (mk a);
  cm_closed : forall d e a b, g d = Some a -> g e = Some b -> g (Scalar (mk (f a b))) = Some (f a b);
  cm_comm : forall a b, f a b = f b a;
  cm_assoc : forall a b c, f a (f b c) = f (f a b) c;
}.

Section Commutative.
Context {A : Type} (o : Opcode) (get : Ir -> Value -> option A) (g : Dyn -> option A) (mk : A -> Value) (f : A -> A -> A).
Hypothesis (Hcm : commutes o get g mk f).

Lemma sem_two d e r : sem o [d; e] = Some r -> exists a b, g d = Some a /\ g e = Some b /\ r = Scalar (mk (f a b)).
Proof.
  rewrite (cm_sem _ _ _ _ _ Hcm). cbn. destruct (g d) as [a|] eqn:Ea; [|done]. destruct (g e) as [b|] eqn:Eb; [|done]. cbn. intros [= <-]. by exists a, b.
Qed.
Lemma sem_two_back d e a b : g d = Some a -> g e = Some b -> sem o [d; e] = Some (Scalar (mk (f a b))).
Proof. intros Ea Eb. rewrite (cm_sem _ _ _ _ _ Hcm). cbn. rewrite Ea. cbn. by rewrite Eb. Qed.
Lemma eval_mk rho a : eval rho (mk a) = Scalar (mk a).
Proof. pose proof (cm_imm _ _ _ _ _ Hcm a). by destruct (mk a). Qed.
Lemma g_mk d a : g d = Some a -> g (Scalar (mk a)) = Some a.
Proof. intros H. by rewrite <- (cm_inv _ _ _ _ _ Hcm d a H). Qed.

(** The constant of [x] joins the constant of the operation that it uses. *)
Lemma join_constants p rho rank x inst w j ji a b : running p rho rank -> insts p !! x = Some inst -> op inst = o ->
  insts p !! j = Some ji -> op ji = o -> (rank j < rank x)%nat -> g w = Some a -> rho x = Scalar (mk (f a b)) -> rho j = Scalar (mk b) -> g (rho j) = Some b ->
  exists y y1, Arg ji 0 = Some y /\ Arg ji 1 = Some y1 /\ before p rank x y1 /\ forall c, g (eval rho y1) = Some c -> commuted p rho x o (p ← SetArg x 0 y p; p ← SetArg x 1 (mk (f a c)) p; Some (true, p)).
Proof.
  intros Hr Hx Ho Hj Hjo Hlt Ew Ex Ej Egj. destruct (cm_pure _ _ _ _ _ Hcm) as (Hp & Hid & Hc & Hn).
  destruct (binary_operands p rho rank j ji Hr Hj ltac:(congruence) ltac:(congruence)) as (y & y1 & Hy & Hy1 & By & By1 & Hs & _). rewrite Hjo in Hs.
  destruct (sem_two _ _ _ Hs) as (ya & yc & Eya & Eyc & Erj). exists y, y1. split; [done|]. split; [done|]. split; [by eapply before_through|].
  intros c Ec. rewrite Eyc in Ec. injection Ec as ->.
  assert (Eb : b = f ya c) by (rewrite Erj in Egj; rewrite (cm_closed _ _ _ _ _ Hcm _ _ _ _ Eya Eyc) in Egj; congruence).
  assert (Efin : f a b = f ya (f a c)).
  { rewrite Eb. rewrite !(cm_assoc _ _ _ _ _ Hcm). by rewrite (cm_comm _ _ _ _ _ Hcm a ya). }
  assert (Hsem : sem o [eval rho y; eval rho (mk (f a c))] = Some (rho x)).
  { rewrite eval_mk, Ex, Efin. apply sem_two_back; [done|]. by eapply (cm_closed _ _ _ _ _ Hcm). }
  destruct (two_args_step p rho rank x inst y (mk (f a c)) Hr Hx) as (p1 & p' & inst' & -> & Hp' & Hr' & Hk & Hi' & Ho'); try congruence.
  - by eapply before_through.
  - apply before_imm, (cm_imm _ _ _ _ _ Hcm).
  - rewrite Ho. apply (cm_faithful _ _ _ _ _ Hcm).
  - cbn [mbind option_bind]. rewrite Hp'. exists true, p', rho, rank. split; [done|]. split; [done|]. split; [done|]. intros _. exists inst'. split; [done|congruence].
Qed.

Lemma commuted_same p rho rank x inst : running p rho rank -> insts p !! x = Some inst -> op inst = o -> commuted p rho x o (Some (true, p)).
Proof.
  intros Hr Hx Ho. exists true, p, rho, rank. split; [done|]. split; [done|]. split; [apply keeps_refl, (wf_sound p), Hr|]. intros _. by exists inst.
Qed.

Lemma FoldCommutative_spec p rho rank x inst : running p rho rank -> insts p !! x = Some inst -> op inst = o -> commuted p rho x o (FoldCommutative get mk f x p).
Proof.
  intros Hr Hx Ho. destruct (cm_pure _ _ _ _ _ Hcm) as (Hp & Hid & Hc & Hn).
  destruct (binary_operands p rho rank x inst Hr Hx ltac:(congruence) ltac:(congruence)) as (u & v & Hu & Hv & Bu & Bv & Hs & _). rewrite Ho in Hs.
  destruct (sem_two _ _ _ Hs) as (a & b & Ea & Eb & Er). unfold FoldCommutative. rewrite Hx. cbn [mbind option_bind]. rewrite Hu, Hv. cbn [mbind option_bind].
  destruct (before_seen p rho rank x u Hr Bu) as [ru Hiu Hru -> Heu|j ji _ -> Hrec Hj Hl Hlt He];
    destruct (before_seen p rho rank x v Hr Bv) as [rv Hiv Hrv -> Hev|j' ji' _ -> Hrec' Hj' Hl' Hlt' He']; cbn [mbind option_bind andb].
  - rewrite (cm_reads _ _ _ _ _ Hcm p rho u a ltac:(by exists ru) Ea), (cm_reads _ _ _ _ _ Hcm p rho v b ltac:(by exists rv) Eb). cbn [mbind option_bind].
    destruct (steps_replace p rho rank x inst (mk (f a b)) Hr Hx) as (p' & rho' & rank' & -> & Hr' & Hk); try congruence.
    + apply before_imm, (cm_imm _ _ _ _ _ Hcm).
    + by rewrite eval_mk.
    + by exists false, p', rho', rank'.
  - rewrite Hrec'. cbn [mbind option_bind]. rewrite Hj'. cbn [mbind option_bind]. rewrite He' in Eb.
    assert (Hnorm : commuted p rho x o (p0 ← SetArg x 0 v p; p0 ← SetArg x 1 u p0; Some (true, p0))).
    { destruct (two_args_step p rho rank x inst v u Hr Hx) as (p1 & p' & inst' & -> & Hp' & Hr' & Hk & Hi' & Ho'); try congruence; try done.
      - rewrite Ho, Er, (cm_comm _ _ _ _ _ Hcm a b). apply sem_two_back; [by rewrite He'|done].
      - rewrite Ho. apply (cm_faithful _ _ _ _ _ Hcm).
      - cbn [mbind option_bind]. rewrite Hp'. exists true, p', rho, rank. split; [done|]. split; [done|]. split; [done|]. intros _. exists inst'. split; [done|congruence]. }
    destruct (decide (op ji' = op inst)) as [E|]; [|done].
    destruct (join_constants p rho rank x inst (eval rho u) j' ji' a b) as (y & y1 & Hy & Hy1 & By1 & Hjoin); try congruence; [by apply (cm_inv _ _ _ _ _ Hcm)|].
    rewrite Hy, Hy1. cbn [mbind option_bind]. destruct (before_seen p rho rank x y1 Hr By1) as [r1 Hi1 Hr1 -> He1|? ? _ -> _ _ _ _ _]; cbn [mbind option_bind]; [|done].
    assert (Hs1 : exists c, g (eval rho y1) = Some c).
    { destruct (binary_operands p rho rank j' ji' Hr Hj' ltac:(congruence) ltac:(congruence)) as (? & z & _ & Hz & _ & _ & Hs1 & _).
      rewrite E, Ho in Hs1. destruct (sem_two _ _ _ Hs1) as (? & c & _ & Ec & _). exists c. congruence. }
    destruct Hs1 as [c Ec]. rewrite (cm_reads _ _ _ _ _ Hcm p rho u a ltac:(by exists ru) Ea), (cm_reads _ _ _ _ _ Hcm p rho y1 c ltac:(by exists r1) Ec).
    cbn [mbind option_bind]. by apply Hjoin.
  - rewrite Hrec. cbn [mbind option_bind]. rewrite Hj. cbn [mbind option_bind]. rewrite He in Ea.
    destruct (decide (op ji = op inst)) as [E|]; [|by eapply commuted_same].
    destruct (join_constants p rho rank x inst (eval rho v) j ji b a) as (y & y1 & Hy & Hy1 & By1 & Hjoin); try congruence;
      [by rewrite (cm_comm _ _ _ _ _ Hcm)|by apply (cm_inv _ _ _ _ _ Hcm)|].
    rewrite Hy, Hy1. cbn [mbind option_bind]. destruct (before_seen p rho rank x y1 Hr By1) as [r1 Hi1 Hr1 -> He1|? ? _ -> _ _ _ _ _]; cbn [mbind option_bind]; [|by eapply commuted_same].
    assert (Hs1 : exists c, g (eval rho y1) = Some c).
    { destruct (binary_operands p rho rank j ji Hr Hj ltac:(congruence) ltac:(congruence)) as (? & z & _ & Hz & _ & _ & Hs1 & _).
      rewrite E, Ho in Hs1. destruct (sem_two _ _ _ Hs1) as (? & c & _ & Ec & _). exists c. congruence. }
    destruct Hs1 as [c Ec]. rewrite (cm_reads _ _ _ _ _ Hcm p rho v b ltac:(by exists rv) Eb), (cm_reads _ _ _ _ _ Hcm p rho y1 c ltac:(by exists r1) Ec).
    cbn [mbind option_bind]. by apply Hjoin.
  - by eapply commuted_same.
Qed.
End Commutative.
End Steps.
