(* ===== verification/FoldKinds.v ===== *)
(** * The folds of the constant propagation, one by one

    Every case of the switch of the pass is a step in the sense of [FoldSteps]. *)
From Stdlib Require Import ZArith Lia.
From stdpp Require Import base functions gmap list strings.
From S2P Require Import Prelude.
From S2P Require Import IrOpcodes ShaderIr IrSemantics ConstantPropagation FoldValues FoldSteps.

Section Kinds.
Context (conv : Opcode -> Dyn -> option Dyn) (present : Opcode -> Prop).
Abbreviation sem := (IrSemantics.sem conv).
Abbreviation faithful := (IrSemantics.faithful conv present).
Abbreviation running := (IrSemantics.running conv present).
Abbreviation steps := (FoldSteps.steps conv present).
Abbreviation commutes := (FoldSteps.commutes conv present).
Abbreviation commuted := (FoldSteps.commuted conv present).
Abbreviation undoes := (FoldSteps.undoes conv present).

(** ** Commutative operations with a constant *)

Lemma commuted_steps p rho x o r (k : Ir -> option Ir) : commuted p rho x o r ->
  (forall p' rho' rank' inst, running p' rho' rank' -> insts p' !! x = Some inst -> op inst = o -> steps p' rho' (k p')) ->
  steps p rho ('(go_on, p) ← r; if negb go_on then Some p else k p).
Proof.
  intros (go & p' & rho' & rank' & -> & Hr & Hk & Hgo) Hsteps. cbn [mbind option_bind]. destruct go; cbn [negb].
  - destruct (Hgo eq_refl) as (inst & Hi & Ho). eapply steps_trans; [done|]. by eapply Hsteps.
  - by exists p', rho', rank'.
Qed.

(** The constant that is the second operand, if it is one. *)
Lemma rhs_constant {A} o (get : Ir -> Value -> option A) g mk f p rho rank x inst (K : A -> Inst -> Ir -> option Ir) :
  commutes o get g mk f -> running p rho rank -> insts p !! x = Some inst -> op inst = o ->
  (forall a b u, Arg inst 0 = Some u -> before p rank x u -> g (eval rho u) = Some a -> rho x = Scalar (mk (f a b)) -> steps p rho (K b inst p)) ->
  steps p rho (inst ← insts p !! x; rhs ← Arg inst 1; imm ← IsImmediate p rhs; if negb imm then Some p else b ← get p rhs; K b inst p).
Proof.
  intros Hcm Hr Hx Ho HK. destruct (cm_pure _ _ _ _ _ _ _ Hcm) as (Hp & Hid & Hc & Hn).
  destruct (binary_operands conv present p rho rank x inst Hr Hx ltac:(congruence) ltac:(congruence)) as (u & v & Hu & Hv & Bu & Bv & Hs & _). rewrite Ho in Hs.
  destruct (sem_two conv present o get g mk f Hcm _ _ _ Hs) as (a & b & Ea & Eb & Er). rewrite Hx. cbn [mbind option_bind]. rewrite Hv. cbn [mbind option_bind].
  destruct (before_seen conv present p rho rank x v Hr Bv) as [r Hi Hre -> He|? ? _ -> _ _ _ _ _]; cbn [mbind option_bind negb]; [|by eapply steps_refl].
  rewrite (cm_reads _ _ _ _ _ _ _ Hcm p rho v b ltac:(by exists r) Eb). cbn [mbind option_bind]. by apply (HK a b u).
Qed.

Lemma commutes_and : commutes LogicalAnd U1 u1_of ImmU1 andb.
Proof.
  constructor; try done; [apply reads_U1|intros d a H; by apply u1_of_Some in H|by intros [] []|by intros [] [] []].
Qed.
Lemma commutes_or : commutes LogicalOr U1 u1_of ImmU1 orb.
Proof.
  constructor; try done; [apply reads_U1|intros d a H; by apply u1_of_Some in H|by intros [] []|by intros [] [] []].
Qed.
Lemma commutes_add : commutes IAdd32 U32 u32_of ImmU32 (fun a b => wrap32 (a + b)).
Proof.
  constructor; try done; [apply reads_U32|intros d a H; by apply u32_of_Some in H as [H _]|intros; apply u32_of_DU32, wrap32_range|
    intros a b; by rewrite Z.add_comm|apply wrap32_add_assoc].
Qed.
Lemma commutes_mul : commutes IMul32 U32 u32_of ImmU32 (fun a b => wrap32 (a * b)).
Proof.
  constructor; try done; [apply reads_U32|intros d a H; by apply u32_of_Some in H as [H _]|intros; apply u32_of_DU32, wrap32_range|
    intros a b; by rewrite Z.mul_comm|apply wrap32_mul_assoc].
Qed.

Lemma FoldLogicalAnd_steps p rho rank x inst : running p rho rank -> insts p !! x = Some inst -> op inst = LogicalAnd -> steps p rho (FoldLogicalAnd x p).
Proof.
  intros Hr Hx Ho. unfold FoldLogicalAnd. apply (commuted_steps p rho x LogicalAnd).
  { eapply FoldCommutative_spec; [apply commutes_and|done|done|done]. }
  clear. intros p rho rank inst Hr Hx Ho. eapply (rhs_constant LogicalAnd U1 u1_of ImmU1 andb p rho rank x inst
    (fun b inst p => if b : bool then y ← Arg inst 0; ReplaceUsesWithAndRemove x y p else ReplaceUsesWithAndRemove x (ImmU1 false) p)); [apply commutes_and|done|done|done|].
  intros a b u Hu Bu Ea Ex. apply u1_of_Some in Ea. destruct b.
  - rewrite Hu. cbn [mbind option_bind]. eapply steps_replace; [done|done|by rewrite Ho|by rewrite Ho|done|]. by rewrite Ex, Ea, andb_true_r.
  - eapply steps_replace; [done|done|by rewrite Ho|by rewrite Ho|by apply before_imm|]. by rewrite Ex, andb_false_r.
Qed.
Lemma FoldLogicalOr_steps p rho rank x inst : running p rho rank -> insts p !! x = Some inst -> op inst = LogicalOr -> steps p rho (FoldLogicalOr x p).
Proof.
  intros Hr Hx Ho. unfold FoldLogicalOr. apply (commuted_steps p rho x LogicalOr).
  { eapply FoldCommutative_spec; [apply commutes_or|done|done|done]. }
  clear. intros p rho rank inst Hr Hx Ho. eapply (rhs_constant LogicalOr U1 u1_of ImmU1 orb p rho rank x inst
    (fun b inst p => if b : bool then ReplaceUsesWithAndRemove x (ImmU1 true) p else y ← Arg inst 0; ReplaceUsesWithAndRemove x y p)); [apply commutes_or|done|done|done|].
  intros a b u Hu Bu Ea Ex. apply u1_of_Some in Ea. destruct b.
  - eapply steps_replace; [done|done|by rewrite Ho|by rewrite Ho|by apply before_imm|]. by rewrite Ex, orb_true_r.
  - rewrite Hu. cbn [mbind option_bind]. eapply steps_replace; [done|done|by rewrite Ho|by rewrite Ho|done|]. by rewrite Ex, Ea, orb_false_r.
Qed.
Lemma FoldAdd32_steps p rho rank x inst : running p rho rank -> insts p !! x = Some inst -> op inst = IAdd32 -> steps p rho (FoldAdd32 x p).
Proof.
  intros Hr Hx Ho. unfold FoldAdd32. apply (commuted_steps p rho x IAdd32).
  { eapply FoldCommutative_spec; [apply commutes_add|done|done|done]. }
  clear. intros p rho rank inst Hr Hx Ho. eapply (rhs_constant IAdd32 U32 u32_of ImmU32 (fun a b => wrap32 (a + b)) p rho rank x inst
    (fun b inst p => if b =? 0 then y ← Arg inst 0; ReplaceUsesWithAndRemove x y p else Some p)); [apply commutes_add|done|done|done|].
  intros a b u Hu Bu Ea Ex. apply u32_of_Some in Ea as [Ea Hra]. destruct (Z.eqb_spec b 0) as [->|]; [|by eapply steps_refl].
  rewrite Hu. cbn [mbind option_bind]. eapply steps_replace; [done|done|by rewrite Ho|by rewrite Ho|done|]. by rewrite Ex, Ea, Z.add_0_r, wrap32_small.
Qed.
Lemma FoldMul32_steps p rho rank x inst : running p rho rank -> insts p !! x = Some inst -> op inst = IMul32 -> steps p rho (FoldMul32 x p).
Proof.
  intros Hr Hx Ho. unfold FoldMul32. apply (commuted_steps p rho x IMul32).
  { eapply FoldCommutative_spec; [apply commutes_mul|done|done|done]. }
  clear. intros p rho rank inst Hr Hx Ho. eapply (rhs_constant IMul32 U32 u32_of ImmU32 (fun a b => wrap32 (a * b)) p rho rank x inst
    (fun b inst p => if b =? 0 then ReplaceUsesWithAndRemove x (ImmU32 0) p
      else if b =? 1 then y ← Arg inst 0; ReplaceUsesWithAndRemove x y p else Some p)); [apply commutes_mul|done|done|done|].
  intros a b u Hu Bu Ea Ex. apply u32_of_Some in Ea as [Ea Hra]. destruct (Z.eqb_spec b 0) as [->|].
  { eapply steps_replace; [done|done|by rewrite Ho|by rewrite Ho|by apply before_imm|]. by rewrite Ex, Z.mul_0_r. }
  destruct (Z.eqb_spec b 1) as [->|]; [|by eapply steps_refl].
  rewrite Hu. cbn [mbind option_bind]. eapply steps_replace; [done|done|by rewrite Ho|by rewrite Ho|done|]. by rewrite Ex, Ea, Z.mul_1_r, wrap32_small.
Qed.

(** ** Components of vectors *)

(** The opcodes for vectors of [n] components that [g] accepts. *)
Record vectors {A} (extract construct insert : Opcode) (n : nat) (g : Dyn -> option A) : Prop := {
  vc_extract : pure extract = true /\ extract <> Identity /\ NumArgsOf extract = 2 /\ sem extract = component n;
  vc_construct : pure construct = true /\ NumArgsOf construct = Z.of_nat n /\ sem construct = all_of g n;
  vc_insert : pure insert = true /\ insert <> construct /\ NumArgsOf insert = 3 /\ sem insert = with_component g n;
}.

Section Components.
Context {A : Type} (extract construct insert : Opcode) (n : nat) (g : Dyn -> option A).
Hypothesis (Hvc : vectors extract construct insert n g).

(** What a search for component [k] of [vec] may find. *)
Definition found (p : Ir) (rho : Z -> Dyn) (rank : Z -> nat) (x : Z) (vec : list Value) (k : Z) (r : option Value) : Prop :=
  match r with None => True | Some w => before p rank x w /\ exists val, vec.[k] = Some val /\ eval rho w = Scalar val end.

Lemma construct_found p rho rank x j ji vec k : running p rho rank -> insts p !! j = Some ji -> op ji = construct -> (rank j < rank x)%nat ->
  rho j = Vector vec -> 0 <= k < Z.of_nat n -> exists w, Arg ji k = Some w /\ found p rho rank x vec k (Some w).
Proof.
  intros Hr Hj Ho Hlt Ej Hk. destruct (vc_construct _ _ _ _ _ Hvc) as (Hp & Hn & Hsem).
  destruct (pure_run conv present p rho rank j ji Hr Hj ltac:(by rewrite Ho)) as (Hs & _ & Hok & Hphi). rewrite Ho, Hsem, Ej in Hs. unfold all_of in Hs.
  case_decide as Hd; [|done]. destruct (mapM scalar_of (dyns rho ji)) as [l|] eqn:Hm; [|done]. injection Hs as <-. apply mapM_Some in Hm.
  destruct (Arg_some ji k Hok Hphi ltac:(rewrite Ho, Hn; done)) as [w Hw]. exists w. split; [done|]. split.
  - eapply before_through; [|done]. apply (operand_before conv present p rho rank j ji k); try done. unfold NumArgs. rewrite decide_False by done. by rewrite Ho, Hn.
  - assert (Hnum : NumArgs ji = Z.of_nat n) by (unfold NumArgs; rewrite decide_False by done; by rewrite Ho, Hn).
    pose proof (values_Arg ji k w Hok ltac:(by rewrite Hnum) Hw) as Hv. assert (Hlk : dyns rho ji !! Z.to_nat k = Some (eval rho w)) by (unfold dyns; rewrite list_lookup_fmap, Hv; done).
    destruct (Forall2_lookup_l _ _ _ _ _ Hm Hlk) as (val & Hval & He). exists val. unfold at_index. rewrite decide_True by lia. split; [done|].
    destruct (eval rho w); [|done]. cbn in He. congruence.
Qed.

Lemma impl_spec p rho rank x k : running p rho rank -> 0 <= k < Z.of_nat n -> forall fuel v vec, before p rank x v -> eval rho v = Vector vec ->
  length vec = n -> (forall j, InstRecursive p v = Some j -> (size (under p rank (S (rank j))) <= fuel)%nat) ->
  exists r, FoldCompositeExtractImpl fuel p v insert construct k = Some r /\ found p rho rank x vec k r.
Proof.
  intros Hr Hk. destruct (vc_insert _ _ _ _ _ Hvc) as (Hp & Hne & Hn & Hsem).
  induction fuel as [|fuel IH]; intros v vec Bv Ev Hlen Hfuel;
    (destruct (before_seen conv present p rho rank x v Hr Bv) as [r0 _ _ _ He|j ji _ _ Hrec Hj Hl Hlt He]; [congruence|]); specialize (Hfuel j Hrec).
  { pose proof (under_step p rank j ji (rank j) Hj ltac:(done)). lia. }
  cbn [FoldCompositeExtractImpl]. rewrite Hrec. cbn [mbind option_bind]. rewrite Hj. cbn [mbind option_bind]. destruct (decide (op ji = construct)) as [Ec|Hnc].
  { destruct (construct_found p rho rank x j ji vec k Hr Hj Ec Hlt ltac:(congruence) Hk) as (w & -> & Hf). cbn [mbind option_bind]. by exists (Some w). }
  case_bool_decide as Ei; cbn [negb]; [|by exists None].
  destruct (ternary_operands conv present p rho rank j ji Hr Hj ltac:(by rewrite Ei) ltac:(by rewrite Ei)) as (c & val & idx & Hc & Hval & Hidx & Bc & Bval & Bidx & Hs).
  rewrite Ei, Hsem, <- He, Ev in Hs. unfold with_component in Hs. cbn in Hs. destruct (vector_of (eval rho c)) as [vc|] eqn:Evc; [|done].
  cbn in Hs. destruct (g (eval rho val)) as [gv|] eqn:Egv; [|done]. cbn in Hs. destruct (scalar_of (eval rho val)) as [sv|] eqn:Esv; [|done].
  cbn in Hs. destruct (u32_of (eval rho idx)) as [ki|] eqn:Eki; [|done]. cbn in Hs. case_decide as Hd; [|done]. injection Hs as Hvec.
  pose proof (u32_of_Some _ _ Eki) as [_ Hki]. rewrite Hidx. cbn [mbind option_bind].
  destruct (before_seen conv present p rho rank j idx Hr Bidx) as [ri Hi Hre -> He'|? ? _ -> _ _ _ _ _]; cbn [mbind option_bind negb]; [|by exists None].
  rewrite (reads_U32 p rho idx ki ltac:(by exists ri) Eki). cbn [mbind option_bind]. destruct (Z.eqb_spec k ki) as [->|Hkne]; cbn [negb].
  - rewrite Hval. cbn [mbind option_bind]. exists (Some val). split; [done|]. split; [by eapply before_through|]. exists sv. split.
    + unfold at_index. rewrite decide_True by lia. rewrite <- Hvec. apply list_lookup_insert_eq. lia.
    + destruct (eval rho val); [|done]. cbn in Esv. congruence.
  - rewrite Hc. cbn [mbind option_bind].
    destruct (before_seen conv present p rho rank j c Hr Bc) as [rc _ _ -> Hec|j2 ji2 _ -> Hrec2 Hj2 _ Hlt2 He2]; cbn [mbind option_bind]; [by exists None|].
    destruct (IH c vc) as (r & Hres & Hf).
    + by eapply before_through.
    + destruct (eval rho c); [done|]. cbn in Evc. congruence.
    + apply Hd.
    + intros j3 H3. rewrite Hrec2 in H3. injection H3 as <-. pose proof (under_step p rank j ji (S (rank j2)) Hj ltac:(lia)). lia.
    + exists r. split; [done|]. destruct r as [w|]; [|done]. destruct Hf as (Bw & val' & Hat & Hew). split; [done|]. exists val'. split; [|done].
      rewrite <- Hat, <- Hvec. unfold at_index. rewrite !decide_True by lia. apply list_lookup_insert_ne. lia.
Qed.

Lemma FoldCompositeExtract_steps p rho rank x inst : running p rho rank -> insts p !! x = Some inst -> op inst = extract ->
  steps p rho (FoldCompositeExtract x construct insert p).
Proof.
  intros Hr Hx Ho. destruct (vc_extract _ _ _ _ _ Hvc) as (Hp & Hid & Hn & Hsem).
  destruct (binary_operands conv present p rho rank x inst Hr Hx ltac:(by rewrite Ho) ltac:(by rewrite Ho)) as (u & v & Hu & Hv & Bu & Bv & Hs & _).
  rewrite Ho, Hsem in Hs. unfold component in Hs. cbn in Hs. destruct (vector_of (eval rho u)) as [vec|] eqn:Evec; [|done]. cbn in Hs.
  destruct (u32_of (eval rho v)) as [k|] eqn:Ek; [|done]. cbn in Hs. case_decide as Hlen; [|done]. destruct (vec.[k]) as [val|] eqn:Eval; [|done]. injection Hs as Hs.
  unfold FoldCompositeExtract. rewrite Hx. cbn [mbind option_bind]. rewrite Hu, Hv. cbn [mbind option_bind].
  destruct (before_seen conv present p rho rank x u Hr Bu) as [? _ _ -> _|j ji _ -> _ _ _ _ _]; cbn [mbind option_bind]; [by eapply steps_refl|].
  destruct (before_seen conv present p rho rank x v Hr Bv) as [rv Hi Hre -> He|? ? _ -> _ _ _ _ _]; cbn [mbind option_bind negb]; [|by eapply steps_refl].
  rewrite (reads_U32 p rho v k ltac:(by exists rv) Ek). cbn [mbind option_bind].
  destruct (impl_spec p rho rank x k Hr ltac:(pose proof (at_index_range _ _ _ Eval) as H; unfold zlen in H; lia) (size (insts p)) u vec Bu) as (r & -> & Hf);
    [destruct (eval rho u); [done|cbn in Evec; congruence]|done|intros j2 _; apply under_size|].
  cbn [mbind option_bind]. destruct r as [w|]; [|by eapply steps_refl]. destruct Hf as (Bw & val' & Hat & Hew).
  eapply steps_replace; [done|done|by rewrite Ho|by rewrite Ho|done|]. rewrite Hew, <- Hs. congruence.
Qed.
End Components.

Lemma vectors_U32x2 : vectors CompositeExtractU32x2 CompositeConstructU32x2 CompositeInsertU32x2 2 u32_of.
Proof. by constructor. Qed.
Lemma vectors_U32x3 : vectors CompositeExtractU32x3 CompositeConstructU32x3 CompositeInsertU32x3 3 u32_of.
Proof. by constructor. Qed.
Lemma vectors_U32x4 : vectors CompositeExtractU32x4 CompositeConstructU32x4 CompositeInsertU32x4 4 u32_of.
Proof. by constructor. Qed.
Lemma vectors_F32x2 : vectors CompositeExtractF32x2 CompositeConstructF32x2 CompositeInsertF32x2 2 f32_of.
Proof. by constructor. Qed.
Lemma vectors_F32x3 : vectors CompositeExtractF32x3 CompositeConstructF32x3 CompositeInsertF32x3 3 f32_of.
Proof. by constructor. Qed.
Lemma vectors_F32x4 : vectors CompositeExtractF32x4 CompositeConstructF32x4 CompositeInsertF32x4 4 f32_of.
Proof. by constructor. Qed.

(** ** New instructions *)

Lemma pure_result o : pure o = true -> has_result o.
Proof. by destruct o. Qed.

Lemma running_S p rho rank : running p rho rank -> running p rho (fun j => S (rank j)).
Proof. intros [Hw Hr Hrun]. constructor; [done| |done]. intros i k j Hj Ho. specialize (Hr i k j Hj Ho). lia. Qed.
Lemma before_S p rank x v : before p rank x v -> before p (fun j => S (rank j)) x v.
Proof. intros [Hg Hb]. split; [done|]. intros j Hj. specialize (Hb j Hj). lia. Qed.

(** A program and a run that go on from [p] and [rho] around the instruction [x]. *)
Record extends (p : Ir) (rho : Z -> Dyn) (rank : Z -> nat) (p' : Ir) (rho' : Z -> Dyn) (rank' : Z -> nat) (x : Z) : Prop := {
  ex_running : running p' rho' rank';
  ex_keeps : keeps p rho p' rho';
  ex_op : op_of p' x = op_of p x;
  ex_room : (0 < rank' x)%nat;
  ex_rho : rho' x = rho x;
  ex_before : forall v, before p rank x v -> before p' rank' x v /\ eval rho' v = eval rho v;
}.
Lemma extends_trans p1 r1 k1 p2 r2 k2 p3 r3 k3 x : extends p1 r1 k1 p2 r2 k2 x -> extends p2 r2 k2 p3 r3 k3 x -> extends p1 r1 k1 p3 r3 k3 x.
Proof.
  intros [A1 A2 A3 A4 A5 A6] [B1 B2 B3 B4 B5 B6]. constructor; [done|by eapply keeps_trans|congruence|done|congruence|].
  intros v Hv. destruct (A6 v Hv) as [C1 C2]. destruct (B6 v C1) as [D1 D2]. split; [done|congruence].
Qed.

Lemma emit_step p rho rank b x o l d : running p rho rank -> (0 < rank x)%nat -> is_Some (insts p !! x) -> pure o = true -> o <> FPCmpClass32 ->
  zlen l = NumArgsOf o -> values (mkInst o 0 (put_from 0 l no_args) [] []) = l -> (forall v, v ∈ l -> before p rank x v) ->
  sem o (eval rho <$> l) = Some d -> faithful o (eval rho <$> l) ->
  exists v p' rho' rank', emit b x o l p = Some (v, p') /\ extends p rho rank p' rho' rank' x /\ before p' rank' x v /\ eval rho' v = d.
Proof.
  intros Hr Hpos Hx Hp Hc Hl Hval Hb Hs Hf. pose proof Hx as [ix Hix]. pose proof (wf_sound p (rn_wf _ _ _ _ _ Hr)) as Hso.
  assert (Hold : forall j oj, op_of p j = Some oj -> j <> next_inst p).
  { intros j oj Hj ->. unfold op_of in Hj. by rewrite (fresh_none p Hso) in Hj. }
  assert (Hxo : op_of p x = Some (op ix)) by (unfold op_of; by rewrite Hix).
  destruct (insert_step conv present p rho rank b x o l 0 d Hr Hx Hp Hl Hb Hc Hpos Hs Hf Hval) as (p' & Hp' & Hr' & Hk & Hn & Hops).
  exists (VInst (next_inst p)), p', (<[next_inst p := d]> rho), (room rank (next_inst p) x). unfold emit. rewrite Hp'. cbn [mbind option_bind].
  assert (Hrx : room rank (next_inst p) x x = (2 * rank x)%nat) by (unfold room; rewrite decide_False; [done|by eapply Hold]).
  split; [done|]. split; [|split].
  - constructor; [done|done|rewrite Hxo; by apply Hops|lia|apply fn_lookup_insert_ne; apply not_eq_sym; by eapply Hold|].
    intros v [Hg Hbv]. assert (Hvn : forall j, v = VInst j -> j <> next_inst p) by (intros j ->; destruct Hg as (oj & Hoj & _); by eapply Hold).
    split; [split|apply eval_upd; done].
    + destruct v; try done. destruct Hg as (oj & Hoj & Hres). exists oj. split; [by apply Hops|done].
    + intros j Hj. rewrite Hrx. unfold room. rewrite decide_False by by apply Hvn. specialize (Hbv j Hj). lia.
  - split; [exists o; split; [done|by apply pure_result]|]. intros j [= <-]. rewrite Hrx. unfold room. rewrite decide_True by done. lia.
  - cbn. apply fn_lookup_insert.
Qed.

(** An instruction that is replaced by one that was created for it. *)
Lemma extends_replace p rho rank p' rho' rank' x inst v : extends p rho rank p' rho' rank' x -> insts p !! x = Some inst -> pure (op inst) = true ->
  op inst <> Identity -> before p' rank' x v -> eval rho' v = rho x -> steps p rho (ReplaceUsesWithAndRemove x v p').
Proof.
  intros He Hx Hp Hid Hb Hv. eapply steps_trans; [apply (ex_keeps _ _ _ _ _ _ _ He)|]. pose proof (ex_op _ _ _ _ _ _ _ He) as Ho. unfold op_of in Ho. rewrite Hx in Ho.
  destruct (insts p' !! x) as [i'|] eqn:Hx'; [|done]. injection Ho as Ho. eapply steps_replace; [apply (ex_running _ _ _ _ _ _ _ He)|done|congruence|congruence|done|].
  rewrite Hv. symmetry. apply (ex_rho _ _ _ _ _ _ _ He).
Qed.
Lemma extends_inst p rho rank p' rho' rank' x : extends p rho rank p' rho' rank' x -> is_Some (insts p !! x) -> is_Some (insts p' !! x).
Proof. intros He [i Hi]. pose proof (ex_op _ _ _ _ _ _ _ He) as Ho. unfold op_of in Ho. rewrite Hi in Ho. destruct (insts p' !! x); [by eexists|done]. Qed.

Lemma FoldUnpack32x2_steps p rho rank b x inst rev g : running p rho rank -> insts p !! x = Some inst -> pure (op inst) = true -> op inst <> Identity ->
  NumArgsOf (op inst) = 1 -> pure rev = true -> NumArgsOf rev = 1 -> undoes (op inst) rev ->
  reads U64 g -> (forall d a, g d = Some a -> 0 <= a <= U64_MAX) ->
  sem (op inst) = sem1 g (fun a => Some (Vector [ImmU32 (a mod 2 ^ 32); ImmU32 (a / 2 ^ 32)])) -> steps p rho (FoldUnpack32x2 b x rev p).
Proof.
  intros Hr0 Hx Hp Hid Hn Hp' Hn' Hu Hg Hrange Hsem. pose proof (running_S p rho rank Hr0) as Hr. clear Hr0.
  set (rk := fun j => S (rank j)) in *. destruct (unary_operand conv present p rho rk x inst Hr Hx Hp Hn) as (v & Hv & Hb & Hs & Hf).
  pose proof (FoldInverseFunc_steps conv present p rho rk x inst rev Hr Hx Hp Hid Hn Hp' Hn' Hu) as Hinv.
  unfold FoldUnpack32x2. rewrite Hx. cbn [mbind option_bind]. rewrite Hv. cbn [mbind option_bind].
  destruct (before_seen conv present p rho rk x v Hr Hb) as [r Hi Hre -> He|j ji _ -> _ _ _ _ _]; cbn [mbind option_bind]; [|done].
  rewrite Hsem in Hs. cbn in Hs. destruct (g (eval rho v)) as [a|] eqn:Ea; [|done]. cbn in Hs. injection Hs as Hs.
  rewrite (Hg p rho v a ltac:(by exists r) Ea). cbn [mbind option_bind]. pose proof (Hrange _ _ Ea) as Ha.
  assert (E1 : wrap32 a = a mod 2 ^ 32) by done. assert (E2 : wrap32 (Z.shiftr a 32) = a / 2 ^ 32).
  { rewrite Z.shiftr_div_pow2 by done. apply wrap32_small. unfold U64_MAX in Ha. unfold U32_MAX. change (2 ^ 32) with 4294967296.
    split; [apply Z.div_pos; lia|]. apply Z.lt_succ_r, Z.div_lt_upper_bound; lia. }
  rewrite E1, E2. set (lo := a mod 2 ^ 32). set (hi := a / 2 ^ 32).
  destruct (emit_step p rho rk b x CompositeConstructU32x2 [ImmU32 lo; ImmU32 hi] (rho x) Hr) as (w & p' & rho' & rank' & -> & Hex & Bw & Ew); try done.
  - unfold rk; lia.
  - intros y [->|[->|[]%elem_of_nil]%elem_of_cons]%elem_of_cons; by apply before_imm.
  - rewrite <- Hs. cbn [fmap list_fmap]. change (sem CompositeConstructU32x2) with (all_of u32_of 2). unfold all_of. rewrite decide_True; [done|].
    split; [done|]. assert (0 <= lo <= U32_MAX) by (unfold lo; rewrite <- E1; apply wrap32_range).
    assert (0 <= hi <= U32_MAX) by (unfold hi; rewrite <- E2; apply wrap32_range).
    repeat constructor; cbn; by rewrite decide_True.
  - cbn [mbind option_bind]. by eapply extends_replace.
Qed.

(** ** Other opcodes for the same instruction *)

Lemma imm_resolve p v : is_imm v -> Resolve p v = Some v /\ IsImmediate p v = Some true.
Proof. intros Hv. unfold IsImmediate, Resolve. destruct v; try done; by destruct (size (insts p)). Qed.

(** An argument that is an immediate behind identities is not a live instruction. *)
Lemma imm_not_live p k x inst j : sound p -> insts p !! x = Some inst -> Arg inst k = Some (VInst j) -> IsImmediate p (VInst j) = Some true ->
  k < NumArgs inst -> exists o, op_of p j = Some o /\ ~ live o.
Proof.
  intros Hs Hx Ha Hi Hk. destruct (so_good p Hs x k j) as (o & Ho & Hres); [by eapply refers_intro|]. exists o. split; [done|].
  intros Hl. by rewrite (IsImmediate_live p j) in Hi by (by exists o).
Qed.

Lemma recode_step p rho rank x inst o : running p rho rank -> insts p !! x = Some inst -> narrows p x inst o ->
  inst_run conv present rho x (shape inst <| op := o |>) -> event_of rho x (shape inst <| op := o |>) = event_of rho x inst ->
  steps p rho (ReplaceOpcode x o p).
Proof.
  intros Hr Hx Hn Hi He. pose proof Hr as [Hwf Hrk _]. destruct (ReplaceOpcode_spec p rank x o inst Hwf Hrk Hx Hn) as (p' & -> & Hwf' & Hrk' & (Hs & Hnx & Hb)).
  destruct (update_step conv present p p' rho rank x (shape inst) (shape inst <| op := o |>)) as [Hr' Hk]; try done.
  - by apply shapes_Some.
  - rewrite Hs. apply map_eq. intros j. destruct (decide (j = x)) as [->|]; [by rewrite lookup_alter_eq, lookup_insert_eq, (shapes_Some _ _ _ Hx)|].
    by rewrite lookup_alter_ne, lookup_insert_ne.
  - by exists p', rho, rank.
Qed.

(** The class test of a known mask. *)
Lemma class_to_unary p rho rank x inst u a o mask : running p rho rank -> insts p !! x = Some inst -> op inst = FPCmpClass32 ->
  (o = FPIsNan32 /\ mask = Class_NaN \/ o = FPIsInf32 /\ mask = Class_Infinity) ->
  Arg inst 0 = Some u -> f32_of (eval rho u) = Some a -> rho x = DU1 (in_class mask a) -> steps p rho (ReplaceOpcode x o p).
Proof.
  intros Hr Hx Ho Hm Hu Ea Ex. pose proof (wf_sound p (rn_wf _ _ _ _ _ Hr)) as Hso. destruct (shape_ok p x inst Hso Hx) as [Hok [_ Hargs]].
  assert (Hpo : o <> Phi /\ live o /\ TypeOf o = T_U1 /\ NumArgsOf o = 1 /\ sem o = sem1 f32_of (fun a => Some (DU1 (in_class mask a))) /\ pure o = true /\ o <> FPCmpClass32 /\ o <> GetAttributeU32).
  { destruct Hm as [[-> ->]|[-> ->]]; done. }
  destruct Hpo as (Hphi & Hl & Ht & Hn & Hsem & Hp & Hc & Hga). pose proof (rn_run _ _ _ _ _ Hr x _ (shapes_Some _ _ _ Hx)) as [_ _ [Hw _]].
  destruct (Hw Ho) as (v & Hv & Hiv).
  assert (Hval : values (shape inst <| op := o |>) = [u]).
  { apply operands_n; cbn; [constructor; cbn; [done|intros _; apply Hargs; cbn; by rewrite Ho]|done|by rewrite Hn|].
    intros k Hk. change (zlen [u]) with 1 in Hk. assert (k = 0) as -> by lia. unfold Arg in *. cbn. rewrite decide_False by done. by rewrite decide_False in Hu by (by rewrite Ho). }
  apply (recode_step p rho rank x inst o Hr Hx).
  - split; [by rewrite Ho|]. split; [done|]. split; [by rewrite Ho|]. split; [done|]. split; [by rewrite Ho|].
    split; [rewrite Hn; unfold NumArgs; rewrite Ho; done|]. intros k j Hk Ha. rewrite Hn in Hk.
    destruct (so_spare p Hso x _ k j (shapes_Some _ _ _ Hx) Ha) as [Hlt|?]; [|done]. exfalso. rewrite NumArgs_shape in Hlt. unfold NumArgs in Hlt. rewrite Ho in Hlt. rewrite decide_False in Hlt by done. change (NumArgsOf FPCmpClass32) with 2 in Hlt.
    assert (k = 1) as -> by lia. rewrite Arg_shape in Hv. rewrite Hv in Ha. injection Ha as ->. done.
  - constructor; unfold dyns; rewrite ?Hval; change (op (shape inst <| op := o |>)) with o; cbn [fmap list_fmap].
    + intros _. rewrite Hsem. cbn [sem1]. rewrite Ea. by rewrite Ex.
    + destruct Hm as [[-> _]|[-> _]]; done.
    + split; cbn; intros E; congruence.
  - rewrite !event_pure; [done|by rewrite Ho|by cbn].
Qed.

Lemma FoldCmpClass_steps p rho rank b x inst : running p rho rank -> insts p !! x = Some inst -> op inst = FPCmpClass32 -> steps p rho (FoldCmpClass b x p).
Proof.
  intros Hr0 Hx Ho. pose proof (running_S p rho rank Hr0) as Hr. set (rk := fun j => S (rank j)) in *.
  destruct (binary_operands conv present p rho rk x inst Hr Hx ltac:(by rewrite Ho) ltac:(by rewrite Ho)) as (u & v & Hu & Hv & Bu & Bv & Hs & Hf). rewrite Ho in Hs, Hf.
  destruct (rn_run _ _ _ _ _ Hr x _ (shapes_Some _ _ _ Hx)) as [_ _ [Hw _]]. destruct (Hw Ho) as (v' & Hv' & Hiv). rewrite Arg_shape, Hv in Hv'. injection Hv' as <-.
  destruct (imm_resolve p v Hiv) as [Hres Himm]. cbn in Hs. destruct (f32_of (eval rho u)) as [a|] eqn:Ea; [|done].
  destruct (u32_of (eval rho v)) as [mask|] eqn:Em; [|done]. cbn in Hs. injection Hs as Hs.
  unfold FoldCmpClass. rewrite Hx. cbn [mbind option_bind]. rewrite Hv. cbn [mbind option_bind]. rewrite Himm. cbn [mbind option_bind negb].
  rewrite (reads_U32 p rho v mask ltac:(exists v; split; [done|]; split; [done|]; by destruct v) Em). cbn [mbind option_bind]. cbn in Hf. rewrite Em in Hf.
  destruct Hf as [[= ->]|[[= ->]|[= ->]]]; (match goal with |- context [Z.land ?m Class_NaN =? Class_NaN] => let t := eval vm_compute in (Z.land m Class_NaN =? Class_NaN) in change (Z.land m Class_NaN =? Class_NaN) with t end; cbn iota).
  - by eapply (class_to_unary p rho rk x inst u a FPIsNan32 Class_NaN); auto.
  - change (Z.land Class_Infinity Class_Infinity =? Class_Infinity) with true. cbn iota. by eapply (class_to_unary p rho rk x inst u a FPIsInf32 Class_Infinity); auto.
  - change (Z.land Class_Finite Class_Infinity =? Class_Infinity) with false. change (Z.land Class_Finite Class_Finite =? Class_Finite) with true. cbn iota.
    rewrite Hu. cbn [mbind option_bind]. assert (Hix : is_Some (insts p !! x)) by (by rewrite Hx).
    destruct (emit_step p rho rk b x FPIsNan32 [u] (DU1 (in_class Class_NaN a)) Hr) as (nan & p1 & r1 & k1 & -> & E1 & B1 & V1); try done; [unfold rk; lia|by intros y [->|[]%elem_of_nil]%elem_of_cons|cbn; by rewrite Ea|].
    cbn [mbind option_bind]. destruct (ex_before _ _ _ _ _ _ _ E1 u Bu) as [Bu1 Vu1].
    destruct (emit_step p1 r1 k1 b x FPIsInf32 [u] (DU1 (in_class Class_Infinity a)) (ex_running _ _ _ _ _ _ _ E1) (ex_room _ _ _ _ _ _ _ E1) (extends_inst _ _ _ _ _ _ _ E1 Hix)) as (inf & p2 & r2 & k2 & -> & E2 & B2 & V2); try done; [by intros y [->|[]%elem_of_nil]%elem_of_cons|cbn; by rewrite Vu1, Ea|].
    cbn [mbind option_bind]. destruct (ex_before _ _ _ _ _ _ _ E2 nan B1) as [B1' V1']. pose proof (extends_trans _ _ _ _ _ _ _ _ _ _ E1 E2) as E12.
    destruct (emit_step p2 r2 k2 b x LogicalOr [nan; inf] (DU1 (in_class Class_NaN a || in_class Class_Infinity a)) (ex_running _ _ _ _ _ _ _ E2) (ex_room _ _ _ _ _ _ _ E2) (extends_inst _ _ _ _ _ _ _ E12 Hix)) as (either & p3 & r3 & k3 & -> & E3 & B3 & V3); try done; [by intros y [->|[->|[]%elem_of_nil]%elem_of_cons]%elem_of_cons|cbn; by rewrite V1', V1, V2|].
    cbn [mbind option_bind]. pose proof (extends_trans _ _ _ _ _ _ _ _ _ _ E12 E3) as E13.
    destruct (emit_step p3 r3 k3 b x LogicalNot [either] (DU1 (negb (in_class Class_NaN a || in_class Class_Infinity a))) (ex_running _ _ _ _ _ _ _ E3) (ex_room _ _ _ _ _ _ _ E3) (extends_inst _ _ _ _ _ _ _ E13 Hix)) as (result & p4 & r4 & k4 & -> & E4 & B4 & V4); try done; [by intros y [->|[]%elem_of_nil]%elem_of_cons|cbn; by rewrite V3|].
    cbn [mbind option_bind]. eapply extends_replace; [by eapply extends_trans|done|by rewrite Ho|by rewrite Ho|done|]. by rewrite V4, <- Hs, class_finite.
Qed.

Lemma FoldDiscardCond_steps p rho rank x inst : running p rho rank -> insts p !! x = Some inst -> op inst = DiscardCond -> steps p rho (FoldDiscardCond x p).
Proof.
  intros Hr Hx Ho. pose proof Hr as [Hwf Hrk Hrun]. pose proof (wf_sound p Hwf) as Hso. destruct (shape_ok p x inst Hso Hx) as [Hok Hok'].
  destruct (operands_1 inst Hok ltac:(by rewrite Ho) ltac:(by rewrite Ho)) as (v & Hv & Hval).
  assert (Hnum : NumArgs inst = 1) by (unfold NumArgs; by rewrite Ho).
  pose proof (operand_before conv present p rho rank x inst 0 v Hr Hx ltac:(by rewrite Ho) ltac:(lia) Hv) as Bv.
  destruct (Hrun x _ (shapes_Some _ _ _ Hx)) as [_ Hf _]. change (op (shape inst)) with (op inst) in Hf. change (dyns rho (shape inst)) with (dyns rho inst) in Hf.
  unfold dyns in Hf. rewrite Hval, Ho in Hf. destruct Hf as [t Ht]. unfold FoldDiscardCond. rewrite Hx. cbn [mbind option_bind]. rewrite Hv. cbn [mbind option_bind].
  destruct (before_seen conv present p rho rank x v Hr Bv) as [r Hi Hre Himm He|j ji _ Himm _ _ _ _ _]; rewrite Himm; cbn [mbind option_bind negb]; [|by eapply steps_refl].
  rewrite (reads_U1 p rho v t ltac:(by exists r) Ht). cbn [mbind option_bind].
  assert (Hev : event_of rho x inst = if t then Some (x, Discard, flags inst, []) else None).
  { unfold event_of, dyns. rewrite Ho, Hval. cbn [pure is_conv orb fmap list_fmap]. apply u1_of_Some in Ht. rewrite Ht. by destruct t. }
  destruct t.
  - apply (recode_step p rho rank x inst Discard Hr Hx).
    + split; [by rewrite Ho|]. split; [done|]. split; [by rewrite Ho|]. split; [done|]. split; [by rewrite Ho|]. split; [by rewrite Hnum|].
      intros k j Hk Ha. change (NumArgsOf Discard) with 0 in Hk. destruct (decide (k = 0)) as [->|].
      * rewrite Hv in Ha. injection Ha as ->. eapply imm_not_live; [done|done|done|done|lia].
      * destruct (so_spare p Hso x _ k j (shapes_Some _ _ _ Hx) Ha) as [Hlt|?]; [rewrite NumArgs_shape in Hlt; lia|done].
    + constructor; [done|done|]. split; cbn; done.
    + rewrite Hev. done.
  - assert (Hno : forall a c, ~ refers p a c x).
    { intros a c Hac. apply (so_good p Hso) in Hac as (o & Hop & Hres). unfold op_of in Hop. rewrite Hx in Hop. injection Hop as <-. by rewrite Ho in Hres. }
    destruct (Invalidate_voids p rank x Hwf Hrk ltac:(by rewrite Hx) Hno) as (p' & -> & Hwf' & Hvo). pose proof Hvo as (Hs & Hn & Hb).
    destruct (update_step conv present p p' rho rank x (shape inst) (void_inst (shape inst))) as [Hr' Hk]; try done.
    + by eapply voids_rank.
    + by apply shapes_Some.
    + rewrite Hs. apply map_eq. intros j. destruct (decide (j = x)) as [->|]; [by rewrite lookup_alter_eq, lookup_insert_eq, (shapes_Some _ _ _ Hx)|].
      by rewrite lookup_alter_ne, lookup_insert_ne.
    + by exists p', rho, rank.
Qed.

(** The packed ancillary value is not read in the program: the fold does not apply. *)
Lemma FoldPackedAncillary_spec p rho rank b x inst : running p rho rank -> insts p !! x = Some inst -> op inst = BitFieldUExtract ->
  FoldPackedAncillary b x p = Some (false, p).
Proof.
  intros Hr Hx Ho. destruct (ternary_operands conv present p rho rank x inst Hr Hx ltac:(by rewrite Ho) ltac:(by rewrite Ho)) as (u & v & w & Hu & Hv & Hw & Bu & Bv & Bw & _).
  unfold FoldPackedAncillary. rewrite Hx. cbn [mbind option_bind]. rewrite Hu, Hv, Hw. cbn [mbind option_bind].
  assert (Himm : forall y, before p rank x y -> exists i, IsImmediate p y = Some i).
  { intros y [Hg _]. destruct Hr as [Hwf Hrk _]. by eapply IsImmediate_spec; [apply Hwf|..]. }
  destruct (Himm v Bv) as [i1 ->], (Himm w Bw) as [i2 ->]. cbn [mbind option_bind].
  destruct (before_seen conv present p rho rank x u Hr Bu) as [? _ _ -> _|j ji _ -> Hrec Hj _ _ _]; cbn [mbind option_bind orb]; [done|].
  destruct (negb i1 || negb i2); [done|]. rewrite Hrec. cbn [mbind option_bind]. rewrite Hj. cbn [mbind option_bind].
  case_bool_decide as E; cbn [negb]; [|done]. destruct (rn_run _ _ _ _ _ Hr j _ (shapes_Some _ _ _ Hj)) as [_ _ [_ Hwr]].
  destruct (Hwr E) as (a & Ha & Hne). rewrite Arg_shape in Ha. rewrite Ha. cbn [mbind option_bind]. by rewrite (proj2 (Z.eqb_neq a PackedAncillary)).
Qed.
End Kinds.
