(* ===== verification/Propagation.v ===== *)
(** * The constant propagation pass keeps the meaning of a program

    Every fold of the switch of [ConstantPropagation] computes the reference value of its opcode, so one
    instruction, a block and the whole pass are steps of [FoldSteps]. *)
From Stdlib Require Import ZArith Lia.
From stdpp Require Import base functions gmap list strings.
From S2P Require Import Prelude.
From S2P Require Import IrOpcodes ShaderIr IrSemantics ConstantPropagation FoldValues FoldSteps FoldKinds.

Section Propagation.
Context (conv : Opcode -> Dyn -> option Dyn) (present : Opcode -> Prop).
Abbreviation sem := (IrSemantics.sem conv).
Abbreviation faithful := (IrSemantics.faithful conv present).
Abbreviation running := (IrSemantics.running conv present).
Abbreviation steps := (FoldSteps.steps conv present).
Abbreviation folds := (FoldSteps.folds conv present).
Abbreviation undoes := (FoldSteps.undoes conv present).

(** ** The functions of the switch *)

Lemma folds_S32 o f : folds o (fn2 U32 U32 (fun a b => f (s32 a) (s32 b))) -> folds o (fn2 S32 S32 f).
Proof.
  intros H p rho inst d Ho Hp Hok Hk Hs Hf. destruct (H p rho inst d Ho Hp Hok Hk Hs Hf) as (v & Hv & Hi & Hd). exists v. split; [|done]. rewrite <- Hv.
  unfold fn2, arg_of, S32. destruct (Arg inst 0) as [a|]; [|done]. destruct (Arg inst 1) as [b|]; cbn; [|by destruct (U32 p a)].
  by destruct (U32 p a), (U32 p b).
Qed.
Lemma folds_S64 o f : folds o (fn2 U64 U64 (fun a b => f (s64 a) (s64 b))) -> folds o (fn2 S64 S64 f).
Proof.
  intros H p rho inst d Ho Hp Hok Hk Hs Hf. destruct (H p rho inst d Ho Hp Hok Hk Hs Hf) as (v & Hv & Hi & Hd). exists v. split; [|done]. rewrite <- Hv.
  unfold fn2, arg_of, S64. destruct (Arg inst 0) as [a|]; [|done]. destruct (Arg inst 1) as [b|]; cbn; [|by destruct (U64 p a)].
  by destruct (U64 p a), (U64 p b).
Qed.

(** Two operands that are 32 bits wide, or 64. *)
Lemma folds_32 o f f' : NumArgsOf o = 2 -> sem o = sem2 u32_of u32_of f ->
  (forall a b e, 0 <= a <= U32_MAX -> 0 <= b <= U32_MAX -> f a b = Some e -> exists v, f' a b = Some v /\ is_imm v /\ e = Scalar v) -> folds o (fn2 U32 U32 f').
Proof.
  intros Hn Hs Hf. apply (fn2_folds conv present o U32 U32 u32_of u32_of f); [apply reads_U32|apply reads_U32|done|done|].
  intros d d2 a b e Ha Hb He _. apply u32_of_Some in Ha as [_ Ha], Hb as [_ Hb]. by apply Hf.
Qed.
Lemma folds_64 o f f' : NumArgsOf o = 2 -> sem o = sem2 u64_of u64_of f ->
  (forall a b e, f a b = Some e -> exists v, f' a b = Some v /\ is_imm v /\ e = Scalar v) -> folds o (fn2 U64 U64 f').
Proof.
  intros Hn Hs Hf. apply (fn2_folds conv present o U64 U64 u64_of u64_of f); [apply reads_U64|apply reads_U64|done|done|].
  intros d d2 a b e Ha Hb He _. by apply Hf.
Qed.
Lemma folds_one o f f' : NumArgsOf o = 1 -> sem o = sem1 u32_of f ->
  (forall a e, 0 <= a <= U32_MAX -> f a = Some e -> exists v, f' a = Some v /\ is_imm v /\ e = Scalar v) -> folds o (fn1 U32 f').
Proof.
  intros Hn Hs Hf. apply (fn1_folds conv present o U32 u32_of f); [apply reads_U32|done|done|].
  intros d a e Ha He _. apply u32_of_Some in Ha as [_ Ha]. by apply Hf.
Qed.

(** The function of the switch is that of the opcode, up to unfolding. *)
Ltac same_value := cbn beta; intros; match goal with H : Some _ = Some _ |- _ => injection H as <- end; eexists; split; [reflexivity|split; [done|done]].
Ltac easy_fold :=
  first [ eapply folds_32; [reflexivity|reflexivity|same_value]
        | eapply folds_64; [reflexivity|reflexivity|same_value]
        | eapply folds_one; [reflexivity|reflexivity|same_value]
        | apply folds_S32; eapply folds_32; [reflexivity|reflexivity|same_value]
        | apply folds_S64; eapply folds_64; [reflexivity|reflexivity|same_value] ].

Lemma folds_ConvertF32U32 : folds ConvertF32U32 (fn1 U32 (fun a => Some (ImmF32 (f32_of_u32 a)))).
Proof. easy_fold. Qed.
Lemma folds_UDiv32 : folds UDiv32 (fn2 U32 U32 (fun a b => if b =? 0 then None else imm_u32 (a / b))).
Proof. eapply folds_32; [done|reflexivity|]. cbn beta. intros a b e _ _. destruct (b =? 0); [done|]. same_value. Qed.
Lemma folds_UMod32 : folds UMod32 (fn2 U32 U32 (fun a b => if b =? 0 then None else imm_u32 (a mod b))).
Proof. eapply folds_32; [done|reflexivity|]. cbn beta. intros a b e _ _. destruct (b =? 0); [done|]. same_value. Qed.
Lemma folds_shl : folds ShiftLeftLogical32 (fn2 U32 U32 (fun a b => if 32 <=? b then None else imm_u32 (wrap32 (Z.shiftl a b)))).
Proof.
  eapply folds_32; [done|reflexivity|]. cbn beta. intros a b e _ Hb. destruct (32 <=? b); [done|]. rewrite Z.shiftl_mul_pow2 by lia. same_value.
Qed.
Lemma folds_shr : folds ShiftRightLogical32 (fn2 U32 U32 (fun a b => if 32 <=? b then None else imm_u32 (Z.shiftr a b))).
Proof.
  eapply folds_32; [done|reflexivity|]. cbn beta. intros a b e _ Hb. destruct (32 <=? b); [done|]. rewrite Z.shiftr_div_pow2 by lia. same_value.
Qed.
Lemma folds_sar : folds ShiftRightArithmetic32 (fn2 S32 S32 (fun a b => if (b <? 0) || (32 <=? b) then None else imm_u32 (wrap32 (Z.shiftr a b)))).
Proof.
  apply folds_S32. eapply folds_32; [done|reflexivity|]. cbn beta. intros a b e _ Hb. destruct (Z.leb_spec 32 b); [done|]. rewrite (s32_small b) by lia.
  rewrite (proj2 (Z.ltb_ge b 0)), (proj2 (Z.leb_gt 32 b)) by lia. cbn [orb]. rewrite Z.shiftr_div_pow2 by lia. same_value.
Qed.
Lemma folds_neg : folds FPNeg32 (fn1 F32 (fun a => Some (ImmF32 (Z.lxor a (2 ^ 31))))).
Proof. eapply fn1_folds; [apply reads_F32|done|reflexivity|]. same_value. Qed.
Lemma folds_reverse : folds BitReverse32 (fn1 U32 (fun a => imm_u32 (bit_reverse 32 a 0))).
Proof.
  eapply folds_one; [done|reflexivity|]. cbn beta. intros a e _. rewrite bit_reverse_spec; [|lia|by split]. change (0 * 2 ^ Z.of_nat 32) with 0.
  rewrite Z.add_0_l. change (Z.of_nat 32) with 32. generalize (reversed_bits 32 32 a). intros r [= <-]. by exists (ImmU32 r).
Qed.
Lemma folds_count32 : folds BitCount32 (fn1 U32 (fun a => imm_u32 (popcount 32 a))).
Proof. eapply folds_one; [done|reflexivity|]. cbn beta. intros a e _. rewrite popcount_spec. generalize (count_bits 32 a). intros r [= <-]. by exists (ImmU32 r). Qed.
Lemma folds_count64 : folds BitCount64 (fn1 U64 (fun a => imm_u32 (popcount 64 a))).
Proof. eapply fn1_folds; [apply reads_U64|done|reflexivity|]. cbn beta. intros d a e _. rewrite popcount_spec. generalize (count_bits 64 a). intros r [= <-] _. by exists (ImmU32 r). Qed.

Lemma folds_uextract : folds BitFieldUExtract (fn3 U32 U32 U32 extract_unsigned).
Proof.
  eapply fn3_folds; [done|reflexivity|]. cbn beta. intros b o n e Hb Ho Hn He Hf. destruct (Z.ltb_spec 32 (o + n)); [done|]. cbn -[U32_MAX] in Hf.
  rewrite !decide_True in Hf by done. destruct Hf as [H1 H2]. rewrite extract_unsigned_spec by (try done; try lia; congruence). revert He. same_value.
Qed.
Lemma folds_sextract : folds BitFieldSExtract (fn3 U32 U32 U32 extract_signed).
Proof.
  eapply fn3_folds; [done|reflexivity|]. cbn beta. intros b o n e Hb Ho Hn He Hf. destruct (Z.ltb_spec 32 (o + n)); [done|]. cbn -[U32_MAX] in Hf.
  rewrite !decide_True in Hf by done. assert (n <> 0) by congruence. rewrite extract_signed_spec by (try done; lia). revert He. same_value.
Qed.
Lemma folds_insert : folds BitFieldInsert (fn4 U32 U32 U32 U32 insert_field).
Proof.
  eapply fn4_folds; [done|reflexivity|]. cbn beta. intros b i o n e Hb Hi Ho Hn He Hf. destruct (Z.ltb_spec 32 (o + n)); [done|]. cbn -[U32_MAX] in Hf.
  rewrite !decide_True in Hf by done. destruct Hf as (? & ? & ?). rewrite insert_field_spec by (try done; lia). revert He. same_value.
Qed.

(** ** Conversions there and back *)

Lemma undoes_conv g : is_conv g = true -> undoes (opposite g) g.
Proof.
  intros Hg d e r Hs Hf Hf' Hr. assert (Hg' : is_conv (opposite g) = true /\ conv g d = Some e /\ conv (opposite g) e = Some r /\
    (present g /\ (present (opposite g) -> exact conv g d)) /\ present (opposite g)) by
    (destruct g; try discriminate Hg; (split; [done|]; split; [exact Hs|]; split; [exact Hr|]; split; [exact (Hf eq_refl)|exact (proj1 (Hf' eq_refl))])).
  destruct Hg' as (_ & H1 & H2 & [_ H3] & H4). specialize (H3 H4 e H1). congruence.
Qed.
Lemma undoes_bits : undoes BitCastF32U32 BitCastU32F32 /\ undoes BitCastU32F32 BitCastF32U32.
Proof.
  split; intros d e r Hs _ _ Hr; cbn in Hs, Hr.
  - destruct (f32_of d) as [a|] eqn:Ea; [|done]. injection Hs as <-. apply f32_of_Some in Ea as [-> Ha]. cbn in Hr. rewrite decide_True in Hr by done. by injection Hr as <-.
  - destruct (u32_of d) as [a|] eqn:Ea; [|done]. injection Hs as <-. apply u32_of_Some in Ea as [-> Ha]. cbn in Hr. rewrite decide_True in Hr by done. by injection Hr as <-.
Qed.
(** The halves of a 64-bit value. *)
Lemma halves lo hi : 0 <= lo <= U32_MAX -> 0 <= hi <= U32_MAX ->
  (lo + hi * 2 ^ 32) mod 2 ^ 32 = lo /\ (lo + hi * 2 ^ 32) / 2 ^ 32 = hi.
Proof.
  unfold U32_MAX. change (2 ^ 32) with 4294967296. intros ??. rewrite Z_mod_plus_full, Z.mod_small, Z.div_add, Z.div_small by lia. lia.
Qed.
Lemma two_words (l : list Value) (f : Z -> Z -> Dyn) e : sem2 u32_of u32_of (fun a b => Some (f a b)) (Scalar <$> l) = Some e ->
  exists lo hi, l = [ImmU32 lo; ImmU32 hi] /\ 0 <= lo <= U32_MAX /\ 0 <= hi <= U32_MAX /\ e = f lo hi.
Proof.
  destruct l as [|a [|b []]]; try done. intros H. cbn [fmap list_fmap sem2] in H. destruct (u32_of (Scalar a)) as [lo|] eqn:Ea; [|done].
  destruct (u32_of (Scalar b)) as [hi|] eqn:Eb; [|done]. cbn [mbind option_bind] in H. injection H as <-. apply u32_of_Some in Ea as [[= ->] ?], Eb as [[= ->] ?].
  by exists lo, hi.
Qed.
Lemma u64_of_words lo hi : 0 <= lo <= U32_MAX -> 0 <= hi <= U32_MAX -> 0 <= lo + hi * 2 ^ 32 <= U64_MAX.
Proof. unfold U32_MAX, U64_MAX. change (2 ^ 32) with 4294967296. lia. Qed.
Lemma undoes_words : undoes UnpackUint2x32 PackUint2x32 /\ undoes UnpackDouble2x32 PackDouble2x32.
Proof.
  split; intros d e r Hs _ _ Hr; cbn [IrSemantics.sem] in Hs, Hr; unfold sem1 in Hs; destruct (vector_of d) as [l|] eqn:El; try done; cbn [mbind option_bind] in Hs;
    apply two_words in Hs as (lo & hi & -> & Hlo & Hhi & ->); pose proof (u64_of_words lo hi Hlo Hhi); destruct (halves lo hi Hlo Hhi) as [E1 E2].
  - unfold sem1, u64_of, DU64 in Hr. rewrite decide_True in Hr by done. cbn [mbind option_bind] in Hr. rewrite E1, E2 in Hr. injection Hr as <-.
    destruct d; [done|]. cbn in El. congruence.
  - unfold sem1, f64_of, DF64 in Hr. rewrite decide_True in Hr by done. cbn [mbind option_bind] in Hr. rewrite E1, E2 in Hr. injection Hr as <-.
    destruct d; [done|]. cbn in El. congruence.
Qed.

(** ** One instruction *)

(** A fold of known operands, when the function is that of the opcode. *)
Lemma fold_case p rho rank x inst o func : running p rho rank -> insts p !! x = Some inst -> op inst = o -> pure o = true -> o <> Identity ->
  folds o func -> steps p rho (FoldWhenAllImmediates x func p).
Proof. intros Hr Hx <- Hp Hi Hf. by eapply FoldWhenAllImmediates_steps. Qed.
Lemma inverse_case p rho rank x inst o : running p rho rank -> insts p !! x = Some inst -> op inst = o -> is_conv o = true ->
  steps p rho (FoldInverseFunc x (opposite o) p).
Proof.
  intros Hr Hx <- Hc. assert (H : is_conv (opposite (op inst)) = true /\ opposite (opposite (op inst)) = op inst /\
    (forall o, is_conv o = true -> pure o = true /\ NumArgsOf o = 1 /\ o <> Identity)).
  { split; [|split; [|intros o]]; destruct (op inst) eqn:?; try done; by destruct o. }
  destruct H as (Hc' & Ho & Hall). destruct (Hall _ Hc) as (? & ? & ?), (Hall _ Hc') as (? & ? & ?).
  eapply FoldInverseFunc_steps; try done. rewrite <- Ho at 1. by apply undoes_conv.
Qed.

Lemma reads_range : (forall d a, u64_of d = Some a -> 0 <= a <= U64_MAX) /\ (forall d a, f64_of d = Some a -> 0 <= a <= U64_MAX).
Proof. split; intros d a H; [by apply u64_of_Some in H as [_ ?]|by apply f64_of_Some in H as [_ ?]]. Qed.
Lemma select_values : (forall d a, u1_of d = Some a -> d = Scalar (ImmU1 a)) /\ (forall d a, u32_of d = Some a -> d = Scalar (ImmU32 a)) /\
  (forall d a, f32_of d = Some a -> d = Scalar (ImmF32 a)).
Proof.
  split; [|split]; intros d a H; [by apply u1_of_Some in H|by apply u32_of_Some in H as [? _]|by apply f32_of_Some in H as [? _]].
Qed.

(** The cases of the switch, by the fold that they call. *)
Ltac known_fold :=
  lazymatch goal with
  | |- folds UDiv32 _ => exact folds_UDiv32
  | |- folds UMod32 _ => exact folds_UMod32
  | |- folds ConvertF32U32 _ => exact folds_ConvertF32U32
  | |- folds ShiftLeftLogical32 _ => exact folds_shl
  | |- folds ShiftRightLogical32 _ => exact folds_shr
  | |- folds ShiftRightArithmetic32 _ => exact folds_sar
  | |- folds FPNeg32 _ => exact folds_neg
  | |- folds BitReverse32 _ => exact folds_reverse
  | |- folds BitCount32 _ => exact folds_count32
  | |- folds BitCount64 _ => exact folds_count64
  | |- folds BitFieldUExtract _ => exact folds_uextract
  | |- folds BitFieldSExtract _ => exact folds_sextract
  | |- folds BitFieldInsert _ => exact folds_insert
  | |- folds _ (fn2 S32 _ _) => apply folds_S32; eapply folds_32; [reflexivity|reflexivity|same_value]
  | |- folds _ (fn2 S64 _ _) => apply folds_S64; eapply folds_64; [reflexivity|reflexivity|same_value]
  | |- folds _ (fn2 U64 _ _) => eapply folds_64; [reflexivity|reflexivity|same_value]
  | |- folds _ (fn2 U32 _ _) => eapply folds_32; [reflexivity|reflexivity|same_value]
  | |- folds _ (fn1 U32 _) => eapply folds_one; [reflexivity|reflexivity|same_value]
  end.
Ltac fold_step Hr Hx Ho :=
  lazymatch goal with
  | |- steps _ _ (Some _) => exact (steps_refl conv present _ _ _ Hr)
  | |- steps _ _ (FoldInverseFunc _ _ _) => exact (inverse_case _ _ _ _ _ _ Hr Hx Ho eq_refl)
  | |- steps _ _ (FoldWhenAllImmediates _ _ _) => eapply (fold_case _ _ _ _ _ _ _ Hr Hx Ho eq_refl); [discriminate|known_fold]
  | |- steps _ _ (FoldCompositeExtract _ _ _ _) => idtac
  | |- steps _ _ (FoldSelect _ _) => idtac
  | _ => idtac
  end.

Lemma ConstantPropagation_steps p rho rank b x inst : running p rho rank -> insts p !! x = Some inst -> steps p rho (ConstantPropagation b x p).
Proof.
  intros Hr Hx. unfold ConstantPropagation. rewrite Hx. cbn [mbind option_bind]. destruct (op inst) eqn:Ho; fold_step Hr Hx Ho.
  - by eapply FoldDiscardCond_steps.
  - by eapply FoldCompositeExtract_steps; [apply vectors_U32x2|..].
  - by eapply FoldCompositeExtract_steps; [apply vectors_U32x3|..].
  - by eapply FoldCompositeExtract_steps; [apply vectors_U32x4|..].
  - by eapply FoldCompositeExtract_steps; [apply vectors_F32x2|..].
  - by eapply FoldCompositeExtract_steps; [apply vectors_F32x3|..].
  - by eapply FoldCompositeExtract_steps; [apply vectors_F32x4|..].
  - eapply (FoldSelect_steps _ _ _ _ _ _ inst u1_of ImmU1); [done|done|by rewrite Ho|by rewrite Ho|by rewrite Ho|apply select_values|by rewrite Ho].
  - eapply (FoldSelect_steps _ _ _ _ _ _ inst u32_of ImmU32); [done|done|by rewrite Ho|by rewrite Ho|by rewrite Ho|apply select_values|by rewrite Ho].
  - eapply (FoldSelect_steps _ _ _ _ _ _ inst f32_of ImmF32); [done|done|by rewrite Ho|by rewrite Ho|by rewrite Ho|apply select_values|by rewrite Ho].
  - eapply (FoldBitCast_steps _ _ _ _ _ _ inst _ F32 f32_of ImmU32); rewrite ?Ho; try done; [apply undoes_bits|apply reads_F32].
  - eapply (FoldBitCast_steps _ _ _ _ _ _ inst _ U32 u32_of ImmF32); rewrite ?Ho; try done; [apply undoes_bits|apply reads_U32].
  - eapply (FoldUnpack32x2_steps _ _ _ _ _ _ _ inst _ u64_of); rewrite ?Ho; try done; [apply undoes_words|apply reads_U64|apply reads_range].
  - eapply (FoldUnpack32x2_steps _ _ _ _ _ _ _ inst _ f64_of); rewrite ?Ho; try done; [apply undoes_words|apply reads_F64|apply reads_range].
  - by eapply FoldCmpClass_steps.
  - by eapply FoldAdd32_steps.
  - by eapply FoldMul32_steps.
  - rewrite (FoldPackedAncillary_spec conv present p rho rank b x inst Hr Hx Ho). cbn [mbind option_bind].
    eapply (fold_case _ _ _ _ _ _ _ Hr Hx Ho eq_refl); [discriminate|exact folds_uextract].
  - by eapply FoldLogicalOr_steps.
  - by eapply FoldLogicalAnd_steps.
  - by eapply FoldLogicalNot_steps.
Qed.

(** ** The pass *)

Lemma keeps_block p rho p' rho' b y : keeps p rho p' rho' -> y ∈ default [] (blocks p !! b) -> y ∈ default [] (blocks p' !! b).
Proof. intros Hk Hy. rewrite <- (kp_order _ _ _ _ Hk b) in Hy. apply list_elem_of_In in Hy. apply List.filter_In in Hy as [Hy _]. by apply list_elem_of_In. Qed.

Lemma block_inst p b y : sound p -> y ∈ default [] (blocks p !! b) -> exists inst, insts p !! y = Some inst.
Proof.
  intros Hs Hy. destruct (blocks p !! b) as [l|] eqn:Hl; [|by apply elem_of_nil in Hy]. destruct (so_blocks p Hs b l Hl) as [_ H].
  destruct (H y Hy) as [s Hsy]. apply shapes_inv in Hsy as (inst & Hi & _). by exists inst.
Qed.

Lemma propagate_steps b l : forall p rho rank, running p rho rank -> (forall y, y ∈ l -> y ∈ default [] (blocks p !! b)) -> steps p rho (propagate b l p).
Proof.
  induction l as [|y l IH]; intros p rho rank Hr Hl; [by eapply steps_refl|]. cbn [propagate].
  destruct (block_inst p b y (wf_sound p (rn_wf _ _ _ _ _ Hr)) ltac:(apply Hl; by left)) as [inst Hy].
  destruct (ConstantPropagation_steps p rho rank b y inst Hr Hy) as (p1 & rho1 & rank1 & -> & Hr1 & Hk1). cbn [mbind option_bind].
  eapply steps_trans; [done|]. eapply IH; [done|]. intros z Hz. eapply keeps_block; [done|]. apply Hl. by right.
Qed.
Lemma propagate_blocks_steps l : forall p rho rank, running p rho rank -> (forall b, b ∈ l -> is_Some (blocks p !! b)) -> steps p rho (propagate_blocks l p).
Proof.
  induction l as [|b l IH]; intros p rho rank Hr Hl; [by eapply steps_refl|]. cbn [propagate_blocks].
  destruct (Hl b ltac:(by left)) as [instructions Hb]. rewrite Hb. cbn [mbind option_bind].
  destruct (propagate_steps b instructions p rho rank Hr) as (p1 & rho1 & rank1 & -> & Hr1 & Hk1); [by rewrite Hb|]. cbn [mbind option_bind].
  eapply steps_trans; [done|]. eapply IH; [done|]. intros b' Hb'. apply (kp_blocks _ _ _ _ Hk1). apply Hl. by right.
Qed.
Lemma ConstantPropagationPass_steps program p rho rank : running p rho rank -> (forall b, b ∈ program -> is_Some (blocks p !! b)) ->
  steps p rho (ConstantPropagationPass program p).
Proof. intros Hr Hb. eapply propagate_blocks_steps; [done|]. intros b Hin. apply Hb. by rewrite elem_of_reverse in Hin. Qed.
End Propagation.
