(* ===== verification/CleanupPasses.v ===== *)
(** * Removing identities and dead code

    [IdentityRemovalPass] and [DeadCodeEliminationPass] of src/src/shader_recompiler/ir/passes
    (identity_removal_pass.cpp, dead_code_elimination_pass.cpp): the first makes every operand the
    instruction behind the identities and removes them, the second removes what has neither uses nor
    side effects. *)
From Stdlib Require Import ZArith Lia.
From stdpp Require Import base functions gmap list strings.
From S2P Require Import Prelude.
From S2P Require Import IrOpcodes ShaderIr IrSemantics FoldSteps Propagation.

(** * The passes *)

(** [list::erase] *)
Definition erase_inst (block i : Z) (p : Ir) : Ir := p <| blocks ::= alter (List.filter (fun j => negb (j =? i))) block |>.

(** The loop of one operand: each turn follows one identity, with fuel for all instructions. *)
Fixpoint unwrap_arg (fuel : nat) (i k : Z) (p : Ir) : option Ir :=
  inst ← insts p !! i;
  arg ← Arg inst k;
  identity ← IsIdentity p arg;
  if negb identity then Some p else
  match fuel with
  | O => None
  | S n =>
      j ← match arg with VInst j => Some j | _ => None end;
      arg_inst ← insts p !! j;
      value ← Arg arg_inst 0;
      p ← SetArg i k value p;
      unwrap_arg n i k p
  end.
(** The operands from [k] on, [count] of them. *)
Fixpoint unwrap_args (i k : Z) (count : nat) (p : Ir) : option Ir :=
  match count with
  | O => Some p
  | S n => p ← unwrap_arg (size (insts p)) i k p; unwrap_args i (k + 1) n p
  end.

Fixpoint remove_identities (block : Z) (l : list Z) (to_invalidate : list Z) (p : Ir) : option (list Z * Ir) :=
  match l with
  | [] => Some (to_invalidate, p)
  | i :: r =>
      inst ← insts p !! i;
      let num_args := NumArgs inst in
      p ← unwrap_args i 0 (Z.to_nat num_args) p;
      if decide (op inst = Identity \/ op inst = Void)
      then remove_identities block r (to_invalidate ++ [i]) (erase_inst block i p)
      else remove_identities block r to_invalidate p
  end.
Fixpoint remove_identities_of (program : list Z) (to_invalidate : list Z) (p : Ir) : option (list Z * Ir) :=
  match program with
  | [] => Some (to_invalidate, p)
  | block :: r =>
      instructions ← blocks p !! block;
      '(to_invalidate, p) ← remove_identities block instructions to_invalidate p;
      remove_identities_of r to_invalidate p
  end.
Fixpoint invalidate_all (l : list Z) (p : Ir) : option Ir :=
  match l with [] => Some p | i :: r => p ← Invalidate i p; invalidate_all r p end.
Definition IdentityRemovalPass (program : list Z) (p : Ir) : option Ir :=
  '(to_invalidate, p) ← remove_identities_of program [] p; invalidate_all to_invalidate p.

Definition HasUses (inst : Inst) : bool := match uses inst with [] => false | _ => true end.

(** The instructions of a block from the last to the first. *)
Fixpoint eliminate (block : Z) (l : list Z) (p : Ir) : option Ir :=
  match l with
  | [] => Some p
  | i :: r =>
      inst ← insts p !! i;
      if negb (HasUses inst) && negb (MayHaveSideEffects inst)
      then p ← Invalidate i p; eliminate block r (erase_inst block i p)
      else eliminate block r p
  end.
Fixpoint DeadCodeEliminationPass (post_order_blocks : list Z) (p : Ir) : option Ir :=
  match post_order_blocks with
  | [] => Some p
  | block :: r =>
      instructions ← blocks p !! block;
      p ← eliminate block (reverse instructions) p;
      DeadCodeEliminationPass r p
  end.

(** * Dead code *)

Section Passes.
Context (conv : Opcode -> Dyn -> option Dyn) (present : Opcode -> Prop).
Abbreviation running := (IrSemantics.running conv present).

(** No instruction is an identity. *)
Definition no_identity (p : Ir) : Prop := forall j, op_of p j <> Some Identity.
(** The events that can be observed. *)
Definition side_effect (e : event) : bool := MayHaveSideEffects (mkInst (snd (fst (fst e))) 0 [] [] []).
Definition effects (p : Ir) (rho : Z -> Dyn) (b : Z) : list event := List.filter side_effect (trace p rho b).

(** [p'] is [p] without some instructions that had no side effects. *)
Record prunes (rho : Z -> Dyn) (p p' : Ir) : Prop := {
  pn_shapes : forall i, shapes p' !! i = shapes p !! i \/
    exists s, shapes p !! i = Some s /\ shapes p' !! i = Some (void_inst s) /\ MayHaveSideEffects s = false;
  pn_effects : forall b, effects p' rho b = effects p rho b;
  pn_blocks : forall b, is_Some (blocks p' !! b) <-> is_Some (blocks p !! b);
  pn_sub : forall b, default [] (blocks p' !! b) `sublist_of` default [] (blocks p !! b);
}.
Lemma prunes_refl rho p : prunes rho p p.
Proof. constructor; [intros i; by left|done|done|intros b; reflexivity]. Qed.
Lemma prunes_trans rho p q r : prunes rho p q -> prunes rho q r -> prunes rho p r.
Proof.
  intros [A1 A2 A3 A4] [B1 B2 B3 B4]. constructor.
  - intros i. destruct (B1 i) as [E|(s & Hs & Hv & Hm)]; destruct (A1 i) as [E'|(s' & Hs' & Hv' & Hm')].
    + left. congruence.
    + right. exists s'. split; [done|]. split; [congruence|done].
    + right. exists s. split; [congruence|]. done.
    + right. exists s'. split; [done|]. rewrite Hs in Hv'. injection Hv' as ->. done.
  - intros b. by rewrite B2.
  - intros b. by rewrite B3.
  - intros b. etrans; [apply B4|apply A4].
Qed.
Lemma prunes_refers rho p p' a c j : prunes rho p p' -> refers p' a c j -> refers p a c j.
Proof.
  intros [H _ _ _] (s & Hs & Hk & Ha). destruct (H a) as [E|(s' & _ & Hv & _)]; [exists s; by rewrite <- E|].
  rewrite Hv in Hs. injection Hs as <-. by apply void_inst_args in Ha.
Qed.
Lemma prunes_live rho p p' j : prunes rho p p' -> live_at p' j -> live_at p j /\ shapes p' !! j = shapes p !! j.
Proof.
  intros [H _ _ _] (o & Ho & Hl). rewrite op_shapes in Ho. destruct (H j) as [E|(s & _ & Hv & _)].
  - split; [|done]. exists o. by rewrite op_shapes, <- E.
  - rewrite Hv in Ho. injection Ho as <-. by destruct Hl.
Qed.

(** Erasing an instruction from a block. *)
Lemma erase_sound b i p : sound p -> sound (erase_inst b i p).
Proof.
  intros [H1 H2 H3 H4 H5]. constructor; [exact H1|exact H2|exact H3| |exact H5]. intros b' l.
  change (blocks (erase_inst b i p)) with (alter (List.filter (fun j => negb (j =? i))) b (blocks p)). intros Hl.
  destruct (decide (b' = b)) as [->|]; [|rewrite lookup_alter_ne in Hl by done; by apply (H4 b')]. rewrite lookup_alter_eq in Hl.
  destruct (blocks p !! b) as [l0|] eqn:Hl0; [|done]. injection Hl as <-. destruct (H4 b l0 Hl0) as [Hnd Hin]. split.
  - apply NoDup_ListNoDup, List.NoDup_filter, NoDup_ListNoDup, Hnd.
  - intros j Hj. apply filter_removed in Hj as [Hj _]. by apply Hin.
Qed.
Lemma erase_running b i p rho rank : running p rho rank -> running (erase_inst b i p) rho rank.
Proof. intros [[Hs Hu] Hr Hrun]. constructor; [constructor; [by apply erase_sound|exact Hu]|exact Hr|exact Hrun]. Qed.
Lemma erase_block b i p b' : default [] (blocks (erase_inst b i p) !! b') =
  if decide (b' = b) then List.filter (fun j => negb (j =? i)) (default [] (blocks p !! b)) else default [] (blocks p !! b').
Proof.
  change (blocks (erase_inst b i p)) with (alter (List.filter (fun j => negb (j =? i))) b (blocks p)).
  case_decide as E; [subst; rewrite lookup_alter_eq; by destruct (blocks p !! b)|by rewrite lookup_alter_ne].
Qed.
Lemma filter_sublist {A} (f : A -> bool) l : List.filter f l `sublist_of` l.
Proof. induction l as [|x l IH]; [done|]. cbn. destruct (f x); by constructor. Qed.

Lemma event_side_effect rho i s e : event_of rho i s = Some e -> MayHaveSideEffects s = false -> side_effect e = false.
Proof.
  intros He Hm. assert (Hd : op s <> DiscardCond) by (intros E; unfold MayHaveSideEffects in Hm; by rewrite E in Hm).
  unfold event_of in He. destruct (pure (op s)); [done|]. unfold side_effect. revert Hm. unfold MayHaveSideEffects.
  destruct (op s) eqn:Eo; try done; intros Hm; (destruct (dyns rho s) as [|d []]; injection He as <-; exact Hm).
Qed.

(** Events that nobody sees may go. *)
Lemma effects_without (f f' : Z -> option event) i l : (forall j, j <> i -> f' j = f j) -> f' i = None -> (forall e, f i = Some e -> side_effect e = false) ->
  List.filter side_effect (omap f' l) = List.filter side_effect (omap f l) /\
  List.filter side_effect (omap f' (List.filter (fun j => negb (j =? i)) l)) = List.filter side_effect (omap f l).
Proof.
  intros Hf Hi He. induction l as [|x l [IH1 IH2]]; [done|]. cbn [omap list_omap List.filter]. destruct (Z.eqb_spec x i) as [->|Hne]; cbn [negb omap list_omap].
  - rewrite Hi, IH1, IH2. destruct (f i) as [e|] eqn:E; [|done]. cbn. by rewrite (He e eq_refl).
  - rewrite (Hf x Hne). destruct (f x) as [e|]; [|by rewrite IH1, IH2]. cbn. by rewrite IH1, IH2.
Qed.

(** An instruction that nothing refers to goes. *)
Lemma eliminate_one p rho rank b i inst : running p rho rank -> insts p !! i = Some inst -> MayHaveSideEffects inst = false -> (forall a c, ~ refers p a c i) ->
  exists p', Invalidate i p = Some p' /\ running (erase_inst b i p') rho rank /\ prunes rho p (erase_inst b i p').
Proof.
  intros [Hwf Hrk Hrun] Hi Hm Hno. destruct (Invalidate_voids p rank i Hwf Hrk ltac:(by rewrite Hi) Hno) as (p' & -> & Hwf' & Hv). pose proof Hv as (Hs & Hn & Hb).
  exists p'. split; [done|]. split.
  - apply erase_running. constructor; [done|by eapply voids_rank|]. intros j s. rewrite Hs. destruct (decide (j = i)) as [->|]; [|rewrite lookup_alter_ne by done; apply Hrun].
    rewrite lookup_alter_eq, (shapes_Some _ _ _ Hi). intros [= <-]. apply void_run.
  - assert (Hsh : forall j, shapes (erase_inst b i p') !! j = if decide (j = i) then Some (void_inst inst) else shapes p !! j).
    { intros j. change (shapes (erase_inst b i p')) with (shapes p'). rewrite Hs. case_decide as E; [subst; rewrite lookup_alter_eq, (shapes_Some _ _ _ Hi); done|by rewrite lookup_alter_ne]. }
    constructor.
    + intros j. rewrite Hsh. case_decide as E; [right; subst; exists (shape inst); split; [by apply shapes_Some|done]|by left].
    + intros b'. unfold effects, trace. rewrite erase_block, Hb.
      destruct (effects_without (fun j => inst ← shapes p !! j; event_of rho j inst) (fun j => inst ← shapes (erase_inst b i p') !! j; event_of rho j inst) i (default [] (blocks p !! b'))) as [E1 E2].
      * intros j Hj. rewrite Hsh. by rewrite decide_False.
      * rewrite Hsh, decide_True by done. done.
      * intros e. rewrite (shapes_Some _ _ _ Hi). cbn [mbind option_bind]. intros He. by eapply event_side_effect.
      * case_decide as E; [subst; exact E2|exact E1].
    + intros b'. change (blocks (erase_inst b i p')) with (alter (List.filter (fun j => negb (j =? i))) b (blocks p')). by rewrite Hb, lookup_alter_is_Some.
    + intros b'. rewrite erase_block, Hb. case_decide as E; [subst; apply filter_sublist|done].
Qed.

Lemma prunes_no_identity rho p p' : prunes rho p p' -> no_identity p -> no_identity p'.
Proof.
  intros [H _ _ _] Hn j Hj. rewrite op_shapes in Hj. destruct (H j) as [E|(s & _ & Hv & _)]; [|by rewrite Hv in Hj].
  rewrite E, <- op_shapes in Hj. by apply (Hn j).
Qed.

(** What is kept has a side effect or was used. *)
Definition needed (p : Ir) (i : Z) : Prop := (exists s, shapes p !! i = Some s /\ MayHaveSideEffects s = true) \/ exists a c, refers p a c i.

Lemma eliminate_spec b l : forall p rho rank, running p rho rank -> no_identity p -> (forall i, i ∈ l -> is_Some (shapes p !! i)) ->
  exists p', eliminate b l p = Some p' /\ running p' rho rank /\ prunes rho p p' /\
    forall i, i ∈ l -> i ∈ default [] (blocks p' !! b) -> live_at p' i -> needed p i.
Proof.
  induction l as [|i l IH]; intros p rho rank Hr Hid Hl; cbn [eliminate].
  { exists p. split; [done|]. split; [done|]. split; [apply prunes_refl|]. by intros i ?%elem_of_nil. }
  destruct (Hl i ltac:(by left)) as [s Hs]. apply shapes_inv in Hs as (inst & Hi & ->). rewrite Hi. cbn [mbind option_bind].
  pose proof (rn_wf _ _ _ _ _ Hr) as Hwf. destruct (negb (HasUses inst) && negb (MayHaveSideEffects inst)) eqn:E.
  - apply andb_true_iff in E as [Eu%negb_true_iff Em%negb_true_iff].
    assert (Hno : forall a c, ~ refers p a c i).
    { intros a c Hac. destruct (so_good p (wf_sound p Hwf) a c i Hac) as (o & Ho & Hres). unfold op_of in Ho. rewrite Hi in Ho. injection Ho as <-.
      assert (Hlive : live_at p i) by (exists (op inst); unfold op_of; rewrite Hi; split; [done|]; split; [by apply result_not_void|]; intros E; apply (Hid i); unfold op_of; by rewrite Hi, <- E).
      apply (wf_uses p Hwf i Hlive) in Hac. unfold uses_of in Hac. rewrite Hi in Hac. unfold HasUses in Eu. destruct (uses inst); [by apply elem_of_nil in Hac|done]. }
    destruct (eliminate_one p rho rank b i inst Hr Hi Em Hno) as (p1 & -> & Hr1 & Hp1). cbn [mbind option_bind].
    destruct (IH (erase_inst b i p1) rho rank Hr1) as (p' & -> & Hr' & Hp' & Hneed); [by eapply prunes_no_identity| |].
    { intros j Hj. destruct (pn_shapes _ _ _ Hp1 j) as [->|(s & _ & -> & _)]; [apply Hl; by right|by eexists]. }
    exists p'. split; [done|]. split; [done|]. split; [by eapply prunes_trans|]. intros j [->|Hj]%elem_of_cons Hb Hlv.
    + exfalso. assert (Hb1 : i ∈ default [] (blocks (erase_inst b i p1) !! b)) by (eapply elem_of_sublist; [exact Hb|apply (pn_sub _ _ _ Hp' b)]).
      rewrite erase_block, decide_True in Hb1 by done. apply filter_removed in Hb1 as [_ ?]. done.
    + destruct (Hneed j Hj Hb Hlv) as [(s & Hs & Hm)|(a & c & Hac)]; [left; exists s|right; exists a, c; by eapply prunes_refers].
      destruct (prunes_live _ _ _ _ Hp' Hlv) as [Hlv1 _]. destruct (prunes_live _ _ _ _ Hp1 Hlv1) as [_ <-]. done.
  - destruct (IH p rho rank Hr Hid ltac:(intros j Hj; apply Hl; by right)) as (p' & -> & Hr' & Hp' & Hneed).
    exists p'. split; [done|]. split; [done|]. split; [done|]. intros j [->|Hj]%elem_of_cons Hb Hlv; [|by apply Hneed].
    apply andb_false_iff in E as [Eu%negb_false_iff|Em%negb_false_iff]; [right|left; exists (shape inst); split; [by apply shapes_Some|done]].
    destruct (prunes_live _ _ _ _ Hp' Hlv) as [Hlp _]. destruct (uses inst) as [|[a c] r] eqn:Euse; [unfold HasUses in Eu; by rewrite Euse in Eu|].
    exists a, c. apply (wf_uses p Hwf i Hlp). unfold uses_of. rewrite Hi, Euse. by left.
Qed.

Lemma DeadCodeEliminationPass_spec program : forall p rho rank, running p rho rank -> no_identity p -> (forall b, b ∈ program -> is_Some (blocks p !! b)) ->
  exists p', DeadCodeEliminationPass program p = Some p' /\ running p' rho rank /\ prunes rho p p' /\
    forall b i, b ∈ program -> i ∈ default [] (blocks p' !! b) -> live_at p' i -> needed p i.
Proof.
  induction program as [|b l IH]; intros p rho rank Hr Hid Hb; cbn [DeadCodeEliminationPass].
  { exists p. split; [done|]. split; [done|]. split; [apply prunes_refl|]. by intros b i ?%elem_of_nil. }
  destruct (Hb b ltac:(by left)) as [instructions Hi]. rewrite Hi. cbn [mbind option_bind].
  destruct (eliminate_spec b (reverse instructions) p rho rank Hr Hid) as (p1 & -> & Hr1 & Hp1 & Hn1).
  { intros i Hin. rewrite elem_of_reverse in Hin. by apply (proj2 (so_blocks p (wf_sound p (rn_wf _ _ _ _ _ Hr)) b _ Hi)). }
  cbn [mbind option_bind]. destruct (IH p1 rho rank Hr1) as (p' & -> & Hr' & Hp' & Hn').
  { by eapply prunes_no_identity. }
  { intros b' Hb'. apply (pn_blocks _ _ _ Hp1). apply Hb. by right. }
  exists p'. split; [done|]. split; [done|]. split; [by eapply prunes_trans|]. intros b' i Hb' Hi' Hlv.
  assert (Hin : i ∈ default [] (blocks p1 !! b')) by (eapply elem_of_sublist; [exact Hi'|apply (pn_sub _ _ _ Hp')]).
  destruct (prunes_live _ _ _ _ Hp' Hlv) as [Hlv1 _]. apply elem_of_cons in Hb' as [->|Hb'].
  - apply Hn1; [|done|done]. rewrite elem_of_reverse. assert (Hin0 : i ∈ default [] (blocks p !! b)) by (eapply elem_of_sublist; [exact Hin|apply (pn_sub _ _ _ Hp1)]).
    by rewrite Hi in Hin0.
  - destruct (Hn' b' i Hb' Hi' Hlv) as [(s & Hs & Hm)|(a & c & Hac)]; [left; exists s|right; exists a, c; by eapply prunes_refers].
    destruct (prunes_live _ _ _ _ Hp1 Hlv1) as [_ <-]. done.
Qed.

(** * Identities *)

(** ** An operand of the same value *)

Lemma dyns_put rho k v w s : inst_ok s -> 0 <= k < NumArgs s -> Arg s k = Some w -> eval rho v = eval rho w -> dyns rho (put_arg k v s) = dyns rho s.
Proof.
  intros Hok Hk Hw He. destruct (put_arg_spec k v s Hok Hk) as (_ & _ & Hn & Ha & Hok'). unfold dyns. apply list_eq. intros n. rewrite !list_lookup_fmap.
  destruct (decide (Z.of_nat n < NumArgs s)) as [Hlt|Hge].
  - destruct (Arg_in s (Z.of_nat n) Hok ltac:(lia)) as [x Hx].
    pose proof (values_Arg s (Z.of_nat n) x Hok ltac:(lia) Hx) as Hv. specialize (Ha (Z.of_nat n)). rewrite Hx in Ha.
    destruct (decide (Z.of_nat n = k)) as [Ek|]; pose proof (values_Arg (put_arg k v s) (Z.of_nat n) _ Hok' ltac:(lia) Ha) as Hv'; rewrite Nat2Z.id in Hv, Hv'; rewrite Hv, Hv'; cbn.
    + rewrite Ek, Hw in Hx. injection Hx as <-. by rewrite He.
    + done.
  - rewrite !(proj2 (lookup_ge_None _ _)); [done|rewrite values_length by done; lia|rewrite values_length, Hn by done; lia].
Qed.
Lemma const_fmap {A} (l l' : list A) : length l = length l' -> (fun _ => 0) <$> l = (fun _ => 0) <$> l'.
Proof. revert l'. induction l as [|x l IH]; intros [|y l'] H; try done. cbn. f_equal. apply IH. by injection H. Qed.
Lemma phi_blocks_put k v s : inst_ok s -> 0 <= k < NumArgs s -> phi_blocks (put_arg k v s) = phi_blocks s.
Proof.
  intros Hok Hk. destruct (put_arg_spec k v s Hok Hk) as (Ho & _ & Hn & _ & Hok'). unfold phi_blocks. rewrite Ho. case_decide as E.
  - unfold put_arg. rewrite decide_True by done. cbn. apply list_eq. intros n. rewrite !list_lookup_fmap. destruct (decide (n = Z.to_nat k)) as [->|].
    + rewrite list_lookup_alter_eq. by destruct (phi_args s !! Z.to_nat k).
    + by rewrite list_lookup_alter_ne.
  - apply const_fmap. rewrite !values_length by done. by rewrite Hn.
Qed.
Lemma event_put rho i k v w s : inst_ok s -> 0 <= k < NumArgs s -> Arg s k = Some w -> eval rho v = eval rho w -> event_of rho i (put_arg k v s) = event_of rho i s.
Proof.
  intros Hok Hk Hw He. destruct (put_arg_spec k v s Hok Hk) as (Ho & Hf & _). unfold event_of.
  by rewrite (dyns_put rho k v w s Hok Hk Hw He), (phi_blocks_put k v s Hok Hk), Ho, Hf.
Qed.

(** [p'] is [p] with other operands, of the same values, for [i]. *)
Record rewired (rho : Z -> Dyn) (p p' : Ir) (i : Z) : Prop := {
  rw_others : forall a, a <> i -> shapes p' !! a = shapes p !! a;
  rw_op : forall a, op_of p' a = op_of p a;
  rw_num : NumArgs <$> shapes p' !! i = NumArgs <$> shapes p !! i;
  rw_blocks : blocks p' = blocks p;
  rw_trace : forall b, trace p' rho b = trace p rho b;
}.
Lemma rewired_refl rho p i : rewired rho p p i.
Proof. by constructor. Qed.
Lemma rewired_trans rho p q r i : rewired rho p q i -> rewired rho q r i -> rewired rho p r i.
Proof.
  intros [A1 A2 A3 A4 A5] [B1 B2 B3 B4 B5]. constructor; [intros a Ha; by rewrite B1, A1|intros a; by rewrite B2|congruence|congruence|intros b; by rewrite B5].
Qed.

Lemma SetArg_same p rho rank i k v j inst : running p rho rank -> insts p !! i = Some inst -> 0 <= k < NumArgs inst -> Arg inst k = Some (VInst j) ->
  eval rho v = rho j -> good p v -> (op inst <> Phi -> forall j', v = VInst j' -> (rank j' < rank i)%nat) ->
  exists p' inst', SetArg i k v p = Some p' /\ running p' rho rank /\ rewired rho p p' i /\ insts p' !! i = Some inst' /\ op inst' = op inst /\
    NumArgs inst' = NumArgs inst /\ forall c, Arg inst' c = if decide (c = k) then Some v else Arg inst c.
Proof.
  intros Hr Hi Hk Ha He Hg Hb. pose proof Hr as [Hwf Hrk Hrun]. destruct (SetArg_spec p rank i k v inst Hwf Hrk Hi Hk Hg) as (p' & -> & Hwf' & Hput).
  destruct (shape_ok p i inst (wf_sound p Hwf) Hi) as [_ Hok]. pose proof Hput as (Hs & Hn & Hbl).
  destruct (put_arg_spec k v (shape inst) Hok Hk) as (Eo & Ef & En & Earg & Hok').
  assert (Hrk' : rank_ok p' rank) by (eapply puts_rank; [done|apply Hwf|done|done|done|done]).
  assert (Hsh : shapes p' = <[i := put_arg k v (shape inst)]> (shapes p)).
  { rewrite Hs. apply map_eq. intros a. destruct (decide (a = i)) as [->|]; [by rewrite lookup_alter_eq, lookup_insert_eq, (shapes_Some _ _ _ Hi)|by rewrite lookup_alter_ne, lookup_insert_ne]. }
  pose proof (dyns_put rho k v (VInst j) (shape inst) Hok Hk Ha He) as Hd. destruct (Hrun i _ (shapes_Some _ _ _ Hi)) as [Hsem Hfa [Hw1 Hw2]].
  destruct (update_step conv present p p' rho rank i (shape inst) (put_arg k v (shape inst))) as [Hr' Hke]; try done.
  { by apply shapes_Some. }
  { constructor; rewrite ?Hd, ?Eo; [done|done|]. split; rewrite Eo; intros E.
    - destruct (Hw1 E) as (x & Hx & Hix). exists x. split; [|done]. rewrite Earg. case_decide as Ec; [|done]. rewrite Ec in Hx. rewrite Arg_shape, Ha in Hx. by injection Hx as <-.
    - destruct (Hw2 E) as (x & Hx & Hix). exists x. split; [|done]. rewrite Earg. case_decide as Ec; [|done]. rewrite Ec in Hx. by rewrite Arg_shape, Ha in Hx. }
  { by eapply event_put. }
  destruct (shapes_inv p' i (put_arg k v (shape inst))) as (inst' & Hi' & E'); [by rewrite Hsh, lookup_insert_eq|]. exists p', inst'.
  split; [done|]. split; [done|]. split; [|split; [done|]].
  - constructor; [intros a Hne; by rewrite Hsh, lookup_insert_ne|intros a; apply (puts_op _ _ _ _ _ Hput)| |done|apply (kp_trace _ _ _ _ Hke)].
    rewrite Hsh, lookup_insert_eq, (shapes_Some _ _ _ Hi). cbn. by rewrite En.
  - change (op inst') with (op (shape inst')). change (NumArgs inst') with (NumArgs (shape inst')). rewrite <- E', Eo, En. split; [done|]. split; [done|].
    intros c. change (Arg inst' c) with (Arg (shape inst') c). rewrite <- E', Earg. done.
Qed.

(** ** Following the identities of the operands *)

Lemma same_under p p' rank n : (forall a, op_of p' a = op_of p a) -> under p' rank n = under p rank n.
Proof.
  intros Ho. unfold under. f_equal. apply leibniz_equiv. intros a. rewrite !elem_of_dom. specialize (Ho a). unfold op_of in Ho.
  destruct (insts p' !! a), (insts p !! a); try done; split; intros [? ?]; by eexists.
Qed.

(** The operand [k] of [i] is not an identity. *)
Definition direct (p : Ir) (i k : Z) : Prop := forall j, refers p i k j -> op_of p j <> Some Identity.

Lemma unwrap_arg_spec i k fuel : forall p rho rank inst, running p rho rank -> insts p !! i = Some inst -> 0 <= k < NumArgs inst ->
  (forall j, Arg inst k = Some (VInst j) -> (size (under p rank (S (rank j))) <= fuel)%nat) ->
  exists p' inst', unwrap_arg fuel i k p = Some p' /\ running p' rho rank /\ rewired rho p p' i /\ insts p' !! i = Some inst' /\
    (forall c, c <> k -> Arg inst' c = Arg inst c) /\ direct p' i k.
Proof.
  induction fuel as [|fuel IH]; intros p rho rank inst Hr Hi Hk Hfuel; pose proof Hr as [Hwf Hrk Hrun];
    destruct (Arg_in inst k (proj1 (shape_ok p i inst (wf_sound p Hwf) Hi)) Hk) as [w Hw].
  all: assert (Hstop : (forall j, w = VInst j -> op_of p j <> Some Identity) -> exists p' inst', Some p = Some p' /\ running p' rho rank /\ rewired rho p p' i /\
    insts p' !! i = Some inst' /\ (forall c, c <> k -> Arg inst' c = Arg inst c) /\ direct p' i k).
  1, 3: intros Hno; exists p, inst; split; [done|]; split; [done|]; split; [apply rewired_refl|]; split; [done|]; split; [done|];
    intros j (s & Hs & _ & Ha); rewrite (shapes_Some _ _ _ Hi) in Hs; injection Hs as <-; rewrite Arg_shape, Hw in Ha; injection Ha as ->; by apply Hno.
  all: cbn [unwrap_arg]; rewrite Hi; cbn [mbind option_bind]; rewrite Hw; cbn [mbind option_bind]; unfold IsIdentity;
    destruct w as [|j| | | | | | | | | | | |]; cbn [mbind option_bind negb]; try (by apply Hstop);
    pose proof (refers_intro p i inst k j Hi ltac:(lia) Hw) as Href; destruct (so_good p (wf_sound p Hwf) i k j Href) as (oj & Hoj & _);
    unfold op_of in Hoj; destruct (insts p !! j) as [ji|] eqn:Hj; try done; cbn [mbind option_bind]; injection Hoj as <-;
    case_bool_decide as Eid; cbn [negb]; [|apply Hstop; intros j' [= <-]; unfold op_of; rewrite Hj; cbn; congruence].
  { specialize (Hfuel j Hw). pose proof (under_step p rank j ji (rank j) Hj ltac:(done)). lia. }
  destruct (unary_operand conv present p rho rank j ji Hr Hj ltac:(by rewrite Eid) ltac:(by rewrite Eid)) as (y & Hy & [Hgy Hby] & Hs & _). rewrite Eid in Hs. injection Hs as Hs.
  rewrite Hy. cbn [mbind option_bind].
  destruct (SetArg_same p rho rank i k y j inst Hr Hi Hk Hw Hs Hgy) as (p1 & i1 & -> & Hr1 & Hrw1 & Hi1 & Ho1 & Hn1 & Ha1).
  { intros Hphi j' Ej. specialize (Hby j' Ej). assert (rank j < rank i)%nat by (apply (Hrk i k j Href); unfold op_of; rewrite Hi; cbn; congruence). lia. }
  cbn [mbind option_bind]. destruct (IH p1 rho rank i1 Hr1 Hi1 ltac:(lia)) as (p' & i' & -> & Hr' & Hrw' & Hi' & Ha' & Hd').
  { intros j2 Hj2. rewrite Ha1, decide_True in Hj2 by done. injection Hj2 as ->. rewrite (same_under p p1 rank _ (rw_op _ _ _ _ Hrw1)).
    specialize (Hfuel j Hw). specialize (Hby j2 eq_refl). pose proof (under_step p rank j ji (S (rank j2)) Hj ltac:(lia)). lia. }
  exists p', i'. split; [done|]. split; [done|]. split; [by eapply rewired_trans|]. split; [done|]. split; [|done].
  intros c Hc. rewrite Ha', Ha1 by done. by rewrite decide_False.
Qed.

Lemma same_exists p p' i : (forall a, op_of p' a = op_of p a) -> is_Some (insts p !! i) -> exists inst, insts p' !! i = Some inst.
Proof. intros H [x Hx]. specialize (H i). unfold op_of in H. rewrite Hx in H. destruct (insts p' !! i) as [y|]; [by exists y|done]. Qed.

Lemma rewired_NumArgs rho p p' i inst inst' : rewired rho p p' i -> insts p !! i = Some inst -> insts p' !! i = Some inst' -> NumArgs inst' = NumArgs inst.
Proof.
  intros Hrw Hi Hi'. pose proof (rw_num _ _ _ _ Hrw) as H. rewrite (shapes_Some _ _ _ Hi), (shapes_Some _ _ _ Hi') in H. by injection H.
Qed.

Lemma unwrap_args_spec i n : forall k p rho rank inst, running p rho rank -> insts p !! i = Some inst -> 0 <= k -> k + Z.of_nat n = NumArgs inst ->
  (forall c, 0 <= c < k -> direct p i c) ->
  exists p', unwrap_args i k n p = Some p' /\ running p' rho rank /\ rewired rho p p' i /\ forall c, 0 <= c < NumArgs inst -> direct p' i c.
Proof.
  induction n as [|n IH]; intros k p rho rank inst Hr Hi Hk Hn Hd; cbn [unwrap_args].
  { exists p. split; [done|]. split; [done|]. split; [apply rewired_refl|]. intros c Hc. apply Hd. lia. }
  destruct (unwrap_arg_spec i k (size (insts p)) p rho rank inst Hr Hi ltac:(lia)) as (p1 & i1 & -> & Hr1 & Hrw1 & Hi1 & Ha1 & Hd1); [intros j _; apply under_size|].
  cbn [mbind option_bind]. pose proof (rewired_NumArgs _ _ _ _ _ _ Hrw1 Hi Hi1) as Hnum.
  destruct (IH (k + 1) p1 rho rank i1 Hr1 Hi1) as (p' & -> & Hr' & Hrw' & Hd'); [lia|lia| |].
  { intros c Hc. destruct (decide (c = k)) as [->|Hne]; [done|]. intros j (s & Hs & Hlt & Ha). rewrite (rw_op _ _ _ _ Hrw1). apply (Hd c ltac:(lia) j).
    rewrite (shapes_Some _ _ _ Hi1) in Hs. injection Hs as <-. rewrite Arg_shape, Ha1 in Ha by done. eapply refers_intro; [done|lia|done]. }
  exists p'. split; [done|]. split; [done|]. split; [by eapply rewired_trans|]. intros c Hc. apply Hd'. lia.
Qed.

(** ** Removing the identities *)

(** [p'] is [p] with other operands of the same values, and without some instructions in the blocks. *)
Record unwrapped (rho : Z -> Dyn) (p p' : Ir) : Prop := {
  uw_op : forall a, op_of p' a = op_of p a;
  uw_trace : forall b, trace p' rho b = trace p rho b;
  uw_blocks : forall b, is_Some (blocks p' !! b) <-> is_Some (blocks p !! b);
  uw_sub : forall b, default [] (blocks p' !! b) `sublist_of` default [] (blocks p !! b);
  uw_kept : forall b i, i ∈ default [] (blocks p !! b) -> live_at p i -> i ∈ default [] (blocks p' !! b);
  uw_direct : forall i, (forall c, 0 <= c -> direct p i c) -> forall c, 0 <= c -> direct p' i c;
}.
Lemma unwrapped_refl rho p : unwrapped rho p p.
Proof. by constructor. Qed.
Lemma unwrapped_trans rho p q r : unwrapped rho p q -> unwrapped rho q r -> unwrapped rho p r.
Proof.
  intros [A1 A2 A3 A4 A6 A5] [B1 B2 B3 B4 B6 B5].
  constructor; [intros a; by rewrite B1|intros b; by rewrite B2|intros b; by rewrite B3|intros b; etrans; [apply B4|apply A4]| |intros i H; by apply B5, A5].
  intros b i Hi Hl. apply B6; [by apply A6|]. destruct Hl as (o & Ho & Hl). exists o. by rewrite A1.
Qed.

(** An instruction that makes no event may leave its block. *)
Lemma trace_without (f : Z -> option event) i l : f i = None -> omap f (List.filter (fun j => negb (j =? i)) l) = omap f l.
Proof.
  intros Hi. induction l as [|x l IH]; [done|]. cbn. destruct (Z.eqb_spec x i) as [->|]; cbn [negb omap list_omap]; rewrite IH; [by rewrite Hi|done].
Qed.
Lemma erase_unwrapped rho p b i o : op_of p i = Some o -> o = Identity \/ o = Void -> unwrapped rho p (erase_inst b i p).
Proof.
  intros Ho Hc. constructor; [done| | | | |done].
  - intros b'. unfold trace. rewrite erase_block. change (shapes (erase_inst b i p)) with (shapes p). case_decide as E; [subst b'|done]. apply trace_without.
    destruct (op_shape_of p i o Ho) as (s & -> & Hs). cbn [mbind option_bind]. unfold event_of. rewrite Hs. by destruct Hc as [-> | ->].
  - intros b'. change (blocks (erase_inst b i p)) with (alter (List.filter (fun j => negb (j =? i))) b (blocks p)). by rewrite lookup_alter_is_Some.
  - intros b'. rewrite erase_block. case_decide as E; [subst; apply filter_sublist|done].
  - intros b' j Hj (oj & Hoj & Hl). rewrite erase_block. case_decide as E; [subst|done]. apply list_elem_of_In, List.filter_In. split; [by apply list_elem_of_In|].
    destruct (Z.eqb_spec j i) as [->|]; [|done]. rewrite Ho in Hoj. injection Hoj as <-. destruct Hl as [? ?]. by destruct Hc.
Qed.
Lemma rewired_unwrapped rho p p' i inst : sound p' -> rewired rho p p' i -> insts p !! i = Some inst -> (forall c, 0 <= c < NumArgs inst -> direct p' i c) ->
  unwrapped rho p p' /\ forall c, 0 <= c -> direct p' i c.
Proof.
  intros Hs Hrw Hi Hd. assert (Hall : forall c, 0 <= c -> direct p' i c).
  { intros c Hc j Hj. apply (Hd c); [|done]. destruct Hj as (s & Hsi & Hlt & _). split; [done|].
    pose proof (rw_num _ _ _ _ Hrw) as H. rewrite Hsi, (shapes_Some _ _ _ Hi) in H. injection H as H. by rewrite H in Hlt. }
  split; [|done]. constructor; [apply (rw_op _ _ _ _ Hrw)|apply (rw_trace _ _ _ _ Hrw)|intros b; by rewrite (rw_blocks _ _ _ _ Hrw)|intros b; by rewrite (rw_blocks _ _ _ _ Hrw)|intros b a; by rewrite (rw_blocks _ _ _ _ Hrw)|].
  intros a Ha c Hc. destruct (decide (a = i)) as [->|Hne]; [by apply Hall|]. intros j (x & Hx & Hlt & Harg). rewrite (rw_op _ _ _ _ Hrw). apply (Ha c Hc j).
  exists x. by rewrite <- (rw_others _ _ _ _ Hrw a Hne).
Qed.

(** The opcodes of instructions that have no value of their own. *)
Definition hollow (p : Ir) (i : Z) : Prop := exists o, op_of p i = Some o /\ (o = Identity \/ o = Void).
Lemma hollow_same p p' i : (forall a, op_of p' a = op_of p a) -> hollow p' i <-> hollow p i.
Proof. intros H. unfold hollow. by rewrite H. Qed.

(** One block: its operands are direct, its hollow instructions leave it and are remembered. *)
Lemma remove_identities_spec b l : forall acc p rho rank, running p rho rank -> (forall i, i ∈ l -> is_Some (insts p !! i)) ->
  exists acc' p', remove_identities b l acc p = Some (acc', p') /\ running p' rho rank /\ unwrapped rho p p' /\
    (forall a, a ∈ acc' <-> a ∈ acc \/ a ∈ l /\ hollow p a) /\
    (forall i, i ∈ l -> (forall c, 0 <= c -> direct p' i c) /\ (hollow p i -> i ∉ default [] (blocks p' !! b))) /\
    forall b', b' <> b -> blocks p' !! b' = blocks p !! b'.
Proof.
  induction l as [|i l IH]; intros acc p rho rank Hr Hl; cbn [remove_identities].
  { exists acc, p. split; [done|]. split; [done|]. split; [apply unwrapped_refl|]. split; [intros a; rewrite elem_of_nil; tauto|]. split; [by intros i ?%elem_of_nil|done]. }
  destruct (Hl i ltac:(by left)) as [inst Hi]. rewrite Hi. cbn [mbind option_bind].
  destruct (shape_ok p i inst (wf_sound p (rn_wf _ _ _ _ _ Hr)) Hi) as [Hok _]. pose proof (NumArgs_bound inst Hok) as [Hn0 _].
  destruct (unwrap_args_spec i (Z.to_nat (NumArgs inst)) 0 p rho rank inst Hr Hi ltac:(done) ltac:(lia) ltac:(intros c ?; lia)) as (p1 & -> & Hr1 & Hrw1 & Hd1).
  cbn [mbind option_bind]. destruct (rewired_unwrapped rho p p1 i inst (wf_sound _ (rn_wf _ _ _ _ _ Hr1)) Hrw1 Hi Hd1) as [Hu1 Hall].
  assert (Hop : op_of p i = Some (op inst)) by (unfold op_of; by rewrite Hi).
  assert (Hex : forall q, (forall a, op_of q a = op_of p a) -> forall j, j ∈ l -> is_Some (insts q !! j)).
  { intros q Hq j Hj. destruct (same_exists p q j Hq (Hl j ltac:(by right))) as [x Hx]. by exists x. }
  destruct (decide (op inst = Identity \/ op inst = Void)) as [Hc|Hc].
  - pose proof (erase_unwrapped rho p1 b i (op inst) ltac:(by rewrite (uw_op _ _ _ Hu1)) Hc) as He. pose proof (unwrapped_trans _ _ _ _ Hu1 He) as Hue.
    destruct (IH (acc ++ [i]) (erase_inst b i p1) rho rank) as (acc' & p' & -> & Hr' & Hu' & Hacc & Hin & Hoth); [by apply erase_running|by apply Hex; apply Hue|].
    exists acc', p'. split; [done|]. split; [done|]. split; [by eapply unwrapped_trans|]. split; [|split].
    + intros a. rewrite Hacc, elem_of_app, list_elem_of_singleton, elem_of_cons, (hollow_same p) by apply Hue. split; [intros [[?| ->]|?]; [tauto| |tauto]|intros [?|[[->|?] ?]]; tauto].
      right. split; [by left|]. by exists (op inst).
    + intros j [->|Hj]%elem_of_cons.
      * split; [apply (uw_direct _ _ _ Hu'); exact Hall|]. intros _ Hb. pose proof (elem_of_sublist _ _ _ Hb (uw_sub _ _ _ Hu' b)) as Hb'.
        rewrite erase_block, decide_True in Hb' by done. apply filter_removed in Hb' as [_ ?]. done.
      * destruct (Hin j Hj) as [H1 H2]. split; [done|]. rewrite (hollow_same p) in H2 by apply Hue. done.
    + intros b' Hb'. rewrite Hoth by done. change (blocks (erase_inst b i p1)) with (alter (List.filter (fun j => negb (j =? i))) b (blocks p1)).
      by rewrite lookup_alter_ne, (rw_blocks _ _ _ _ Hrw1).
  - destruct (IH acc p1 rho rank Hr1 ltac:(apply Hex, Hu1)) as (acc' & p' & -> & Hr' & Hu' & Hacc & Hin & Hoth).
    assert (Hnh : ~ hollow p i) by (intros (o & Ho & Hco); rewrite Hop in Ho; injection Ho as <-; done).
    exists acc', p'. split; [done|]. split; [done|]. split; [by eapply unwrapped_trans|]. split; [|split].
    + intros a. rewrite Hacc, elem_of_cons, (hollow_same p) by apply Hu1. split; [tauto|]. intros [?|[[->|?] ?]]; tauto.
    + intros j [->|Hj]%elem_of_cons; [split; [apply (uw_direct _ _ _ Hu'); exact Hall|tauto]|].
      destruct (Hin j Hj) as [H1 H2]. split; [done|]. rewrite (hollow_same p) in H2 by apply Hu1. done.
    + intros b' Hb'. by rewrite Hoth, (rw_blocks _ _ _ _ Hrw1).
Qed.

Lemma remove_identities_of_spec program : forall acc p rho rank, NoDup program -> running p rho rank -> (forall b, b ∈ program -> is_Some (blocks p !! b)) ->
  exists acc' p', remove_identities_of program acc p = Some (acc', p') /\ running p' rho rank /\ unwrapped rho p p' /\
    (forall a, a ∈ acc' <-> a ∈ acc \/ exists b, b ∈ program /\ a ∈ default [] (blocks p !! b) /\ hollow p a) /\
    forall b i, b ∈ program -> i ∈ default [] (blocks p !! b) -> (forall c, 0 <= c -> direct p' i c) /\ (hollow p i -> i ∉ default [] (blocks p' !! b)).
Proof.
  induction program as [|b l IH]; intros acc p rho rank Hnd Hr Hb; cbn [remove_identities_of].
  { exists acc, p. split; [done|]. split; [done|]. split; [apply unwrapped_refl|]. split; [|by intros b i ?%elem_of_nil].
    intros a. split; [by left|]. intros [?|(b & ?%elem_of_nil & _)]; done. }
  apply NoDup_cons in Hnd as [Hbl Hnd]. destruct (Hb b ltac:(by left)) as [instructions Hi]. rewrite Hi. cbn [mbind option_bind].
  destruct (remove_identities_spec b instructions acc p rho rank Hr) as (acc1 & p1 & -> & Hr1 & Hu1 & Hacc1 & Hin1 & Hoth1).
  { intros i Hii. destruct (block_inst p b i (wf_sound p (rn_wf _ _ _ _ _ Hr)) ltac:(by rewrite Hi)) as [x Hx]. by exists x. }
  cbn [mbind option_bind]. destruct (IH acc1 p1 rho rank Hnd Hr1) as (acc' & p' & -> & Hr' & Hu' & Hacc' & Hin').
  { intros b' Hb'. apply (uw_blocks _ _ _ Hu1). apply Hb. by right. }
  assert (Hsame : forall b', b' ∈ l -> blocks p1 !! b' = blocks p !! b') by (intros b' Hb'; apply Hoth1; by intros ->).
  exists acc', p'. split; [done|]. split; [done|]. split; [by eapply unwrapped_trans|]. split.
  - intros a. rewrite Hacc', Hacc1. split.
    + intros [[?|[Ha Hh]]|(b' & Hb' & Ha & Hh)]; [by left|right; exists b; split; [by left|]; by rewrite Hi|].
      right. exists b'. split; [by right|]. rewrite <- (Hsame b' Hb'). split; [done|]. by apply (hollow_same p p1); [apply Hu1|].
    + intros [?|(b' & [->|Hb']%elem_of_cons & Ha & Hh)]; [tauto|left; right; by rewrite Hi in Ha|]. right. exists b'. split; [done|]. rewrite (Hsame b' Hb').
      split; [done|]. by apply (hollow_same p p1); [apply Hu1|].
  - intros b' i [->|Hb']%elem_of_cons Ha.
    + rewrite Hi in Ha. destruct (Hin1 i Ha) as [H1 H2]. split; [by apply (uw_direct _ _ _ Hu')|]. intros Hh Hbad. apply (H2 Hh). eapply elem_of_sublist; [exact Hbad|apply (uw_sub _ _ _ Hu')].
    + destruct (Hin' b' i Hb') as [H1 H2]; [by rewrite (Hsame b' Hb')|]. split; [done|]. intros Hh. apply H2. by apply (hollow_same p p1); [apply Hu1|].
Qed.

(** ** Invalidating them *)

Lemma invalidate_all_spec l : forall p rho rank, running p rho rank -> (forall a, a ∈ l -> hollow p a) -> (forall a c j, refers p a c j -> op_of p j <> Some Identity) ->
  exists p', invalidate_all l p = Some p' /\ running p' rho rank /\ blocks p' = blocks p /\ (forall b, trace p' rho b = trace p rho b) /\
    forall i, op_of p' i = if decide (i ∈ l) then Some Void else op_of p i.
Proof.
  induction l as [|i l IH]; intros p rho rank Hr Hh Hno; cbn [invalidate_all].
  { exists p. split; [done|]. split; [done|]. split; [done|]. split; [done|]. intros i. rewrite decide_False; [done|]. apply not_elem_of_nil. }
  pose proof Hr as [Hwf Hrk Hrun]. destruct (Hh i ltac:(by left)) as (o & Ho & Hco).
  assert (Hx : exists x, insts p !! i = Some x /\ op x = o) by (unfold op_of in Ho; destruct (insts p !! i) as [x|]; [injection Ho as <-; by exists x|done]).
  destruct Hx as (x & Hx & Eo). assert (Hnoi : forall a c, ~ refers p a c i).
  { intros a c Hac. destruct Hco as [-> | ->]; [by apply (Hno a c i Hac)|]. apply (so_good p (wf_sound p Hwf)) in Hac as (o' & Ho' & Hres). rewrite Ho in Ho'. by injection Ho' as <-. }
  destruct (Invalidate_voids p rank i Hwf Hrk ltac:(by rewrite Hx) Hnoi) as (p1 & -> & Hwf1 & Hv). pose proof Hv as (Hs & Hn & Hb). cbn [mbind option_bind].
  destruct (update_step conv present p p1 rho rank i (shape x) (void_inst (shape x))) as [Hr1 Hk1]; try done.
  { by eapply voids_rank. }
  { by apply shapes_Some. }
  { rewrite Hs. apply map_eq. intros j. destruct (decide (j = i)) as [->|]; [by rewrite lookup_alter_eq, lookup_insert_eq, (shapes_Some _ _ _ Hx)|by rewrite lookup_alter_ne, lookup_insert_ne]. }
  { unfold event_of. change (op (shape x)) with (op x). rewrite Eo. by destruct Hco as [-> | ->]. }
  assert (Hop1 : forall j, op_of p1 j = if decide (j = i) then Some Void else op_of p j) by (intros j; rewrite (voids_op _ _ _ Hv); case_decide; [by rewrite Ho|done]).
  destruct (IH p1 rho rank Hr1) as (p' & -> & Hr' & Hb' & Ht' & Hop').
  { intros a Ha. unfold hollow. rewrite Hop1. case_decide; [exists Void; tauto|]. apply Hh. by right. }
  { intros a c j Hac. apply (voids_refers _ _ _ Hv) in Hac as [_ Hac]. rewrite Hop1. case_decide; [done|by apply (Hno a c j)]. }
  exists p'. split; [done|]. split; [done|]. split; [congruence|]. split; [intros b; rewrite Ht'; apply (kp_trace _ _ _ _ Hk1)|].
  intros j. rewrite Hop', Hop1. destruct (decide (j ∈ l)) as [Hj|Hj]; [rewrite decide_True; [done|by right]|].
  destruct (decide (j = i)) as [->|]; [rewrite decide_True; [done|by left]|]. rewrite decide_False; [done|]. rewrite elem_of_cons. tauto.
Qed.

(** Every instruction that is not removed is in a block of [program]. *)
Definition covers (program : list Z) (p : Ir) : Prop :=
  forall i o, op_of p i = Some o -> o <> Void -> exists b, b ∈ program /\ i ∈ default [] (blocks p !! b).

(** What the pass leaves: no identities; in the blocks of [program] the instructions that have a value or
    an effect, with their opcodes, in their order; and the same operations. *)
Record cleaned (program : list Z) (rho : Z -> Dyn) (p p' : Ir) : Prop := {
  cl_no_identity : no_identity p';
  cl_trace : forall b, trace p' rho b = trace p rho b;
  cl_blocks : forall b, is_Some (blocks p' !! b) <-> is_Some (blocks p !! b);
  cl_order : forall b, default [] (blocks p' !! b) `sublist_of` default [] (blocks p !! b);
  cl_instructions : forall b i, b ∈ program -> i ∈ default [] (blocks p' !! b) <-> i ∈ default [] (blocks p !! b) /\ live_at p i;
  cl_op : forall i, live_at p i -> op_of p' i = op_of p i;
}.

Lemma hollow_or_live p i o : op_of p i = Some o -> hollow p i \/ live_at p i.
Proof.
  intros Ho. destruct (decide (o = Identity \/ o = Void)) as [H|H]; [left|right]; exists o; [done|]. split; [done|]. split; intros ->; tauto.
Qed.
Lemma live_not_hollow p i : live_at p i -> ~ hollow p i.
Proof. intros (o & Ho & [Hv Hi]) (o' & Ho' & H). rewrite Ho in Ho'. injection Ho' as <-. tauto. Qed.

(** Once the operands of the covered instructions are direct, nothing refers to an identity. *)
Lemma covered_direct program p p1 a c j : covers program p -> (forall i, op_of p1 i = op_of p i) ->
  (forall b i, b ∈ program -> i ∈ default [] (blocks p !! b) -> forall c, 0 <= c -> direct p1 i c) -> refers p1 a c j -> op_of p1 j <> Some Identity.
Proof.
  intros Hcov Hop Hd Hr. pose proof Hr as (s & Hs & Hlt & Ha).
  assert (Hc : 0 <= c) by (destruct (decide (c < 0)) as [Hc|]; [rewrite Arg_operands, at_neg in Ha by done; done|lia]).
  assert (Hos : op_of p a = Some (op s)) by (by rewrite <- Hop, op_shapes, Hs).
  destruct (decide (op s = Void)) as [Ev|Ev]; [unfold NumArgs in Hlt; rewrite Ev, decide_False in Hlt by done; change (NumArgsOf Void) with 0 in Hlt; lia|].
  destruct (Hcov a (op s) Hos Ev) as (b & Hb & Hin). by apply (Hd b a Hb Hin c Hc j).
Qed.

Lemma IdentityRemovalPass_spec program p rho rank : NoDup program -> running p rho rank -> (forall b, b ∈ program -> is_Some (blocks p !! b)) -> covers program p ->
  exists p', IdentityRemovalPass program p = Some p' /\ running p' rho rank /\ cleaned program rho p p'.
Proof.
  intros Hnd Hr Hb Hcov. unfold IdentityRemovalPass.
  destruct (remove_identities_of_spec program [] p rho rank Hnd Hr Hb) as (acc & p1 & -> & Hr1 & Hu & Hacc & Hin). cbn [mbind option_bind].
  assert (Hmem : forall a, a ∈ acc <-> exists b, b ∈ program /\ a ∈ default [] (blocks p !! b) /\ hollow p a) by (intros a; rewrite Hacc, elem_of_nil; tauto).
  destruct (invalidate_all_spec acc p1 rho rank Hr1) as (p' & -> & Hr' & Hbl & Htr & Hop).
  { intros a Ha. apply Hmem in Ha as (b & _ & _ & Hh). by apply (hollow_same p p1); [apply Hu|]. }
  { intros a c j. apply (covered_direct program p p1 a c j Hcov (uw_op _ _ _ Hu)). intros b i Hbp Hib. by apply (Hin b i). }
  exists p'. split; [done|]. split; [done|]. constructor.
  - intros j. rewrite Hop. case_decide as Ha; [done|]. rewrite (uw_op _ _ _ Hu). intros Hj. apply Ha, Hmem.
    destruct (Hcov j Identity Hj ltac:(done)) as (b & Hbp & Hib). exists b. split; [done|]. split; [done|]. exists Identity. tauto.
  - intros b. by rewrite Htr, (uw_trace _ _ _ Hu).
  - intros b. rewrite Hbl. apply Hu.
  - intros b. rewrite Hbl. apply Hu.
  - intros b i Hbp. rewrite Hbl. split; [|intros [H1 H2]; by apply (uw_kept _ _ _ Hu)]. intros Hi.
    pose proof (elem_of_sublist _ _ _ Hi (uw_sub _ _ _ Hu b)) as Hip. split; [done|]. destruct (block_inst p b i (wf_sound p (rn_wf _ _ _ _ _ Hr)) Hip) as [x Hx].
    destruct (hollow_or_live p i (op x)) as [Hh|Hl]; [unfold op_of; by rewrite Hx| |done]. by apply (proj2 (Hin b i Hbp Hip)) in Hh.
  - intros i Hl. rewrite Hop. case_decide as Ha; [|apply Hu]. apply Hmem in Ha as (b & _ & _ & Hh). by apply live_not_hollow in Hl.
Qed.
End Passes.
