(* ===== verification/ShaderPasses.v ===== *)
(** * The passes together

    The optimisation passes as [TranslateProgram] of src/src/shader_recompiler/recompiler.cpp calls them:
    what each of them and the last three of them keep of a program, and a small shader to run them on. *)
From Stdlib Require Import ZArith Lia.
From stdpp Require Import base functions gmap list strings.
From S2P Require Import Prelude.
From S2P Require Import IrOpcodes ShaderIr IrEditing IrSemantics ConstantPropagation FoldSteps Propagation CleanupPasses.

(** The passes before the information about the shader is collected. *)
Definition clean_up (blocks post_order_blocks : list Z) (p : Ir) : option Ir :=
  p ← IdentityRemovalPass blocks p;
  p ← DeadCodeEliminationPass post_order_blocks p;
  ConstantPropagationPass post_order_blocks p.

(** * A small shader *)

(** The unsigned halves of a word as floats, and back. *)
Definition u32_of_f32 (x : Z) : Z := if x =? 0 then 0 else (Z.land x (2 ^ 23 - 1) + 2 ^ 23) * 2 ^ (Z.shiftr x 23 - 127) / 2 ^ 23.
Definition sample_conv (o : Opcode) (d : Dyn) : option Dyn :=
  match o, d with
  | UnpackUint2x16, Scalar (ImmU32 x) => Some (Vector [ImmF32 (f32_of_u32 (x mod 2 ^ 16)); ImmF32 (f32_of_u32 (x / 2 ^ 16))])
  | PackUint2x16, Vector [ImmF32 a; ImmF32 b] => Some (DU32 (u32_of_f32 a + u32_of_f32 b * 2 ^ 16))
  | _, _ => None
  end.
Definition sample_present (o : Opcode) : Prop := o = UnpackUint2x16 \/ o = PackUint2x16.

(** A sum of constants, a product of constants, an identity, a conversion there and back, a value that nobody
    uses, and a store. *)
Definition sample_program : list Edit :=
    [NewInst 0 None GetUserData [VScalarReg 3] 0;
     NewInst 0 None IAdd32 [VInst 0; ImmU32 2] 0;
     NewInst 0 None IAdd32 [VInst 1; ImmU32 3] 0;
     NewInst 0 None Identity [VInst 2] 0;
     NewInst 0 None IMul32 [ImmU32 6; ImmU32 7] 0;
     NewInst 0 None IAdd32 [VInst 3; VInst 4] 0;
     NewInst 0 None UnpackUint2x16 [VInst 5] 0;
     NewInst 0 None PackUint2x16 [VInst 6] 0;
     NewInst 0 None BitReverse32 [VInst 0] 0;
     NewInst 0 None WriteSharedU32 [ImmU32 0; VInst 7] 0].
Definition sample_ir : Ir := default (empty_ir [0]) (perform_all sample_program (empty_ir [0])).
(** The values when the register holds 10. *)
Definition sample_rho (i : Z) : Dyn :=
  match i with
  | 0 => DU32 10 | 1 => DU32 12 | 2 => DU32 15 | 3 => DU32 15 | 4 => DU32 42 | 5 => DU32 57
  | 6 => Vector [ImmF32 (f32_of_u32 57); ImmF32 0] | 7 => DU32 57 | 8 => DU32 1342177280
  | _ => DU32 0
  end.

Lemma run_listed conv present p rho : Forall (fun ix => inst_run conv present rho ix.1 (shape ix.2)) (map_to_list (insts p)) -> run conv present p rho.
Proof.
  intros H i s Hs. apply shapes_inv in Hs as (inst & Hi & ->). rewrite Forall_forall in H. apply (H (i, inst)). by apply elem_of_map_to_list.
Qed.
Lemma sample_edited : edited [0] sample_ir.
Proof. apply (perform_all_edited [0] sample_program (empty_ir [0]) sample_ir (edited_empty [0])). vm_compute. reflexivity. Qed.
Lemma sample_exact : forall d, d = DU32 57 \/ d = Vector [ImmF32 (f32_of_u32 57); ImmF32 0] ->
  (forall e, sample_conv UnpackUint2x16 d = Some e -> sample_conv PackUint2x16 e = Some d) /\
  (forall e, sample_conv PackUint2x16 d = Some e -> sample_conv UnpackUint2x16 e = Some d).
Proof. intros d [-> | ->]; split; intros e H; vm_compute in H; try discriminate; injection H as <-; vm_compute; reflexivity. Qed.
Lemma sample_run : run sample_conv sample_present sample_ir sample_rho.
Proof.
  apply run_listed. assert (E : map_to_list (insts sample_ir) = ltac:(let t := eval vm_compute in (map_to_list (insts sample_ir)) in exact t)) by (vm_compute; reflexivity).
  rewrite E. clear E. repeat (apply Forall_cons; split); [..|apply Forall_nil; exact I]; constructor; lazymatch goal with
    | |- written _ => split; discriminate
    | |- _ -> sem _ _ _ = _ => first [discriminate|intros _; vm_compute; reflexivity]
    | |- faithful _ _ ?o _ => let o := eval vm_compute in o in
        lazymatch o with PackUint2x16 => idtac | UnpackUint2x16 => idtac | _ => first [exact I|discriminate] end
    end.
  - intros _. split; [by right|]. intros _ e. apply (proj2 (sample_exact _ (or_intror eq_refl))).
  - intros _. split; [by left|]. intros _ e. apply (proj1 (sample_exact _ (or_introl eq_refl))).
Qed.
Lemma sample_running : running sample_conv sample_present sample_ir sample_rho Z.to_nat.
Proof. constructor; [apply (edited_ranked [0] sample_ir sample_edited)|apply ranked_ok; vm_compute; reflexivity|apply sample_run]. Qed.
Lemma sample_blocks b : b ∈ [0] -> is_Some (blocks sample_ir !! b).
Proof. intros ->%list_elem_of_singleton. vm_compute. by eexists. Qed.
Lemma sample_covers : covers [0] sample_ir.
Proof.
  intros i o Ho _. exists 0. split; [by left|]. assert (Hi : i ∈ (map_to_list (insts sample_ir)).*1).
  { unfold op_of in Ho. destruct (insts sample_ir !! i) as [x|] eqn:E; [|done]. apply list_elem_of_fmap. exists (i, x). split; [done|]. by apply elem_of_map_to_list. }
  assert (E : forallb (fun j => bool_decide (j ∈ default [] (blocks sample_ir !! 0))) (map_to_list (insts sample_ir)).*1 = true) by (vm_compute; reflexivity).
  rewrite forallb_forall in E. specialize (E i (proj1 (list_elem_of_In _ _) Hi)). by apply bool_decide_eq_true in E.
Qed.

Section Passes.
Context (conv : Opcode -> Dyn -> option Dyn) (present : Opcode -> Prop).
Implicit Types (program : list Z) (p : Ir) (rho : Z -> Dyn) (rank : Z -> nat).

(** C36. Constant propagation keeps what a shader does. On a well-formed program whose instructions have the
    values their opcodes mean, [ConstantPropagationPass] ends without a failed assertion or an undefined
    operation, and its result is such a program again: every instruction that was there has the value it
    had, each block has the instructions it had in their order, with new ones between them, and performs
    the same operations, in their order, on the same values. Operands outside of [faithful], which
    [FoldLimits] is about, and divisions by zero are excluded; the host's conversions are a parameter. *)
Theorem ConstantPropagationPass_exact program p rho rank : running conv present p rho rank -> (forall b, b ∈ program -> is_Some (blocks p !! b)) ->
  exists p' rho' rank', ConstantPropagationPass program p = Some p' /\ running conv present p' rho' rank' /\
    (forall i, i < next_inst p -> rho' i = rho i) /\
    (forall b, trace p' rho' b = trace p rho b) /\
    forall b, List.filter (fun i => i <? next_inst p) (default [] (blocks p' !! b)) = default [] (blocks p !! b).
Proof.
  intros Hr Hb. destruct (ConstantPropagationPass_steps conv present program p rho rank Hr Hb) as (p' & rho' & rank' & Hp & Hr' & Hk).
  exists p', rho', rank'. split; [done|]. split; [done|]. split; [apply Hk|]. split; apply Hk.
Qed.

(** Removing identities. When every instruction of the pool is in the blocks or already removed,
    [IdentityRemovalPass] ends and leaves a well-formed program without identities: each block keeps, in
    their order and with their opcodes, exactly its instructions that are neither identities nor removed,
    and performs the same operations on the same values, now read from the instruction behind the
    identities, through any chain of them and through phis. *)
Theorem IdentityRemovalPass_exact program p rho rank : NoDup program -> running conv present p rho rank ->
  (forall b, b ∈ program -> is_Some (blocks p !! b)) -> covers program p ->
  exists p', IdentityRemovalPass program p = Some p' /\ running conv present p' rho rank /\
    (forall j, op_of p' j <> Some Identity) /\
    (forall b, trace p' rho b = trace p rho b) /\
    (forall b, default [] (blocks p' !! b) `sublist_of` default [] (blocks p !! b)) /\
    (forall b i, b ∈ program -> i ∈ default [] (blocks p' !! b) <-> i ∈ default [] (blocks p !! b) /\ live_at p i) /\
    forall i, live_at p i -> op_of p' i = op_of p i.
Proof.
  intros Hnd Hr Hb Hc. destruct (IdentityRemovalPass_spec conv present program p rho rank Hnd Hr Hb Hc) as (p' & Hp & Hr' & [H1 H2 _ H4 H5 H6]).
  exists p'. split; [done|]. split; [done|]. split; [exact H1|]. split; [done|]. split; [done|]. by split.
Qed.

(** C37. Removing dead code. On a program without identities [DeadCodeEliminationPass] ends and leaves a
    well-formed program with the same values that performs, in each block, the same operations with side
    effects. An instruction is unchanged or was removed without being needed: it had no side effect and
    nothing refers to it any more. What stays in the blocks has a side effect or was an operand. *)
Theorem DeadCodeEliminationPass_exact program p rho rank : running conv present p rho rank -> (forall j, op_of p j <> Some Identity) ->
  (forall b, b ∈ program -> is_Some (blocks p !! b)) ->
  exists p', DeadCodeEliminationPass program p = Some p' /\ running conv present p' rho rank /\
    (forall i, shapes p' !! i = shapes p !! i \/ exists inst, shapes p !! i = Some inst /\ MayHaveSideEffects inst = false /\
      op_of p' i = Some Void /\ forall a c, ~ refers p' a c i) /\
    (forall b, effects p' rho b = effects p rho b) /\
    (forall b, default [] (blocks p' !! b) `sublist_of` default [] (blocks p !! b)) /\
    forall b i, b ∈ program -> i ∈ default [] (blocks p' !! b) -> live_at p' i ->
      (exists inst, shapes p !! i = Some inst /\ MayHaveSideEffects inst = true) \/ exists a c, refers p a c i.
Proof.
  intros Hr Hid Hb. destruct (DeadCodeEliminationPass_spec conv present program p rho rank Hr Hid Hb) as (p' & Hp & Hr' & [H1 H2 _ H4] & Hn).
  exists p'. split; [done|]. split; [done|]. split; [|split; [done|]; split; [done|exact Hn]]. intros i.
  destruct (H1 i) as [E|(s & Hs & Hv & Hm)]; [by left|right]. exists s. split; [done|]. split; [done|]. assert (Ho : op_of p' i = Some Void) by (by rewrite op_shapes, Hv).
  split; [done|]. intros a c Hac. apply (so_good p' (wf_sound p' (rn_wf _ _ _ _ _ Hr'))) in Hac as (o & Ho' & Hres). rewrite Ho in Ho'. by injection Ho' as <-.
Qed.

(** C38. The three passes at the end of [TranslateProgram], one after the other, on a well-formed shader
    whose instructions are all in the blocks of the program, and a run of it in which every opcode
    has a value (no division by zero) and operands that the passes treat as it means ([faithful]:
    fields of less than 32 bits into which the inserted word fits, one class of floats, no packed
    ancillary word, conversions that are exact when they are undone): they end, and the shader they
    leave is well-formed, gives every instruction that was there the value it had, and performs in
    each block the same operations with side effects on the same values. *)
Theorem clean_up_exact program post_order p rho rank : NoDup program -> running conv present p rho rank ->
  (forall b, b ∈ program \/ b ∈ post_order -> is_Some (blocks p !! b)) -> covers program p ->
  exists p' rho' rank', clean_up program post_order p = Some p' /\ running conv present p' rho' rank' /\
    (forall i, live_at p i -> rho' i = rho i) /\ (forall b, effects p' rho' b = effects p rho b).
Proof.
  intros Hnd Hr Hb Hc. unfold clean_up.
  destruct (IdentityRemovalPass_spec conv present program p rho rank Hnd Hr ltac:(intros b H; apply Hb; by left) Hc) as (p1 & -> & Hr1 & [Hid Htr Hbl _ _ Hop]).
  cbn [mbind option_bind]. destruct (DeadCodeEliminationPass_spec conv present post_order p1 rho rank Hr1 Hid) as (p2 & -> & Hr2 & [Hsh Hef Hbl2 _] & _).
  { intros b H. apply Hbl, Hb. by right. }
  cbn [mbind option_bind]. destruct (ConstantPropagationPass_steps conv present post_order p2 rho rank Hr2) as (p' & rho' & rank' & -> & Hr' & Hk).
  { intros b H. apply Hbl2, Hbl, Hb. by right. }
  exists p', rho', rank'. split; [done|]. split; [done|]. split; [|intros b; unfold effects; rewrite (kp_trace _ _ _ _ Hk), <- Htr; apply Hef].
  intros i Hi. apply (kp_rho _ _ _ _ Hk). assert (H1 : is_Some (shapes p1 !! i)).
  { destruct Hi as (o & Ho & Hl). specialize (Hop i ltac:(by exists o)). rewrite Ho in Hop. apply op_shape_of in Hop as (s & Hs & _). by exists s. }
  assert (H2 : exists s, shapes p2 !! i = Some s) by (destruct (Hsh i) as [E|(s & _ & E & _)]; rewrite E; [exact H1|by eexists]).
  destruct H2 as [s Hs]. pose proof (so_inst p2 (wf_sound p2 (rn_wf _ _ _ _ _ Hr2)) i s Hs). lia.
Qed.
End Passes.

(** ** The passes on the small shader *)

Lemma ConstantPropagationPass_exact_witness : exists p', ConstantPropagationPass [0] sample_ir = Some p' /\
  (exists rho' rank', running sample_conv sample_present p' rho' rank') /\
  op_of p' 4 = Some Void /\ (take 2 ∘ args <$> insts p' !! 5) = Some [VInst 0; ImmU32 47].
Proof.
  destruct (ConstantPropagationPass_exact sample_conv sample_present [0] sample_ir sample_rho Z.to_nat sample_running sample_blocks) as (p' & rho' & rank' & Hp & Hr & _).
  exists p'. split; [exact Hp|]. split; [exists rho', rank'; exact Hr|]. vm_compute in Hp. injection Hp as <-. split; vm_compute; reflexivity.
Defined.
Lemma IdentityRemovalPass_exact_witness : exists p', IdentityRemovalPass [0] sample_ir = Some p' /\ (forall j, op_of p' j <> Some Identity) /\
  blocks p' !! 0 = Some [0; 1; 2; 4; 5; 6; 7; 8; 9].
Proof.
  destruct (IdentityRemovalPass_exact sample_conv sample_present [0] sample_ir sample_rho Z.to_nat (NoDup_singleton 0) sample_running sample_blocks sample_covers) as (p' & Hp & _ & Hid & _).
  exists p'. split; [exact Hp|]. split; [exact Hid|]. vm_compute in Hp. injection Hp as <-. vm_compute. reflexivity.
Defined.

(** The small shader without its identity. *)
Definition sample_direct : Ir := default sample_ir (IdentityRemovalPass [0] sample_ir).
Lemma sample_direct_running : running sample_conv sample_present sample_direct sample_rho Z.to_nat /\ no_identity sample_direct /\ is_Some (blocks sample_direct !! 0).
Proof.
  destruct (IdentityRemovalPass_spec sample_conv sample_present [0] sample_ir sample_rho Z.to_nat (NoDup_singleton 0) sample_running sample_blocks sample_covers) as (p' & Hp & Hr & Hc).
  unfold sample_direct. rewrite Hp. cbn [default]. split; [done|]. split; [apply Hc|]. apply (cl_blocks _ _ _ _ Hc). apply sample_blocks. by left.
Qed.
Lemma DeadCodeEliminationPass_exact_witness : exists p', DeadCodeEliminationPass [0] sample_direct = Some p' /\
  (forall b, effects p' sample_rho b = effects sample_direct sample_rho b) /\ blocks p' !! 0 = Some [0; 1; 2; 4; 5; 6; 7; 9].
Proof.
  destruct sample_direct_running as (Hr & Hid & Hb).
  destruct (DeadCodeEliminationPass_exact sample_conv sample_present [0] sample_direct sample_rho Z.to_nat Hr Hid) as (p' & Hp & _ & _ & He & _).
  { intros b ->%list_elem_of_singleton. exact Hb. }
  exists p'. split; [exact Hp|]. split; [exact He|]. vm_compute in Hp. injection Hp as <-. vm_compute. reflexivity.
Defined.
Lemma clean_up_exact_witness : exists p' rho', clean_up [0] [0] sample_ir = Some p' /\ rho' 9 = sample_rho 9 /\
  effects p' rho' 0 = [(9, WriteSharedU32, 0, [(0, DU32 0); (0, DU32 57)])].
Proof.
  destruct (clean_up_exact sample_conv sample_present [0] [0] sample_ir sample_rho Z.to_nat (NoDup_singleton 0) sample_running) as (p' & rho' & rank' & Hp & _ & Hrho & He).
  - intros b [H|H]; exact (sample_blocks b H).
  - exact sample_covers.
  - exists p', rho'. split; [exact Hp|]. split; [apply Hrho, liveb_ok; vm_compute; reflexivity|]. rewrite He. vm_compute. reflexivity.
Defined.
