(* ===== verification/FoldLimits.v ===== *)
(** * Where folding differs from the operations

    Operands outside of [IrSemantics.faithful]: what constant propagation makes of them, against the
    operations as the graphics API defines them. *)
From Stdlib Require Import ZArith Lia.
From stdpp Require Import base functions gmap list strings.
From S2P Require Import Prelude.
From S2P Require Import IrOpcodes ShaderIr IrEditing IrSemantics ConstantPropagation.

(** The program of one block with the instructions [l]. *)
Definition block_of (l : list (Opcode * list Value)) : Ir :=
  default (empty_ir [0]) (perform_all ((fun ol => NewInst 0 None ol.1 ol.2 0) <$> l) (empty_ir [0])).
Definition folded (l : list (Opcode * list Value)) : option Ir := ConstantPropagationPass [0] (block_of l).
Definition operands_of (p : Ir) (i : Z) : option (list Value) := inst ← insts p !! i; Some (take (Z.to_nat (NumArgs inst)) (args inst)).

(** An insertion of constants keeps the bits of the inserted word beyond the field. *)
Lemma BitFieldInsert_leaks : insert_field 0 65535 0 8 = Some (ImmU32 65535) /\ insert_bits 0 65535 0 8 = 255.
Proof. by split. Qed.

(** A whole word can be extracted and inserted, and an empty field; the folds shift by the width or give up. *)
Lemma BitFieldUExtract_word b : 0 <= b <= U32_MAX -> extract_unsigned b 0 32 = None /\ bits_of b 0 32 = b.
Proof.
  intros Hb. split; [done|]. unfold bits_of. rewrite Z.shiftr_0_r, Z.land_ones by done. apply Z.mod_small. unfold U32_MAX in Hb. lia.
Qed.
Lemma BitFieldSExtract_empty b o : 0 <= o <= 32 -> extract_signed b o 0 = None /\ signed_bits b o 0 = 0.
Proof.
  intros Ho. split; [|unfold signed_bits, bits_of; cbn; by rewrite Z.land_0_r]. unfold extract_signed. change (wrap32 (32 - 0)) with 32.
  by rewrite (proj2 (Z.leb_le 32 32)), orb_true_r by lia.
Qed.

(** A comparison with NaN and infinity becomes one with NaN alone: positive infinity is in the class and not a NaN. *)
Lemma FPCmpClass32_narrows :
  (exists p, folded [(GetUserData, [VScalarReg 3]); (BitCastF32U32, [VInst 0]); (FPCmpClass32, [VInst 1; ImmU32 (Class_NaN + Class_Infinity)])] = Some p /\ op_of p 2 = Some FPIsNan32) /\
  in_class (Class_NaN + Class_Infinity) 2139095040 = true /\ in_class Class_NaN 2139095040 = false.
Proof. split; [eexists; split; vm_compute; reflexivity|by split]. Qed.
(** Any class but these three stops the compilation. *)
Lemma FPCmpClass32_zero : folded [(GetUserData, [VScalarReg 3]); (BitCastF32U32, [VInst 0]); (FPCmpClass32, [VInst 1; ImmU32 32])] = None.
Proof. vm_compute. reflexivity. Qed.

(** The sample index and the render target index of one ancillary word: the second becomes zero. *)
Lemma PackedAncillary_once : exists p, folded [(GetAttributeU32, [VAttribute PackedAncillary; ImmU32 0]); (BitFieldUExtract, [VInst 0; ImmU32 8; ImmU32 4]);
    (BitFieldUExtract, [VInst 0; ImmU32 16; ImmU32 11]); (WriteSharedU32, [VInst 1; VInst 2])] = Some p /\
  operands_of p 3 = Some [VInst 4; ImmU32 0] /\ operands_of p 4 = Some [VAttribute SampleIndex; ImmU32 0].
Proof. eexists. split; [vm_compute; reflexivity|]. split; vm_compute; reflexivity. Qed.

(** Rounding to 16 bits and back is left out. *)
Lemma ConvertF16_unrounded : exists p, folded [(GetUserData, [VScalarReg 3]); (BitCastF32U32, [VInst 0]); (ConvertF16F32, [VInst 1]); (ConvertF32F16, [VInst 2]);
    (BitCastU32F32, [VInst 3]); (WriteSharedU32, [ImmU32 0; VInst 4])] = Some p /\ operands_of p 5 = Some [ImmU32 0; VInst 0].
Proof. eexists. split; [vm_compute; reflexivity|]. vm_compute. reflexivity. Qed.

(** A constant division by zero stops the compilation. *)
Lemma UDiv32_zero a : 0 <= a <= U32_MAX -> folded [(UDiv32, [ImmU32 a; ImmU32 0])] = None.
Proof. intros _. vm_compute. reflexivity. Qed.
