(* ===== verification/BlockGraph.v ===== *)
(** * The graph of the blocks

    The edges between the blocks of a shader ([Block::AddBranch], ir/basic_block.cpp) and their
    post-order ([PostOrder], ir/post_order.cpp), in which the passes visit them. *)
From Stdlib Require Import ZArith Lia.
From stdpp Require Import base gmap sets list relations.
From S2P Require Import Prelude.

(** * Edges *)

Record Blocks := mkBlocks {
  imm_successors : gmap Z (list Z);
  imm_predecessors : gmap Z (list Z);
}.
Definition no_edges : Blocks := mkBlocks ∅ ∅.
Definition ImmSuccessors (g : Blocks) (b : Z) : list Z := default [] (imm_successors g !! b).
Definition ImmPredecessors (g : Blocks) (b : Z) : list Z := default [] (imm_predecessors g !! b).

Definition AddBranch (this block : Z) (g : Blocks) : option Blocks :=
  if bool_decide (block ∈ ImmSuccessors g this) then None else
  if bool_decide (this ∈ ImmPredecessors g block) then None else
  Some (mkBlocks (<[this := ImmSuccessors g this ++ [block]]> (imm_successors g))
                 (<[block := ImmPredecessors g block ++ [this]]> (imm_predecessors g))).

(** * Post-order

    [PostOrder] takes the first node of the syntax list, which an assertion says is a block. *)

(** The stack, its top first; the blocks that were pushed; the result so far. *)
Record Search := mkSearch { block_stack : list Z; visited : gset Z; post_order_blocks : list Z }.

(** [none_of]: the first successor that was not visited. *)
Definition visit (g : Blocks) (s : gset Z) (block : Z) : option Z :=
  snd <$> list_find (fun branch => branch ∉ s) (ImmSuccessors g block).
Definition turn (g : Blocks) (st : Search) : Search :=
  match block_stack st with
  | [] => st
  | block :: stack =>
      match visit g (visited st) block with
      | Some branch => mkSearch (branch :: block :: stack) ({[branch]} ∪ visited st) (post_order_blocks st)
      | None => mkSearch stack (visited st) (post_order_blocks st ++ [block])
      end
  end.
Fixpoint search (fuel : nat) (g : Blocks) (st : Search) : option (list Z) :=
  match block_stack st with
  | [] => Some (post_order_blocks st)
  | _ => match fuel with O => None | S n => search n g (turn g st) end
  end.

(** The blocks of a graph; each is pushed once and finished once. *)
Definition all_blocks (g : Blocks) (root : Z) : gset Z :=
  {[root]} ∪ list_to_set (concat (map_to_list (imm_successors g)).*2).
Definition PostOrder (g : Blocks) (first_block : Z) : option (list Z) :=
  search (2 * size (all_blocks g first_block)) g (mkSearch [first_block] {[first_block]} []).

(** ** The search *)

Definition edge (g : Blocks) (b s : Z) : Prop := s ∈ ImmSuccessors g b.

Lemma edge_all g root b s : edge g b s -> s ∈ all_blocks g root.
Proof.
  unfold edge, ImmSuccessors. destruct (imm_successors g !! b) as [l|] eqn:E; [|by intros ?%elem_of_nil]. cbn. intros Hs.
  unfold all_blocks. apply elem_of_union. right. apply elem_of_list_to_set. apply list_elem_of_In, List.in_concat. exists l. rewrite <- !list_elem_of_In.
  split; [|done]. apply list_elem_of_fmap. exists (b, l). split; [done|]. by apply elem_of_map_to_list.
Qed.
Lemma reach_all g root b : rtc (edge g) root b -> b ∈ all_blocks g root.
Proof.
  intros H. apply rtc_inv_r in H as [<-|(c & _ & Hc)]; [unfold all_blocks; apply elem_of_union; left; by apply elem_of_singleton|by eapply edge_all].
Qed.

Lemma visit_Some g s b x : visit g s b = Some x -> edge g b x /\ x ∉ s.
Proof.
  unfold visit. destruct (list_find _ _) as [[k y]|] eqn:E; [|done]. intros [= <-]. apply list_find_Some in E as (Hk & Hs & _).
  split; [|done]. by eapply list_elem_of_lookup_2.
Qed.
Lemma visit_None g s b : visit g s b = None -> forall x, edge g b x -> x ∈ s.
Proof.
  unfold visit. destruct (list_find _ _) as [|] eqn:E; [done|]. intros _ x Hx. apply list_find_None in E. rewrite Forall_forall in E.
  specialize (E x Hx). by destruct (decide (x ∈ s)).
Qed.

(** The stack is a path from the root, everything visited is on it or finished, and the successors of a
    finished block were finished before it or lead back to it. *)
Record searching (g : Blocks) (root : Z) (st : Search) : Prop := {
  se_nodup : NoDup (block_stack st ++ post_order_blocks st);
  se_visited : forall b, b ∈ visited st <-> b ∈ block_stack st \/ b ∈ post_order_blocks st;
  se_path : forall k b c, block_stack st !! k = Some b -> block_stack st !! S k = Some c -> edge g c b;
  se_reach : forall b, b ∈ visited st -> rtc (edge g) root b;
  se_root : last (block_stack st) = Some root \/ block_stack st = [] /\ last (post_order_blocks st) = Some root;
  se_done : forall i b s, post_order_blocks st !! i = Some b -> edge g b s ->
    s ∈ visited st /\ ((exists j, post_order_blocks st !! j = Some s /\ (j < i)%nat) \/ rtc (edge g) s b);
}.
Lemma start_searching g root : searching g root (mkSearch [root] {[root]} []).
Proof.
  constructor; cbn.
  - repeat constructor. apply not_elem_of_nil.
  - intros b. rewrite elem_of_singleton, list_elem_of_singleton. split; [by left|]. by intros [?|?%elem_of_nil].
  - by intros [|k] b c; cbn.
  - intros b ->%elem_of_singleton. apply rtc_refl.
  - by left.
  - done.
Qed.

(** Every block of the stack leads to the top. *)
Lemma path_to_top g (l : list Z) top : (forall k b c, (top :: l) !! k = Some b -> (top :: l) !! S k = Some c -> edge g c b) -> forall b, b ∈ top :: l -> rtc (edge g) b top.
Proof.
  revert top. induction l as [|x l IH]; intros top Hp b Hb.
  - apply list_elem_of_singleton in Hb as ->. apply rtc_refl.
  - apply elem_of_cons in Hb as [->|Hb]; [apply rtc_refl|]. eapply rtc_r; [apply (IH x); [|done]|by apply (Hp 0%nat)]. intros k c d H1 H2. by apply (Hp (S k)).
Qed.

Lemma turn_searching g root st : searching g root st -> searching g root (turn g st).
Proof.
  intros [Hnd Hv Hp Hr Hroot Hd]. destruct st as [[|b l] vis out]; [by constructor|]. cbn [block_stack visited post_order_blocks] in *. unfold turn. cbn [block_stack visited post_order_blocks].
  destruct (visit g vis b) as [x|] eqn:E.
  - apply visit_Some in E as [Hbx Hx]. constructor; cbn [block_stack visited post_order_blocks].
    + change ((x :: b :: l) ++ out) with (x :: (b :: l) ++ out). constructor; [|done]. rewrite elem_of_app, <- Hv. done.
    + intros c. rewrite elem_of_union, elem_of_singleton, Hv, (elem_of_cons (b :: l)). tauto.
    + intros [|k] c d; cbn; [by intros [= ->] [= ->]|]. apply Hp.
    + intros c [->%elem_of_singleton|Hc]%elem_of_union; [|by apply Hr]. eapply rtc_r; [|exact Hbx]. apply Hr, Hv. left. by left.
    + left. destruct Hroot as [Hroot|[? _]]; [|done]. by rewrite last_cons, Hroot.
    + intros i c s Hi Hcs. destruct (Hd i c s Hi Hcs) as [H1 H2]. split; [|done]. apply elem_of_union. by right.
  - pose proof (visit_None g vis b E) as Hall. constructor; cbn [block_stack visited post_order_blocks].
    + rewrite app_assoc. apply NoDup_app. cbn in Hnd. apply NoDup_cons in Hnd as [Hb Hnd]. split; [done|]. split; [|apply NoDup_singleton].
      intros c Hc ->%list_elem_of_singleton. done.
    + intros c. rewrite Hv, elem_of_cons, elem_of_app, list_elem_of_singleton. tauto.
    + intros k c d H1 H2. by apply (Hp (S k)).
    + done.
    + destruct Hroot as [Hroot|[? _]]; [|done]. rewrite last_cons in Hroot. destruct (last l) as [r|] eqn:El; [left; congruence|].
      apply last_None in El as ->. injection Hroot as ->. right. split; [done|]. by rewrite last_snoc.
    + intros i c s Hi Hcs. destruct (decide (i < length out)%nat) as [Hlt|Hge].
      * rewrite lookup_app_l in Hi by done. destruct (Hd i c s Hi Hcs) as [H1 [(j & Hj & Hji)|H2]]; (split; [done|]); [left; exists j|by right].
        rewrite lookup_app_l by lia. done.
      * rewrite lookup_app_r in Hi by lia. apply list_lookup_singleton_Some in Hi as [Hi <-]. assert (i = length out) as -> by lia.
        specialize (Hall s Hcs). split; [done|]. apply Hv in Hall as [Hst|Hout]; [right|left].
        -- eapply path_to_top; [|exact Hst]. intros k d e. apply Hp.
        -- apply list_elem_of_lookup in Hout as [j Hj]. exists j. pose proof (lookup_lt_Some _ _ _ Hj). rewrite lookup_app_l by done. done.
Qed.

(** A turn visits a block or finishes one. *)
Definition left_over (g : Blocks) (root : Z) (st : Search) : nat := (2 * size (all_blocks g root ∖ visited st) + length (block_stack st))%nat.
Lemma turn_decreases g root st : searching g root st -> block_stack st <> [] -> (left_over g root (turn g st) < left_over g root st)%nat.
Proof.
  intros Hs Hne. destruct st as [[|b l] vis out]; [done|]. unfold left_over, turn. cbn [block_stack visited post_order_blocks].
  destruct (visit g vis b) as [x|] eqn:E; cbn [block_stack visited length]; [|lia]. apply visit_Some in E as [Hbx Hx].
  assert (Hsz : (size (all_blocks g root ∖ ({[x]} ∪ vis)) < size (all_blocks g root ∖ vis))%nat).
  { apply subset_size. split.
    - intros y. rewrite !elem_of_difference, elem_of_union. tauto.
    - intros Hsub. assert (Hin : x ∈ all_blocks g root ∖ vis) by (apply elem_of_difference; split; [by eapply edge_all|done]).
      apply Hsub, elem_of_difference in Hin as [_ Hin]. apply Hin, elem_of_union. left. by apply elem_of_singleton. }
  lia.
Qed.
Lemma search_ends g root fuel : forall st, searching g root st -> (left_over g root st <= fuel)%nat ->
  exists st', search fuel g st = Some (post_order_blocks st') /\ searching g root st' /\ block_stack st' = [].
Proof.
  induction fuel as [|fuel IH]; intros st Hs Hf; destruct (block_stack st) as [|b l] eqn:E; try (exists st; by rewrite <- E; cbn; rewrite ?E; split; [destruct fuel; cbn; by rewrite E|]).
  all: cbn [search]; rewrite ?E.
  - exists st. done.
  - unfold left_over in Hf. rewrite E in Hf. cbn in Hf. lia.
  - exists st. done.
  - apply IH; [by apply turn_searching|]. pose proof (turn_decreases g root st Hs ltac:(by rewrite E)). lia.
Qed.

(** C40. [PostOrder] ends and gives every block that can be reached from the first one, once, and no other;
    the first block is the last of them. A successor of a block comes before it, but for the edges of
    loops: those whose successor leads back to the block. *)
Theorem PostOrder_exact (g : Blocks) (root : Z) : exists out, PostOrder g root = Some out /\ NoDup out /\
  (forall b, b ∈ out <-> rtc (edge g) root b) /\ last out = Some root /\
  forall i b s, out !! i = Some b -> edge g b s -> (exists j, out !! j = Some s /\ (j < i)%nat) \/ rtc (edge g) s b.
Proof.
  destruct (search_ends g root (2 * size (all_blocks g root)) _ (start_searching g root)) as (st & Hst & [Hnd Hv _ Hr Hroot Hd] & Hemp).
  { unfold left_over. cbn [block_stack visited length]. assert (Hsz : (size (all_blocks g root ∖ {[root]}) < size (all_blocks g root))%nat); [|lia].
    apply subset_size. split; [intros y [? _]%elem_of_difference; done|]. intros Hsub. assert (Hin : root ∈ all_blocks g root) by apply (reach_all g root root), rtc_refl.
    apply Hsub, elem_of_difference in Hin as [_ Hin]. apply Hin. by apply elem_of_singleton. }
  exists (post_order_blocks st). rewrite Hemp in *. split; [exact Hst|]. split; [done|].
  assert (Hin : forall b, b ∈ visited st <-> b ∈ post_order_blocks st) by (intros b; rewrite Hv, elem_of_nil; tauto).
  assert (Hlast : last (post_order_blocks st) = Some root) by (by destruct Hroot as [?|[_ ?]]).
  split; [|split; [done|]].
  - intros b. split; [intros Hb; by apply Hr, Hin|]. refine (rtc_ind_r (fun b => b ∈ post_order_blocks st) root _ _ b); [|intros c s _ Hbs IH].
    + apply last_Some in Hlast as [l ->]. apply elem_of_app. right. by left.
    + apply list_elem_of_lookup in IH as [i Hi]. apply Hin. by apply (Hd i c s Hi Hbs).
  - intros i b s Hi Hbs. by apply (Hd i b s Hi Hbs).
Qed.

(** * Both directions of the edges *)

Record dual (g : Blocks) : Prop := {
  du_edge : forall b s, s ∈ ImmSuccessors g b <-> b ∈ ImmPredecessors g s;
  du_once : forall b, NoDup (ImmSuccessors g b) /\ NoDup (ImmPredecessors g b);
}.
Lemma no_edges_dual : dual no_edges.
Proof. constructor; [intros b s; split; intros ?%elem_of_nil; done|split; constructor]. Qed.
Lemma add_last {A} (l : list A) x : NoDup l -> x ∉ l -> NoDup (l ++ [x]).
Proof. intros Hl Hx. apply NoDup_app. split; [done|]. split; [|apply NoDup_singleton]. by intros y Hy ->%list_elem_of_singleton. Qed.

(** An edge can be added once, and both ends know of it. *)
Lemma AddBranch_spec this block g : dual g ->
  AddBranch this block g = None /\ edge g this block \/
  exists g', AddBranch this block g = Some g' /\ ~ edge g this block /\ dual g' /\ forall b s, edge g' b s <-> edge g b s \/ (b = this /\ s = block).
Proof.
  intros [He Ho]. unfold AddBranch. case_bool_decide as H1; [by left|]. rewrite bool_decide_false by (by rewrite <- He). right.
  set (g' := mkBlocks _ _). assert (Hs : forall b, ImmSuccessors g' b = if decide (b = this) then ImmSuccessors g this ++ [block] else ImmSuccessors g b).
  { intros b. unfold ImmSuccessors at 1. cbn. case_decide; [subst; by rewrite lookup_insert_eq|by rewrite lookup_insert_ne]. }
  assert (Hp : forall b, ImmPredecessors g' b = if decide (b = block) then ImmPredecessors g block ++ [this] else ImmPredecessors g b).
  { intros b. unfold ImmPredecessors at 1. cbn. case_decide; [subst; by rewrite lookup_insert_eq|by rewrite lookup_insert_ne]. }
  assert (Hedge : forall b s, edge g' b s <-> edge g b s \/ (b = this /\ s = block)).
  { intros b s. unfold edge. rewrite Hs. case_decide; [subst; rewrite elem_of_app, list_elem_of_singleton; tauto|tauto]. }
  exists g'. split; [done|]. split; [done|]. split; [|done]. constructor.
  - intros b s. change (edge g' b s <-> b ∈ ImmPredecessors g' s). rewrite Hedge, Hp. unfold edge. rewrite He.
    case_decide; [subst; rewrite elem_of_app, list_elem_of_singleton; tauto|tauto].
  - intros b. rewrite Hs, Hp. destruct (Ho b) as [Ha Hb]. split; case_decide; subst; try done; apply add_last; try done. by rewrite <- He.
Qed.
