(* ===== verification/SharedBarriers.v ===== *)
(** * Barriers for shared memory

    [SharedMemoryBarrierPass] of src/src/shader_recompiler/ir/passes/shared_memory_barrier_pass.cpp: a
    barrier between the writes and the reads of shared memory in a block, and after conditions on which
    the threads of a group may differ, found by the search of ir/breadth_first_search.h over the nodes of
    the syntax list (ir/abstract_syntax_list.h). *)
From Stdlib Require Import ZArith Lia.
From stdpp Require Import base gmap sets list relations strings.
From S2P Require Import Prelude.
From S2P Require Import IrOpcodes ShaderIr IrEditing BlockGraph.

(** * The syntax list *)

Inductive AbstractSyntaxNode :=
| NBlock (block : Z)
| NIf (cond : Value) (body merge : Z)
| NEndIf (merge : Z)
| NLoop (body continue_block merge : Z)
| NRepeat (cond : Value) (loop_header merge : Z)
| NBreak (cond : Value) (merge skip : Z)
| NReturn
| NUnreachable.

(** * Searching the operands *)

(** The operands of [inst] from the last to the first: those that were not visited go to the end of the
    queue. *)
Fixpoint visit_args (arg : nat) (inst : Inst) (visited queue : list Z) (p : Ir) : option (list Z * list Z) :=
  match arg with
  | O => Some (visited, queue)
  | S arg =>
      arg_value ← Arg inst (Z.of_nat arg);
      imm ← IsImmediate p arg_value;
      if imm : bool then visit_args arg inst visited queue p else
      arg_inst ← InstRecursive p arg_value;
      if bool_decide (arg_inst ∈ visited) then visit_args arg inst visited queue p
      else visit_args arg inst (visited ++ [arg_inst]) (queue ++ [arg_inst]) p
  end.
(** [pred] says whether an instruction is the one looked for. An instruction enters the queue once, and
    the first one at most twice. *)
Fixpoint search_queue (fuel : nat) (pred : Inst -> option bool) (visited queue : list Z) (p : Ir) : option bool :=
  match queue with
  | [] => Some false
  | i :: queue =>
      match fuel with
      | O => None
      | S n =>
          inst ← insts p !! i;
          found ← pred inst;
          if found : bool then Some true else
          '(visited, queue) ← visit_args (Z.to_nat (NumArgs inst)) inst visited queue p;
          search_queue n pred visited queue p
      end
  end.
Definition BreadthFirstSearch (pred : Inst -> option bool) (value : Value) (p : Ir) : option bool :=
  imm ← IsImmediate p value;
  if imm : bool then Some false else
  i ← InstRecursive p value;
  inst ← insts p !! i;
  found ← pred inst;
  if found : bool then Some true else search_queue (S (size (insts p))) pred [] [i] p.

(** * The pass *)

Definition IsLoadShared (o : Opcode) : bool := match o with LoadSharedU16 | LoadSharedU32 | LoadSharedU64 => true | _ => false end.
Definition IsWriteShared (o : Opcode) : bool := match o with WriteSharedU16 | WriteSharedU32 | WriteSharedU64 => true | _ => false end.

Inductive BarrierAction := ANone | BarrierOnWrite | BarrierOnRead.
#[export] Instance action_eq_dec : EqDecision BarrierAction.
Proof. solve_decision. Defined.

Definition emit_barrier (block : Z) (at_ : option Z) (p : Ir) : option Ir :=
  '(_, p) ← PrependNewInst block at_ Barrier [] 0 p; Some p.

(** The loop over the instructions the block had. *)
Fixpoint barriers (block : Z) (l : list Z) (action : BarrierAction) (p : Ir) : option (BarrierAction * Ir) :=
  match l with
  | [] => Some (action, p)
  | i :: r =>
      inst ← insts p !! i;
      if IsLoadShared (op inst) then
        p ← (if decide (action = BarrierOnRead) then emit_barrier block (Some i) p else Some p);
        barriers block r BarrierOnWrite p
      else if IsWriteShared (op inst) then
        p ← (if decide (action = BarrierOnWrite) then emit_barrier block (Some i) p else Some p);
        barriers block r BarrierOnRead p
      else barriers block r action p
  end.
Definition EmitBarrierInBlock (block : Z) (p : Ir) : option Ir :=
  instructions ← blocks p !! block;
  '(action, p) ← barriers block instructions ANone p;
  if decide (action = ANone) then Some p else
  instructions ← blocks p !! block;
  back ← last instructions;
  emit_barrier block (Some back) p.

Definition LocalInvocationId : Z := 76.
Definition is_local_id (inst : Inst) : option bool :=
  if negb (bool_decide (op inst = GetAttributeU32)) then Some false else
  a ← Arg inst 0; match a with VAttribute attribute => Some (attribute =? LocalInvocationId) | _ => None end.

(** The first instruction of the block that is not a phi, or the end of the block. *)
Fixpoint find_not_phi (l : list Z) (p : Ir) : option (option Z) :=
  match l with
  | [] => Some None
  | i :: r => inst ← insts p !! i; if decide (op inst = Phi) then find_not_phi r p else Some (Some i)
  end.

(** [divergence_depth] and [divergence_end] *)
Definition Divergence : Type := (Z * list Z)%type.
Definition EmitBarrierInMergeBlock (cond : Value) (merge : Z) (d : Divergence) (p : Ir) : option (Divergence * Ir) :=
  let '(divergence_depth, divergence_end) := d in
  is_divergent_cond ← BreadthFirstSearch is_local_id cond p;
  if negb is_divergent_cond then Some (d, p) else
  p ← (if divergence_depth =? 0 then
         instructions ← blocks p !! merge;
         insert_point ← find_not_phi instructions p;
         emit_barrier merge insert_point p
       else Some p);
  Some ((wrap32 (divergence_depth + 1), merge :: divergence_end), p).

Fixpoint barrier_nodes (syntax_list : list AbstractSyntaxNode) (d : Divergence) (p : Ir) : option Ir :=
  match syntax_list with
  | [] => Some p
  | node :: r =>
      let '(divergence_depth, divergence_end) := d in
      match node with
      | NEndIf merge =>
          if bool_decide (merge ∈ divergence_end)
          then barrier_nodes r (wrap32 (divergence_depth - 1), divergence_end) p
          else barrier_nodes r d p
      | NIf cond _ merge => '(d, p) ← EmitBarrierInMergeBlock cond merge d p; barrier_nodes r d p
      | NBlock block => if divergence_depth =? 0 then p ← EmitBarrierInBlock block p; barrier_nodes r d p else barrier_nodes r d p
      | _ => barrier_nodes r d p
      end
  end.

(** The parts of [Info], [RuntimeInfo] and [Profile] that the pass looks at. *)
Record ComputeInfo := mkCompute {
  is_compute : bool;
  shared_memory_size : Z;
  workgroup_size : list Z;
  needs_lds_barriers : bool;
}.
Definition GcnSubgroupSize : Z := 64.
Definition SharedMemoryBarrierPass (info : ComputeInfo) (syntax_list : list AbstractSyntaxNode) (p : Ir) : option Ir :=
  if negb (is_compute info) then Some p else
  x ← (workgroup_size info).[0]; y ← (workgroup_size info).[1]; z ← (workgroup_size info).[2];
  let threadgroup_size := wrap32 (wrap32 (x * y) * z) in
  if (shared_memory_size info =? 0) || negb (threadgroup_size =? GcnSubgroupSize) || negb (needs_lds_barriers info) then Some p
  else barrier_nodes syntax_list (0, []) p.

(** * The search finds what the operands lead to *)

(** Operand [j] of [i], through identities. *)
Definition operand (p : Ir) (i j : Z) : Prop :=
  exists inst k v, insts p !! i = Some inst /\ 0 <= k < NumArgs inst /\ Arg inst k = Some v /\ Resolve p v = Some (VInst j).
Definition holds (pred : Inst -> option bool) (p : Ir) (i : Z) : Prop := exists inst, insts p !! i = Some inst /\ pred inst = Some true.

Section Search.
Context (p : Ir) (rank : Z -> nat) (pred : Inst -> option bool).
Hypothesis Hwf : sound p.
Hypothesis Hrk : rank_ok p rank.
Hypothesis Hpred : forall i inst, insts p !! i = Some inst -> is_Some (pred inst).

(** A value is an immediate or leads to an instruction. *)
Lemma value_cases v : good p v -> exists r, Resolve p v = Some r /\ good p r /\
  match r with
  | VInst j => IsImmediate p v = Some false /\ InstRecursive p v = Some j
  | _ => IsImmediate p v = Some true
  end.
Proof.
  intros Hg. destruct (Resolve_spec p rank v Hwf Hrk Hg) as (r & Hr & Hgr & _). exists r. split; [done|]. split; [done|].
  unfold IsImmediate, InstRecursive. rewrite Hr. by destruct r.
Qed.
Lemma good_inst j : good p (VInst j) -> exists inst, insts p !! j = Some inst.
Proof. intros (o & Ho & _). unfold op_of in Ho. destruct (insts p !! j) as [x|]; [by exists x|done]. Qed.
Lemma arg_good i inst k v : insts p !! i = Some inst -> 0 <= k < NumArgs inst -> Arg inst k = Some v -> good p v.
Proof. intros Hi Hk Ha. destruct v; try done. apply (so_good p Hwf i k). eapply (refers_intro p i inst); [done|lia|done]. Qed.

Lemma visit_args_spec i inst n : insts p !! i = Some inst -> Z.of_nat n <= NumArgs inst -> forall vis queue, NoDup vis ->
  exists new, visit_args n inst vis queue p = Some (vis ++ new, queue ++ new) /\ NoDup (vis ++ new) /\
    (forall j, j ∈ new -> operand p i j /\ is_Some (insts p !! j)) /\
    forall k v j, 0 <= k < Z.of_nat n -> Arg inst k = Some v -> Resolve p v = Some (VInst j) -> j ∈ vis ++ new.
Proof.
  intros Hi. induction n as [|n IH]; intros Hn vis queue Hnd; cbn [visit_args].
  { exists []. rewrite !app_nil_r. split; [done|]. split; [done|]. split; [by intros j ?%elem_of_nil|intros k v j Hk; lia]. }
  destruct (Arg_in inst (Z.of_nat n) (proj1 (shape_ok p i inst Hwf Hi)) ltac:(lia)) as [v Hv]. rewrite Hv. cbn [mbind option_bind].
  pose proof (arg_good i inst (Z.of_nat n) v Hi ltac:(lia) Hv) as Hg. destruct (value_cases v Hg) as (r & Hr & Hgr & Hc).
  assert (Hgo : forall vis0 queue0 found, visit_args n inst vis0 queue0 p = found -> NoDup vis0 -> (forall j, r = VInst j -> j ∈ vis0) ->
    exists new, found = Some (vis0 ++ new, queue0 ++ new) /\ NoDup (vis0 ++ new) /\ (forall j, j ∈ new -> operand p i j /\ is_Some (insts p !! j)) /\
      forall k w j, 0 <= k < Z.of_nat (S n) -> Arg inst k = Some w -> Resolve p w = Some (VInst j) -> j ∈ vis0 ++ new).
  { intros vis0 queue0 found <- Hnd0 Hin0. destruct (IH ltac:(lia) vis0 queue0 Hnd0) as (new & E & H1 & H2 & H3). exists new. split; [done|]. split; [done|]. split; [done|].
    intros k w j Hk Hw Hj. destruct (decide (k = Z.of_nat n)) as [->|]; [|apply (H3 k w); [lia|done|done]]. rewrite Hv in Hw. injection Hw as <-.
    apply elem_of_app. left. apply Hin0. congruence. }
  assert (Himm : IsImmediate p v = Some true -> (forall j, r <> VInst j) -> exists new, (imm ← IsImmediate p v; if imm : bool then visit_args n inst vis queue p else
      arg_inst ← InstRecursive p v; if bool_decide (arg_inst ∈ vis) then visit_args n inst vis queue p else visit_args n inst (vis ++ [arg_inst]) (queue ++ [arg_inst]) p)
    = Some (vis ++ new, queue ++ new) /\ NoDup (vis ++ new) /\ (forall j, j ∈ new -> operand p i j /\ is_Some (insts p !! j)) /\
      forall k w j, 0 <= k < Z.of_nat (S n) -> Arg inst k = Some w -> Resolve p w = Some (VInst j) -> j ∈ vis ++ new).
  { intros -> Hno. cbn [mbind option_bind]. apply Hgo; [done|done|]. intros j ->. by destruct (Hno j). }
  destruct r as [|j| | | | | | | | | | | |]; try (by apply Himm). destruct Hc as [-> ->]. cbn [mbind option_bind]. case_bool_decide as Hj.
  - apply Hgo; [done|done|]. by intros j' [= <-].
  - destruct (Hgo (vis ++ [j]) (queue ++ [j]) _ eq_refl) as (new & -> & H1 & H2 & H3); [by apply add_last|by intros j' [= <-]; apply elem_of_app; right; left|].
    exists (j :: new). rewrite <- !app_assoc in *. cbn [app] in *. split; [done|]. split; [done|]. split; [|done].
    intros j' [->|Hj']%elem_of_cons; [|by apply H2]. split; [exists inst, (Z.of_nat n), v; split; [done|]; split; [lia|done]|].
    destruct (good_inst j Hgr) as [x Hx]. by exists x.
Qed.

Lemma visited_bound vis : NoDup vis -> (forall j, j ∈ vis -> is_Some (insts p !! j)) -> (length vis <= size (insts p))%nat.
Proof.
  intros Hnd Hd. rewrite <- size_dom, <- (size_list_to_set (C := gset Z) vis Hnd). apply subseteq_size. intros j Hj%elem_of_list_to_set.
  apply elem_of_dom. by apply Hd.
Qed.

(** Everything seen waits in the queue, or is not what is looked for and its operands were seen. *)
Record seeking (root : Z) (vis queue : list Z) : Prop := {
  sk_nodup : NoDup vis;
  sk_in : forall j, j ∈ root :: vis -> is_Some (insts p !! j) /\ rtc (operand p) root j;
  sk_queue : forall j, j ∈ queue -> j ∈ root :: vis;
  sk_done : forall j, j ∈ root :: vis -> j ∈ queue \/ (~ holds pred p j /\ forall j', operand p j j' -> j' ∈ vis);
}.

Lemma search_queue_spec root fuel : forall vis queue, seeking root vis queue -> (size (insts p) - length vis + length queue <= fuel)%nat ->
  exists b, search_queue fuel pred vis queue p = Some b /\ (b = true <-> exists j, rtc (operand p) root j /\ holds pred p j).
Proof.
  induction fuel as [|fuel IH]; intros vis queue [Hnd Hin Hq Hd] Hf; (destruct queue as [|i queue]; [|try (cbn in Hf; lia)]).
  1, 2: exists false; split; [done|]; split; [done|]; intros (j & Hj & Hp); exfalso;
    assert (Hv : j ∈ root :: vis) by (refine (rtc_ind_r (fun j => j ∈ root :: vis) root _ _ j Hj); [by left|]; intros y z _ Hyz Hy;
      destruct (Hd y Hy) as [?%elem_of_nil|[_ H]]; [done|right; by apply H]);
    destruct (Hd j Hv) as [?%elem_of_nil|[H _]]; [done|by apply H].
  cbn [search_queue]. destruct (Hin i (Hq i ltac:(by left))) as [[inst Hi] Hreach]. rewrite Hi. cbn [mbind option_bind].
  destruct (Hpred i inst Hi) as [found Hfound]. rewrite Hfound. cbn [mbind option_bind]. destruct found.
  { exists true. split; [done|]. split; [|done]. intros _. exists i. split; [done|]. by exists inst. }
  pose proof (NumArgs_bound inst (proj1 (shape_ok p i inst Hwf Hi))) as [Hn _].
  destruct (visit_args_spec i inst (Z.to_nat (NumArgs inst)) Hi ltac:(lia) vis queue Hnd) as (new & -> & Hnd' & Hnew & Hall). cbn [mbind option_bind].
  assert (Hvis : forall j, j ∈ root :: vis ++ new <-> j ∈ root :: vis \/ j ∈ new) by (intros j; rewrite !elem_of_cons, elem_of_app; tauto).
  apply IH.
  - constructor; [done| | |].
    + intros j [Hj|Hj]%Hvis; [by apply Hin|]. destruct (Hnew j Hj) as [Ho Hs]. split; [done|]. eapply rtc_r; [exact Hreach|done].
    + intros j [Hj|Hj]%elem_of_app; apply Hvis; [left; apply Hq; by right|by right].
    + intros j [Hj|Hj]%Hvis; [|left; apply elem_of_app; by right]. destruct (decide (j = i)) as [->|Hne].
      * right. split; [intros (x & Hx & Hpx); congruence|]. intros j' (x & k & v & Hx & Hk & Hv & Hr). rewrite Hi in Hx. injection Hx as <-. apply (Hall k v); [lia|done|done].
      * destruct (Hd j Hj) as [[?|Hjq]%elem_of_cons|[H1 H2]]; [done|left; apply elem_of_app; by left|right]. split; [done|]. intros j' Hj'. apply elem_of_app. left. by apply H2.
  - assert (Hb : (length (vis ++ new) <= size (insts p))%nat).
    { apply visited_bound; [done|]. intros j Hj. destruct (proj1 (Hvis j) ltac:(by right)) as [H|H]; [by apply Hin|by apply Hnew]. }
    rewrite !length_app in *. cbn in Hf. lia.
Qed.

(** What the search says of a value. *)
Definition leads_to (value : Value) : Prop := exists i j, Resolve p value = Some (VInst i) /\ rtc (operand p) i j /\ holds pred p j.
Lemma BreadthFirstSearch_spec value : good p value -> exists b, BreadthFirstSearch pred value p = Some b /\ (b = true <-> leads_to value).
Proof.
  intros Hg. destruct (value_cases value Hg) as (r & Hr & Hgr & Hc). unfold BreadthFirstSearch, leads_to.
  destruct r as [|i| | | | | | | | | | | |]; try (rewrite Hc, Hr; exists false; split; [done|]; split; [done|]; by intros (i & j & [=] & _)).
  destruct Hc as [-> ->]. cbn [mbind option_bind]. destruct (good_inst i Hgr) as [inst Hi]. rewrite Hi. cbn [mbind option_bind].
  destruct (Hpred i inst Hi) as [found Hfound]. rewrite Hfound. cbn [mbind option_bind].
  assert (Hiff : forall b : bool, (b = true <-> exists j, rtc (operand p) i j /\ holds pred p j) -> (b = true <-> exists i0 j, Resolve p value = Some (VInst i0) /\ rtc (operand p) i0 j /\ holds pred p j)).
  { intros b H. rewrite H. split; [intros (j & Hj); by exists i, j|]. intros (i0 & j & Hi0 & Hj). rewrite Hr in Hi0. injection Hi0 as <-. by exists j. }
  destruct found.
  - exists true. split; [done|]. apply Hiff. split; [|done]. intros _. exists i. split; [apply rtc_refl|]. by exists inst.
  - destruct (search_queue_spec i (S (size (insts p))) [] [i]) as (b & Hb & H).
    + constructor; [constructor|intros j ->%list_elem_of_singleton; split; [by eexists|apply rtc_refl]|done|]. intros j ->%list_elem_of_singleton. left. by left.
    + cbn. lia.
    + exists b. split; [done|]. by apply Hiff.
Qed.
End Search.

(** * Barriers and nothing else *)

(** [p'] is [p] with more instructions in the blocks, all of them barriers. *)
Record adds_barriers (p p' : Ir) : Prop := {
  ab_next : next_inst p <= next_inst p';
  ab_old : forall i, i < next_inst p -> shapes p' !! i = shapes p !! i;
  ab_new : forall i, is_Some (shapes p' !! i) -> i < next_inst p \/ op_of p' i = Some Barrier;
  ab_blocks : forall b, is_Some (blocks p' !! b) <-> is_Some (blocks p !! b);
  ab_order : forall b, List.filter (fun i => i <? next_inst p) (default [] (blocks p' !! b)) = default [] (blocks p !! b);
}.
Lemma filter_below n l : (forall i, i ∈ l -> i < n) -> List.filter (fun i => i <? n) l = l.
Proof. induction l as [|x l IH]; intros H; [done|]. cbn. rewrite (proj2 (Z.ltb_lt _ _) (H x ltac:(by left))). by rewrite IH by (intros i Hi; apply H; by right). Qed.
Lemma block_below p b i : sound p -> i ∈ default [] (blocks p !! b) -> i < next_inst p.
Proof.
  intros Hs Hi. destruct (blocks p !! b) as [l|] eqn:E; [|by apply elem_of_nil in Hi]. destruct (proj2 (so_blocks p Hs b l E) i Hi) as [s Hsi].
  destruct (so_inst p Hs i s Hsi). lia.
Qed.
Lemma ab_refl p : sound p -> adds_barriers p p.
Proof.
  intros Hs. constructor; [lia|done| |done|].
  - intros i [s Hi]. left. destruct (so_inst p Hs i s Hi). lia.
  - intros b. apply filter_below. intros i. by apply block_below.
Qed.
Lemma ab_op p p' i : adds_barriers p p' -> i < next_inst p -> op_of p' i = op_of p i.
Proof. intros H Hi. by rewrite !op_shapes, (ab_old _ _ H). Qed.
Lemma filter_less n m l : n <= m -> List.filter (fun i => i <? n) (List.filter (fun i => i <? m) l) = List.filter (fun i => i <? n) l.
Proof.
  intros Hnm. induction l as [|x l IH]; [done|]. cbn. destruct (Z.ltb_spec x m); cbn; destruct (Z.ltb_spec x n); rewrite ?IH; try done; lia.
Qed.
Lemma ab_trans p q r : adds_barriers p q -> adds_barriers q r -> adds_barriers p r.
Proof.
  intros [A1 A2 A3 A4 A5] [B1 B2 B3 B4 B5]. constructor; [lia|intros i Hi; rewrite B2, A2 by lia; done| |intros b; by rewrite B4|].
  - intros i Hi. destruct (B3 i Hi) as [Hlt|?]; [|by right]. assert (Hq : is_Some (shapes q !! i)) by (by rewrite <- B2).
    destruct (A3 i Hq) as [?|Ho]; [by left|right]. by rewrite op_shapes, B2, <- op_shapes.
  - intros b. rewrite <- (filter_less (next_inst p) (next_inst q)) by done. by rewrite B5.
Qed.

Lemma insert_at_filter at_ n l : List.filter (fun i => i <? n) (insert_at at_ n l) = List.filter (fun i => i <? n) l.
Proof.
  induction l as [|x l IH]; cbn; [by rewrite Z.ltb_irrefl|]. case_bool_decide; cbn; [by rewrite Z.ltb_irrefl|]. by rewrite IH.
Qed.

(** One barrier. *)
Lemma emit_barrier_spec p rank b at_ : wf p -> rank_ok p rank ->
  exists p', emit_barrier b at_ p = Some p' /\ wf p' /\ rank_ok p' rank /\ adds_barriers p p' /\ op_of p' (next_inst p) = Some Barrier /\
    blocks p' = alter (insert_at at_ (next_inst p)) b (blocks p).
Proof.
  intros Hwf Hrk. unfold emit_barrier.
  destruct (PrependNewInst_spec p rank b at_ Barrier [] 0 Hwf Hrk) as (p' & -> & Hwf' & Hrk' & (Hs & Hn & Hb)); try done; [by intros v ?%elem_of_nil|].
  cbn [mbind option_bind]. exists p'. split; [done|]. split; [done|]. split; [done|].
  assert (Hop : op_of p' (next_inst p) = Some Barrier) by (by rewrite op_shapes, Hs, lookup_insert_eq).
  split; [|done]. constructor; [lia|intros i Hi; rewrite Hs, lookup_insert_ne; [done|lia]| | |].
  - intros i [s Hi]. destruct (decide (i = next_inst p)) as [->|Hne]; [by right|left]. rewrite Hs, lookup_insert_ne in Hi by done. destruct (so_inst p (wf_sound p Hwf) i s Hi). lia.
  - intros b'. by rewrite Hb, lookup_alter_is_Some.
  - intros b'. rewrite Hb. destruct (decide (b' = b)) as [->|]; [rewrite lookup_alter_eq|rewrite lookup_alter_ne by done; apply filter_below; intros i; by apply block_below, wf_sound].
    pose proof (filter_below (next_inst p) (default [] (blocks p !! b))) as Hf. destruct (blocks p !! b) as [l|] eqn:E; [|done]. cbn in *. rewrite insert_at_filter. apply Hf.
    intros i Hi. apply (block_below p b i (wf_sound p Hwf)). by rewrite E.
Qed.

(** * Fenced blocks *)

(** What an instruction with opcode [o] needs: no shared access of the other kind since the last barrier. *)
Definition scan1 (a : BarrierAction) (o : Opcode) : option BarrierAction :=
  if decide (o = Barrier) then Some ANone
  else if IsLoadShared o then (if decide (a = BarrierOnRead) then None else Some BarrierOnWrite)
  else if IsWriteShared o then (if decide (a = BarrierOnWrite) then None else Some BarrierOnRead)
  else Some a.
Fixpoint scan (a : BarrierAction) (l : list Opcode) : option BarrierAction :=
  match l with [] => Some a | o :: r => a ← scan1 a o; scan a r end.
Definition ops_of (p : Ir) (l : list Z) : list Opcode := omap (op_of p) l.
Definition fenced (p : Ir) (b : Z) : Prop := is_Some (scan ANone (ops_of p (default [] (blocks p !! b)))).

Lemma scan_app a l r : scan a (l ++ r) = a' ← scan a l; scan a' r.
Proof. revert a. induction l as [|o l IH]; intros a; [done|]. cbn. destruct (scan1 a o) as [a'|]; [|done]. cbn. apply IH. Qed.

(** Fewer accesses behind can only help. *)
Definition looser (a' a : BarrierAction) : Prop := a' = ANone \/ a' = a.
Lemma scan1_looser a a' o r : looser a' a -> scan1 a o = Some r -> exists r', scan1 a' o = Some r' /\ looser r' r.
Proof.
  intros [-> | ->] H; [|exists r; split; [done|by right]]. unfold scan1 in *. case_decide; [exists ANone; split; [done|by left]|].
  destruct (IsLoadShared o); [case_decide; [done|]; injection H as <-; exists BarrierOnWrite; by split; [|right]|].
  destruct (IsWriteShared o); [case_decide; [done|]; injection H as <-; exists BarrierOnRead; by split; [|right]|]. exists ANone. by split; [|left].
Qed.
Lemma scan_looser l : forall a a' r, looser a' a -> scan a l = Some r -> exists r', scan a' l = Some r' /\ looser r' r.
Proof.
  induction l as [|o l IH]; intros a a' r Ha H; cbn in *; [injection H as <-; by exists a'|]. destruct (scan1 a o) as [a1|] eqn:E; [|done].
  destruct (scan1_looser a a' o a1 Ha E) as (a1' & -> & Ha1). cbn in *. by apply (IH a1).
Qed.
Lemma scan_insert l1 l2 a r : scan a (l1 ++ l2) = Some r -> exists r', scan a (l1 ++ Barrier :: l2) = Some r' /\ looser r' r.
Proof.
  rewrite !scan_app. destruct (scan a l1) as [a1|]; [|done]. cbn [mbind option_bind]. intros H. change (scan a1 (Barrier :: l2)) with (scan ANone l2).
  apply (scan_looser l2 a1); [by left|done].
Qed.

(** The opcodes of a block with one more barrier. *)
Lemma insert_at_split at_ n l : exists l1 l2, l = l1 ++ l2 /\ insert_at at_ n l = l1 ++ n :: l2.
Proof.
  induction l as [|x l (l1 & l2 & -> & IH)]; [by exists [], []|]. cbn. case_bool_decide; [by exists [], (x :: l1 ++ l2)|].
  exists (x :: l1), l2. by rewrite IH.
Qed.
Lemma ops_same p p' l : (forall i, i ∈ l -> op_of p' i = op_of p i) -> ops_of p' l = ops_of p l.
Proof. unfold ops_of. induction l as [|x l IH]; intros H; [done|]. cbn. rewrite H by (by left). by rewrite IH by (intros i Hi; apply H; by right). Qed.
Lemma ops_app p l1 l2 : ops_of p (l1 ++ l2) = ops_of p l1 ++ ops_of p l2.
Proof. apply omap_app. Qed.

(** Adding a barrier keeps blocks fenced. *)
Lemma emit_fenced p p' b at_ b' : wf p -> adds_barriers p p' -> op_of p' (next_inst p) = Some Barrier ->
  blocks p' = alter (insert_at at_ (next_inst p)) b (blocks p) -> fenced p b' -> fenced p' b'.
Proof.
  intros Hwf Hab Ho Hb [r Hr]. unfold fenced. rewrite Hb.
  assert (Hsame : forall l, (forall i, i ∈ l -> i ∈ default [] (blocks p !! b')) -> ops_of p' l = ops_of p l).
  { intros l Hl. apply ops_same. intros i Hi. apply (ab_op _ _ _ Hab), (block_below p b' i (wf_sound p Hwf)), Hl, Hi. }
  destruct (decide (b' = b)) as [->|]; [rewrite lookup_alter_eq|rewrite lookup_alter_ne by done; rewrite Hsame by done; by exists r].
  destruct (blocks p !! b) as [l|]; [|by exists ANone]. cbn [default from_option fmap option_fmap option_map] in Hr, Hsame |- *.
  destruct (insert_at_split at_ (next_inst p) l) as (l1 & l2 & -> & ->).
  assert (E : ops_of p' (l1 ++ next_inst p :: l2) = ops_of p l1 ++ Barrier :: ops_of p l2).
  { rewrite ops_app, Hsame by (intros i Hi; apply elem_of_app; by left). f_equal. unfold ops_of. cbn [omap list_omap]. rewrite Ho. f_equal.
    apply Hsame. intros i Hi. apply elem_of_app. by right. }
  change (is_Some (scan ANone (ops_of p' (l1 ++ next_inst p :: l2)))). rewrite E. change (scan ANone (ops_of p (l1 ++ l2)) = Some r) in Hr. rewrite ops_app in Hr. destruct (scan_insert _ _ _ _ Hr) as (r' & -> & _). by exists r'.
Qed.

(** ** One block *)

Lemma insert_before i n l r : i ∉ l -> insert_at (Some i) n (l ++ i :: r) = l ++ n :: i :: r.
Proof.
  induction l as [|x l IH]; intros Hi; cbn; [by rewrite bool_decide_true|]. rewrite elem_of_cons in Hi. rewrite bool_decide_false by (intros [= ->]; tauto).
  by rewrite IH by tauto.
Qed.

(** The block has the instructions [front], where the loop has been, and [rest]. *)
Record between (p0 p : Ir) (rank : Z -> nat) (b : Z) (front rest : list Z) (a : BarrierAction) : Prop := {
  bt_wf : wf p;
  bt_rank : rank_ok p rank;
  bt_block : blocks p !! b = Some (front ++ rest);
  bt_scan : exists s, scan ANone (ops_of p front) = Some s /\ looser s a;
  bt_adds : adds_barriers p0 p;
  bt_others : forall b', b' <> b -> blocks p !! b' = blocks p0 !! b';
}.
Lemma op_shape p j o : op_of p j = Some o -> exists s, shapes p !! j = Some s.
Proof. rewrite op_shapes. destruct (shapes p !! j) as [s|]; [by exists s|done]. Qed.
Lemma between_barrier p0 p rank b front i rest a : between p0 p rank b front (i :: rest) a ->
  exists p1 n, emit_barrier b (Some i) p = Some p1 /\ between p0 p1 rank b (front ++ [n]) (i :: rest) ANone /\
    forall j o, op_of p j = Some o -> op_of p1 j = Some o.
Proof.
  intros [Hwf Hrk Hb (s & Hs & _) Hab Hoth]. destruct (emit_barrier_spec p rank b (Some i) Hwf Hrk) as (p1 & -> & Hwf1 & Hrk1 & Hab1 & Ho & Hb1).
  exists p1, (next_inst p). split; [done|]. split; [|intros j o Hj; rewrite (ab_op _ _ _ Hab1); [done|]; destruct (op_shape p j o Hj) as (x & Hx); destruct (so_inst p (wf_sound p Hwf) j x Hx); lia].
  destruct (so_blocks p (wf_sound p Hwf) b _ Hb) as [Hnd _].
  assert (Hi : i ∉ front) by (apply NoDup_app in Hnd as (_ & Hdis & _); intros Hi; apply (Hdis i Hi); by left).
  constructor; [done|done| | |by eapply ab_trans|].
  - rewrite Hb1, lookup_alter_eq, Hb. cbn. rewrite insert_before by done. by rewrite <- app_assoc.
  - exists ANone. split; [|by left]. rewrite ops_app, scan_app.
    rewrite (ops_same p p1 front) by (intros j Hj; apply (ab_op _ _ _ Hab1), (block_below p b j (wf_sound p Hwf)); rewrite Hb; apply elem_of_app; by left).
    rewrite Hs. cbn [mbind option_bind]. unfold ops_of. cbn [omap list_omap]. by rewrite Ho.
  - intros b' Hb'. rewrite Hb1, lookup_alter_ne by done. by apply Hoth.
Qed.
Lemma between_next p0 p rank b front i rest a o a' : between p0 p rank b front (i :: rest) a -> op_of p i = Some o -> scan1 a o = Some a' ->
  between p0 p rank b (front ++ [i]) rest a'.
Proof.
  intros [Hwf Hrk Hb (s & Hs & Hl) Hab Hoth] Ho Ha. constructor; [done|done|by rewrite <- app_assoc| |done|done].
  destruct (scan1_looser a s o a' Hl Ha) as (s' & Hs' & Hl'). exists s'. split; [|done]. rewrite ops_app, scan_app, Hs. cbn [mbind option_bind].
  unfold ops_of. cbn [omap list_omap]. rewrite Ho. cbn. by rewrite Hs'.
Qed.

Lemma shared_not_barrier o : IsLoadShared o = true \/ IsWriteShared o = true -> o <> Barrier.
Proof. by intros H ->; destruct H. Qed.
Lemma load_not_write o : IsLoadShared o = true -> IsWriteShared o = false.
Proof. by destruct o. Qed.

Lemma barriers_spec p0 rank b rest : forall p front a, between p0 p rank b front rest a -> (a <> ANone -> front <> []) ->
  exists a' p' front', barriers b rest a p = Some (a', p') /\ between p0 p' rank b front' [] a' /\ (a' <> ANone -> front' <> []).
Proof.
  induction rest as [|i rest IH]; intros p front a Hbt Hne; cbn [barriers]; [by exists a, p, front|].
  assert (Hi : exists inst, insts p !! i = Some inst).
  { destruct (so_blocks p (wf_sound p (bt_wf _ _ _ _ _ _ _ Hbt)) b _ (bt_block _ _ _ _ _ _ _ Hbt)) as [_ Hin].
    destruct (Hin i ltac:(apply elem_of_app; right; by left)) as [s Hs]. apply shapes_inv in Hs as (inst & Hx & _). by exists inst. }
  destruct Hi as [inst Hi]. rewrite Hi. cbn [mbind option_bind].
  assert (Hstep : forall bad good_, (forall a0, a0 <> bad -> scan1 a0 (op inst) = Some good_) -> ANone <> bad ->
    exists a' p' front', (p ← (if decide (a = bad) then emit_barrier b (Some i) p else Some p); barriers b rest good_ p) = Some (a', p') /\
      between p0 p' rank b front' [] a' /\ (a' <> ANone -> front' <> [])).
  { intros bad good_ Hscan Hbad. destruct (decide (a = bad)) as [Ea|Ea].
    - destruct (between_barrier _ _ _ _ _ _ _ _ Hbt) as (p1 & n & -> & Hbt1 & Hsame). cbn [mbind option_bind].
      apply (IH p1 ((front ++ [n]) ++ [i]) good_); [|intros _; by destruct (front ++ [n])].
      eapply between_next; [exact Hbt1|apply Hsame; unfold op_of; by rewrite Hi|by apply Hscan].
    - cbn [mbind option_bind]. apply (IH p (front ++ [i]) good_); [|intros _; by destruct front]. eapply between_next; [exact Hbt| |by apply Hscan].
      unfold op_of. by rewrite Hi. }
  destruct (IsLoadShared (op inst)) eqn:El; [|destruct (IsWriteShared (op inst)) eqn:Ew].
  - apply Hstep; [|done]. intros a0 Ha0. unfold scan1. rewrite decide_False by (apply shared_not_barrier; by left). by rewrite El, decide_False.
  - apply Hstep; [|done]. intros a0 Ha0. unfold scan1. rewrite decide_False by (apply shared_not_barrier; by right). by rewrite El, Ew, decide_False.
  - destruct (decide (op inst = Barrier)) as [Eb|Eb].
    + apply (IH p (front ++ [i]) a); [|intros _; by destruct front].
      assert (Hn : between p0 p rank b (front ++ [i]) rest ANone) by (eapply between_next; [exact Hbt|unfold op_of; by rewrite Hi|unfold scan1; by rewrite decide_True]).
      destruct Hn as [H1 H2 H3 (s & Hs & Hl) H5 H6]. constructor; try done. exists s. split; [done|]. left. by destruct Hl.
    + apply (IH p (front ++ [i]) a); [|intros _; by destruct front]. eapply between_next; [exact Hbt|unfold op_of; by rewrite Hi|]. unfold scan1. by rewrite decide_False, El, Ew.
Qed.

Lemma EmitBarrierInBlock_spec p rank b : wf p -> rank_ok p rank -> is_Some (blocks p !! b) ->
  exists p', EmitBarrierInBlock b p = Some p' /\ wf p' /\ rank_ok p' rank /\ adds_barriers p p' /\ fenced p' b /\
    forall b', b' <> b -> blocks p' !! b' = blocks p !! b'.
Proof.
  intros Hwf Hrk [l Hl]. unfold EmitBarrierInBlock. rewrite Hl. cbn [mbind option_bind].
  destruct (barriers_spec p rank b l p [] ANone) as (a & p1 & front & -> & [Hwf1 Hrk1 Hb1 (s & Hs & _) Hab1 Hoth1] & Hne); [|done|].
  { constructor; try done; [by exists ANone; split; [|left]|apply ab_refl, Hwf]. }
  cbn [mbind option_bind]. rewrite app_nil_r in Hb1. assert (Hf : fenced p1 b) by (unfold fenced; rewrite Hb1; by exists s).
  destruct (decide (a = ANone)) as [Ea|Ea]; [by exists p1|]. rewrite Hb1. cbn [mbind option_bind]. destruct (last front) as [x|] eqn:El; [|apply last_None in El; by destruct (Hne Ea)].
  cbn [mbind option_bind]. destruct (emit_barrier_spec p1 rank b (Some x) Hwf1 Hrk1) as (p' & -> & Hwf' & Hrk' & Hab & Ho & Hb').
  exists p'. split; [done|]. split; [done|]. split; [done|]. split; [by eapply ab_trans|]. split; [by apply (emit_fenced p1 p' b (Some x) b)|].
  intros b' Hne'. rewrite Hb', lookup_alter_ne by done. by apply Hoth1.
Qed.

(** ** Barriers do not change the search *)

Lemma resolve_more p v r n : forall m, (n <= m)%nat -> resolve n p v = Some r -> resolve m p v = Some r.
Proof.
  revert v. induction n as [|n IH]; intros v m Hm Hr; destruct v as [|i| | | | | | | | | | | |]; try (by destruct m); destruct m as [|m]; try lia; try done;
    cbn in *; destruct (insts p !! i) as [inst|]; try done; cbn in *; destruct (decide (op inst = Identity)); try done.
  destruct (Arg inst 0) as [a|]; [|done]. cbn in *. apply IH; [lia|done].
Qed.

Section Unchanged.
Context (p p' : Ir) (rank rank' : Z -> nat) (pred : Inst -> option bool).
Hypothesis Hs : sound p.
Hypothesis Hs' : sound p'.
Hypothesis Hrk : rank_ok p rank.
Hypothesis Hrk' : rank_ok p' rank'.
Hypothesis Hab : adds_barriers p p'.
Hypothesis Hpred : forall i inst, insts p !! i = Some inst -> is_Some (pred inst).
Hypothesis Hpred' : forall i inst, insts p' !! i = Some inst -> is_Some (pred inst).
Hypothesis Hshape : forall x y, shape x = shape y -> pred x = pred y.

Lemma old_inst i inst : insts p !! i = Some inst -> exists inst', insts p' !! i = Some inst' /\ shape inst' = shape inst.
Proof.
  intros Hi. pose proof (shapes_Some p i inst Hi) as Hsi. pose proof (so_inst p Hs i _ Hsi) as [_ Hlt]. rewrite <- (ab_old p p' Hab) in Hsi by lia.
  apply shapes_inv in Hsi as (inst' & Hi' & E). by exists inst'.
Qed.
Lemma shape_arg x y k : shape x = shape y -> Arg x k = Arg y k.
Proof. intros E. rewrite <- (Arg_shape x), <- (Arg_shape y). by rewrite E. Qed.
Lemma shape_num x y : shape x = shape y -> NumArgs x = NumArgs y.
Proof. intros E. rewrite <- (NumArgs_shape x), <- (NumArgs_shape y). by rewrite E. Qed.
Lemma shape_op x y : shape x = shape y -> op x = op y.
Proof. intros E. change (op (shape x) = op (shape y)). by rewrite E. Qed.
Lemma old_good v : good p v -> good p' v.
Proof.
  destruct v as [|j| | | | | | | | | | | |]; try done. intros (o & Ho & H). exists o. split; [|done]. destruct (op_shape p j o Ho) as [s Hsj].
  rewrite (ab_op p p' j Hab); [done|]. destruct (so_inst p Hs j s Hsj). lia.
Qed.

Lemma old_resolve n v r : good p v -> resolve n p v = Some r -> resolve n p' v = Some r.
Proof.
  revert v. induction n as [|n IH]; intros v Hg Hr; destruct v as [|i| | | | | | | | | | | |]; try done; cbn in *;
    destruct (insts p !! i) as [inst|] eqn:Hi; try done; destruct (old_inst i inst Hi) as (inst' & -> & E); cbn in *; rewrite (shape_op _ _ E) in *;
    destruct (decide (op inst = Identity)) as [Hid|]; try done.
  rewrite (shape_arg _ _ 0 E). destruct (Arg inst 0) as [a|] eqn:Ha; [|done]. cbn in *. apply IH; [|done].
  eapply (arg_good p Hs i inst 0 a Hi); [|done]. unfold NumArgs. by rewrite Hid.
Qed.
Lemma old_Resolve v : good p v -> Resolve p' v = Resolve p v.
Proof.
  intros Hg. destruct (Resolve_spec p rank v Hs Hrk Hg) as (r & Hr & _). rewrite Hr. unfold Resolve in *.
  eapply resolve_more; [|by apply old_resolve; [|exact Hr]]. rewrite <- !size_dom. apply subseteq_size. intros i Hi%elem_of_dom. destruct Hi as [x Hx].
  destruct (old_inst i x Hx) as (x' & Hx' & _). apply elem_of_dom. by exists x'.
Qed.
Lemma old_operand i j : is_Some (insts p !! i) -> operand p' i j <-> operand p i j.
Proof.
  intros [inst Hi]. destruct (old_inst i inst Hi) as (inst' & Hi' & E). split.
  - intros (x & k & v & Hx & Hk & Hv & Hr). rewrite Hi' in Hx. injection Hx as <-. rewrite (shape_num _ _ E) in Hk. rewrite (shape_arg _ _ k E) in Hv.
    exists inst, k, v. rewrite <- (old_Resolve v) by by eapply arg_good. done.
  - intros (x & k & v & Hx & Hk & Hv & Hr). rewrite Hi in Hx. injection Hx as <-. exists inst', k, v. rewrite (shape_num _ _ E), (shape_arg _ _ k E).
    rewrite (old_Resolve v) by by eapply arg_good. done.
Qed.
Lemma operand_exists i j : operand p i j -> is_Some (insts p !! j).
Proof.
  intros (inst & k & v & Hi & Hk & Hv & Hr). destruct (Resolve_spec p rank v Hs Hrk (arg_good p Hs i inst k v Hi Hk Hv)) as (r & Hr' & Hg & _).
  rewrite Hr in Hr'. injection Hr' as <-. destruct (good_inst p j Hg) as [x Hx]. by exists x.
Qed.
Lemma old_reach i j : is_Some (insts p !! i) -> rtc (operand p') i j <-> rtc (operand p) i j.
Proof.
  intros Hi. split; intros H.
  - assert (Hj : rtc (operand p) i j /\ is_Some (insts p !! j)); [|apply Hj].
    refine (rtc_ind_r (fun j => rtc (operand p) i j /\ is_Some (insts p !! j)) i _ _ j H); [by split; [apply rtc_refl|]|].
    intros y z _ Hyz [Hy Hey]. apply old_operand in Hyz; [|done]. split; [by eapply rtc_r|by eapply operand_exists].
  - assert (Hj : rtc (operand p') i j /\ is_Some (insts p !! j)); [|apply Hj].
    refine (rtc_ind_r (fun j => rtc (operand p') i j /\ is_Some (insts p !! j)) i _ _ j H); [by split; [apply rtc_refl|]|].
    intros y z _ Hyz [Hy Hey]. split; [|by eapply operand_exists]. eapply rtc_r; [exact Hy|]. by apply old_operand.
Qed.
Lemma reach_exists i j : is_Some (insts p !! i) -> rtc (operand p) i j -> is_Some (insts p !! j).
Proof. intros Hi H. refine (rtc_ind_r (fun j => is_Some (insts p !! j)) i Hi _ j H). intros y z _ Hyz _. by eapply operand_exists. Qed.
Lemma old_holds j : is_Some (insts p !! j) -> holds pred p' j <-> holds pred p j.
Proof.
  intros [inst Hi]. destruct (old_inst j inst Hi) as (inst' & Hi' & E). unfold holds. rewrite Hi, Hi'.
  split; intros (x & [= <-] & Hx); eexists; (split; [done|]); [by rewrite <- (Hshape _ _ E)|by rewrite (Hshape _ _ E)].
Qed.
Lemma old_search v : good p v -> BreadthFirstSearch pred v p' = BreadthFirstSearch pred v p.
Proof.
  intros Hg. destruct (BreadthFirstSearch_spec p rank pred Hs Hrk Hpred v Hg) as (b & -> & Hb).
  destruct (BreadthFirstSearch_spec p' rank' pred Hs' Hrk' Hpred' v (old_good v Hg)) as (b' & -> & Hb'). f_equal.
  apply eq_true_iff_eq. rewrite Hb, Hb'. unfold leads_to. rewrite (old_Resolve v Hg).
  assert (Hex : forall i, Resolve p v = Some (VInst i) -> is_Some (insts p !! i)).
  { intros i Hi. destruct (Resolve_spec p rank v Hs Hrk Hg) as (r & Hr & Hgr & _). rewrite Hi in Hr. injection Hr as <-. destruct (good_inst p i Hgr) as [x Hx]. by exists x. }
  split; intros (i & j & Hi & Hj & Hh); pose proof (Hex i Hi) as Hei; exists i, j; (split; [done|]); [apply old_reach in Hj; [|done]|]; pose proof (reach_exists i j Hei Hj) as Hej;
    (split; [try done; by apply old_reach|by apply old_holds]).
Qed.
End Unchanged.

(** * The whole pass *)

(** What the pass relies on: [GetAttributeU32] names its attribute, and the nodes have their blocks and conditions. *)
Definition attributes_ok (p : Ir) : Prop := forall i inst, insts p !! i = Some inst -> is_Some (is_local_id inst).
Definition node_ok (p : Ir) (node : AbstractSyntaxNode) : Prop :=
  match node with
  | NBlock b => is_Some (blocks p !! b)
  | NIf cond _ merge => good p cond /\ is_Some (blocks p !! merge)
  | _ => True
  end.

(** The depth of divergence after a node, by the conditions of the program before the pass. *)
Definition divergent (p : Ir) (cond : Value) : bool := default false (BreadthFirstSearch is_local_id cond p).
Definition depth_step (p : Ir) (d : Divergence) (node : AbstractSyntaxNode) : Divergence :=
  match node with
  | NEndIf merge => if bool_decide (merge ∈ d.2) then (wrap32 (d.1 - 1), d.2) else d
  | NIf cond _ merge => if divergent p cond then (wrap32 (d.1 + 1), merge :: d.2) else d
  | _ => d
  end.
Definition depth_after (p : Ir) (d : Divergence) (nodes : list AbstractSyntaxNode) : Divergence := foldl (depth_step p) d nodes.

(** A block that the pass may change: it is a node, or the merge block of a divergent condition, where the
    threads of the group are together. *)
Definition outside (p : Ir) (d : Divergence) (nodes : list AbstractSyntaxNode) (b : Z) : Prop :=
  (exists pre post, nodes = pre ++ NBlock b :: post /\ (depth_after p d pre).1 = 0) \/
  (exists pre cond body post, nodes = pre ++ NIf cond body b :: post /\ divergent p cond = true /\ (depth_after p d pre).1 = 0).

Lemma shape_local_id x y : shape x = shape y -> is_local_id x = is_local_id y.
Proof. intros E. unfold is_local_id. by rewrite (shape_op _ _ E), (shape_arg _ _ 0 E). Qed.
Lemma ab_attributes p p' : sound p -> sound p' -> adds_barriers p p' -> attributes_ok p -> attributes_ok p'.
Proof.
  intros Hs Hs' Hab Ha i inst Hi. pose proof (shapes_Some p' i inst Hi) as Hsi. destruct (ab_new p p' Hab i ltac:(by eexists)) as [Hlt|Ho].
  - rewrite (ab_old p p' Hab) in Hsi by done. apply shapes_inv in Hsi as (x & Hx & E). rewrite (shape_local_id inst x E). by apply (Ha i).
  - unfold op_of in Ho. rewrite Hi in Ho. injection Ho as Ho. unfold is_local_id. rewrite Ho. by eexists.
Qed.
Lemma ab_node p p' node : sound p -> adds_barriers p p' -> node_ok p node -> node_ok p' node.
Proof.
  intros Hs Hab. destruct node; cbn; try done; [by rewrite (ab_blocks p p' Hab)|]. intros [Hg Hb]. split; [by apply (old_good p p' Hs Hab)|by rewrite (ab_blocks p p' Hab)].
Qed.
Lemma find_not_phi_total p l : (forall i, i ∈ l -> is_Some (insts p !! i)) -> is_Some (find_not_phi l p).
Proof.
  induction l as [|i l IH]; intros Hl; cbn; [by eexists|]. destruct (Hl i ltac:(by left)) as [x ->]. cbn. case_decide; [|by eexists].
  apply IH. intros j Hj. apply Hl. by right.
Qed.

(** [p'] follows [p] in the pass. *)
Record follows (rank : Z -> nat) (p p' : Ir) : Prop := {
  fo_wf : wf p';
  fo_rank : rank_ok p' rank;
  fo_adds : adds_barriers p p';
  fo_fenced : forall b, fenced p b -> fenced p' b;
}.
Lemma follows_refl rank p : wf p -> rank_ok p rank -> follows rank p p.
Proof. intros Hwf Hrk. constructor; [done|done|apply ab_refl, Hwf|done]. Qed.
Lemma follows_trans rank p q r : follows rank p q -> follows rank q r -> follows rank p r.
Proof. intros [A1 A2 A3 A4] [B1 B2 B3 B4]. constructor; [done|done|by eapply ab_trans|]. intros b Hb. by apply B4, A4. Qed.

Lemma merge_block_spec p0 p rank cond merge d : wf p0 -> rank_ok p0 rank -> attributes_ok p0 -> follows rank p0 p -> good p0 cond -> is_Some (blocks p0 !! merge) ->
  exists p', EmitBarrierInMergeBlock cond merge d p = Some (if divergent p0 cond then (wrap32 (d.1 + 1), merge :: d.2) else d, p') /\ follows rank p p' /\
    forall b, (divergent p0 cond = true -> d.1 = 0 -> b <> merge) -> blocks p' !! b = blocks p !! b.
Proof.
  intros Hwf0 Hrk0 Hat [Hwf Hrk Hab _] Hg Hb. destruct d as [depth ends]. unfold EmitBarrierInMergeBlock.
  rewrite (old_search p0 p rank rank is_local_id (wf_sound _ Hwf0) (wf_sound _ Hwf) Hrk0 Hrk Hab Hat (ab_attributes p0 p (wf_sound _ Hwf0) (wf_sound _ Hwf) Hab Hat) shape_local_id cond Hg).
  destruct (BreadthFirstSearch_spec p0 rank is_local_id (wf_sound _ Hwf0) Hrk0 Hat cond Hg) as (found & Hf & _). unfold divergent. rewrite Hf. cbn [mbind option_bind default from_option id].
  destruct found; cbn [negb fst snd]; [|exists p; split; [done|]; split; [by apply follows_refl|done]].
  destruct (Z.eqb_spec depth 0) as [->|Hd]; [|exists p; split; [done|]; split; [by apply follows_refl|done]].
  apply (ab_blocks p0 p Hab) in Hb as [l Hl]. rewrite Hl. cbn [mbind option_bind].
  destruct (find_not_phi_total p l) as [at_ Hat_].
  { intros i Hi. destruct (proj2 (so_blocks p (wf_sound p Hwf) merge l Hl) i Hi) as [s Hs]. apply shapes_inv in Hs as (x & Hx & _). by exists x. }
  rewrite Hat_. cbn [mbind option_bind]. destruct (emit_barrier_spec p rank merge at_ Hwf Hrk) as (p' & -> & Hwf' & Hrk' & Hab' & Ho & Hb').
  exists p'. split; [done|]. split; [constructor; [done|done|done|]; intros b; by apply (emit_fenced p p' merge at_)|].
  intros b Hne. rewrite Hb', lookup_alter_ne; [done|]. intros <-. by apply (Hne eq_refl eq_refl).
Qed.
Lemma block_follows p rank b : wf p -> rank_ok p rank -> is_Some (blocks p !! b) ->
  exists p', EmitBarrierInBlock b p = Some p' /\ follows rank p p' /\ fenced p' b /\ forall b', b' <> b -> blocks p' !! b' = blocks p !! b'.
Proof.
  intros Hwf Hrk Hb. destruct (EmitBarrierInBlock_spec p rank b Hwf Hrk Hb) as (p' & -> & Hwf' & Hrk' & Hab & Hf & Hoth). exists p'. split; [done|]. split; [|done].
  constructor; [done|done|done|]. intros b' Hfb. destruct (decide (b' = b)) as [->|Hne]; [done|]. unfold fenced in *. rewrite Hoth by done.
  rewrite (ops_same p p'); [done|]. intros i Hi. by apply (ab_op _ _ _ Hab), (block_below p b' i (wf_sound p Hwf)).
Qed.

Lemma barrier_nodes_spec p0 rank nodes : wf p0 -> rank_ok p0 rank -> attributes_ok p0 -> Forall (node_ok p0) nodes -> forall d p, follows rank p0 p ->
  exists p', barrier_nodes nodes d p = Some p' /\ follows rank p p' /\
    (forall pre b post, nodes = pre ++ NBlock b :: post -> (depth_after p0 d pre).1 = 0 -> fenced p' b) /\
    forall b, ~ outside p0 d nodes b -> blocks p' !! b = blocks p !! b.
Proof.
  intros Hwf0 Hrk0 Hat. induction nodes as [|node nodes IH]; intros Hok d p Hp.
  { exists p. split; [done|]. split; [apply follows_refl; apply Hp|]. split; [by intros [] ? ?|done]. }
  apply Forall_cons in Hok as [Hn Hok]. specialize (IH Hok).
  assert (Hgo : forall p1, follows rank p p1 -> (forall b, node = NBlock b -> d.1 = 0 -> fenced p1 b) ->
    (forall b, ~ outside p0 d (node :: nodes) b -> blocks p1 !! b = blocks p !! b) ->
    exists p', barrier_nodes nodes (depth_step p0 d node) p1 = Some p' /\ follows rank p p' /\
      (forall pre b post, node :: nodes = pre ++ NBlock b :: post -> (depth_after p0 d pre).1 = 0 -> fenced p' b) /\
      forall b, ~ outside p0 d (node :: nodes) b -> blocks p' !! b = blocks p !! b).
  { intros p1 H1 Hf Hb. destruct (IH (depth_step p0 d node) p1) as (p' & -> & Hp' & Hfen & Hblk); [by eapply follows_trans|]. exists p'. split; [done|].
    split; [by eapply follows_trans|]. split.
    - intros [|n pre] b post E Hd; cbn in E; injection E as -> ->; [apply (fo_fenced _ _ _ Hp'); by apply Hf|by eapply Hfen].
    - intros b Hno. rewrite Hblk; [by apply Hb|]. intros [(pre & post & -> & Hd)|(pre & cond & body & post & -> & Hc & Hd)]; apply Hno; [left|right].
      + by exists (node :: pre), post.
      + by exists (node :: pre), cond, body, post. }
  assert (Hsame : follows rank p p) by (apply follows_refl; apply Hp).
  destruct d as [depth ends]. destruct node as [b|cond body merge|merge| | | | |]; cbn [barrier_nodes]; try (apply Hgo; done).
  - destruct (Z.eqb_spec depth 0) as [->|Hd]; [|apply Hgo; [done|by intros ? _ ?|done]].
    destruct (block_follows p rank b) as (p1 & -> & Hp1 & Hf & Hoth); [apply Hp|apply Hp|apply (ab_blocks p0 p (fo_adds _ _ _ Hp)), Hn|]. cbn [mbind option_bind].
    apply Hgo; [done|by intros b' [= <-] _|]. intros b' Hno. apply Hoth. intros ->. apply Hno. left. by exists [], nodes.
  - destruct Hn as [Hg Hb]. destruct (merge_block_spec p0 p rank cond merge (depth, ends) Hwf0 Hrk0 Hat Hp Hg Hb) as (p1 & -> & Hp1 & Hoth). cbn [mbind option_bind].
    apply (Hgo p1 Hp1); [done|]. intros b Hno. apply Hoth. intros Hc Hd ->. apply Hno. right. by exists [], cond, body, nodes.
  - cbn [depth_step fst snd] in Hgo. case_bool_decide; apply Hgo; done.
Qed.

(** A load and a write of shared memory, in either order. *)
Definition conflict (x y : Opcode) : bool := IsLoadShared x && IsWriteShared y || IsWriteShared x && IsLoadShared y.
Lemma scan_meets l2 : forall a y l3, is_Some (scan a (l2 ++ y :: l3)) -> (a = BarrierOnWrite /\ IsWriteShared y = true) \/ (a = BarrierOnRead /\ IsLoadShared y = true) -> Barrier ∈ l2.
Proof.
  induction l2 as [|o l2 IH]; intros a y l3 Hs Ha; cbn in Hs.
  - exfalso. unfold scan1 in Hs. destruct Ha as [[-> Hy]|[-> Hy]].
    + rewrite decide_False in Hs by (apply shared_not_barrier; by right). destruct (IsLoadShared y) eqn:El; [apply load_not_write in El; congruence|]. rewrite Hy, decide_True in Hs by done. by destruct Hs.
    + rewrite decide_False in Hs by (apply shared_not_barrier; by left). rewrite Hy, decide_True in Hs by done. by destruct Hs.
  - destruct (decide (o = Barrier)) as [->|Ho]; [by left|right]. destruct (scan1 a o) as [a'|] eqn:E; [|by destruct Hs]. cbn in Hs. apply (IH a' y l3 Hs).
    unfold scan1 in E. rewrite decide_False in E by done. destruct (IsLoadShared o); [|destruct (IsWriteShared o)].
    + destruct Ha as [[-> Hy]|[-> Hy]]; case_decide; try done. injection E as <-. by left.
    + destruct Ha as [[-> Hy]|[-> Hy]]; case_decide; try done. injection E as <-. by right.
    + by injection E as <-.
Qed.
Lemma fenced_between p b l1 x l2 y l3 : fenced p b -> ops_of p (default [] (blocks p !! b)) = l1 ++ x :: l2 ++ y :: l3 -> conflict x y = true -> Barrier ∈ l2.
Proof.
  intros [r Hr] E Hc. rewrite E, scan_app in Hr. destruct (scan ANone l1) as [a|]; [|done]. cbn in Hr. destruct (scan1 a x) as [a'|] eqn:Ea; [|done]. cbn in Hr.
  apply (scan_meets l2 a' y l3); [by eexists|]. unfold scan1 in Ea. unfold conflict in Hc. apply orb_true_iff in Hc as [[Hx Hy]%andb_true_iff|[Hx Hy]%andb_true_iff].
  - rewrite decide_False in Ea by (apply shared_not_barrier; by left). rewrite Hx in Ea. case_decide; [done|]. injection Ea as <-. by left.
  - rewrite decide_False in Ea by (apply shared_not_barrier; by right). destruct (IsLoadShared x) eqn:El; [apply load_not_write in El; congruence|].
    rewrite Hx in Ea. case_decide; [done|]. injection Ea as <-. by right.
Qed.

(** When the pass does anything: a compute shader with shared memory whose group is as large as a subgroup of
    the guest, on a host that needs the barriers. *)
Definition enabled (info : ComputeInfo) : Prop :=
  is_compute info = true /\ shared_memory_size info <> 0 /\ needs_lds_barriers info = true /\
  exists x y z, workgroup_size info = [x; y; z] /\ wrap32 (wrap32 (x * y) * z) = GcnSubgroupSize.
Lemma pass_cases info nodes p : length (workgroup_size info) = 3%nat ->
  enabled info /\ SharedMemoryBarrierPass info nodes p = barrier_nodes nodes (0, []) p \/ ~ enabled info /\ SharedMemoryBarrierPass info nodes p = Some p.
Proof.
  unfold SharedMemoryBarrierPass, enabled. destruct info as [c s w n]. cbn [is_compute shared_memory_size workgroup_size needs_lds_barriers].
  destruct w as [|x [|y [|z []]]]; try done. intros _. destruct c; cbn [negb]; [|right; split; [by intros [? _]|done]].
  change ([x; y; z].[0]) with (Some x). change ([x; y; z].[1]) with (Some y). change ([x; y; z].[2]) with (Some z). cbn [mbind option_bind].
  destruct (Z.eqb_spec s 0) as [->|Hs]; [right; split; [by intros (_ & ? & _)|done]|]. destruct (Z.eqb_spec (wrap32 (wrap32 (x * y) * z)) GcnSubgroupSize) as [Hg|Hg]; cbn [negb orb].
  - destruct n; cbn [negb]; [left|right; split; [by intros (_ & _ & ? & _)|done]]. split; [|done]. split; [done|]. split; [done|]. split; [done|]. by exists x, y, z.
  - right. split; [|done]. intros (_ & _ & _ & x' & y' & z' & [= <- <- <-] & ?). done.
Qed.

(** C39. [SharedMemoryBarrierPass] ends and adds barriers to a shader, and nothing else: its instructions and
    their order stay. When it is enabled, in every block of the syntax list outside of divergent conditions
    there is a barrier between a load and a later write of shared memory, and between a write and a later
    load. A block inside of divergent conditions gets none, where a barrier would never be reached by all
    threads. A condition is divergent when its operands lead, through identities and phis, to the number of
    the thread in its group. *)
Theorem SharedMemoryBarrierPass_exact (info : ComputeInfo) (syntax_list : list AbstractSyntaxNode) (p : Ir) (rank : Z -> nat) :
  wf p -> rank_ok p rank -> attributes_ok p -> Forall (node_ok p) syntax_list -> length (workgroup_size info) = 3%nat ->
  exists p', SharedMemoryBarrierPass info syntax_list p = Some p' /\ wf p' /\
    (forall i, is_Some (shapes p !! i) -> shapes p' !! i = shapes p !! i) /\
    (forall i, is_Some (shapes p' !! i) -> is_Some (shapes p !! i) \/ op_of p' i = Some Barrier) /\
    (forall b, List.filter (fun i => i <? next_inst p) (default [] (blocks p' !! b)) = default [] (blocks p !! b)) /\
    (enabled info -> forall pre b post, syntax_list = pre ++ NBlock b :: post -> (depth_after p (0, []) pre).1 = 0 ->
      forall l1 x l2 y l3, ops_of p' (default [] (blocks p' !! b)) = l1 ++ x :: l2 ++ y :: l3 -> conflict x y = true -> Barrier ∈ l2) /\
    (forall b, ~ (enabled info /\ outside p (0, []) syntax_list b) -> blocks p' !! b = blocks p !! b) /\
    forall cond, good p cond -> divergent p cond = true <-> leads_to p is_local_id cond.
Proof.
  intros Hwf Hrk Hat Hok Hl.
  assert (Hdiv : forall cond, good p cond -> divergent p cond = true <-> leads_to p is_local_id cond).
  { intros cond Hg. unfold divergent. by destruct (BreadthFirstSearch_spec p rank is_local_id (wf_sound p Hwf) Hrk Hat cond Hg) as (b & -> & Hb). }
  assert (Hlt : forall i, is_Some (shapes p !! i) -> i < next_inst p) by (intros i [s Hs]; destruct (so_inst p (wf_sound p Hwf) i s Hs); lia).
  destruct (pass_cases info syntax_list p Hl) as [[He ->]|[He ->]].
  - destruct (barrier_nodes_spec p rank syntax_list Hwf Hrk Hat Hok (0, []) p (follows_refl rank p Hwf Hrk)) as (p' & Hp' & [Hwf' _ Hab _] & Hf & Hb).
    exists p'. split; [done|]. split; [done|]. split; [intros i Hi; by apply (ab_old _ _ Hab), Hlt|]. split; [|split; [apply Hab|split; [|split; [|done]]]].
    + intros i Hi. destruct (ab_new _ _ Hab i Hi) as [Hn|?]; [left|by right]. by rewrite <- (ab_old _ _ Hab).
    + intros _ pre b post E Hd l1 x l2 y l3. apply (fenced_between p' b), (Hf pre b post E Hd).
    + intros b Hno. apply Hb. tauto.
  - exists p. split; [done|]. split; [done|]. split; [done|]. split; [by left|]. split; [apply ab_refl, Hwf|]. by split; [|split].
Qed.

(** ** A small shader *)

(** Block 0 stores the number of the thread in shared memory and reads it back; the first threads go on to
    block 1, which writes again, and all meet in block 2. *)
Definition barrier_program : list Edit :=
  [NewInst 0 None GetAttributeU32 [VAttribute LocalInvocationId; ImmU32 0] 0; NewInst 0 None WriteSharedU32 [ImmU32 0; VInst 0] 0;
   NewInst 0 None LoadSharedU32 [ImmU32 0] 0; NewInst 0 None ULessThan32 [VInst 0; ImmU32 7] 0; NewInst 0 None ConditionRef [VInst 3] 0;
   NewInst 1 None WriteSharedU32 [ImmU32 4; VInst 2] 0; NewInst 2 None LoadSharedU32 [ImmU32 4] 0; NewInst 2 None WriteSharedU32 [ImmU32 8; VInst 6] 0].
Definition barrier_ir : Ir := default (empty_ir [0; 1; 2]) (perform_all barrier_program (empty_ir [0; 1; 2])).
Definition barrier_list : list AbstractSyntaxNode := [NBlock 0; NIf (VInst 4) 1 2; NBlock 1; NEndIf 2; NBlock 2; NReturn].
Definition barrier_info : ComputeInfo := mkCompute true 64 [64; 1; 1] true.
Lemma barrier_edited : edited [0; 1; 2] barrier_ir.
Proof. apply (perform_all_edited [0; 1; 2] barrier_program (empty_ir [0; 1; 2]) barrier_ir (edited_empty [0; 1; 2])). vm_compute. reflexivity. Qed.
Lemma barrier_attributes : attributes_ok barrier_ir.
Proof.
  intros i inst Hi. assert (E : forallb (fun ix => bool_decide (is_Some (is_local_id ix.2))) (map_to_list (insts barrier_ir)) = true) by (vm_compute; reflexivity).
  rewrite forallb_forall in E. apply elem_of_map_to_list, list_elem_of_In in Hi. specialize (E _ Hi). by apply bool_decide_eq_true in E.
Qed.
Lemma SharedMemoryBarrierPass_exact_witness : exists p', SharedMemoryBarrierPass barrier_info barrier_list barrier_ir = Some p' /\ wf p' /\
  blocks p' !! 0 = Some [0; 1; 8; 2; 3; 9; 4] /\ blocks p' !! 1 = Some [5] /\ blocks p' !! 2 = Some [10; 6; 11; 12; 7].
Proof.
  destruct (SharedMemoryBarrierPass_exact barrier_info barrier_list barrier_ir Z.to_nat) as (p' & Hp & Hwf & _).
  - apply (edited_ranked [0; 1; 2] barrier_ir barrier_edited).
  - apply ranked_ok. vm_compute. reflexivity.
  - exact barrier_attributes.
  - repeat (apply Forall_cons; split); [..|by apply Forall_nil]; cbn [node_ok]; try exact I; try (vm_compute; by eexists).
    split; [apply goodb_ok; vm_compute; reflexivity|vm_compute; by eexists].
  - reflexivity.
  - exists p'. split; [exact Hp|]. split; [exact Hwf|]. vm_compute in Hp. injection Hp as <-. vm_compute. by split.
Defined.

(** The barrier at the end of a block is put before its last instruction, also when that is the access. *)
Lemma EmitBarrierInBlock_last : exists p', EmitBarrierInBlock 1 barrier_ir = Some p' /\ ops_of p' (default [] (blocks p' !! 1)) = [Barrier; WriteSharedU32].
Proof. eexists. split; vm_compute; reflexivity. Qed.
