(* ===== verification/SharedMutex.v ===== *)
(** The mutex of the memory manager: [SharedFirstMutex] of src/src/common/shared_first_mutex.h, a
    lock with shared and exclusive holders in which a reader never waits for a waiting writer.

    The methods are cut at the operations of [std::mutex] and [std::condition_variable]: taking
    [mtx], the code between taking it and the next wait or release, sleeping (which releases [mtx]),
    waking up, [notify_all], releasing [mtx]. Each thread is in a [Phase]; any thread may act next, and
    a sleeping thread may also wake for no reason. *)
From Stdlib Require Import ZArith Lia.
From stdpp Require Import base list sets gmultiset.
From S2P Require Import Prelude.

(** The members, but for [mtx] and [cv]. *)
Record SharedFirstMutex := mkSharedFirstMutex { readers : Z; writer_active : bool }.
#[export] Instance eta_SharedFirstMutex : Eta SharedFirstMutex :=
  fun m => mkSharedFirstMutex (readers m) (writer_active m).

Inductive Op := Lock | TryLock | TryLockUntil | Unlock | LockShared | TryLockShared | TryLockSharedUntil | UnlockShared.
#[export] Instance Op_eq_dec : EqDecision Op.
Proof. solve_decision. Defined.

(** The condition under which a method goes on, as each of them writes it. *)
Definition ready (op : Op) (m : SharedFirstMutex) : bool :=
  match op with
  | Lock | TryLockUntil => negb (writer_active m) && (readers m =? 0)
  | TryLock => negb (writer_active m || (0 <? readers m))
  | LockShared | TryLockShared | TryLockSharedUntil => negb (writer_active m)
  | Unlock | UnlockShared => true
  end.

(** The methods that wait on [cv] while the condition is false, and those with a deadline. *)
Definition waits (op : Op) : bool :=
  match op with Lock | TryLockUntil | LockShared | TryLockSharedUntil => true | _ => false end.
Definition timed (op : Op) : bool := match op with TryLockUntil | TryLockSharedUntil => true | _ => false end.

(** What a method does to the members, and whether it then calls [cv.notify_all]. *)
Definition update (op : Op) (m : SharedFirstMutex) : option (SharedFirstMutex * bool) :=
  match op with
  | Lock | TryLock | TryLockUntil => Some (m <| writer_active := true |>, false)
  | Unlock => Some (m <| writer_active := false |>, true)
  | LockShared | TryLockShared | TryLockSharedUntil =>
      r ← int_result (readers m + 1); Some (m <| readers := r |>, false)
  | UnlockShared => r ← int_result (readers m - 1); Some (m <| readers := r |>, r =? 0)
  end.

(** Where a thread is: outside; about to take [mtx] ([late] after its deadline); holding [mtx] before
    its condition; waiting on [cv]; holding [mtx] before [notify_all]; holding [mtx] before it
    returns [result]. *)
Inductive Phase :=
| Idle
| Entering (op : Op) (late : bool)
| Testing (op : Op) (late : bool)
| Sleeping (op : Op)
| Notifying (op : Op)
| Leaving (op : Op) (result : bool).

Definition inside (p : Phase) : bool :=
  match p with Testing _ _ | Notifying _ | Leaving _ _ => true | _ => false end.
Definition woken (p : Phase) : Phase := match p with Sleeping op => Entering op false | _ => p end.

(** [writers] and [sharers] are the threads that hold the lock, as often as they hold it. The code has
    no such list. *)
Record World := mkWorld {
  lock : SharedFirstMutex;
  mtx : option nat;
  phases : list Phase;
  writers : gmultiset nat;
  sharers : gmultiset nat
}.
#[export] Instance eta_World : Eta World := fun w => mkWorld (lock w) (mtx w) (phases w) (writers w) (sharers w).

Definition new_world (threads : nat) : World := mkWorld (mkSharedFirstMutex 0 false) None (replicate threads Idle) ∅ ∅.

Definition set_phase (t : nat) (p : Phase) (w : World) : World := w <| phases ::= <[t := p]> |>.

(** A thread unlocks what it holds. *)
Definition may (t : nat) (op : Op) (w : World) : Prop :=
  match op with Unlock => t ∈ writers w | UnlockShared => t ∈ sharers w | _ => True end.
#[export] Instance may_dec t op w : Decision (may t op w).
Proof. destruct op; cbn; apply _. Defined.

(** The holders after a method did its work. *)
Definition account (t : nat) (op : Op) (w : World) : World :=
  match op with
  | Lock | TryLock | TryLockUntil => w <| writers ::= fun x => x ⊎ {[+ t +]} |>
  | Unlock => w <| writers ::= fun x => x ∖ {[+ t +]} |>
  | LockShared | TryLockShared | TryLockSharedUntil => w <| sharers ::= fun x => x ⊎ {[+ t +]} |>
  | UnlockShared => w <| sharers ::= fun x => x ∖ {[+ t +]} |>
  end.

(** A thread calls a method, goes on with it, wakes from [cv] for no reason, or sees its deadline pass. *)
Inductive Action := Call (op : Op) | Run | Wake | Expire.

Definition run (t : nat) (p : Phase) (w : World) : option World :=
  match p with
  | Entering op late => match mtx w with None => Some (set_phase t (Testing op late) w <| mtx := Some t |>) | Some _ => None end
  | Testing op late =>
      if ready op (lock w) then
        '(m, notify) ← update op (lock w);
        Some (account t op (set_phase t (if notify : bool then Notifying op else Leaving op true) w <| lock := m |>))
      else if waits op && negb late then Some (set_phase t (Sleeping op) w <| mtx := None |>)
      else Some (set_phase t (Leaving op false) w)
  | Notifying op => Some (set_phase t (Leaving op true) (w <| phases ::= fmap woken |>))
  | Leaving op result => Some (set_phase t Idle w <| mtx := None |>)
  | Idle | Sleeping _ => None
  end.

Definition act (t : nat) (a : Action) (w : World) : option World :=
  p ← phases w !! t;
  match a, p with
  | Call op, Idle => if decide (may t op w) then Some (set_phase t (Entering op false) w) else None
  | Run, _ => run t p w
  | Wake, Sleeping op => Some (set_phase t (Entering op false) w)
  | Expire, Sleeping op => if timed op then Some (set_phase t (Entering op true) w) else None
  | _, _ => None
  end.

(** The states that any interleaving of any calls leads to. *)
Inductive reached (threads : nat) : World -> Prop :=
| reached_new : reached threads (new_world threads)
| reached_act w t a w' : reached threads w -> act t a w = Some w' -> reached threads w'.

(** [n] steps of any threads that go on with their calls, without new calls, deadlines or spurious
    wake-ups. *)
Inductive runs : nat -> World -> World -> Prop :=
| runs_nil w : runs 0 w w
| runs_cons n w t w' w'' : act t Run w = Some w' -> runs n w' w'' -> runs (S n) w w''.

Fixpoint acts (l : list (nat * Action)) (w : World) : option World :=
  match l with [] => Some w | (t, a) :: l => w ← act t a w; acts l w end.

(** ** The specification: a lock *)

Inductive Spec := Reading (threads : gmultiset nat) | Writing (thread : nat).

Inductive spec_step (t : nat) : Op -> Spec -> Spec -> Prop :=
| spec_lock op : op ∈ [Lock; TryLock; TryLockUntil] -> spec_step t op (Reading ∅) (Writing t)
| spec_unlock : spec_step t Unlock (Writing t) (Reading ∅)
| spec_lock_shared op x : op ∈ [LockShared; TryLockShared; TryLockSharedUntil] ->
    spec_step t op (Reading x) (Reading (x ⊎ {[+ t +]}))
| spec_unlock_shared x : t ∈ x -> spec_step t UnlockShared (Reading x) (Reading (x ∖ {[+ t +]})).

(** How the members represent a state of the specification. *)
Definition represents (m : SharedFirstMutex) (s : Spec) : Prop :=
  match s with
  | Reading x => m = mkSharedFirstMutex (Z.of_nat (size x)) false
  | Writing t => m = mkSharedFirstMutex 0 true
  end.
Definition holders (s : Spec) : gmultiset nat * gmultiset nat :=
  match s with Reading x => (∅, x) | Writing t => ({[+ t +]}, ∅) end.

(** * The invariant *)

(** What a phase says of its thread. *)
Definition phase_ok (t : nat) (w : World) (p : Phase) : Prop :=
  match p with
  | Idle => True
  | Entering op late | Testing op late => may t op w /\ (late = true -> timed op = true)
  | Sleeping op => waits op = true
  | Notifying op => op = Unlock \/ op = UnlockShared
  | Leaving op true =>
      match op with
      | Lock | TryLock | TryLockUntil => t ∈ writers w
      | LockShared | TryLockShared | TryLockSharedUntil => t ∈ sharers w
      | _ => True
      end
  | Leaving op false => op ∈ [TryLock; TryLockUntil; TryLockShared; TryLockSharedUntil]
  end.

(** Some thread is about to wake the sleeping ones, or none of them could go on. *)
Definition none_forgotten (w : World) : Prop :=
  (exists t op, phases w !! t = Some (Notifying op)) \/
  (forall t op, phases w !! t = Some (Sleeping op) -> ready op (lock w) = false).

Record world_ok (w : World) : Prop := {
  wo_spec : exists s, represents (lock w) s /\ holders s = (writers w, sharers w);
  wo_mtx : forall t, mtx w = Some t <-> exists p, phases w !! t = Some p /\ inside p = true;
  wo_phase : forall t p, phases w !! t = Some p -> phase_ok t w p;
  wo_sleep : none_forgotten w
}.

Lemma set_phase_lookup t p w u q : phases (set_phase t p w) !! u = Some q ->
  (u = t /\ q = p) \/ (u <> t /\ phases w !! u = Some q).
Proof. cbn. intros [(-> & -> & _)|[? ?]]%list_lookup_insert_Some; [by left|right; done]. Qed.

Lemma set_phase_at t p w p0 : phases w !! t = Some p0 -> phases (set_phase t p w) !! t = Some p.
Proof. intros H. cbn. apply list_lookup_insert_eq. by eapply lookup_lt_Some. Qed.

Lemma set_phase_ne t p w u : u <> t -> phases (set_phase t p w) !! u = phases w !! u.
Proof. intros H. cbn. by apply list_lookup_insert_ne. Qed.

Lemma phase_ok_ext t w w' p : writers w' = writers w -> sharers w' = sharers w -> phase_ok t w p -> phase_ok t w' p.
Proof. intros Ew Es. destruct p as [|[] ?|[] ?|?|?|[] []]; cbn; by rewrite ?Ew, ?Es. Qed.

Lemma ok_mtx_other w t u p : world_ok w -> mtx w = Some t -> phases w !! u = Some p -> inside p = true -> u = t.
Proof. intros H Hm Hp Hi. assert (mtx w = Some u) by (apply (wo_mtx w H); eauto). congruence. Qed.

(** One thread moves on; the members stay as they are. *)
Lemma move_ok w w' t p q : world_ok w -> phases w !! t = Some p ->
  lock w' = lock w -> writers w' = writers w -> sharers w' = sharers w -> phases w' = <[t := q]> (phases w) ->
  mtx w' = (if inside q then Some t else if inside p then None else mtx w) ->
  (inside q = true -> inside p = true \/ mtx w = None) ->
  (forall op, p <> Notifying op) -> phase_ok t w q -> (forall op, q = Sleeping op -> ready op (lock w) = false) ->
  world_ok w'.
Proof.
  intros Hw Hp El Ew Es Ep Em Hin Hn Hq Hs.
  assert (Hl : forall u r, phases w' !! u = Some r <-> (u = t /\ r = q) \/ (u <> t /\ phases w !! u = Some r)).
  { intros u r. rewrite Ep, list_lookup_insert_Some. pose proof (lookup_lt_Some _ _ _ Hp).
    split; [intros [(-> & -> & _)|[? ?]]; auto|intros [[-> ->]|[? ?]]; auto]. }
  split.
  - rewrite El, Ew, Es. apply Hw.
  - intros u. rewrite Em. split.
    + intros H. destruct (inside q) eqn:Eq; [injection H as <-; exists q; by rewrite Hl; auto|].
      destruct (inside p) eqn:Ei; [done|]. apply (wo_mtx w Hw) in H as (r & Hr & Hri). exists r. rewrite Hl.
      split; [right; split; [intros ->; congruence|done]|done].
    + intros (r & [[-> ->]|[Hne Hr]]%Hl & Hri); [by rewrite Hri|].
      assert (Hu : mtx w = Some u) by (apply (wo_mtx w Hw); eauto).
      destruct (inside p) eqn:Ei; [by destruct (Hne); eapply eq_sym, ok_mtx_other; eauto|].
      destruct (inside q); [destruct (Hin eq_refl); congruence|done].
  - intros u r [[-> ->]|[Hne Hr]]%Hl; (eapply phase_ok_ext; [done..|]); [done|by apply Hw].
  - destruct (wo_sleep w Hw) as [(u & op & Hu)|Hr].
    + left. exists u, op. apply Hl. right. split; [intros ->; congruence|done].
    + right. intros u op [[-> <-]|[Hne Hu]]%Hl; rewrite El; [by apply Hs|eauto].
Qed.

(** The sleeping threads after [notify_all]. *)
Lemma wake_ok w t op : world_ok w -> phases w !! t = Some (Notifying op) ->
  world_ok (set_phase t (Leaving op true) (w <| phases ::= fmap woken |>)).
Proof.
  intros Hw Hp.
  assert (Hl : forall u r, (woken <$> phases w) !! u = Some r -> exists r0, phases w !! u = Some r0 /\ r = woken r0).
  { intros u r. rewrite list_lookup_fmap. intros (r0 & ? & ?)%fmap_Some. eauto. }
  assert (Ht : (woken <$> phases w) !! t = Some (Notifying op)) by by rewrite list_lookup_fmap, Hp.
  split; cbn [set_phase lock writers sharers].
  - apply Hw.
  - intros u. change (mtx _) with (mtx w) at 1. rewrite (wo_mtx w Hw). split.
    + intros (r & Hr & Hi). destruct (decide (u = t)) as [->|Hne].
      * exists (Leaving op true). split; [by eapply set_phase_at|done].
      * exists (woken r). rewrite set_phase_ne by done. cbn. rewrite list_lookup_fmap, Hr. split; [done|by destruct r].
    + intros (r & [[-> ->]|[Hne (r0 & Hr & ->)%Hl]]%set_phase_lookup & Hi); [eauto|].
      exists r0. split; [done|by destruct r0].
  - intros u r [[-> ->]|[Hne (r0 & Hr & ->)%Hl]]%set_phase_lookup.
    + apply (wo_phase w Hw) in Hp as [-> | ->]; done.
    + apply (wo_phase w Hw) in Hr. eapply (phase_ok_ext _ w); [done..|]. destruct r0 as [| | |o| |]; try done.
      by destruct o.
  - right. intros u o [[-> ?]|[Hne (r0 & Hr & H)%Hl]]%set_phase_lookup; [done|]. by destruct r0.
Qed.

(** ** The step that takes or gives back the lock *)

Lemma spec_readers m s : represents m s -> 0 <= readers m.
Proof. destruct s; cbn; intros ->; cbn; lia. Qed.

(** It is a step of the specification, and [notify_all] is called when the lock becomes free. *)
Lemma update_refines t op m m' notify s w : represents m s -> holders s = (writers w, sharers w) ->
  may t op w -> ready op m = true -> update op m = Some (m', notify) ->
  exists s', spec_step t op s s' /\ represents m' s' /\ holders s' = (writers (account t op w), sharers (account t op w)).
Proof.
  intros Hr Hh Hm Hrd Hu. destruct s as [x|u]; cbn in Hr, Hh; subst m; injection Hh as Ew Es.
  - destruct op; cbn in Hm, Hrd, Hu |- *.
    all: try (apply bind_Some in Hu as (r & ->%int_result_Some & [= <- <-])).
    all: try (injection Hu as <- <-); rewrite <- ?Ew, <- ?Es in *.
    1-3: assert (x = ∅) as -> by (apply gmultiset_size_empty_inv; lia); exists (Writing t).
    1-3: split_and!; [apply spec_lock; set_solver|done|cbn [holders]; f_equal; multiset_solver].
    1: multiset_solver.
    1-3: exists (Reading (x ⊎ {[+ t +]})); split_and!; [apply spec_lock_shared; set_solver| |done].
    1-3: unfold upd; cbn; f_equal; rewrite gmultiset_size_disj_union, gmultiset_size_singleton; lia.
    exists (Reading (x ∖ {[+ t +]})). split_and!; [by constructor| |done].
    unfold upd. cbn. f_equal. rewrite gmultiset_size_difference by multiset_solver. rewrite gmultiset_size_singleton.
    assert (size x <> 0%nat) by (rewrite gmultiset_size_empty_iff; multiset_solver). lia.
  - destruct op; cbn in Hm, Hrd, Hu |- *; try done; rewrite <- ?Ew, <- ?Es in *; [|multiset_solver].
    injection Hu as <- <-. assert (t = u) as -> by multiset_solver. exists (Reading ∅).
    split_and!; [constructor|done|cbn [holders]; f_equal; multiset_solver].
Qed.

(** Without [notify_all], no condition becomes true. *)
Lemma update_quiet op m m' o : 0 <= readers m -> update op m = Some (m', false) -> ready o m = false -> ready o m' = false.
Proof.
  intros H0 Hu. destruct m as [r b]; cbn in H0.
  destruct op; cbn in Hu; try done; try (apply bind_Some in Hu as (x & ->%int_result_Some & Hu)).
  all: injection Hu as; subst m'; destruct o, b; unfold upd; cbn; try done; lia.
Qed.

(** The other threads keep what they hold. *)
Lemma account_other t u op w p : u <> t -> phase_ok u w p -> phase_ok u (account t op w) p.
Proof.
  intros Hne. assert (Hw : u ∈ writers w -> u ∈ writers (account t op w)) by (destruct op; cbn; multiset_solver).
  assert (Hs : u ∈ sharers w -> u ∈ sharers (account t op w)) by (destruct op; cbn; multiset_solver).
  destruct p as [|[] ?|[] ?|?|?|[] []]; cbn [phase_ok may] in *; try done; intuition auto.
Qed.

Lemma account_same t op w : phases (account t op w) = phases w /\ mtx (account t op w) = mtx w /\ lock (account t op w) = lock w.
Proof. by destruct op. Qed.

Lemma account_self t op w notify : (notify = true -> op = Unlock \/ op = UnlockShared) ->
  phase_ok t (account t op w) (if notify then Notifying op else Leaving op true).
Proof. destruct notify; [intros H; by apply H|]. intros _. destruct op; cbn; try done; multiset_solver. Qed.

Lemma update_notify op m m' : update op m = Some (m', true) -> op = Unlock \/ op = UnlockShared.
Proof. destruct op; cbn; try done; auto; by intros (r & ? & ?)%bind_Some. Qed.

Definition granted (t : nat) (op : Op) (m : SharedFirstMutex) (notify : bool) (w : World) : World :=
  account t op (set_phase t (if notify then Notifying op else Leaving op true) w <| lock := m |>).

Lemma grant_ok w t op late m notify : world_ok w -> phases w !! t = Some (Testing op late) ->
  ready op (lock w) = true -> update op (lock w) = Some (m, notify) -> world_ok (granted t op m notify w).
Proof.
  intros Hw Hp Hr Hu. unfold granted. set (q := if notify then _ else _). set (w1 := set_phase _ _ _).
  destruct (account_same t op w1) as (Eph & Emt & Elk).
  assert (Hq : inside q = true) by (unfold q; by destruct notify).
  assert (Hm : mtx w = Some t) by (apply (wo_mtx w Hw); eauto).
  destruct (wo_spec w Hw) as (s & Hrep & Hhold).
  destruct (wo_phase w Hw t _ Hp) as [Hmay _].
  split.
  - destruct (update_refines t op (lock w) m notify s w1) as (s' & _ & ? & ?); [done..|by destruct op|done|done|].
    exists s'. by rewrite Elk.
  - intros u. rewrite Eph, Emt. change (mtx w1) with (mtx w). split.
    + intros Hu'. assert (u = t) as -> by congruence. exists q. split; [by eapply set_phase_at|done].
    + intros (r & [[-> ->]|[Hne Hl]]%set_phase_lookup & Hi); [done|].
      destruct Hne. by eapply ok_mtx_other.
  - intros u r. rewrite Eph. intros [[-> ->]|[Hne Hl]]%set_phase_lookup.
    + apply account_self. intros ->. by eapply update_notify.
    + apply account_other; [done|]. apply (phase_ok_ext _ w); [done..|]. by apply (wo_phase w Hw).
  - unfold none_forgotten. rewrite Eph, Elk. destruct notify.
    { left. exists t, op. by eapply set_phase_at. }
    destruct (wo_sleep w Hw) as [(u & o & Hu')|Hs].
    { assert (u = t) as -> by (by eapply ok_mtx_other). congruence. }
    right. intros u o [[-> ?]|[Hne Hl]]%set_phase_lookup; [done|].
    eapply update_quiet; [by eapply spec_readers|done|by eapply Hs].
Qed.

(** * Every action *)

Lemma set_mtx_phases t q m w : phases (set_phase t q w <| mtx := m |>) = <[t := q]> (phases w).
Proof. done. Qed.

Lemma world_act_ok w t a w' : world_ok w -> act t a w = Some w' -> world_ok w'.
Proof.
  intros Hw H. unfold act in H. apply bind_Some in H as (p & Hp & H). pose proof (wo_phase w Hw t p Hp) as Hph.
  destruct a as [op| | |].
  - destruct p; try done. case_decide as Hm; [|done]. injection H as <-. by eapply move_ok.
  - destruct p as [|op late|op late|op|op|op result]; cbn in H; try done.
    + destruct (mtx w) eqn:Em; [done|]. injection H as <-. eapply move_ok; try done. by right.
    + destruct (ready op (lock w)) eqn:Er.
      { apply bind_Some in H as ([m notify] & Hu & [= <-]). by eapply (grant_ok w t op late). }
      destruct (waits op && negb late) eqn:Ew; injection H as <-.
      * eapply move_ok; try done; [|by intros ? [= <-]]. by apply andb_prop in Ew as [? _].
      * eapply move_ok; try done; [|by auto|].
        { cbn. apply (wo_mtx w Hw). eauto. }
        destruct Hph as [_ Hl]. destruct op, late; try done; try (by destruct Hl); cbn; set_solver.
    + injection H as <-. by apply wake_ok.
    + injection H as <-. by eapply move_ok.
  - destruct p as [| | |op| |]; try done. injection H as <-. eapply move_ok; try done. by destruct op.
  - destruct p as [| | |op| |]; try done. destruct (timed op) eqn:Et; [|done]. injection H as <-. eapply move_ok; try done. by destruct op.
Qed.

Lemma new_world_ok threads : world_ok (new_world threads).
Proof.
  assert (Hl : forall t p, phases (new_world threads) !! t = Some p -> p = Idle) by (intros t p [? _]%lookup_replicate; done).
  split.
  - by exists (Reading ∅).
  - intros t. split; [done|]. intros (p & ->%Hl & ?). done.
  - by intros t p ->%Hl.
  - right. by intros t op ?%Hl.
Qed.

Lemma world_reached_ok threads w : reached threads w -> world_ok w.
Proof. induction 1; [apply new_world_ok|by eapply world_act_ok]. Qed.

(** ** Refinement *)

Definition abstracts (w : World) (s : Spec) : Prop := represents (lock w) s /\ holders s = (writers w, sharers w).

(** The method a thread is returning from, and its result. *)
Definition returns (t : nat) (w : World) (op : Op) (result : bool) : Prop := phases w !! t = Some (Leaving op result).

(** What a thread holds when a method returned true. *)
Definition held (t : nat) (op : Op) (s : Spec) : Prop :=
  match op with
  | Lock | TryLock | TryLockUntil => s = Writing t
  | LockShared | TryLockShared | TryLockSharedUntil => exists x, s = Reading x /\ t ∈ x
  | Unlock | UnlockShared => True
  end.

Lemma returns_held w t op result s : world_ok w -> abstracts w s -> returns t w op result ->
  if result then held t op s else op ∈ [TryLock; TryLockUntil; TryLockShared; TryLockSharedUntil].
Proof.
  intros Hw [_ Hh] Hr. pose proof (wo_phase w Hw t _ Hr) as Hp. destruct result; [|done].
  destruct s as [x|u]; cbn in Hh; injection Hh as Ew Es; destruct op; cbn in *; rewrite <- ?Ew, <- ?Es in Hp; try done.
  all: try (by eexists); try multiset_solver.
  all: f_equal; multiset_solver.
Qed.

Lemma act_refines w t a w' s : world_ok w -> abstracts w s -> act t a w = Some w' ->
  exists s', abstracts w' s' /\ (s' = s \/ exists op, spec_step t op s s').
Proof.
  intros Hw [Hr Hh] H. unfold act in H. apply bind_Some in H as (p & Hp & H). pose proof (wo_phase w Hw t p Hp) as Hph.
  assert (Hsame : forall w1, lock w1 = lock w -> writers w1 = writers w -> sharers w1 = sharers w ->
    exists s', abstracts w1 s' /\ (s' = s \/ exists op, spec_step t op s s')).
  { intros w1 El Ew Es. exists s. split; [|by left]. unfold abstracts. by rewrite El, Ew, Es. }
  destruct a as [o| | |], p as [|op late|op late|op|op|op result]; cbn in H; try done.
  all: try (by repeat case_match; simplify_eq; apply Hsame).
  destruct (ready op (lock w)) eqn:Er; [|by repeat case_match; simplify_eq; apply Hsame].
  apply bind_Some in H as ([m notify] & Hu & [= <-]).
  edestruct (update_refines t op) as (s' & ? & ? & ?); [done|done|apply Hph|done|done|].
  exists s'. split; [|by eauto]. unfold abstracts. rewrite (proj2 (proj2 (account_same _ _ _))).
  split; [done|]. by destruct op.
Qed.

(** ** Progress *)

Definition releases (op : Op) : bool := match op with Unlock | UnlockShared => true | _ => false end.

(** How many steps are left in a phase, at most: a call that gives the lock back may wake every
    thread, each of which takes up to four steps until it sleeps again or returns. *)
Definition weight (threads : nat) (p : Phase) : nat :=
  match p with
  | Idle | Sleeping _ => 0
  | Leaving _ _ => 1
  | Notifying _ => 4 * threads + 2
  | Testing op _ => if releases op then 4 * threads + 3 else 3
  | Entering op _ => if releases op then 4 * threads + 4 else 4
  end%nat.
Definition world_weight (w : World) : nat := sum_list_with (weight (length (phases w))) (phases w).

Lemma sum_insert (f : Phase -> nat) l t p q : l !! t = Some p ->
  (sum_list_with f (<[t := q]> l) + f p = sum_list_with f l + f q)%nat.
Proof.
  revert t. induction l as [|x l IH]; intros [|t] H; try done.
  - injection H as ->. cbn. lia.
  - specialize (IH t H). change (<[S t := q]> (x :: l)) with (x :: <[t := q]> l). cbn [sum_list_with]. lia.
Qed.

Lemma sum_woken n l : (forall op, Sleeping op ∈ l -> releases op = false) ->
  (sum_list_with (weight n) (woken <$> l) <= sum_list_with (weight n) l + 4 * length l)%nat.
Proof.
  induction l as [|x l IH]; intros H; cbn; [lia|].
  assert (weight n (woken x) <= weight n x + 4)%nat.
  { destruct x as [| | |op| |]; cbn; try lia. rewrite (H op) by left. lia. }
  assert (Hl : forall op, Sleeping op ∈ l -> releases op = false) by (intros op Hin; apply H; by right).
  specialize (IH Hl). lia.
Qed.

Lemma weight_set w w' t p q : phases w !! t = Some p -> phases w' = <[t := q]> (phases w) ->
  (weight (length (phases w)) q < weight (length (phases w)) p)%nat -> (world_weight w' < world_weight w)%nat.
Proof.
  intros Hp Ep Hlt. unfold world_weight. rewrite Ep, length_insert.
  pose proof (sum_insert (weight (length (phases w))) _ _ _ q Hp). lia.
Qed.

(** Every step of a call brings the calls nearer to their ends. *)
Lemma run_weight w t w' : world_ok w -> act t Run w = Some w' -> (world_weight w' < world_weight w)%nat.
Proof.
  intros Hw H. unfold act in H. apply bind_Some in H as (p & Hp & H). pose proof (wo_phase w Hw t p Hp) as Hph.
  destruct p as [|op late|op late|op|op|op result]; cbn in H; try done.
  - destruct (mtx w); [done|]. injection H as <-. eapply weight_set; [done..|]. cbn. destruct (releases op); lia.
  - destruct (ready op (lock w)); [|destruct (_ && _); injection H as <-; (eapply weight_set; [done..|]); cbn; destruct (releases op); lia].
    apply bind_Some in H as ([m notify] & Hu & [= <-]).
    eapply weight_set; [done|rewrite (proj1 (account_same _ _ _)); done|].
    destruct notify; cbn; [|destruct (releases op); lia]. destruct (update_notify _ _ _ Hu) as [-> | ->]; cbn; lia.
  - injection H as <-.
    assert (Ht : (woken <$> phases w) !! t = Some (Notifying op)) by by rewrite list_lookup_fmap, Hp.
    unfold world_weight. cbn. rewrite length_insert, length_fmap.
    pose proof (sum_insert (weight (length (phases w))) _ _ _ (Leaving op true) Ht) as Hi. cbn [weight] in Hi.
    assert (Hs : forall o, Sleeping o ∈ phases w -> releases o = false).
    { intros o (u & Hu)%list_elem_of_lookup. pose proof (wo_phase w Hw u _ Hu). by destruct o. }
    pose proof (sum_woken (length (phases w)) (phases w) Hs). lia.
  - injection H as <-. eapply weight_set; [done..|]. cbn. lia.
Qed.

(** Where nothing moves by itself, nobody is inside of the mutex, and who sleeps waits for a holder. *)
Lemma stuck_phase w t p : world_ok w -> Z.of_nat (size (sharers w)) < 2147483647 ->
  (forall u, act u Run w = None) -> phases w !! t = Some p ->
  p = Idle \/ exists op, p = Sleeping op /\ ready op (lock w) = false.
Proof.
  intros Hw Hsz Hst Hp. destruct (wo_spec w Hw) as (s & Hrep & Hhold).
  assert (Hout : forall u q, phases w !! u = Some q -> inside q = false).
  { intros u q Hq. specialize (Hst u). unfold act in Hst. rewrite Hq in Hst. cbn in Hst.
    pose proof (wo_phase w Hw u q Hq) as Hph.
    destruct q as [|op late|op late|op|op|op result]; try done. cbn in Hst. exfalso.
    destruct (ready op (lock w)); [|by destruct (_ && _)].
    destruct (update op (lock w)) as [[m notify]|] eqn:Eu; [done|].
    destruct s as [x|v]; cbn in Hrep, Hhold; injection Hhold as Ew Es; rewrite Hrep in Eu; rewrite <- Es in Hsz.
    all: destruct op; cbn in Eu; try done; rewrite int_result_small in Eu by lia; done. }
  assert (Hm : mtx w = None).
  { destruct (mtx w) as [u|] eqn:Em; [|done]. apply (wo_mtx w Hw) in Em as (q & Hq & Hi). by rewrite (Hout u q Hq) in Hi. }
  pose proof (Hout t p Hp) as Hi. destruct p as [|op late|op late|op|op|op result]; try done; [by left| |].
  - specialize (Hst t). unfold act in Hst. rewrite Hp in Hst. cbn in Hst. by rewrite Hm in Hst.
  - right. exists op. split; [done|]. destruct (wo_sleep w Hw) as [(u & o & Hu)|Hs]; [by apply Hout in Hu|by eapply Hs].
Qed.

Lemma runs_reached threads n w w' : reached threads w -> runs n w w' -> reached threads w'.
Proof. intros H Hr. induction Hr; [done|]. apply IHHr. by eapply reached_act. Qed.

Lemma world_runs_weight threads n w w' : reached threads w -> runs n w w' -> (n + world_weight w' <= world_weight w)%nat.
Proof.
  intros H Hr. induction Hr as [|n w t w1 w2 Hs Hr IH]; [lia|].
  pose proof (run_weight _ _ _ (world_reached_ok _ _ H) Hs). specialize (IH (reached_act _ _ _ _ _ H Hs)). lia.
Qed.

Lemma world_acts_reached threads l w w' : reached threads w -> acts l w = Some w' -> reached threads w'.
Proof.
  revert w. induction l as [|[t a] l IH]; intros w Hw H; cbn in H; [by injection H as <-|].
  apply bind_Some in H as (w1 & H1 & H). eapply IH; [|done]. by eapply reached_act.
Qed.

Lemma sleeper_waits w op s : abstracts w s -> waits op = true -> ready op (lock w) = false ->
  writers w <> ∅ \/ sharers w <> ∅ /\ op ∈ [Lock; TryLockUntil].
Proof.
  intros [Hr Hh] Hwt Hrd. destruct s as [x|u]; cbn in *; injection Hh as Ew Es; rewrite Hr in Hrd; rewrite <- Ew, <- Es.
  - right. destruct op; cbn in *; try done; (split; [|set_solver]); intros ->; rewrite gmultiset_size_empty in Hrd; done.
  - left. multiset_solver.
Qed.

(** * Theorems *)

(** C16. Any interleaving of calls of [SharedFirstMutex] is a run of a lock that has either one
    exclusive holder or any number of shared ones: every action of a thread is either invisible or
    takes or gives back the lock, and when a method returns true the thread does hold it, shared or
    exclusive. Only a [try_] method returns false. *)
Theorem SharedFirstMutex_refines threads w t a w' :
  reached threads w -> act t a w = Some w' ->
  exists s s', abstracts w s /\ abstracts w' s' /\ (s' = s \/ exists op, spec_step t op s s') /\
    forall u op result, returns u w' op result ->
      if result then held u op s' else op ∈ [TryLock; TryLockUntil; TryLockShared; TryLockSharedUntil].
Proof.
  intros Hr Ha. pose proof (world_reached_ok _ _ Hr) as Hw. destruct (wo_spec w Hw) as (s & Hs).
  destruct (act_refines _ _ _ _ s Hw Hs Ha) as (s' & Hs' & Hst). exists s, s'. split_and!; [done..|].
  intros u op result. apply returns_held; [|done]. by eapply world_act_ok.
Qed.

(** C17. No wake-up is lost and nothing deadlocks: whatever order the threads run in, after a bounded
    number of steps every call has returned, but those that wait while a thread holds the lock,
    exclusively, or shared if the call is for exclusive use. *)
Theorem SharedFirstMutex_progress threads w n w' :
  reached threads w -> runs n w w' -> Z.of_nat (size (sharers w')) < 2147483647 ->
  (n <= world_weight w)%nat /\
  ((forall t, act t Run w' = None) -> forall t p, phases w' !! t = Some p ->
    p = Idle \/ exists op, p = Sleeping op /\ (writers w' <> ∅ \/ sharers w' <> ∅ /\ op ∈ [Lock; TryLockUntil])).
Proof.
  intros Hr Hrun Hsz. split; [pose proof (world_runs_weight _ _ _ _ Hr Hrun); lia|]. intros Hst t p Hp.
  pose proof (world_reached_ok _ _ (runs_reached _ _ _ _ Hr Hrun)) as Hw.
  destruct (stuck_phase w' t p Hw Hsz Hst Hp) as [->|(op & -> & Hrd)]; [by left|]. right. exists op. split; [done|].
  destruct (wo_spec w' Hw) as (s & Hs). eapply sleeper_waits; [done| |done]. exact (wo_phase w' Hw t _ Hp).
Qed.

(** Readers go first: while no thread holds the lock exclusively, a call for shared use that has
    [mtx] gets the lock at once, whoever waits. *)
Theorem lock_shared_first threads w t op late :
  reached threads w -> writers w = ∅ -> Z.of_nat (size (sharers w)) < 2147483647 ->
  op ∈ [LockShared; TryLockShared; TryLockSharedUntil] -> phases w !! t = Some (Testing op late) ->
  exists w', act t Run w = Some w' /\ t ∈ sharers w' /\ returns t w' op true.
Proof.
  intros Hr Ew Hsz Hop Hp. pose proof (world_reached_ok _ _ Hr) as Hw. destruct (wo_spec w Hw) as (s & Hrep & Hh).
  destruct s as [x|u]; cbn in Hrep, Hh; injection Hh as Ew' Es; [|rewrite Ew in Ew'; multiset_solver].
  assert (Hi : int_result (readers (lock w) + 1) = Some (readers (lock w) + 1)).
  { apply int_result_small. rewrite Hrep. cbn. rewrite Es. lia. }
  assert (Hcase : op = LockShared \/ op = TryLockShared \/ op = TryLockSharedUntil) by (set_unfold in Hop; tauto).
  exists (account t op (set_phase t (Leaving op true) w <| lock := (lock w) <| readers := readers (lock w) + 1 |> |>)).
  unfold act. rewrite Hp. cbn [mbind option_bind]. unfold run.
  assert (ready op (lock w) = true) as -> by (rewrite Hrep; by destruct Hcase as [-> |[-> | ->]]).
  assert (update op (lock w) = Some ((lock w) <| readers := readers (lock w) + 1 |>, false)) as ->
    by (destruct Hcase as [-> |[-> | ->]]; cbn [update]; by rewrite Hi).
  split_and!; [done| |].
  - assert (H : t ∈ sharers w ⊎ {[+ t +]})
      by (apply gmultiset_elem_of_disj_union; right; by apply gmultiset_elem_of_singleton).
    clear Hp. by destruct Hcase as [-> |[-> | ->]].
  - unfold returns. rewrite (proj1 (account_same _ _ _)). by eapply set_phase_at.
Qed.

(** ** A run

    Thread 0 reads, thread 1 wants to write and sleeps, thread 2 reads past it; when both have
    unlocked, thread 1 goes on. *)
Definition example_start : list (nat * Action) :=
  [(0, Call LockShared); (0, Run); (0, Run); (0, Run); (1, Call Lock); (1, Run); (1, Run);
   (2, Call LockShared); (2, Run)]%nat.
Definition example_middle : list (nat * Action) :=
  [(2, Run); (2, Run); (0, Call UnlockShared); (0, Run); (0, Run); (0, Run); (2, Call UnlockShared)]%nat.
Definition example_end : list nat := [2; 2; 2; 2; 1; 1; 1]%nat.
Definition example_world (l : list (nat * Action)) : World := default (new_world 3) (acts l (new_world 3)).
Definition world_a : World := example_world example_start.
Definition world_b : World := example_world (example_start ++ example_middle).
Definition world_c : World := default world_b (acts (map (fun t => (t, Run)) example_end) world_b).

Lemma runs_acts l w w' : acts (map (fun t => (t, Run)) l) w = Some w' -> runs (length l) w w'.
Proof.
  revert w. induction l as [|t l IH]; intros w H; cbn in H; [injection H as <-; constructor|].
  apply bind_Some in H as (w1 & H1 & H). econstructor; [done|by apply IH].
Qed.

Definition possible {A} (x : option A) : bool := match x with Some _ => true | None => false end.

Lemma example_reached l : possible (acts l (new_world 3)) = true -> reached 3 (example_world l).
Proof.
  unfold example_world. destruct (acts l (new_world 3)) as [w|] eqn:E; [|done]. intros _.
  eapply world_acts_reached; [constructor|exact E].
Qed.

Lemma example_runs l w : possible (acts (map (fun t => (t, Run)) l) w) = true ->
  runs (length l) w (default w (acts (map (fun t => (t, Run)) l) w)).
Proof. destruct (acts _ w) as [w'|] eqn:E; [|done]. intros _. by apply runs_acts. Qed.

Lemma SharedFirstMutex_refines_witness : exists w' s s',
  act 2 Run world_a = Some w' /\ abstracts world_a s /\ abstracts w' s' /\ held 2 LockShared s'.
Proof.
  destruct (act 2 Run world_a) as [w'|] eqn:E; [|vm_compute in E; discriminate E].
  assert (Hr : reached 3 world_a) by (apply (example_reached example_start); reflexivity).
  destruct (SharedFirstMutex_refines 3 world_a 2 Run w' Hr E) as (s & s' & H1 & H2 & _ & H3).
  exists w', s, s'. split; [reflexivity|]. split; [exact H1|]. split; [exact H2|].
  apply (H3 2%nat LockShared true). unfold returns. vm_compute in E. injection E as <-. reflexivity.
Defined.

Lemma SharedFirstMutex_progress_witness : (7 <= world_weight world_b)%nat /\
  ((forall t, act t Run world_c = None) -> forall t p, phases world_c !! t = Some p ->
    p = Idle \/ exists op, p = Sleeping op /\ (writers world_c <> ∅ \/ sharers world_c <> ∅ /\ op ∈ [Lock; TryLockUntil])).
Proof.
  apply (SharedFirstMutex_progress 3 world_b 7 world_c).
  - apply (example_reached (example_start ++ example_middle)). reflexivity.
  - apply (example_runs example_end). reflexivity.
  - reflexivity.
Defined.

(** The writer goes on, when nobody else moves. *)
Example writer_served : phases world_c = [Idle; Idle; Idle] /\ writers world_c = {[+ 1%nat +]} /\ sharers world_c = ∅.
Proof. split_and!; reflexivity. Qed.

Lemma lock_shared_first_witness : exists w', act 2 Run world_a = Some w' /\ 2%nat ∈ sharers w' /\ returns 2 w' LockShared true.
Proof.
  apply (lock_shared_first 3 world_a 2 LockShared false).
  - apply (example_reached example_start). reflexivity.
  - reflexivity.
  - reflexivity.
  - left.
  - reflexivity.
Defined.
