(* ===== verification/BoundedQueue.v ===== *)
(** The bounded queues of src/src/common/bounded_threadsafe_queue.h: [SPSCQueue], for one thread that
    pushes and one that pops, and [MPSCQueue] and [MPMCQueue], which put a mutex before either side.

    A method is cut at its accesses to shared memory: the loads and increments of the two indices, the
    access to [m_data], and the operations on the two mutexes and condition variables. The producer and
    the consumer each are in a phase, and either may act next; a sleeping thread may also wake for no
    reason. The orders of the atomics (each side loads the other's index with acquire and increments
    its own sequentially consistently) are what lets the steps be interleaved. *)
From Stdlib Require Import ZArith Lia.
From stdpp Require Import base list.
From S2P Require Import Prelude.

Inductive PushMode := PushTry | PushWait.
Inductive PopMode := PopTry | PopWait | PopWaitWithStopToken.

(** Where the producer is in [Emplace]: [write_index] is the local variable. *)
Inductive Producer (T : Type) :=
| PIdle
| PLoaded (mode : PushMode) (v : T) (write_index : Z)
| PTesting (v : T) (write_index : Z)
| PFull (v : T) (write_index : Z)
| PSleeping (v : T) (write_index : Z)
| PRoom (v : T) (write_index : Z)
| PWriting (v : T) (write_index : Z)
| PCounting (v : T)
| PLocking
| PNotifying
| PReturning.
Arguments PIdle {T}.
Arguments PLoaded {T} mode v write_index.
Arguments PTesting {T} v write_index.
Arguments PFull {T} v write_index.
Arguments PSleeping {T} v write_index.
Arguments PRoom {T} v write_index.
Arguments PWriting {T} v write_index.
Arguments PCounting {T} v.
Arguments PLocking {T}.
Arguments PNotifying {T}.
Arguments PReturning {T}.

(** Where the consumer is in [Pop]; from [CCounting] on, [v] is what it took. *)
Inductive Consumer (T : Type) :=
| CIdle
| CLoaded (mode : PopMode) (read_index : Z)
| CTesting (mode : PopMode) (read_index : Z)
| CEmpty (mode : PopMode) (read_index : Z)
| CSleeping (mode : PopMode) (read_index : Z)
| CFound (mode : PopMode) (read_index : Z)
| CReading (read_index : Z)
| CCounting (v : T)
| CLocking (v : T)
| CNotifying (v : T)
| CReturning (v : T).
Arguments CIdle {T}.
Arguments CLoaded {T} mode read_index.
Arguments CTesting {T} mode read_index.
Arguments CEmpty {T} mode read_index.
Arguments CSleeping {T} mode read_index.
Arguments CFound {T} mode read_index.
Arguments CReading {T} read_index.
Arguments CCounting {T} v.
Arguments CLocking {T} v.
Arguments CNotifying {T} v.
Arguments CReturning {T} v.

Inductive Side := ByProducer | ByConsumer.

(** The members, who holds the two mutexes, where the two threads are, and whether a stop was
    requested from the token of the consumer. *)
Record Queue (T : Type) := mkQueue {
  m_read_index : Z;
  m_write_index : Z;
  m_data : list T;
  producer_cv_mutex : option Side;
  consumer_cv_mutex : option Side;
  producer : Producer T;
  consumer : Consumer T;
  stop_requested : bool
}.
Arguments mkQueue {T}.
Arguments m_read_index {T} q.
Arguments m_write_index {T} q.
Arguments m_data {T} q.
Arguments producer_cv_mutex {T} q.
Arguments consumer_cv_mutex {T} q.
Arguments producer {T} q.
Arguments consumer {T} q.
Arguments stop_requested {T} q.
#[export] Instance eta_Queue {T} : Eta (Queue T) := fun q =>
  mkQueue (m_read_index q) (m_write_index q) (m_data q) (producer_cv_mutex q) (consumer_cv_mutex q) (producer q) (consumer q) (stop_requested q).

(** A thread calls a method, goes on, wakes for no reason; somebody requests a stop. *)
Inductive Action (T : Type) :=
| Push (mode : PushMode) (v : T) | Pop (mode : PopMode) | RunProducer | RunConsumer | WakeProducer | WakeConsumer | RequestStop.
Arguments Push {T} mode v.
Arguments Pop {T} mode.
Arguments RunProducer {T}.
Arguments RunConsumer {T}.
Arguments WakeProducer {T}.
Arguments WakeConsumer {T}.
Arguments RequestStop {T}.

(** What an action means for the caller: a value went in or out, a call returned false because the
    queue was full, because it was empty, or because of the stop. *)
Inductive Event (T : Type) := Pushed (v : T) | Popped (v : T) | Refused | Missed | Stopped | StopRequested.
Arguments Pushed {T} v.
Arguments Popped {T} v.
Arguments Refused {T}.
Arguments Missed {T}.
Arguments Stopped {T}.
Arguments StopRequested {T}.

Section queue.
Context {T : Type}.

(** What [std::move] leaves of a value, and the size of the array. *)
Context (moved : T -> T) (Capacity : Z).

(** The position of an index in [m_data]. *)
Definition slot (index : Z) : nat := Z.to_nat (index mod Capacity).

(** The steps of [Emplace]. *)
Definition emplace (q : Queue T) : option (Queue T * option (Event T)) :=
  match producer q with
  | PIdle | PSleeping _ _ => None
  | PLoaded PushTry v wi =>
      if wi -64 m_read_index q =? Capacity then Some (q <| producer := PIdle |>, Some Refused)
      else Some (q <| producer := PWriting v wi |>, None)
  | PLoaded PushWait v wi =>
      match producer_cv_mutex q with
      | None => Some (q <| producer_cv_mutex := Some ByProducer |> <| producer := PTesting v wi |>, None)
      | Some _ => None
      end
  | PTesting v wi =>
      if wi -64 m_read_index q <? Capacity then Some (q <| producer := PRoom v wi |>, None)
      else Some (q <| producer := PFull v wi |>, None)
  | PFull v wi => Some (q <| producer_cv_mutex := None |> <| producer := PSleeping v wi |>, None)
  | PRoom v wi => Some (q <| producer_cv_mutex := None |> <| producer := PWriting v wi |>, None)
  | PWriting v wi => Some (q <| m_data ::= <[slot wi := v]> |> <| producer := PCounting v |>, None)
  | PCounting v => Some (q <| m_write_index := m_write_index q +64 1 |> <| producer := PLocking |>, Some (Pushed v))
  | PLocking =>
      match consumer_cv_mutex q with
      | None => Some (q <| consumer_cv_mutex := Some ByProducer |> <| producer := PNotifying |>, None)
      | Some _ => None
      end
  | PNotifying =>
      Some (q <| consumer ::= fun c => match c with CSleeping mode ri => CLoaded mode ri | _ => c end |> <| producer := PReturning |>, None)
  | PReturning => Some (q <| consumer_cv_mutex := None |> <| producer := PIdle |>, None)
  end.

(** A wait with a token ends when a stop is requested. *)
Definition stops (mode : PopMode) (q : Queue T) : bool :=
  match mode with PopWaitWithStopToken => stop_requested q | _ => false end.

(** The steps of [Pop]. *)
Definition pop (q : Queue T) : option (Queue T * option (Event T)) :=
  match consumer q with
  | CIdle | CSleeping _ _ => None
  | CLoaded PopTry ri =>
      if ri =? m_write_index q then Some (q <| consumer := CIdle |>, Some Missed)
      else Some (q <| consumer := CReading ri |>, None)
  | CLoaded mode ri =>
      match consumer_cv_mutex q with
      | None => Some (q <| consumer_cv_mutex := Some ByConsumer |> <| consumer := CTesting mode ri |>, None)
      | Some _ => None
      end
  | CTesting mode ri =>
      if stops mode q || negb (ri =? m_write_index q) then Some (q <| consumer := CFound mode ri |>, None)
      else Some (q <| consumer := CEmpty mode ri |>, None)
  | CEmpty mode ri =>
      if stops mode q then Some (q <| consumer := CTesting mode ri |>, None)
      else Some (q <| consumer_cv_mutex := None |> <| consumer := CSleeping mode ri |>, None)
  | CFound mode ri =>
      if stops mode q then Some (q <| consumer_cv_mutex := None |> <| consumer := CIdle |>, Some Stopped)
      else Some (q <| consumer_cv_mutex := None |> <| consumer := CReading ri |>, None)
  | CReading ri =>
      v ← m_data q !! slot ri;
      Some (q <| m_data ::= <[slot ri := moved v]> |> <| consumer := CCounting v |>, None)
  | CCounting v => Some (q <| m_read_index := m_read_index q +64 1 |> <| consumer := CLocking v |>, Some (Popped v))
  | CLocking v =>
      match producer_cv_mutex q with
      | None => Some (q <| producer_cv_mutex := Some ByConsumer |> <| consumer := CNotifying v |>, None)
      | Some _ => None
      end
  | CNotifying v =>
      Some (q <| producer ::= fun p => match p with PSleeping x wi => PLoaded PushWait x wi | _ => p end |> <| consumer := CReturning v |>, None)
  | CReturning v => Some (q <| producer_cv_mutex := None |> <| consumer := CIdle |>, None)
  end.

Definition act (a : Action T) (q : Queue T) : option (Queue T * option (Event T)) :=
  match a with
  | Push mode v => match producer q with PIdle => Some (q <| producer := PLoaded mode v (m_write_index q) |>, None) | _ => None end
  | Pop mode => match consumer q with CIdle => Some (q <| consumer := CLoaded mode (m_read_index q) |>, None) | _ => None end
  | RunProducer => emplace q
  | RunConsumer => pop q
  | WakeProducer => match producer q with PSleeping v wi => Some (q <| producer := PLoaded PushWait v wi |>, None) | _ => None end
  | WakeConsumer => match consumer q with CSleeping mode ri => Some (q <| consumer := CLoaded mode ri |>, None) | _ => None end
  | RequestStop =>
      Some (q <| stop_requested := true |>
              <| consumer ::= fun c => match c with CSleeping PopWaitWithStopToken ri => CLoaded PopWaitWithStopToken ri | _ => c end |>,
            Some StopRequested)
  end.

Definition new_queue (data : list T) : Queue T := mkQueue 0 0 data None None PIdle CIdle false.

(** The states that any interleaving of any calls leads to, with what happened on the way. *)
Inductive reached (data : list T) : list (Event T) -> Queue T -> Prop :=
| reached_new : reached data [] (new_queue data)
| reached_act l q a q' e : reached data l q -> act a q = Some (q', e) -> reached data (l ++ option_list e) q'.

(** The run of a list of actions. *)
Fixpoint acts (l : list (Action T)) (q : Queue T) : option (Queue T * list (Event T)) :=
  match l with
  | [] => Some (q, [])
  | a :: l => '(q, e) ← act a q; '(q, es) ← acts l q; Some (q, option_list e ++ es)
  end.

(** ** The specification: a bounded list *)

Inductive spec_step : list T * bool -> Event T -> list T * bool -> Prop :=
| spec_push l b v : Z.of_nat (length l) < Capacity -> spec_step (l, b) (Pushed v) (l ++ [v], b)
| spec_pop l b v : spec_step (v :: l, b) (Popped v) (l, b)
| spec_refuse l b : Z.of_nat (length l) = Capacity -> spec_step (l, b) Refused (l, b)
| spec_miss b : spec_step ([], b) Missed ([], b)
| spec_stopped l : spec_step (l, true) Stopped (l, true)
| spec_stop l b : spec_step (l, b) StopRequested (l, true).

Inductive spec_runs : list (Event T) -> list T * bool -> Prop :=
| spec_new : spec_runs [] ([], false)
| spec_more l s e s' : spec_runs l s -> spec_step s e s' -> spec_runs (l ++ [e]) s'.

(** How many items there are. *)
Definition count (q : Queue T) : Z := m_write_index q -64 m_read_index q.

(** The items: the slots from the read index on; the first one is with the consumer between its
    move and its increment. *)
Definition represents (q : Queue T) (items : list T) : Prop :=
  Z.of_nat (length items) = count q /\
  forall i x, items !! i = Some x ->
    match consumer q, i with
    | CCounting v, O => x = v
    | _, _ => m_data q !! slot (m_read_index q + Z.of_nat i) = Some x
    end.

(** * The invariant *)

(** The consumer is about to wake the producer. *)
Definition notifies (c : Consumer T) : bool := match c with CLocking _ | CNotifying _ => true | _ => false end.

(** What the phase of the producer says: while it sleeps, or is about to, the queue is full or the
    consumer is about to notify it. *)
Definition producer_ok (q : Queue T) : Prop :=
  match producer q with
  | PLoaded _ _ wi | PTesting _ wi => wi = m_write_index q
  | PFull _ wi | PSleeping _ wi =>
      wi = m_write_index q /\ (count q = Capacity \/ notifies (consumer q) = true)
  | PRoom _ wi | PWriting _ wi => wi = m_write_index q /\ count q < Capacity
  | PCounting v => count q < Capacity /\ m_data q !! slot (m_write_index q) = Some v
  | _ => True
  end.

(** While the consumer sleeps, or is about to, the queue is empty or the producer is about to notify
    it, and no stop was requested. *)
Definition consumer_ok (q : Queue T) : Prop :=
  match consumer q with
  | CLoaded _ ri => ri = m_read_index q
  | CTesting mode ri => ri = m_read_index q /\ mode <> PopTry
  | CEmpty mode ri => ri = m_read_index q /\ mode <> PopTry /\ (count q = 0 \/ producer q = PLocking \/ producer q = PNotifying)
  | CSleeping mode ri =>
      ri = m_read_index q /\ mode <> PopTry /\ stops mode q = false /\
      (count q = 0 \/ producer q = PLocking \/ producer q = PNotifying)
  | CFound mode ri => ri = m_read_index q /\ (0 < count q \/ stops mode q = true)
  | CReading ri => ri = m_read_index q /\ 0 < count q
  | CCounting _ => 0 < count q
  | _ => True
  end.

(** The phases inside of the critical sections of the two mutexes. *)
Definition producer_in_producer_cv (q : Queue T) : bool :=
  match producer q with PTesting _ _ | PFull _ _ | PRoom _ _ => true | _ => false end.
Definition consumer_in_producer_cv (q : Queue T) : bool :=
  match consumer q with CNotifying _ | CReturning _ => true | _ => false end.
Definition producer_in_consumer_cv (q : Queue T) : bool :=
  match producer q with PNotifying | PReturning => true | _ => false end.
Definition consumer_in_consumer_cv (q : Queue T) : bool :=
  match consumer q with CTesting _ _ | CEmpty _ _ | CFound _ _ => true | _ => false end.

Definition mutex_ok (m : option Side) (by_producer by_consumer : bool) : Prop :=
  match m with
  | None => by_producer = false /\ by_consumer = false
  | Some ByProducer => by_producer = true /\ by_consumer = false
  | Some ByConsumer => by_producer = false /\ by_consumer = true
  end.

Record queue_ok (q : Queue T) : Prop := {
  qo_read : is_u64 (m_read_index q);
  qo_write : is_u64 (m_write_index q);
  qo_count : count q <= Capacity;
  qo_data : Z.of_nat (length (m_data q)) = Capacity;
  qo_producer : producer_ok q;
  qo_consumer : consumer_ok q;
  qo_producer_cv : mutex_ok (producer_cv_mutex q) (producer_in_producer_cv q) (consumer_in_producer_cv q);
  qo_consumer_cv : mutex_ok (consumer_cv_mutex q) (producer_in_consumer_cv q) (consumer_in_consumer_cv q)
}.

(** ** The indices *)

(** The static assertion of the class, and a [size_t] that is not zero. *)
Hypothesis Capacity_range : 0 < Capacity <= U64_MAX.
Hypothesis Capacity_power : Z.land Capacity (Capacity - 1) = 0.

Lemma Capacity_pow2 : exists k, 0 <= k <= 63 /\ Capacity = 2 ^ k.
Proof.
  pose proof (Z.log2_spec Capacity ltac:(lia)) as [Hlo Hhi]. pose proof (Z.log2_nonneg Capacity).
  exists (Z.log2 Capacity). split.
  - split; [done|]. apply Z.lt_succ_r. apply Z.log2_lt_pow2; [lia|]. change (2 ^ Z.succ 63) with 18446744073709551616. u64_lia.
  - destruct (decide (2 ^ Z.log2 Capacity = Capacity)) as [|Hne]; [done|]. exfalso.
    assert (Z.log2 (Capacity - 1) = Z.log2 Capacity) as El by (apply Z.log2_unique; lia).
    assert (Hb : Z.testbit (Z.land Capacity (Capacity - 1)) (Z.log2 Capacity) = true).
    { rewrite Z.land_spec, (Z.bit_log2 Capacity) by lia. rewrite <- El. by rewrite Z.bit_log2 by lia. }
    rewrite Capacity_power, Z.bits_0 in Hb. done.
Qed.

Lemma Capacity_divides : (Capacity | 18446744073709551616).
Proof.
  destruct Capacity_pow2 as (k & Hk & ->). exists (2 ^ (64 - k)). change 18446744073709551616 with (2 ^ 64). rewrite <- Z.pow_add_r by lia.
  by replace (64 - k + k) with 64 by lia.
Qed.

Lemma Capacity_half : Capacity <= 9223372036854775808.
Proof. destruct Capacity_pow2 as (k & Hk & ->). change 9223372036854775808 with (2 ^ 63). apply Z.pow_le_mono_r; lia. Qed.

Lemma slot_wrap x : slot (wrap64 x) = slot x.
Proof.
  unfold slot, wrap64. f_equal. destruct Capacity_divides as [k Hk]. rewrite Hk.
  rewrite (Z.mul_comm k). rewrite Z.rem_mul_r by nia. rewrite Z.mul_comm, Z.mod_add by lia. apply Z.mod_mod. lia.
Qed.

Lemma slot_lt x : (slot x < Z.to_nat Capacity)%nat.
Proof. unfold slot. pose proof (Z.mod_pos_bound x Capacity). lia. Qed.

Lemma count_range q : 0 <= count q <= U64_MAX.
Proof. unfold count. apply wrap64_range. Qed.

Lemma slot_write q : is_u64 (m_read_index q) -> is_u64 (m_write_index q) -> slot (m_write_index q) = slot (m_read_index q + count q).
Proof.
  intros Hr Hw. rewrite <- (slot_wrap (m_read_index q + count q)). f_equal. unfold count, wrap64.
  rewrite Z.add_mod_idemp_r by lia. rewrite Z.add_sub_assoc, Z.add_sub_swap, Z.sub_diag. symmetry. apply Z.mod_small. u64_lia.
Qed.

(** Two items in the queue are in different slots. *)
Lemma slot_inj x i j : 0 <= i < Capacity -> 0 <= j < Capacity -> slot (x + i) = slot (x + j) -> i = j.
Proof.
  intros Hi Hj H. unfold slot in H.
  pose proof (Z.mod_pos_bound (x + i) Capacity ltac:(lia)). pose proof (Z.mod_pos_bound (x + j) Capacity ltac:(lia)).
  assert (E : (x + i) mod Capacity = (x + j) mod Capacity) by lia.
  pose proof (Z.div_mod (x + i) Capacity ltac:(lia)). pose proof (Z.div_mod (x + j) Capacity ltac:(lia)).
  set (a := (x + i) / Capacity) in *. set (b := (x + j) / Capacity) in *.
  assert (Hd : i - j = Capacity * (a - b)) by lia.
  destruct (Z.eq_dec (a - b) 0) as [E0|Hne]; [rewrite E0 in Hd; lia|]. nia.
Qed.

Lemma count_push q : count q < Capacity -> (m_write_index q +64 1) -64 m_read_index q = count q + 1.
Proof.
  intros Hc. pose proof Capacity_half. pose proof (count_range q) as Hr. unfold count, wrap64 in *. u64_unfold.
  set (w := m_write_index q) in *. set (r := m_read_index q) in *.
  pose proof (Z.div_mod (w - r) 18446744073709551616 ltac:(lia)). pose proof (Z.div_mod (w + 1) 18446744073709551616 ltac:(lia)).
  symmetry. apply (Z.mod_unique _ _ ((w - r) / 18446744073709551616 - (w + 1) / 18446744073709551616)); lia.
Qed.

Lemma count_pop q : 0 < count q -> m_write_index q -64 (m_read_index q +64 1) = count q - 1.
Proof.
  intros Hc. pose proof (count_range q) as Hr. unfold count, wrap64 in *. u64_unfold.
  set (w := m_write_index q) in *. set (r := m_read_index q) in *.
  pose proof (Z.div_mod (w - r) 18446744073709551616 ltac:(lia)). pose proof (Z.div_mod (r + 1) 18446744073709551616 ltac:(lia)).
  symmetry. apply (Z.mod_unique _ _ ((w - r) / 18446744073709551616 + (r + 1) / 18446744073709551616)); lia.
Qed.

Lemma count_zero q : is_u64 (m_read_index q) -> is_u64 (m_write_index q) -> (m_read_index q =? m_write_index q) = (count q =? 0).
Proof.
  intros Hr Hw. apply Bool.eq_iff_eq_true. rewrite !Z.eqb_eq. unfold count, wrap64. split; [intros ->; by rewrite Z.sub_diag|].
  intros H. apply Z.mod_divide in H as [k Hk]; [|done]. u64_lia.
Qed.

(** ** Every action keeps it *)

Lemma data_written d x (v : T) : Z.of_nat (length d) = Capacity -> <[slot x := v]> d !! slot x = Some v.
Proof. intros H. apply list_lookup_insert_eq. pose proof (slot_lt x). lia. Qed.

Lemma data_length d x (v : T) : Z.of_nat (length d) = Capacity -> Z.of_nat (length (<[slot x := v]> d)) = Capacity.
Proof. by rewrite length_insert. Qed.

(** The queue is empty or the producer is about to notify; full, or the consumer is. *)
Definition may_sleep (q : Queue T) : Prop := count q = 0 \/ producer q = PLocking \/ producer q = PNotifying.
Definition may_wait (q : Queue T) : Prop := count q = Capacity \/ notifies (consumer q) = true.

Lemma consumer_ok_mono q q' : consumer q' = consumer q -> m_read_index q' = m_read_index q -> stop_requested q' = stop_requested q ->
  count q <= count q' -> (may_sleep q -> may_sleep q') -> consumer_ok q -> consumer_ok q'.
Proof.
  unfold may_sleep, consumer_ok, stops. intros -> -> -> Hc Hs.
  destruct (consumer q) as [|m ri|m ri|m ri|m ri|m ri|ri|v|v|v|v]; try done; try (by intuition lia); intuition.
Qed.

Lemma producer_ok_mono q q' : producer q' = producer q -> m_write_index q' = m_write_index q -> count q' <= count q ->
  (count q < Capacity -> m_data q' !! slot (m_write_index q) = m_data q !! slot (m_write_index q)) ->
  (may_wait q -> may_wait q') -> producer_ok q -> producer_ok q'.
Proof.
  unfold may_wait, producer_ok. intros -> -> Hc Hd Hs.
  destruct (producer q) as [|m v wi|v wi|v wi|v wi|v wi|v wi|v| | |]; try done.
  all: intros [? ?]; split; [done || lia|]; first [by auto|lia|by rewrite Hd].
Qed.

(** A side takes a mutex that is free, or gives back the one it has. *)
Lemma take_by_producer a b : mutex_ok None a b -> mutex_ok (Some ByProducer) true b.
Proof. by intros [_ ?]. Qed.
Lemma take_by_consumer a b : mutex_ok None a b -> mutex_ok (Some ByConsumer) a true.
Proof. by intros [? _]. Qed.
Lemma give_by_producer m b : mutex_ok m true b -> mutex_ok None false b.
Proof. destruct m as [[]|]; intros [? ?]; done. Qed.
Lemma give_by_consumer m a : mutex_ok m a true -> mutex_ok None a false.
Proof. destruct m as [[]|]; intros [? ?]; done. Qed.
Lemma mutex_excludes m a : mutex_ok m true a -> a = false.
Proof. destruct m as [[]|]; intros [? ?]; done. Qed.
Lemma mutex_excludes_r m a : mutex_ok m a true -> a = false.
Proof. destruct m as [[]|]; intros [? ?]; done. Qed.

Ltac split_queue :=
  split; cbn [m_read_index m_write_index m_data producer_cv_mutex consumer_cv_mutex producer consumer stop_requested];
  try done; try (by apply data_length); try (by apply wrap64_range);
  try (by eapply take_by_producer); try (by eapply give_by_producer);
  try (by eapply take_by_consumer); try (by eapply give_by_consumer).

(** [notify_one] for the consumer: it leaves the sleep, and is in none of the critical sections. *)
Definition wake_consumer (q : Queue T) : Queue T :=
  q <| consumer ::= fun c => match c with CSleeping mode ri => CLoaded mode ri | _ => c end |>.
Definition wake_producer (q : Queue T) : Queue T :=
  q <| producer ::= fun p => match p with PSleeping x wi => PLoaded PushWait x wi | _ => p end |>.

Lemma wake_consumer_ok q : queue_ok q -> producer q = PNotifying -> queue_ok (wake_consumer q <| producer := PReturning |>).
Proof.
  intros [Hr Hw Hc Hd Hp Hk Hm1 Hm2] Ep. unfold producer_in_producer_cv, producer_in_consumer_cv in Hm1, Hm2. rewrite Ep in Hm1, Hm2.
  pose proof (mutex_excludes _ _ Hm2) as Hx. unfold consumer_ok, consumer_in_producer_cv, consumer_in_consumer_cv in *.
  split_queue; unfold consumer_ok, consumer_in_producer_cv, consumer_in_consumer_cv; cbn; destruct (consumer q); try done; by destruct Hk.
Qed.

Lemma wake_producer_ok q v : queue_ok q -> consumer q = CNotifying v -> queue_ok (wake_producer q <| consumer := CReturning v |>).
Proof.
  intros [Hr Hw Hc Hd Hp Hk Hm1 Hm2] Ec. unfold consumer_in_producer_cv, consumer_in_consumer_cv in Hm1, Hm2. rewrite Ec in Hm1, Hm2.
  pose proof (mutex_excludes_r _ _ Hm1) as Hx. unfold producer_ok, producer_in_producer_cv, producer_in_consumer_cv in *.
  split_queue; unfold producer_ok, producer_in_producer_cv, producer_in_consumer_cv; cbn; destruct (producer q); try done; by destruct Hp.
Qed.

Lemma emplace_ok q q' e : queue_ok q -> emplace q = Some (q', e) -> queue_ok q'.
Proof.
  intros Hq H. destruct (producer q) eqn:Ep; try (by unfold emplace in H; rewrite Ep in H).
  8: { unfold emplace in H. rewrite Ep in H. injection H as <- <-. by apply (wake_consumer_ok q). }
  all: pose proof Hq as [Hr Hw Hc Hd Hp Hk Hm1 Hm2]; unfold producer_ok in Hp; rewrite Ep in Hp.
  all: unfold producer_in_producer_cv, producer_in_consumer_cv in Hm1, Hm2; rewrite Ep in Hm1, Hm2.
  all: unfold emplace in H; rewrite Ep in H; try destruct mode; repeat case_match; simplify_eq; split_queue.
  all: try (eapply consumer_ok_mono; try exact Hk; try done; unfold may_sleep; cbn; rewrite Ep; intuition congruence).
  all: unfold producer_ok, consumer_ok, count in *; cbn in *.
  - split; [done|]. lia.
  - split; [done|]. lia.
  - split; [done|]. left. lia.
  - destruct Hp as [-> ?]. split; [done|]. by apply data_written.
  - pose proof (count_push q) as Hpush. unfold count in Hpush. lia.
  - pose proof (count_push q) as Hpush. unfold count, stops in *. cbn.
    destruct (consumer q); try done; intuition lia.
Qed.

Lemma pop_ok q q' e : queue_ok q -> pop q = Some (q', e) -> queue_ok q'.
Proof.
  intros Hq H. destruct (consumer q) eqn:Ec; try (by unfold pop in H; rewrite Ec in H).
  8: { unfold pop in H. rewrite Ec in H. injection H as <- <-. by apply (wake_producer_ok q). }
  all: pose proof Hq as [Hr Hw Hc Hd Hp Hk Hm1 Hm2]; unfold consumer_ok in Hk; rewrite Ec in Hk.
  all: unfold consumer_in_producer_cv, consumer_in_consumer_cv in Hm1, Hm2; rewrite Ec in Hm1, Hm2.
  all: unfold pop in H; rewrite Ec in H.
  5: { apply bind_Some in H as (x & Hx & [= <- <-]). split_queue.
    - eapply producer_ok_mono; try exact Hp; try done.
      + intros Hlt. cbn. destruct Hk as [-> Hk]. apply list_lookup_insert_ne. rewrite slot_write by done.
        pose proof (count_range q). replace (m_read_index q) with (m_read_index q + 0) at 1 by lia.
        intros He. apply slot_inj in He; lia.
      + unfold may_wait. rewrite Ec. intros [?|?]; [by left|done].
    - by destruct Hk. }
  all: try destruct mode; repeat case_match; simplify_eq; split_queue.
  all: try (eapply producer_ok_mono; try exact Hp; try done; unfold may_wait; rewrite Ec; (intros [?|?]; [by left|by (right || done)])).
  all: pose proof (count_zero q Hr Hw) as Hz; pose proof (count_range q) as Hrg.
  all: try (lazymatch type of Hk with _ /\ _ => destruct Hk as [-> Hk] end).
  all: try (unfold consumer_ok; cbn; unfold count, stops in *; cbn in *; split_and?; first [done|lia|tauto|intuition congruence|intuition lia]).
  - split; [done|]. apply orb_true_iff in H0 as [H0|H0]; [by right|left]. cbn. unfold count in *. cbn in *. lia.
  - pose proof (count_pop q Hk) as Hpop. unfold count in *. cbn in *. lia.
  - pose proof (count_pop q Hk) as Hpop. unfold producer_ok, count in *. cbn in *.
    destruct (producer q); try done; intuition lia.
Qed.

Lemma act_ok a q q' e : queue_ok q -> act a q = Some (q', e) -> queue_ok q'.
Proof.
  intros Hq H. destruct a as [mode v|mode| | | | |]; cbn in H; [| |by eapply emplace_ok|by eapply pop_ok|..].
  all: pose proof Hq as [Hr Hw Hc Hd Hp Hk Hm1 Hm2].
  all: unfold producer_in_producer_cv, consumer_in_producer_cv, producer_in_consumer_cv, consumer_in_consumer_cv in *.
  - destruct (producer q) eqn:Ep; simplify_eq. split_queue.
    eapply consumer_ok_mono; try exact Hk; try done. unfold may_sleep. rewrite Ep. cbn. intuition congruence.
  - destruct (consumer q) eqn:Ec; simplify_eq. split_queue.
    eapply producer_ok_mono; try exact Hp; try done. unfold may_wait. rewrite Ec. cbn. intuition congruence.
  - destruct (producer q) eqn:Ep; simplify_eq. unfold producer_ok in Hp. rewrite Ep in Hp. split_queue; [by destruct Hp|].
    eapply consumer_ok_mono; try exact Hk; try done. unfold may_sleep. rewrite Ep. cbn. intuition congruence.
  - destruct (consumer q) eqn:Ec; simplify_eq. unfold consumer_ok in Hk. rewrite Ec in Hk. split_queue; [|by destruct Hk].
    eapply producer_ok_mono; try exact Hp; try done. unfold may_wait. rewrite Ec. cbn. intuition congruence.
  - injection H as <- <-. unfold consumer_ok in Hk. split_queue.
    + eapply producer_ok_mono; try exact Hp; try done. unfold may_wait. cbn. by destruct (consumer q) as [| | | |[] ?| | | | | |].
    + unfold consumer_ok, stops in *. cbn. destruct (consumer q) as [| | | |[] ?|[] ?| | | | |]; intuition.
    + unfold consumer_in_producer_cv. cbn. by destruct (consumer q) as [| | | |[] ?| | | | | |].
    + unfold consumer_in_consumer_cv. cbn. by destruct (consumer q) as [| | | |[] ?| | | | | |].
Qed.

(** * Refinement *)

Lemma slot_wrap_add x j : slot (wrap64 x + j) = slot (x + j).
Proof.
  rewrite <- (slot_wrap (wrap64 x + j)), <- (slot_wrap (x + j)). f_equal. unfold wrap64. by rewrite Zplus_mod_idemp_l.
Qed.

(** The action is a step of the specification, or none. *)
Definition simulates (q : Queue T) (items : list T) (q' : Queue T) (e : option (Event T)) : Prop :=
  exists items', represents q' items' /\
    match e with
    | None => items' = items /\ stop_requested q' = stop_requested q
    | Some e => spec_step (items, stop_requested q) e (items', stop_requested q')
    end.

Definition taken (c : Consumer T) : option T := match c with CCounting v => Some v | _ => None end.

Lemma represents_keep q q' items : m_read_index q' = m_read_index q -> m_write_index q' = m_write_index q ->
  (forall i, 0 <= i < count q -> m_data q' !! slot (m_read_index q + i) = m_data q !! slot (m_read_index q + i)) ->
  taken (consumer q') = taken (consumer q) -> represents q items -> represents q' items.
Proof.
  intros Er Ew Ed Ec [Hl Hi]. split; [unfold count in *; by rewrite Er, Ew|]. intros i x Hx. specialize (Hi i x Hx).
  rewrite Er. pose proof (lookup_lt_Some _ _ _ Hx).
  destruct (consumer q), (consumer q'); cbn in Ec; try done; try (rewrite Ed by lia; done); destruct i; try (rewrite Ed by lia; done).
  congruence.
Qed.

(** The head of the queue, to be read. *)
Lemma represents_head q items : represents q items -> 0 < count q -> (forall v, consumer q <> CCounting v) ->
  exists x rest, items = x :: rest /\ m_data q !! slot (m_read_index q) = Some x.
Proof.
  intros [Hl Hi] Hc Hn. destruct items as [|x rest]; [cbn in Hl; lia|]. exists x, rest. split; [done|].
  specialize (Hi O x eq_refl). replace (m_read_index q) with (m_read_index q + Z.of_nat 0) by lia.
  destruct (consumer q); try done. by destruct (Hn v).
Qed.

Lemma write_simulates q items v : queue_ok q -> represents q items -> producer q = PWriting v (m_write_index q) ->
  represents (q <| m_data ::= <[slot (m_write_index q) := v]> |> <| producer := PCounting v |>) items.
Proof.
  intros Hq Hr Ep. pose proof (qo_producer q Hq) as Hp. unfold producer_ok in Hp. rewrite Ep in Hp. destruct Hp as [_ Hc].
  eapply represents_keep; try exact Hr; try done. intros i Hi. cbn. apply list_lookup_insert_ne.
  rewrite slot_write by apply Hq. intros He. apply slot_inj in He; lia.
Qed.

Lemma push_simulates q items v : queue_ok q -> represents q items -> producer q = PCounting v ->
  represents (q <| m_write_index := m_write_index q +64 1 |> <| producer := PLocking |>) (items ++ [v]).
Proof.
  intros Hq [Hl Hi] Ep. pose proof (qo_producer q Hq) as Hp. unfold producer_ok in Hp. rewrite Ep in Hp. destruct Hp as [Hc Hd].
  pose proof (count_push q Hc) as Hpush. split.
  - rewrite length_app. unfold count in *. cbn. lia.
  - intros i x [Hx|[Hge Hx]]%lookup_app_Some; cbn; [by apply Hi|].
    destruct (i - length items)%nat eqn:E; [|done]. injection Hx as <-. assert (i = length items) as -> by lia.
    rewrite Hl, <- slot_write by apply Hq.
    pose proof (qo_consumer q Hq) as Hk. unfold consumer_ok in Hk. destruct (consumer q); try done.
    destruct (length items) eqn:El; [|done]. cbn in Hl. lia.
Qed.

Lemma read_simulates q items x : queue_ok q -> represents q items -> consumer q = CReading (m_read_index q) ->
  m_data q !! slot (m_read_index q) = Some x ->
  represents (q <| m_data ::= <[slot (m_read_index q) := moved x]> |> <| consumer := CCounting x |>) items.
Proof.
  intros Hq [Hl Hi] Ec Hx. pose proof (qo_count q Hq). split; [done|]. intros i y Hy. cbn.
  pose proof (lookup_lt_Some _ _ _ Hy). specialize (Hi i y Hy). rewrite Ec in Hi. destruct i.
  - rewrite Z.add_0_r in Hi. congruence.
  - rewrite list_lookup_insert_ne; [done|]. replace (m_read_index q) with (m_read_index q + 0) at 1 by lia.
    intros He. apply slot_inj in He; lia.
Qed.

Lemma pop_simulates q items v : queue_ok q -> represents q items -> consumer q = CCounting v ->
  exists rest, items = v :: rest /\ represents (q <| m_read_index := m_read_index q +64 1 |> <| consumer := CLocking v |>) rest.
Proof.
  intros Hq [Hl Hi] Ec. pose proof (qo_consumer q Hq) as Hk. unfold consumer_ok in Hk. rewrite Ec in Hk.
  destruct items as [|x rest]; [cbn in Hl; lia|]. exists rest. pose proof (Hi O x eq_refl) as Hx. rewrite Ec in Hx. subst x.
  split; [done|]. pose proof (count_pop q Hk) as Hpop. split; [unfold count in *; cbn in *; lia|]. intros i y Hy. cbn.
  specialize (Hi (S i) y Hy). rewrite Ec in Hi. rewrite slot_wrap_add. by replace (m_read_index q + 1 + Z.of_nat i) with (m_read_index q + Z.of_nat (S i)) by lia.
Qed.

Ltac keep_items := eexists; split; [eapply represents_keep; try eassumption; try done|].

Lemma emplace_simulates q items q' e : queue_ok q -> represents q items -> emplace q = Some (q', e) -> simulates q items q' e.
Proof.
  intros Hq Hr H. pose proof (qo_producer q Hq) as Hp. pose proof (proj1 Hr) as Hl. unfold emplace, producer_ok in *.
  destruct (producer q) as [|mode v wi|v wi|v wi|v wi|v wi|v wi|v| | |] eqn:Ep; try destruct mode; try done.
  all: repeat case_match; simplify_eq; try (by keep_items).
  - keep_items. cbn. constructor. unfold count in Hl. lia.
  - destruct Hp as [-> _]. exists items. split; [by apply write_simulates|done].
  - exists (items ++ [v]). split; [by apply push_simulates|]. cbn. constructor. lia.
  - keep_items; [|done]. cbn. by destruct (consumer q).
Qed.

Lemma pop_step_simulates q items q' e : queue_ok q -> represents q items -> pop q = Some (q', e) -> simulates q items q' e.
Proof.
  intros Hq Hr H. pose proof (qo_consumer q Hq) as Hk. pose proof (proj1 Hr) as Hl.
  pose proof (count_zero q (qo_read q Hq) (qo_write q Hq)) as Hz. unfold pop, consumer_ok in *.
  destruct (consumer q) as [|mode ri|mode ri|mode ri|mode ri|mode ri|ri|v|v|v|v] eqn:Ec; try done.
  1-4: try destruct mode; repeat case_match; simplify_eq; try (keep_items; by rewrite ?Ec).
  - keep_items; [by rewrite Ec|]. cbn. assert (items = []) as -> by (apply length_zero_iff_nil; lia). constructor.
  - keep_items; [by rewrite Ec|]. cbn in *. match goal with H : stop_requested q = true |- _ => rewrite H end. constructor.
  - destruct Hk as [-> Hk]. apply bind_Some in H as (x & Hx & [= <- <-]).
    exists items. split; [by apply read_simulates|done].
  - injection H as <- <-. destruct (pop_simulates q items v Hq Hr Ec) as (rest & -> & Hrest).
    exists rest. split; [done|]. cbn. constructor.
  - destruct (producer_cv_mutex q); [done|]. injection H as <- <-. keep_items; by rewrite ?Ec.
  - injection H as <- <-. keep_items; by rewrite ?Ec.
  - injection H as <- <-. keep_items; by rewrite ?Ec.
Qed.

Lemma act_simulates a q items q' e : queue_ok q -> represents q items -> act a q = Some (q', e) -> simulates q items q' e.
Proof.
  intros Hq Hr H. destruct a as [mode v|mode| | | | |]; cbn in H; [| |by apply emplace_simulates|by apply pop_step_simulates|..].
  - destruct (producer q); simplify_eq. by keep_items.
  - destruct (consumer q) eqn:Ec; simplify_eq. keep_items; by rewrite ?Ec.
  - destruct (producer q); simplify_eq. by keep_items.
  - destruct (consumer q) eqn:Ec; simplify_eq. keep_items; by rewrite ?Ec.
  - injection H as <- <-. keep_items; cbn; [by destruct (consumer q) as [| | | |[] ?| | | | | |]|constructor].
Qed.

Lemma new_queue_ok data : Z.of_nat (length data) = Capacity -> queue_ok (new_queue data) /\ represents (new_queue data) [].
Proof.
  intros Hd. assert (Hc : count (new_queue data) = 0) by done.
  split; [split; rewrite ?Hc; cbn; try done; try (split; done); lia|]. split; done.
Qed.

Lemma reached_ok data l q : Z.of_nat (length data) = Capacity -> reached data l q ->
  queue_ok q /\ exists items, represents q items /\ spec_runs l (items, stop_requested q).
Proof.
  intros Hd H. induction H as [|l q a q' e _ (Hq & items & Hr & Hs) Ha].
  - destruct (new_queue_ok data Hd). split; [done|]. exists []. split; [done|constructor].
  - split; [by eapply act_ok|]. destruct (act_simulates a q items q' e Hq Hr Ha) as (items' & Hr' & He).
    exists items'. split; [done|]. destruct e as [e|]; cbn; [by econstructor|].
    destruct He as [-> ->]. by rewrite app_nil_r.
Qed.

(** ** What the events say *)

Definition pushes (l : list (Event T)) : list T := omap (fun e => match e with Pushed v => Some v | _ => None end) l.
Definition pops (l : list (Event T)) : list T := omap (fun e => match e with Popped v => Some v | _ => None end) l.

Lemma spec_runs_fifo l items b : spec_runs l (items, b) -> pushes l = pops l ++ items /\ Z.of_nat (length items) <= Capacity.
Proof.
  remember (items, b) as s eqn:Es. intros H. revert items b Es. induction H as [|l [i0 b0] e s' _ IH Hst]; intros items b Es.
  { injection Es as <- <-. split; [done|]. cbn. lia. }
  destruct (IH i0 b0 eq_refl) as [IHl IHc]. subst s'. unfold pushes, pops in *. rewrite !omap_app, IHl.
  inversion Hst; subst; rewrite ?length_app; cbn in *; rewrite ?app_nil_r, <- ?app_assoc; (split; [done|lia]).
Qed.

(** * Progress *)

(** How many steps are left at most: a call that has not notified yet may wake the other side, which
    then takes up to four steps to sleep again. *)
Definition producer_weight (p : Producer T) : nat :=
  match p with
  | PIdle => 0 | PReturning => 1 | PNotifying => 6 | PLocking => 7 | PCounting _ => 8 | PWriting _ _ => 9
  | PRoom _ _ => 10 | PSleeping _ _ => 11 | PFull _ _ => 12 | PTesting _ _ => 13 | PLoaded _ _ _ => 14
  end.
Definition consumer_weight (q : Queue T) : nat :=
  match consumer q with
  | CIdle => 0 | CReturning _ => 1 | CNotifying _ => 6 | CLocking _ => 7 | CCounting _ => 8 | CReading _ => 9
  | CFound _ _ => 10 | CSleeping _ _ => 11 | CEmpty mode _ => if stops mode q then 14 else 12 | CTesting _ _ => 13 | CLoaded _ _ => 15
  end.
Definition weight (q : Queue T) : nat := producer_weight (producer q) + consumer_weight q.

Lemma weight_producer q q' : consumer_weight q' = consumer_weight q ->
  (producer_weight (producer q') < producer_weight (producer q))%nat -> (weight q' < weight q)%nat.
Proof. unfold weight. lia. Qed.

Lemma emplace_weight q q' e : emplace q = Some (q', e) -> (weight q' < weight q)%nat.
Proof.
  unfold emplace. intros H. destruct (producer q) as [|[] v wi|v wi|v wi|v wi|v wi|v wi|v| | |] eqn:Ep; try done.
  9: { injection H as <- <-. unfold weight, consumer_weight, stops. rewrite Ep. cbn.
        destruct (consumer q) as [|mode ri|mode ri|mode ri|mode ri|mode ri|ri|v|v|v|v]; try lia. }
  all: repeat (case_match; try done); simplify_eq; (apply weight_producer; [done|rewrite Ep; cbn; lia]).
Qed.

Lemma weight_consumer q q' : producer q' = producer q -> (consumer_weight q' < consumer_weight q)%nat -> (weight q' < weight q)%nat.
Proof. unfold weight. intros ->. lia. Qed.

Lemma pop_weight q q' e : pop q = Some (q', e) -> (weight q' < weight q)%nat.
Proof.
  unfold pop. intros H. destruct (consumer q) as [|mode ri|mode ri|mode ri|mode ri|mode ri|ri|v|v|v|v] eqn:Ec; try done.
  8: { injection H as <- <-. unfold weight, consumer_weight. rewrite Ec. cbn. destruct (producer q); cbn; lia. }
  5: { apply bind_Some in H as (x & Hx & [= <- <-]). apply weight_consumer; [done|]. unfold consumer_weight. rewrite Ec. cbn. lia. }
  all: try destruct mode; cbn in H; destruct (stop_requested q) eqn:Est; cbn in H; repeat (case_match; try done); simplify_eq.
  all: apply weight_consumer; [done|]; unfold consumer_weight, stops; rewrite Ec; cbn; rewrite ?Est; lia.
Qed.

(** Who does not move sleeps, or waits for a mutex. *)
Lemma emplace_stuck q : emplace q = None ->
  producer q = PIdle \/ (exists v wi, producer q = PSleeping v wi) \/
  producer_in_producer_cv q = false /\ producer_in_consumer_cv q = false /\ (producer_cv_mutex q <> None \/ consumer_cv_mutex q <> None).
Proof.
  unfold emplace, producer_in_producer_cv, producer_in_consumer_cv.
  destruct (producer q) as [|[] v wi|v wi|v wi|v wi|v wi|v wi|v| | |]; try (by repeat case_match); eauto.
  - intros H. right; right. split_and!; [done..|]. left. by destruct (producer_cv_mutex q).
  - intros H. right; right. split_and!; [done..|]. right. by destruct (consumer_cv_mutex q).
Qed.

Lemma pop_stuck q : queue_ok q -> pop q = None ->
  consumer q = CIdle \/ (exists mode ri, consumer q = CSleeping mode ri) \/
  consumer_in_producer_cv q = false /\ consumer_in_consumer_cv q = false /\ (producer_cv_mutex q <> None \/ consumer_cv_mutex q <> None).
Proof.
  intros Hq. unfold pop, consumer_in_producer_cv, consumer_in_consumer_cv.
  destruct (consumer q) as [|[] ri|mode ri|mode ri|mode ri|mode ri|ri|x|x|x|x]; try (by repeat case_match); eauto.
  - intros H. right; right. split_and!; [done..|]. right. by destruct (consumer_cv_mutex q).
  - intros H. right; right. split_and!; [done..|]. right. by destruct (consumer_cv_mutex q).
  - destruct (m_data q !! slot ri) eqn:Ed; [done|]. apply lookup_ge_None in Ed. pose proof (slot_lt ri). pose proof (qo_data q Hq). lia.
  - intros H. right; right. split_and!; [done..|]. left. by destruct (producer_cv_mutex q).
Qed.

(** Where neither side moves by itself, the queue is full or empty for the one that sleeps. *)
Lemma stuck_phases q : queue_ok q -> emplace q = None -> pop q = None ->
  (producer q = PIdle \/ count q = Capacity /\ exists v wi, producer q = PSleeping v wi) /\
  (consumer q = CIdle \/ count q = 0 /\ exists mode ri, consumer q = CSleeping mode ri /\ stops mode q = false).
Proof.
  intros Hq He Hpop. pose proof Hq as [_ _ _ _ Hp Hk Hm1 Hm2]. unfold producer_ok, consumer_ok in Hp, Hk.
  assert (Hpi : producer q = PIdle \/ (exists v wi, producer q = PSleeping v wi) \/
    producer_in_producer_cv q = false /\ producer_in_consumer_cv q = false) by (destruct (emplace_stuck q He); tauto).
  assert (Hci : consumer q = CIdle \/ (exists mode ri, consumer q = CSleeping mode ri) \/
    consumer_in_producer_cv q = false /\ consumer_in_consumer_cv q = false) by (destruct (pop_stuck q Hq Hpop); tauto).
  assert (Hpf : producer_in_producer_cv q = false /\ producer_in_consumer_cv q = false).
  { unfold producer_in_producer_cv, producer_in_consumer_cv in *. by destruct Hpi as [->|[(? & ? & ->)|?]]. }
  assert (Hcf : consumer_in_producer_cv q = false /\ consumer_in_consumer_cv q = false).
  { unfold consumer_in_producer_cv, consumer_in_consumer_cv in *. by destruct Hci as [->|[(? & ? & ->)|?]]. }
  destruct Hpf as [-> ->] in Hm1, Hm2. destruct Hcf as [-> ->] in Hm1, Hm2.
  assert (Hfree : producer_cv_mutex q = None /\ consumer_cv_mutex q = None).
  { destruct (producer_cv_mutex q) as [[]|], (consumer_cv_mutex q) as [[]|], Hm1, Hm2; done. }
  destruct Hfree as [Hf1 Hf2].
  destruct (emplace_stuck q He) as [Ep|[(v & wi & Ep)|(_ & _ & [?|?])]]; [| |done..];
  destruct (pop_stuck q Hq Hpop) as [Ec|[(mode & ri & Ec)|(_ & _ & [?|?])]]; try done; rewrite Ep, Ec in *; cbn in *; split; eauto.
  1,4: destruct Hk as (_ & _ & ? & [?|[?|?]]); [right; eauto 10|done..].
  all: destruct Hp as [_ [?|?]]; [right; eauto|done].
Qed.

(** [n] steps of either side, without new calls, stops or spurious wake-ups. *)
Inductive runs : nat -> Queue T -> Queue T -> Prop :=
| runs_nil q : runs 0 q q
| runs_producer n q q' e q'' : emplace q = Some (q', e) -> runs n q' q'' -> runs (S n) q q''
| runs_consumer n q q' e q'' : pop q = Some (q', e) -> runs n q' q'' -> runs (S n) q q''.

Lemma runs_weight n q q' : runs n q q' -> (n + weight q' <= weight q)%nat.
Proof.
  intros H. induction H as [q|n q q1 e q2 H _ IH|n q q1 e q2 H _ IH]; [done| |].
  - pose proof (emplace_weight _ _ _ H). lia.
  - pose proof (pop_weight _ _ _ H). lia.
Qed.

Lemma runs_ok n q q' : queue_ok q -> runs n q q' -> queue_ok q'.
Proof. intros Hq H. induction H; [done|apply IHruns; by eapply emplace_ok|apply IHruns; by eapply pop_ok]. Qed.

(** * Theorems *)

(** C18. Any interleaving of the steps of [SPSCQueue] is a run of a bounded list: what is popped is
    what was pushed, in that order, each value once; a call fails only when the list is full, empty, or
    a stop was requested; the list is in the slots between the indices, also after these wrap around. *)
Theorem SPSCQueue_refines data l q : Z.of_nat (length data) = Capacity -> reached data l q ->
  exists items, represents q items /\ spec_runs l (items, stop_requested q) /\
    pushes l = pops l ++ items /\ Z.of_nat (length items) <= Capacity.
Proof.
  intros Hd H. destruct (reached_ok data l q Hd H) as (_ & items & Hr & Hs). exists items.
  destruct (spec_runs_fifo _ _ _ Hs). done.
Qed.

(** C19. The two sides never touch the same slot at once, though no mutex protects the data, and no
    access is out of range. *)
Theorem SPSCQueue_race_free data l q : Z.of_nat (length data) = Capacity -> reached data l q ->
  (forall v wi, producer q = PWriting v wi -> (slot wi < length (m_data q))%nat) /\
  (forall ri, consumer q = CReading ri -> is_Some (m_data q !! slot ri)) /\
  (forall v wi ri, producer q = PWriting v wi -> consumer q = CReading ri -> slot wi <> slot ri).
Proof.
  intros Hd H. destruct (reached_ok data l q Hd H) as (Hq & _). pose proof (qo_data q Hq) as Hdata.
  pose proof (qo_producer q Hq) as Hp. pose proof (qo_consumer q Hq) as Hk. unfold producer_ok, consumer_ok in *.
  assert (Hslot : forall x, (slot x < length (m_data q))%nat) by (intros x; pose proof (slot_lt x); lia).
  split_and!; [done|intros ri _; by apply lookup_lt_is_Some|].
  intros v wi ri Ep Ec He. rewrite Ep in Hp. rewrite Ec in Hk. destruct Hp as [-> Hp], Hk as [-> Hk].
  rewrite slot_write in He by apply Hq. rewrite <- (Z.add_0_r (m_read_index q)) in He at 2. apply slot_inj in He; lia.
Qed.

(** No wake-up is lost and nothing deadlocks: after a bounded number of steps in any order, each
    side has returned, or the producer waits with the queue full, or the consumer waits with the queue
    empty and no stop requested. *)
Theorem SPSCQueue_progress data l q n q' : Z.of_nat (length data) = Capacity -> reached data l q -> runs n q q' ->
  (n <= weight q)%nat /\
  (emplace q' = None -> pop q' = None ->
    (producer q' = PIdle \/ count q' = Capacity /\ exists v wi, producer q' = PSleeping v wi) /\
    (consumer q' = CIdle \/ count q' = 0 /\ exists mode ri, consumer q' = CSleeping mode ri /\ stops mode q' = false)).
Proof.
  intros Hd H Hrun. split; [pose proof (runs_weight _ _ _ Hrun); lia|]. apply stuck_phases.
  eapply runs_ok; [|done]. by apply (reached_ok data l q Hd H).
Qed.

Lemma acts_reached data l0 q l q' es : reached data l0 q -> acts l q = Some (q', es) -> reached data (l0 ++ es) q'.
Proof.
  revert l0 q es. induction l as [|a l IH]; intros l0 q es Hr H; cbn in H.
  - injection H as <- <-. by rewrite app_nil_r.
  - apply bind_Some in H as ([q1 e1] & Ha & H). apply bind_Some in H as ([q2 es2] & Hl & [= <- <-]).
    rewrite app_assoc. eapply IH; [|done]. by eapply reached_act.
Qed.

(** The run of the sides in a given order. *)
Fixpoint run_sides (l : list Side) (q : Queue T) : option (Queue T) :=
  match l with
  | [] => Some q
  | ByProducer :: l => '(q, _) ← emplace q; run_sides l q
  | ByConsumer :: l => '(q, _) ← pop q; run_sides l q
  end.

Lemma run_sides_runs l q q' : run_sides l q = Some q' -> runs (length l) q q'.
Proof.
  revert q. induction l as [|[] l IH]; intros q H; cbn in H; [injection H as <-; constructor|..].
  all: apply bind_Some in H as ([q1 e1] & H1 & H); by econstructor; [|apply IH].
Qed.
End queue.

(** ** A run

    A queue of two slots. The consumer sleeps on the empty queue, is woken by a push, and reads the
    first slot while the producer writes the second one. *)
Definition example_start : list (Action Z) :=
  [Pop PopWait; RunConsumer; RunConsumer; RunConsumer; Push PushWait 7; RunProducer; RunProducer; RunProducer; RunProducer;
   RunProducer; RunProducer; RunProducer; RunProducer; RunConsumer; RunConsumer; RunConsumer; Push PushTry 8; RunProducer].
Definition example_end : list Side :=
  [ByConsumer; ByProducer; ByConsumer; ByProducer; ByProducer; ByConsumer; ByConsumer; ByConsumer; ByProducer; ByProducer].
Definition queue_0 : Queue Z := new_queue [0; 0].
Definition queue_1 : Queue Z := mkQueue 0 1 [7; 0] None None (PWriting 8 1) (CReading 0) false.
Definition queue_2 : Queue Z := mkQueue 1 2 [0; 8] None None PIdle CIdle false.

Lemma queue_1_reached : reached (fun _ => 0) 2 [0; 0] [Pushed 7] queue_1.
Proof. apply (acts_reached (fun _ => 0) 2 [0; 0] [] queue_0 example_start); [constructor|reflexivity]. Qed.

Lemma SPSCQueue_refines_witness : exists items, represents 2 queue_1 items /\ spec_runs 2 [Pushed 7] (items, false) /\
  pushes [Pushed 7] = pops [Pushed 7] ++ items /\ Z.of_nat (length items) <= 2.
Proof.
  apply (SPSCQueue_refines (fun _ => 0) 2 ltac:(vm_compute; split; congruence) eq_refl [0; 0] [Pushed 7] queue_1 eq_refl queue_1_reached).
Defined.

Lemma SPSCQueue_race_free_witness : slot 2 1 <> slot 2 0.
Proof.
  destruct (SPSCQueue_race_free (fun _ => 0) 2 ltac:(vm_compute; split; congruence) eq_refl [0; 0] [Pushed 7] queue_1 eq_refl queue_1_reached)
    as (_ & _ & H).
  apply (H 8 1 0); reflexivity.
Defined.

Lemma SPSCQueue_progress_witness : (10 <= weight queue_1)%nat /\ producer queue_2 = PIdle /\ consumer queue_2 = CIdle.
Proof.
  assert (Hrun : runs (fun _ => 0) 2 10 queue_1 queue_2) by (apply (run_sides_runs _ _ example_end); reflexivity).
  destruct (SPSCQueue_progress (fun _ => 0) 2 ltac:(vm_compute; split; congruence) eq_refl [0; 0] [Pushed 7] queue_1 10 queue_2 eq_refl queue_1_reached Hrun)
    as [Hn H].
  split; [exact Hn|]. destruct (H eq_refl eq_refl) as [[Hp|[Hp _]] [Hc|[Hc _]]];
    solve [split; reflexivity | vm_compute in Hp; discriminate Hp | vm_compute in Hc; discriminate Hc].
Defined.

(** The item that is left is in the second slot. *)
Example queue_2_items : represents 2 queue_2 [8].
Proof. split; [reflexivity|]. intros [|i] x H; [exact H|discriminate H]. Qed.
