(* ===== verification/ManyQueues.v ===== *)
(** The queues for several threads of src/src/common/bounded_threadsafe_queue.h: [MPSCQueue] and
    [MPMCQueue], which take a mutex around each call of a side of [SPSCQueue].

    A thread that calls takes the mutex, runs the call of the inner queue, and releases the mutex.
    Every run is a run of the inner queue, whose theorems then hold of these queues. All the consumers
    of a queue share one stop token. *)
From Stdlib Require Import ZArith Lia.
From stdpp Require Import base list.
From S2P Require Import Prelude.
From S2P Require Import BoundedQueue.

(** A thread is outside; about to take the mutex for a call with argument [a]; has it; is in the call. *)
Inductive Caller (A : Type) := Outside | Locking (a : A) | Locked (a : A) | Within.
Arguments Outside {A}.
Arguments Locking {A} a.
Arguments Locked {A} a.
Arguments Within {A}.

(** One of the mutexes, with the threads that call through it. *)
Record Gate (A : Type) := mkGate { holder : option nat; callers : list (Caller A) }.
Arguments mkGate {A}.
Arguments holder {A} g.
Arguments callers {A} g.
#[export] Instance eta_Gate {A} : Eta (Gate A) := fun g => mkGate (holder g) (callers g).

Definition new_gate {A} (threads : nat) : Gate A := mkGate None (replicate threads Outside).

(** Where a side of the inner queue is between two calls. *)
Definition producer_idle {T} (q : Queue T) : bool := match producer q with PIdle => true | _ => false end.
Definition consumer_idle {T} (q : Queue T) : bool := match consumer q with CIdle => true | _ => false end.

Definition set_caller {A} (t : nat) (c : Caller A) (g : Gate A) : Gate A := g <| callers ::= <[t := c]> |>.

Section many.
Context {T : Type} (moved : T -> T) (Capacity : Z).

(** A method with a [std::scoped_lock]: [enter a] and [next] are the steps of the inner call. *)
Section gate.
Context {A : Type} (enter : A -> Action T) (next : Action T) (idle : Queue T -> bool).

Definition gate_run (t : nat) (q : Queue T) (g : Gate A) : option (Queue T * Gate A * option (Event T)) :=
  c ← callers g !! t;
  match c with
  | Outside => None
  | Locking a =>
      match holder g with None => Some (q, set_caller t (Locked a) (g <| holder := Some t |>), None) | Some _ => None end
  | Locked a => '(q', e) ← act moved Capacity (enter a) q; Some (q', set_caller t Within g, e)
  | Within =>
      if idle q then Some (q, set_caller t Outside (g <| holder := None |>), None)
      else '(q', e) ← act moved Capacity next q; Some (q', g, e)
  end.

Definition gate_call (t : nat) (a : A) (g : Gate A) : option (Gate A) :=
  c ← callers g !! t; match c with Outside => Some (set_caller t (Locking a) g) | _ => None end.
End gate.

Definition push_action (a : PushMode * T) : Action T := Push (fst a) (snd a).
Definition push_run := gate_run push_action RunProducer producer_idle.
Definition pop_run := gate_run Pop RunConsumer consumer_idle.

(** [MPSCQueue]: the consumer calls the inner queue directly. *)
Record MPSCQueue := mkMPSCQueue { mpsc_queue : Queue T; mpsc_write : Gate (PushMode * T) }.
#[export] Instance eta_MPSCQueue : Eta MPSCQueue := fun m => mkMPSCQueue (mpsc_queue m) (mpsc_write m).

Inductive MPSCAction :=
| SCallPush (t : nat) (mode : PushMode) (v : T) | SRunPush (t : nat) | SWakeProducer
| SPop (mode : PopMode) | SRunConsumer | SWakeConsumer | SRequestStop.

(** An action of the inner queue that needs no mutex. *)
Definition mpsc_inner (a : Action T) (m : MPSCQueue) : option (MPSCQueue * option (Event T)) :=
  '(q, e) ← act moved Capacity a (mpsc_queue m); Some (m <| mpsc_queue := q |>, e).

Definition mpsc_act (a : MPSCAction) (m : MPSCQueue) : option (MPSCQueue * option (Event T)) :=
  match a with
  | SCallPush t mode v => g ← gate_call t (mode, v) (mpsc_write m); Some (m <| mpsc_write := g |>, None)
  | SRunPush t => '(q, g, e) ← push_run t (mpsc_queue m) (mpsc_write m); Some (mkMPSCQueue q g, e)
  | SWakeProducer => mpsc_inner WakeProducer m
  | SPop mode => mpsc_inner (Pop mode) m
  | SRunConsumer => mpsc_inner RunConsumer m
  | SWakeConsumer => mpsc_inner WakeConsumer m
  | SRequestStop => mpsc_inner RequestStop m
  end.

Inductive mpsc_reached (data : list T) (threads : nat) : list (Event T) -> MPSCQueue -> Prop :=
| mpsc_new : mpsc_reached data threads [] (mkMPSCQueue (new_queue data) (new_gate threads))
| mpsc_step l m a m' e : mpsc_reached data threads l m -> mpsc_act a m = Some (m', e) ->
    mpsc_reached data threads (l ++ option_list e) m'.

(** [MPMCQueue]: both sides take a mutex. *)
Record MPMCQueue := mkMPMCQueue { spsc_queue : Queue T; write_mutex : Gate (PushMode * T); read_mutex : Gate PopMode }.
#[export] Instance eta_MPMCQueue : Eta MPMCQueue := fun m => mkMPMCQueue (spsc_queue m) (write_mutex m) (read_mutex m).

Inductive MPMCAction :=
| CallPush (t : nat) (mode : PushMode) (v : T) | RunPush (t : nat) | WakePush
| CallPop (t : nat) (mode : PopMode) | RunPop (t : nat) | WakePop | StopRequest.

Definition mpmc_inner (a : Action T) (m : MPMCQueue) : option (MPMCQueue * option (Event T)) :=
  '(q, e) ← act moved Capacity a (spsc_queue m); Some (m <| spsc_queue := q |>, e).

Definition mpmc_act (a : MPMCAction) (m : MPMCQueue) : option (MPMCQueue * option (Event T)) :=
  match a with
  | CallPush t mode v => g ← gate_call t (mode, v) (write_mutex m); Some (m <| write_mutex := g |>, None)
  | RunPush t => '(q, g, e) ← push_run t (spsc_queue m) (write_mutex m); Some (m <| spsc_queue := q |> <| write_mutex := g |>, e)
  | WakePush => mpmc_inner WakeProducer m
  | CallPop t mode => g ← gate_call t mode (read_mutex m); Some (m <| read_mutex := g |>, None)
  | RunPop t => '(q, g, e) ← pop_run t (spsc_queue m) (read_mutex m); Some (m <| spsc_queue := q |> <| read_mutex := g |>, e)
  | WakePop => mpmc_inner WakeConsumer m
  | StopRequest => mpmc_inner RequestStop m
  end.

Inductive mpmc_reached (data : list T) (writers readers : nat) : list (Event T) -> MPMCQueue -> Prop :=
| mpmc_new : mpmc_reached data writers readers [] (mkMPMCQueue (new_queue data) (new_gate writers) (new_gate readers))
| mpmc_step l m a m' e : mpmc_reached data writers readers l m -> mpmc_act a m = Some (m', e) ->
    mpmc_reached data writers readers (l ++ option_list e) m'.

Fixpoint mpmc_acts (l : list MPMCAction) (m : MPMCQueue) : option (MPMCQueue * list (Event T)) :=
  match l with
  | [] => Some (m, [])
  | a :: l => '(m, e) ← mpmc_act a m; '(m, es) ← mpmc_acts l m; Some (m, option_list e ++ es)
  end.

(** * Refinement *)

(** A run of the inner queue, or no step of it. *)
Lemma reached_more data l q a q' e : reached moved Capacity data l q ->
  act moved Capacity a q = Some (q', e) -> reached moved Capacity data (l ++ option_list e) q'.
Proof. intros. by eapply reached_act. Qed.

Lemma reached_same data l q : reached moved Capacity data l q -> reached moved Capacity data (l ++ option_list None) q.
Proof. cbn. by rewrite app_nil_r. Qed.

Lemma gate_run_reached {A} (enter : A -> Action T) next idle t q g q' g' e data l : reached moved Capacity data l q ->
  gate_run enter next idle t q g = Some (q', g', e) -> reached moved Capacity data (l ++ option_list e) q'.
Proof.
  intros Hr H. unfold gate_run in H. apply bind_Some in H as ([|a|a|] & _ & H); try done.
  - destruct (holder g); [done|]. injection H as <- <- <-. by apply reached_same.
  - apply bind_Some in H as ([q1 e1] & Ha & [= <- <- <-]). by eapply reached_more.
  - destruct (idle q); [injection H as <- <- <-; by apply reached_same|].
    apply bind_Some in H as ([q1 e1] & Ha & [= <- <- <-]). by eapply reached_more.
Qed.

Lemma mpsc_inner_reached data threads l m : mpsc_reached data threads l m -> reached moved Capacity data l (mpsc_queue m).
Proof.
  intros H. induction H as [|l m a m' e _ IH Ha]; [constructor|]. unfold mpsc_act, mpsc_inner in Ha.
  destruct a; apply bind_Some in Ha as (x & Hx & Ha).
  1: injection Ha as <- <-; by apply reached_same.
  1: destruct x as [[q g] e1]; injection Ha as <- <-; by eapply gate_run_reached.
  all: destruct x as [q e1]; injection Ha as <- <-; by eapply reached_more.
Qed.

Lemma mpmc_inner_reached data writers readers l m : mpmc_reached data writers readers l m -> reached moved Capacity data l (spsc_queue m).
Proof.
  intros H. induction H as [|l m a m' e _ IH Ha]; [constructor|]. unfold mpmc_act, mpmc_inner in Ha.
  destruct a; apply bind_Some in Ha as (x & Hx & Ha).
  1,4: injection Ha as <- <-; by apply reached_same.
  1,3: destruct x as [[q g] e1]; injection Ha as <- <-; by eapply gate_run_reached.
  all: destruct x as [q e1]; injection Ha as <- <-; by eapply reached_more.
Qed.

(** * Exclusion *)

Definition in_gate {A} (c : Caller A) : bool := match c with Locked _ | Within => true | _ => false end.

(** The holder of the mutex is the one thread past it, and a busy side is busy with its call. *)
Definition gate_ok {A} (g : Gate A) (idle : bool) : Prop :=
  (forall t, holder g = Some t <-> exists c, callers g !! t = Some c /\ in_gate c = true) /\
  (idle = false -> exists t, callers g !! t = Some Within).

Lemma set_caller_lookup {A} t c (g : Gate A) u d : callers (set_caller t c g) !! u = Some d ->
  (u = t /\ d = c) \/ (u <> t /\ callers g !! u = Some d).
Proof. cbn. intros [(-> & -> & _)|[? ?]]%list_lookup_insert_Some; [by left|right; done]. Qed.

Lemma set_caller_at {A} t c (g : Gate A) c0 : callers g !! t = Some c0 -> callers (set_caller t c g) !! t = Some c.
Proof. intros H. cbn. apply list_lookup_insert_eq. by eapply lookup_lt_Some. Qed.

Lemma set_caller_ne {A} t c (g : Gate A) u : u <> t -> callers (set_caller t c g) !! u = callers g !! u.
Proof. intros H. cbn. by apply list_lookup_insert_ne. Qed.

(** A thread that has the mutex finds the side idle: no call is inside of another. *)
Lemma gate_locked {A} (g : Gate A) idle t a : gate_ok g idle -> callers g !! t = Some (Locked a) -> idle = true.
Proof.
  intros [Hh Hi] Ht. destruct idle; [done|]. destruct (Hi eq_refl) as [u Hu].
  assert (holder g = Some t) by (apply Hh; eauto). assert (holder g = Some u) by (apply Hh; eauto). congruence.
Qed.

(** A thread moves; [h] is the new holder. *)
Lemma gate_move {A} (g : Gate A) idle idle' t c d h : gate_ok g idle -> callers g !! t = Some c ->
  h = (if in_gate d then Some t else if in_gate c then None else holder g) ->
  (in_gate d = true -> in_gate c = true \/ holder g = None) ->
  (idle' = false -> d = Within \/ idle = false /\ c <> Within) ->
  gate_ok (set_caller t d (g <| holder := h |>)) idle'.
Proof.
  intros [Hh Hi] Hc Eh Hd Hidle. split.
  - intros u. assert (El : holder (set_caller t d (g <| holder := h |>)) = h) by by destruct g. rewrite El. subst h. split.
    + intros E. destruct (in_gate d) eqn:Ed; [injection E as <-; exists d; split; [by eapply set_caller_at|done]|].
      destruct (in_gate c) eqn:Ec; [done|]. apply Hh in E as (e & He & Hg).
      exists e. rewrite set_caller_ne; [done|intros ->; congruence].
    + intros (e & [[-> ->]|[Hne He]]%set_caller_lookup & Hg); [by rewrite Hg|]. cbn in He.
      assert (Hu : holder g = Some u) by (apply Hh; eauto).
      destruct (in_gate c) eqn:Ec; [assert (holder g = Some t) by (apply Hh; eauto); congruence|].
      destruct (in_gate d); [destruct (Hd eq_refl); congruence|done].
  - intros E. destruct (Hidle E) as [->|[E' Hne]]; [exists t; by eapply set_caller_at|].
    destruct (Hi E') as [u Hu]. exists u. rewrite set_caller_ne; [done|intros ->; congruence].
Qed.

Lemma gate_call_ok {A} t (a : A) g g' idle : gate_ok g idle -> gate_call t a g = Some g' -> gate_ok g' idle.
Proof.
  intros Hg H. apply bind_Some in H as ([|?|?|] & Hc & H); try done. injection H as <-.
  replace g with (g <| holder := holder g |>) by by destruct g. eapply gate_move; try done. by right.
Qed.

Lemma gate_run_ok {A} (enter : A -> Action T) next idle t q g q' g' e : gate_ok g (idle q) ->
  gate_run enter next idle t q g = Some (q', g', e) -> gate_ok g' (idle q').
Proof.
  intros Hg H. unfold gate_run in H. apply bind_Some in H as (c & Hc & H). destruct c as [|a|a|]; try done.
  - destruct (holder g) eqn:Eh; [done|]. injection H as <- <- <-. eapply gate_move; try done; by right.
  - apply bind_Some in H as ([q1 e1] & Ha & [= <- <- <-]).
    replace g with (g <| holder := Some t |>).
    + eapply gate_move; try done; by left.
    + assert (Hh : holder g = Some t) by (apply Hg; eauto). destruct g; cbn in *; by rewrite Hh.
  - destruct (idle q) eqn:Ei; [injection H as <- <- <-; rewrite Ei; by eapply gate_move|].
    apply bind_Some in H as ([q1 e1] & Ha & [= <- <- <-]). split; [apply Hg|]. eauto.
Qed.

(** The branches of a step. *)
Ltac cases H := repeat match type of H with context [match ?x with _ => _ end] => destruct x; try done end.

(** The steps of the one side leave the other one busy or idle. *)
Lemma act_producer_idle a q q' e : act moved Capacity a q = Some (q', e) ->
  match a with Push _ _ | RunProducer => True | _ => producer_idle q' = producer_idle q end.
Proof.
  intros H. unfold producer_idle. destruct a as [mode v|mode| | | | |]; cbn in H; try done.
  - destruct (consumer q); simplify_eq. done.
  - unfold pop in H. destruct (consumer q) as [|[] ri|mode ri|mode ri|mode ri|mode ri|ri|v|v|v|v]; try done.
    all: try (apply bind_Some in H as (x & _ & H)); cases H; injection H as <- <-; try done. cbn. by destruct (producer q).
  - destruct (producer q) eqn:Ep; simplify_eq. done.
  - destruct (consumer q); simplify_eq. done.
  - by injection H as <- <-.
Qed.

Lemma act_consumer_idle a q q' e : act moved Capacity a q = Some (q', e) ->
  match a with Pop _ | RunConsumer => True | _ => consumer_idle q' = consumer_idle q end.
Proof.
  intros H. unfold consumer_idle. destruct a as [mode v|mode| | | | |]; cbn in H; try done.
  - destruct (producer q); simplify_eq. done.
  - unfold emplace in H. destruct (producer q) as [|[] v wi|v wi|v wi|v wi|v wi|v wi|v| | |]; try done.
    all: cases H; injection H as <- <-; try done. cbn. by destruct (consumer q).
  - destruct (producer q) eqn:Ep; simplify_eq. done.
  - destruct (consumer q) eqn:Ec; simplify_eq. done.
  - injection H as <- <-. cbn. by destruct (consumer q) as [| | | |[] ?| | | | | |].
Qed.

Lemma new_gate_ok {A} threads : gate_ok (@new_gate A threads) true.
Proof.
  split; [|done]. intros t. split; [done|]. intros (c & Hc & Hg). apply lookup_replicate in Hc as [-> _]. done.
Qed.

Lemma gate_run_other {A} (enter : A -> Action T) next idle (other : Queue T -> bool) t q g q' g' e :
  (forall a q1 e1, act moved Capacity (enter a) q = Some (q1, e1) -> other q1 = other q) ->
  (forall q1 e1, act moved Capacity next q = Some (q1, e1) -> other q1 = other q) ->
  gate_run enter next idle t q g = Some (q', g', e) -> other q' = other q.
Proof.
  intros He Hn H. unfold gate_run in H. apply bind_Some in H as ([|a|a|] & _ & H); try done.
  - destruct (holder g); [done|]. by injection H as <- <- <-.
  - apply bind_Some in H as ([q1 e1] & Ha & [= <- <- <-]). by eapply He.
  - destruct (idle q); [by injection H as <- <- <-|]. apply bind_Some in H as ([q1 e1] & Ha & [= <- <- <-]). by eapply Hn.
Qed.

Lemma push_run_consumer t q g q' g' e : push_run t q g = Some (q', g', e) -> consumer_idle q' = consumer_idle q.
Proof. apply gate_run_other; intros; match goal with H : act _ _ _ _ = _ |- _ => by apply act_consumer_idle in H end. Qed.
Lemma pop_run_producer t q g q' g' e : pop_run t q g = Some (q', g', e) -> producer_idle q' = producer_idle q.
Proof. apply gate_run_other; intros; match goal with H : act _ _ _ _ = _ |- _ => by apply act_producer_idle in H end. Qed.

Lemma mpsc_gate_ok data threads l m : mpsc_reached data threads l m -> gate_ok (mpsc_write m) (producer_idle (mpsc_queue m)).
Proof.
  intros H. induction H as [|l m a m' e _ IH Ha]; [apply new_gate_ok|]. unfold mpsc_act, mpsc_inner in Ha.
  destruct a; apply bind_Some in Ha as (x & Hx & Ha); cbn in Ha.
  1: injection Ha as <- <-; by eapply gate_call_ok.
  1: destruct x as [[q g] e1]; injection Ha as <- <-; by eapply gate_run_ok.
  all: destruct x as [q e1]; injection Ha as <- <-; cbn; by rewrite (act_producer_idle _ _ _ _ Hx).
Qed.

Lemma mpmc_gates_ok data writers readers l m : mpmc_reached data writers readers l m ->
  gate_ok (write_mutex m) (producer_idle (spsc_queue m)) /\ gate_ok (read_mutex m) (consumer_idle (spsc_queue m)).
Proof.
  intros H. induction H as [|l m a m' e _ [IHw IHr] Ha]; [by split; apply new_gate_ok|]. unfold mpmc_act, mpmc_inner in Ha.
  destruct a; apply bind_Some in Ha as (x & Hx & Ha); cbn in Ha.
  1: injection Ha as <- <-; split; [by eapply gate_call_ok|done].
  1: destruct x as [[q g] e1]; injection Ha as <- <-; split; [by eapply gate_run_ok|cbn; by rewrite (push_run_consumer _ _ _ _ _ _ Hx)].
  2: injection Ha as <- <-; split; [done|by eapply gate_call_ok].
  2: destruct x as [[q g] e1]; injection Ha as <- <-; split; [cbn; by rewrite (pop_run_producer _ _ _ _ _ _ Hx)|by eapply gate_run_ok].
  all: destruct x as [q e1]; injection Ha as <- <-; cbn;
    by rewrite (act_producer_idle _ _ _ _ Hx), (act_consumer_idle _ _ _ _ Hx).
Qed.

(** * Progress *)

(** A call that waits for the mutex has still to take it, enter, run and release it. *)
Definition caller_weight {A} (c : Caller A) : nat :=
  match c with Outside => 0 | Within => 1 | Locked _ => 17 | Locking _ => 18 end.
Definition gate_weight {A} (g : Gate A) : nat := sum_list_with caller_weight (callers g).
Definition mpmc_weight (m : MPMCQueue) : nat := weight (spsc_queue m) + gate_weight (write_mutex m) + gate_weight (read_mutex m).

Lemma set_caller_weight {A} t c (g : Gate A) c0 : callers g !! t = Some c0 ->
  (gate_weight (set_caller t c g) + caller_weight c0 = gate_weight g + caller_weight c)%nat.
Proof.
  unfold gate_weight. cbn. generalize (callers g). intros l. revert t. induction l as [|x l IH]; intros [|t] H; try done.
  - injection H as ->. cbn. lia.
  - specialize (IH t H). change (<[S t := c]> (x :: l)) with (x :: <[t := c]> l). cbn [sum_list_with]. lia.
Qed.

Lemma gate_run_weight {A} (enter : A -> Action T) next idle t q g q' g' e :
  (forall a q1 e1, act moved Capacity (enter a) q = Some (q1, e1) -> (weight q1 <= weight q + 15)%nat) ->
  (forall q1 e1, act moved Capacity next q = Some (q1, e1) -> (weight q1 < weight q)%nat) ->
  gate_run enter next idle t q g = Some (q', g', e) -> (weight q' + gate_weight g' < weight q + gate_weight g)%nat.
Proof.
  intros He Hn H. unfold gate_run in H. apply bind_Some in H as (c & Hc & H). destruct c as [|a|a|]; try done.
  - destruct (holder g); [done|]. injection H as <- <- <-.
    pose proof (set_caller_weight t (Locked a) (mkGate (Some t) (callers g)) _ Hc) as Hw. cbn [caller_weight] in Hw.
    unfold gate_weight in *. cbn in *. lia.
  - apply bind_Some in H as ([q1 e1] & Ha & [= <- <- <-]). apply He in Ha.
    pose proof (set_caller_weight t Within g _ Hc) as Hw. cbn [caller_weight] in Hw. lia.
  - destruct (idle q).
    + injection H as <- <- <-.
      pose proof (set_caller_weight t Outside (mkGate None (callers g)) _ Hc) as Hw. cbn [caller_weight] in Hw.
      unfold gate_weight in *. cbn in *. lia.
    + apply bind_Some in H as ([q1 e1] & Ha & [= <- <- <-]). apply Hn in Ha. lia.
Qed.

Lemma push_run_weight t q g q' g' e : push_run t q g = Some (q', g', e) -> (weight q' + gate_weight g' < weight q + gate_weight g)%nat.
Proof.
  apply gate_run_weight; [|intros q1 e1 H; by eapply emplace_weight]. intros [mode v] q1 e1 H. cbn in H.
  unfold weight. destruct (producer q); try done. injection H as <- <-. cbn.
  change (consumer_weight _) with (consumer_weight q). lia.
Qed.

Lemma pop_run_weight t q g q' g' e : pop_run t q g = Some (q', g', e) -> (weight q' + gate_weight g' < weight q + gate_weight g)%nat.
Proof.
  apply gate_run_weight; [|intros q1 e1 H; by eapply pop_weight]. intros mode q1 e1 H. cbn in H.
  unfold weight, consumer_weight. destruct (consumer q); try done. injection H as <- <-. cbn. lia.
Qed.

(** [n] steps of any threads that go on with their calls. *)
Inductive mpmc_runs : nat -> MPMCQueue -> MPMCQueue -> Prop :=
| mpmc_runs_nil m : mpmc_runs 0 m m
| mpmc_runs_push n m t m' e m'' : mpmc_act (RunPush t) m = Some (m', e) -> mpmc_runs n m' m'' -> mpmc_runs (S n) m m''
| mpmc_runs_pop n m t m' e m'' : mpmc_act (RunPop t) m = Some (m', e) -> mpmc_runs n m' m'' -> mpmc_runs (S n) m m''.

Lemma mpmc_runs_weight n m m' : mpmc_runs n m m' -> (n + mpmc_weight m' <= mpmc_weight m)%nat.
Proof.
  intros H. induction H as [m|n m t m1 e m2 H _ IH|n m t m1 e m2 H _ IH]; [done| |].
  all: cbn in H; apply bind_Some in H as ([[q g] e1] & H & [= <- <-]).
  - apply push_run_weight in H. unfold mpmc_weight in *. cbn in *. lia.
  - apply pop_run_weight in H. unfold mpmc_weight in *. cbn in *. lia.
Qed.

Lemma mpmc_runs_reached data writers readers l n m m' : mpmc_reached data writers readers l m -> mpmc_runs n m m' ->
  exists l', mpmc_reached data writers readers l' m'.
Proof.
  intros Hr H. revert l Hr. induction H as [m|n m t m1 e m2 H _ IH|n m t m1 e m2 H _ IH]; intros l Hr; [by exists l|..].
  all: eapply IH; by eapply mpmc_step.
Qed.

(** If no thread of a gate moves, the inner call does not either; who is not outside waits for it. *)
Lemma gate_stuck {A} (enter : A -> Action T) next idle q (g : Gate A) : gate_ok g (idle q) ->
  (forall a, idle q = true -> act moved Capacity (enter a) q <> None) ->
  (idle q = true -> act moved Capacity next q = None) ->
  (forall t, gate_run enter next idle t q g = None) ->
  act moved Capacity next q = None /\ forall t c, callers g !! t = Some c -> c = Outside \/ idle q = false.
Proof.
  intros Hg He Hid Hst. assert (Hnext : idle q = false -> act moved Capacity next q = None).
  { intros Ei. destruct Hg as [_ Hb]. destruct (Hb Ei) as [u Hu]. specialize (Hst u). unfold gate_run in Hst.
    rewrite Hu in Hst. cbn in Hst. rewrite Ei in Hst. by destruct (act moved Capacity next q) as [[]|]. }
  split; [destruct (idle q); auto|]. intros t c Hc. destruct (idle q) eqn:Ei; [left|by right].
  assert (Hin : forall u d, callers g !! u = Some d -> in_gate d = false).
  { intros u d Hu. pose proof (Hst u) as Hs. unfold gate_run in Hs. rewrite Hu in Hs. cbn in Hs. destruct d as [|a|a|]; try done.
    - specialize (He a eq_refl). by destruct (act moved Capacity (enter a) q) as [[]|].
    - by rewrite Ei in Hs. }
  pose proof (Hst t) as Hs. unfold gate_run in Hs. rewrite Hc in Hs. cbn in Hs. pose proof (Hin t c Hc).
  destruct c as [|a|a|]; try done. destruct (holder g) as [u|] eqn:Eh; [|done].
  apply Hg in Eh as (d & Hd & Hgd). by rewrite (Hin u d Hd) in Hgd.
Qed.

Lemma push_stuck q (g : Gate (PushMode * T)) : gate_ok g (producer_idle q) -> (forall t, push_run t q g = None) ->
  emplace Capacity q = None /\ forall t c, callers g !! t = Some c -> c = Outside \/ producer_idle q = false.
Proof.
  intros Hg Hst. apply (gate_stuck push_action RunProducer producer_idle q g); [done|..|exact Hst].
  - intros [mode v]. unfold producer_idle. cbn. by destruct (producer q).
  - unfold producer_idle. cbn. unfold emplace. by destruct (producer q).
Qed.

Lemma pop_gate_stuck q (g : Gate PopMode) : gate_ok g (consumer_idle q) -> (forall t, pop_run t q g = None) ->
  pop moved Capacity q = None /\ forall t c, callers g !! t = Some c -> c = Outside \/ consumer_idle q = false.
Proof.
  intros Hg Hst. apply (gate_stuck Pop RunConsumer consumer_idle q g); [done|..|exact Hst].
  - intros mode. unfold consumer_idle. cbn. by destruct (consumer q).
  - unfold consumer_idle. cbn. unfold pop. by destruct (consumer q).
Qed.

(** * Theorems *)

Hypothesis Capacity_range : 0 < Capacity <= U64_MAX.
Hypothesis Capacity_power : Z.land Capacity (Capacity - 1) = 0.

(** [MPSCQueue] and [MPMCQueue] are bounded lists for any number of threads: whatever the
    threads do, the pops give the pushed values, in order and each once; and a thread that has a mutex
    starts its call with no other call of that side under way. *)
Theorem MPMCQueue_refines data writers readers l m :
  Z.of_nat (length data) = Capacity -> mpmc_reached data writers readers l m ->
  (exists items, represents Capacity (spsc_queue m) items /\ spec_runs Capacity l (items, stop_requested (spsc_queue m)) /\
    pushes l = pops l ++ items /\ Z.of_nat (length items) <= Capacity) /\
  (forall t a, callers (write_mutex m) !! t = Some (Locked a) -> producer (spsc_queue m) = PIdle) /\
  (forall t a, callers (read_mutex m) !! t = Some (Locked a) -> consumer (spsc_queue m) = CIdle) /\
  (forall t u c d, callers (write_mutex m) !! t = Some c -> callers (write_mutex m) !! u = Some d ->
    in_gate c = true -> in_gate d = true -> t = u) /\
  (forall t u c d, callers (read_mutex m) !! t = Some c -> callers (read_mutex m) !! u = Some d ->
    in_gate c = true -> in_gate d = true -> t = u).
Proof.
  intros Hd H. destruct (mpmc_gates_ok _ _ _ _ _ H) as [Hgw Hgr].
  destruct (reached_ok moved Capacity Capacity_range Capacity_power data l (spsc_queue m) Hd) as (_ & items & Hr & Hs);
    [by eapply mpmc_inner_reached|].
  assert (Hone : forall A (g : Gate A) b t u c d, gate_ok g b -> callers g !! t = Some c -> callers g !! u = Some d ->
    in_gate c = true -> in_gate d = true -> t = u).
  { intros A g b t u c d [Hh _] Hc Hd' Ec Ed. assert (holder g = Some t) by (apply Hh; eauto).
    assert (holder g = Some u) by (apply Hh; eauto). congruence. }
  split_and!.
  - exists items. destruct (spec_runs_fifo Capacity Capacity_range _ _ _ Hs). done.
  - intros t a Ht. pose proof (gate_locked _ _ _ _ Hgw Ht) as Hi. unfold producer_idle in Hi. by destruct (producer _).
  - intros t a Ht. pose proof (gate_locked _ _ _ _ Hgr Ht) as Hi. unfold consumer_idle in Hi. by destruct (consumer _).
  - intros t u c d. by apply (Hone _ _ _ t u c d Hgw).
  - intros t u c d. by apply (Hone _ _ _ t u c d Hgr).
Qed.

Theorem MPSCQueue_refines data threads l m :
  Z.of_nat (length data) = Capacity -> mpsc_reached data threads l m ->
  (exists items, represents Capacity (mpsc_queue m) items /\ spec_runs Capacity l (items, stop_requested (mpsc_queue m)) /\
    pushes l = pops l ++ items /\ Z.of_nat (length items) <= Capacity) /\
  (forall t a, callers (mpsc_write m) !! t = Some (Locked a) -> producer (mpsc_queue m) = PIdle).
Proof.
  intros Hd H. pose proof (mpsc_gate_ok _ _ _ _ H) as Hg.
  destruct (reached_ok moved Capacity Capacity_range Capacity_power data l (mpsc_queue m) Hd) as (_ & items & Hr & Hs);
    [by eapply mpsc_inner_reached|].
  split; [exists items; destruct (spec_runs_fifo Capacity Capacity_range _ _ _ Hs); done|].
  intros t a Ht. pose proof (gate_locked _ _ _ _ Hg Ht) as Hi. unfold producer_idle in Hi. by destruct (producer _).
Qed.

(** C20. The calls of [MPMCQueue] finish: no wake-up is lost, and after a bounded number of steps, in
    whatever order the threads take them, every call has returned, but pushes while the queue is full,
    and pops while it is empty and no stop was requested of the one that sleeps. *)
Theorem MPMCQueue_progress data writers readers l n m m' :
  Z.of_nat (length data) = Capacity -> mpmc_reached data writers readers l m -> mpmc_runs n m m' ->
  (n <= mpmc_weight m)%nat /\
  ((forall t, push_run t (spsc_queue m') (write_mutex m') = None) ->
   (forall t, pop_run t (spsc_queue m') (read_mutex m') = None) ->
    (forall t c, callers (write_mutex m') !! t = Some c -> c = Outside \/ count (spsc_queue m') = Capacity) /\
    (forall t c, callers (read_mutex m') !! t = Some c -> c = Outside \/
      count (spsc_queue m') = 0 /\ exists mode ri, consumer (spsc_queue m') = CSleeping mode ri /\ stops mode (spsc_queue m') = false)).
Proof.
  intros Hd H Hrun. split; [pose proof (mpmc_runs_weight _ _ _ Hrun); lia|]. intros Hpush Hpop.
  destruct (mpmc_runs_reached _ _ _ _ _ _ _ H Hrun) as (l' & H').
  destruct (mpmc_gates_ok _ _ _ _ _ H') as [Hgw Hgr].
  destruct (push_stuck _ _ Hgw Hpush) as [He Hw]. destruct (pop_gate_stuck _ _ Hgr Hpop) as [Hp Hr].
  destruct (reached_ok moved Capacity Capacity_range Capacity_power data l' (spsc_queue m') Hd) as (Hq & _);
    [by eapply mpmc_inner_reached|].
  destruct (stuck_phases moved Capacity Capacity_range _ Hq He Hp) as [Hsp Hsc].
  split; intros t c Hc.
  - destruct (Hw t c Hc) as [|Hi]; [by left|right]. unfold producer_idle in Hi. destruct Hsp as [Ep|[? _]]; [by rewrite Ep in Hi|done].
  - destruct (Hr t c Hc) as [|Hi]; [by left|right]. unfold consumer_idle in Hi. destruct Hsc as [Ec|?]; [by rewrite Ec in Hi|done].
Qed.
End many.

(** ** A run

    A queue of one slot. Thread 0 pushes 5, thread 1 finds the queue full and sleeps with the mutex,
    thread 0 wants to push again and waits for the mutex; then thread 0 of the consumers pops. *)
Definition example_start : list (@MPMCAction Z) :=
  [CallPush 0 PushWait 5; RunPush 0; RunPush 0; RunPush 0; RunPush 0; RunPush 0; RunPush 0; RunPush 0; RunPush 0;
   RunPush 0; RunPush 0; RunPush 0; CallPush 1 PushWait 6; RunPush 1; RunPush 1; RunPush 1; RunPush 1; RunPush 1;
   CallPush 0 PushTry 7; CallPop 0 PopWait; RunPop 0; RunPop 0].
Definition many_0 : @MPMCQueue Z := mkMPMCQueue (new_queue [0]) (new_gate 2) (new_gate 1).

(** The run of the threads in a given order: [inl t] goes on with a push, [inr t] with a pop. *)
Fixpoint run_threads (l : list (nat + nat)) (m : @MPMCQueue Z) : option (@MPMCQueue Z) :=
  match l with
  | [] => Some m
  | inl t :: l => '(m, _) ← mpmc_act (fun _ => 0) 1 (RunPush t) m; run_threads l m
  | inr t :: l => '(m, _) ← mpmc_act (fun _ => 0) 1 (RunPop t) m; run_threads l m
  end.

Lemma run_threads_runs l m m' : run_threads l m = Some m' -> mpmc_runs (fun _ => 0) 1 (length l) m m'.
Proof.
  revert m. induction l as [|[t|t] l IH]; intros m H; cbn [run_threads] in H; [injection H as <-; constructor|..].
  all: apply bind_Some in H as ([m1 e1] & H1 & H).
  - eapply mpmc_runs_push; [exact H1|by apply IH].
  - eapply mpmc_runs_pop; [exact H1|by apply IH].
Qed.

Definition example_end : list (nat + nat) :=
  replicate 9 (inr 0%nat) ++ replicate 9 (inl 1%nat) ++ replicate 4 (inl 0%nat).
Definition many_1 : @MPMCQueue Z :=
  mkMPMCQueue (mkQueue 0 1 [5] None None (PSleeping 6 1) (CLoaded PopWait 0) false)
    (mkGate (Some 1%nat) [Locking (PushTry, 7); Within]) (mkGate (Some 0%nat) [Within]).
Definition many_2 : @MPMCQueue Z :=
  mkMPMCQueue (mkQueue 1 2 [6] None None PIdle CIdle false) (mkGate None [Outside; Outside]) (mkGate None [Outside]).

Lemma mpmc_acts_reached (data : list Z) w r l0 m l m' es : mpmc_reached (fun _ => 0) 1 data w r l0 m ->
  mpmc_acts (fun _ => 0) 1 l m = Some (m', es) -> mpmc_reached (fun _ => 0) 1 data w r (l0 ++ es) m'.
Proof.
  revert l0 m es. induction l as [|a l IH]; intros l0 m es Hr H; cbn [mpmc_acts] in H.
  - injection H as <- <-. by rewrite app_nil_r.
  - apply bind_Some in H as ([m1 e1] & Ha & H). apply bind_Some in H as ([m2 es2] & Hl & [= <- <-]).
    rewrite app_assoc. eapply IH; [|done]. by eapply mpmc_step.
Qed.

Lemma many_1_reached : mpmc_reached (fun _ => 0) 1 [0] 2 1 [Pushed 5] many_1.
Proof. apply (mpmc_acts_reached [0] 2 1 [] many_0 example_start); [constructor|reflexivity]. Qed.

Lemma MPMCQueue_refines_witness :
  (exists items, represents 1 (spsc_queue many_1) items /\ pushes [Pushed 5] = pops [Pushed 5] ++ items) /\
  (forall t u c d, callers (write_mutex many_1) !! t = Some c -> callers (write_mutex many_1) !! u = Some d ->
    in_gate c = true -> in_gate d = true -> t = u).
Proof.
  destruct (MPMCQueue_refines (fun _ => 0) 1 ltac:(vm_compute; split; congruence) eq_refl [0] 2 1 [Pushed 5] many_1 eq_refl many_1_reached)
    as ((items & Hr & _ & Hl & _) & _ & _ & H & _).
  split; [exists items; split; [exact Hr|exact Hl]|exact H].
Defined.

Lemma MPMCQueue_progress_witness : (22 <= mpmc_weight many_1)%nat /\
  ((forall t, push_run (fun _ => 0) 1 t (spsc_queue many_2) (write_mutex many_2) = None) ->
   (forall t, pop_run (fun _ => 0) 1 t (spsc_queue many_2) (read_mutex many_2) = None) ->
   forall t c, callers (write_mutex many_2) !! t = Some c -> c = Outside \/ count (spsc_queue many_2) = 1).
Proof.
  assert (Hrun : mpmc_runs (fun _ => 0) 1 22 many_1 many_2) by (apply (run_threads_runs example_end); reflexivity).
  destruct (MPMCQueue_progress (fun _ => 0) 1 ltac:(vm_compute; split; congruence) eq_refl [0] 2 1 [Pushed 5] 22 many_1 many_2
    eq_refl many_1_reached Hrun) as [Hn H].
  split; [exact Hn|]. intros H1 H2. exact (proj1 (H H1 H2)).
Defined.

(** [TryEmplace] waits for the mutex, also when the thread that holds it sleeps on the full queue: no
    thread can go on before a pop. *)
Definition many_3 : @MPMCQueue Z :=
  mkMPMCQueue (mkQueue 0 1 [5] None None (PSleeping 6 1) CIdle false)
    (mkGate (Some 1%nat) [Locking (PushTry, 7); Within]) (mkGate None [Outside]).

Theorem TryEmplace_waits : mpmc_reached (fun _ => 0) 1 [0] 2 1 [Pushed 5] many_3 /\
  callers (write_mutex many_3) !! 0%nat = Some (Locking (PushTry, 7)) /\
  forall t, push_run (fun _ => 0) 1 t (spsc_queue many_3) (write_mutex many_3) = None.
Proof.
  split; [|split; [done|intros [|[|[|t]]]; reflexivity]].
  apply (mpmc_acts_reached [0] 2 1 [] many_0 (take 19 example_start)); [constructor|reflexivity].
Qed.
